(* ===== verification/_CoqProject ===== *)
-Q . S2P
Prelude.v
Mem.v
Clib.v
Opcodes.v
Object.v
Debug.v
Zio.v
Lex.v
Lstring.v
LexFacts.v
LexWords.v
Dump.v
DumpFacts.v
Table.v
TableNum.v
TableSet.v
TableResize.v
TableOps.v
TableWalk.v
Rawtable.v
TableProps.v
Auxlib.v
AuxFacts.v
Tablib.v
TablibFacts.v
TabProps.v
Strmatch.v
Strsem.v
Strfacts.v
Strequiv.v
Strlib.v
Strrun.v
Strformat.v
Strquote.v
Strsafe.v
StrformatFacts.v
StrProps.v
Code.v
JumpLists.v
CodeJumps.v
CodeEmit.v
CodeExp.v
CodeProps.v
Parser.v
ParseState.v
ParseSafe.v
State.v
Barrier.v
Func.v
Tm.v
Do.v
Vm.v
Run.v
Lstate.v
Gc.v
Api.v
Debugapi.v
Laux.v
Load.v
Baselib.v
Mathlib.v
Dblib.v
Loadlib.v
Luac.v
Sample.v
Programs.v
VmFlow.v
StateFacts.v
GcTable.v
GcMark.v
GcPropagate.v
GcAtomic.v
GcAlive.v
GcSweep.v
GcCycle.v
GcBarrier.v
GcProps.v
FuncFacts.v
PcallFacts.v
LoadFacts.v
