(* ===== verification/Prelude.v ===== *)
(** * Lua 5.1: a verification development

    The repository is a port of Lua to Zig (src/src) together with the
    reference implementation of Lua 5.1.5 in C (src/lua-5.1/src), which this
    development models.  File names below are those of src/lua-5.1/src.

    ** The program

    A Lua source text comes from a reader in blocks (lzio.c); the scanner
    (llex.c) makes tokens of its characters; the parser (lparser.c), a
    one-pass recursive descent compiler, drives the scanner and calls the
    code generator (lcode.c), which fills a function prototype (lobject.h)
    with 32-bit instructions (lopcodes.h).  A prototype can be written as a
    precompiled chunk (ldump.c) and read back (lundump.c); what is read is
    checked by the bytecode verifier (ldebug.c), the symbolic execution of
    which also names variables in error messages.

    A prototype and the upvalues it captures are a closure (lfunc.c), which the
    virtual machine (lvm.c) runs on the stack of a thread (lstate.c); calls,
    errors and coroutines are in ldo.c, tables in ltable.c, tag methods in
    ltm.c, interned strings in lstring.c.  The collector (lgc.c) marks and sweeps
    the heap in small steps between instructions.  A host, and the standard
    libraries, use all this through the functions of lapi.c and lauxlib.c.

    ** The files

    Foundations:
    - [Prelude.v]: bytes, machine integers, C arrays, the monads [outcome]
      (result, error raised with luaD_throw, undefined behaviour, fuel
      exhausted) and [ST] (a state besides), their lemmas and tactics.
    - [Mem.v]: growing vectors (lmem.c, lmem.h); [Clib.v]: character classes,
      string functions, IEEE numbers, strtod, the number macros of luaconf.h.
    - [Opcodes.v]: the instruction format (lopcodes.h, lopcodes.c);
      [Object.v]: values, prototypes and lobject.c.

    Compilation and chunks:
    - [Zio.v]: streams and buffers (lzio.c), and the class [ByteStream] a
      scanner reads from, with its laws; [Lex.v]: llex.c over any such stream;
      [LexFacts.v], [LexWords.v]: its properties.
    - [Code.v]: lcode.c and the data of lparser.h; [JumpLists.v],
      [CodeJumps.v], [CodeEmit.v], [CodeExp.v], [CodeProps.v]: the invariant of a function
      under construction, and what keeps it; [Parser.v]: lparser.c;
      [ParseState.v], [ParseSafe.v]: the invariant of the parser's state, and
      a lemma for each of its functions.
    - [Debug.v]: the bytecode verifier and the variable names (ldebug.c), with
      the meaning of the instruction set as a step relation between places of
      the code.
    - [Dump.v]: ldump.c and lundump.c; [DumpFacts.v]: format, round trip, safety.

    Tables and strings:
    - [Table.v]: ltable.c; [TableNum.v] to [TableWalk.v]: the finite map that a
      table stands for, and the operations on it; [TableProps.v]: their
      properties; [Rawtable.v]: the functions of lapi.c on tables, and the class
      [RawTable] of what a library relies on.
    - [Lstring.v]: the string table (lstring.c), on its own.
    - [Auxlib.v]: errors, arguments, buffers and references of lauxlib.c for a C
      function that is given as a function of its arguments; [Tablib.v]
      (ltablib.c); [Strmatch.v], [Strlib.v], [Strformat.v] (lstrlib.c);
      [Strsem.v]: what a pattern means; [AuxFacts.v], [TablibFacts.v],
      [TabProps.v] and the other files [Str*.v]: their properties.

    The running program:
    - [State.v]: values, threads, the heap (lstate.h, lobject.h) and the monad
      [M] of computations on them: a result, a long jump to a handler, exit of
      the process, undefined behaviour, fuel exhausted.
    - [Barrier.v]: colours and write barriers (lgc.h); [Func.v]: closures and
      upvalues (lfunc.c); [Tm.v]: ltm.c; [Do.v]: the stack, errors, calls
      (ldo.c, ldebug.c), over the class [Calling] of what [luaD_call] does;
      [Vm.v]: lvm.c; [Run.v] closes the knot between them; [Lstate.v]: new
      states and threads; [Gc.v]: every phase of a collection, and
      [lua_close].
    - [Api.v]: lapi.c; [Debugapi.v]: hooks and [lua_getinfo] (ldebug.c);
      [Laux.v]: lauxlib.c on a running state; [Load.v]: [lua_load], [lua_dump].
    - [Baselib.v], [Mathlib.v], [Dblib.v], [Loadlib.v]: lbaselib.c, lmathlib.c,
      ldblib.c, loadlib.c and linit.c; [Luac.v]: luac.c and print.c.
    - [Sample.v], [Programs.v]: a machine with these libraries, and programs that
      are compiled from their texts and run on it.
    - [VmFlow.v], [StateFacts.v], [FuncFacts.v], [PcallFacts.v], [LoadFacts.v],
      [GcTable.v] to [GcProps.v]: properties of the running program.

    ** The groups of theorems

    - Encodings: operands, jumps, RK operands, floating point bytes and
      numbers survive packing and unpacking (Opcodes.v, Object.v).
    - Verifier: symbolic execution ends and stays inside the arrays of any
      function; an accepted function never executes an instruction outside
      of its code or with operands out of range, up to one hole that is
      proved to be there (Debug.v); the virtual machine goes from an instruction
      only to one the verifier has considered (VmFlow.v).
    - Streams and scanner: reading is independent of the blocks; scanning any
      text of fewer than 2^30 characters ends, uses up input, stays in the
      buffer and counts lines (with 2^30 equal signs in a row an [int] of
      the scanner overflows); names, each of the reserved words, and integers
      are scanned to their tokens (Zio.v, LexFacts.v, LexWords.v).
    - Code generator: jump lists are disjoint and end, they are joined and
      patched as intended, emitted instructions have operands in range
      (CodeProps.v).
    - Parser: for any text, of up to 25,550 characters, it ends, does nothing
      undefined, and its functions are well formed at all depths, with every
      register in range, that of OP_TESTSET included (ParseSafe.v);
      with that many items a constructor needs no extra word for OP_SETLIST.
    - Chunks: a saved function is read back, without its debug information if
      it was stripped; any byte stream is read safely
      and what is accepted is verified; truncated chunks are rejected
      (DumpFacts.v); saving and loading in a running program gives a closure of
      the same prototype, whatever the collector does meanwhile (LoadFacts.v).
    - Tables refine finite maps, through any rehash and the work of the
      collector; traversals visit every entry once; the length is a border
      (TableProps.v).
    - Strings are kept once (Lstring.v).  Libraries: buffers, references, sorting,
      insertion and removal, concatenation (AuxFacts.v, TabProps.v); patterns
      match as they mean, searches and [string.format] are safe and end,
      quoted strings are scanned back (StrProps.v, Strquote.v).
    - Closures share and close upvalues without changing their values
      (FuncFacts.v); a protected call that catches an error restores the state of
      its caller (PcallFacts.v).
    - Collector: a whole cycle keeps what the program can reach by references
      that are not weak, with its contents, and removes only dead entries and
      finalized userdata from weak tables (GcCycle.v); the barriers of tables,
      and of userdata, closures and upvalues, keep the invariant of the marking,
      and outside of the mark phase change nothing but a colour (GcBarrier.v).
    - The comparison of strings with NUL bytes is a lexicographic order over
      [strcoll], in locales whose ties have equal lengths (VmFlow.v).

    ** Conventions and bounds

    Integers are [Z]; wrap-around is written where the code can reach it, and a
    signed overflow that it can reach is undefined ([c_int] of Lex.v; the results
    of conversions that the machine decides are parameters).  An access outside
    of an object is [Undef] ([Wrong] in [M]); the middle [(l+u)/2] of table.sort
    needs no wrap-around, since a table has at most 2^27 elements.  Loops that are
    not structural run on fuel: the loops of the scanner on the number of
    characters left, symbolic execution on the length of the code, jump lists on
    the length of the code, the nesting of functions and syntax levels on
    LUAI_MAXCCALLS, loops over the chains of a table on its size, the loops of the
    collector on the number of objects; where theorems say that a function returns
    or raises an error, they also say that this fuel is enough.  What a program
    of the language may do for ever has fuel as an argument: nested calls and the
    instructions of each call (Run.v), those of a coroutine, the levels of a
    traceback, the search for a file.

    Strings are values that are compared by their contents, as the string table
    (Lstring.v) makes the comparison of pointers do; prototypes are values of
    their closures.  The allocator of the host never fails.  Character classes
    and the decimal point are those of the C locale; the order of strings is
    that of any locale ([Locale]), of which a theorem says what it needs.  Code outside of the sources
    is a parameter: C functions, hooks and the panic function of the host
    ([Machine]), addresses ([Host]), [pow] ([LibM]) and the other functions of
    math.h ([MathH]), [sprintf] ([Cenv]), [rand], the files, the dynamic linker.
    What a value holds before it is set ([junk]) is one too.

    ** Not modelled

    - Amounts of memory: [totalbytes], the threshold and the pace of the
      collector, [lua_gc], [collectgarbage], [gcinfo], errors of memory.  Since
      they decide when [luaC_checkGC] makes a step, the machine's [collect] says
      what it does; the instance of LoadFacts.v collects on every call.
    - The overflow of a table's size, and the intermediate strings that
      [luaO_pushvfstring] and the buffers keep on the stack.
    - [lua_load] with a reader that is a Lua function ([load]); the strings and
      tables that the parser keeps on the stack while it runs.
    - The string and table libraries are functions of their arguments; the
      running machine of Programs.v does not register them.
    - liolib.c and loslib.c, which only call the C library; lua.c, an
      interactive loop; [main] of luac.c.
    - The Zig sources are another implementation of the same language and are
      outside of the development. *)

From Stdlib Require Export ZArith Lia String Ascii.
From stdpp Require Export base tactics numbers list gmap option.

#[global] Open Scope Z_scope.

(** ** Bytes and C strings

    A C [char] is an integer; memory holds its [unsigned char] value
    (0..255).  A byte sequence is a [list Z]; [str] turns a string literal
    into one. *)

Abbreviation bytes := (list Z).

Definition byte_of_ascii (a : ascii) : Z := Z.of_N (N_of_ascii a).

Definition str (s : string) : bytes := byte_of_ascii <$> list_ascii_of_string s.

Definition is_byte (c : Z) : Prop := 0 <= c < 256.

Definition is_byteb (c : Z) : bool := (0 <=? c) && (c <? 256).

(** ** Machine integers (LUAI_BITSINT is 32, [size_t] is 64 bits) *)

Definition u8 (x : Z) : Z := x mod 2 ^ 8.
Definition u32 (x : Z) : Z := x mod 2 ^ 32.
Definition i32 (x : Z) : Z := (x + 2 ^ 31) mod 2 ^ 32 - 2 ^ 31.
Definition s8 (x : Z) : Z := (x + 2 ^ 7) mod 2 ^ 8 - 2 ^ 7.
Definition u64 (x : Z) : Z := x mod 2 ^ 64.

Definition INT_MAX : Z := 2 ^ 31 - 1.

Definition is_u32 (x : Z) : Prop := 0 <= x < 2 ^ 32.
Definition is_i32 (x : Z) : Prop := - 2 ^ 31 <= x < 2 ^ 31.

(** ** C arrays: a list indexed by an [int] *)

Definition getZ {A} (l : list A) (i : Z) : option A :=
  if 0 <=? i then l !! Z.to_nat i else None.

Definition setZ {A} (l : list A) (i : Z) (x : A) : list A :=
  if 0 <=? i then <[Z.to_nat i := x]> l else l.

Definition lenZ {A} (l : list A) : Z := Z.of_nat (length l).

(** ** Outcomes of C code

    [Throw] is [luaD_throw] with its status and message, [Undef] an access
    outside of an object (undefined behaviour of C), [Nofuel] a loop that
    did not finish within the iterations the model allows it. *)

Inductive outcome (A : Type) : Type :=
| Ret (a : A)
| Throw (status : Z) (msg : bytes)
| Undef
| Nofuel.
Arguments Ret {A} a.
Arguments Throw {A} status msg.
Arguments Undef {A}.
Arguments Nofuel {A}.

#[export] Instance outcome_ret : MRet outcome := fun A a => Ret a.
#[export] Instance outcome_bind : MBind outcome := fun A B f m =>
  match m with
  | Ret a => f a
  | Throw s e => Throw s e
  | Undef => Undef
  | Nofuel => Nofuel
  end.

(** [deref o] reads through a pointer that must be valid. *)
Definition deref {A} (o : option A) : outcome A :=
  match o with Some a => Ret a | None => Undef end.

(** The two outcomes a correct program never has. *)
Definition safe {A} (m : outcome A) : Prop :=
  match m with Undef | Nofuel => False | _ => True end.

(** [post m Q]: [m] is defined, and its value satisfies [Q] when it returns;
    it may also raise an error. *)
Definition post {A} (m : outcome A) (Q : A -> Prop) : Prop :=
  match m with Ret a => Q a | Throw _ _ => True | Undef | Nofuel => False end.

(** ** State and errors

    A function of the code that changes a state and may raise an error. *)

Definition ST (S A : Type) : Type := S -> outcome (A * S).

#[export] Instance ST_ret S : MRet (ST S) := fun A a s => Ret (a, s).
#[export] Instance ST_bind S : MBind (ST S) := fun A B f m s =>
  match m s with
  | Ret (a, s') => f a s'
  | Throw st e => Throw st e
  | Undef => Undef
  | Nofuel => Nofuel
  end.

Section state_monad.
Context {S : Type}.

Definition gets {A} (f : S -> A) : ST S A := fun s => Ret (f s, s).
Definition modify (f : S -> S) : ST S unit := fun s => Ret (tt, f s).
Definition throw {A} (status : Z) (msg : bytes) : ST S A := fun _ => Throw status msg.
Definition nofuel {A} : ST S A := fun _ => Nofuel.
Definition lift {A} (m : outcome A) : ST S A := fun s =>
  match m with
  | Ret a => Ret (a, s)
  | Throw st e => Throw st e
  | Undef => Undef
  | Nofuel => Nofuel
  end.
End state_monad.

(** ** Status codes (lua.h) *)
Definition LUA_ERRRUN : Z := 2.
Definition LUA_ERRSYNTAX : Z := 3.
Definition LUA_ERRMEM : Z := 4.
Definition LUA_ERRERR : Z := 5.

(** ** Tactics *)

(** Turn the boolean tests of the code into arithmetic facts. *)
Ltac bool_facts :=
  repeat match goal with
  | H : (_ && _)%bool = true |- _ => apply andb_true_iff in H; destruct H
  | H : (_ || _)%bool = false |- _ => apply orb_false_iff in H; destruct H
  | H : negb _ = true |- _ => apply negb_true_iff in H
  | H : negb _ = false |- _ => apply negb_false_iff in H
  | H : (_ <? _) = true |- _ => apply Z.ltb_lt in H
  | H : (_ <? _) = false |- _ => apply Z.ltb_ge in H
  | H : (_ <=? _) = true |- _ => apply Z.leb_le in H
  | H : (_ <=? _) = false |- _ => apply Z.leb_gt in H
  | H : (_ =? _) = true |- _ => apply Z.eqb_eq in H
  | H : (_ =? _) = false |- _ => apply Z.eqb_neq in H
  end.

(** Linear arithmetic with division and modulo by constants. *)
Ltac dlia := Z.div_mod_to_equations; lia.

(** Case analysis on the next test of a goal. *)
Ltac case_if :=
  match goal with
  | |- context [if ?b then _ else _] => destruct b eqn:?
  end.

(** Invert a successful monadic bind in a hypothesis. *)
Ltac bind_inv H :=
  let a := fresh "a" in let E := fresh "E" in
  match type of H with
  | mbind _ ?m = Ret _ => destruct m as [a| | |] eqn:E; cbn in H; try discriminate H
  end.

(** ** Arrays *)

Section arrays.
Context {A : Type}.
Implicit Types (l : list A) (i j : Z) (x : A).

Lemma getZ_Some l i x : getZ l i = Some x -> 0 <= i < lenZ l.
Proof.
  unfold getZ, lenZ. case_if; [|done]. bool_facts.
  intros ?%lookup_lt_Some. lia.
Qed.

Lemma getZ_is_Some l i : 0 <= i < lenZ l -> is_Some (getZ l i).
Proof.
  unfold getZ, lenZ. intros. rewrite (proj2 (Z.leb_le 0 i)) by lia.
  apply lookup_lt_is_Some. lia.
Qed.

Lemma getZ_None l i : ~ (0 <= i < lenZ l) -> getZ l i = None.
Proof.
  intros. destruct (getZ l i) eqn:E; [|done]. apply getZ_Some in E. lia.
Qed.

Lemma getZ_elem l i x : getZ l i = Some x -> x ∈ l.
Proof. unfold getZ. case_if; [apply list_elem_of_lookup_2|done]. Qed.

Lemma getZ_Forall (P : A -> Prop) l i x : Forall P l -> getZ l i = Some x -> P x.
Proof. unfold getZ. case_if; [apply Forall_lookup_1|done]. Qed.

Lemma lenZ_setZ l i x : lenZ (setZ l i x) = lenZ l.
Proof. unfold lenZ, setZ. case_if; by rewrite ?length_insert. Qed.

Lemma getZ_setZ_eq l i x : 0 <= i < lenZ l -> getZ (setZ l i x) i = Some x.
Proof.
  unfold getZ, setZ, lenZ. intros. rewrite (proj2 (Z.leb_le 0 i)) by lia.
  apply list_lookup_insert_eq. lia.
Qed.

Lemma getZ_setZ_ne l i j x : i <> j -> getZ (setZ l i x) j = getZ l j.
Proof.
  unfold getZ, setZ. intros. repeat case_if; try done. bool_facts.
  apply list_lookup_insert_ne. lia.
Qed.

Lemma lenZ_app l1 l2 : lenZ (l1 ++ l2) = lenZ l1 + lenZ l2.
Proof. unfold lenZ. rewrite length_app. lia. Qed.

Lemma lenZ_nonneg l : 0 <= lenZ l.
Proof. unfold lenZ. lia. Qed.

Lemma lenZ_cons x l : lenZ (x :: l) = lenZ l + 1.
Proof. unfold lenZ. simpl. lia. Qed.

Lemma getZ_app_l l1 l2 i : i < lenZ l1 -> getZ (l1 ++ l2) i = getZ l1 i.
Proof.
  unfold getZ, lenZ. intros. case_if; [|done]. bool_facts.
  apply lookup_app_l. lia.
Qed.

Lemma getZ_app_r l1 l2 i :
  lenZ l1 <= i -> getZ (l1 ++ l2) i = getZ l2 (i - lenZ l1).
Proof.
  unfold getZ, lenZ. intros.
  rewrite (proj2 (Z.leb_le 0 i)), (proj2 (Z.leb_le 0 (i - _))) by lia.
  rewrite lookup_app_r by lia. f_equal. lia.
Qed.
End arrays.

Create HintDb lua discriminated.
Create Rewrite HintDb lua_rw.
#[export] Hint Resolve getZ_Some getZ_is_Some lenZ_nonneg : lua.
#[export] Hint Rewrite @lenZ_setZ @lenZ_app @lenZ_cons : lua_rw.

(** ** Reasoning about outcomes *)

Lemma post_mono {A} (m : outcome A) (P Q : A -> Prop) :
  post m P -> (forall a, P a -> Q a) -> post m Q.
Proof. destruct m; simpl; auto. Qed.

Lemma post_and {A} (m : outcome A) (P Q : A -> Prop) :
  post m P -> post m Q -> post m (fun a => P a /\ Q a).
Proof. destruct m; simpl; auto. Qed.

Lemma post_bind {A B} (m : outcome A) (f : A -> outcome B) P Q :
  post m P -> (forall a, P a -> post (f a) Q) -> post (m ≫= f) Q.
Proof. destruct m; simpl; auto. Qed.

Lemma post_Ret {A} (m : outcome A) (Q : A -> Prop) a : post m Q -> m = Ret a -> Q a.
Proof. by intros H ->. Qed.

Lemma post_deref {A} (o : option A) (Q : A -> Prop) a :
  o = Some a -> Q a -> post (deref o) Q.
Proof. by intros ->. Qed.

Section st_lemmas.
Context {S A B : Type}.
Implicit Types (m : ST S A) (f : A -> ST S B) (s : S).

Lemma st_post_bind m f s P Q :
  post (m s) P -> (forall a s', P (a, s') -> post (f a s') Q) -> post ((m ≫= f) s) Q.
Proof. unfold mbind, ST_bind. destruct (m s) as [[a s']| | |]; simpl; auto. Qed.

Lemma st_bind_Ret m f s b s' :
  (m ≫= f) s = Ret (b, s') -> exists a s1, m s = Ret (a, s1) /\ f a s1 = Ret (b, s').
Proof. unfold mbind, ST_bind. destruct (m s) as [[a s1]| | |]; try done. eauto. Qed.

Lemma st_bind_eq m f s a s1 : m s = Ret (a, s1) -> (m ≫= f) s = f a s1.
Proof. unfold mbind, ST_bind. by intros ->. Qed.
End st_lemmas.

Section st_steps.
Context {S A B C : Type}.
Implicit Types (s : S) (k : A -> ST S B).

Lemma st_gets_bind (f : S -> A) k s : (gets f ≫= k) s = k (f s) s.
Proof. done. Qed.

Lemma st_mret_bind a k s : ((mret a : ST S A) ≫= k) s = k a s.
Proof. done. Qed.

Lemma st_mret a s : (mret a : ST S A) s = Ret (a, s).
Proof. done. Qed.

Lemma st_modify_bind (f : S -> S) (k : unit -> ST S B) s : (modify f ≫= k) s = k tt (f s).
Proof. done. Qed.

Lemma st_throw_bind st e k s : ((throw st e : ST S A) ≫= k) s = Throw st e.
Proof. done. Qed.

Lemma st_lift_bind a k s : (lift (Ret a) ≫= k) s = k a s.
Proof. done. Qed.

Lemma st_bind_bind (m : ST S C) (f : C -> ST S A) k s :
  ((m ≫= f) ≫= k) s = (m ≫= fun c => f c ≫= k) s.
Proof. unfold mbind, ST_bind. by destruct (m s) as [[]| | |]. Qed.
End st_steps.

(** Run the plain steps of a monadic program. *)
Ltac st_simpl :=
  repeat (rewrite ?st_gets_bind, ?st_mret_bind, ?st_modify_bind, ?st_throw_bind,
            ?st_lift_bind, ?st_bind_bind, ?st_mret; cbv beta);
  cbn [post].

(** Reduce the facts a bind leaves about its result. *)
Ltac st_red := cbv beta iota in * |-.

(** ** Machine integers *)

Lemma u32_range x : is_u32 (u32 x).
Proof. apply Z.mod_pos_bound. lia. Qed.

Lemma u32_small x : is_u32 x -> u32 x = x.
Proof. apply Z.mod_small. Qed.

Lemma u8_range x : is_byte (u8 x).
Proof. apply (Z.mod_pos_bound x (2 ^ 8)). lia. Qed.

Lemma u8_small x : is_byte x -> u8 x = x.
Proof. apply (Z.mod_small x (2 ^ 8)). Qed.

Lemma i32_range x : is_i32 (i32 x).
Proof.
  unfold is_i32, i32. pose proof (Z.mod_pos_bound (x + 2 ^ 31) (2 ^ 32)). lia.
Qed.

Lemma i32_small x : is_i32 x -> i32 x = x.
Proof. unfold is_i32, i32. intros. rewrite Z.mod_small; lia. Qed.

Lemma is_byteb_spec c : is_byteb c = true <-> is_byte c.
Proof. unfold is_byteb, is_byte. lia. Qed.

(** Bits of a truncated word. *)
Lemma u32_testbit x k :
  0 <= k -> Z.testbit (u32 x) k = (k <? 32) && Z.testbit x k.
Proof.
  intros. unfold u32. destruct (Z.ltb_spec k 32); simpl.
  - apply Z.mod_pow2_bits_low. lia.
  - apply Z.mod_pow2_bits_high. lia.
Qed.

Lemma is_u32_testbit x k : is_u32 x -> 32 <= k -> Z.testbit x k = false.
Proof.
  intros Hx Hk. rewrite <- (u32_small x Hx), u32_testbit by lia.
  rewrite (proj2 (Z.ltb_ge k 32)) by lia. done.
Qed.

Lemma is_u32_bits x :
  0 <= x -> (forall k, 32 <= k -> Z.testbit x k = false) -> is_u32 x.
Proof.
  intros Hx Hb. replace x with (u32 x); [apply u32_range|].
  apply Z.bits_inj'. intros k Hk. rewrite u32_testbit by done.
  destruct (Z.ltb_spec k 32); simpl; [done|]. symmetry. apply Hb. lia.
Qed.

(** Decide the integer comparisons of a goal about bits. *)
Ltac decide_cmp :=
  repeat match goal with
  | |- context [?a <? ?b] =>
      first [rewrite (proj2 (Z.ltb_lt a b)) by lia
            |rewrite (proj2 (Z.ltb_ge a b)) by lia
            |destruct (Z.ltb_spec a b)]
  | |- context [?a <=? ?b] =>
      first [rewrite (proj2 (Z.leb_le a b)) by lia
            |rewrite (proj2 (Z.leb_gt a b)) by lia
            |destruct (Z.leb_spec a b)]
  end.
