(* ===== verification/Mem.v ===== *)
(** * Growing vectors (lmem.c, lmem.h)

    [luaM_growaux_] chooses the new size of a vector.  The allocator never
    fails, so its effect on the block is to keep the elements.  The theorem
    lets the code generator forget the spare capacity of its vectors: adding
    an element fails exactly when the limit is reached. *)

From S2P Require Import Prelude.

Definition MINSIZEARRAY : Z := 4.

(** The new size, or the error [errormsg] (without the position that
    [luaG_runerror] adds when a Lua function is running) *)
Definition luaM_growaux_ (size limit : Z) (errormsg : bytes) : outcome Z :=
  if Z.quot limit 2 <=? size then
    if limit <=? size then Throw LUA_ERRRUN errormsg else Ret limit
  else
    let newsize := size * 2 in
    Ret (if newsize <? MINSIZEARRAY then MINSIZEARRAY else newsize).

(** [luaM_growvector(L, v, nelems, size, t, limit, e)] *)
Definition luaM_growvector (nelems size limit : Z) (e : bytes) : outcome Z :=
  if size <? nelems + 1 then luaM_growaux_ size limit e else Ret size.

(** Adding one element to a vector of [nelems] elements, the size of which
    nobody looks at *)
Definition grow (nelems limit : Z) (e : bytes) : outcome unit :=
  if limit <=? nelems then Throw LUA_ERRRUN e else Ret tt.

(** [n] elements added one by one to an empty vector: its size *)
Fixpoint pushes (n : nat) (limit : Z) (e : bytes) : outcome Z :=
  match n with
  | O => Ret 0
  | S n => size ← pushes n limit e; luaM_growvector (Z.of_nat n) size limit e
  end.

Lemma growvector_spec nelems size limit e :
  8 <= limit -> 0 <= nelems <= size -> size <= limit ->
  match luaM_growvector nelems size limit e with
  | Ret size' => nelems < limit /\ nelems < size' <= limit /\ size <= size'
  | Throw st m => nelems = limit /\ st = LUA_ERRRUN /\ m = e
  | _ => False
  end.
Proof.
  intros Hl Hn Hs. unfold luaM_growvector, luaM_growaux_, MINSIZEARRAY.
  pose proof (Z.quot_div_nonneg limit 2). 
  assert (2 * Z.quot limit 2 <= limit < 2 * Z.quot limit 2 + 2) by dlia.
  repeat case_if; bool_facts; try lia.
  split_and!; [lia|done|done].
Qed.

(** a vector grown with [luaM_growvector] has room for every new element
    and never more than [limit]; adding an element raises the error of the
    caller exactly when the vector already has [limit] elements. *)
Theorem growvector_exact (n : nat) (limit : Z) (e : bytes) :
  8 <= limit ->
  match pushes n limit e with
  | Ret size =>
      Z.of_nat n <= size <= limit /\
      (luaM_growvector (Z.of_nat n) size limit e = Throw LUA_ERRRUN e <->
         grow (Z.of_nat n) limit e = Throw LUA_ERRRUN e) /\
      (Z.of_nat n < limit -> exists size', luaM_growvector (Z.of_nat n) size limit e = Ret size')
  | Throw st m => limit < Z.of_nat n /\ st = LUA_ERRRUN /\ m = e
  | _ => False
  end.
Proof.
  intros Hl.
  assert (H : match pushes n limit e with
    | Ret size => Z.of_nat n <= size <= limit
    | Throw st m => limit < Z.of_nat n /\ st = LUA_ERRRUN /\ m = e
    | _ => False end).
  { induction n as [|n IH]; cbn [pushes]; [lia|].
    destruct (pushes n limit e) as [size|st m| |]; cbn [mbind outcome_bind]; try done.
    - pose proof (growvector_spec (Z.of_nat n) size limit e Hl) as Hg.
      destruct (luaM_growvector _ _ _ _); try apply Hg; try lia.
      destruct Hg as (Hn & -> & ->); [lia..|]. split_and!; [lia|done|done].
    - destruct IH as (? & ? & ?). split_and!; [lia|done|done]. }
  destruct (pushes n limit e) as [size|st m| |]; try done. split; [done|].
  pose proof (growvector_spec (Z.of_nat n) size limit e Hl) as Hg. unfold grow.
  destruct (luaM_growvector _ _ _ _) as [size'|st m| |]; try (exfalso; apply Hg; lia).
  - destruct Hg as (Hn & _); [lia..|]. rewrite (proj2 (Z.leb_gt _ _)) by lia. split; [done|].
    intros _. by eexists.
  - destruct Hg as (Hn & -> & ->); [lia..|]. rewrite (proj2 (Z.leb_le _ _)) by lia.
    split; [done|]. lia.
Qed.

Lemma growvector_exact_witness :
  match pushes 9 10 (str "full") with
  | Ret size =>
      9 <= size <= 10 /\
      (luaM_growvector 9 size 10 (str "full") = Throw LUA_ERRRUN (str "full") <->
         grow 9 10 (str "full") = Throw LUA_ERRRUN (str "full")) /\
      (9 < 10 -> exists size', luaM_growvector 9 size 10 (str "full") = Ret size')
  | Throw st m => 10 < 9 /\ st = LUA_ERRRUN /\ m = str "full"
  | _ => False
  end.
Proof. apply (growvector_exact 9 10 (str "full")). lia. Defined.
