(* ===== verification/Clib.v ===== *)
(** * What the sources use of the C language and its library

    Character classes of the "C" locale (ctype.h), [double] arithmetic
    (luaconf.h: lua_Number is IEEE-754 binary64, computed by the Standard
    Library's [SpecFloat]), [floor], [strtod], [strtoul] and the string
    functions.  [pow] has no exact specification and is a parameter
    ([LibM]) of whatever uses it. *)

From Stdlib Require Export SpecFloat.
From S2P Require Import Prelude.

(** ** ctype.h *)

Definition isdigit (c : Z) : bool := (48 <=? c) && (c <=? 57).
Definition islower (c : Z) : bool := (97 <=? c) && (c <=? 122).
Definition isupper (c : Z) : bool := (65 <=? c) && (c <=? 90).
Definition isalpha (c : Z) : bool := islower c || isupper c.
Definition isalnum (c : Z) : bool := isalpha c || isdigit c.
Definition isspace (c : Z) : bool := (c =? 32) || ((9 <=? c) && (c <=? 13)).
Definition iscntrl (c : Z) : bool := ((0 <=? c) && (c <? 32)) || (c =? 127).
Definition isprint (c : Z) : bool := (32 <=? c) && (c <=? 126).
Definition ispunct (c : Z) : bool :=
  isprint c && negb (isalnum c) && negb (c =? 32).
Definition isxdigit (c : Z) : bool :=
  isdigit c || ((97 <=? c) && (c <=? 102)) || ((65 <=? c) && (c <=? 70)).
Definition tolower (c : Z) : Z := if isupper c then c + 32 else c.
Definition toupper (c : Z) : Z := if islower c then c - 32 else c.

(** ** string.h: a C string ends before its first zero byte *)

Fixpoint cstr (s : bytes) : bytes :=
  match s with
  | [] => []
  | c :: s' => if c =? 0 then [] else c :: cstr s'
  end.

Definition strlen (s : bytes) : Z := lenZ (cstr s).

(** [strchr(set, c) != NULL]: the terminator counts as part of [set]. *)
Definition strchr (set : bytes) (c : Z) : bool :=
  existsb (Z.eqb c) (cstr set) || (c =? 0).

(** [strcspn(s, reject)] *)
Fixpoint strcspn (s reject : bytes) : Z :=
  match s with
  | [] => 0
  | c :: s' =>
      if (c =? 0) || existsb (Z.eqb c) reject then 0 else 1 + strcspn s' reject
  end.

(** ** lua_Number (luaconf.h) *)

Definition prec : Z := 53.
Definition emax : Z := 1024.

Abbreviation lua_Number := spec_float.

#[export] Instance lua_Number_eq_dec : EqDecision lua_Number.
Proof. solve_decision. Defined.

(** [cast_num(i)] of an integer *)
Definition cast_num (z : Z) : lua_Number := binary_normalize prec emax z 0 false.

Definition luai_numadd (a b : lua_Number) := SFadd prec emax a b.
Definition luai_numsub (a b : lua_Number) := SFsub prec emax a b.
Definition luai_nummul (a b : lua_Number) := SFmul prec emax a b.
Definition luai_numdiv (a b : lua_Number) := SFdiv prec emax a b.
Definition luai_numunm (a : lua_Number) := SFopp a.
Definition luai_numeq (a b : lua_Number) : bool := SFeqb a b.
Definition luai_numlt (a b : lua_Number) : bool := SFltb a b.
Definition luai_numle (a b : lua_Number) : bool := SFleb a b.
Definition luai_numisnan (a : lua_Number) : bool := negb (luai_numeq a a).

(** [floor]: exact, the sign of a zero argument is kept *)
Definition floor (x : lua_Number) : lua_Number :=
  match x with
  | S754_finite s m e =>
      if 0 <=? e then x
      else
        let z := (cond_Zopp s (Zpos m)) / 2 ^ (- e) in
        binary_normalize prec emax z 0 s
  | _ => x
  end.

Definition luai_nummod (a b : lua_Number) : lua_Number :=
  luai_numsub a (luai_nummul (floor (luai_numdiv a b)) b).

Class LibM := { pow : lua_Number -> lua_Number -> lua_Number }.

Definition luai_numpow `{LibM} (a b : lua_Number) : lua_Number := pow a b.

(** Conversion of a [double] to an integer type: truncation, when the value
    fits (otherwise the behaviour is undefined). *)
Definition trunc (x : lua_Number) : option Z :=
  match x with
  | S754_zero _ => Some 0
  | S754_finite s m e =>
      Some (cond_Zopp s (if 0 <=? e then Zpos m * 2 ^ e else Zpos m / 2 ^ (- e)))
  | _ => None
  end.

(** ** stdlib.h: strtod, strtoul *)

(** [m * 10^e10], correctly rounded *)
Definition decimal (s : bool) (m e10 : Z) : lua_Number :=
  match m with
  | Zpos p =>
      if 0 <=? e10 then binary_normalize prec emax (cond_Zopp s (m * 10 ^ e10)) 0 s
      else SFdiv prec emax (S754_finite s p 0)
             (S754_finite false (Z.to_pos (10 ^ (- e10))) 0)
  | _ => S754_zero s
  end.

Fixpoint skip_spaces (s : bytes) : bytes :=
  match s with
  | c :: s' => if isspace c then skip_spaces s' else s
  | [] => []
  end.

(** [read_digits isd val base s acc n]: the longest run of digits, its value
    added to [acc] and its length to [n] *)
Fixpoint read_digits (isd : Z -> bool) (val : Z -> Z) (base : Z)
    (s : bytes) (acc n : Z) : Z * Z * bytes :=
  match s with
  | c :: s' =>
      if isd c then read_digits isd val base s' (acc * base + val c) (n + 1)
      else (acc, n, s)
  | [] => (acc, n, [])
  end.

Definition dec_val (c : Z) : Z := c - 48.
Definition hex_val (c : Z) : Z :=
  if isdigit c then c - 48 else tolower c - 97 + 10.

(** An optional sign *)
Definition read_sign (s : bytes) : bool * bytes :=
  match s with
  | c :: t => if c =? 43 then (false, t) else if c =? 45 then (true, t) else (false, s)
  | [] => (false, s)
  end.

(** An optional exponent part introduced by [mark]; without digits it is not
    part of the number. *)
Definition read_exponent (mark : Z) (s : bytes) : Z * bytes :=
  match s with
  | c :: s1 =>
      if tolower c =? mark then
        let '(neg, s2) := read_sign s1 in
        let '(e, n, s3) := read_digits isdigit dec_val 10 s2 0 0 in
        if n =? 0 then (0, s) else ((if neg then - e else e), s3)
      else (0, s)
  | [] => (0, s)
  end.

(** Digits with an optional fraction: mantissa, number of fraction digits,
    number of digits, rest *)
Definition read_mantissa (isd : Z -> bool) (val : Z -> Z) (base : Z) (s : bytes)
    : Z * Z * Z * bytes :=
  let '(m, n, s1) := read_digits isd val base s 0 0 in
  match s1 with
  | c :: s2 =>
      if c =? 46 then
        let '(m', n', s3) := read_digits isd val base s2 m 0 in
        if n + n' =? 0 then (m, 0, 0, s1) else (m', n', n + n', s3)
      else (m, 0, n, s1)
  | [] => (m, 0, n, s1)
  end.

Fixpoint prefix_nocase (p s : bytes) : option bytes :=
  match p, s with
  | [], _ => Some s
  | c :: p', d :: s' => if tolower d =? c then prefix_nocase p' s' else None
  | _, [] => None
  end.

(** The optional [(n-char-sequence)] of a NaN *)
Definition nan_payload (s : bytes) : bytes :=
  match s with
  | c :: s1 =>
      let '(_, _, r) := read_digits (fun c => isalnum c || (c =? 95)) dec_val 1 s1 0 0 in
      match r with
      | d :: r' => if (c =? 40) && (d =? 41) then r' else s
      | [] => s
      end
  | [] => s
  end.

(** What follows the sign: value and rest, [None] when nothing converts. *)
Definition strtod_unsigned (neg : bool) (s : bytes) : option (lua_Number * bytes) :=
  match prefix_nocase (str "infinity") s with
  | Some r => Some (S754_infinity neg, r)
  | None =>
  match prefix_nocase (str "inf") s with
  | Some r => Some (S754_infinity neg, r)
  | None =>
  match prefix_nocase (str "nan") s with
  | Some r => Some (S754_nan, nan_payload r)
  | None =>
      let dec :=
        let '(m, f, n, r) := read_mantissa isdigit dec_val 10 s in
        if n =? 0 then None
        else let '(e, r') := read_exponent 101 r in
             Some (decimal neg m (e - f), r') in
      match prefix_nocase (str "0x") s with
      | Some r0 =>
          let '(m, f, n, r) := read_mantissa isxdigit hex_val 16 r0 in
          if n =? 0 then dec
          else let '(e, r') := read_exponent 112 r in
               Some (binary_normalize prec emax (cond_Zopp neg m) (e - 4 * f) neg, r')
      | None => dec
      end
  end end end.

(** [strtod(s, &endptr)]: the value and the rest of the string at [endptr];
    the rest is [s] itself when there is no conversion. *)
Definition strtod (s : bytes) : lua_Number * bytes :=
  let s1 := skip_spaces (cstr s) in
  let '(neg, s2) := read_sign s1 in
  match strtod_unsigned neg s2 with
  | Some (v, r) => (v, r)
  | None => (S754_zero false, cstr s)
  end.

(** [strtoul(s, &endptr, base)] for bases 2 to 36 on a 64-bit
    [unsigned long]. *)
Definition any_val (c : Z) : Z :=
  if isdigit c then c - 48 else if isalpha c then tolower c - 97 + 10 else 99.
Definition isdigit_base (base c : Z) : bool := any_val c <? base.

Definition ULONG_MAX : Z := 2 ^ 64 - 1.

Definition strtoul (s : bytes) (base : Z) : Z * bytes :=
  let s1 := skip_spaces (cstr s) in
  let '(neg, s2) := read_sign s1 in
  let s3 := match prefix_nocase (str "0x") s2 with
    | Some (c :: t) => if (base =? 16) && isxdigit c then c :: t else s2
    | _ => s2
    end in
  let '(v, n, r) := read_digits (isdigit_base base) any_val base s3 0 0 in
  if n =? 0 then (0, cstr s)
  else if ULONG_MAX <? v then (ULONG_MAX, r)
  else ((if neg then u64 (- v) else v), r).

(** ** stdio.h: the "%d" conversion *)

Fixpoint digits_fuel (fuel : nat) (n : Z) (acc : bytes) : bytes :=
  match fuel with
  | O => acc
  | S f =>
      let acc' := (48 + n mod 10) :: acc in
      if n / 10 =? 0 then acc' else digits_fuel f (n / 10) acc'
  end.

(** Decimal digits of a natural number: a number of [b] bits has at most
    [b + 1] digits. *)
Definition digits (n : Z) : bytes := digits_fuel (S (Z.to_nat (Z.log2 n))) n [].

Definition fmt_d (n : Z) : bytes :=
  if n <? 0 then 45 :: digits (- n) else digits n.

Example strtod_ex1 :
  strtod (str " -3.25e1x") = (SFdiv prec emax (cast_num (-65)) (cast_num 2), str "x").
Proof. vm_compute. reflexivity. Qed.
Example strtod_ex2 :
  strtod (str "0x1Fp-1") = (SFdiv prec emax (cast_num 31) (cast_num 2), []).
Proof. vm_compute. reflexivity. Qed.
Example strtod_ex3 :
  strtod (str "0.1") = (S754_finite false 7205759403792794 (-56), []).
Proof. vm_compute. reflexivity. Qed.
Example strtod_ex4 : strtod (str "  .e1") = (S754_zero false, str "  .e1").
Proof. vm_compute. reflexivity. Qed.
Example fmt_d_ex : fmt_d (-1203) = str "-1203".
Proof. vm_compute. reflexivity. Qed.
Example mod_ex : luai_nummod (cast_num (-5)) (cast_num 3) = cast_num 1.
Proof. vm_compute. reflexivity. Qed.
