(* ===== verification/Opcodes.v ===== *)
(** * Instructions of the virtual machine (lopcodes.h, lopcodes.c)

    An instruction is an unsigned 32-bit word ([lu_int32]).  The field macros
    keep the masks and shifts of the C code; [getfield] and [setfield] are
    the shape that GETARG_x and SETARG_x share. *)

From S2P Require Import Prelude.

Inductive OpMode := iABC | iABx | iAsBx.

Inductive OpArgMask := OpArgN | OpArgU | OpArgR | OpArgK.

Inductive OpCode :=
| OP_MOVE | OP_LOADK | OP_LOADBOOL | OP_LOADNIL | OP_GETUPVAL
| OP_GETGLOBAL | OP_GETTABLE
| OP_SETGLOBAL | OP_SETUPVAL | OP_SETTABLE
| OP_NEWTABLE
| OP_SELF
| OP_ADD | OP_SUB | OP_MUL | OP_DIV | OP_MOD | OP_POW
| OP_UNM | OP_NOT | OP_LEN
| OP_CONCAT
| OP_JMP
| OP_EQ | OP_LT | OP_LE
| OP_TEST | OP_TESTSET
| OP_CALL | OP_TAILCALL | OP_RETURN
| OP_FORLOOP | OP_FORPREP
| OP_TFORLOOP | OP_SETLIST
| OP_CLOSE | OP_CLOSURE
| OP_VARARG.

#[export] Instance OpCode_eq_dec : EqDecision OpCode.
Proof. solve_decision. Defined.
#[export] Instance OpMode_eq_dec : EqDecision OpMode.
Proof. solve_decision. Defined.
#[export] Instance OpArgMask_eq_dec : EqDecision OpArgMask.
Proof. solve_decision. Defined.

(** The enumeration in the order of the C type. *)
Definition opcodes : list OpCode :=
  [OP_MOVE; OP_LOADK; OP_LOADBOOL; OP_LOADNIL; OP_GETUPVAL; OP_GETGLOBAL;
   OP_GETTABLE; OP_SETGLOBAL; OP_SETUPVAL; OP_SETTABLE; OP_NEWTABLE; OP_SELF;
   OP_ADD; OP_SUB; OP_MUL; OP_DIV; OP_MOD; OP_POW; OP_UNM; OP_NOT; OP_LEN;
   OP_CONCAT; OP_JMP; OP_EQ; OP_LT; OP_LE; OP_TEST; OP_TESTSET; OP_CALL;
   OP_TAILCALL; OP_RETURN; OP_FORLOOP; OP_FORPREP; OP_TFORLOOP; OP_SETLIST;
   OP_CLOSE; OP_CLOSURE; OP_VARARG].

(** The numeric value of an enumerator. *)
Definition op_num (o : OpCode) : Z :=
  match o with
  | OP_MOVE => 0 | OP_LOADK => 1 | OP_LOADBOOL => 2 | OP_LOADNIL => 3
  | OP_GETUPVAL => 4 | OP_GETGLOBAL => 5 | OP_GETTABLE => 6
  | OP_SETGLOBAL => 7 | OP_SETUPVAL => 8 | OP_SETTABLE => 9
  | OP_NEWTABLE => 10 | OP_SELF => 11 | OP_ADD => 12 | OP_SUB => 13
  | OP_MUL => 14 | OP_DIV => 15 | OP_MOD => 16 | OP_POW => 17
  | OP_UNM => 18 | OP_NOT => 19 | OP_LEN => 20 | OP_CONCAT => 21
  | OP_JMP => 22 | OP_EQ => 23 | OP_LT => 24 | OP_LE => 25 | OP_TEST => 26
  | OP_TESTSET => 27 | OP_CALL => 28 | OP_TAILCALL => 29 | OP_RETURN => 30
  | OP_FORLOOP => 31 | OP_FORPREP => 32 | OP_TFORLOOP => 33
  | OP_SETLIST => 34 | OP_CLOSE => 35 | OP_CLOSURE => 36 | OP_VARARG => 37
  end.

(** The enumerator of a number; [None] from [NUM_OPCODES] on. *)
Definition op_of (n : Z) : option OpCode := getZ opcodes n.

Definition NUM_OPCODES : Z := op_num OP_VARARG + 1.

(** ** Size and position of the arguments *)

Definition SIZE_C := 9.
Definition SIZE_B := 9.
Definition SIZE_Bx := SIZE_C + SIZE_B.
Definition SIZE_A := 8.
Definition SIZE_OP := 6.

Definition POS_OP := 0.
Definition POS_A := POS_OP + SIZE_OP.
Definition POS_C := POS_A + SIZE_A.
Definition POS_B := POS_C + SIZE_C.
Definition POS_Bx := POS_C.

Definition MAXARG_Bx := Z.shiftl 1 SIZE_Bx - 1.
Definition MAXARG_sBx := Z.shiftr MAXARG_Bx 1.
Definition MAXARG_A := Z.shiftl 1 SIZE_A - 1.
Definition MAXARG_B := Z.shiftl 1 SIZE_B - 1.
Definition MAXARG_C := Z.shiftl 1 SIZE_C - 1.

(** Masks with [n] one (zero) bits at position [p]. *)
Definition MASK1 (n p : Z) : Z :=
  u32 (Z.shiftl (u32 (Z.lnot (u32 (Z.shiftl (u32 (Z.lnot 0)) n)))) p).
Definition MASK0 (n p : Z) : Z := u32 (Z.lnot (MASK1 n p)).

Definition getfield (size pos i : Z) : Z :=
  Z.land (Z.shiftr i pos) (MASK1 size 0).
Definition setfield (size pos i u : Z) : Z :=
  Z.lor (Z.land i (MASK0 size pos))
        (Z.land (u32 (Z.shiftl (u32 u) pos)) (MASK1 size pos)).

Definition GET_OPCODE := getfield SIZE_OP POS_OP.
Definition SET_OPCODE (i : Z) (o : OpCode) : Z :=
  setfield SIZE_OP POS_OP i (op_num o).
Definition GETARG_A := getfield SIZE_A POS_A.
Definition SETARG_A := setfield SIZE_A POS_A.
Definition GETARG_B := getfield SIZE_B POS_B.
Definition SETARG_B := setfield SIZE_B POS_B.
Definition GETARG_C := getfield SIZE_C POS_C.
Definition SETARG_C := setfield SIZE_C POS_C.
Definition GETARG_Bx := getfield SIZE_Bx POS_Bx.
Definition SETARG_Bx := setfield SIZE_Bx POS_Bx.
Definition GETARG_sBx (i : Z) : Z := GETARG_Bx i - MAXARG_sBx.
Definition SETARG_sBx (i b : Z) : Z := SETARG_Bx i (u32 (b + MAXARG_sBx)).

(** [place pos x] is [cast(Instruction, x) << pos]. *)
Definition place (pos x : Z) : Z := u32 (Z.shiftl (u32 x) pos).

Definition CREATE_ABC (o : OpCode) (a b c : Z) : Z :=
  Z.lor (Z.lor (Z.lor (place POS_OP (op_num o)) (place POS_A a))
    (place POS_B b)) (place POS_C c).
Definition CREATE_ABx (o : OpCode) (a bc : Z) : Z :=
  Z.lor (Z.lor (place POS_OP (op_num o)) (place POS_A a)) (place POS_Bx bc).

(** ** RK operands *)

Definition BITRK := Z.shiftl 1 (SIZE_B - 1).
Definition ISK (x : Z) : bool := negb (Z.land x BITRK =? 0).
Definition INDEXK (r : Z) : Z := Z.land r (Z.lnot BITRK).
Definition MAXINDEXRK := BITRK - 1.
Definition RKASK (x : Z) : Z := Z.lor x BITRK.

Definition NO_REG := MAXARG_A.
Definition LFIELDS_PER_FLUSH := 50.

(** ** Instruction properties (luaP_opmodes) *)

Definition mode_num (m : OpMode) : Z :=
  match m with iABC => 0 | iABx => 1 | iAsBx => 2 end.
Definition mask_num (m : OpArgMask) : Z :=
  match m with OpArgN => 0 | OpArgU => 1 | OpArgR => 2 | OpArgK => 3 end.

Definition opmode (t a : Z) (b c : OpArgMask) (m : OpMode) : Z :=
  Z.lor (Z.lor (Z.lor (Z.lor (Z.shiftl t 7) (Z.shiftl a 6))
    (Z.shiftl (mask_num b) 4)) (Z.shiftl (mask_num c) 2)) (mode_num m).

Definition luaP_opmodes : list Z :=
  [ opmode 0 1 OpArgR OpArgN iABC    (* OP_MOVE *)
  ; opmode 0 1 OpArgK OpArgN iABx    (* OP_LOADK *)
  ; opmode 0 1 OpArgU OpArgU iABC    (* OP_LOADBOOL *)
  ; opmode 0 1 OpArgR OpArgN iABC    (* OP_LOADNIL *)
  ; opmode 0 1 OpArgU OpArgN iABC    (* OP_GETUPVAL *)
  ; opmode 0 1 OpArgK OpArgN iABx    (* OP_GETGLOBAL *)
  ; opmode 0 1 OpArgR OpArgK iABC    (* OP_GETTABLE *)
  ; opmode 0 0 OpArgK OpArgN iABx    (* OP_SETGLOBAL *)
  ; opmode 0 0 OpArgU OpArgN iABC    (* OP_SETUPVAL *)
  ; opmode 0 0 OpArgK OpArgK iABC    (* OP_SETTABLE *)
  ; opmode 0 1 OpArgU OpArgU iABC    (* OP_NEWTABLE *)
  ; opmode 0 1 OpArgR OpArgK iABC    (* OP_SELF *)
  ; opmode 0 1 OpArgK OpArgK iABC    (* OP_ADD *)
  ; opmode 0 1 OpArgK OpArgK iABC    (* OP_SUB *)
  ; opmode 0 1 OpArgK OpArgK iABC    (* OP_MUL *)
  ; opmode 0 1 OpArgK OpArgK iABC    (* OP_DIV *)
  ; opmode 0 1 OpArgK OpArgK iABC    (* OP_MOD *)
  ; opmode 0 1 OpArgK OpArgK iABC    (* OP_POW *)
  ; opmode 0 1 OpArgR OpArgN iABC    (* OP_UNM *)
  ; opmode 0 1 OpArgR OpArgN iABC    (* OP_NOT *)
  ; opmode 0 1 OpArgR OpArgN iABC    (* OP_LEN *)
  ; opmode 0 1 OpArgR OpArgR iABC    (* OP_CONCAT *)
  ; opmode 0 0 OpArgR OpArgN iAsBx   (* OP_JMP *)
  ; opmode 1 0 OpArgK OpArgK iABC    (* OP_EQ *)
  ; opmode 1 0 OpArgK OpArgK iABC    (* OP_LT *)
  ; opmode 1 0 OpArgK OpArgK iABC    (* OP_LE *)
  ; opmode 1 1 OpArgR OpArgU iABC    (* OP_TEST *)
  ; opmode 1 1 OpArgR OpArgU iABC    (* OP_TESTSET *)
  ; opmode 0 1 OpArgU OpArgU iABC    (* OP_CALL *)
  ; opmode 0 1 OpArgU OpArgU iABC    (* OP_TAILCALL *)
  ; opmode 0 0 OpArgU OpArgN iABC    (* OP_RETURN *)
  ; opmode 0 1 OpArgR OpArgN iAsBx   (* OP_FORLOOP *)
  ; opmode 0 1 OpArgR OpArgN iAsBx   (* OP_FORPREP *)
  ; opmode 1 0 OpArgN OpArgU iABC    (* OP_TFORLOOP *)
  ; opmode 0 0 OpArgU OpArgU iABC    (* OP_SETLIST *)
  ; opmode 0 0 OpArgN OpArgN iABC    (* OP_CLOSE *)
  ; opmode 0 1 OpArgU OpArgN iABx    (* OP_CLOSURE *)
  ; opmode 0 1 OpArgU OpArgN iABC ]. (* OP_VARARG *)

Definition opmode_of (m : OpCode) : Z :=
  default 0 (getZ luaP_opmodes (op_num m)).

(** [cast(enum OpMode, x)], [cast(enum OpArgMask, x)] *)
Definition mode_of (x : Z) : OpMode :=
  if x =? 0 then iABC else if x =? 1 then iABx else iAsBx.
Definition mask_of (x : Z) : OpArgMask :=
  if x =? 0 then OpArgN else if x =? 1 then OpArgU
  else if x =? 2 then OpArgR else OpArgK.

Definition getOpMode (m : OpCode) : OpMode := mode_of (Z.land (opmode_of m) 3).
Definition getBMode (m : OpCode) : OpArgMask :=
  mask_of (Z.land (Z.shiftr (opmode_of m) 4) 3).
Definition getCMode (m : OpCode) : OpArgMask :=
  mask_of (Z.land (Z.shiftr (opmode_of m) 2) 3).
Definition testAMode (m : OpCode) : bool :=
  negb (Z.land (opmode_of m) (Z.shiftl 1 6) =? 0).
Definition testTMode (m : OpCode) : bool :=
  negb (Z.land (opmode_of m) (Z.shiftl 1 7) =? 0).

(** ** Bits of the masks and fields *)

Section fields.
Context (size pos : Z) (Hs : 0 <= size) (Hp : 0 <= pos) (Hw : pos + size <= 32).

Lemma testbit_MASK1 k :
  0 <= k -> Z.testbit (MASK1 size pos) k = (pos <=? k) && (k <? pos + size).
Proof using Hs Hp Hw.
  intros. unfold MASK1. rewrite u32_testbit by done.
  destruct (Z.leb_spec pos k).
  - rewrite Z.shiftl_spec, u32_testbit, Z.lnot_spec, u32_testbit by lia.
    destruct (Z.ltb_spec (k - pos) size).
    + rewrite Z.shiftl_spec_low by lia. decide_cmp; done.
    + rewrite Z.shiftl_spec, u32_testbit, Z.lnot_spec, Z.bits_0 by lia.
      decide_cmp; simpl; try done; lia.
  - rewrite Z.shiftl_spec_low by lia. by rewrite andb_false_r.
Qed.

Lemma testbit_MASK0 k :
  0 <= k ->
  Z.testbit (MASK0 size pos) k =
  (k <? 32) && negb ((pos <=? k) && (k <? pos + size)).
Proof using Hs Hp Hw.
  intros. unfold MASK0.
  by rewrite u32_testbit, Z.lnot_spec, testbit_MASK1 by done.
Qed.

Lemma testbit_setfield i u k :
  is_u32 i -> 0 <= k ->
  Z.testbit (setfield size pos i u) k =
  if (pos <=? k) && (k <? pos + size) then Z.testbit u (k - pos)
  else Z.testbit i k.
Proof using Hs Hp Hw.
  intros Hi Hk. unfold setfield.
  rewrite Z.lor_spec, !Z.land_spec, testbit_MASK0, testbit_MASK1,
    u32_testbit by done.
  pose proof (is_u32_testbit i k Hi) as H.
  destruct (Z.leb_spec pos k); [rewrite Z.shiftl_spec, u32_testbit by lia
    |rewrite Z.shiftl_spec_low by lia];
    destruct (Z.ltb_spec k (pos + size)), (Z.ltb_spec k 32); simpl; decide_cmp;
    rewrite ?andb_false_r, ?andb_true_r, ?orb_false_r; simpl;
    first [done|lia|rewrite H by lia; done].
Qed.
End fields.

Lemma testbit_getfield size pos i k :
  0 <= size <= 32 -> 0 <= pos -> 0 <= k ->
  Z.testbit (getfield size pos i) k = (k <? size) && Z.testbit i (k + pos).
Proof.
  intros. unfold getfield.
  rewrite Z.land_spec, testbit_MASK1, Z.shiftr_spec by lia.
  rewrite (proj2 (Z.leb_le 0 k)) by lia. rewrite Z.add_0_l. simpl.
  by rewrite andb_comm.
Qed.

Lemma getfield_mod size pos i :
  0 <= size <= 32 -> 0 <= pos ->
  getfield size pos i = Z.shiftr i pos mod 2 ^ size.
Proof.
  intros. apply Z.bits_inj'. intros k Hk. rewrite testbit_getfield by done.
  destruct (Z.ltb_spec k size); simpl.
  - by rewrite Z.mod_pow2_bits_low, Z.shiftr_spec by lia.
  - by rewrite Z.mod_pow2_bits_high by lia.
Qed.

Lemma getfield_range size pos i :
  0 <= size <= 32 -> 0 <= pos -> 0 <= getfield size pos i < 2 ^ size.
Proof. intros. rewrite getfield_mod by done. apply Z.mod_pos_bound. lia. Qed.

Lemma get_setfield_same size pos i u :
  0 <= size -> 0 <= pos -> pos + size <= 32 -> is_u32 i ->
  getfield size pos (setfield size pos i u) = u mod 2 ^ size.
Proof.
  intros. apply Z.bits_inj'. intros k Hk.
  rewrite testbit_getfield, testbit_setfield by (done || lia).
  rewrite Z.add_simpl_r. destruct (Z.ltb_spec k size); simpl; decide_cmp; simpl.
  - by rewrite Z.mod_pow2_bits_low by lia.
  - by rewrite Z.mod_pow2_bits_high by lia.
Qed.

Lemma get_setfield_other size pos size' pos' i u :
  0 <= size -> 0 <= pos -> pos + size <= 32 ->
  0 <= size' <= 32 -> 0 <= pos' ->
  pos' + size' <= pos \/ pos + size <= pos' -> is_u32 i ->
  getfield size' pos' (setfield size pos i u) = getfield size' pos' i.
Proof.
  intros. apply Z.bits_inj'. intros k Hk.
  rewrite !testbit_getfield, testbit_setfield by (done || lia).
  destruct (Z.ltb_spec k size'); simpl; [|done].
  decide_cmp; simpl; try done; lia.
Qed.

Lemma setfield_u32 size pos i u :
  0 <= size -> 0 <= pos -> pos + size <= 32 -> is_u32 i ->
  is_u32 (setfield size pos i u).
Proof.
  intros ? ? ? Hi. apply is_u32_bits.
  - unfold setfield. destruct Hi. apply Z.lor_nonneg.
    split; apply Z.land_nonneg; [by left|right].
    unfold MASK1. apply u32_range.
  - intros k Hk. rewrite testbit_setfield by (done || lia).
    decide_cmp; simpl; try lia; apply is_u32_testbit; done || lia.
Qed.

Lemma testbit_place pos x k :
  0 <= pos -> 0 <= k ->
  Z.testbit (place pos x) k =
  (k <? 32) && (pos <=? k) && Z.testbit x (k - pos).
Proof.
  intros. unfold place. rewrite u32_testbit by done.
  destruct (Z.leb_spec pos k).
  - rewrite Z.shiftl_spec, u32_testbit by lia.
    destruct (Z.ltb_spec k 32); simpl; [|done]. decide_cmp. done.
  - rewrite Z.shiftl_spec_low by lia. by rewrite andb_false_r.
Qed.

Lemma testbit_small x n k : 0 <= x < 2 ^ n -> 0 <= n <= k -> Z.testbit x k = false.
Proof.
  intros. rewrite <- (Z.mod_small x (2 ^ n)) by done.
  apply Z.mod_pow2_bits_high. lia.
Qed.

Lemma op_num_range o : 0 <= op_num o < NUM_OPCODES.
Proof. destruct o; vm_compute; split; congruence. Qed.

Lemma op_of_num o : op_of (op_num o) = Some o.
Proof. by destruct o. Qed.

Lemma op_of_Some n o : op_of n = Some o -> n = op_num o.
Proof.
  intros H. pose proof (getZ_Some _ _ _ H) as Hr.
  change (lenZ opcodes) with 38 in Hr.
  assert (Hn : n = Z.of_nat (Z.to_nat n)) by lia.
  assert (Hb : (Z.to_nat n < 38)%nat) by lia. rewrite Hn in H |- *. clear Hn Hr.
  revert H Hb. generalize (Z.to_nat n) as m. intros m.
  do 38 (destruct m as [|m]; [intros [= <-] _; reflexivity|]). lia.
Qed.

(** ** The fields of an instruction word *)

(** A well-formed word: 32 bits, with an opcode of the enumeration. *)
Definition wf_instr (i : Z) : Prop := is_u32 i /\ is_Some (op_of (GET_OPCODE i)).

Ltac field_bits :=
  unfold SET_OPCODE, GET_OPCODE, GETARG_A, GETARG_B, GETARG_C, GETARG_Bx,
    SETARG_A, SETARG_B, SETARG_C, SETARG_Bx, CREATE_ABC, CREATE_ABx,
    SIZE_Bx, SIZE_OP, SIZE_A, SIZE_B, SIZE_C, POS_Bx, POS_B, POS_C, POS_A, POS_OP,
    SIZE_C, SIZE_B, SIZE_A, SIZE_OP in *;
  change (0 + 6 + 8 + 9) with 23 in *; change (0 + 6 + 8) with 14 in *;
  change (0 + 6) with 6 in *; change (9 + 9) with 18 in *.

(** The operand limits as numbers. *)
Ltac maxargs :=
  change MAXARG_A with 255 in *; change MAXARG_B with 511 in *;
  change MAXARG_C with 511 in *; change MAXARG_Bx with 262143 in *;
  change MAXARG_sBx with 131071 in *; change MAXINDEXRK with 255 in *;
  change NUM_OPCODES with 38 in *.

Lemma op_num_lt64 o : 0 <= op_num o < 2 ^ 6.
Proof. pose proof (op_num_range o). maxargs. lia. Qed.

(** Compare, bit by bit, a field of a word built with [place]. *)
Ltac place_bits :=
  apply Z.bits_inj'; intros k Hk; rewrite ?testbit_getfield by lia;
  rewrite !Z.lor_spec, !testbit_place by lia;
  rewrite ?testbit_getfield by lia;
  decide_cmp; simpl;
  rewrite ?andb_false_r, ?orb_false_r, ?andb_true_r, ?Z.add_0_r, ?Z.sub_0_r,
    ?Z.add_simpl_r, ?Z.sub_add;
  repeat match goal with
  | H : 0 <= ?x < 2 ^ ?n |- context [Z.testbit ?x ?k] =>
      rewrite (testbit_small x n k) by lia
  end; rewrite ?orb_false_r; try done.

Lemma get_CREATE_ABC o a b c :
  0 <= a <= MAXARG_A -> 0 <= b <= MAXARG_B -> 0 <= c <= MAXARG_C ->
  GET_OPCODE (CREATE_ABC o a b c) = op_num o /\
  GETARG_A (CREATE_ABC o a b c) = a /\
  GETARG_B (CREATE_ABC o a b c) = b /\
  GETARG_C (CREATE_ABC o a b c) = c.
Proof.
  intros Ha Hb Hc. pose proof (op_num_lt64 o) as Ho.
  maxargs.
  assert (0 <= a < 2 ^ 8) by lia. assert (0 <= b < 2 ^ 9) by lia.
  assert (0 <= c < 2 ^ 9) by lia. clear Ha Hb Hc.
  field_bits. generalize dependent (op_num o). intros op Ho.
  repeat split; place_bits.
Qed.

Lemma get_CREATE_ABx o a bc :
  0 <= a <= MAXARG_A -> 0 <= bc <= MAXARG_Bx ->
  GET_OPCODE (CREATE_ABx o a bc) = op_num o /\
  GETARG_A (CREATE_ABx o a bc) = a /\ GETARG_Bx (CREATE_ABx o a bc) = bc.
Proof.
  intros Ha Hb. pose proof (op_num_lt64 o) as Ho.
  maxargs.
  assert (0 <= a < 2 ^ 8) by lia. assert (0 <= bc < 2 ^ 18) by lia. clear Ha Hb.
  field_bits. generalize dependent (op_num o). intros op Ho.
  repeat split; place_bits.
Qed.

Lemma place_u32 pos x : is_u32 (place pos x).
Proof. apply u32_range. Qed.

Lemma lor_u32 x y : is_u32 x -> is_u32 y -> is_u32 (Z.lor x y).
Proof.
  intros Hx Hy. apply is_u32_bits.
  - destruct Hx, Hy. by apply Z.lor_nonneg.
  - intros k Hk. by rewrite Z.lor_spec, !is_u32_testbit by done.
Qed.

Lemma CREATE_ABC_u32 o a b c : is_u32 (CREATE_ABC o a b c).
Proof. unfold CREATE_ABC. auto using lor_u32, place_u32. Qed.

Lemma CREATE_ABx_u32 o a b : is_u32 (CREATE_ABx o a b).
Proof. unfold CREATE_ABx. auto using lor_u32, place_u32. Qed.

Lemma GETARG_A_range i : 0 <= GETARG_A i <= MAXARG_A.
Proof.
  pose proof (getfield_range SIZE_A POS_A i). maxargs. field_bits. lia.
Qed.
Lemma GETARG_B_range i : 0 <= GETARG_B i <= MAXARG_B.
Proof.
  pose proof (getfield_range SIZE_B POS_B i). maxargs. field_bits. lia.
Qed.
Lemma GETARG_C_range i : 0 <= GETARG_C i <= MAXARG_C.
Proof.
  pose proof (getfield_range SIZE_C POS_C i). maxargs. field_bits. lia.
Qed.
Lemma GETARG_Bx_range i : 0 <= GETARG_Bx i <= MAXARG_Bx.
Proof.
  pose proof (getfield_range SIZE_Bx POS_Bx i). maxargs. field_bits. lia.
Qed.

#[export] Hint Resolve CREATE_ABC_u32 CREATE_ABx_u32 setfield_u32
  GETARG_A_range GETARG_B_range GETARG_C_range GETARG_Bx_range : lua.

Lemma CREATE_ABC_fields i o :
  is_u32 i -> op_of (GET_OPCODE i) = Some o ->
  CREATE_ABC o (GETARG_A i) (GETARG_B i) (GETARG_C i) = i.
Proof.
  intros Hi Ho%op_of_Some. unfold CREATE_ABC. rewrite <- Ho. field_bits.
  apply Z.bits_inj'; intros k Hk.
  rewrite !Z.lor_spec, !testbit_place by lia.
  destruct (Z.ltb_spec k 32); [|by rewrite (is_u32_testbit i) by done].
  decide_cmp; simpl; rewrite ?testbit_getfield by lia; decide_cmp; simpl;
    rewrite ?orb_false_r, ?Z.sub_0_r, ?Z.add_0_r, ?Z.sub_add; done.
Qed.


(** C9: encoding and decoding of ABC instructions are inverse: the fields of
    a built word are the operands it was built from, and every 32-bit word
    with a known opcode is the word built from its own fields. *)
Theorem CREATE_ABC_roundtrip :
  (forall o a b c,
     0 <= a <= MAXARG_A -> 0 <= b <= MAXARG_B -> 0 <= c <= MAXARG_C ->
     let i := CREATE_ABC o a b c in
     wf_instr i /\ op_of (GET_OPCODE i) = Some o /\
     GETARG_A i = a /\ GETARG_B i = b /\ GETARG_C i = c) /\
  (forall i o, is_u32 i -> op_of (GET_OPCODE i) = Some o ->
     CREATE_ABC o (GETARG_A i) (GETARG_B i) (GETARG_C i) = i).
Proof.
  split; [|exact CREATE_ABC_fields].
  intros o a b c Ha Hb Hc. simpl.
  destruct (get_CREATE_ABC o a b c Ha Hb Hc) as (Ho & -> & -> & ->).
  unfold wf_instr. rewrite Ho, op_of_num. eauto 8 with lua.
Qed.

Ltac setarg_tac :=
  repeat match goal with |- _ /\ _ => split end;
  first [apply setfield_u32|apply get_setfield_same|apply get_setfield_other];
  first [done|lia|idtac].

(** The fields after a SETARG macro *)
Lemma SETARG_A_spec i v :
  is_u32 i ->
  is_u32 (SETARG_A i v) /\ GETARG_A (SETARG_A i v) = v mod 2 ^ SIZE_A /\
  GET_OPCODE (SETARG_A i v) = GET_OPCODE i /\ GETARG_Bx (SETARG_A i v) = GETARG_Bx i.
Proof. intros Hi. field_bits. setarg_tac. Qed.

Lemma SETARG_B_spec i v :
  is_u32 i ->
  is_u32 (SETARG_B i v) /\ GETARG_B (SETARG_B i v) = v mod 2 ^ SIZE_B /\
  GET_OPCODE (SETARG_B i v) = GET_OPCODE i /\
  GETARG_A (SETARG_B i v) = GETARG_A i /\ GETARG_C (SETARG_B i v) = GETARG_C i.
Proof. intros Hi. field_bits. setarg_tac. Qed.

Lemma SETARG_C_spec i v :
  is_u32 i ->
  is_u32 (SETARG_C i v) /\ GETARG_C (SETARG_C i v) = v mod 2 ^ SIZE_C /\
  GET_OPCODE (SETARG_C i v) = GET_OPCODE i /\
  GETARG_A (SETARG_C i v) = GETARG_A i /\ GETARG_B (SETARG_C i v) = GETARG_B i.
Proof. intros Hi. field_bits. setarg_tac. Qed.

Lemma SETARG_Bx_spec i v :
  is_u32 i ->
  is_u32 (SETARG_Bx i v) /\ GETARG_Bx (SETARG_Bx i v) = v mod 2 ^ SIZE_Bx /\
  GET_OPCODE (SETARG_Bx i v) = GET_OPCODE i /\ GETARG_A (SETARG_Bx i v) = GETARG_A i.
Proof. intros Hi. field_bits. setarg_tac. Qed.

Lemma GETARG_Bx_split i : GETARG_Bx i = GETARG_B i * 2 ^ SIZE_C + GETARG_C i.
Proof.
  field_bits. rewrite !getfield_mod by lia.
  replace (Z.shiftr i 23) with (Z.shiftr i 14 / 2 ^ 9)
    by (rewrite !Z.shiftr_div_pow2, Z.div_div by lia; reflexivity).
  replace (2 ^ 18) with (2 ^ 9 * 2 ^ 9) by reflexivity.
  rewrite Z.rem_mul_r by lia. lia.
Qed.

Lemma sBx_range i : - MAXARG_sBx <= GETARG_sBx i <= MAXARG_sBx + 1.
Proof.
  unfold GETARG_sBx. change MAXARG_sBx with 131071. pose proof (GETARG_Bx_range i).
  change MAXARG_Bx with 262143 in *. lia.
Qed.

Lemma SETARG_sBx_get i b :
  is_u32 i -> - MAXARG_sBx <= b <= MAXARG_sBx + 1 -> GETARG_sBx (SETARG_sBx i b) = b.
Proof.
  intros Hi Hb. unfold GETARG_sBx, SETARG_sBx. change MAXARG_sBx with 131071 in *.
  rewrite u32_small by (unfold is_u32; lia).
  destruct (SETARG_Bx_spec i (b + 131071) Hi) as (_ & -> & _).
  change (2 ^ SIZE_Bx) with 262144. rewrite Z.mod_small by lia. lia.
Qed.

Lemma CREATE_AsBx_get o a b :
  0 <= a <= MAXARG_A -> - MAXARG_sBx <= b <= MAXARG_sBx + 1 ->
  GETARG_sBx (CREATE_ABx o a (u32 (b + MAXARG_sBx))) = b.
Proof.
  intros Ha Hb. unfold GETARG_sBx. change MAXARG_sBx with 131071 in *.
  rewrite u32_small by (unfold is_u32; lia).
  destruct (get_CREATE_ABx o a (b + 131071)) as (_ & _ & ->);
    [done|change MAXARG_Bx with 262143; lia|]. lia.
Qed.

(** RK operands, by computation on the 256 indices *)
Lemma RK_fits x :
  0 <= x <= MAXINDEXRK ->
  ISK (RKASK x) = true /\ INDEXK (RKASK x) = x /\ 0 <= RKASK x <= MAXARG_B /\ ISK x = false.
Proof.
  change MAXINDEXRK with 255. change MAXARG_B with 511. intros Hr.
  assert (Hf : forallb (fun n => let x := Z.of_nat n in
     ISK (RKASK x) && (INDEXK (RKASK x) =? x) && (0 <=? RKASK x) && (RKASK x <=? 511)
     && negb (ISK x)) (seq 0 256) = true) by (vm_compute; reflexivity).
  rewrite forallb_forall in Hf. specialize (Hf (Z.to_nat x)). cbv zeta in Hf.
  rewrite Z2Nat.id in Hf by lia. rewrite in_seq in Hf.
  specialize (Hf ltac:(lia)). bool_facts. auto with lia.
Qed.

(** A SETARG macro changes its own field to the value (modulo the width
    of the field), leaves the word a 32-bit one and keeps every disjoint
    field; Bx overlaps B and C exactly. *)
Theorem SETARG_frame i v :
  is_u32 i ->
  (is_u32 (SETARG_A i v) /\ GETARG_A (SETARG_A i v) = v mod 2 ^ SIZE_A /\
   GET_OPCODE (SETARG_A i v) = GET_OPCODE i /\ GETARG_Bx (SETARG_A i v) = GETARG_Bx i) /\
  (is_u32 (SETARG_B i v) /\ GETARG_B (SETARG_B i v) = v mod 2 ^ SIZE_B /\
   GET_OPCODE (SETARG_B i v) = GET_OPCODE i /\
   GETARG_A (SETARG_B i v) = GETARG_A i /\ GETARG_C (SETARG_B i v) = GETARG_C i) /\
  (is_u32 (SETARG_C i v) /\ GETARG_C (SETARG_C i v) = v mod 2 ^ SIZE_C /\
   GET_OPCODE (SETARG_C i v) = GET_OPCODE i /\
   GETARG_A (SETARG_C i v) = GETARG_A i /\ GETARG_B (SETARG_C i v) = GETARG_B i) /\
  (is_u32 (SETARG_Bx i v) /\ GETARG_Bx (SETARG_Bx i v) = v mod 2 ^ SIZE_Bx /\
   GET_OPCODE (SETARG_Bx i v) = GET_OPCODE i /\ GETARG_A (SETARG_Bx i v) = GETARG_A i) /\
  GETARG_Bx i = GETARG_B i * 2 ^ SIZE_C + GETARG_C i.
Proof.
  intros Hi. split; [by apply SETARG_A_spec|]. split; [by apply SETARG_B_spec|].
  split; [by apply SETARG_C_spec|]. split; [by apply SETARG_Bx_spec|]. apply GETARG_Bx_split.
Qed.

(** signed operands are stored in excess MAXARG_sBx: a jump offset in
    range survives SETARG_sBx/GETARG_sBx, and so does the operand of
    luaK_codeAsBx; every decoded offset is in [-MAXARG_sBx, MAXARG_sBx+1]. *)
Theorem sBx_roundtrip i o a b :
  is_u32 i -> 0 <= a <= MAXARG_A -> - MAXARG_sBx <= b <= MAXARG_sBx + 1 ->
  GETARG_sBx (SETARG_sBx i b) = b /\
  GETARG_sBx (CREATE_ABx o a (u32 (b + MAXARG_sBx))) = b /\
  - MAXARG_sBx <= GETARG_sBx i <= MAXARG_sBx + 1.
Proof.
  intros Hi Ha Hb. split; [by apply SETARG_sBx_get|]. split; [by apply CREATE_AsBx_get|].
  apply sBx_range.
Qed.

(** an RK operand tells constants from registers: RKASK tags a constant
    index up to MAXINDEXRK so that ISK and INDEXK recover it and the operand
    fits in 9 bits, and no register (at most MAXARG_A) looks like a constant. *)
Theorem RK_roundtrip x :
  (0 <= x <= MAXINDEXRK ->
   ISK (RKASK x) = true /\ INDEXK (RKASK x) = x /\ 0 <= RKASK x <= MAXARG_B) /\
  (0 <= x <= MAXARG_A -> ISK x = false).
Proof. split; intros Hr; destruct (RK_fits x Hr) as (? & ? & ? & ?); auto. Qed.

Lemma CREATE_ABC_roundtrip_witness :
  op_of (GET_OPCODE (CREATE_ABC OP_ADD 3 257 4)) = Some OP_ADD.
Proof.
  refine (proj1 (proj2 (proj1 CREATE_ABC_roundtrip OP_ADD 3 257 4 _ _ _)));
    vm_compute; split; discriminate.
Defined.

Lemma SETARG_frame_witness : GETARG_A (SETARG_A 0 300) = 44.
Proof. apply (SETARG_frame 0 300). split; [discriminate|reflexivity]. Defined.

Lemma sBx_roundtrip_witness : GETARG_sBx (SETARG_sBx 22 (-5)) = -5.
Proof.
  apply (sBx_roundtrip 22 OP_JMP 0 (-5)); vm_compute; (split; discriminate) || easy.
Defined.

Lemma RK_roundtrip_witness : INDEXK (RKASK 7) = 7.
Proof. apply (RK_roundtrip 7). split; discriminate. Defined.
