(* ===== verification/Object.v ===== *)
(** * Lua objects (lobject.h, lobject.c)

    Tagged values, function prototypes and the generic functions over them.
    Strings are interned (lstring.c), so a [TString *] is modelled by its
    contents and pointer equality of strings by equality of contents; the
    other collectable objects are references. *)

From S2P Require Import Prelude Clib.

(** ** Type tags (lua.h, lobject.h) *)

Definition LUA_TNIL : Z := 0.
Definition LUA_TBOOLEAN : Z := 1.
Definition LUA_TLIGHTUSERDATA : Z := 2.
Definition LUA_TNUMBER : Z := 3.
Definition LUA_TSTRING : Z := 4.
Definition LUA_TTABLE : Z := 5.
Definition LUA_TFUNCTION : Z := 6.
Definition LUA_TUSERDATA : Z := 7.
Definition LUA_TTHREAD : Z := 8.

(** ** Tagged values

    [VNullString] is a value of tag LUA_TSTRING whose pointer is NULL; only
    [LoadString] of a chunk that codes an empty size produces one. *)
Inductive TValue : Type :=
| VNil
| VBoolean (b : Z)
| VLightUserdata (p : Z)
| VNumber (n : lua_Number)
| VString (s : bytes)
| VNullString
| VTable (r : Z)
| VFunction (r : Z)
| VUserdata (r : Z)
| VThread (r : Z).

#[export] Instance TValue_eq_dec : EqDecision TValue.
Proof. solve_decision. Defined.

Definition ttype (o : TValue) : Z :=
  match o with
  | VNil => LUA_TNIL
  | VBoolean _ => LUA_TBOOLEAN
  | VLightUserdata _ => LUA_TLIGHTUSERDATA
  | VNumber _ => LUA_TNUMBER
  | VString _ | VNullString => LUA_TSTRING
  | VTable _ => LUA_TTABLE
  | VFunction _ => LUA_TFUNCTION
  | VUserdata _ => LUA_TUSERDATA
  | VThread _ => LUA_TTHREAD
  end.

Definition ttisnil (o : TValue) : bool := ttype o =? LUA_TNIL.
Definition ttisnumber (o : TValue) : bool := ttype o =? LUA_TNUMBER.
Definition ttisstring (o : TValue) : bool := ttype o =? LUA_TSTRING.
Definition ttistable (o : TValue) : bool := ttype o =? LUA_TTABLE.
Definition ttisfunction (o : TValue) : bool := ttype o =? LUA_TFUNCTION.

Definition l_isfalse (o : TValue) : bool :=
  match o with VNil => true | VBoolean b => b =? 0 | _ => false end.

(** ** Function prototypes

    The sizes of a finished prototype ([sizek], [sizecode], ...) are the
    lengths of its arrays. *)

Record LocVar := mkLocVar {
  varname : option bytes;
  startpc : Z;
  endpc : Z
}.

#[export] Instance LocVar_eq_dec : EqDecision LocVar.
Proof. solve_decision. Defined.

#[warnings="-register-all"]
Inductive Proto : Type := mkProto {
  k : list TValue;
  code : list Z;
  p : list Proto;
  lineinfo : list Z;
  locvars : list LocVar;
  upvalues : list (option bytes);
  source : option bytes;
  linedefined : Z;
  lastlinedefined : Z;
  nups : Z;
  numparams : Z;
  is_vararg : Z;
  maxstacksize : Z
}.

Definition sizek (f : Proto) : Z := lenZ (k f).
Definition sizecode (f : Proto) : Z := lenZ (code f).
Definition sizep (f : Proto) : Z := lenZ (p f).
Definition sizelineinfo (f : Proto) : Z := lenZ (lineinfo f).
Definition sizelocvars (f : Proto) : Z := lenZ (locvars f).
Definition sizeupvalues (f : Proto) : Z := lenZ (upvalues f).

Definition VARARG_HASARG : Z := 1.
Definition VARARG_ISVARARG : Z := 2.
Definition VARARG_NEEDSARG : Z := 4.

(** Limits (llimits.h, luaconf.h) *)
Definition MAXSTACK : Z := 250.
Definition MAX_INT : Z := INT_MAX - 2.
Definition LUAI_MAXCCALLS : Z := 200.
Definition LUAI_MAXVARS : Z := 200.
Definition LUAI_MAXUPVALUES : Z := 60.
Definition LUA_MULTRET : Z := -1.
Definition LUA_IDSIZE : Z := 60.

(** ** Floating point bytes *)

(** The loop of [luaO_int2fb]; [x] halves, so 32 rounds are enough. *)
Fixpoint int2fb_loop (fuel : nat) (x e : Z) : outcome (Z * Z) :=
  if 16 <=? x then
    match fuel with
    | O => Nofuel
    | S f => int2fb_loop f (Z.shiftr (u32 (x + 1)) 1) (e + 1)
    end
  else Ret (x, e).

Definition luaO_int2fb (x : Z) : outcome Z :=
  '(x', e) ← int2fb_loop 32 x 0;
  if x' <? 8 then Ret x' else Ret (Z.lor (Z.shiftl (e + 1) 3) (x' - 8)).

Definition luaO_fb2int (x : Z) : Z :=
  let e := Z.land (Z.shiftr x 3) 31 in
  if e =? 0 then x else i32 (Z.shiftl (Z.land x 7 + 8) (e - 1)).

(** ** Integer logarithm *)

Definition log_2 : list Z :=
  [0; 1] ++ replicate 2 2 ++ replicate 4 3 ++ replicate 8 4 ++ replicate 16 5
  ++ replicate 32 6 ++ replicate 64 7 ++ replicate 128 8.

Fixpoint log2_loop (fuel : nat) (x l : Z) : outcome (Z * Z) :=
  if 256 <=? x then
    match fuel with
    | O => Nofuel
    | S f => log2_loop f (Z.shiftr x 8) (l + 8)
    end
  else Ret (x, l).

Definition luaO_log2 (x : Z) : outcome Z :=
  '(x', l) ← log2_loop 4 x (-1);
  t ← deref (getZ log_2 x');
  Ret (l + t).

(** ** Raw equality *)

Definition luaO_rawequalObj (t1 t2 : TValue) : bool :=
  if negb (ttype t1 =? ttype t2) then false
  else match t1, t2 with
  | VNil, VNil => true
  | VNumber n1, VNumber n2 => luai_numeq n1 n2
  | VBoolean b1, VBoolean b2 => b1 =? b2
  | VLightUserdata p1, VLightUserdata p2 => p1 =? p2
  | _, _ => bool_decide (t1 = t2)
  end.

(** ** String to number: [None] is result 0, "conversion failed" *)

Definition luaO_str2d (s : bytes) : option lua_Number :=
  let '(v, endptr) := strtod s in
  if lenZ endptr =? strlen s then None
  else
    let '(v, endptr) :=
      match endptr with
      | c :: _ =>
          if (c =? 120) || (c =? 88)
          then let '(u, r) := strtoul s 16 in (cast_num u, r)
          else (v, endptr)
      | [] => (v, endptr)
      end in
    match skip_spaces endptr with
    | [] => Some v
    | _ => None
    end.

(** ** Description of a chunk for messages

    The result is the C string left in [out] (capacity [bufflen]);
    [firstc s] is [*s], the terminator when the string is empty. *)
Definition firstc (s : bytes) : Z := default 0 (head s).

(** The source lines of a chunk given as a string: [[string "..."]] *)
Definition chunkid_string (source : bytes) (bufflen : Z) : bytes :=
  let len := strcspn source (str (String "010" (String "013" EmptyString))) in
  let bufflen := bufflen - 17 in
  let len := if bufflen <? len then bufflen else len in
  let quote := str (String "034" EmptyString) in
  str "[string " ++ quote
  ++ (if len <? lenZ source
      then take (Z.to_nat len) source ++ str "..."
      else source)
  ++ quote ++ str "]".

Definition luaO_chunkid (source : bytes) (bufflen : Z) : bytes :=
  let source := cstr source in
  if firstc source =? 61 then take (Z.to_nat (bufflen - 1)) (tail source)
  else if firstc source =? 64 then
    let source := tail source in
    let bufflen := bufflen - 8 in
    let l := lenZ source in
    if bufflen <? l
    then str "..." ++ drop (Z.to_nat (l - bufflen)) source
    else source
  else chunkid_string source bufflen.

(** ** Floating point bytes: lemmas *)

Lemma int2fb_loop_spec fuel x e :
  0 <= x <= 15 * 2 ^ Z.of_nat fuel -> x <= INT_MAX ->
  exists y d, int2fb_loop fuel x e = Ret (y, e + d) /\ 0 <= d <= Z.of_nat fuel /\
    2 ^ d * (y - 1) < x <= 2 ^ d * y /\ y < 16 /\
    (0 < d -> 8 <= y /\ 15 * 2 ^ (d - 1) < x).
Proof.
  revert x e. induction fuel as [|fuel IH]; intros x e Hx HI; cbn [int2fb_loop].
  - change (2 ^ Z.of_nat 0) with 1 in Hx. rewrite (proj2 (Z.leb_gt 16 x)) by lia.
    exists x, 0. rewrite Z.add_0_r. repeat split; try (simpl; lia).
  - destruct (Z.leb_spec 16 x) as [H16|H16].
    + rewrite u32_small by (unfold is_u32, INT_MAX in *; lia).
      rewrite Nat2Z.inj_succ, Z.pow_succ_r in Hx by lia.
      rewrite Z.shiftr_div_pow2 by lia. change (2 ^ 1) with 2.
      set (x1 := (x + 1) / 2).
      assert (2 * x1 <= x + 1 < 2 * x1 + 2) by (unfold x1; dlia).
      destruct (IH x1 (e + 1)) as (y & d & -> & Hd & Hy & Hy16 & Hpos);
        [lia|lia|].
      exists y, (d + 1). rewrite Z.pow_add_r, Z.pow_1_r by lia.
      split; [f_equal; f_equal; lia|]. repeat split; try lia.
      * destruct (decide (d = 0)) as [->|]; [|lia]. simpl in *. lia.
      * rewrite Z.add_simpl_r. destruct (decide (d = 0)) as [->|]; [simpl; lia|].
        destruct Hpos as [_ Hpos]; [lia|].
        replace (2 ^ d) with (2 * 2 ^ (d - 1)); [lia|].
        rewrite <- Z.pow_succ_r by lia. f_equal. lia.
    + exists x, 0. rewrite Z.add_0_r. repeat split; try (simpl; lia).
Qed.

Lemma fb2int_small x : 0 <= x < 8 -> luaO_fb2int x = x.
Proof.
  intros. assert (x = 0 \/ x = 1 \/ x = 2 \/ x = 3 \/ x = 4 \/ x = 5 \/ x = 6 \/ x = 7)
    as Hx by lia. destruct_or! Hx; subst; reflexivity.
Qed.

(** The byte [eeeeexxx] decodes to [(8 + xxx) * 2 ^ (eeeee - 1)]. *)
Lemma fb2int_encoded e y :
  0 <= e < 28 -> 8 <= y < 16 -> luaO_fb2int (Z.lor (Z.shiftl (e + 1) 3) (y - 8)) = y * 2 ^ e.
Proof.
  intros He Hy.
  assert (Hf : forallb (fun n => forallb (fun m =>
     let e := Z.of_nat n in let y := Z.of_nat m in
     luaO_fb2int (Z.lor (Z.shiftl (e + 1) 3) (y - 8)) =? y * 2 ^ e) (seq 8 8)) (seq 0 28)
     = true) by (vm_compute; reflexivity).
  rewrite forallb_forall in Hf.
  assert (In (Z.to_nat e) (seq 0 28)) as H1%Hf by (apply in_seq; lia).
  rewrite forallb_forall in H1.
  assert (In (Z.to_nat y) (seq 8 8)) as H2%H1 by (apply in_seq; lia).
  cbv zeta in H2. rewrite !Z2Nat.id in H2 by lia. by apply Z.eqb_eq.
Qed.

Lemma fb_byte e y :
  0 <= e < 31 -> 8 <= y < 16 -> 0 <= Z.lor (Z.shiftl (e + 1) 3) (y - 8) < 256.
Proof.
  intros He Hy.
  assert (Hf : forallb (fun n => forallb (fun m =>
     let e := Z.of_nat n in let y := Z.of_nat m in
     is_byteb (Z.lor (Z.shiftl (e + 1) 3) (y - 8))) (seq 8 8)) (seq 0 31)
     = true) by (vm_compute; reflexivity).
  rewrite forallb_forall in Hf.
  assert (In (Z.to_nat e) (seq 0 31)) as H1%Hf by (apply in_seq; lia).
  rewrite forallb_forall in H1.
  assert (In (Z.to_nat y) (seq 8 8)) as H2%H1 by (apply in_seq; lia).
  cbv zeta in H2. rewrite !Z2Nat.id in H2 by lia. by apply is_byteb_spec.
Qed.

(** LuaO_int2fb terminates on every size the compiler passes to it, its
    result fits in a byte (and so in the B or C operand of OP_NEWTABLE), and
    luaO_fb2int of the result is the size rounded up by less than 2/15: a
    table is never created smaller than asked for. *)
Theorem int2fb_rounds_up x :
  0 <= x <= 15 * 2 ^ 27 ->
  exists b, luaO_int2fb x = Ret b /\ 0 <= b < 256 /\
    x <= luaO_fb2int b /\ 15 * luaO_fb2int b <= 17 * x.
Proof.
  intros Hx.
  assert (Hl : exists y d, int2fb_loop 32 x 0 = Ret (y, 0 + d) /\ 0 <= d <= 32 /\
    2 ^ d * (y - 1) < x <= 2 ^ d * y /\ y < 16 /\
    (0 < d -> 8 <= y /\ 15 * 2 ^ (d - 1) < x)).
  { apply (int2fb_loop_spec 32 x 0); unfold INT_MAX; simpl Z.of_nat; lia. }
  destruct Hl as (y & d & El & Hd & Hy & H16 & Hp).
  unfold luaO_int2fb. rewrite El. cbn. rewrite ?Z.add_0_l. clear El.
  destruct (Z.ltb_spec y 8) as [H8|H8].
  - assert (d = 0) as -> by lia. simpl in Hy.
    exists y. rewrite fb2int_small by lia. repeat split; lia.
  - assert (d < 28).
    { destruct (Z.lt_ge_cases d 28); [done|]. destruct Hp as [_ Hp]; [lia|].
      assert (2 ^ 27 <= 2 ^ (d - 1)) by (apply Z.pow_le_mono_r; lia). lia. }
    eexists. split; [done|]. rewrite fb2int_encoded by lia.
    split; [apply fb_byte; lia|]. split; [lia|].
    destruct (decide (d = 0)) as [->|]; [simpl in *; lia|].
    destruct Hp as [_ Hp]; [lia|].
    assert (2 ^ d = 2 * 2 ^ (d - 1)) as ->.
    { rewrite <- Z.pow_succ_r by lia. f_equal. lia. }
    assert (2 ^ d = 2 * 2 ^ (d - 1)) as Hpow.
    { rewrite <- Z.pow_succ_r by lia. f_equal. lia. }
    rewrite Hpow in Hy. lia.
Qed.

(** ** Integer logarithm: lemmas *)

Lemma log_2_table n : 0 <= n < 256 ->
  exists t, getZ log_2 n = Some t /\ t - 1 = if n =? 0 then -1 else Z.log2 n.
Proof.
  intros Hn.
  assert (Hf : forallb (fun m => let n := Z.of_nat m in
    match getZ log_2 n with
    | Some t => t - 1 =? (if n =? 0 then -1 else Z.log2 n) | None => false end)
    (seq 0 256) = true) by (vm_compute; reflexivity).
  rewrite forallb_forall in Hf.
  assert (In (Z.to_nat n) (seq 0 256)) as H%Hf by (apply in_seq; lia).
  cbv zeta in H. rewrite Z2Nat.id in H by lia.
  destruct (getZ log_2 n) as [t|]; [|done]. exists t. split; [done|]. by apply Z.eqb_eq.
Qed.

Lemma log2_loop_spec fuel x l :
  0 < x < 2 ^ (8 * Z.of_nat (S fuel)) ->
  exists x' d, log2_loop fuel x l = Ret (x', l + d) /\ 0 < x' < 256 /\
    Z.log2 x = d + Z.log2 x'.
Proof.
  revert x l. induction fuel as [|fuel IH]; intros x l Hx; cbn [log2_loop].
  - simpl in Hx. rewrite (proj2 (Z.leb_gt 256 x)) by lia.
    exists x, 0. rewrite Z.add_0_r. auto with lia.
  - destruct (Z.leb_spec 256 x) as [H|H].
    + assert (Hs : Z.shiftr x 8 = x / 2 ^ 8) by (apply Z.shiftr_div_pow2; lia).
      assert (Hlog : Z.log2 (Z.shiftr x 8) = Z.log2 x - 8).
      { rewrite Z.log2_shiftr by lia. apply Z.max_r.
        assert (Z.log2 256 <= Z.log2 x) by (apply Z.log2_le_mono; lia).
        change (Z.log2 256) with 8 in *. lia. }
      destruct (IH (Z.shiftr x 8) (l + 8)) as (x' & d & -> & Hx' & Hd).
      { rewrite Hs. replace (8 * Z.of_nat (S (S fuel))) with (8 * Z.of_nat (S fuel) + 8)
          in Hx by lia. rewrite Z.pow_add_r in Hx by lia.
        split; [apply Z.div_str_pos; lia|apply Z.div_lt_upper_bound; lia]. }
      exists x', (d + 8). split; [f_equal; f_equal; lia|]. split; [done|]. lia.
    + exists x, 0. rewrite Z.add_0_r. auto with lia.
Qed.

Lemma luaO_log2_spec x : is_u32 x -> luaO_log2 x = Ret (if x =? 0 then -1 else Z.log2 x).
Proof.
  intros Hx. unfold luaO_log2. destruct (Z.eqb_spec x 0) as [->|Hne]; [reflexivity|].
  destruct (log2_loop_spec 4 x (-1)) as (x' & d & -> & Hx' & Hd).
  { unfold is_u32 in Hx. assert (2 ^ 32 <= 2 ^ (8 * Z.of_nat 5))
      by (apply Z.pow_le_mono_r; lia). lia. }
  cbn -[getZ log_2]. destruct (log_2_table x') as (t & -> & Ht); [lia|].
  cbn. rewrite (proj2 (Z.eqb_neq x' 0)) in Ht by lia. f_equal. lia.
Qed.

(** LuaO_log2 is the integer part of the base-2 logarithm of every
    positive unsigned int (and -1 for 0); its table is never read out of
    bounds and its loop ends. *)
Theorem luaO_log2_correct x :
  is_u32 x -> luaO_log2 x = Ret (if x =? 0 then -1 else Z.log2 x).
Proof. apply luaO_log2_spec. Qed.

(** ** Chunk identifiers: lemmas *)

Lemma length_cstr s : lenZ (cstr s) <= lenZ s.
Proof.
  induction s as [|c s IH]; cbn [cstr]; [done|].
  case_if; rewrite ?lenZ_cons; change (lenZ (@nil Z)) with 0;
    pose proof (lenZ_nonneg s); lia.
Qed.

Lemma strcspn_bounds s r : 0 <= strcspn s r <= lenZ s.
Proof.
  induction s as [|c s IH]; cbn [strcspn]; [unfold lenZ; simpl; lia|].
  rewrite lenZ_cons. case_if; lia.
Qed.

Lemma lenZ_take {A} (l : list A) n : 0 <= n -> lenZ (take (Z.to_nat n) l) = Z.min n (lenZ l).
Proof. intros. unfold lenZ. rewrite length_take. lia. Qed.

Lemma lenZ_drop {A} (l : list A) n : 0 <= n -> lenZ (drop (Z.to_nat n) l) = Z.max 0 (lenZ l - n).
Proof. intros. unfold lenZ. rewrite length_drop. lia. Qed.

Lemma chunkid_string_fits s n : 20 <= n -> lenZ (chunkid_string s n) + 1 <= n.
Proof.
  intros Hn. unfold chunkid_string. cbv zeta.
  set (eol := str (String "010" (String "013" EmptyString))).
  pose proof (strcspn_bounds s eol). pose proof (lenZ_nonneg s).
  destruct (Z.ltb_spec (n - 17) (strcspn s eol));
    (case_if; bool_facts; rewrite !lenZ_app, ?lenZ_take by lia);
    change (lenZ (str "[string ")) with 8; change (lenZ (str "]")) with 1;
    change (lenZ (str "...")) with 3;
    change (lenZ (str (String "034" EmptyString))) with 1; lia.
Qed.

(** ** Numerals: lemmas *)

Lemma digits_fuel_app fuel n acc :
  digits_fuel fuel n acc = digits_fuel fuel n [] ++ acc.
Proof.
  revert n acc. induction fuel as [|f IH]; intros n acc; cbn [digits_fuel]; [done|].
  case_if; [done|]. rewrite (IH _ [_]), IH. by rewrite <- app_assoc.
Qed.

Definition no_digit (r : bytes) : Prop := forall c r', r = c :: r' -> isdigit c = false.

Definition all_digits (ds : bytes) : Prop := Forall (fun c => isdigit c = true) ds.

Definition dec_fold (ds : bytes) (a : Z) : Z :=
  fold_left (fun a c => a * 10 + dec_val c) ds a.

Lemma read_digits_all ds r a j :
  all_digits ds -> no_digit r ->
  read_digits isdigit dec_val 10 (ds ++ r) a j = (dec_fold ds a, j + lenZ ds, r).
Proof.
  intros Hds Hr. revert a j. induction Hds as [|c ds Hc Hds IH]; intros a j.
  - unfold lenZ. simpl. rewrite Z.add_0_r.
    destruct r as [|c r']; [done|]. cbn. by rewrite (Hr c r' eq_refl).
  - cbn [app read_digits]. rewrite Hc, IH, lenZ_cons. cbn. f_equal. f_equal. lia.
Qed.

Lemma digits_fuel_spec fuel n :
  (0 < fuel)%nat -> 0 <= n < 10 ^ Z.of_nat fuel ->
  let ds := digits_fuel fuel n [] in
  all_digits ds /\ dec_fold ds 0 = n /\ 0 < lenZ ds.
Proof.
  revert n. induction fuel as [|f IH]; intros n Hf Hn; [lia|].
  cbn [digits_fuel]. cbv zeta.
  assert (Hd : isdigit (48 + n mod 10) = true) by (unfold isdigit; dlia).
  destruct (Z.eqb_spec (n / 10) 0) as [E|E].
  - split; [by repeat constructor|]. split; [|unfold lenZ; simpl; lia].
    unfold dec_fold, dec_val. cbn. dlia.
  - rewrite digits_fuel_app. rewrite Nat2Z.inj_succ, Z.pow_succ_r in Hn by lia.
    destruct f as [|f]; [simpl in Hn; dlia|].
    destruct (IH (n / 10)) as (Ha & Hv & Hl); [lia|dlia|].
    split; [apply Forall_app; split; [done|by repeat constructor]|].
    split; [|rewrite lenZ_app; pose proof (lenZ_nonneg [48 + n mod 10]); lia].
    unfold dec_fold in *. rewrite fold_left_app, Hv. unfold dec_val. cbn. dlia.
Qed.

Lemma digits_spec n :
  0 <= n -> all_digits (digits n) /\ dec_fold (digits n) 0 = n /\ 0 < lenZ (digits n).
Proof.
  intros Hn. unfold digits. apply digits_fuel_spec; [lia|]. split; [done|].
  rewrite Nat2Z.inj_succ, Z2Nat.id by apply Z.log2_nonneg.
  destruct (decide (n = 0)) as [->|]; [reflexivity|].
  assert (n < 2 ^ Z.succ (Z.log2 n)) by (apply Z.log2_spec; lia).
  assert (2 ^ Z.succ (Z.log2 n) <= 10 ^ Z.succ (Z.log2 n)); [|lia].
  apply Z.pow_le_mono_l. lia.
Qed.

Lemma cstr_app_digits ds r : all_digits ds -> cstr (ds ++ r) = ds ++ cstr r.
Proof.
  induction 1 as [|c ds Hc _ IH]; [done|]. cbn [app cstr].
  unfold isdigit in Hc. rewrite (proj2 (Z.eqb_neq c 0)) by lia. by rewrite IH.
Qed.

(** No letter of the given (lower case) prefix is a digit: the prefix of a
    digit string does not match. *)
Lemma prefix_nocase_digit c d p s :
  isdigit d = true -> isdigit c = false -> prefix_nocase (c :: p) (d :: s) = None.
Proof.
  intros Hd Hc. cbn. unfold tolower, isupper, isdigit in *.
  replace ((65 <=? d) && (d <=? 90)) with false by (symmetry; lia).
  destruct (Z.eqb_spec d c); [subst; lia|done].
Qed.

Lemma prefix_0x_digits ds : all_digits ds -> prefix_nocase (str "0x") ds = None.
Proof.
  intros H. change (str "0x") with [48; 120].
  destruct H as [|c ds Hc H]; [done|].
  destruct H as [|d ds Hd H]; [by cbn; case_if|].
  pose proof (prefix_nocase_digit 120 d [] ds Hd eq_refl) as E.
  cbn in E |- *. case_if; done.
Qed.

Lemma strtod_unsigned_digits neg ds :
  all_digits ds -> 0 < lenZ ds ->
  strtod_unsigned neg ds = Some (decimal neg (dec_fold ds 0) 0, []).
Proof.
  intros H Hl. unfold strtod_unsigned.
  rewrite prefix_0x_digits by done.
  destruct ds as [|d ds]; [done|]. assert (Hd : isdigit d = true) by by inversion H.
  change (str "infinity") with (105 :: str "nfinity").
  change (str "inf") with (105 :: str "nf"). change (str "nan") with (110 :: str "an").
  rewrite !prefix_nocase_digit by done.
  unfold read_mantissa. rewrite <- (app_nil_r (d :: ds)) at 1.
  rewrite read_digits_all; [|done|by intros ? ? ?]. cbn [read_exponent].
  rewrite Z.add_0_l. rewrite (proj2 (Z.eqb_neq _ 0)) by lia. done.
Qed.

Lemma decimal_int neg n :
  0 <= n -> (neg = true -> n <> 0) -> decimal neg n 0 = cast_num (if neg then - n else n).
Proof.
  intros Hn Hneg. unfold decimal, cast_num. destruct n as [|m|m]; [|..|lia].
  - destruct neg; [by destruct Hneg|reflexivity].
  - rewrite Z.mul_1_r. simpl (0 <=? 0). cbn [cond_Zopp].
    by destruct neg.
Qed.

(** Every integer the VM prints with "%d" is read back by [luaO_str2d] as
    the same number (rounded to a double when it has more than 53 bits). *)
Lemma str2d_digits n : 0 <= n -> luaO_str2d (digits n) = Some (cast_num n).
Proof.
  intros Hn. destruct (digits_spec n Hn) as (Ha & Hv & Hl).
  unfold luaO_str2d, strtod, strlen.
  rewrite <- (app_nil_r (digits n)), cstr_app_digits, app_nil_r by done.
  destruct (digits n) as [|d ds] eqn:E; [done|].
  assert (Hd : isdigit d = true) by by inversion Ha.
  cbn [skip_spaces]. assert (isspace d = false) as ->
    by (unfold isspace, isdigit in *; lia).
  unfold read_sign. rewrite !(proj2 (Z.eqb_neq d _))
    by (unfold isdigit in Hd; lia).
  rewrite strtod_unsigned_digits by done. change (lenZ []) with 0.
  rewrite (proj2 (Z.eqb_neq 0 _)) by lia. cbn -[decimal dec_fold]. rewrite Hv.
  by rewrite decimal_int.
Qed.

Lemma str2d_neg_digits n : 0 < n -> luaO_str2d (45 :: digits n) = Some (cast_num (- n)).
Proof.
  intros Hn. destruct (digits_spec n) as (Ha & Hv & Hl); [lia|].
  assert (Hc : cstr (45 :: digits n) = 45 :: digits n).
  { change (cstr (45 :: digits n)) with (45 :: cstr (digits n)).
    by rewrite <- (app_nil_r (digits n)), cstr_app_digits, app_nil_r at 1. }
  unfold luaO_str2d, strtod, strlen. rewrite !Hc.
  change (skip_spaces (45 :: digits n)) with (45 :: digits n).
  change (read_sign (45 :: digits n)) with (true, digits n). cbv iota beta.
  rewrite strtod_unsigned_digits by done. change (lenZ []) with 0.
  rewrite lenZ_cons, (proj2 (Z.eqb_neq 0 _)) by lia.
  cbn -[decimal dec_fold digits]. rewrite Hv. by rewrite decimal_int by (done || lia).
Qed.

(** printing an integer with "%d" and reading it back with luaO_str2d
    gives the same number (correctly rounded beyond 53 bits). *)
Theorem str2d_fmt_d n : luaO_str2d (fmt_d n) = Some (cast_num n).
Proof.
  unfold fmt_d. case_if; bool_facts.
  - rewrite str2d_neg_digits by lia. by rewrite Z.opp_involutive.
  - by apply str2d_digits.
Qed.

(** the description luaO_chunkid writes, with its terminator, never
    exceeds the buffer (callers pass LUA_IDSIZE = 60 or MAXSRC = 80), and a
    short enough file name or literal description is kept in full. *)
Theorem chunkid_fits source n :
  20 <= n ->
  lenZ (luaO_chunkid source n) + 1 <= n /\
  (forall name, cstr source = 64 :: name -> lenZ name <= n - 8 ->
     luaO_chunkid source n = name) /\
  (forall name, cstr source = 61 :: name -> lenZ name <= n - 1 ->
     luaO_chunkid source n = name).
Proof.
  intros Hn. unfold luaO_chunkid. cbv zeta. split; [|split].
  - repeat case_if; bool_facts.
    + rewrite lenZ_take by lia. lia.
    + rewrite lenZ_app, lenZ_drop by lia. change (lenZ (str "...")) with 3. lia.
    + lia.
    + by apply chunkid_string_fits.
  - intros name -> Hl. cbn -[lenZ drop]. by rewrite (proj2 (Z.ltb_ge _ _)) by lia.
  - intros name -> Hl. apply take_ge. unfold lenZ in *. lia.
Qed.

Lemma chunkid_fits_witness : luaO_chunkid (str "@test.lua") 60 = str "test.lua".
Proof.
  refine (proj1 (proj2 (chunkid_fits (str "@test.lua") 60 _)) _ _ _);
    [lia|reflexivity|vm_compute; discriminate].
Defined.

Lemma int2fb_rounds_up_witness : exists b, luaO_int2fb 1000 = Ret b /\ 1000 <= luaO_fb2int b.
Proof.
  destruct (int2fb_rounds_up 1000) as (b & ? & ? & ? & ?); [lia|]. by exists b.
Defined.

Lemma luaO_log2_correct_witness : luaO_log2 1000 = Ret 9.
Proof. apply (luaO_log2_correct 1000). split; [discriminate|reflexivity]. Defined.
