(* ===== verification/Debug.v ===== *)
(** * The bytecode verifier (ldebug.c: symbolic execution and code checker)

    [luaG_checkcode] is run by [LoadFunction] on every function of a
    precompiled chunk; [symbexec] with a register is what [getobjname] uses
    to find the instruction that loaded it.  A failed [check] makes the C
    function return 0: the code below lives in the monad [chk], an outcome
    of an optional value. *)

From S2P Require Import Prelude Clib Opcodes Object.

Definition chk (A : Type) : Type := outcome (option A).

#[export] Instance chk_ret : MRet chk := fun A a => Ret (Some a).
#[export] Instance chk_bind : MBind chk := fun A B f m =>
  match m with
  | Ret (Some a) => f a
  | Ret None => Ret None
  | Throw s e => Throw s e
  | Undef => Undef
  | Nofuel => Nofuel
  end.

(** [check(x)]: return 0 from the function unless [x] holds *)
Definition check (b : bool) : chk unit := if b then Ret (Some tt) else Ret None.

(** [pt->code[pc]], read through the pointer *)
Definition rd_code (pt : Proto) (pc : Z) : chk Z :=
  match getZ (code pt) pc with Some i => Ret (Some i) | None => Undef end.

Definition is_op (i : Z) (o : OpCode) : bool := GET_OPCODE i =? op_num o.

Definition has_flag (x flag : Z) : bool := negb (Z.land x flag =? 0).

Definition checkreg (pt : Proto) (reg : Z) : chk unit := check (reg <? maxstacksize pt).

Definition precheck (pt : Proto) : chk unit :=
  check (maxstacksize pt <=? MAXSTACK);;
  check (numparams pt + Z.land (is_vararg pt) VARARG_HASARG <=? maxstacksize pt);;
  check (negb (has_flag (is_vararg pt) VARARG_NEEDSARG)
         || has_flag (is_vararg pt) VARARG_HASARG);;
  check (sizeupvalues pt <=? nups pt);;
  check ((sizelineinfo pt =? sizecode pt) || (sizelineinfo pt =? 0));;
  check (0 <? sizecode pt);;
  i ← rd_code pt (sizecode pt - 1);
  check (is_op i OP_RETURN).

(** [luaG_checkopenop(i)] *)
Definition luaG_checkopenop (i : Z) : bool :=
  (is_op i OP_CALL || is_op i OP_TAILCALL || is_op i OP_RETURN || is_op i OP_SETLIST)
  && (GETARG_B i =? 0).

Definition checkopenop (pt : Proto) (pc : Z) : chk unit :=
  i ← rd_code pt (pc + 1);
  check (luaG_checkopenop i).

Definition checkArgMode (pt : Proto) (r : Z) (mode : OpArgMask) : chk unit :=
  match mode with
  | OpArgN => check (r =? 0)
  | OpArgU => mret tt
  | OpArgR => checkreg pt r
  | OpArgK => check (if ISK r then INDEXK r <? sizek pt else r <? maxstacksize pt)
  end.

(** An instruction that takes its count from the next word *)
Definition is_setlist0 (d : Z) : bool := is_op d OP_SETLIST && (GETARG_C d =? 0).

(** The loop on [j] before a jump target: the number of consecutive words
    before [dest] that look like such an instruction. *)
Fixpoint setlist_run (pt : Proto) (dest : nat) : chk Z :=
  match dest with
  | O => mret 0
  | S d =>
      i ← rd_code pt (Z.of_nat d);
      if is_setlist0 i then j ← setlist_run pt d; mret (j + 1) else mret 0
  end.

(** Operands [b] and [c], checked by the format of the instruction *)
Definition symb_operands (pt : Proto) (pc i : Z) (op : OpCode) : chk (Z * Z) :=
  match getOpMode op with
  | iABC =>
      let b := GETARG_B i in
      let c := GETARG_C i in
      checkArgMode pt b (getBMode op);;
      checkArgMode pt c (getCMode op);;
      mret (b, c)
  | iABx =>
      let b := GETARG_Bx i in
      (if decide (getBMode op = OpArgK) then check (b <? sizek pt) else mret tt);;
      mret (b, 0)
  | iAsBx =>
      let b := GETARG_sBx i in
      (if decide (getBMode op = OpArgR) then
         let dest := pc + 1 + b in
         check ((0 <=? dest) && (dest <? sizecode pt));;
         if 0 <? dest then
           j ← setlist_run pt (Z.to_nat dest);
           check (Z.land j 1 =? 0)
         else mret tt
       else mret tt);;
      mret (b, 0)
  end.

(** The upvalue pseudo-instructions after OP_CLOSURE: [j] runs from 1 to
    [nup]. *)
Fixpoint check_pseudo (pt : Proto) (pc j : Z) (n : nat) : chk unit :=
  match n with
  | O => mret tt
  | S n' =>
      i ← rd_code pt (pc + j);
      check (is_op i OP_GETUPVAL || is_op i OP_MOVE);;
      check_pseudo pt pc (j + 1) n'
  end.

(** The final switch on the opcode: the new [pc] (before the increment of
    the loop) and [last]. *)
Definition symb_switch (pt : Proto) (lastpc reg pc last a b c : Z) (op : OpCode)
    : chk (Z * Z) :=
  let jump :=
    let dest := pc + 1 + b in
    if negb (reg =? NO_REG) && (pc <? dest) && (dest <=? lastpc)
    then mret (pc + b, last) else mret (pc, last) in
  match op with
  | OP_LOADBOOL =>
      (if c =? 1 then
         check (pc + 2 <? sizecode pt);;
         i ← rd_code pt (pc + 1);
         check (negb (is_op i OP_SETLIST) || negb (GETARG_C i =? 0))
       else mret tt);;
      mret (pc, last)
  | OP_LOADNIL =>
      mret (pc, if (a <=? reg) && (reg <=? b) then pc else last)
  | OP_GETUPVAL | OP_SETUPVAL => check (b <? nups pt);; mret (pc, last)
  | OP_GETGLOBAL | OP_SETGLOBAL =>
      match getZ (k pt) b with
      | Some o => check (ttisstring o);; mret (pc, last)
      | None => Undef
      end
  | OP_SELF =>
      checkreg pt (a + 1);; mret (pc, if reg =? a + 1 then pc else last)
  | OP_CONCAT => check (b <? c);; mret (pc, last)
  | OP_TFORLOOP =>
      check (1 <=? c);;
      checkreg pt (a + 2 + c);;
      mret (pc, if a + 2 <=? reg then pc else last)
  | OP_FORLOOP | OP_FORPREP => checkreg pt (a + 3);; jump
  | OP_JMP => jump
  | OP_CALL | OP_TAILCALL =>
      (if negb (b =? 0) then checkreg pt (a + b - 1) else mret tt);;
      (let c := c - 1 in
       if c =? LUA_MULTRET then checkopenop pt pc
       else if negb (c =? 0) then checkreg pt (a + c - 1) else mret tt);;
      mret (pc, if a <=? reg then pc else last)
  | OP_RETURN =>
      (let b := b - 1 in if 0 <? b then checkreg pt (a + b - 1) else mret tt);;
      mret (pc, last)
  | OP_SETLIST =>
      (if 0 <? b then checkreg pt (a + b) else mret tt);;
      if c =? 0 then
        let pc := pc + 1 in check (pc <? sizecode pt - 1);; mret (pc, last)
      else mret (pc, last)
  | OP_CLOSURE =>
      check (b <? sizep pt);;
      match getZ (p pt) b with
      | Some f =>
          let nup := nups f in
          check (pc + nup <? sizecode pt);;
          check_pseudo pt pc 1 (Z.to_nat nup);;
          mret (if negb (reg =? NO_REG) then pc + nup else pc, last)
      | None => Undef
      end
  | OP_VARARG =>
      check (has_flag (is_vararg pt) VARARG_ISVARARG
             && negb (has_flag (is_vararg pt) VARARG_NEEDSARG));;
      (let b := b - 1 in
       (if b =? LUA_MULTRET then checkopenop pt pc else mret tt);;
       checkreg pt (a + b - 1));;
      mret (pc, last)
  | _ => mret (pc, last)
  end.

(** One round of the main loop *)
Definition symb_step (pt : Proto) (lastpc reg pc last : Z) : chk (Z * Z) :=
  i ← rd_code pt pc;
  let a := GETARG_A i in
  match op_of (GET_OPCODE i) with
  | None => Ret None
  | Some op =>
      checkreg pt a;;
      '(b, c) ← symb_operands pt pc i op;
      let last := if testAMode op && (a =? reg) then pc else last in
      (if testTMode op then
         check (pc + 2 <? sizecode pt);;
         j ← rd_code pt (pc + 1);
         check (is_op j OP_JMP)
       else mret tt);;
      symb_switch pt lastpc reg pc last a b c op
  end.

Fixpoint symb_loop (pt : Proto) (lastpc reg : Z) (fuel : nat) (pc last : Z) : chk Z :=
  if pc <? lastpc then
    match fuel with
    | O => Nofuel
    | S f =>
        '(pc, last) ← symb_step pt lastpc reg pc last;
        symb_loop pt lastpc reg f (pc + 1) last
    end
  else mret last.

(** Result 0 when a check fails, as in C.  [pc] grows in every round, so
    [lastpc] rounds are enough. *)
Definition symbexec (pt : Proto) (lastpc reg : Z) : outcome Z :=
  let r :=
    precheck pt;;
    last ← symb_loop pt lastpc reg (Z.to_nat lastpc) 0 (sizecode pt - 1);
    rd_code pt last in
  match r with
  | Ret (Some i) => Ret i
  | Ret None => Ret 0
  | Throw s e => Throw s e
  | Undef => Undef
  | Nofuel => Nofuel
  end.

Definition luaG_checkcode (pt : Proto) : outcome bool :=
  i ← symbexec pt (sizecode pt) NO_REG;
  Ret (negb (i =? 0)).

(** ** Names for error messages

    [luaF_getlocalname] is in lfunc.c.  A string pointer that is NULL (it can
    come from a precompiled chunk) is undefined behaviour when read. *)

Fixpoint getlocalname (vars : list LocVar) (local_number pc : Z) : outcome (option bytes) :=
  match vars with
  | [] => mret None
  | v :: vars' =>
      if startpc v <=? pc then
        if pc <? endpc v then
          let local_number := local_number - 1 in
          if local_number =? 0 then s ← deref (varname v); mret (Some s)
          else getlocalname vars' local_number pc
        else getlocalname vars' local_number pc
      else mret None
  end.

Definition luaF_getlocalname (f : Proto) (local_number pc : Z) : outcome (option bytes) :=
  getlocalname (locvars f) local_number pc.

Definition svalue (o : TValue) : outcome bytes :=
  match o with VString s => Ret s | _ => Undef end.

Definition kname (f : Proto) (c : Z) : outcome bytes :=
  if ISK c then
    o ← deref (getZ (k f) (INDEXK c));
    if ttisstring o then svalue o else mret (str "?")
  else mret (str "?").

(** [getobjname] for a Lua function: the kind and the name of the value in
    register [stackpos] at [pc].  It calls itself on a smaller register. *)
Fixpoint getobjname_fuel (fuel : nat) (f : Proto) (pc stackpos : Z)
    : outcome (option (bytes * bytes)) :=
  match fuel with
  | O => Nofuel
  | S fuel' =>
      name ← luaF_getlocalname f (stackpos + 1) pc;
      match name with
      | Some name => mret (Some (str "local", name))
      | None =>
          i ← symbexec f pc stackpos;
          match op_of (GET_OPCODE i) with
          | Some OP_GETGLOBAL =>
              o ← deref (getZ (k f) (GETARG_Bx i));
              name ← svalue o;
              mret (Some (str "global", name))
          | Some OP_MOVE =>
              let a := GETARG_A i in
              let b := GETARG_B i in
              if b <? a then getobjname_fuel fuel' f pc b else mret None
          | Some OP_GETTABLE =>
              name ← kname f (GETARG_C i); mret (Some (str "field", name))
          | Some OP_GETUPVAL =>
              name ← (if sizeupvalues f =? 0 then mret (str "?")
                      else u ← deref (getZ (upvalues f) (GETARG_B i)); deref u);
              mret (Some (str "upvalue", name))
          | Some OP_SELF =>
              name ← kname f (GETARG_C i); mret (Some (str "method", name))
          | _ => mret None
          end
      end
  end.

Definition getobjname (f : Proto) (pc stackpos : Z) : outcome (option (bytes * bytes)) :=
  getobjname_fuel (Z.to_nat stackpos + 1) f pc stackpos.

(** [getfuncname], given the caller's function and current instruction *)
Definition getfuncname (f : Proto) (pc : Z) : outcome (option (bytes * bytes)) :=
  i ← deref (getZ (code f) pc);
  if is_op i OP_CALL || is_op i OP_TAILCALL || is_op i OP_TFORLOOP
  then getobjname f pc (GETARG_A i) else mret None.

(** ** Declarative reading of the instruction set

    What the virtual machine does with an instruction, from the operand
    descriptions of lopcodes.h: the registers, constants, upvalues and
    nested functions it touches and the places it can continue at. *)

Definition rk_reg (x : Z) : list Z := if ISK x then [] else [x].
Definition rk_const (x : Z) : list Z := if ISK x then [INDEXK x] else [].

Definition op_registers (i : Z) (op : OpCode) : list Z :=
  let a := GETARG_A i in let b := GETARG_B i in let c := GETARG_C i in
  match op with
  | OP_JMP => []
  | OP_MOVE | OP_LOADNIL | OP_UNM | OP_NOT | OP_LEN | OP_TESTSET => [a; b]
  | OP_GETTABLE => a :: b :: rk_reg c
  | OP_SETTABLE | OP_ADD | OP_SUB | OP_MUL | OP_DIV | OP_MOD | OP_POW =>
      a :: rk_reg b ++ rk_reg c
  | OP_EQ | OP_LT | OP_LE => rk_reg b ++ rk_reg c
  | OP_SELF => a :: (a + 1) :: b :: rk_reg c
  | OP_CONCAT => [a; b; c]
  | OP_CALL =>
      a :: (if b =? 0 then [] else [a + b - 1])
      ++ (if c <=? 1 then [] else [a + c - 2])
  | OP_TAILCALL => a :: (if b =? 0 then [] else [a + b - 1])
  | OP_RETURN | OP_VARARG => a :: (if b <=? 1 then [] else [a + b - 2])
  | OP_FORLOOP | OP_FORPREP => [a; a + 1; a + 2; a + 3]
  | OP_TFORLOOP => [a; a + 1; a + 2; a + 3; a + 2 + c]
  | OP_SETLIST => a :: (if b =? 0 then [] else [a + b])
  | OP_LOADK | OP_LOADBOOL | OP_GETUPVAL | OP_GETGLOBAL | OP_SETGLOBAL
  | OP_SETUPVAL | OP_NEWTABLE | OP_TEST | OP_CLOSE | OP_CLOSURE => [a]
  end.

Definition op_constants (i : Z) (op : OpCode) : list Z :=
  match op with
  | OP_LOADK | OP_GETGLOBAL | OP_SETGLOBAL => [GETARG_Bx i]
  | OP_GETTABLE | OP_SELF => rk_const (GETARG_C i)
  | OP_SETTABLE | OP_ADD | OP_SUB | OP_MUL | OP_DIV | OP_MOD | OP_POW
  | OP_EQ | OP_LT | OP_LE => rk_const (GETARG_B i) ++ rk_const (GETARG_C i)
  | _ => []
  end.

Definition op_upvalues (i : Z) (op : OpCode) : list Z :=
  match op with OP_GETUPVAL | OP_SETUPVAL => [GETARG_B i] | _ => [] end.

Definition op_protos (i : Z) (op : OpCode) : list Z :=
  match op with OP_CLOSURE => [GETARG_Bx i] | _ => [] end.

(** [successor pt pc pc'] : executing the instruction at [pc] can continue at
    [pc'] in the same function. *)
Inductive successor (pt : Proto) (pc : Z) : Z -> Prop :=
| succ_next i op :
    getZ (code pt) pc = Some i -> op_of (GET_OPCODE i) = Some op ->
    op ∉ [OP_JMP; OP_FORPREP; OP_RETURN; OP_EQ; OP_LT; OP_LE; OP_TEST; OP_TESTSET;
          OP_TFORLOOP; OP_CLOSURE] ->
    (op = OP_LOADBOOL -> GETARG_C i = 0) -> is_setlist0 i = false ->
    successor pt pc (pc + 1)
| succ_skip i op :
    getZ (code pt) pc = Some i -> op_of (GET_OPCODE i) = Some op ->
    (op = OP_LOADBOOL /\ GETARG_C i <> 0) \/ is_setlist0 i = true \/
      op ∈ [OP_EQ; OP_LT; OP_LE; OP_TEST; OP_TESTSET; OP_TFORLOOP] ->
    successor pt pc (pc + 2)
| succ_jump i op :
    getZ (code pt) pc = Some i -> op_of (GET_OPCODE i) = Some op ->
    op ∈ [OP_JMP; OP_FORPREP; OP_FORLOOP] ->
    successor pt pc (pc + 1 + GETARG_sBx i)
| succ_test i op j :
    getZ (code pt) pc = Some i -> op_of (GET_OPCODE i) = Some op ->
    op ∈ [OP_EQ; OP_LT; OP_LE; OP_TEST; OP_TESTSET; OP_TFORLOOP] ->
    getZ (code pt) (pc + 1) = Some j ->
    successor pt pc (pc + 2 + GETARG_sBx j)
| succ_closure i f :
    getZ (code pt) pc = Some i -> op_of (GET_OPCODE i) = Some OP_CLOSURE ->
    getZ (p pt) (GETARG_Bx i) = Some f ->
    successor pt pc (pc + 1 + nups f).

Definition reachable (pt : Proto) : Z -> Prop := rtc (successor pt) 0.

(** The values of a prototype fit in their C types. *)
Definition typed (pt : Proto) : Prop :=
  Forall is_u32 (code pt) /\ is_byte (nups pt) /\ is_byte (maxstacksize pt) /\
  Forall (fun f => is_byte (nups f)) (p pt) /\ sizecode pt <= INT_MAX.

(** What a correct function promises at the instruction at [pc]. *)
Definition instr_ok (pt : Proto) (pc : Z) : Prop :=
  exists i op, getZ (code pt) pc = Some i /\ op_of (GET_OPCODE i) = Some op /\
    Forall (fun r => 0 <= r < maxstacksize pt) (op_registers i op) /\
    Forall (fun x => 0 <= x < sizek pt) (op_constants i op) /\
    Forall (fun u => 0 <= u < nups pt) (op_upvalues i op) /\
    Forall (fun x => 0 <= x < sizep pt) (op_protos i op) /\
    (op = OP_GETGLOBAL \/ op = OP_SETGLOBAL ->
     exists o, getZ (k pt) (GETARG_Bx i) = Some o /\ ttisstring o = true).

(** ** The monad of checks: lemmas *)

Definition chk_post {A} (m : chk A) (Q : A -> Prop) : Prop :=
  match m with Ret (Some a) => Q a | Ret None => True | _ => False end.

Section chk_lemmas.
Context {A B : Type}.
Implicit Types (m : chk A) (f : A -> chk B).

Lemma chk_post_bind m f P Q :
  chk_post m P -> (forall a, P a -> chk_post (f a) Q) -> chk_post (m ≫= f) Q.
Proof. destruct m as [[a|]| | |]; simpl; auto. Qed.

Lemma chk_post_mono m P Q :
  chk_post m P -> (forall a, P a -> Q a) -> chk_post m Q.
Proof. destruct m as [[a|]| | |]; simpl; auto. Qed.

Lemma chk_bind_Some m f b :
  m ≫= f = Ret (Some b) -> exists a, m = Ret (Some a) /\ f a = Ret (Some b).
Proof. destruct m as [[a|]| | |]; simpl; intros; try done. eauto. Qed.
End chk_lemmas.

Lemma check_post b (Q : unit -> Prop) : (b = true -> Q tt) -> chk_post (check b) Q.
Proof. destruct b; simpl; auto. Qed.

Lemma check_Some b u : check b = Ret (Some u) -> b = true.
Proof. by destruct b. Qed.

Lemma rd_code_post pt i (Q : Z -> Prop) :
  0 <= i < sizecode pt -> (forall d, getZ (code pt) i = Some d -> Q d) ->
  chk_post (rd_code pt i) Q.
Proof.
  intros Hi HQ. unfold rd_code.
  destruct (getZ_is_Some (code pt) i Hi) as [d Hd]. rewrite Hd. simpl. auto.
Qed.

Lemma rd_code_Some pt i d : rd_code pt i = Ret (Some d) -> getZ (code pt) i = Some d.
Proof. unfold rd_code. destruct (getZ (code pt) i); congruence. Qed.

Lemma bind_check_post {B} b (f : unit -> chk B) Q :
  (b = true -> chk_post (f tt) Q) -> chk_post (check b ≫= f) Q.
Proof. destruct b; simpl; auto. Qed.

Lemma bind_rd_code_post {B} pt i (f : Z -> chk B) Q :
  0 <= i < sizecode pt -> (forall d, getZ (code pt) i = Some d -> chk_post (f d) Q) ->
  chk_post (rd_code pt i ≫= f) Q.
Proof.
  intros Hi Hf. apply (chk_post_bind _ _ (fun d => getZ (code pt) i = Some d)); [|done].
  by apply rd_code_post.
Qed.

Lemma bind_unit_post {B} (m : chk unit) (f : unit -> chk B) Q :
  chk_post m (fun _ => True) -> chk_post (f tt) Q -> chk_post (m ≫= f) Q.
Proof. intros Hm Hf. eapply chk_post_bind; [done|]. by intros [] _. Qed.

(** Run a chain of checks forwards, for [chk_post] goals *)
Ltac chk_step :=
  unfold checkreg;
  match goal with
  | |- chk_post (check _ ≫= _) _ => apply bind_check_post; intros; bool_facts
  | |- chk_post (check _) _ => apply check_post; intros; bool_facts
  | |- chk_post (rd_code _ _ ≫= _) _ =>
      apply bind_rd_code_post; [|intros ? ?]
  | |- chk_post ((if _ then _ else _) ≫= _) _ => apply bind_unit_post
  | |- chk_post ((_ ≫= _) ≫= _) _ => apply bind_unit_post
  | |- chk_post (mret tt) (fun _ => True) => exact I
  | |- chk_post (if ?b then _ else _) _ => destruct b eqn:?; bool_facts
  end.

(** Invert a successful chain of checks. *)
Ltac chk_inv :=
  repeat match goal with
  | H : _ ≫= _ = Ret (Some _) |- _ =>
      let x := fresh "x" in let E := fresh "E" in
      apply chk_bind_Some in H; destruct H as (x & E & H); cbv beta in H
  | H : check _ = Ret (Some _) |- _ => apply check_Some in H
  | H : checkreg _ _ = Ret (Some _) |- _ => apply check_Some in H
  | H : rd_code _ _ = Ret (Some _) |- _ => apply rd_code_Some in H
  | H : mret _ = Ret (Some _) |- _ => injection H as H; subst
  | H : Ret (Some _) = Ret (Some _) |- _ => injection H as H; subst
  end; bool_facts.

Lemma is_op_true i o : is_op i o = true -> op_of (GET_OPCODE i) = Some o.
Proof. unfold is_op. intros H%Z.eqb_eq. by rewrite H, op_of_num. Qed.

Lemma is_op_op_of i o o' : op_of (GET_OPCODE i) = Some o -> is_op i o' = bool_decide (o = o').
Proof.
  intros H%op_of_Some. unfold is_op. rewrite H.
  destruct (Z.eqb_spec (op_num o) (op_num o')) as [E|E]; symmetry.
  - apply bool_decide_eq_true. apply (f_equal op_of) in E. rewrite !op_of_num in E.
    congruence.
  - apply bool_decide_eq_false. congruence.
Qed.

(** The last instruction of a prechecked function is OP_RETURN. *)
Definition ends_in_return (pt : Proto) : Prop :=
  exists r, 0 < sizecode pt /\ getZ (code pt) (sizecode pt - 1) = Some r /\
    is_op r OP_RETURN = true.

Lemma precheck_post pt :
  chk_post (precheck pt) (fun _ => ends_in_return pt /\ maxstacksize pt <= MAXSTACK).
Proof.
  unfold precheck. repeat chk_step; try done; [lia|].
  split; [|done]. eexists. eauto.
Qed.

(** An instruction that is not OP_RETURN has a successor in the code. *)
Lemma not_last pt pc i op :
  ends_in_return pt -> 0 <= pc < sizecode pt -> getZ (code pt) pc = Some i ->
  op_of (GET_OPCODE i) = Some op -> op <> OP_RETURN -> pc + 1 < sizecode pt.
Proof.
  intros (r & Hs & Hr & Hop) Hpc Hi Ho Hne.
  destruct (decide (pc = sizecode pt - 1)) as [->|]; [|lia].
  rewrite Hr in Hi. injection Hi as ->. apply is_op_true in Hop. congruence.
Qed.

Lemma setlist_run_post pt n :
  Z.of_nat n <= sizecode pt -> chk_post (setlist_run pt n) (fun _ => True).
Proof.
  induction n as [|n IH]; intros Hn; cbn [setlist_run]; [done|].
  chk_step; [lia|]. chk_step; [|done].
  eapply chk_post_bind; [apply IH; lia|done].
Qed.

Lemma checkArgMode_post pt r mode : chk_post (checkArgMode pt r mode) (fun _ => True).
Proof. destruct mode; cbn [checkArgMode]; try done; by chk_step. Qed.

Lemma symb_operands_post pt pc i op :
  chk_post (symb_operands pt pc i op) (fun '(b, c) =>
    getOpMode op = iABx -> b = GETARG_Bx i /\
       (getBMode op = OpArgK -> b < sizek pt)).
Proof.
  unfold symb_operands. destruct (getOpMode op) eqn:Em.
  - apply bind_unit_post; [apply checkArgMode_post|].
    apply bind_unit_post; [apply checkArgMode_post|].
    cbn. congruence.
  - case_decide as Hb; [chk_step|]; cbn; intros; split; auto; congruence.
  - apply bind_unit_post; [|cbn; congruence]. case_decide; [|done].
    chk_step. chk_step; [|done].
    eapply chk_post_bind; [apply setlist_run_post; lia|].
    intros j _. by chk_step.
Qed.

Lemma check_pseudo_post pt pc j n :
  0 <= pc + j -> pc + j + Z.of_nat n <= sizecode pt ->
  chk_post (check_pseudo pt pc j n) (fun _ => True).
Proof.
  revert j. induction n as [|n IH]; intros j H1 H2; cbn [check_pseudo]; [done|].
  chk_step; [lia|]. chk_step. apply IH; lia.
Qed.

Lemma checkopenop_post pt pc :
  0 <= pc + 1 < sizecode pt -> chk_post (checkopenop pt pc) (fun _ => True).
Proof. intros. unfold checkopenop. chk_step; [done|]. by chk_step. Qed.

Definition pc_last_ok (pt : Proto) (pc : Z) (r : Z * Z) : Prop :=
  let '(pc', last') := r in pc <= pc' /\ 0 <= last' < sizecode pt.

Lemma symb_switch_post pt lastpc reg pc last i op b c :
  typed pt -> ends_in_return pt -> 0 <= pc < sizecode pt -> 0 <= last < sizecode pt ->
  getZ (code pt) pc = Some i -> op_of (GET_OPCODE i) = Some op ->
  (getOpMode op = iABx -> b = GETARG_Bx i /\ (getBMode op = OpArgK -> b < sizek pt)) ->
  chk_post (symb_switch pt lastpc reg pc last (GETARG_A i) b c op) (pc_last_ok pt pc).
Proof.
  intros (_ & _ & _ & Hp & _) Hret Hpc Hlast Hi Hop Hbx.
  assert (Hnext : op <> OP_RETURN -> pc + 1 < sizecode pt)
    by (intros; eapply not_last; eauto).
  assert (Hjump : chk_post (if negb (reg =? NO_REG) && (pc <? pc + 1 + b) && (pc + 1 + b <=? lastpc)
    then mret (pc + b, last) else mret (pc, last)) (pc_last_ok pt pc))
    by (case_if; bool_facts; simpl; lia).
  assert (Hconst : forall f : TValue -> chk (Z * Z),
    getBMode op = OpArgK -> getOpMode op = iABx ->
    (forall o, chk_post (f o) (pc_last_ok pt pc)) ->
    chk_post (match getZ (k pt) b with Some o => f o | None => Undef end) (pc_last_ok pt pc)).
  { intros f Hb Hm Hf. destruct (Hbx Hm) as [-> Hk]. pose proof (GETARG_Bx_range i).
    destruct (getZ_is_Some (k pt) (GETARG_Bx i)) as [o ->]; [|done].
    unfold sizek in *. split; [lia|]. by apply Hk. }
  destruct op; cbn [symb_switch]; try specialize (Hnext ltac:(done)).
  all: repeat first
    [ exact Hjump | exact I
    | lazymatch goal with
      | |- chk_post (mret _) (pc_last_ok _ _) =>
          cbn; repeat case_if; bool_facts; cbn; lia
      | |- chk_post (match getZ (k _) _ with _ => _ end) _ =>
          apply Hconst; [done..|intros o]
      | |- chk_post (checkopenop _ _) _ => apply checkopenop_post; lia
      end
    | chk_step; try (lia || discriminate) ].
  destruct (Hbx eq_refl) as [-> _]. pose proof (GETARG_Bx_range i).
  destruct (getZ_is_Some (p pt) (GETARG_Bx i)) as [f Hf]; [unfold sizep in *; lia|].
  rewrite Hf.
  assert (0 <= nups f < 256) as Hn by exact (getZ_Forall _ _ _ _ Hp Hf).
  chk_step. apply bind_unit_post; [apply check_pseudo_post; lia|].
  cbn; case_if; lia.
Qed.

Lemma symb_step_post pt lastpc reg pc last :
  typed pt -> ends_in_return pt -> 0 <= pc < sizecode pt -> 0 <= last < sizecode pt ->
  chk_post (symb_step pt lastpc reg pc last) (pc_last_ok pt pc).
Proof.
  intros Ht Hret Hpc Hlast. unfold symb_step.
  apply bind_rd_code_post; [done|]. intros i Hi.
  destruct (op_of (GET_OPCODE i)) as [op|] eqn:Hop; [|done].
  chk_step. eapply chk_post_bind; [apply symb_operands_post|]. intros [b c] Hbx.
  apply bind_unit_post.
  - chk_step; [|done]. chk_step. chk_step; [lia|]. by chk_step.
  - eapply symb_switch_post; eauto. case_if; lia.
Qed.

Lemma symb_loop_post pt lastpc reg fuel pc last :
  typed pt -> ends_in_return pt -> lastpc <= sizecode pt ->
  0 <= pc -> lastpc - pc <= Z.of_nat fuel -> 0 <= last < sizecode pt ->
  chk_post (symb_loop pt lastpc reg fuel pc last) (fun l => 0 <= l < sizecode pt).
Proof.
  intros Ht Hret Hl. revert pc last.
  induction fuel as [|fuel IH]; intros pc last Hpc Hf Hlast; cbn [symb_loop].
  - case_if; bool_facts; [lia|done].
  - case_if; bool_facts; [|done].
    eapply chk_post_bind; [apply symb_step_post; (done || lia)|].
    intros [pc' last'] [Hpc' Hlast']. apply IH; lia.
Qed.

Lemma symbexec_total pt lastpc reg :
  typed pt -> lastpc <= sizecode pt -> exists i, symbexec pt lastpc reg = Ret i.
Proof.
  intros Ht Hl. unfold symbexec.
  assert (Hpost : chk_post (precheck pt;;
    last ← symb_loop pt lastpc reg (Z.to_nat lastpc) 0 (sizecode pt - 1);
    rd_code pt last) (fun _ => True)).
  { eapply chk_post_bind; [apply precheck_post|]. intros _ [Hret _].
    assert (0 < sizecode pt) by (destruct Hret as (? & ? & ?); done).
    eapply chk_post_bind; [apply symb_loop_post; (done || lia)|].
    intros l Hlast. by apply rd_code_post. }
  destruct (precheck pt ≫= _) as [[i|]| | |]; try done; eauto.
Qed.

(** C8: the verifier itself is safe on hostile input: whatever the words of
    the code are, symbolic execution ends and reads code, constants and
    nested functions only inside their arrays, for every range of
    instructions and every register it is asked about. *)
Theorem symbexec_safe pt lastpc reg :
  typed pt -> lastpc <= sizecode pt -> exists i, symbexec pt lastpc reg = Ret i.
Proof. apply symbexec_total. Qed.

Lemma symb_loop_start pt lastpc reg fuel pc last l :
  symb_loop pt lastpc reg fuel pc last = Ret (Some l) -> pc < lastpc ->
  exists fuel' pc' last', symb_step pt lastpc reg pc last = Ret (Some (pc', last')) /\
    symb_loop pt lastpc reg fuel' (pc' + 1) last' = Ret (Some l).
Proof.
  destruct fuel as [|fuel]; cbn [symb_loop]; case_if; bool_facts; intros H Hlt;
    try lia; try done.
  apply chk_bind_Some in H. destruct H as ([pc' last'] & E & H). eauto.
Qed.

(** ** Accepted code: lemmas *)

Definition argmode_ok (pt : Proto) (r : Z) (mode : OpArgMask) : Prop :=
  match mode with
  | OpArgN => r = 0
  | OpArgU => True
  | OpArgR => r < maxstacksize pt
  | OpArgK => if ISK r then INDEXK r < sizek pt else r < maxstacksize pt
  end.

Lemma checkArgMode_inv pt r mode u :
  checkArgMode pt r mode = Ret (Some u) -> argmode_ok pt r mode.
Proof. destruct mode; cbn; intros; chk_inv; try case_if; bool_facts; done. Qed.

Definition operands_ok (pt : Proto) (pc i : Z) (op : OpCode) (b c : Z) : Prop :=
  match getOpMode op with
  | iABC => b = GETARG_B i /\ c = GETARG_C i /\
      argmode_ok pt b (getBMode op) /\ argmode_ok pt c (getCMode op)
  | iABx => b = GETARG_Bx i /\ c = 0 /\ (getBMode op = OpArgK -> b < sizek pt)
  | iAsBx => b = GETARG_sBx i /\ c = 0 /\
      (getBMode op = OpArgR -> 0 <= pc + 1 + b < sizecode pt /\
       (0 < pc + 1 + b -> exists j,
          setlist_run pt (Z.to_nat (pc + 1 + b)) = Ret (Some j) /\ Z.land j 1 = 0))
  end.

Lemma symb_operands_inv pt pc i op b c :
  symb_operands pt pc i op = Ret (Some (b, c)) -> operands_ok pt pc i op b c.
Proof.
  unfold symb_operands, operands_ok. destruct (getOpMode op); intros; chk_inv.
  - eauto 10 using checkArgMode_inv.
  - split; [done|split; [done|]]. intros Hb. rewrite decide_True in E by done. by chk_inv.
  - split; [done|split; [done|]]. intros Hb. rewrite decide_True in E by done. chk_inv.
    split; [lia|]. intros Hd. rewrite (proj2 (Z.ltb_lt 0 _)) in E by done. chk_inv. eauto.
Qed.

(** One successful round of the loop, with its parts named. *)
Lemma symb_step_inv pt lastpc reg pc last r :
  symb_step pt lastpc reg pc last = Ret (Some r) ->
  exists i op b c last', getZ (code pt) pc = Some i /\ op_of (GET_OPCODE i) = Some op /\
    GETARG_A i < maxstacksize pt /\ operands_ok pt pc i op b c /\
    (testTMode op = true -> pc + 2 < sizecode pt /\
       exists j, getZ (code pt) (pc + 1) = Some j /\ is_op j OP_JMP = true) /\
    symb_switch pt lastpc reg pc last' (GETARG_A i) b c op = Ret (Some r).
Proof.
  unfold symb_step. intros H. chk_inv.
  destruct (op_of (GET_OPCODE x)) as [op|] eqn:Hop; [|done]. chk_inv.
  destruct x1 as [b c]. chk_inv.
  eexists x, op, b, c, _. split_and!; eauto using symb_operands_inv.
  intros Ht. rewrite Ht in *. chk_inv. eauto.
Qed.

Inductive boundary (pt : Proto) : Z -> Prop :=
| boundary_0 : boundary pt 0
| boundary_S pc i :
    boundary pt pc -> getZ (code pt) pc = Some i ->
    boundary pt (pc + if is_setlist0 i then 2 else 1).

Definition step_ok (pt : Proto) (pc : Z) : Prop :=
  exists last r, symb_step pt (sizecode pt) NO_REG pc last = Ret (Some r).

Lemma is_setlist0_op i op :
  op_of (GET_OPCODE i) = Some op -> op <> OP_SETLIST -> is_setlist0 i = false.
Proof.
  intros Ho Hne. unfold is_setlist0. rewrite (is_op_op_of _ _ _ Ho).
  by rewrite bool_decide_eq_false_2.
Qed.

Ltac modes_in H :=
  repeat match type of H with
  | context [getOpMode ?o] => let m := eval vm_compute in (getOpMode o) in
      change (getOpMode o) with m in H
  | context [getBMode ?o] => let m := eval vm_compute in (getBMode o) in
      change (getBMode o) with m in H
  | context [getCMode ?o] => let m := eval vm_compute in (getCMode o) in
      change (getCMode o) with m in H
  | context [testTMode ?o] => let m := eval vm_compute in (testTMode o) in
      change (testTMode o) with m in H
  end; cbv iota beta in H; cbn [argmode_ok] in H.

(** ** Accepted code: where instructions start *)

Section accepted.
Context (pt : Proto).
Hypothesis Htyped : typed pt.
Hypothesis Haccept : luaG_checkcode pt = Ret true.

Lemma accept_return : ends_in_return pt.
Proof using Haccept Htyped.
  pose proof (precheck_post pt) as Hp. unfold luaG_checkcode, symbexec in Haccept.
  destruct (precheck pt) as [[[]|]| | |]; try done. apply Hp.
Qed.

Lemma accept_loop : exists fuel last l,
  symb_loop pt (sizecode pt) NO_REG fuel 0 last = Ret (Some l).
Proof using Haccept.
  unfold luaG_checkcode, symbexec in Haccept.
  destruct (precheck pt ≫= _) as [[i|]| | |] eqn:E; try done. chk_inv. eauto.
Qed.

Lemma symb_switch_pc pc last a b c op pc' last' :
  symb_switch pt (sizecode pt) NO_REG pc last a b c op = Ret (Some (pc', last')) ->
  pc' = pc + if bool_decide (op = OP_SETLIST) && (c =? 0) then 1 else 0.
Proof.
  destruct op; cbn [symb_switch]; rewrite ?Z.eqb_refl; cbn [negb andb];
    intros H; chk_inv;
    repeat (match goal with H : context [match ?x with _ => _ end] |- _ =>
      destruct x eqn:? end; chk_inv; try done);
    repeat match goal with H : mret (_, _) = Ret _ |- _ => injection H as <- <- end;
    try (rewrite bool_decide_eq_false_2 by done; cbn; lia).
  all: rewrite bool_decide_eq_true_2 by done; cbn [andb];
    repeat case_if; bool_facts; try lia.
Qed.

Lemma symb_step_next pc last pc' last' i :
  getZ (code pt) pc = Some i ->
  symb_step pt (sizecode pt) NO_REG pc last = Ret (Some (pc', last')) ->
  pc' + 1 = pc + if is_setlist0 i then 2 else 1.
Proof.
  intros Hi H. apply symb_step_inv in H.
  destruct H as (i' & op & b & c & last0 & Hi' & Hop & _ & Ho & _ & Hs).
  assert (i' = i) as -> by congruence.
  apply symb_switch_pc in Hs. subst pc'. unfold is_setlist0.
  rewrite (is_op_op_of _ _ _ Hop). case_bool_decide as E; cbn [andb]; [|lia].
  subst op. unfold operands_ok in Ho. modes_in Ho. destruct Ho as (_ & -> & _).
  case_if; lia.
Qed.

Lemma boundary_nonneg pc : boundary pt pc -> 0 <= pc.
Proof. induction 1; [lia|]. case_if; lia. Qed.

Lemma boundary_loop pc : boundary pt pc -> exists fuel last l,
  symb_loop pt (sizecode pt) NO_REG fuel pc last = Ret (Some l).
Proof using Haccept.
  induction 1 as [|pc i Hb IH Hi]; [apply accept_loop|].
  destruct IH as (fuel & last & l & H). apply symb_loop_start in H.
  - destruct H as (fuel' & pc' & last' & Hs & H).
    rewrite <- (symb_step_next _ _ _ _ _ Hi Hs). eauto.
  - apply getZ_Some in Hi. unfold sizecode. lia.
Qed.

Lemma boundary_step pc : boundary pt pc -> pc < sizecode pt -> step_ok pt pc.
Proof using Haccept.
  intros Hb Hpc. apply boundary_loop in Hb. destruct Hb as (fuel & last & l & H).
  apply symb_loop_start in H; [|done]. destruct H as (? & ? & ? & Hs & _).
  red. eauto.
Qed.

(** Every position is an instruction or the count word of one. *)
Lemma boundary_cover n :
  Z.of_nat n <= sizecode pt ->
  boundary pt (Z.of_nat n) \/
  exists i, boundary pt (Z.of_nat n - 1) /\ getZ (code pt) (Z.of_nat n - 1) = Some i /\
    is_setlist0 i = true.
Proof.
  induction n as [|n IH]; intros Hn; [left; constructor|].
  destruct (getZ_is_Some (code pt) (Z.of_nat n)) as [i Hi]; [unfold sizecode in Hn; lia|].
  destruct IH as [Hb|(i' & Hb & Hi' & Hs)]; [lia| |].
  - pose proof (boundary_S _ _ _ Hb Hi) as Hb'. destruct (is_setlist0 i) eqn:Es.
    + right. exists i. replace (Z.of_nat (S n) - 1) with (Z.of_nat n) by lia. done.
    + left. replace (Z.of_nat (S n)) with (Z.of_nat n + 1) by lia. done.
  - left. pose proof (boundary_S _ _ _ Hb Hi') as Hb'. rewrite Hs in Hb'.
    replace (Z.of_nat (S n)) with (Z.of_nat n - 1 + 2) by lia. done.
Qed.

Lemma setlist_run_parity n j :
  Z.of_nat n <= sizecode pt -> setlist_run pt n = Ret (Some j) ->
  if Z.even j then boundary pt (Z.of_nat n)
  else exists i, boundary pt (Z.of_nat n - 1) /\
    getZ (code pt) (Z.of_nat n - 1) = Some i /\ is_setlist0 i = true.
Proof.
  revert j. induction n as [|n IH]; intros j Hn; cbn [setlist_run]; intros H.
  { injection H as <-. constructor. }
  chk_inv. destruct (is_setlist0 x) eqn:Es; chk_inv.
  - specialize (IH x0 ltac:(lia) ltac:(done)). rewrite Z.even_add.
    destruct (Z.even x0); cbn [eqb Z.even].
    + exists x. replace (Z.of_nat (S n) - 1) with (Z.of_nat n) by lia. done.
    + destruct IH as (i & Hb & Hi & Hs). pose proof (boundary_S _ _ _ Hb Hi) as Hb'.
      rewrite Hs in Hb'. replace (Z.of_nat (S n)) with (Z.of_nat n - 1 + 2) by lia. done.
  - cbn. destruct (boundary_cover (S n) Hn) as [|(i & _ & Hi & Hs)]; [done|].
    replace (Z.of_nat (S n) - 1) with (Z.of_nat n) in Hi by lia. congruence.
Qed.

Lemma jump_boundary dest :
  0 <= dest < sizecode pt ->
  (0 < dest -> exists j, setlist_run pt (Z.to_nat dest) = Ret (Some j) /\ Z.land j 1 = 0) ->
  boundary pt dest.
Proof.
  intros Hd Hj. destruct (decide (dest = 0)) as [->|]; [constructor|].
  destruct Hj as (j & Hr & Hl); [lia|].
  apply setlist_run_parity in Hr; [|lia]. rewrite Z2Nat.id in Hr by lia.
  assert (Z.even j = true) as He; [|by rewrite He in Hr].
  change 1 with (Z.ones 1) in Hl. rewrite Z.land_ones in Hl by lia.
  change (2 ^ 1) with 2 in Hl. rewrite Zmod_even in Hl. by destruct (Z.even j).
Qed.
End accepted.

(** ** Accepted code: what the instructions do *)

Lemma rk_reg_ok pt r :
  0 <= r -> argmode_ok pt r OpArgK -> Forall (fun x => 0 <= x < maxstacksize pt) (rk_reg r).
Proof. cbn [argmode_ok]. unfold rk_reg. intros. case_if; repeat constructor; lia. Qed.

Lemma rk_const_ok pt r :
  0 <= r -> argmode_ok pt r OpArgK -> Forall (fun x => 0 <= x < sizek pt) (rk_const r).
Proof.
  cbn [argmode_ok]. unfold rk_const. intros Hr.
  destruct (ISK r) eqn:E; repeat constructor; [|lia].
  apply Z.land_nonneg. by left.
Qed.

#[local] Hint Resolve rk_reg_ok rk_const_ok : lua.

(** What the final switch checks, by opcode. *)
Definition switch_ok (pt : Proto) (pc a b c : Z) (op : OpCode) : Prop :=
  match op with
  | OP_LOADBOOL => c = 1 -> pc + 2 < sizecode pt /\
      exists i, getZ (code pt) (pc + 1) = Some i /\ is_setlist0 i = false
  | OP_GETUPVAL | OP_SETUPVAL => b < nups pt
  | OP_GETGLOBAL | OP_SETGLOBAL =>
      exists o, getZ (k pt) b = Some o /\ ttisstring o = true
  | OP_SELF => a + 1 < maxstacksize pt
  | OP_TFORLOOP => 1 <= c /\ a + 2 + c < maxstacksize pt
  | OP_FORLOOP | OP_FORPREP => a + 3 < maxstacksize pt
  | OP_CALL | OP_TAILCALL =>
      (b <> 0 -> a + b - 1 < maxstacksize pt) /\
      (1 < c -> a + c - 2 < maxstacksize pt)
  | OP_RETURN => 1 < b -> a + b - 2 < maxstacksize pt
  | OP_SETLIST => (0 < b -> a + b < maxstacksize pt) /\ (c = 0 -> pc + 2 < sizecode pt)
  | OP_CLOSURE => exists f, getZ (p pt) b = Some f /\ b < sizep pt /\
      pc + nups f < sizecode pt /\
      forall j, 1 <= j <= nups f -> exists i, getZ (code pt) (pc + j) = Some i /\
        (is_op i OP_GETUPVAL = true \/ is_op i OP_MOVE = true)
  | OP_VARARG => a + b - 2 < maxstacksize pt
  | _ => True
  end.

Lemma check_pseudo_inv pt pc j n u :
  check_pseudo pt pc j n = Ret (Some u) ->
  forall x, j <= x < j + Z.of_nat n -> exists i, getZ (code pt) (pc + x) = Some i /\
    (is_op i OP_GETUPVAL = true \/ is_op i OP_MOVE = true).
Proof.
  revert j. induction n as [|n IH]; intros j; cbn [check_pseudo]; intros H x Hx; [lia|].
  chk_inv. apply orb_true_iff in E0.
  destruct (decide (x = j)) as [->|]; [eauto|]. eapply IH; eauto. lia.
Qed.

Lemma checkcall_inv pt a b u :
  (if negb (b =? 0) then checkreg pt (a + b - 1) else mret tt) = Ret (Some u) ->
  b <> 0 -> a + b - 1 < maxstacksize pt.
Proof. intros H Hb. rewrite (proj2 (Z.eqb_neq _ _) Hb) in H. cbn in H. by chk_inv. Qed.

Lemma checkresults_inv pt pc a c u :
  (if c - 1 =? LUA_MULTRET then checkopenop pt pc
   else if negb (c - 1 =? 0) then checkreg pt (a + (c - 1) - 1) else mret tt) = Ret (Some u) ->
  1 < c -> a + c - 2 < maxstacksize pt.
Proof.
  intros H Hc. rewrite (proj2 (Z.eqb_neq _ LUA_MULTRET)) in H by (unfold LUA_MULTRET; lia).
  rewrite (proj2 (Z.eqb_neq _ 0)) in H by lia. cbn [negb] in H. chk_inv. lia.
Qed.

Lemma symb_switch_inv pt lastpc reg pc last a b c op r :
  symb_switch pt lastpc reg pc last a b c op = Ret (Some r) ->
  switch_ok pt pc a b c op.
Proof.
  destruct op; cbn [symb_switch switch_ok]; intros H; chk_inv; try done.
  - intros ->. cbn in E. chk_inv. split; [done|]. eexists. split; [done|].
    unfold is_setlist0. apply orb_true_iff in E.
    destruct E as [E|E]; bool_facts; [by rewrite E|].
    rewrite (proj2 (Z.eqb_neq _ 0)) by done. apply andb_false_r.
  - destruct (getZ (k pt) b); chk_inv; [eauto|done].
  - destruct (getZ (k pt) b); chk_inv; [eauto|done].
  - split; [intros; eapply checkcall_inv | intros; eapply checkresults_inv]; eauto.
  - split; [intros; eapply checkcall_inv | intros; eapply checkresults_inv]; eauto.
  - intros. rewrite (proj2 (Z.ltb_lt 0 _)) in E by lia. chk_inv. lia.
  - split; intros.
    + rewrite (proj2 (Z.ltb_lt 0 _)) in E by lia. by chk_inv.
    + rewrite (proj2 (Z.eqb_eq c 0)) in H by lia. chk_inv. lia.
  - destruct (getZ (p pt) b) eqn:Ep; [|done]. chk_inv. eexists. split_and!; eauto.
    intros j Hj. eapply check_pseudo_inv; eauto. lia.
  - lia.
Qed.

(** The checks an accepted instruction has passed *)
Record passed (pt : Proto) (pc i : Z) (op : OpCode) : Prop := {
  passed_word : getZ (code pt) pc = Some i;
  passed_op : op_of (GET_OPCODE i) = Some op;
  passed_a : GETARG_A i < maxstacksize pt;
  passed_test : testTMode op = true -> pc + 2 < sizecode pt /\
    exists j, getZ (code pt) (pc + 1) = Some j /\ is_op j OP_JMP = true;
  passed_operands : exists b c, operands_ok pt pc i op b c /\
    switch_ok pt pc (GETARG_A i) b c op
}.

Lemma symb_switch_last pt lastpc reg pc last a b c op pc' last' :
  symb_switch pt lastpc reg pc last a b c op = Ret (Some (pc', last')) ->
  last' = last \/ last' = pc /\ op <> OP_MOVE.
Proof.
  destruct op; cbn [symb_switch]; intros H; chk_inv;
    repeat (match goal with H : context [match ?x with _ => _ end] |- _ =>
      destruct x eqn:? end; chk_inv; try done);
    repeat match goal with H : mret (_, _) = Ret _ |- _ => injection H as <- <- end;
    auto; by repeat case_if; auto.
Qed.

Lemma symb_step_passed pt lastpc reg pc last pc' last' :
  symb_step pt lastpc reg pc last = Ret (Some (pc', last')) ->
  exists i op, passed pt pc i op /\
    (last' = last \/ last' = pc /\ (op = OP_MOVE -> GETARG_A i = reg)).
Proof.
  unfold symb_step. intros H. chk_inv.
  destruct (op_of (GET_OPCODE x)) as [op|] eqn:Hop; [|done]. chk_inv.
  destruct x1 as [b c]. chk_inv. exists x, op. split.
  - split; [done..| |]; [intros Ht; rewrite Ht in *; chk_inv; eauto|].
    exists b, c. split; [by apply symb_operands_inv|by eapply symb_switch_inv].
  - apply symb_switch_last in H. destruct H as [->|[-> Hne]]; [|tauto].
    case_if; [|tauto]. bool_facts. right. split; [done|]. by intros _.
Qed.

Lemma step_ok_passed pt pc : step_ok pt pc -> exists i op, passed pt pc i op.
Proof.
  intros (last & [pc' last'] & H). apply symb_step_passed in H.
  destruct H as (i & op & H & _). eauto.
Qed.

Ltac passed_inv H :=
  destruct H as [Hi Hop Ha Ht (b & c & Ho & Hs)]; unfold operands_ok in Ho;
  modes_in Ho; cbn [switch_ok] in Hs; destruct_and? Ho; subst.

Lemma passed_registers pt pc i op :
  passed pt pc i op -> Forall (fun r => 0 <= r < maxstacksize pt) (op_registers i op).
Proof.
  intros H. pose proof (GETARG_A_range i). pose proof (GETARG_B_range i).
  pose proof (GETARG_C_range i).
  destruct op; passed_inv H; destruct_and? Hs; cbn [op_registers app];
    repeat (case_if; bool_facts);
    repeat first [ apply Forall_app_2 | apply Forall_nil_2 | apply Forall_cons_2 ];
    first [lia | apply rk_reg_ok; [lia|done]].
Qed.

Lemma passed_constants pt pc i op :
  passed pt pc i op -> Forall (fun x => 0 <= x < sizek pt) (op_constants i op).
Proof.
  intros H. pose proof (GETARG_B_range i). pose proof (GETARG_C_range i).
  pose proof (GETARG_Bx_range i).
  destruct op; passed_inv H; cbn [op_constants app];
    repeat first [ apply Forall_app_2 | apply Forall_nil_2 | apply Forall_cons_2 ];
    first [lia | apply rk_const_ok; [lia|done] | split; [lia|auto]].
Qed.

Lemma passed_instr_ok pt pc i op : passed pt pc i op -> instr_ok pt pc.
Proof.
  intros H. exists i, op.
  pose proof (GETARG_B_range i). pose proof (GETARG_Bx_range i).
  split_and!; [apply H|apply H|by eapply passed_registers|by eapply passed_constants|..].
  - destruct op; try constructor; passed_inv H; try lia; constructor.
  - destruct op; try constructor; passed_inv H;
      destruct Hs as (f & Hf & ? & _); try lia; constructor.
  - intros [->| ->]; passed_inv H; eauto.
Qed.

Lemma tests_testTMode op :
  op ∈ [OP_EQ; OP_LT; OP_LE; OP_TEST; OP_TESTSET; OP_TFORLOOP] -> testTMode op = true.
Proof.
  intros Hin. apply (bool_decide_eq_true_2 (op ∈ _)) in Hin.
  destruct op; done || discriminate Hin.
Qed.

Lemma elem_of_list3 {A} (x a b c : A) : x ∈ [a; b; c] -> x = a \/ x = b \/ x = c.
Proof. rewrite !elem_of_cons. intros [|[|[|H]]]; auto. by apply not_elem_of_nil in H. Qed.

Section soundness.
Context (pt : Proto).
Hypothesis Htyped : typed pt.
Hypothesis Haccept : luaG_checkcode pt = Ret true.
Implicit Types (pc i : Z).

Definition at_boundary pc : Prop := boundary pt pc /\ pc < sizecode pt.

Lemma boundary_passed pc : at_boundary pc -> exists i op, passed pt pc i op.
Proof using Haccept.
  intros [Hb Hpc]. by apply step_ok_passed, boundary_step.
Qed.

Lemma boundary_next pc i :
  at_boundary pc -> getZ (code pt) pc = Some i -> is_setlist0 i = false ->
  boundary pt (pc + 1).
Proof. intros [Hb _] Hi Hs. pose proof (boundary_S _ _ _ Hb Hi) as H. by rewrite Hs in H. Qed.

Lemma at_boundary_next pc i op :
  at_boundary pc -> getZ (code pt) pc = Some i -> op_of (GET_OPCODE i) = Some op ->
  op <> OP_RETURN -> is_setlist0 i = false -> at_boundary (pc + 1).
Proof using Haccept Htyped.
  intros Hb Hi Hop Hne Hs. split; [by eapply boundary_next|].
  eapply not_last; eauto using accept_return. apply getZ_Some in Hi. done.
Qed.

Lemma passed_jump pc i op :
  passed pt pc i op -> op ∈ [OP_JMP; OP_FORPREP; OP_FORLOOP] ->
  at_boundary (pc + 1 + GETARG_sBx i).
Proof using Haccept Htyped.
  intros H Hin. assert (0 <= pc + 1 + GETARG_sBx i < sizecode pt /\
    (0 < pc + 1 + GETARG_sBx i -> exists j,
        setlist_run pt (Z.to_nat (pc + 1 + GETARG_sBx i)) = Ret (Some j) /\
        Z.land j 1 = 0)) as [Hd Hj].
  { apply elem_of_list3 in Hin. destruct Hin as [Hin|[Hin|Hin]]; subst op; passed_inv H; auto. }
  split; [|lia]. by apply jump_boundary.
Qed.

(** A test is followed by a jump, where both its continuations are. *)
Lemma passed_test_next pc i op :
  at_boundary pc -> passed pt pc i op -> testTMode op = true ->
  exists j, passed pt (pc + 1) j OP_JMP /\ at_boundary (pc + 2) /\
    getZ (code pt) (pc + 1) = Some j.
Proof using Haccept Htyped.
  intros Hb H Ht. pose proof (passed_test _ _ _ _ H Ht) as (Hlen & j & Hj & Hop).
  pose proof (is_op_true _ _ Hop) as Hop'.
  assert (at_boundary (pc + 1)) as Hb1.
  { eapply at_boundary_next; eauto using passed_word, passed_op; [by intros ->|].
    eapply is_setlist0_op; [eapply passed_op, H|by intros ->]. }
  destruct (boundary_passed _ Hb1) as (j' & op' & Hp).
  assert (j' = j) as -> by (pose proof (passed_word _ _ _ _ Hp); congruence).
  assert (op' = OP_JMP) as -> by (pose proof (passed_op _ _ _ _ Hp); congruence).
  exists j. split_and!; [done| |done]. replace (pc + 2) with (pc + 1 + 1) by lia.
  split; [|lia]. eapply boundary_next; eauto. by eapply is_setlist0_op.
Qed.

(** The pseudo-instructions after OP_CLOSURE are skipped one by one. *)
Lemma pseudo_boundary pc i f :
  at_boundary pc -> passed pt pc i OP_CLOSURE -> getZ (p pt) (GETARG_Bx i) = Some f ->
  forall n, Z.of_nat n <= nups f -> at_boundary (pc + 1 + Z.of_nat n).
Proof using Haccept Htyped.
  intros Hb H Hf. pose proof H as H'. passed_inv H'.
  destruct Hs as (f' & Hf' & _ & Hlen & Hps). assert (f' = f) as -> by congruence.
  induction n as [|n IH]; intros Hn.
  - replace (pc + 1 + Z.of_nat 0) with (pc + 1) by lia.
    eapply at_boundary_next; eauto; by eapply is_setlist0_op.
  - destruct (Hps (Z.of_nat n + 1)) as (j & Hj & Hor); [lia|].
    replace (pc + 1 + Z.of_nat (S n)) with (pc + 1 + Z.of_nat n + 1) by lia.
    replace (pc + (Z.of_nat n + 1)) with (pc + 1 + Z.of_nat n) in Hj by lia.
    destruct Hor as [Ho%is_op_true|Ho%is_op_true];
      (eapply at_boundary_next; first [apply IH; lia|by eapply is_setlist0_op|done|eauto]).
Qed.

Lemma passed_setlist0 pc i op :
  at_boundary pc -> passed pt pc i op -> is_setlist0 i = true -> at_boundary (pc + 2).
Proof.
  intros [Hb _] H Hs. pose proof (boundary_S _ _ _ Hb (passed_word _ _ _ _ H)) as Hb'.
  rewrite Hs in Hb'. split; [done|]. unfold is_setlist0 in Hs. bool_facts.
  rewrite (is_op_op_of _ _ _ (passed_op _ _ _ _ H)) in *.
  match goal with E : bool_decide _ = true |- _ => apply bool_decide_eq_true in E; subst end.
  passed_inv H. tauto.
Qed.

Lemma passed_loadbool pc i :
  at_boundary pc -> passed pt pc i OP_LOADBOOL -> GETARG_C i = 1 -> at_boundary (pc + 2).
Proof using Haccept Htyped.
  intros Hb H Hc. pose proof H as H'. passed_inv H'.
  destruct (Hs Hc) as (Hlen & j & Hj & Hz).
  assert (boundary pt (pc + 1)) as Hb1
    by (eapply boundary_next; eauto; by eapply is_setlist0_op).
  split; [|done]. replace (pc + 2) with (pc + 1 + 1) by lia.
  eapply boundary_next; [split; [apply Hb1|lia]|done..].
Qed.

(** Execution goes from one instruction boundary to another. *)
Lemma successor_boundary pc pc' :
  (forall i, getZ (code pt) pc = Some i -> is_op i OP_LOADBOOL = true -> GETARG_C i <= 1) ->
  at_boundary pc -> successor pt pc pc' -> at_boundary pc'.
Proof using Haccept Htyped.
  intros Hbool Hb Hs. destruct (boundary_passed _ Hb) as (i0 & op0 & H).
  pose proof (passed_word _ _ _ _ H) as Hw. pose proof (passed_op _ _ _ _ H) as Ho.
  destruct Hs as [i op Hi Hop Hnot _ Hns|i op Hi Hop Hor|i op Hi Hop Hin
                 |i op j Hi Hop Hin Hj|i f Hi Hop Hf];
    assert (i0 = i) as -> by congruence; simplify_eq.
  - eapply at_boundary_next; eauto. intros ->. apply Hnot. set_solver.
  - destruct Hor as [[-> Hc]|[Hz|Hin]].
    + eapply passed_loadbool; eauto. pose proof (GETARG_C_range i).
      assert (GETARG_C i <= 1); [|lia]. apply Hbool; [done|].
      by rewrite (is_op_op_of _ _ _ Hop), bool_decide_eq_true_2.
    + by eapply passed_setlist0.
    + edestruct passed_test_next as (? & _ & ? & _); eauto using tests_testTMode.
  - by eapply passed_jump.
  - edestruct passed_test_next as (j' & Hp & _ & Hj'); eauto using tests_testTMode.
    assert (j' = j) as -> by congruence.
    replace (pc + 2) with (pc + 1 + 1) by lia. eapply passed_jump; [done|constructor].
  - destruct Htyped as (_ & _ & _ & Hn & _). pose proof (getZ_Forall _ _ _ _ Hn Hf) as Hn'.
    cbv beta in Hn'. unfold is_byte in Hn'.
    rewrite <- (Z2Nat.id (nups f)) by lia. eapply pseudo_boundary; eauto. lia.
Qed.

Lemma reachable_boundary pc :
  (forall pc i, reachable pt pc -> getZ (code pt) pc = Some i ->
     is_op i OP_LOADBOOL = true -> GETARG_C i <= 1) ->
  reachable pt pc -> at_boundary pc.
Proof using Haccept Htyped.
  intros Hbool. revert pc. apply rtc_ind_r.
  - split; [constructor|]. destruct (accept_return pt Htyped Haccept) as (_ & ? & _); done.
  - intros pc pc' Hr Hs IH. eapply successor_boundary; [|apply IH|done].
    intros i. by apply Hbool.
Qed.
End soundness.

(** C1: soundness of the bytecode verifier: in a function that
    [luaG_checkcode] accepts (and whose OP_LOADBOOL words have C at most 1,
    as the compiler makes them), every instruction that execution can reach
    lies inside the code, has a valid opcode, and names only registers,
    constants, upvalues and nested functions that exist; global names are
    strings. *)
Theorem checkcode_sound pt pc :
  typed pt -> luaG_checkcode pt = Ret true ->
  (forall pc i, reachable pt pc -> getZ (code pt) pc = Some i ->
     is_op i OP_LOADBOOL = true -> GETARG_C i <= 1) ->
  reachable pt pc -> 0 <= pc < sizecode pt /\ instr_ok pt pc.
Proof.
  intros Ht Ha Hbool Hr. pose proof (reachable_boundary pt Ht Ha _ Hbool Hr) as Hb.
  destruct (boundary_passed pt Ha _ Hb) as (i & op & H). split; [|by eapply passed_instr_ok].
  destruct Hb. split; [|done]. by eapply boundary_nonneg.
Qed.

(** ** Names: safety *)

(** Debug information that is complete or stripped, and no NULL strings. *)
Definition debug_ok (f : Proto) : Prop :=
  (sizeupvalues f = 0 \/ sizeupvalues f = nups f) /\
  Forall is_Some (upvalues f) /\ Forall (fun v => is_Some (varname v)) (locvars f) /\
  Forall (fun o => o <> VNullString) (k f).

Lemma getlocalname_total vars n pc :
  Forall (fun v => is_Some (varname v)) vars -> exists r, getlocalname vars n pc = Ret r.
Proof.
  intros Hv. revert n. induction Hv as [|v vars [s Hs] Hv IH]; intros n;
    cbn [getlocalname]; [by eexists|].
  repeat case_if; auto; rewrite ?Hs; by eexists.
Qed.

Section names.
Context (pt : Proto).
Hypothesis Htyped : typed pt.
Hypothesis Haccept : luaG_checkcode pt = Ret true.
Hypothesis Hdebug : debug_ok pt.

(** What symbolic execution may answer for register [reg]: the final
    OP_RETURN, or an instruction that has passed its checks and, when it is
    an OP_MOVE, writes [reg]. *)
Definition answer_ok (reg last : Z) : Prop :=
  last = sizecode pt - 1 \/
  exists i op, passed pt last i op /\ (op = OP_MOVE -> GETARG_A i = reg).

Lemma symb_loop_answer lastpc reg fuel pc last l :
  answer_ok reg last -> symb_loop pt lastpc reg fuel pc last = Ret (Some l) ->
  answer_ok reg l.
Proof.
  revert pc last. induction fuel as [|fuel IH]; intros pc last Hl;
    cbn [symb_loop]; case_if; intros H; chk_inv; try done.
  destruct x as [pc' last']. eapply IH; [|exact H].
  apply symb_step_passed in E. destruct E as (i & op & Hp & [->|[-> Hm]]); [done|].
  right. eauto.
Qed.

Lemma symbexec_answer lastpc reg i :
  symbexec pt lastpc reg = Ret i ->
  i = 0 \/ (is_op i OP_RETURN = true) \/
  exists pc op, passed pt pc i op /\ (op = OP_MOVE -> GETARG_A i = reg).
Proof using Haccept Htyped.
  unfold symbexec. destruct (precheck pt ≫= _) as [[i'|]| | |] eqn:E; try done;
    intros [= <-]; [|by left]. right. chk_inv.
  match goal with H : symb_loop _ _ _ _ _ _ = _ |- _ =>
    apply symb_loop_answer in H; [rename H into Ha|by left] end.
  destruct Ha as [->|(i & op & Hp & Hm)].
  - left. destruct (accept_return pt Htyped Haccept) as (r & _ & Hr & Hop). congruence.
  - right. eexists _, op. assert (i' = i) as ->; [|done].
    pose proof (passed_word _ _ _ _ Hp). congruence.
Qed.

Lemma kname_total pc i op c b :
  0 <= c -> passed pt pc i op -> operands_ok pt pc i op b c -> getCMode op = OpArgK ->
  getOpMode op = iABC -> exists s, kname pt c = Ret s.
Proof using Hdebug.
  intros Hc Hp Ho Hm Hmode. unfold operands_ok in Ho. rewrite Hmode, Hm in Ho.
  destruct Ho as (_ & _ & _ & Ho). unfold kname. cbn [argmode_ok] in Ho.
  destruct (ISK c); [|by eexists].
  destruct (getZ_is_Some (k pt) (INDEXK c)) as [o Hk].
  { split; [apply Z.land_nonneg; by left|done]. }
  rewrite Hk. cbn. destruct Hdebug as (_ & _ & _ & Hnn).
  pose proof (getZ_Forall _ _ _ _ Hnn Hk). destruct o; try done; by eexists.
Qed.
Lemma getobjname_fuel_total fuel pc stackpos :
  pc <= sizecode pt -> 0 <= stackpos < Z.of_nat fuel ->
  exists r, getobjname_fuel fuel pt pc stackpos = Ret r.
Proof using Htyped Haccept Hdebug.
  intros Hpc. revert stackpos. induction fuel as [|fuel IH]; intros stackpos Hsp; [lia|].
  cbn [getobjname_fuel]. unfold luaF_getlocalname. pose proof Hdebug as (Hup & Hun & Hlv & Hnn).
  destruct (getlocalname_total (locvars pt) (stackpos + 1) pc Hlv) as [[name|] ->];
    cbn [mbind outcome_bind]; [by eexists|].
  destruct (symbexec_total pt pc stackpos Htyped Hpc) as [i Hex]. rewrite Hex.
  cbn [mbind outcome_bind].
  pose proof (GETARG_B_range i). pose proof (GETARG_C_range i).
  destruct (symbexec_answer _ _ _ Hex) as [->|[Hr|(pc1 & op & Hp & Hm)]].
  - change (op_of (GET_OPCODE 0)) with (Some OP_MOVE). change (GETARG_A 0) with 0.
    cbv iota. case_if; bool_facts; [lia|by eexists].
  - apply is_op_true in Hr. rewrite Hr. by eexists.
  - pose proof Hp as Hp'. rewrite (passed_op _ _ _ _ Hp').
    destruct op; try by eexists.
    + case_if; bool_facts; [|by eexists]. apply IH. rewrite Hm in * by done. lia.
    + passed_inv Hp'.
      destruct Hup as [->|Hup]; [by eexists|]. case_if; [by eexists|].
      destruct (getZ_is_Some (upvalues pt) (GETARG_B i)) as [u Hu];
        [unfold sizeupvalues in *; lia|].
      rewrite Hu. cbn. destruct (getZ_Forall _ _ _ _ Hun Hu) as [n ->]. by eexists.
    + passed_inv Hp'. match goal with H : exists o, getZ (k pt) _ = _ /\ _ |- _ => destruct H as (o & Hk & Hstr) end.
      rewrite Hk. cbn.
      pose proof (getZ_Forall _ _ _ _ Hnn Hk). destruct o; try done; by eexists.
    + destruct (passed_operands _ _ _ _ Hp) as (b' & c' & Ho & _).
      pose proof Ho as Ho'. unfold operands_ok in Ho'. modes_in Ho'. destruct Ho' as (_ & -> & _).
      edestruct kname_total as [s Hkn]; [|exact Hp|exact Ho|done..|]; [lia|].
      rewrite Hkn. by eexists.
    + destruct (passed_operands _ _ _ _ Hp) as (b' & c' & Ho & _).
      pose proof Ho as Ho'. unfold operands_ok in Ho'. modes_in Ho'. destruct Ho' as (_ & -> & _).
      edestruct kname_total as [s Hkn]; [|exact Hp|exact Ho|done..|]; [lia|].
      rewrite Hkn. by eexists.
Qed.
End names.

(** Naming a value for an error message is safe: on an accepted function
    with complete or stripped debug information, [getobjname] ends and reads
    only inside the function's arrays, at every instruction and for every
    register. *)
Theorem getobjname_safe pt pc stackpos :
  typed pt -> luaG_checkcode pt = Ret true -> debug_ok pt ->
  pc <= sizecode pt -> 0 <= stackpos ->
  exists r, getobjname pt pc stackpos = Ret r.
Proof. intros. apply getobjname_fuel_total; (done || lia). Qed.

(** ** Examples *)

Definition proto_of_code (code : list Z) (upvals maxstack : Z) : Proto :=
  {| k := []; code := code; p := []; lineinfo := []; locvars := []; upvalues := [];
     source := Some (str "=?"); linedefined := 0; lastlinedefined := 0; nups := upvals;
     numparams := 0; is_vararg := 0; maxstacksize := maxstack |}.

(** [if r0 then] around a jump, a backward jump, and a return *)
Definition loop_code : list Z :=
  [CREATE_ABC OP_TEST 0 0 1; SETARG_sBx (CREATE_ABx OP_JMP 0 0) 1;
   SETARG_sBx (CREATE_ABx OP_JMP 0 0) (-3); CREATE_ABC OP_RETURN 0 1 0].

Definition loop_proto : Proto := proto_of_code loop_code 0 2.

Lemma loop_proto_typed : typed loop_proto.
Proof.
  repeat split; try (repeat constructor; vm_compute; congruence); vm_compute; congruence.
Qed.

Lemma symbexec_safe_witness : exists i, symbexec loop_proto 3 1 = Ret i.
Proof.
  apply (symbexec_safe loop_proto 3 1); [apply loop_proto_typed|].
  vm_compute. congruence.
Defined.

Lemma no_loadbool_le1 pt :
  Forall (fun i => is_op i OP_LOADBOOL = false) (code pt) ->
  forall pc i, reachable pt pc -> getZ (code pt) pc = Some i ->
    is_op i OP_LOADBOOL = true -> GETARG_C i <= 1.
Proof. intros Hf pc i _ Hi Ho. pose proof (getZ_Forall _ _ _ _ Hf Hi) as H. cbv beta in H. congruence. Qed.

Lemma checkcode_sound_witness : 0 <= 2 < sizecode loop_proto /\ instr_ok loop_proto 2.
Proof.
  apply (checkcode_sound loop_proto 2).
  - apply loop_proto_typed.
  - vm_compute. reflexivity.
  - apply no_loadbool_le1. repeat constructor.
  - apply rtc_once. apply (succ_skip loop_proto 0 (CREATE_ABC OP_TEST 0 0 1) OP_TEST);
      [reflexivity..|]. right. right. apply (bool_decide_unpack _). vm_compute. exact I.
Defined.

(** The hole in the check of OP_LOADBOOL: the verifier looks at the skipped
    instruction when C is 1, the virtual machine skips when C is not 0. *)
Definition skip2_proto : Proto :=
  proto_of_code [CREATE_ABC OP_LOADBOOL 0 0 2; CREATE_ABC OP_RETURN 0 1 0] 0 2.

(** without the assumption on OP_LOADBOOL the verifier is not sound: it
    accepts a function whose first instruction continues after the end of
    the code. *)
Theorem checkcode_loadbool_hole :
  typed skip2_proto /\ luaG_checkcode skip2_proto = Ret true /\
  reachable skip2_proto (sizecode skip2_proto).
Proof.
  split_and!; [|by vm_compute|].
  - repeat match goal with |- _ /\ _ => split end;
      repeat constructor; vm_compute; congruence.
  - apply rtc_once. apply (succ_skip skip2_proto 0 (CREATE_ABC OP_LOADBOOL 0 0 2) OP_LOADBOOL);
      [reflexivity..|]. left. split; [done|]. vm_compute. congruence.
Qed.

Lemma getobjname_safe_witness : exists r, getobjname loop_proto 2 1 = Ret r.
Proof.
  apply (getobjname_safe loop_proto 2 1); [apply loop_proto_typed|by vm_compute|..|lia].
  - split; [by left|]. repeat constructor.
  - vm_compute. congruence.
Defined.
