(* ===== verification/Zio.v ===== *)
(** * Buffered streams (lzio.c, lzio.h)

    A [ZIO] hands out the bytes that a reader (the [lua_Reader] of the host)
    delivers in blocks.  The reader is the list of the blocks it will return;
    it returns NULL when the list is over.  [ByteStream] is the interface the
    scanner and the chunk loader are written against: what a stream still
    holds does not depend on the blocks it comes in. *)

From S2P Require Import Prelude.

Definition EOZ : Z := -1.

Definition SIZE_MAX : Z := 2 ^ 64 - 1.

(** [p] is the memory from the current position on. *)
Record ZIO := mkZIO { zn : Z; zp : bytes; reader : list bytes }.

(** [char2int(c)] *)
Definition char2int (c : Z) : Z := u8 c.

Definition luaZ_fill (z : ZIO) : Z * ZIO :=
  match reader z with
  | [] => (EOZ, z)
  | [] :: r => (EOZ, mkZIO (zn z) (zp z) r)
  | (c :: b) :: r => (char2int c, mkZIO (lenZ b) b r)
  end.

(** [zgetc(z)]: [n] is decremented before the test, so it wraps around when it
    was 0. *)
Definition zgetc (z : ZIO) : outcome (Z * ZIO) :=
  let n := zn z in
  let z := mkZIO (u64 (n - 1)) (zp z) (reader z) in
  if 0 <? n then
    match zp z with
    | c :: p => Ret (char2int c, mkZIO (zn z) p (reader z))
    | [] => Undef
    end
  else Ret (luaZ_fill z).

(** After [luaZ_fill] the first byte is put back. *)
Definition luaZ_lookahead (z : ZIO) : outcome (Z * ZIO) :=
  if zn z =? 0 then
    let '(c, z) := luaZ_fill z in
    if c =? EOZ then Ret (EOZ, z) else Ret (c, mkZIO (zn z + 1) (c :: zp z) (reader z))
  else
    match zp z with
    | c :: _ => Ret (char2int c, z)
    | [] => Undef
    end.

Definition luaZ_init (r : list bytes) : ZIO := mkZIO 0 [] r.

(** [memcpy(b, p, m)]: the source must hold [m] bytes. *)
Definition memcpy (p : bytes) (m : Z) : outcome bytes :=
  if m <=? lenZ p then Ret (take (Z.to_nat m) p) else Undef.

(** The bytes read and the number of missing bytes.  Every round reads at
    least one byte, so [n] rounds and the final test are enough. *)
Fixpoint read_loop (fuel : nat) (z : ZIO) (b : bytes) (n : Z) : outcome (bytes * Z * ZIO) :=
  if n =? 0 then Ret (b, 0, z)
  else
    match fuel with
    | O => Nofuel
    | S fuel' =>
        '(c, z) ← luaZ_lookahead z;
        if c =? EOZ then Ret (b, n, z)
        else
          let m := if n <=? zn z then n else zn z in
          d ← memcpy (zp z) m;
          read_loop fuel' (mkZIO (zn z - m) (drop (Z.to_nat m) (zp z)) (reader z))
            (b ++ d) (n - m)
    end.

Definition luaZ_read (z : ZIO) (n : Z) : outcome (bytes * Z * ZIO) :=
  read_loop (S (Z.to_nat n)) z [] n.

(** ** Mbuffer *)

Definition LUA_MINBUFFER : Z := 32.

Record Mbuffer := mkMbuffer { buffer : bytes; buffsize : Z }.

Definition luaZ_bufflen (b : Mbuffer) : Z := lenZ (buffer b).
Definition luaZ_resetbuffer (b : Mbuffer) : Mbuffer := mkMbuffer [] (buffsize b).
Definition luaZ_resizebuffer (b : Mbuffer) (size : Z) : Mbuffer :=
  mkMbuffer (buffer b) size.

(** The new size of the buffer that [luaZ_openspace] returns *)
Definition luaZ_openspace (b : Mbuffer) (n : Z) : Mbuffer :=
  if buffsize b <? n then
    let n := if n <? LUA_MINBUFFER then LUA_MINBUFFER else n in
    luaZ_resizebuffer b n
  else b.

(** ** What a stream holds *)

Definition contents (z : ZIO) : bytes := zp z ++ concat (reader z).

Definition block_ok (b : bytes) : Prop := b <> [] /\ Forall is_byte b /\ lenZ b < SIZE_MAX.

(** A stream in use: it has not signalled its end to [zgetc].  The reader
    returns an empty block only at the end, where the list stops. *)
Definition zio_ok (z : ZIO) : Prop :=
  zn z = lenZ (zp z) /\ zn z < SIZE_MAX /\ Forall is_byte (zp z) /\ Forall block_ok (reader z).

(** The interface.  [sget] reads a character; [view] is what is left, None
    once the end has been signalled: reading again is then undefined. *)
Class ByteStream (Z' : Type) := {
  sget : Z' -> outcome (Z * Z');
  view : Z' -> option bytes;
  stream_ok : Z' -> Prop
}.

Class ByteStreamLaws (Z' : Type) `{ByteStream Z'} := {
  sget_byte z c r : stream_ok z -> view z = Some (c :: r) ->
    exists z', sget z = Ret (c, z') /\ view z' = Some r /\ stream_ok z';
  sget_end z : stream_ok z -> view z = Some [] ->
    exists z', sget z = Ret (EOZ, z') /\ view z' = None /\ stream_ok z';
  sget_over z : stream_ok z -> view z = None -> sget z = Undef;
  view_bytes z r : stream_ok z -> view z = Some r -> Forall is_byte r
}.

#[export] Instance zio_stream : ByteStream ZIO := {
  sget := zgetc;
  view z := if zn z =? SIZE_MAX then None else Some (contents z);
  stream_ok z := (zn z = SIZE_MAX /\ zp z = []) \/ zio_ok z
}.

(** A string in memory as a stream; None after its end *)
#[export] Instance bytes_stream : ByteStream (option bytes) := {
  sget z :=
    match z with
    | Some (c :: r) => Ret (c, Some r)
    | Some [] => Ret (EOZ, None)
    | None => Undef
    end;
  view z := z;
  stream_ok z := match z with Some r => Forall is_byte r | None => True end
}.

#[export] Instance bytes_stream_laws : ByteStreamLaws (option bytes).
Proof.
  split.
  - cbn. intros z c r Hz ->. apply Forall_cons_1 in Hz. exists (Some r). destruct Hz. done.
  - cbn. intros z _ ->. exists None. done.
  - cbn. by intros z _ ->.
  - cbn. by intros z r Hz ->.
Qed.

(** ** The interface is implemented *)

Lemma char2int_byte c : is_byte c -> char2int c = c.
Proof. apply u8_small. Qed.

(** [luaZ_fill] delivers the first byte that the reader holds. *)
Lemma luaZ_fill_spec z :
  Forall block_ok (reader z) ->
  match concat (reader z) with
  | [] => luaZ_fill z = (EOZ, z)
  | c :: r => exists z', luaZ_fill z = (c, z') /\ contents z' = r /\ zio_ok z' /\ is_byte c /\
      zn z' + 1 < SIZE_MAX
  end.
Proof.
  destruct z as [n q rd]. unfold contents, luaZ_fill, zio_ok; cbn. intros Hr.
  destruct rd as [|b rd]; cbn; [done|].
  apply Forall_cons_1 in Hr. destruct Hr as [(Hne & Hb & Hlen) Hr].
  destruct b as [|c b]; [done|]. cbn. rewrite lenZ_cons in Hlen.
  apply Forall_cons_1 in Hb. destruct Hb as [Hc Hb].
  exists (mkZIO (lenZ b) b rd). rewrite char2int_byte by done. cbn.
  split_and!; try done; lia.
Qed.

Lemma zgetc_spec z :
  zio_ok z ->
  match contents z with
  | [] => exists z', zgetc z = Ret (EOZ, z') /\ zn z' = SIZE_MAX /\ zp z' = []
  | c :: r => exists z', zgetc z = Ret (c, z') /\ contents z' = r /\ zio_ok z'
  end.
Proof.
  destruct z as [n q rd]. intros (Hn & Hm & Hb & Hr). cbn in *. unfold zgetc, contents; cbn.
  destruct q as [|c q].
  - assert (n = 0) as -> by done. cbn [Z.ltb Z.compare app].
    pose proof (luaZ_fill_spec (mkZIO (u64 (0 - 1)) [] rd) Hr) as Hf. cbn in Hf.
    destruct (concat rd) as [|c r]; [rewrite Hf; eexists; split; done|].
    destruct Hf as (z' & Hf & Hc' & Hz' & _). rewrite Hf. eauto.
  - rewrite lenZ_cons in Hn. pose proof (lenZ_nonneg q).
    rewrite (proj2 (Z.ltb_lt 0 _)) by lia. apply Forall_cons_1 in Hb. destruct Hb as [Hc Hb].
    cbn. eexists. rewrite char2int_byte by done. split; [reflexivity|].
    unfold contents, zio_ok, SIZE_MAX, u64 in *; cbn. rewrite Z.mod_small by lia.
    split_and!; [done|lia|lia|done..].
Qed.

#[export] Instance zio_stream_laws : ByteStreamLaws ZIO.
Proof.
  split; cbn -[zgetc]; intros z.
  - intros c r Hz Hv.
    destruct (Z.eqb_spec (zn z) SIZE_MAX); [done|]. destruct Hz as [[Hz _]|Hz]; [done|].
    injection Hv as Hv. pose proof (zgetc_spec z Hz) as H. rewrite Hv in H.
    destruct H as (z' & Hg & Hc & Hz'). exists z'. split; [done|]. split; [|by right].
    destruct Hz' as (_ & Hm & _). rewrite (proj2 (Z.eqb_neq _ _)) by lia. by rewrite Hc.
  - intros Hz Hv.
    destruct (Z.eqb_spec (zn z) SIZE_MAX); [done|]. destruct Hz as [[Hz _]|Hz]; [done|].
    injection Hv as Hv. pose proof (zgetc_spec z Hz) as H. rewrite Hv in H.
    destruct H as (z' & Hg & Hn & Hp). exists z'. rewrite Hn, Z.eqb_refl. auto.
  - intros Hz Hv. destruct (Z.eqb_spec (zn z) SIZE_MAX) as [Hn|]; [|done].
    destruct Hz as [[_ Hp]|(_ & Hz & _)]; [|lia]. unfold zgetc. by rewrite Hn, Hp.
  - intros r Hz Hv.
    destruct (Z.eqb_spec (zn z) SIZE_MAX); [done|]. destruct Hz as [[Hz _]|Hz]; [done|].
    injection Hv as <-.
    destruct Hz as (_ & _ & Hb & Hr). apply Forall_app_2; [done|].
    clear -Hr. induction Hr as [|b rd Hb _ IH]; [constructor|].
    destruct Hb as (_ & Hb & _). by apply Forall_app_2.
Qed.

(** ** luaZ_lookahead and luaZ_read *)

Lemma luaZ_lookahead_spec z :
  zio_ok z ->
  match contents z with
  | [] => luaZ_lookahead z = Ret (EOZ, z)
  | c :: r => exists z', luaZ_lookahead z = Ret (c, z') /\ contents z' = c :: r /\
      zio_ok z' /\ 0 < zn z'
  end.
Proof.
  intros Hz. pose proof (view_bytes (Z' := ZIO) z (contents z)) as Hbytes.
  destruct z as [n q rd]. pose proof Hz as (Hn & Hm & Hb & Hr). unfold luaZ_lookahead, contents in *.
  cbn in *. destruct q as [|c q]; cbn.
  - assert (n = 0) as -> by done. cbn [Z.eqb].
    pose proof (luaZ_fill_spec (mkZIO 0 [] rd) Hr) as Hf. cbn [reader] in Hf.
    destruct (concat rd) as [|c r]; [by rewrite Hf|].
    destruct Hf as (z' & Hf & Hc' & Hz' & Hc & Hlt). rewrite Hf.
    rewrite (proj2 (Z.eqb_neq c EOZ)) by (unfold is_byte, EOZ in *; lia).
    eexists. split; [reflexivity|]. destruct Hz' as (Hn' & Hm' & Hb' & Hr').
    pose proof (lenZ_nonneg (zp z')). unfold contents, zio_ok in *; cbn. rewrite Hc', lenZ_cons.
    split_and!; try done; try lia. by constructor.
  - rewrite lenZ_cons in Hn. pose proof (lenZ_nonneg q).
    rewrite (proj2 (Z.eqb_neq n 0)) by lia. apply Forall_cons_1 in Hb. destruct Hb as [Hc _].
    rewrite char2int_byte by done. eexists. split; [reflexivity|]. split; [done|]. split; [done|].
    cbn. lia.
Qed.

Lemma take_drop_contents z m :
  zio_ok z -> 0 <= m <= zn z ->
  contents z = take (Z.to_nat m) (zp z) ++
    contents (mkZIO (zn z - m) (drop (Z.to_nat m) (zp z)) (reader z)) /\
  zio_ok (mkZIO (zn z - m) (drop (Z.to_nat m) (zp z)) (reader z)).
Proof.
  intros (Hn & Hm & Hb & Hr) Hle. unfold contents, zio_ok; cbn. split.
  - by rewrite app_assoc, take_drop.
  - unfold lenZ in *. rewrite length_drop. split_and!; [lia|lia| |done].
    by apply Forall_drop.
Qed.

Lemma read_loop_spec fuel z b n :
  zio_ok z -> 0 <= n < Z.of_nat fuel ->
  exists z', read_loop fuel z b n =
      Ret (b ++ take (Z.to_nat n) (contents z), Z.max 0 (n - lenZ (contents z)), z') /\
    contents z' = drop (Z.to_nat n) (contents z) /\ zio_ok z'.
Proof.
  revert z b n. induction fuel as [|fuel IH]; intros z b n Hz Hn; [lia|]. cbn [read_loop].
  destruct (Z.eqb_spec n 0) as [->|Hn0].
  { exists z. pose proof (lenZ_nonneg (contents z)). cbn [take Z.to_nat]. rewrite app_nil_r.
    split; [|done]. do 3 f_equal. lia. }
  pose proof (luaZ_lookahead_spec z Hz) as Hl. destruct (contents z) as [|c r] eqn:Hc.
  { rewrite Hl. cbn -[lenZ]. exists z. change (lenZ []) with 0.
    rewrite take_nil, drop_nil, app_nil_r, Z.max_r by lia.
    rewrite Z.sub_0_r. done. }
  destruct Hl as (z1 & Hl & Hc1 & Hz1 & Hn1). rewrite Hl. cbn [mbind outcome_bind].
  assert (Hbyte : is_byte c).
  { destruct Hz1 as (Hzn & _ & Hb & _). unfold contents in Hc1. destruct (zp z1) as [|c' q].
    - change (lenZ []) with 0 in Hzn. lia.
    - injection Hc1 as ->. by apply Forall_inv in Hb. }
  rewrite (proj2 (Z.eqb_neq c EOZ)) by (unfold is_byte, EOZ in *; lia).
  assert (Hm : 0 < (if n <=? zn z1 then n else zn z1) <= n /\
    (if n <=? zn z1 then n else zn z1) <= zn z1) by (case_if; bool_facts; lia).
  set (m := if n <=? zn z1 then n else zn z1) in *. clearbody m.
  destruct (take_drop_contents z1 m Hz1 ltac:(lia)) as [Ht Hz2].
  assert (Hlen : m <= lenZ (zp z1)) by (destruct Hz1; lia).
  unfold memcpy. rewrite (proj2 (Z.leb_le _ _)) by done. cbn [mbind outcome_bind].
  set (z2 := mkZIO _ _ _) in *.
  destruct (IH z2 (b ++ take (Z.to_nat m) (zp z1)) (n - m) Hz2 ltac:(lia)) as (z' & Hr & Hc' & Hz').
  exists z'. rewrite Hr, Hc', <- Hc1, Ht.
  assert (Hlt : length (take (Z.to_nat m) (zp z1)) = Z.to_nat m)
    by (rewrite length_take; unfold lenZ in Hlen; lia).
  split; [|split; [|done]].
  - rewrite take_app, Hlt, lenZ_app. unfold lenZ at 2. rewrite Hlt.
    rewrite (take_ge (take _ _)) by lia. rewrite app_assoc.
    do 3 f_equal; [|lia]. repeat f_equal; lia.
  - rewrite drop_app, Hlt. rewrite (drop_ge (take _ _)) by lia. cbn. f_equal. lia.
Qed.

Lemma luaZ_read_correct_aux z n :
  zio_ok z -> 0 <= n ->
  exists z', luaZ_read z n =
      Ret (take (Z.to_nat n) (contents z), Z.max 0 (n - lenZ (contents z)), z') /\
    contents z' = drop (Z.to_nat n) (contents z) /\ zio_ok z'.
Proof. intros Hz Hn. apply (read_loop_spec _ z [] n Hz). lia. Qed.

(** reading a block does not depend on how the reader cuts its data:
    [luaZ_read] ends, returns the next [n] bytes of the stream or all that is
    left together with the number of missing bytes, and leaves the rest. *)
Theorem luaZ_read_correct z n :
  zio_ok z -> 0 <= n ->
  exists z', luaZ_read z n =
      Ret (take (Z.to_nat n) (contents z), Z.max 0 (n - lenZ (contents z)), z') /\
    contents z' = drop (Z.to_nat n) (contents z) /\ zio_ok z'.
Proof. apply luaZ_read_correct_aux. Qed.

Definition two_blocks : ZIO := luaZ_init [str "ret"; str "urn"].

Lemma luaZ_read_correct_witness :
  exists z', luaZ_read two_blocks 4 = Ret (str "retu", 0, z') /\ contents z' = str "rn" /\ zio_ok z'.
Proof.
  apply (luaZ_read_correct two_blocks 4); [|lia].
  unfold zio_ok, block_ok, is_byte, SIZE_MAX; cbn.
  repeat match goal with |- _ /\ _ => split end;
    repeat constructor; first [lia|done].
Defined.
