(* ===== verification/Lex.v ===== *)
(** * The lexical analyser (llex.c, llex.h)

    [LexState] is the C structure without its pointers to the parser and the
    Lua state; the scanner is written over any [ByteStream].  Interned
    strings are their bytes; [luaX_newstring] also anchors the string in the
    table of the function being compiled, which only the collector sees.
    The locale is "C", where the decimal point is a full stop.  Loops run on
    fuel computed from the rest of the input. *)

From S2P Require Import Prelude Clib Object Zio.

(** ** Tokens *)

Definition FIRST_RESERVED : Z := 257.

Definition TK_AND := FIRST_RESERVED.
Definition TK_BREAK := 258.
Definition TK_DO := 259.
Definition TK_ELSE := 260.
Definition TK_ELSEIF := 261.
Definition TK_END := 262.
Definition TK_FALSE := 263.
Definition TK_FOR := 264.
Definition TK_FUNCTION := 265.
Definition TK_IF := 266.
Definition TK_IN := 267.
Definition TK_LOCAL := 268.
Definition TK_NIL := 269.
Definition TK_NOT := 270.
Definition TK_OR := 271.
Definition TK_REPEAT := 272.
Definition TK_RETURN := 273.
Definition TK_THEN := 274.
Definition TK_TRUE := 275.
Definition TK_UNTIL := 276.
Definition TK_WHILE := 277.
Definition TK_CONCAT := 278.
Definition TK_DOTS := 279.
Definition TK_EQ := 280.
Definition TK_GE := 281.
Definition TK_LE := 282.
Definition TK_NE := 283.
Definition TK_NUMBER := 284.
Definition TK_NAME := 285.
Definition TK_STRING := 286.
Definition TK_EOS := 287.

Definition NUM_RESERVED : Z := TK_WHILE - FIRST_RESERVED + 1.

Definition luaX_tokens : list bytes := str <$>
  ["and"; "break"; "do"; "else"; "elseif";
   "end"; "false"; "for"; "function"; "if";
   "in"; "local"; "nil"; "not"; "or"; "repeat";
   "return"; "then"; "true"; "until"; "while";
   ".."; "..."; "=="; ">="; "<="; "~=";
   "<number>"; "<name>"; "<string>"; "<eof>"]%string.

(** The semantic value of a token; it keeps its old content when a token has
    none. *)
Inductive SemInfo := SNone | SNumber (r : lua_Number) | SString (ts : bytes).

Record Token := mkToken { token : Z; seminfo : SemInfo }.

(** [tsv.reserved] of a string after [luaX_init]: its place among the reserved
    words, from 1; 0 for the others *)
Fixpoint luaX_init (words : list bytes) (i : Z) (ts : bytes) : Z :=
  match words with
  | [] => 0
  | w :: words => if decide (w = ts) then i + 1 else luaX_init words (i + 1) ts
  end.

Definition reserved (ts : bytes) : Z :=
  luaX_init (take (Z.to_nat NUM_RESERVED) luaX_tokens) 0 ts.

(** ** The state *)

Record LexState (Z' : Type) := mkLexState {
  current : Z;
  linenumber : Z;
  lastline : Z;
  t : Token;
  lookahead : Token;
  z : Z';
  buff : Mbuffer;
  source : bytes;
  decpoint : Z
}.
Arguments mkLexState {Z'}.
Arguments current {Z'}.
Arguments linenumber {Z'}.
Arguments lastline {Z'}.
Arguments t {Z'}.
Arguments lookahead {Z'}.
Arguments z {Z'}.
Arguments buff {Z'}.
Arguments source {Z'}.
Arguments decpoint {Z'}.

Definition MAX_SIZET : Z := SIZE_MAX - 2.
Definition MAXSRC : Z := 80.
Definition NL : Z := 10.
Definition CR : Z := 13.

(** A character constant *)
Definition ch (a : ascii) : Z := byte_of_ascii a.

(** The locale's decimal point: [localeconv()->decimal_point[0]] *)
Definition decimal_point : Z := 46.

(** [LUA_QS] around a string *)
Definition quoted (s : bytes) : bytes := str "'" ++ s ++ str "'".

Definition luaX_token2str (tok : Z) : outcome bytes :=
  if tok <? FIRST_RESERVED then
    Ret (if iscntrl tok then str "char(" ++ fmt_d tok ++ str ")" else cstr [u8 tok])
  else deref (getZ luaX_tokens (tok - FIRST_RESERVED)).

(** Memory from [off] on, [len] bytes *)
Definition slice (b : bytes) (off len : Z) : outcome bytes :=
  if (0 <=? off) && (0 <=? len) && (off + len <=? lenZ b)
  then Ret (take (Z.to_nat len) (drop (Z.to_nat off) b)) else Undef.

(** The value of an [int] expression: signed overflow is undefined. *)
Definition c_int (x : Z) : outcome Z :=
  if (- INT_MAX - 1 <=? x) && (x <=? INT_MAX) then Ret x else Undef.

Section scanner.
Context {Z' : Type} `{ByteStream Z'}.
Abbreviation LexState := (LexState Z').
Abbreviation Lex := (ST LexState).

Definition set_current (c : Z) (s : Z') (ls : LexState) : LexState :=
mkLexState c (linenumber ls) (lastline ls) (t ls) (lookahead ls) s (buff ls) (source ls)
  (decpoint ls).
Definition set_linenumber (n : Z) (ls : LexState) : LexState :=
mkLexState (current ls) n (lastline ls) (t ls) (lookahead ls) (z ls) (buff ls) (source ls)
  (decpoint ls).
Definition set_lastline (n : Z) (ls : LexState) : LexState :=
mkLexState (current ls) (linenumber ls) n (t ls) (lookahead ls) (z ls) (buff ls) (source ls)
  (decpoint ls).
Definition set_t (tk : Token) (ls : LexState) : LexState :=
mkLexState (current ls) (linenumber ls) (lastline ls) tk (lookahead ls) (z ls) (buff ls)
  (source ls) (decpoint ls).
Definition set_lookahead (tk : Token) (ls : LexState) : LexState :=
mkLexState (current ls) (linenumber ls) (lastline ls) (t ls) tk (z ls) (buff ls)
  (source ls) (decpoint ls).
Definition set_buff (b : Mbuffer) (ls : LexState) : LexState :=
mkLexState (current ls) (linenumber ls) (lastline ls) (t ls) (lookahead ls) (z ls) b
  (source ls) (decpoint ls).
Definition set_decpoint (c : Z) (ls : LexState) : LexState :=
mkLexState (current ls) (linenumber ls) (lastline ls) (t ls) (lookahead ls) (z ls) (buff ls)
  (source ls) c.

(** [next(ls)] *)
Definition next : Lex unit := fun ls =>
'(c, s) ← sget (z ls); Ret (tt, set_current c s ls).

Definition currIsNewline : Lex bool :=
gets (fun ls => (current ls =? NL) || (current ls =? CR)).

(** The position and the message of an error *)
Definition error_message (ls : LexState) (msg : bytes) : bytes :=
luaO_chunkid (source ls) MAXSRC ++ str ":" ++ fmt_d (linenumber ls) ++ str ": " ++ msg.

(** [luaX_lexerror(ls, msg, 0)] *)
Definition lexerror0 {A} (msg : bytes) : Lex A := fun ls =>
Throw LUA_ERRSYNTAX (error_message ls msg).

Definition save (c : Z) : Lex unit :=
b ← gets buff;
b ← (if buffsize b <? luaZ_bufflen b + 1 then
       if MAX_SIZET / 2 <=? buffsize b then lexerror0 (str "lexical element too long")
       else mret (luaZ_resizebuffer b (buffsize b * 2))
     else mret b);
if luaZ_bufflen b <? buffsize b
then modify (set_buff (mkMbuffer (buffer b ++ [u8 c]) (buffsize b)))
else lift Undef.

Definition save_and_next : Lex unit := c ← gets current; save c;; next.

Definition resetbuffer : Lex unit := modify (fun ls => set_buff (luaZ_resetbuffer (buff ls)) ls).

Definition txtToken (tok : Z) : Lex bytes :=
if (tok =? TK_NAME) || (tok =? TK_STRING) || (tok =? TK_NUMBER) then
  save 0;; b ← gets buff; mret (cstr (buffer b))
else lift (luaX_token2str tok).

Definition luaX_lexerror {A} (msg : bytes) (tok : Z) : Lex A :=
msg ← gets (fun ls => error_message ls msg);
if negb (tok =? 0) then
  s ← txtToken tok; throw LUA_ERRSYNTAX (msg ++ str " near " ++ quoted s)
else throw LUA_ERRSYNTAX msg.

Definition luaX_syntaxerror {A} (msg : bytes) : Lex A :=
tok ← gets t; luaX_lexerror msg (token tok).

(** [luaX_newstring(ls, buffer + off, len)] *)
Definition luaX_newstring (off len : Z) : Lex bytes :=
b ← gets buff; lift (slice (buffer b) off len).

Definition inclinenumber : Lex unit :=
old ← gets current;
next;;
nl ← currIsNewline;
c ← gets current;
(if nl && negb (c =? old) then next else mret tt);;
modify (fun ls => set_linenumber (linenumber ls + 1) ls);;
n ← gets linenumber;
if MAX_INT <=? n then luaX_syntaxerror (str "chunk has too many lines") else mret tt.

(** The state before the first character: [t] is what the caller's
  (uninitialised) structure holds. *)
Definition luaX_setinput (tk : Token) (s : Z') (src : bytes) : outcome LexState :=
let ls := mkLexState EOZ 1 1 tk (mkToken TK_EOS SNone) s (mkMbuffer [] LUA_MINBUFFER) src 46 in
'(_, ls) ← next ls; Ret ls.

(** ** Scanning *)

(** Enough rounds for any loop that reads a character in each *)
Definition rounds (ls : LexState) : nat :=
match view (z ls) with Some r => S (S (length r)) | None => 1 end.

Definition check_next (set : bytes) : Lex bool :=
c ← gets current;
if strchr set (u8 c) then save_and_next;; mret true else mret false.

(** [while (p(ls->current)) save_and_next(ls)] *)
Fixpoint save_while (p : Z -> bool) (fuel : nat) : Lex unit :=
c ← gets current;
if p c then
  match fuel with O => nofuel | S f => save_and_next;; save_while p f end
else mret tt.

(** [while (p(ls->current)) next(ls)] *)
Fixpoint skip_while (p : Z -> bool) (fuel : nat) : Lex unit :=
c ← gets current;
if p c then
  match fuel with O => nofuel | S f => next;; skip_while p f end
else mret tt.

Definition buffreplace (from to : Z) : Lex unit :=
modify (fun ls => set_buff
  (mkMbuffer ((fun c => if c =? from then to else c) <$> buffer (buff ls))
     (buffsize (buff ls))) ls).

Definition trydecpoint : Lex lua_Number :=
old ← gets decpoint;
modify (set_decpoint decimal_point);;
buffreplace old decimal_point;;
b ← gets buff;
match luaO_str2d (buffer b) with
| Some r => mret r
| None =>
    buffreplace decimal_point 46;;
    luaX_lexerror (str "malformed number") TK_NUMBER
end.

Definition isalnum_ (c : Z) : bool := isalnum c || (c =? ch "_").

Definition read_numeral : Lex lua_Number :=
fuel ← gets rounds;
save_and_next;;
save_while (fun c => isdigit c || (c =? ch ".")) fuel;;
e ← check_next (str "Ee");
(if (e : bool) then check_next (str "+-") else mret false);;
save_while isalnum_ fuel;;
save 0;;
d ← gets decpoint;
buffreplace 46 d;;
b ← gets buff;
match luaO_str2d (buffer b) with
| Some r => mret r
| None => trydecpoint
end.

(** The loop of [skip_sep] counts the equal signs in an [int]. *)
Fixpoint skip_equals (fuel : nat) (count : Z) : Lex Z :=
c ← gets current;
if c =? ch "=" then
  match fuel with O => nofuel | S f => save_and_next;; n ← lift (c_int (count + 1)); skip_equals f n end
else mret count.

Definition skip_sep : Lex Z :=
fuel ← gets rounds;
s ← gets current;
save_and_next;;
count ← skip_equals fuel 0;
c ← gets current;
mret (if c =? s then count else (- count) - 1).

(** ** Strings and comments *)

(** One round of the loop of [read_long_string]: whether it is over.
  [sem] tells a string from a comment; [cont] is never used again. *)
Definition long_string_step (sem : bool) (sep : Z) : Lex bool :=
c ← gets current;
if c =? EOZ then
  luaX_lexerror (if sem then str "unfinished long string"
                 else str "unfinished long comment") TK_EOS
else if c =? ch "[" then
  n ← skip_sep;
  (if n =? sep then
     save_and_next;;
     if sep =? 0 then luaX_lexerror (str "nesting of [[...]] is deprecated") (ch "[")
     else mret tt
   else mret tt);;
  mret false
else if c =? ch "]" then
  n ← skip_sep;
  if n =? sep then save_and_next;; mret true else mret false
else if (c =? NL) || (c =? CR) then
  save NL;;
  inclinenumber;;
  (if negb sem then resetbuffer else mret tt);;
  mret false
else (if sem then save_and_next else next);; mret false.

Fixpoint long_string_loop (sem : bool) (sep : Z) (fuel : nat) : Lex unit :=
match fuel with
| O => nofuel
| S f =>
    stop ← long_string_step sem sep;
    if (stop : bool) then mret tt else long_string_loop sem sep f
end.

Definition read_long_string (sem : bool) (sep : Z) : Lex (option bytes) :=
fuel ← gets rounds;
save_and_next;;
nl ← currIsNewline;
(if (nl : bool) then inclinenumber else mret tt);;
long_string_loop sem sep fuel;;
if sem then
  b ← gets buff;
  d ← lift (c_int (2 * (2 + sep)));
  ts ← luaX_newstring (2 + sep) (luaZ_bufflen b - d);
  mret (Some ts)
else mret None.

(** The digits of a decimal escape: at most [n] + 1 of them *)
Fixpoint decimal_escape (n : nat) (c : Z) : Lex Z :=
d ← gets current;
let c := 10 * c + (d - ch "0") in
next;;
match n with
| O => mret c
| S n => d ← gets current; if isdigit d then decimal_escape n c else mret c
end.

Definition UCHAR_MAX : Z := 255.

Definition escape_char (c : Z) : option Z :=
if c =? ch "a" then Some 7
else if c =? ch "b" then Some 8
else if c =? ch "f" then Some 12
else if c =? ch "n" then Some 10
else if c =? ch "r" then Some 13
else if c =? ch "t" then Some 9
else if c =? ch "v" then Some 11
else None.

Definition read_escape : Lex unit :=
next;;
c ← gets current;
match escape_char c with
| Some e => save e;; next
| None =>
    if (c =? NL) || (c =? CR) then save NL;; inclinenumber
    else if c =? EOZ then mret tt
    else if negb (isdigit c) then save_and_next
    else
      e ← decimal_escape 2 0;
      (if UCHAR_MAX <? e then luaX_lexerror (str "escape sequence too large") TK_STRING
       else mret tt);;
      save e
end.

Definition string_step : Lex unit :=
c ← gets current;
if c =? EOZ then luaX_lexerror (str "unfinished string") TK_EOS
else if (c =? NL) || (c =? CR) then luaX_lexerror (str "unfinished string") TK_STRING
else if c =? ch "\" then read_escape
else save_and_next.

Fixpoint string_loop (del : Z) (fuel : nat) : Lex unit :=
c ← gets current;
if c =? del then mret tt
else
  match fuel with O => nofuel | S f => string_step;; string_loop del f end.

Definition read_string (del : Z) : Lex bytes :=
fuel ← gets rounds;
save_and_next;;
string_loop del fuel;;
save_and_next;;
b ← gets buff;
luaX_newstring 1 (luaZ_bufflen b - 2).

(** ** The main function *)

(** A token of one or two characters: [c], or [tk] when [second] follows *)
Definition one_or_two (c second tk : Z) (sem : SemInfo) : Lex (option (Z * SemInfo)) :=
next;;
d ← gets current;
if negb (d =? second) then mret (Some (c, sem)) else next;; mret (Some (tk, sem)).

Definition is_name_char (c : Z) : bool := isalpha c || (c =? ch "_").

(** A minus sign, or a comment *)
Definition lex_minus (sem : SemInfo) : Lex (option (Z * SemInfo)) :=
fuel ← gets rounds;
next;;
d ← gets current;
if negb (d =? ch "-") then mret (Some (ch "-", sem))
else
  next;;
  d ← gets current;
  sep ← (if d =? ch "[" then sep ← skip_sep; resetbuffer;; mret sep else mret (-1));
  if (d =? ch "[") && (0 <=? sep) then
    read_long_string false sep;; resetbuffer;; mret None
  else
    skip_while (fun c => negb ((c =? NL) || (c =? CR)) && negb (c =? EOZ)) fuel;;
    mret None.

(** One round of the loop of [llex]: a token, or None to go on *)
Definition llex_step (sem : SemInfo) : Lex (option (Z * SemInfo)) :=
fuel ← gets rounds;
c ← gets current;
if (c =? NL) || (c =? CR) then inclinenumber;; mret None
else if c =? ch "-" then lex_minus sem
else if c =? ch "[" then
  sep ← skip_sep;
  if 0 <=? sep then
    ts ← read_long_string true sep;
    mret (Some (TK_STRING, match ts with Some ts => SString ts | None => sem end))
  else if sep =? -1 then mret (Some (ch "[", sem))
  else luaX_lexerror (str "invalid long string delimiter") TK_STRING
else if c =? ch "=" then one_or_two c (ch "=") TK_EQ sem
else if c =? ch "<" then one_or_two c (ch "=") TK_LE sem
else if c =? ch ">" then one_or_two c (ch "=") TK_GE sem
else if c =? ch "~" then one_or_two c (ch "=") TK_NE sem
else if (c =? 34) || (c =? ch "'") then
  ts ← read_string c; mret (Some (TK_STRING, SString ts))
else if c =? ch "." then
  save_and_next;;
  dot ← check_next (str ".");
  if (dot : bool) then
    dot ← check_next (str ".");
    if (dot : bool) then mret (Some (TK_DOTS, sem)) else mret (Some (TK_CONCAT, sem))
  else
    d ← gets current;
    if negb (isdigit d) then mret (Some (ch ".", sem))
    else r ← read_numeral; mret (Some (TK_NUMBER, SNumber r))
else if c =? EOZ then mret (Some (TK_EOS, sem))
else if isspace c then next;; mret None
else if isdigit c then r ← read_numeral; mret (Some (TK_NUMBER, SNumber r))
else if is_name_char c then
  save_and_next;;
  save_while isalnum_ fuel;;
  b ← gets buff;
  ts ← luaX_newstring 0 (luaZ_bufflen b);
  if 0 <? reserved ts then mret (Some (reserved ts - 1 + FIRST_RESERVED, sem))
  else mret (Some (TK_NAME, SString ts))
else next;; mret (Some (c, sem)).

Fixpoint llex_loop (sem : SemInfo) (fuel : nat) : Lex (Z * SemInfo) :=
match fuel with
| O => nofuel
| S f =>
    r ← llex_step sem;
    match r with Some r => mret r | None => llex_loop sem f end
end.

Definition llex (sem : SemInfo) : Lex (Z * SemInfo) :=
resetbuffer;; fuel ← gets rounds; llex_loop sem (S fuel).

Definition luaX_next : Lex unit :=
modify (fun ls => set_lastline (linenumber ls) ls);;
la ← gets lookahead;
if negb (token la =? TK_EOS) then
  modify (set_t la);;
  modify (set_lookahead (mkToken TK_EOS (seminfo la)))
else
  tk ← gets t;
  '(tok, sem) ← llex (seminfo tk);
  modify (set_t (mkToken tok sem)).

Definition luaX_lookahead : Lex unit :=
la ← gets lookahead;
'(tok, sem) ← llex (seminfo la);
modify (set_lookahead (mkToken tok sem)).

(** ** Running the scanner *)

(** The tokens up to the end of the stream *)
Fixpoint tokens (fuel : nat) (ls : LexState) : outcome (list Token) :=
match fuel with
| O => Nofuel
| S f =>
    '(_, ls) ← luaX_next ls;
    if token (t ls) =? TK_EOS then Ret []
    else l ← tokens f ls; Ret (t ls :: l)
end.

Definition scan_stream (fuel : nat) (s : Z') (src : bytes) : outcome (list Token) :=
ls ← luaX_setinput (mkToken TK_EOS SNone) s src; tokens fuel ls.
End scanner.

(** The text of a string, scanned as a whole *)
Definition scan (s : bytes) : outcome (list Token) :=
  scan_stream (S (S (length s))) (Some s : option bytes) (str "=t").

Definition scan_tokens (s : bytes) : outcome (list Z) :=
  l ← scan s; Ret (List.map token l).
