(* ===== verification/Lstring.v ===== *)
(** * The string table (lstring.c)

    Strings are kept once: [luaS_newlstr] finds the string with the given
    contents in the chains of the table or adds it.  A [TString *] is the
    number [taddr] of its object; a string that the collector has found dead
    but not yet freed is found again and saved ([tdead]). *)

From S2P Require Import Prelude Clib Object Lex.

Record TString := mkTString {
  taddr : Z;
  thash : Z;
  tdead : bool;
  contents : bytes
}.

(** [strt] and the number of the next object; [tb->size] is the length of
    [hash]. *)
Record stringtable := mkstringtable {
  hash : list (list TString);
  nuse : Z;
  next_addr : Z
}.

Definition strt_size (tb : stringtable) : Z := lenZ (hash tb).

Definition sizeof_TString : Z := 24.

(** [lmod(s, size)] *)
Definition lmod (s size : Z) : Z := Z.land s (size - 1).

(** ** The hash of a string

    The loop takes at most 32 characters. *)
Fixpoint hash_loop (fuel : nat) (s : bytes) (step l1 h : Z) : outcome Z :=
  if step <=? l1 then
    match fuel with
    | O => Nofuel
    | S fuel =>
        c ← deref (getZ s (l1 - 1));
        hash_loop fuel s step (l1 - step)
          (Z.lxor h (u32 (u32 (Z.shiftl h 5) + Z.shiftr h 2 + c)))
    end
  else Ret h.

Definition luaS_hash (s : bytes) : outcome Z :=
  let l := lenZ s in
  hash_loop 32 s (Z.shiftr l 5 + 1) l (u32 l).

(** ** The table *)

(** Put [ts] in front of chain [h] of [tab]. *)
Definition chain_it (tab : list (list TString)) (h : Z) (ts : TString) : outcome (list (list TString)) :=
  l ← deref (getZ tab h); Ret (setZ tab h (ts :: l)).

Fixpoint rehash_chain (l : list TString) (newsize : Z) (newhash : list (list TString))
    : outcome (list (list TString)) :=
  match l with
  | [] => Ret newhash
  | p :: l =>
      newhash ← chain_it newhash (lmod (thash p) newsize) p;
      rehash_chain l newsize newhash
  end.

Fixpoint rehash_chains (tab : list (list TString)) (newsize : Z) (newhash : list (list TString))
    : outcome (list (list TString)) :=
  match tab with
  | [] => Ret newhash
  | l :: tab =>
      newhash ← rehash_chain l newsize newhash;
      rehash_chains tab newsize newhash
  end.

(** [sweeping]: the collector is sweeping the string table. *)
Definition luaS_resize (sweeping : bool) (newsize : Z) (tb : stringtable) : outcome stringtable :=
  if sweeping then Ret tb
  else
    newhash ← rehash_chains (hash tb) newsize (replicate (Z.to_nat newsize) []);
    Ret (mkstringtable newhash (nuse tb) (next_addr tb)).

Definition toobig : outcome (TString * stringtable) :=
  Throw LUA_ERRRUN (str "memory allocation error: block too big").

Definition newlstr (sweeping : bool) (s : bytes) (h : Z) (tb : stringtable)
    : outcome (TString * stringtable) :=
  if MAX_SIZET - sizeof_TString <? lenZ s + 1 then toobig
  else
    let ts := mkTString (next_addr tb) h false s in
    tab ← chain_it (hash tb) (lmod h (strt_size tb)) ts;
    let tb := mkstringtable tab (nuse tb + 1) (next_addr tb + 1) in
    tb ← (if (strt_size tb <? nuse tb) && (strt_size tb <=? MAX_INT / 2)
          then luaS_resize sweeping (strt_size tb * 2) tb else Ret tb);
    Ret (ts, tb).

(** [changewhite(o)] *)
Definition revive (ts : TString) : TString := mkTString (taddr ts) (thash ts) false (contents ts).

(** Search a chain: the string, and the chain with the string revived. *)
Fixpoint find_string (s : bytes) (l : list TString) : option (TString * list TString) :=
  match l with
  | [] => None
  | ts :: l =>
      if bool_decide (contents ts = s) then
        let ts := if tdead ts then revive ts else ts in Some (ts, ts :: l)
      else
        match find_string s l with
        | Some (r, l) => Some (r, ts :: l)
        | None => None
        end
  end.

Definition luaS_newlstr (sweeping : bool) (s : bytes) (tb : stringtable)
    : outcome (TString * stringtable) :=
  h ← luaS_hash s;
  let i := lmod h (strt_size tb) in
  l ← deref (getZ (hash tb) i);
  match find_string s l with
  | Some (ts, l) => Ret (ts, mkstringtable (setZ (hash tb) i l) (nuse tb) (next_addr tb))
  | None => newlstr sweeping s h tb
  end.

(** ** Hashing and places *)

Lemma hash_loop_total fuel s step l1 h :
  1 <= step -> l1 <= lenZ s -> l1 < (Z.of_nat fuel + 1) * step -> is_u32 h ->
  exists h', hash_loop fuel s step l1 h = Ret h' /\ is_u32 h'.
Proof.
  intros Hs. revert l1 h. induction fuel as [|fuel IH]; intros l1 h Hl Hf Hh; cbn [hash_loop].
  - rewrite (proj2 (Z.leb_gt _ _)) by lia. eauto.
  - destruct (Z.leb_spec step l1); [|eauto].
    destruct (getZ_is_Some s (l1 - 1)) as [c ->]; [lia|]. cbn.
    apply IH; [lia|lia|]. pose proof (u32_range (u32 (Z.shiftl h 5) + Z.shiftr h 2 + c)) as Hr.
    apply is_u32_bits; [apply Z.lxor_nonneg; unfold is_u32 in *; lia|].
    intros k Hk. rewrite Z.lxor_spec, !is_u32_testbit by done. done.
Qed.

Lemma luaS_hash_total s : exists h, luaS_hash s = Ret h /\ is_u32 h.
Proof.
  pose proof (lenZ_nonneg s). unfold luaS_hash. apply hash_loop_total; try lia.
  - pose proof (Z.shiftr_nonneg (lenZ s) 5). lia.
  - rewrite Z.shiftr_div_pow2 by lia. change (2 ^ 5) with 32. dlia.
  - apply u32_range.
Qed.

Lemma lmod_range s n : 0 <= n -> 0 <= lmod s (2 ^ n) < 2 ^ n.
Proof.
  intros Hn. unfold lmod. replace (2 ^ n - 1) with (Z.ones n) by (rewrite Z.ones_equiv; lia).
  rewrite Z.land_ones by done. apply Z.mod_pos_bound. lia.
Qed.

(** ** Chains *)

(** Every string is in the chain of its hash. *)
Definition placed (size : Z) (tab : list (list TString)) : Prop :=
  forall i l ts, getZ tab i = Some l -> ts ∈ l -> lmod (thash ts) size = i.

Lemma concat_setZ {A} (tab : list (list A)) i l :
  getZ tab i = Some l -> exists a b, concat tab = a ++ l ++ b /\
    forall l', concat (setZ tab i l') = a ++ l' ++ b.
Proof.
  unfold getZ, setZ. destruct (0 <=? i); [|done]. intros Hl.
  exists (concat (take (Z.to_nat i) tab)), (concat (drop (S (Z.to_nat i)) tab)). split.
  - rewrite <- (take_drop_middle _ _ _ Hl) at 1. rewrite concat_app. done.
  - intros l'. rewrite insert_take_drop by (by eapply lookup_lt_Some). rewrite concat_app. done.
Qed.

Lemma chain_it_spec size tab h ts :
  0 <= h < lenZ tab -> lmod (thash ts) size = h -> placed size tab ->
  exists tab', chain_it tab h ts = Ret tab' /\ lenZ tab' = lenZ tab /\ placed size tab' /\
    concat tab' ≡ₚ ts :: concat tab.
Proof.
  intros Hh Hm Hp. unfold chain_it. destruct (getZ_is_Some tab h Hh) as [l Hl].
  rewrite Hl. cbn. eexists. split; [done|]. split; [apply lenZ_setZ|]. split.
  - intros i l' ts' Hi Hin. destruct (decide (i = h)) as [->|].
    + rewrite getZ_setZ_eq in Hi by done. injection Hi as <-.
      apply elem_of_cons in Hin as [->|Hin]; [done|by eapply Hp].
    + rewrite getZ_setZ_ne in Hi by done. by eapply Hp.
  - destruct (concat_setZ _ _ _ Hl) as (a & b & -> & ->). cbn.
    by rewrite <- Permutation_middle.
Qed.

Section rehashing.
Context (n : Z) (Hn : 0 <= n).

Lemma rehash_chain_spec l tab :
lenZ tab = 2 ^ n -> placed (2 ^ n) tab ->
exists tab', rehash_chain l (2 ^ n) tab = Ret tab' /\ lenZ tab' = 2 ^ n /\ placed (2 ^ n) tab' /\
  concat tab' ≡ₚ l ++ concat tab.
Proof using Hn.
revert tab. induction l as [|ts l IH]; intros tab Hl Hp; cbn [rehash_chain]; [by exists tab|].
destruct (chain_it_spec (2 ^ n) tab (lmod (thash ts) (2 ^ n)) ts) as (t1 & -> & Hl1 & Hp1 & Hc1);
  [rewrite Hl; by apply lmod_range|done|done|].
cbn. destruct (IH t1) as (t2 & H1 & H2 & H3 & H4); [congruence|done|].
exists t2. split_and!; try done. rewrite H4, Hc1. by rewrite Permutation_middle.
Qed.

Lemma rehash_chains_spec old tab :
lenZ tab = 2 ^ n -> placed (2 ^ n) tab ->
exists tab', rehash_chains old (2 ^ n) tab = Ret tab' /\ lenZ tab' = 2 ^ n /\
  placed (2 ^ n) tab' /\ concat tab' ≡ₚ concat old ++ concat tab.
Proof using Hn.
revert tab. induction old as [|l old IH]; intros tab Hl Hp; cbn [rehash_chains]; [by exists tab|].
destruct (rehash_chain_spec l tab Hl Hp) as (t1 & -> & Hl1 & Hp1 & Hc1). cbn.
destruct (IH t1 Hl1 Hp1) as (t2 & H1 & H2 & H3 & H4).
exists t2. split_and!; try done. rewrite H4, Hc1. cbn. rewrite !(app_assoc _ _ (concat tab)).
apply Permutation_app_tail, Permutation_app_comm.
Qed.
End rehashing.

(** ** The invariant of the string table *)

Definition strings (tb : stringtable) : list TString := concat (hash tb).

Record strt_ok (tb : stringtable) : Prop := {
  so_size : exists n, 0 <= n /\ strt_size tb = 2 ^ n;
  so_place : placed (strt_size tb) (hash tb);
  so_hash : forall ts, ts ∈ strings tb -> luaS_hash (contents ts) = Ret (thash ts);
  so_once : NoDup (contents <$> strings tb);
  so_addr : NoDup (taddr <$> strings tb);
  so_next : forall ts, ts ∈ strings tb -> taddr ts < next_addr tb;
  so_nuse : nuse tb = lenZ (strings tb)
}.

(** A string of the table keeps its object. *)
Definition same_string (a b : TString) : Prop :=
  taddr a = taddr b /\ thash a = thash b /\ contents a = contents b.

Definition keeps (tb tb' : stringtable) : Prop :=
  forall ts, ts ∈ strings tb -> exists ts', ts' ∈ strings tb' /\ same_string ts ts'.

Lemma strt_ok_perm tb tb' :
  strings tb' ≡ₚ strings tb -> next_addr tb' = next_addr tb -> nuse tb' = nuse tb ->
  (exists n, 0 <= n /\ strt_size tb' = 2 ^ n) -> placed (strt_size tb') (hash tb') ->
  strt_ok tb -> strt_ok tb'.
Proof.
  intros Hs Ha Hu Hn Hp []. split; try done; rewrite ?Ha, ?Hu.
  - intros ts. rewrite Hs. auto.
  - by rewrite Hs.
  - by rewrite Hs.
  - intros ts. rewrite Hs. auto.
  - unfold lenZ. by rewrite (Permutation_length Hs).
Qed.

Lemma luaS_resize_spec sweeping n tb :
  0 <= n -> strt_ok tb ->
  exists tb', luaS_resize sweeping (2 ^ n) tb = Ret tb' /\ strt_ok tb' /\
    strings tb' ≡ₚ strings tb /\ (sweeping = false -> strt_size tb' = 2 ^ n).
Proof.
  intros Hn Hok. unfold luaS_resize. destruct sweeping; [by exists tb|].
  destruct (rehash_chains_spec n Hn (hash tb) (replicate (Z.to_nat (2 ^ n)) [])) as (tab & -> & Hl & Hp & Hc).
  - unfold lenZ. rewrite length_replicate. lia.
  - intros i l ts Hi Hin. apply getZ_elem, elem_of_replicate in Hi as [-> _].
    by apply not_elem_of_nil in Hin.
  - cbn. eexists. split; [done|]. assert (Hs : concat tab ≡ₚ strings tb).
    { rewrite Hc. assert (E : concat (replicate (Z.to_nat (2 ^ n)) []) = @nil TString).
      { generalize (Z.to_nat (2 ^ n)). intros m. induction m as [|m IH]; [done|exact IH]. }
      by rewrite E, app_nil_r. }
    split; [|done]. eapply strt_ok_perm; [exact Hs|..]; try done; cbn;
      unfold strt_size; cbn; rewrite Hl; eauto.
Qed.

(** ** Interning *)

Lemma find_string_Some s l ts l' :
  find_string s l = Some (ts, l') ->
  exists a old b, l = a ++ old :: b /\ l' = a ++ ts :: b /\ contents old = s /\
    same_string old ts /\ tdead ts = false.
Proof.
  revert l'. induction l as [|t l IH]; intros l' H; cbn in H; [done|]. case_bool_decide as E.
  - injection H as <- <-. exists [], t, l. split_and!; try done; by destruct (tdead t) eqn:D.
  - destruct (find_string s l) as [[r l1]|]; [|done]. injection H as -> <-.
    destruct (IH _ eq_refl) as (a & old & b & -> & -> & H1 & H2 & H3).
    by exists (t :: a), old, b.
Qed.

Lemma find_string_None s l ts : find_string s l = None -> ts ∈ l -> contents ts <> s.
Proof.
  induction l as [|t l IH]; cbn; [by intros _ ?%not_elem_of_nil|]. case_bool_decide; [done|].
  destruct (find_string s l) as [[]|]; [done|]. intros _ [->|Hin]%elem_of_cons; auto.
Qed.

Lemma elem_of_strings {A} (ts : A) (tab : list (list A)) : ts ∈ concat tab -> exists i l, getZ tab i = Some l /\ ts ∈ l.
Proof.
  intros (l & Hl & Hin)%list_elem_of_In%in_concat. apply list_elem_of_In, list_elem_of_lookup_1 in Hl as [i Hi].
  exists (Z.of_nat i), l. unfold getZ. rewrite (proj2 (Z.leb_le 0 _)), Nat2Z.id by lia.
  split; [done|]. by apply list_elem_of_In.
Qed.

Lemma strings_elem {A} (ts : A) (tab : list (list A)) i l : getZ tab i = Some l -> ts ∈ l -> ts ∈ concat tab.
Proof.
  intros Hi Hin. apply list_elem_of_In, in_concat. exists l.
  split; [by eapply list_elem_of_In, getZ_elem|by apply list_elem_of_In].
Qed.

Lemma same_string_refl ts : same_string ts ts.
Proof. done. Qed.

Lemma keeps_perm tb tb' : strings tb' ≡ₚ strings tb -> keeps tb tb'.
Proof. intros H ts Hin. exists ts. rewrite H. by split. Qed.

(** Found strings are revived in place. *)
Lemma revive_ok tb i a old b ts :
  strt_ok tb -> getZ (hash tb) i = Some (a ++ old :: b) -> same_string old ts ->
  let tb' := mkstringtable (setZ (hash tb) i (a ++ ts :: b)) (nuse tb) (next_addr tb) in
  strt_ok tb' /\ keeps tb tb' /\ ts ∈ strings tb'.
Proof.
  intros [] Hi (Ha & Hh & Hc) tb'. destruct (concat_setZ _ _ _ Hi) as (x & y & E1 & E2).
  assert (Es : strings tb = (x ++ a) ++ old :: (b ++ y)).
  { unfold strings. rewrite E1. by rewrite <- !app_assoc. }
  assert (Es' : strings tb' = (x ++ a) ++ ts :: (b ++ y)).
  { unfold strings, tb'. cbn. rewrite E2. by rewrite <- !app_assoc. }
  assert (El : strt_size tb' = strt_size tb) by apply lenZ_setZ.
  assert (Hin : forall t, t ∈ strings tb' -> exists t0, t0 ∈ strings tb /\ same_string t0 t).
  { intros t. rewrite Es', Es, elem_of_app, elem_of_cons. intros [|[->|]].
    - exists t. split; [apply elem_of_app; by left|done].
    - exists old. split; [apply elem_of_app; right; apply elem_of_cons; by left|done].
    - exists t. split; [apply elem_of_app; right; apply elem_of_cons; by right|done]. }
  assert (Eh : hash tb' = setZ (hash tb) i (a ++ ts :: b)) by done.
  assert (En : nuse tb' = nuse tb) by done. assert (Ea : next_addr tb' = next_addr tb) by done.
  clearbody tb'. split; [split|split].
  - by rewrite El.
  - intros j l t Hj Ht. rewrite El. rewrite Eh in Hj. destruct (decide (j = i)) as [->|].
    + rewrite getZ_setZ_eq in Hj by (by apply getZ_Some in Hi). injection Hj as <-.
      apply elem_of_app in Ht as [Ht|[->|Ht]%elem_of_cons].
      * eapply so_place0; [exact Hi|]. apply elem_of_app. by left.
      * rewrite <- Hh. eapply so_place0; [exact Hi|]. apply elem_of_app. right. apply elem_of_cons. by left.
      * eapply so_place0; [exact Hi|]. apply elem_of_app. right. apply elem_of_cons. by right.
    + rewrite getZ_setZ_ne in Hj by done. by eapply so_place0.
  - intros t Ht. destruct (Hin t Ht) as (t0 & H0 & _ & <- & <-). auto.
  - rewrite Es'. rewrite Es in so_once0. by rewrite fmap_app, fmap_cons, Hc, <- fmap_cons, <- fmap_app in so_once0.
  - rewrite Es'. rewrite Es in so_addr0. by rewrite fmap_app, fmap_cons, Ha, <- fmap_cons, <- fmap_app in so_addr0.
  - intros t Ht. destruct (Hin t Ht) as (t0 & H0 & <- & _ & _). rewrite Ea. auto.
  - rewrite En, so_nuse0, Es', Es. unfold lenZ. rewrite !length_app. done.
  - intros t. rewrite Es, elem_of_app, elem_of_cons, Es'. intros [|[->|]].
    + exists t. split; [apply elem_of_app; by left|done].
    + exists ts. split; [apply elem_of_app; right; apply elem_of_cons; by left|done].
    + exists t. split; [apply elem_of_app; right; apply elem_of_cons; by right|done].
  - rewrite Es'. apply elem_of_app. right. apply elem_of_cons. by left.
Qed.

Lemma NoDup_fmap_inj {A B} (g : A -> B) (l : list A) x y :
  NoDup (g <$> l) -> x ∈ l -> y ∈ l -> g x = g y -> x = y.
Proof.
  induction l as [|z l IH]; [by intros _ ?%not_elem_of_nil|].
  rewrite fmap_cons, list.NoDup_cons, !elem_of_cons. intros [Hz Hn] [->|Hx] [->|Hy] E; auto.
  - destruct Hz. rewrite E. by apply list_elem_of_fmap_2.
  - destruct Hz. rewrite <- E. by apply list_elem_of_fmap_2.
Qed.

(** In a well formed table a string is its object. *)
Lemma interned tb a b :
  strt_ok tb -> a ∈ strings tb -> b ∈ strings tb -> (taddr a = taddr b <-> contents a = contents b).
Proof.
  intros Hok Ha Hb. split; intros E.
  - f_equal. by eapply (NoDup_fmap_inj taddr); [apply Hok|..].
  - f_equal. by eapply (NoDup_fmap_inj contents); [apply Hok|..].
Qed.

(** A new string in front of its chain *)
Lemma chain_new tb s h :
  strt_ok tb -> luaS_hash s = Ret h -> (forall ts, ts ∈ strings tb -> contents ts <> s) ->
  let ts := mkTString (next_addr tb) h false s in
  exists tab, chain_it (hash tb) (lmod h (strt_size tb)) ts = Ret tab /\
    strt_ok (mkstringtable tab (nuse tb + 1) (next_addr tb + 1)) /\
    concat tab ≡ₚ ts :: strings tb.
Proof.
  intros [] Hh Hnew ts. destruct so_size0 as (n & Hn & Hs).
  destruct (chain_it_spec (strt_size tb) (hash tb) (lmod h (strt_size tb)) ts)
    as (tab & -> & Hl & Hp & Hc); [|done..|].
  { rewrite Hs. unfold strt_size in Hs. rewrite Hs. by apply lmod_range. }
  assert (El : strt_size (mkstringtable tab (nuse tb + 1) (next_addr tb + 1)) = strt_size tb) by done.
  assert (Hc' : strings (mkstringtable tab (nuse tb + 1) (next_addr tb + 1)) ≡ₚ ts :: strings tb) by done.
  exists tab. split; [done|]. split; [|done]. split; try rewrite El; try rewrite Hc'.
  - by exists n.
  - done.
  - intros t. rewrite Hc', elem_of_cons. intros [->|]; auto.
  - rewrite fmap_cons. apply list.NoDup_cons. split; [|done].
    intros (t & E & Ht)%list_elem_of_fmap. by apply (Hnew t).
  - rewrite fmap_cons. apply list.NoDup_cons. split; [|done].
    intros (t & E & Ht)%list_elem_of_fmap. specialize (so_next0 t Ht). cbn in E. lia.
  - intros t. rewrite Hc', elem_of_cons. cbn. intros [->|Ht]; [cbn; lia|].
    specialize (so_next0 t Ht). lia.
  - unfold lenZ. rewrite (Permutation_length Hc'). cbn. rewrite so_nuse0. unfold lenZ. lia.
Qed.

(** What [luaS_newlstr] promises *)
Record interns (s : bytes) (tb : stringtable) (ts : TString) (tb' : stringtable) : Prop := {
  in_ok : strt_ok tb';
  in_elem : ts ∈ strings tb';
  in_contents : contents ts = s;
  in_alive : tdead ts = false;
  in_keeps : keeps tb tb';
  in_same : forall ts0, ts0 ∈ strings tb -> (taddr ts0 = taddr ts <-> contents ts0 = s)
}.

Lemma newlstr_spec sweeping s h tb :
  strt_ok tb -> luaS_hash s = Ret h -> (forall ts, ts ∈ strings tb -> contents ts <> s) ->
  post (newlstr sweeping s h tb) (fun '(ts, tb') => interns s tb ts tb').
Proof.
  intros Hok Hh Hnew. unfold newlstr. case_if; [done|].
  destruct (chain_new tb s h Hok Hh Hnew) as (tab & -> & Hok1 & Hc1). cbn [mbind outcome_bind].
  set (ts := mkTString (next_addr tb) h false s) in *.
  set (tb1 := mkstringtable tab (nuse tb + 1) (next_addr tb + 1)) in *.
  change (concat tab) with (strings tb1) in Hc1.
  assert (Hr : exists tb2, (if (strt_size tb1 <? nuse tb1) && (strt_size tb1 <=? MAX_INT / 2)
    then luaS_resize sweeping (strt_size tb1 * 2) tb1 else Ret tb1) = Ret tb2 /\ strt_ok tb2 /\
    strings tb2 ≡ₚ strings tb1).
  { case_if; [|by exists tb1]. destruct (so_size _ Hok1) as (n & Hn & ->).
    replace (2 ^ n * 2) with (2 ^ (Z.succ n)) by (rewrite Z.pow_succ_r; lia).
    destruct (luaS_resize_spec sweeping (Z.succ n) tb1) as (tb2 & H1 & H2 & H3 & _); [lia|done|].
    by exists tb2. }
  destruct Hr as (tb2 & -> & Hok2 & Hc2). cbn.
  assert (Hin : ts ∈ strings tb2) by (rewrite Hc2, Hc1; apply elem_of_cons; by left).
  assert (Hk : keeps tb tb2).
  { intros t Ht. exists t. split; [|done]. rewrite Hc2, Hc1. apply elem_of_cons. by right. }
  split; try done. intros t Ht. destruct (Hk t Ht) as (t' & Ht' & Ha & _ & Hc).
  rewrite Ha, Hc. by apply (interned tb2).
Qed.

(** C24: Strings are interned: luaS_newlstr returns the object of the string
    with the given contents; it is an object of the table before exactly when
    that object had these contents.  All the others keep their objects, a
    string found dead is revived, and in the new table two strings are the
    same object exactly when they have the same contents.  The only error is
    a block too big. *)
Theorem luaS_newlstr_interns (sweeping : bool) (s : bytes) (tb : stringtable) :
  strt_ok tb ->
  post (luaS_newlstr sweeping s tb) (fun '(ts, tb') => interns s tb ts tb' /\
    (forall a b, a ∈ strings tb' -> b ∈ strings tb' -> (taddr a = taddr b <-> contents a = contents b))).
Proof.
  intros Hok. unfold luaS_newlstr. destruct (luaS_hash_total s) as (h & Hh & Hu).
  destruct (so_size _ Hok) as (n & Hn & Hs). rewrite Hh. cbn [mbind outcome_bind].
  destruct (getZ_is_Some (hash tb) (lmod h (strt_size tb))) as [l Hl].
  { unfold strt_size in *. rewrite Hs. by apply lmod_range. }
  rewrite Hl. cbn [deref mbind outcome_bind].
  apply (post_mono _ (fun '(ts, tb') => interns s tb ts tb')).
  2:{ intros [ts tb'] Hi. split; [done|]. intros a b Ha Hb. apply (interned tb'); [apply Hi|done..]. }
  destruct (find_string s l) as [[ts l']|] eqn:Ef.
  - destruct (find_string_Some _ _ _ _ Ef) as (a & old & b & -> & -> & Hc & Hsame & Hd).
    destruct (revive_ok tb _ _ _ _ ts Hok Hl Hsame) as (Hok' & Hk & Hin). cbn.
    assert (Ho : old ∈ strings tb).
    { eapply strings_elem; [exact Hl|]. apply elem_of_app. right. apply elem_of_cons. by left. }
    destruct Hsame as (Ha & _ & Hc'). split; try done; [by rewrite <- Hc'|].
    intros t Ht. rewrite <- Ha, <- Hc. by apply (interned tb).
  - apply newlstr_spec; [done|done|]. intros ts Hts E.
    destruct (elem_of_strings _ _ Hts) as (i & l0 & Hi & Hin).
    pose proof (so_place _ Hok _ _ _ Hi Hin) as Hp. pose proof (so_hash _ Hok _ Hts) as Hh'.
    rewrite E, Hh in Hh'. injection Hh' as E'. rewrite <- E' in Hp. rewrite <- Hp, Hl in Hi.
    injection Hi as <-. by eapply find_string_None.
Qed.

(** ** Witness *)

Definition example_strt : stringtable :=
  mkstringtable [[mkTString 5 128 true (str "a")]; []] 1 6.

Lemma luaS_newlstr_interns_witness :
  post (luaS_newlstr false (str "b") example_strt) (fun '(ts, tb') => interns (str "b") example_strt ts tb' /\
    (forall a b, a ∈ strings tb' -> b ∈ strings tb' -> (taddr a = taddr b <-> contents a = contents b))).
Proof.
  apply (luaS_newlstr_interns false (str "b") example_strt). split.
  - by exists 1.
  - intros i l ts Hi Hin. pose proof (getZ_Some _ _ _ Hi) as Hr. change (lenZ (hash example_strt)) with 2 in Hr.
    assert (i = 0 \/ i = 1) as [->| ->] by lia; injection Hi as <-.
    + apply list_elem_of_singleton in Hin as ->. reflexivity.
    + by apply not_elem_of_nil in Hin.
  - intros ts [->|Hin]%elem_of_cons; [vm_compute; reflexivity|by apply not_elem_of_nil in Hin].
  - apply list.NoDup_singleton.
  - apply list.NoDup_singleton.
  - intros ts [->|Hin]%elem_of_cons; [reflexivity|by apply not_elem_of_nil in Hin].
  - reflexivity.
Defined.
