(* ===== verification/LexFacts.v ===== *)
(** * The scanner: invariants, progress, lines

    A well-formed scanner state ([wf]) never reads past the end of its stream
    or outside its buffer; every call ends; tokens use up input; the line
    counter agrees with the line breaks of the text read. *)

From S2P Require Import Prelude Clib Object Zio Lex.

(** ** Well-formed scanner states *)

Definition token_ok (tok : Z) : Prop := 0 <= tok <= TK_EOS.

Definition buff_ok (b : Mbuffer) : Prop :=
  lenZ (buffer b) <= buffsize b /\ LUA_MINBUFFER <= buffsize b.

(** The line breaks of a text: CR LF and LF CR count as one. *)
Fixpoint newlines (s : bytes) : Z :=
  match s with
  | [] => 0
  | c :: r =>
      if (c =? NL) || (c =? CR) then
        match r with
        | d :: r' =>
            if ((d =? NL) || (d =? CR)) && negb (d =? c) then 1 + newlines r'
            else 1 + newlines r
        | [] => 1
        end
      else newlines r
  end.

(** A character that is neither a line break nor the end *)
Definition plain (c : Z) : Prop := (c =? EOZ) || ((c =? NL) || (c =? CR)) = false.

Lemma plain_intro c : c <> EOZ -> (c =? NL) || (c =? CR) = false -> plain c.
Proof. intros Hz Hn. unfold plain. by rewrite (proj2 (Z.eqb_neq _ _) Hz). Qed.

Lemma plain_not_eoz c : plain c -> c <> EOZ.
Proof. by intros Hc ->. Qed.

Lemma c_int_ok x : - INT_MAX - 1 <= x <= INT_MAX -> c_int x = Ret x.
Proof. intros Hx. unfold c_int. by rewrite !(proj2 (Z.leb_le _ _)) by lia. Qed.

Section scanner_proofs.
Context {Z' : Type} `{HS : ByteStream Z'} `{HL : !ByteStreamLaws Z'}.
Abbreviation LexState := (LexState Z').
Abbreviation Lex := (ST LexState).
Implicit Types (ls : LexState).

(** The current character and the rest of the input agree. *)
Definition input_ok ls : Prop :=
stream_ok (z ls) /\
match view (z ls) with Some _ => is_byte (current ls) | None => current ls = EOZ end.

Record wf ls : Prop := {
wf_input : input_ok ls;
wf_buff : buff_ok (buff ls);
wf_t : token_ok (token (t ls));
wf_lookahead : token_ok (token (lookahead ls));
wf_line : 1 <= linenumber ls < MAX_INT;
wf_lastline : lastline ls <= linenumber ls;
wf_decpoint : decpoint ls = decimal_point
}.

(** The characters left, the current one included *)
Definition chars ls : bytes :=
match view (z ls) with Some r => current ls :: r | None => [] end.

Definition left ls : nat := length (chars ls).

(** [adv ls ls'] : scanning leads from [ls] to [ls'] *)
Record adv ls ls' : Prop := {
adv_wf : wf ls';
adv_left : (left ls' <= left ls)%nat;
adv_line : linenumber ls <= linenumber ls';
adv_newlines : linenumber ls' + newlines (chars ls') = linenumber ls + newlines (chars ls);
adv_t : t ls' = t ls;
adv_lookahead : lookahead ls' = lookahead ls;
adv_lastline : lastline ls' = lastline ls;
adv_source : source ls' = source ls
}.

(** ... and only adds to the buffer *)
Definition ext ls ls' : Prop :=
adv ls ls' /\ exists d, buffer (buff ls') = buffer (buff ls) ++ d.

Lemma adv_refl ls : wf ls -> adv ls ls.
Proof. by split. Qed.

Lemma adv_trans ls1 ls2 ls3 : adv ls1 ls2 -> adv ls2 ls3 -> adv ls1 ls3.
Proof. intros [] []. split; try congruence; try lia. Qed.

Lemma ext_refl ls : wf ls -> ext ls ls.
Proof. split; [by apply adv_refl|]. exists []. by rewrite app_nil_r. Qed.

Lemma ext_trans ls1 ls2 ls3 : ext ls1 ls2 -> ext ls2 ls3 -> ext ls1 ls3.
Proof.
intros [Ha [d Hd]] [Hb [e He]]. split; [by eapply adv_trans|].
exists (d ++ e). by rewrite He, Hd, app_assoc.
Qed.

Lemma ext_adv ls1 ls2 : ext ls1 ls2 -> adv ls1 ls2.
Proof. by intros []. Qed.

Lemma ext_wf ls1 ls2 : ext ls1 ls2 -> wf ls2.
Proof. intros [[] _]. done. Qed.

Hint Resolve adv_refl adv_trans ext_refl ext_trans ext_adv ext_wf adv_wf : lua.

Lemma input_eoz ls : input_ok ls -> current ls <> EOZ -> exists r, view (z ls) = Some r.
Proof. intros [_ Hc]. destruct (view (z ls)); [eauto|done]. Qed.

Lemma left_rounds ls : rounds ls = S (left ls).
Proof. unfold rounds, left, chars. by destruct (view (z ls)). Qed.

(** *** The primitives *)

Lemma next_raw ls :
wf ls -> current ls <> EOZ ->
post (next ls) (fun '(_, ls') => wf ls' /\ chars ls = current ls :: chars ls' /\
  buff ls' = buff ls /\ linenumber ls' = linenumber ls /\ t ls' = t ls /\
  lookahead ls' = lookahead ls /\ lastline ls' = lastline ls /\ source ls' = source ls).
Proof.
intros Hw Hc. pose proof Hw as [[Hs Hi] Hb Ht Hla Hl Hll Hdp].
destruct (input_eoz ls) as [r Hv]; [by split|done|].
assert (Hset : forall c z', input_ok (set_current c z' ls) ->
  chars ls = current ls :: chars (set_current c z' ls) ->
  wf (set_current c z' ls) /\ chars ls = current ls :: chars (set_current c z' ls) /\
  buff ls = buff ls /\ linenumber ls = linenumber ls /\ t ls = t ls /\
  lookahead ls = lookahead ls /\ lastline ls = lastline ls /\ source ls = source ls).
{ intros c z' Hin Hlf. split; [by split|done]. }
unfold next. destruct r as [|c r].
- destruct (sget_end (z ls) Hs Hv) as (z' & Hg & Hv' & Hs'). rewrite Hg. cbn.
  apply Hset; unfold input_ok, chars; cbn; by rewrite ?Hv', ?Hv.
- pose proof (view_bytes (z ls) _ Hs Hv) as Hby. apply Forall_inv in Hby.
  destruct (sget_byte (z ls) c r Hs Hv) as (z' & Hg & Hv' & Hs'). rewrite Hg. cbn.
  apply Hset; unfold input_ok, chars; cbn; by rewrite ?Hv', ?Hv.
Qed.

Lemma newlines_plain c r : plain c -> newlines (c :: r) = newlines r.
Proof. unfold plain. intros Hp. apply orb_false_iff in Hp as [_ Hp]. cbn. by rewrite Hp. Qed.

Lemma next_spec ls :
wf ls -> plain (current ls) ->
post (next ls) (fun '(_, ls') => ext ls ls' /\ S (left ls') = left ls /\
  buffer (buff ls') = buffer (buff ls) /\ linenumber ls' = linenumber ls /\
  chars ls = current ls :: chars ls').
Proof.
intros Hw Hc. eapply post_mono; [apply next_raw; [done|by apply plain_not_eoz]|].
intros [[] ls'] (Hw' & Hch & Hb & Hl & Ht & Hla & Hll & Hs).
assert (S (left ls') = left ls) by (unfold left; by rewrite Hch).
split_and!; [|done|congruence|done|done]. split; [|exists []; by rewrite app_nil_r, Hb].
split; try done; [lia|lia|].
by rewrite Hl, Hch, newlines_plain.
Qed.

Lemma set_buff_ext ls b d :
wf ls -> buff_ok b -> buffer b = buffer (buff ls) ++ d -> ext ls (set_buff b ls).
Proof.
intros Hw Hb Hd. split; [|by exists d]. destruct Hw.
split; try done; lia.
Qed.

Lemma save_spec ls c :
buff_ok (buff ls) ->
post (save c ls) (fun '(_, ls') => exists b, ls' = set_buff b ls /\ buff_ok b /\
  buffer b = buffer (buff ls) ++ [u8 c]).
Proof.
intros [Hb1 Hb2].
assert (Hwrite : forall sz, luaZ_bufflen (buff ls) < sz -> LUA_MINBUFFER <= sz ->
  exists b, set_buff (mkMbuffer (buffer (buff ls) ++ [u8 c]) sz) ls = set_buff b ls /\
    buff_ok b /\ buffer b = buffer (buff ls) ++ [u8 c]).
{ intros sz Hlt Hsz. eexists. split; [done|]. split; [|done]. split; [|done].
  cbn [buffer buffsize]. rewrite lenZ_app. change (lenZ [u8 c]) with 1.
  unfold luaZ_bufflen in Hlt. lia. }
unfold save, luaZ_resizebuffer. st_simpl. unfold luaZ_bufflen, LUA_MINBUFFER in *.
case_if; bool_facts; st_simpl.
- case_if; st_simpl; [done|]. cbn [buffer buffsize].
  rewrite (proj2 (Z.ltb_lt _ _)) by lia. st_simpl. apply Hwrite; lia.
- rewrite (proj2 (Z.ltb_lt _ _)) by lia. st_simpl. apply Hwrite; lia.
Qed.

Lemma save_ext ls c :
wf ls ->
post (save c ls) (fun '(_, ls') => ext ls ls' /\ left ls' = left ls /\
  current ls' = current ls /\ linenumber ls' = linenumber ls /\
  buffer (buff ls') = buffer (buff ls) ++ [u8 c] /\ chars ls' = chars ls).
Proof.
intros Hw. eapply post_mono; [apply save_spec, Hw|]. intros [[] ls'] (b & -> & Hb & Hd).
split_and!; try done. by eapply set_buff_ext.
Qed.

Lemma save_and_next_spec ls :
wf ls -> plain (current ls) ->
post (save_and_next ls) (fun '(_, ls') => ext ls ls' /\ S (left ls') = left ls /\
  buffer (buff ls') = buffer (buff ls) ++ [u8 (current ls)] /\ linenumber ls' = linenumber ls /\
  chars ls = current ls :: chars ls').
Proof.
intros Hw Hc. unfold save_and_next. st_simpl.
eapply st_post_bind; [by apply save_ext|]. intros [] ls1 (He & Hl & Hcu & Hn & Hb & Hch).
eapply post_mono; [apply next_spec; [by eapply ext_wf|by rewrite Hcu]|].
intros [[] ls2] (He2 & Hl2 & Hb2 & Hn2 & Hch2).
split_and!; [eauto with lua|lia|congruence|congruence|congruence].
Qed.

Lemma token2str_spec tok : token_ok tok -> exists s, luaX_token2str tok = Ret s.
Proof.
intros Ht. unfold luaX_token2str, token_ok, TK_EOS, FIRST_RESERVED in *. case_if; [by eexists|].
bool_facts. destruct (getZ_is_Some luaX_tokens (tok - 257)) as [s Hs];
  [change (lenZ luaX_tokens) with 31; lia|].
rewrite Hs. by eexists.
Qed.

(** Raising an error is always defined: it satisfies any postcondition. *)
Lemma lexerror_spec {A} msg tok ls (Q : A * LexState -> Prop) :
buff_ok (buff ls) -> token_ok tok -> post (luaX_lexerror msg tok ls) Q.
Proof.
intros Hw Ht. unfold luaX_lexerror. st_simpl. case_if; [|done].
eapply (st_post_bind _ _ _ (fun _ => True)); [|done]. unfold txtToken. case_if.
- eapply st_post_bind; [by apply save_spec|]. done.
- destruct (token2str_spec tok Ht) as [s Hs]. by rewrite Hs.
Qed.

Ltac lexerr := apply lexerror_spec; [apply wf_buff; eauto with lua|done].

Lemma syntaxerror_spec {A} msg ls (Q : A * LexState -> Prop) :
buff_ok (buff ls) -> token_ok (token (t ls)) -> post (luaX_syntaxerror msg ls) Q.
Proof. apply lexerror_spec. Qed.

Lemma newline_not_eoz c : (c =? NL) || (c =? CR) = true -> c <> EOZ.
Proof. unfold NL, CR, EOZ. intros Hc ->. discriminate Hc. Qed.

(** The line break at the start of a text, and the rest *)
Lemma inclinenumber_spec ls :
wf ls -> (current ls =? NL) || (current ls =? CR) = true ->
post (inclinenumber ls) (fun '(_, ls') => ext ls ls' /\ (left ls' < left ls)%nat /\
  buffer (buff ls') = buffer (buff ls) /\ linenumber ls' = linenumber ls + 1).
Proof.
intros Hw Hc. unfold inclinenumber, currIsNewline. st_simpl.
eapply st_post_bind; [apply next_raw; [done|by apply newline_not_eoz]|].
intros [] ls1 (Hw1 & Hch1 & Hb1 & Hn1 & Ht1 & Hla1 & Hll1 & Hs1). st_simpl.
eapply (st_post_bind _ _ _ (fun '(_, ls2) => wf ls2 /\ buff ls2 = buff ls /\
  newlines (chars ls) = 1 + newlines (chars ls2) /\ (left ls2 < left ls)%nat /\
  linenumber ls2 = linenumber ls /\ t ls2 = t ls /\
  lookahead ls2 = lookahead ls /\ lastline ls2 = lastline ls /\ source ls2 = source ls)).
{ unfold left. rewrite Hch1. destruct ((current ls1 =? NL) || _) eqn:Hnl; cbn [andb].
  - pose proof (newline_not_eoz _ Hnl) as Hz1.
    destruct (input_eoz ls1) as [r1 Hr1]; [apply Hw1|done|].
    destruct (Z.eqb_spec (current ls1) (current ls)) as [E|E]; cbn [negb].
    + st_simpl. split_and!; try done; cbn [newlines length]; [|lia].
      rewrite Hc. unfold chars. rewrite Hr1.
      by rewrite (proj2 (Z.eqb_eq _ _) E), andb_false_r.
    + eapply post_mono; [by apply next_raw|].
      intros [[] ls2] (Hw2 & Hch2 & Hb2 & Hn2 & Ht2 & Hla2 & Hll2 & Hs2).
      split_and!; try congruence; rewrite Hch2; cbn [newlines length]; [|lia].
      by rewrite Hc, Hnl, (proj2 (Z.eqb_neq _ _) E).
  - st_simpl. split_and!; try done; cbn [newlines length]; [|lia].
    rewrite Hc. unfold chars. destruct (view (z ls1)); [|done]. by rewrite Hnl. }
intros [] ls2 (Hw2 & Hb2 & Hnl & Hlf & Hn2 & Ht2 & Hla2 & Hll2 & Hs2). st_simpl.
pose proof Hw2 as [? ? ? ? ? ? ?]. cbn [linenumber set_linenumber].
destruct (Z.leb_spec MAX_INT (linenumber ls2 + 1)); [by apply syntaxerror_spec|].
st_simpl. change (left (set_linenumber (linenumber ls2 + 1) ls2)) with (left ls2).
cbn [linenumber set_linenumber buff]. split_and!; [|done|congruence|lia].
split; [|exists []; rewrite app_nil_r; cbn; congruence].
split; try done; cbn [linenumber set_linenumber lastline].
- split; try done; cbn; lia.
- change (left (set_linenumber (linenumber ls2 + 1) ls2)) with (left ls2). lia.
- lia.
- change (chars (set_linenumber (linenumber ls2 + 1) ls2)) with (chars ls2). lia.
Qed.

(** *** Loops over a class of characters *)

Definition not_eoz (p : Z -> bool) : Prop := forall c, p c = true -> plain c.

Lemma rounds_left ls ls' : ext ls ls' -> (left ls' < rounds ls)%nat.
Proof. intros [[] _]. rewrite left_rounds. lia. Qed.

Lemma save_while_spec p fuel ls :
not_eoz p -> wf ls -> (left ls < fuel)%nat ->
post (save_while p fuel ls) (fun '(_, ls') => ext ls ls').
Proof.
intros Hp. revert ls. induction fuel as [|fuel IH]; intros ls Hw Hf; [lia|].
cbn [save_while]. st_simpl. destruct (p (current ls)) eqn:E; [|by apply ext_refl].
eapply st_post_bind; [apply save_and_next_spec; [done|by apply Hp]|].
intros [] ls1 (He & Hl & _). eapply post_mono; [apply IH; [eauto with lua|lia]|].
intros [[] ls2] ?. eauto with lua.
Qed.

Lemma skip_while_spec p fuel ls :
not_eoz p -> wf ls -> (left ls < fuel)%nat ->
post (skip_while p fuel ls) (fun '(_, ls') => ext ls ls' /\
  buffer (buff ls') = buffer (buff ls)).
Proof.
intros Hp. revert ls. induction fuel as [|fuel IH]; intros ls Hw Hf; [lia|].
cbn [skip_while]. st_simpl. destruct (p (current ls)) eqn:E;
  [|st_simpl; split; [by apply ext_refl|done]].
eapply st_post_bind; [apply next_spec; [done|by apply Hp]|].
intros [] ls1 (He & Hl & Hb & _). eapply post_mono; [apply IH; [eauto with lua|lia]|].
intros [[] ls2] [? Hb2]. rewrite Hb2. eauto with lua.
Qed.

(** A set of characters that can be checked at the end of a line or a file *)
Definition plain_set (set : bytes) : bool :=
negb (strchr set 255 || strchr set NL || strchr set CR).

Lemma plain_set_spec set c : plain_set set = true -> strchr set (u8 c) = true -> plain c.
Proof.
unfold plain_set, plain. intros Hs Hc. bool_facts.
destruct (Z.eqb_spec c EOZ) as [->|]; [change (u8 EOZ) with 255 in Hc; congruence|].
destruct (Z.eqb_spec c NL) as [->|]; [change (u8 NL) with NL in Hc; congruence|].
destruct (Z.eqb_spec c CR) as [->|]; [change (u8 CR) with CR in Hc; congruence|].
done.
Qed.

Lemma check_next_spec set ls :
plain_set set = true -> wf ls ->
post (check_next set ls) (fun '(b, ls') => ext ls ls').
Proof.
intros Hs Hw. unfold check_next. st_simpl. case_if; [|by apply ext_refl].
eapply st_post_bind; [apply save_and_next_spec; [done|by eapply plain_set_spec]|].
intros [] ls' (? & _). done.
Qed.

(** *** Numerals *)

Lemma buffreplace_spec from to ls :
wf ls -> post (buffreplace from to ls) (fun '(_, ls') => adv ls ls').
Proof.
intros Hw. unfold buffreplace, modify. cbn [post].
destruct Hw as [? [Hb1 Hb2] ? ? ? ? ?]. split; try done. split; try done.
split; cbn; [|done]. unfold lenZ in *. by rewrite length_fmap.
Qed.

Lemma set_decpoint_adv ls : wf ls -> adv ls (set_decpoint decimal_point ls).
Proof. intros []. by split. Qed.

Lemma malformed_number ls (Q : lua_Number * LexState -> Prop) :
wf ls -> post (luaX_lexerror (str "malformed number") TK_NUMBER ls) Q.
Proof. intros []. by apply lexerror_spec. Qed.

Lemma trydecpoint_spec ls :
wf ls -> post (trydecpoint ls) (fun '(_, ls') => adv ls ls').
Proof.
intros Hw. unfold trydecpoint. st_simpl.
pose proof (set_decpoint_adv ls Hw) as H1.
eapply st_post_bind; [apply buffreplace_spec; eauto with lua|].
intros [] ls2 H2. st_red. st_simpl. destruct (luaO_str2d _).
- st_simpl. eauto with lua.
- eapply st_post_bind; [apply buffreplace_spec; eauto with lua|].
  intros [] ls3 H3. st_red. apply malformed_number. eauto with lua.
Qed.

Lemma not_eoz_intro p :
p EOZ || (p NL || p CR) = false -> not_eoz p.
Proof.
intros Hp c Hc. unfold plain. destruct (Z.eqb_spec c EOZ) as [->|]; [by rewrite Hc in Hp|].
destruct (Z.eqb_spec c NL) as [->|]; [by rewrite Hc, orb_true_r in Hp|].
destruct (Z.eqb_spec c CR) as [->|]; [by rewrite Hc, !orb_true_r in Hp|]. done.
Qed.

Lemma isdigit_not_eoz : not_eoz isdigit.
Proof. by apply not_eoz_intro. Qed.

Lemma isalnum_not_eoz : not_eoz isalnum_.
Proof. by apply not_eoz_intro. Qed.

Lemma read_numeral_spec ls :
wf ls -> isdigit (current ls) = true ->
post (read_numeral ls) (fun '(_, ls') => adv ls ls' /\ (left ls' < left ls)%nat).
Proof.
intros Hw Hc. unfold read_numeral. st_simpl.
eapply st_post_bind; [apply save_and_next_spec; [done|by apply isdigit_not_eoz]|].
intros [] ls1 (H1 & Hl1 & _).
eapply st_post_bind; [apply save_while_spec; [|eauto with lua|by apply rounds_left]|].
{ by apply not_eoz_intro. }
intros [] ls2 H2. st_red.
eapply st_post_bind; [apply check_next_spec; [done|eauto with lua]|].
intros e ls3 H3. st_red.
eapply (st_post_bind _ _ _ (fun '(_, ls4) => ext ls3 ls4)).
{ case_if; [apply check_next_spec; [done|eauto with lua]|]. cbn. eauto with lua. }
intros _ ls4 H4. st_red. assert (H04 : ext ls1 ls4) by eauto with lua.
eapply st_post_bind.
{ apply save_while_spec; [apply isalnum_not_eoz|eauto with lua|].
  apply rounds_left. eauto with lua. }
intros [] ls5 H5. st_red.
eapply st_post_bind; [apply save_ext; eauto with lua|].
intros [] ls6 (H6 & _). st_simpl.
eapply st_post_bind; [apply buffreplace_spec; eauto with lua|].
intros [] ls7 H7. st_red. st_simpl.
assert (H16 : ext ls1 ls6) by eauto using ext_trans.
assert (H : adv ls1 ls7) by eauto using adv_trans, ext_adv.
assert (Hfin : forall ls', adv ls7 ls' -> adv ls ls' /\ (left ls' < left ls)%nat).
{ intros ls' H'. assert (adv ls1 ls') as H1' by eauto with lua. split; [eauto with lua|].
  apply adv_left in H1'. lia. }
destruct (luaO_str2d _).
- apply Hfin. eauto with lua.
- eapply post_mono; [apply trydecpoint_spec; eauto with lua|]. intros [r ls8]. apply Hfin.
Qed.

(** *** Long strings and comments *)

Lemma ext_buffer_len ls ls' : ext ls ls' -> lenZ (buffer (buff ls)) <= lenZ (buffer (buff ls')).
Proof. intros [_ [d ->]]. rewrite lenZ_app. pose proof (lenZ_nonneg d). lia. Qed.

Lemma resetbuffer_spec ls :
wf ls -> post (resetbuffer ls) (fun '(_, ls') => adv ls ls' /\ current ls' = current ls /\
  buffer (buff ls') = []).
Proof.
intros [? [] ? ? ? ? ?]. split; [|done]. split; try done. split; try done.
split; cbn; [|done]. unfold LUA_MINBUFFER in *. change (lenZ []) with 0. lia.
Qed.

(** The text left is so short that the counts of a long bracket, up to twice
    its length, fit in an [int]. *)
Definition short ls : Prop := 2 * Z.of_nat (left ls) <= INT_MAX.

Lemma short_adv ls ls' : adv ls ls' -> short ls -> short ls'.
Proof. intros []. unfold short. lia. Qed.

Lemma short_ext ls ls' : ext ls ls' -> short ls -> short ls'.
Proof. intros [Ha _]. by apply short_adv. Qed.

Hint Resolve short_adv short_ext : lua.

Lemma skip_equals_spec fuel count ls :
wf ls -> (left ls < fuel)%nat -> 0 <= count -> count + Z.of_nat (left ls) <= INT_MAX ->
post (skip_equals fuel count ls) (fun '(n, ls') => ext ls ls' /\ count <= n /\
  lenZ (buffer (buff ls')) = lenZ (buffer (buff ls)) + (n - count) /\
  n + Z.of_nat (left ls') <= count + Z.of_nat (left ls)).
Proof.
revert count ls. induction fuel as [|fuel IH]; intros count ls Hw Hf H0 Hi; [lia|].
cbn [skip_equals]. st_simpl. destruct (Z.eqb_spec (current ls) (ch "=")) as [E|E].
- eapply st_post_bind; [apply save_and_next_spec; [done|by rewrite E]|].
  intros [] ls1 (He & Hl & Hb & _). rewrite c_int_ok by lia. st_simpl.
  eapply post_mono; [apply IH; [eauto with lua|lia..]|].
  intros [n ls2] (He2 & Hn & Hb2 & Hl2). rewrite Hb2, Hb, lenZ_app. change (lenZ [u8 _]) with 1.
  split_and!; [eauto with lua|lia..].
- st_simpl. split_and!; [by apply ext_refl|lia..].
Qed.

Lemma skip_sep_spec ls :
wf ls -> short ls -> plain (current ls) ->
post (skip_sep ls) (fun '(n, ls') => ext ls ls' /\ (left ls' < left ls)%nat /\
  (0 <= n -> current ls' = current ls /\
     lenZ (buffer (buff ls')) = lenZ (buffer (buff ls)) + n + 1 /\
     n + 1 + Z.of_nat (left ls') <= Z.of_nat (left ls))).
Proof.
intros Hw Hsh Hc. unfold skip_sep. st_simpl.
eapply st_post_bind; [by apply save_and_next_spec|]. intros [] ls1 (H1 & Hl1 & Hb1 & _).
unfold short in Hsh.
eapply st_post_bind; [apply skip_equals_spec; [eauto with lua|by apply rounds_left|lia..]|].
intros n ls2 (H2 & Hn & Hb2 & Hl2). st_simpl.
pose proof (adv_left _ _ (ext_adv _ _ H2)).
split; [eauto with lua|]. split; [lia|].
destruct (Z.eqb_spec (current ls2) (current ls)) as [E|E]; [|lia].
intros _. rewrite Hb2, Hb1, lenZ_app. change (lenZ [u8 _]) with 1. split; [done|lia].
Qed.

(** A bracket of [sep] equal signs is short. *)
Lemma plain_left ls : plain (current ls) -> input_ok ls -> (0 < left ls)%nat.
Proof.
intros Hc%plain_not_eoz Hi. destruct (input_eoz ls Hi Hc) as [r Hr]. unfold left, chars. rewrite Hr. cbn. lia.
Qed.

(** What a round of the loop does, for strings ([sem]) and comments *)
Definition long_round (sem stop : bool) (sep : Z) ls ls' : Prop :=
adv ls ls' /\ (sem = true -> ext ls ls' /\
  (stop = true -> lenZ (buffer (buff ls)) + sep + 2 <= lenZ (buffer (buff ls')))).

Lemma ext_long_round sem sep ls ls' : ext ls ls' -> long_round sem false sep ls ls'.
Proof. intros He. split; [eauto with lua|]. by intros _. Qed.

Lemma long_string_step_spec sem sep ls :
wf ls -> short ls -> 0 <= sep ->
post (long_string_step sem sep ls) (fun '(stop, ls') =>
  long_round sem stop sep ls ls' /\ (left ls' < left ls)%nat).
Proof.
intros Hw Hsh Hsep. unfold long_string_step. st_simpl.
destruct (Z.eqb_spec (current ls) EOZ) as [|Hz]; [lexerr|].
destruct (Z.eqb_spec (current ls) (ch "[")) as [E|_];
  [|destruct (Z.eqb_spec (current ls) (ch "]")) as [E|_]; [|destruct (_ || _) eqn:Hnl]].
- st_simpl. eapply st_post_bind; [apply skip_sep_spec; [done|done|by rewrite E]|].
  intros n ls1 (H1 & Hl1 & Hb1). destruct (Z.eqb_spec n sep) as [->|].
  + st_simpl. destruct (Hb1 Hsep) as [Hcu _].
    eapply st_post_bind; [apply save_and_next_spec; [eauto with lua|by rewrite Hcu, E]|].
    intros [] ls2 (H2 & Hl2 & _). case_if.
    * apply (st_post_bind _ _ _ (fun _ => False)); [lexerr|done].
    * st_simpl. split; [apply ext_long_round; eauto with lua|lia].
  + st_simpl. split; [by apply ext_long_round|lia].
- eapply st_post_bind; [apply skip_sep_spec; [done|done|by rewrite E]|].
  intros n ls1 (H1 & Hl1 & Hb1). destruct (Z.eqb_spec n sep) as [->|].
  + destruct (Hb1 Hsep) as (Hcu & Hlen & _).
    eapply st_post_bind; [apply save_and_next_spec; [eauto with lua|by rewrite Hcu, E]|].
    intros [] ls2 (H2 & Hl2 & Hb2 & _). st_simpl. split; [|lia].
    split; [eauto with lua|]. intros _. split; [eauto with lua|]. intros _.
    rewrite Hb2, lenZ_app. change (lenZ [u8 _]) with 1. lia.
  + st_simpl. split; [by apply ext_long_round|lia].
- eapply st_post_bind; [by apply save_ext|]. intros [] ls1 (H1 & Hl1 & Hc1 & _).
  eapply st_post_bind; [apply inclinenumber_spec; [eauto with lua|by rewrite Hc1]|].
  intros [] ls2 (H2 & Hl2 & _). destruct sem; cbn [negb].
  + st_simpl. split; [apply ext_long_round; eauto with lua|lia].
  + st_simpl. eapply st_post_bind; [apply resetbuffer_spec; eauto with lua|].
    intros [] ls3 (H3 & _ & _). st_simpl. pose proof (adv_left _ _ H3).
    split; [|lia]. split; [|done]. eauto with lua.
- pose proof (plain_intro _ Hz Hnl). destruct sem.
  + eapply st_post_bind; [by apply save_and_next_spec|]. intros [] ls1 (H1 & Hl1 & _).
    st_simpl. split; [by apply ext_long_round|lia].
  + eapply st_post_bind; [by apply next_spec|]. intros [] ls1 (H1 & Hl1 & _).
    st_simpl. split; [by apply ext_long_round|lia].
Qed.

Lemma long_string_loop_spec sem sep fuel ls :
wf ls -> short ls -> 0 <= sep -> (left ls < fuel)%nat ->
post (long_string_loop sem sep fuel ls) (fun '(_, ls') => long_round sem true sep ls ls').
Proof.
intros Hw Hsh Hsep. revert ls Hw Hsh. induction fuel as [|fuel IH]; intros ls Hw Hsh Hf; [lia|].
cbn [long_string_loop]. eapply st_post_bind; [by apply long_string_step_spec|].
intros stop ls1 ([Ha Hs] & Hl). destruct stop.
- st_simpl. done.
- eapply post_mono; [apply IH; [eauto with lua|eauto with lua|lia]|]. intros [[] ls2] [Ha2 Hs2].
  split; [eauto with lua|]. intros ->. destruct (Hs eq_refl) as [He _].
  destruct (Hs2 eq_refl) as [He2 Hb2]. split; [eauto with lua|]. intros _.
  pose proof (ext_buffer_len _ _ He). specialize (Hb2 eq_refl). lia.
Qed.

Lemma slice_spec b off len :
0 <= off -> 0 <= len -> off + len <= lenZ b -> exists s, slice b off len = Ret s.
Proof.
intros. unfold slice. rewrite !(proj2 (Z.leb_le _ _)) by lia. by eexists.
Qed.

Lemma newstring_spec off len ls :
0 <= off -> 0 <= len -> off + len <= lenZ (buffer (buff ls)) ->
post (luaX_newstring off len ls) (fun '(_, ls') => ls' = ls).
Proof.
intros. unfold luaX_newstring. st_simpl.
destruct (slice_spec (buffer (buff ls)) off len) as [s ->]; done.
Qed.

Lemma read_long_string_spec sem sep ls :
wf ls -> short ls -> 0 <= sep -> plain (current ls) ->
(sem = true -> sep + 1 <= lenZ (buffer (buff ls)) /\ 2 * (2 + sep) <= INT_MAX) ->
post (read_long_string sem sep ls) (fun '(_, ls') => adv ls ls' /\ (left ls' < left ls)%nat).
Proof.
intros Hw Hsh Hsep Hc Hsem. unfold read_long_string, currIsNewline. st_simpl.
eapply st_post_bind; [by apply save_and_next_spec|]. intros [] ls1 (H1 & Hl1 & Hb1 & _).
st_simpl.
eapply (st_post_bind _ _ _ (fun '(_, ls2) => ext ls1 ls2)).
{ case_if; [|st_simpl; eauto with lua].
  eapply post_mono; [apply inclinenumber_spec; [eauto with lua|done]|].
  intros [[] ls2] (? & _). done. }
intros [] ls2 H2. st_red.
assert (H12 : ext ls ls2) by eauto with lua.
pose proof (adv_left _ _ (ext_adv _ _ H2)).
eapply st_post_bind; [apply long_string_loop_spec; [eauto with lua|eauto with lua|done|by apply rounds_left]|].
intros [] ls3 [H3 Hs3]. pose proof (adv_left _ _ H3).
destruct sem; st_simpl; [|split; [eauto with lua|lia]].
destruct (Hs3 eq_refl) as [He3 Hb3]. specialize (Hb3 eq_refl). destruct (Hsem eq_refl) as [Hsep1 Hsep2].
pose proof (ext_buffer_len _ _ H2) as Hb2. rewrite Hb1, lenZ_app in Hb2.
change (lenZ [u8 _]) with 1 in Hb2. unfold luaZ_bufflen. rewrite c_int_ok by lia. st_simpl.
eapply st_post_bind; [apply newstring_spec; lia|]. intros ts ls4 ->. st_simpl.
split; [eauto with lua|lia].
Qed.

(** *** Quoted strings *)

Lemma decimal_escape_spec n c ls :
wf ls -> isdigit (current ls) = true ->
post (decimal_escape n c ls) (fun '(_, ls') => ext ls ls').
Proof.
revert c ls. induction n as [|n IH]; intros c ls Hw Hd; cbn [decimal_escape]; st_simpl.
- eapply st_post_bind; [apply next_spec; [done|by apply isdigit_not_eoz]|].
  intros [] ls1 (H1 & _). st_simpl. done.
- eapply st_post_bind; [apply next_spec; [done|by apply isdigit_not_eoz]|].
  intros [] ls1 (H1 & _). st_simpl. case_if; [|by st_simpl].
  eapply post_mono; [apply IH; [eauto with lua|done]|]. intros [e ls2] H2. eauto with lua.
Qed.

Lemma read_escape_spec ls :
wf ls -> plain (current ls) ->
post (read_escape ls) (fun '(_, ls') => ext ls ls' /\ (left ls' < left ls)%nat).
Proof.
intros Hw Hc. unfold read_escape.
eapply st_post_bind; [by apply next_spec|]. intros [] ls1 (H1 & Hl1 & _). st_simpl.
assert (Hw1 : wf ls1) by eauto with lua.
assert (Hfin : forall ls', ext ls1 ls' -> ext ls ls' /\ (left ls' < left ls)%nat).
{ intros ls' H'. split; [eauto with lua|]. apply ext_adv, adv_left in H'. lia. }
destruct (escape_char (current ls1)) as [e|] eqn:He.
- eapply st_post_bind; [by apply save_ext|]. intros [] ls2 (H2 & _ & Hc2 & _).
  eapply post_mono; [apply next_spec; [eauto with lua|]|].
  + rewrite Hc2. apply plain_intro; [by intros Hz; rewrite Hz in He|].
    destruct (_ || _) eqn:Hnl; [|done].
    apply orb_true_iff in Hnl as [Hnl%Z.eqb_eq|Hnl%Z.eqb_eq]; by rewrite Hnl in He.
  + intros [[] ls3] (H3 & _). apply Hfin. eauto with lua.
- destruct (_ || _) eqn:Hnl; [|destruct (Z.eqb_spec (current ls1) EOZ) as [|Hz];
    [|destruct (isdigit (current ls1)) eqn:Hd; cbn [negb]]].
  + eapply st_post_bind; [by apply save_ext|]. intros [] ls2 (H2 & _ & Hc2 & _).
    eapply post_mono; [apply inclinenumber_spec; [eauto with lua|by rewrite Hc2]|].
    intros [[] ls3] (H3 & _). apply Hfin. eauto with lua.
  + st_simpl. by apply Hfin, ext_refl.
  + eapply st_post_bind; [by apply decimal_escape_spec|]. intros e ls2 H2. st_red.
    case_if.
    * apply (st_post_bind _ _ _ (fun _ => False)); [lexerr|done].
    * st_simpl. eapply post_mono; [apply save_ext; eauto with lua|].
      intros [[] ls3] (H3 & _). apply Hfin. eauto with lua.
  + eapply post_mono; [apply save_and_next_spec; [done|by apply plain_intro]|].
    intros [[] ls2] (H2 & _). by apply Hfin.
Qed.

Lemma string_step_spec ls :
wf ls -> post (string_step ls) (fun '(_, ls') => ext ls ls' /\ (left ls' < left ls)%nat).
Proof.
intros Hw. unfold string_step. st_simpl.
destruct (Z.eqb_spec (current ls) EOZ) as [|Hz]; [lexerr|].
destruct (_ || _) eqn:Hnl; [lexerr|]. pose proof (plain_intro _ Hz Hnl).
case_if; [by apply read_escape_spec|].
eapply post_mono; [by apply save_and_next_spec|]. intros [[] ls1] (H1 & Hl1 & _).
split; [done|lia].
Qed.

Lemma string_loop_spec del fuel ls :
wf ls -> (left ls < fuel)%nat ->
post (string_loop del fuel ls) (fun '(_, ls') => ext ls ls' /\ current ls' = del).
Proof.
revert ls. induction fuel as [|fuel IH]; intros ls Hw Hf; [lia|].
cbn [string_loop]. st_simpl. destruct (Z.eqb_spec (current ls) del) as [|].
- st_simpl. split; [by apply ext_refl|done].
- eapply st_post_bind; [by apply string_step_spec|]. intros [] ls1 (H1 & Hl1).
  eapply post_mono; [apply IH; [eauto with lua|lia]|]. intros [[] ls2] (? & ?).
  split; [eauto with lua|done].
Qed.

Lemma read_string_spec del ls :
wf ls -> current ls = del -> plain del ->
post (read_string del ls) (fun '(_, ls') => adv ls ls' /\ (left ls' < left ls)%nat).
Proof.
intros Hw <- Hc. unfold read_string. st_simpl.
eapply st_post_bind; [by apply save_and_next_spec|]. intros [] ls1 (H1 & Hl1 & Hb1 & _).
eapply st_post_bind; [apply string_loop_spec; [eauto with lua|by apply rounds_left]|].
intros [] ls2 (H2 & Hc2).
eapply st_post_bind; [apply save_and_next_spec; [eauto with lua|by rewrite Hc2]|].
intros [] ls3 (H3 & Hl3 & Hb3 & _). st_simpl.
pose proof (ext_buffer_len _ _ H2) as Hb2. rewrite Hb1, lenZ_app in Hb2.
apply (f_equal lenZ) in Hb3. rewrite lenZ_app in Hb3. change (lenZ [u8 _]) with 1 in *.
pose proof (lenZ_nonneg (buffer (buff ls))). unfold luaZ_bufflen.
eapply post_mono; [apply newstring_spec; lia|]. intros [ts ls4] ->.
assert (ext ls ls3) by eauto with lua. split; [eauto with lua|].
apply ext_adv, adv_left in H2. lia.
Qed.

(** *** The scanner *)

Lemma luaX_init_range words i ts :
luaX_init words i ts = 0 \/ i < luaX_init words i ts <= i + lenZ words.
Proof.
revert i. induction words as [|w words IH]; intros i; cbn [luaX_init]; [by left|].
rewrite lenZ_cons. pose proof (lenZ_nonneg words). case_decide; [lia|].
destruct (IH (i + 1)); lia.
Qed.

Lemma reserved_range ts : 0 <= reserved ts <= 21.
Proof.
unfold reserved. destruct (luaX_init_range (take (Z.to_nat NUM_RESERVED) luaX_tokens) 0 ts)
  as [->|Hr]; [lia|]. change (lenZ (take _ luaX_tokens)) with 21 in Hr. lia.
Qed.

(** What a round of [llex] gives: [None] to go on *)
Definition lex_round ls (r : option (Z * SemInfo)) ls' : Prop :=
adv ls ls' /\
match r with
| Some (tok, _) =>
    token_ok tok /\ if decide (tok = TK_EOS) then left ls' = 0%nat else (left ls' < left ls)%nat
| None => (left ls' < left ls)%nat /\ buffer (buff ls') = []
end.

Lemma lex_round_Some ls tok sem ls' :
adv ls ls' -> (left ls' < left ls)%nat -> 0 <= tok < TK_EOS ->
lex_round ls (Some (tok, sem)) ls'.
Proof.
intros Ha Hl Ht. split; [done|]. split; [unfold token_ok; lia|].
by rewrite decide_False by lia.
Qed.

Lemma current_byte ls : wf ls -> current ls <> EOZ -> is_byte (current ls).
Proof. intros [[_ Hc] _ _ _ _ _ _] Hz. by destruct (view (z ls)). Qed.

Lemma one_or_two_spec c second tk sem ls :
wf ls -> plain (current ls) -> plain second -> 0 <= c < TK_EOS -> 0 <= tk < TK_EOS ->
post (one_or_two c second tk sem ls) (fun '(r, ls') => lex_round ls r ls').
Proof.
intros Hw Hc Hs Hr Hr'. unfold one_or_two.
eapply st_post_bind; [by apply next_spec|]. intros [] ls1 (H1 & Hl1 & _). st_simpl.
destruct (Z.eqb_spec (current ls1) second) as [E|E]; cbn [negb].
- eapply st_post_bind; [apply next_spec; [eauto with lua|by rewrite E]|].
  intros [] ls2 (H2 & Hl2 & _). st_simpl. apply lex_round_Some; [eauto with lua|lia|done].
- st_simpl. apply lex_round_Some; [eauto with lua|lia|done].
Qed.

Lemma lex_minus_spec sem ls :
wf ls -> short ls -> current ls = ch "-" -> buffer (buff ls) = [] ->
post (lex_minus sem ls) (fun '(r, ls') => lex_round ls r ls').
Proof.
intros Hw Hsh Hc Hb. unfold lex_minus. st_simpl.
eapply st_post_bind; [apply next_spec; [done|by rewrite Hc]|].
intros [] ls1 (H1 & Hl1 & Hb1 & _).
st_simpl. destruct (Z.eqb_spec (current ls1) (ch "-")) as [E|E]; cbn [negb];
  [|st_simpl; apply lex_round_Some; [eauto with lua|lia|done]].
eapply st_post_bind; [apply next_spec; [eauto with lua|by rewrite E]|].
intros [] ls2 (H2 & Hl2 & Hb2 & _). st_simpl.
apply (st_post_bind _ _ _ (fun '(n, ls3) => adv ls2 ls3 /\ buffer (buff ls3) = [] /\
  ((current ls2 =? ch "[") && (0 <=? n) = true -> 0 <= n /\ plain (current ls3)))).
{ destruct (Z.eqb_spec (current ls2) (ch "[")) as [E2|E2].
  - eapply st_post_bind; [apply skip_sep_spec; [eauto with lua|eauto with lua|by rewrite E2]|].
    intros n ls3 (H3 & _ & Hn). eapply st_post_bind; [apply resetbuffer_spec; eauto with lua|].
    intros [] ls4 (H4 & Hc4 & Hb4). st_simpl. split; [eauto with lua|]. split; [done|].
    intros Hbr. bool_facts.
    split; [done|]. destruct Hn as [Hn _]; [done|]. rewrite Hc4, Hn, E2. done.
  - st_simpl. split; [eauto with lua|]. split; [congruence|done]. }
intros n ls3 (H3 & Hb3 & Hn). pose proof (adv_left _ _ H3). destruct (_ && _).
- destruct (Hn eq_refl) as [Hn0 Hz].
  eapply st_post_bind; [apply read_long_string_spec; [eauto 6 with lua|eauto 6 with lua|done..]|].
  intros _ ls4 [H4 Hl4]. eapply st_post_bind; [apply resetbuffer_spec; eauto with lua|].
  intros [] ls5 (H5 & _ & Hb5). st_simpl. pose proof (adv_left _ _ H5).
  assert (adv ls ls2) by eauto with lua. assert (adv ls2 ls5) by eauto with lua.
  split; [eauto with lua|]. split; [lia|done].
- eapply st_post_bind; [apply skip_while_spec; [|eauto with lua|]|].
  + by apply not_eoz_intro.
  + rewrite left_rounds. lia.
  + intros [] ls4 [H4 Hb4]. st_simpl. pose proof (adv_left _ _ (ext_adv _ _ H4)).
    assert (adv ls ls2) by eauto with lua. assert (adv ls2 ls4) by eauto with lua.
    split; [eauto with lua|]. split; [lia|congruence].
Qed.

Lemma long_bracket_spec sem ls :
wf ls -> short ls -> current ls = ch "[" -> buffer (buff ls) = [] ->
post ((sep ← skip_sep;
  if 0 <=? sep then
    ts ← read_long_string true sep;
    mret (Some (TK_STRING, match ts with Some ts => SString ts | None => sem end))
  else if sep =? -1 then mret (Some (ch "[", sem))
  else luaX_lexerror (str "invalid long string delimiter") TK_STRING) ls)
  (fun '(r, ls') => lex_round ls r ls').
Proof.
intros Hw Hsh Hc Hb.
eapply st_post_bind; [apply skip_sep_spec; [done|done|by rewrite Hc]|].
intros sep ls1 (H1 & Hl1 & Hn). repeat case_if; bool_facts.
- destruct Hn as (Hcu & Hlen & Hle); [done|]. rewrite Hb in Hlen. change (lenZ []) with 0 in Hlen.
  assert (Hp : plain (current ls1)) by by rewrite Hcu, Hc.
  pose proof (plain_left ls1 Hp (wf_input _ (ext_wf _ _ H1))). unfold short in Hsh.
  eapply st_post_bind;
    [apply read_long_string_spec; [eauto with lua|unfold short; lia|done|done|lia]|].
  intros ts ls2 [H2 Hl2]. st_simpl. apply lex_round_Some; [eauto with lua|lia|done].
- st_simpl. apply lex_round_Some; [eauto with lua|lia|done].
- lexerr.
Qed.

Lemma name_spec sem fuel ls :
wf ls -> plain (current ls) -> fuel = rounds ls ->
post ((save_and_next;;
  save_while isalnum_ fuel;;
  b ← gets buff;
  ts ← luaX_newstring 0 (luaZ_bufflen b);
  if 0 <? reserved ts then mret (Some (reserved ts - 1 + FIRST_RESERVED, sem))
  else mret (Some (TK_NAME, SString ts))) ls) (fun '(r, ls') => lex_round ls r ls').
Proof.
intros Hw Hc ->. eapply st_post_bind; [by apply save_and_next_spec|].
intros [] ls1 (H1 & Hl1 & _).
eapply st_post_bind; [apply save_while_spec;
  [apply isalnum_not_eoz|eauto with lua|by apply rounds_left]|].
intros [] ls2 H2. st_red. st_simpl. pose proof (adv_left _ _ (ext_adv _ _ H2)).
assert (H12 : ext ls ls2) by eauto with lua.
pose proof (lenZ_nonneg (buffer (buff ls2))).
eapply st_post_bind; [apply newstring_spec; unfold luaZ_bufflen; lia|]. intros ts ls3 ->.
pose proof (reserved_range ts).
case_if; bool_facts; st_simpl; apply lex_round_Some;
  try (eauto with lua; fail); try lia; try done.
unfold FIRST_RESERVED, TK_EOS. lia.
Qed.

Lemma dot_spec sem ls :
wf ls -> current ls = ch "." ->
post ((save_and_next;;
  dot ← check_next (str ".");
  if (dot : bool) then
    dot ← check_next (str ".");
    if (dot : bool) then mret (Some (TK_DOTS, sem)) else mret (Some (TK_CONCAT, sem))
  else
    d ← gets current;
    if negb (isdigit d) then mret (Some (ch ".", sem))
    else r ← read_numeral; mret (Some (TK_NUMBER, SNumber r))) ls)
  (fun '(r, ls') => lex_round ls r ls').
Proof.
intros Hw Hc. eapply st_post_bind; [apply save_and_next_spec; [done|by rewrite Hc]|].
intros [] ls1 (H1 & Hl1 & _).
eapply st_post_bind; [apply check_next_spec; [done|eauto with lua]|].
intros dot ls2 H2. st_red. pose proof (adv_left _ _ (ext_adv _ _ H2)).
assert (H12 : ext ls ls2) by eauto with lua. destruct dot.
- eapply st_post_bind; [apply check_next_spec; [done|eauto with lua]|].
  intros dot ls3 H3. st_red. pose proof (adv_left _ _ (ext_adv _ _ H3)).
  destruct dot; st_simpl; apply lex_round_Some; try (eauto with lua; fail); try lia; done.
- st_simpl. destruct (isdigit (current ls2)) eqn:Hd; cbn [negb].
  + eapply st_post_bind; [apply read_numeral_spec; [eauto with lua|done]|].
    intros r ls3 [H3 Hl3]. st_simpl. apply lex_round_Some; [eauto with lua|lia|done].
  + st_simpl. apply lex_round_Some; [eauto with lua|lia|done].
Qed.

Lemma llex_step_spec sem ls :
wf ls -> short ls -> buffer (buff ls) = [] ->
post (llex_step sem ls) (fun '(r, ls') => lex_round ls r ls').
Proof.
intros Hw Hsh Hb. unfold llex_step. st_simpl.
destruct (_ || _) eqn:Hnl.
{ eapply st_post_bind; [by apply inclinenumber_spec|]. intros [] ls1 (H1 & Hl1 & Hb1 & _).
  st_simpl. split; [eauto with lua|]. split; [done|congruence]. }
destruct (Z.eqb_spec (current ls) (ch "-")); [by apply lex_minus_spec|].
destruct (Z.eqb_spec (current ls) (ch "[")); [by apply long_bracket_spec|].
destruct (Z.eqb_spec (current ls) (ch "=")) as [E|];
  [apply one_or_two_spec; rewrite ?E; done|].
destruct (Z.eqb_spec (current ls) (ch "<")) as [E|];
  [apply one_or_two_spec; rewrite ?E; done|].
destruct (Z.eqb_spec (current ls) (ch ">")) as [E|];
  [apply one_or_two_spec; rewrite ?E; done|].
destruct (Z.eqb_spec (current ls) (ch "~")) as [E|];
  [apply one_or_two_spec; rewrite ?E; done|].
destruct ((current ls =? 34) || _) eqn:Hq.
{ assert (plain (current ls)).
  { apply orb_true_iff in Hq as [Hq%Z.eqb_eq|Hq%Z.eqb_eq]; by rewrite Hq. }
  eapply st_post_bind; [by apply read_string_spec|]. intros ts ls1 [H1 Hl1]. st_simpl.
  apply lex_round_Some; [eauto with lua|lia|done]. }
destruct (Z.eqb_spec (current ls) (ch ".")); [by apply dot_spec|].
destruct (Z.eqb_spec (current ls) EOZ) as [Hz|Hz].
{ st_simpl. split; [eauto with lua|]. split; [done|]. rewrite decide_True by done.
  unfold left, chars. destruct Hw as [[_ Hc] _ _ _ _ _ _]. destruct (view (z ls)); [|done].
  rewrite Hz in Hc. by destruct Hc. }
pose proof (plain_intro _ Hz Hnl).
destruct (isspace _).
{ eapply st_post_bind; [by apply next_spec|]. intros [] ls1 (H1 & Hl1 & Hb1 & _).
  st_simpl. split; [eauto with lua|]. split; [lia|congruence]. }
destruct (isdigit _) eqn:Hd.
{ eapply st_post_bind; [by apply read_numeral_spec|]. intros r ls1 [H1 Hl1].
  st_simpl. apply lex_round_Some; [eauto with lua|lia|done]. }
destruct (is_name_char _); [by apply name_spec|].
eapply st_post_bind; [by apply next_spec|]. intros [] ls1 (H1 & Hl1 & _).
st_simpl. pose proof (current_byte ls Hw Hz).
apply lex_round_Some; [eauto with lua|lia|unfold is_byte, TK_EOS in *; lia].
Qed.

(** What a call of the scanner gives: a token; characters are used up unless
  the input is at its end. *)
Definition lexed ls (tok : Z) ls' : Prop :=
adv ls ls' /\ token_ok tok /\
if decide (tok = TK_EOS) then left ls' = 0%nat else (left ls' < left ls)%nat.

Lemma llex_loop_spec sem fuel ls :
wf ls -> short ls -> buffer (buff ls) = [] -> (left ls < fuel)%nat ->
post (llex_loop sem fuel ls) (fun '((tok, _), ls') => lexed ls tok ls').
Proof.
revert ls. induction fuel as [|fuel IH]; intros ls Hw Hsh Hb Hf; [lia|].
cbn [llex_loop]. eapply st_post_bind; [by apply llex_step_spec|].
intros [[tok sem']|] ls1 [Ha Hr].
- st_simpl. done.
- destruct Hr as [Hl Hb1]. eapply post_mono; [apply IH; [eauto with lua|eauto with lua|done|lia]|].
  intros [[tok sem'] ls2] (Ha2 & Ht & Hl2). split; [eauto with lua|]. split; [done|].
  case_decide; [done|lia].
Qed.

Lemma llex_spec sem ls :
wf ls -> short ls -> post (llex sem ls) (fun '((tok, _), ls') => lexed ls tok ls').
Proof.
intros Hw Hsh. unfold llex. eapply st_post_bind; [by apply resetbuffer_spec|].
intros [] ls1 (H1 & _ & Hb1). st_simpl. pose proof (adv_left _ _ H1).
eapply post_mono; [apply llex_loop_spec; [eauto with lua|eauto with lua|done|rewrite left_rounds; lia]|].
intros [[tok sem'] ls2] (Ha2 & Ht & Hl2). split; [eauto with lua|]. split; [done|].
case_decide; [done|lia].
Qed.

(** ** luaX_next and luaX_lookahead *)

(** What is left to do: the characters, the token looked at and the current
  token.  Every call of [luaX_next] makes it smaller until the end. *)
Definition todo ls : nat :=
(left ls + (if decide (token (lookahead ls) = TK_EOS) then 0 else 1)
         + (if decide (token (t ls) = TK_EOS) then 0 else 1))%nat.

(** Lines and breaks left *)
Definition lines ls : Z := linenumber ls + newlines (chars ls).

Record next_ok ls ls' : Prop := {
next_wf : wf ls';
next_todo : (todo ls' <= todo ls)%nat;
next_left : (left ls' <= left ls)%nat;
next_progress : token (t ls) <> TK_EOS -> (todo ls' < todo ls)%nat;
next_lookahead : token (lookahead ls') = TK_EOS;
next_lastline : lastline ls' = linenumber ls;
next_line : linenumber ls <= linenumber ls';
next_lines : lines ls' = lines ls;
next_source : source ls' = source ls
}.

Lemma set_lastline_wf ls : wf ls -> wf (set_lastline (linenumber ls) ls).
Proof. intros []. by split. Qed.

Lemma luaX_next_spec ls :
wf ls -> short ls -> post (luaX_next ls) (fun '(_, ls') => next_ok ls ls').
Proof.
intros Hw Hsh. unfold luaX_next. st_simpl. pose proof (set_lastline_wf ls Hw) as Hw1.
cbn [lookahead set_lastline]. unfold todo.
destruct (Z.eqb_spec (token (lookahead ls)) TK_EOS) as [E|E]; cbn [negb].
- st_simpl. eapply st_post_bind; [by apply llex_spec|].
  intros [tok sem] ls1 (Ha & Ht & Hl). destruct Ha as [[] ? ? Hn ? ? ? ?].
  cbn [t lookahead set_lastline lastline linenumber source] in *.
  change (left (set_lastline (linenumber ls) ls)) with (left ls) in *.
  change (chars (set_lastline (linenumber ls) ls)) with (chars ls) in *.
  split; unfold todo, lines in *; cbn [t lookahead set_t token lastline linenumber source];
    try done; try congruence; try (split; done).
  all: change (left (set_t (mkToken tok sem) ls1)) with (left ls1);
    repeat case_decide; try congruence; lia.
- st_simpl. destruct Hw1. unfold modify. cbn [post].
  split; unfold todo, lines in *; cbn [t lookahead set_t set_lookahead token lastline linenumber source];
    try done; try (split; done).
  all: change (left (set_lookahead _ _)) with (left ls);
    repeat case_decide; try congruence; lia.
Qed.

Record lookahead_ok ls ls' : Prop := {
la_wf : wf ls';
la_todo : (todo ls' <= todo ls)%nat;
la_left : (left ls' <= left ls)%nat;
la_t : t ls' = t ls;
la_lastline : lastline ls' = lastline ls;
la_line : linenumber ls <= linenumber ls';
la_lines : lines ls' = lines ls;
la_source : source ls' = source ls
}.

Lemma luaX_lookahead_spec ls :
wf ls -> short ls -> token (lookahead ls) = TK_EOS ->
post (luaX_lookahead ls) (fun '(_, ls') => lookahead_ok ls ls').
Proof.
intros Hw Hsh He. unfold luaX_lookahead. st_simpl.
eapply st_post_bind; [by apply llex_spec|].
intros [tok sem] ls1 (Ha & Ht & Hl). destruct Ha as [[] ? ? Hn ? ? ? ?].
split; unfold todo, lines in *; cbn [t lookahead set_lookahead token lastline linenumber source];
  try done; try congruence; try (split; done).
change (left (set_lookahead _ _)) with (left ls1). rewrite adv_t0.
repeat case_decide; try congruence; lia.
Qed.

Lemma next_short ls ls' : next_ok ls ls' -> short ls -> short ls'.
Proof. intros []. unfold short. lia. Qed.

(** The state that [luaX_setinput] makes *)
Lemma luaX_setinput_spec tk s src r :
token_ok (token tk) -> stream_ok s -> view s = Some r ->
exists ls, luaX_setinput tk s src = Ret ls /\ wf ls /\ chars ls = r /\ linenumber ls = 1 /\
  token (lookahead ls) = TK_EOS /\ t ls = tk /\ source ls = src.
Proof.
intros Ht Hs Hv. unfold luaX_setinput, next. cbn [z].
assert (Hfin : forall c s', input_ok (mkLexState c 1 1 tk (mkToken TK_EOS SNone) s'
    (mkMbuffer [] LUA_MINBUFFER) src 46) ->
  wf (mkLexState c 1 1 tk (mkToken TK_EOS SNone) s' (mkMbuffer [] LUA_MINBUFFER) src 46)).
{ intros c s' Hin. split; try done; cbn; first [lia|split; done]. }
destruct r as [|c r].
- destruct (sget_end s Hs Hv) as (s' & Hg & Hv' & Hs'). rewrite Hg. eexists. split; [done|].
  split; [apply Hfin; unfold input_ok; cbn; by rewrite Hv'|].
  split; [unfold chars; cbn; by rewrite Hv'|done].
- pose proof (view_bytes s _ Hs Hv) as Hby. apply Forall_inv in Hby.
  destruct (sget_byte s c r Hs Hv) as (s' & Hg & Hv' & Hs'). rewrite Hg. eexists.
  split; [done|]. split; [apply Hfin; unfold input_ok; cbn; by rewrite Hv'|].
  split; [unfold chars; cbn; by rewrite Hv'|done].
Qed.
End scanner_proofs.

#[export] Hint Resolve adv_refl adv_trans ext_refl ext_trans ext_adv ext_wf adv_wf : lua.

(** ** The blocks of the reader do not matter

    Two states over different streams that hold the same text are similar;
    every function of the scanner keeps them so and gives the same results. *)

Create HintDb rel discriminated.

Section similarity.
Context {Z1 : Type} `{H1 : ByteStream Z1} `{L1 : !ByteStreamLaws Z1}.
Context {Z2 : Type} `{H2 : ByteStream Z2} `{L2 : !ByteStreamLaws Z2}.

Definition fields {Z'} (ls : LexState Z') :=
(current ls, linenumber ls, lastline ls, t ls, lookahead ls, buff ls, source ls, decpoint ls).

Definition sim (ls1 : LexState Z1) (ls2 : LexState Z2) : Prop :=
fields ls1 = fields ls2 /\ view (z ls1) = view (z ls2) /\
stream_ok (z ls1) /\ stream_ok (z ls2).

Definition sim_outcome {A} (m1 : outcome (A * LexState Z1)) (m2 : outcome (A * LexState Z2))
  : Prop :=
match m1, m2 with
| Ret (a1, ls1), Ret (a2, ls2) => a1 = a2 /\ sim ls1 ls2
| Throw s1 e1, Throw s2 e2 => s1 = s2 /\ e1 = e2
| Undef, Undef | Nofuel, Nofuel => True
| _, _ => False
end.

Definition rel {A} (m1 : ST (LexState Z1) A) (m2 : ST (LexState Z2) A) : Prop :=
forall ls1 ls2, sim ls1 ls2 -> sim_outcome (m1 ls1) (m2 ls2).

Lemma rel_bind {A B} (m1 : ST (LexState Z1) A) m2 (f1 : A -> ST (LexState Z1) B) f2 :
rel m1 m2 -> (forall a, rel (f1 a) (f2 a)) -> rel (m1 ≫= f1) (m2 ≫= f2).
Proof.
intros Hm Hf ls1 ls2 Hs. specialize (Hm ls1 ls2 Hs). unfold mbind, ST_bind.
destruct (m1 ls1) as [[a1 ls1']| | |], (m2 ls2) as [[a2 ls2']| | |]; try done.
destruct Hm as [-> Hs']. by apply Hf.
Qed.

Lemma rel_mret {A} (a : A) : rel (mret a) (mret a).
Proof. by intros ls1 ls2 Hs. Qed.

Lemma rel_throw {A} st e : rel (throw st e : ST _ A) (throw st e).
Proof. by intros ls1 ls2 Hs. Qed.

Lemma rel_nofuel {A} : rel (nofuel : ST _ A) nofuel.
Proof. by intros ls1 ls2 Hs. Qed.

Lemma rel_lift {A} (m : outcome A) : rel (lift m) (lift m).
Proof. intros ls1 ls2 Hs. unfold lift. by destruct m. Qed.

Lemma rel_gets {A} (f1 : LexState Z1 -> A) f2 :
(forall ls1 ls2, sim ls1 ls2 -> f1 ls1 = f2 ls2) -> rel (gets f1) (gets f2).
Proof. intros Hf ls1 ls2 Hs. split; [by apply Hf|done]. Qed.

Lemma rel_modify (f1 : LexState Z1 -> LexState Z1) f2 :
(forall ls1 ls2, sim ls1 ls2 -> sim (f1 ls1) (f2 ls2)) -> rel (modify f1) (modify f2).
Proof. intros Hf ls1 ls2 Hs. split; [done|by apply Hf]. Qed.

Lemma rel_next : rel next next.
Proof.
intros ls1 ls2 (Hf & Hv & Hs1 & Hs2). unfold next.
assert (Hset : forall c z1 z2, view z1 = view z2 -> stream_ok z1 -> stream_ok z2 ->
  sim (set_current c z1 ls1) (set_current c z2 ls2)).
{ intros c z1 z2 ? ? ?. unfold sim, fields in *. injection Hf as ? ? ? ? ? ? ? ?.
  cbn. split_and!; try done. congruence. }
destruct (view (z ls1)) as [[|c r]|] eqn:Hv1.
- destruct (sget_end (z ls1) Hs1 Hv1) as (z1 & -> & Hz1 & Ho1).
  destruct (sget_end (z ls2) Hs2 (eq_sym Hv)) as (z2 & -> & Hz2 & Ho2).
  split; [done|]. apply Hset; congruence || done.
- destruct (sget_byte (z ls1) c r Hs1 Hv1) as (z1 & -> & Hz1 & Ho1).
  destruct (sget_byte (z ls2) c r Hs2 (eq_sym Hv)) as (z2 & -> & Hz2 & Ho2).
  split; [done|]. apply Hset; congruence || done.
- by rewrite (sget_over (z ls1)), (sget_over (z ls2)).
Qed.

Ltac sim_fields :=
let Hf := fresh in let Hv := fresh in
intros ? ? (Hf & Hv & ? & ?); unfold fields in Hf; injection Hf as ? ? ? ? ? ? ? ?;
unfold sim, fields, rounds, error_message; cbn; rewrite ?Hv;
repeat split; congruence.

Hint Resolve rel_mret rel_throw rel_nofuel rel_lift rel_next : rel.

Ltac rel_step :=
match goal with
| |- forall _, _ => intros ?
| |- rel (_ ≫= _) (_ ≫= _) => apply rel_bind
| |- rel (gets _) (gets _) => apply rel_gets; solve [sim_fields]
| |- rel (modify _) (modify _) => apply rel_modify; solve [sim_fields]
| |- rel (if ?b then _ else _) (if ?b then _ else _) => destruct b
| |- rel (match ?x with _ => _ end) (match ?x with _ => _ end) => destruct x
| |- _ => solve [auto 1 with rel]
end.

Ltac rel_tac := repeat rel_step.

Lemma rel_lexerror0 {A} msg : rel (lexerror0 msg : ST _ A) (lexerror0 msg).
Proof.
intros ls1 ls2 (Hf & _). unfold fields in Hf. injection Hf as ? ? ? ? ? ? ? ?.
unfold lexerror0, error_message. cbn. split; congruence.
Qed.

Hint Resolve rel_lexerror0 : rel.

Lemma rel_save c : rel (save c) (save c).
Proof. unfold save. rel_tac. Qed.

Hint Resolve rel_save : rel.

Lemma rel_save_and_next : rel save_and_next save_and_next.
Proof. unfold save_and_next. rel_tac. Qed.

Lemma rel_resetbuffer : rel resetbuffer resetbuffer.
Proof. unfold resetbuffer. rel_tac. Qed.

Lemma rel_txtToken tok : rel (txtToken tok) (txtToken tok).
Proof. unfold txtToken. rel_tac. Qed.

Hint Resolve rel_save_and_next rel_resetbuffer rel_txtToken : rel.

Lemma rel_lexerror {A} msg tok : rel (luaX_lexerror msg tok : ST _ A) (luaX_lexerror msg tok).
Proof. unfold luaX_lexerror. rel_tac. Qed.

Hint Resolve rel_lexerror : rel.

Lemma rel_syntaxerror {A} msg : rel (luaX_syntaxerror msg : ST _ A) (luaX_syntaxerror msg).
Proof. unfold luaX_syntaxerror. rel_tac. Qed.

Lemma rel_newstring off len : rel (luaX_newstring off len) (luaX_newstring off len).
Proof. unfold luaX_newstring. rel_tac. Qed.

Lemma rel_currIsNewline : rel currIsNewline currIsNewline.
Proof. unfold currIsNewline. rel_tac. Qed.

Hint Resolve rel_syntaxerror rel_newstring rel_currIsNewline : rel.

Lemma rel_inclinenumber : rel inclinenumber inclinenumber.
Proof. unfold inclinenumber. rel_tac. Qed.

Lemma rel_check_next set : rel (check_next set) (check_next set).
Proof. unfold check_next. rel_tac. Qed.

Lemma rel_save_while p fuel : rel (save_while p fuel) (save_while p fuel).
Proof. induction fuel; cbn [save_while]; rel_tac. Qed.

Lemma rel_skip_while p fuel : rel (skip_while p fuel) (skip_while p fuel).
Proof. induction fuel; cbn [skip_while]; rel_tac. Qed.

Lemma rel_buffreplace from to : rel (buffreplace from to) (buffreplace from to).
Proof. unfold buffreplace. rel_tac. Qed.

Hint Resolve rel_inclinenumber rel_check_next rel_save_while rel_skip_while rel_buffreplace : rel.

Lemma rel_trydecpoint : rel trydecpoint trydecpoint.
Proof. unfold trydecpoint. rel_tac. Qed.

Hint Resolve rel_trydecpoint : rel.

Lemma rel_read_numeral : rel read_numeral read_numeral.
Proof. unfold read_numeral. rel_tac. Qed.

Lemma rel_skip_equals fuel count : rel (skip_equals fuel count) (skip_equals fuel count).
Proof. revert count. induction fuel; intros count; cbn [skip_equals]; rel_tac. Qed.

Hint Resolve rel_read_numeral rel_skip_equals : rel.

Lemma rel_skip_sep : rel skip_sep skip_sep.
Proof. unfold skip_sep. rel_tac. Qed.

Hint Resolve rel_skip_sep : rel.

Lemma rel_long_string_step sem sep : rel (long_string_step sem sep) (long_string_step sem sep).
Proof. unfold long_string_step. rel_tac. Qed.

Hint Resolve rel_long_string_step : rel.

Lemma rel_long_string_loop sem sep fuel :
rel (long_string_loop sem sep fuel) (long_string_loop sem sep fuel).
Proof. induction fuel; cbn [long_string_loop]; rel_tac. Qed.

Hint Resolve rel_long_string_loop : rel.

Lemma rel_read_long_string sem sep : rel (read_long_string sem sep) (read_long_string sem sep).
Proof. unfold read_long_string. rel_tac. Qed.

Lemma rel_decimal_escape n c : rel (decimal_escape n c) (decimal_escape n c).
Proof. revert c. induction n; intros c; cbn [decimal_escape]; rel_tac. Qed.

Hint Resolve rel_read_long_string rel_decimal_escape : rel.

Lemma rel_read_escape : rel read_escape read_escape.
Proof. unfold read_escape. rel_tac. Qed.

Hint Resolve rel_read_escape : rel.

Lemma rel_string_step : rel string_step string_step.
Proof. unfold string_step. rel_tac. Qed.

Hint Resolve rel_string_step : rel.

Lemma rel_string_loop del fuel : rel (string_loop del fuel) (string_loop del fuel).
Proof. induction fuel; cbn [string_loop]; rel_tac. Qed.

Hint Resolve rel_string_loop : rel.

Lemma rel_read_string del : rel (read_string del) (read_string del).
Proof. unfold read_string. rel_tac. Qed.

Lemma rel_one_or_two c second tk sem :
rel (one_or_two c second tk sem) (one_or_two c second tk sem).
Proof. unfold one_or_two. rel_tac. Qed.

Lemma rel_lex_minus sem : rel (lex_minus sem) (lex_minus sem).
Proof. unfold lex_minus. rel_tac. Qed.

Hint Resolve rel_read_string rel_one_or_two rel_lex_minus : rel.

Lemma rel_llex_step sem : rel (llex_step sem) (llex_step sem).
Proof. unfold llex_step. rel_tac. Qed.

Hint Resolve rel_llex_step : rel.

Lemma rel_llex_loop sem fuel : rel (llex_loop sem fuel) (llex_loop sem fuel).
Proof. induction fuel; cbn [llex_loop]; rel_tac. Qed.

Hint Resolve rel_llex_loop : rel.

Lemma rel_llex sem : rel (llex sem) (llex sem).
Proof. unfold llex. rel_tac. Qed.

Hint Resolve rel_llex : rel.

Lemma rel_luaX_next : rel luaX_next luaX_next.
Proof. unfold luaX_next. rel_tac. Qed.

Lemma tokens_sim fuel ls1 ls2 : sim ls1 ls2 -> tokens fuel ls1 = tokens fuel ls2.
Proof.
revert ls1 ls2. induction fuel as [|fuel IH]; intros ls1 ls2 Hs; cbn [tokens]; [done|].
pose proof (rel_luaX_next ls1 ls2 Hs) as Hn.
destruct (luaX_next ls1) as [[[] ls1']| | |], (luaX_next ls2) as [[[] ls2']| | |];
  cbn in Hn |- *; try done; [|by destruct Hn as [-> ->]].
destruct Hn as [_ Hs']. pose proof Hs' as (Hf & _). unfold fields in Hf.
injection Hf as _ _ _ Ht _ _ _ _. rewrite Ht. case_if; [done|]. by rewrite (IH ls1' ls2').
Qed.

Lemma setinput_sim tk s1 s2 src r :
stream_ok s1 -> stream_ok s2 -> view s1 = Some r -> view s2 = Some r ->
exists ls1 ls2, luaX_setinput tk s1 src = Ret ls1 /\ luaX_setinput tk s2 src = Ret ls2 /\
  sim ls1 ls2.
Proof.
intros Hs1 Hs2 Hv1 Hv2. unfold luaX_setinput.
set (ls1 := mkLexState _ _ _ _ _ s1 _ _ _). set (ls2 := mkLexState _ _ _ _ _ s2 _ _ _).
assert (Hs : sim ls1 ls2) by (unfold sim; cbn; by rewrite Hv1, Hv2).
pose proof (rel_next ls1 ls2 Hs) as Hn.
assert (Hd : exists a, next ls1 = Ret a).
{ unfold next. cbn. destruct r as [|c r].
  - destruct (sget_end s1 Hs1 Hv1) as (s' & -> & _). by eexists.
  - destruct (sget_byte s1 c r Hs1 Hv1) as (s' & -> & _). by eexists. }
destruct Hd as [[[] ls1'] Hd]. rewrite Hd in *.
destruct (next ls2) as [[[] ls2']| | |]; cbn in Hn; try done.
destruct Hn as [_ Hn]. cbn. eauto.
Qed.
End similarity.

(** C11: how the reader cuts the source text into blocks does not matter: the
    scanner finds in a buffered stream exactly the tokens (or the error) that
    it finds in its contents as one string. *)
Theorem scan_blocks (z : ZIO) (src : bytes) (fuel : nat) :
  zio_ok z ->
  scan_stream fuel z src = scan_stream fuel (Some (contents z) : option bytes) src.
Proof.
  intros Hz. unfold scan_stream.
  assert (Hv : view z = Some (contents z)).
  { cbn. destruct Hz as (_ & Hm & _). by rewrite (proj2 (Z.eqb_neq _ _)) by lia. }
  assert (Hb : Forall is_byte (contents z)) by (apply (view_bytes (Z' := ZIO) z); [by right|done]).
  destruct (setinput_sim (mkToken TK_EOS SNone) z (Some (contents z) : option bytes) src
    (contents z)) as (ls1 & ls2 & -> & -> & Hs); [by right|done..|].
  cbn [mbind outcome_bind]. by apply tokens_sim.
Qed.

Lemma tokens_total {Z' : Type} `{HS : ByteStream Z'} `{HL : !ByteStreamLaws Z'}
    (fuel : nat) (ls : LexState Z') :
  wf ls -> short ls -> (todo ls + (if decide (token (t ls) = TK_EOS) then 1 else 0) < fuel)%nat ->
  post (tokens fuel ls) (fun _ => True).
Proof.
  revert ls. induction fuel as [|fuel IH]; intros ls Hw Hsh Hf; [lia|]. cbn [tokens].
  eapply post_bind; [by apply luaX_next_spec|]. intros [[] ls'] Hn.
  destruct (Z.eqb_spec (token (t ls')) TK_EOS) as [|E]; [done|].
  eapply post_bind; [|done]. apply IH; [apply Hn|by apply (next_short ls)|]. rewrite decide_False by done.
  pose proof (next_todo _ _ Hn). pose proof (next_progress _ _ Hn). case_decide; [lia|].
  assert (todo ls' < todo ls)%nat by auto. lia.
Qed.

(** Scanning a whole text ends: every stream of bytes of which [n] are left,
    fewer than 2^30, gives a list of tokens or a syntax error within [n] + 2 calls. *)
Theorem scan_stream_total {Z' : Type} `{HS : ByteStream Z'} `{HL : !ByteStreamLaws Z'}
    (s : Z') (src r : bytes) :
  stream_ok s -> view s = Some r -> 2 * lenZ r <= INT_MAX ->
  post (scan_stream (S (S (length r))) s src) (fun _ => True).
Proof.
  intros Hs Hv Hr. unfold scan_stream.
  destruct (luaX_setinput_spec (mkToken TK_EOS SNone) s src r) as
    (ls & -> & Hw & Hc & _ & Hla & Ht & _); [done..|].
  cbn [mbind outcome_bind]. apply tokens_total; [done|unfold short, left; by rewrite Hc|].
  unfold todo, left. rewrite Hc, Hla, Ht. cbn [token]. rewrite !decide_True by done. lia.
Qed.

(** C10: the scanner is safe and makes progress on every input of which fewer
    than 2^30 characters are left (with more, the [int] that counts the equal
    signs of a long bracket can overflow, [short]): a call of
    [luaX_next] on a well-formed state ends (within the fuel it computes)
    with a token or a syntax error, never reads the stream after its end nor
    writes outside the token buffer, overflows no [int], leaves a well-formed state, and uses up
    input until the end of the stream is the current token. *)
Theorem luaX_next_safe {Z' : Type} `{HS : ByteStream Z'} `{HL : !ByteStreamLaws Z'}
    (ls : LexState Z') :
  wf ls -> short ls ->
  post (luaX_next ls) (fun '(_, ls') => wf ls' /\
    (token (t ls) <> TK_EOS -> (todo ls' < todo ls)%nat)).
Proof.
  intros Hw Hsh. eapply post_mono; [by apply luaX_next_spec|]. intros [[] ls'] []. done.
Qed.

(** line numbers are right: after any token the line counter has grown by
    the number of line breaks (CR, LF, or a pair of both) in the text read. *)
Theorem luaX_next_lines {Z' : Type} `{HS : ByteStream Z'} `{HL : !ByteStreamLaws Z'}
    (ls : LexState Z') :
  wf ls -> short ls ->
  post (luaX_next ls) (fun '(_, ls') =>
    linenumber ls' - linenumber ls = newlines (chars ls) - newlines (chars ls') /\
    lastline ls' = linenumber ls).
Proof.
  intros Hw Hsh. eapply post_mono; [by apply luaX_next_spec|].
  intros [[] ls'] [? ? ? ? ? ? ? Hl ?]. unfold lines in Hl. split; [lia|done].
Qed.

(** ** Witnesses *)

Definition example_state : LexState (option bytes) :=
  mkLexState 45 1 1 (mkToken TK_NIL SNone) (mkToken TK_EOS SNone)
    (Some [45; 13; 10; 120; 10; 13; 13; 121]) (mkMbuffer [] LUA_MINBUFFER) (str "=t") 46.

Lemma example_state_wf : wf example_state.
Proof.
  split; cbn; try (split; done).
  - split; cbn; [|done]. repeat constructor; unfold is_byte; lia.
  - lia.
Qed.

Lemma luaX_next_safe_witness :
  post (luaX_next example_state) (fun '(_, ls') => wf ls' /\
    (token (t example_state) <> TK_EOS -> (todo ls' < todo example_state)%nat)).
Proof. apply (luaX_next_safe example_state); [apply example_state_wf|by vm_compute]. Defined.

Lemma luaX_next_lines_witness :
  post (luaX_next example_state) (fun '(_, ls') =>
    linenumber ls' - linenumber example_state
      = newlines (chars example_state) - newlines (chars ls') /\
    lastline ls' = linenumber example_state).
Proof. apply (luaX_next_lines example_state); [apply example_state_wf|by vm_compute]. Defined.

Definition two_lines : ZIO := luaZ_init [str "x = "; str "0"].

Lemma two_lines_ok : zio_ok two_lines.
Proof.
  unfold zio_ok, block_ok, is_byte, SIZE_MAX; cbn.
  repeat match goal with |- _ /\ _ => split end; repeat constructor; first [lia|done].
Qed.

Lemma scan_blocks_witness :
  scan_stream 9 two_lines (str "=t") = scan_stream 9 (Some (contents two_lines) : option bytes) (str "=t").
Proof. apply (scan_blocks two_lines (str "=t") 9). apply two_lines_ok. Defined.

Lemma scan_stream_total_witness :
  post (scan_stream 7 two_lines (str "=t")) (fun _ => True).
Proof.
  apply (scan_stream_total two_lines (str "=t") (str "x = 0")); [right; apply two_lines_ok|by vm_compute..].
Defined.
