(* ===== verification/LexWords.v ===== *)
(** * The scanner: words, numerals and the NUL byte

    What [llex] answers on a text that starts with a name, a reserved word or
    an integer numeral. *)

From S2P Require Import Prelude Clib Object Zio Lex LexFacts.

(** ** Names and numerals *)

Section words.
Context {Z' : Type} `{HS : ByteStream Z'} `{HL : !ByteStreamLaws Z'}.
Implicit Types (ls : LexState Z').

Lemma chars_cons ls c r : wf ls -> chars ls = c :: r -> current ls = c /\ is_byte c.
Proof.
intros [[_ Hi] _ _ _ _ _ _]. unfold chars. destruct (view (z ls)); [|done].
by intros [= <- _].
Qed.

Lemma chars_nil ls : wf ls -> chars ls = [] -> current ls = EOZ.
Proof. intros [[_ Hi] _ _ _ _ _ _]. unfold chars. by destruct (view (z ls)). Qed.

(** The rest of the text does not go on with a character of [p]. *)
Definition stops (p : Z -> bool) (rest : bytes) : Prop :=
match rest with c :: _ => p c = false | [] => True end.

Lemma stops_current p ls :
not_eoz p -> wf ls -> stops p (chars ls) -> p (current ls) = false.
Proof.
intros Hp Hw Hs. destruct (chars ls) as [|c r] eqn:Hc.
- rewrite (chars_nil ls Hw Hc). destruct (p EOZ) eqn:E; [|done]. by apply Hp in E.
- destruct (chars_cons ls c r Hw Hc) as [-> _]. done.
Qed.

Lemma save_while_run p fuel ls pre rest :
not_eoz p -> wf ls -> (left ls < fuel)%nat ->
chars ls = pre ++ rest -> Forall (fun c => p c = true) pre -> stops p rest ->
post (save_while p fuel ls) (fun '(_, ls') => ext ls ls' /\ chars ls' = rest /\
  buffer (buff ls') = buffer (buff ls) ++ pre).
Proof.
intros Hp. revert ls pre. induction fuel as [|fuel IH]; intros ls pre Hw Hf Hc Hpre Hs; [lia|].
cbn [save_while]. st_simpl. destruct pre as [|c pre].
- rewrite stops_current by (try done; by rewrite Hc). st_simpl.
  rewrite app_nil_r. auto with lua.
- destruct (chars_cons ls c (pre ++ rest) Hw Hc) as [Hcu Hb]. rewrite Hcu.
  apply Forall_cons_1 in Hpre. destruct Hpre as [Hpc Hpre]. rewrite Hpc.
  eapply st_post_bind; [apply save_and_next_spec; [done|rewrite Hcu; by apply Hp]|].
  intros [] ls1 (He & Hl & Hbu & _ & Hch). rewrite Hc, Hcu in Hch. injection Hch as Hch.
  eapply post_mono; [apply (IH ls1 pre); [eauto with lua|lia|done..]|].
  intros [[] ls2] (He2 & Hc2 & Hb2). split_and!; [eauto with lua|done|].
  rewrite Hb2, Hbu, Hcu, u8_small, <- app_assoc by done. done.
Qed.

Lemma buffreplace_dot ls : buffreplace 46 46 ls = Ret (tt, ls).
Proof.
assert (Hid : forall b : bytes, (fun c : Z => if c =? 46 then 46 else c) <$> b = b).
{ induction b as [|c b IH]; cbn; [done|]. rewrite IH. f_equal. case_if; bool_facts; lia. }
unfold buffreplace, modify. rewrite Hid. by destruct ls as [? ? ? ? ? ? [] ? ?].
Qed.

Definition is_name (ts : bytes) : Prop :=
match ts with
| c :: r => is_name_char c = true /\ Forall (fun c => isalnum_ c = true) r
| [] => False
end.

(** The reserved words of the language and their tokens *)
Definition keywords : list (bytes * Z) :=
[(str "and", TK_AND); (str "break", TK_BREAK); (str "do", TK_DO); (str "else", TK_ELSE);
 (str "elseif", TK_ELSEIF); (str "end", TK_END); (str "false", TK_FALSE); (str "for", TK_FOR);
 (str "function", TK_FUNCTION); (str "if", TK_IF); (str "in", TK_IN); (str "local", TK_LOCAL);
 (str "nil", TK_NIL); (str "not", TK_NOT); (str "or", TK_OR); (str "repeat", TK_REPEAT);
 (str "return", TK_RETURN); (str "then", TK_THEN); (str "true", TK_TRUE); (str "until", TK_UNTIL);
 (str "while", TK_WHILE)].

(** The token of a word *)
Definition word_token (ts : bytes) (sem : SemInfo) : Z * SemInfo :=
match list_find (fun w => w.1 = ts) keywords with
| Some (_, (_, tk)) => (tk, sem)
| None => (TK_NAME, SString ts)
end.

Lemma luaX_init_find (l : list (bytes * Z)) i ts :
luaX_init (fst <$> l) i ts =
  match list_find (fun w => w.1 = ts) l with Some (j, _) => i + Z.of_nat j + 1 | None => 0 end.
Proof.
revert i. induction l as [|[w tk] l IH]; intros i; [done|]. cbn. case_decide; [lia|].
rewrite IH. destruct (list_find _ l) as [[j x]|]; cbn; [lia|done].
Qed.

(** The place of a word in luaX_tokens gives its token. *)
Lemma word_token_reserved ts sem :
word_token ts sem = if 0 <? reserved ts then (reserved ts - 1 + FIRST_RESERVED, sem) else (TK_NAME, SString ts).
Proof.
unfold word_token, reserved.
replace (take (Z.to_nat NUM_RESERVED) luaX_tokens) with (fst <$> keywords) by by vm_compute.
rewrite luaX_init_find. destruct (list_find _ keywords) as [[j [w tk]]|] eqn:Hf; [|done].
apply list_find_Some in Hf as (Hj & _ & _).
assert (Hs : snd <$> keywords = seqZ FIRST_RESERVED 21) by by vm_compute.
assert (Hk : (snd <$> keywords) !! j = Some tk) by (by rewrite list_lookup_fmap, Hj).
rewrite Hs in Hk. apply lookup_seqZ in Hk as [-> _].
rewrite (proj2 (Z.ltb_lt _ _)) by lia. f_equal. lia.
Qed.

Lemma name_char_facts c :
is_name_char c = true ->
97 <= c <= 122 \/ 65 <= c <= 90 \/ c = 95.
Proof.
unfold is_name_char, isalpha, islower, isupper. change (ch "_") with 95. intros Hc.
apply orb_true_iff in Hc as [Hc|Hc]; bool_facts; [|lia].
apply orb_true_iff in Hc as [Hc|Hc]; bool_facts; lia.
Qed.

Lemma llex_step_name sem ls :
is_name_char (current ls) = true ->
llex_step sem ls = (save_and_next;;
  save_while isalnum_ (rounds ls);;
  b ← gets buff;
  ts ← luaX_newstring 0 (luaZ_bufflen b);
  if 0 <? reserved ts then mret (Some (reserved ts - 1 + FIRST_RESERVED, sem))
  else mret (Some (TK_NAME, SString ts))) ls.
Proof.
intros Hc. pose proof (name_char_facts _ Hc). unfold llex_step. st_simpl.
unfold NL, CR, EOZ. change (ch "-") with 45. change (ch "[") with 91. change (ch "=") with 61.
change (ch "<") with 60. change (ch ">") with 62. change (ch "~") with 126.
change (ch "'") with 39. change (ch ".") with 46.
rewrite !(proj2 (Z.eqb_neq (current ls) _)) by lia. cbn [orb].
assert (isspace (current ls) = false) as -> by (unfold isspace; lia).
assert (isdigit (current ls) = false) as -> by (unfold isdigit; lia).
by rewrite Hc.
Qed.

Lemma take_all {A} (l : list A) : take (Z.to_nat (lenZ l)) l = l.
Proof. apply take_ge. unfold lenZ. lia. Qed.

Lemma newstring_all ls : luaX_newstring 0 (luaZ_bufflen (buff ls)) ls = Ret (buffer (buff ls), ls).
Proof.
unfold luaX_newstring, slice, luaZ_bufflen. st_simpl.
rewrite (proj2 (Z.leb_le _ _)) by lia. pose proof (lenZ_nonneg (buffer (buff ls))).
rewrite !(proj2 (Z.leb_le _ _)) by lia. cbn [andb]. unfold lift. by rewrite drop_0, take_all.
Qed.

(** [llex] from the first character of a token that is not skipped *)
Lemma llex_first sem ls (Q : (Z * SemInfo) * LexState Z' -> Prop) :
wf ls ->
(forall ls1, wf ls1 -> chars ls1 = chars ls -> current ls1 = current ls ->
   buffer (buff ls1) = [] ->
   post (llex_step sem ls1) (fun '(r, ls') => exists x, r = Some x /\ Q (x, ls'))) ->
post (llex sem ls) Q.
Proof.
intros Hw Hstep. unfold llex.
pose proof (resetbuffer_spec ls Hw) as Hr.
eapply (st_post_bind _ _ _ (fun '(_, ls1) =>
  ls1 = set_buff (luaZ_resetbuffer (buff ls)) ls)); [done|].
intros [] ls1 ->. cbn in Hr. destruct Hr as ([] & _ & _). st_simpl. cbn [llex_loop].
eapply st_post_bind; [by apply Hstep|]. by intros r ls2 (x & -> & HQ).
Qed.

(** C12: words are scanned right: on a text that starts with a name (a letter or
  underscore followed by letters, digits and underscores), [llex] stops
  just after it and answers its token when it is one of the 21 reserved words
  ([keywords] pairs each with its token: and with TK_AND, break with
  TK_BREAK, ...) and TK_NAME with the name itself otherwise. *)
Theorem llex_word sem ls ts rest :
wf ls -> chars ls = ts ++ rest -> is_name ts -> stops isalnum_ rest ->
post (llex sem ls) (fun '(r, ls') => r = word_token ts sem /\ chars ls' = rest).
Proof.
intros Hw Hc Hn Hs. apply llex_first; [done|]. intros ls1 Hw1 Hc1 _ Hb1.
rewrite Hc in Hc1. destruct ts as [|c ts]; [done|]. destruct Hn as [Hnc Hts].
destruct (chars_cons ls1 c (ts ++ rest) Hw1 Hc1) as [Hcu Hby].
rewrite llex_step_name by by rewrite Hcu. pose proof (name_char_facts c Hnc).
eapply st_post_bind; [apply save_and_next_spec; [done|]|].
{ rewrite Hcu. apply plain_intro; [unfold EOZ; lia|]. unfold NL, CR. lia. }
intros [] ls2 (H2 & Hl2 & Hb2 & _ & Hc2). rewrite Hc1, Hcu in Hc2. injection Hc2 as Hc2.
eapply st_post_bind; [apply (save_while_run _ _ _ ts rest); try done;
  [apply isalnum_not_eoz|eauto with lua|rewrite left_rounds; lia]|].
intros [] ls3 (H3 & Hc3 & Hb3). st_simpl.
rewrite (st_bind_eq _ _ _ _ _ (newstring_all ls3)).
rewrite Hb3, Hb2, Hb1, Hcu, u8_small by done. cbn [app].
rewrite word_token_reserved. case_if; st_simpl; eauto.
Qed.

Definition is_numeral_char (c : Z) : bool := isalnum_ c || (c =? ch ".") || (c =? 0).

Lemma llex_step_digit sem ls :
isdigit (current ls) = true ->
llex_step sem ls = (r ← read_numeral; mret (Some (TK_NUMBER, SNumber r))) ls.
Proof.
intros Hd. assert (48 <= current ls <= 57) by (unfold isdigit in Hd; lia).
unfold llex_step. st_simpl.
unfold NL, CR, EOZ. change (ch "-") with 45. change (ch "[") with 91. change (ch "=") with 61.
change (ch "<") with 60. change (ch ">") with 62. change (ch "~") with 126.
change (ch "'") with 39. change (ch ".") with 46.
rewrite !(proj2 (Z.eqb_neq (current ls) _)) by lia. cbn [orb].
assert (isspace (current ls) = false) as -> by (unfold isspace; lia).
by rewrite Hd.
Qed.

(** No exponent mark where a numeral stops *)
Lemma check_exponent ls :
wf ls -> stops is_numeral_char (chars ls) -> check_next (str "Ee") ls = Ret (false, ls).
Proof.
intros Hw Hs. unfold check_next. st_simpl.
assert (strchr (str "Ee") (u8 (current ls)) = false) as ->; [|done].
destruct (chars ls) as [|c r] eqn:Hc; [by rewrite (chars_nil ls Hw Hc)|].
destruct (chars_cons ls c r Hw Hc) as [-> Hby]. rewrite u8_small by done.
cbn [stops] in Hs. unfold is_numeral_char, isalnum_, isalnum, isalpha, islower, isupper in Hs.
bool_facts. unfold strchr. change (cstr (str "Ee")) with [69; 101].
cbn [existsb]. lia.
Qed.

Lemma str2d_cstr s s' : cstr s = cstr s' -> luaO_str2d s = luaO_str2d s'.
Proof. unfold luaO_str2d, strtod, strtoul, strlen. by intros ->. Qed.

Lemma str2d_digits_nul n : 0 <= n -> luaO_str2d (digits n ++ [0]) = Some (cast_num n).
Proof.
intros Hn. rewrite <- (str2d_digits n Hn). apply str2d_cstr.
destruct (digits_spec n Hn) as (Ha & _). rewrite cstr_app_digits by done.
rewrite <- (app_nil_r (digits n)) at 2. by rewrite cstr_app_digits.
Qed.

Lemma stops_weaken (p q : Z -> bool) rest :
(forall c, p c = true -> q c = true) -> stops q rest -> stops p rest.
Proof.
intros Hpq. destruct rest as [|c rest]; [done|]. cbn [stops]. intros Hq.
destruct (p c) eqn:E; [|done]. apply Hpq in E. congruence.
Qed.

Lemma read_numeral_integer ls1 n rest :
wf ls1 -> 0 <= n -> chars ls1 = digits n ++ rest -> stops is_numeral_char rest ->
buffer (buff ls1) = [] ->
post (read_numeral ls1) (fun '(r, ls') => r = cast_num n /\ chars ls' = rest).
Proof.
intros Hw1 Hn Hc1 Hs Hb1.
pose proof (str2d_digits_nul n Hn) as Hval. destruct (digits_spec n Hn) as (Ha & _ & Hlen).
destruct (digits n) as [|d ds]; [done|].
destruct (chars_cons ls1 d (ds ++ rest) Hw1 Hc1) as [Hcu Hby].
apply Forall_cons_1 in Ha. destruct Ha as [Hd Hds]. unfold read_numeral. st_simpl.
eapply st_post_bind;
  [apply save_and_next_spec; [done|by rewrite Hcu; apply isdigit_not_eoz]|].
intros [] ls2 (H2 & Hl2 & Hb2 & _ & Hc2). rewrite Hc1, Hcu in Hc2. injection Hc2 as Hc2.
eapply st_post_bind; [apply (save_while_run _ _ _ ds rest); try done;
  [by apply not_eoz_intro|eauto with lua|rewrite left_rounds; lia| |]|].
{ eapply Forall_impl; [|exact Hds]. intros c Hdc. cbv beta in *. apply orb_true_iff. by left. }
{ eapply stops_weaken; [|done]. unfold is_numeral_char, isalnum_, isalnum. intros c Hdc.
  apply orb_true_iff in Hdc as [-> | ->]; by rewrite ?orb_true_r. }
intros [] ls3 (H3 & Hc3 & Hb3). assert (Hw3 : wf ls3) by eauto with lua.
rewrite (st_bind_eq _ _ _ _ _ (check_exponent ls3 Hw3 ltac:(by rewrite Hc3))).
st_simpl. eapply st_post_bind; [apply (save_while_run _ _ _ [] rest); try done;
  [apply isalnum_not_eoz| |]|].
{ rewrite left_rounds. unfold left. rewrite Hc1, Hc3. cbn. rewrite length_app. lia. }
{ eapply stops_weaken; [|done]. unfold is_numeral_char. by intros c ->. }
intros [] ls4 (H4 & Hc4 & Hb4).
eapply st_post_bind; [apply save_ext; eauto with lua|].
intros [] ls5 (H5 & _ & _ & _ & Hb5 & Hc5). st_simpl.
assert (Hw5 : wf ls5) by eauto with lua.
rewrite (wf_decpoint _ Hw5).
rewrite (st_bind_eq _ _ _ _ _ (buffreplace_dot ls5)). st_simpl.
rewrite Hb5, Hb4, Hb3, Hb2, Hb1, Hcu, u8_small, app_nil_r by done. cbn [app] in *.
change (u8 0) with 0. rewrite Hval. st_simpl. split; [done|congruence].
Qed.

(** Integer numerals are scanned right: a text that starts with the
  decimal digits of [n] gives the token TK_NUMBER with the value of [n] as
  a Lua number, and scanning goes on just after the digits. *)
Theorem llex_integer sem ls n rest :
wf ls -> 0 <= n -> chars ls = digits n ++ rest -> stops is_numeral_char rest ->
post (llex sem ls) (fun '(r, ls') => r = (TK_NUMBER, SNumber (cast_num n)) /\
  chars ls' = rest).
Proof.
intros Hw Hn Hc Hs. apply llex_first; [done|]. intros ls1 Hw1 Hc1 _ Hb1.
rewrite Hc in Hc1.
assert (Hd : isdigit (current ls1) = true).
{ destruct (digits_spec n Hn) as (Ha & _ & Hlen). destruct (digits n) as [|d ds]; [done|].
  destruct (chars_cons ls1 d (ds ++ rest) Hw1 Hc1) as [-> _]. by apply Forall_inv in Ha. }
rewrite llex_step_digit by done.
eapply st_post_bind; [by apply read_numeral_integer|].
intros r ls2 [-> Hc2]. st_simpl. eauto.
Qed.
End words.

(** a NUL byte is taken for a character of a token: [strchr] finds the
    terminator of the set that [check_next] searches, so a full stop followed
    by a NUL is scanned as the operator [..] (and a NUL ends as an exponent
    mark inside a numeral). *)
Theorem check_next_nul :
  scan_tokens [97; 46; 0; 98] = Ret [TK_NAME; TK_CONCAT; TK_NAME] /\
  scan_tokens [97; 46; 46; 98] = Ret [TK_NAME; TK_CONCAT; TK_NAME].
Proof. split; vm_compute; reflexivity. Qed.

Definition words_state : LexState (option bytes) :=
  mkLexState 97 1 1 (mkToken TK_NIL SNone) (mkToken TK_EOS SNone)
    (Some [110; 100; 121; 32]) (mkMbuffer [] LUA_MINBUFFER) (str "=t") 46.

Definition digits_state : LexState (option bytes) :=
  mkLexState 52 1 1 (mkToken TK_NIL SNone) (mkToken TK_EOS SNone)
    (Some [50; 43]) (mkMbuffer [] LUA_MINBUFFER) (str "=t") 46.

Ltac state_wf :=
  split; cbn; try (split; done); try lia; try done;
  split; cbn; repeat constructor; unfold is_byte; try lia.

Lemma llex_word_witness :
  post (llex SNone words_state) (fun '(r, ls') =>
    r = word_token (str "andy") SNone /\ chars ls' = [32]).
Proof.
  apply (llex_word SNone words_state (str "andy") [32]); [state_wf|done| |done].
  split; [done|]. repeat constructor.
Defined.

Lemma llex_integer_witness :
  post (llex SNone digits_state) (fun '(r, ls') =>
    r = (TK_NUMBER, SNumber (cast_num 42)) /\ chars ls' = [43]).
Proof.
  apply (llex_integer SNone digits_state 42 [43]); [state_wf|lia|done|done].
Defined.
