(* ===== verification/Dump.v ===== *)
(** * Precompiled chunks (ldump.c, lundump.c, lundump.h)

    The byte format on a little-endian machine with 4-byte [int], 8-byte
    [size_t], 4-byte instructions and IEEE double numbers, as the header of a
    chunk says.  Strings are interned, so the comparison of source pointers
    is a comparison of strings.  The memory allocator never fails. *)

From S2P Require Import Prelude Clib Opcodes Object Zio Debug.

(** ** The bytes of C values *)

Fixpoint le (n : nat) (x : Z) : bytes :=
  match n with
  | O => []
  | S n => x mod 256 :: le n (x / 256)
  end.

Fixpoint of_le (b : bytes) : Z :=
  match b with
  | [] => 0
  | c :: b => c + 256 * of_le b
  end.

Definition sizeof_int : Z := 4.
Definition sizeof_size_t : Z := 8.
Definition sizeof_Instruction : Z := 4.
Definition sizeof_lua_Number : Z := 8.

(** The 64 bits of a double; the model has one NaN. *)
Definition double_bits (x : lua_Number) : Z :=
  let sign (s : bool) := if s then 2 ^ 63 else 0 in
  match x with
  | S754_zero s => sign s
  | S754_infinity s => sign s + 2047 * 2 ^ 52
  | S754_nan => 2047 * 2 ^ 52 + 2 ^ 51
  | S754_finite s m e =>
      if Z.pos m <? 2 ^ 52 then sign s + Z.pos m
      else sign s + (e + 1075) * 2 ^ 52 + (Z.pos m - 2 ^ 52)
  end.

Definition bits_double (x : Z) : lua_Number :=
  let s := 2 ^ 63 <=? x in
  let y := x mod 2 ^ 63 in
  let e := y / 2 ^ 52 in
  let m := y mod 2 ^ 52 in
  if e =? 0 then
    match m with Z.pos p => S754_finite s p (-1074) | _ => S754_zero s end
  else if e =? 2047 then if m =? 0 then S754_infinity s else S754_nan
  else match m + 2 ^ 52 with Z.pos p => S754_finite s p (e - 1075) | _ => S754_zero s end.

(** ** ldump.c *)

(** The host's [lua_Writer] with its data: a status and the new data *)
Class Writer (W : Type) := write : W -> bytes -> Z * W.

Section dump.
Context {W : Type} `{Writer W}.

Record DumpState := mkDumpState { data : W; strip : bool; status : Z }.

Definition DumpBlock (b : bytes) (D : DumpState) : DumpState :=
  if status D =? 0 then
    let '(st, d) := write (data D) b in mkDumpState d (strip D) st
  else D.

Definition DumpChar (y : Z) : DumpState -> DumpState := DumpBlock [u8 y].

Definition DumpInt (x : Z) : DumpState -> DumpState := DumpBlock (le 4 (u32 x)).

Definition DumpSize (x : Z) : DumpState -> DumpState := DumpBlock (le 8 x).

Definition DumpNumber (x : lua_Number) : DumpState -> DumpState := DumpBlock (le 8 (double_bits x)).

(** Vectors are of 4-byte words: instructions and line numbers. *)
Definition DumpVector (b : list Z) (D : DumpState) : DumpState :=
  DumpBlock (concat (le 4 ∘ u32 <$> b)) (DumpInt (lenZ b) D).

Definition DumpString (s : option bytes) (D : DumpState) : DumpState :=
  match s with
  | None => DumpSize 0 D
  | Some s => DumpBlock (s ++ [0]) (DumpSize (lenZ s + 1) D)
  end.

Definition DumpCode (f : Proto) : DumpState -> DumpState := DumpVector (code f).

Definition DumpConstant (o : TValue) (D : DumpState) : DumpState :=
  let D := DumpChar (ttype o) D in
  match o with
  | VBoolean b => DumpChar b D
  | VNumber n => DumpNumber n D
  | VString s => DumpString (Some s) D
  | VNullString => DumpString None D
  | _ => D
  end.

(** [for (i=0; i<n; i++) dump(l[i])] *)
Definition dump_each {A} (dump : A -> DumpState -> DumpState) (l : list A) (D : DumpState)
    : DumpState := foldl (fun D x => dump x D) D l.

Definition DumpLocVar (v : LocVar) (D : DumpState) : DumpState :=
  DumpInt (endpc v) (DumpInt (startpc v) (DumpString (varname v) D)).

Definition DumpDebug (f : Proto) (D : DumpState) : DumpState :=
  let D := DumpVector (if strip D then [] else lineinfo f) D in
  let vars := if strip D then [] else locvars f in
  let D := dump_each DumpLocVar vars (DumpInt (lenZ vars) D) in
  let ups := if strip D then [] else upvalues f in
  dump_each DumpString ups (DumpInt (lenZ ups) D).

Fixpoint DumpFunction (f : Proto) (parent : option bytes) (D : DumpState) : DumpState :=
  let D := DumpString (if bool_decide (source f = parent) || strip D then None else source f) D in
  let D := DumpInt (linedefined f) D in
  let D := DumpInt (lastlinedefined f) D in
  let D := DumpChar (nups f) D in
  let D := DumpChar (numparams f) D in
  let D := DumpChar (is_vararg f) D in
  let D := DumpChar (maxstacksize f) D in
  let D := DumpCode f D in
  let D := dump_each DumpConstant (k f) (DumpInt (sizek f) D) in
  let D := (fix each (l : list Proto) D :=
              match l with
              | [] => D
              | g :: l => each l (DumpFunction g (source f) D)
              end) (p f) (DumpInt (sizep f) D) in
  DumpDebug f D.

Definition LUA_SIGNATURE : bytes := 27 :: str "Lua".
Definition LUAC_VERSION : Z := 81.
Definition LUAC_FORMAT : Z := 0.
Definition LUAC_HEADERSIZE : Z := 12.

(** [luaU_header]: the second byte group describes this machine. *)
Definition luaU_header : bytes :=
  LUA_SIGNATURE ++
  [LUAC_VERSION; LUAC_FORMAT; 1; sizeof_int; sizeof_size_t; sizeof_Instruction;
   sizeof_lua_Number; 0].

Definition DumpHeader : DumpState -> DumpState := DumpBlock luaU_header.

Definition luaU_dump (f : Proto) (d : W) (strip : bool) : DumpState :=
  DumpFunction f None (DumpHeader (mkDumpState d strip 0)).
End dump.

(** The writer of [string.dump]: it adds to a buffer and never fails. *)
#[export] Instance buffer_writer : Writer bytes := fun d b => (0, d ++ b).

(** ** lundump.c *)

Record LoadState := mkLoadState { nCcalls : Z; stream : ZIO; name : bytes }.

Abbreviation Load := (ST LoadState).

Definition load_error {A} (why : bytes) : Load A := fun S =>
  Throw LUA_ERRSYNTAX (cstr (name S) ++ str ": " ++ why ++ str " in precompiled chunk").

(** [LoadBlock]: [size] bytes into the caller's memory *)
Definition LoadBlock (size : Z) : Load bytes := fun S =>
  '(b, r, z) ← luaZ_read (stream S) size;
  let S := mkLoadState (nCcalls S) z (name S) in
  if negb (r =? 0) then load_error (str "unexpected end") S else Ret (b, S).

(** A signed [char] *)
Definition LoadChar : Load Z := b ← LoadBlock 1; mret (s8 (of_le b)).

Definition LoadByte : Load Z := c ← LoadChar; mret (u8 c).

Definition LoadInt : Load Z :=
  b ← LoadBlock sizeof_int;
  let x := i32 (of_le b) in
  if x <? 0 then load_error (str "bad integer") else mret x.

Definition LoadNumber : Load lua_Number :=
  b ← LoadBlock sizeof_lua_Number; mret (bits_double (of_le b)).

Definition LoadString : Load (option bytes) :=
  b ← LoadBlock sizeof_size_t;
  let size := of_le b in
  if size =? 0 then mret None
  else s ← LoadBlock size; mret (Some (take (Z.to_nat (size - 1)) s)).

(** The words of a block *)
Fixpoint words (n : nat) (b : bytes) : list Z :=
  match n with
  | O => []
  | S n => of_le (take 4 b) :: words n (drop 4 b)
  end.

Definition LoadCode : Load (list Z) :=
  n ← LoadInt;
  b ← LoadBlock (n * sizeof_Instruction);
  mret (words (Z.to_nat n) b).

Definition LoadConstant : Load TValue :=
  t ← LoadChar;
  if t =? LUA_TNIL then mret VNil
  else if t =? LUA_TBOOLEAN then c ← LoadChar; mret (VBoolean (if c =? 0 then 0 else 1))
  else if t =? LUA_TNUMBER then n ← LoadNumber; mret (VNumber n)
  else if t =? LUA_TSTRING then
    s ← LoadString; mret (match s with Some s => VString s | None => VNullString end)
  else load_error (str "bad constant").

(** [for (i=0; i<n; i++) l[i] = load] *)
Fixpoint load_each {A} (load : Load A) (n : nat) : Load (list A) :=
  match n with
  | O => mret []
  | S n => x ← load; l ← load_each load n; mret (x :: l)
  end.

Definition LoadLocVar : Load LocVar :=
  v ← LoadString; s ← LoadInt; e ← LoadInt; mret (mkLocVar v s e).

(** Line information, local variables and upvalue names *)
Definition LoadDebug : Load (list Z * list LocVar * list (option bytes)) :=
  n ← LoadInt;
  b ← LoadBlock (n * sizeof_int);
  let lines := i32 <$> words (Z.to_nat n) b in
  n ← LoadInt;
  vars ← load_each LoadLocVar (Z.to_nat n);
  n ← LoadInt;
  ups ← load_each LoadString (Z.to_nat n);
  mret (lines, vars, ups).

(** The nesting is bounded by [LUAI_MAXCCALLS], so that many levels are
    enough. *)
Fixpoint LoadFunction (fuel : nat) (parent : option bytes) : Load Proto :=
  modify (fun S => mkLoadState (nCcalls S + 1) (stream S) (name S));;
  n ← gets nCcalls;
  if LUAI_MAXCCALLS <? n then load_error (str "code too deep")
  else
    match fuel with
    | O => nofuel
    | S fuel =>
        src ← LoadString;
        let src := match src with None => parent | Some s => Some s end in
        linedefined ← LoadInt;
        lastlinedefined ← LoadInt;
        nups ← LoadByte;
        numparams ← LoadByte;
        is_vararg ← LoadByte;
        maxstacksize ← LoadByte;
        code ← LoadCode;
        n ← LoadInt;
        k ← load_each LoadConstant (Z.to_nat n);
        n ← LoadInt;
        p ← load_each (LoadFunction fuel src) (Z.to_nat n);
        '(lines, vars, ups) ← LoadDebug;
        let f := mkProto k code p lines vars ups src linedefined lastlinedefined
                   nups numparams is_vararg maxstacksize in
        ok ← lift (luaG_checkcode f);
        (if negb (ok : bool) then load_error (str "bad code") else mret tt);;
        modify (fun S => mkLoadState (nCcalls S - 1) (stream S) (name S));;
        mret f
    end.

Definition LoadHeader : Load unit :=
  s ← LoadBlock LUAC_HEADERSIZE;
  if negb (bool_decide (s = luaU_header)) then load_error (str "bad header") else mret tt.

(** The name of the chunk in error messages *)
Definition chunk_name (name : bytes) : bytes :=
  let c := firstc name in
  if (c =? 64) || (c =? 61) then drop 1 name
  else if c =? 27 then str "binary string"
  else name.

Definition luaU_undump (nCcalls : Z) (Z : ZIO) (name : bytes) : outcome (Proto * LoadState) :=
  (LoadHeader;;
   LoadFunction (Z.to_nat LUAI_MAXCCALLS) (Some (str "=?")))
  (mkLoadState nCcalls Z (chunk_name name)).
