(* ===== verification/DumpFacts.v ===== *)
(** * Precompiled chunks: round trip and safety

    Loading what was dumped gives the function back, without its debug
    information if it was stripped; the loader is total and
    safe on every input and answers only functions that the verifier accepts;
    a truncated chunk is rejected. *)

From S2P Require Import Prelude Clib Opcodes Object Zio Debug Dump.

(** ** Bytes *)

Lemma length_le n x : length (le n x) = n.
Proof. revert x. induction n; intros x; cbn; [done|]. by rewrite IHn. Qed.

Lemma lenZ_le n x : lenZ (le n x) = Z.of_nat n.
Proof. unfold lenZ. by rewrite length_le. Qed.

Lemma le_bytes n x : Forall is_byte (le n x).
Proof.
  revert x. induction n; intros x; cbn; constructor; [|done].
  apply Z.mod_pos_bound. lia.
Qed.

Lemma of_le_le n x : of_le (le n x) = x mod 256 ^ Z.of_nat n.
Proof.
  revert x. induction n as [|n IH]; intros x; cbn [le of_le].
  - cbn. by rewrite Z.mod_1_r.
  - rewrite IH, Nat2Z.inj_succ, Z.pow_succ_r by lia.
    assert (0 < 256 ^ Z.of_nat n) by (apply Z.pow_pos_nonneg; lia).
    by rewrite (Z.rem_mul_r x 256) by lia.
Qed.

Lemma of_le_range b : Forall is_byte b -> 0 <= of_le b < 256 ^ lenZ b.
Proof.
  induction 1 as [|c b Hc _ IH]; [change (lenZ []) with 0; cbn; lia|].
  cbn [of_le]. rewrite lenZ_cons.
  pose proof (lenZ_nonneg b). rewrite Z.pow_add_r by lia. unfold is_byte in Hc. lia.
Qed.

(** ** Doubles *)

Lemma digits2_pos_bounds m :
  2 ^ (Z.pos (digits2_pos m) - 1) <= Z.pos m < 2 ^ Z.pos (digits2_pos m).
Proof.
  induction m as [m IH|m IH|]; cbn [digits2_pos]; [| |lia];
    rewrite Pos2Z.inj_succ; unfold Z.succ; rewrite Z.add_simpl_r;
    assert (H : 2 ^ (Z.pos (digits2_pos m) + 1) = 2 * 2 ^ Z.pos (digits2_pos m))
      by (rewrite Z.pow_add_r by lia; lia);
    assert (H' : 2 ^ Z.pos (digits2_pos m) = 2 * 2 ^ (Z.pos (digits2_pos m) - 1))
      by (rewrite <- Z.pow_succ_r by lia; f_equal; lia); lia.
Qed.

(** The mantissa and exponent of a double *)
Lemma valid_double s m e :
  valid_binary prec emax (S754_finite s m e) = true ->
  Z.pos m < 2 ^ 53 /\ -1074 <= e <= 971 /\ (2 ^ 52 <= Z.pos m \/ e = -1074).
Proof.
  cbn. unfold bounded, canonical_mantissa, fexp, emin, prec, emax. intros Hv. bool_facts.
  pose proof (digits2_pos_bounds m). destruct (Z.max_spec (Z.pos (digits2_pos m) + e - 53) (3 - 1024 - 53)).
  - assert (e = -1074) as -> by lia. split; [|lia].
    assert (Z.pos (digits2_pos m) <= 53) by lia.
    assert (2 ^ Z.pos (digits2_pos m) <= 2 ^ 53) by (apply Z.pow_le_mono_r; lia). lia.
  - assert (Z.pos (digits2_pos m) = 53) as Hd by lia. rewrite Hd in *. lia.
Qed.

Lemma double_bits_range x :
  valid_binary prec emax x = true -> 0 <= double_bits x < 2 ^ 64.
Proof.
  intros Hv. unfold double_bits. destruct x as [s|s| |s m e].
  - destruct s; lia.
  - destruct s; lia.
  - lia.
  - destruct (valid_double s m e Hv) as (Hm & He & Hor).
    destruct (Z.ltb_spec (Z.pos m) (2 ^ 52)); destruct s; lia.
Qed.

Lemma bits_double_bits x :
  valid_binary prec emax x = true -> bits_double (double_bits x) = x.
Proof.
  intros Hv. destruct x as [s|s| |s m e].
  - by destruct s.
  - by destruct s.
  - done.
  - destruct (valid_double s m e Hv) as (Hm & He & Hor). unfold double_bits.
    set (v := if Z.pos m <? 2 ^ 52 then _ else _).
    set (y := if Z.pos m <? 2 ^ 52 then Z.pos m
              else (e + 1075) * 2 ^ 52 + (Z.pos m - 2 ^ 52)).
    assert (Hy : 0 <= y < 2 ^ 63 /\ v = (if s then 2 ^ 63 else 0) + y).
    { unfold v, y. destruct (Z.ltb_spec (Z.pos m) (2 ^ 52)); destruct s; lia. }
    destruct Hy as [Hy ->]. unfold bits_double.
    assert ((2 ^ 63 <=? (if s then 2 ^ 63 else 0) + y) = s) as -> by (destruct s; lia).
    assert (((if s then 2 ^ 63 else 0) + y) mod 2 ^ 63 = y) as ->.
    { destruct s; [|by apply Z.mod_small].
      replace (2 ^ 63 + y) with (y + 1 * 2 ^ 63) by lia.
      rewrite Z.mod_add by lia. by apply Z.mod_small. }
    unfold y. destruct (Z.ltb_spec (Z.pos m) (2 ^ 52)).
    + rewrite Z.div_small, Z.mod_small by lia. cbn [Z.eqb]. f_equal. lia.
    + rewrite Z.div_add_l by lia. rewrite Z.div_small by lia. rewrite Z.add_0_r.
      assert (((e + 1075) * 2 ^ 52 + (Z.pos m - 2 ^ 52)) mod 2 ^ 52 = Z.pos m - 2 ^ 52) as ->
        by (rewrite Z.add_comm, Z.mod_add, Z.mod_small by lia; done).
      rewrite !(proj2 (Z.eqb_neq (e + 1075) _)) by lia.
      rewrite Z.sub_add. f_equal. lia.
Qed.

(** ** The bytes of a dump

    [enc_function] is the chunk as a plain function of the prototype. *)

Definition enc_int (x : Z) : bytes := le 4 (u32 x).

Definition enc_vector (b : list Z) : bytes := enc_int (lenZ b) ++ concat (le 4 ∘ u32 <$> b).

Definition enc_string (s : option bytes) : bytes :=
  match s with
  | None => le 8 0
  | Some s => le 8 (lenZ s + 1) ++ s ++ [0]
  end.

Definition enc_constant (o : TValue) : bytes :=
  u8 (ttype o) ::
  match o with
  | VBoolean b => [u8 b]
  | VNumber n => le 8 (double_bits n)
  | VString s => enc_string (Some s)
  | VNullString => enc_string None
  | _ => []
  end.

Definition enc_locvar (v : LocVar) : bytes :=
  enc_string (varname v) ++ enc_int (startpc v) ++ enc_int (endpc v).

Definition enc_list {A} (enc : A -> bytes) (l : list A) : bytes :=
  enc_int (lenZ l) ++ concat (enc <$> l).

Definition enc_debug (strip : bool) (f : Proto) : bytes :=
  if strip then enc_int 0 ++ enc_int 0 ++ enc_int 0
  else enc_vector (lineinfo f) ++ enc_list enc_locvar (locvars f) ++
       enc_list enc_string (upvalues f).

Definition enc_source (strip : bool) (parent : option bytes) (f : Proto) : bytes :=
  enc_string (if bool_decide (source f = parent) || strip then None else source f).

Fixpoint enc_function (strip : bool) (parent : option bytes) (f : Proto) : bytes :=
  enc_source strip parent f ++ enc_int (linedefined f) ++ enc_int (lastlinedefined f) ++
  [u8 (nups f); u8 (numparams f); u8 (is_vararg f); u8 (maxstacksize f)] ++
  enc_vector (code f) ++ enc_list enc_constant (k f) ++
  (enc_int (sizep f) ++ concat (map (enc_function strip (source f)) (p f))) ++
  enc_debug strip f.

Lemma enc_function_eq st parent f :
  enc_function st parent f =
  enc_source st parent f ++ enc_int (linedefined f) ++ enc_int (lastlinedefined f) ++
  [u8 (nups f)] ++ [u8 (numparams f)] ++ [u8 (is_vararg f)] ++ [u8 (maxstacksize f)] ++
  enc_vector (code f) ++ enc_list enc_constant (k f) ++
  enc_int (sizep f) ++ concat (enc_function st (source f) <$> p f) ++ enc_debug st f.
Proof.
  destruct f. cbn [enc_function]. by rewrite <- (app_assoc (enc_int _) (concat _)).
Qed.

Definition emits (st : bool) (F : DumpState -> DumpState (W := bytes)) (b : bytes) : Prop :=
  forall D, status D = 0 -> strip D = st ->
    F D = mkDumpState (data D ++ b) st 0.

Section emitting.
Context (st : bool).

Lemma emits_block b : emits st (DumpBlock b) b.
Proof. intros [d s n]. cbn. intros -> ->. done. Qed.

Lemma emits_comp F G b c :
emits st F b -> emits st G c -> emits st (fun D => G (F D)) (b ++ c).
Proof. intros HF HG D Hs Ht. rewrite (HF D Hs Ht), HG by done. cbn. by rewrite app_assoc. Qed.

Lemma emits_id : emits st (fun D => D) [].
Proof. intros [d s n]. cbn. intros -> ->. by rewrite app_nil_r. Qed.

Lemma emits_ext F b c : emits st F b -> b = c -> emits st F c.
Proof. by intros ? <-. Qed.

Lemma emits_string s : emits st (DumpString s) (enc_string s).
Proof.
destruct s as [s|]; [|apply emits_block]. apply (emits_comp (DumpSize _)); apply emits_block.
Qed.

Lemma emits_int x : emits st (DumpInt x) (enc_int x).
Proof. apply emits_block. Qed.

Lemma emits_vector b : emits st (DumpVector b) (enc_vector b).
Proof. apply (emits_comp (DumpInt (lenZ b))); [apply emits_int|apply emits_block]. Qed.

Lemma emits_constant o : emits st (DumpConstant o) (enc_constant o).
Proof.
unfold DumpConstant, enc_constant. change (u8 (ttype o) :: ?l) with ([u8 (ttype o)] ++ l).
destruct o as [|b| |n|s| | | | |];
  try (eapply emits_ext; [apply emits_block|done]).
- apply (emits_comp (DumpChar _) (DumpChar b)); apply emits_block.
- apply (emits_comp (DumpChar _) (DumpNumber n)); apply emits_block.
- apply (emits_comp (DumpChar _) (DumpString _)); [apply emits_block|apply emits_string].
- apply (emits_comp (DumpChar _) (DumpString _)); [apply emits_block|apply emits_string].
Qed.

Lemma emits_locvar v : emits st (DumpLocVar v) (enc_locvar v).
Proof.
intros D Hs Ht. unfold DumpLocVar, enc_locvar.
rewrite (emits_string _ D Hs Ht), !emits_int by done. cbn [data]. by rewrite <- !app_assoc.
Qed.

Lemma emits_each {A} (dump : A -> DumpState -> DumpState) enc (l : list A) :
Forall (fun x => emits st (dump x) (enc x)) l ->
emits st (dump_each dump l) (concat (enc <$> l)).
Proof.
induction 1 as [|x l Hx _ IH]; [apply emits_id|].
intros D Hs Ht. change (dump_each dump (x :: l) D) with (dump_each dump l (dump x D)).
rewrite (Hx D Hs Ht), IH by done. cbn [data]. by rewrite <- app_assoc.
Qed.

Lemma emits_list {A} (dump : A -> DumpState -> DumpState) enc (l : list A) :
(forall x, emits st (dump x) (enc x)) ->
emits st (fun D => dump_each dump l (DumpInt (lenZ l) D)) (enc_list enc l).
Proof.
intros Hx D Hs Ht. rewrite (emits_int _ D Hs Ht).
rewrite (emits_each dump enc l) by (done || by apply Forall_true).
cbn [data]. by rewrite <- app_assoc.
Qed.

End emitting.

Lemma emits_debug st f : emits st (DumpDebug f) (enc_debug st f).
Proof.
  intros D Hs Ht. unfold DumpDebug. rewrite Ht.
  rewrite (emits_vector _ _ D Hs Ht). cbn [strip]. destruct st; cbn [enc_debug].
  - unfold dump_each. cbn [foldl]. rewrite !(emits_int true) by done. cbn [data strip foldl].
    by rewrite <- !app_assoc.
  - rewrite (emits_list false DumpLocVar enc_locvar) by (apply emits_locvar || done).
    cbn [strip]. rewrite (emits_list false DumpString enc_string) by (apply emits_string || done).
    cbn [data]. by rewrite <- !app_assoc.
Qed.

Lemma DumpFunction_eq f parent (D : DumpState (W := bytes)) :
  DumpFunction f parent D =
  let D := DumpString (if bool_decide (source f = parent) || strip D then None else source f) D in
  let D := DumpInt (lastlinedefined f) (DumpInt (linedefined f) D) in
  let D := DumpChar (numparams f) (DumpChar (nups f) D) in
  let D := DumpChar (maxstacksize f) (DumpChar (is_vararg f) D) in
  let D := dump_each DumpConstant (k f) (DumpInt (sizek f) (DumpCode f D)) in
  DumpDebug f (dump_each (fun g => DumpFunction g (source f)) (p f) (DumpInt (sizep f) D)).
Proof.
  destruct f as [ks co ps li lv up src l1 l2 n1 n2 n3 n4]. cbn [DumpFunction p]. cbv zeta.
  f_equal.
  match goal with |- _ ?D1 = dump_each _ _ ?D2 => change D2 with D1; generalize D1 end.
  induction ps as [|g ps IH]; intros D'; [done|]. apply IH.
Qed.

(** Induction on the nesting of functions *)
Lemma Proto_nested_ind (P : Proto -> Prop) :
  (forall f, Forall P (p f) -> P f) -> forall f, P f.
Proof.
  intros Hstep. fix IH 1. intros f. apply Hstep. destruct f as [? ? ps]. cbn.
  induction ps as [|g ps IHps]; constructor; [apply IH|apply IHps].
Qed.

Lemma emits_function st f parent : emits st (DumpFunction f parent) (enc_function st parent f).
Proof.
  revert parent. induction f as [f IH] using Proto_nested_ind. intros parent D Hs Ht.
  rewrite DumpFunction_eq, Ht. cbv zeta. unfold DumpCode.
  rewrite (emits_string st _ D Hs Ht), (emits_int st (linedefined f)) by done.
  rewrite (emits_int st (lastlinedefined f)) by done. unfold DumpChar.
  rewrite (emits_block st [u8 (nups f)]), (emits_block st [u8 (numparams f)]) by done.
  rewrite (emits_block st [u8 (is_vararg f)]), (emits_block st [u8 (maxstacksize f)]) by done.
  rewrite (emits_vector st) by done.
  rewrite (emits_list st DumpConstant enc_constant) by (apply emits_constant || done).
  rewrite (emits_int st (sizep f)) by done.
  rewrite (emits_each st (fun g => DumpFunction g (source f)) (enc_function st (source f)))
    by (done || (eapply Forall_impl; [|exact IH]; intros g Hg; apply Hg)).
  rewrite emits_debug by done. cbn [data].
  rewrite enc_function_eq. unfold enc_source. rewrite Ht. by rewrite <- !app_assoc.
Qed.

Lemma luaU_dump_bytes f d strip :
  luaU_dump f d strip =
  mkDumpState (d ++ luaU_header ++ enc_function strip None f) strip 0.
Proof.
  unfold luaU_dump, DumpHeader. rewrite (emits_block strip) by done.
  rewrite (emits_function strip) by done. cbn [data]. by rewrite <- app_assoc.
Qed.

(** ** Reading back *)

(** [m] reads the bytes [b] and answers [a], changing [nCcalls] from [n] to
    [n']. *)
Definition reads_to {A} (n n' : Z) (m : Load A) (b : bytes) (a : A) : Prop :=
  forall S c, zio_ok (stream S) -> nCcalls S = n -> contents (stream S) = b ++ c ->
  exists z', m S = Ret (a, mkLoadState n' z' (name S)) /\ contents z' = c /\ zio_ok z'.

Abbreviation reads n := (reads_to n n).

Lemma reads_mret {A} n (a : A) : reads n (mret a) [] a.
Proof. intros [k z nm] c Hz Hn Hc. cbn in *. subst. by exists z. Qed.

Lemma reads_bind {A B} n1 n2 n3 (m : Load A) (f : A -> Load B) b1 b2 a r :
  reads_to n1 n2 m b1 a -> reads_to n2 n3 (f a) b2 r -> reads_to n1 n3 (m ≫= f) (b1 ++ b2) r.
Proof.
  intros Hm Hf S c Hz Hn Hc. rewrite <- app_assoc in Hc.
  destruct (Hm S (b2 ++ c) Hz Hn Hc) as (z1 & Hm1 & Hc1 & Hz1).
  rewrite (st_bind_eq _ _ _ _ _ Hm1).
  by apply (Hf (mkLoadState n2 z1 (name S)) c).
Qed.

(** A step that reads nothing *)
Lemma reads_skip {A B} n1 n2 n3 (m : Load A) (f : A -> Load B) b a r :
  reads_to n1 n2 m [] a -> reads_to n2 n3 (f a) b r -> reads_to n1 n3 (m ≫= f) b r.
Proof. apply reads_bind. Qed.

Lemma reads_enter n d :
  reads_to n (n + d) (modify (fun S => mkLoadState (nCcalls S + d) (stream S) (name S))) [] tt.
Proof. intros [k z nm] c Hz Hn Hc. cbn in *. subst. by exists z. Qed.

Lemma reads_nCcalls n : reads n (gets nCcalls) [] n.
Proof. intros [k z nm] c Hz Hn Hc. cbn in *. subst. by exists z. Qed.

Lemma reads_lift {A} n (m : outcome A) a : m = Ret a -> reads n (lift m) [] a.
Proof. intros -> [k z nm] c Hz Hn Hc. cbn in *. subst. by exists z. Qed.

(** The last step of a function *)
Lemma reads_last {A B} n (m : Load A) (f : A -> Load B) b a r :
  reads n m b a -> f a = mret r -> reads n (m ≫= f) b r.
Proof.
  intros Hm Hf. rewrite <- (app_nil_r b). eapply reads_bind; [done|]. rewrite Hf.
  apply reads_mret.
Qed.

Lemma reads_block n b size : size = lenZ b -> reads n (LoadBlock size) b b.
Proof.
  intros -> S c Hz Hn Hc. unfold LoadBlock. pose proof (lenZ_nonneg b).
  destruct (luaZ_read_correct_aux (stream S) (lenZ b) Hz) as (z' & Hr & Hc' & Hz'); [done|].
  exists z'. rewrite Hr. cbn [mbind outcome_bind]. rewrite Hc, lenZ_app.
  pose proof (lenZ_nonneg c).
  assert (Hlen : Z.to_nat (lenZ b) = length b) by (unfold lenZ; lia).
  rewrite Z.max_l by lia. rewrite Hc', Hc, Hlen, take_app_length, drop_app_length. cbn.
  by rewrite Hn.
Qed.

Lemma reads_char n y : -128 <= y < 128 -> reads n LoadChar [u8 y] y.
Proof.
  intros Hy. eapply reads_last; [by apply reads_block|]. f_equal. cbn.
  unfold s8, u8. dlia.
Qed.

Lemma reads_byte n y : is_byte y -> reads n LoadByte [u8 y] y.
Proof.
  intros Hy. unfold LoadByte, LoadChar. unfold is_byte in Hy.
  eapply reads_last; [eapply reads_last; [by apply reads_block|reflexivity]|].
  f_equal. cbn. unfold s8, u8. dlia.
Qed.

Lemma u32_le x : of_le (le 4 (u32 x)) = u32 x.
Proof. rewrite of_le_le. apply Z.mod_small. apply u32_range. Qed.

Lemma i32_u32 x : i32 (u32 x) = i32 x.
Proof. unfold i32, u32. dlia. Qed.

Definition is_count (x : Z) : Prop := 0 <= x <= INT_MAX.

Lemma count_i32 x : is_count x -> is_i32 x.
Proof. unfold is_count, is_i32, INT_MAX. lia. Qed.

Lemma reads_int n x : is_count x -> reads n LoadInt (enc_int x) x.
Proof.
  intros Hx. unfold LoadInt, enc_int. eapply reads_last; [by apply reads_block|].
  rewrite u32_le, i32_u32, i32_small by by apply count_i32.
  rewrite (proj2 (Z.ltb_ge _ _)); [done|]. apply Hx.
Qed.

Lemma reads_number n x :
  valid_binary prec emax x = true -> reads n LoadNumber (le 8 (double_bits x)) x.
Proof.
  intros Hx. eapply reads_last; [apply reads_block; by rewrite lenZ_le|].
  rewrite of_le_le, Z.mod_small by (by apply double_bits_range). by rewrite bits_double_bits.
Qed.

Definition string_ok (s : option bytes) : Prop :=
  match s with Some s => lenZ s + 1 < 2 ^ 64 | None => True end.

Lemma reads_string n s : string_ok s -> reads n LoadString (enc_string s) s.
Proof.
  intros Hs. unfold LoadString. destruct s as [s|]; cbn [enc_string string_ok] in *.
  - pose proof (lenZ_nonneg s). eapply reads_bind; [apply reads_block; by rewrite lenZ_le|].
    rewrite of_le_le, Z.mod_small by (change (256 ^ Z.of_nat 8) with (2 ^ 64); lia).
    rewrite (proj2 (Z.eqb_neq _ 0)) by lia.
    eapply reads_last; [apply reads_block; by rewrite lenZ_app|]. do 2 f_equal.
    rewrite Z.add_simpl_r. unfold lenZ. rewrite Nat2Z.id. apply take_app_length.
  - eapply reads_last; [by apply reads_block|]. done.
Qed.

Definition const_ok (o : TValue) : Prop :=
  match o with
  | VNil | VNullString => True
  | VBoolean b => b = 0 \/ b = 1
  | VNumber x => valid_binary prec emax x = true
  | VString s => string_ok (Some s)
  | _ => False
  end.

Lemma reads_constant n o : const_ok o -> reads n LoadConstant (enc_constant o) o.
Proof.
  intros Ho. unfold LoadConstant, enc_constant. change (u8 (ttype o) :: ?l) with ([u8 (ttype o)] ++ l).
  eapply reads_bind; [apply reads_char; destruct o; cbn; unfold LUA_TNIL, LUA_TBOOLEAN,
    LUA_TLIGHTUSERDATA, LUA_TNUMBER, LUA_TSTRING, LUA_TTABLE, LUA_TFUNCTION, LUA_TUSERDATA,
    LUA_TTHREAD; lia|].
  destruct o as [|b| |x|s| | | | |]; try done; cbn [ttype Z.eqb LUA_TNIL].
  - apply reads_mret.
  - eapply reads_last; [apply reads_char; cbn in Ho; lia|]. by destruct Ho as [-> | ->].
  - eapply reads_last; [by apply reads_number|done].
  - eapply reads_last; [by apply reads_string|done].
  - eapply reads_last; [by apply (reads_string n None)|done].
Qed.

Lemma reads_each2 {A B} n (load : Load B) (enc : A -> bytes) l l' :
  Forall2 (fun x y => reads n load (enc x) y) l l' ->
  reads n (load_each load (length l)) (concat (enc <$> l)) l'.
Proof.
  induction 1 as [|x y l l' Hx _ IH]; cbn [load_each length]; [apply reads_mret|].
  eapply reads_bind; [done|]. by eapply reads_last.
Qed.

Lemma reads_each {A} n (load : Load A) enc (l : list A) :
  Forall (fun x => reads n load (enc x) x) l ->
  reads n (load_each load (length l)) (concat (enc <$> l)) l.
Proof. intros Hl. by apply reads_each2, Forall_Forall2_diag. Qed.

Lemma reads_list {A} n (load : Load A) enc (l : list A) :
  is_count (lenZ l) -> Forall (fun x => reads n load (enc x) x) l ->
  reads n (n ← LoadInt; load_each load (Z.to_nat n)) (enc_list enc l) l.
Proof.
  intros Hl Hf. eapply reads_bind; [by apply reads_int|]. unfold lenZ. rewrite Nat2Z.id.
  by apply reads_each.
Qed.

Lemma words_le l : words (length l) (concat (le 4 ∘ u32 <$> l)) = u32 <$> l.
Proof.
  induction l as [|x l IH]; [done|]. cbn [length words fmap list_fmap concat compose].
  rewrite take_app_length', drop_app_length' by (by rewrite length_le).
  by rewrite IH, u32_le.
Qed.

Lemma lenZ_words (l : list Z) : lenZ (concat (le 4 ∘ u32 <$> l)) = lenZ l * 4.
Proof.
  induction l as [|x l IH]; [done|]. cbn [fmap list_fmap concat].
  rewrite lenZ_app, lenZ_cons, IH. unfold compose. rewrite lenZ_le. lia.
Qed.

Lemma fmap_id_Forall {A} (f : A -> A) (l : list A) : Forall (fun x => f x = x) l -> f <$> l = l.
Proof. induction 1 as [|x l Hx _ IH]; [done|]. cbn. by rewrite Hx, IH. Qed.

Lemma reads_code n l :
  is_count (lenZ l) -> Forall is_u32 l -> reads n LoadCode (enc_vector l) l.
Proof.
  intros Hl Hf. unfold LoadCode. eapply reads_bind; [by apply reads_int|].
  eapply reads_last; [apply reads_block; by rewrite lenZ_words|]. f_equal.
  unfold lenZ. rewrite Nat2Z.id, words_le. apply fmap_id_Forall.
  eapply Forall_impl; [|done]. apply u32_small.
Qed.

Definition locvar_ok (v : LocVar) : Prop :=
  string_ok (varname v) /\ is_count (startpc v) /\ is_count (endpc v).

Lemma reads_locvar n v : locvar_ok v -> reads n LoadLocVar (enc_locvar v) v.
Proof.
  intros (H1 & H2 & H3). destruct v as [nm s e]. unfold LoadLocVar, enc_locvar.
  eapply reads_bind; [by apply reads_string|]. eapply reads_bind; [by apply reads_int|].
  eapply reads_last; [by apply reads_int|]. done.
Qed.

Lemma reads_debug st n f :
  is_count (sizelineinfo f) -> is_count (sizelocvars f) -> is_count (sizeupvalues f) ->
  Forall is_i32 (lineinfo f) -> Forall locvar_ok (locvars f) -> Forall string_ok (upvalues f) ->
  reads n LoadDebug (enc_debug st f)
    (if st then [] else lineinfo f, if st then [] else locvars f, if st then [] else upvalues f).
Proof.
  intros H1 H2 H3 Hl Hv Hu. destruct st.
  { assert (H0 : reads n LoadInt (enc_int 0) 0) by by apply reads_int.
    unfold LoadDebug, enc_debug. eapply reads_bind; [exact H0|].
    eapply (reads_skip _ _ _ _ _ _ []); [by apply reads_block|]. eapply reads_bind; [exact H0|].
    eapply reads_skip; [apply reads_mret|]. eapply reads_last; [exact H0|]. done. }
  unfold LoadDebug, enc_debug, enc_vector, enc_list.
  rewrite <- !app_assoc. eapply reads_bind; [by apply reads_int|].
  eapply reads_bind; [apply reads_block; by rewrite lenZ_words|].
  eapply reads_bind; [by apply reads_int|]. unfold sizelocvars, lenZ. rewrite !Nat2Z.id.
  eapply reads_bind;
    [apply reads_each; eapply Forall_impl; [|done]; apply reads_locvar|].
  eapply reads_bind; [by apply reads_int|]. rewrite !Nat2Z.id.
  eapply reads_last;
    [apply reads_each; eapply Forall_impl; [|done]; apply reads_string|].
  f_equal. rewrite words_le. do 2 f_equal. rewrite <- list_fmap_compose.
  apply fmap_id_Forall. eapply Forall_impl; [|done]. intros x Hx. cbn.
  rewrite i32_u32. by apply i32_small.
Qed.

(** The values of a function fit in their C types. *)
Record fields_ok (f : Proto) : Prop := {
  ok_source : is_Some (source f) /\ string_ok (source f);
  ok_lines : is_count (linedefined f) /\ is_count (lastlinedefined f);
  ok_nups : is_byte (nups f);
  ok_numparams : is_byte (numparams f);
  ok_is_vararg : is_byte (is_vararg f);
  ok_maxstacksize : is_byte (maxstacksize f);
  ok_code : is_count (sizecode f) /\ Forall is_u32 (code f);
  ok_k : is_count (sizek f) /\ Forall const_ok (k f);
  ok_p : is_count (sizep f);
  ok_lineinfo : is_count (sizelineinfo f) /\ Forall is_i32 (lineinfo f);
  ok_locvars : is_count (sizelocvars f) /\ Forall locvar_ok (locvars f);
  ok_upvalues : is_count (sizeupvalues f) /\ Forall string_ok (upvalues f)
}.

(** A function that can be saved and loaded with [n] levels of nesting: it
    and the functions inside it have their source names and are accepted by
    the verifier. *)
Fixpoint loadable (n : nat) (f : Proto) : Prop :=
  match n with
  | O => False
  | S n => fields_ok f /\ Forall (loadable n) (p f) /\ luaG_checkcode f = Ret true
  end.

(** *** Stripped functions

    What is read back of a stripped dump has no debug information, and the
    source name of the function around it ("=?" for the outermost one). *)

Fixpoint stripped (src : option bytes) (f : Proto) : Proto :=
  mkProto (k f) (code f) (map (stripped src) (p f)) [] [] [] src (linedefined f)
    (lastlinedefined f) (nups f) (numparams f) (is_vararg f) (maxstacksize f).

(** The function that a dump holds *)
Definition read_back (st : bool) (parent : option bytes) (f : Proto) : Proto :=
  if st then stripped parent f else f.

(** The verifier takes nothing from the debug information. *)
Section verifier.
Context (src : option bytes) (f : Proto).

Lemma strip_operands pc i op : symb_operands (stripped src f) pc i op = symb_operands f pc i op.
Proof.
  assert (Hrun : forall d, setlist_run (stripped src f) d = setlist_run f d).
  { induction d as [|d IH]; [done|]. cbn [setlist_run]. rewrite IH. by destruct f. }
  unfold symb_operands. destruct (getOpMode op); [by destruct f|by destruct f|].
  cbv zeta. rewrite Hrun. by destruct f.
Qed.

Lemma strip_switch lastpc reg pc last a b c op :
  symb_switch (stripped src f) lastpc reg pc last a b c op = symb_switch f lastpc reg pc last a b c op.
Proof.
  assert (Hps : forall n pc j, check_pseudo (stripped src f) pc j n = check_pseudo f pc j n).
  { induction n as [|n IH]; intros pc0 j; [done|]. cbn [check_pseudo].
    transitivity (i ← rd_code f (pc0 + j); check (is_op i OP_GETUPVAL || is_op i OP_MOVE);; check_pseudo (stripped src f) pc0 (j + 1) n); [by destruct f|].
    by rewrite IH. }
  destruct op; try (by destruct f). unfold symb_switch.
  assert (Hp : p (stripped src f) = map (stripped src) (p f)) by by destruct f.
  unfold sizep. rewrite Hp. unfold lenZ. rewrite length_map.
  assert (getZ (map (stripped src) (p f)) b = stripped src <$> getZ (p f) b) as ->.
  { unfold getZ. case_match; [|done]. apply list_lookup_fmap. }
  destruct (getZ (p f) b) as [g|]; cbn [fmap option_fmap option_map]; [|done].
  assert (nups (stripped src g) = nups g) as -> by by destruct g.
  assert (sizecode (stripped src f) = sizecode f) as -> by by destruct f.
  by rewrite Hps.
Qed.

Lemma strip_loop lastpc reg fuel pc last :
  symb_loop (stripped src f) lastpc reg fuel pc last = symb_loop f lastpc reg fuel pc last.
Proof.
  assert (Hstep : forall pc last, symb_step (stripped src f) lastpc reg pc last = symb_step f lastpc reg pc last).
  { intros pc0 last0. unfold symb_step.
    assert (Hrd : forall x, rd_code (stripped src f) x = rd_code f x) by (intros; by destruct f).
    assert (Hcr : forall x, checkreg (stripped src f) x = checkreg f x) by (intros; by destruct f).
    assert (Hsz : sizecode (stripped src f) = sizecode f) by by destruct f.
    rewrite (Hrd pc0), (Hrd (pc0 + 1)). destruct (rd_code f pc0) as [[i|]| | |]; cbn [mbind chk_bind]; try done.
    destruct (op_of (GET_OPCODE i)) as [op|]; [|done]. rewrite Hcr, strip_operands, Hsz.
    destruct (checkreg f (GETARG_A i)) as [[[]|]| | |]; cbn [mbind chk_bind]; try done.
    destruct (symb_operands f pc0 i op) as [[[b c]|]| | |]; cbn [mbind chk_bind]; try done.
    by rewrite strip_switch. }
  revert pc last. induction fuel as [|fuel IH]; intros pc last; cbn [symb_loop]; [done|].
  rewrite Hstep. case_match; [|done]. destruct (symb_step f lastpc reg pc last) as [[[pc' last']|]| | |]; cbn [mbind chk_bind]; try done.
Qed.

Lemma check_seq {A} (b : bool) (m : chk A) x : (check b;; m) = Ret (Some x) <-> b = true /\ m = Ret (Some x).
Proof using.
  destruct b; cbn; (split; [intros H|intros [H1 H2]]); [by split|exact H2|discriminate|discriminate].
Qed.

Lemma strip_precheck x : 0 <= nups f -> precheck f = Ret (Some x) -> precheck (stripped src f) = Ret (Some x).
Proof.
  intros Hn. unfold precheck. rewrite !check_seq.
  intros (H1 & H2 & H3 & _ & _ & H6 & H7). destruct f. split_and!; [exact H1|exact H2|exact H3|by apply Z.leb_le| |exact H6|exact H7].
  change (sizelineinfo (stripped src _)) with 0. by rewrite orb_true_r.
Qed.

Lemma strip_checkcode : 0 <= nups f -> luaG_checkcode f = Ret true -> luaG_checkcode (stripped src f) = Ret true.
Proof.
  intros Hn. unfold luaG_checkcode, symbexec.
  assert (Hsz : sizecode (stripped src f) = sizecode f) by by destruct f.
  assert (Hrd : forall x, rd_code (stripped src f) x = rd_code f x) by (intros; by destruct f).
  rewrite Hsz, strip_loop. destruct (precheck f) as [[[]|]| | |] eqn:E; try done.
  rewrite (strip_precheck tt) by done. cbn [mbind chk_bind].
  destruct (symb_loop f (sizecode f) NO_REG _ _ _) as [[last|]| | |]; cbn [mbind chk_bind]; try done. by rewrite Hrd.
Qed.
End verifier.

(** [outer] is the parent's source when saving, [parent] when loading. *)
Lemma reads_source st n outer parent f src :
  source f = Some src -> string_ok (Some src) -> (st = false -> source f = outer -> parent = source f) ->
  exists s, reads n LoadString (enc_source st outer f) s /\
    match s with None => parent | Some s => Some s end = source (read_back st parent f).
Proof.
  intros Hs Hok Hpar. unfold enc_source, read_back. rewrite Hs. destruct st.
  - rewrite orb_true_r. exists None. split; [by apply reads_string|by destruct f].
  - rewrite orb_false_r. case_bool_decide as E.
    + exists None. split; [by apply reads_string|]. rewrite Hs, Hpar; congruence.
    + exists (Some src). by split; [apply reads_string|].
Qed.

Lemma reads_function st fuel levels n outer parent f :
  loadable levels f -> (levels <= fuel)%nat -> 0 <= n ->
  n + Z.of_nat levels <= LUAI_MAXCCALLS -> (st = false -> source f = outer -> parent = source f) ->
  reads n (LoadFunction fuel parent) (enc_function st outer f) (read_back st parent f).
Proof.
  revert levels n outer parent f.
  induction fuel as [|fuel IH]; intros levels n outer parent f Hf Hle Hn Hmax Hpar.
  { destruct levels; [done|lia]. }
  destruct levels as [|levels]; [done|]. destruct Hf as (Hok & Hp & Hcheck).
  destruct Hok as [[[src Hsrc] Hstr] [H1 H2] H3 H4 H5 H6 [H7 H8] [H9 H10] H11 [H12 H13]
    [H14 H15] [H16 H17]].
  rewrite Hsrc in Hstr.
  destruct (reads_source st (n + 1) outer parent f src Hsrc Hstr Hpar) as (s & Hs & Hres).
  set (src' := source (read_back st parent f)) in *.
  assert (Hsubs : Forall2 (fun g g' => reads (n + 1) (LoadFunction fuel src')
    (enc_function st (source f) g) g') (p f) (p (read_back st parent f))).
  { assert (E : p (read_back st parent f) = map (read_back st src') (p f)).
    { unfold src', read_back. destruct st; [by destruct f|]. by rewrite List.map_id. }
    rewrite E. apply Forall2_fmap_r, Forall_Forall2_diag. eapply Forall_impl; [|exact Hp]. intros g Hg.
    apply (IH levels); try done; try lia. by intros ->. }
  rewrite enc_function_eq. cbn [LoadFunction].
  eapply reads_skip; [apply reads_enter|]. eapply reads_skip; [apply reads_nCcalls|].
  cbv beta. rewrite (proj2 (Z.ltb_ge _ _)) by lia.
  eapply reads_bind; [exact Hs|]. cbv beta zeta. rewrite Hres.
  eapply reads_bind; [by apply reads_int|]. eapply reads_bind; [by apply reads_int|].
  eapply reads_bind; [by apply reads_byte|]. eapply reads_bind; [by apply reads_byte|].
  eapply reads_bind; [by apply reads_byte|]. eapply reads_bind; [by apply reads_byte|].
  eapply reads_bind; [by apply reads_code|]. unfold enc_list. rewrite <- app_assoc.
  eapply reads_bind; [by apply reads_int|]. unfold lenZ. rewrite Nat2Z.id.
  eapply reads_bind;
    [apply reads_each; eapply Forall_impl; [|exact H10]; apply reads_constant|].
  eapply reads_bind; [by apply reads_int|]. unfold sizep, lenZ. rewrite Nat2Z.id.
  eapply reads_bind; [by apply reads_each2|].
  rewrite <- (app_nil_r (enc_debug st f)).
  eapply reads_bind; [by apply (reads_debug st)|]. cbv beta iota zeta.
  assert (Hf : mkProto (k f) (code f) (p (read_back st parent f)) (if st then [] else lineinfo f)
    (if st then [] else locvars f) (if st then [] else upvalues f) src'
    (linedefined f) (lastlinedefined f) (nups f) (numparams f) (is_vararg f)
    (maxstacksize f) = read_back st parent f) by (unfold src', read_back; by destruct st, f).
  rewrite Hf. eapply reads_skip; [apply reads_lift|].
  { unfold read_back. destruct st; [|exact Hcheck]. apply strip_checkcode; [|exact Hcheck]. by destruct H3. }
  cbn [negb].
  eapply reads_skip; [apply reads_mret|].
  eapply reads_skip; [apply (reads_enter _ (-1))|].
  replace (n + 1 + -1) with n by lia. apply reads_mret.
Qed.

Lemma reads_header n : reads n LoadHeader luaU_header tt.
Proof.
  unfold LoadHeader. eapply reads_last; [by apply reads_block|].
  by rewrite bool_decide_eq_true_2.
Qed.

Lemma dump_undump_aux f strip levels n z nm rest :
  loadable levels f -> 0 <= n -> n + Z.of_nat levels <= LUAI_MAXCCALLS ->
  zio_ok z -> contents z = data (luaU_dump f ([] : bytes) strip) ++ rest ->
  exists z', luaU_undump n z nm = Ret (read_back strip (Some (str "=?")) f, mkLoadState n z' (chunk_name nm)) /\
    contents z' = rest /\ zio_ok z'.
Proof.
  intros Hf Hn Hmax Hz Hc. rewrite luaU_dump_bytes in Hc. cbn [data app] in Hc.
  refine (reads_bind n n n LoadHeader _ luaU_header _ tt _ (reads_header n) _
    (mkLoadState n z (chunk_name nm)) rest Hz eq_refl Hc).
  apply (reads_function strip _ levels); try done; [unfold LUAI_MAXCCALLS in *; lia|].
  destruct levels; [done|]. destruct Hf as [[[[src Hsrc] _]] _]. by rewrite Hsrc.
Qed.

(** C13: saving and loading a function gives it back: of a function that the
    verifier accepts ([loadable]: with the functions in it, nested at most as
    deep as the limit on C calls leaves room), [luaU_undump] reads from any
    stream that holds the bytes written by [luaU_dump] exactly the same
    prototype (code, constants, nested functions, debug information), and
    leaves the rest of the stream.  With [strip] it is the same prototype
    without debug information and with the source name "=?" ([stripped]). *)
Theorem dump_undump f strip levels n z nm rest :
  loadable levels f -> 0 <= n -> n + Z.of_nat levels <= LUAI_MAXCCALLS ->
  zio_ok z -> contents z = data (luaU_dump f ([] : bytes) strip) ++ rest ->
  exists z', luaU_undump n z nm =
      Ret (if strip then stripped (Some (str "=?")) f else f, mkLoadState n z' (chunk_name nm)) /\
    contents z' = rest /\ zio_ok z'.
Proof. apply dump_undump_aux. Qed.

(** ** The loader on any input *)

Definition loads_to {A} (n n' : Z) (m : Load A) (P : A -> Prop) : Prop :=
  forall S, zio_ok (stream S) -> nCcalls S = n ->
  post (m S) (fun '(a, S') => zio_ok (stream S') /\ nCcalls S' = n' /\ name S' = name S /\ P a).

Lemma loads_bind {A B} n1 n2 n3 (m : Load A) (f : A -> Load B) P Q :
  loads_to n1 n2 m P -> (forall a, P a -> loads_to n2 n3 (f a) Q) ->
  loads_to n1 n3 (m ≫= f) Q.
Proof.
  intros Hm Hf S Hz Hn. eapply st_post_bind; [by apply Hm|].
  intros a S1 (Hz1 & Hn1 & Hm1 & Ha). eapply post_mono; [by apply Hf|].
  intros [b S2] (Hz2 & Hn2 & Hm2 & Hb). split_and!; [done..|congruence|done].
Qed.

Section loading.
Context (n : Z).
Abbreviation loads := (loads_to n n).

Lemma loads_mret {A} (a : A) (P : A -> Prop) : P a -> loads (mret a) P.
Proof. by intros Ha S Hz Hn. Qed.

Lemma loads_if {A} (b : bool) (m1 m2 : Load A) P :
(b = true -> loads m1 P) -> (b = false -> loads m2 P) ->
loads (if b then m1 else m2) P.
Proof. destruct b; auto. Qed.

Lemma loads_seq {A B} (m : Load A) (f : A -> Load B) P Q :
loads m P -> (forall a, P a -> loads (f a) Q) -> loads (m ≫= f) Q.
Proof. apply loads_bind. Qed.

Definition block_of (size : Z) (b : bytes) : Prop := lenZ b = size /\ Forall is_byte b.

Lemma contents_bytes z : zio_ok z -> Forall is_byte (contents z).
Proof.
intros Hz. pose proof Hz as (_ & Hm & _). apply (view_bytes (Z' := ZIO) z); [by right|].
cbn. by rewrite (proj2 (Z.eqb_neq _ _)) by lia.
Qed.

Lemma loads_block size : 0 <= size -> loads (LoadBlock size) (block_of size).
Proof.
intros Hs S Hz Hn. unfold LoadBlock.
destruct (luaZ_read_correct_aux (stream S) size Hz Hs) as (z' & Hr & Hc' & Hz').
rewrite Hr. cbn [mbind outcome_bind]. pose proof (contents_bytes _ Hz) as Hb.
destruct (Z.eqb_spec (Z.max 0 (size - lenZ (contents (stream S)))) 0) as [E|E]; [|done].
cbn. split_and!; [done..|]. split; [|by apply Forall_take].
unfold lenZ in *. rewrite length_take. lia.
Qed.

Lemma loads_char : loads LoadChar (fun c => -128 <= c < 128).
Proof.
eapply loads_seq; [by apply loads_block|]. intros b _. apply loads_mret. unfold s8. dlia.
Qed.

Lemma loads_byte : loads LoadByte is_byte.
Proof.
eapply loads_seq; [apply loads_char|]. intros c _. apply loads_mret. apply u8_range.
Qed.

Lemma loads_int : loads LoadInt is_count.
Proof.
eapply loads_seq; [by apply loads_block|]. intros b _. apply loads_if; [done|].
intros Hx. apply loads_mret. bool_facts. pose proof (i32_range (of_le b)).
unfold is_count, is_i32, INT_MAX in *. lia.
Qed.

Lemma loads_number : loads LoadNumber (fun _ => True).
Proof. eapply loads_seq; [by apply loads_block|]. intros b _. by apply loads_mret. Qed.

Lemma loads_string : loads LoadString (fun _ => True).
Proof.
eapply loads_seq; [by apply loads_block|]. intros b [_ Hb].
pose proof (of_le_range b Hb). apply loads_if; intros; [by apply loads_mret|].
eapply loads_seq; [apply loads_block; lia|]. intros s _. by apply loads_mret.
Qed.

Lemma loads_constant : loads LoadConstant (fun _ => True).
Proof.
eapply loads_seq; [apply loads_char|]. intros t _.
apply loads_if; intros _; [by apply loads_mret|].
apply loads_if; intros _.
{ eapply loads_seq; [apply loads_char|]. intros c _. by apply loads_mret. }
apply loads_if; intros _.
{ eapply loads_seq; [apply loads_number|]. intros c _. by apply loads_mret. }
apply loads_if; intros _; [|done].
eapply loads_seq; [apply loads_string|]. intros c _. by apply loads_mret.
Qed.

Lemma loads_each {A} (load : Load A) c P :
loads load P -> loads (load_each load c) (fun l => length l = c /\ Forall P l).
Proof.
intros Hl. induction c as [|c IH]; cbn [load_each]; [by apply loads_mret|].
eapply loads_seq; [done|]. intros x Hx. eapply loads_seq; [done|].
intros l [Hc Hf]. apply loads_mret. cbn. split; [lia|by constructor].
Qed.

Lemma words_length c b : length (words c b) = c.
Proof. revert b. induction c; intros b; cbn; [done|]. by rewrite IHc. Qed.

Lemma words_u32 c b : Forall is_byte b -> Forall is_u32 (words c b).
Proof.
revert b. induction c as [|c IH]; intros b Hb; cbn [words]; constructor.
- pose proof (of_le_range (take 4 b) (Forall_take _ _ _ Hb)) as Hr.
  assert (256 ^ lenZ (take 4 b) <= 256 ^ 4).
  { apply Z.pow_le_mono_r; [lia|]. unfold lenZ. rewrite length_take. lia. }
  unfold is_u32. change (2 ^ 32) with (256 ^ 4). lia.
- apply IH. by apply Forall_drop.
Qed.

Lemma loads_code : loads LoadCode (fun l => Forall is_u32 l /\ lenZ l <= INT_MAX).
Proof.
eapply loads_seq; [apply loads_int|]. intros c Hc. unfold is_count in Hc.
eapply loads_seq; [apply loads_block; unfold sizeof_Instruction; lia|]. intros b [_ Hb].
apply loads_mret. split; [by apply words_u32|]. unfold lenZ. rewrite words_length. lia.
Qed.

Lemma loads_locvar : loads LoadLocVar (fun _ => True).
Proof.
eapply loads_seq; [apply loads_string|]. intros v _.
eapply loads_seq; [apply loads_int|]. intros s _.
eapply loads_seq; [apply loads_int|]. intros e _. by apply loads_mret.
Qed.

Lemma loads_debug : loads LoadDebug (fun _ => True).
Proof.
eapply loads_seq; [apply loads_int|]. intros c Hc. unfold is_count in Hc.
eapply loads_seq; [apply loads_block; unfold sizeof_int; lia|]. intros b _.
eapply loads_seq; [apply loads_int|]. intros n2 _.
eapply loads_seq; [apply loads_each, loads_locvar|]. intros vars _.
eapply loads_seq; [apply loads_int|]. intros n3 _.
eapply loads_seq; [apply loads_each, loads_string|]. intros ups _. by apply loads_mret.
Qed.

Lemma loads_checkcode f :
typed f -> loads (lift (luaG_checkcode f)) (fun b => luaG_checkcode f = Ret b).
Proof.
intros Ht S Hz Hn. unfold luaG_checkcode in *.
destruct (symbexec_total f (sizecode f) NO_REG Ht) as [i Hi]; [lia|].
rewrite Hi. done.
Qed.

Lemma loads_enter d :
loads_to n (n + d) (modify (fun S => mkLoadState (nCcalls S + d) (stream S) (name S)))
  (fun _ => True).
Proof. intros S Hz Hn. cbn. by rewrite Hn. Qed.

Lemma loads_nCcalls : loads (gets nCcalls) (fun c => c = n).
Proof. by intros S Hz Hn. Qed.
End loading.

(** The function and all the functions inside it have passed the verifier. *)
Inductive checked : Proto -> Prop :=
| checked_intro f :
    typed f -> luaG_checkcode f = Ret true -> (forall g, g ∈ p f -> checked g) -> checked f.

Lemma checked_nups f : checked f -> is_byte (nups f).
Proof. by intros [g (_ & Hn & _) _ _]. Qed.

Lemma loads_function fuel parent n :
  0 <= n -> LUAI_MAXCCALLS <= n + Z.of_nat fuel ->
  loads_to n n (LoadFunction fuel parent) checked.
Proof.
  revert parent n. induction fuel as [|fuel IH]; intros parent n Hn Hf; cbn [LoadFunction];
    (eapply loads_bind; [apply loads_enter|]; intros _ _;
     eapply loads_bind; [apply loads_nCcalls|]; intros ? ->; cbv beta).
  { by rewrite (proj2 (Z.ltb_lt _ _)) by lia. }
  destruct (Z.ltb_spec LUAI_MAXCCALLS (n + 1)) as [|Hmax]; [done|].
  eapply loads_bind; [apply loads_string|]. intros src _. cbv beta zeta.
  eapply loads_bind; [apply loads_int|]. intros l1 _.
  eapply loads_bind; [apply loads_int|]. intros l2 _.
  eapply loads_bind; [apply loads_byte|]. intros b1 Hnups.
  eapply loads_bind; [apply loads_byte|]. intros b2 _.
  eapply loads_bind; [apply loads_byte|]. intros b3 _.
  eapply loads_bind; [apply loads_byte|]. intros b4 Hstack.
  eapply loads_bind; [apply loads_code|]. intros code [Hcode Hlen].
  eapply loads_bind; [apply loads_int|]. intros c1 _.
  eapply loads_bind; [apply loads_each, loads_constant|]. intros ks _.
  eapply loads_bind; [apply loads_int|]. intros c2 _.
  eapply loads_bind; [apply loads_each, IH; lia|]. intros ps [_ Hps].
  eapply loads_bind; [apply loads_debug|]. intros [[lines vars] ups] _.
  set (f := mkProto ks code ps _ _ _ _ _ _ _ _ _ _).
  assert (Ht : typed f).
  { split_and!; try done. eapply Forall_impl; [|exact Hps]. apply checked_nups. }
  eapply loads_bind; [by apply loads_checkcode|]. intros ok Hok.
  eapply loads_bind; [apply (loads_if _ _ _ _ (fun _ => ok = true)); destruct ok; try done;
    intros; by apply loads_mret|]. intros [] Htrue. cbv beta in Htrue. subst ok.
  eapply loads_bind; [apply (loads_enter _ (-1))|]. intros _ _.
  replace (n + 1 + -1) with n by lia. apply loads_mret. constructor; [done..|].
  intros g Hg. rewrite Forall_forall in Hps. apply Hps. by apply list_elem_of_In.
Qed.

Lemma loads_undump n :
  0 <= n ->
  loads_to n n (LoadHeader;; LoadFunction (Z.to_nat LUAI_MAXCCALLS) (Some (str "=?"))) checked.
Proof.
  intros Hn. eapply loads_bind; [|intros _ _; apply loads_function; [done|]; lia].
  eapply loads_bind; [by apply loads_block|]. intros b _.
  apply (loads_if _ _ _ _ (fun _ => True)); intros; [done|by apply loads_mret].
Qed.

(** C14: loading a chunk is safe on every input: [luaU_undump] ends with a
    function or a syntax error, without reading outside its data; the
    function and all the functions nested in it have passed the verifier and
    fit in their C types. *)
Theorem undump_safe n z nm :
  0 <= n -> zio_ok z ->
  post (luaU_undump n z nm) (fun '(f, st) => checked f /\ zio_ok (stream st) /\ nCcalls st = n).
Proof.
  intros Hn Hz. eapply post_mono; [by apply (loads_undump n Hn)|].
  intros [f st] (? & ? & ? & ?). done.
Qed.

(** ** Truncated chunks

    A loader that answers on a stream gives the same answer when more bytes
    follow, and leaves them. *)

Definition framed {A} (m : Load A) : Prop :=
  forall n z nm a S' z2 d,
  zio_ok z -> zio_ok z2 -> m (mkLoadState n z nm) = Ret (a, S') -> contents z2 = contents z ++ d ->
  exists z2', m (mkLoadState n z2 nm) = Ret (a, mkLoadState (nCcalls S') z2' (name S')) /\
    contents z2' = contents (stream S') ++ d /\ zio_ok z2' /\ zio_ok (stream S').

Lemma framed_mret {A} (a : A) : framed (mret a).
Proof. intros n z nm b S' z2 d Hz Hz2 [= <- <-] Hc. by exists z2. Qed.

Lemma framed_bind {A B} (m : Load A) (f : A -> Load B) :
  framed m -> (forall a, framed (f a)) -> framed (m ≫= f).
Proof.
  intros Hm Hf n z nm b S' z2 d Hz Hz2 H Hc.
  apply st_bind_Ret in H. destruct H as (a & S1 & H1 & H2).
  destruct (Hm _ _ _ _ _ z2 d Hz Hz2 H1 Hc) as (z3 & H3 & Hc3 & Hz3 & Hz1).
  rewrite (st_bind_eq _ _ _ _ _ H3). destruct S1 as [n1 z1 nm1].
  by apply (Hf a _ z1 _ _ _ z3 d).
Qed.

Lemma framed_error {A} why : framed (load_error why : Load A).
Proof. by intros n z nm b S' z2 d Hz Hz2 H. Qed.

Lemma framed_nofuel {A} : framed (nofuel : Load A).
Proof. by intros n z nm b S' z2 d Hz Hz2 H. Qed.

Lemma framed_lift {A} (m : outcome A) : framed (lift m).
Proof.
  intros n z nm b S' z2 d Hz Hz2. unfold lift. destruct m; try done.
  intros [= <- <-] Hc. by exists z2.
Qed.

Lemma framed_enter d0 :
  framed (modify (fun S => mkLoadState (nCcalls S + d0) (stream S) (name S))).
Proof. intros n z nm b S' z2 d Hz Hz2 [= <- <-] Hc. by exists z2. Qed.

Lemma framed_nCcalls : framed (gets nCcalls).
Proof. intros n z nm b S' z2 d Hz Hz2 [= <- <-] Hc. by exists z2. Qed.

Lemma framed_loads {A B} (m : Load A) (f : A -> Load B) P :
  framed m -> (forall n, loads_to n n m P) -> (forall a, P a -> framed (f a)) ->
  framed (m ≫= f).
Proof.
  intros Hm Hl Hf n z nm b S' z2 d Hz Hz2 H Hc.
  apply st_bind_Ret in H. destruct H as (a & S1 & H1 & H2).
  pose proof (post_Ret _ _ _ (Hl n (mkLoadState n z nm) Hz eq_refl) H1) as (_ & _ & _ & Ha).
  destruct (Hm _ _ _ _ _ z2 d Hz Hz2 H1 Hc) as (z3 & H3 & Hc3 & Hz3 & Hz1).
  rewrite (st_bind_eq _ _ _ _ _ H3). destruct S1 as [n1 z1 nm1].
  by apply (Hf a Ha _ z1 _ _ _ z3 d).
Qed.

Lemma framed_block size : 0 <= size -> framed (LoadBlock size).
Proof.
  intros Hs n z nm b S' z2 d Hz Hz2 H Hc. unfold LoadBlock in *. cbn [stream nCcalls name] in *.
  destruct (luaZ_read_correct_aux z size Hz Hs) as (z' & Hr & Hc' & Hz').
  destruct (luaZ_read_correct_aux z2 size Hz2 Hs) as (z2' & Hr2 & Hc2' & Hz2').
  rewrite Hr in H. rewrite Hr2. cbn [mbind outcome_bind] in *.
  destruct (Z.eqb_spec (Z.max 0 (size - lenZ (contents z))) 0) as [E|]; [|done].
  injection H as <- <-. cbn [nCcalls name stream].
  assert (lenZ (contents z) <= lenZ (contents z2)).
  { rewrite Hc, lenZ_app. pose proof (lenZ_nonneg d). lia. }
  rewrite Z.max_l by lia. cbn [Z.eqb negb]. exists z2'.
  assert (Hlen : (Z.to_nat size <= length (contents z))%nat) by (unfold lenZ in *; lia).
  rewrite Hc2', Hc', Hc, take_app_le, drop_app_le by done. done.
Qed.

Ltac framed_tac :=
  repeat match goal with
  | |- framed (_ ≫= _) => apply framed_bind; [|intros ?]
  | |- framed (mret _) => apply framed_mret
  | |- framed (load_error _) => apply framed_error
  | |- framed nofuel => apply framed_nofuel
  | |- framed (lift _) => apply framed_lift
  | |- framed (if ?b then _ else _) => destruct b
  | |- framed (LoadBlock _) => apply framed_block; vm_compute; congruence
  | |- framed (let '(_, _) := ?x in _) => destruct x
  | |- framed _ => progress cbv beta zeta
  end.

Lemma framed_char : framed LoadChar.
Proof. unfold LoadChar. framed_tac. Qed.

Lemma framed_byte : framed LoadByte.
Proof. apply framed_bind; [apply framed_char|]. intros. framed_tac. Qed.

Lemma framed_int : framed LoadInt.
Proof. unfold LoadInt. framed_tac. Qed.

Lemma framed_string : framed LoadString.
Proof.
  eapply framed_loads; [by apply framed_block|intros n; by apply loads_block|].
  intros b [_ Hb]. pose proof (of_le_range b Hb). cbv zeta. destruct (_ =? _); framed_tac.
  apply framed_block. lia.
Qed.

Lemma framed_constant : framed LoadConstant.
Proof.
  apply framed_bind; [apply framed_char|]. intros c. framed_tac;
    first [apply framed_char|apply framed_string|unfold LoadNumber; framed_tac].
Qed.

Lemma framed_each {A} (load : Load A) c : framed load -> framed (load_each load c).
Proof. intros Hl. induction c as [|c IH]; cbn [load_each]; framed_tac; done. Qed.

Lemma framed_words {A} size (f : Z -> bytes -> Load A) :
  0 <= size -> (forall n b, framed (f n b)) ->
  framed (n ← LoadInt; b ← LoadBlock (n * size); f n b).
Proof.
  intros Hs Hf. eapply framed_loads; [apply framed_int|apply loads_int|].
  intros n [Hn _]. apply framed_bind; [apply framed_block; lia|]. intros b. apply Hf.
Qed.

Lemma framed_code : framed LoadCode.
Proof. unfold LoadCode. apply framed_words; [done|]. intros. framed_tac. Qed.

Lemma framed_debug : framed LoadDebug.
Proof.
  unfold LoadDebug. apply framed_words; [done|]. intros n b. framed_tac;
    try apply framed_int; apply framed_each; [|apply framed_string].
  unfold LoadLocVar. framed_tac; first [apply framed_string|apply framed_int].
Qed.

Lemma framed_function fuel parent : framed (LoadFunction fuel parent).
Proof.
  revert parent. induction fuel as [|fuel IH]; intros parent; cbn [LoadFunction];
    framed_tac;
    first [ apply (framed_enter 1) | apply (framed_enter (-1)) | apply framed_nCcalls
          | apply framed_string | apply framed_int | apply framed_byte | apply framed_code
          | apply framed_debug | apply framed_each; first [apply framed_constant | apply IH]
          | idtac ].
Qed.

Lemma framed_undump :
  framed (LoadHeader;; LoadFunction (Z.to_nat LUAI_MAXCCALLS) (Some (str "=?"))).
Proof.
  apply framed_bind; [unfold LoadHeader; framed_tac|]. intros _. apply framed_function.
Qed.

(** A stream that delivers its bytes one by one *)
Definition bytewise (b : bytes) : ZIO := luaZ_init ((fun c => [c]) <$> b).

Lemma bytewise_contents b : contents (bytewise b) = b.
Proof. unfold contents. cbn. induction b as [|c b IH]; [done|]. cbn. by rewrite IH. Qed.

Lemma bytewise_ok b : Forall is_byte b -> zio_ok (bytewise b).
Proof.
  intros Hb. unfold zio_ok. cbn. split_and!; [done|done|constructor|].
  induction Hb as [|c b Hc _ IH]; constructor; [|done].
  split; [done|]. split; [by constructor|done].
Qed.

(** a truncated chunk is rejected: on a stream that holds a dump of which
    the last bytes are missing, loading raises an error. *)
Theorem truncated_rejected f levels n z nm d :
  loadable levels f -> 0 <= n -> n + Z.of_nat levels <= LUAI_MAXCCALLS ->
  zio_ok z -> Forall is_byte d -> d <> [] ->
  contents z ++ d = data (luaU_dump f ([] : bytes) false) ->
  exists st msg, luaU_undump n z nm = Throw st msg.
Proof.
  intros Hf Hn Hmax Hz Hd Hne Hc.
  pose proof (loads_undump n Hn (mkLoadState n z (chunk_name nm)) Hz eq_refl) as Hl.
  fold (luaU_undump n z nm) in Hl.
  destruct (luaU_undump n z nm) as [[g S1]|st msg| |] eqn:Hu; [|by eauto|done|done].
  set (z2 := bytewise (contents z ++ d)).
  assert (Hz2 : zio_ok z2).
  { apply bytewise_ok, Forall_app_2; [by apply contents_bytes|done]. }
  destruct (framed_undump n z (chunk_name nm) g S1 z2 d Hz Hz2 Hu) as (z3 & H3 & Hc3 & _).
  { apply bytewise_contents. }
  destruct (dump_undump_aux f false levels n z2 nm [] Hf Hn Hmax Hz2) as (z4 & H4 & Hc4 & _).
  { unfold z2. by rewrite bytewise_contents, Hc, app_nil_r. }
  unfold luaU_undump in H4. rewrite H3 in H4. injection H4 as _ _ <- _.
  rewrite Hc3 in Hc4. apply app_eq_nil in Hc4. tauto.
Qed.

(** ** Stripped dumps *)

(** The function without its source name and debug information *)
Fixpoint strip_proto (f : Proto) : Proto :=
  mkProto (k f) (code f) (map strip_proto (p f)) [] [] [] None (linedefined f)
    (lastlinedefined f) (nups f) (numparams f) (is_vararg f) (maxstacksize f).

Lemma enc_strip outer f :
  enc_function true outer f = enc_function false None (strip_proto f).
Proof.
  revert outer. induction f as [f IH] using Proto_nested_ind. intros outer.
  rewrite !enc_function_eq. unfold enc_source. rewrite orb_true_r.
  destruct f as [ks co ps li lv up src l1 l2 n1 n2 n3 n4]. cbn [strip_proto Object.p k code
    source linedefined lastlinedefined nups numparams is_vararg maxstacksize sizep] in *.
  rewrite bool_decide_eq_true_2 by done. cbn [orb]. do 10 f_equal.
  - unfold sizep, lenZ. cbn. by rewrite length_map.
  - f_equal. induction IH as [|g ps Hg _ IHps]; [done|]. cbn. by rewrite Hg, IHps.
Qed.

(** A stripped dump is the dump of the function without source name, line
    information, local and upvalue names: nothing of the code is lost. *)
Theorem strip_dump f (d : bytes) :
  data (luaU_dump f d true) = data (luaU_dump (strip_proto f) d false).
Proof. rewrite !luaU_dump_bytes. cbn [data]. by rewrite enc_strip. Qed.

(** A chunk with one constant: a string of size 0 *)
Definition null_string_chunk : bytes :=
  luaU_header ++ enc_string None ++ enc_int 0 ++ enc_int 0 ++ [0; 0; 0; 2] ++
  enc_vector [CREATE_ABx OP_LOADK 0 0; CREATE_ABC OP_RETURN 0 2 0] ++
  (enc_int 1 ++ [LUA_TSTRING] ++ enc_string None) ++ enc_int 0 ++
  enc_int 0 ++ enc_int 0 ++ enc_int 0.

(** the loader accepts a string constant without text (size 0), which it
    stores as a string value with a NULL pointer: the verifier does not look
    at it, so that executing or naming such a constant dereferences NULL. *)
Theorem null_string_accepted :
  match luaU_undump 0 (bytewise null_string_chunk) (str "=x") with
  | Ret (f, _) => k f = [VNullString] /\ luaG_checkcode f = Ret true
  | _ => False
  end.
Proof. vm_compute. split; reflexivity. Qed.

(** ** Witnesses *)

Definition inner_proto : Proto :=
  mkProto [VNumber (cast_num (-2)); VBoolean 1] [CREATE_ABx OP_LOADK 0 0; CREATE_ABC OP_RETURN 0 2 0]
    [] [3; 3] [mkLocVar (Some (str "x")) 0 1] [] (Some (str "@a.lua")) 2 4 0 0 0 2.

Definition outer_proto : Proto :=
  mkProto [VString (str "print"); VNil] [CREATE_ABx OP_CLOSURE 0 0; CREATE_ABC OP_RETURN 0 1 0]
    [inner_proto] [1; 4] [] [] (Some (str "@a.lua")) 0 0 0 0 2 2.

Ltac field_ok :=
  repeat match goal with
  | |- _ /\ _ => split
  | |- Forall _ _ => constructor
  | |- is_Some (Some _) => by eexists
  | |- const_ok _ => red
  | |- string_ok _ => unfold string_ok; cbn [varname]
  | |- locvar_ok _ => red
  | |- is_count _ => split
  | |- is_byte _ => split
  | |- is_u32 _ => split
  | |- is_i32 _ => split
  | |- _ \/ _ => by right
  | |- _ <= _ => vm_compute; discriminate
  | |- _ < _ => vm_compute; reflexivity
  | |- _ = true => vm_compute; reflexivity
  | |- True => exact I
  end.

Lemma inner_fields : fields_ok inner_proto.
Proof. split; cbn; field_ok. Qed.

Lemma outer_loadable : loadable 2 outer_proto.
Proof.
  split; [split; cbn; field_ok|]. split; [|by vm_compute]. constructor; [|constructor].
  split; [apply inner_fields|]. split; [constructor|by vm_compute].
Qed.

Definition outer_bytes : bytes := data (luaU_dump outer_proto ([] : bytes) false).

Lemma outer_bytes_ok : Forall is_byte outer_bytes.
Proof. vm_compute. repeat constructor; discriminate. Qed.

Definition stripped_bytes : bytes := data (luaU_dump outer_proto ([] : bytes) true).

Lemma stripped_bytes_ok : Forall is_byte stripped_bytes.
Proof. vm_compute. repeat constructor; discriminate. Qed.

(** The same function, whole and stripped *)
Lemma dump_undump_witness :
  (exists z', luaU_undump 3 (bytewise outer_bytes) (str "=x") =
      Ret (outer_proto, mkLoadState 3 z' (chunk_name (str "=x"))) /\
    contents z' = [] /\ zio_ok z') /\
  (exists z', luaU_undump 3 (bytewise stripped_bytes) (str "=x") =
      Ret (stripped (Some (str "=?")) outer_proto, mkLoadState 3 z' (chunk_name (str "=x"))) /\
    contents z' = [] /\ zio_ok z').
Proof.
  split.
  - apply (dump_undump outer_proto false 2 3 (bytewise outer_bytes) (str "=x") []).
    + apply outer_loadable.
    + lia.
    + vm_compute. discriminate.
    + apply bytewise_ok, outer_bytes_ok.
    + by rewrite bytewise_contents, app_nil_r.
  - apply (dump_undump outer_proto true 2 3 (bytewise stripped_bytes) (str "=x") []).
    + apply outer_loadable.
    + lia.
    + vm_compute. discriminate.
    + apply bytewise_ok, stripped_bytes_ok.
    + by rewrite bytewise_contents, app_nil_r.
Defined.

Lemma undump_safe_witness :
  post (luaU_undump 0 (bytewise [27; 76; 1]) (str "=x"))
    (fun '(f, st) => checked f /\ zio_ok (stream st) /\ nCcalls st = 0).
Proof.
  apply (undump_safe 0 (bytewise [27; 76; 1]) (str "=x")); [lia|].
  apply bytewise_ok. repeat constructor; discriminate.
Defined.

Lemma truncated_rejected_witness :
  exists st msg, luaU_undump 0 (bytewise (take 40 outer_bytes)) (str "=x") = Throw st msg.
Proof.
  apply (truncated_rejected outer_proto 2 0 (bytewise (take 40 outer_bytes)) (str "=x")
    (drop 40 outer_bytes)).
  - apply outer_loadable.
  - lia.
  - vm_compute. discriminate.
  - apply bytewise_ok, Forall_take, outer_bytes_ok.
  - apply Forall_drop, outer_bytes_ok.
  - vm_compute. discriminate.
  - rewrite bytewise_contents. apply take_drop.
Defined.
