(* ===== verification/Table.v ===== *)
(** * Tables (ltable.c, the data of lobject.h)

    A table has an array part and a hash part, a chained scatter table with
    Brent's variation.  A [Node *] is the index of the node; the common
    [dummynode] of empty hash parts is a vector of one free node with the
    flag [dummy].  What the collector does to the key of an entry without
    value (lgc.c) is a constructor of [TKey].  A [TValue *] into a table is a
    [slot]; [None] is [luaO_nilobject].

    What depends on the machine is a parameter ([Host]): the addresses of
    objects, which only hash, and the result of converting a number out of
    the range of [int]. *)

From S2P Require Import Prelude Clib Object Lex Dump Lstring.

Class Host := {
  IntPoint : TValue -> Z;
  int_overflow : lua_Number -> Z
}.

(** ** Data *)

Inductive TKey :=
| LiveKey (v : TValue)
| DeadKey (v : TValue).

Record Node := mkNode {
  gval : TValue;
  gkey : TKey;
  gnext : option Z
}.

(** [sizearray] and [sizenode] are the lengths of the vectors. *)
Record Table := mkTable {
  flags : Z;
  metatable : option Z;
  array : list TValue;
  lsizenode : Z;
  node : list Node;
  dummy : bool;
  lastfree : Z
}.

Inductive slot := SArray (i : Z) | SNode (i : Z).

Definition MAXBITS : Z := 26.
Definition MAXASIZE : Z := Z.shiftl 1 MAXBITS.

Definition twoto (x : Z) : Z := Z.shiftl 1 x.
Definition sizenode (t : Table) : Z := twoto (lsizenode t).
Definition sizearray (t : Table) : Z := lenZ (array t).

Definition ceillog2 (x : Z) : outcome Z := l ← luaO_log2 (u32 (x - 1)); Ret (l + 1).

Definition dummynode : Node := mkNode VNil (LiveKey VNil) None.

(** *** Updating records *)

Definition with_array (a : list TValue) (t : Table) : Table :=
  mkTable (flags t) (metatable t) a (lsizenode t) (node t) (dummy t) (lastfree t).
Definition with_node (n : list Node) (t : Table) : Table :=
  mkTable (flags t) (metatable t) (array t) (lsizenode t) n (dummy t) (lastfree t).
Definition with_lastfree (i : Z) (t : Table) : Table :=
  mkTable (flags t) (metatable t) (array t) (lsizenode t) (node t) (dummy t) i.
Definition with_flags (x : Z) (t : Table) : Table :=
  mkTable x (metatable t) (array t) (lsizenode t) (node t) (dummy t) (lastfree t).

Definition set_gval (v : TValue) (n : Node) : Node := mkNode v (gkey n) (gnext n).
Definition set_gkey (v : TValue) (n : Node) : Node := mkNode (gval n) (LiveKey v) (gnext n).
Definition set_gnext (i : option Z) (n : Node) : Node := mkNode (gval n) (gkey n) i.

(** [gnode(t, i)], and a change of it *)
Definition gnode (t : Table) (i : Z) : outcome Node := deref (getZ (node t) i).
Definition upd_node (i : Z) (g : Node -> Node) (t : Table) : outcome Table :=
  n ← gnode t i; Ret (with_node (setZ (node t) i (g n)) t).

(** Tests on keys; [luaO_rawequalObj(key2tval(n), key)] is false when the key
    is dead, whose tag no value has. *)
Definition key_is (k : TKey) (p : TValue -> bool) : bool :=
  match k with LiveKey v => p v | DeadKey _ => false end.
Definition iscollectable (v : TValue) : bool := LUA_TSTRING <=? ttype v.

(** Reading and writing through a [TValue *] *)
Definition load (t : Table) (r : option slot) : outcome TValue :=
  match r with
  | None => Ret VNil
  | Some (SArray i) => deref (getZ (array t) i)
  | Some (SNode i) => n ← gnode t i; Ret (gval n)
  end.

Definition store (t : Table) (r : slot) (v : TValue) : outcome Table :=
  match r with
  | SArray i => deref (getZ (array t) i);; Ret (with_array (setZ (array t) i v) t)
  | SNode i => upd_node i (set_gval v) t
  end.

Section tables.
Context `{Host}.

(** [lua_number2int(k, n)] *)
Definition lua_number2int (n : lua_Number) : Z :=
  match trunc n with
  | Some z => if (- 2 ^ 31 <=? z) && (z <? 2 ^ 31) then z else i32 (int_overflow n)
  | None => i32 (int_overflow n)
  end.

(** ** Main positions *)

Definition hashpow2 (t : Table) (n : Z) : Z := lmod n (sizenode t).

(** [n] is unsigned. *)
Definition hashmod (t : Table) (n : Z) : Z := n mod (Z.lor (sizenode t - 1) 1).

Definition hashpointer (t : Table) (o : TValue) : Z := hashmod t (u32 (IntPoint o)).

Definition hashnum (t : Table) (n : lua_Number) : Z :=
  if luai_numeq n (cast_num 0) then 0
  else
    let bits := double_bits n in
    hashmod t (u32 (bits mod 2 ^ 32 + bits / 2 ^ 32)).

(** The hash of a string is a field of it. *)
Definition hashstr (t : Table) (s : bytes) : outcome Z :=
  h ← luaS_hash s; Ret (hashpow2 t h).

Definition mainposition (t : Table) (key : TValue) : outcome Z :=
  match key with
  | VNumber n => Ret (hashnum t n)
  | VString s => hashstr t s
  | VNullString => Undef
  | VBoolean b => Ret (hashpow2 t b)
  | _ => Ret (hashpointer t key)
  end.

(** A dead key hashes like an object. *)
Definition mainposition_key (t : Table) (k : TKey) : outcome Z :=
  match k with
  | LiveKey v => mainposition t v
  | DeadKey v => Ret (hashpointer t v)
  end.

Definition arrayindex (key : TValue) : Z :=
  match key with
  | VNumber n =>
      let k := lua_number2int n in
      if luai_numeq (cast_num k) n then k else -1
  | _ => -1
  end.

(** ** Search *)

(** [do { if (test(n)) return n; else n = gnext(n); } while (n)] *)
Fixpoint find_node (fuel : nat) (t : Table) (test : Node -> bool) (i : Z) : outcome (option Z) :=
  n ← gnode t i;
  if test n then Ret (Some i)
  else
    match gnext n with
    | None => Ret None
    | Some j =>
        match fuel with
        | O => Nofuel
        | S fuel => find_node fuel t test j
        end
    end.

(** A chain has at most [sizenode] nodes. *)
Definition search (t : Table) (test : Node -> bool) (i : Z) : outcome (option slot) :=
  r ← find_node (length (node t)) t test i;
  Ret (match r with Some i => Some (SNode i) | None => None end).

Definition luaH_getnum (t : Table) (key : Z) : outcome (option slot) :=
  if u32 (key - 1) <? u32 (sizearray t) then Ret (Some (SArray (key - 1)))
  else
    let nk := cast_num key in
    search t (fun n => key_is (gkey n) (fun k =>
      match k with VNumber m => luai_numeq m nk | _ => false end)) (hashnum t nk).

Definition luaH_getstr (t : Table) (key : bytes) : outcome (option slot) :=
  i ← hashstr t key;
  search t (fun n => key_is (gkey n) (fun k => bool_decide (k = VString key))) i.

Definition get_generic (t : Table) (key : TValue) : outcome (option slot) :=
  i ← mainposition t key;
  search t (fun n => key_is (gkey n) (fun k => luaO_rawequalObj k key)) i.

Definition luaH_get (t : Table) (key : TValue) : outcome (option slot) :=
  match key with
  | VNil => Ret None
  | VString s => luaH_getstr t s
  | VNullString => Undef
  | VNumber n =>
      let k := lua_number2int n in
      if luai_numeq (cast_num k) n then luaH_getnum t k else get_generic t key
  | _ => get_generic t key
  end.

(** ** Traversal *)

Definition findindex (t : Table) (key : TValue) : outcome Z :=
  if ttisnil key then Ret (-1)
  else
    let i := arrayindex key in
    if (0 <? i) && (i <=? sizearray t) then Ret (i - 1)
    else
      m ← mainposition t key;
      r ← find_node (length (node t)) t (fun n =>
            match gkey n with
            | LiveKey k => luaO_rawequalObj k key
            | DeadKey k => iscollectable key && bool_decide (k = key)
            end) m;
      match r with
      | Some i => Ret (i + sizearray t)
      | None => Throw LUA_ERRRUN (str "invalid key to 'next'")
      end.

(** The first value from [i] on in the array, and in the nodes *)
Fixpoint next_array (i : Z) (l : list TValue) : option (TValue * TValue) :=
  match l with
  | [] => None
  | v :: l => if negb (ttisnil v) then Some (VNumber (cast_num (i + 1)), v) else next_array (i + 1) l
  end.

Fixpoint next_node (l : list Node) : outcome (option (TValue * TValue)) :=
  match l with
  | [] => Ret None
  | n :: l =>
      if negb (ttisnil (gval n)) then
        match gkey n with
        | LiveKey k => Ret (Some (k, gval n))
        | DeadKey _ => Undef
        end
      else next_node l
  end.

(** The new key and its value, [None] at the end *)
Definition luaH_next (t : Table) (key : TValue) : outcome (option (TValue * TValue)) :=
  i ← findindex t key;
  let i := i + 1 in
  match next_array i (drop (Z.to_nat i) (array t)) with
  | Some r => Ret (Some r)
  | None =>
      let i := Z.max i (sizearray t) in
      next_node (drop (Z.to_nat (i - sizearray t)) (node t))
  end.

(** ** Rehash *)

Fixpoint computesizes_loop (fuel : nat) (nums : list Z) (narray i twotoi a na n : Z)
    : outcome (Z * Z) :=
  if Z.quot twotoi 2 <? narray then
    match fuel with
    | O => Nofuel
    | S fuel =>
        x ← deref (getZ nums i);
        let '(a, na, n) :=
          if 0 <? x then
            let a := a + x in
            if Z.quot twotoi 2 <? a then (a, a, twotoi) else (a, na, n)
          else (a, na, n) in
        if a =? narray then Ret (na, n)
        else computesizes_loop fuel nums narray (i + 1) (twotoi * 2) a na n
    end
  else Ret (na, n).

(** [na] and the new [*narray] *)
Definition computesizes (nums : list Z) (narray : Z) : outcome (Z * Z) :=
  computesizes_loop (S (Z.to_nat MAXBITS)) nums narray 0 1 0 0 0.

(** [nums[i] += d] *)
Definition add_num (nums : list Z) (i d : Z) : outcome (list Z) :=
  x ← deref (getZ nums i); Ret (setZ nums i (x + d)).

(** The result of the function and the new [nums] *)
Definition countint (key : TValue) (nums : list Z) : outcome (Z * list Z) :=
  let k := arrayindex key in
  if (0 <? k) && (k <=? MAXASIZE) then
    l ← ceillog2 k;
    nums ← add_num nums l 1;
    Ret (1, nums)
  else Ret (0, nums).

(** The values of the array from [i] to [lim], counting from 1 *)
Definition used_slots (t : Table) (i lim : Z) : Z :=
  lenZ (filter (fun v => ttisnil v = false)
          (take (Z.to_nat (lim - i + 1)) (drop (Z.to_nat (i - 1)) (array t)))).

Fixpoint numusearray_loop (fuel : nat) (t : Table) (lg ttlg i ause : Z) (nums : list Z)
    : outcome (Z * list Z) :=
  if lg <=? MAXBITS then
    match fuel with
    | O => Nofuel
    | S fuel =>
        let lim := if sizearray t <? ttlg then sizearray t else ttlg in
        if (sizearray t <? ttlg) && (lim <? i) then Ret (ause, nums)
        else
          let lc := used_slots t i lim in
          nums ← add_num nums lg lc;
          numusearray_loop fuel t (lg + 1) (ttlg * 2) (Z.max i (lim + 1)) (ause + lc) nums
    end
  else Ret (ause, nums).

Definition numusearray (t : Table) (nums : list Z) : outcome (Z * list Z) :=
  numusearray_loop (S (Z.to_nat MAXBITS)) t 0 1 1 0 nums.

(** One node: [ause], [totaluse] and [nums]; the nodes are counted from the
    last one to the first one. *)
Definition count_node (n : Node) (st : Z * Z * list Z) : outcome (Z * Z * list Z) :=
  let '(ause, totaluse, nums) := st in
  if negb (ttisnil (gval n)) then
    match gkey n with
    | LiveKey k => '(c, nums) ← countint k nums; Ret (ause + c, totaluse + 1, nums)
    | DeadKey _ => Ret (ause, totaluse + 1, nums)
    end
  else Ret st.

Fixpoint count_nodes (l : list Node) (st : Z * Z * list Z) : outcome (Z * Z * list Z) :=
  match l with
  | [] => Ret st
  | n :: l => st ← count_nodes l st; count_node n st
  end.

(** [totaluse], the new [*pnasize] and [nums] *)
Definition numusehash (t : Table) (nums : list Z) (pnasize : Z) : outcome (Z * Z * list Z) :=
  '(ause, totaluse, nums) ← count_nodes (node t) (0, 0, nums);
  Ret (totaluse, pnasize + ause, nums).

Definition setarrayvector (t : Table) (size : Z) : Table :=
  with_array (take (Z.to_nat size) (array t)
              ++ replicate (Z.to_nat size - length (array t)) VNil) t.

Definition setnodevector (t : Table) (size : Z) : outcome Table :=
  if size =? 0 then
    Ret (mkTable (flags t) (metatable t) (array t) 0 [dummynode] true 0)
  else
    lsize ← ceillog2 size;
    if MAXBITS <? lsize then Throw LUA_ERRRUN (str "table overflow")
    else
      let size := twoto lsize in
      Ret (mkTable (flags t) (metatable t) (array t) lsize
             (replicate (Z.to_nat size) dummynode) false size).

Section insertion.
(** [newkey], for the calls inside of a rehash *)
Variable newkey : Table -> TValue -> outcome (Table * slot).

Definition set_with (t : Table) (key : TValue) : outcome (Table * slot) :=
  p ← luaH_get t key;
  let t := with_flags 0 t in
  match p with
  | Some r => Ret (t, r)
  | None =>
      if ttisnil key then Throw LUA_ERRRUN (str "table index is nil")
      else if match key with VNumber n => luai_numisnan n | _ => false end
      then Throw LUA_ERRRUN (str "table index is NaN")
      else newkey t key
  end.

Definition setnum_with (t : Table) (key : Z) : outcome (Table * slot) :=
  p ← luaH_getnum t key;
  match p with
  | Some r => Ret (t, r)
  | None => newkey t (VNumber (cast_num key))
  end.

Definition setstr_with (t : Table) (key : bytes) : outcome (Table * slot) :=
  p ← luaH_getstr t key;
  match p with
  | Some r => Ret (t, r)
  | None => newkey t (VString key)
  end.

(** The values of the vanishing slice, the first one at index [i] *)
Fixpoint reinsert_array (t : Table) (i : Z) (l : list TValue) : outcome Table :=
  match l with
  | [] => Ret t
  | v :: l =>
      t ← (if negb (ttisnil v) then '(t, r) ← setnum_with t (i + 1); store t r v else Ret t);
      reinsert_array t (i + 1) l
  end.

Definition reinsert_node (t : Table) (old : Node) : outcome Table :=
  if negb (ttisnil (gval old)) then
    match gkey old with
    | LiveKey k => '(t, r) ← set_with t k; store t r (gval old)
    | DeadKey _ => Undef
    end
  else Ret t.

(** The old nodes, from the last one to the first one *)
Fixpoint reinsert_nodes (t : Table) (l : list Node) : outcome Table :=
  match l with
  | [] => Ret t
  | old :: l => t ← reinsert_nodes t l; reinsert_node t old
  end.

Definition resize (t : Table) (nasize nhsize : Z) : outcome Table :=
  let oldarray := array t in
  let nold := node t in
  let t := if sizearray t <? nasize then setarrayvector t nasize else t in
  t ← setnodevector t nhsize;
  t ← (if nasize <? lenZ oldarray then
         reinsert_array (setarrayvector t nasize) nasize (drop (Z.to_nat nasize) oldarray)
       else Ret t);
  reinsert_nodes t nold.

Definition rehash (t : Table) (ek : TValue) : outcome Table :=
  let nums := replicate (S (Z.to_nat MAXBITS)) 0 in
  '(nasize, nums) ← numusearray t nums;
  let totaluse := nasize in
  '(n, nasize, nums) ← numusehash t nums nasize;
  let totaluse := totaluse + n in
  '(c, nums) ← countint ek nums;
  let nasize := nasize + c in
  let totaluse := totaluse + 1 in
  '(na, nasize) ← computesizes nums nasize;
  resize t nasize (totaluse - na).

(** ** Insertion *)

(** The nodes below [lastfree], from the last one *)
Fixpoint getfreepos_loop (n : nat) (t : Table) : outcome (option Z * Table) :=
  match n with
  | O => Ret (None, with_lastfree (-1) t)
  | S n =>
      x ← gnode t (Z.of_nat n);
      if key_is (gkey x) ttisnil then Ret (Some (Z.of_nat n), with_lastfree (Z.of_nat n) t)
      else getfreepos_loop n t
  end.

(** [lastfree] goes below the first node when there is none. *)
Definition getfreepos (t : Table) : outcome (option Z * Table) :=
  if lastfree t <=? 0 then Ret (None, with_lastfree (lastfree t - 1) t)
  else getfreepos_loop (Z.to_nat (lastfree t)) t.

(** [while (gnext(othern) != mp) othern = gnext(othern)] *)
Fixpoint find_previous (fuel : nat) (t : Table) (othern mp : Z) : outcome Z :=
  x ← gnode t othern;
  match gnext x with
  | Some j =>
      if j =? mp then Ret othern
      else match fuel with O => Nofuel | S fuel => find_previous fuel t j mp end
  | None => Undef
  end.

(** Make the main position of a new key free: its place in the end *)
Definition make_room (t : Table) (mp n : Z) : outcome (Table * Z) :=
  x ← gnode t mp;
  othern ← mainposition_key t (gkey x);
  if negb (othern =? mp) then
    prev ← find_previous (length (node t)) t othern mp;
    t ← upd_node prev (set_gnext (Some n)) t;
    x ← gnode t mp;
    t ← upd_node n (fun _ => x) t;
    t ← upd_node mp (set_gnext None) t;
    t ← upd_node mp (set_gval VNil) t;
    Ret (t, mp)
  else
    t ← upd_node n (set_gnext (gnext x)) t;
    t ← upd_node mp (set_gnext (Some n)) t;
    Ret (t, n).

Definition newkey_rule (t : Table) (key : TValue) : outcome (Table * slot) :=
  mp ← mainposition t key;
  x ← gnode t mp;
  if negb (ttisnil (gval x)) || dummy t then
    '(n, t) ← getfreepos t;
    match n with
    | None => t ← rehash t key; set_with t key
    | Some n =>
        '(t, mp) ← make_room t mp n;
        t ← upd_node mp (set_gkey key) t;
        Ret (t, SNode mp)
    end
  else
    t ← upd_node mp (set_gkey key) t;
    Ret (t, SNode mp).
End insertion.

(** [newkey] with [n] rehashes inside of each other *)
Fixpoint newkeys (n : nat) : Table -> TValue -> outcome (Table * slot) :=
  match n with
  | O => fun _ _ => Nofuel
  | S n => newkey_rule (newkeys n)
  end.

(** A rehash makes room for the key and for the entries it inserts again, so
    that no other one takes place inside of it. *)
Definition newkey : Table -> TValue -> outcome (Table * slot) := newkeys 2.

Definition luaH_set : Table -> TValue -> outcome (Table * slot) := set_with newkey.
Definition luaH_setnum : Table -> Z -> outcome (Table * slot) := setnum_with newkey.
Definition luaH_setstr : Table -> bytes -> outcome (Table * slot) := setstr_with newkey.

Definition luaH_resizearray (t : Table) (nasize : Z) : outcome Table :=
  let nsize := if dummy t then 0 else sizenode t in
  resize newkey t nasize nsize.

Definition luaH_new (narray nhash : Z) : outcome Table :=
  let t := mkTable (u8 (-1)) None [] 0 [dummynode] true 0 in
  setnodevector (setarrayvector t narray) nhash.

(** What the collector does to the nodes of a table it has marked
    (lgc.c: [removeentry]) *)
Definition removeentry (n : Node) : Node :=
  match gkey n with
  | LiveKey k => if iscollectable k then mkNode (gval n) (DeadKey k) (gnext n) else n
  | DeadKey _ => n
  end.

Definition clear_dead (t : Table) : Table :=
  with_node ((fun n => if ttisnil (gval n) then removeentry n else n) <$> node t) t.

(** ** Length *)

(** Whether [t[j]] is nil *)
Definition absent (t : Table) (j : Z) : outcome bool :=
  r ← luaH_getnum t j; v ← load t r; Ret (ttisnil v).

Fixpoint linear_search (fuel : nat) (t : Table) (i : Z) : outcome Z :=
  b ← absent t i;
  if (b : bool) then Ret (i - 1)
  else match fuel with O => Nofuel | S fuel => linear_search fuel t (i + 1) end.

(** [absent] tells whether the element [m] is nil. *)
Fixpoint binary_search (fuel : nat) (absent : Z -> outcome bool) (i j : Z) : outcome Z :=
  if 1 <? j - i then
    match fuel with
    | O => Nofuel
    | S fuel =>
        let m := (i + j) / 2 in
        b ← absent m;
        if (b : bool) then binary_search fuel absent i m else binary_search fuel absent m j
    end
  else Ret i.

(** [i] is zero or a present index; a table has no more present indices than
    slots. *)
Fixpoint unbound_loop (fuel : nat) (t : Table) (i j : Z) : outcome Z :=
  b ← absent t j;
  if (b : bool) then binary_search 32 (absent t) i j
  else
    let i := j in
    let j := u32 (j * 2) in
    if MAX_INT <? j then linear_search (length (array t) + length (node t)) t 1
    else match fuel with O => Nofuel | S fuel => unbound_loop fuel t i j end.

Definition unbound_search (t : Table) (j : Z) : outcome Z := unbound_loop 32 t j (u32 (j + 1)).

Definition luaH_getn (t : Table) : outcome Z :=
  let j := sizearray t in
  last ← (if 0 <? j then deref (getZ (array t) (j - 1)) else Ret (VBoolean 1));
  if (0 <? j) && ttisnil last then
    binary_search 32 (fun m => v ← deref (getZ (array t) (m - 1)); Ret (ttisnil v)) 0 j
  else if dummy t then Ret j
  else unbound_search t j.
End tables.
