(* ===== verification/TableNum.v ===== *)
(** * Keys, numbers and the invariant of tables

    Integers of type [int] are exact numbers; raw equality of keys is
    equality of their normal forms, in which 0 stands for -0.  Then the invariant of tables
    and the map from normal forms to values that a table stands for. *)

From Stdlib Require Import SpecFloat.
From S2P Require Import Prelude Clib Object Lex Lstring Dump Table.

(** ** Integers as numbers *)

Definition small (z : Z) : Prop := Z.abs z < 2 ^ 53.

Lemma digits2_pos_log2 q : Z.pos (digits2_pos q) = Z.log2 (Z.pos q) + 1.
Proof.
  induction q as [q IH|q IH|]; cbn [digits2_pos]; [| |done].
  - rewrite Pos2Z.inj_succ, IH. change (Z.pos q~1) with (2 * Z.pos q + 1).
    rewrite Z.log2_succ_double by lia. lia.
  - rewrite Pos2Z.inj_succ, IH. change (Z.pos q~0) with (2 * Z.pos q).
    rewrite Z.log2_double by lia. lia.
Qed.

Lemma digits2_mul m q e :
  0 <= e -> Z.pos m = Z.pos q * 2 ^ e -> Z.pos (digits2_pos m) = Z.pos (digits2_pos q) + e.
Proof.
  intros He Hm. rewrite !digits2_pos_log2, Hm, <- Z.shiftl_mul_pow2, Z.log2_shiftl by lia. lia.
Qed.

(** A mantissa of 53 digits is not changed. *)
Lemma round_exact s m e :
  Z.pos (digits2_pos m) = 53 -> -53 <= e <= 0 ->
  binary_round_aux prec emax s (Z.pos m) e loc_Exact = S754_finite s m e.
Proof.
  intros Hd He. unfold binary_round_aux, shr_fexp. cbn [Zdigits2 shr_record_of_loc].
  rewrite Hd. unfold fexp, emin, prec, emax.
  replace (Z.max (53 + e - 53) (3 - 1024 - 53) - e) with 0 by lia. cbn [shr shr_m loc_of_shr_record round_nearest_even].
  cbn [Zdigits2]. rewrite Hd.
  replace (Z.max (53 + e - 53) (3 - 1024 - 53) - e) with 0 by lia. cbn [shr shr_m].
  rewrite (proj2 (Z.leb_le _ _)) by lia. done.
Qed.

Lemma cast_num_pos s q :
  Z.pos q < 2 ^ 53 -> exists m e, binary_round prec emax s q 0 = S754_finite s m e /\
    -53 <= e <= 0 /\ Z.pos m = Z.pos q * 2 ^ (- e).
Proof.
  intros Hq. pose proof (digits2_pos_log2 q) as Hd.
  assert (Hl : Z.log2 (Z.pos q) < 53) by (apply Z.log2_lt_pow2; lia).
  unfold binary_round. set (d := Z.pos (digits2_pos q)) in *.
  unfold fexp, emin. replace (Z.max (d + 0 - prec) (3 - emax - prec)) with (d - 53) by (unfold prec, emax; lia).
  unfold shl_align. rewrite Z.sub_0_r. destruct (d - 53) as [|x|x] eqn:E; [|lia|].
  - exists q, 0. rewrite round_exact by lia. split; [done|]. split; lia.
  - change (Pos.iter xO q x) with (shift_pos x q). exists (shift_pos x q), (Z.neg x).
    assert (Hm : Z.pos (shift_pos x q) = Z.pos q * 2 ^ Z.pos x).
    { rewrite shift_pos_correct. change (2 ^ Z.pos x) with (Z.pow_pos 2 x). lia. }
    rewrite round_exact; [split; [done|split; [lia|done]]| |lia].
    rewrite (digits2_mul _ q (Z.pos x)) by (done || lia). lia.
Qed.

Lemma cast_num_shape z :
  small z -> z <> 0 -> exists m e, cast_num z = S754_finite (z <? 0) m e /\
    -53 <= e <= 0 /\ Z.pos m = Z.abs z * 2 ^ (- e).
Proof.
  unfold small, cast_num, binary_normalize. intros Hz Hn. destruct z as [|q|q]; [done| |].
  - by apply cast_num_pos.
  - by apply cast_num_pos.
Qed.

Lemma trunc_cast_num z : small z -> trunc (cast_num z) = Some z.
Proof.
  intros Hz. destruct (decide (z = 0)) as [->|Hn]; [done|].
  destruct (cast_num_shape z Hz Hn) as (m & e & -> & He & Hm). cbn. f_equal.
  assert (E : (if 0 <=? e then Z.pos m * 2 ^ e else Z.pos m / 2 ^ (- e)) = Z.abs z).
  { rewrite Hm. destruct (Z.leb_spec 0 e).
    - replace e with 0 by lia. change (2 ^ (- 0)) with 1. change (2 ^ 0) with 1. lia.
    - apply Z.div_mul. lia. }
  rewrite E. destruct (Z.ltb_spec z 0); cbn; lia.
Qed.

Lemma small_i32 z : is_i32 z -> small z.
Proof. unfold is_i32, small. lia. Qed.

Lemma cast_num_inj a b : small a -> small b -> cast_num a = cast_num b -> a = b.
Proof.
  intros Ha Hb E. apply trunc_cast_num in Ha, Hb. rewrite E in Ha. rewrite Ha in Hb. by injection Hb.
Qed.

Lemma cast_num_not_nan z : small z -> cast_num z <> S754_nan.
Proof. intros Hz E. apply trunc_cast_num in Hz. by rewrite E in Hz. Qed.

(** ** Equality of numbers *)

Definition norm_num (n : lua_Number) : lua_Number :=
  match n with S754_zero _ => S754_zero false | _ => n end.

Lemma numeq_norm a b :
  a <> S754_nan -> luai_numeq a b = bool_decide (norm_num a = norm_num b).
Proof.
  intros Ha. unfold luai_numeq, SFeqb.
  destruct (SFcompare a b) as [[]|] eqn:E; symmetry.
  all: destruct a as [s|s| |s m e], b as [s'|s'| |s' m' e']; cbn in *; try done;
    try (apply bool_decide_eq_true_2; done); try (apply bool_decide_eq_false_2; congruence).
  all: try (destruct s, s'; try done; try (apply bool_decide_eq_true_2; done);
    try (apply bool_decide_eq_false_2; congruence)).
  all: destruct (Z.compare_spec e e') as [->| |]; cbn in *; try done;
    try (apply bool_decide_eq_false_2; intros [=]; lia).
  all: try (change (Pos.compare_cont Eq m m') with (Pos.compare m m') in E).
  all: destruct (Pos.compare_spec m m') as [->| |]; cbn in *; try done;
    try (apply bool_decide_eq_true_2; done); try (apply bool_decide_eq_false_2; intros [=]; lia).
Qed.

Lemma numeq_nan_l b : luai_numeq S754_nan b = false.
Proof. done. Qed.

Lemma isnan_spec n : luai_numisnan n = bool_decide (n = S754_nan).
Proof.
  destruct (decide (n = S754_nan)) as [->|Hn]; [done|].
  unfold luai_numisnan. rewrite numeq_norm by done.
  by rewrite bool_decide_true, bool_decide_false by done.
Qed.

Lemma norm_cast_num z : small z -> norm_num (cast_num z) = cast_num z.
Proof.
  intros Hz. destruct (decide (z = 0)) as [->|Hn]; [done|].
  by destruct (cast_num_shape z Hz Hn) as (m & e & -> & _).
Qed.

Lemma numeq_cast a b : small a -> small b -> luai_numeq (cast_num a) (cast_num b) = (a =? b).
Proof.
  intros Ha Hb. rewrite numeq_norm by (by apply cast_num_not_nan).
  rewrite !norm_cast_num by done. destruct (Z.eqb_spec a b) as [->|].
  - by rewrite bool_decide_true.
  - rewrite bool_decide_false; [done|]. intros E. by apply cast_num_inj in E.
Qed.

Lemma numeq_cast_nz z n :
  small z -> luai_numeq (cast_num z) n = true -> n = cast_num z \/ (z = 0 /\ exists s, n = S754_zero s).
Proof.
  intros Hz. rewrite numeq_norm by (by apply cast_num_not_nan). rewrite bool_decide_eq_true.
  rewrite norm_cast_num by done. destruct n as [s|s| |s m e]; cbn; intros E; auto.
  right. split; [|eauto]. apply cast_num_inj; [done|done|]. by rewrite E.
Qed.

(** ** Conversion to [int] *)

Section host.
Context `{Host}.

Lemma number2int_range n : is_i32 (lua_number2int n).
Proof.
  unfold lua_number2int. pose proof (i32_range (int_overflow n)).
  destruct (trunc n); [|done]. case_if; [|done]. bool_facts. unfold is_i32. lia.
Qed.

Lemma number2int_cast z : is_i32 z -> lua_number2int (cast_num z) = z.
Proof.
  intros Hz. unfold lua_number2int. rewrite trunc_cast_num by (by apply small_i32).
  unfold is_i32 in Hz. rewrite (proj2 (Z.leb_le _ _)), (proj2 (Z.ltb_lt _ _)) by lia. done.
Qed.

Lemma number2int_zero s : lua_number2int (S754_zero s) = 0.
Proof. done. Qed.

(** The index of a key depends on the number only up to equality. *)
Lemma arrayindex_norm n : arrayindex (VNumber (norm_num n)) = arrayindex (VNumber n).
Proof. by destruct n as [s|s| |s m e]; [destruct s|..]. Qed.

Lemma arrayindex_num z : is_i32 z -> arrayindex (VNumber (cast_num z)) = z.
Proof.
  intros Hz. cbn. rewrite number2int_cast by done.
  rewrite numeq_cast, Z.eqb_refl by (by apply small_i32). done.
Qed.

Lemma arrayindex_pos key : 0 < arrayindex key -> key = VNumber (cast_num (arrayindex key)).
Proof.
  unfold arrayindex. destruct key as [| | |n| | | | | |]; try lia.
  pose proof (number2int_range n) as Hr. destruct (luai_numeq _ n) eqn:E; [|lia].
  intros Hp. f_equal. apply numeq_cast_nz in E as [->|[E _]]; [|lia|by apply small_i32].
  by rewrite number2int_cast.
Qed.

Lemma arrayindex_range key : -2 ^ 31 <= arrayindex key < 2 ^ 31.
Proof.
  unfold arrayindex. destruct key as [| | |n| | | | | |]; try lia.
  pose proof (number2int_range n) as Hr. unfold is_i32 in Hr. destruct (luai_numeq _ n); lia.
Qed.
End host.

(** ** Equality of keys *)

Definition norm_key (v : TValue) : TValue :=
  match v with VNumber n => VNumber (norm_num n) | _ => v end.

Definition nan_key (v : TValue) : bool :=
  match v with VNumber n => luai_numisnan n | _ => false end.

Lemma rawequal_norm a b :
  nan_key a = false -> luaO_rawequalObj a b = bool_decide (norm_key a = norm_key b).
Proof.
  intros Ha. unfold luaO_rawequalObj.
  destruct a as [|x|x|x|x| |x|x|x|x], b as [|y|y|y|y| |y|y|y|y]; cbn; try done;
    try (symmetry; apply bool_decide_eq_false_2; congruence).
  - destruct (Z.eqb_spec x y) as [->|]; symmetry;
      [by apply bool_decide_eq_true_2|apply bool_decide_eq_false_2; congruence].
  - destruct (Z.eqb_spec x y) as [->|]; symmetry;
      [by apply bool_decide_eq_true_2|apply bool_decide_eq_false_2; congruence].
  - rewrite numeq_norm. 2:{ intros ->. done. }
    apply bool_decide_ext. split; [by intros ->|by intros [=]].
Qed.

Lemma norm_key_nil v : norm_key v = VNil <-> v = VNil.
Proof. by destruct v. Qed.

Lemma norm_key_idem v : norm_key (norm_key v) = norm_key v.
Proof. destruct v as [| | |[]| | | | | |]; done. Qed.

(** * The invariant of tables, and searches

    The nodes of the hash part fall into chains [cs]; a node is visible when
    it is in its chain at or after the main position of its key.  Searches
    see exactly the visible nodes.  [elems t] is the association list that a
    table stands for, [assoc] the lookup in it. *)


(** ** Lists *)

Lemma setZ_split {A} (l : list A) i x :
  getZ l i = Some x -> exists a b, l = a ++ x :: b /\ lenZ a = i /\
    forall y, setZ l i y = a ++ y :: b.
Proof.
  intros Hi. pose proof (getZ_Some _ _ _ Hi) as Hr. unfold getZ, setZ in *.
  destruct (Z.leb_spec 0 i); [|lia].
  exists (take (Z.to_nat i) l), (drop (S (Z.to_nat i)) l). split_and!.
  - symmetry. by apply take_drop_middle.
  - unfold lenZ in *. rewrite length_take. lia.
  - intros y. apply insert_take_drop. unfold lenZ in *. lia.
Qed.

Definition idx {A} (l : list A) : list Z := Z.of_nat <$> seq 0 (length l).

Lemma elem_of_idx {A} (l : list A) i : i ∈ idx l <-> 0 <= i < lenZ l.
Proof.
  unfold idx, lenZ. rewrite list_elem_of_fmap. split.
  - intros (n & -> & Hn%elem_of_seq). lia.
  - intros Hi. exists (Z.to_nat i). split; [lia|]. apply elem_of_seq. lia.
Qed.

Lemma NoDup_idx {A} (l : list A) : NoDup (idx l).
Proof. unfold idx. apply NoDup_fmap_2; [intros x y E; lia|]. apply list.NoDup_seq. Qed.

(** ** Chains *)

Fixpoint linked (ns : list Node) (l : list Z) : Prop :=
  match l with
  | [] => True
  | x :: l => (exists n, getZ ns x = Some n /\ gnext n = head l) /\ linked ns l
  end.

Record chains (ns : list Node) (cs : list (list Z)) : Prop := {
  ch_linked : Forall (linked ns) cs;
  ch_part : concat cs ≡ₚ idx ns
}.

(** Following the chain from [m] leads to [i]. *)
Definition reach (cs : list (list Z)) (m i : Z) : Prop :=
  exists l1 l2, l1 ++ m :: l2 ∈ cs /\ i ∈ m :: l2.

Lemma elem_of_concat {A} (x : A) (cs : list (list A)) : x ∈ concat cs <-> exists c, c ∈ cs /\ x ∈ c.
Proof.
  rewrite list_elem_of_In, in_concat. setoid_rewrite list_elem_of_In. done.
Qed.

Lemma chains_NoDup ns cs : chains ns cs -> NoDup (concat cs).
Proof. intros [_ Hp]. rewrite Hp. apply NoDup_idx. Qed.

Lemma chains_range ns cs c x : chains ns cs -> c ∈ cs -> x ∈ c -> 0 <= x < lenZ ns.
Proof.
  intros [_ Hp] Hc Hx. apply elem_of_idx. rewrite <- Hp. apply elem_of_concat. eauto.
Qed.

Lemma chains_in ns cs x : chains ns cs -> 0 <= x < lenZ ns -> exists l1 l2, l1 ++ x :: l2 ∈ cs.
Proof.
  intros [_ Hp] Hx%elem_of_idx. rewrite <- Hp in Hx. apply elem_of_concat in Hx as (c & Hc & Hx).
  apply list_elem_of_split in Hx as (l1 & l2 & ->). eauto.
Qed.

Lemma concat_unique {A} (cs : list (list A)) c c' x :
  NoDup (concat cs) -> c ∈ cs -> c' ∈ cs -> x ∈ c -> x ∈ c' -> c = c'.
Proof.
  induction cs as [|d cs IH]; [by intros _ ?%not_elem_of_nil|].
  cbn. intros (H1 & H2 & H3)%list.NoDup_app. rewrite !elem_of_cons.
  intros [->|Hc] [->|Hc'] Hx Hx'; try done; [exfalso| exfalso|by apply IH].
  - apply (H2 x Hx). apply elem_of_concat. eauto.
  - apply (H2 x Hx'). apply elem_of_concat. eauto.
Qed.

Lemma concat_NoDup_in {A} (cs : list (list A)) c : NoDup (concat cs) -> c ∈ cs -> NoDup c.
Proof.
  induction cs as [|d cs IH]; [by intros _ ?%not_elem_of_nil|].
  cbn. intros (H1 & H2 & H3)%list.NoDup_app. rewrite elem_of_cons. intros [->|]; auto.
Qed.

Lemma NoDup_split_unique {A} (l1 l2 l1' l2' : list A) x :
  NoDup (l1 ++ x :: l2) -> l1 ++ x :: l2 = l1' ++ x :: l2' -> l1 = l1' /\ l2 = l2'.
Proof.
  revert l1'. induction l1 as [|y l1 IH]; intros [|y' l1'] Hn E; cbn in *.
  - by injection E.
  - injection E as <- ->. apply list.NoDup_cons in Hn as [Hn _]. destruct Hn.
    apply elem_of_app. right. apply elem_of_cons. by left.
  - injection E as -> <-. apply list.NoDup_cons in Hn as [Hn _]. destruct Hn.
    apply elem_of_app. right. apply elem_of_cons. by left.
  - injection E as -> E. apply list.NoDup_cons in Hn as [_ Hn].
    destruct (IH _ Hn E) as [-> ->]. done.
Qed.

Lemma reach_suffix ns cs l1 m l2 i :
  chains ns cs -> l1 ++ m :: l2 ∈ cs -> reach cs m i -> i ∈ m :: l2.
Proof.
  intros Hc Hin (l1' & l2' & Hin' & Hi). pose proof (chains_NoDup _ _ Hc) as Hn.
  assert (E : l1 ++ m :: l2 = l1' ++ m :: l2').
  { eapply concat_unique; [exact Hn|done|done|..]; apply elem_of_app; right; apply elem_of_cons; by left. }
  apply NoDup_split_unique in E as [_ <-]; [done|]. by eapply concat_NoDup_in.
Qed.

Lemma reach_self ns cs i : chains ns cs -> 0 <= i < lenZ ns -> reach cs i i.
Proof.
  intros Hc Hi. destruct (chains_in _ _ _ Hc Hi) as (l1 & l2 & Hin).
  exists l1, l2. split; [done|]. apply elem_of_cons. by left.
Qed.

Lemma reach_range ns cs m i : chains ns cs -> reach cs m i -> 0 <= m < lenZ ns /\ 0 <= i < lenZ ns.
Proof.
  intros Hc (l1 & l2 & Hin & Hi). split; (eapply chains_range; [done|exact Hin|]);
    apply elem_of_app; right; [apply elem_of_cons; by left|done].
Qed.

Lemma reach_antisym ns cs i j : chains ns cs -> reach cs i j -> reach cs j i -> i = j.
Proof.
  intros Hc (l1 & l2 & Hin & Hj) Hr. apply elem_of_cons in Hj as [->|Hj]; [done|].
  apply list_elem_of_split in Hj as (a & b & ->).
  assert (E : l1 ++ i :: a ++ j :: b = (l1 ++ i :: a) ++ j :: b) by (by rewrite <- app_assoc).
  pose proof (concat_NoDup_in _ _ (chains_NoDup _ _ Hc) Hin) as Hn. rewrite E in Hin, Hn.
  pose proof (reach_suffix _ _ _ _ _ _ Hc Hin Hr) as Hi.
  apply list.NoDup_app in Hn as (_ & Hn & _). destruct (Hn i); [|done].
  apply elem_of_app. right. apply elem_of_cons. by left.
Qed.

Lemma linked_suffix ns l1 l2 : linked ns (l1 ++ l2) -> linked ns l2.
Proof. induction l1 as [|x l1 IH]; cbn; [done|]. intros [_ H]. auto. Qed.

Lemma linked_frame ns ns' l :
  (forall x n, x ∈ l -> getZ ns x = Some n -> exists n', getZ ns' x = Some n' /\ gnext n' = gnext n) ->
  linked ns l -> linked ns' l.
Proof.
  induction l as [|x l IH]; cbn; [done|]. intros Hf [(n & Hn & E) H]. split.
  - destruct (Hf x n) as (n' & Hn' & E'); [apply elem_of_cons; by left|done|]. exists n'. by rewrite E'.
  - apply IH; [|done]. intros y m Hy. apply Hf, elem_of_cons. by right.
Qed.

Lemma chains_length ns cs c : chains ns cs -> c ∈ cs -> (length c <= length ns)%nat.
Proof.
  intros Hc Hin. assert (Hs : c ⊆ idx ns).
  { intros x Hx. apply elem_of_idx. by eapply chains_range. }
  pose proof (concat_NoDup_in _ _ (chains_NoDup _ _ Hc) Hin) as Hn.
  pose proof (submseteq_length _ _ (NoDup_submseteq _ _ Hn Hs)) as Hl.
  unfold idx in Hl. by rewrite length_fmap, length_seq in Hl.
Qed.

(** ** Searching a chain *)

Definition passes (ns : list Node) (test : Node -> bool) (i : Z) : Prop :=
  exists n, getZ ns i = Some n /\ test n = true.

Lemma find_node_linked fuel t test x l :
  linked (node t) (x :: l) -> (length l <= fuel)%nat ->
  exists r, find_node fuel t test x = Ret r /\
    match r with
    | Some i => i ∈ x :: l /\ passes (node t) test i
    | None => forall i, i ∈ x :: l -> ~ passes (node t) test i
    end.
Proof.
  revert x l. induction fuel as [|fuel IH]; intros x l [(n & Hn & E) H] Hf;
    (destruct l as [|y l]; [|try (cbn in Hf; lia)]); cbn [find_node]; unfold gnode; rewrite Hn; cbn;
    destruct (test n) eqn:Et.
  1,3,5: eexists; split; [done|]; split; [apply elem_of_cons; by left|by exists n].
  1,2: rewrite E; cbn; eexists; split; [done|]; intros i Hi%list_elem_of_singleton; subst i;
    intros (n' & Hn' & Ht); congruence.
  rewrite E. cbn. destruct (IH y l H) as (r & Hr & Hspec); [cbn in Hf; lia|]. exists r.
  split; [done|]. destruct r as [i|].
  - destruct Hspec as [Hi Hp]. split; [apply elem_of_cons; by right|done].
  - intros i [->|Hi]%elem_of_cons; [|by apply Hspec]. intros (n' & Hn' & Ht). congruence.
Qed.

Lemma find_node_spec t cs test m :
  chains (node t) cs -> 0 <= m < lenZ (node t) ->
  exists r, find_node (length (node t)) t test m = Ret r /\
    match r with
    | Some i => reach cs m i /\ passes (node t) test i
    | None => forall i, reach cs m i -> ~ passes (node t) test i
    end.
Proof.
  intros Hc Hm. destruct (chains_in _ _ _ Hc Hm) as (l1 & l2 & Hin).
  pose proof (chains_length _ _ _ Hc Hin) as Hl. rewrite length_app in Hl. cbn in Hl.
  destruct (find_node_linked (length (node t)) t test m l2) as (r & Hr & Hspec).
  - eapply linked_suffix. pose proof (ch_linked _ _ Hc) as Hk. rewrite Forall_forall in Hk.
    by apply Hk, list_elem_of_In.
  - lia.
  - exists r. split; [done|]. destruct r as [i|].
    + destruct Hspec as [Hi Hp]. split; [|done]. by exists l1, l2.
    + intros i Hi. apply Hspec. by eapply reach_suffix.
Qed.

(** ** Keys and main positions *)

Definition good_key (v : TValue) : Prop := v <> VNil /\ v <> VNullString /\ nan_key v = false.

Definition orig (k : TKey) : TValue := match k with LiveKey v | DeadKey v => v end.

(** A node that has never had a key *)
Definition unused (n : Node) : Prop := gkey n = LiveKey VNil.

#[export] Instance unused_dec n : Decision (unused n).
Proof.
  unfold unused. destruct (gkey n) as [v|v]; [|by right].
  destruct (decide (v = VNil)) as [->|]; [by left|right; congruence].
Defined.

Section keys.
Context `{Host}.

(** The main position of a key as a number *)
Definition mpos (t : Table) (v : TValue) : Z :=
  match mainposition t v with Ret m => m | _ => 0 end.

Record sized (t : Table) : Prop := {
sz_range : 0 <= lsizenode t <= MAXBITS;
sz_node : lenZ (node t) = 2 ^ lsizenode t
}.

Lemma sizenode_pow t : 0 <= lsizenode t -> sizenode t = 2 ^ lsizenode t.
Proof. intros Hs. unfold sizenode, twoto. rewrite Z.shiftl_mul_pow2 by done. lia. Qed.

Lemma hashpow2_range t x : sized t -> 0 <= hashpow2 t x < lenZ (node t).
Proof.
  intros [Hr Hn]. unfold hashpow2. rewrite sizenode_pow, Hn by lia. apply lmod_range. lia.
Qed.

Lemma modulus_range k : 0 <= k -> 1 <= Z.lor (2 ^ k - 1) 1 <= 2 ^ k.
Proof.
  intros Hk. destruct (decide (k = 0)) as [->|]; [done|].
  replace (2 ^ k - 1) with (Z.ones k) by (rewrite Z.ones_equiv; lia).
  assert (E : Z.lor (Z.ones k) 1 = Z.ones k).
  { change 1 with (Z.ones 1). apply Z.bits_inj'. intros j Hj.
    rewrite Z.lor_spec, !Z.testbit_ones_nonneg by lia. lia. }
  rewrite E, Z.ones_equiv. pose proof (Z.pow_gt_1 2 k). lia.
Qed.

Lemma hashmod_range t x : sized t -> 0 <= hashmod t x < lenZ (node t).
Proof.
  intros [Hr Hn]. unfold hashmod. rewrite sizenode_pow, Hn by lia.
  pose proof (modulus_range (lsizenode t)) as Hm.
  pose proof (Z.mod_pos_bound x (Z.lor (2 ^ lsizenode t - 1) 1)). lia.
Qed.

Lemma hashnum_range t n : sized t -> 0 <= hashnum t n < lenZ (node t).
Proof.
  intros Hs. unfold hashnum. case_if; [|by apply hashmod_range].
  destruct Hs as [Hr ->]. lia.
Qed.

Lemma mainposition_mpos t v :
  sized t -> v <> VNullString -> mainposition t v = Ret (mpos t v) /\ 0 <= mpos t v < lenZ (node t).
Proof.
  intros Hs Hv. unfold mpos, mainposition. destruct v; try (split; [reflexivity|]);
    try (apply hashpow2_range, Hs); try (apply hashmod_range, Hs).
  - apply hashnum_range, Hs.
  - unfold hashstr. destruct (luaS_hash_total s) as (h & -> & _). split; [reflexivity|].
    apply hashpow2_range, Hs.
  - by destruct Hv.
Qed.

Lemma mpos_norm t v : mpos t (norm_key v) = mpos t v.
Proof.
  destruct v as [| | |n| | | | | |]; try reflexivity. unfold mpos, mainposition, norm_key, hashnum.
  destruct n as [s|s| |s m e]; [by destruct s|reflexivity..].
Qed.

Lemma mpos_equal t v w : norm_key v = norm_key w -> mpos t v = mpos t w.
Proof. intros E. by rewrite <- mpos_norm, E, mpos_norm. Qed.

Lemma mainposition_key_lsizenode t t' k :
  lsizenode t' = lsizenode t -> mainposition_key t' k = mainposition_key t k.
Proof.
  intros E. unfold mainposition_key, mainposition, hashnum, hashpointer, hashstr, hashpow2, hashmod, sizenode.
  by rewrite E.
Qed.

Lemma mpos_lsizenode t t' v : lsizenode t' = lsizenode t -> mpos t' v = mpos t v.
Proof.
  intros E. unfold mpos, mainposition, hashnum, hashpointer, hashstr, hashpow2, hashmod, sizenode.
  by rewrite E.
Qed.

(** A key that lives in the array part *)
Definition in_array (t : Table) (v : TValue) : Prop := 1 <= arrayindex v <= sizearray t.

#[export] Instance in_array_dec t v : Decision (in_array t v).
Proof. unfold in_array. apply _. Defined.

Lemma in_array_norm t v w : norm_key v = norm_key w -> in_array t v -> in_array t w.
Proof.
  unfold in_array. intros E Hv.
  replace (arrayindex w) with (arrayindex v); [done|].
  destruct v as [| | |n| | | | | |], w as [| | |n'| | | | | |]; try done; try congruence.
  cbn in E. injection E as E. by rewrite <- (arrayindex_norm n), E, arrayindex_norm.
Qed.

(** ** The invariant *)

(** A live entry of the hash part: at [i], under the key [k] *)
Definition entry (t : Table) (cs : list (list Z)) (i : Z) (k : TValue) (n : Node) : Prop :=
  getZ (node t) i = Some n /\ gkey n = LiveKey k /\ k <> VNil /\ reach cs (mpos t k) i.

Record tinv (t : Table) (cs : list (list Z)) : Prop := {
ti_size : sized t;
ti_chains : chains (node t) cs;
ti_unused : forall i n, getZ (node t) i = Some n -> unused n -> [i] ∈ cs /\ gval n = VNil;
ti_keys : forall i n, getZ (node t) i = Some n -> ~ unused n ->
  good_key (orig (gkey n)) /\ ~ in_array t (orig (gkey n)) /\
  exists m, getZ (node t) (mpos t (orig (gkey n))) = Some m /\ ~ unused m;
ti_dead : forall i n v, getZ (node t) i = Some n -> gkey n = DeadKey v -> gval n = VNil;
ti_brent : forall i n, getZ (node t) i = Some n -> ~ unused n ->
  reach cs (mpos t (orig (gkey n))) i ->
  exists m, getZ (node t) (mpos t (orig (gkey n))) = Some m /\
    mpos t (orig (gkey m)) = mpos t (orig (gkey n));
ti_visible : forall i n, getZ (node t) i = Some n -> gval n <> VNil ->
  reach cs (mpos t (orig (gkey n))) i;
ti_unique : forall i j k k' n n', entry t cs i k n -> entry t cs j k' n' ->
  norm_key k = norm_key k' -> i = j;
ti_ghost : forall i j k n m, entry t cs i k n -> getZ (node t) j = Some m -> gkey m = DeadKey k ->
  reach cs (mpos t k) j -> ~ reach cs j i;
ti_free : dummy t = false -> lastfree t <= lenZ (node t) /\
  forall i n, lastfree t <= i -> getZ (node t) i = Some n -> ~ unused n;
ti_dummy : dummy t = true -> node t = [dummynode] /\ lastfree t <= 0;
ti_array : sizearray t <= MAXASIZE
}.

(** ** Searches *)

Inductive found (t : Table) (cs : list (list Z)) (k : TValue) : option slot -> Prop :=
| found_array v : in_array t k -> getZ (array t) (arrayindex k - 1) = Some v ->
    found t cs k (Some (SArray (arrayindex k - 1)))
| found_node i k' n : ~ in_array t k -> entry t cs i k' n -> norm_key k' = norm_key k ->
    found t cs k (Some (SNode i))
| found_none : ~ in_array t k ->
    (forall i k' n, entry t cs i k' n -> norm_key k' <> norm_key k) ->
    found t cs k None.

Lemma search_spec t cs k test m :
  tinv t cs -> ~ in_array t k -> m = mpos t k -> 0 <= m < lenZ (node t) ->
  (forall i n, getZ (node t) i = Some n ->
     test n = true <-> exists k', gkey n = LiveKey k' /\ k' <> VNil /\ norm_key k' = norm_key k) ->
  exists r, search t test m = Ret r /\ found t cs k r.
Proof.
  intros Hi Ha -> Hm Ht. unfold search.
  destruct (find_node_spec t cs test (mpos t k) (ti_chains _ _ Hi) Hm) as (r & -> & Hr).
  cbn. eexists. split; [done|]. destruct r as [i|].
  - destruct Hr as (Hreach & n & Hn & Hp). apply (Ht i n Hn) in Hp as (k' & Hk & Hnn & E).
    eapply found_node; [done| |exact E]. split_and!; try done. by rewrite (mpos_equal t k' k).
  - apply found_none; [done|]. intros i k' n (Hn & Hk & Hnn & Hreach) E.
    rewrite (mpos_equal t k' k E) in Hreach. apply (Hr i Hreach). exists n. split; [done|].
    apply (Ht i n Hn). eauto.
Qed.

Lemma numeq_norm_r a b :
  b <> S754_nan -> luai_numeq a b = bool_decide (norm_num a = norm_num b).
Proof.
  intros Hb. destruct (decide (a = S754_nan)) as [->|]; [|by apply numeq_norm].
  rewrite numeq_nan_l. symmetry. apply bool_decide_eq_false_2. by destruct b.
Qed.

Lemma live_good t cs i n k :
  tinv t cs -> getZ (node t) i = Some n -> gkey n = LiveKey k -> k <> VNil -> good_key k.
Proof.
  intros Hi Hn Hk Hnn. destruct (ti_keys _ _ Hi i n Hn) as (Hg & _).
  - unfold unused. congruence.
  - by rewrite Hk in Hg.
Qed.

Lemma array_small t cs : tinv t cs -> 0 <= sizearray t < 2 ^ 27.
Proof.
  intros Hi. pose proof (ti_array _ _ Hi) as Ha. change MAXASIZE with (2 ^ 26) in Ha.
  pose proof (lenZ_nonneg (array t)). unfold sizearray in *. lia.
Qed.

Lemma getnum_test t key :
  is_i32 key -> 0 <= sizearray t < 2 ^ 27 ->
  (u32 (key - 1) <? u32 (sizearray t)) = bool_decide (1 <= key <= sizearray t).
Proof.
  unfold is_i32. intros Hk Hs. rewrite (u32_small (sizearray t)) by (unfold is_u32; lia).
  destruct (decide (1 <= key)).
  - rewrite u32_small by (unfold is_u32; lia). case_bool_decide; destruct (Z.ltb_spec (key - 1) (sizearray t)); lia.
  - rewrite bool_decide_eq_false_2 by lia. apply Z.ltb_ge. unfold u32. dlia.
Qed.

Lemma luaH_getnum_found t cs key :
  tinv t cs -> is_i32 key ->
  exists r, luaH_getnum t key = Ret r /\ found t cs (VNumber (cast_num key)) r.
Proof.
  intros Hi Hk. unfold luaH_getnum.
  rewrite getnum_test by (done || by eapply array_small). pose proof (arrayindex_num key Hk) as Ea.
  case_bool_decide as Hr.
  - eexists. split; [done|]. rewrite <- Ea at 2.
    destruct (getZ_is_Some (array t) (key - 1)) as [v Hv]; [unfold sizearray in Hr; lia|].
    apply (found_array _ _ _ v); [unfold in_array|]; by rewrite Ea.
  - pose proof (ti_size _ _ Hi) as Hs.
    apply search_spec; [done|unfold in_array; by rewrite Ea|reflexivity|by apply hashnum_range|].
    intros i n Hn. assert (Hnn : cast_num key <> S754_nan) by (by apply cast_num_not_nan, small_i32).
    destruct (gkey n) as [k'|k']; cbn [key_is]; [|split; [done|by intros (? & ? & _)]].
    split.
    + intros Ht. exists k'. destruct k'; try done. rewrite numeq_norm_r in Ht by done.
      apply bool_decide_eq_true in Ht. split_and!; [done|done|]. cbn [norm_key]. congruence.
    + intros (k2 & [= <-] & _ & E). destruct k'; try done. cbn [norm_key] in E.
      rewrite numeq_norm_r by done. apply bool_decide_eq_true. congruence.
Qed.

Lemma mainposition_str t s : mainposition t (VString s) = hashstr t s.
Proof. reflexivity. Qed.

Lemma luaH_getstr_found t cs s :
  tinv t cs -> exists r, luaH_getstr t s = Ret r /\ found t cs (VString s) r.
Proof.
  intros Hi. unfold luaH_getstr.
  destruct (mainposition_mpos t (VString s) (ti_size _ _ Hi)) as [Hm Hr]; [done|].
  rewrite mainposition_str in Hm. rewrite Hm. cbn [mbind outcome_bind].
  apply search_spec; [done|unfold in_array; cbn; lia|done|done|].
  intros i n Hn. destruct (gkey n) as [k'|k']; cbn [key_is]; [|split; [done|by intros (? & ? & _)]].
  rewrite bool_decide_eq_true. split.
  - intros ->. by exists (VString s).
  - intros (k2 & [= <-] & _ & E). by destruct k'.
Qed.

Lemma get_generic_found t cs k :
  tinv t cs -> k <> VNil -> k <> VNullString -> ~ in_array t k ->
  exists r, get_generic t k = Ret r /\ found t cs k r.
Proof.
  intros Hi H0 H1 Ha. unfold get_generic.
  destruct (mainposition_mpos t k (ti_size _ _ Hi) H1) as [-> Hr]. cbn [mbind outcome_bind].
  apply search_spec; [done|done|done|done|].
  intros i n Hn. destruct (gkey n) as [k'|k'] eqn:Ek; cbn [key_is]; [|split; [done|by intros (? & ? & _)]].
  destruct (decide (k' = VNil)) as [->|Hnn].
  { split; [by destruct k|]. by intros (k2 & [= <-] & ? & _). }
  rewrite rawequal_norm by (by eapply live_good). rewrite bool_decide_eq_true. split.
  - intros E. by exists k'.
  - by intros (k2 & [= <-] & _ & E).
Qed.

Lemma found_norm t cs k k' r : norm_key k = norm_key k' -> found t cs k r -> found t cs k' r.
Proof.
  intros E Hf.
  assert (Ea : arrayindex k = arrayindex k').
  { destruct k as [| | |n| | | | | |], k' as [| | |n'| | | | | |]; try done.
    cbn [norm_key] in E. injection E as E. rewrite <- (arrayindex_norm n), E. apply arrayindex_norm. }
  destruct Hf as [v Ha Hv|i k2 n Ha He E2|Ha Hn].
  - rewrite Ea in *. apply (found_array _ _ _ v); [|done]. unfold in_array in *. by rewrite <- Ea.
  - apply (found_node _ _ _ i k2 n); [|done|congruence]. unfold in_array in *. by rewrite <- Ea.
  - apply found_none; [unfold in_array in *; by rewrite <- Ea|]. rewrite <- E. done.
Qed.

(** Every key has its slot or none. *)
Lemma luaH_get_found t cs k :
  tinv t cs -> k <> VNullString -> exists r, luaH_get t k = Ret r /\ found t cs k r.
Proof.
  intros Hi Hk. pose proof (array_small _ _ Hi).
  assert (Hg : k <> VNil -> ~ in_array t k -> exists r, get_generic t k = Ret r /\ found t cs k r)
    by (intros; by apply get_generic_found).
  destruct k as [|b|p|n|s| |x|x|x|x]; try (apply Hg; [done|unfold in_array; cbn; lia]); [| |].
  - eexists. split; [reflexivity|]. apply found_none; [unfold in_array; cbn; lia|].
    intros i k' n (_ & _ & Hnn & _) E. change (norm_key VNil) with VNil in E.
    by apply (proj1 (norm_key_nil k')) in E.
  - unfold luaH_get. destruct (luai_numeq (cast_num (lua_number2int n)) n) eqn:E.
    + pose proof (number2int_range n) as Hr.
      destruct (luaH_getnum_found t cs _ Hi Hr) as (r & -> & Hf). exists r. split; [done|].
      eapply found_norm; [|exact Hf]. cbn [norm_key]. f_equal.
      rewrite numeq_norm in E by (by apply cast_num_not_nan, small_i32).
      by apply bool_decide_eq_true in E.
    + apply Hg; [done|]. unfold in_array, arrayindex. rewrite E. lia.
  - by apply luaH_getstr_found.
Qed.

(** ** The entries of a table *)

Fixpoint elems_array (i : Z) (l : list TValue) : list (TValue * TValue) :=
  match l with
  | [] => []
  | v :: l =>
      if ttisnil v then elems_array (i + 1) l
      else (VNumber (cast_num (i + 1)), v) :: elems_array (i + 1) l
  end.

Definition node_entry (n : Node) : option (TValue * TValue) :=
  if ttisnil (gval n) then None
  else match gkey n with LiveKey k => Some (k, gval n) | DeadKey _ => None end.

Definition elems_node (ns : list Node) : list (TValue * TValue) := omap node_entry ns.

Definition elems (t : Table) : list (TValue * TValue) := elems_array 0 (array t) ++ elems_node (node t).

(** The value under a key *)
Fixpoint assoc (l : list (TValue * TValue)) (k : TValue) : TValue :=
  match l with
  | [] => VNil
  | (k', v) :: l => if decide (norm_key k' = norm_key k) then v else assoc l k
  end.

Lemma ttisnil_spec v : ttisnil v = true <-> v = VNil.
Proof. by destruct v. Qed.

Lemma ttisnil_false v : ttisnil v = false <-> v <> VNil.
Proof. rewrite <- ttisnil_spec. by destruct (ttisnil v). Qed.

Lemma getZ_cons {A} (x : A) l i : getZ (x :: l) i = if i =? 0 then Some x else getZ l (i - 1).
Proof.
  unfold getZ. destruct (Z.eqb_spec i 0) as [->|]; [done|].
  destruct (Z.leb_spec 0 i), (Z.leb_spec 0 (i - 1)); try lia; [|done].
  replace (Z.to_nat i) with (S (Z.to_nat (i - 1))) by lia. done.
Qed.

Lemma elem_of_elems_array i l k v :
  (k, v) ∈ elems_array i l <->
  exists j, k = VNumber (cast_num (i + j + 1)) /\ getZ l j = Some v /\ v <> VNil.
Proof.
  revert i. induction l as [|w l IH]; intros i.
  - split; [by intros ?%not_elem_of_nil|]. intros (j & _ & Hj%getZ_Some & _). unfold lenZ in Hj. cbn in Hj. lia.
  - assert (Hrest : (k, v) ∈ elems_array (i + 1) l <->
      exists j, j <> 0 /\ k = VNumber (cast_num (i + j + 1)) /\ getZ (w :: l) j = Some v /\ v <> VNil).
    { rewrite IH. split.
      - intros (j & -> & Hj & Hv). pose proof (getZ_Some _ _ _ Hj). exists (j + 1).
        split; [lia|]. split; [do 2 f_equal; lia|]. rewrite getZ_cons.
        rewrite (proj2 (Z.eqb_neq _ _)) by lia. by replace (j + 1 - 1) with j by lia.
      - intros (j & Hj0 & -> & Hj & Hv). exists (j - 1). rewrite getZ_cons in Hj.
        rewrite (proj2 (Z.eqb_neq _ _)) in Hj by done. split; [do 2 f_equal; lia|done]. }
    cbn [elems_array]. destruct (ttisnil w) eqn:Ew.
    + rewrite Hrest. apply ttisnil_spec in Ew as ->. split; [intros (j & _ & ?); eauto|].
      intros (j & Hk & Hj & Hv). exists j. split; [|done]. intros ->. rewrite getZ_cons in Hj. by injection Hj as <-.
    + apply ttisnil_false in Ew. rewrite elem_of_cons, Hrest. split.
      * intros [[= -> ->]|(j & _ & ?)]; [|eauto]. exists 0. rewrite Z.add_0_r, getZ_cons. done.
      * intros (j & -> & Hj & Hv). destruct (decide (j = 0)) as [->|].
        { left. rewrite getZ_cons in Hj. injection Hj as ->. by rewrite Z.add_0_r. }
        right. by exists j.
Qed.

Lemma getZ_lookup {A} (l : list A) (i : nat) : getZ l (Z.of_nat i) = l !! i.
Proof. unfold getZ. rewrite (proj2 (Z.leb_le 0 _)) by lia. by rewrite Nat2Z.id. Qed.

Lemma elem_of_getZ {A} (l : list A) x : x ∈ l <-> exists i, getZ l i = Some x.
Proof.
  split.
  - intros [i Hi]%list_elem_of_lookup_1. exists (Z.of_nat i). by rewrite getZ_lookup.
  - intros [i Hi]. by eapply getZ_elem.
Qed.

Lemma elem_of_elems_node ns k v :
  (k, v) ∈ elems_node ns <->
  exists i n, getZ ns i = Some n /\ gkey n = LiveKey k /\ gval n = v /\ v <> VNil.
Proof.
  unfold elems_node. rewrite list_elem_of_omap. unfold node_entry. split.
  - intros (n & [i Hi]%elem_of_getZ & Hn). exists i, n. destruct (ttisnil (gval n)) eqn:E; [done|].
    apply ttisnil_false in E. destruct (gkey n); [|done]. injection Hn as -> <-. done.
  - intros (i & n & Hi & Hk & <- & Hv). exists n. split; [by eapply getZ_elem|].
    apply ttisnil_false in Hv. by rewrite Hv, Hk.
Qed.

Lemma assoc_spec l k v :
  (forall k' v', (k', v') ∈ l -> norm_key k' = norm_key k -> v' = v) ->
  (v <> VNil -> exists k', (k', v) ∈ l /\ norm_key k' = norm_key k) ->
  assoc l k = v.
Proof.
  induction l as [|[k1 v1] l IH]; intros Hf Hex; cbn.
  - destruct (decide (v = VNil)) as [|Hv]; [done|]. destruct (Hex Hv) as (k' & Hin & _).
    by apply not_elem_of_nil in Hin.
  - destruct (decide (norm_key k1 = norm_key k)) as [E|E].
    + apply (Hf k1); [apply elem_of_cons; by left|done].
    + apply IH.
      * intros k' v' Hin. apply Hf, elem_of_cons. by right.
      * intros Hv. destruct (Hex Hv) as (k' & [[= -> ->]|Hin]%elem_of_cons & E'); [done|]. eauto.
Qed.

(** A node with a value is an entry. *)
Lemma active_entry t cs i n :
  tinv t cs -> getZ (node t) i = Some n -> gval n <> VNil -> exists k, entry t cs i k n.
Proof.
  intros Hi Hn Hv. destruct (gkey n) as [k|k] eqn:Ek.
  - exists k. pose proof (ti_visible _ _ Hi i n Hn Hv) as Hr. rewrite Ek in Hr. cbn in Hr.
    split_and!; try done. intros ->. destruct (ti_unused _ _ Hi i n Hn) as [_ E]; [done|]. done.
  - destruct Hv. by eapply ti_dead.
Qed.

Lemma elems_node_entry t cs k v :
  tinv t cs -> (k, v) ∈ elems_node (node t) ->
  exists i n, entry t cs i k n /\ gval n = v /\ v <> VNil.
Proof.
  intros Hi (i & n & Hn & Hk & <- & Hv)%elem_of_elems_node.
  destruct (active_entry _ _ _ _ Hi Hn Hv) as (k' & He). exists i, n.
  destruct He as (H1 & H2 & H3 & H4). rewrite Hk in H2. injection H2 as <-. done.
Qed.

Lemma entry_not_in_array t cs i k n : tinv t cs -> entry t cs i k n -> ~ in_array t k.
Proof.
  intros Hi (Hn & Hk & Hnn & _). destruct (ti_keys _ _ Hi i n Hn) as (_ & Ha & _).
  - unfold unused. congruence.
  - by rewrite Hk in Ha.
Qed.

Lemma array_key t cs j v :
  tinv t cs -> getZ (array t) j = Some v ->
  arrayindex (VNumber (cast_num (j + 1))) = j + 1 /\ in_array t (VNumber (cast_num (j + 1))).
Proof.
  intros Hi Hj. pose proof (array_small _ _ Hi). apply getZ_Some in Hj. unfold in_array.
  rewrite arrayindex_num by (unfold is_i32, sizearray in *; lia). unfold sizearray in *. lia.
Qed.

(** The slot of a key holds the value of its entry. *)
Record holds (l : list (TValue * TValue)) (k v : TValue) : Prop := {
ho_fun : forall k' v', (k', v') ∈ l -> norm_key k' = norm_key k -> v' = v;
ho_ex : v <> VNil -> exists k', (k', v) ∈ l /\ norm_key k' = norm_key k
}.

Lemma holds_assoc l k v : holds l k v -> assoc l k = v.
Proof. intros [H1 H2]. by apply assoc_spec. Qed.

Lemma found_holds t cs k r :
  tinv t cs -> found t cs k r -> exists v, load t r = Ret v /\ holds (elems t) k v.
Proof.
  intros Hi Hf. unfold elems. destruct Hf as [v Ha Hv|i k2 n Ha He E2|Ha Hn]; cbn [load].
  - rewrite Hv. exists v. split; [done|]. split.
    + intros k' v' [Hin|Hin]%elem_of_app E.
      * apply elem_of_elems_array in Hin as (j & -> & Hj & Hv').
        destruct (array_key _ _ _ _ Hi Hj) as [Ej _]. rewrite Z.add_0_l in *.
        assert (Ek : arrayindex k = j + 1).
        { rewrite <- Ej. destruct k as [| | |n| | | | | |]; try done. cbn [norm_key] in E.
          injection E as E. rewrite <- (arrayindex_norm n), <- E. apply arrayindex_norm. }
        rewrite Ek in Hv. replace (j + 1 - 1) with j in Hv by lia. congruence.
      * apply (elems_node_entry _ _ _ _ Hi) in Hin as (i & n & He & _ & _).
        destruct (entry_not_in_array _ _ _ _ _ Hi He). by eapply in_array_norm.
    + intros Hvn. exists k. split; [|done]. apply elem_of_app. left. apply elem_of_elems_array.
      exists (arrayindex k - 1). split; [|done]. rewrite (arrayindex_pos k) at 1 by (unfold in_array in Ha; lia).
      do 2 f_equal. lia.
  - unfold gnode. rewrite (proj1 He). exists (gval n). split; [done|]. split.
    + intros k' v' [Hin|Hin]%elem_of_app E.
      * apply elem_of_elems_array in Hin as (j & -> & Hj & Hv').
        destruct (array_key _ _ _ _ Hi Hj) as [_ Hin]. rewrite Z.add_0_l in *.
        destruct Ha. by eapply in_array_norm.
      * apply (elems_node_entry _ _ _ _ Hi) in Hin as (j & n' & He' & <- & _).
        assert (i = j) as -> by (eapply ti_unique; try done; congruence).
        destruct He as [H1 _], He' as [H2 _]. congruence.
    + intros Hvn. exists k2. split; [|done]. apply elem_of_app. right. apply elem_of_elems_node.
      destruct He as (H1 & H2 & _). by exists i, n.
  - exists VNil. split; [done|]. split; [|done].
    intros k' v' [Hin|Hin]%elem_of_app E.
    + apply elem_of_elems_array in Hin as (j & -> & Hj & Hv').
      destruct (array_key _ _ _ _ Hi Hj) as [_ Hin]. rewrite Z.add_0_l in *.
      destruct Ha. by eapply in_array_norm.
    + apply (elems_node_entry _ _ _ _ Hi) in Hin as (j & n' & He' & _). destruct (Hn _ _ _ He' E).
Qed.

Lemma found_assoc t cs k r : tinv t cs -> found t cs k r -> load t r = Ret (assoc (elems t) k).
Proof.
  intros Hi Hf. destruct (found_holds _ _ _ _ Hi Hf) as (v & -> & Hv).
  by rewrite (holds_assoc _ _ _ Hv).
Qed.

Lemma found_exists t cs k : tinv t cs -> exists r, found t cs k r.
Proof.
  intros Hi. destruct (decide (k = VNullString)) as [->|Hk].
  - exists None. apply found_none; [unfold in_array; cbn; lia|].
    intros i k' n (Hn & Hk & Hnn & _) E. destruct (live_good _ _ _ _ _ Hi Hn Hk Hnn) as (_ & H2 & _).
    by destruct k'.
  - destruct (luaH_get_found _ _ _ Hi Hk) as (r & _ & Hf). eauto.
Qed.

(** An association list is known by its members. *)
Lemma assoc_elems t cs l k :
  tinv t cs -> (forall k v, (k, v) ∈ l <-> (k, v) ∈ elems t) -> assoc l k = assoc (elems t) k.
Proof.
  intros Hi Hl. destruct (found_exists t cs k Hi) as [r Hf].
  destruct (found_holds _ _ _ _ Hi Hf) as (v & _ & Hv). rewrite (holds_assoc _ _ _ Hv).
  destruct Hv as [H1 H2]. apply assoc_spec.
  - intros k' v' Hin. apply H1. by apply Hl.
  - intros Hvn. destruct (H2 Hvn) as (k' & Hin & E). exists k'. split; [|done]. by apply Hl.
Qed.

Lemma found_det t cs k r1 r2 : tinv t cs -> found t cs k r1 -> found t cs k r2 -> r1 = r2.
Proof.
  intros Hi [v1 Ha1 Hv1|i1 k1 n1 Ha1 He1 E1|Ha1 Hn1] [v2 Ha2 Hv2|i2 k2 n2 Ha2 He2 E2|Ha2 Hn2]; try done.
  - do 2 f_equal. eapply ti_unique; try done. congruence.
  - destruct (Hn2 _ _ _ He1 E1).
  - destruct (Hn1 _ _ _ He2 E2).
Qed.

(** Different keys have different slots. *)
Lemma found_inj t cs k1 k2 r :
  found t cs k1 (Some r) -> found t cs k2 (Some r) -> norm_key k1 = norm_key k2.
Proof.
  intros H1 H2. inversion H1 as [v1 Ha1 Hv1 E1|i1 k1' n1 Ha1 He1 E1 Er1|]; subst;
    inversion H2 as [v2 Ha2 Hv2 E2|i2 k2' n2 Ha2 He2 E2 Er2|]; subst.
  - rewrite (arrayindex_pos k1), (arrayindex_pos k2) by (unfold in_array in *; lia).
    do 3 f_equal. lia.
  - destruct He1 as (H3 & H4 & _), He2 as (H5 & H6 & _). rewrite H3 in H5. injection H5 as <-.
    rewrite H4 in H6. injection H6 as <-. congruence.
Qed.
End keys.
