(* ===== verification/TableSet.v ===== *)
(** * Writing into tables

    Storing through a slot changes the value of one key; [newkey] with a free
    node makes a slot and keeps all entries; a fresh table is empty and has
    room, and a key is inserted into a table with room for it without a
    rehash. *)

From S2P Require Import Prelude Clib Object Lex Lstring Dump Table TableNum.

(** ** Lists *)

Lemma getZ_setZ {A} (l : list A) i j x :
  getZ (setZ l j x) i = if decide (i = j /\ 0 <= j < lenZ l) then Some x else getZ l i.
Proof.
  destruct (decide (0 <= j < lenZ l)) as [Hj|Hj].
  - destruct (decide (i = j)) as [->|].
    + rewrite getZ_setZ_eq by done. by rewrite decide_True.
    + rewrite getZ_setZ_ne by done. by rewrite decide_False by tauto.
  - rewrite decide_False by tauto. destruct (decide (i = j)) as [->|]; [|by apply getZ_setZ_ne].
    by rewrite !getZ_None by (rewrite ?lenZ_setZ; done).
Qed.

Lemma getZ_setZ_in {A} (l : list A) i j x y :
  getZ l j = Some y -> getZ (setZ l j x) i = if decide (i = j) then Some x else getZ l i.
Proof.
  intros Hj%getZ_Some. rewrite getZ_setZ. destruct (decide (i = j)); [by rewrite decide_True|by rewrite decide_False by tauto].
Qed.

Lemma idx_length {A B} (l : list A) (l' : list B) : lenZ l = lenZ l' -> idx l = idx l'.
Proof. unfold idx, lenZ. intros E. f_equal. f_equal. lia. Qed.

(** [m] is before [i] in [c], or [i] itself. *)
Definition beq (c : list Z) (m i : Z) : Prop := exists a b, c = a ++ m :: b /\ i ∈ m :: b.

Lemma reach_beq cs m i : reach cs m i <-> exists c, c ∈ cs /\ beq c m i.
Proof.
  split.
  - intros (a & b & Hc & Hi). exists (a ++ m :: b). split; [done|]. by exists a, b.
  - intros (c & Hc & a & b & -> & Hi). by exists a, b.
Qed.

Lemma beq_in c m i : beq c m i -> m ∈ c /\ i ∈ c.
Proof.
  intros (a & b & -> & Hi). rewrite !elem_of_app, elem_of_cons. split; [tauto|]. by right.
Qed.

Lemma beq_cons x c m i : beq (x :: c) m i <-> (x = m /\ i ∈ x :: c) \/ beq c m i.
Proof.
  split.
  - intros ([|y a] & b & E & Hi); injection E as -> ->; [by left|]. right. by exists a, b.
  - intros [[-> Hi]|(a & b & -> & Hi)]; [by exists [], c|by exists (x :: a), b].
Qed.

Lemma beq_nil m i : ~ beq [] m i.
Proof. intros ([|y a] & b & E & Hi); done. Qed.

(** Removing other elements changes nothing. *)
Lemma beq_remove x l1 l2 m i :
  m <> x -> i <> x -> beq (l1 ++ x :: l2) m i <-> beq (l1 ++ l2) m i.
Proof.
  intros Hm Hi. induction l1 as [|y l1 IH]; cbn.
  - rewrite beq_cons. split; [intros [[E _]|]; [congruence|done]|tauto].
  - rewrite !beq_cons, IH, !elem_of_cons, !elem_of_app, !elem_of_cons. tauto.
Qed.

Lemma beq_app_r l1 l2 m i : m ∈ l1 -> i ∈ l2 -> beq (l1 ++ l2) m i.
Proof.
  intros (a & b & ->)%list_elem_of_split Hi. exists a, (b ++ l2). rewrite <- app_assoc.
  split; [done|]. apply elem_of_cons. right. apply elem_of_app. by right.
Qed.

Lemma beq_last l1 x l2 m : m <> x -> x ∉ l1 -> x ∉ l2 -> beq (l1 ++ x :: l2) m x <-> m ∈ l1.
Proof.
  intros Hm H1 H2. induction l1 as [|y l1 IH]; cbn.
  - rewrite beq_cons. split; [|by intros ?%not_elem_of_nil].
    intros [[E _]|Hb%beq_in]; [congruence|tauto].
  - apply not_elem_of_cons in H1 as [Hy H1]. rewrite beq_cons, IH by done.
    rewrite !elem_of_cons, elem_of_app, elem_of_cons. split; [intros [[-> _]|]; auto|].
    intros [->|]; [left|by right]. split; [done|]. tauto.
Qed.

(** ** Segments of chains *)

Fixpoint seg (ns : list Node) (l : list Z) (e : option Z) : Prop :=
  match l with
  | [] => True
  | x :: l =>
      (exists n, getZ ns x = Some n /\ gnext n = match l with y :: _ => Some y | [] => e end) /\
      seg ns l e
  end.

Lemma linked_seg ns l : linked ns l <-> seg ns l None.
Proof. induction l as [|x l IH]; cbn; [done|]. rewrite IH. by destruct l. Qed.

Lemma seg_app ns l1 l2 e :
  seg ns (l1 ++ l2) e <-> seg ns l1 (match l2 with y :: _ => Some y | [] => e end) /\ seg ns l2 e.
Proof.
  induction l1 as [|x l1 IH]; cbn; [tauto|]. rewrite IH. destruct l1 as [|y l1]; cbn; tauto.
Qed.

Lemma seg_frame ns ns' l e :
  (forall x n, x ∈ l -> getZ ns x = Some n -> exists n', getZ ns' x = Some n' /\ gnext n' = gnext n) ->
  seg ns l e -> seg ns' l e.
Proof.
  induction l as [|x l IH]; cbn; [done|]. intros Hf [(n & Hn & E) H]. split.
  - destruct (Hf x n) as (n' & Hn' & E'); [apply elem_of_cons; by left|done|]. exists n'. by rewrite E'.
  - apply IH; [|done]. intros y m Hy. apply Hf, elem_of_cons. by right.
Qed.

Lemma chains_linked ns cs c : chains ns cs -> c ∈ cs -> linked ns c.
Proof.
  intros [Hl _] Hc. rewrite Forall_forall in Hl. by apply Hl, list_elem_of_In.
Qed.

(** Two chains of a partition in front *)
Lemma two_chains (cs : list (list Z)) c d :
  c ∈ cs -> d ∈ cs -> c <> d -> exists rest, cs ≡ₚ c :: d :: rest.
Proof.
  intros (a & b & ->)%list_elem_of_split Hd Hne.
  assert (Hin : d ∈ a ++ b).
  { apply elem_of_app in Hd as [Hd|[->|Hd]%elem_of_cons]; [|done|]; apply elem_of_app; auto. }
  apply list_elem_of_split in Hin as (a' & b' & E). exists (a' ++ b').
  rewrite <- Permutation_middle. rewrite E. by rewrite <- Permutation_middle.
Qed.

Lemma concat_perm {A} (cs cs' : list (list A)) : cs ≡ₚ cs' -> concat cs ≡ₚ concat cs'.
Proof.
  intros Hp. rewrite <- (map_id cs), <- (map_id cs'), <- !flat_map_concat_map. by apply Permutation_flat_map.
Qed.

Section set.
Context `{Host}.

Lemma reach_perm cs cs' m i : cs ≡ₚ cs' -> reach cs m i -> reach cs' m i.
Proof. intros Hp (a & b & Hc & Hi). exists a, b. split; [by rewrite <- Hp|done]. Qed.

Lemma tinv_perm t cs cs' : cs ≡ₚ cs' -> tinv t cs -> tinv t cs'.
Proof.
  intros Hp []. split; try done.
  - destruct ti_chains as [H1 H2]. split; [by rewrite <- Hp|]. by rewrite <- (concat_perm _ _ Hp).
  - intros i n Hn Hu. destruct (ti_unused i n Hn Hu). split; [by rewrite <- Hp|done].
  - intros i n Hn Hu Hr. apply (ti_brent i n); try done. by eapply reach_perm.
  - intros i n Hn Hv. eapply reach_perm; eauto.
  - intros i j k k' n n' (H1 & H2 & H3 & H4) (H5 & H6 & H7 & H8).
    apply (ti_unique i j k k' n n'); split_and!; try done; by eapply reach_perm.
  - intros i j k n m (H1 & H2 & H3 & H4) Hm Hk Hr1 Hr2. apply (ti_ghost i j k n m); try done;
      [split_and!; try done|..]; by eapply reach_perm.
Qed.

(** ** Changing values *)

(** Tables with the same keys at the same places *)
Record skel (t t' : Table) : Prop := {
sk_lsizenode : lsizenode t' = lsizenode t;
sk_dummy : dummy t' = dummy t;
sk_lastfree : lastfree t' = lastfree t;
sk_array : lenZ (array t') = lenZ (array t);
sk_len : lenZ (node t') = lenZ (node t);
sk_node : forall i n, getZ (node t) i = Some n -> exists n', getZ (node t') i = Some n' /\
  gkey n' = gkey n /\ gnext n' = gnext n
}.

Lemma skel_back t t' i n' :
  skel t t' -> getZ (node t') i = Some n' -> exists n, getZ (node t) i = Some n /\
    gkey n' = gkey n /\ gnext n' = gnext n.
Proof.
  intros Hs Hn'. destruct (getZ_is_Some (node t) i) as [n Hn].
  { rewrite <- (sk_len _ _ Hs). by eapply getZ_Some. }
  destruct (sk_node _ _ Hs i n Hn) as (m & Hm & E). rewrite Hm in Hn'. injection Hn' as ->. eauto.
Qed.

Lemma skel_in_array t t' k : skel t t' -> in_array t' k <-> in_array t k.
Proof. intros Hs. unfold in_array, sizearray. by rewrite (sk_array _ _ Hs). Qed.

Lemma skel_mpos t t' k : skel t t' -> mpos t' k = mpos t k.
Proof. intros Hs. apply mpos_lsizenode, Hs. Qed.

Lemma skel_entry t t' cs i k n' :
  skel t t' -> entry t' cs i k n' -> exists n, entry t cs i k n.
Proof.
  intros Hs (H1 & H2 & H3 & H4). destruct (skel_back _ _ _ _ Hs H1) as (n & Hn & Ek & _).
  exists n. split_and!; try done; [congruence|]. by rewrite <- (skel_mpos _ _ _ Hs).
Qed.

Lemma skel_entry_r t t' cs i k n :
  skel t t' -> entry t cs i k n -> exists n', entry t' cs i k n'.
Proof.
  intros Hs (H1 & H2 & H3 & H4). destruct (sk_node _ _ Hs i n H1) as (n' & Hn & Ek & _).
  exists n'. split_and!; try done; [congruence|]. by rewrite (skel_mpos _ _ _ Hs).
Qed.

Lemma skel_found t t' cs k r : skel t t' -> found t cs k r -> found t' cs k r.
Proof.
  intros Hs [v Ha Hv|i k' n Ha He E|Ha Hn].
  - destruct (getZ_is_Some (array t') (arrayindex k - 1)) as [v' Hv'].
    { rewrite (sk_array _ _ Hs). by eapply getZ_Some. }
    apply (found_array _ _ _ v'); [by apply (skel_in_array _ _ _ Hs)|done].
  - destruct (skel_entry_r _ _ _ _ _ _ Hs He) as (n' & He').
    apply (found_node _ _ _ i k' n'); [by rewrite (skel_in_array _ _ _ Hs)|done|done].
  - apply found_none; [by rewrite (skel_in_array _ _ _ Hs)|]. intros i k' n' He.
    destruct (skel_entry _ _ _ _ _ _ Hs He) as (n & He'). by eapply Hn.
Qed.

(** Values may change where the key is live and visible. *)
Lemma skel_tinv t t' cs :
  skel t t' -> tinv t cs ->
  (forall i n', getZ (node t') i = Some n' -> gval n' <> VNil ->
     exists n, getZ (node t) i = Some n /\ (gval n <> VNil \/ exists k, entry t cs i k n)) ->
  tinv t' cs.
Proof.
  intros Hs Hi Hv. pose proof (skel_back t t') as Hb.
  assert (Hu : forall n n', gkey n' = gkey n -> unused n' <-> unused n) by (intros n n' E; unfold unused; by rewrite E).
  split.
  - destruct (ti_size _ _ Hi). split; [by rewrite (sk_lsizenode _ _ Hs)|].
    by rewrite (sk_len _ _ Hs), (sk_lsizenode _ _ Hs).
  - destruct (ti_chains _ _ Hi) as [H1 H2]. split.
    + eapply Forall_impl; [|exact H1]. intros c. apply linked_frame. intros x n _ Hn.
      destruct (sk_node _ _ Hs x n Hn) as (n' & Hn' & _ & E). eauto.
    + by rewrite (idx_length _ (node t) (sk_len _ _ Hs)).
  - intros i n' Hn' Hun. destruct (Hb i n' Hs Hn') as (n & Hn & Ek & _). apply (Hu n n' Ek) in Hun.
    destruct (ti_unused _ _ Hi i n Hn Hun) as [Hc Hvn]. split; [done|].
    destruct (decide (gval n' = VNil)) as [|Hnn]; [done|].
    destruct (Hv i n' Hn' Hnn) as (m & Hm & [Hmv|(k & _ & Hk & Hkn & _)]); rewrite Hn in Hm; injection Hm as <-; [done|].
    unfold unused in Hun. congruence.
  - intros i n' Hn' Hun. destruct (Hb i n' Hs Hn') as (n & Hn & Ek & _). rewrite (Hu n n' Ek) in Hun.
    destruct (ti_keys _ _ Hi i n Hn Hun) as (H1 & H2 & m & Hm & Hmu). rewrite Ek. split; [done|].
    split; [by rewrite (skel_in_array _ _ _ Hs)|]. rewrite (skel_mpos _ _ _ Hs).
    destruct (sk_node _ _ Hs _ m Hm) as (m' & Hm' & Em & _). exists m'. split; [done|]. by rewrite (Hu m m' Em).
  - intros i n' v Hn' Hk. destruct (Hb i n' Hs Hn') as (n & Hn & Ek & _).
    destruct (decide (gval n' = VNil)) as [|Hnn]; [done|].
    destruct (Hv i n' Hn' Hnn) as (m & Hm & [Hmv|(k & _ & Hk' & _)]); rewrite Hn in Hm; injection Hm as <-; [|congruence].
    destruct Hmv. eapply ti_dead; [exact Hi|done|]. by rewrite <- Ek.
  - intros i n' Hn' Hun. destruct (Hb i n' Hs Hn') as (n & Hn & Ek & _). rewrite (Hu n n' Ek) in Hun.
    rewrite Ek, (skel_mpos _ _ _ Hs). intros Hr.
    destruct (ti_brent _ _ Hi i n Hn Hun Hr) as (m & Hm & E).
    destruct (sk_node _ _ Hs _ m Hm) as (m' & Hm' & Em & _). exists m'. split; [done|].
    by rewrite Em, (skel_mpos _ _ _ Hs).
  - intros i n' Hn' Hnn. destruct (Hb i n' Hs Hn') as (n & Hn & Ek & _).
    rewrite Ek, (skel_mpos _ _ _ Hs).
    destruct (Hv i n' Hn' Hnn) as (m & Hm & [Hmv|(k & _ & Hk & _ & Hr)]); rewrite Hn in Hm; injection Hm as <-.
    + by apply (ti_visible _ _ Hi).
    + by rewrite Hk.
  - intros i j k k' n n' H1 H2. destruct (skel_entry _ _ _ _ _ _ Hs H1) as (m & Hm).
    destruct (skel_entry _ _ _ _ _ _ Hs H2) as (m' & Hm'). by apply (ti_unique _ _ Hi i j k k' m m').
  - intros i j k n' m' H1 Hm' Hk. destruct (skel_entry _ _ _ _ _ _ Hs H1) as (n & Hn).
    destruct (Hb j m' Hs Hm') as (m & Hm & Ek & _). rewrite (skel_mpos _ _ _ Hs).
    apply (ti_ghost _ _ Hi i j k n m); [done|done|congruence].
  - rewrite (sk_dummy _ _ Hs), (sk_lastfree _ _ Hs), (sk_len _ _ Hs). intros Hd.
    destruct (ti_free _ _ Hi Hd) as [H1 H2]. split; [done|]. intros i n' Hl Hn'.
    destruct (Hb i n' Hs Hn') as (n & Hn & Ek & _). rewrite (Hu n n' Ek). by eapply H2.
  - rewrite (sk_dummy _ _ Hs), (sk_lastfree _ _ Hs). intros Hd.
    destruct (ti_dummy _ _ Hi Hd) as [H1 H2]. split; [|done].
    pose proof (sk_len _ _ Hs) as Hl. rewrite H1 in Hl. destruct (node t') as [|n' [|]] eqn:En;
      [done| |unfold lenZ in Hl; cbn in Hl; lia].
    destruct (Hb 0 n' Hs) as (n & Hn & Ek & Ex); [by rewrite ?En|]. rewrite H1 in Hn. injection Hn as <-.
    f_equal. destruct n' as [v kk x]. cbn in *. subst. unfold dummynode. f_equal.
    destruct (decide (v = VNil)) as [|Hnn]; [done|].
    destruct (Hv 0 (mkNode v (LiveKey VNil) None)) as (m & Hm & [Hmv|(k & _ & Hk & Hkn & _)]);
      [by rewrite ?En|done|..]; rewrite H1 in Hm; injection Hm as <-; [done|]. by injection Hk as <-.
  - unfold sizearray. rewrite (sk_array _ _ Hs). apply (ti_array _ _ Hi).
Qed.

(** [t'] has the value [v] under [k], and the other entries of [t]. *)
Definition updated (t : Table) (k v : TValue) (t' : Table) : Prop :=
  forall k', assoc (elems t') k' = if decide (norm_key k = norm_key k') then v else assoc (elems t) k'.

Lemma store_updated t t' cs k r v :
  tinv t cs -> tinv t' cs -> skel t t' -> found t cs k (Some r) ->
  load t' (Some r) = Ret v -> (forall r', r' <> Some r -> load t' r' = load t r') ->
  updated t k v t'.
Proof.
  intros Hi Hi' Hs Hf Hr Ho k'. destruct (found_exists t cs k' Hi) as [r' Hf'].
  pose proof (skel_found _ _ _ _ _ Hs Hf') as Hf2.
  pose proof (found_assoc _ _ _ _ Hi Hf') as E1. pose proof (found_assoc _ _ _ _ Hi' Hf2) as E2.
  destruct (decide (norm_key k = norm_key k')) as [E|E].
  - rewrite (found_det _ _ _ _ _ Hi' Hf2 (found_norm _ _ _ _ _ E (skel_found _ _ _ _ _ Hs Hf))) in E2.
    rewrite Hr in E2. by injection E2.
  - rewrite Ho, E1 in E2; [by injection E2|]. intros ->. destruct E. by eapply found_inj.
Qed.

Lemma upd_node_eq t i g n :
  getZ (node t) i = Some n -> upd_node i g t = Ret (with_node (setZ (node t) i (g n)) t).
Proof. intros Hn. unfold upd_node, gnode. by rewrite Hn. Qed.

(** Storing through the slot of a key *)
Lemma store_spec t cs k r v :
  tinv t cs -> found t cs k (Some r) ->
  exists t', store t r v = Ret t' /\ tinv t' cs /\ skel t t' /\ updated t k v t' /\
    (forall n, n ∈ node t' -> unused n -> n ∈ node t).
Proof.
  intros Hi Hf. pose proof Hf as Hf0. inversion Hf as [v0 Ha Hv0 Er|i k' n Ha He E Er|]; subst r; cbn [store].
  - rewrite Hv0. cbn. set (j := arrayindex k - 1) in *. pose proof (getZ_Some _ _ _ Hv0) as Hj.
    set (t' := with_array (setZ (array t) j v) t).
    assert (Hs : skel t t').
    { split; try done; [apply lenZ_setZ|]. intros i n Hn. by exists n. }
    assert (Hi' : tinv t' cs).
    { eapply skel_tinv; [done|done|]. intros i n Hn Hv. exists n. auto. }
    exists t'. split; [done|]. split; [done|]. split; [done|]. split; [|done].
    apply (store_updated t t' cs k (SArray j)); try done.
    + cbn. by rewrite getZ_setZ_eq.
    + intros [[j'|i]|] Hne; try done. cbn. rewrite getZ_setZ_ne by congruence. done.
  - destruct He as (Hn & Hk & Hnn & Hr). rewrite (upd_node_eq _ _ _ n Hn).
    set (t' := with_node (setZ (node t) i (set_gval v n)) t).
    assert (Hl : forall j m', getZ (node t') j = Some m' -> exists m, getZ (node t) j = Some m /\
              gkey m' = gkey m /\ gnext m' = gnext m /\ (j <> i -> m' = m)).
    { intros j m' Hj. cbn in Hj. rewrite (getZ_setZ_in _ _ _ _ _ Hn) in Hj. case_decide as E'.
      - injection Hj as <-. subst j. by exists n.
      - by exists m'. }
    assert (Hs : skel t t').
    { split; try done; [apply lenZ_setZ|]. intros j m Hj. cbn. rewrite (getZ_setZ_in _ _ _ _ _ Hn).
      case_decide as E'; [subst j; exists (set_gval v n)|by exists m].
      rewrite Hn in Hj. injection Hj as <-. done. }
    assert (Hi' : tinv t' cs).
    { eapply skel_tinv; [done|done|]. intros j m' Hj Hv. destruct (Hl j m' Hj) as (m & Hm & _ & _ & E').
      exists m. split; [done|]. destruct (decide (j = i)) as [->|Hne]; [|left; by rewrite <- (E' Hne)].
      right. exists k'. split_and!; try done; rewrite Hn in Hm; by injection Hm as <-. }
    exists t'. split; [done|]. split; [done|]. split; [done|]. split.
    + apply (store_updated t t' cs k (SNode i)); try done.
      * cbn. unfold gnode. cbn. by rewrite (getZ_setZ_in _ _ _ _ _ Hn), decide_True.
      * intros [[j'|j]|] Hne; try done. cbn. unfold gnode. cbn.
        by rewrite (getZ_setZ_in _ _ _ _ _ Hn), decide_False by congruence.
    + intros m' [j Hj]%elem_of_getZ Hu. destruct (Hl j m' Hj) as (m & Hm & Ek & _ & E').
      destruct (decide (j = i)) as [->|Hne]; [|rewrite (E' Hne); by eapply getZ_elem].
      unfold unused in Hu. rewrite Hn in Hm. injection Hm as <-. congruence.
Qed.
End set.

(** * New keys

    [newkey] puts a key into its main position when it is free, behind the
    node there when that one is at home, and in its place otherwise. *)


Definition nfree (ns : list Node) : nat := length (filter unused ns).

#[local] Opaque mpos arrayindex.

(** The nodes that can still be used *)
Definition room (t : Table) : nat := if dummy t then 0%nat else nfree (node t).

Lemma nfree_app l1 l2 : nfree (l1 ++ l2) = (nfree l1 + nfree l2)%nat.
Proof. unfold nfree. by rewrite list.filter_app, length_app. Qed.

Lemma nfree_cons n l : nfree (n :: l) = ((if decide (unused n) then 1 else 0) + nfree l)%nat.
Proof. unfold nfree. rewrite list.filter_cons. by destruct (decide (unused n)). Qed.

Lemma nfree_setZ ns i x y :
  getZ ns i = Some x ->
  (nfree (setZ ns i y) + (if decide (unused x) then 1 else 0) =
   nfree ns + (if decide (unused y) then 1 else 0))%nat.
Proof.
  intros Hi. destruct (setZ_split _ _ _ Hi) as (a & b & -> & _ & ->).
  rewrite !nfree_app, !nfree_cons. lia.
Qed.

Lemma nfree_same ns i x y : getZ ns i = Some x -> gkey y = gkey x -> nfree (setZ ns i y) = nfree ns.
Proof.
  intros Hi E. pose proof (nfree_setZ ns i x y Hi) as Hn.
  assert (Hu : unused y <-> unused x) by (unfold unused; by rewrite E).
  destruct (decide (unused x)), (decide (unused y)); try tauto; lia.
Qed.

Lemma used_key n k : gkey n = LiveKey k -> k <> VNil -> ~ unused n.
Proof. unfold unused. congruence. Qed.

Section newkey.
Context `{Host}.

(** What a new slot [i] for [k] is *)
Record made (t : Table) (k : TValue) (t' : Table) (cs' : list (list Z)) (i : Z) : Prop := {
md_inv : tinv t' cs';
md_found : found t' cs' k (Some (SNode i));
md_elems : forall k v, (k, v) ∈ elems t' <-> (k, v) ∈ elems t;
md_array : array t' = array t;
md_size : lsizenode t' = lsizenode t;
md_dummy : dummy t' = dummy t;
md_room : (room t <= room t' + 1)%nat
}.

(** An entry by its node *)
Lemma entry_key t cs i k n :
  getZ (node t) i = Some n -> gkey n = LiveKey k -> k <> VNil -> reach cs (mpos t k) i ->
  entry t cs i k n.
Proof. done. Qed.

Lemma elems_nodes t t' :
  array t' = array t ->
  (forall k v, (k, v) ∈ elems_node (node t') <-> (k, v) ∈ elems_node (node t)) ->
  forall k v, (k, v) ∈ elems t' <-> (k, v) ∈ elems t.
Proof. intros Ha Hn k v. unfold elems. by rewrite !elem_of_app, Hn, Ha. Qed.

(** The entry a table does not have *)
Lemma not_found t cs k i k' n :
  found t cs k None -> entry t cs i k' n -> norm_key k' <> norm_key k.
Proof. intros Hf. inversion Hf as [| |Ha Hn]; subst. apply Hn. Qed.

Lemma good_orig t cs k :
  tinv t cs -> good_key k -> 0 <= mpos t k < lenZ (node t).
Proof. intros Hi (_ & Hk & _). apply mainposition_mpos; [apply Hi|done]. Qed.

Section free_position.
Context (t : Table) (cs : list (list Z)) (k : TValue) (x : Node).
Context (Hi : tinv t cs) (Hd : dummy t = false) (Hk : good_key k) (Hf : found t cs k None).
Context (Hx : getZ (node t) (mpos t k) = Some x) (Hv : gval x = VNil).

Definition taken : Table := with_node (setZ (node t) (mpos t k) (set_gkey k x)) t.

Lemma taken_node i : getZ (node taken) i =
  if decide (i = mpos t k) then Some (set_gkey k x) else getZ (node t) i.
Proof using Hx. apply (getZ_setZ_in _ _ _ _ _ Hx). Qed.

Lemma taken_used i n : getZ (node t) i = Some n -> ~ unused n ->
  exists m, getZ (node taken) i = Some m /\ ~ unused m.
Proof using Hx Hk.
  intros Hn Hu. rewrite taken_node. case_decide; [|by exists n].
  eexists. split; [done|]. apply (used_key _ k); [done|apply Hk].
Qed.

Lemma taken_entry i k' n : entry taken cs i k' n -> i = mpos t k /\ k' = k \/ entry t cs i k' n.
Proof using Hx.
  intros (H1 & H2 & H3 & H4). rewrite taken_node in H1. case_decide as E.
  - injection H1 as <-. injection H2 as <-. by left.
  - right. rewrite (mpos_lsizenode t taken) in H4 by reflexivity. exact (conj H1 (conj H2 (conj H3 H4))).
Qed.

Lemma taken_inv : tinv taken cs.
Proof using Hi Hd Hk Hf Hx Hv.
  assert (Em : forall v, mpos taken v = mpos t v) by (intros; apply mpos_lsizenode; reflexivity).
  split.
  - destruct (ti_size _ _ Hi). split; [done|]. cbn. by rewrite lenZ_setZ.
  - destruct (ti_chains _ _ Hi) as [H1 H2]. split.
    + eapply Forall_impl; [|exact H1]. intros c. apply linked_frame. intros j n _ Hn.
      rewrite taken_node. case_decide as E; [|by exists n]. subst j. rewrite Hx in Hn.
      injection Hn as <-. by eexists.
    + rewrite (idx_length (node taken) (node t)); [done|apply lenZ_setZ].
  - intros i n Hn Hu. rewrite taken_node in Hn. case_decide as E; [|by eapply ti_unused].
    injection Hn as <-. destruct (used_key (set_gkey k x) k); [done|apply Hk|done].
  - intros i n Hn Hu. rewrite Em. rewrite taken_node in Hn. case_decide as E.
    + injection Hn as <-. cbn [set_gkey gkey orig]. split; [done|]. split; [by inversion Hf|].
      exists (set_gkey k x). rewrite taken_node, decide_True by done. done.
    + destruct (ti_keys _ _ Hi i n Hn Hu) as (H1 & H2 & m & Hm & Hmu). split; [done|]. split; [done|].
      exact (taken_used _ _ Hm Hmu).
  - intros i n v Hn Hk'. rewrite taken_node in Hn. case_decide as E; [by injection Hn as <-|].
    by eapply ti_dead.
  - intros i n Hn Hu. rewrite !Em. rewrite taken_node in Hn. case_decide as E.
    + injection Hn as <-. cbn [set_gkey gkey orig]. intros _. exists (set_gkey k x).
      rewrite taken_node, decide_True by reflexivity. split; [reflexivity|apply Em].
    + intros Hr. destruct (ti_brent _ _ Hi i n Hn Hu Hr) as (m & Hm & E').
      destruct (decide (mpos t (orig (gkey n)) = mpos t k)) as [E2|E2].
      * exists (set_gkey k x). rewrite taken_node, decide_True by exact E2. split; [reflexivity|]. rewrite E2. apply Em.
      * exists m. rewrite taken_node, decide_False by exact E2. split; [exact Hm|]. rewrite Em. exact E'.
  - intros i n Hn Hnn. rewrite Em. rewrite taken_node in Hn. case_decide as E.
    + injection Hn as <-. done.
    + by apply (ti_visible _ _ Hi).
  - intros i j k1 k2 n1 n2 H1 H2 E.
    destruct (taken_entry _ _ _ H1) as [[-> ->]|H1'], (taken_entry _ _ _ H2) as [[-> ->]|H2']; try done.
    + by destruct (not_found _ _ _ _ _ _ Hf H2').
    + by destruct (not_found _ _ _ _ _ _ Hf H1').
    + by eapply ti_unique.
  - intros i j k1 n1 m He Hm Hkm. rewrite Em. rewrite taken_node in Hm. case_decide as E.
    { by injection Hm as <-. }
    destruct (taken_entry _ _ _ He) as [[-> ->]|He'].
    + intros Hr1 Hr2. by destruct E; eapply reach_antisym; [apply Hi|..].
    + by eapply ti_ghost.
  - intros _. destruct (ti_free _ _ Hi Hd) as [H1 H2]. split; [cbn; by rewrite lenZ_setZ|].
    intros i n Hl Hn. rewrite taken_node in Hn. case_decide as E; [|by eapply H2].
    injection Hn as <-. apply (used_key _ k); [done|apply Hk].
  - cbn. congruence.
  - apply (ti_array _ _ Hi).
Qed.

Lemma taken_made : made t k taken cs (mpos t k).
Proof using Hi Hd Hk Hf Hx Hv.
  pose proof taken_inv as Hi'. split; try done.
  - apply (found_node _ _ _ _ k (set_gkey k x)); [by inversion Hf| |done].
    apply entry_key; [by rewrite taken_node, decide_True|done|apply Hk|].
    rewrite (mpos_lsizenode t) by reflexivity. eapply reach_self; [apply Hi|]. by eapply getZ_Some.
  - apply elems_nodes; [done|]. intros k' v. rewrite !elem_of_elems_node.
    split; intros (i & n & Hn & H1 & H2 & H3).
    + rewrite taken_node in Hn. case_decide; [|by exists i, n]. injection Hn as <-. cbn in H2. congruence.
    + exists i, n. rewrite taken_node. case_decide as E; [|done]. subst i. congruence.
  - unfold room, taken. cbn [dummy node with_node]. rewrite Hd. pose proof (nfree_setZ (node t) (mpos t k) x (set_gkey k x) Hx).
    destruct (decide (unused x)), (decide (unused (set_gkey k x))); lia.
Qed.
End free_position.

(** *** A collision: the main position [mp] has a value, [n] is free. *)
Section collision.
Context (t : Table) (cs : list (list Z)) (k : TValue) (x y : Node) (n : Z).
Context (Hi : tinv t cs) (Hd : dummy t = false) (Hk : good_key k) (Hf : found t cs k None).
Context (Hx : getZ (node t) (mpos t k) = Some x) (Hv : gval x <> VNil).
Context (Hy : getZ (node t) n = Some y) (Hu : unused y).
Context (Hlast : forall i m, n < i -> getZ (node t) i = Some m -> ~ unused m).
Abbreviation mp := (mpos t k).

(** The table after the insertion, up to its nodes *)
Context (t' : Table).
Context (Harr : array t' = array t) (Hsz : lsizenode t' = lsizenode t) (Hdm : dummy t' = dummy t).
Context (Hlf : lastfree t' = n) (Hlen : lenZ (node t') = lenZ (node t)).

Lemma x_used : ~ unused x.
Proof using Hi Hx Hv. intros Hux. by destruct (ti_unused _ _ Hi _ _ Hx Hux). Qed.

Lemma n_ne_mp : n <> mp.
Proof using Hi Hx Hv Hy Hu.
  intros E. pose proof x_used as Hxu. rewrite E, Hx in Hy. injection Hy as E'. by rewrite E' in Hxu.
Qed.

Lemma n_alone : [n] ∈ cs /\ gval y = VNil /\ gnext y = None.
Proof using Hi Hy Hu.
  destruct (ti_unused _ _ Hi n y Hy Hu) as [Hc Hvy]. split; [done|]. split; [done|].
  destruct (chains_linked _ _ _ (ti_chains _ _ Hi) Hc) as [(y' & Hy' & E) _].
  rewrite Hy in Hy'. injection Hy' as <-. done.
Qed.

Lemma mpos_t' v : mpos t' v = mpos t v.
Proof using Hsz. by apply mpos_lsizenode. Qed.

Lemma used_ne_n i m : getZ (node t) i = Some m -> ~ unused m -> i <> n.
Proof using Hy Hu. intros Hm Hum ->. congruence. Qed.

(** The main position of a key in the table has been used. *)
Lemma main_ne_n i m : getZ (node t) i = Some m -> ~ unused m -> mpos t (orig (gkey m)) <> n.
Proof using Hi Hy Hu.
  intros Hm Hum. destruct (ti_keys _ _ Hi i m Hm Hum) as (_ & _ & m' & Hm' & Hum').
  by eapply used_ne_n.
Qed.

(** The chain of [mp], the free node, and the other chains *)
Lemma split_chains : exists l1 l2 rest, cs ≡ₚ (l1 ++ mp :: l2) :: [n] :: rest.
Proof using Hi Hx Hv Hy Hu.
  destruct (chains_in _ _ mp (ti_chains _ _ Hi)) as (l1 & l2 & Hc); [by eapply getZ_Some|].
  destruct (two_chains cs (l1 ++ mp :: l2) [n]) as (rest & Hp); [done|by apply n_alone| |eauto].
  intros E. assert (Hin : mp ∈ [n]) by (rewrite <- E; apply elem_of_app; right; apply elem_of_cons; by left).
  apply list_elem_of_singleton in Hin. by apply n_ne_mp.
Qed.

Lemma t'_sized : sized t'.
Proof using Hi Hsz Hlen. destruct (ti_size _ _ Hi). split; [by rewrite Hsz|]. by rewrite Hlen, Hsz. Qed.

Lemma t'_in_array v : in_array t' v <-> in_array t v.
Proof using Harr. unfold in_array, sizearray. by rewrite Harr. Qed.

Lemma room_t' : (nfree (node t) <= nfree (node t') + 1)%nat -> (room t <= room t' + 1)%nat.
Proof using Hd Hdm. unfold room. by rewrite Hdm, Hd. Qed.

(** **** The colliding node is at home: the new key goes behind it. *)
Section behind.
Context (Hmain : mpos t (orig (gkey x)) = mp).
Context (Hn' : forall i, getZ (node t') i =
  if decide (i = n) then Some (mkNode VNil (LiveKey k) (gnext x))
  else if decide (i = mp) then Some (set_gnext (Some n) x) else getZ (node t) i).
Context (l1 l2 : list Z) (rest : list (list Z)) (Hp : cs ≡ₚ (l1 ++ mp :: l2) :: [n] :: rest).

Definition behind_chains : list (list Z) := (l1 ++ mp :: n :: l2) :: rest.

Lemma behind_nin : (n ∉ l1 ++ mp :: l2) /\ (forall c, c ∈ rest -> n ∉ c) /\
  (forall c, c ∈ rest -> mp ∉ c) /\ (mp ∉ l1) /\ (mp ∉ l2).
Proof using Hi Hx Hv Hy Hu Hp.
  pose proof (chains_NoDup _ _ (ti_chains _ _ Hi)) as Hnd. rewrite (concat_perm _ _ Hp) in Hnd.
  cbn in Hnd. apply list.NoDup_app in Hnd as (H1 & H2 & H3). apply list.NoDup_cons in H3 as [H3 H4].
  split_and!.
  - intros Hin. apply (H2 _ Hin). apply elem_of_cons. by left.
  - intros c Hc Hin. apply H3, elem_of_concat. eauto.
  - intros c Hc Hin. apply (H2 mp).
    + apply elem_of_app. right. apply elem_of_cons. by left.
    + apply elem_of_cons. right. apply elem_of_concat. eauto.
  - intros Hin. apply list.NoDup_app in H1 as (_ & H1 & _). apply (H1 _ Hin). apply elem_of_cons. by left.
  - intros Hin. apply list.NoDup_app in H1 as (_ & _ & H1). by apply list.NoDup_cons in H1 as [H1 _].
Qed.

Lemma behind_reach m i : m <> n -> i <> n -> reach behind_chains m i <-> reach cs m i.
Proof using Hp.
  intros Hm Hin. split.
  - intros (c & [->|Hc]%elem_of_cons & Hb)%reach_beq.
    + apply (reach_perm ((l1 ++ mp :: l2) :: [n] :: rest)); [by symmetry|].
      apply reach_beq. exists (l1 ++ mp :: l2). split; [apply elem_of_cons; by left|].
      replace (l1 ++ mp :: n :: l2) with ((l1 ++ [mp]) ++ n :: l2) in Hb by (by rewrite <- app_assoc).
      apply beq_remove in Hb; [|done|done]. by rewrite <- app_assoc in Hb.
    + apply (reach_perm ((l1 ++ mp :: l2) :: [n] :: rest)); [by symmetry|].
      apply reach_beq. exists c. split; [|done]. apply elem_of_cons. right. apply elem_of_cons. by right.
  - intros Hr. apply (reach_perm _ _ _ _ Hp), reach_beq in Hr as (c & Hc & Hb).
    apply reach_beq. apply elem_of_cons in Hc as [->|Hc].
    + exists (l1 ++ mp :: n :: l2). split; [apply elem_of_cons; by left|].
      replace (l1 ++ mp :: n :: l2) with ((l1 ++ [mp]) ++ n :: l2) by (by rewrite <- app_assoc).
      apply beq_remove; [done|done|]. by rewrite <- app_assoc.
    + apply elem_of_cons in Hc as [->|Hc].
      * apply beq_in in Hb as [Hb _]. by apply list_elem_of_singleton in Hb.
      * exists c. split; [apply elem_of_cons; by right|done].
Qed.

Lemma behind_reach_n : reach behind_chains mp n.
Proof using.
  exists l1, (n :: l2). split; [apply elem_of_cons; by left|].
  apply elem_of_cons. right. apply elem_of_cons. by left.
Qed.

Lemma behind_shape : chains (node t') behind_chains.
Proof using Hi Hx Hv Hy Hu Hlen Hn' Hp.
  destruct behind_nin as (N1 & N2 & N3 & N4 & N5). pose proof (ti_chains _ _ Hi) as Hc.
  assert (Hold : forall c, c ∈ cs -> linked (node t) c) by (intros; by eapply chains_linked).
  assert (Hframe : forall l e, n ∉ l -> mp ∉ l -> seg (node t) l e -> seg (node t') l e).
  { intros l e Hnl Hml. apply seg_frame. intros z m Hz Hm. exists m. rewrite Hn'.
    rewrite !decide_False; [done|by intros ->|by intros ->]. }
  split.
  - apply Forall_forall. intros c Hin. apply list_elem_of_In, elem_of_cons in Hin as [->|Hin].
    + assert (Hl : linked (node t) (l1 ++ mp :: l2)) by (apply Hold; rewrite Hp; apply elem_of_cons; by left).
      apply linked_seg, seg_app in Hl as [S1 [(x' & Hx' & Ex) S2]]. rewrite Hx in Hx'. injection Hx' as <-.
      apply linked_seg, seg_app. split.
      { apply Hframe; [|done|done]. intros Hin. apply N1, elem_of_app. by left. }
      split; [|split].
      * eexists. rewrite Hn', decide_False, decide_True by (reflexivity || apply not_eq_sym, n_ne_mp).
        split; [reflexivity|reflexivity].
      * eexists. rewrite Hn', decide_True by reflexivity. split; [reflexivity|exact Ex].
      * apply Hframe; [|done|done]. intros Hin. apply N1, elem_of_app. right. apply elem_of_cons. by right.
    + apply linked_seg. apply Hframe; [by apply N2|by apply N3|]. apply linked_seg, Hold. rewrite Hp.
      apply elem_of_cons. right. apply elem_of_cons. by right.
  - rewrite (idx_length _ _ Hlen), <- (ch_part _ _ Hc), (concat_perm _ _ Hp). cbn.
    rewrite <- !app_assoc. apply Permutation_app_head. cbn. apply perm_skip.
    by rewrite Permutation_middle.
Qed.

(** The nodes that have been there *)
Lemma behind_old i m : getZ (node t') i = Some m -> i <> n ->
  exists m0, getZ (node t) i = Some m0 /\ gkey m = gkey m0 /\ gval m = gval m0.
Proof using Hn' Hx.
  intros Hm Hin. rewrite Hn', decide_False in Hm by done. case_decide as E; [|by exists m].
  injection Hm as <-. subst i. by exists x.
Qed.

Lemma behind_new i m0 : getZ (node t) i = Some m0 -> i <> n ->
  exists m, getZ (node t') i = Some m /\ gkey m = gkey m0 /\ gval m = gval m0.
Proof using Hn' Hx.
  intros Hm Hin. rewrite Hn', decide_False by done. case_decide as E; [|by exists m0].
  subst i. rewrite Hx in Hm. injection Hm as <-. eexists. split; [reflexivity|done].
Qed.

Lemma behind_entry i k' m : entry t' behind_chains i k' m -> i <> n ->
  exists m0, entry t cs i k' m0.
Proof using Hi Hx Hv Hy Hu Hsz Hn' Hp.
  intros (H1 & H2 & H3 & H4) Hin. destruct (behind_old _ _ H1 Hin) as (m0 & Hm0 & Ek & _).
  exists m0. rewrite mpos_t' in H4. rewrite Ek in H2. apply entry_key; [done|done|done|].
  apply behind_reach; [|done|done]. pose proof (main_ne_n i m0 Hm0) as Hne. rewrite H2 in Hne.
  apply Hne. by apply (used_key _ k').
Qed.

Lemma behind_key : getZ (node t') n = Some (mkNode VNil (LiveKey k) (gnext x)).
Proof using Hn'. by rewrite Hn', decide_True. Qed.

Lemma behind_inv : tinv t' behind_chains.
Proof using Hi Hd Hk Hf Hx Hv Hy Hu Hlast Harr Hsz Hdm Hlf Hlen Hmain Hn' Hp.
  assert (Huse : forall m m0, gkey m = gkey m0 -> unused m -> unused m0) by (unfold unused; congruence).
  assert (Hnew : ~ unused (mkNode VNil (LiveKey k) (gnext x))) by (apply (used_key _ k); [done|apply Hk]).
  split.
  - apply t'_sized.
  - apply behind_shape.
  - intros i m Hm Hum. destruct (decide (i = n)) as [->|Hin].
    { rewrite behind_key in Hm. injection Hm as <-. done. }
    destruct (behind_old _ _ Hm Hin) as (m0 & Hm0 & Ek & ->). apply (Huse _ m0 Ek) in Hum.
    destruct (ti_unused _ _ Hi i m0 Hm0 Hum) as [Hc Hvm]. split; [|done].
    rewrite Hp in Hc. apply elem_of_cons in Hc as [E|[E|Hc]%elem_of_cons].
    + assert (Hmi : mp ∈ [i]) by (rewrite E; apply elem_of_app; right; apply elem_of_cons; by left).
      apply list_elem_of_singleton in Hmi. subst i. rewrite Hx in Hm0. injection Hm0 as <-.
      by destruct x_used.
    + by injection E.
    + apply elem_of_cons. by right.
  - intros i m Hm Hum. rewrite mpos_t', t'_in_array. destruct (decide (i = n)) as [->|Hin].
    + rewrite behind_key in Hm. injection Hm as <-. cbn [gkey orig]. split; [done|].
      split; [by inversion Hf|]. destruct (behind_new _ _ Hx (not_eq_sym n_ne_mp)) as (m & Hm & Ek & _).
      exists m. split; [done|]. intros Hum'. apply x_used. by eapply Huse.
    + destruct (behind_old _ _ Hm Hin) as (m0 & Hm0 & Ek & _). rewrite Ek.
      assert (Hum0 : ~ unused m0) by (intros Hc; apply Hum; by eapply Huse).
      destruct (ti_keys _ _ Hi i m0 Hm0 Hum0) as (H1 & H2 & m1 & Hm1 & Hum1). split; [done|].
      split; [done|]. destruct (behind_new _ _ Hm1) as (m2 & Hm2 & Ek2 & _); [by eapply used_ne_n|].
      exists m2. split; [done|]. intros Hc. apply Hum1. by eapply Huse.
  - intros i m v Hm Hkd. destruct (decide (i = n)) as [->|Hin].
    { rewrite behind_key in Hm. by injection Hm as <-. }
    destruct (behind_old _ _ Hm Hin) as (m0 & Hm0 & Ek & ->). rewrite Ek in Hkd. by eapply ti_dead.
  - intros i m Hm Hum. rewrite !mpos_t'. destruct (decide (i = n)) as [->|Hin].
    + rewrite behind_key in Hm. injection Hm as <-. cbn [gkey orig]. intros _.
      destruct (behind_new _ _ Hx (not_eq_sym n_ne_mp)) as (m & Hm & Ek & _).
      exists m. split; [done|]. by rewrite mpos_t', Ek.
    + destruct (behind_old _ _ Hm Hin) as (m0 & Hm0 & Ek & _). rewrite Ek.
      assert (Hum0 : ~ unused m0) by (intros Hc; apply Hum; by eapply Huse).
      pose proof (main_ne_n _ _ Hm0 Hum0) as Hne. rewrite behind_reach by done. intros Hr.
      destruct (ti_brent _ _ Hi i m0 Hm0 Hum0 Hr) as (m1 & Hm1 & E1).
      destruct (behind_new _ _ Hm1 Hne) as (m2 & Hm2 & Ek2 & _). exists m2. split; [done|].
      by rewrite mpos_t', Ek2.
  - intros i m Hm Hvm. rewrite mpos_t'. destruct (decide (i = n)) as [->|Hin].
    { rewrite behind_key in Hm. by injection Hm as <-. }
    destruct (behind_old _ _ Hm Hin) as (m0 & Hm0 & Ek & Ev). rewrite Ek. rewrite Ev in Hvm.
    destruct (active_entry _ _ _ _ Hi Hm0 Hvm) as (k0 & _ & Hk0 & Hk0n & _).
    pose proof (main_ne_n _ _ Hm0 (used_key _ _ Hk0 Hk0n)). apply behind_reach; [done|done|].
    by apply (ti_visible _ _ Hi).
  - intros i j k1 k2 m1 m2 H1 H2 E.
    assert (Hnk : forall k' m, entry t' behind_chains n k' m -> k' = k).
    { intros k' m (H3 & H4 & _). rewrite behind_key in H3. injection H3 as <-. by injection H4. }
    destruct (decide (i = n)) as [->|Hi'], (decide (j = n)) as [->|Hj']; try done.
    + apply Hnk in H1 as ->. destruct (behind_entry _ _ _ H2 Hj') as (m0 & H2').
      by destruct (not_found _ _ _ _ _ _ Hf H2').
    + apply Hnk in H2 as ->. destruct (behind_entry _ _ _ H1 Hi') as (m0 & H1').
      by destruct (not_found _ _ _ _ _ _ Hf H1').
    + destruct (behind_entry _ _ _ H1 Hi') as (m3 & H1'), (behind_entry _ _ _ H2 Hj') as (m4 & H2').
      by eapply ti_unique.
  - intros i j k1 m1 m2 He Hm2 Hkm. rewrite mpos_t'. destruct (decide (j = n)) as [->|Hj].
    { rewrite behind_key in Hm2. by injection Hm2 as <-. }
    destruct (behind_old _ _ Hm2 Hj) as (m0 & Hm0 & Ek & _). rewrite Ek in Hkm.
    destruct (decide (i = n)) as [->|Hin].
    + destruct He as (H1 & H2 & _). rewrite behind_key in H1. injection H1 as <-. injection H2 as <-.
      intros Hr1 Hr2. assert (Hjm : j <> mp).
      { intros ->. rewrite Hx in Hm0. injection Hm0 as <-. destruct Hv. by eapply ti_dead. }
      pose proof behind_shape as Hsh. apply Hj. eapply reach_antisym; [exact Hsh|exact Hr2|].
      eapply reach_suffix in Hr1; [|exact Hsh|apply elem_of_cons; by left].
      apply elem_of_cons in Hr1 as [|Hr1]; [done|]. exists (l1 ++ [mp]), l2. split; [|done].
      rewrite <- app_assoc. apply elem_of_cons. by left.
    + destruct (behind_entry _ _ _ He Hin) as (m3 & He').
      pose proof (main_ne_n j m0 Hm0) as Hne. rewrite Hkm in Hne. cbn [orig] in Hne.
      assert (Hum : ~ unused m0) by (unfold unused; congruence).
      rewrite !behind_reach by (done || by apply Hne). by eapply ti_ghost.
  - intros _. rewrite Hlf, Hlen. split; [apply getZ_Some in Hy; lia|]. intros i m Hl Hm.
    destruct (decide (i = n)) as [->|Hin].
    { rewrite behind_key in Hm. by injection Hm as <-. }
    destruct (behind_old _ _ Hm Hin) as (m0 & Hm0 & Ek & _). intros Hum.
    apply (Hlast i m0); [lia|done|by eapply Huse].
  - congruence.
  - unfold sizearray. rewrite Harr. apply (ti_array _ _ Hi).
Qed.

Lemma behind_made :
  (nfree (node t) <= nfree (node t') + 1)%nat -> made t k t' behind_chains n.
Proof using Hi Hd Hk Hf Hx Hv Hy Hu Hlast Harr Hsz Hdm Hlf Hlen Hmain Hn' Hp.
  intros Hroom. pose proof behind_inv as Hi'. split; try done.
  - apply (found_node _ _ _ _ k (mkNode VNil (LiveKey k) (gnext x))); [rewrite t'_in_array; by inversion Hf| |done].
    apply entry_key; [apply behind_key|done|apply Hk|]. rewrite mpos_t'. apply behind_reach_n.
  - apply elems_nodes; [done|]. intros k' v. rewrite !elem_of_elems_node.
    split; intros (i & m & Hm & H1 & H2 & H3); destruct (decide (i = n)) as [->|Hin].
    + rewrite behind_key in Hm. injection Hm as <-. cbn in H2. congruence.
    + destruct (behind_old _ _ Hm Hin) as (m0 & Hm0 & Ek & Ev). exists i, m0. split_and!; congruence.
    + rewrite Hy in Hm. injection Hm as <-. destruct n_alone as (_ & Hvy & _). congruence.
    + destruct (behind_new _ _ Hm Hin) as (m0 & Hm0 & Ek & Ev). exists i, m0. split_and!; congruence.
  - by apply room_t'.
Qed.
End behind.

(** **** The colliding node is away from home: it moves to the free node. *)
Section moved.
Context (prev : Z) (pn : Node).
Context (Hmain : mpos t (orig (gkey x)) <> mp).
Context (Hprev : getZ (node t) prev = Some pn) (Hpn : prev <> n) (Hpm : prev <> mp).
Context (Hn' : forall i, getZ (node t') i =
  if decide (i = n) then Some x
  else if decide (i = mp) then Some (mkNode VNil (LiveKey k) None)
  else if decide (i = prev) then Some (set_gnext (Some n) pn) else getZ (node t) i).
Context (l1 l2 : list Z) (rest : list (list Z)).
Context (Hp : cs ≡ₚ ((l1 ++ [prev]) ++ mp :: l2) :: [n] :: rest).

Definition moved_chains : list (list Z) := ((l1 ++ [prev]) ++ n :: l2) :: [mp] :: rest.

Lemma moved_reach m i : m <> n -> i <> n -> m <> mp -> i <> mp ->
  reach moved_chains m i <-> reach cs m i.
Proof using Hp.
  intros Hm Hin Hm2 Hi2. split.
  - intros (c & [->|[->|Hc]%elem_of_cons]%elem_of_cons & Hb)%reach_beq;
      apply (reach_perm (((l1 ++ [prev]) ++ mp :: l2) :: [n] :: rest)); try (by symmetry); apply reach_beq.
    + exists ((l1 ++ [prev]) ++ mp :: l2). split; [apply elem_of_cons; by left|].
      apply beq_remove; [done|done|]. by apply beq_remove in Hb.
    + apply beq_in in Hb as [Hb _]. by apply list_elem_of_singleton in Hb.
    + exists c. split; [|done]. apply elem_of_cons. right. apply elem_of_cons. by right.
  - intros Hr. apply (reach_perm _ _ _ _ Hp), reach_beq in Hr as (c & Hc & Hb).
    apply reach_beq. apply elem_of_cons in Hc as [->|Hc].
    + exists ((l1 ++ [prev]) ++ n :: l2). split; [apply elem_of_cons; by left|].
      apply beq_remove; [done|done|]. by apply beq_remove in Hb.
    + apply elem_of_cons in Hc as [->|Hc].
      * apply beq_in in Hb as [Hb _]. by apply list_elem_of_singleton in Hb.
      * exists c. split; [|done]. apply elem_of_cons. right. apply elem_of_cons. by right.
Qed.

Lemma moved_nin : (n ∉ (l1 ++ [prev]) ++ mp :: l2) /\ (forall c, c ∈ rest -> n ∉ c) /\
  (forall c, c ∈ rest -> mp ∉ c) /\ (forall c, c ∈ rest -> prev ∉ c) /\
  (mp ∉ l1 ++ [prev]) /\ (mp ∉ l2) /\ (prev ∉ l1) /\ (prev ∉ l2).
Proof using Hi Hp.
  pose proof (chains_NoDup _ _ (ti_chains _ _ Hi)) as Hnd. rewrite (concat_perm _ _ Hp) in Hnd.
  cbn in Hnd. apply list.NoDup_app in Hnd as (H1 & H2 & H3). apply list.NoDup_cons in H3 as [H3 H4].
  assert (Hmc : mp ∈ (l1 ++ [prev]) ++ mp :: l2) by (apply elem_of_app; right; apply elem_of_cons; by left).
  assert (Hpc : prev ∈ l1 ++ [prev]) by (apply elem_of_app; right; by apply list_elem_of_singleton).
  assert (Hpc' : prev ∈ (l1 ++ [prev]) ++ mp :: l2) by (apply elem_of_app; by left).
  split_and!.
  - intros Hin. apply (H2 _ Hin). apply elem_of_cons. by left.
  - intros c Hc Hin. apply H3, elem_of_concat. eauto.
  - intros c Hc Hin. apply (H2 mp Hmc). apply elem_of_cons. right. apply elem_of_concat. eauto.
  - intros c Hc Hin. apply (H2 prev Hpc'). apply elem_of_cons. right. apply elem_of_concat. eauto.
  - intros Hin. apply list.NoDup_app in H1 as (_ & H1 & _). apply (H1 _ Hin). apply elem_of_cons. by left.
  - intros Hin. apply list.NoDup_app in H1 as (_ & _ & H1). by apply list.NoDup_cons in H1 as [H1 _].
  - intros Hin. apply list.NoDup_app in H1 as (H1 & _ & _). apply list.NoDup_app in H1 as (_ & H1 & _).
    apply (H1 _ Hin). by apply list_elem_of_singleton.
  - intros Hin. apply list.NoDup_app in H1 as (_ & H1 & _). apply (H1 _ Hpc). apply elem_of_cons. by right.
Qed.

Lemma moved_shape : chains (node t') moved_chains.
Proof using Hi Hx Hv Hy Hu Hlen Hn' Hp Hprev Hpn Hpm.
  destruct moved_nin as (N1 & N2 & N3 & N4 & N5 & N6 & N7 & N8). pose proof (ti_chains _ _ Hi) as Hc.
  assert (Hold : forall c, c ∈ cs -> linked (node t) c) by (intros; by eapply chains_linked).
  assert (Hframe : forall l e, n ∉ l -> mp ∉ l -> prev ∉ l -> seg (node t) l e -> seg (node t') l e).
  { intros l e Hnl Hml Hpl. apply seg_frame. intros z m Hz Hm. exists m. rewrite Hn'.
    rewrite !decide_False; [done|by intros ->|by intros ->|by intros ->]. }
  assert (Nl : (n ∉ l1 ++ [prev]) /\ (n ∉ l2)).
  { split; intros Hin; apply N1, elem_of_app; [by left|right; apply elem_of_cons; by right]. }
  split.
  - apply Forall_forall. intros c Hin. apply list_elem_of_In, elem_of_cons in Hin as [->|[->|Hin]%elem_of_cons].
    + assert (Hl : linked (node t) ((l1 ++ [prev]) ++ mp :: l2)) by (apply Hold; rewrite Hp; apply elem_of_cons; by left).
      apply linked_seg, seg_app in Hl as [S1 [(x' & Hx' & Ex) S2]]. rewrite Hx in Hx'. injection Hx' as <-.
      apply seg_app in S1 as [S1 _].
      apply linked_seg, seg_app. split; [apply seg_app; split|].
      * apply Hframe; [|..|done|done]; intros Hin; [apply (proj1 Nl)|apply N5]; apply elem_of_app; by left.
      * split; [|done]. exists (set_gnext (Some n) pn). rewrite Hn', !decide_False, decide_True by done. done.
      * split.
        -- exists x. rewrite Hn', decide_True by reflexivity. done.
        -- apply Hframe; [apply Nl|done|done|done].
    + split; [|done]. eexists. rewrite Hn', decide_False, decide_True by (reflexivity || apply not_eq_sym, n_ne_mp).
      split; reflexivity.
    + apply linked_seg. apply Hframe; [by apply N2|by apply N3|by apply N4|]. apply linked_seg, Hold. rewrite Hp.
      apply elem_of_cons. right. apply elem_of_cons. by right.
  - rewrite (idx_length _ _ Hlen), <- (ch_part _ _ Hc), (concat_perm _ _ Hp). cbn.
    rewrite <- !Permutation_middle. cbn. apply Permutation_swap.
Qed.

(** The place of a node after the move *)
Lemma moved_old i m : getZ (node t') i = Some m -> i <> mp ->
  exists m0, getZ (node t) (if decide (i = n) then mp else i) = Some m0 /\
    gkey m = gkey m0 /\ gval m = gval m0.
Proof using Hn' Hx Hprev.
  intros Hm Him. rewrite Hn' in Hm. case_decide as E; [injection Hm as <-; by exists x|].
  rewrite decide_False in Hm by done. case_decide as E2; [|by exists m].
  injection Hm as <-. subst i. by exists pn.
Qed.

Lemma moved_new i m0 : getZ (node t) i = Some m0 -> i <> n ->
  exists m, getZ (node t') (if decide (i = mp) then n else i) = Some m /\
    gkey m = gkey m0 /\ gval m = gval m0.
Proof using Hn' Hx Hprev.
  intros Hm Hin. rewrite Hn'. destruct (decide (i = mp)) as [->|E].
  - rewrite decide_True by reflexivity. rewrite Hx in Hm. injection Hm as <-. by exists x.
  - rewrite !decide_False by done. case_decide as E2; [|by exists m0].
    subst i. rewrite Hprev in Hm. injection Hm as <-. eexists. split; [reflexivity|done].
Qed.

Lemma moved_key : getZ (node t') mp = Some (mkNode VNil (LiveKey k) None).
Proof using Hi Hx Hv Hy Hu Hn'.
  by rewrite Hn', decide_False, decide_True by (reflexivity || apply not_eq_sym, n_ne_mp).
Qed.

(** Nothing but [mp] itself is reached from there any more. *)
Lemma moved_reach_mp i : reach moved_chains mp i -> i = mp.
Proof using Hi Hx Hv Hy Hu Hp.
  destruct moved_nin as (N1 & N2 & N3 & N4 & N5 & N6 & N7 & N8).
  intros (c & [->|[->|Hc]%elem_of_cons]%elem_of_cons & Hb)%reach_beq.
  - apply beq_in in Hb as [Hb _]. exfalso. apply elem_of_app in Hb as [|[Hb|]%elem_of_cons]; [done| |done].
    by apply n_ne_mp.
  - apply beq_in in Hb as [_ Hb]. by apply list_elem_of_singleton in Hb.
  - apply beq_in in Hb as [Hb _]. by destruct (N3 c Hc).
Qed.

(** The moved node is reached as before. *)
Lemma moved_reach_n m : m <> n -> m <> mp -> reach moved_chains m n <-> reach cs m mp.
Proof using Hi Hp.
  destruct moved_nin as (N1 & N2 & N3 & N4 & N5 & N6 & N7 & N8). intros Hmn Hmm.
  assert (Nl : (n ∉ l1 ++ [prev]) /\ (n ∉ l2)).
  { split; intros Hin; apply N1, elem_of_app; [by left|right; apply elem_of_cons; by right]. }
  split.
  - intros (c & [->|[->|Hc]%elem_of_cons]%elem_of_cons & Hb)%reach_beq.
    + apply (reach_perm (((l1 ++ [prev]) ++ mp :: l2) :: [n] :: rest)); [by symmetry|].
      apply reach_beq. exists ((l1 ++ [prev]) ++ mp :: l2). split; [apply elem_of_cons; by left|].
      apply beq_last; [done..|]. apply beq_last in Hb; [done|done|apply Nl..].
    + apply beq_in in Hb as [Hb _]. by apply list_elem_of_singleton in Hb.
    + apply beq_in in Hb as [_ Hb]. by destruct (N2 c Hc).
  - intros Hr. apply (reach_perm _ _ _ _ Hp), reach_beq in Hr as (c & Hc & Hb).
    apply elem_of_cons in Hc as [->|[->|Hc]%elem_of_cons].
    + apply reach_beq. exists ((l1 ++ [prev]) ++ n :: l2). split; [apply elem_of_cons; by left|].
      apply beq_last; [done|apply Nl..|]. by apply beq_last in Hb.
    + apply beq_in in Hb as [Hb _]. by apply list_elem_of_singleton in Hb.
    + apply beq_in in Hb as [_ Hb]. by destruct (N3 c Hc).
Qed.

(** No visible key has its main position at the node that moved. *)
Lemma moved_main i m : getZ (node t) i = Some m -> ~ unused m ->
  reach cs (mpos t (orig (gkey m))) i -> mpos t (orig (gkey m)) <> mp.
Proof using Hi Hx Hmain.
  intros Hm Hum Hr E. destruct (ti_brent _ _ Hi i m Hm Hum Hr) as (m0 & Hm0 & E0).
  rewrite E, Hx in Hm0. injection Hm0 as <-. congruence.
Qed.

(** Visible old keys, before and after *)
Lemma moved_visible i m : getZ (node t) (if decide (i = n) then mp else i) = Some m -> ~ unused m ->
  i <> mp -> let z := mpos t (orig (gkey m)) in
  reach moved_chains z i <-> reach cs z (if decide (i = n) then mp else i).
Proof using Hi Hx Hv Hy Hu Hp Hmain.
  intros Hm Hum Him z. assert (Hzn : z <> n) by (by eapply main_ne_n).
  destruct (decide (z = mp)) as [Ez|Hzm].
  { split; intros Hr; exfalso.
    - rewrite Ez in Hr. by apply Him, moved_reach_mp.
    - by eapply (moved_main _ m). }
  case_decide as E; [subst i; by apply moved_reach_n|by apply moved_reach].
Qed.

Lemma moved_entry i k' m : entry t' moved_chains i k' m -> i <> mp ->
  exists m0, entry t cs (if decide (i = n) then mp else i) k' m0.
Proof using Hi Hx Hv Hy Hu Hsz Hn' Hp Hprev Hmain.
  intros (H1 & H2 & H3 & H4) Him. destruct (moved_old _ _ H1 Him) as (m0 & Hm0 & Ek & _).
  exists m0. rewrite mpos_t' in H4. rewrite Ek in H2. apply entry_key; [done|done|done|].
  pose proof (moved_visible i m0 Hm0 (used_key _ _ H2 H3) Him) as Hvis. cbv zeta in Hvis.
  rewrite H2 in Hvis. by apply Hvis.
Qed.

Lemma moved_inv : tinv t' moved_chains.
Proof using Hi Hd Hk Hf Hx Hv Hy Hu Hlast Harr Hsz Hdm Hlf Hlen Hmain Hn' Hp Hprev Hpn Hpm.
  assert (Huse : forall m m0, gkey m = gkey m0 -> unused m -> unused m0) by (unfold unused; congruence).
  assert (Hnew : ~ unused (mkNode VNil (LiveKey k) None)) by (apply (used_key _ k); [done|apply Hk]).
  assert (Hmu : forall i m0, getZ (node t) i = Some m0 -> ~ unused m0 ->
    exists m, getZ (node t') i = Some m /\ ~ unused m /\ (i <> mp -> gkey m = gkey m0)).
  { intros i m0 Hm0 Hum. pose proof (used_ne_n _ _ Hm0 Hum) as Hin.
    destruct (decide (i = mp)) as [->|Him]; [rewrite moved_key; by eexists|].
    destruct (moved_new _ _ Hm0 Hin) as (m & Hm & Ek & _). rewrite decide_False in Hm by done.
    exists m. split; [done|]. split; [|done]. intros Hc. apply Hum. by eapply Huse. }
  split.
  - apply t'_sized.
  - apply moved_shape.
  - intros i m Hm Hum. destruct (decide (i = mp)) as [->|Him].
    { rewrite moved_key in Hm. injection Hm as <-. done. }
    destruct (moved_old _ _ Hm Him) as (m0 & Hm0 & Ek & ->). apply (Huse _ m0 Ek) in Hum.
    destruct (decide (i = n)) as [E|Hin].
    { rewrite Hx in Hm0. injection Hm0 as <-. by destruct x_used. }
    destruct (ti_unused _ _ Hi i m0 Hm0 Hum) as [Hc Hvm]. split; [|done].
    rewrite Hp in Hc. apply elem_of_cons in Hc as [E|[E|Hc]%elem_of_cons].
    + assert (Hmi : mp ∈ [i]) by (rewrite E; apply elem_of_app; right; apply elem_of_cons; by left).
      apply list_elem_of_singleton in Hmi. by subst i.
    + by injection E.
    + apply elem_of_cons. right. apply elem_of_cons. by right.
  - intros i m Hm Hum. rewrite mpos_t', t'_in_array. destruct (decide (i = mp)) as [->|Him].
    + rewrite moved_key in Hm. injection Hm as <-. cbn [gkey orig]. split; [done|].
      split; [by inversion Hf|]. destruct (Hmu _ _ Hx x_used) as (m & Hm & Hum' & _). eauto.
    + destruct (moved_old _ _ Hm Him) as (m0 & Hm0 & Ek & _). rewrite Ek.
      assert (Hum0 : ~ unused m0) by (intros Hc; apply Hum; by eapply Huse).
      destruct (ti_keys _ _ Hi _ m0 Hm0 Hum0) as (H1 & H2 & m1 & Hm1 & Hum1). split; [done|].
      split; [done|]. destruct (Hmu _ _ Hm1 Hum1) as (m2 & Hm2 & Hum2 & _). eauto.
  - intros i m v Hm Hkd. destruct (decide (i = mp)) as [->|Him].
    { rewrite moved_key in Hm. by injection Hm as <-. }
    destruct (moved_old _ _ Hm Him) as (m0 & Hm0 & Ek & ->). rewrite Ek in Hkd. by eapply ti_dead.
  - intros i m Hm Hum. rewrite !mpos_t'. destruct (decide (i = mp)) as [->|Him].
    + rewrite moved_key in Hm. injection Hm as <-. cbn [gkey orig]. intros _.
      eexists. split; [apply moved_key|]. by rewrite mpos_t'.
    + destruct (moved_old _ _ Hm Him) as (m0 & Hm0 & Ek & _). rewrite Ek.
      assert (Hum0 : ~ unused m0) by (intros Hc; apply Hum; by eapply Huse).
      rewrite (moved_visible i m0 Hm0 Hum0 Him). intros Hr.
      pose proof (moved_main _ _ Hm0 Hum0 Hr) as Hne.
      destruct (ti_brent _ _ Hi _ m0 Hm0 Hum0 Hr) as (m1 & Hm1 & E1).
      destruct (moved_new _ _ Hm1) as (m2 & Hm2 & Ek2 & _); [by eapply main_ne_n|].
      rewrite decide_False in Hm2 by done. exists m2. split; [done|]. by rewrite mpos_t', Ek2.
  - intros i m Hm Hvm. rewrite mpos_t'. destruct (decide (i = mp)) as [->|Him].
    { rewrite moved_key in Hm. by injection Hm as <-. }
    destruct (moved_old _ _ Hm Him) as (m0 & Hm0 & Ek & Ev). rewrite Ek. rewrite Ev in Hvm.
    destruct (active_entry _ _ _ _ Hi Hm0 Hvm) as (k0 & _ & Hk0 & Hk0n & _).
    apply (moved_visible i m0 Hm0 (used_key _ _ Hk0 Hk0n) Him). by apply (ti_visible _ _ Hi).
  - intros i j k1 k2 m1 m2 H1 H2 E.
    assert (Hnk : forall k' m, entry t' moved_chains mp k' m -> k' = k).
    { intros k' m (H3 & H4 & _). rewrite moved_key in H3. injection H3 as <-. by injection H4. }
    destruct (decide (i = mp)) as [->|Hi'], (decide (j = mp)) as [->|Hj']; try done.
    + apply Hnk in H1 as ->. destruct (moved_entry _ _ _ H2 Hj') as (m0 & H2').
      by destruct (not_found _ _ _ _ _ _ Hf H2').
    + apply Hnk in H2 as ->. destruct (moved_entry _ _ _ H1 Hi') as (m0 & H1').
      by destruct (not_found _ _ _ _ _ _ Hf H1').
    + destruct (moved_entry _ _ _ H1 Hi') as (m3 & H1'), (moved_entry _ _ _ H2 Hj') as (m4 & H2').
      pose proof (ti_unique _ _ Hi _ _ _ _ _ _ H1' H2' E) as Eij.
      destruct (decide (i = n)), (decide (j = n)); congruence.
  - intros i j k1 m1 m2 He Hm2 Hkm. rewrite mpos_t'. destruct (decide (j = mp)) as [->|Hj].
    { rewrite moved_key in Hm2. by injection Hm2 as <-. }
    destruct (moved_old _ _ Hm2 Hj) as (m0 & Hm0 & Ek & _). rewrite Ek in Hkm.
    assert (Hum : ~ unused m0) by (unfold unused; congruence).
    destruct (decide (i = mp)) as [->|Him].
    + destruct He as (H1 & H2 & _). rewrite moved_key in H1. injection H1 as <-. injection H2 as <-.
      intros Hr1 _. by apply Hj, moved_reach_mp.
    + destruct (moved_entry _ _ _ He Him) as (m3 & He').
      pose proof (moved_visible j m0 Hm0 Hum Hj) as Hvis. cbv zeta in Hvis. rewrite Hkm in Hvis. cbn [orig] in Hvis.
      rewrite Hvis. case_decide as Ej.
      { exfalso. subst j. rewrite Hx in Hm0. injection Hm0 as <-. destruct Hv. by eapply ti_dead. }
      intros Hr1 Hr2. assert (Hr3 : reach cs j (if decide (i = n) then mp else i)).
      { case_decide as Ei; [subst i; by apply moved_reach_n|by apply moved_reach]. }
      by eapply ti_ghost.
  - intros _. rewrite Hlf, Hlen. split; [apply getZ_Some in Hy; lia|]. intros i m Hl Hm.
    destruct (decide (i = mp)) as [->|Him].
    { rewrite moved_key in Hm. by injection Hm as <-. }
    destruct (moved_old _ _ Hm Him) as (m0 & Hm0 & Ek & _). intros Hum. apply (Huse _ m0 Ek) in Hum.
    destruct (decide (i = n)) as [E|Hin].
    + rewrite Hx in Hm0. injection Hm0 as <-. by destruct x_used.
    + apply (Hlast i m0); [lia|done|done].
  - congruence.
  - unfold sizearray. rewrite Harr. apply (ti_array _ _ Hi).
Qed.

Lemma moved_made :
  (nfree (node t) <= nfree (node t') + 1)%nat -> made t k t' moved_chains mp.
Proof using Hi Hd Hk Hf Hx Hv Hy Hu Hlast Harr Hsz Hdm Hlf Hlen Hmain Hn' Hp Hprev Hpn Hpm.
  intros Hroom. pose proof moved_inv as Hi'. split; try done.
  - apply (found_node _ _ _ _ k (mkNode VNil (LiveKey k) None)); [rewrite t'_in_array; by inversion Hf| |done].
    apply entry_key; [apply moved_key|done|apply Hk|]. rewrite mpos_t'.
    eapply reach_self; [apply Hi'|]. eapply getZ_Some, moved_key.
  - apply elems_nodes; [done|]. intros k' v. rewrite !elem_of_elems_node.
    split; intros (i & m & Hm & H1 & H2 & H3).
    + destruct (decide (i = mp)) as [->|Him].
      * rewrite moved_key in Hm. injection Hm as <-. cbn in H2. congruence.
      * destruct (moved_old _ _ Hm Him) as (m0 & Hm0 & Ek & Ev).
        eexists _, m0. split; [exact Hm0|]. split_and!; congruence.
    + destruct (decide (i = n)) as [->|Hin].
      * rewrite Hy in Hm. injection Hm as <-. destruct n_alone as (_ & Hvy & _). congruence.
      * destruct (moved_new _ _ Hm Hin) as (m0 & Hm0 & Ek & Ev).
        eexists _, m0. split; [exact Hm0|]. split_and!; congruence.
  - by apply room_t'.
Qed.
End moved.
End collision.
End newkey.

(** * Insertion with room

    [newkey] in a table that has a free node; what [luaH_set] does then. *)


#[local] Opaque mpos arrayindex.

Section key.
Context `{Host}.

(** ** Free positions *)

Lemma key_is_unused n : key_is (gkey n) ttisnil = true <-> unused n.
Proof.
  unfold unused. destruct (gkey n) as [v|v]; cbn; [|split; done]. rewrite ttisnil_spec.
  split; [by intros ->|by intros [=]].
Qed.

Lemma nfree_pos ns : (1 <= nfree ns)%nat -> exists i n, getZ ns i = Some n /\ unused n.
Proof.
  unfold nfree. destruct (filter unused ns) as [|n l] eqn:E; cbn; [lia|]. intros _.
  assert (Hn : n ∈ filter unused ns) by (rewrite E; apply elem_of_cons; by left).
  apply list_elem_of_filter in Hn as [Hu Hn]. apply elem_of_getZ in Hn as [i Hi]. eauto.
Qed.

Lemma nfree_zero ns : (forall i n, getZ ns i = Some n -> ~ unused n) -> nfree ns = 0%nat.
Proof.
  intros Hu. destruct (decide (1 <= nfree ns)%nat) as [Hn|]; [|lia].
  destruct (nfree_pos ns Hn) as (i & n & Hi & Hun). by destruct (Hu i n Hi).
Qed.

Lemma getfreepos_loop_spec m t :
  Z.of_nat m <= lenZ (node t) ->
  (forall i n, Z.of_nat m <= i -> getZ (node t) i = Some n -> ~ unused n) ->
  (exists n y, getfreepos_loop m t = Ret (Some n, with_lastfree n t) /\
     getZ (node t) n = Some y /\ unused y /\
     (forall i z, n < i -> getZ (node t) i = Some z -> ~ unused z)) \/
  (getfreepos_loop m t = Ret (None, with_lastfree (-1) t) /\
     forall i z, getZ (node t) i = Some z -> ~ unused z).
Proof.
  induction m as [|m IH]; intros Hm Hu; cbn [getfreepos_loop].
  - right. split; [done|]. intros i z Hz. apply (Hu i); [|done]. apply getZ_Some in Hz. lia.
  - destruct (getZ_is_Some (node t) (Z.of_nat m)) as [x Hx]; [lia|].
    unfold gnode. rewrite Hx. cbn [mbind outcome_bind deref].
    destruct (key_is (gkey x) ttisnil) eqn:E.
    + left. exists (Z.of_nat m), x. split_and!; [done|done|by apply key_is_unused|].
      intros i z Hi. apply Hu. lia.
    + apply IH; [lia|]. intros i z Hi Hz. destruct (decide (i = Z.of_nat m)) as [->|].
      * rewrite Hx in Hz. injection Hz as <-. rewrite <- key_is_unused. congruence.
      * apply (Hu i); [lia|done].
Qed.

Lemma nfree_none t : nfree (node t) = 0%nat -> forall i n, getZ (node t) i = Some n -> ~ unused n.
Proof.
  intros Hr i n Hn Hu. unfold nfree in Hr.
  assert (Hin : n ∈ filter unused (node t)) by (apply list_elem_of_filter; split; [done|by eapply getZ_elem]).
  destruct (filter unused (node t)); [by apply not_elem_of_nil in Hin|done].
Qed.

(** The failed search for a free node *)
Lemma tinv_lastfree t cs j : tinv t cs -> room t = 0%nat -> j <= 0 -> tinv (with_lastfree j t) cs.
Proof.
  intros Hi Hr Hj. unfold room in Hr.
  assert (Em : forall v, mpos (with_lastfree j t) v = mpos t v) by (intros; apply mpos_lsizenode; reflexivity).
  split.
  - destruct (ti_size _ _ Hi). by split.
  - apply (ti_chains _ _ Hi).
  - apply (ti_unused _ _ Hi).
  - intros i n. rewrite Em. apply (ti_keys _ _ Hi).
  - apply (ti_dead _ _ Hi).
  - intros i n Hn Hu. rewrite Em. intros Hrch. destruct (ti_brent _ _ Hi i n Hn Hu Hrch) as (m & Hm & E).
    exists m. by rewrite Em.
  - intros i n. rewrite Em. apply (ti_visible _ _ Hi).
  - intros i k k1 k2 n1 n2 (H1 & H2 & H3 & H4) (H5 & H6 & H7 & H8). rewrite Em in H4, H8.
    apply (ti_unique _ _ Hi i k k1 k2 n1 n2); by apply entry_key.
  - intros i k k1 n1 m (H1 & H2 & H3 & H4). rewrite Em in *. apply (ti_ghost _ _ Hi i k k1 n1 m). by apply entry_key.
  - cbn [dummy lastfree node with_lastfree]. intros Hd. rewrite Hd in Hr.
    split; [pose proof (lenZ_nonneg (node t)); lia|]. intros i n _. by apply nfree_none.
  - cbn [dummy lastfree node with_lastfree]. intros Hd. by destruct (ti_dummy _ _ Hi Hd).
  - apply (ti_array _ _ Hi).
Qed.

Lemma getfreepos_spec t cs :
  tinv t cs ->
  (exists n y, getfreepos t = Ret (Some n, with_lastfree n t) /\ dummy t = false /\
     getZ (node t) n = Some y /\ unused y /\
     (forall i z, n < i -> getZ (node t) i = Some z -> ~ unused z)) \/
  (room t = 0%nat /\ exists j, getfreepos t = Ret (None, with_lastfree j t) /\ tinv (with_lastfree j t) cs).
Proof.
  intros Hi. unfold getfreepos.
  destruct (Z.leb_spec (lastfree t) 0) as [Hl|Hl].
  - right. assert (Hr : room t = 0%nat).
    { unfold room. destruct (dummy t) eqn:Ed; [done|]. apply nfree_zero. intros i n Hn.
      apply (ti_free _ _ Hi Ed) with (i := i); [|done]. apply getZ_Some in Hn. lia. }
    split; [done|]. eexists. split; [reflexivity|]. apply tinv_lastfree; [done|done|lia].
  - destruct (dummy t) eqn:Ed; [destruct (ti_dummy _ _ Hi Ed); lia|].
    destruct (ti_free _ _ Hi Ed) as [H1 H2].
    destruct (getfreepos_loop_spec (Z.to_nat (lastfree t)) t) as [(n & y & Hg & Hy & Hu & Hlast)|[Hg Hu]];
      [lia|intros i n Hn; apply H2; lia|left; by exists n, y|right].
    assert (Hr : room t = 0%nat) by (unfold room; rewrite Ed; by apply nfree_zero).
    split; [done|]. eexists. split; [exact Hg|]. apply tinv_lastfree; [done|done|lia].
Qed.

(** ** The node before *)

Lemma find_previous_spec fuel t mp o b prev :
  seg (node t) (o :: b) (Some mp) -> (exists a, o :: b = a ++ [prev]) -> (mp ∉ b) ->
  (length b <= fuel)%nat -> find_previous fuel t o mp = Ret prev.
Proof.
  revert o b. induction fuel as [|fuel IH]; intros o b Hs Hl Hm Hf;
    (destruct b as [|y b]; [|try (cbn in Hf; lia)]); cbn [find_previous];
    destruct Hs as [(n & Hn & E) Hs]; unfold gnode; rewrite Hn; cbn [mbind outcome_bind deref]; rewrite E.
  1,2: rewrite Z.eqb_refl; destruct Hl as [[|z [|z' a]] E']; [by injection E' as ->|done|done].
  apply not_elem_of_cons in Hm as [Hy Hm]. rewrite (proj2 (Z.eqb_neq y mp)) by done.
  apply (IH y b); [done| |done|cbn in Hf; lia]. destruct Hl as [[|z a] E']; [done|].
  injection E' as _ E'. by exists a.
Qed.

Lemma find_previous_lastfree fuel t j o mp :
  find_previous fuel (with_lastfree j t) o mp = find_previous fuel t o mp.
Proof.
  revert o. induction fuel as [|fuel IH]; intros o; cbn [find_previous]; [reflexivity|].
  unfold gnode. cbn [node with_lastfree]. destruct (getZ (node t) o) as [n|]; [|reflexivity].
  cbn [mbind outcome_bind deref]. destruct (gnext n) as [z|]; [|reflexivity]. by rewrite IH.
Qed.

(** ** The rooms a key can take *)

(** The main position of the key is free. *)
Lemma newkey_taken nk t cs k x :
  tinv t cs -> good_key k -> found t cs k None -> dummy t = false ->
  getZ (node t) (mpos t k) = Some x -> gval x = VNil ->
  newkey_rule nk t k = Ret (taken t k x, SNode (mpos t k)) /\ made t k (taken t k x) cs (mpos t k).
Proof.
  intros Hi Hk Hf Hd Hx Hv. split; [|by apply taken_made]. unfold newkey_rule.
  destruct (mainposition_mpos t k (ti_size _ _ Hi)) as [-> _]; [apply Hk|]. cbn [mbind outcome_bind].
  unfold gnode. rewrite Hx. cbn [mbind outcome_bind deref]. rewrite Hv, Hd. cbn [ttisnil ttype orb negb].
  change (LUA_TNIL =? LUA_TNIL) with true. cbn [orb negb].
  by rewrite (upd_node_eq _ _ _ x Hx).
Qed.

(** The colliding node is at home. *)
Lemma make_room_behind t mp n x y :
  getZ (node t) mp = Some x -> getZ (node t) n = Some y -> n <> mp ->
  mainposition_key t (gkey x) = Ret mp ->
  make_room t mp n = Ret (with_node (setZ (setZ (node t) n (set_gnext (gnext x) y)) mp (set_gnext (Some n) x)) t, n).
Proof.
  intros Hx Hy Hne Hm. unfold make_room, gnode. rewrite Hx. cbn [mbind outcome_bind deref].
  rewrite Hm. cbn [mbind outcome_bind]. rewrite Z.eqb_refl. cbn [negb].
  rewrite (upd_node_eq _ _ _ y Hy). cbn [mbind outcome_bind].
  rewrite (upd_node_eq _ _ _ x); [done|]. cbn [node with_node].
  by rewrite (getZ_setZ_in _ _ _ _ _ Hy), decide_False.
Qed.

(** The colliding node is moved. *)
Lemma make_room_moved t mp n x y o prev pn :
  getZ (node t) mp = Some x -> getZ (node t) n = Some y -> n <> mp ->
  mainposition_key t (gkey x) = Ret o -> o <> mp ->
  find_previous (length (node t)) t o mp = Ret prev ->
  getZ (node t) prev = Some pn -> prev <> n -> prev <> mp ->
  exists ns, make_room t mp n = Ret (with_node ns t, mp) /\ lenZ ns = lenZ (node t) /\
    (forall i, getZ ns i = if decide (i = n) then Some x
       else if decide (i = mp) then Some (mkNode VNil (gkey x) None)
       else if decide (i = prev) then Some (set_gnext (Some n) pn) else getZ (node t) i) /\
    (nfree ns + (if decide (unused y) then 1 else 0) = nfree (node t) + (if decide (unused x) then 1 else 0))%nat.
Proof.
  intros Hx Hy Hne Hm Ho Hfp Hp Hpn Hpm. unfold make_room, gnode. rewrite Hx. cbn [mbind outcome_bind deref].
  rewrite Hm. cbn [mbind outcome_bind]. rewrite (proj2 (Z.eqb_neq o mp)) by done. cbn [negb].
  rewrite Hfp. cbn [mbind outcome_bind]. rewrite (upd_node_eq _ _ _ pn Hp). cbn [mbind outcome_bind node with_node].
  set (ns1 := setZ (node t) prev (set_gnext (Some n) pn)).
  assert (L1 : forall i, getZ ns1 i = if decide (i = prev) then Some (set_gnext (Some n) pn) else getZ (node t) i)
    by (intros i; by apply (getZ_setZ_in _ _ _ _ _ Hp)).
  assert (Hx1 : getZ ns1 mp = Some x) by (by rewrite L1, decide_False by (by apply not_eq_sym)).
  assert (Hy1 : getZ ns1 n = Some y) by (by rewrite L1, decide_False by (by apply not_eq_sym)).
  rewrite Hx1. cbn [mbind outcome_bind deref].
  rewrite (upd_node_eq _ _ _ y) by exact Hy1. cbn [mbind outcome_bind node with_node].
  set (ns2 := setZ ns1 n x).
  assert (L2 : forall i, getZ ns2 i = if decide (i = n) then Some x else getZ ns1 i)
    by (intros i; by apply (getZ_setZ_in _ _ _ _ _ Hy1)).
  assert (Hx2 : getZ ns2 mp = Some x) by (by rewrite L2, decide_False by (by apply not_eq_sym)).
  rewrite (upd_node_eq _ _ _ x) by exact Hx2. cbn [mbind outcome_bind node with_node].
  set (ns3 := setZ ns2 mp (set_gnext None x)).
  assert (Hx3 : getZ ns3 mp = Some (set_gnext None x)) by (by apply getZ_setZ_eq, (getZ_Some _ _ _ Hx2)).
  rewrite (upd_node_eq _ _ _ (set_gnext None x)) by exact Hx3. cbn [mbind outcome_bind node with_node].
  eexists. split; [reflexivity|]. split; [unfold ns3, ns2, ns1; by rewrite !lenZ_setZ|]. split.
  - intros i. rewrite (getZ_setZ_in _ _ _ _ _ Hx3). unfold ns3.
    destruct (decide (i = mp)) as [->|Hi].
    + by rewrite decide_False by (by apply not_eq_sym).
    + rewrite (getZ_setZ_in _ _ _ _ _ Hx2), decide_False by done. rewrite L2, L1. done.
  - rewrite (nfree_same ns3 _ _ _ Hx3) by done. unfold ns3. rewrite (nfree_same ns2 _ _ _ Hx2) by done.
    unfold ns2. rewrite (nfree_setZ _ _ _ x Hy1). unfold ns1. by rewrite (nfree_same _ _ _ _ Hp).
Qed.

Lemma mainposition_live t cs i k n :
  tinv t cs -> entry t cs i k n -> mainposition_key t (gkey n) = Ret (mpos t k).
Proof.
  intros Hi (Hn & Hk & Hnn & _). rewrite Hk. cbn [mainposition_key].
  destruct (live_good _ _ _ _ _ Hi Hn Hk Hnn) as (_ & Hk' & _).
  by apply mainposition_mpos; [apply Hi|].
Qed.

(** A node before [mp] in its chain is followed until the node before [mp]. *)
Lemma previous_spec t cs o mp :
  chains (node t) cs -> reach cs o mp -> o <> mp ->
  exists l1 prev l2 pn, (l1 ++ [prev]) ++ mp :: l2 ∈ cs /\
    find_previous (length (node t)) t o mp = Ret prev /\ getZ (node t) prev = Some pn.
Proof.
  intros Hc (a & b & Hin & Hmp) Hne. apply elem_of_cons in Hmp as [->|Hmp]; [done|].
  apply list_elem_of_split in Hmp as (b1 & l2 & ->).
  assert (Hex : exists l1 prev, o :: b1 = l1 ++ [prev]).
  { destruct (exists_last (l := o :: b1)) as (l1 & prev & E); [done|eauto]. }
  destruct Hex as (l1 & prev & E).
  assert (Ec : a ++ o :: b1 ++ mp :: l2 = ((a ++ l1) ++ [prev]) ++ mp :: l2).
  { rewrite <- (app_assoc a l1), <- E. rewrite <- !app_assoc. done. }
  pose proof (chains_linked _ _ _ Hc Hin) as Hl. rewrite linked_seg in Hl.
  pose proof (concat_NoDup_in _ _ (chains_NoDup _ _ Hc) Hin) as Hnd.
  pose proof (chains_length _ _ _ Hc Hin) as Hlen. rewrite !length_app in Hlen. cbn in Hlen.
  change (o :: b1 ++ mp :: l2) with ((o :: b1) ++ mp :: l2) in *.
  apply seg_app in Hl as [_ Hl]. apply seg_app in Hl as [Hl _].
  assert (Hnm : mp ∉ b1).
  { intros Hb. apply list.NoDup_app in Hnd as (_ & _ & Hnd). apply list.NoDup_app in Hnd as (_ & Hnd & _).
    apply (Hnd mp); apply elem_of_cons; [by right|by left]. }
  assert (Hp : prev ∈ o :: b1) by (rewrite E; apply elem_of_app; right; by apply list_elem_of_singleton).
  destruct (getZ_is_Some (node t) prev) as [pn Hpn].
  { eapply chains_range; [exact Hc|exact Hin|]. apply elem_of_app. right. apply elem_of_app. by left. }
  exists (a ++ l1), prev, l2, pn. split; [by rewrite <- Ec|]. split; [|done].
  eapply find_previous_spec; [exact Hl|by exists l1|done|]. rewrite length_app in Hlen. cbn in Hlen. lia.
Qed.

Section collision.
Context (t : Table) (cs : list (list Z)) (k : TValue) (x y : Node) (n : Z).
Context (Hi : tinv t cs) (Hd : dummy t = false) (Hk : good_key k) (Hf : found t cs k None).
Context (Hx : getZ (node t) (mpos t k) = Some x) (Hv : gval x <> VNil).
Context (Hy : getZ (node t) n = Some y) (Hu : unused y).
Context (Hlast : forall i m, n < i -> getZ (node t) i = Some m -> ~ unused m).

(** The nodes after the insertion *)
Definition collided (kx : TValue) : Prop :=
  exists t' cs' i, ('(t1, mp) ← make_room (with_lastfree n t) (mpos t k) n;
      t1 ← upd_node mp (set_gkey k) t1; Ret (t1, SNode mp)) = Ret (t', SNode i) /\ made t k t' cs' i.

Lemma collision_behind kx :
  entry t cs (mpos t k) kx x -> mpos t kx = mpos t k -> collided kx.
Proof using Hi Hd Hk Hf Hx Hv Hy Hu Hlast.
  intros He E. unfold collided.
  pose proof (n_ne_mp t cs k x y n Hi Hx Hv Hy Hu) as Hne.
  destruct (split_chains t cs k x y n Hi Hx Hv Hy Hu) as (l1 & l2 & rest & Hp).
  destruct (n_alone t cs y n Hi Hy Hu) as (_ & Hvy & _).
  rewrite (make_room_behind (with_lastfree n t) _ _ x y Hx Hy Hne).
  2:{ rewrite <- E. rewrite (mainposition_key_lsizenode t) by reflexivity.
      by apply (mainposition_live t cs (mpos t k) kx x). }
  cbn [mbind outcome_bind node with_node with_lastfree].
  set (ns := setZ (setZ (node t) n (set_gnext (gnext x) y)) (mpos t k) (set_gnext (Some n) x)).
  assert (L1 : forall i, getZ ns i = if decide (i = mpos t k) then Some (set_gnext (Some n) x)
    else if decide (i = n) then Some (set_gnext (gnext x) y) else getZ (node t) i).
  { intros i. unfold ns. assert (Hx1 : getZ (setZ (node t) n (set_gnext (gnext x) y)) (mpos t k) = Some x)
      by (by rewrite (getZ_setZ_in _ _ _ _ _ Hy), decide_False by (by apply not_eq_sym)).
    rewrite (getZ_setZ_in _ _ _ _ _ Hx1), (getZ_setZ_in _ _ _ _ _ Hy). done. }
  assert (Hy1 : getZ ns n = Some (set_gnext (gnext x) y)) by (by rewrite L1, decide_False, decide_True).
  rewrite (upd_node_eq _ _ _ (set_gnext (gnext x) y)) by exact Hy1. cbn [mbind outcome_bind node with_node].
  eexists _, _, n. split; [reflexivity|].
  assert (Eo : orig (gkey x) = kx) by (destruct He as (_ & -> & _); done).
  eapply (behind_made t cs k x y n Hi Hd Hk Hf Hx Hv Hy Hu Hlast); try reflexivity; try exact Hp.
  - cbn [node with_node]. rewrite !lenZ_setZ. unfold ns. by rewrite !lenZ_setZ.
  - by rewrite Eo.
  - intros i. cbn [node with_node]. rewrite (getZ_setZ_in _ _ _ _ _ Hy1), L1.
    destruct (decide (i = n)) as [->|]; [|done]. unfold set_gkey. cbn. by rewrite Hvy.
  - cbn [node with_node]. pose proof (nfree_setZ _ _ _ (set_gkey k (set_gnext (gnext x) y)) Hy1) as E1.
    assert (E2 : nfree ns = nfree (node t)).
    { unfold ns. rewrite (nfree_same _ _ x); [by rewrite (nfree_same _ _ _ _ Hy)| |done].
      by rewrite (getZ_setZ_in _ _ _ _ _ Hy), decide_False by (by apply not_eq_sym). }
    rewrite E2 in E1. clear -E1. repeat case_decide; lia.
Qed.

Lemma collision_moved kx :
  entry t cs (mpos t k) kx x -> mpos t kx <> mpos t k -> collided kx.
Proof using Hi Hd Hk Hf Hx Hv Hy Hu Hlast.
  intros He E. unfold collided.
  pose proof (n_ne_mp t cs k x y n Hi Hx Hv Hy Hu) as Hne.
  destruct (previous_spec t cs (mpos t kx) (mpos t k) (ti_chains _ _ Hi)) as (l1 & prev & l2 & pn & Hin & Hfp & Hpn);
    [apply He|done|].
  destruct (n_alone t cs y n Hi Hy Hu) as (Hnc & Hvy & _).
  pose proof (chains_NoDup _ _ (ti_chains _ _ Hi)) as Hnd.
  assert (Hnn : n ∉ (l1 ++ [prev]) ++ mpos t k :: l2).
  { intros Hn. assert (Ec : (l1 ++ [prev]) ++ mpos t k :: l2 = [n])
      by (eapply concat_unique; [exact Hnd|done|done|exact Hn|by apply list_elem_of_singleton]).
    assert (Hm : mpos t k ∈ [n]) by (rewrite <- Ec; apply elem_of_app; right; apply elem_of_cons; by left).
    apply list_elem_of_singleton in Hm. by destruct Hne. }
  assert (Hpn1 : prev <> n).
  { intros ->. apply Hnn. apply elem_of_app. left. apply elem_of_app. right. by apply list_elem_of_singleton. }
  assert (Hpm : prev <> mpos t k).
  { intros Ep. pose proof (concat_NoDup_in _ _ Hnd Hin) as Hn2. apply list.NoDup_app in Hn2 as (_ & Hn2 & _).
    apply (Hn2 prev); [apply elem_of_app; right; by apply list_elem_of_singleton|]. apply elem_of_cons. by left. }
  destruct (two_chains cs ((l1 ++ [prev]) ++ mpos t k :: l2) [n]) as (rest & Hp); [done|done| |].
  { intros Ec. apply Hnn. rewrite Ec. by apply list_elem_of_singleton. }
  destruct (make_room_moved (with_lastfree n t) (mpos t k) n x y (mpos t kx) prev pn Hx Hy Hne)
    as (ns & -> & Hlen & L & Hfr); try done.
  { rewrite (mainposition_key_lsizenode t) by reflexivity. by apply (mainposition_live t cs (mpos t k) kx x). }
  { by rewrite find_previous_lastfree. }
  cbn [mbind outcome_bind node with_node with_lastfree] in *.
  assert (Hm1 : getZ ns (mpos t k) = Some (mkNode VNil (gkey x) None))
    by (by rewrite L, decide_False, decide_True by (reflexivity || by apply not_eq_sym)).
  rewrite (upd_node_eq _ _ _ _) by exact Hm1. cbn [mbind outcome_bind node with_node].
  eexists _, _, (mpos t k). split; [reflexivity|].
  assert (Eo : orig (gkey x) = kx) by (destruct He as (_ & -> & _); done).
  eapply (moved_made t cs k x y n Hi Hd Hk Hf Hx Hv Hy Hu Hlast);
    try reflexivity; try exact Hp; try exact Hpn; try done.
  - cbn [node with_node]. by rewrite lenZ_setZ.
  - by rewrite Eo.
  - intros i. cbn [node with_node]. rewrite (getZ_setZ_in _ _ _ _ _ Hm1), L.
    destruct (decide (i = mpos t k)) as [->|]; [|done].
    by rewrite decide_False by (by apply not_eq_sym).
  - cbn [node with_node]. pose proof (nfree_setZ _ _ _ (set_gkey k (mkNode VNil (gkey x) None)) Hm1) as E1.
    pose proof (x_used t cs k x Hi Hx Hv) as Hxu. rewrite (decide_False (P := unused x)) in Hfr by exact Hxu.
    rewrite (decide_False (P := unused (mkNode VNil (gkey x) None))) in E1 by exact Hxu.
    clear -E1 Hfr. repeat case_decide; lia.
Qed.
End collision.

(** A new key in a table with a free node *)
Lemma newkey_room nk t cs k :
  tinv t cs -> good_key k -> found t cs k None -> (1 <= room t)%nat ->
  exists t' cs' i, newkey_rule nk t k = Ret (t', SNode i) /\ made t k t' cs' i.
Proof.
  intros Hi Hk Hf Hr. assert (Hd : dummy t = false) by (unfold room in Hr; destruct (dummy t); [lia|done]).
  destruct (mainposition_mpos t k (ti_size _ _ Hi)) as [Hm Hmr]; [apply Hk|].
  destruct (getZ_is_Some _ _ Hmr) as [x Hx].
  destruct (decide (gval x = VNil)) as [Hv|Hv].
  { destruct (newkey_taken nk t cs k x Hi Hk Hf Hd Hx Hv) as [-> Hmd]. eauto. }
  destruct (getfreepos_spec t cs Hi) as [(n & y & Hg & _ & Hy & Hu & Hlast)|[Hr0 _]]; [|lia].
  destruct (active_entry _ _ _ _ Hi Hx Hv) as (kx & He).
  assert (Hc : collided t k n kx).
  { destruct (decide (mpos t kx = mpos t k)) as [E|E].
    - by eapply (collision_behind t cs k x y n).
    - by eapply (collision_moved t cs k x y n). }
  destruct Hc as (t' & cs' & i & Heq & Hmd). exists t', cs', i. split; [|done].
  unfold newkey_rule. rewrite Hm. cbn [mbind outcome_bind]. unfold gnode at 1. rewrite Hx.
  cbn [mbind outcome_bind deref]. apply ttisnil_false in Hv. rewrite Hv. cbn [negb orb].
  rewrite Hg. cbn [mbind outcome_bind]. exact Heq.
Qed.
End key.
