(* ===== verification/TableResize.v ===== *)
(** * Resizing

    A resized table has the same entries; there is room for the keys that do
    not live in the array part.  [rehash] counts the keys and chooses the
    largest array part that is more than half full. *)

From S2P Require Import Prelude Clib Object Lex Lstring Dump Table TableNum TableSet.

#[local] Opaque mpos arrayindex.

Lemma ceillog2_spec x : 1 <= x < 2 ^ 32 -> ceillog2 x = Ret (Z.log2_up x).
Proof.
  intros Hx. unfold ceillog2. rewrite u32_small by (unfold is_u32; lia).
  rewrite luaO_log2_spec by (unfold is_u32; lia). cbn. f_equal.
  unfold Z.log2_up. destruct (Z.eqb_spec (x - 1) 0), (Z.compare_spec 1 x); try lia.
  rewrite Z.sub_1_r. lia.
Qed.

(** ** Tables without nodes in use *)

Section resize.
Context `{Host}.

Lemma fresh_tinv t :
  sized t -> (forall n, n ∈ node t -> n = dummynode) ->
  (dummy t = false -> lastfree t = lenZ (node t)) ->
  (dummy t = true -> node t = [dummynode] /\ lastfree t <= 0) -> sizearray t <= MAXASIZE ->
  tinv t ((fun x => [x]) <$> idx (node t)).
Proof.
  intros Hs Hd Hf Hdm Ha. assert (Hn : forall i n, getZ (node t) i = Some n -> n = dummynode).
  { intros i n Hi. apply Hd. by eapply getZ_elem. }
  split; try done.
  - split.
    + apply list.Forall_forall. intros c (x & -> & Hx)%list_elem_of_fmap.
      apply elem_of_idx in Hx. destruct (getZ_is_Some _ _ Hx) as [n Hgn]. cbn. split; [|done].
      exists n. split; [done|]. by rewrite (Hn _ _ Hgn).
    + clear. induction (idx (node t)) as [|x l IH]; cbn; [done|]. by rewrite IH.
  - intros i n Hi _. rewrite (Hn _ _ Hi). split; [|done].
    apply list_elem_of_fmap. exists i. split; [done|]. apply elem_of_idx. by eapply getZ_Some.
  - intros i n Hi Hu. by rewrite (Hn _ _ Hi) in Hu.
  - intros i n v Hi Hk. by rewrite (Hn _ _ Hi) in Hk.
  - intros i n Hi Hu. by rewrite (Hn _ _ Hi) in Hu.
  - intros i n Hi Hv. by rewrite (Hn _ _ Hi) in Hv.
  - intros i j k k' n n' (Hi & Hk & Hnn & _). rewrite (Hn _ _ Hi) in Hk. cbn in Hk. congruence.
  - intros i j k n m _ Hm Hk. by rewrite (Hn _ _ Hm) in Hk.
  - intros E. split; [rewrite (Hf E); lia|]. intros i n Hi Hg%getZ_Some. rewrite (Hf E) in Hi. lia.
Qed.

Lemma nfree_dummies n : nfree (replicate n dummynode) = n.
Proof. induction n as [|n IH]; cbn [replicate]; [done|]. rewrite nfree_cons, IH. by rewrite decide_True. Qed.

Lemma elems_node_dummies n : elems_node (replicate n dummynode) = [].
Proof. by induction n. Qed.

(** A new hash part of the given size *)
Record fresh (t : Table) (size : Z) (t' : Table) : Prop := {
fr_inv : forall a, lenZ a <= MAXASIZE -> exists cs, tinv (with_array a t') cs;
fr_array : array t' = array t;
fr_nodes : elems_node (node t') = [];
fr_room : size <= Z.of_nat (room t')
}.

Lemma setnodevector_spec t size :
  sizearray t <= MAXASIZE -> 0 <= size < 2 ^ 32 ->
  (MAXASIZE < size /\ setnodevector t size = Throw LUA_ERRRUN (str "table overflow")) \/
  (size <= MAXASIZE /\ exists t', setnodevector t size = Ret t' /\ fresh t size t').
Proof.
  intros Ha Hs. change MAXASIZE with (2 ^ 26) in *. unfold setnodevector. destruct (Z.eqb_spec size 0) as [->|Hne].
  - right. split; [lia|]. eexists. split; [reflexivity|]. split; try done.
    intros a Hla. eexists. apply fresh_tinv; try done.
    intros n ->%list_elem_of_singleton. done.
  - rewrite ceillog2_spec by lia. cbn [mbind outcome_bind]. change MAXBITS with 26.
    pose proof (Z.log2_up_le_pow2 size 26) as Hl.
    destruct (Z.ltb_spec 26 (Z.log2_up size)) as [Hb|Hb]; [left; split; [lia|done]|right].
    split; [lia|]. eexists. split; [reflexivity|].
    pose proof (Z.log2_up_nonneg size) as H0. unfold twoto. rewrite Z.shiftl_mul_pow2, Z.mul_1_l by done.
    assert (Hp : 0 < 2 ^ Z.log2_up size) by lia.
    split; try done; cbn [array node].
    + intros a Hla. eexists. apply fresh_tinv; cbn [node dummy lastfree with_array]; try done.
      * split; cbn [node lsizenode with_array]; [change MAXBITS with 26; lia|].
        unfold lenZ. rewrite length_replicate. lia.
      * by intros n [-> _]%elem_of_replicate.
      * intros _. unfold lenZ. rewrite length_replicate. lia.
    + apply elems_node_dummies.
    + unfold room. cbn [dummy node]. rewrite nfree_dummies, Z2Nat.id by lia.
      by apply Z.log2_up_le_pow2; lia.
Qed.

(** ** Inserting an entry *)

Lemma skel_room t t' : skel t t' -> room t' = room t.
Proof.
  intros Hs. unfold room. rewrite (sk_dummy _ _ Hs). destruct (dummy t); [done|].
  assert (E : gkey <$> node t' = gkey <$> node t).
  { apply list_eq. intros i. rewrite !list_lookup_fmap, <- !getZ_lookup.
    destruct (getZ (node t) (Z.of_nat i)) as [n|] eqn:Hn.
    - destruct (sk_node _ _ Hs _ _ Hn) as (n' & -> & Hk & _). cbn. by rewrite Hk.
    - destruct (getZ (node t') (Z.of_nat i)) as [n'|] eqn:Hn'; [|done].
      destruct (skel_back _ _ _ _ Hs Hn') as (n & Hn2 & _). congruence. }
  assert (Hf : forall l, nfree l = length (filter (fun k => key_is k ttisnil = true) (gkey <$> l))).
  { induction l as [|n l IH]; [done|]. rewrite nfree_cons, fmap_cons, list.filter_cons, IH.
    pose proof (key_is_unused n). by repeat case_decide; try tauto. }
  by rewrite !Hf, E.
Qed.

Lemma skel_flags x t : skel t (with_flags x t).
Proof. split; try done. intros i n Hn. by exists n. Qed.

Lemma flags_tinv x t cs : tinv t cs -> tinv (with_flags x t) cs.
Proof.
  intros Hi. eapply skel_tinv; [apply skel_flags|done|]. intros i n Hn Hv. exists n. split; [exact Hn|by left].
Qed.

(** What a slot for [k] in [t'] is, when [t'] has the entries of [t]: one
    free node may have been used, and none when [k] is in the array part. *)
Record slotted (t : Table) (k : TValue) (t' : Table) (r : slot) : Prop := {
sl_cs : exists cs, tinv t' cs /\ found t' cs k (Some r);
sl_assoc : forall k', assoc (elems t') k' = assoc (elems t) k';
sl_array : sizearray t' = sizearray t;
sl_room : (room t <= room t' + (if decide (in_array t k) then 0 else 1))%nat
}.

Lemma slotted_here t cs k r : tinv t cs -> found t cs k (Some r) -> slotted t k t r.
Proof. intros Hi Hf. split; [by exists cs|done|done|lia]. Qed.

Lemma slotted_flags t k t' r x : slotted (with_flags x t) k t' r -> slotted t k t' r.
Proof. by intros []. Qed.

Lemma made_slotted t cs k t' cs' i :
  tinv t cs -> found t cs k None -> made t k t' cs' i -> slotted t k t' (SNode i).
Proof.
  intros Hi Hf []. split.
  - by exists cs'.
  - intros k'. symmetry. eapply assoc_elems; [done|]. intros a b. by rewrite md_elems.
  - unfold sizearray. by rewrite md_array.
  - case_decide as Ha; [|lia]. by inversion Hf.
Qed.

(** A key whose slot exists or can be made *)
Definition fits_in (t : Table) (k : TValue) : Prop := in_array t k \/ (1 <= room t)%nat.

Lemma newkey_slotted nk t cs k :
  tinv t cs -> good_key k -> found t cs k None -> fits_in t k ->
  exists t' r, newkey_rule nk t k = Ret (t', r) /\ slotted t k t' r.
Proof.
  intros Hi Hk Hf [Ha|Hr]; [by inversion Hf|].
  destruct (newkey_room nk t cs k Hi Hk Hf Hr) as (t' & cs' & i & -> & Hm).
  exists t', (SNode i). split; [done|]. by eapply made_slotted.
Qed.

Lemma set_slotted nk t cs k :
  tinv t cs -> good_key k -> fits_in t k ->
  exists t' r, set_with (newkey_rule nk) t k = Ret (t', r) /\ slotted t k t' r.
Proof.
  intros Hi Hk Hr. destruct (luaH_get_found t cs k Hi) as (p & Hp & Hf); [apply Hk|].
  unfold set_with. rewrite Hp. cbn [mbind outcome_bind].
  assert (Hi' := flags_tinv 0 _ _ Hi). assert (Hf' := skel_found _ _ _ _ _ (skel_flags 0 t) Hf).
  destruct p as [r|].
  - exists (with_flags 0 t), r. split; [done|]. eapply slotted_flags. by eapply slotted_here.
  - destruct Hk as (Hnil & Hns & Hnan). rewrite (proj2 (ttisnil_false k)) by done.
    destruct (newkey_slotted nk _ _ k Hi' (conj Hnil (conj Hns Hnan)) Hf' Hr) as (t' & r & He & Hsl).
    exists t', r. split; [|by eapply slotted_flags].
    destruct k; cbn [nan_key] in *; try rewrite Hnan; exact He.
Qed.

Lemma cast_num_good z : is_i32 z -> good_key (VNumber (cast_num z)).
Proof.
  intros Hz. split_and!; [done..|]. cbn [nan_key]. rewrite isnan_spec.
  apply bool_decide_eq_false_2. by apply cast_num_not_nan, small_i32.
Qed.

Lemma setnum_slotted nk t cs z :
  tinv t cs -> is_i32 z -> fits_in t (VNumber (cast_num z)) ->
  exists t' r, setnum_with (newkey_rule nk) t z = Ret (t', r) /\ slotted t (VNumber (cast_num z)) t' r.
Proof.
  intros Hi Hz Hr. destruct (luaH_getnum_found t cs z Hi Hz) as (p & Hp & Hf).
  unfold setnum_with. rewrite Hp. cbn [mbind outcome_bind]. destruct p as [r|].
  - exists t, r. split; [done|]. by eapply slotted_here.
  - eapply newkey_slotted; [done|by apply cast_num_good|done|done].
Qed.

(** The table after storing a value through the slot *)
Record put (t : Table) (k v : TValue) (t' : Table) : Prop := {
pt_inv : exists cs, tinv t' cs;
pt_upd : updated t k v t';
pt_array : sizearray t' = sizearray t;
pt_room : (room t <= room t' + (if decide (in_array t k) then 0 else 1))%nat
}.

Lemma slotted_put t k t1 r v :
  slotted t k t1 r -> exists t', store t1 r v = Ret t' /\ put t k v t'.
Proof.
  intros [(cs & Hi & Hf) Ha Hs Hr]. destruct (store_spec t1 cs k r v Hi Hf) as (t' & He & Hi' & Hsk & Hu & _).
  exists t'. split; [done|]. split.
  - by exists cs.
  - intros k'. rewrite Hu. by rewrite Ha.
  - unfold sizearray in *. by rewrite (sk_array _ _ Hsk).
  - by rewrite (skel_room _ _ Hsk).
Qed.

(** ** Counting entries by their array index *)

Fixpoint cnt (p : Z -> bool) (es : list (TValue * TValue)) : Z :=
  match es with
  | [] => 0
  | e :: es => (if p (arrayindex e.1) then 1 else 0) + cnt p es
  end.

Definition upto (n k : Z) : bool := (1 <=? k) && (k <=? n).
Definition outside (n k : Z) : bool := negb (upto n k).

Lemma cnt_app p es1 es2 : cnt p (es1 ++ es2) = cnt p es1 + cnt p es2.
Proof. induction es1 as [|e es1 IH]; cbn [app cnt]; [lia|]. rewrite IH. lia. Qed.

Lemma cnt_rev p es : cnt p (rev es) = cnt p es.
Proof. induction es as [|e es IH]; cbn [rev cnt]; [done|]. rewrite cnt_app, IH. cbn [cnt]. lia. Qed.

Lemma cnt_range p es : 0 <= cnt p es <= lenZ es.
Proof.
  induction es as [|e es IH]; cbn [cnt]; [done|]. rewrite lenZ_cons. destruct (p _); lia.
Qed.

Lemma cnt_ext p q es :
  (forall k v, (k, v) ∈ es -> p (arrayindex k) = q (arrayindex k)) -> cnt p es = cnt q es.
Proof.
  induction es as [|[k v] es IH]; cbn [cnt]; intros He; [done|]. cbn [fst].
  rewrite (He k v) by (apply elem_of_cons; by left).
  rewrite IH; [done|]. intros k' v' Hin. apply (He k' v'), elem_of_cons. by right.
Qed.

Lemma cnt_none p es : (forall k v, (k, v) ∈ es -> p (arrayindex k) = false) -> cnt p es = 0.
Proof.
  intros He. rewrite (cnt_ext p (fun _ => false)) by done. clear He.
  induction es as [|e es IH]; cbn [cnt]; [done|]. by rewrite IH.
Qed.

Lemma cnt_all p es : (forall k v, (k, v) ∈ es -> p (arrayindex k) = true) -> cnt p es = lenZ es.
Proof.
  intros He. rewrite (cnt_ext p (fun _ => true)) by done. clear He.
  induction es as [|e es IH]; cbn [cnt]; [done|]. rewrite IH, lenZ_cons. lia.
Qed.

Lemma cnt_negb p es : cnt (fun k => negb (p k)) es = lenZ es - cnt p es.
Proof.
  induction es as [|e es IH]; cbn [cnt]; [done|]. rewrite IH, lenZ_cons. destruct (p _); cbn [negb]; lia.
Qed.

Lemma upto_spec n k : upto n k = true <-> 1 <= k <= n.
Proof. unfold upto. rewrite andb_true_iff, !Z.leb_le. done. Qed.

Lemma outside_in_array t k : (if outside (sizearray t) (arrayindex k) then 1 else 0) =
  Z.of_nat (if decide (in_array t k) then 0 else 1).
Proof.
  unfold outside, in_array. pose proof (upto_spec (sizearray t) (arrayindex k)) as Hu.
  destruct (upto _ _), (decide _); cbn; try done; exfalso; intuition congruence.
Qed.

(** ** Inserting entries again *)

(** [t'] is [t] with the entries [es], the first one added last. *)
Record refilled (t : Table) (es : list (TValue * TValue)) (t' : Table) : Prop := {
rf_inv : exists cs, tinv t' cs;
rf_assoc : forall k, assoc (elems t') k = assoc (es ++ elems t) k;
rf_array : sizearray t' = sizearray t;
rf_room : Z.of_nat (room t) <= Z.of_nat (room t') + cnt (outside (sizearray t)) es
}.

Lemma refilled_nil t cs : tinv t cs -> refilled t [] t.
Proof. intros Hi. split; [by exists cs|done|done|cbn [cnt]; lia]. Qed.

Lemma refilled_put t k v t' : put t k v t' -> refilled t [(k, v)] t'.
Proof.
  intros []. split; [done| |done|].
  - intros k'. by rewrite pt_upd0.
  - cbn [cnt fst]. rewrite outside_in_array. lia.
Qed.

Lemma assoc_app l1 l2 l2' k :
  assoc l2 k = assoc l2' k -> assoc (l1 ++ l2) k = assoc (l1 ++ l2') k.
Proof. intros E. induction l1 as [|[k' v] l1 IH]; cbn [app assoc]; [done|]. by rewrite IH. Qed.

Lemma refilled_trans t es1 t1 es2 t2 :
  refilled t es1 t1 -> refilled t1 es2 t2 -> refilled t (es2 ++ es1) t2.
Proof.
  intros [_ A1 S1 R1] [I2 A2 S2 R2]. rewrite S1 in R2, S2. split; [done| |done|].
  - intros k. rewrite A2, <- app_assoc. by apply assoc_app.
  - rewrite cnt_app. lia.
Qed.

(** There is room for all keys that need a node. *)
Definition room_for (t : Table) (es : list (TValue * TValue)) : Prop :=
  cnt (outside (sizearray t)) es <= Z.of_nat (room t).

Lemma room_for_one t k v : room_for t [(k, v)] -> fits_in t k.
Proof.
  unfold room_for, fits_in. cbn [cnt fst]. rewrite outside_in_array.
  destruct (decide (in_array t k)); [by left|]. right. lia.
Qed.

Lemma room_for_app t es1 es2 t1 : room_for t (es2 ++ es1) -> refilled t es1 t1 -> room_for t1 es2.
Proof.
  unfold room_for. rewrite cnt_app. intros Hr []. rewrite rf_array0. lia.
Qed.

Lemma room_for_l t es1 es2 : room_for t (es2 ++ es1) -> room_for t es1.
Proof. unfold room_for. rewrite cnt_app. pose proof (cnt_range (outside (sizearray t)) es2). lia. Qed.

Lemma elems_node_cons n l :
  elems_node (n :: l) = match node_entry n with Some e => [e] | None => [] end ++ elems_node l.
Proof. unfold elems_node. cbn [omap list_omap]. by destruct (node_entry n). Qed.

Lemma reinsert_node_spec nk n t cs :
  tinv t cs -> (gval n <> VNil -> exists k, gkey n = LiveKey k /\ good_key k) ->
  room_for t (match node_entry n with Some e => [e] | None => [] end) ->
  exists t', reinsert_node (newkey_rule nk) t n = Ret t' /\
    refilled t (match node_entry n with Some e => [e] | None => [] end) t'.
Proof.
  intros Hi Hk. unfold node_entry, reinsert_node. destruct (ttisnil (gval n)) eqn:Ev; cbn [negb].
  - intros _. exists t. split; [done|]. by eapply refilled_nil.
  - apply ttisnil_false in Ev. destruct (Hk Ev) as (k & -> & Hgk). intros Hr.
    destruct (set_slotted nk t cs k Hi Hgk (room_for_one _ _ _ Hr)) as (t1 & r & -> & Hs).
    cbn [mbind outcome_bind]. destruct (slotted_put _ _ _ _ (gval n) Hs) as (t' & -> & Hp).
    exists t'. split; [done|]. by apply refilled_put.
Qed.

Lemma reinsert_nodes_spec nk l t cs :
  tinv t cs -> (forall n, n ∈ l -> gval n <> VNil -> exists k, gkey n = LiveKey k /\ good_key k) ->
  room_for t (elems_node l) ->
  exists t', reinsert_nodes (newkey_rule nk) t l = Ret t' /\ refilled t (elems_node l) t'.
Proof.
  intros Hi. induction l as [|n l IH]; intros Hk Hr; cbn [reinsert_nodes].
  - exists t. split; [done|]. by eapply refilled_nil.
  - rewrite elems_node_cons in *. destruct IH as (t1 & -> & H1).
    { intros m Hm. apply Hk, elem_of_cons. by right. }
    { by eapply room_for_l. }
    cbn [mbind outcome_bind]. destruct (rf_inv _ _ _ H1) as (cs1 & Hi1).
    destruct (reinsert_node_spec nk n t1 cs1 Hi1) as (t2 & -> & H2).
    { apply Hk, elem_of_cons. by left. }
    { by eapply room_for_app. }
    exists t2. split; [done|]. by eapply refilled_trans.
Qed.

Lemma reinsert_array_spec nk l i t cs :
  tinv t cs -> 0 <= i -> i + lenZ l < 2 ^ 31 -> room_for t (rev (elems_array i l)) ->
  exists t', reinsert_array (newkey_rule nk) t i l = Ret t' /\ refilled t (rev (elems_array i l)) t'.
Proof.
  revert i t cs. induction l as [|v l IH]; intros i t cs Hi H0 Hl Hr; cbn [reinsert_array].
  - exists t. split; [done|]. by eapply refilled_nil.
  - rewrite lenZ_cons in Hl. pose proof (lenZ_nonneg l) as Hn. cbn [elems_array] in *.
    destruct (ttisnil v) eqn:Ev; cbn [negb].
    + cbn [mbind outcome_bind]. apply (IH _ _ _ Hi); [lia|lia|done].
    + cbn [rev] in *. pose proof (room_for_l _ _ _ Hr) as Hr1.
      destruct (setnum_slotted nk t cs (i + 1) Hi) as (t1 & r & -> & Hs);
        [unfold is_i32; lia|by eapply room_for_one|].
      cbn [mbind outcome_bind]. destruct (slotted_put _ _ _ _ v Hs) as (t' & -> & Hp).
      cbn [mbind outcome_bind]. apply refilled_put in Hp.
      destruct (rf_inv _ _ _ Hp) as (cs1 & Hi1).
      destruct (IH (i + 1) t' cs1 Hi1) as (t2 & -> & H2); [lia|lia|by eapply room_for_app|].
      exists t2. split; [done|]. by eapply refilled_trans.
Qed.

(** ** [resize] *)

Lemma elems_array_app i l1 l2 :
  elems_array i (l1 ++ l2) = elems_array i l1 ++ elems_array (i + lenZ l1) l2.
Proof.
  revert i. induction l1 as [|v l1 IH]; intros i; cbn [app elems_array].
  - by rewrite Z.add_0_r.
  - rewrite lenZ_cons, IH. replace (i + 1 + lenZ l1) with (i + (lenZ l1 + 1)) by lia.
    by destruct (ttisnil v).
Qed.

Lemma elems_array_nils i n : elems_array i (replicate n VNil) = [].
Proof. revert i. induction n as [|n IH]; intros i; [done|]. cbn. apply IH. Qed.

Lemma setarrayvector_elems t n :
  elems_array 0 (array (setarrayvector t n)) = elems_array 0 (take (Z.to_nat n) (array t)).
Proof. cbn [array setarrayvector with_array]. by rewrite elems_array_app, elems_array_nils, app_nil_r. Qed.

Lemma setarrayvector_size t n : 0 <= n -> sizearray (setarrayvector t n) = n.
Proof.
  intros Hn. unfold sizearray, lenZ. cbn. rewrite length_app, length_take, length_replicate. lia.
Qed.

Lemma drop_elems_array n (l : list TValue) : 0 <= n <= lenZ l ->
  elems_array 0 l = elems_array 0 (take (Z.to_nat n) l) ++ elems_array n (drop (Z.to_nat n) l).
Proof.
  intros Hn. rewrite <- (take_drop (Z.to_nat n) l) at 1. rewrite elems_array_app. do 2 f_equal.
  unfold lenZ in *. rewrite length_take. lia.
Qed.

Lemma array_inside t cs k v n :
  tinv t cs -> n <= MAXASIZE -> (k, v) ∈ elems_array 0 (take (Z.to_nat n) (array t)) -> upto n (arrayindex k) = true.
Proof.
  intros Hi Hn (j & -> & Hj & _)%elem_of_elems_array. apply getZ_Some in Hj.
  unfold lenZ in Hj. rewrite length_take in Hj. change MAXASIZE with (2 ^ 26) in Hn.
  apply upto_spec. rewrite arrayindex_num; unfold is_i32; lia.
Qed.

Lemma shrink_spec nk t cs t2 nasize nhsize :
  tinv t cs -> fresh t nhsize t2 -> 0 <= nasize <= MAXASIZE ->
  cnt (outside nasize) (elems t) <= nhsize -> nasize < sizearray t ->
  exists t3, reinsert_array (newkey_rule nk) (setarrayvector t2 nasize) nasize
      (drop (Z.to_nat nasize) (array t)) = Ret t3 /\ (exists cs, tinv t3 cs) /\ sizearray t3 = nasize /\
    nhsize <= Z.of_nat (room t3) + cnt (outside nasize) (elems_array 0 (array t)) /\
    forall k, assoc (elems t3) k = assoc (rev (elems_array nasize (drop (Z.to_nat nasize) (array t)))
      ++ elems_array 0 (take (Z.to_nat nasize) (array t))) k.
Proof.
  intros Hi Hf Hn Hc Hl. pose proof (ti_array _ _ Hi) as Hma. change MAXASIZE with (2 ^ 26) in *.
  set (t3 := setarrayvector t2 nasize).
  destruct (fr_inv _ _ _ Hf (array t3)) as (cs3 & Hi3).
  { change (sizearray t3 <= 2 ^ 26). unfold t3. rewrite setarrayvector_size; lia. }
  change (with_array (array t3) t2) with t3 in Hi3.
  assert (Hs3 : sizearray t3 = nasize) by (apply setarrayvector_size; lia).
  assert (Hr3 : nhsize <= Z.of_nat (room t3)) by apply (fr_room _ _ _ Hf).
  assert (Ea : elems_array 0 (array t) = elems_array 0 (take (Z.to_nat nasize) (array t)) ++
            elems_array nasize (drop (Z.to_nat nasize) (array t)))
    by (apply drop_elems_array; unfold sizearray in Hl; lia).
  set (sl := elems_array nasize (drop (Z.to_nat nasize) (array t))) in *.
  assert (Ec : cnt (outside nasize) (elems_array 0 (array t)) = cnt (outside nasize) sl).
  { rewrite Ea, cnt_app, (cnt_none _ (elems_array 0 (take _ _))); [lia|]. intros k v Hin.
    unfold outside. erewrite array_inside; [done|exact Hi| |exact Hin]. change MAXASIZE with (2 ^ 26). lia. }
  assert (Hrf : room_for t3 (rev sl)).
  { unfold room_for. rewrite Hs3, cnt_rev. unfold elems in Hc. rewrite cnt_app in Hc.
    pose proof (cnt_range (outside nasize) (elems_node (node t))). lia. }
  destruct (reinsert_array_spec nk (drop (Z.to_nat nasize) (array t)) nasize t3 cs3 Hi3) as (t4 & -> & [H1 H2 H3 H4]);
    [lia| |exact Hrf|].
  { unfold sizearray, lenZ in *. rewrite length_drop. lia. }
  exists t4. split; [done|]. split; [done|]. split; [congruence|]. split.
  - rewrite Ec. rewrite Hs3, cnt_rev in H4. fold sl in H4. lia.
  - intros k. rewrite H2. apply assoc_app. unfold elems, t3. rewrite setarrayvector_elems.
    rewrite (fr_array _ _ _ Hf). cbn [node setarrayvector with_array]. by rewrite (fr_nodes _ _ _ Hf), app_nil_r.
Qed.

(** The table after a change of its sizes: its hash part has [free] nodes
    for further keys. *)
Record resized (t : Table) (nasize free : Z) (t' : Table) : Prop := {
rz_inv : exists cs, tinv t' cs;
rz_assoc : forall k, assoc (elems t') k = assoc (elems t) k;
rz_array : sizearray t' = nasize;
rz_room : free <= Z.of_nat (room t')
}.

Lemma old_nodes t cs n : tinv t cs -> n ∈ node t -> gval n <> VNil -> exists k, gkey n = LiveKey k /\ good_key k.
Proof.
  intros Hi [i Hn]%elem_of_getZ Hv. destruct (active_entry _ _ _ _ Hi Hn Hv) as (k & _ & Hk & Hnn & _).
  exists k. split; [done|]. by eapply live_good.
Qed.

Lemma resize_spec nk t cs nasize nhsize :
  tinv t cs -> 0 <= nasize <= MAXASIZE -> cnt (outside nasize) (elems t) <= nhsize < 2 ^ 32 ->
  (MAXASIZE < nhsize /\ resize (newkey_rule nk) t nasize nhsize = Throw LUA_ERRRUN (str "table overflow")) \/
  (nhsize <= MAXASIZE /\ exists t', resize (newkey_rule nk) t nasize nhsize = Ret t' /\
     resized t nasize (nhsize - cnt (outside nasize) (elems t)) t').
Proof.
  intros Hi Hn Hc. pose proof (ti_array _ _ Hi) as Ha. pose proof (cnt_range (outside nasize) (elems t)) as Hc0.
  unfold resize. set (t1 := if sizearray t <? nasize then setarrayvector t nasize else t).
  assert (H1 : sizearray t1 = Z.max nasize (sizearray t)).
  { unfold t1. destruct (Z.ltb_spec (sizearray t) nasize); [rewrite setarrayvector_size|]; lia. }
  destruct (setnodevector_spec t1 nhsize) as [[Hb ->]|(Hb & t2 & -> & Hf)]; [lia|lia|by left|right].
  split; [done|]. cbn [mbind outcome_bind].
  pose proof (cnt_app (outside nasize) (elems_array 0 (array t)) (elems_node (node t))) as Hca.
  change (_ ++ _) with (elems t) in Hca.
  assert (Hex : exists t3 sl, (if nasize <? lenZ (array t)
      then reinsert_array (newkey_rule nk) (setarrayvector t2 nasize) nasize (drop (Z.to_nat nasize) (array t))
      else Ret t2) = Ret t3 /\ (exists cs, tinv t3 cs) /\ sizearray t3 = nasize /\
      nhsize <= Z.of_nat (room t3) + cnt (outside nasize) (elems_array 0 (array t)) /\
      (forall e, e ∈ sl <-> e ∈ elems_array 0 (array t)) /\
      forall k, assoc (elems t3) k = assoc sl k).
  { destruct (Z.ltb_spec nasize (lenZ (array t))) as [Hl|Hl].
    - assert (Ht1 : t1 = t) by (unfold t1, sizearray in *; by rewrite (proj2 (Z.ltb_ge _ _)) by lia).
      rewrite Ht1 in *. destruct (shrink_spec nk t cs t2 nasize nhsize Hi Hf) as (t3 & E & Hi3 & Hs3 & Hr3 & Ha3);
        [lia|lia|exact Hl|]. exists t3, (rev (elems_array nasize (drop (Z.to_nat nasize) (array t)))
        ++ elems_array 0 (take (Z.to_nat nasize) (array t))). split_and!; [exact E|done|done|done| |exact Ha3].
      intros e. rewrite (drop_elems_array nasize (array t)) by (unfold sizearray in *; lia).
      rewrite !elem_of_app, (list_elem_of_In (rev _)), <- in_rev, <- list_elem_of_In. tauto.
    - exists t2, (elems_array 0 (array t)). destruct (fr_inv _ _ _ Hf (array t2)) as (cs2 & Hi2).
      { rewrite (fr_array _ _ _ Hf). unfold sizearray in *. lia. }
      split_and!; [done|exists cs2; by destruct t2| | |done|].
      + unfold sizearray in *. rewrite (fr_array _ _ _ Hf). lia.
      + pose proof (fr_room _ _ _ Hf). pose proof (cnt_range (outside nasize) (elems_array 0 (array t))). lia.
      + intros k. unfold elems. rewrite (fr_nodes _ _ _ Hf), app_nil_r, (fr_array _ _ _ Hf).
        unfold t1. destruct (_ <? _) eqn:E; [|done]. rewrite setarrayvector_elems, take_ge; [done|].
        unfold lenZ in Hl. lia. }
  destruct Hex as (t3 & sl & -> & (cs3 & Hi3) & Hs3 & Hr3 & Hsl & Ha3). cbn [mbind outcome_bind].
  destruct (reinsert_nodes_spec nk (node t) t3 cs3 Hi3) as (t4 & -> & [I4 A4 S4 R4]).
  - intros n. by eapply old_nodes.
  - unfold room_for. rewrite Hs3. lia.
  - exists t4. split; [done|]. split; [done| |congruence|].
    + intros k. rewrite A4, (assoc_app _ _ _ _ (Ha3 k)). eapply assoc_elems; [done|].
      intros a b. unfold elems. rewrite !elem_of_app, Hsl. tauto.
    + rewrite Hs3 in R4. lia.
Qed.
End resize.

(** * Rehashing

    The counts of array indices in the slices (2^(j-1), 2^j], the choice of
    the size of the array part, and the sizes [rehash] asks for. *)


#[local] Opaque mpos arrayindex.

Section rehash.
Context `{Host}.

(** ** Slices *)

Definition slice (j k : Z) : bool := upto MAXASIZE k && (Z.log2_up k =? j).

Lemma slice_iff j k : slice j k = true <-> 1 <= k <= MAXASIZE /\ Z.log2_up k = j.
Proof. unfold slice. rewrite andb_true_iff, upto_spec, Z.eqb_eq. done. Qed.

(** [nums] counts the keys of [es]. *)
Record nums_ok (nums : list Z) (es : list (TValue * TValue)) : Prop := {
nu_len : lenZ nums = MAXBITS + 1;
nu_get : forall j, 0 <= j <= MAXBITS -> getZ nums j = Some (cnt (slice j) es)
}.

Lemma nums_ok_nil : nums_ok (replicate (S (Z.to_nat MAXBITS)) 0) [].
Proof.
  split; [done|]. intros j Hj. change (S (Z.to_nat MAXBITS)) with 27%nat. change MAXBITS with 26 in Hj.
  unfold getZ. rewrite (proj2 (Z.leb_le 0 j)) by lia. by rewrite lookup_replicate_2 by lia.
Qed.

Lemma add_num_eq nums i d x :
  getZ nums i = Some x -> add_num nums i d = Ret (setZ nums i (x + d)).
Proof. intros Hi. unfold add_num. by rewrite Hi. Qed.

Lemma nums_ok_add nums es j d es' :
  nums_ok nums es -> 0 <= j <= MAXBITS ->
  (forall i, 0 <= i <= MAXBITS -> cnt (slice i) es' = cnt (slice i) es + (if i =? j then d else 0)) ->
  exists nums', add_num nums j d = Ret nums' /\ nums_ok nums' es'.
Proof.
  intros [Hl Hg] Hj He. rewrite (add_num_eq _ _ _ _ (Hg j Hj)). eexists. split; [done|]. split.
  - by rewrite lenZ_setZ.
  - intros i Hi. rewrite (getZ_setZ_in _ _ _ _ _ (Hg j Hj)), (He i Hi).
    destruct (Z.eqb_spec i j) as [->|]; [by rewrite decide_True|]. rewrite decide_False by done.
    rewrite Hg by done. by rewrite Z.add_0_r.
Qed.

Definition isint (k : TValue) : bool := upto MAXASIZE (arrayindex k).

Lemma countint_spec k v nums es :
  nums_ok nums es ->
  exists nums', countint k nums = Ret (if isint k then 1 else 0, nums') /\ nums_ok nums' ((k, v) :: es).
Proof.
  intros Hn. unfold countint, isint. pose proof (upto_spec MAXASIZE (arrayindex k)) as Hu.
  assert (E : (0 <? arrayindex k) && (arrayindex k <=? MAXASIZE) = upto MAXASIZE (arrayindex k)).
  { unfold upto. f_equal. lia. }
  rewrite E. destruct (upto _ _) eqn:Eu.
  - assert (Hr : 1 <= arrayindex k <= MAXASIZE) by (by apply Hu). change MAXASIZE with (2 ^ 26) in Hr.
    rewrite ceillog2_spec by lia. cbn [mbind outcome_bind].
    assert (Hl : 0 <= Z.log2_up (arrayindex k) <= MAXBITS).
    { split; [apply Z.log2_up_nonneg|]. apply Z.log2_up_le_pow2; [lia|]. apply Hr. }
    destruct (nums_ok_add nums es (Z.log2_up (arrayindex k)) 1 ((k, v) :: es) Hn Hl) as (nums' & -> & Hn').
    + intros i Hi. cbn [cnt fst]. unfold slice at 1. rewrite Eu. cbn [andb].
      rewrite (Z.eqb_sym _ i). destruct (i =? _); lia.
    + exists nums'. done.
  - exists nums. split; [done|]. destruct Hn as [Hl Hg]. split; [done|]. intros j Hj. rewrite (Hg j Hj).
    cbn [cnt fst]. unfold slice at 2. rewrite Eu. done.
Qed.

(** ** The keys of the nodes *)

Lemma count_node_spec n a u nums es :
  nums_ok nums es -> (gval n <> VNil -> exists k, gkey n = LiveKey k) ->
  let ne := match node_entry n with Some e => [e] | None => [] end in
  exists nums', count_node n (a, u, nums) = Ret (a + cnt (upto MAXASIZE) ne, u + lenZ ne, nums') /\
    nums_ok nums' (ne ++ es).
Proof.
  intros Hn Hk. unfold count_node, node_entry. destruct (ttisnil (gval n)) eqn:Ev; cbn [negb].
  - exists nums. cbn. by rewrite !Z.add_0_r.
  - apply ttisnil_false in Ev. destruct (Hk Ev) as (k & ->).
    destruct (countint_spec k (gval n) nums es Hn) as (nums' & -> & Hn'). cbn [mbind outcome_bind].
    exists nums'. split; [|done]. cbn [cnt fst]. by rewrite Z.add_0_r.
Qed.

Lemma count_nodes_spec l a u nums es :
  nums_ok nums es -> (forall n, n ∈ l -> gval n <> VNil -> exists k, gkey n = LiveKey k) ->
  exists nums', count_nodes l (a, u, nums) =
      Ret (a + cnt (upto MAXASIZE) (elems_node l), u + lenZ (elems_node l), nums') /\
    nums_ok nums' (elems_node l ++ es).
Proof.
  intros Hn. induction l as [|n l IH]; intros Hk; cbn [count_nodes].
  - exists nums. cbn. by rewrite !Z.add_0_r.
  - destruct IH as (n1 & -> & H1). { intros m Hm. apply Hk, elem_of_cons. by right. }
    cbn [mbind outcome_bind].
    destruct (count_node_spec n (a + cnt (upto MAXASIZE) (elems_node l)) (u + lenZ (elems_node l)) n1 _ H1)
      as (n2 & -> & H2). { apply Hk, elem_of_cons. by left. }
    exists n2. rewrite elems_node_cons, cnt_app, lenZ_app, <- app_assoc. split; [|done].
    do 2 f_equal. f_equal; lia.
Qed.

(** ** The keys of the array part *)

Lemma elems_array_length i l :
  lenZ (elems_array i l) = lenZ (filter (fun v => ttisnil v = false) l).
Proof.
  revert i. induction l as [|v l IH]; intros i; cbn [elems_array]; [done|].
  rewrite list.filter_cons. case_decide as E; destruct (ttisnil v); try done;
    by rewrite ?lenZ_cons, IH.
Qed.

Lemma elems_array_index i l k v :
  0 <= i -> i + lenZ l < 2 ^ 31 -> (k, v) ∈ elems_array i l -> i < arrayindex k <= i + lenZ l.
Proof.
  intros Hi Hl (j & -> & Hj%getZ_Some & _)%elem_of_elems_array.
  rewrite arrayindex_num by (unfold is_i32; lia). lia.
Qed.

(** The array up to the index [n] *)
Definition below (t : Table) (n : Z) : list (TValue * TValue) := elems_array 0 (take (Z.to_nat n) (array t)).

Lemma below_add t i lim :
  1 <= i -> i <= lim + 1 -> lim <= sizearray t ->
  below t lim = below t (i - 1) ++
    elems_array (i - 1) (take (Z.to_nat (lim - i + 1)) (drop (Z.to_nat (i - 1)) (array t))).
Proof.
  intros Hi Hl Hs. unfold below, sizearray, lenZ in *.
  rewrite <- (take_drop (Z.to_nat (i - 1)) (take (Z.to_nat lim) (array t))).
  rewrite elems_array_app, take_take, Nat.min_l by lia.
  f_equal. rewrite Z.add_0_l, skipn_firstn_comm. f_equal; [|f_equal; lia].
  unfold lenZ. rewrite length_take. lia.
Qed.

Lemma slice_between j k : 0 <= j -> (if j =? 0 then 0 else 2 ^ (j - 1)) < k <= 2 ^ j -> Z.log2_up k = j.
Proof.
  intros Hj Hk. destruct (Z.eqb_spec j 0) as [->|]; [by replace k with 1 by lia|].
  apply Z.log2_up_unique; [lia|]. by rewrite <- Z.sub_1_r.
Qed.

(** The slice [lg] of the array *)
Lemma used_slots_spec t lg i lim nums :
  sizearray t <= MAXASIZE -> 0 <= lg <= MAXBITS -> (if lg =? 0 then 0 else 2 ^ (lg - 1)) < i ->
  i <= lim + 1 -> lim <= sizearray t -> lim <= 2 ^ lg -> nums_ok nums (below t (i - 1)) ->
  exists nums', add_num nums lg (used_slots t i lim) = Ret nums' /\ nums_ok nums' (below t lim) /\
    lenZ (below t lim) = lenZ (below t (i - 1)) + used_slots t i lim.
Proof.
  intros Hs Hlg Hi Hl Hls Hlg2 Hn. change MAXASIZE with (2 ^ 26) in Hs.
  assert (H1 : 1 <= i) by (destruct (lg =? 0); lia).
  rewrite (below_add t i lim) by lia. set (sl := elems_array _ _).
  assert (El : lenZ sl = used_slots t i lim) by (unfold sl, used_slots; by rewrite elems_array_length).
  assert (Hk : forall k v, (k, v) ∈ sl -> i - 1 < arrayindex k <= lim).
  { intros k v Hin. apply elems_array_index in Hin; unfold sizearray, lenZ in *;
      rewrite ?length_take, ?length_drop in *; lia. }
  destruct (nums_ok_add nums _ lg (used_slots t i lim) (below t (i - 1) ++ sl) Hn Hlg) as (nums' & -> & Hn').
  - intros j Hj. rewrite cnt_app, <- El. f_equal. destruct (Z.eqb_spec j lg) as [->|Hne].
    + apply cnt_all. intros k v Hin. apply Hk in Hin. apply slice_iff. change MAXASIZE with (2 ^ 26).
      split; [lia|]. apply slice_between; lia.
    + apply cnt_none. intros k v Hin. apply Hk in Hin. destruct (slice j (arrayindex k)) eqn:E; [|done].
      apply slice_iff in E as [_ E]. destruct Hne. rewrite <- E. apply slice_between; lia.
  - exists nums'. split; [done|]. split; [done|]. rewrite lenZ_app. lia.
Qed.

Definition slice_start (lg : Z) : Z := if lg =? 0 then 0 else 2 ^ (lg - 1).

Lemma slice_start_le lg : 0 <= lg -> 0 <= slice_start lg <= 2 ^ lg /\ slice_start (lg + 1) = 2 ^ lg.
Proof.
  intros Hl. unfold slice_start. destruct (Z.eqb_spec (lg + 1) 0); [lia|]. rewrite Z.add_simpl_r.
  split; [|done]. destruct (Z.eqb_spec lg 0) as [->|]; [done|].
  split; [lia|]. apply Z.pow_le_mono_r; lia.
Qed.

Lemma numusearray_loop_spec fuel t lg i nums :
  sizearray t <= MAXASIZE -> 0 <= lg <= MAXBITS + 1 -> MAXBITS + 1 - lg <= Z.of_nat fuel ->
  i = Z.min (sizearray t) (slice_start lg) + 1 -> nums_ok nums (below t (i - 1)) ->
  exists nums', numusearray_loop fuel t lg (2 ^ lg) i (lenZ (below t (i - 1))) nums =
      Ret (lenZ (below t (sizearray t)), nums') /\ nums_ok nums' (below t (sizearray t)).
Proof.
  intros Hs. revert lg i nums. induction fuel as [|fuel IH]; intros lg i nums Hlg Hf Hi Hn; cbn [numusearray_loop];
    pose proof (lenZ_nonneg (array t)) as H0; fold (sizearray t) in H0;
    destruct (slice_start_le lg) as [Hss Hss1]; try lia.
  all: destruct (Z.leb_spec lg MAXBITS) as [Hl|Hl]; try (change MAXBITS with 26 in *; lia).
  1,3: assert (lg = 27) as -> by (change MAXBITS with 26 in *; lia);
    change (slice_start 27) with MAXASIZE in Hi; rewrite Z.min_l in Hi by done;
    replace (i - 1) with (sizearray t) in * by lia; by exists nums.
  set (lim := if sizearray t <? 2 ^ lg then sizearray t else 2 ^ lg).
  assert (Hlim : lim = Z.min (sizearray t) (2 ^ lg)) by (unfold lim; destruct (Z.ltb_spec (sizearray t) (2 ^ lg)); lia).
  destruct (Z.ltb_spec (sizearray t) (2 ^ lg)) as [Hb|Hb], (Z.ltb_spec lim i) as [Hbi|Hbi]; cbn [andb].
  { replace (i - 1) with (sizearray t) in * by lia. by exists nums. }
  all: destruct (used_slots_spec t lg i lim nums) as (n1 & -> & H1 & H2); try done; try lia;
    try (fold (slice_start lg); lia); cbn [mbind outcome_bind].
  all: rewrite <- H2, Z.max_r by lia; replace lim with (lim + 1 - 1) in H1 |- * by lia.
  all: replace (2 ^ lg * 2) with (2 ^ (lg + 1)) by (rewrite Z.pow_add_r; lia).
  all: replace (lim + 1 - 1 + 1) with (lim + 1) by lia; apply IH; try done; try lia.
Qed.

Lemma below_all t : below t (sizearray t) = elems_array 0 (array t).
Proof. unfold below, sizearray, lenZ. by rewrite Nat2Z.id, take_ge. Qed.

Lemma numusearray_spec t :
  sizearray t <= MAXASIZE ->
  exists nums, numusearray t (replicate (S (Z.to_nat MAXBITS)) 0) = Ret (lenZ (elems_array 0 (array t)), nums) /\
    nums_ok nums (elems_array 0 (array t)).
Proof.
  intros Hs. rewrite <- below_all. pose proof (lenZ_nonneg (array t)) as H0. fold (sizearray t) in H0.
  apply (numusearray_loop_spec _ t 0 1); try done.
  - change (slice_start 0) with 0. lia.
  - apply nums_ok_nil.
Qed.

(** ** The best size of the array part *)

(** More than half of the indices up to [n] are keys. *)
Definition more_than_half (es : list (TValue * TValue)) (n : Z) : Prop := n / 2 < cnt (upto n) es.

Lemma upto_slices es i :
  0 <= i < MAXBITS -> cnt (upto (2 ^ (i + 1))) es = cnt (upto (2 ^ i)) es + cnt (slice (i + 1)) es.
Proof.
  intros Hi. induction es as [|e es IH]; cbn [cnt]; [done|]. rewrite IH.
  set (k := arrayindex (fst e)). clearbody k. clear IH.
  assert (Hp : 2 ^ (i + 1) <= 2 ^ 26) by (change MAXBITS with 26 in Hi; apply Z.pow_le_mono_r; lia).
  assert (Hp2 : 2 ^ i < 2 ^ (i + 1)) by (apply Z.pow_lt_mono_r; lia).
  pose proof (upto_spec (2 ^ (i + 1)) k) as H1. pose proof (upto_spec (2 ^ i) k) as H2.
  pose proof (slice_iff (i + 1) k) as H3. change MAXASIZE with (2 ^ 26) in H3.
  pose proof (Z.log2_up_le_pow2 k i) as L1. pose proof (Z.log2_up_le_pow2 k (i + 1)) as L2.
  assert (E : (if upto (2 ^ (i + 1)) k then 1 else 0) = (if upto (2 ^ i) k then 1 else 0) + (if slice (i + 1) k then 1 else 0)); [|lia].
  destruct (upto (2 ^ (i + 1)) k), (upto (2 ^ i) k), (slice (i + 1) k); try lia; exfalso; intuition lia.
Qed.

Lemma upto_zero es : cnt (upto 0) es = 0.
Proof. apply cnt_none. intros k v _. unfold upto. lia. Qed.

Lemma upto_mono m n es : m <= n -> cnt (upto m) es <= cnt (upto n) es.
Proof.
  intros Hn. induction es as [|e es IH]; cbn [cnt]; [done|].
  assert (Hi : upto m (arrayindex (fst e)) = true -> upto n (arrayindex (fst e)) = true) by (unfold upto; lia).
  destruct (upto m _); [rewrite (Hi eq_refl); lia|]. destruct (upto n _); lia.
Qed.

Lemma upto_slice_start es i :
  0 <= i <= MAXBITS -> cnt (upto (slice_start i)) es + cnt (slice i) es = cnt (upto (2 ^ i)) es.
Proof.
  intros Hi. destruct (decide (i = 0)) as [->|Hne].
  - change (slice_start 0) with 0. rewrite upto_zero, Z.add_0_l. apply cnt_ext. intros k v _.
    pose proof (slice_iff 0 (arrayindex k)) as H1. pose proof (upto_spec (2 ^ 0) (arrayindex k)) as H2.
    pose proof (Z.log2_up_le_pow2 (arrayindex k) 0) as H3.
    change (2 ^ 0) with 1 in *. change MAXASIZE with (2 ^ 26) in H1.
    destruct (slice 0 _), (upto 1 _); try done; exfalso; [intuition lia|].
    assert (E : arrayindex k = 1) by (apply proj1 in H2; specialize (H2 eq_refl); lia).
    apply proj2 in H1. rewrite E in H1. discriminate H1. split; [lia|done].
  - destruct (slice_start_le (i - 1)) as [_ Hs]; [lia|]. replace (i - 1 + 1) with i in Hs by lia.
    rewrite Hs. pose proof (upto_slices es (i - 1)) as Hu. replace (i - 1 + 1) with i in Hu by lia. lia.
Qed.

(** No two keys of [es] have the same index. *)
Definition pigeons (es : list (TValue * TValue)) : Prop := forall n, 0 <= n -> cnt (upto n) es <= n.

(** The best size with less than [i] bits *)
Record best (es : list (TValue * TValue)) (i na n : Z) : Prop := {
be_size : n = 0 \/ exists j, 0 <= j < i /\ n = 2 ^ j /\ more_than_half es n;
be_na : na = cnt (upto n) es;
be_max : pigeons es -> forall j, 0 <= j < i -> more_than_half es (2 ^ j) -> 2 ^ j <= n
}.

Lemma half_pow i : 0 <= i -> 2 ^ i / 2 = slice_start i.
Proof.
  intros Hi. unfold slice_start. destruct (Z.eqb_spec i 0) as [->|]; [done|].
  replace i with (i - 1 + 1) at 1 by lia. rewrite Z.pow_add_r, Z.div_mul by lia. done.
Qed.

Lemma best_keep es i na n :
  0 <= i -> best es i na n -> (pigeons es -> ~ more_than_half es (2 ^ i)) -> best es (i + 1) na n.
Proof.
  intros Hi [Hs Hn Hm] Hno. split; [|done|].
  - destruct Hs as [|(j & Hj & Hs)]; [by left|]. right. exists j. split; [lia|done].
  - intros Hp j Hj Hmj. destruct (decide (j = i)) as [->|]; [by destruct (Hno Hp)|].
    apply Hm; [done|lia|done].
Qed.

Lemma best_better es i na n :
  0 <= i -> best es i na n -> more_than_half es (2 ^ i) -> best es (i + 1) (cnt (upto (2 ^ i)) es) (2 ^ i).
Proof.
  intros Hi [Hs Hn Hm] Hmi. split; [|done|].
  - right. exists i. split; [lia|done].
  - intros _ j Hj _. apply Z.pow_le_mono_r; lia.
Qed.

(** Nothing better comes later. *)
Lemma best_last es i na n :
  0 <= i <= MAXBITS + 1 -> best es i na n -> (pigeons es -> cnt (upto MAXASIZE) es <= slice_start i) ->
  best es (MAXBITS + 1) na n.
Proof.
  intros Hi [Hs Hn Hm] Hle. split; [|done|].
  - destruct Hs as [|(j & Hj & Hs)]; [by left|]. right. exists j. split; [lia|done].
  - intros Hp j Hj Hmj. destruct (decide (j < i)); [apply Hm; done || lia|].
    exfalso. unfold more_than_half in Hmj. rewrite half_pow in Hmj by lia.
    assert (H1 : cnt (upto (2 ^ j)) es <= cnt (upto MAXASIZE) es).
    { apply upto_mono. change MAXASIZE with (2 ^ MAXBITS). apply Z.pow_le_mono_r; lia. }
    assert (H2 : slice_start i <= slice_start j).
    { rewrite <- !half_pow by lia. apply Z.div_le_mono; [lia|]. apply Z.pow_le_mono_r; lia. }
    specialize (Hle Hp). lia.
Qed.

Lemma computesizes_loop_spec fuel nums es i na n :
  nums_ok nums es -> 0 <= i <= MAXBITS -> MAXBITS + 1 - i <= Z.of_nat fuel -> best es i na n ->
  exists na' n', computesizes_loop fuel nums (cnt (upto MAXASIZE) es) i (2 ^ i) (cnt (upto (slice_start i)) es) na n
      = Ret (na', n') /\ best es (MAXBITS + 1) na' n'.
Proof.
  intros Hn. revert i na n. induction fuel as [|fuel IH]; intros i na n Hi Hf Hb; [lia|].
  cbn [computesizes_loop]. assert (Hp : 0 < 2 ^ i) by (apply Z.pow_pos_nonneg; lia).
  rewrite Z.quot_div_nonneg, half_pow by lia.
  destruct (Z.ltb_spec (slice_start i) (cnt (upto MAXASIZE) es)) as [Hlt|Hge].
  2:{ exists na, n. split; [done|]. eapply best_last; [|exact Hb|done]. lia. }
  rewrite (nu_get _ _ Hn i Hi). cbn [mbind outcome_bind deref].
  pose proof (upto_slice_start es i Hi) as Hss. pose proof (cnt_range (slice i) es) as H0.
  destruct (slice_start_le i) as [Hs0 Hs1]; [lia|].
  assert (Hst : exists na1 n1, (if 0 <? cnt (slice i) es then
        if slice_start i <? cnt (upto (slice_start i)) es + cnt (slice i) es
        then (cnt (upto (slice_start i)) es + cnt (slice i) es,
              cnt (upto (slice_start i)) es + cnt (slice i) es, 2 ^ i)
        else (cnt (upto (slice_start i)) es + cnt (slice i) es, na, n)
      else (cnt (upto (slice_start i)) es, na, n)) = (cnt (upto (2 ^ i)) es, na1, n1) /\
      best es (i + 1) na1 n1).
  { rewrite Hss. destruct (Z.ltb_spec 0 (cnt (slice i) es)) as [Hx|Hx].
    - destruct (Z.ltb_spec (slice_start i) (cnt (upto (2 ^ i)) es)) as [Hh|Hh]; eexists _, _; split; try done.
      + eapply best_better; [lia|exact Hb|]. unfold more_than_half. by rewrite half_pow by lia.
      + apply best_keep; [lia|done|]. intros _. unfold more_than_half. rewrite half_pow; lia.
    - assert (E : cnt (upto (slice_start i)) es = cnt (upto (2 ^ i)) es) by lia.
      exists na, n. rewrite E. split; [done|]. apply best_keep; [lia|done|].
      intros Hpg. unfold more_than_half. rewrite half_pow by lia. specialize (Hpg (slice_start i)). lia. }
  destruct Hst as (na1 & n1 & -> & Hb1).
  destruct (Z.eqb_spec (cnt (upto (2 ^ i)) es) (cnt (upto MAXASIZE) es)) as [He|He].
  - exists na1, n1. split; [done|]. eapply best_last; [|exact Hb1|]; [lia|].
    intros Hpg. rewrite Hs1, <- He. apply Hpg. lia.
  - assert (Hi26 : i <> MAXBITS) by (intros ->; by destruct He).
    replace (2 ^ i * 2) with (2 ^ (i + 1)) by (rewrite Z.pow_add_r; lia).
    rewrite <- Hs1. apply IH; [lia|lia|done].
Qed.

Lemma computesizes_spec nums es :
  nums_ok nums es ->
  exists na n, computesizes nums (cnt (upto MAXASIZE) es) = Ret (na, n) /\ best es (MAXBITS + 1) na n.
Proof.
  intros Hn. pose proof (computesizes_loop_spec (S (Z.to_nat MAXBITS)) nums es 0 0 0 Hn) as Hs.
  change (slice_start 0) with 0 in Hs. rewrite upto_zero in Hs. apply Hs; try done.
  split; [by left|by rewrite upto_zero|]. intros _ j Hj. lia.
Qed.

(** ** [rehash] *)

Lemma array_keys t cs :
  tinv t cs -> cnt (upto MAXASIZE) (elems_array 0 (array t)) = lenZ (elems_array 0 (array t)).
Proof.
  intros Hi. apply cnt_all. intros k v Hin. eapply (array_inside t cs); [done|done|].
  rewrite take_ge; [exact Hin|]. pose proof (ti_array _ _ Hi) as Ha. unfold sizearray, lenZ in Ha. lia.
Qed.

(** The sizes that [rehash] computes for the entries of the table and a new key *)
Lemma rehash_sizes nk t cs ek :
  tinv t cs -> exists n, let es := (ek, VNil) :: elems_node (node t) ++ elems_array 0 (array t) in
    best es (MAXBITS + 1) (cnt (upto n) es) n /\
    rehash nk t ek = resize nk t n (cnt (outside n) es).
Proof.
  intros Hi. unfold rehash. destruct (numusearray_spec t (ti_array _ _ Hi)) as (n1 & -> & H1).
  cbn [mbind outcome_bind]. unfold numusehash.
  destruct (count_nodes_spec (node t) 0 0 n1 _ H1) as (n2 & -> & H2).
  { intros n Hn Hv. destruct (old_nodes _ _ _ Hi Hn Hv) as (k & Hk & _). eauto. }
  cbn [mbind outcome_bind]. destruct (countint_spec ek VNil n2 _ H2) as (n3 & -> & H3).
  cbn [mbind outcome_bind]. set (es := (ek, VNil) :: _) in *.
  destruct (computesizes_spec n3 es H3) as (na & n & Hcs & Hb).
  assert (Ec : lenZ (elems_array 0 (array t)) + (0 + cnt (upto MAXASIZE) (elems_node (node t))) +
             (if isint ek then 1 else 0) = cnt (upto MAXASIZE) es).
  { unfold es. cbn [cnt fst]. rewrite cnt_app, (array_keys _ _ Hi). unfold isint. lia. }
  rewrite Ec, Hcs. cbn [mbind outcome_bind]. exists n. cbv zeta. pose proof (be_na _ _ _ _ Hb) as Hna.
  split; [by rewrite <- Hna|]. f_equal. unfold outside. rewrite cnt_negb, <- Hna.
  unfold es. rewrite lenZ_cons, lenZ_app. lia.
Qed.

(** A table that has been rehashed for [k] *)
Record rehashed (t : Table) (k : TValue) (t' : Table) : Prop := {
rh_inv : exists cs, tinv t' cs;
rh_assoc : forall k, assoc (elems t') k = assoc (elems t) k;
rh_fits : fits_in t' k
}.

Lemma best_range es na n : best es (MAXBITS + 1) na n -> 0 <= n <= MAXASIZE.
Proof.
  intros [[->|(j & Hj & -> & _)] _ _]; [done|]. change MAXASIZE with (2 ^ MAXBITS).
  split; [lia|]. apply Z.pow_le_mono_r; lia.
Qed.

Lemma elems_slots t : lenZ (elems t) <= sizearray t + lenZ (node t).
Proof.
  unfold elems. rewrite lenZ_app, elems_array_length. apply Z.add_le_mono.
  - unfold sizearray, lenZ. pose proof (length_filter (fun v => ttisnil v = false) (array t)). lia.
  - generalize (node t). intros l. induction l as [|n l IH]; [done|].
    rewrite elems_node_cons, lenZ_app, lenZ_cons. destruct (node_entry n); unfold lenZ in *; cbn; lia.
Qed.

Lemma elems_length t cs : tinv t cs -> lenZ (elems t) <= 2 * MAXASIZE.
Proof.
  intros Hi. pose proof (elems_slots t). pose proof (ti_array _ _ Hi). destruct (ti_size _ _ Hi) as [Hr Hn].
  assert (2 ^ lsizenode t <= 2 ^ MAXBITS) by (apply Z.pow_le_mono_r; lia).
  change (2 ^ MAXBITS) with MAXASIZE in *. lia.
Qed.

Lemma rehash_spec nk t cs ek :
  tinv t cs ->
  (rehash (newkey_rule nk) t ek = Throw LUA_ERRRUN (str "table overflow") /\ MAXASIZE <= lenZ (elems t)) \/
  exists t', rehash (newkey_rule nk) t ek = Ret t' /\ rehashed t ek t'.
Proof.
  intros Hi. destruct (rehash_sizes (newkey_rule nk) t cs ek Hi) as (n & Hb & ->).
  pose proof (best_range _ _ _ Hb) as Hn. set (es := (ek, VNil) :: _) in *.
  assert (Ec : cnt (outside n) es = (if outside n (arrayindex ek) then 1 else 0) + cnt (outside n) (elems t)).
  { unfold es, elems. cbn [cnt fst]. rewrite !cnt_app. lia. }
  pose proof (elems_length _ _ Hi) as Hl. pose proof (cnt_range (outside n) (elems t)) as Hc.
  change MAXASIZE with (2 ^ 26) in Hl, Hn.
  destruct (resize_spec nk t cs n (cnt (outside n) es) Hi) as [[Hbig ->]|(_ & t' & -> & [I A S R])].
  - change MAXASIZE with (2 ^ 26). lia.
  - rewrite Ec. destruct (outside n (arrayindex ek)); lia.
  - left. split; [done|]. destruct (outside n (arrayindex ek)); lia.
  - right. exists t'. split; [done|]. split; [done|done|]. unfold fits_in. rewrite <- S in R, Ec.
    rewrite Ec, outside_in_array in R. destruct (decide (in_array t' ek)); [by left|right; lia].
Qed.
End rehash.
