(* ===== verification/TableOps.v ===== *)
(** * Insertion, collection and traversal of tables

    [luaH_set] makes room by at most one rehash; the collector may bury the
    keys of empty entries at any time; [luaH_next] follows the order of
    [elems]. *)

From S2P Require Import Prelude Clib Object Lex Dump Lstring Table TableNum TableSet.
From S2P Require Import TableResize.

#[local] Opaque mpos arrayindex.

Section ops.
Context `{Host}.

(** ** [newkey] and [luaH_set] *)

(** [t'] has a slot for [k] at [r], and the entries of [t]. *)
Record placed_in (t : Table) (k : TValue) (t' : Table) (r : slot) : Prop := {
pl_cs : exists cs, tinv t' cs /\ found t' cs k (Some r);
pl_assoc : forall k', assoc (elems t') k' = assoc (elems t) k'
}.

Lemma slotted_placed t k t' r : slotted t k t' r -> placed_in t k t' r.
Proof. by intros []. Qed.

Definition overflow : outcome (Table * slot) := Throw LUA_ERRRUN (str "table overflow").

Lemma newkey_taken_any nk t cs k x :
  tinv t cs -> good_key k -> found t cs k None -> getZ (node t) (mpos t k) = Some x ->
  gval x = VNil -> dummy t = false -> exists t' r, newkey_rule nk t k = Ret (t', r) /\ placed_in t k t' r.
Proof.
  intros Hi Hk Hf Hx Hv Hd. destruct (newkey_taken nk t cs k x Hi Hk Hf Hd Hx Hv) as [-> Hm].
  eexists _, _. split; [done|]. eapply slotted_placed, made_slotted; [done|done|exact Hm].
Qed.

Lemma newkey_rehash nk t cs k x :
  tinv t cs -> good_key k -> getZ (node t) (mpos t k) = Some x ->
  gval x <> VNil \/ dummy t = true -> room t = 0%nat ->
  exists j, tinv (with_lastfree j t) cs /\ newkey_rule nk t k =
    (t ← rehash nk (with_lastfree j t) k; set_with nk t k).
Proof.
  intros Hi Hk Hx Hv Hr. unfold newkey_rule.
  destruct (mainposition_mpos t k (ti_size _ _ Hi)) as [-> _]; [apply Hk|]. cbn [mbind outcome_bind].
  unfold gnode. rewrite Hx. cbn [mbind outcome_bind deref].
  assert (Hb : negb (ttisnil (gval x)) || dummy t = true).
  { destruct Hv as [Hv| ->]; [|by rewrite orb_true_r]. apply ttisnil_false in Hv. by rewrite Hv. }
  rewrite Hb. destruct (getfreepos_spec t cs Hi) as [(n & y & _ & Hd & Hy & Hu & _)|(_ & j & -> & Hi')].
  - exfalso. unfold room in Hr. rewrite Hd in Hr. by eapply (nfree_none t Hr n y).
  - by exists j.
Qed.

Lemma newkey_placed n t cs k :
  tinv t cs -> good_key k -> found t cs k None ->
  (newkeys (S (S n)) t k = overflow /\ MAXASIZE <= lenZ (elems t)) \/
  exists t' r, newkeys (S (S n)) t k = Ret (t', r) /\ placed_in t k t' r.
Proof.
  intros Hi Hk Hf. change (newkeys (S (S n))) with (newkey_rule (newkeys (S n))).
  destruct (decide (1 <= room t)%nat) as [Hr|Hr].
  { right. destruct (newkey_slotted (newkeys (S n)) t cs k Hi Hk Hf) as (t' & r & -> & Hs); [by right|].
    exists t', r. split; [done|]. by apply slotted_placed. }
  destruct (getZ_is_Some (node t) (mpos t k)) as [x Hx]; [by eapply good_orig|].
  destruct (decide (gval x = VNil /\ dummy t = false)) as [[Hv Hd]|Hno].
  { right. by eapply newkey_taken_any. }
  destruct (newkey_rehash (newkeys (S n)) t cs k x Hi Hk Hx) as (j & Hij & ->); [|lia|].
  { destruct (decide (gval x = VNil)); [|by left]. right. destruct (dummy t); [done|]. by destruct Hno. }
  destruct (rehash_spec (newkeys n) _ cs k Hij) as [[E Hl]|(t1 & E & [(cs1 & Hi1) A1 F1])];
    change (newkeys (S n)) with (newkey_rule (newkeys n)); rewrite E; cbn [mbind outcome_bind]; [by left|right].
  destruct (set_slotted (newkeys n) t1 cs1 k Hi1 Hk F1) as (t2 & r & -> & Hs).
  exists t2, r. split; [done|]. destruct Hs as [Hc A2 _ _]. split; [done|]. intros k'. by rewrite A2, A1.
Qed.

(** What [luaH_set] does, on every branch *)
Inductive set_outcome (t : Table) (k : TValue) : outcome (Table * slot) -> Prop :=
| set_found t' r : placed_in t k t' r -> set_outcome t k (Ret (t', r))
| set_nil : k = VNil -> set_outcome t k (Throw LUA_ERRRUN (str "table index is nil"))
| set_nan : nan_key k = true -> set_outcome t k (Throw LUA_ERRRUN (str "table index is NaN"))
| set_overflow : MAXASIZE <= lenZ (elems t) -> good_key k -> set_outcome t k overflow.

Lemma luaH_set_outcome t cs k :
  tinv t cs -> k <> VNullString -> set_outcome t k (luaH_set t k).
Proof.
  intros Hi Hns. destruct (luaH_get_found t cs k Hi Hns) as (p & Hp & Hf).
  unfold luaH_set, set_with. rewrite Hp. cbn [mbind outcome_bind].
  pose proof (flags_tinv 0 _ _ Hi) as Hi'. pose proof (skel_found _ _ _ _ _ (skel_flags 0 t) Hf) as Hf'.
  destruct p as [r|].
  { apply set_found. split; [by exists cs|done]. }
  destruct (ttisnil k) eqn:Enil; [apply set_nil; by apply ttisnil_spec|].
  apply ttisnil_false in Enil. destruct (nan_key k) eqn:Enan.
  - destruct k; try discriminate Enan. cbn [nan_key] in Enan. rewrite Enan. by apply set_nan.
  - assert (Hgk : good_key k) by done.
    assert (Hs : set_outcome t k (newkey (with_flags 0 t) k)).
    { unfold newkey. destruct (newkey_placed 0 _ cs k Hi' Hgk Hf') as [[-> Hl]|(t' & r & -> & Hpl)].
      - by apply set_overflow.
      - apply set_found. by destruct Hpl. }
    destruct k; cbn [nan_key] in *; try rewrite Enan; exact Hs.
Qed.

(** The same for the keys of type [int] *)
Lemma luaH_setnum_outcome t cs z :
  tinv t cs -> is_i32 z -> set_outcome t (VNumber (cast_num z)) (luaH_setnum t z).
Proof.
  intros Hi Hz. destruct (luaH_getnum_found t cs z Hi Hz) as (p & Hp & Hf).
  unfold luaH_setnum, setnum_with. rewrite Hp. cbn [mbind outcome_bind]. destruct p as [r|].
  { apply set_found. split; [by exists cs|done]. }
  unfold newkey. pose proof (cast_num_good z Hz) as Hgk.
  destruct (newkey_placed 0 _ cs _ Hi Hgk Hf) as [[-> Hl]|(t' & r & -> & Hpl)].
  - by apply set_overflow.
  - by apply set_found.
Qed.

Lemma luaH_setstr_outcome t cs s : tinv t cs -> set_outcome t (VString s) (luaH_setstr t s).
Proof.
  intros Hi. destruct (luaH_getstr_found t cs s Hi) as (p & Hp & Hf).
  unfold luaH_setstr, setstr_with. rewrite Hp. cbn [mbind outcome_bind]. destruct p as [r|].
  { apply set_found. split; [by exists cs|done]. }
  unfold newkey. assert (Hgk : good_key (VString s)) by done.
  destruct (newkey_placed 0 _ cs _ Hi Hgk Hf) as [[-> Hl]|(t' & r & -> & Hpl)].
  - by apply set_overflow.
  - by apply set_found.
Qed.

Lemma placed_store t k t1 r v :
  placed_in t k t1 r -> exists t', store t1 r v = Ret t' /\ (exists cs, tinv t' cs) /\ updated t k v t'.
Proof.
  intros [(cs & Hi & Hf) Ha]. destruct (store_spec t1 cs k r v Hi Hf) as (t' & He & Hi' & _ & Hu & _).
  exists t'. split; [done|]. split; [by exists cs|]. intros k'. rewrite Hu. by rewrite Ha.
Qed.

(** ** What the collector does to a table *)

(** [n'] is [n], perhaps with a dead key. *)
Record buried (n n' : Node) : Prop := {
bu_val : gval n' = gval n;
bu_next : gnext n' = gnext n;
bu_key : gkey n' = gkey n \/ gval n = VNil /\ exists k, gkey n = LiveKey k /\ gkey n' = DeadKey k /\ k <> VNil
}.

Lemma buried_orig n n' : buried n n' -> orig (gkey n') = orig (gkey n).
Proof. intros [_ _ [->|(_ & k & -> & -> & _)]]; done. Qed.

Lemma buried_unused n n' : buried n n' -> unused n' <-> unused n.
Proof.
  intros [_ _ [E|(_ & k & E1 & E2 & Hk)]]; unfold unused; [by rewrite E|]. rewrite E1, E2.
  split; [done|]. intros [=]. done.
Qed.

Definition bury (n : Node) : Node := if ttisnil (gval n) then removeentry n else n.

Lemma bury_buried n : buried n (bury n).
Proof.
  unfold bury. destruct (ttisnil (gval n)) eqn:E; [|split; auto]. apply ttisnil_spec in E.
  unfold removeentry. destruct (gkey n) as [k|k] eqn:Ek; [|split; auto].
  destruct (iscollectable k) eqn:Ec; [|split; auto]. split; [done|done|]. right. split; [done|].
  exists k. split_and!; try done. by intros ->.
Qed.

Lemma clear_dead_node t i : getZ (node (clear_dead t)) i = bury <$> getZ (node t) i.
Proof. cbn. unfold getZ. destruct (0 <=? i); [|done]. apply list_lookup_fmap. Qed.

Lemma clear_dead_back t i n' : getZ (node (clear_dead t)) i = Some n' ->
  exists n, getZ (node t) i = Some n /\ buried n n'.
Proof.
  rewrite clear_dead_node. destruct (getZ (node t) i) as [n|]; [|done]. intros [= <-].
  exists n. split; [done|apply bury_buried].
Qed.

Lemma clear_dead_forth t i n : getZ (node t) i = Some n ->
  exists n', getZ (node (clear_dead t)) i = Some n' /\ buried n n'.
Proof. intros Hn. rewrite clear_dead_node, Hn. eexists. split; [done|apply bury_buried]. Qed.

Lemma clear_dead_length t : lenZ (node (clear_dead t)) = lenZ (node t).
Proof. unfold lenZ. cbn. by rewrite length_fmap. Qed.

Lemma clear_dead_mpos t k : mpos (clear_dead t) k = mpos t k.
Proof. apply mpos_lsizenode. reflexivity. Qed.

Lemma clear_dead_entry t cs i k n' :
  entry (clear_dead t) cs i k n' -> exists n, entry t cs i k n.
Proof.
  intros (H1 & H2 & H3 & H4). destruct (clear_dead_back _ _ _ H1) as (n & Hn & [_ _ [E|(_ & k' & _ & E & _)]]).
  - exists n. rewrite clear_dead_mpos in H4. rewrite E in H2. by apply entry_key.
  - congruence.
Qed.

Lemma clear_dead_tinv t cs : tinv t cs -> tinv (clear_dead t) cs.
Proof.
  intros Hi. split.
  - destruct (ti_size _ _ Hi). split; [done|]. by rewrite clear_dead_length.
  - destruct (ti_chains _ _ Hi) as [H1 H2]. split.
    + eapply Forall_impl; [|exact H1]. intros c. apply linked_frame. intros x n _ Hn.
      destruct (clear_dead_forth _ _ _ Hn) as (n' & Hn' & []). eauto.
    + by rewrite (idx_length _ (node t) (clear_dead_length t)).
  - intros i n' Hn' Hu. destruct (clear_dead_back _ _ _ Hn') as (n & Hn & Hb).
    apply (buried_unused _ _ Hb) in Hu. rewrite (bu_val _ _ Hb). by apply (ti_unused _ _ Hi).
  - intros i n' Hn' Hu. destruct (clear_dead_back _ _ _ Hn') as (n & Hn & Hb).
    rewrite (buried_unused _ _ Hb) in Hu. rewrite (buried_orig _ _ Hb), clear_dead_mpos.
    destruct (ti_keys _ _ Hi i n Hn Hu) as (H1 & H2 & m & Hm & Hmu). split; [done|]. split; [done|].
    destruct (clear_dead_forth _ _ _ Hm) as (m' & Hm' & Hb'). exists m'. by rewrite (buried_unused _ _ Hb').
  - intros i n' v Hn' Hk. destruct (clear_dead_back _ _ _ Hn') as (n & Hn & [-> _ [E|(E & _)]]); [|done].
    rewrite E in Hk. by eapply ti_dead.
  - intros i n' Hn' Hu. destruct (clear_dead_back _ _ _ Hn') as (n & Hn & Hb).
    rewrite (buried_unused _ _ Hb) in Hu. rewrite (buried_orig _ _ Hb), clear_dead_mpos. intros Hr.
    destruct (ti_brent _ _ Hi i n Hn Hu Hr) as (m & Hm & E).
    destruct (clear_dead_forth _ _ _ Hm) as (m' & Hm' & Hb'). exists m'. split; [done|].
    by rewrite (buried_orig _ _ Hb'), clear_dead_mpos.
  - intros i n' Hn' Hv. destruct (clear_dead_back _ _ _ Hn') as (n & Hn & Hb).
    rewrite (buried_orig _ _ Hb), clear_dead_mpos. apply (ti_visible _ _ Hi); [done|].
    by rewrite <- (bu_val _ _ Hb).
  - intros i j k k' n n' H1 H2. destruct (clear_dead_entry _ _ _ _ _ H1) as (m & H1').
    destruct (clear_dead_entry _ _ _ _ _ H2) as (m' & H2'). by apply (ti_unique _ _ Hi i j k k' m m').
  - intros i j k n' m' H1 Hm' Hk. destruct (clear_dead_entry _ _ _ _ _ H1) as (n & H1').
    destruct (clear_dead_back _ _ _ Hm') as (m & Hm & [_ _ [E|(_ & k2 & E1 & E2 & Hk2)]]); rewrite clear_dead_mpos.
    + apply (ti_ghost _ _ Hi i j k n m); [done|done|congruence].
    + assert (k2 = k) as -> by congruence. intros Hr _.
      assert (i = j) as -> by (eapply (ti_unique _ _ Hi i j k k n m); [done|by apply entry_key|done]).
      destruct H1 as (H3 & H4 & _). congruence.
  - intros Hd. destruct (ti_free _ _ Hi Hd) as [H1 H2]. rewrite clear_dead_length. split; [done|].
    intros i n' Hl Hn'. destruct (clear_dead_back _ _ _ Hn') as (n & Hn & Hb).
    rewrite (buried_unused _ _ Hb). by eapply H2.
  - intros Hd. destruct (ti_dummy _ _ Hi Hd) as [H1 H2]. split; [|done]. cbn. by rewrite H1.
  - apply (ti_array _ _ Hi).
Qed.

Lemma clear_dead_elems t : elems (clear_dead t) = elems t.
Proof.
  unfold elems. f_equal. unfold elems_node. cbn. induction (node t) as [|n l IH]; [done|]. cbn.
  assert (E : node_entry (if ttisnil (gval n) then removeentry n else n) = node_entry n).
  { destruct (bury_buried n) as [Hv _ _]. unfold node_entry at 2. unfold bury in Hv.
    unfold node_entry. rewrite Hv. destruct (ttisnil (gval n)); [done|]. done. }
  rewrite E. destruct (node_entry n); by rewrite IH.
Qed.

(** ** The order of the entries *)

Lemma elems_node_NoDup t cs : tinv t cs -> NoDup (norm_key ∘ fst <$> elems_node (node t)).
Proof.
  intros Hi.
  assert (Hu : forall i j n n' e e', getZ (node t) i = Some n -> getZ (node t) j = Some n' ->
    node_entry n = Some e -> node_entry n' = Some e' -> norm_key (fst e) = norm_key (fst e') -> i = j).
  { intros i j n n' [k v] [k' v'] Hn Hn' He He' E.
    assert (Hen : forall i n k v, getZ (node t) i = Some n -> node_entry n = Some (k, v) -> entry t cs i k n).
    { clear - Hi. intros i n k v Hn He. unfold node_entry in He. destruct (ttisnil (gval n)) eqn:Ev; [done|].
      apply ttisnil_false in Ev. destruct (active_entry _ _ _ _ Hi Hn Ev) as (k' & H1).
      destruct H1 as (H2 & H3 & H4). rewrite H3 in He. injection He as <- _. done. }
    eapply (ti_unique _ _ Hi); [by eapply Hen|by eapply Hen|done]. }
  revert Hu. generalize (node t). intros l. induction l as [|n l IH]; intros Hu; [by apply list.NoDup_nil|].
  assert (IH' : NoDup (norm_key ∘ fst <$> elems_node l)).
  { apply IH. intros i j n1 n2 e e' H1 H2 He He' E.
    pose proof (getZ_Some _ _ _ H1). pose proof (getZ_Some _ _ _ H2).
    assert (i + 1 = j + 1); [|lia]. apply (Hu _ _ n1 n2 e e'); try done;
      rewrite getZ_cons, (proj2 (Z.eqb_neq _ _)) by lia; by rewrite Z.add_simpl_r. }
  rewrite elems_node_cons. destruct (node_entry n) as [e|] eqn:Ee; [|done]. cbn [app].
  rewrite fmap_cons. apply list.NoDup_cons. split; [|done].
  intros (e' & E & Hin)%list_elem_of_fmap. unfold elems_node in Hin.
  apply list_elem_of_omap in Hin as (n' & [j Hj]%elem_of_getZ & He'). pose proof (getZ_Some _ _ _ Hj).
  assert (0 = j + 1); [|lia]. apply (Hu _ _ n n' e e'); try done.
  rewrite getZ_cons, (proj2 (Z.eqb_neq _ _)) by lia. by rewrite Z.add_simpl_r.
Qed.

Lemma elems_array_NoDup i l :
  0 <= i -> i + lenZ l < 2 ^ 31 -> NoDup (norm_key ∘ fst <$> elems_array i l).
Proof.
  revert i. induction l as [|v l IH]; intros i H0 Hl; [by apply list.NoDup_nil|]. rewrite lenZ_cons in Hl.
  cbn [elems_array]. pose proof (lenZ_nonneg l). destruct (ttisnil v); [apply IH; lia|].
  rewrite fmap_cons. apply list.NoDup_cons. split; [|apply IH; lia].
  intros ([k' v'] & E & Hin)%list_elem_of_fmap. cbn [compose fst] in E.
  pose proof (elems_array_index (i + 1) l k' v') as Hx. specialize (Hx ltac:(lia) ltac:(lia) Hin).
  assert (Ea : arrayindex k' = i + 1); [|lia].
  apply elem_of_elems_array in Hin as (j & -> & Hj%getZ_Some & _). cbn [norm_key] in E. injection E as E.
  rewrite !norm_cast_num in E by (apply small_i32; unfold is_i32; lia).
  rewrite <- E. apply arrayindex_num. unfold is_i32. lia.
Qed.

(** No key has two entries. *)
Lemma elems_NoDup t cs : tinv t cs -> NoDup (norm_key ∘ fst <$> elems t).
Proof.
  intros Hi. pose proof (array_small _ _ Hi) as Hs. unfold elems. rewrite fmap_app.
  apply list.NoDup_app. split; [|split].
  - apply elems_array_NoDup; unfold sizearray in Hs; lia.
  - intros k ([k1 v1] & -> & H1)%list_elem_of_fmap ([k2 v2] & E & H2)%list_elem_of_fmap. cbn [compose fst] in E.
    apply elem_of_elems_array in H1 as (j & -> & Hj & _). destruct (array_key _ _ _ _ Hi Hj) as [_ Ha].
    apply (elems_node_entry _ _ _ _ Hi) in H2 as (i & n & He & _). destruct (entry_not_in_array _ _ _ _ _ Hi He).
    rewrite Z.add_0_l in E. by eapply in_array_norm.
  - by eapply elems_node_NoDup.
Qed.
End ops.
