(* ===== verification/TableWalk.v ===== *)
(** * Traversal and length of tables

    [luaH_next] follows the order of [elems], while values change and the
    collector buries keys; [luaH_getn] finds a border. *)

From S2P Require Import Prelude Clib Object Lex Dump Lstring Table TableNum TableSet.
From S2P Require Import TableResize TableOps.

#[local] Opaque mpos arrayindex.

Section walk.
Context `{Host}.

(** ** The first match of a search *)

Lemma find_node_first fuel t test x l i :
  linked (node t) (x :: l) -> find_node fuel t test x = Ret (Some i) ->
  forall j, j ∈ x :: l -> passes (node t) test j -> beq (x :: l) i j.
Proof.
  revert x l. induction fuel as [|fuel IH]; intros x l [(n & Hn & E) Hl] Hf j Hj Hp; cbn [find_node] in Hf;
    unfold gnode in Hf; rewrite Hn in Hf; cbn [mbind outcome_bind deref] in Hf; destruct (test n) eqn:Et.
  1,3: injection Hf as ->; by exists [], l.
  all: rewrite E in Hf; destruct l as [|y l]; cbn [head] in Hf; try done.
  apply elem_of_cons in Hj as [->|Hj].
  - exfalso. destruct Hp as (n' & Hn' & Ht). congruence.
  - apply beq_cons. right. by apply (IH y l).
Qed.

Lemma find_node_first_reach t cs test m i j :
  chains (node t) cs -> find_node (length (node t)) t test m = Ret (Some i) ->
  reach cs m j -> passes (node t) test j -> reach cs i j.
Proof.
  intros Hc Hf (l1 & l2 & Hin & Hj) Hp.
  assert (Hl : linked (node t) (m :: l2)) by (eapply linked_suffix, chains_linked; done).
  destruct (find_node_first _ _ _ _ _ _ Hl Hf j Hj Hp) as (a & b & E & Hb).
  exists (l1 ++ a), b. rewrite <- app_assoc, <- E. done.
Qed.

(** ** Tables during a traversal *)

(** [t'] is [t] after changes that make no slots. *)
Record walked (t t' : Table) : Prop := {
wk_array : sizearray t' = sizearray t;
wk_size : lsizenode t' = lsizenode t;
wk_len : lenZ (node t') = lenZ (node t);
wk_node : forall i n', getZ (node t') i = Some n' -> exists n, getZ (node t) i = Some n /\
  (gkey n' = gkey n \/ exists k, gkey n = LiveKey k /\ gkey n' = DeadKey k /\ iscollectable k = true)
}.

Lemma walked_refl t : walked t t.
Proof. split; try done. intros i n Hn. exists n. auto. Qed.

Lemma walked_trans t1 t2 t3 : walked t1 t2 -> walked t2 t3 -> walked t1 t3.
Proof.
  intros [A1 S1 L1 N1] [A2 S2 L2 N2]. split; [congruence..|]. intros i n3 H3.
  destruct (N2 i n3 H3) as (n2 & H2 & E2). destruct (N1 i n2 H2) as (n1 & H1 & E1). exists n1.
  split; [done|]. destruct E2 as [E2|(k & E2 & E3 & Hk)], E1 as [E1|(k' & E1 & E4 & Hk')].
  - left. congruence.
  - right. exists k'. rewrite E2. done.
  - right. exists k. rewrite <- E1. done.
  - congruence.
Qed.

Lemma skel_walked t t' : skel t t' -> walked t t'.
Proof.
  intros Hs. split; [apply Hs..|]. intros i n' Hn'. destruct (skel_back _ _ _ _ Hs Hn') as (n & Hn & E & _). eauto.
Qed.

Lemma clear_dead_walked t : walked t (clear_dead t).
Proof.
  split; [done|done|apply clear_dead_length|]. intros i n'. rewrite clear_dead_node.
  destruct (getZ (node t) i) as [n|]; [|done]. intros [= <-]. exists n. split; [done|].
  unfold bury, removeentry. destruct (ttisnil (gval n)); [|by left].
  destruct (gkey n) as [k|k] eqn:E; [|by left]. destruct (iscollectable k) eqn:Ec; [|by left].
  right. by exists k.
Qed.

(** The position of a slot in the order of the traversal *)
Definition position (t : Table) (r : slot) : Z :=
  match r with SArray i => i | SNode i => i + sizearray t end.

(** The test of [findindex] *)
Definition matches (key : TValue) (n : Node) : bool :=
  match gkey n with
  | LiveKey k => luaO_rawequalObj k key
  | DeadKey k => iscollectable key && bool_decide (k = key)
  end.

(** A node that matches [key] now has had the key before. *)
Lemma matches_walked t t' cs j key n' :
  tinv t cs -> key <> VNil -> walked t t' -> getZ (node t') j = Some n' -> matches key n' = true ->
  exists n k, getZ (node t) j = Some n /\
    (gkey n = LiveKey k /\ k <> VNil /\ norm_key k = norm_key key \/
     gkey n = DeadKey key /\ iscollectable key = true).
Proof.
  intros Hi Hnn Hw Hn' Hm. destruct (wk_node _ _ Hw j n' Hn') as (n & Hn & E). unfold matches in Hm.
  destruct E as [E|(k & E1 & E2 & Hk)].
  - rewrite E in Hm. destruct (gkey n) as [k|k] eqn:Ek.
    + exists n, k. split; [done|]. left. split; [done|].
      destruct (decide (k = VNil)) as [->|Hk]; [destruct key; done|]. split; [done|].
      rewrite rawequal_norm in Hm by (by eapply live_good). by apply bool_decide_eq_true in Hm.
    + exists n, k. split; [done|]. right. apply andb_true_iff in Hm as [Hc Hm].
      apply bool_decide_eq_true in Hm. split; [congruence|done].
  - rewrite E2 in Hm. apply andb_true_iff in Hm as [_ Hm]. apply bool_decide_eq_true in Hm as <-.
    exists n, k. split; [done|]. left. split; [done|]. split; [by intros ->|done].
Qed.

Lemma matches_itself t t' cs i k key n n' :
  tinv t cs -> walked t t' -> entry t cs i k n -> norm_key k = norm_key key ->
  getZ (node t') i = Some n' -> matches key n' = true.
Proof.
  intros Hi Hw (Hn & Hk & Hkn & _) E Hn'. destruct (wk_node _ _ Hw i n' Hn') as (m & Hm & Em).
  assert (m = n) as -> by congruence. unfold matches. destruct Em as [->|(k' & E1 & -> & Hc)].
  - rewrite Hk, rawequal_norm by (by eapply live_good). by apply bool_decide_eq_true.
  - assert (k' = k) as -> by congruence. destruct k, key; try done; cbn in E; rewrite ?E;
      rewrite bool_decide_eq_true_2 by (by injection E as ->); done.
Qed.

Lemma findindex_spec t t' cs key r :
  tinv t cs -> tinv t' cs -> walked t t' -> key <> VNil -> key <> VNullString ->
  found t cs key (Some r) -> findindex t' key = Ret (position t r).
Proof.
  intros Hi Hi' Hw Hnn Hns Hf. unfold findindex. rewrite (proj2 (ttisnil_false key)) by done.
  rewrite (wk_array _ _ Hw). inversion Hf as [v Ha Hv E|i k n Ha He E Er|]; subst r; cbn [position].
  - unfold in_array in Ha. rewrite (proj2 (Z.ltb_lt _ _)), (proj2 (Z.leb_le _ _)) by lia. done.
  - assert (Hb : (0 <? arrayindex key) && (arrayindex key <=? sizearray t) = false) by (unfold in_array in Ha; lia).
    rewrite Hb. destruct (mainposition_mpos t' key (ti_size _ _ Hi') Hns) as [-> Hr]. cbn [mbind outcome_bind].
    fold (matches key).
    destruct (find_node_spec t' cs (matches key) (mpos t' key) (ti_chains _ _ Hi') Hr) as (res & Hres & Hspec).
    rewrite Hres. cbn [mbind outcome_bind].
    assert (Em : mpos t' key = mpos t k) by (rewrite (mpos_lsizenode t t') by apply Hw; by apply mpos_equal).
    destruct (getZ_is_Some (node t') i) as [n' Hn']; [rewrite (wk_len _ _ Hw); eapply getZ_Some, He|].
    pose proof (matches_itself _ _ _ _ _ _ _ _ Hi Hw He E Hn') as Hmi.
    assert (Hri : reach cs (mpos t' key) i) by (rewrite Em; apply He).
    destruct res as [j|].
    2:{ destruct (Hspec i Hri). by exists n'. }
    destruct Hspec as [Hrj (nj & Hnj & Hmj)]. do 2 f_equal. f_equal.
    destruct (matches_walked _ _ _ _ _ _ Hi Hnn Hw Hnj Hmj) as (n0 & k0 & Hn0 & [(Hk0 & Hk0n & E0)|[Hdead Hc]]).
    + symmetry. eapply (ti_unique _ _ Hi i j k k0 n n0); [done| |congruence].
      apply entry_key; [done|done|done|]. rewrite Em in Hrj.
      rewrite (mpos_equal t k0 k); [done|congruence].
    + exfalso. assert (k = key) as -> by (destruct k, key; try discriminate Hc; cbn in E; congruence).
      rewrite Em in Hrj. apply (ti_ghost _ _ Hi i j key n n0 He Hn0 Hdead Hrj).
      eapply find_node_first_reach; [apply Hi'|exact Hres|exact Hri|by exists n'].
Qed.

(** ** The next entry *)

(** The entries from a position on *)
Definition after (t : Table) (p : Z) : list (TValue * TValue) :=
  elems_array p (drop (Z.to_nat p) (array t)) ++ elems_node (drop (Z.to_nat (p - sizearray t)) (node t)).

Lemma after_0 t : after t 0 = elems t.
Proof.
  unfold after, elems. pose proof (lenZ_nonneg (array t)). unfold sizearray.
  replace (Z.to_nat (0 - lenZ (array t))) with 0%nat by lia. done.
Qed.

Lemma next_array_head i l : next_array i l = head (elems_array i l).
Proof.
  revert i. induction l as [|v l IH]; intros i; cbn [next_array elems_array]; [done|].
  destruct (ttisnil v); cbn [negb]; [apply IH|done].
Qed.

Lemma next_node_head l :
  (forall n, n ∈ l -> gval n <> VNil -> exists k, gkey n = LiveKey k) -> next_node l = Ret (head (elems_node l)).
Proof.
  induction l as [|n l IH]; intros Hk; cbn [next_node]; [done|]. rewrite elems_node_cons. unfold node_entry.
  destruct (ttisnil (gval n)) eqn:E; cbn [negb].
  - apply IH. intros m Hm. apply Hk, elem_of_cons. by right.
  - apply ttisnil_false in E. destruct (Hk n) as (k & ->); [apply elem_of_cons; by left|done|done].
Qed.

Lemma luaH_next_after t cs key i :
  tinv t cs -> -1 <= i -> findindex t key = Ret i -> luaH_next t key = Ret (head (after t (i + 1))).
Proof.
  intros Hi H0 Hf. unfold luaH_next. rewrite Hf. cbn [mbind outcome_bind].
  rewrite next_array_head. unfold after. destruct (elems_array _ _) as [|e l] eqn:E; [|done]. cbn [head app].
  replace (Z.to_nat (i + 1 - sizearray t)) with (Z.to_nat (Z.max (i + 1) (sizearray t) - sizearray t)) by lia.
  apply next_node_head. intros n Hn Hv. destruct (old_nodes t cs n Hi) as (k & Hk & _); [|done|eauto].
  rewrite <- (take_drop (Z.to_nat (Z.max (i + 1) (sizearray t) - sizearray t)) (node t)). apply elem_of_app. by right.
Qed.

Lemma drop_getZ {A} (l : list A) i x : getZ l i = Some x -> drop (Z.to_nat i) l = x :: drop (Z.to_nat (i + 1)) l.
Proof.
  intros Hi. pose proof (getZ_Some _ _ _ Hi). unfold getZ in Hi. destruct (0 <=? i); [|done].
  replace (Z.to_nat (i + 1)) with (S (Z.to_nat i)) by lia. by apply drop_S.
Qed.

(** The entry of a slot is the first one from its position on. *)
Lemma after_found t cs key r v :
  tinv t cs -> found t cs key (Some r) -> load t (Some r) = Ret v -> v <> VNil ->
  exists k, norm_key k = norm_key key /\ after t (position t r) = (k, v) :: after t (position t r + 1).
Proof.
  intros Hi Hf Hl Hv. unfold after. inversion Hf as [v0 Ha Hv0 E|i k n Ha He E Er|]; subst r; cbn [position load] in *.
  - rewrite Hv0 in Hl. injection Hl as ->. exists key. split; [done|].
    unfold in_array in Ha. rewrite (drop_getZ _ _ _ Hv0). cbn [elems_array].
    rewrite (proj2 (ttisnil_false v)) by done. cbn [app]. rewrite Z.sub_add, <- (arrayindex_pos key) by lia.
    do 2 f_equal. replace (Z.to_nat (arrayindex key - sizearray t)) with (Z.to_nat (arrayindex key - 1 - sizearray t)) by lia.
    done.
  - destruct He as (Hn & Hk & Hkn & _). unfold gnode in Hl. rewrite Hn in Hl. cbn in Hl. injection Hl as <-.
    exists k. split; [done|]. pose proof (getZ_Some _ _ _ Hn). unfold sizearray.
    rewrite !drop_ge by (unfold lenZ; lia). cbn [elems_array app].
    replace (i + lenZ (array t) - lenZ (array t)) with i by lia.
    replace (i + lenZ (array t) + 1 - lenZ (array t)) with (i + 1) by lia.
    rewrite (drop_getZ _ _ _ Hn), elems_node_cons. unfold node_entry.
    rewrite (proj2 (ttisnil_false (gval n))) by done. rewrite Hk.
    rewrite (drop_ge (array t)) by (unfold lenZ; lia). done.
Qed.

Lemma position_range t cs key r : found t cs key (Some r) -> 0 <= position t r.
Proof.
  intros Hf. pose proof (lenZ_nonneg (array t)). inversion Hf as [v Ha Hv E|i k n Ha He E Er|]; subst r; cbn [position].
  - unfold in_array in Ha. lia.
  - destruct He as (Hn & _). apply getZ_Some in Hn. unfold sizearray. lia.
Qed.

(** Positions before an entry have other entries. *)
Lemma after_suffix t p : 0 <= p -> exists l, elems t = l ++ after t p.
Proof.
  intros Hp. unfold elems, after. destruct (decide (p <= sizearray t)) as [Hs|Hs].
  - replace (Z.to_nat (p - sizearray t)) with 0%nat by lia. rewrite drop_0.
    rewrite (drop_elems_array p (array t)) by (unfold sizearray in *; lia).
    eexists. by rewrite <- app_assoc.
  - rewrite (drop_ge (array t)) by (unfold sizearray, lenZ in *; lia). cbn [elems_array app].
    exists (elems_array 0 (array t) ++ elems_node (take (Z.to_nat (p - sizearray t)) (node t))).
    rewrite <- app_assoc. f_equal. unfold elems_node. rewrite <- omap_app, take_drop. done.
Qed.

(** A present key splits the entries at its position. *)
Lemma elems_split t cs k v l1 l2 :
  tinv t cs -> elems t = l1 ++ (k, v) :: l2 ->
  exists r, found t cs k (Some r) /\ after t (position t r + 1) = l2 /\ k <> VNil /\ k <> VNullString.
Proof.
  intros Hi E. assert (Hin : (k, v) ∈ elems t) by (rewrite E; apply elem_of_app; right; apply elem_of_cons; by left).
  destruct (found_exists t cs k Hi) as (r & Hf). destruct (found_holds _ _ _ _ Hi Hf) as (v' & Hl & [Hh _]).
  assert (Ev : v = v') by (by eapply Hh). subst v'.
  assert (Hv : v <> VNil).
  { unfold elems in Hin. apply elem_of_app in Hin as [(j & _ & _ & ?)%elem_of_elems_array|Hin]; [done|].
    by apply (elems_node_entry _ _ _ _ Hi) in Hin as (? & ? & _ & _ & ?). }
  destruct r as [r|]; [|cbn in Hl; by injection Hl as <-].
  destruct (after_found _ _ _ _ _ Hi Hf Hl Hv) as (k' & Ek & Ha).
  destruct (after_suffix t (position t r)) as (l0 & El); [by eapply position_range|].
  rewrite Ha, E in El. pose proof (elems_NoDup _ _ Hi) as Hnd. rewrite E in Hnd.
  exists r. split; [done|]. split.
  - enough (Hg : forall (a b c d : list (TValue * TValue)) x y, norm_key (fst x) = norm_key (fst y) ->
      NoDup (norm_key ∘ fst <$> a ++ x :: b) -> a ++ x :: b = c ++ y :: d -> b = d)
      by (symmetry; eapply Hg; [|exact Hnd|exact El]; by cbn).
    clear. intros a. induction a as [|e a IH]; intros b [|f c] d x y Exy Hn Eq; cbn in Eq; injection Eq as -> Eq.
    + done.
    + exfalso. rewrite Eq in Hn. cbn [app] in Hn. rewrite fmap_cons in Hn. apply list.NoDup_cons in Hn as [Hn _].
      apply Hn, list_elem_of_fmap. exists y. split; [exact Exy|]. apply elem_of_app. right. apply elem_of_cons. by left.
    + exfalso. cbn [app] in Hn. rewrite fmap_cons in Hn. apply list.NoDup_cons in Hn as [Hn _].
      apply Hn, list_elem_of_fmap. exists x. split; [symmetry; exact Exy|]. apply elem_of_app. right. apply elem_of_cons. by left.
    + cbn [app] in Hn. rewrite fmap_cons in Hn. apply list.NoDup_cons in Hn as [_ Hn]. by eapply IH.
  - assert (Hk : forall w, w = VNil \/ w = VNullString -> k <> w); [|split; apply Hk; auto].
    intros w Hw ->. inversion Hf as [v2 Ha'|i k2 n2 _ (Hn2 & Hk2 & Hkn2 & _) E2|]; subst.
    + unfold in_array in Ha'. by destruct Hw as [-> | ->].
    + destruct (live_good _ _ _ _ _ Hi Hn2 Hk2 Hkn2) as (H1 & H2 & _).
      destruct Hw as [-> | ->]; by destruct k2.
Qed.

(** Changes a program may make during a traversal: assignments to keys that
    have slots, and collections *)
Inductive touched (t : Table) : Table -> Prop :=
| touched_none : touched t t
| touched_set t1 t2 t3 k r v : touched t t1 -> k <> VNullString -> luaH_get t1 k = Ret (Some r) ->
    luaH_set t1 k = Ret (t2, r) -> store t2 r v = Ret t3 -> touched t t3
| touched_gc t1 : touched t t1 -> touched t (clear_dead t1).

Lemma touched_walked t cs t' : tinv t cs -> touched t t' -> tinv t' cs /\ walked t t'.
Proof.
  intros Hi Ht. induction Ht as [|t1 t2 t3 k r v _ [IH1 IH2] Hns Hg Hs Hst|t1 _ [IH1 IH2]].
  - split; [done|apply walked_refl].
  - destruct (luaH_get_found t1 cs k IH1 Hns) as (p & Hp & Hf). rewrite Hg in Hp. injection Hp as <-.
    assert (E2 : t2 = with_flags 0 t1).
    { unfold luaH_set, set_with in Hs. rewrite Hg in Hs. cbn [mbind outcome_bind] in Hs. by injection Hs. }
    subst t2. pose proof (flags_tinv 0 _ _ IH1) as Hi2.
    destruct (store_spec _ cs k r v Hi2 (skel_found _ _ _ _ _ (skel_flags 0 t1) Hf)) as (t' & He & Hi' & Hsk & _).
    assert (t3 = t') as -> by congruence. split; [done|]. eapply walked_trans; [done|].
    eapply walked_trans; [apply skel_walked, (skel_flags 0)|]. by apply skel_walked.
  - split; [by apply clear_dead_tinv|]. eapply walked_trans; [done|]. apply clear_dead_walked.
Qed.

Lemma luaH_next_touched t cs t' k r :
  tinv t cs -> touched t t' -> k <> VNil -> k <> VNullString -> found t cs k (Some r) ->
  luaH_next t' k = Ret (head (after t' (position t r + 1))).
Proof.
  intros Hi Ht Hnn Hns Hf. destruct (touched_walked _ _ _ Hi Ht) as [Hi' Hw].
  eapply luaH_next_after; [done|pose proof (position_range _ _ _ _ Hf); lia|].
  by eapply findindex_spec.
Qed.

(** A whole traversal: [fuel] calls of [luaH_next] *)
Fixpoint traverse (fuel : nat) (t : Table) (k : TValue) : outcome (list (TValue * TValue)) :=
  match fuel with
  | O => Nofuel
  | S fuel =>
      e ← luaH_next t k;
      match e with
      | None => Ret []
      | Some (k, v) => l ← traverse fuel t k; Ret ((k, v) :: l)
      end
  end.

Lemma luaH_next_nil t cs : tinv t cs -> luaH_next t VNil = Ret (head (elems t)).
Proof. intros Hi. rewrite (luaH_next_after t cs VNil (-1)) by done. by rewrite <- after_0. Qed.

Lemma luaH_next_entry t cs k v l1 l2 :
  tinv t cs -> elems t = l1 ++ (k, v) :: l2 -> luaH_next t k = Ret (head l2).
Proof.
  intros Hi E. destruct (elems_split _ _ _ _ _ _ Hi E) as (r & Hf & <- & Hnn & Hns).
  eapply luaH_next_touched; try done. constructor.
Qed.

Lemma traverse_from t cs fuel k l1 l2 :
  tinv t cs -> luaH_next t k = Ret (head l2) -> elems t = l1 ++ l2 -> (length l2 < fuel)%nat ->
  traverse fuel t k = Ret l2.
Proof.
  intros Hi. revert k l1 l2. induction fuel as [|fuel IH]; intros k l1 l2 Hn E Hf; [lia|].
  cbn [traverse]. rewrite Hn. cbn [mbind outcome_bind]. destruct l2 as [|[k' v'] l2]; cbn [head]; [done|].
  rewrite (IH k' (l1 ++ [(k', v')]) l2); [done|by eapply luaH_next_entry|by rewrite <- app_assoc|].
  cbn in Hf. lia.
Qed.

(** ** Borders *)

(** The value under an index *)
Definition at_index (t : Table) (j : Z) : TValue := assoc (elems t) (VNumber (cast_num j)).

(** [j + 1] is an [int]. *)
Definition border (t : Table) (j : Z) : Prop :=
  0 <= j < INT_MAX /\ (j = 0 \/ at_index t j <> VNil) /\ at_index t (j + 1) = VNil.

Lemma absent_spec t cs j : tinv t cs -> is_i32 j -> absent t j = Ret (ttisnil (at_index t j)).
Proof.
  intros Hi Hj. unfold absent. destruct (luaH_getnum_found t cs j Hi Hj) as (r & -> & Hf).
  cbn [mbind outcome_bind]. by rewrite (found_assoc _ _ _ _ Hi Hf).
Qed.

Lemma at_index_array t cs j v :
  tinv t cs -> getZ (array t) (j - 1) = Some v -> at_index t j = v.
Proof.
  intros Hi Hv. destruct (array_key _ _ _ _ Hi Hv) as [Ea Hin]. rewrite Z.sub_add in Ea, Hin.
  assert (Hf : found t cs (VNumber (cast_num j)) (Some (SArray (j - 1)))).
  { rewrite <- Ea at 2. apply (found_array _ _ _ v); [done|by rewrite Ea]. }
  pose proof (found_assoc _ _ _ _ Hi Hf) as E. cbn [load] in E. rewrite Hv in E. by injection E.
Qed.

Lemma binary_search_spec fuel (P : Z -> outcome bool) (f : Z -> bool) i j :
  (forall m, i < m < j -> P m = Ret (f m)) -> i < j -> f j = true -> j - i <= 2 ^ Z.of_nat fuel ->
  exists r, binary_search fuel P i j = Ret r /\ i <= r < j /\ (r = i \/ f r = false) /\ f (r + 1) = true.
Proof.
  revert i j. induction fuel as [|fuel IH]; intros i j HP Hij Hj Hf; cbn [binary_search];
    destruct (Z.ltb_spec 1 (j - i)) as [Hd|Hd].
  1: cbn in Hf; lia.
  1,3: exists i; replace (i + 1) with j by lia; split; [done|lia || auto with lia].
  assert (Hm : i < (i + j) / 2 < j) by dlia. rewrite (HP _ Hm). cbn [mbind outcome_bind].
  assert (Hp : 2 ^ Z.of_nat (S fuel) = 2 * 2 ^ Z.of_nat fuel) by (rewrite Nat2Z.inj_succ, Z.pow_succ_r; lia).
  destruct (f ((i + j) / 2)) eqn:E.
  - destruct (IH i ((i + j) / 2)) as (r & -> & Hr & Hs); [intros m ?; apply HP; lia|lia|done|dlia|].
    exists r. split; [done|]. split; [lia|done].
  - destruct (IH ((i + j) / 2) j) as (r & -> & Hr & Hs & Hs2); [intros m ?; apply HP; lia|lia|done|dlia|].
    exists r. split; [done|]. split; [lia|]. split; [|done]. right. destruct Hs as [->|]; done.
Qed.

Lemma binary_search_border t cs i j :
  tinv t cs -> 0 <= i < j -> j < 2 ^ 31 -> i = 0 \/ at_index t i <> VNil -> at_index t j = VNil ->
  exists r, binary_search 32 (absent t) i j = Ret r /\ border t r.
Proof.
  intros Hi Hij Hj Hpi Haj.
  destruct (binary_search_spec 32 (absent t) (fun m => ttisnil (at_index t m)) i j) as (r & -> & Hr & H1 & H2).
  - intros m Hm. eapply absent_spec; [done|]. unfold is_i32. lia.
  - lia.
  - by apply ttisnil_spec.
  - lia.
  - exists r. split; [done|]. split; [unfold INT_MAX; lia|]. split.
    + destruct H1 as [->|H1]; [done|]. right. by apply ttisnil_false.
    + by apply ttisnil_spec.
Qed.

(** A table has no more present indices than slots. *)
Lemma present_count t cs m :
  tinv t cs -> 0 <= m < 2 ^ 31 -> (forall j, 1 <= j <= m -> at_index t j <> VNil) ->
  m <= sizearray t + lenZ (node t).
Proof.
  intros Hi Hm Hp. pose proof (elems_slots t) as Hs.
  set (ks := (fun j => VNumber (cast_num (Z.of_nat j))) <$> seq 1 (Z.to_nat m)).
  assert (Hnd : NoDup ks).
  { apply NoDup_fmap_2_strong; [|apply list.NoDup_seq]. intros x y Hx%elem_of_seq Hy%elem_of_seq E.
    injection E as E. apply cast_num_inj in E; [lia|apply small_i32; unfold is_i32; lia..]. }
  assert (Hsub : ks ⊆ (norm_key ∘ fst <$> elems t)).
  { intros k (j & -> & Hj%elem_of_seq)%list_elem_of_fmap. specialize (Hp (Z.of_nat j) ltac:(lia)).
    destruct (found_exists t cs (VNumber (cast_num (Z.of_nat j))) Hi) as (r & Hf).
    destruct (found_holds _ _ _ _ Hi Hf) as (v & _ & Hh). unfold at_index in Hp.
    rewrite (holds_assoc _ _ _ Hh) in Hp. destruct (ho_ex _ _ _ Hh Hp) as (k' & Hin & E).
    apply list_elem_of_fmap. exists (k', v). split; [|done]. cbn [compose fst]. rewrite E. cbn [norm_key].
    rewrite norm_cast_num; [done|]. apply small_i32. unfold is_i32. lia. }
  pose proof (submseteq_length _ _ (NoDup_submseteq _ _ Hnd Hsub)) as Hl.
  unfold ks in Hl. rewrite !length_fmap, length_seq in Hl. unfold lenZ in *. lia.
Qed.

Lemma slots_small t cs : tinv t cs -> sizearray t + lenZ (node t) <= 2 ^ 27.
Proof.
  intros Hi. pose proof (ti_array _ _ Hi). destruct (ti_size _ _ Hi) as [Hr Hn].
  assert (2 ^ lsizenode t <= 2 ^ MAXBITS) by (apply Z.pow_le_mono_r; lia).
  change MAXASIZE with (2 ^ 26) in *. change MAXBITS with 26 in *. lia.
Qed.

Lemma linear_search_border t cs fuel i :
  tinv t cs -> 1 <= i -> i + Z.of_nat fuel = sizearray t + lenZ (node t) + 1 ->
  (forall j, 1 <= j < i -> at_index t j <> VNil) ->
  exists r, linear_search fuel t i = Ret r /\ border t r.
Proof.
  intros Hi. pose proof (slots_small _ _ Hi) as Hsl. revert i.
  induction fuel as [|fuel IH]; intros i H1 Hf Hp; cbn [linear_search];
    rewrite (absent_spec t cs) by (done || unfold is_i32; lia); cbn [mbind outcome_bind];
    destruct (ttisnil (at_index t i)) eqn:E.
  1,3: exists (i - 1); split; [done|]; split; [unfold INT_MAX; lia|]; rewrite Z.sub_add; split;
    [destruct (decide (i = 1)); [left; lia|right; apply Hp; lia]|by apply ttisnil_spec].
  - exfalso. apply ttisnil_false in E. pose proof (present_count t cs i Hi) as Hc.
    assert (i <= sizearray t + lenZ (node t)); [|lia]. apply Hc; [lia|].
    intros j Hj. destruct (decide (j = i)) as [->|]; [done|]. apply Hp. lia.
  - apply ttisnil_false in E. apply IH; [lia|lia|]. intros j Hj.
    destruct (decide (j = i)) as [->|]; [done|]. apply Hp. lia.
Qed.

Lemma unbound_loop_border t cs fuel i j :
  tinv t cs -> 0 <= i < j -> j < 2 ^ 31 -> 2 ^ 31 <= j * 2 ^ Z.of_nat fuel ->
  i = 0 \/ at_index t i <> VNil -> exists r, unbound_loop fuel t i j = Ret r /\ border t r.
Proof.
  intros Hi. revert i j. induction fuel as [|fuel IH]; intros i j Hij Hj Hf Hp; cbn [unbound_loop];
    rewrite (absent_spec t cs) by (done || unfold is_i32; lia); cbn [mbind outcome_bind];
    destruct (ttisnil (at_index t j)) eqn:E.
  1,3: apply (binary_search_border t cs); try done; by apply ttisnil_spec.
  - cbn in Hf. lia.
  - apply ttisnil_false in E. rewrite u32_small by (unfold is_u32; lia). change MAX_INT with (2 ^ 31 - 3).
    rewrite Nat2Z.inj_succ, Z.pow_succ_r in Hf by lia.
    destruct (Z.ltb_spec (2 ^ 31 - 3) (j * 2)).
    + apply (linear_search_border t cs); [done|lia| |intros; lia]. unfold sizearray, lenZ. lia.
    + apply IH; [lia|lia|nia|by right].
Qed.

Lemma luaH_getn_border t cs : tinv t cs -> exists j, luaH_getn t = Ret j /\ border t j.
Proof.
  intros Hi. unfold luaH_getn. pose proof (array_small _ _ Hi) as Hs.
  assert (Hlast : exists v, (if 0 <? sizearray t then deref (getZ (array t) (sizearray t - 1))
      else Ret (VBoolean 1)) = Ret v /\ (0 < sizearray t -> at_index t (sizearray t) = v)).
  { destruct (Z.ltb_spec 0 (sizearray t)) as [H0|H0]; [|exists (VBoolean 1); split; [done|lia]].
    destruct (getZ_is_Some (array t) (sizearray t - 1)) as [v Hv]; [unfold sizearray in *; lia|].
    exists v. rewrite Hv. split; [done|]. intros _. by eapply at_index_array. }
  destruct Hlast as (v & -> & Hv). cbn [mbind outcome_bind].
  destruct (Z.ltb_spec 0 (sizearray t)) as [H0|H0], (ttisnil v) eqn:E; cbn [andb].
  { destruct (binary_search_spec 32 (fun m => v ← deref (getZ (array t) (m - 1)); Ret (ttisnil v))
      (fun m => ttisnil (at_index t m)) 0 (sizearray t)) as (r & -> & Hr & H1 & H2).
    - intros m Hm. destruct (getZ_is_Some (array t) (m - 1)) as [w Hw]; [unfold sizearray in *; lia|].
      rewrite Hw. cbn. by rewrite (at_index_array t cs m w Hi Hw).
    - done.
    - by rewrite Hv.
    - change (Z.of_nat 32) with 32. lia.
    - exists r. split; [done|]. split; [unfold INT_MAX; lia|]. split; [|by apply ttisnil_spec].
      destruct H1 as [->|H1]; [by left|right; by apply ttisnil_false]. }
  all: assert (Hp : sizearray t = 0 \/ at_index t (sizearray t) <> VNil)
    by (first [left; lia|right; rewrite (Hv H0); by apply ttisnil_false]).
  all: destruct (dummy t) eqn:Ed; [|unfold unbound_search; rewrite u32_small by (unfold is_u32; lia);
    apply (unbound_loop_border t cs); [done|lia|lia| |exact Hp]; change (Z.of_nat 32) with 32; lia].
  all: exists (sizearray t); split; [done|]; split; [unfold INT_MAX; lia|]; split; [exact Hp|].
  all: destruct (ti_dummy _ _ Hi Ed) as [Hn _];
    destruct (found_exists t cs (VNumber (cast_num (sizearray t + 1))) Hi) as (r & Hf);
    pose proof (found_assoc _ _ _ _ Hi Hf) as Ha; unfold at_index;
    inversion Hf as [w Hw|i k n _ (Hin & Hk & Hkn & _)|]; subst r;
    [unfold in_array in Hw; rewrite arrayindex_num in Hw by (unfold is_i32; lia); lia
    |rewrite Hn in Hin; apply getZ_elem, list_elem_of_singleton in Hin as ->; by injection Hk as <-
    |by injection Ha].
Qed.
End walk.
