(* ===== verification/Rawtable.v ===== *)
(** * Raw access to tables (lapi.c)

    The functions of the host interface that read and write tables without
    metamethods, on a table and the values they take from the stack.
    [RawTable] is what the libraries rely on. *)

From S2P Require Import Prelude Clib Object Lex Dump Lstring Table.

Section raw.
Context `{Host}.

Definition lua_rawget (t : Table) (k : TValue) : outcome TValue :=
  r ← luaH_get t k; load t r.

Definition lua_rawgeti (t : Table) (n : Z) : outcome TValue :=
  r ← luaH_getnum t n; load t r.

Definition lua_rawset (t : Table) (k v : TValue) : outcome Table :=
  '(t, r) ← luaH_set t k; store t r v.

Definition lua_rawseti (t : Table) (n : Z) (v : TValue) : outcome Table :=
  '(t, r) ← luaH_setnum t n; store t r v.

(** [luaH_resizearray], called when the array part is too small
    (lvm.c: [OP_SETLIST]) *)
Definition grow_array (t : Table) (last : Z) : outcome Table :=
  if sizearray t <? last then luaH_resizearray t last else Ret t.
End raw.

(** ** The interface of arrays

    [raw_at t i] is the value of the field [i] of [t]. *)
Class RawTable (T : Type) := {
  raw_geti : T -> Z -> outcome TValue;
  raw_seti : T -> Z -> TValue -> outcome T;
  raw_getn : T -> outcome Z;
  raw_at : T -> Z -> TValue;
  raw_wf : T -> Prop;
  raw_geti_spec t i : raw_wf t -> is_i32 i -> raw_geti t i = Ret (raw_at t i);
  raw_seti_spec t i v : raw_wf t -> is_i32 i ->
    match raw_seti t i v with
    | Ret t' => raw_wf t' /\ forall j, is_i32 j -> raw_at t' j = if decide (j = i) then v else raw_at t j
    | Throw st e => st = LUA_ERRRUN /\ e = str "table overflow" /\ raw_at t i = VNil
    | _ => False
    end;
  raw_getn_spec t : raw_wf t -> exists n, raw_getn t = Ret n /\ 0 <= n < INT_MAX /\
    (n = 0 \/ raw_at t n <> VNil) /\ raw_at t (n + 1) = VNil
}.
