(* ===== verification/TableProps.v ===== *)
(** * Correctness of tables

    Tables implement finite maps: the operations of a program on a table have
    the results they have on the map, whatever the parts of the table, its
    rehashes and the work of the collector on it. *)

From S2P Require Import Prelude Clib Object Lex Dump Lstring Table TableNum TableSet.
From S2P Require Import TableResize TableOps TableWalk Rawtable.

#[local] Opaque mpos arrayindex.

(** ** The specification: maps *)

Definition kvmap : Type := TValue -> TValue.

Definition upd (m : kvmap) (k v : TValue) : kvmap :=
  fun k' => if decide (norm_key k = norm_key k') then v else m k'.

Inductive tableop :=
| OpGet (k : TValue)
| OpSet (k v : TValue)
| OpGeti (n : Z)
| OpSeti (n : Z) (v : TValue)
| OpGrow (n : Z)
| OpCollect.

Definition op_ok (o : tableop) : Prop :=
  match o with
  | OpGet k | OpSet k _ => k <> VNullString
  | OpGeti n | OpSeti n _ => is_i32 n
  | OpGrow n => n <= MAXASIZE
  | OpCollect => True
  end.

(** The map after an operation, and its result *)
Definition spec_op (m : kvmap) (o : tableop) : outcome (kvmap * TValue) :=
  match o with
  | OpGet k => Ret (m, m k)
  | OpSet k v =>
      if ttisnil k then Throw LUA_ERRRUN (str "table index is nil")
      else if nan_key k then Throw LUA_ERRRUN (str "table index is NaN")
      else Ret (upd m k v, VNil)
  | OpGeti n => Ret (m, m (VNumber (cast_num n)))
  | OpSeti n v => Ret (upd m (VNumber (cast_num n)) v, VNil)
  | OpGrow _ | OpCollect => Ret (m, VNil)
  end.

Fixpoint spec_ops (m : kvmap) (l : list tableop) : outcome (kvmap * list TValue) :=
  match l with
  | [] => Ret (m, [])
  | o :: l => '(m, v) ← spec_op m o; '(m, vs) ← spec_ops m l; Ret (m, v :: vs)
  end.

Section props.
Context `{Host}.

Definition run_op (t : Table) (o : tableop) : outcome (Table * TValue) :=
  match o with
  | OpGet k => v ← lua_rawget t k; Ret (t, v)
  | OpSet k v => t ← lua_rawset t k v; Ret (t, VNil)
  | OpGeti n => v ← lua_rawgeti t n; Ret (t, v)
  | OpSeti n v => t ← lua_rawseti t n v; Ret (t, VNil)
  | OpGrow n => t ← grow_array t n; Ret (t, VNil)
  | OpCollect => Ret (clear_dead t, VNil)
  end.

Fixpoint run_ops (t : Table) (l : list tableop) : outcome (Table * list TValue) :=
  match l with
  | [] => Ret (t, [])
  | o :: l => '(t, v) ← run_op t o; '(t, vs) ← run_ops t l; Ret (t, v :: vs)
  end.

Definition wf (t : Table) : Prop := exists cs, tinv t cs.

(** The table stands for the map. *)
Record represents (t : Table) (m : kvmap) : Prop := {
rp_inv : wf t;
rp_map : forall k, assoc (elems t) k = m k
}.

(** The outcome of an operation is the one of the map, or the table is full. *)
Definition refines {A} (R : Table -> kvmap -> Prop) (x : outcome (Table * A)) (s : outcome (kvmap * A)) : Prop :=
  match x with
  | Ret (t, a) => exists m, s = Ret (m, a) /\ R t m
  | Throw st e => st = LUA_ERRRUN /\ e = str "table overflow" \/ s = Throw st e
  | _ => False
  end.

Lemma placed_put t m k t1 r v (s : outcome (kvmap * TValue)) :
  represents t m -> placed_in t k t1 r -> s = Ret (upd m k v, VNil) ->
  refines represents (t ← store t1 r v; Ret (t, VNil)) s.
Proof.
  intros [Hi Hm] Hp ->. destruct (placed_store _ _ _ _ v Hp) as (t' & -> & Hi' & Hu).
  eexists. split; [done|]. split; [done|]. intros k'. rewrite Hu. unfold upd. by rewrite Hm.
Qed.

Lemma set_refines t m k v x s :
  represents t m -> set_outcome t k x ->
  s = (if ttisnil k then Throw LUA_ERRRUN (str "table index is nil")
       else if nan_key k then Throw LUA_ERRRUN (str "table index is NaN")
       else Ret (upd m k v, VNil)) ->
  refines represents (t ← ('(t, r) ← x; store t r v); Ret (t, VNil)) s.
Proof.
  intros Hr Ho ->. destruct Ho as [t1 r Hp|Hk|Hk|Hl Hk]; cbn [mbind outcome_bind refines overflow].
  - destruct (pl_cs _ _ _ _ Hp) as (cs & Hi & Hf).
    assert (Hk : good_key k).
    { destruct (found_holds _ _ _ _ Hi Hf) as (w & _ & _). inversion Hf as [w' Ha|i k' n Ha (Hn & Hk & Hkn & _) E|]; subst.
      - unfold in_array in Ha. rewrite (arrayindex_pos k) by lia. apply cast_num_good. apply arrayindex_range.
      - destruct (live_good _ _ _ _ _ Hi Hn Hk Hkn) as (H1 & H2 & H3). split_and!.
        + intros ->. by apply (proj1 (norm_key_nil k')) in E.
        + intros ->. by destruct k'.
        + destruct k, k'; try done. cbn [nan_key norm_key] in *. injection E as E.
          rewrite isnan_spec in *. apply bool_decide_eq_false. apply bool_decide_eq_false in H3.
          intros ->. cbn in E. by destruct n1. }
    destruct Hk as (H1 & H2 & H3). rewrite (proj2 (ttisnil_false k)), H3 by done.
    by eapply placed_put.
  - right. by rewrite (proj2 (ttisnil_spec k)).
  - right. rewrite Hk. destruct (ttisnil k) eqn:E; [apply ttisnil_spec in E as ->; done|done].
  - by left.
Qed.

Lemma get_refines t cs m k r :
  tinv t cs -> represents t m -> found t cs k r -> load t r = Ret (m k).
Proof. intros Hi [_ Hm] Hf. by rewrite (found_assoc _ _ _ _ Hi Hf), Hm. Qed.

Lemma grow_refines t m n :
  represents t m -> n <= MAXASIZE -> exists t', grow_array t n = Ret t' /\ represents t' m.
Proof.
  intros [(cs & Hi) Hm] Hn. unfold grow_array. destruct (Z.ltb_spec (sizearray t) n) as [Hl|Hl].
  2:{ exists t. split; [done|]. split; [by exists cs|done]. }
  pose proof (lenZ_nonneg (array t)) as H0. fold (sizearray t) in H0. destruct (ti_size _ _ Hi) as [Hr Hnode].
  set (nsize := if dummy t then 0 else sizenode t).
  assert (Hc : cnt (outside n) (elems t) <= nsize <= MAXASIZE).
  { unfold elems. rewrite cnt_app, (cnt_none _ (elems_array 0 (array t))).
    - unfold nsize. destruct (dummy t) eqn:Ed.
      + by destruct (ti_dummy _ _ Hi Ed) as [-> _].
      + rewrite sizenode_pow, <- Hnode by lia. pose proof (cnt_range (outside n) (elems_node (node t))).
        pose proof (elems_slots (with_array [] t)) as Hs. change (elems (with_array [] t)) with (elems_node (node t)) in Hs.
        change (node (with_array [] t)) with (node t) in Hs. change (sizearray (with_array [] t)) with 0 in Hs.
        assert (2 ^ lsizenode t <= 2 ^ MAXBITS) by (apply Z.pow_le_mono_r; lia).
        change (2 ^ MAXBITS) with MAXASIZE in *. lia.
    - intros k v Hin. change MAXASIZE with (2 ^ 26) in Hn. pose proof (elems_array_index 0 (array t) k v) as Hx.
      unfold outside. rewrite (proj2 (upto_spec n _)); [done|]. unfold sizearray in *.
      destruct Hx; [lia|lia|done|lia]. }
  unfold luaH_resizearray. fold nsize. unfold newkey. change (newkeys 2) with (newkey_rule (newkeys 1)).
  change MAXASIZE with (2 ^ 26) in Hc.
  destruct (resize_spec (newkeys 1) t cs n nsize Hi) as [[Hb _]|(_ & t' & -> & [I A S R])]; [lia|lia| |].
  - change MAXASIZE with (2 ^ 26) in Hb. lia.
  - exists t'. split; [done|]. split; [done|]. intros k. by rewrite A.
Qed.

Lemma op_refines t m o : represents t m -> op_ok o -> refines represents (run_op t o) (spec_op m o).
Proof.
  intros Hr. pose proof Hr as [(cs & Hi) Hm]. destruct o as [k|k v|n|n v|n|]; cbn [run_op spec_op op_ok]; intros Ho.
  - unfold lua_rawget. destruct (luaH_get_found t cs k Hi Ho) as (r & -> & Hf). cbn [mbind outcome_bind].
    rewrite (get_refines _ _ _ _ _ Hi Hr Hf). cbn. eauto.
  - unfold lua_rawset. eapply set_refines; [exact Hr|by eapply luaH_set_outcome|done].
  - unfold lua_rawgeti. destruct (luaH_getnum_found t cs n Hi Ho) as (r & -> & Hf). cbn [mbind outcome_bind].
    rewrite (get_refines _ _ _ _ _ Hi Hr Hf). cbn. eauto.
  - unfold lua_rawseti. eapply set_refines; [exact Hr|by eapply luaH_setnum_outcome|].
    destruct (cast_num_good n Ho) as (_ & _ & H3). by rewrite H3.
  - destruct (grow_refines t m n Hr Ho) as (t' & -> & Hr'). cbn. eauto.
  - cbn. exists m. split; [done|]. split; [exists cs; by apply clear_dead_tinv|]. by rewrite clear_dead_elems.
Qed.

(** ** Tables as arrays *)

Lemma rawgeti_at t i : wf t -> is_i32 i -> lua_rawgeti t i = Ret (at_index t i).
Proof.
  intros [cs Hi] Hz. unfold lua_rawgeti. destruct (luaH_getnum_found t cs i Hi Hz) as (r & -> & Hf).
  cbn [mbind outcome_bind]. by rewrite (found_assoc _ _ _ _ Hi Hf).
Qed.

Lemma num_eq i j : is_i32 i -> is_i32 j ->
  norm_key (VNumber (cast_num i)) = norm_key (VNumber (cast_num j)) -> i = j.
Proof.
  intros Hi Hj E. cbn [norm_key] in E. rewrite !norm_cast_num in E by (by apply small_i32).
  injection E as E. apply cast_num_inj in E; [done|by apply small_i32..].
Qed.

Lemma rawseti_at t i v :
  wf t -> is_i32 i ->
  match lua_rawseti t i v with
  | Ret t' => wf t' /\ forall j, is_i32 j -> at_index t' j = if decide (j = i) then v else at_index t j
  | Throw st e => st = LUA_ERRRUN /\ e = str "table overflow" /\ at_index t i = VNil
  | _ => False
  end.
Proof.
  intros [cs Hi] Hz. unfold lua_rawseti. pose proof (luaH_setnum_outcome t cs i Hi Hz) as Ho.
  destruct (luaH_getnum_found t cs i Hi Hz) as (p & Hp & Hf).
  inversion Ho as [t' r Hpl E|E|E|Hl Hk E]; cbn [mbind outcome_bind].
  - destruct (placed_store _ _ _ _ v Hpl) as (t2 & -> & Hi2 & Hu). split; [done|]. intros j Hj. unfold at_index.
    rewrite Hu. destruct (decide (j = i)) as [->|Hne]; [by rewrite decide_True|].
    rewrite decide_False; [done|]. intros E'. by destruct Hne; symmetry; apply num_eq.
  - discriminate E.
  - destruct (cast_num_good i Hz) as (_ & _ & H3). congruence.
  - cbn. split; [done|]. split; [done|]. unfold luaH_setnum, setnum_with in E. rewrite Hp in E.
    cbn [mbind outcome_bind] in E. destruct p as [r|]; [discriminate E|].
    pose proof (found_assoc _ _ _ _ Hi Hf) as Ha. cbn [load] in Ha. by injection Ha.
Qed.

Lemma getn_at t : wf t -> exists n, luaH_getn t = Ret n /\ 0 <= n < INT_MAX /\
  (n = 0 \/ at_index t n <> VNil) /\ at_index t (n + 1) = VNil.
Proof. intros [cs Hi]. by eapply luaH_getn_border. Qed.

#[export] Instance table_array : RawTable Table := {|
  raw_geti := lua_rawgeti;
  raw_seti := lua_rawseti;
  raw_getn := luaH_getn;
  raw_at := at_index;
  raw_wf := wf;
  raw_geti_spec := rawgeti_at;
  raw_seti_spec := rawseti_at;
  raw_getn_spec := getn_at
|}.

(** C18: A table stands for a map.  Any sequence of raw accesses, with
    collections and growth of the array part in between, has on the table the
    results and errors it has on the map, and the table stands for the map
    afterwards; the only other outcome is the error "table overflow".  No
    operation leaves the vectors of the table or runs for ever. *)
Theorem table_refines_map t m l :
  represents t m -> Forall op_ok l -> refines represents (run_ops t l) (spec_ops m l).
Proof.
  intros Hr Hl. revert t m Hr. induction Hl as [|o l Ho _ IH]; intros t m Hr; cbn [run_ops spec_ops].
  - by exists m.
  - pose proof (op_refines t m o Hr Ho) as H1.
    destruct (run_op t o) as [[t1 v]|st e| |]; cbn [mbind outcome_bind refines] in *; try done.
    + destruct H1 as (m1 & -> & Hr1). cbn [mbind outcome_bind]. specialize (IH t1 m1 Hr1).
      destruct (run_ops t1 l) as [[t2 vs]|st e| |]; cbn [mbind outcome_bind refines] in *; try done.
      * destruct IH as (m2 & -> & Hr2). cbn. eauto.
      * destruct IH as [[-> ->]| ->]; [by left|by right].
    + destruct H1 as [[-> ->]| ->]; [by left|by right].
Qed.

(** A new table stands for the empty map, with an array part of the size
    asked for; the error "table overflow" comes exactly when the hash part
    would have more than 2^26 nodes. *)
Theorem luaH_new_empty narray nhash :
  0 <= narray <= MAXASIZE -> 0 <= nhash < 2 ^ 31 ->
  if nhash <=? MAXASIZE then
    exists t, luaH_new narray nhash = Ret t /\ represents t (fun _ => VNil) /\ sizearray t = narray /\
      nhash <= Z.of_nat (room t)
  else luaH_new narray nhash = Throw LUA_ERRRUN (str "table overflow").
Proof.
  intros Ha Hh. unfold luaH_new. set (t0 := mkTable _ _ _ _ _ _ _).
  assert (Hs : sizearray (setarrayvector t0 narray) = narray) by (apply setarrayvector_size; lia).
  destruct (setnodevector_spec (setarrayvector t0 narray) nhash) as [[Hb ->]|(Hb & t & -> & Hf)]; [lia|lia| |].
  - by rewrite (proj2 (Z.leb_gt _ _)) by done.
  - rewrite (proj2 (Z.leb_le _ _)) by done. exists t. split; [done|]. split; [|split].
    + destruct (fr_inv _ _ _ Hf (array t)) as (cs & Hi).
      { rewrite (fr_array _ _ _ Hf). unfold sizearray in Hs. lia. }
      split; [exists cs; by destruct t|]. intros k. unfold elems.
      rewrite (fr_nodes _ _ _ Hf), app_nil_r, (fr_array _ _ _ Hf), setarrayvector_elems.
      change (array t0) with (@nil TValue). by rewrite take_nil.
    + unfold sizearray in *. by rewrite (fr_array _ _ _ Hf).
    + apply (fr_room _ _ _ Hf).
Qed.

(** C19: [luaH_set] always ends, with at most one rehash: it returns a slot
    that holds the value of the key in a table with the same entries, or
    raises the error for nil, for NaN, or the overflow of a table that has at
    least 2^26 entries. *)
Theorem luaH_set_total t k :
  wf t -> k <> VNullString ->
  match luaH_set t k with
  | Ret (t', r) => wf t' /\ (forall k', assoc (elems t') k' = assoc (elems t) k') /\
      load t' (Some r) = Ret (assoc (elems t) k)
  | Throw st e => st = LUA_ERRRUN /\
      (k = VNil /\ e = str "table index is nil" \/
       nan_key k = true /\ e = str "table index is NaN" \/
       MAXASIZE <= lenZ (elems t) /\ e = str "table overflow")
  | _ => False
  end.
Proof.
  intros [cs Hi] Hk. destruct (luaH_set_outcome t cs k Hi Hk) as [t' r [(cs' & Hi' & Hf) Ha]| | |];
    cbn; try (split; [done|tauto]).
  split; [by exists cs'|]. split; [done|]. by rewrite <- Ha, <- (found_assoc _ _ _ _ Hi' Hf).
Qed.

(** C21: A traversal with [luaH_next] from nil visits every entry of the table
    once, in the order of the parts, and ends. *)
Theorem luaH_next_visits_all t :
  wf t -> traverse (S (length (elems t))) t VNil = Ret (elems t) /\ NoDup (norm_key ∘ fst <$> elems t).
Proof.
  intros [cs Hi]. split; [|by eapply elems_NoDup].
  apply (traverse_from t cs _ VNil []); [done|by eapply luaH_next_nil|done|lia].
Qed.

(** C22: During a traversal the program may assign to the keys that have a
    slot, and the collector may bury the keys of empty entries: from the key
    at a slot [luaH_next] goes on to the first entry behind that slot, even
    when the entry of the key itself is gone. *)
Theorem luaH_next_robust t cs t' k r :
  tinv t cs -> touched t t' -> k <> VNil -> k <> VNullString -> luaH_get t k = Ret (Some r) ->
  luaH_next t' k = Ret (head (after t' (position t r + 1))).
Proof.
  intros Hi Ht Hnn Hns Hg. destruct (luaH_get_found t cs k Hi Hns) as (p & Hp & Hf).
  rewrite Hg in Hp. injection Hp as <-. by eapply luaH_next_touched.
Qed.

(** C23: [luaH_getn] finds a border: an index with a value, or 0, whose
    successor has none. *)
Theorem luaH_getn_finds_border t : wf t -> exists j, luaH_getn t = Ret j /\ border t j.
Proof. intros [cs Hi]. by eapply luaH_getn_border. Qed.

Lemma pigeons_NoDup es : NoDup (norm_key ∘ fst <$> es) -> pigeons es.
Proof.
  intros Hnd n Hn.
  set (l := (arrayindex ∘ fst) <$> filter (fun e => upto n (arrayindex (fst e)) = true) es).
  assert (El : lenZ l = cnt (upto n) es).
  { unfold l, lenZ. rewrite length_fmap. clear. induction es as [|e es IH]; cbn [cnt]; [done|].
    rewrite list.filter_cons. case_decide as E; [rewrite E; cbn [length]; lia|].
    apply not_true_is_false in E. rewrite E. lia. }
  assert (Hl : NoDup l).
  { unfold l. clear El l. induction es as [|e es IH]; [by apply list.NoDup_nil|].
    rewrite fmap_cons in Hnd. apply list.NoDup_cons in Hnd as [Hin Hnd]. rewrite list.filter_cons.
    case_decide as E; [|auto]. rewrite fmap_cons. apply list.NoDup_cons. split; [|auto].
    intros (e' & Ee & Hin')%list_elem_of_fmap. apply list_elem_of_filter in Hin' as [E' Hin'].
    apply Hin, list_elem_of_fmap. exists e'. split; [|done]. cbn [compose] in *.
    apply upto_spec in E, E'. rewrite (arrayindex_pos (fst e)), (arrayindex_pos (fst e')) by lia. by rewrite Ee. }
  assert (Hsub : l ⊆ (Z.of_nat <$> seq 1 (Z.to_nat n))).
  { intros j (e & -> & [E _]%list_elem_of_filter)%list_elem_of_fmap. apply upto_spec in E. cbn [compose].
    apply list_elem_of_fmap. exists (Z.to_nat (arrayindex (fst e))). split; [lia|]. apply elem_of_seq. lia. }
  pose proof (submseteq_length _ _ (NoDup_submseteq _ _ Hl Hsub)) as Hle.
  rewrite length_fmap, length_seq in Hle. unfold lenZ in El. lia.
Qed.

(** C20: A rehash chooses the best size for the array part: the greatest power
    of two, up to 2^26, with more than half of the indices in use when the new
    key is counted, or 0 when there is none; the hash part has room for
    exactly the other keys. *)
Theorem rehash_optimal nk t cs ek :
  tinv t cs -> good_key ek -> found t cs ek None ->
  exists n, let es := (ek, VNil) :: elems t in
    rehash nk t ek = resize nk t n (cnt (outside n) es) /\
    (n = 0 \/ exists j, 0 <= j <= MAXBITS /\ n = 2 ^ j /\ n / 2 < cnt (upto n) es) /\
    forall j, 0 <= j <= MAXBITS -> 2 ^ j / 2 < cnt (upto (2 ^ j)) es -> 2 ^ j <= n.
Proof.
  intros Hi Hk Hf. destruct (rehash_sizes nk t cs ek Hi) as (n & [Hs _ Hm] & ->). exists n. cbv zeta.
  assert (Ec : forall p, cnt p ((ek, VNil) :: elems_node (node t) ++ elems_array 0 (array t)) =
                         cnt p ((ek, VNil) :: elems t)).
  { intros p. unfold elems. cbn [cnt]. rewrite !cnt_app. lia. }
  unfold more_than_half in *. rewrite !Ec in *. split; [done|]. split.
  - destruct Hs as [|(j & Hj & E & Hh)]; [by left|]. right. exists j. split; [lia|]. split; [exact E|].
    by first [exact Hh|rewrite <- Ec].
  - intros j Hj Hh. apply Hm; [|lia|by rewrite Ec].
    intros n' Hn'. rewrite Ec. revert n' Hn'. apply pigeons_NoDup. rewrite fmap_cons. apply list.NoDup_cons.
    split; [|by eapply elems_NoDup]. intros ([k v] & E & Hin)%list_elem_of_fmap. cbn [compose fst] in E.
    destruct (found_holds _ _ _ _ Hi Hf) as (w & Hw & Hh2). cbn in Hw. injection Hw as <-.
    pose proof (ho_fun _ _ _ Hh2 k v Hin (eq_sym E)) as ->.
    unfold elems in Hin. apply elem_of_app in Hin as [(? & _ & _ & ?)%elem_of_elems_array|Hin]; [done|].
    by apply (elems_node_entry _ _ _ _ Hi) in Hin as (? & ? & _ & _ & ?).
Qed.
End props.

(** ** Instances *)

(** A machine with 1 MB of distance between objects *)
#[local] Instance toy_host : Host := {|
  IntPoint v := match v with
    | VLightUserdata p | VTable p | VFunction p | VUserdata p | VThread p => 2 ^ 20 * p | _ => 0 end;
  int_overflow _ := 0
|}.

Definition num (z : Z) : TValue := VNumber (cast_num z).
Definition empty_table : Table := mkTable 255 None [] 0 [dummynode] true 0.
Definition pair_table : Table := mkTable 255 None [VBoolean 1; num 7] 0 [dummynode] true 0.

Lemma nodeless_tinv t :
  node t = [dummynode] -> dummy t = true -> lsizenode t = 0 -> lastfree t <= 0 -> sizearray t <= MAXASIZE ->
  tinv t [[0]].
Proof.
  intros Hn Hd Hl Hf Ha. pose proof (fresh_tinv t) as Hi. rewrite Hn in Hi. apply Hi; clear Hi.
  - split; rewrite ?Hl, ?Hn; done.
  - by intros n ->%list_elem_of_singleton.
  - congruence.
  - done.
  - done.
Qed.

Lemma empty_represents : represents empty_table (fun _ => VNil).
Proof. split; [exists [[0]]; by apply nodeless_tinv|done]. Qed.

Lemma pair_tinv : tinv pair_table [[0]].
Proof. by apply nodeless_tinv. Qed.

Definition sample_ops : list tableop :=
  [OpSet (VString (str "x")) (num 10); OpSeti 1 (num 11); OpSeti 2 (num 12); OpSeti 4 (num 14);
   OpSet (VTable 3) (VBoolean 1); OpSet (VString (str "x")) VNil; OpCollect; OpGrow 8;
   OpSet (VString (str "y")) (num 15); OpGet (VString (str "x")); OpGeti 4; OpGet (VTable 3);
   OpGet (num 2); OpGet (VString (str "y"))].

Lemma table_refines_map_witness :
  refines represents (run_ops empty_table sample_ops) (spec_ops (fun _ => VNil) sample_ops) /\
  match run_ops empty_table sample_ops with
  | Ret (_, vs) => drop 9 vs = [VNil; num 14; VBoolean 1; num 12; num 15]
  | _ => False
  end.
Proof.
  split; [|vm_compute; reflexivity].
  apply (table_refines_map empty_table _ sample_ops empty_represents).
  repeat constructor; cbn; done.
Defined.

Lemma luaH_new_empty_witness : exists t, luaH_new 3 5 = Ret t /\ sizearray t = 3.
Proof.
  destruct (luaH_new_empty 3 5) as (t & E & _ & Hs & _); [split; discriminate|split; [discriminate|reflexivity]|].
  exists t. split; assumption.
Defined.

Lemma luaH_set_total_witness :
  match luaH_set empty_table (num 1) with
  | Ret (t', r) => load t' (Some r) = Ret VNil
  | _ => False
  end.
Proof.
  assert (Hw : wf empty_table) by apply empty_represents.
  pose proof (luaH_set_total empty_table (num 1) Hw) as Ht.
  assert (E : exists t' r, luaH_set empty_table (num 1) = Ret (t', r)) by (vm_compute; eauto).
  destruct E as (t' & r & E). rewrite E in *. apply Ht. discriminate.
Defined.

Lemma luaH_next_visits_all_witness :
  traverse 3 pair_table VNil = Ret [(num 1, VBoolean 1); (num 2, num 7)].
Proof. apply (luaH_next_visits_all pair_table). exists [[0]]. apply pair_tinv. Defined.

Lemma luaH_next_robust_witness :
  exists t', touched pair_table t' /\ luaH_next t' (num 1) = Ret (Some (num 2, num 7)).
Proof.
  assert (Ht : touched pair_table (with_array [VNil; num 7] (with_flags 0 pair_table))).
  { eapply (touched_set _ pair_table (with_flags 0 pair_table) _ (num 1) (SArray 0) VNil);
      [constructor|discriminate|vm_compute; reflexivity..]. }
  eexists. split; [exact Ht|].
  rewrite (luaH_next_robust pair_table [[0]] _ (num 1) (SArray 0) pair_tinv Ht);
    [reflexivity|discriminate|discriminate|vm_compute; reflexivity].
Defined.

Lemma luaH_getn_finds_border_witness : exists j, luaH_getn pair_table = Ret j /\ border pair_table j.
Proof. apply luaH_getn_finds_border. exists [[0]]. apply pair_tinv. Defined.

Lemma rehash_optimal_witness :
  exists n, rehash (newkeys 1) pair_table (num 3) = resize (newkeys 1) pair_table n (cnt (outside n) ((num 3, VNil) :: elems pair_table)) /\
    4 <= n.
Proof.
  destruct (rehash_optimal (newkeys 1) pair_table [[0]] (num 3) pair_tinv) as (n & E & _ & Hm).
  - apply cast_num_good. split; [discriminate|reflexivity].
  - apply found_none; [vm_compute; intros [_ []]; reflexivity|].
    intros i k n (Hn & Hk & Hnn & _). apply getZ_elem, list_elem_of_singleton in Hn as ->. by injection Hk as <-.
  - exists n. split; [exact E|]. apply (Hm 2); [split; discriminate|vm_compute; reflexivity].
Defined.
