(* ===== verification/Auxlib.v ===== *)
(** * The auxiliary library (lauxlib.c)

    What the C functions of the libraries are written with: errors, the
    arguments of a call, string buffers, references.  The arguments of the
    running C function are the list [args]; what depends on the call itself
    (the name it was called by, the position in the caller) and on the C
    library ([sprintf], [BUFSIZ]) is a parameter. *)

From S2P Require Import Prelude Clib Object Lex Table Rawtable.

(** ** The environment of a C function *)

(** The argument of a conversion of [sprintf]; the overflows are what the
    machine makes of a number that does not fit in the integer type. *)
Inductive fmtarg :=
| FInt (z : Z)
| FLong (z : Z)
| FULong (z : Z)
| FDouble (n : lua_Number)
| FString (s : bytes)
| FPointer (p : Z).

Class Cenv := {
  sprintf : bytes -> fmtarg -> bytes;
  BUFSIZ : Z;
  int_overflow : lua_Number -> Z;
  long_overflow : lua_Number -> Z;
  ulong_overflow : lua_Number -> Z
}.

(** [lua_getstack], [lua_getinfo] for the running function ([namewhat],
    [name]), and the text of [luaL_where] for its level *)
Class Frame := {
  in_frame : bool;
  namewhat : bytes;
  name : option bytes;
  luaL_where : bytes
}.

Definition LUA_TNONE : Z := -1.

Definition luaT_typenames : list bytes :=
  [str "nil"; str "boolean"; str "userdata"; str "number"; str "string"; str "table"; str "function";
   str "userdata"; str "thread"; str "proto"; str "upval"].

Definition lua_typename (t : Z) : bytes :=
  if t =? LUA_TNONE then str "no value" else default [] (getZ luaT_typenames t).

(** [lua_type(L, n)], for an argument *)
Definition lua_type (args : list TValue) (n : Z) : Z :=
  match getZ args (n - 1) with Some v => ttype v | None => LUA_TNONE end.

Definition luaL_typename (args : list TValue) (n : Z) : bytes := lua_typename (lua_type args n).

Definition lua_isnoneornil (args : list TValue) (n : Z) : bool := lua_type args n <=? LUA_TNIL.

(** [LUA_QS] around a name *)
Definition qs (s : bytes) : bytes := str "'" ++ s ++ str "'".

(** ** Conversions (lapi.c, lvm.c) *)

Definition pushinteger (z : Z) : TValue := VNumber (cast_num z).

Definition luaV_tonumber (o : TValue) : option lua_Number :=
  match o with
  | VNumber n => Some n
  | VString s => luaO_str2d s
  | _ => None
  end.

Section aux.
Context `{Cenv} `{Frame}.

(** [lua_number2str(s, n)] *)
Definition lua_number2str (n : lua_Number) : bytes := sprintf (str "%.14g") (FDouble n).

(** A number as an integer from [lo] to [hi] *)
Definition cast_to (lo hi : Z) (overflow : lua_Number -> Z) (n : lua_Number) : Z :=
  match trunc n with
  | Some z => if (lo <=? z) && (z <? hi) then z else overflow n
  | None => overflow n
  end.

(** [lua_number2integer(res, n)]: [lua_Integer] is [ptrdiff_t]. *)
Definition lua_number2integer (n : lua_Number) : Z := cast_to (- 2 ^ 63) (2 ^ 63) long_overflow n.

(** [lua_number2int(i, d)] *)
Definition lua_number2int (n : lua_Number) : Z := cast_to (- 2 ^ 31) (2 ^ 31) int_overflow n.

Definition luaV_tostring (o : TValue) : option bytes :=
  match o with
  | VString s => Some s
  | VNumber n => Some (cstr (lua_number2str n))
  | _ => None
  end.

Definition lua_tonumber (o : TValue) : lua_Number := default (cast_num 0) (luaV_tonumber o).
Definition lua_tointeger (o : TValue) : Z :=
  match luaV_tonumber o with Some n => lua_number2integer n | None => 0 end.

(** ** Errors *)

Definition luaL_error {A} (msg : bytes) : outcome A := Throw LUA_ERRRUN (luaL_where ++ msg).

Definition luaL_argerror {A} (narg : Z) (extramsg : bytes) : outcome A :=
  if negb in_frame then luaL_error (str "bad argument #" ++ fmt_d narg ++ str " (" ++ extramsg ++ str ")")
  else
    let method := bool_decide (namewhat = str "method") in
    let narg := if method then narg - 1 else narg in
    if method && (narg =? 0) then
      luaL_error (str "calling " ++ qs (default (str "(null)") name) ++ str " on bad self (" ++ extramsg ++ str ")")
    else
      luaL_error (str "bad argument #" ++ fmt_d narg ++ str " to " ++ qs (default (str "?") name)
        ++ str " (" ++ extramsg ++ str ")").

Definition luaL_typerror {A} (args : list TValue) (narg : Z) (tname : bytes) : outcome A :=
  luaL_argerror narg (tname ++ str " expected, got " ++ luaL_typename args narg).

Definition tag_error {A} (args : list TValue) (narg tag : Z) : outcome A :=
  luaL_typerror args narg (lua_typename tag).

(** ** Arguments *)

Definition luaL_checktype (args : list TValue) (narg t : Z) : outcome unit :=
  if negb (lua_type args narg =? t) then tag_error args narg t else Ret tt.

Definition luaL_checkany (args : list TValue) (narg : Z) : outcome unit :=
  if lua_type args narg =? LUA_TNONE then luaL_argerror narg (str "value expected") else Ret tt.

Definition luaL_argcheck (cond : bool) (narg : Z) (extramsg : bytes) : outcome unit :=
  if cond then Ret tt else luaL_argerror narg extramsg.

Definition luaL_checklstring (args : list TValue) (narg : Z) : outcome bytes :=
  match getZ args (narg - 1) with
  | Some VNullString => Undef
  | Some o => match luaV_tostring o with Some s => Ret s | None => tag_error args narg LUA_TSTRING end
  | None => tag_error args narg LUA_TSTRING
  end.

Definition luaL_optlstring (args : list TValue) (narg : Z) (def : bytes) : outcome bytes :=
  if lua_isnoneornil args narg then Ret def else luaL_checklstring args narg.

Definition luaL_checknumber (args : list TValue) (narg : Z) : outcome lua_Number :=
  match getZ args (narg - 1) with
  | Some VNullString => Undef
  | Some o =>
      let d := lua_tonumber o in
      if luai_numeq d (cast_num 0) && bool_decide (luaV_tonumber o = None)
      then tag_error args narg LUA_TNUMBER else Ret d
  | None => tag_error args narg LUA_TNUMBER
  end.

Definition luaL_checkinteger (args : list TValue) (narg : Z) : outcome Z :=
  match getZ args (narg - 1) with
  | Some VNullString => Undef
  | Some o =>
      let d := lua_tointeger o in
      if (d =? 0) && bool_decide (luaV_tonumber o = None)
      then tag_error args narg LUA_TNUMBER else Ret d
  | None => tag_error args narg LUA_TNUMBER
  end.

Definition luaL_optinteger (args : list TValue) (narg def : Z) : outcome Z :=
  if lua_isnoneornil args narg then Ret def else luaL_checkinteger args narg.

Definition luaL_checkint (args : list TValue) (narg : Z) : outcome Z :=
  n ← luaL_checkinteger args narg; Ret (i32 n).

Definition luaL_optint (args : list TValue) (narg def : Z) : outcome Z :=
  n ← luaL_optinteger args narg def; Ret (i32 n).

(** [lst] is the array of the options without its terminator. *)
Fixpoint find_option (lst : list bytes) (name : bytes) (i : Z) : option Z :=
  match lst with
  | [] => None
  | o :: lst => if bool_decide (cstr o = cstr name) then Some i else find_option lst name (i + 1)
  end.

Definition luaL_checkoption (args : list TValue) (narg : Z) (def : option bytes) (lst : list bytes) : outcome Z :=
  name ← match def with Some d => luaL_optlstring args narg d | None => luaL_checklstring args narg end;
  match find_option lst name 0 with
  | Some i => Ret i
  | None => luaL_argerror narg (str "invalid option " ++ qs (cstr name))
  end.

Definition LUAI_MAXCSTACK : Z := 8000.

(** [used] is the number of values the function has on the stack. *)
Definition luaL_checkstack (used space : Z) (mes : bytes) : outcome unit :=
  if (LUAI_MAXCSTACK <? space) || (LUAI_MAXCSTACK <? used + space)
  then luaL_error (str "stack overflow (" ++ mes ++ str ")") else Ret tt.

(** ** Buffers

    [buf] is the used part of [buffer]; [stk] are the [lvl] strings of the
    buffer on the stack, the top first. *)
Record luaL_Buffer := mkBuffer { buf : bytes; stk : list bytes }.

Definition LUA_MINSTACK : Z := 20.
Definition LIMIT : Z := LUA_MINSTACK / 2.
Definition LUAL_BUFFERSIZE : Z := BUFSIZ.

Definition bufflen (B : luaL_Buffer) : Z := lenZ (buf B).
Definition bufffree (B : luaL_Buffer) : Z := LUAL_BUFFERSIZE - bufflen B.
Definition lvl (B : luaL_Buffer) : Z := lenZ (stk B).

Definition luaL_buffinit : luaL_Buffer := mkBuffer [] [].

Definition emptybuffer (B : luaL_Buffer) : bool * luaL_Buffer :=
  if bufflen B =? 0 then (false, B) else (true, mkBuffer [] (buf B :: stk B)).

(** [lua_concat(L, n)] on strings *)
Definition lua_concat (n : Z) (l : list bytes) : list bytes :=
  if n =? 0 then [] :: l
  else concat (rev (take (Z.to_nat n) l)) :: drop (Z.to_nat n) l.

(** The levels below [toget], to the number of levels to concat *)
Fixpoint adjust_loop (l : list bytes) (lvl toget toplen : Z) : Z :=
  match l with
  | [] => toget
  | s :: l =>
      if (LIMIT <=? lvl - toget + 1) || (lenZ s <? toplen)
      then adjust_loop l lvl (toget + 1) (toplen + lenZ s)
      else toget
  end.

Definition adjuststack (B : luaL_Buffer) : luaL_Buffer :=
  match stk B with
  | top :: rest =>
      if 1 <? lvl B then
        mkBuffer (buf B) (lua_concat (adjust_loop rest (lvl B) 1 (lenZ top)) (stk B))
      else B
  | [] => B
  end.

Definition luaL_prepbuffer (B : luaL_Buffer) : luaL_Buffer :=
  let '(e, B) := emptybuffer B in if e then adjuststack B else B.

Definition luaL_addchar (B : luaL_Buffer) (c : Z) : luaL_Buffer :=
  let B := if bufflen B <? LUAL_BUFFERSIZE then B else luaL_prepbuffer B in
  mkBuffer (buf B ++ [c]) (stk B).

Fixpoint luaL_addlstring (B : luaL_Buffer) (s : bytes) : luaL_Buffer :=
  match s with
  | [] => B
  | c :: s => luaL_addlstring (luaL_addchar B c) s
  end.

Definition luaL_addstring (B : luaL_Buffer) (s : bytes) : luaL_Buffer := luaL_addlstring B (cstr s).

(** The value is the string on the top of the stack. *)
Definition luaL_addvalue (B : luaL_Buffer) (s : bytes) : luaL_Buffer :=
  if lenZ s <=? bufffree B then mkBuffer (buf B ++ s) (stk B)
  else
    let B := snd (emptybuffer B) in
    adjuststack (mkBuffer (buf B) (s :: stk B)).

(** The string that is left on the stack *)
Definition luaL_pushresult (B : luaL_Buffer) : bytes :=
  let B := snd (emptybuffer B) in
  default [] (head (lua_concat (lvl B) (stk B))).

(** ** [luaL_gsub] *)

(** [strstr(s, p)]: what is before the first occurrence and what is after it *)
Fixpoint strip_prefix (p s : bytes) : option bytes :=
  match p, s with
  | [], _ => Some s
  | c :: p, d :: s => if c =? d then strip_prefix p s else None
  | _, [] => None
  end.

Fixpoint strstr (s p : bytes) : option (bytes * bytes) :=
  match strip_prefix p s with
  | Some r => Some ([], r)
  | None =>
      match s with
      | [] => None
      | c :: s => match strstr s p with Some (a, b) => Some (c :: a, b) | None => None end
      end
  end.

Fixpoint gsub_loop (fuel : nat) (B : luaL_Buffer) (s p r : bytes) : outcome luaL_Buffer :=
  match strstr s p with
  | None => Ret (luaL_addstring B s)
  | Some (pre, post) =>
      match fuel with
      | O => Nofuel
      | S fuel => gsub_loop fuel (luaL_addstring (luaL_addlstring B pre) r) post p r
      end
  end.

Definition luaL_gsub (s p r : bytes) : outcome bytes :=
  B ← gsub_loop (length s) luaL_buffinit (cstr s) (cstr p) r;
  Ret (cstr (luaL_pushresult B)).
End aux.

(** ** References *)

Definition FREELIST_REF : Z := 0.
Definition LUA_REFNIL : Z := -1.
Definition LUA_NOREF : Z := -2.

Section refs.
Context {T} `{RawTable T} `{Cenv}.

(** On a table with the operations [lua_rawgeti], [lua_rawseti] and
    [lua_objlen]: the reference, and the table with the value *)
Definition luaL_ref (t : T) (v : TValue) : outcome (Z * T) :=
  if ttisnil v then Ret (LUA_REFNIL, t)
  else
    w ← raw_geti t FREELIST_REF;
    let ref := i32 (lua_tointeger w) in
    '(ref, t) ← (if negb (ref =? 0) then
        w ← raw_geti t ref;
        t ← raw_seti t FREELIST_REF w;
        Ret (ref, t)
      else
        n ← raw_getn t;
        Ret (n + 1, t));
    t ← raw_seti t ref v;
    Ret (ref, t).

Definition luaL_unref (t : T) (ref : Z) : outcome T :=
  if 0 <=? ref then
    w ← raw_geti t FREELIST_REF;
    t ← raw_seti t ref w;
    raw_seti t FREELIST_REF (VNumber (cast_num ref))
  else Ret t.
End refs.
