(* ===== verification/AuxFacts.v ===== *)
(** * The auxiliary library: buffers and references

    A buffer is the string of its additions; references are distinct. *)

From S2P Require Import Prelude Clib Object Lex Table Rawtable Auxlib.
From S2P Require Import TableNum TableOps TableWalk TableProps.

Lemma lenZ_0 {A} (l : list A) : lenZ l = 0 -> l = [].
Proof. destruct l as [|x l]; [done|]. rewrite lenZ_cons. pose proof (lenZ_nonneg l). lia. Qed.

Section buffers.
Context `{Cenv}.

(** ** Buffers *)

Definition contents (B : luaL_Buffer) : bytes := concat (rev (stk B)) ++ buf B.

Lemma lua_concat_contents n l : concat (rev (lua_concat n l)) = concat (rev l).
Proof.
  unfold lua_concat. destruct (n =? 0); cbn [rev]; rewrite concat_app; cbn [concat]; rewrite ?app_nil_r.
  - done.
  - rewrite <- (take_drop (Z.to_nat n) l) at 3. by rewrite rev_app_distr, concat_app.
Qed.

Lemma emptybuffer_contents B : contents (snd (emptybuffer B)) = contents B.
Proof.
  unfold emptybuffer, contents. destruct (bufflen B =? 0); [done|]. cbn [snd stk buf rev].
  rewrite concat_app. cbn [concat]. by rewrite !app_nil_r.
Qed.

Lemma adjuststack_contents B : contents (adjuststack B) = contents B.
Proof.
  unfold adjuststack. destruct (stk B) as [|top rest] eqn:E; [done|].
  destruct (1 <? lvl B); [|done]. unfold contents. cbn [stk buf]. by rewrite lua_concat_contents, E.
Qed.

Lemma prepbuffer_contents B : contents (luaL_prepbuffer B) = contents B.
Proof.
  unfold luaL_prepbuffer. pose proof (emptybuffer_contents B) as E.
  destruct (emptybuffer B) as [[] B']; cbn [snd] in E; [by rewrite adjuststack_contents|done].
Qed.

Lemma addchar_contents B c : contents (luaL_addchar B c) = contents B ++ [c].
Proof.
  unfold luaL_addchar. set (B' := if bufflen B <? LUAL_BUFFERSIZE then B else luaL_prepbuffer B).
  assert (E : contents B' = contents B) by (unfold B'; case_if; [done|apply prepbuffer_contents]).
  rewrite <- E. unfold contents. cbn. by rewrite app_assoc.
Qed.

Lemma addlstring_contents s B : contents (luaL_addlstring B s) = contents B ++ s.
Proof.
  revert B. induction s as [|c s IH]; intros B; cbn [luaL_addlstring]; [by rewrite app_nil_r|].
  by rewrite IH, addchar_contents, <- app_assoc.
Qed.

Lemma addvalue_contents B s : contents (luaL_addvalue B s) = contents B ++ s.
Proof.
  unfold luaL_addvalue. case_if; [unfold contents; cbn; by rewrite app_assoc|].
  rewrite adjuststack_contents. pose proof (emptybuffer_contents B) as E.
  assert (Eb : buf (snd (emptybuffer B)) = []).
  { unfold emptybuffer, bufflen. destruct (Z.eqb_spec (lenZ (buf B)) 0) as [E0|]; [|done].
    by apply lenZ_0. }
  rewrite <- E. unfold contents. rewrite Eb. cbn [stk buf rev]. rewrite concat_app. cbn [concat].
  by rewrite !app_nil_r.
Qed.

Lemma pushresult_contents B : luaL_pushresult B = contents B.
Proof.
  unfold luaL_pushresult. rewrite <- (emptybuffer_contents B).
  assert (Eb : buf (snd (emptybuffer B)) = []).
  { unfold emptybuffer, bufflen. destruct (Z.eqb_spec (lenZ (buf B)) 0) as [E0|]; [|done].
    by apply lenZ_0. }
  unfold contents. rewrite Eb, app_nil_r. set (B' := snd _). unfold lua_concat, lvl.
  destruct (Z.eqb_spec (lenZ (stk B')) 0) as [E0|]; cbn [head default].
  - by rewrite (lenZ_0 _ E0).
  - unfold lenZ. rewrite Nat2Z.id, take_ge by lia. done.
Qed.

(** The limits of a buffer *)
Record buffer_ok (B : luaL_Buffer) : Prop := {
bo_buf : bufflen B <= LUAL_BUFFERSIZE;
bo_lvl : lvl B < LIMIT
}.

Lemma adjust_loop_range l lv toget toplen :
  lv = lenZ l + toget -> 1 <= toget ->
  toget <= adjust_loop l lv toget toplen <= lv /\
  (lv - adjust_loop l lv toget toplen + 1 < LIMIT \/ adjust_loop l lv toget toplen = lv).
Proof.
  revert toget toplen. induction l as [|s l IH]; intros toget toplen E Ht; cbn [adjust_loop].
  - unfold lenZ in E. cbn in E. lia.
  - rewrite lenZ_cons in E. pose proof (lenZ_nonneg l). case_if.
    + specialize (IH (toget + 1) (toplen + lenZ s)). lia.
    + bool_facts. lia.
Qed.

Lemma lua_concat_lvl n l : 1 <= n <= lenZ l -> lenZ (lua_concat n l) = lenZ l - n + 1.
Proof.
  intros Hn. unfold lua_concat. rewrite (proj2 (Z.eqb_neq n 0)) by lia.
  rewrite lenZ_cons. unfold lenZ in *. rewrite length_drop. lia.
Qed.

Lemma adjuststack_ok B : bufflen B <= LUAL_BUFFERSIZE -> buffer_ok (adjuststack B).
Proof.
  intros Hb. unfold adjuststack. destruct (stk B) as [|top rest] eqn:E.
  { split; [done|]. unfold lvl. by rewrite E. }
  assert (El : lvl B = lenZ rest + 1) by (unfold lvl; by rewrite E, lenZ_cons).
  destruct (Z.ltb_spec 1 (lvl B)).
  - destruct (adjust_loop_range rest (lvl B) 1 (lenZ top)) as [H1 H2]; [lia|lia|].
    split; [done|]. unfold lvl at 1. cbn [stk]. change LIMIT with 10 in *.
    rewrite lua_concat_lvl; [|rewrite lenZ_cons; lia].
    rewrite lenZ_cons. lia.
  - split; [done|]. change LIMIT with 10. lia.
Qed.

Lemma emptybuffer_buf B : bufflen (snd (emptybuffer B)) = 0.
Proof. unfold emptybuffer. destruct (Z.eqb_spec (bufflen B) 0); done. Qed.

Lemma addchar_ok B c : 0 < BUFSIZ -> buffer_ok B -> buffer_ok (luaL_addchar B c).
Proof.
  intros HB [Hb Hl]. unfold luaL_addchar. set (B' := if bufflen B <? LUAL_BUFFERSIZE then B else luaL_prepbuffer B).
  assert (Hok : buffer_ok B' /\ bufflen B' < LUAL_BUFFERSIZE).
  { unfold B'. destruct (Z.ltb_spec (bufflen B) LUAL_BUFFERSIZE); [by repeat split|].
    unfold luaL_prepbuffer. pose proof (emptybuffer_buf B) as E0. unfold emptybuffer in *.
    destruct (Z.eqb_spec (bufflen B) 0); [unfold LUAL_BUFFERSIZE in *; lia|].
    split; [apply adjuststack_ok; unfold LUAL_BUFFERSIZE; cbn in *; lia|].
    unfold adjuststack. cbn [stk snd]. case_if; exact HB. }
  destruct Hok as [[H1 H2] H3]. split; [|done]. unfold bufflen in *. cbn [buf].
  rewrite lenZ_app. change (lenZ [c]) with 1. lia.
Qed.

Lemma addlstring_ok s B : 0 < BUFSIZ -> buffer_ok B -> buffer_ok (luaL_addlstring B s).
Proof.
  intros HB. revert B. induction s as [|c s IH]; intros B Hok; cbn [luaL_addlstring]; [done|].
  by apply IH, addchar_ok.
Qed.

Lemma addvalue_ok B s : 0 < BUFSIZ -> buffer_ok B -> buffer_ok (luaL_addvalue B s).
Proof.
  intros HB [Hb Hl]. unfold luaL_addvalue. destruct (Z.leb_spec (lenZ s) (bufffree B)) as [Hs|Hs].
  - split; [|done]. unfold bufffree, bufflen in *. cbn [buf]. rewrite lenZ_app. lia.
  - apply adjuststack_ok. pose proof (emptybuffer_buf B) as E0. unfold bufflen in *. cbn [buf].
    unfold LUAL_BUFFERSIZE. lia.
Qed.

(** *** Any sequence of additions *)

Inductive addition :=
| AddChar (c : Z)
| AddLString (s : bytes)
| AddString (s : bytes)
| AddValue (s : bytes).

Definition add (B : luaL_Buffer) (a : addition) : luaL_Buffer :=
  match a with
  | AddChar c => luaL_addchar B c
  | AddLString s => luaL_addlstring B s
  | AddString s => luaL_addstring B s
  | AddValue s => luaL_addvalue B s
  end.

Definition added (a : addition) : bytes :=
  match a with
  | AddChar c => [c]
  | AddLString s | AddValue s => s
  | AddString s => cstr s
  end.

(** C25: A string buffer holds the concatenation of what is added to it, in
    whatever pieces it lies in the buffer and on the stack; the buffer never
    has more than LUAL_BUFFERSIZE characters, and less than LIMIT strings of
    it are on the stack between additions. *)
Theorem buffer_concatenates (l : list addition) :
  0 < BUFSIZ ->
  let B := fold_left add l luaL_buffinit in
  buffer_ok B /\ luaL_pushresult B = concat (added <$> l).
Proof.
  intros HB. cbv zeta. rewrite pushresult_contents.
  change (concat (added <$> l)) with (contents luaL_buffinit ++ concat (added <$> l)).
  assert (Hok : buffer_ok luaL_buffinit) by (split; [change (0 <= BUFSIZ); lia|done]).
  revert Hok. generalize luaL_buffinit. induction l as [|a l IH]; intros B Hok; cbn [fold_left].
  - by rewrite app_nil_r.
  - rewrite fmap_cons. cbn [concat]. rewrite app_assoc.
    assert (E : contents (add B a) = contents B ++ added a).
    { destruct a; cbn [add added]; [apply addchar_contents|apply addlstring_contents|
        apply addlstring_contents|apply addvalue_contents]. }
    rewrite <- E. apply IH. destruct a; cbn [add]; [by apply addchar_ok|by apply addlstring_ok|
      by apply addlstring_ok|by apply addvalue_ok].
Qed.
End buffers.

(** ** References *)

Section references.
Context {T : Type} `{RawTable T} `{Cenv}.

Lemma tointeger_num z : is_i32 z -> lua_tointeger (VNumber (cast_num z)) = z.
Proof.
  intros Hz. unfold lua_tointeger, luaV_tonumber, lua_number2integer, cast_to.
  rewrite trunc_cast_num by (by apply small_i32). unfold is_i32 in Hz.
  by rewrite (proj2 (Z.leb_le _ _)), (proj2 (Z.ltb_lt _ _)) by lia.
Qed.

Lemma freelist_i32 : is_i32 FREELIST_REF.
Proof. unfold is_i32, FREELIST_REF. lia. Qed.

(** The free references, linked from [x] *)
Fixpoint freelist (f : Z -> TValue) (x : Z) (l : list Z) : Prop :=
  match l with
  | [] => f x = VNil
  | y :: l => f x = VNumber (cast_num y) /\ freelist f y l
  end.

Lemma freelist_frame f g x y l :
  f x = g y -> (forall z, z ∈ l -> f z = g z) -> freelist f x l -> freelist g y l.
Proof.
  revert x y. induction l as [|z l IH]; intros x y E Hl; cbn [freelist]; [by rewrite E|].
  rewrite E. intros [H1 H2]. split; [done|]. apply (IH z z); [|intros w Hw|done].
  - apply Hl, elem_of_cons. by left.
  - apply Hl, elem_of_cons. by right.
Qed.

(** A table of references: the indices from 1 to [n] are in use or free. *)
Record refs_ok (t : T) (live free : list Z) (n : Z) : Prop := {
ro_wf : raw_wf t;
ro_range : 0 <= n <= INT_MAX;
ro_part : live ++ free ≡ₚ Z.of_nat <$> seq 1 (Z.to_nat n);
ro_free : freelist (raw_at t) FREELIST_REF free;
ro_live : forall r, r ∈ live -> raw_at t r <> VNil;
ro_rest : forall j, n < j -> is_i32 j -> raw_at t j = VNil
}.

Section state.
Context (t : T) (live free : list Z) (n : Z) (Hok : refs_ok t live free n).

Lemma ref_range r : r ∈ live ++ free -> 1 <= r <= n.
Proof using Hok.
  rewrite (ro_part _ _ _ _ Hok). intros (i & -> & Hi%elem_of_seq)%list_elem_of_fmap.
  pose proof (ro_range _ _ _ _ Hok). lia.
Qed.

Lemma refs_NoDup : NoDup (live ++ free).
Proof using Hok.
  rewrite (ro_part _ _ _ _ Hok). apply NoDup_fmap_2; [intros x y E; lia|apply list.NoDup_seq].
Qed.

Lemma ref_i32 r : 0 <= r <= n -> is_i32 r.
Proof using Hok.
  pose proof (ro_range _ _ _ _ Hok) as Hr. unfold INT_MAX in Hr. unfold is_i32. lia.
Qed.

Lemma in_free r : r ∈ free -> 1 <= r <= n.
Proof using Hok. intros Hr. apply ref_range, elem_of_app. by right. Qed.

Lemma in_live r : r ∈ live -> 1 <= r <= n.
Proof using Hok. intros Hr. apply ref_range, elem_of_app. by left. Qed.
End state.

(** Without free references the length is their number. *)
Lemma refs_getn t live n : refs_ok t live [] n -> raw_getn t = Ret n /\ n < INT_MAX.
Proof.
  intros Hok. destruct (raw_getn_spec t (ro_wf _ _ _ _ Hok)) as (m & Hm & Hr & Hp & Hnil).
  assert (m = n) as ->; [|split; [done|lia]]. pose proof (ro_range _ _ _ _ Hok) as Hn.
  destruct (Z.lt_trichotomy m n) as [Hl|[|Hl]]; [|done|].
  - exfalso. apply (ro_live _ _ _ _ Hok (m + 1)); [|done].
    assert (Hin : m + 1 ∈ live ++ []); [|by rewrite app_nil_r in Hin].
    rewrite (ro_part _ _ _ _ Hok). apply list_elem_of_fmap. exists (Z.to_nat (m + 1)).
    split; [lia|]. apply elem_of_seq. lia.
  - exfalso. destruct Hp as [|Hp]; [lia|]. apply Hp, (ro_rest _ _ _ _ Hok); [done|].
    unfold is_i32. unfold INT_MAX in Hr. lia.
Qed.

(** What a reference operation leaves of the others *)
Definition same_refs (t t' : T) (l : list Z) : Prop := forall r, r ∈ l -> raw_at t' r = raw_at t r.

(** The new reference is the one that was released last, and the list of free
    references goes on after it; when none is free it is the next index. *)
Definition ref_made (t : T) (live free : list Z) (n : Z) (v : TValue) (x : outcome (Z * T)) : Prop :=
  match x with
  | Ret (r, t') => (r ∉ live) /\ 1 <= r /\ raw_at t' r = v /\ same_refs t t' live /\
      match free with
      | f :: free => r = f /\ refs_ok t' (r :: live) free n
      | [] => r = n + 1 /\ refs_ok t' (r :: live) [] (n + 1)
      end
  | Throw st e => st = LUA_ERRRUN /\ e = str "table overflow"
  | _ => False
  end.

Lemma ref_reused t live r free n v :
  refs_ok t live (r :: free) n -> v <> VNil -> ref_made t live (r :: free) n v (luaL_ref t v).
Proof.
  intros Hok Hv. pose proof (ro_wf _ _ _ _ Hok) as Hw. unfold luaL_ref.
  rewrite (proj2 (ttisnil_false v)), raw_geti_spec by (done || apply freelist_i32). cbn [mbind outcome_bind].
  pose proof (ro_free _ _ _ _ Hok) as [E0 Hfree]. rewrite E0.
  assert (Hr : 1 <= r <= n) by (eapply in_free; [exact Hok|apply elem_of_cons; by left]).
  pose proof (ref_i32 _ _ _ _ Hok r ltac:(lia)) as Hri.
  rewrite tointeger_num, i32_small by done. rewrite (proj2 (Z.eqb_neq r 0)) by lia. cbn [negb].
  rewrite raw_geti_spec by done. cbn [mbind outcome_bind].
  pose proof (raw_seti_spec t FREELIST_REF (raw_at t r) Hw freelist_i32) as Hs1.
  destruct (raw_seti t FREELIST_REF _) as [t1|st e| |]; cbn [mbind outcome_bind];
    try (destruct Hs1 as (-> & -> & _); done); try done.
  destruct Hs1 as [Hw1 Ha1].
  pose proof (raw_seti_spec t1 r v Hw1 Hri) as Hs2.
  destruct (raw_seti t1 r v) as [t2|st e| |]; cbn [mbind outcome_bind ref_made];
    try (destruct Hs2 as (-> & -> & _); done); try done.
  destruct Hs2 as [Hw2 Ha2].
  assert (Ha : forall j, 1 <= j <= n -> j <> r -> raw_at t2 j = raw_at t j).
  { intros j Hj Hne. pose proof (ref_i32 _ _ _ _ Hok j ltac:(lia)).
    rewrite Ha2, decide_False, Ha1, decide_False by (done || unfold FREELIST_REF; lia). done. }
  pose proof (refs_NoDup _ _ _ _ Hok) as Hnd. apply list.NoDup_app in Hnd as (_ & Hd & Hnf).
  apply list.NoDup_cons in Hnf as [Hrf _].
  assert (Hrl : r ∉ live) by (intros Hin; apply (Hd r Hin), elem_of_cons; by left).
  assert (Er : raw_at t2 r = v) by (by rewrite Ha2, decide_True).
  split; [done|]. split; [lia|]. split; [done|]. split.
  - intros x Hx. apply Ha; [by eapply in_live|]. by intros ->.
  - split; [done|]. split; [done|apply Hok| | | |].
    + rewrite <- (ro_part _ _ _ _ Hok). cbn [app]. by rewrite Permutation_middle.
    + eapply freelist_frame; [| |exact Hfree].
      * rewrite Ha2, decide_False, Ha1, decide_True by (done || unfold FREELIST_REF; lia). done.
      * intros z Hz. symmetry. apply Ha; [eapply in_free; [exact Hok|apply elem_of_cons; by right]|]. by intros ->.
    + intros x [->|Hx]%elem_of_cons; [by rewrite Er|]. rewrite Ha; [by apply Hok|by eapply in_live|by intros ->].
    + intros j Hj Hij. rewrite Ha2, decide_False, Ha1, decide_False by (done || unfold FREELIST_REF; lia).
      by apply (ro_rest _ _ _ _ Hok).
Qed.

Lemma ref_new t live n v :
  refs_ok t live [] n -> v <> VNil -> ref_made t live [] n v (luaL_ref t v).
Proof.
  intros Hok Hv. pose proof (ro_wf _ _ _ _ Hok) as Hw. unfold luaL_ref.
  rewrite (proj2 (ttisnil_false v)), raw_geti_spec by (done || apply freelist_i32). cbn [mbind outcome_bind].
  pose proof (ro_free _ _ _ _ Hok) as E0. cbn [freelist] in E0. rewrite E0.
  change (i32 (lua_tointeger VNil)) with 0. rewrite Z.eqb_refl. cbn [negb].
  destruct (refs_getn _ _ _ Hok) as [-> Hn]. cbn [mbind outcome_bind].
  pose proof (ro_range _ _ _ _ Hok) as Hr. unfold INT_MAX in *.
  assert (Hi : is_i32 (n + 1)) by (unfold is_i32; lia).
  pose proof (raw_seti_spec t (n + 1) v Hw Hi) as Hs.
  destruct (raw_seti t (n + 1) v) as [t'|st e| |]; cbn [mbind outcome_bind ref_made];
    try (destruct Hs as (-> & -> & _); done); try done.
  destruct Hs as [Hw' Ha].
  assert (Ha' : forall j, 0 <= j <= n -> raw_at t' j = raw_at t j).
  { intros j Hj. rewrite Ha, decide_False by (lia || by eapply ref_i32). done. }
  assert (Hnew : n + 1 ∉ live).
  { intros Hin. pose proof (in_live _ _ _ _ Hok _ Hin). lia. }
  split; [done|]. split; [lia|]. split; [by rewrite Ha, decide_True|]. split.
  - intros x Hx. apply Ha'. pose proof (in_live _ _ _ _ Hok _ Hx). lia.
  - split; [done|]. split; [done|unfold INT_MAX; lia| | | |].
    + pose proof (ro_part _ _ _ _ Hok) as Hp. cbn [app]. rewrite Hp. rewrite Z2Nat.inj_add by lia.
      change (Z.to_nat 1) with 1%nat. rewrite Nat.add_1_r, seq_S, fmap_app. cbn [fmap list_fmap].
      rewrite <- Permutation_cons_append. f_equiv. lia.
    + cbn [freelist]. rewrite Ha'; [done|]. unfold FREELIST_REF. lia.
    + intros x [->|Hx]%elem_of_cons; [by rewrite Ha, decide_True|].
      rewrite Ha'; [by apply Hok|]. pose proof (in_live _ _ _ _ Hok _ Hx). lia.
    + intros j Hj Hij. rewrite Ha, decide_False by (done || lia). apply (ro_rest _ _ _ _ Hok); [lia|done].
Qed.

Lemma unref_spec t live live' free n r :
  refs_ok t live free n -> live ≡ₚ r :: live' ->
  match luaL_unref t r with
  | Ret t' => refs_ok t' live' (r :: free) n /\ same_refs t t' live'
  | Throw st e => st = LUA_ERRRUN /\ e = str "table overflow"
  | _ => False
  end.
Proof.
  intros Hok Hp. pose proof (ro_wf _ _ _ _ Hok) as Hw.
  assert (Hin : r ∈ live) by (rewrite Hp; apply elem_of_cons; by left).
  pose proof (in_live _ _ _ _ Hok _ Hin) as Hr. pose proof (ref_i32 _ _ _ _ Hok r ltac:(lia)) as Hri.
  unfold luaL_unref. rewrite (proj2 (Z.leb_le 0 r)) by lia. rewrite raw_geti_spec by (done || apply freelist_i32).
  cbn [mbind outcome_bind]. pose proof (raw_seti_spec t r (raw_at t FREELIST_REF) Hw Hri) as Hs1.
  destruct (raw_seti t r _) as [t1|st e| |]; cbn [mbind outcome_bind];
    try (destruct Hs1 as (-> & -> & _); done); try done.
  destruct Hs1 as [Hw1 Ha1].
  pose proof (raw_seti_spec t1 FREELIST_REF (VNumber (cast_num r)) Hw1 freelist_i32) as Hs2.
  destruct (raw_seti t1 FREELIST_REF _) as [t2|st e| |];
    try (destruct Hs2 as (-> & -> & _); done); try (by apply Hs2).
  destruct Hs2 as [Hw2 Ha2].
  assert (Ha : forall j, 1 <= j -> is_i32 j -> j <> r -> raw_at t2 j = raw_at t j).
  { intros j Hj Hij Hne. rewrite Ha2, decide_False, Ha1, decide_False by (done || unfold FREELIST_REF; lia). done. }
  pose proof (refs_NoDup _ _ _ _ Hok) as Hnd. rewrite Hp in Hnd. cbn [app] in Hnd.
  apply list.NoDup_cons in Hnd as [Hrn _].
  assert (Hne : forall x, x ∈ live' \/ x ∈ free -> x <> r).
  { intros x Hx ->. apply Hrn, elem_of_app. done. }
  assert (Hold : forall x, x ∈ live' \/ x ∈ free -> raw_at t2 x = raw_at t x).
  { intros x Hx. assert (Hxr : 1 <= x <= n).
    { destruct Hx as [Hx|Hx]; [eapply in_live; [exact Hok|rewrite Hp; apply elem_of_cons; by right]|by eapply in_free]. }
    apply Ha; [lia|by eapply ref_i32; [exact Hok|lia]|by apply Hne]. }
  split; [split|].
  - done.
  - apply Hok.
  - rewrite <- (ro_part _ _ _ _ Hok), Hp. cbn [app]. by rewrite Permutation_middle.
  - cbn [freelist]. split; [by rewrite Ha2, decide_True|].
    eapply freelist_frame; [| |apply (ro_free _ _ _ _ Hok)].
    + rewrite Ha2, decide_False, Ha1, decide_True by (done || unfold FREELIST_REF; lia). done.
    + intros z Hz. symmetry. apply Hold. by right.
  - intros x Hx. rewrite Hold by (by left). apply Hok. rewrite Hp. apply elem_of_cons. by right.
  - intros j Hj Hij. rewrite Ha by (done || lia). by apply (ro_rest _ _ _ _ Hok).
  - intros x Hx. apply Hold. by left.
Qed.

(** C26: References are distinct: while the references [live] of a table are
    in use, [luaL_ref] gives another one that holds the value, and
    [luaL_unref] puts one of them at the head of the list [free] of released
    references, which is in the table itself.  [luaL_ref] takes the head of
    that list, and a new index only when the list is empty; the other
    references keep their values.  The only error is the overflow of the
    table. *)
Theorem luaL_ref_unique t live free n :
  refs_ok t live free n ->
  (forall v, v <> VNil -> ref_made t live free n v (luaL_ref t v)) /\
  (forall r live', live ≡ₚ r :: live' ->
     match luaL_unref t r with
     | Ret t' => refs_ok t' live' (r :: free) n /\ same_refs t t' live'
     | Throw st e => st = LUA_ERRRUN /\ e = str "table overflow"
     | _ => False
     end).
Proof.
  intros Hok. split.
  - intros v Hv. destruct free as [|r free]; [by eapply ref_new|by eapply ref_reused].
  - intros r live' Hp. by eapply unref_spec.
Qed.
End references.

(** ** Integer arguments *)

Section integers.
Context `{Cenv} `{Frame}.

Lemma tointeger_push z : is_i32 z -> lua_tointeger (pushinteger z) = z.
Proof. apply tointeger_num. Qed.

Lemma checkint_push args n z :
  getZ args (n - 1) = Some (pushinteger z) -> is_i32 z -> luaL_checkint args n = Ret z.
Proof.
  intros Hg Hz. unfold luaL_checkint, luaL_checkinteger. rewrite Hg. unfold pushinteger.
  change (luaV_tonumber (VNumber (cast_num z))) with (Some (cast_num z)).
  rewrite bool_decide_eq_false_2 by done. rewrite andb_false_r. change (VNumber (cast_num z)) with (pushinteger z).
  rewrite tointeger_push by done. cbn [mbind outcome_bind]. by rewrite i32_small.
Qed.

Lemma checkinteger_push args n z :
  getZ args (n - 1) = Some (pushinteger z) -> is_i32 z -> luaL_checkinteger args n = Ret z.
Proof.
  intros Hg Hz. unfold luaL_checkinteger. rewrite Hg. unfold pushinteger.
  change (luaV_tonumber (VNumber (cast_num z))) with (Some (cast_num z)).
  rewrite bool_decide_eq_false_2 by done. rewrite andb_false_r. change (VNumber (cast_num z)) with (pushinteger z).
  by rewrite tointeger_push.
Qed.

End integers.

(** ** Instances *)

#[local] Existing Instance toy_host.

#[local] Instance toy_env : Cenv := {|
  sprintf _ _ := [];
  BUFSIZ := 4;
  int_overflow _ := 0; long_overflow _ := 0; ulong_overflow _ := 0
|}.

Lemma buffer_concatenates_witness :
  luaL_pushresult (fold_left add [AddLString (str "hello "); AddValue (str "world"); AddChar 33] luaL_buffinit)
    = str "hello world!".
Proof.
  apply (buffer_concatenates [AddLString (str "hello "); AddValue (str "world"); AddChar 33]). reflexivity.
Defined.

Lemma empty_refs : refs_ok empty_table [] [] 0.
Proof.
  split; try done.
  - apply empty_represents.
  - intros r Hr. by apply not_elem_of_nil in Hr.
Qed.

(** A table with the references 1 (in use) and 2 (released) *)
Definition referring : outcome Table :=
  '(_, t) ← luaL_ref empty_table (VBoolean 1);
  '(r, t) ← luaL_ref t (VString (str "x"));
  luaL_unref t r.

Definition referring_table : Table := match referring with Ret t => t | _ => empty_table end.

(** The released reference is given out again. *)
Lemma luaL_ref_unique_witness :
  (exists t', luaL_ref referring_table (VNumber (cast_num 7)) = Ret (2, t')) /\
  ref_made referring_table [1] [2] 2 (VNumber (cast_num 7)) (luaL_ref referring_table (VNumber (cast_num 7))).
Proof.
  split; [eexists; vm_compute; reflexivity|].
  pose proof (proj1 (luaL_ref_unique empty_table [] [] 0 empty_refs) (VBoolean 1) ltac:(discriminate)) as H1.
  destruct (luaL_ref empty_table (VBoolean 1)) as [[r1 t1]| | |] eqn:E1; try (vm_compute in E1; discriminate E1).
  destruct H1 as (_ & _ & _ & _ & -> & H1).
  pose proof (proj1 (luaL_ref_unique t1 [1] [] 1 H1) (VString (str "x")) ltac:(discriminate)) as H2.
  assert (E2 : referring = ('(r, t) ← luaL_ref t1 (VString (str "x")); luaL_unref t r)) by (unfold referring; by rewrite E1).
  assert (E : exists t, referring = Ret t) by (eexists; vm_compute; reflexivity). destruct E as [t3 E].
  rewrite E in E2. destruct (luaL_ref t1 (VString (str "x"))) as [[r2 t2]| | |]; try discriminate E2.
  destruct H2 as (_ & _ & _ & _ & -> & H2). cbn [mbind outcome_bind] in E2.
  pose proof (proj2 (luaL_ref_unique t2 [2; 1] [] 2 H2) 2 [1] (Permutation_refl _)) as H3.
  change (1 + 1) with 2 in E2. rewrite <- E2 in H3. destruct H3 as [H3 _].
  assert (referring_table = t3) as -> by (unfold referring_table; by rewrite E).
  by apply (luaL_ref_unique t3 [1] [2] 2 H3).
Defined.
