(* ===== verification/Tablib.v ===== *)
(** * The table library (ltablib.c)

    The table of the first argument is in the state [T] of the program; a Lua
    function that is called back may change it.  [luaL_getn] is [lua_objlen]
    and [luaL_setn] does nothing (LUA_COMPAT_GETN is not defined). *)

From S2P Require Import Prelude Clib Object Lex Table Rawtable Auxlib.

(** [lua_next(L, 1)]: the next entry after a key *)
Class NextTable (T : Type) := { raw_next : T -> TValue -> outcome (option (TValue * TValue)) }.

#[export] Instance table_next `{Host} : NextTable Table := {| raw_next := luaH_next |}.

Section tablib.
Context {T : Type} `{RawTable T} `{NextTable T} `{Cenv} `{Frame}.

Abbreviation Lib := (ST T).

Definition rawgeti (i : Z) : Lib TValue := fun t => lift (raw_geti t i) t.
Definition rawseti (i : Z) (v : TValue) : Lib unit := fun t => t' ← raw_seti t i v; Ret (tt, t').
Definition objlen : Lib Z := fun t => lift (raw_getn t) t.
Definition next (k : TValue) : Lib (option (TValue * TValue)) := fun t => lift (raw_next t k) t.

Section call.
(** The arguments, and what a call of the function among them does *)
Variable args : list TValue.
Variable call : list TValue -> Lib TValue.

Definition arg (n : Z) : TValue := default VNil (getZ args (n - 1)).

Definition aux_getn : Lib Z := lift (luaL_checktype args 1 LUA_TTABLE);; n ← objlen; mret (i32 n).

(** [for (i=1; i <= n; i++)]: [k] values of [i] are left. *)
Fixpoint foreachi_loop (k : nat) (i : Z) : Lib (list TValue) :=
  match k with
  | O => mret []
  | S k =>
      v ← rawgeti i;
      r ← call [pushinteger i; v];
      if negb (ttisnil r) then mret [r] else foreachi_loop k (i + 1)
  end.

Definition foreachi : Lib (list TValue) :=
  n ← aux_getn;
  lift (luaL_checktype args 2 LUA_TFUNCTION);;
  foreachi_loop (Z.to_nat n) 1.

Fixpoint foreach_loop (fuel : nat) (k : TValue) : Lib (list TValue) :=
  e ← next k;
  match e with
  | None => mret []
  | Some (k, v) =>
      r ← call [k; v];
      if negb (ttisnil r) then mret [r]
      else match fuel with O => nofuel | S fuel => foreach_loop fuel k end
  end.

(** [fuel] is the number of entries. *)
Definition foreach (fuel : nat) : Lib (list TValue) :=
  lift (luaL_checktype args 1 LUA_TTABLE);;
  lift (luaL_checktype args 2 LUA_TFUNCTION);;
  foreach_loop fuel VNil.

Fixpoint maxn_loop (fuel : nat) (k : TValue) (max : lua_Number) : Lib lua_Number :=
  e ← next k;
  match e with
  | None => mret max
  | Some (k, _) =>
      let max := match k with
                 | VNumber v => if luai_numlt max v then v else max
                 | _ => max
                 end in
      match fuel with O => nofuel | S fuel => maxn_loop fuel k max end
  end.

Definition maxn (fuel : nat) : Lib (list TValue) :=
  lift (luaL_checktype args 1 LUA_TTABLE);;
  max ← maxn_loop fuel VNil (cast_num 0);
  mret [VNumber max].

Definition getn : Lib (list TValue) := n ← aux_getn; mret [pushinteger n].

Definition setn : Lib (list TValue) :=
  lift (luaL_checktype args 1 LUA_TTABLE);;
  lift (luaL_error (A := unit) (str "'setn' is obsolete"));;
  mret [arg 1].

(** ** Insertion and removal *)

(** [for (i = e; i > pos; i--)]: [k] values of [i] are left. *)
Fixpoint move_up (k : nat) (i : Z) : Lib unit :=
  match k with
  | O => mret tt
  | S k => v ← rawgeti (i - 1); rawseti i v;; move_up k (i - 1)
  end.

Definition tinsert : Lib (list TValue) :=
  n ← aux_getn;
  let e := n + 1 in
  let top := lenZ args in
  pos ← (if top =? 2 then mret e
    else if top =? 3 then
      pos ← lift (luaL_checkint args 2);
      let e := if e <? pos then pos else e in
      move_up (Z.to_nat (e - pos)) e;;
      mret pos
    else lift (luaL_error (str "wrong number of arguments to 'insert'")));
  rawseti pos (arg top);;
  mret [].

(** [for ( ;pos<e; pos++)] *)
Fixpoint move_down (k : nat) (pos : Z) : Lib unit :=
  match k with
  | O => mret tt
  | S k => v ← rawgeti (pos + 1); rawseti pos v;; move_down k (pos + 1)
  end.

Definition tremove : Lib (list TValue) :=
  e ← aux_getn;
  pos ← lift (luaL_optint args 2 e);
  if negb ((1 <=? pos) && (pos <=? e)) then mret []
  else
    result ← rawgeti pos;
    move_down (Z.to_nat (e - pos)) pos;;
    rawseti e VNil;;
    mret [result].

(** ** [table.concat] *)

Definition addfield (b : luaL_Buffer) (i : Z) : Lib luaL_Buffer :=
  v ← rawgeti i;
  match luaV_tostring v with
  | Some s => mret (luaL_addvalue b s)
  | None => lift (luaL_error (str "invalid value (" ++ lua_typename (ttype v) ++ str ") at index " ++ fmt_d i
      ++ str " in table for 'concat'"))
  end.

Fixpoint concat_loop (k : nat) (sep : bytes) (b : luaL_Buffer) (i : Z) : Lib luaL_Buffer :=
  match k with
  | O => mret b
  | S k => b ← addfield b i; concat_loop k sep (luaL_addlstring b sep) (i + 1)
  end.

Definition tconcat : Lib (list TValue) :=
  sep ← lift (luaL_optlstring args 2 []);
  lift (luaL_checktype args 1 LUA_TTABLE);;
  i ← lift (luaL_optint args 3 1);
  last ← (if lua_isnoneornil args 4 then n ← objlen; mret (i32 n) else lift (luaL_checkint args 4));
  b ← concat_loop (Z.to_nat (last - i)) sep luaL_buffinit i;
  let i := if i <? last then last else i in
  b ← (if i =? last then addfield b i else mret b);
  mret [VString (luaL_pushresult b)].

(** ** [table.sort] *)

(** [lua_lessthan] *)
Variable lessthan : TValue -> TValue -> Lib bool.

Definition sort_comp (a b : TValue) : Lib bool :=
  if negb (ttisnil (arg 2)) then r ← call [a; b]; mret (negb (l_isfalse r))
  else lessthan a b.

(** [set2(L, i, j)] with [vj] on the top of the stack and [vi] below it *)
Definition set2 (i j : Z) (vi vj : TValue) : Lib unit := rawseti i vj;; rawseti j vi.

Definition invalid_order {A} : Lib A := lift (luaL_error (str "invalid order function for sorting")).

(** [while (lua_rawgeti(L, 1, ++i), sort_comp(L, -1, -2))]: the index and the
    element of it where it stops *)
Fixpoint scan_up (fuel : nat) (P : TValue) (i u : Z) : Lib (Z * TValue) :=
  let i := i + 1 in
  v ← rawgeti i;
  c ← sort_comp v P;
  if (c : bool) then
    if u <? i then invalid_order
    else match fuel with O => nofuel | S fuel => scan_up fuel P i u end
  else mret (i, v).

Fixpoint scan_down (fuel : nat) (P : TValue) (j l : Z) : Lib (Z * TValue) :=
  let j := j - 1 in
  v ← rawgeti j;
  c ← sort_comp P v;
  if (c : bool) then
    if j <? l then invalid_order
    else match fuel with O => nofuel | S fuel => scan_down fuel P j l end
  else mret (j, v).

(** [for (;;)]: invariant: a[l..i] <= P <= a[j..u] *)
Fixpoint partition_loop (fuel : nat) (P : TValue) (l u i j : Z) : Lib Z :=
  '(i, ai) ← scan_up (Z.to_nat (u + 1 - i)) P i u;
  '(j, aj) ← scan_down (Z.to_nat (j - l + 1)) P j l;
  if j <? i then mret i
  else
    set2 i j ai aj;;
    match fuel with O => nofuel | S fuel => partition_loop fuel P l u i j end.

(** Sort the elements a[l], a[(l+u)/2] and a[u] and partition; the new
    position of the pivot, or nothing when the elements are sorted. *)
Definition partition (l u : Z) : Lib (option Z) :=
  al ← rawgeti l;
  au ← rawgeti u;
  c ← sort_comp au al;
  (if (c : bool) then set2 l u al au else mret tt);;
  if u - l =? 1 then mret None
  else
    let i := Z.quot (l + u) 2 in
    ai ← rawgeti i;
    al ← rawgeti l;
    c ← sort_comp ai al;
    (if (c : bool) then set2 i l ai al
     else
       au ← rawgeti u;
       c ← sort_comp au ai;
       if (c : bool) then set2 i u ai au else mret tt);;
    if u - l =? 2 then mret None
    else
      P ← rawgeti i;
      v ← rawgeti (u - 1);
      set2 i (u - 1) P v;;
      i ← partition_loop (Z.to_nat (u - l)) P l u l (u - 1);
      a ← rawgeti (u - 1);
      b ← rawgeti i;
      set2 (u - 1) i a b;;
      mret (Some i).

Fixpoint auxsort (fuel : nat) (l u : Z) : Lib unit :=
  if l <? u then
    match fuel with
    | O => nofuel
    | S fuel =>
        p ← partition l u;
        match p with
        | None => mret tt
        | Some i =>
            if i - l <? u - i then auxsort fuel l (i - 1);; auxsort fuel (i + 1) u
            else auxsort fuel (i + 1) u;; auxsort fuel l (i - 1)
        end
    end
  else mret tt.

Definition sort : Lib (list TValue) :=
  n ← aux_getn;
  lift (luaL_checkstack (lenZ args) 40 []);;
  (if negb (lua_isnoneornil args 2) then lift (luaL_checktype args 2 LUA_TFUNCTION) else mret tt);;
  auxsort (Z.to_nat n) 1 n;;
  mret [].
End call.
End tablib.
