(* ===== verification/TablibFacts.v ===== *)
(** * The table library: arrays and sorting

    What the functions of the library do to the fields of a table, seen as a
    function of the index. *)

From S2P Require Import Prelude Clib Object Lex Table Rawtable Auxlib Tablib.

(** ** Permutations of an interval *)

(** [g] is [f] with the places from [l] to [u] permuted. *)
Definition rearranged {A} (l u : Z) (f g : Z -> A) : Prop :=
  exists p : Z -> Z, (forall k, g k = f (p k)) /\ (forall i j, p i = p j -> i = j) /\
    (forall k, l <= k <= u -> l <= p k <= u) /\ (forall k, ~ l <= k <= u -> p k = k).

Section rearranged.
Context {A : Type}.
Implicit Types f g h : Z -> A.

Lemma rearranged_refl l u f : rearranged l u f f.
Proof. by exists (fun k => k). Qed.

Lemma rearranged_trans l u f g h : rearranged l u f g -> rearranged l u g h -> rearranged l u f h.
Proof.
  intros (p & P1 & P2 & P3 & P4) (q & Q1 & Q2 & Q3 & Q4). exists (fun k => p (q k)). split_and!.
  - intros k. by rewrite Q1, P1.
  - auto.
  - auto.
  - intros k Hk. rewrite Q4 by done. auto.
Qed.

Lemma rearranged_wider l u l' u' f g : l' <= l -> u <= u' -> rearranged l u f g -> rearranged l' u' f g.
Proof.
  intros Hl Hu (p & P1 & P2 & P3 & P4). exists p. split_and!; [done|done| |].
  - intros k Hk. destruct (decide (l <= k <= u)) as [Hi|Hi]; [apply P3 in Hi; lia|by rewrite P4].
  - intros k Hk. apply P4. lia.
Qed.

Lemma rearranged_out l u f g k : rearranged l u f g -> ~ l <= k <= u -> g k = f k.
Proof. intros (p & P1 & _ & _ & P4) Hk. by rewrite P1, P4. Qed.

Lemma rearranged_all l u f g (Q : A -> Prop) :
  rearranged l u f g -> (forall k, l <= k <= u -> Q (f k)) -> forall k, l <= k <= u -> Q (g k).
Proof. intros (p & P1 & _ & P3 & _) Hf k Hk. rewrite P1. auto. Qed.

Definition swap f (i j : Z) : Z -> A := fun k => if decide (k = i) then f j else if decide (k = j) then f i else f k.

Lemma swap_rearranged l u f i j : l <= i <= u -> l <= j <= u -> rearranged l u f (swap f i j).
Proof.
  intros Hi Hj. exists (fun k => if decide (k = i) then j else if decide (k = j) then i else k). split_and!.
  - intros k. unfold swap. by repeat case_decide.
  - intros a b. repeat case_decide; lia.
  - intros k Hk. repeat case_decide; lia.
  - intros k Hk. repeat case_decide; lia.
Qed.

Lemma swap_l f i j : swap f i j i = f j.
Proof. unfold swap. by rewrite decide_True. Qed.

Lemma swap_r f i j : swap f i j j = f i.
Proof. unfold swap. repeat case_decide; congruence. Qed.

Lemma swap_ne f i j k : k <> i -> k <> j -> swap f i j k = f k.
Proof. intros. unfold swap. by rewrite !decide_False. Qed.

(** The elements of an interval *)
Definition elements f (l u : Z) : list A := f <$> ((fun i => l + Z.of_nat i) <$> seq 0 (Z.to_nat (u - l + 1))).

Lemma elements_length f l u : lenZ (elements f l u) = Z.max 0 (u - l + 1).
Proof. unfold lenZ, elements. rewrite !length_fmap, length_seq. lia. Qed.

Lemma elements_at f l u k : l <= k <= u -> getZ (elements f l u) (k - l) = Some (f k).
Proof.
  intros Hk. unfold getZ, elements. rewrite (proj2 (Z.leb_le _ _)) by lia.
  rewrite !list_lookup_fmap, lookup_seq_lt by lia. cbn. do 2 f_equal. lia.
Qed.

Lemma elements_ext f g l u : (forall k, l <= k <= u -> f k = g k) -> elements f l u = elements g l u.
Proof.
  intros Hfg. apply list_fmap_ext. intros i k Hk. apply list_lookup_fmap_Some in Hk as (j & -> & Hj).
  apply lookup_seq in Hj. apply Hfg. lia.
Qed.

Lemma rearranged_elements l u f g : rearranged l u f g -> elements g l u ≡ₚ elements f l u.
Proof.
  intros (p & P1 & P2 & P3 & _). unfold elements. set (idx := _ <$> seq _ _).
  assert (Hidx : forall k, k ∈ idx <-> l <= k <= u).
  { intros k. unfold idx. rewrite list_elem_of_fmap. setoid_rewrite elem_of_seq. split; [intros (i & -> & Hi); lia|].
    intros Hk. exists (Z.to_nat (k - l)). lia. }
  assert (Hnd : NoDup idx) by (apply NoDup_fmap_2; [intros a b E; lia|apply list.NoDup_seq]).
  rewrite (list_fmap_ext g (fun k => f (p k)) idx) by (intros; apply P1).
  change ((fun k => f (p k)) <$> idx) with (f ∘ p <$> idx). rewrite list_fmap_compose. apply fmap_Permutation.
  apply NoDup_Permutation_bis.
  - apply NoDup_ListNoDup, NoDup_fmap_2; [intros a b; apply P2|done].
  - by rewrite length_fmap.
  - intros k Hk. apply list_elem_of_In in Hk. apply list_elem_of_In.
    apply list_elem_of_fmap in Hk as (k' & -> & Hk'). apply Hidx, P3, Hidx, Hk'.
Qed.
End rearranged.

(** ** Fields *)

Section fields.
Context {T : Type} `{RawTable T} `{NextTable T} `{Cenv} `{Frame}.
Implicit Types (t : T) (f g : Z -> TValue).

(** The table [t] has the fields [f]. *)
Definition holds t f : Prop := raw_wf t /\ forall j, is_i32 j -> raw_at t j = f j.

Lemma rawgeti_holds t f i : holds t f -> is_i32 i -> rawgeti i t = Ret (f i, t).
Proof. intros [Hw Hf] Hi. unfold rawgeti. rewrite raw_geti_spec by done. unfold lift. by rewrite Hf. Qed.

Lemma rawseti_holds t f i v :
  holds t f -> is_i32 i -> f i <> VNil ->
  exists t', rawseti i v t = Ret (tt, t') /\ holds t' (fun j => if decide (j = i) then v else f j).
Proof.
  intros [Hw Hf] Hi Hv. unfold rawseti. pose proof (raw_seti_spec t i v Hw Hi) as Hs.
  destruct (raw_seti t i v) as [t'|st e| |]; try done.
  - destruct Hs as [Hw' Ha]. exists t'. split; [done|]. split; [done|]. intros j Hj. rewrite Ha, Hf by done. done.
  - destruct Hs as (_ & _ & Hn). by rewrite Hf in Hn.
Qed.

Lemma holds_ext t f g : holds t f -> (forall j, f j = g j) -> holds t g.
Proof. intros [Hw Hf] Hg. split; [done|]. intros j Hj. by rewrite <- Hg, Hf. Qed.

Lemma set2_holds t f i j :
  holds t f -> is_i32 i -> is_i32 j -> f i <> VNil -> f j <> VNil ->
  exists t', set2 i j (f i) (f j) t = Ret (tt, t') /\ holds t' (swap f i j).
Proof.
  intros Ht Hi Hj Hvi Hvj. unfold set2.
  destruct (rawseti_holds t f i (f j) Ht Hi Hvi) as (t1 & E1 & H1t). rewrite (st_bind_eq _ _ _ _ _ E1).
  destruct (rawseti_holds t1 _ j (f i) H1t Hj) as (t2 & E2 & H2t); [by case_decide|].
  exists t2. split; [done|]. eapply holds_ext; [exact H2t|]. intros k. cbn. unfold swap. repeat case_decide; congruence.
Qed.
End fields.

(** * [table.sort] sorts

    For an order function that is a strict weak order and leaves the table
    alone. *)


Section sorting.
Context {T : Type} `{RawTable T} `{NextTable T} `{Cenv} `{Frame}.
Implicit Types (t : T) (f g : Z -> TValue).

Variable args : list TValue.
Variable call : list TValue -> ST T TValue.
Variable lessthan : TValue -> TValue -> ST T bool.

Variable cmp : TValue -> TValue -> bool.

(** The values that are compared *)
Variable D : TValue -> Prop.

(** What a comparison does *)
Definition compares : Prop := forall t f a b,
  D a -> D b -> holds t f -> exists t', sort_comp args call lessthan a b t = Ret (cmp a b, t') /\ holds t' f.

(** A strict weak order *)
Record weak_order : Prop := {
wo_nonnil : ~ D VNil;
wo_irrefl : forall a, D a -> cmp a a = false;
wo_asym : forall a b, D a -> D b -> cmp a b = true -> cmp b a = false;
wo_trans : forall a b c, D a -> D b -> D c -> cmp b a = false -> cmp c b = false -> cmp c a = false
}.

Hypothesis Hcmp : compares.
Hypothesis Hord : weak_order.

(** [a <= b] *)
Definition le a b : Prop := cmp b a = false.

Lemma le_refl a : D a -> le a a.
Proof. apply (wo_irrefl Hord). Qed.

Lemma le_trans a b c : D a -> D b -> D c -> le a b -> le b c -> le a c.
Proof. apply (wo_trans Hord). Qed.

Lemma lt_le a b : D a -> D b -> cmp a b = true -> le a b.
Proof. apply (wo_asym Hord). Qed.

Definition all_le (l u : Z) f (P : TValue) : Prop := forall k, l <= k <= u -> le (f k) P.
Definition all_ge (l u : Z) f (P : TValue) : Prop := forall k, l <= k <= u -> le P (f k).

Definition sorted (l u : Z) f : Prop := forall i j, l <= i <= j -> j <= u -> le (f i) (f j).


(** An interval of indices whose fields can be compared *)
Definition room (l u : Z) f : Prop := 1 <= l /\ u < INT_MAX /\ forall k, l <= k <= u -> D (f k).

Lemma room_nonnil l u f k : room l u f -> l <= k <= u -> f k <> VNil.
Proof. intros (_ & _ & Hd) Hk E. apply (wo_nonnil Hord). rewrite <- E. by apply Hd. Qed.

Lemma sorted_le l u f : room l u f -> u <= l -> sorted l u f.
Proof. intros (_ & _ & Hd) Hu i j Hi Hj. replace j with i by lia. apply le_refl, Hd. lia. Qed.

Lemma room_i32 l u f k : room l u f -> l - 1 <= k <= u + 1 -> is_i32 k.
Proof. unfold room, is_i32, INT_MAX. lia. Qed.

Lemma room_rearranged l u f g : room l u f -> rearranged l u f g -> room l u g.
Proof.
  intros (Q1 & Q2 & Q3) Hr. split_and!; [done|done|].
  exact (rearranged_all l u f g D Hr Q3).
Qed.

Lemma room_narrower l u f l' u' : room l u f -> l <= l' -> u' <= u -> room l' u' f.
Proof. intros (Q1 & Q2 & Q3) Hl Hu. split_and!; [lia|lia|]. intros k Hk. apply Q3. lia. Qed.

(** ** The two scans *)

Lemma scan_up_spec fuel P t f i u s :
  holds t f -> 0 <= i -> u < INT_MAX -> i < s <= u -> D P -> (forall k, i < k <= s -> D (f k)) -> le P (f s) -> s - i <= Z.of_nat fuel + 1 ->
  exists i' t', scan_up args call lessthan fuel P i u t = Ret ((i', f i'), t') /\ holds t' f /\
    i < i' <= s /\ le P (f i') /\ all_le (i + 1) (i' - 1) f P.
Proof.
  unfold INT_MAX. revert t i. induction fuel as [|fuel IH]; intros t i Ht Hi Hu Hs HD Hd HP Hf; cbn [scan_up];
    rewrite (st_bind_eq _ _ _ _ _ (rawgeti_holds t f (i + 1) Ht ltac:(unfold is_i32; lia)));
    destruct (Hcmp t f (f (i + 1)) P ltac:(apply Hd; lia) HD Ht) as (t1 & E1 & Ht1); rewrite (st_bind_eq _ _ _ _ _ E1);
    destruct (cmp (f (i + 1)) P) eqn:Ec;
    try (exists (i + 1), t1; split_and!; [done|done|lia|lia|done|intros k Hk; lia]).
  - assert (s = i + 1) as -> by lia. by rewrite HP in Ec.
  - rewrite (proj2 (Z.ltb_ge _ _)) by lia.
    assert (s <> i + 1) by (intros ->; by rewrite HP in Ec).
    destruct (IH t1 (i + 1) Ht1 ltac:(lia) Hu ltac:(lia) HD ltac:(intros; apply Hd; lia) HP ltac:(lia)) as (i' & t' & E & Ht' & Hi' & HPi & Hall).
    exists i', t'. split_and!; [done|done|lia|lia|done|]. intros k Hk.
    destruct (decide (k = i + 1)) as [->|]; [apply lt_le; [apply Hd; lia|done|done]|apply Hall; lia].
Qed.

Lemma scan_down_spec fuel P t f j l s :
  holds t f -> 1 <= l -> j <= INT_MAX -> l <= s < j -> D P -> (forall k, s <= k < j -> D (f k)) -> le (f s) P -> j - s <= Z.of_nat fuel + 1 ->
  exists j' t', scan_down args call lessthan fuel P j l t = Ret ((j', f j'), t') /\ holds t' f /\
    s <= j' < j /\ le (f j') P /\ all_ge (j' + 1) (j - 1) f P.
Proof.
  unfold INT_MAX. revert t j. induction fuel as [|fuel IH]; intros t j Ht Hl Hj Hs HD Hd HP Hf; cbn [scan_down];
    rewrite (st_bind_eq _ _ _ _ _ (rawgeti_holds t f (j - 1) Ht ltac:(unfold is_i32; lia)));
    destruct (Hcmp t f P (f (j - 1)) HD ltac:(apply Hd; lia) Ht) as (t1 & E1 & Ht1); rewrite (st_bind_eq _ _ _ _ _ E1);
    destruct (cmp P (f (j - 1))) eqn:Ec;
    try (exists (j - 1), t1; split_and!; [done|done|lia|lia|done|intros k Hk; lia]).
  - assert (s = j - 1) as -> by lia. by rewrite HP in Ec.
  - rewrite (proj2 (Z.ltb_ge _ _)) by lia.
    assert (s <> j - 1) by (intros ->; by rewrite HP in Ec).
    destruct (IH t1 (j - 1) Ht1 Hl ltac:(lia) ltac:(lia) HD ltac:(intros; apply Hd; lia) HP ltac:(lia)) as (j' & t' & E & Ht' & Hj' & HPj & Hall).
    exists j', t'. split_and!; [done|done|lia|lia|done|]. intros k Hk.
    destruct (decide (k = j - 1)) as [->|]; [apply lt_le; [done|apply Hd; lia|done]|apply Hall; lia].
Qed.

(** ** Partition *)

(** The pivot [P] is at [u - 1]; between [i] and [j] the elements are not yet
    in order with it. *)
Record partitioning (l u : Z) f (P : TValue) (i j : Z) : Prop := {
pa_room : room l u f;
pa_i : l <= i <= j;
pa_j : l < j <= u - 1;
pa_iu : i <= u - 2;
pa_pivot : f (u - 1) = P;
pa_le : all_le l i f P;
pa_ge : all_ge j u f P
}.

Lemma partition_loop_spec fuel P t f l u i j :
  holds t f -> partitioning l u f P i j -> j - i <= Z.of_nat fuel ->
  exists m t' g, partition_loop args call lessthan fuel P l u i j t = Ret (m, t') /\ holds t' g /\
    rearranged l u f g /\ l < m <= u - 1 /\ g (u - 1) = P /\ all_le l (m - 1) g P /\ all_ge m u g P.
Proof.
  revert t f i j. induction fuel as [|fuel IH]; intros t f i j Ht Hp Hf;
    pose proof Hp as [Hroom Hi Hj Hiu Hpv Hle Hge]; pose proof Hroom as (R1 & R2 & R3); cbn [partition_loop].
  all: assert (HD : D P) by (rewrite <- Hpv; apply R3; lia).
  all: destruct (scan_up_spec (Z.to_nat (u + 1 - i)) P t f i u (Z.max (i + 1) j) Ht ltac:(lia) R2 ltac:(lia) HD
    ltac:(intros; apply R3; lia)
    ltac:(apply Hge; lia) ltac:(lia)) as (i' & t1 & E1 & Ht1 & Hi' & HPi & Hup).
  all: rewrite (st_bind_eq _ _ _ _ _ E1).
  all: destruct (scan_down_spec (Z.to_nat (j - l + 1)) P t1 f j l (Z.min (j - 1) i) Ht1 R1 ltac:(lia) ltac:(lia) HD
    ltac:(intros; apply R3; lia) ltac:(apply Hle; lia) ltac:(lia)) as (j' & t2 & E2 & Ht2 & Hj' & HPj & Hdown).
  all: rewrite (st_bind_eq _ _ _ _ _ E2).
  all: destruct (Z.ltb_spec j' i') as [Hlt|Hle'].
  1, 3: exists i', t2, f; split_and!; [done|done|apply rearranged_refl|lia|lia|done| |].
  1, 3: intros k Hk; destruct (decide (k <= i)); [apply Hle; lia|apply Hup; lia].
  1, 2: intros k Hk; destruct (decide (j <= k)); [apply Hge; lia|apply Hdown; lia].
  - (* the scans have not met: two elements are between [i] and [j] *) lia.
  - destruct (set2_holds t2 f i' j' Ht2 ltac:(eapply room_i32; [done|lia]) ltac:(eapply room_i32; [done|lia])
      ltac:(eapply room_nonnil; [done|lia]) ltac:(eapply room_nonnil; [done|lia])) as (t3 & E3 & Ht3). rewrite (st_bind_eq _ _ _ _ _ E3).
    assert (Hsw : rearranged l u f (swap f i' j')) by (apply swap_rearranged; lia).
    destruct (IH t3 (swap f i' j') i' j' Ht3) as (m & t' & g & E & Ht' & Hr & Hm & Hgp & Hgl & Hgg); [|lia|].
    + split; [by eapply room_rearranged|lia|lia|lia|rewrite swap_ne by lia; done| |].
      * intros k Hk. destruct (decide (k = i')) as [->|]; [by rewrite swap_l|].
        rewrite swap_ne by lia. destruct (decide (k <= i)); [apply Hle; lia|apply Hup; lia].
      * intros k Hk. destruct (decide (k = j')) as [->|]; [by rewrite swap_r|].
        rewrite swap_ne by lia. destruct (decide (j <= k)); [apply Hge; lia|apply Hdown; lia].
    + exists m, t', g. split_and!; try done; try lia. by eapply rearranged_trans.
Qed.

Definition partitioned (l u : Z) g (r : option Z) : Prop :=
  match r with
  | None => sorted l u g
  | Some m => l < m < u /\ all_le l (m - 1) g (g m) /\ all_ge (m + 1) u g (g m)
  end.

(** Swap two elements that are out of order. *)
Lemma order_pair t f l u i j (c : bool) :
  holds t f -> room l u f -> l <= i <= u -> l <= j <= u ->
  exists t' g, (if c then set2 i j (f i) (f j) else mret tt) t = Ret (tt, t') /\ holds t' g /\
    rearranged l u f g /\ g = if c then swap f i j else f.
Proof.
  intros Ht Hroom Hi Hj. destruct c.
  - pose proof Hroom as (_ & _ & R3).
    destruct (set2_holds t f i j Ht ltac:(eapply room_i32; [done|lia]) ltac:(eapply room_i32; [done|lia])
      (room_nonnil l u f i Hroom Hi) (room_nonnil l u f j Hroom Hj)) as (t' & E & Ht'). exists t', (swap f i j). split_and!; try done. by apply swap_rearranged.
  - exists t, f. split_and!; try done. apply rearranged_refl.
Qed.

(** The last step: the pivot goes to its place. *)
Lemma place_pivot t f l u m :
  holds t f -> room l u f -> l < m <= u - 1 -> all_le l (m - 1) f (f (u - 1)) -> all_ge m u f (f (u - 1)) ->
  exists t' g, set2 (u - 1) m (f (u - 1)) (f m) t = Ret (tt, t') /\ holds t' g /\ rearranged l u f g /\
    partitioned l u g (Some m).
Proof.
  intros Ht Hroom Hm Hle Hge. destruct (order_pair t f l u (u - 1) m true Ht Hroom ltac:(lia) ltac:(lia))
    as (t' & g & E & Ht' & Hr & ->). exists t', (swap f (u - 1) m). split_and!; try done.
  cbn [partitioned]. rewrite swap_r. split_and!; [lia|lia| |].
  - intros k Hk. rewrite swap_ne by lia. apply Hle. lia.
  - intros k Hk. destruct (decide (k = u - 1)) as [->|].
    + rewrite swap_l. apply Hge. lia.
    + rewrite swap_ne by lia. apply Hge. lia.
Qed.

(** After the median of three is found, from the pivot at [i] *)
Lemma partition_rest t f l u i :
  holds t f -> room l u f -> 3 <= u - l -> l < i < u -> le (f l) (f i) -> le (f i) (f u) ->
  exists m t' g, (P ← rawgeti i; v ← rawgeti (u - 1); set2 i (u - 1) P v;;
      i ← partition_loop args call lessthan (Z.to_nat (u - l)) P l u l (u - 1);
      a ← rawgeti (u - 1); b ← rawgeti i; set2 (u - 1) i a b;; mret (Some i)) t = Ret (Some m, t') /\
    holds t' g /\ rearranged l u f g /\ partitioned l u g (Some m).
Proof.
  intros Ht Hroom Hlen Hi Hli Hiu.
  assert (Hi32 : forall k, l <= k <= u -> is_i32 k) by (intros k Hk; eapply room_i32; [exact Hroom|lia]).
  rewrite (st_bind_eq _ _ _ _ _ (rawgeti_holds t f i Ht (Hi32 i ltac:(lia)))).
  rewrite (st_bind_eq _ _ _ _ _ (rawgeti_holds t f (u - 1) Ht (Hi32 (u - 1) ltac:(lia)))).
  destruct (order_pair t f l u i (u - 1) true Ht Hroom ltac:(lia) ltac:(lia)) as (t1 & f1 & E1 & Ht1 & Hr1 & Hf1).
  rewrite (st_bind_eq _ _ _ _ _ E1).
  destruct (partition_loop_spec (Z.to_nat (u - l)) (f i) t1 f1 l u l (u - 1) Ht1) as (m & t2 & g & E2 & Ht2 & Hr2 & Hm & Hgp & Hgl & Hgg).
  { split; [by eapply room_rearranged|lia|lia|lia|by rewrite Hf1, swap_r| |].
    - intros k Hk. replace k with l by lia. rewrite Hf1, swap_ne by lia. done.
    - intros k Hk. destruct (decide (k = u - 1)) as [->|]; [rewrite Hf1, swap_r; apply le_refl, Hroom; lia|].
      replace k with u by lia. rewrite Hf1, swap_ne by lia. done. }
  { lia. }
  rewrite (st_bind_eq _ _ _ _ _ E2).
  rewrite (st_bind_eq _ _ _ _ _ (rawgeti_holds t2 g (u - 1) Ht2 (Hi32 (u - 1) ltac:(lia)))).
  rewrite (st_bind_eq _ _ _ _ _ (rawgeti_holds t2 g m Ht2 (Hi32 m ltac:(lia)))).
  assert (Hrg : rearranged l u f g) by (by eapply rearranged_trans).
  destruct (place_pivot t2 g l u m Ht2 (room_rearranged _ _ _ _ Hroom Hrg) Hm) as (t3 & h & E3 & Ht3 & Hr3 & Hp);
    [by rewrite Hgp|by rewrite Hgp|].
  rewrite (st_bind_eq _ _ _ _ _ E3). exists m, t3, h. split_and!; [done|done|by eapply rearranged_trans|by destruct Hp..].
Qed.

Lemma partition_spec t f l u :
  holds t f -> room l u f -> l < u ->
  exists r t' g, partition args call lessthan l u t = Ret (r, t') /\ holds t' g /\ rearranged l u f g /\
    partitioned l u g r.
Proof.
  intros Ht Hroom Hlu. unfold partition.
  assert (Hi32 : forall k, l <= k <= u -> is_i32 k) by (intros k Hk; eapply room_i32; [exact Hroom|lia]).
  rewrite (st_bind_eq _ _ _ _ _ (rawgeti_holds t f l Ht (Hi32 l ltac:(lia)))).
  rewrite (st_bind_eq _ _ _ _ _ (rawgeti_holds t f u Ht (Hi32 u ltac:(lia)))).
  pose proof Hroom as (_ & _ & Hd). destruct (Hcmp t f (f u) (f l) (Hd u ltac:(lia)) (Hd l ltac:(lia)) Ht) as (t1 & E1 & Ht1). rewrite (st_bind_eq _ _ _ _ _ E1).
  destruct (order_pair t1 f l u l u (cmp (f u) (f l)) Ht1 Hroom ltac:(lia) ltac:(lia)) as (t2 & f2 & E2 & Ht2 & Hr2 & Hf2).
  rewrite (st_bind_eq _ _ _ _ _ E2).
  assert (Hlo : le (f2 l) (f2 u)).
  { subst f2. destruct (cmp (f u) (f l)) eqn:Ec; [rewrite swap_l, swap_r; apply lt_le; [apply Hd; lia|apply Hd; lia|done]|done]. }
  clear E1 E2 Hf2 Ht1 t1. pose proof (room_rearranged _ _ _ _ Hroom Hr2) as Hroom2.
  pose proof Hroom2 as (_ & _ & Hd2).
  destruct (Z.eqb_spec (u - l) 1) as [Hl1|Hl1].
  { exists None, t2, f2. split_and!; [done|done|done|]. intros a b Ha Hb. destruct (decide (a = b)) as [->|]; [apply le_refl, Hd2; lia|].
    replace a with l by lia. by replace b with u by lia. }
  set (i := Z.quot (l + u) 2). assert (Hi : l < i < u).
  { unfold i. destruct Hroom as (R1 & _). rewrite Z.quot_div_nonneg by lia. dlia. }
  rewrite (st_bind_eq _ _ _ _ _ (rawgeti_holds t2 f2 i Ht2 (Hi32 i ltac:(lia)))).
  rewrite (st_bind_eq _ _ _ _ _ (rawgeti_holds t2 f2 l Ht2 (Hi32 l ltac:(lia)))).
  destruct (Hcmp t2 f2 (f2 i) (f2 l) (Hd2 i ltac:(lia)) (Hd2 l ltac:(lia)) Ht2) as (t3 & E3 & Ht3). rewrite (st_bind_eq _ _ _ _ _ E3).
  assert (Hmed : exists t4 f4, (if cmp (f2 i) (f2 l) then set2 i l (f2 i) (f2 l)
      else au ← rawgeti u; c ← sort_comp args call lessthan au (f2 i); if (c : bool) then set2 i u (f2 i) au else mret tt) t3 =
      Ret (tt, t4) /\ holds t4 f4 /\ rearranged l u f2 f4 /\ le (f4 l) (f4 i) /\ le (f4 i) (f4 u)).
  { destruct (cmp (f2 i) (f2 l)) eqn:Ec.
    - destruct (order_pair t3 f2 l u i l true Ht3 Hroom2 ltac:(lia) ltac:(lia)) as (t4 & f4 & E4 & Ht4 & Hr4 & ->).
      exists t4, (swap f2 i l). split_and!; [done..| |].
      + rewrite swap_l, swap_r. apply lt_le; [apply Hd2; lia|apply Hd2; lia|done].
      + rewrite swap_l, swap_ne by lia. done.
    - rewrite (st_bind_eq _ _ _ _ _ (rawgeti_holds t3 f2 u Ht3 (Hi32 u ltac:(lia)))).
      destruct (Hcmp t3 f2 (f2 u) (f2 i) (Hd2 u ltac:(lia)) (Hd2 i ltac:(lia)) Ht3) as (t4 & E4 & Ht4). rewrite (st_bind_eq _ _ _ _ _ E4).
      destruct (order_pair t4 f2 l u i u (cmp (f2 u) (f2 i)) Ht4 Hroom2 ltac:(lia) ltac:(lia)) as (t5 & f5 & E5 & Ht5 & Hr5 & ->).
      eexists t5, _. split_and!; [done..| |].
      + destruct (cmp (f2 u) (f2 i)); [rewrite swap_l, swap_ne by lia|]; done.
      + destruct (cmp (f2 u) (f2 i)) eqn:Ec2; [rewrite swap_l, swap_r; apply lt_le; [apply Hd2; lia|apply Hd2; lia|done]|done]. }
  destruct Hmed as (t4 & f4 & E4 & Ht4 & Hr4 & Hm1 & Hm2). rewrite (st_bind_eq _ _ _ _ _ E4).
  assert (Hrf : rearranged l u f f4) by (by eapply rearranged_trans).
  pose proof (room_rearranged _ _ _ _ Hroom Hrf) as Hroom4.
  pose proof Hroom4 as (_ & _ & Hd4).
  destruct (Z.eqb_spec (u - l) 2) as [Hl2|Hl2].
  { exists None, t4, f4. split_and!; [done|done|done|]. intros a b Ha Hb. destruct (decide (a = b)) as [->|]; [apply le_refl, Hd4; lia|].
    destruct (decide (a = l)) as [->|]; destruct (decide (b = u)) as [->|].
    - apply (le_trans _ (f4 i)); [apply Hd4; lia..|done|done].
    - by replace b with i by lia.
    - by replace a with i by lia.
    - lia. }
  destruct (partition_rest t4 f4 l u i Ht4 Hroom4 ltac:(lia) Hi Hm1 Hm2) as (m & t5 & g & E5 & Ht5 & Hr5 & Hp).
  exists (Some m), t5, g. split_and!; [exact E5|done|by eapply rearranged_trans|by destruct Hp..].
Qed.

(** ** The whole sort *)

Lemma sorted_join l u m g g1 g2 :
  room l u g -> room l u g2 -> l < m < u -> all_le l (m - 1) g (g m) -> all_ge (m + 1) u g (g m) ->
  rearranged l (m - 1) g g1 -> sorted l (m - 1) g1 -> rearranged (m + 1) u g1 g2 -> sorted (m + 1) u g2 ->
  sorted l u g2.
Proof.
  intros (_ & _ & Hd) (_ & _ & Hd') Hm Hle Hge Hr1 Hs1 Hr2 Hs2.
  assert (Hgm : g2 m = g m).
  { rewrite (rearranged_out _ _ _ _ _ Hr2), (rearranged_out _ _ _ _ _ Hr1) by lia. done. }
  assert (Hlow : forall k, l <= k <= m - 1 -> g2 k = g1 k) by (intros k Hk; apply (rearranged_out _ _ _ _ _ Hr2); lia).
  assert (Hlo : forall k, l <= k <= m -> le (g2 k) (g m)).
  { intros k Hk. destruct (decide (k = m)) as [->|]; [rewrite Hgm; apply le_refl, Hd; lia|]. rewrite Hlow by lia.
    apply (rearranged_all _ _ _ _ (fun v => le v (g m)) Hr1); [done|lia]. }
  assert (Hhi : forall k, m <= k <= u -> le (g m) (g2 k)).
  { intros k Hk. destruct (decide (k = m)) as [->|]; [rewrite Hgm; apply le_refl, Hd; lia|].
    apply (rearranged_all _ _ _ _ (fun v => le (g m) v) Hr2); [|lia]. intros k' Hk'.
    rewrite (rearranged_out _ _ _ _ _ Hr1) by lia. by apply Hge. }
  intros i j Hi Hj. destruct (decide (j < m)).
  - rewrite !Hlow by lia. apply Hs1; lia.
  - destruct (decide (m < i)); [apply Hs2; lia|]. apply (le_trans _ (g m)); [apply Hd'; lia|apply Hd; lia|apply Hd'; lia|apply Hlo; lia|apply Hhi; lia].
Qed.

(** Two halves, in the order of their sizes *)
Lemma sort_halves (sort1 : Z -> Z -> ST T unit) t g l u m (c : bool) :
  holds t g -> room l u g -> partitioned l u g (Some m) ->
  (forall t g l' u', holds t g -> room l' u' g -> u' - l' < u - l -> exists t' g', sort1 l' u' t = Ret (tt, t') /\
    holds t' g' /\ rearranged l' u' g g' /\ sorted l' u' g') ->
  exists t' g', (if c then sort1 l (m - 1);; sort1 (m + 1) u else sort1 (m + 1) u;; sort1 l (m - 1)) t = Ret (tt, t') /\
    holds t' g' /\ rearranged l u g g' /\ sorted l u g'.
Proof.
  intros Ht Hroom (Hm & Hle & Hge) Hsort.
  assert (Hwide1 : forall f g, rearranged l (m - 1) f g -> rearranged l u f g) by (intros ??; apply rearranged_wider; lia).
  assert (Hwide2 : forall f g, rearranged (m + 1) u f g -> rearranged l u f g) by (intros ??; apply rearranged_wider; lia).
  destruct c.
  - destruct (Hsort t g l (m - 1) Ht (room_narrower l u g l (m - 1) Hroom ltac:(lia) ltac:(lia)) ltac:(lia)) as (t1 & g1 & E1 & Ht1 & Hr1 & Hs1).
    rewrite (st_bind_eq _ _ _ _ _ E1).
    pose proof (room_rearranged _ _ _ _ Hroom (Hwide1 _ _ Hr1)) as Hroom1.
    destruct (Hsort t1 g1 (m + 1) u Ht1 (room_narrower l u g1 (m + 1) u Hroom1 ltac:(lia) ltac:(lia)) ltac:(lia)) as (t2 & g2 & E2 & Ht2 & Hr2 & Hs2).
    assert (Hr : rearranged l u g g2) by (eapply rearranged_trans; eauto).
    exists t2, g2. split_and!; [done|done|done|]. by apply (sorted_join l u m g g1 g2 Hroom (room_rearranged _ _ _ _ Hroom Hr)).
  - destruct (Hsort t g (m + 1) u Ht (room_narrower l u g (m + 1) u Hroom ltac:(lia) ltac:(lia)) ltac:(lia)) as (t1 & g1 & E1 & Ht1 & Hr1 & Hs1).
    rewrite (st_bind_eq _ _ _ _ _ E1).
    pose proof (room_rearranged _ _ _ _ Hroom (Hwide2 _ _ Hr1)) as Hroom1.
    destruct (Hsort t1 g1 l (m - 1) Ht1 (room_narrower l u g1 l (m - 1) Hroom1 ltac:(lia) ltac:(lia)) ltac:(lia)) as (t2 & g2 & E2 & Ht2 & Hr2 & Hs2).
    assert (Hr : rearranged l u g g2) by (eapply rearranged_trans; eauto).
    exists t2, g2. split_and!; [done|done|done|].
    (* the left half as if it had been sorted first *)
    set (h := fun k => if decide (k <= m) then g2 k else g k).
    apply (sorted_join l u m g h g2); [done|exact (room_rearranged _ _ _ _ Hroom Hr)|done|done|done| | | |].
    + destruct Hr2 as (p & P1 & P2 & P3 & P4). exists p. split_and!; try done. intros k. unfold h. case_decide.
      * rewrite P1. apply (rearranged_out _ _ _ _ _ Hr1). destruct (decide (l <= k <= m - 1)) as [Hk|Hk]; [apply P3 in Hk; lia|rewrite P4 by done; lia].
      * by rewrite P4 by lia.
    + intros i j Hi Hj. unfold h. rewrite !decide_True by lia. apply Hs2; lia.
    + destruct Hr1 as (p & P1 & P2 & P3 & P4). exists p. split_and!; try done. intros k. unfold h. case_decide as Hk.
      * destruct (decide (m + 1 <= k <= u)) as [Hin|Hout]; [apply P3 in Hin; lia|by rewrite P4 in Hk |- *].
      * destruct (decide (m + 1 <= k <= u)) as [Hin|Hout].
        -- rewrite (rearranged_out _ _ _ _ _ Hr2) by lia. apply P1.
        -- pose proof (P4 k Hout). rewrite (rearranged_out _ _ _ _ _ Hr2) by lia. apply P1.
    + intros i j Hi Hj. rewrite !(rearranged_out _ _ _ _ _ Hr2) by lia. apply Hs1; lia.
Qed.

Lemma auxsort_spec fuel t f l u :
  holds t f -> room l u f -> u - l <= Z.of_nat fuel ->
  exists t' g, auxsort args call lessthan fuel l u t = Ret (tt, t') /\ holds t' g /\ rearranged l u f g /\ sorted l u g.
Proof.
  revert t f l u. induction fuel as [|fuel IH]; intros t f l u Ht Hroom Hf; cbn [auxsort];
    (destruct (Z.ltb_spec l u) as [Hlu|Hlu];
      [|exists t, f; split_and!; [done|done|apply rearranged_refl|by apply sorted_le]]); [lia|].
  destruct (partition_spec t f l u Ht Hroom Hlu) as (r & t1 & g & E1 & Ht1 & Hr1 & Hp).
  rewrite (st_bind_eq _ _ _ _ _ E1). destruct r as [m|]; [|by exists t1, g].
  pose proof (room_rearranged _ _ _ _ Hroom Hr1) as Hroom1.
  destruct (sort_halves (auxsort args call lessthan fuel) t1 g l u m (m - l <? u - m) Ht1 Hroom1 Hp) as (t2 & h & E2 & Ht2 & Hr2 & Hs2).
  { intros t' g' l' u' Ht' Hroom' Hlen. apply IH; [done|done|lia]. }
  exists t2, h. split_and!; [exact E2|done|by eapply rearranged_trans|done].
Qed.
End sorting.
