(* ===== verification/TabProps.v ===== *)
(** * The table library: properties *)

From S2P Require Import Prelude Clib Object Lex Table TableNum TableOps Rawtable TableProps.
From S2P Require Import Auxlib AuxFacts Tablib TablibFacts.

Section arrays.
Context {T : Type} `{RawTable T} `{NextTable T} `{Cenv} `{Frame}.
Implicit Types (t : T) (f : Z -> TValue) (l : list TValue).

(** ** Sequences *)

(** The table holds [l] at the indices from 1, and nothing above. *)
Record sequence t l : Prop := {
sq_wf : raw_wf t;
sq_len : lenZ l < INT_MAX;
sq_values : Forall (fun v => v <> VNil) l;
sq_at : forall j, 1 <= j -> is_i32 j -> raw_at t j = default VNil (getZ l (j - 1))
}.

Definition field l (j : Z) : TValue := default VNil (getZ l (j - 1)).

Lemma field_nil l j : lenZ l < j -> field l j = VNil.
Proof. intros Hj. unfold field. by rewrite getZ_None by lia. Qed.

Lemma field_nonnil l j : Forall (fun v => v <> VNil) l -> 1 <= j <= lenZ l -> field l j <> VNil.
Proof.
  intros Hl Hj. unfold field. destruct (getZ_is_Some l (j - 1) ltac:(lia)) as [v Hv]. rewrite Hv.
  exact (getZ_Forall _ _ _ _ Hl Hv).
Qed.

Lemma sequence_getn t l : sequence t l -> raw_getn t = Ret (lenZ l).
Proof.
  intros [Hw Hlen Hv Hat]. destruct (raw_getn_spec t Hw) as (n & Hn & Hr & Hp & Hnil). unfold INT_MAX in *.
  rewrite Hn. f_equal. destruct (Z.lt_trichotomy n (lenZ l)) as [Hl|[|Hl]]; [|done|]; exfalso.
  - rewrite Hat in Hnil by (unfold is_i32; lia). by apply (field_nonnil l (n + 1) Hv); [lia|].
  - pose proof (lenZ_nonneg l). destruct Hp as [|Hp]; [lia|]. apply Hp. rewrite Hat by (unfold is_i32; lia).
    by apply field_nil.
Qed.

(** A computation that ends, or stops with an overflow of the table *)
Definition ends {A} (m : outcome (A * T)) (Q : A -> T -> Prop) : Prop :=
  match m with
  | Ret (x, t) => Q x t
  | Throw st e => st = LUA_ERRRUN /\ e = str "table overflow"
  | _ => False
  end.

Lemma ends_bind {A B} (m : ST T A) (k : A -> ST T B) t P Q :
  ends (m t) P -> (forall x t', P x t' -> ends (k x t') Q) -> ends ((m ≫= k) t) Q.
Proof. unfold mbind, ST_bind. destruct (m t) as [[x t']| | |]; cbn; try done. auto. Qed.

Lemma ends_mono {A} (m : outcome (A * T)) (P Q : A -> T -> Prop) :
  ends m P -> (forall x t, P x t -> Q x t) -> ends m Q.
Proof. destruct m as [[x t]| | |]; cbn; auto. Qed.

Lemma rawseti_ends t f i v :
  holds t f -> is_i32 i -> ends (rawseti i v t) (fun _ t' => holds t' (fun j => if decide (j = i) then v else f j)).
Proof.
  intros [Hw Hf] Hi. unfold rawseti. pose proof (raw_seti_spec t i v Hw Hi) as Hs.
  destruct (raw_seti t i v) as [t'|st e| |]; cbn in *; [|tauto|done|done].
  destruct Hs as [Hw' Ha]. split; [done|]. intros j Hj. rewrite Ha, Hf by done. done.
Qed.

Lemma move_up_ends k t f i :
  holds t f -> 1 <= i - Z.of_nat k -> i < INT_MAX ->
  ends (move_up k i t) (fun _ t' => holds t' (fun j => if decide (i - Z.of_nat k < j <= i) then f (j - 1) else f j)).
Proof.
  revert t f i. induction k as [|k IH]; intros t f i Ht Hi Hmax; cbn [move_up]; unfold INT_MAX in *.
  - cbn. eapply holds_ext; [exact Ht|]. intros j. by rewrite decide_False by lia.
  - rewrite (st_bind_eq _ _ _ _ _ (rawgeti_holds t f (i - 1) Ht ltac:(unfold is_i32; lia))).
    eapply ends_bind; [apply rawseti_ends; [done|unfold is_i32; lia]|]. cbn beta. intros [] t1 Ht1.
    eapply ends_mono; [apply (IH t1 _ (i - 1) Ht1); lia|]. intros [] t2 Ht2. eapply holds_ext; [exact Ht2|].
    intros j. cbn. repeat case_decide; try lia; try done. f_equal. lia.
Qed.

Lemma move_down_holds k t f i :
  holds t f -> 1 <= i -> i + Z.of_nat k < INT_MAX -> (forall j, i <= j <= i + Z.of_nat k -> f j <> VNil) ->
  exists t', move_down k i t = Ret (tt, t') /\
    holds t' (fun j => if decide (i <= j < i + Z.of_nat k) then f (j + 1) else f j).
Proof.
  revert t f i. induction k as [|k IH]; intros t f i Ht Hi Hmax Hnn; cbn [move_down]; unfold INT_MAX in *.
  - exists t. split; [done|]. eapply holds_ext; [exact Ht|]. intros j. by rewrite decide_False by lia.
  - rewrite (st_bind_eq _ _ _ _ _ (rawgeti_holds t f (i + 1) Ht ltac:(unfold is_i32; lia))).
    destruct (rawseti_holds t f i (f (i + 1)) Ht ltac:(unfold is_i32; lia) (Hnn i ltac:(lia))) as (t1 & E1 & Ht1).
    rewrite (st_bind_eq _ _ _ _ _ E1).
    destruct (IH t1 _ (i + 1) Ht1) as (t2 & E2 & Ht2); [lia|lia| |].
    + intros j Hj. rewrite decide_False by lia. apply Hnn. lia.
    + exists t2. split; [done|]. eapply holds_ext; [exact Ht2|]. intros j. cbn.
      repeat case_decide; try lia; try done. subst. done.
Qed.

(** ** The arguments *)

Definition the_table (args : list TValue) : Prop := exists r rest, args = VTable r :: rest.

Lemma aux_getn_sequence args t l : the_table args -> sequence t l -> aux_getn args t = Ret (lenZ l, t).
Proof.
  intros (r & rest & ->) Hs. unfold aux_getn. change (luaL_checktype (VTable r :: rest) 1 LUA_TTABLE) with (Ret tt).
  st_simpl. unfold objlen, mbind, ST_bind. rewrite (sequence_getn t l Hs). cbn.
  pose proof (sq_len _ _ Hs) as Hl. pose proof (lenZ_nonneg l). unfold INT_MAX in Hl.
  by rewrite i32_small by (unfold is_i32; lia).
Qed.

Lemma sequence_holds t l : sequence t l -> holds t (fun j => if decide (1 <= j) then field l j else raw_at t j).
Proof.
  intros [Hw _ _ Hat]. split; [done|]. intros j Hj. case_decide; [by apply Hat|done].
Qed.

(** [l] with [v] before the [pos]-th element *)
Definition inserted (pos : Z) (v : TValue) l : list TValue := take (Z.to_nat (pos - 1)) l ++ v :: drop (Z.to_nat (pos - 1)) l.

Lemma inserted_length pos v l : 1 <= pos <= lenZ l + 1 -> lenZ (inserted pos v l) = lenZ l + 1.
Proof. intros Hp. unfold inserted, lenZ in *. rewrite length_app. cbn [length]. rewrite length_take, length_drop. lia. Qed.

Lemma field_inserted pos v l j :
  1 <= pos <= lenZ l + 1 -> 1 <= j ->
  field (inserted pos v l) j = if decide (j < pos) then field l j else if decide (j = pos) then v else field l (j - 1).
Proof.
  intros Hp Hj. unfold field, inserted, getZ. rewrite !(proj2 (Z.leb_le _ _)) by lia. unfold lenZ in Hp.
  assert (Hlt : length (take (Z.to_nat (pos - 1)) l) = Z.to_nat (pos - 1)) by (rewrite length_take; lia).
  destruct (decide (j < pos)) as [Hlt'|Hge].
  - rewrite lookup_app_l, lookup_take_lt by lia. done.
  - rewrite lookup_app_r, Hlt by lia. destruct (decide (j = pos)) as [->|Hne].
    + by rewrite Nat.sub_diag.
    + replace (Z.to_nat (j - 1) - Z.to_nat (pos - 1))%nat with (S (Z.to_nat (j - 1 - pos))) by lia. rewrite (proj2 (Z.leb_le _ _)) by lia.
      change ((v :: drop (Z.to_nat (pos - 1)) l) !! S (Z.to_nat (j - 1 - pos))) with (drop (Z.to_nat (pos - 1)) l !! Z.to_nat (j - 1 - pos)).
      rewrite lookup_drop. do 2 f_equal. lia.
Qed.

Lemma tinsert_at r pos v t l :
  sequence t l -> lenZ l + 1 < INT_MAX -> 1 <= pos <= lenZ l + 1 -> v <> VNil ->
  ends (tinsert [VTable r; pushinteger pos; v] t) (fun vs t' => vs = [] /\ sequence t' (inserted pos v l) /\
    forall j, j <= 0 -> is_i32 j -> raw_at t' j = raw_at t j).
Proof.
  intros Hs Hlen Hpos Hv. pose proof (sequence_holds t l Hs) as Ht. unfold INT_MAX in Hlen.
  unfold tinsert. set (args := [_; _; _]).
  rewrite (st_bind_eq _ _ _ _ _ (aux_getn_sequence args t l ltac:(by eexists _, _) Hs)).
  change (lenZ args) with 3. change (3 =? 2) with false. change (3 =? 3) with true. cbn iota.
  rewrite (checkint_push args 2 pos) by (done || (unfold is_i32; lia)). st_simpl.
  rewrite (proj2 (Z.ltb_ge _ _)) by lia.
  eapply ends_bind; [apply (move_up_ends _ t _ (lenZ l + 1) Ht); unfold INT_MAX; lia|]. cbn beta. intros [] t1 Ht1. st_simpl.
  eapply ends_bind; [apply (rawseti_ends t1 _ pos (arg args 3) Ht1); unfold is_i32; lia|]. cbn beta. intros [] t2 Ht2.
  change (arg args 3) with v in Ht2. cbn [ends]. destruct Ht2 as [Hw2 Ha2]. split; [done|]. split; [split|].
  - done.
  - rewrite inserted_length by done. unfold INT_MAX. lia.
  - unfold inserted. apply Forall_app. split; [eapply Forall_take, sq_values; exact Hs|].
    constructor; [done|]. eapply Forall_drop, sq_values; exact Hs.
  - intros j Hj Hij. rewrite Ha2 by done. change (default VNil (getZ (inserted pos v l) (j - 1))) with (field (inserted pos v l) j).
    rewrite field_inserted by lia. repeat case_decide; try lia; try done. by rewrite !field_nil by lia.
  - intros j Hj Hij. rewrite Ha2 by done. rewrite !decide_False by lia. done.
Qed.

(** [l] without its [pos]-th element *)
Definition removed (pos : Z) l : list TValue := take (Z.to_nat (pos - 1)) l ++ drop (Z.to_nat pos) l.

Lemma field_removed pos l j :
  1 <= pos <= lenZ l -> 1 <= j -> field (removed pos l) j = if decide (j < pos) then field l j else field l (j + 1).
Proof.
  intros Hp Hj. unfold field, removed, getZ. rewrite !(proj2 (Z.leb_le _ _)) by lia. unfold lenZ in Hp.
  assert (Hlt : length (take (Z.to_nat (pos - 1)) l) = Z.to_nat (pos - 1)) by (rewrite length_take; lia).
  destruct (decide (j < pos)) as [Hlt'|Hge].
  - rewrite lookup_app_l, lookup_take_lt by lia. done.
  - rewrite lookup_app_r, Hlt, lookup_drop by lia. do 2 f_equal. lia.
Qed.

Lemma tremove_at r pos t l :
  sequence t l -> 1 <= pos <= lenZ l ->
  exists t', tremove [VTable r; pushinteger pos] t = Ret ([field l pos], t') /\ sequence t' (removed pos l) /\
    forall j, j <= 0 -> is_i32 j -> raw_at t' j = raw_at t j.
Proof.
  intros Hs Hpos. pose proof (sequence_holds t l Hs) as Ht. pose proof (sq_len _ _ Hs) as Hlen. unfold INT_MAX in Hlen.
  unfold tremove. set (args := [_; _]).
  rewrite (st_bind_eq _ _ _ _ _ (aux_getn_sequence args t l ltac:(by eexists _, _) Hs)).
  unfold luaL_optint, luaL_optinteger. change (lua_isnoneornil args 2) with false. cbn iota.
  rewrite (checkinteger_push args 2 pos) by (done || (unfold is_i32; lia)). cbn [mbind outcome_bind].
  rewrite i32_small by (unfold is_i32; lia). st_simpl. rewrite !(proj2 (Z.leb_le _ _)) by lia. cbn [andb negb].
  rewrite (st_bind_eq _ _ _ _ _ (rawgeti_holds t _ pos Ht ltac:(unfold is_i32; lia))). rewrite decide_True by lia.
  assert (Hnn : forall j, 1 <= j <= lenZ l -> field l j <> VNil) by (intros j Hj; apply field_nonnil; [apply Hs|done]).
  destruct (move_down_holds (Z.to_nat (lenZ l - pos)) t _ pos Ht ltac:(lia) ltac:(unfold INT_MAX; lia)) as (t1 & E1 & Ht1).
  { intros j Hj. rewrite decide_True by lia. apply Hnn. lia. }
  rewrite (st_bind_eq _ _ _ _ _ E1).
  destruct (rawseti_holds t1 _ (lenZ l) VNil Ht1 ltac:(unfold is_i32; lia)) as (t2 & E2 & Hw2 & Ha2).
  { rewrite decide_False, decide_True by lia. apply Hnn. lia. }
  rewrite (st_bind_eq _ _ _ _ _ E2). exists t2. split; [done|].
  assert (Hlr : lenZ (removed pos l) = lenZ l - 1).
  { unfold removed, lenZ in *. rewrite length_app, length_take, length_drop. lia. }
  split; [split|].
  - done.
  - rewrite Hlr. unfold INT_MAX. lia.
  - unfold removed. apply Forall_app. split; [eapply Forall_take, sq_values; exact Hs|eapply Forall_drop, sq_values; exact Hs].
  - intros j Hj Hij. rewrite Ha2 by done. change (default VNil (getZ (removed pos l) (j - 1))) with (field (removed pos l) j).
    rewrite field_removed by lia. repeat case_decide; try lia; try done.
    + by rewrite !field_nil by lia.
    + by rewrite !field_nil by lia.
  - intros j Hj Hij. rewrite Ha2 by done. rewrite !decide_False by lia. done.
Qed.

Lemma removed_inserted pos v l : 1 <= pos <= lenZ l + 1 -> removed pos (inserted pos v l) = l.
Proof.
  intros Hp. unfold removed, inserted, lenZ in *.
  assert (Hlt : length (take (Z.to_nat (pos - 1)) l) = Z.to_nat (pos - 1)) by (rewrite length_take; lia).
  rewrite take_app_le, take_take, Nat.min_id by lia.
  rewrite drop_app_ge, Hlt by lia. replace (Z.to_nat pos - Z.to_nat (pos - 1))%nat with 1%nat by lia. cbn [drop].
  rewrite drop_0. apply take_drop.
Qed.

(** [table.insert] and [table.remove] are inverse: inserting [v] at [pos]
    into a table that holds the sequence [l] makes it hold [l] with [v] before
    its [pos]-th element and changes nothing else, or fails with the overflow
    of the table; removing at [pos] then returns [v] and the sequence is [l]
    again. *)
Theorem insert_remove_roundtrip r pos v t l :
  sequence t l -> lenZ l + 1 < INT_MAX -> 1 <= pos <= lenZ l + 1 -> v <> VNil ->
  ends (tinsert [VTable r; pushinteger pos; v] t) (fun vs t1 => vs = [] /\ sequence t1 (inserted pos v l) /\
    exists t2, tremove [VTable r; pushinteger pos] t1 = Ret ([v], t2) /\ sequence t2 l /\
      forall j, j <= 0 -> is_i32 j -> raw_at t2 j = raw_at t j).
Proof.
  intros Hs Hlen Hpos Hv. eapply ends_mono; [by apply tinsert_at|]. intros vs t1 (-> & Hs1 & Ho1). split; [done|].
  split; [done|]. destruct (tremove_at r pos t1 _ Hs1) as (t2 & E & Hs2 & Ho2).
  { rewrite inserted_length; lia. }
  exists t2. rewrite E. rewrite field_inserted, decide_False, decide_True by lia. split; [done|].
  rewrite removed_inserted in Hs2 by done. split; [done|]. intros j Hj Hij. by rewrite Ho2, Ho1.
Qed.

(** ** [table.sort] *)

Lemma getZ_ext {A} (l1 l2 : list A) : (forall i, 0 <= i -> getZ l1 i = getZ l2 i) -> l1 = l2.
Proof.
  intros Hg. apply list_eq. intros i. specialize (Hg (Z.of_nat i) ltac:(lia)). unfold getZ in Hg.
  by rewrite !(proj2 (Z.leb_le _ _)), !Nat2Z.id in Hg by lia.
Qed.

Lemma sequence_of t f n :
  holds t f -> 0 <= n < INT_MAX -> (forall k, 1 <= k <= n -> f k <> VNil) -> (forall k, n < k -> f k = VNil) ->
  sequence t (elements f 1 n).
Proof.
  intros [Hw Hf] Hn Hv Hout. split.
  - done.
  - rewrite elements_length. lia.
  - apply list.Forall_forall. intros v Hin. unfold elements in Hin. apply list_elem_of_fmap in Hin as (k & -> & Hk).
    apply list_elem_of_fmap in Hk as (i & -> & Hi). apply elem_of_seq in Hi. apply Hv. lia.
  - intros j Hj Hij. rewrite Hf by done. destruct (decide (j <= n)) as [Hle|Hgt].
    + by rewrite elements_at by lia.
    + rewrite Hout, getZ_None; [done| |lia]. rewrite elements_length. lia.
Qed.

Lemma sequence_elements t l : sequence t l -> l = elements (field l) 1 (lenZ l).
Proof.
  intros Hs. apply getZ_ext. intros i Hi. pose proof (lenZ_nonneg l).
  destruct (decide (i < lenZ l)) as [Hlt|Hge].
  - replace i with (i + 1 - 1) at 2 by lia. rewrite elements_at by lia. unfold field. rewrite Z.add_simpl_r.
    by destruct (getZ_is_Some l i ltac:(lia)) as [v ->].
  - rewrite !getZ_None; rewrite ?elements_length; done || lia.
Qed.

(** The arguments of [table.sort]: the table, and a function or nothing *)
Definition sort_args (args : list TValue) : Prop :=
  the_table args /\ lenZ args + 40 <= LUAI_MAXCSTACK /\
  (lua_isnoneornil args 2 = true \/ lua_type args 2 = LUA_TFUNCTION).

(** C39: [table.sort] sorts: when the order function is a strict weak order on
    the values of the sequence that a table holds and does not change the
    table, the sort ends without an error, the table holds a permutation of
    the sequence in which no value is less than one before it, and its other
    fields are as before. *)
Theorem sort_sorts args call lessthan cmp (D : TValue -> Prop) t l :
  sort_args args -> compares args call lessthan cmp D -> weak_order cmp D ->
  sequence t l -> Forall D l ->
  exists t' l', sort args call lessthan t = Ret ([], t') /\ sequence t' l' /\ l' ≡ₚ l /\
    (forall i j a b, i <= j -> getZ l' i = Some a -> getZ l' j = Some b -> cmp b a = false) /\
    (forall j, j <= 0 -> is_i32 j -> raw_at t' j = raw_at t j).
Proof.
  intros (Hta & Hstk & Hfn) Hcmp Hord Hs HD. pose proof (sequence_holds t l Hs) as Ht.
  pose proof (sq_len _ _ Hs) as Hlen. pose proof (lenZ_nonneg l) as Hnn. unfold INT_MAX in Hlen.
  set (f := fun j => _) in Ht.
  assert (Hff : forall k, 1 <= k -> f k = field l k) by (intros k Hk; unfold f; by rewrite decide_True).
  assert (Hroom : room D 1 (lenZ l) f).
  { split_and!; [done|unfold INT_MAX; lia|]. intros k Hk. rewrite Hff by lia. unfold field.
    destruct (getZ_is_Some l (k - 1) ltac:(lia)) as [v Hv]. rewrite Hv. exact (getZ_Forall _ _ _ _ HD Hv). }
  unfold sort. rewrite (st_bind_eq _ _ _ _ _ (aux_getn_sequence args t l Hta Hs)).
  assert (Hck : luaL_checkstack (lenZ args) 40 [] = Ret tt).
  { unfold luaL_checkstack, LUAI_MAXCSTACK in *. by rewrite !(proj2 (Z.ltb_ge _ _)) by lia. }
  rewrite Hck. st_simpl.
  assert (Hopt : (if negb (lua_isnoneornil args 2) then lift (luaL_checktype args 2 LUA_TFUNCTION) else mret tt) t = Ret (tt, t)).
  { destruct Hfn as [-> | E]; [done|]. unfold luaL_checktype. rewrite E. by destruct (negb _). }
  rewrite (st_bind_eq _ _ _ _ _ Hopt).
  destruct (auxsort_spec args call lessthan cmp D Hcmp Hord (Z.to_nat (lenZ l)) t f 1 (lenZ l) Ht Hroom ltac:(lia))
    as (t' & g & E & Ht' & Hr & Hsd).
  rewrite (st_bind_eq _ _ _ _ _ E). exists t', (elements g 1 (lenZ l)). split; [done|]. split_and!.
  - apply sequence_of; [done|unfold INT_MAX; lia| |].
    + intros k Hk. eapply room_nonnil; [exact Hord|by eapply room_rearranged|done].
    + intros k Hk. rewrite (rearranged_out _ _ _ _ _ Hr), Hff by lia. by apply field_nil.
  - rewrite (sequence_elements t l Hs) at 2. rewrite <- (elements_ext f (field l)) by (intros; apply Hff; lia).
    by apply rearranged_elements.
  - intros i j a b Hij Ha Hb. apply getZ_Some in Ha as Hi. apply getZ_Some in Hb as Hj. rewrite elements_length in Hi, Hj.
    replace i with (i + 1 - 1) in Ha by lia. replace j with (j + 1 - 1) in Hb by lia. rewrite elements_at in Ha, Hb by lia.
    injection Ha as <-. injection Hb as <-. apply Hsd; lia.
  - intros j Hj Hij. destruct Ht' as [_ ->]; [|done]. rewrite (rearranged_out _ _ _ _ _ Hr) by lia. unfold f.
    by rewrite decide_False by lia.
Qed.

(** ** [table.concat] *)

Fixpoint joined (sep : bytes) (ss : list bytes) : bytes :=
  match ss with
  | [] => []
  | [s] => s
  | s :: ss => s ++ sep ++ joined sep ss
  end.

Definition concat_error (v : TValue) (i : Z) : bytes :=
  luaL_where ++ str "invalid value (" ++ lua_typename (ttype v) ++ str ") at index " ++ fmt_d i
    ++ str " in table for 'concat'".

(** The strings of the fields from [i] to [i + k], or the first field that has none *)
Fixpoint strings_of f (i : Z) (k : nat) : (TValue * Z) + list bytes :=
  match luaV_tostring (f i) with
  | None => inl (f i, i)
  | Some s => match k with O => inr [s] | S k => match strings_of f (i + 1) k with inr ss => inr (s :: ss) | inl e => inl e end end
  end.

Lemma strings_of_nonempty f i k ss : strings_of f i k = inr ss -> ss <> [].
Proof. destruct k; cbn; destruct (luaV_tostring _); try done; [by intros [= <-]|]. destruct (strings_of _ _ _); [done|]. by intros [= <-]. Qed.

Lemma addfield_holds b i t f :
  holds t f -> is_i32 i ->
  match luaV_tostring (f i) with
  | Some s => addfield b i t = Ret (luaL_addvalue b s, t)
  | None => addfield b i t = Throw LUA_ERRRUN (concat_error (f i) i)
  end.
Proof.
  intros Ht Hi. unfold addfield. rewrite (st_bind_eq _ _ _ _ _ (rawgeti_holds t f i Ht Hi)).
  by destruct (luaV_tostring (f i)).
Qed.

Lemma concat_fields k sep b i t f :
  holds t f -> is_i32 i -> i + Z.of_nat k < INT_MAX ->
  match strings_of f i k with
  | inl (v, j) => (b ← concat_loop k sep b i; addfield b (i + Z.of_nat k)) t = Throw LUA_ERRRUN (concat_error v j)
  | inr ss => exists b', (b ← concat_loop k sep b i; addfield b (i + Z.of_nat k)) t = Ret (b', t) /\
      contents b' = contents b ++ joined sep ss
  end.
Proof.
  intros Ht. revert b i. induction k as [|k IH]; intros b i Hi Hmax; cbn [strings_of concat_loop]; unfold INT_MAX in *.
  - st_simpl. rewrite Z.add_0_r. pose proof (addfield_holds b i t f Ht Hi) as Ha. destruct (luaV_tostring (f i)) as [s|].
    + eexists. split; [exact Ha|]. apply addvalue_contents.
    + exact Ha.
  - rewrite st_bind_bind. pose proof (addfield_holds b i t f Ht Hi) as Ha. destruct (luaV_tostring (f i)) as [s|].
    + rewrite (st_bind_eq _ _ _ _ _ Ha).
      specialize (IH (luaL_addlstring (luaL_addvalue b s) sep) (i + 1) ltac:(unfold is_i32 in *; lia) ltac:(lia)).
      replace (i + 1 + Z.of_nat k) with (i + Z.of_nat (S k)) in IH by lia.
      destruct (strings_of f (i + 1) k) as [[v j]|ss] eqn:Ess; [exact IH|]. destruct IH as (b' & E & Hb').
      exists b'. split; [exact E|]. apply strings_of_nonempty in Ess. destruct ss as [|s' ss]; [done|].
      rewrite Hb', addlstring_contents, addvalue_contents. cbn [joined]. by rewrite <- !app_assoc.
    + unfold mbind, ST_bind. by rewrite Ha.
Qed.

(** C40: [table.concat(t, sep, i, j)] joins the strings and numbers of the
    fields from [i] to [j] with the separator between them, gives the empty
    string when [i] is after [j], and fails with a message that names the
    first index whose value has no string; the table is not changed. *)
Theorem concat_joins r sep i j t f :
  holds t f -> is_i32 i -> is_i32 j -> j < INT_MAX -> 
  tconcat [VTable r; VString sep; pushinteger i; pushinteger j] t =
    if j <? i then Ret ([VString []], t)
    else match strings_of f i (Z.to_nat (j - i)) with
         | inl (v, k) => Throw LUA_ERRRUN (concat_error v k)
         | inr ss => Ret ([VString (joined sep ss)], t)
         end.
Proof.
  intros Ht Hi Hj Hmax. unfold tconcat. set (args := [_; _; _; _]).
  change (luaL_optlstring args 2 []) with (Ret sep). change (luaL_checktype args 1 LUA_TTABLE) with (Ret tt).
  unfold luaL_optint, luaL_optinteger. change (lua_isnoneornil args 3) with false. change (lua_isnoneornil args 4) with false.
  cbn iota. rewrite (checkinteger_push args 3 i) by done. cbn [mbind outcome_bind]. rewrite i32_small by done. st_simpl.
  rewrite (checkint_push args 4 j) by done. st_simpl. destruct (Z.ltb_spec j i) as [Hlt|Hge].
  - replace (Z.to_nat (j - i)) with O by lia. cbn [concat_loop]. st_simpl.
    rewrite (proj2 (Z.ltb_ge i j)), (proj2 (Z.eqb_neq i j)) by lia. by st_simpl.
  - pose proof (concat_fields (Z.to_nat (j - i)) sep luaL_buffinit i t f Ht Hi ltac:(lia)) as Hc.
    replace (i + Z.of_nat (Z.to_nat (j - i))) with j in Hc by lia.
    assert (Hij : (if i <? j then j else i) = j) by (destruct (Z.ltb_spec i j); lia).
    rewrite Hij, Z.eqb_refl. rewrite <- st_bind_bind.
    destruct (strings_of f i _) as [[v k]|ss].
    + unfold mbind at 1, ST_bind at 1. by rewrite Hc.
    + destruct Hc as (b' & E & Hb'). rewrite (st_bind_eq _ _ _ _ _ E). st_simpl.
      by rewrite pushresult_contents, Hb'.
Qed.
End arrays.

(** ** Instances *)

#[local] Existing Instance toy_host.

#[local] Instance toy_env : Cenv := {|
  sprintf _ a := match a with FDouble n => match trunc n with Some z => fmt_d z | None => str "?" end | _ => [] end;
  BUFSIZ := 4;
  Auxlib.int_overflow _ := 0; long_overflow _ := 0; ulong_overflow _ := 0
|}.

#[local] Instance toy_frame : Frame := {| in_frame := true; namewhat := []; name := None; luaL_where := [] |}.

(** Three numbers in the array part *)
Definition three : Table := mkTable 255 None [num 3; num 1; num 2] 0 [dummynode] true 0.

Lemma three_sequence : sequence three [num 3; num 1; num 2].
Proof.
  split; [|done|by repeat constructor|].
  - exists [[0]]. by apply nodeless_tinv.
  - intros j Hj Hi. destruct (decide (j <= 3)) as [Hle|Hgt].
    + assert (j = 1 \/ j = 2 \/ j = 3) as [-> | [-> | ->]] by lia; vm_compute; reflexivity.
    + rewrite getZ_None by (change (lenZ _) with 3; lia).
      assert (Hel : elems three = [(num 1, num 3); (num 2, num 1); (num 3, num 2)]) by (vm_compute; reflexivity).
      change (raw_at three j) with (assoc (elems three) (num j)). rewrite Hel. cbn [assoc].
      rewrite !decide_False; [done|intros E; apply num_eq in E; (lia || done || by unfold is_i32)..].
Qed.

Definition number_lt (a b : TValue) : bool :=
  match a, b with VNumber x, VNumber y => luai_numlt x y | _, _ => false end.

Definition small (v : TValue) : Prop := v = num 1 \/ v = num 2 \/ v = num 3.

Lemma number_weak_order : weak_order number_lt small.
Proof.
  split.
  - by intros [E | [E | E]].
  - by intros a [-> | [-> | ->]].
  - by intros a b [-> | [-> | ->]] [-> | [-> | ->]].
  - by intros a b c [-> | [-> | ->]] [-> | [-> | ->]] [-> | [-> | ->]].
Qed.

Lemma sort_sorts_witness : exists t' l',
  sort [VTable 1] (fun _ _ => Undef) (fun a b t => Ret (number_lt a b, t)) three = Ret ([], t') /\ sequence t' l' /\
  l' ≡ₚ [num 3; num 1; num 2].
Proof.
  destruct (sort_sorts [VTable 1] (fun _ _ => Undef) (fun a b t => Ret (number_lt a b, t)) number_lt small three
    [num 3; num 1; num 2]) as (t' & l' & E & Hs & Hp & _).
  - split_and!; [by eexists _, _|vm_compute; discriminate|by left].
  - intros t f a b _ _ Ht. by exists t.
  - exact number_weak_order.
  - exact three_sequence.
  - repeat constructor; unfold small; tauto.
  - by exists t', l'.
Defined.

Lemma concat_joins_witness :
  tconcat [VTable 1; VString (str ", "); pushinteger 1; pushinteger 3] three = Ret ([VString (str "3, 1, 2")], three).
Proof.
  rewrite (concat_joins 1 (str ", ") 1 3 three _ (sequence_holds _ _ three_sequence));
    [vm_compute; reflexivity|unfold is_i32; lia|unfold is_i32; lia|reflexivity].
Defined.

Lemma insert_remove_roundtrip_witness :
  ends (tinsert [VTable 1; pushinteger 2; num 9] three) (fun vs t1 => vs = [] /\
    sequence t1 [num 3; num 9; num 1; num 2]).
Proof.
  eapply ends_mono; [apply (insert_remove_roundtrip 1 2 (num 9) three _ three_sequence); done|].
  by intros vs t1 (-> & Hs & _).
Defined.
