(* ===== verification/Strmatch.v ===== *)
(** * Pattern matching (lstrlib.c)

    A pointer into a string is an index; the byte behind a string is 0.  The
    functions that change the [MatchState] are computations over it.
    [match_] is [match]; its calls of itself are with a later part of the
    pattern. *)

From S2P Require Import Prelude Clib Object Lex Auxlib.

(** Reading a byte of a string, the terminator included *)
Definition rd (s : bytes) (i : Z) : outcome Z :=
  if i =? lenZ s then Ret 0 else deref (getZ s i).

Definition CAP_UNFINISHED : Z := -1.
Definition CAP_POSITION : Z := -2.
Definition LUA_MAXCAPTURES : Z := 32.

Definition L_ESC : Z := ch "%".
Definition SPECIALS : bytes := str "^$*+?.([%-".

(** [capture]: [init] and [len] of each; what has not been written is
    [None]. *)
Record MatchState := mkMatchState {
  level : Z;
  capture : list (option (Z * Z))
}.

Abbreviation Match := (ST MatchState).

(** ** Character classes *)

Definition match_class (c cl : Z) : bool :=
  let l := tolower cl in
  let class (res : bool) := if islower cl then res else negb res in
  if l =? ch "a" then class (isalpha c)
  else if l =? ch "c" then class (iscntrl c)
  else if l =? ch "d" then class (isdigit c)
  else if l =? ch "l" then class (islower c)
  else if l =? ch "p" then class (ispunct c)
  else if l =? ch "s" then class (isspace c)
  else if l =? ch "u" then class (isupper c)
  else if l =? ch "w" then class (isalnum c)
  else if l =? ch "x" then class (isxdigit c)
  else if l =? ch "z" then class (c =? 0)
  else cl =? c.

Section matching.
Context `{Cenv} `{Frame}.

Definition missing_bracket {A} : outcome A := luaL_error (str "malformed pattern (missing ']')").
Definition ends_with_escape {A} : outcome A := luaL_error (str "malformed pattern (ends with '%')").

(** The pattern [pat] and the subject [src] *)
Section pattern.
Variable pat : bytes.
Variable src : bytes.

Definition src_end : Z := lenZ src.

(** [do { ... } while ( *p != ']' )] *)
Fixpoint class_loop (fuel : nat) (p : Z) : outcome Z :=
  c ← rd pat p;
  if c =? 0 then missing_bracket
  else
    let p := p + 1 in
    d ← rd pat p;
    p ← (if (c =? L_ESC) && negb (d =? 0) then Ret (p + 1) else Ret p);
    d ← rd pat p;
    if d =? ch "]" then Ret (p + 1)
    else match fuel with O => Nofuel | S fuel => class_loop fuel p end.

Definition classend (p : Z) : outcome Z :=
  c ← rd pat p;
  let p := p + 1 in
  if c =? L_ESC then
    d ← rd pat p;
    if d =? 0 then ends_with_escape else Ret (p + 1)
  else if c =? ch "[" then
    d ← rd pat p;
    class_loop (length pat) (if d =? ch "^" then p + 1 else p)
  else Ret p.

(** [p] is before the next element of the set. *)
Fixpoint bracket_loop (fuel : nat) (c p ec : Z) (sig : bool) : outcome bool :=
  let p := p + 1 in
  if p <? ec then
    match fuel with
    | O => Nofuel
    | S fuel =>
        x ← rd pat p;
        if x =? L_ESC then
          let p := p + 1 in
          y ← rd pat p;
          if match_class c y then Ret sig else bracket_loop fuel c p ec sig
        else
          y ← rd pat (p + 1);
          if (y =? ch "-") && (p + 2 <? ec) then
            z ← rd pat (p + 2);
            if (x <=? c) && (c <=? z) then Ret sig else bracket_loop fuel c (p + 2) ec sig
          else if x =? c then Ret sig
          else bracket_loop fuel c p ec sig
    end
  else Ret (negb sig).

Definition matchbracketclass (c p ec : Z) : outcome bool :=
  x ← rd pat (p + 1);
  if x =? ch "^" then bracket_loop (length pat) c (p + 1) ec false
  else bracket_loop (length pat) c p ec true.

Definition singlematch (c p ep : Z) : outcome bool :=
  x ← rd pat p;
  if x =? ch "." then Ret true
  else if x =? L_ESC then y ← rd pat (p + 1); Ret (match_class c y)
  else if x =? ch "[" then matchbracketclass c p (ep - 1)
  else Ret (x =? c).

(** [s < ms->src_end && singlematch( *s, p, ep )] *)
Definition item_matches (s p ep : Z) : outcome bool :=
  if s <? src_end then c ← rd src s; singlematch c p ep else Ret false.

(** ** Captures *)

Definition get_capture (l : Z) : Match (Z * Z) := fun ms =>
  match getZ (capture ms) l with Some (Some c) => Ret (c, ms) | _ => Undef end.

Definition set_capture (l init len : Z) : Match unit := fun ms =>
  deref (getZ (capture ms) l);;
  Ret (tt, mkMatchState (level ms) (setZ (capture ms) l (Some (init, len)))).

Definition set_level (l : Z) : Match unit := modify (fun ms => mkMatchState l (capture ms)).

Definition match_error {A} (msg : bytes) : Match A := lift (luaL_error msg).

Definition check_capture (l : Z) : Match Z :=
  let l := l - ch "1" in
  lv ← gets level;
  if (l <? 0) || (lv <=? l) then match_error (str "invalid capture index")
  else
    c ← get_capture l;
    if snd c =? CAP_UNFINISHED then match_error (str "invalid capture index") else mret l.

(** The levels below [n], from the last one *)
Fixpoint close_loop (n : nat) : Match Z :=
  match n with
  | O => match_error (str "invalid pattern capture")
  | S n => c ← get_capture (Z.of_nat n); if snd c =? CAP_UNFINISHED then mret (Z.of_nat n) else close_loop n
  end.

Definition capture_to_close : Match Z := lv ← gets level; close_loop (Z.to_nat lv).

(** ** Items *)

(** [s] is before the next character. *)
Fixpoint balance_loop (fuel : nat) (s b e cont : Z) : outcome (option Z) :=
  let s := s + 1 in
  if s <? src_end then
    match fuel with
    | O => Nofuel
    | S fuel =>
        c ← rd src s;
        if c =? e then
          let cont := cont - 1 in
          if cont =? 0 then Ret (Some (s + 1)) else balance_loop fuel s b e cont
        else if c =? b then balance_loop fuel s b e (cont + 1)
        else balance_loop fuel s b e cont
    end
  else Ret None.

Definition matchbalance (s p : Z) : outcome (option Z) :=
  b ← rd pat p;
  e ← (if b =? 0 then Ret 0 else rd pat (p + 1));
  if (b =? 0) || (e =? 0) then luaL_error (str "unbalanced pattern")
  else
    c ← rd src s;
    if negb (c =? b) then Ret None
    else balance_loop (length src) s b e 1.

(** The [len] characters at [i] *)
Definition text (i len : Z) : outcome bytes :=
  if (0 <=? i) && (0 <=? len) && (i + len <=? src_end)
  then Ret (take (Z.to_nat len) (drop (Z.to_nat i) src)) else Undef.

Definition match_capture (s l : Z) : Match (option Z) :=
  l ← check_capture l;
  c ← get_capture l;
  let '(init, len) := c in
  let len := u64 len in
  if len <=? src_end - s then
    a ← lift (text init len);
    b ← lift (text s len);
    mret (if bool_decide (a = b) then Some (s + len) else None)
  else mret None.

Definition frontier (s p ep : Z) : outcome bool :=
  previous ← (if s =? 0 then Ret 0 else rd src (s - 1));
  b1 ← matchbracketclass previous p (ep - 1);
  if (b1 : bool) then Ret false
  else c ← rd src s; matchbracketclass c p (ep - 1).

Section rules.
(** [match], for the rest of the pattern *)
Variable match_rest : Z -> Z -> Match (option Z).

(** How often the item matches *)
Fixpoint count_max (fuel : nat) (s p ep i : Z) : outcome Z :=
  m ← item_matches (s + i) p ep;
  if (m : bool) then match fuel with O => Nofuel | S fuel => count_max fuel s p ep (i + 1) end
  else Ret i.

Fixpoint try_max (n : nat) (s ep : Z) : Match (option Z) :=
  res ← match_rest (s + Z.of_nat n) (ep + 1);
  match res with
  | Some r => mret (Some r)
  | None => match n with O => mret None | S n => try_max n s ep end
  end.

Definition max_expand (s p ep : Z) : Match (option Z) :=
  i ← lift (count_max (length src) s p ep 0);
  try_max (Z.to_nat i) s ep.

Fixpoint min_expand (fuel : nat) (s p ep : Z) : Match (option Z) :=
  res ← match_rest s (ep + 1);
  match res with
  | Some r => mret (Some r)
  | None =>
      m ← lift (item_matches s p ep);
      if (m : bool) then match fuel with O => nofuel | S fuel => min_expand fuel (s + 1) p ep end
      else mret None
  end.

Definition start_capture (s p what : Z) : Match (option Z) :=
  lv ← gets level;
  if LUA_MAXCAPTURES <=? lv then match_error (str "too many captures")
  else
    set_capture lv s what;;
    set_level (lv + 1);;
    res ← match_rest s p;
    match res with
    | Some r => mret (Some r)
    | None => lv ← gets level; set_level (lv - 1);; mret None
    end.

Definition end_capture (s p : Z) : Match (option Z) :=
  l ← capture_to_close;
  c ← get_capture l;
  set_capture l (fst c) (s - fst c);;
  res ← match_rest s p;
  match res with
  | Some r => mret (Some r)
  | None =>
      c ← get_capture l;
      set_capture l (fst c) CAP_UNFINISHED;;
      mret None
  end.

(** [default:] a single character or a repetition of it *)
Definition match_default (s p : Z) : Match (option Z) :=
  ep ← lift (classend p);
  m ← lift (item_matches s p ep);
  e ← lift (rd pat ep);
  if e =? ch "?" then
    res ← (if (m : bool) then match_rest (s + 1) (ep + 1) else mret None);
    match res with
    | Some r => mret (Some r)
    | None => match_rest s (ep + 1)
    end
  else if e =? ch "*" then max_expand s p ep
  else if e =? ch "+" then if (m : bool) then max_expand (s + 1) p ep else mret None
  else if e =? ch "-" then min_expand (length src) s p ep
  else if (m : bool) then match_rest (s + 1) ep else mret None.

Definition match_step (s p : Z) : Match (option Z) :=
  c ← lift (rd pat p);
  if c =? ch "(" then
    d ← lift (rd pat (p + 1));
    if d =? ch ")" then start_capture s (p + 2) CAP_POSITION
    else start_capture s (p + 1) CAP_UNFINISHED
  else if c =? ch ")" then end_capture s (p + 1)
  else if c =? L_ESC then
    d ← lift (rd pat (p + 1));
    if d =? ch "b" then
      r ← lift (matchbalance s (p + 2));
      match r with Some s => match_rest s (p + 4) | None => mret None end
    else if d =? ch "f" then
      let p := p + 2 in
      x ← lift (rd pat p);
      if negb (x =? ch "[") then match_error (str "missing '[' after '%f' in pattern")
      else
        ep ← lift (classend p);
        b ← lift (frontier s p ep);
        if (b : bool) then match_rest s ep else mret None
    else if isdigit d then
      r ← match_capture s d;
      match r with Some s => match_rest s (p + 2) | None => mret None end
    else match_default s p
  else if c =? 0 then mret (Some s)
  else if c =? ch "$" then
    d ← lift (rd pat (p + 1));
    if d =? 0 then mret (if s =? src_end then Some s else None) else match_default s p
  else match_default s p.
End rules.

Fixpoint match_ (fuel : nat) (s p : Z) : Match (option Z) :=
  match fuel with
  | O => nofuel
  | S fuel => match_step (match_ fuel) s p
  end.

(** The pattern has less than [length pat + 1] items. *)
Definition do_match (s p : Z) : Match (option Z) := match_ (S (length pat)) s p.
End pattern.
End matching.

Definition match_state0 : MatchState := mkMatchState 0 (replicate (Z.to_nat LUA_MAXCAPTURES) None).

(** ** Examples *)

Section examples.
#[local] Instance ex_env : Cenv := {| sprintf _ _ := []; BUFSIZ := 8192; int_overflow _ := 0; long_overflow _ := 0; ulong_overflow _ := 0 |}.
#[local] Instance ex_frame : Frame := {| in_frame := true; namewhat := []; name := None; luaL_where := [] |}.

Definition run_match (src pat : bytes) : option (option Z * list (option (Z * Z))) :=
  match do_match pat src 0 0 match_state0 with
  | Ret (r, ms) => Some (r, take (Z.to_nat (level ms)) (capture ms))
  | _ => None
  end.

Example match_ex1 : run_match (str "key = value") (str "(%a+)%s*=%s*(%a+)") =
  Some (Some 11, [Some (0, 3); Some (6, 5)]).
Proof. vm_compute. reflexivity. Qed.
Example match_ex2 : run_match (str "f(a(b)c)d") (str "f%b()()") = Some (Some 8, [Some (8, -2)]).
Proof. vm_compute. reflexivity. Qed.
Example match_ex3 : run_match (str "aab") (str "(a-)%1b$") = Some (Some 3, [Some (0, 1)]).
Proof. vm_compute. reflexivity. Qed.
Example match_ex4 : run_match (str "THE (quick)") (str "%f[%a]%a+%f[^%a]") = Some (Some 3, []).
Proof. vm_compute. reflexivity. Qed.
Example match_ex5 : run_match (str "x]y") (str "[^]-a%d]+") = Some (Some 1, []).
Proof. vm_compute. reflexivity. Qed.
End examples.
