(* ===== verification/Strsem.v ===== *)
(** * The meaning of patterns

    A pattern is a list of items.  An item goes from a state to a list of
    states, the preferred one first; [matches] are the results of a list of
    items in the order of a search in depth first.  [match] finds the first
    one. *)

From S2P Require Import Prelude Clib Object Lex Auxlib Strmatch.

(** ** Items *)

(** An element of a set *)
Inductive celt :=
| EClass (cl : Z)
| ERange (a b : Z)
| EChar (c : Z).

Inductive cls :=
| CAny
| CClass (cl : Z)
| CSet (negated : bool) (set : list celt)
| CChar (c : Z).

Inductive repeat := One | Optional | Greedy | Greedy1 | Lazy.

Inductive item :=
| IOpen (what : Z)
| IClose
| IBalance (b e : Z)
| IFrontier (set : cls)
| IBack (digit : Z)
| IEos
| ISingle (x : cls) (r : repeat)
| IError (msg : bytes).

(** ** Reading a pattern *)

(** The elements between the brackets; a percent sign at the end (after a
    range that ends in one) takes the bracket. *)
Fixpoint set_elements (l : bytes) : list celt :=
  match l with
  | [] => []
  | x :: l1 =>
      if x =? L_ESC then
        match l1 with
        | y :: l2 => EClass y :: set_elements l2
        | [] => [EClass (ch "]")]
        end
      else
        match l1 with
        | y :: z :: l2 => if y =? ch "-" then ERange x z :: set_elements l2 else EChar x :: set_elements l1
        | _ => EChar x :: set_elements l1
        end
  end.

(** The text up to the closing bracket, which is not the first character and
    not escaped, and what follows it *)
Fixpoint split_set (l : bytes) : option (bytes * bytes) :=
  let close (taken l : bytes) (more : option (bytes * bytes)) :=
    match l with
    | d :: r => if d =? ch "]" then Some (taken, r)
                else match more with Some (a, r) => Some (taken ++ a, r) | None => None end
    | [] => None
    end in
  match l with
  | [] => None
  | c :: l1 =>
      if c =? L_ESC then
        match l1 with
        | d :: l2 => close [c; d] l2 (split_set l2)
        | [] => None
        end
      else close [c] l1 (split_set l1)
  end.

Definition read_set (l : bytes) : option (cls * bytes) :=
  let '(neg, l) := match l with c :: r => if c =? ch "^" then (true, r) else (false, l) | [] => (false, l) end in
  match split_set l with
  | Some (set, r) => Some (CSet neg (set_elements set), r)
  | None => None
  end.

Definition msg_missing : bytes := str "malformed pattern (missing ']')".
Definition msg_escape : bytes := str "malformed pattern (ends with '%')".

Definition read_class (c : Z) (l : bytes) : (cls * bytes) + bytes :=
  if c =? L_ESC then match l with d :: r => inl (CClass d, r) | [] => inr msg_escape end
  else if c =? ch "[" then match read_set l with Some x => inl x | None => inr msg_missing end
  else if c =? ch "." then inl (CAny, l)
  else inl (CChar c, l).

Definition read_single (c : Z) (l : bytes) : item * bytes :=
  match read_class c l with
  | inr msg => (IError msg, [])
  | inl (x, l) =>
      match l with
      | d :: r =>
          if d =? ch "?" then (ISingle x Optional, r)
          else if d =? ch "*" then (ISingle x Greedy, r)
          else if d =? ch "+" then (ISingle x Greedy1, r)
          else if d =? ch "-" then (ISingle x Lazy, r)
          else (ISingle x One, l)
      | [] => (ISingle x One, [])
      end
  end.

Definition read_item (c : Z) (l : bytes) : item * bytes :=
  if c =? ch "(" then
    match l with
    | d :: r => if d =? ch ")" then (IOpen CAP_POSITION, r) else (IOpen CAP_UNFINISHED, l)
    | [] => (IOpen CAP_UNFINISHED, l)
    end
  else if c =? ch ")" then (IClose, l)
  else if c =? L_ESC then
    match l with
    | d :: r =>
        if d =? ch "b" then
          match r with
          | b :: e :: r => (IBalance b e, r)
          | _ => (IError (str "unbalanced pattern"), [])
          end
        else if d =? ch "f" then
          match r with
          | x :: r =>
              if x =? ch "[" then
                match read_set r with Some (set, r) => (IFrontier set, r) | None => (IError msg_missing, []) end
              else (IError (str "missing '[' after '%f' in pattern"), [])
          | [] => (IError (str "missing '[' after '%f' in pattern"), [])
          end
        else if isdigit d then (IBack d, r)
        else read_single c l
    | [] => read_single c l
    end
  else if c =? ch "$" then match l with [] => (IEos, []) | _ => read_single c l end
  else read_single c l.

(** An item has at least one character. *)
Fixpoint parse_fuel (fuel : nat) (l : bytes) : list item :=
  match fuel, l with
  | S fuel, c :: l => let '(i, r) := read_item c l in i :: parse_fuel fuel r
  | _, _ => []
  end.

Definition parse (l : bytes) : list item := parse_fuel (length l) l.

(** ** The results of a pattern *)

Definition in_element (c : Z) (e : celt) : bool :=
  match e with
  | EClass cl => match_class c cl
  | ERange a b => (a <=? c) && (c <=? b)
  | EChar x => x =? c
  end.

Definition in_class (c : Z) (x : cls) : bool :=
  match x with
  | CAny => true
  | CClass cl => match_class c cl
  | CSet neg set => if neg then negb (existsb (in_element c) set) else existsb (in_element c) set
  | CChar d => d =? c
  end.

Inductive result :=
| Good (s : Z) (caps : list (Z * Z))
| Bad (msg : bytes).

Section meaning.
Variable src : bytes.

(** The character at [s], 0 at the end *)
Definition char_at (s : Z) : Z := default 0 (getZ src s).

Definition matches_at (x : cls) (s : Z) : bool := (s <? lenZ src) && in_class (char_at s) x.

(** How many characters from the list are in the class *)
Fixpoint run_length (x : cls) (l : bytes) : nat :=
  match l with
  | c :: l => if in_class c x then S (run_length x l) else O
  | [] => O
  end.

Definition from (s : Z) : bytes := drop (Z.to_nat s) src.

(** The positions after [0 .. n] repetitions *)
Definition repetitions (s : Z) (n : nat) : list Z := (fun i => s + Z.of_nat i) <$> seq 0 (S n).

Definition positions (x : cls) (r : repeat) (s : Z) : list Z :=
  let n := run_length x (from s) in
  match r with
  | One => if matches_at x s then [s + 1] else []
  | Optional => (if matches_at x s then [s + 1] else []) ++ [s]
  | Greedy => rev (repetitions s n)
  | Greedy1 => if matches_at x s then rev (repetitions (s + 1) (pred n)) else []
  | Lazy => repetitions s n
  end.

(** The text after the closing character, [cont] levels deep *)
Fixpoint balance (b e : Z) (cont : Z) (l : bytes) : option bytes :=
  match l with
  | [] => None
  | c :: l =>
      if c =? e then if cont - 1 =? 0 then Some l else balance b e (cont - 1) l
      else if c =? b then balance b e (cont + 1) l
      else balance b e cont l
  end.

Definition balanced (b e s : Z) : option Z :=
  if (s <? lenZ src) && (char_at s =? b) then
    match balance b e 1 (from (s + 1)) with Some r => Some (lenZ src - lenZ r) | None => None end
  else None.

(** The last open capture *)
Fixpoint open_capture (n : nat) (caps : list (Z * Z)) : option nat :=
  match n with
  | O => None
  | S n =>
      match caps !! n with
      | Some (_, len) => if len =? CAP_UNFINISHED then Some n else open_capture n caps
      | None => None
      end
  end.

Definition msg_index : bytes := str "invalid capture index".

(** The text of a capture again *)
Definition back (d s : Z) (caps : list (Z * Z)) : list result :=
  let l := d - ch "1" in
  match getZ caps l with
  | None => [Bad msg_index]
  | Some (init, len) =>
      if len =? CAP_UNFINISHED then [Bad msg_index]
      else if (0 <=? len) && (len <=? lenZ src - s)
           && bool_decide (take (Z.to_nat len) (from init) = take (Z.to_nat len) (from s))
      then [Good (s + len) caps] else []
  end.

(** The results of one item *)
Definition alts (i : item) (s : Z) (caps : list (Z * Z)) : list result :=
  match i with
  | IOpen what =>
      if LUA_MAXCAPTURES <=? lenZ caps then [Bad (str "too many captures")] else [Good s (caps ++ [(s, what)])]
  | IClose =>
      match open_capture (length caps) caps with
      | None => [Bad (str "invalid pattern capture")]
      | Some l => [Good s (alter (fun c => (fst c, s - fst c)) l caps)]
      end
  | IBalance b e => match balanced b e s with Some s => [Good s caps] | None => [] end
  | IFrontier set =>
      let previous := if s =? 0 then 0 else char_at (s - 1) in
      if negb (in_class previous set) && in_class (char_at s) set then [Good s caps] else []
  | IBack d => back d s caps
  | IEos => if s =? lenZ src then [Good s caps] else []
  | ISingle x r => (fun s => Good s caps) <$> positions x r s
  | IError msg => [Bad msg]
  end.

Fixpoint matches (l : list item) (s : Z) (caps : list (Z * Z)) : list result :=
  match l with
  | [] => [Good s caps]
  | i :: l =>
      flat_map (fun r => match r with Good s caps => matches l s caps | Bad msg => [Bad msg] end)
        (alts i s caps)
  end.
End meaning.
