(* ===== verification/Strfacts.v ===== *)
(** * The matcher finds the first result

    The parts of [match] against [Strsem]: sets and classes, items, the
    search. *)

From S2P Require Import Prelude Clib Object Lex Auxlib Strmatch Strsem.

Section reading.
Context `{Cenv} `{Frame}.
Variable pat : bytes.

(** [l] is what follows [p] in the pattern. *)
Definition at_ (p : Z) (l : bytes) : Prop := 0 <= p /\ p + lenZ l = lenZ pat /\ drop (Z.to_nat p) pat = l.

Lemma at_start : at_ 0 pat.
Proof. split; [lia|]. by rewrite drop_0. Qed.

Lemma at_next p c l : at_ p (c :: l) -> at_ (p + 1) l.
Proof.
  intros (Hp & Hl & Hd). rewrite lenZ_cons in Hl. split; [lia|]. split; [lia|].
  rewrite Z2Nat.inj_add by lia. change (Z.to_nat 1) with 1%nat. rewrite <- drop_drop, Hd. done.
Qed.

Lemma at_rd p l : at_ p l -> rd pat p = Ret (default 0 (head l)).
Proof.
  intros (Hp & Hl & Hd). unfold rd. destruct l as [|c l]; cbn [head default].
  - unfold lenZ in Hl at 1. cbn in Hl. rewrite (proj2 (Z.eqb_eq _ _)) by lia. done.
  - rewrite lenZ_cons in Hl. pose proof (lenZ_nonneg l). rewrite (proj2 (Z.eqb_neq _ _)) by lia.
    assert (Hg : getZ pat p = Some c).
    { unfold getZ. rewrite (proj2 (Z.leb_le 0 p)) by lia. rewrite <- (Nat.add_0_r (Z.to_nat p)), <- lookup_drop, Hd. done. }
    by rewrite Hg.
Qed.

Lemma at_cons p c l : at_ p (c :: l) -> rd pat p = Ret c.
Proof. intros Ha. by rewrite (at_rd _ _ Ha). Qed.

Lemma at_nil p : at_ p [] -> rd pat p = Ret 0.
Proof. intros Ha. by rewrite (at_rd _ _ Ha). Qed.

Lemma head_cstr l : default 0 (head (cstr l)) = default 0 (head l).
Proof. destruct l as [|c l]; cbn [cstr]; [done|]. destruct (Z.eqb_spec c 0); [by subst|done]. Qed.

(** The next character: the end of the pattern, or one that is not zero *)
Lemma cstr_next p l :
  at_ p l -> (cstr l = [] /\ rd pat p = Ret 0) \/
  exists c r, l = c :: r /\ c <> 0 /\ cstr l = c :: cstr r /\ rd pat p = Ret c /\ at_ (p + 1) r.
Proof.
  intros Ha. pose proof (at_rd p l Ha) as Hr. destruct l as [|c r]; [by left|]. cbn [cstr].
  cbn [head default] in Hr. destruct (Z.eqb_spec c 0) as [->|Hc]; [by left|right].
  exists c, r. split_and!; try done. by eapply at_next.
Qed.

Lemma cstr_length l : (length (cstr l) <= length l)%nat.
Proof. induction l as [|c l IH]; cbn; [done|]. destruct (c =? 0); cbn; lia. Qed.

Lemma at_length p l : at_ p l -> (length l <= length pat)%nat.
Proof. intros (Hp & Hl & _). unfold lenZ in Hl. lia. Qed.

(** ** Sets *)

(** The end of a set: [r] follows at [ep], [taken] is before the bracket. *)
Record set_end (p : Z) (taken : bytes) (r0 : bytes) (ep : Z) : Prop := {
se_r : exists r, at_ ep r /\ r0 = cstr r;
se_pos : ep = p + lenZ taken + 1;
se_taken : exists r, at_ p (taken ++ ch "]" :: r)
}.

Lemma class_loop_spec fuel p l :
  at_ p l -> (length (cstr l) <= fuel)%nat ->
  match split_set (cstr l) with
  | Some (taken, r) => exists ep, class_loop pat fuel p = Ret ep /\ set_end p taken r ep
  | None => class_loop pat fuel p = missing_bracket
  end.
Proof.
  revert p l. induction fuel as [|fuel IH]; intros p l Ha Hf;
    (destruct (cstr_next p l Ha) as [[E Hr]|(c & r & -> & Hc & E & Hr & Ha1)];
      [cbn [class_loop]; rewrite E, Hr; reflexivity|]).
  { rewrite E in Hf. cbn in Hf. lia. }
  cbn [class_loop]. rewrite Hr. cbn [mbind outcome_bind]. rewrite (proj2 (Z.eqb_neq c 0)) by done.
  rewrite E in *. cbn [length] in Hf.
  (* what comes after the characters taken *)
  assert (Hstep : forall tk p1 l1, at_ p1 l1 -> p1 = p + lenZ tk -> at_ p (tk ++ l1) ->
    (length (cstr l1) <= fuel)%nat ->
    match (match cstr l1 with
      | d :: r => if d =? ch "]" then Some (tk, r)
                  else match split_set (cstr l1) with Some (a, r) => Some (tk ++ a, r) | None => None end
      | [] => None end) with
    | Some (taken, r0) => exists ep, (d ← rd pat p1; if d =? ch "]" then Ret (p1 + 1) else class_loop pat fuel p1) = Ret ep
        /\ set_end p taken r0 ep
    | None => (d ← rd pat p1; if d =? ch "]" then Ret (p1 + 1) else class_loop pat fuel p1) = missing_bracket
    end).
  { intros tk p1 l1 Hp1 Ep Htk Hl1. pose proof (IH p1 l1 Hp1 Hl1) as HI.
    destruct (cstr_next p1 l1 Hp1) as [[E1 Hr1]|(d & r1 & -> & Hd & E1 & Hr1 & Ha2)]; rewrite Hr1; cbn [mbind outcome_bind].
    - rewrite E1 in *. cbn [split_set] in HI. change (0 =? ch "]") with false. cbn iota. exact HI.
    - rewrite E1 in *. destruct (Z.eqb_spec d (ch "]")) as [->|Hne].
      + exists (p1 + 1). split; [done|]. split; [by exists r1|lia|by exists r1].
      + destruct (split_set (d :: cstr r1)) as [[a r0]|]; [|exact HI].
        destruct HI as (ep & -> & [[r2 H2] H3 (r3 & H4)]). exists ep. split; [done|].
        split; [by exists r2|rewrite lenZ_app; lia|]. exists r3.
        destruct Htk as (T1 & T2 & T3). destruct H4 as (U1 & U2 & U3). split; [done|].
        rewrite <- app_assoc. assert (Ew : d :: r1 = a ++ ch "]" :: r3).
        { rewrite <- U3. destruct Hp1 as (_ & _ & V3). done. }
        rewrite <- Ew. done. }
  cbn [split_set]. destruct (Z.eqb_spec c L_ESC) as [Ec|Ec]; cbn [andb].
  - destruct (cstr_next (p + 1) r Ha1) as [[E1 Hr1]|(d & r1 & -> & Hd & E1 & Hr1 & Ha2)]; rewrite Hr1; cbn [mbind outcome_bind].
    + rewrite E1. change (negb (0 =? 0)) with false. cbn iota. cbn [mbind outcome_bind]. rewrite Hr1. cbn [mbind outcome_bind].
      change (0 =? ch "]") with false. cbn iota.
      specialize (IH (p + 1) r Ha1). rewrite E1 in IH. apply IH. cbn. lia.
    + rewrite E1 in *. rewrite (proj2 (Z.eqb_neq d 0)) by done. cbn [negb mbind outcome_bind].
      apply (Hstep [c; d] (p + 1 + 1) r1); [done|unfold lenZ; cbn; lia|done|cbn [length] in Hf; lia].
  - rewrite (at_rd _ _ Ha1). cbn [mbind outcome_bind].
    pose proof (Hstep [c] (p + 1) r Ha1 ltac:(unfold lenZ; cbn; lia) Ha ltac:(lia)) as Hs.
    rewrite (at_rd _ _ Ha1) in *. exact Hs.
Qed.

(** The elements of a set *)
Lemma bracket_loop_spec fuel c p taken r ec sig :
  at_ (p + 1) (taken ++ ch "]" :: r) -> ec = p + 1 + lenZ taken -> (length taken <= fuel)%nat ->
  bracket_loop pat fuel c p ec sig =
    Ret (if existsb (in_element c) (set_elements taken) then sig else negb sig).
Proof.
  revert p taken. induction fuel as [|fuel IH]; intros p taken Ha He Hf; cbn [bracket_loop].
  { destruct taken; [|cbn in Hf; lia]. rewrite (proj2 (Z.ltb_ge _ _)) by (unfold lenZ in He; cbn in He; lia). done. }
  destruct taken as [|x t1].
  { rewrite (proj2 (Z.ltb_ge _ _)) by (unfold lenZ in He; cbn in He; lia). done. }
  rewrite lenZ_cons in He. pose proof (lenZ_nonneg t1) as Ht1. rewrite (proj2 (Z.ltb_lt _ _)) by lia.
  cbn [app] in Ha. rewrite (at_cons _ _ _ Ha). cbn [mbind outcome_bind]. pose proof (at_next _ _ _ Ha) as Ha1.
  cbn [set_elements length] in *. destruct (Z.eqb_spec x L_ESC) as [Ex|Ex].
  - destruct t1 as [|y t2]; cbn [app] in Ha1; rewrite (at_cons _ _ _ Ha1); cbn [mbind outcome_bind existsb in_element].
    + destruct (match_class c (ch "]")); cbn [orb]; [done|]. destruct fuel; cbn [bracket_loop];
        rewrite (proj2 (Z.ltb_ge _ _)) by (unfold lenZ in He; cbn in He; lia); done.
    + destruct (match_class c y); cbn [orb]; [done|]. rewrite lenZ_cons in He. cbn [length] in Hf.
      apply (IH (p + 1 + 1) t2); [by eapply at_next|lia|lia].
  - (* a range or a character *)
    assert (Hchar : (if x =? c then Ret sig else bracket_loop pat fuel c (p + 1) ec sig) =
      Ret (if existsb (in_element c) (EChar x :: set_elements t1) then sig else negb sig)).
    { cbn [existsb in_element]. destruct (x =? c); cbn [orb]; [done|]. apply (IH (p + 1) t1); [done|lia|lia]. }
    destruct t1 as [|y t2]; cbn [app] in Ha1; rewrite (at_cons _ _ _ Ha1); cbn [mbind outcome_bind].
    { change (ch "]" =? ch "-") with false. cbn [andb]. exact Hchar. }
    destruct (Z.eqb_spec y (ch "-")) as [Ey|Ey]; cbn [andb].
    2:{ destruct t2; [exact Hchar|]. exact Hchar. }
    pose proof (at_next _ _ _ Ha1) as Ha2. rewrite lenZ_cons in He.
    destruct t2 as [|z t3]; cbn [app] in Ha2.
    { rewrite (proj2 (Z.ltb_ge _ _)) by (unfold lenZ in He; cbn in He; lia). exact Hchar. }
    rewrite lenZ_cons in He. pose proof (lenZ_nonneg t3). rewrite (proj2 (Z.ltb_lt _ _)) by lia.
    replace (p + 1 + 2) with (p + 1 + 1 + 1) by lia. rewrite (at_cons _ _ _ Ha2). cbn [mbind outcome_bind].
    cbn [existsb in_element]. destruct ((x <=? c) && (c <=? z)); cbn [orb]; [done|].
    cbn [length] in Hf. apply (IH (p + 1 + 1 + 1) t3); [|lia|lia]. by eapply at_next.
Qed.

Lemma set_read p l :
  at_ p (ch "[" :: l) ->
  match read_set (cstr l) with
  | Some (x, r) => exists ep r', classend pat p = Ret ep /\ at_ ep r' /\ r = cstr r' /\
      forall c, matchbracketclass pat c p (ep - 1) = Ret (in_class c x)
  | None => classend pat p = missing_bracket
  end.
Proof.
  intros Ha. pose proof (at_next _ _ _ Ha) as Ha1.
  unfold classend, matchbracketclass, read_set. rewrite (at_cons _ _ _ Ha). cbn [mbind outcome_bind].
  change (ch "[" =? L_ESC) with false. change (ch "[" =? ch "[") with true. cbn iota.
  (* the set itself, from [q + 1] *)
  assert (Hset : forall q l (neg : bool), at_ (q + 1) l ->
    match (match split_set (cstr l) with
      | Some (set, r) => Some (CSet neg (set_elements set), r) | None => None end) with
    | Some (x, r) => exists ep r', class_loop pat (length pat) (q + 1) = Ret ep /\ at_ ep r' /\ r = cstr r' /\
        forall c, bracket_loop pat (length pat) c q (ep - 1) (negb neg) = Ret (in_class c x)
    | None => class_loop pat (length pat) (q + 1) = missing_bracket
    end).
  { clear. intros q l neg Ha.
    pose proof (class_loop_spec (length pat) _ _ Ha) as Hl.
    destruct (split_set (cstr l)) as [[taken r]|].
    - destruct Hl as (ep & -> & [(r' & Hr' & ->) Hep (r2 & Ht)]).
      { etrans; [apply cstr_length|]. by eapply at_length. }
      exists ep, r'. split_and!; [done..|]. intros c.
      rewrite (bracket_loop_spec _ c q taken r2); [|done|lia|].
      + cbn [in_class]. by destruct neg, (existsb _ _).
      + apply at_length in Ht. rewrite length_app in Ht. lia.
    - apply Hl. etrans; [apply cstr_length|]. by eapply at_length. }
  destruct (cstr_next _ _ Ha1) as [[E Hr]|(d & r & -> & Hd & E & Hr & Ha2)]; rewrite Hr; cbn [mbind outcome_bind].
  - change (0 =? ch "^") with false. cbn iota. specialize (Hset p l false Ha1). rewrite E in *. exact Hset.
  - rewrite E. destruct (Z.eqb_spec d (ch "^")) as [->|Hne].
    + exact (Hset (p + 1) r true Ha2).
    + rewrite <- E. exact (Hset p (d :: r) false Ha1).
Qed.

(** A class from [p] *)
Lemma class_spec p c l :
  at_ p (c :: l) ->
  match read_class c (cstr l) with
  | inl (x, r) => exists ep r', classend pat p = Ret ep /\ at_ ep r' /\ r = cstr r' /\
      forall d, singlematch pat d p ep = Ret (in_class d x)
  | inr msg => classend pat p = luaL_error msg
  end.
Proof.
  intros Ha. pose proof (at_next _ _ _ Ha) as Ha1. unfold read_class.
  destruct (Z.eqb_spec c L_ESC) as [->|Hesc]; [|destruct (Z.eqb_spec c (ch "[")) as [->|Hset]].
  - unfold classend, singlematch. rewrite (at_cons _ _ _ Ha). cbn [mbind outcome_bind].
    destruct (cstr_next _ _ Ha1) as [[-> Hr]|(d & r & -> & Hd & -> & Hr & Ha2)]; rewrite Hr; cbn [mbind outcome_bind].
    + done.
    + rewrite (proj2 (Z.eqb_neq d 0) Hd). exists (p + 1 + 1), r. done.
  - pose proof (set_read p l Ha) as Hs. destruct (read_set (cstr l)) as [[x r]|]; [|exact Hs].
    destruct Hs as (ep & r' & H1 & H2 & H3 & H4). exists ep, r'. split_and!; [done..|].
    intros d. unfold singlematch. rewrite (at_cons _ _ _ Ha). apply H4.
  - unfold classend, singlematch. rewrite (at_cons _ _ _ Ha). cbn [mbind outcome_bind].
    rewrite (proj2 (Z.eqb_neq _ _) Hesc), (proj2 (Z.eqb_neq _ _) Hset).
    destruct (c =? ch "."); exists (p + 1), l; done.
Qed.
End reading.

(** * The search of [match]

    [matches] stays inside the subject; the loops of [match] try its results
    in order. *)


(** ** Reading shortens the pattern *)

Lemma split_set_shorter l taken r : split_set l = Some (taken, r) -> (length r < length l)%nat.
Proof.
  revert taken r. induction l as [l IH] using (induction_ltof1 _ (@length Z)).
  assert (Hclose : forall tk l1 taken r, (length l1 < length l)%nat ->
    match l1 with
    | d :: r => if d =? ch "]" then Some (tk, r)
                else match split_set l1 with Some (a, r) => Some (tk ++ a, r) | None => None end
    | [] => None
    end = Some (taken, r) -> (length r < length l)%nat).
  { intros tk [|d l1] taken r Hl Hc; [done|]. destruct (d =? ch "]"); [simplify_eq; cbn in Hl; lia|].
    destruct (split_set (d :: l1)) as [[a r1]|] eqn:E; [|done]. simplify_eq.
    pose proof (IH (d :: l1) Hl _ _ E) as Hr. cbn in Hr, Hl. lia. }
  intros taken r. destruct l as [|c l1]; [done|]. cbn [split_set].
  destruct (c =? L_ESC); [destruct l1 as [|d l2]; [done|]|]; apply Hclose; cbn; lia.
Qed.

Lemma read_set_shorter l x r : read_set l = Some (x, r) -> (length r < length l)%nat.
Proof.
  unfold read_set. destruct l as [|c l1]; [done|]. destruct (c =? ch "^");
    [destruct (split_set l1) as [[]|] eqn:E|destruct (split_set (c :: l1)) as [[]|] eqn:E]; intros ?; simplify_eq;
    apply split_set_shorter in E; cbn in *; lia.
Qed.

Lemma read_class_shorter c l x r : read_class c l = inl (x, r) -> (length r <= length l)%nat.
Proof.
  unfold read_class. destruct (c =? L_ESC); [destruct l; [done|]; intros ?; simplify_eq; cbn; lia|].
  destruct (c =? ch "["); [|destruct (c =? ch "."); intros ?; by simplify_eq].
  destruct (read_set l) as [[]|] eqn:E; [|done]. intros ?; simplify_eq. apply read_set_shorter in E. lia.
Qed.

Lemma read_single_shorter c l : (length (snd (read_single c l)) <= length l)%nat.
Proof.
  unfold read_single. destruct (read_class c l) as [[x r]|msg] eqn:E; [|cbn; lia].
  apply read_class_shorter in E. destruct r as [|d r]; [cbn; lia|]. cbn in E.
  repeat case_if; cbn; lia.
Qed.

Lemma read_item_shorter c l : (length (snd (read_item c l)) <= length l)%nat.
Proof.
  unfold read_item. pose proof (read_single_shorter c l) as Hs.
  destruct (c =? ch "("); [destruct l as [|d r]; [done|]; destruct (d =? ch ")"); cbn; lia|].
  destruct (c =? ch ")"); [done|]. destruct (c =? L_ESC); [|destruct (c =? ch "$"); [destruct l|]; done].
  destruct l as [|d r]; [done|]. destruct (d =? ch "b"); [destruct r as [|b [|e r]]; cbn; lia|].
  destruct (d =? ch "f"); [|destruct (isdigit d); [cbn; lia|done]].
  destruct r as [|x r]; [cbn; lia|]. destruct (x =? ch "["); [|cbn; lia].
  destruct (read_set r) as [[]|] eqn:E; [|cbn; lia]. apply read_set_shorter in E. cbn. lia.
Qed.

Lemma parse_fuel_enough fuel l : (length l <= fuel)%nat -> parse_fuel fuel l = parse l.
Proof.
  unfold parse. revert l. induction fuel as [fuel IH] using lt_wf_ind. intros l Hl.
  destruct l as [|c l]; [by destruct fuel|]. destruct fuel as [|fuel]; cbn in Hl; [lia|]. cbn [parse_fuel length].
  pose proof (read_item_shorter c l) as Hr. destruct (read_item c l) as [i r]. cbn in Hr. f_equal.
  rewrite (IH fuel) by lia. destruct (decide (length l = fuel)) as [->|]; [by rewrite (IH fuel) by lia|].
  symmetry. apply IH; lia.
Qed.

Lemma parse_cons c l : parse (c :: l) = let '(i, r) := read_item c l in i :: parse r.
Proof.
  unfold parse at 1. cbn [length parse_fuel]. pose proof (read_item_shorter c l) as Hr.
  destruct (read_item c l) as [i r]. cbn in Hr. by rewrite parse_fuel_enough by lia.
Qed.

(** ** Results stay inside the subject *)

Section results.
Variable src : bytes.

Definition cap_ok (s : Z) (c : Z * Z) : Prop :=
  0 <= fst c <= s /\ -2 <= snd c /\ fst c + snd c <= lenZ src.

Definition st_ok (s : Z) (caps : list (Z * Z)) : Prop := 0 <= s <= lenZ src /\ Forall (cap_ok s) caps.

Definition item_ok (i : item) : Prop :=
  match i with IOpen what => what = CAP_POSITION \/ what = CAP_UNFINISHED | _ => True end.

Definition result_ok (s : Z) (r : result) : Prop :=
  match r with Good s' caps => s <= s' /\ st_ok s' caps | Bad _ => True end.

Lemma st_ok_mono s s' caps : st_ok s caps -> s <= s' <= lenZ src -> st_ok s' caps.
Proof.
  intros [Hs Hc] Hs'. split; [lia|]. revert Hc. apply Forall_impl.
  intros c (H1 & H2 & H3). unfold cap_ok. lia.
Qed.

Lemma read_item_ok c l : item_ok (fst (read_item c l)).
Proof.
  unfold read_item, read_single. repeat (case_match; try done); cbn; auto; simplify_eq; cbn; auto.
Qed.

Lemma parse_ok l : Forall item_ok (parse l).
Proof.
  induction l as [l IH] using (induction_ltof1 _ (@length Z)). destruct l as [|c l]; [constructor|].
  rewrite parse_cons. pose proof (read_item_ok c l) as Hi. pose proof (read_item_shorter c l) as Hr.
  destruct (read_item c l) as [i r]. constructor; [done|]. apply IH. unfold ltof. cbn in *. lia.
Qed.

Lemma from_length s : 0 <= s <= lenZ src -> Z.of_nat (length (from src s)) = lenZ src - s.
Proof. unfold from, lenZ. intros. rewrite length_drop. lia. Qed.

Lemma run_length_le x l : (run_length x l <= length l)%nat.
Proof. induction l as [|c l IH]; cbn; [lia|]. destruct (in_class c x); lia. Qed.

Lemma elem_repetitions s n z : z ∈ repetitions s n <-> s <= z <= s + Z.of_nat n.
Proof.
  unfold repetitions. rewrite list_elem_of_fmap. setoid_rewrite elem_of_seq. split.
  - intros (i & -> & Hi). lia.
  - intros Hz. exists (Z.to_nat (z - s)). lia.
Qed.

Lemma run_length_room x s : 0 <= s <= lenZ src -> s + Z.of_nat (run_length x (from src s)) <= lenZ src.
Proof. intros Hs. pose proof (run_length_le x (from src s)). pose proof (from_length s Hs). lia. Qed.

Lemma from_char s : 0 <= s < lenZ src -> from src s = char_at src s :: from src (s + 1).
Proof.
  intros Hs. unfold from, char_at. destruct (getZ_is_Some src s Hs) as [c Hc]. rewrite Hc. cbn [default].
  unfold getZ in Hc. rewrite (proj2 (Z.leb_le 0 s)) in Hc by lia.
  rewrite (drop_S _ _ _ Hc). f_equal. f_equal. lia.
Qed.

Lemma from_end s : s = lenZ src -> from src s = [].
Proof. intros ->. unfold from, lenZ. apply drop_ge. lia. Qed.

Lemma run_length_at x s :
  0 <= s <= lenZ src ->
  run_length x (from src s) = if matches_at src x s then S (run_length x (from src (s + 1))) else O.
Proof.
  intros Hs. unfold matches_at. destruct (Z.ltb_spec s (lenZ src)) as [Hlt|Hge]; cbn [andb].
  - rewrite from_char by lia. cbn [run_length]. done.
  - by rewrite from_end by lia.
Qed.

Lemma positions_ok x r s z :
  0 <= s <= lenZ src -> z ∈ positions src x r s -> s <= z <= lenZ src.
Proof.
  intros Hs. unfold positions. pose proof (run_length_room x s Hs) as Hn.
  pose proof (run_length_at x s Hs) as Ha. destruct (matches_at src x s) eqn:Em.
  - unfold matches_at in Em. bool_facts.
    destruct r; rewrite ?list_elem_of_In, <- ?in_rev, <- ?list_elem_of_In, ?elem_of_app, ?list_elem_of_singleton, ?elem_repetitions; lia.
  - destruct r; rewrite ?list_elem_of_In, <- ?in_rev, <- ?list_elem_of_In, ?elem_of_app, ?list_elem_of_singleton, ?elem_repetitions;
      rewrite ?elem_of_nil; lia.
Qed.

Lemma balance_shorter b e cont l r : balance b e cont l = Some r -> (length r < length l)%nat.
Proof.
  revert cont. induction l as [|c l IH]; intros cont; cbn [balance]; [done|].
  repeat case_if; intros Hb; simplify_eq; try apply IH in Hb; cbn; lia.
Qed.

Lemma open_capture_Some n caps l :
  open_capture n caps = Some l -> (l < n)%nat /\ exists i, caps !! l = Some (i, CAP_UNFINISHED).
Proof.
  induction n as [|n IH]; cbn [open_capture]; [done|]. destruct (caps !! n) as [[i len]|] eqn:E; [|done].
  destruct (Z.eqb_spec len CAP_UNFINISHED) as [->|].
  - intros ?. simplify_eq. split; [lia|by eexists].
  - intros Ho. apply IH in Ho as [? ?]. split; [lia|done].
Qed.

Lemma alts_ok i s caps : item_ok i -> st_ok s caps -> Forall (result_ok s) (alts src i s caps).
Proof.
  intros Hi Hs. pose proof Hs as [Hr Hc].
  assert (Hone : forall s', s <= s' <= lenZ src -> Forall (result_ok s) [Good s' caps]).
  { intros s' Hs'. constructor; [|constructor]. split; [lia|]. by apply (st_ok_mono s). }
  destruct i as [what| |b e|set|d| |x r|msg]; cbn [alts].
  - destruct (LUA_MAXCAPTURES <=? lenZ caps); (constructor; [|constructor]); [done|].
    split; [lia|]. split; [done|]. apply Forall_app. split; [done|]. constructor; [|constructor].
    unfold cap_ok. cbn. destruct Hi as [-> | ->]; unfold CAP_POSITION, CAP_UNFINISHED; lia.
  - destruct (open_capture (length caps) caps) as [l|] eqn:E; (constructor; [|constructor]); [|done].
    split; [lia|]. split; [done|]. apply Forall_alter; [done|]. intros [i len] _ (H1 & H2 & H3).
    unfold cap_ok. cbn in *. lia.
  - unfold balanced. destruct ((s <? lenZ src) && (char_at src s =? b)) eqn:E; [|constructor]. bool_facts.
    destruct (balance b e 1 (from src (s + 1))) as [r|] eqn:Eb; [|constructor].
    apply balance_shorter in Eb. pose proof (from_length (s + 1) ltac:(lia)). apply Hone. assert (lenZ r = Z.of_nat (length r)) by done. lia.
  - case_if; [apply Hone; lia|constructor].
  - unfold back. destruct (getZ caps (d - ch "1")) as [[init len]|]; [|repeat constructor].
    destruct (len =? CAP_UNFINISHED); [repeat constructor|].
    case_if; [|constructor]. bool_facts. apply Hone. lia.
  - destruct (Z.eqb_spec s (lenZ src)); [apply Hone; lia|constructor].
  - apply Forall_fmap, list.Forall_forall. intros z Hz. apply positions_ok in Hz; [|done].
    split; [lia|]. by apply (st_ok_mono s).
  - repeat constructor.
Qed.

(** What follows the results of an item *)
Definition then_matches (l : list item) (r : result) : list result :=
  match r with Good s caps => matches src l s caps | Bad msg => [Bad msg] end.

Lemma matches_cons i l s caps : matches src (i :: l) s caps = flat_map (then_matches l) (alts src i s caps).
Proof. done. Qed.

Lemma matches_ok l s caps : Forall item_ok l -> st_ok s caps -> Forall (result_ok s) (matches src l s caps).
Proof.
  revert s caps. induction l as [|i l IH]; intros s caps Hl Hs.
  { constructor; [|constructor]. split; [lia|done]. }
  rewrite matches_cons. apply list.Forall_cons in Hl as [Hi Hl].
  apply Forall_flat_map. eapply list.Forall_impl; [by apply alts_ok|]. intros [s' caps'|msg]; cbn; [|by repeat constructor].
  intros [H1 H2]. eapply list.Forall_impl; [by apply IH|]. intros [s'' caps''|]; cbn; [|done].
  intros [H3 H4]. split; [lia|done].
Qed.
End results.
