(* ===== verification/Strequiv.v ===== *)
(** * [match] finds the first result of a pattern

    The state of [match] holds the captures of [matches]; each kind of item
    tries its results in order, and a failure leaves the captures as they
    were. *)

From S2P Require Import Prelude Clib Object Lex Auxlib Strmatch Strsem Strfacts.

(** ** The captures *)

Definition captured (ms : MatchState) (caps : list (Z * Z)) : Prop :=
  level ms = lenZ caps /\ lenZ (capture ms) = LUA_MAXCAPTURES /\ lenZ caps <= LUA_MAXCAPTURES /\
  forall i, (i < length caps)%nat -> capture ms !! i = Some (caps !! i).

Lemma captured_0 : captured match_state0 [].
Proof. split_and!; [done|done|done|]. intros i Hi. cbn in Hi. lia. Qed.

Section captures.
Context `{Cenv} `{Frame}.
Implicit Types (ms : MatchState) (caps : list (Z * Z)).

Lemma captured_get ms caps l c :
  captured ms caps -> caps !! l = Some c -> get_capture (Z.of_nat l) ms = Ret (c, ms).
Proof.
  intros (_ & _ & _ & Hc) Hl. pose proof (lookup_lt_Some _ _ _ Hl) as Hlt.
  unfold get_capture, getZ. rewrite (proj2 (Z.leb_le 0 _)) by lia. rewrite Nat2Z.id, (Hc l Hlt), Hl. done.
Qed.

Lemma set_capture_eq ms l c :
  0 <= l < lenZ (capture ms) ->
  set_capture l (fst c) (snd c) ms = Ret (tt, mkMatchState (level ms) (setZ (capture ms) l (Some c))).
Proof. intros Hl. destruct (getZ_is_Some _ _ Hl) as [x Hx]. unfold set_capture. rewrite Hx. by destruct c. Qed.

(** A new capture *)
Lemma captured_push ms caps c :
  captured ms caps -> lenZ caps < LUA_MAXCAPTURES ->
  captured (mkMatchState (level ms + 1) (setZ (capture ms) (level ms) (Some c))) (caps ++ [c]).
Proof.
  intros (C1 & C2 & C3 & C4) Hlt. split_and!; cbn [level capture].
  - rewrite lenZ_app, C1. done.
  - by rewrite lenZ_setZ.
  - rewrite lenZ_app, lenZ_cons. change (lenZ (@nil (Z * Z))) with 0. lia.
  - intros i Hi. rewrite length_app in Hi. cbn in Hi. unfold setZ. rewrite C1, (proj2 (Z.leb_le 0 _)) by apply lenZ_nonneg.
    replace (Z.to_nat (lenZ caps)) with (length caps) by (unfold lenZ; lia).
    destruct (decide (i = length caps)) as [->|Hne].
    + rewrite list_lookup_insert_eq by (unfold lenZ in *; lia). by rewrite lookup_app_r, Nat.sub_diag.
    + rewrite list_lookup_insert_ne by done. rewrite lookup_app_l by lia. apply C4. lia.
Qed.

Lemma captured_pop ms caps c :
  captured ms (caps ++ [c]) -> captured (mkMatchState (level ms - 1) (capture ms)) caps.
Proof.
  intros (C1 & C2 & C3 & C4). rewrite lenZ_app, lenZ_cons in *. change (lenZ (@nil (Z * Z))) with 0 in *.
  split_and!; cbn [level capture]; [lia|done|lia|]. intros i Hi.
  rewrite C4 by (rewrite length_app; cbn; lia). by rewrite lookup_app_l.
Qed.

(** A capture that is there is changed. *)
Lemma captured_alter ms caps l c f :
  captured ms caps -> caps !! l = Some c ->
  captured (mkMatchState (level ms) (setZ (capture ms) (Z.of_nat l) (Some (f c)))) (alter f l caps).
Proof.
  intros (C1 & C2 & C3 & C4) Hl. pose proof (lookup_lt_Some _ _ _ Hl) as Hlt.
  unfold captured, lenZ. rewrite !length_alter. split_and!; cbn [level capture]; [done| |done|].
  - unfold setZ. rewrite (proj2 (Z.leb_le 0 _)) by lia. by rewrite length_insert.
  - intros i Hi. unfold setZ. rewrite (proj2 (Z.leb_le 0 _)), Nat2Z.id by lia.
    destruct (decide (i = l)) as [->|Hne].
    + rewrite list_lookup_insert_eq by (unfold lenZ in *; lia). by rewrite list_lookup_alter_eq, Hl.
    + rewrite list_lookup_insert_ne, list_lookup_alter_ne by done. by apply C4.
Qed.

(** ** The first result *)

Definition agrees caps (rs : list result) (m : outcome (option Z * MatchState)) : Prop :=
  match head rs with
  | Some (Good s caps') => exists ms', m = Ret (Some s, ms') /\ captured ms' caps'
  | Some (Bad msg) => m = luaL_error msg
  | None => exists ms', m = Ret (None, ms') /\ captured ms' caps
  end.

Lemma agrees_fail caps ms : captured ms caps -> agrees caps [] ((mret None : Match (option Z)) ms).
Proof. intros Hc. by exists ms. Qed.

Lemma agrees_error caps rs ms msg : agrees caps (Bad msg :: rs) ((match_error msg : Match (option Z)) ms).
Proof. done. Qed.

(** If the first part finds nothing, the second part is tried. *)
Lemma agrees_or caps rs1 rs2 (m : Match (option Z)) (k : Match (option Z)) ms :
  agrees caps rs1 (m ms) -> (forall ms', captured ms' caps -> agrees caps rs2 (k ms')) ->
  agrees caps (rs1 ++ rs2) ((res ← m; match res with Some r => mret (Some r) | None => k end) ms).
Proof.
  unfold agrees at 1. destruct rs1 as [|[s' caps'|msg] rs1]; cbn [head app].
  - intros (ms' & Hm & Hc) Hk. rewrite (st_bind_eq _ _ _ _ _ Hm). by apply Hk.
  - intros (ms' & Hm & Hc) _. rewrite (st_bind_eq _ _ _ _ _ Hm). by exists ms'.
  - intros Hm _. unfold agrees. cbn [head]. unfold mbind, ST_bind. rewrite Hm. done.
Qed.

(** The captures are put back when nothing is found. *)
Lemma agrees_undo caps caps' rs (m : Match (option Z)) (undo : Match (option Z)) ms :
  agrees caps' rs (m ms) ->
  (forall ms', captured ms' caps' -> exists ms'', undo ms' = Ret (None, ms'') /\ captured ms'' caps) ->
  agrees caps rs ((res ← m; match res with Some r => mret (Some r) | None => undo end) ms).
Proof.
  unfold agrees at 1. destruct rs as [|[s' c'|msg] rs]; cbn [head].
  - intros (ms' & Hm & Hc) Hu. rewrite (st_bind_eq _ _ _ _ _ Hm). by apply Hu.
  - intros (ms' & Hm & Hc) _. rewrite (st_bind_eq _ _ _ _ _ Hm). by exists ms'.
  - intros Hm _. unfold agrees. cbn [head]. unfold mbind, ST_bind. rewrite Hm. done.
Qed.
End captures.

(** ** Repetitions *)

Lemma repetitions_last s m : repetitions s (S m) = repetitions s m ++ [s + Z.of_nat (S m)].
Proof. unfold repetitions. rewrite (seq_S (S m)), fmap_app. done. Qed.

Lemma repetitions_first s m : repetitions s (S m) = s :: repetitions (s + 1) m.
Proof.
  unfold repetitions. cbn [seq]. rewrite fmap_cons. f_equal; [lia|].
  change (fmap (fun i => s + Z.of_nat i) (1%nat :: seq 2 m)) with (fmap (fun i => s + Z.of_nat i) (seq 1 (S m))).
  change (fmap (fun i => s + 1 + Z.of_nat i) (0%nat :: seq 1 m)) with (fmap (fun i => s + 1 + Z.of_nat i) (seq 0 (S m))).
  rewrite <- fmap_S_seq, <- list_fmap_compose. apply list_fmap_ext. intros i k _. cbn. lia.
Qed.

Section search.
Context `{Cenv} `{Frame}.
Variable pat src : bytes.
Hypothesis Hsrc : lenZ src < 2 ^ 62.

Lemma src_rd s : 0 <= s <= lenZ src -> rd src s = Ret (char_at src s).
Proof.
  intros Hs. unfold rd, char_at. destruct (Z.eqb_spec s (lenZ src)) as [->|].
  - by rewrite getZ_None by lia.
  - destruct (getZ_is_Some src s ltac:(lia)) as [c ->]. done.
Qed.

(** The class [x] is what is tested from [p] to [ep]. *)
Definition tests (p ep : Z) (x : cls) : Prop := forall d, singlematch pat d p ep = Ret (in_class d x).

Lemma item_matches_spec s p ep x :
  tests p ep x -> 0 <= s <= lenZ src -> item_matches pat src s p ep = Ret (matches_at src x s).
Proof.
  intros Hx Hs. unfold item_matches, matches_at, src_end. destruct (s <? lenZ src); [|done].
  rewrite src_rd by done. apply Hx.
Qed.

Lemma count_max_spec fuel s p ep i x :
  tests p ep x -> 0 <= s + i <= lenZ src -> lenZ src - (s + i) <= Z.of_nat fuel ->
  count_max pat src fuel s p ep i = Ret (i + Z.of_nat (run_length x (from src (s + i)))).
Proof.
  intros Hx. revert i. induction fuel as [|fuel IH]; intros i Hi Hf; cbn [count_max];
    rewrite (item_matches_spec _ _ _ x) by done; cbn [mbind outcome_bind]; rewrite run_length_at by done.
  - unfold matches_at. rewrite (proj2 (Z.ltb_ge _ _)) by lia. cbn. f_equal. lia.
  - destruct (matches_at src x (s + i)) eqn:E; [|f_equal; lia]. unfold matches_at in E. bool_facts.
    replace (s + i + 1) with (s + (i + 1)) by lia. rewrite IH by lia. f_equal. lia.
Qed.

Variable match_rest : Z -> Z -> Match (option Z).
Variable n : nat.
Hypothesis Hrest : forall p l s caps ms,
  at_ pat p l -> (length (cstr l) < n)%nat -> st_ok src s caps -> captured ms caps ->
  agrees caps (matches src (parse (cstr l)) s caps) (match_rest s p ms).

Section rest.
Variables (p : Z) (l : bytes) (caps : list (Z * Z)).
Hypothesis Hp : at_ pat p l.
Hypothesis Hl : (length (cstr l) < n)%nat.

Definition rest_from (s : Z) : list result := matches src (parse (cstr l)) s caps.

Lemma rest_spec s ms : st_ok src s caps -> captured ms caps -> agrees caps (rest_from s) (match_rest s p ms).
Proof. intros. by apply Hrest. Qed.

Lemma try_max_spec m s ep ms :
  p = ep + 1 -> st_ok src s caps -> s + Z.of_nat m <= lenZ src -> captured ms caps ->
  agrees caps (flat_map rest_from (rev (repetitions s m))) (try_max match_rest m s ep ms).
Proof.
  intros He Hs. revert ms. induction m as [|m IH]; intros ms Hm Hms.
  - cbn [try_max]. change (rev (repetitions s 0)) with [s + Z.of_nat 0]. cbn [flat_map]. rewrite <- He.
    apply agrees_or; [|by intros; apply agrees_fail]. apply rest_spec; [|done].
    apply (st_ok_mono _ s); [done|]. destruct Hs as [? _]. lia.
  - cbn [try_max]. rewrite repetitions_last, rev_app_distr. cbn [rev app flat_map]. rewrite <- He.
    apply agrees_or; [|intros; apply IH; [lia|done]]. apply rest_spec; [|done].
    apply (st_ok_mono _ s); [done|]. destruct Hs as [? _]. lia.
Qed.

Lemma max_expand_spec s q ep x ms :
  p = ep + 1 -> tests q ep x -> st_ok src s caps -> captured ms caps ->
  agrees caps (flat_map rest_from (rev (repetitions s (run_length x (from src s)))))
    (max_expand pat src match_rest s q ep ms).
Proof.
  intros He Hx Hs Hms. pose proof Hs as [Hr _]. unfold max_expand.
  rewrite (count_max_spec _ _ _ _ _ x); [|done|lia|unfold lenZ; lia]. st_simpl.
  rewrite Z.add_0_r, Z.add_0_l, Nat2Z.id. apply try_max_spec; [done..| |done]. by apply run_length_room.
Qed.

Lemma min_expand_spec fuel s q ep x ms :
  p = ep + 1 -> tests q ep x -> st_ok src s caps -> lenZ src - s <= Z.of_nat fuel -> captured ms caps ->
  agrees caps (flat_map rest_from (repetitions s (run_length x (from src s))))
    (min_expand pat src match_rest fuel s q ep ms).
Proof.
  intros He Hx. revert s ms. induction fuel as [|fuel IH]; intros s ms Hs Hf Hms; pose proof Hs as [Hr _].
  - cbn [min_expand]. rewrite <- He.
    assert (Hm : matches_at src x s = false) by (unfold matches_at; rewrite (proj2 (Z.ltb_ge _ _)) by lia; done).
    rewrite run_length_at, Hm by done. change (repetitions s 0) with [s + Z.of_nat 0]. cbn [flat_map].
    replace (s + Z.of_nat 0) with s by lia. apply agrees_or; [by apply rest_spec|]. intros ms' Hms'.
    rewrite (item_matches_spec _ _ _ x), Hm by done. st_simpl. by apply agrees_fail.
  - cbn [min_expand]. rewrite <- He. rewrite run_length_at by done. destruct (matches_at src x s) eqn:Hm.
    + rewrite repetitions_first. cbn [flat_map]. apply agrees_or; [by apply rest_spec|]. intros ms' Hms'.
      rewrite (item_matches_spec _ _ _ x), Hm by done. st_simpl.
      unfold matches_at in Hm. bool_facts. apply IH; [|lia|done].
      apply (st_ok_mono _ s); [done|lia].
    + change (repetitions s 0) with [s + Z.of_nat 0]. cbn [flat_map].
      replace (s + Z.of_nat 0) with s by lia. apply agrees_or; [by apply rest_spec|]. intros ms' Hms'.
      rewrite (item_matches_spec _ _ _ x), Hm by done. st_simpl. by apply agrees_fail.
Qed.
End rest.

Definition run (i : item) (r : bytes) (s : Z) (caps : list (Z * Z)) : list result :=
  flat_map (then_matches src (parse r)) (alts src i s caps).

Lemma run_good (f : list Z) r caps :
  flat_map (then_matches src (parse (cstr r))) ((fun s => Good s caps) <$> f) = flat_map (rest_from r caps) f.
Proof. induction f as [|z f IH]; [done|]. cbn. by rewrite IH. Qed.

(** ** A single character, repeated *)

Lemma default_spec p c l s caps ms :
  at_ pat p (c :: l) -> (length (cstr l) < n)%nat -> st_ok src s caps -> captured ms caps ->
  agrees caps (let '(i, r) := read_single c (cstr l) in run i r s caps) (match_default pat src match_rest s p ms).
Proof.
  intros Ha Hn Hs Hms. pose proof Hs as [Hr _]. unfold read_single, match_default.
  pose proof (class_spec pat p c l Ha) as Hc. destruct (read_class c (cstr l)) as [[x r]|msg] eqn:Er.
  2:{ rewrite Hc. exact (agrees_error caps [] ms msg). }
  apply read_class_shorter in Er. destruct Hc as (ep & r' & -> & Hep & -> & Hx).
  st_simpl. rewrite (item_matches_spec _ _ _ x) by done. st_simpl.
  destruct (cstr_next pat ep r' Hep) as [[E Hd]|(d & r & -> & Hd0 & E & Hd & Hep1)]; rewrite Hd; st_simpl.
  { rewrite E. do 4 (rewrite (proj2 (Z.eqb_neq 0 _)) by done). unfold run. rewrite <- E at 1. cbn [alts].
    rewrite run_good. cbn [positions]. destruct (matches_at src x s) eqn:Hm; [|by apply agrees_fail].
    cbn [flat_map]. rewrite app_nil_r. unfold matches_at in Hm. bool_facts.
    apply rest_spec; [done|rewrite E; cbn; lia| |done]. apply (st_ok_mono _ s); [done|lia]. }
  rewrite E in *. cbn [length] in Er.
  assert (Hs1 : matches_at src x s = true -> st_ok src (s + 1) caps).
  { intros Hm. unfold matches_at in Hm. bool_facts. apply (st_ok_mono _ s); [done|lia]. }
  assert (Hopt : forall (b : bool) q l ms, at_ pat q l -> (length (cstr l) < n)%nat -> captured ms caps ->
    (b = true -> matches_at src x s = true) ->
    agrees caps (flat_map (rest_from l caps) (if b then [s + 1] else []))
      ((if b then match_rest (s + 1) q else mret None) ms)).
  { intros b q l0 ms0 Hq Hl Hm Hb. destruct b; [|by apply agrees_fail]. cbn [flat_map]. rewrite app_nil_r.
    apply rest_spec; auto. }
  assert (Hrn : (length (cstr r) < n)%nat) by lia.
  destruct (d =? ch "?"); [|destruct (d =? ch "*"); [|destruct (d =? ch "+"); [|destruct (d =? ch "-")]]];
    unfold run; cbn [alts].
  - rewrite run_good. cbn [positions]. rewrite flat_map_app. cbn [flat_map]. rewrite app_nil_r.
    apply agrees_or; [by apply Hopt|]. intros ms' Hms'. by apply rest_spec.
  - rewrite run_good. by apply (max_expand_spec (ep + 1)).
  - rewrite run_good. cbn [positions]. rewrite run_length_at by done.
    destruct (matches_at src x s) eqn:Hm; [|by apply agrees_fail]. cbn [pred].
    apply (max_expand_spec (ep + 1)); auto.
  - rewrite run_good. apply (min_expand_spec (ep + 1)); [done..| |done]. unfold lenZ. lia.
  - rewrite <- E, run_good. cbn [positions]. apply Hopt; [done|rewrite E; cbn; lia|done|done].
Qed.

(** ** Captures *)

Lemma start_capture_spec p l s what caps ms :
  at_ pat p l -> (length (cstr l) < n)%nat -> item_ok (IOpen what) -> st_ok src s caps -> captured ms caps ->
  agrees caps (run (IOpen what) (cstr l) s caps) (start_capture match_rest s p what ms).
Proof.
  intros Ha Hn Hw Hs Hms. pose proof (alts_ok src _ _ _ Hw Hs) as Hok. unfold run, start_capture. cbn [alts] in *.
  st_simpl. pose proof Hms as (C1 & C2 & C3 & _). rewrite C1.
  destruct (Z.leb_spec LUA_MAXCAPTURES (lenZ caps)) as [Hle|Hlt]; [apply agrees_error|].
  cbn [flat_map then_matches]. rewrite app_nil_r.
  apply list.Forall_singleton in Hok as [_ Hok].
  rewrite (st_bind_eq _ _ _ _ _ (set_capture_eq ms (lenZ caps) (s, what) ltac:(pose proof (lenZ_nonneg caps); lia))).
  unfold set_level. st_simpl. cbn [capture level].
  pose proof (captured_push ms caps (s, what) Hms Hlt) as Hpush. rewrite C1 in Hpush.
  apply (agrees_undo _ (caps ++ [(s, what)])); [by apply rest_spec|].
  intros ms' Hms'. st_simpl. eexists. split; [done|]. by eapply captured_pop.
Qed.

Lemma close_loop_spec m caps ms :
  (m <= length caps)%nat -> captured ms caps ->
  close_loop m ms = match open_capture m caps with
                    | Some l => Ret (Z.of_nat l, ms) | None => luaL_error (str "invalid pattern capture") end.
Proof.
  intros Hm Hms. induction m as [|m IH]; cbn [close_loop open_capture]; [done|].
  destruct (lookup_lt_is_Some_2 caps m ltac:(lia)) as [[i len] Hc]. rewrite Hc.
  rewrite (st_bind_eq _ _ _ _ _ (captured_get ms caps m _ Hms Hc)). cbn [snd].
  destruct (len =? CAP_UNFINISHED); [done|]. apply IH. lia.
Qed.

Lemma end_capture_spec p l s caps ms :
  at_ pat p l -> (length (cstr l) < n)%nat -> st_ok src s caps -> captured ms caps ->
  agrees caps (run IClose (cstr l) s caps) (end_capture match_rest s p ms).
Proof.
  intros Ha Hn Hs Hms. pose proof (alts_ok src IClose _ _ I Hs) as Hok. unfold run, end_capture, capture_to_close.
  cbn [alts] in *. st_simpl. pose proof Hms as (C1 & C2 & C3 & _). rewrite C1.
  assert (Hcl := close_loop_spec (length caps) caps ms ltac:(lia) Hms).
  replace (Z.to_nat (lenZ caps)) with (length caps) by (unfold lenZ; lia).
  destruct (open_capture (length caps) caps) as [k|] eqn:Eo.
  2:{ unfold mbind, ST_bind. rewrite Hcl. done. }
  rewrite (st_bind_eq _ _ _ _ _ Hcl). apply open_capture_Some in Eo as (Hk & i & Hki).
  rewrite (st_bind_eq _ _ _ _ _ (captured_get ms caps k _ Hms Hki)). cbn [fst].
  assert (Hlen : 0 <= Z.of_nat k < lenZ (capture ms)) by (unfold lenZ in *; lia).
  rewrite (st_bind_eq _ _ _ _ _ (set_capture_eq ms (Z.of_nat k) (i, s - i) Hlen)).
  cbn [flat_map then_matches]. rewrite app_nil_r. apply list.Forall_singleton in Hok as [_ Hok].
  pose proof (captured_alter ms caps k _ (fun c => (fst c, s - fst c)) Hms Hki) as Ha1. cbn [fst] in Ha1.
  set (caps' := alter _ k caps) in *.
  apply (agrees_undo _ caps'); [by apply rest_spec|]. intros ms' Hms'.
  assert (Hk' : caps' !! k = Some (i, s - i)) by (unfold caps'; rewrite list_lookup_alter_eq, Hki; done).
  rewrite (st_bind_eq _ _ _ _ _ (captured_get ms' caps' k _ Hms' Hk')). cbn [fst].
  assert (Hlen' : 0 <= Z.of_nat k < lenZ (capture ms')) by (destruct Hms' as (_ & -> & _); lia).
  rewrite (st_bind_eq _ _ _ _ _ (set_capture_eq ms' (Z.of_nat k) (i, CAP_UNFINISHED) Hlen')).
  eexists. split; [done|].
  pose proof (captured_alter ms' caps' k _ (fun c => (fst c, CAP_UNFINISHED)) Hms' Hk') as Hback. cbn [fst] in Hback.
  replace (alter (fun c => (fst c, CAP_UNFINISHED)) k caps') with caps in Hback; [done|].
  unfold caps'. apply list_eq. intros j. destruct (decide (j = k)) as [->|Hne].
  - rewrite !list_lookup_alter_eq, Hki. done.
  - by rewrite !list_lookup_alter_ne.
Qed.

(** The text of a capture that is closed *)
Lemma match_capture_spec s d caps ms :
  st_ok src s caps -> captured ms caps ->
  match_capture src s d ms =
  match back src d s caps with
  | [] => Ret (None, ms)
  | Good s' _ :: _ => Ret (Some s', ms)
  | Bad msg :: _ => luaL_error msg
  end.
Proof.
  intros [Hs Hcaps] Hms. pose proof Hms as (C1 & C2 & C3 & C4). unfold match_capture, check_capture, back.
  st_simpl. rewrite C1. set (k := d - ch "1"). destruct ((k <? 0) || (lenZ caps <=? k)) eqn:Hk.
  { rewrite getZ_None by (apply orb_true_iff in Hk as [?|?]; bool_facts; lia). done. }
  bool_facts. destruct (getZ_is_Some caps k ltac:(lia)) as [[init len] Hc]. rewrite Hc.
  assert (Hget : get_capture k ms = Ret ((init, len), ms)).
  { unfold getZ in Hc. rewrite (proj2 (Z.leb_le 0 k)) in Hc by lia. replace k with (Z.of_nat (Z.to_nat k)) by lia. by eapply captured_get. }
  st_simpl. rewrite (st_bind_eq _ _ _ _ _ Hget). cbn [snd].
  destruct (Z.eqb_spec len CAP_UNFINISHED) as [->|Hu]; [done|]. st_simpl. rewrite (st_bind_eq _ _ _ _ _ Hget).
  pose proof (getZ_Forall _ _ _ _ Hcaps Hc) as (Q1 & Q2 & Q3). cbn [fst snd] in *. unfold src_end, u64.
  destruct (Z.leb_spec 0 len) as [Hl|Hl]; cbn [andb].
  - rewrite (Z.mod_small len) by lia. destruct (Z.leb_spec len (lenZ src - s)) as [Hr|Hr]; cbn [andb]; [|done].
    unfold text, src_end. rewrite !(proj2 (Z.leb_le _ _)) by lia. cbn [andb]. st_simpl.
    unfold from. by case_bool_decide.
  - rewrite (proj2 (Z.leb_gt _ _)); [done|]. unfold CAP_UNFINISHED in Hu.
    replace len with (2 ^ 64 - 2 + -1 * 2 ^ 64) by lia. rewrite Z.mod_add by lia. rewrite Z.mod_small by lia. lia.
Qed.

Lemma balance_loop_spec fuel s b e cont :
  0 <= s + 1 <= lenZ src -> lenZ src - (s + 1) <= Z.of_nat fuel ->
  balance_loop src fuel s b e cont =
  Ret match balance b e cont (from src (s + 1)) with Some r => Some (lenZ src - lenZ r) | None => None end.
Proof.
  revert s cont. induction fuel as [|fuel IH]; intros s cont Hs Hf; cbn [balance_loop]; unfold src_end.
  { rewrite (proj2 (Z.ltb_ge _ _)) by lia. by rewrite from_end by lia. }
  destruct (Z.ltb_spec (s + 1) (lenZ src)) as [Hlt|Hge]; [|by rewrite from_end by lia].
  rewrite from_char by lia. rewrite src_rd by lia. cbn [mbind outcome_bind balance].
  destruct (char_at src (s + 1) =? e); [|destruct (char_at src (s + 1) =? b); apply IH; lia].
  destruct (cont - 1 =? 0); [|apply IH; lia].
  unfold lenZ at 2. rewrite from_length by lia. do 2 f_equal. lia.
Qed.

Lemma matchbalance_spec s p l :
  at_ pat p l -> 0 <= s <= lenZ src ->
  matchbalance pat src s p =
  match cstr l with
  | b :: e :: _ => Ret (balanced src b e s)
  | _ => luaL_error (str "unbalanced pattern")
  end.
Proof.
  intros Ha Hs. unfold matchbalance.
  destruct (cstr_next pat p l Ha) as [[-> ->]|(b & r & -> & Hb & -> & -> & Ha1)]; cbn [mbind outcome_bind]; [done|].
  rewrite (proj2 (Z.eqb_neq b 0) Hb).
  destruct (cstr_next pat _ r Ha1) as [[-> ->]|(e & r2 & -> & He & -> & -> & Ha2)]; cbn [mbind outcome_bind orb]; [done|].
  rewrite (proj2 (Z.eqb_neq e 0) He). rewrite src_rd by done. cbn [mbind outcome_bind]. unfold balanced.
  destruct (Z.ltb_spec s (lenZ src)) as [Hlt|Hge]; cbn [andb].
  - destruct (char_at src s =? b); cbn [negb]; [|done]. apply balance_loop_spec; [lia|]. unfold lenZ. lia.
  - unfold char_at. rewrite getZ_None by lia. cbn [default]. change (default 0 None) with 0. by rewrite (proj2 (Z.eqb_neq 0 b)) by done.
Qed.

Lemma frontier_spec s p ep x :
  (forall c, matchbracketclass pat c p (ep - 1) = Ret (in_class c x)) -> 0 <= s <= lenZ src ->
  frontier pat src s p ep =
  Ret (negb (in_class (if s =? 0 then 0 else char_at src (s - 1)) x) && in_class (char_at src s) x).
Proof.
  intros Hx Hs. unfold frontier.
  assert (Hp : (if s =? 0 then Ret 0 else rd src (s - 1)) = Ret (if s =? 0 then 0 else char_at src (s - 1))).
  { destruct (Z.eqb_spec s 0); [done|]. apply src_rd. lia. }
  rewrite Hp. cbn [mbind outcome_bind]. rewrite Hx. cbn [mbind outcome_bind].
  destruct (in_class _ x); cbn [negb andb]; [done|]. rewrite src_rd by done. apply Hx.
Qed.

(** Results that leave the captures alone *)
Lemma one_result l caps s o ms :
  at_ pat l.1 l.2 -> (length (cstr l.2) < n)%nat -> st_ok src s caps -> captured ms caps ->
  (forall s', o = Some s' -> s <= s' <= lenZ src) ->
  agrees caps (flat_map (then_matches src (parse (cstr l.2))) (match o with Some s' => [Good s' caps] | None => [] end))
    (match o with Some s' => match_rest s' l.1 ms | None => Ret (None, ms) end).
Proof.
  destruct l as [p l]; cbn [fst snd]. intros Ha Hn Hs Hms Ho. destruct o as [s'|]; [|by apply agrees_fail].
  cbn [flat_map then_matches]. rewrite app_nil_r. apply rest_spec; [done..| |done].
  apply (st_ok_mono _ s); auto.
Qed.

(** ** One item *)

Lemma back_ok d s caps o :
  st_ok src s caps -> back src d s caps = o -> match o with
  | [] => True | [Bad _] => True
  | [Good s' c] => c = caps /\ s <= s' <= lenZ src | _ => False end.
Proof.
  intros [Hs _] <-. unfold back. destruct (getZ caps (d - ch "1")) as [[init len]|]; [|done].
  destruct (len =? CAP_UNFINISHED); [done|]. case_if; [|done]. bool_facts. split; [done|lia].
Qed.

Lemma balanced_range b e s s' : 0 <= s <= lenZ src -> balanced src b e s = Some s' -> s <= s' <= lenZ src.
Proof.
  intros Hs Hb. pose proof (alts_ok src (IBalance b e) s [] I) as Hok. cbn [alts] in Hok. rewrite Hb in Hok.
  assert (Hs0 : st_ok src s []) by (split; [done|constructor]).
  specialize (Hok Hs0). apply list.Forall_singleton in Hok as [? [? _]]. lia.
Qed.

Lemma escape_spec p l s caps ms :
  at_ pat p (L_ESC :: l) -> (length (cstr l) < n)%nat -> st_ok src s caps -> captured ms caps ->
  agrees caps (let '(i, r) := read_item L_ESC (cstr l) in run i r s caps)
    (match_step pat src match_rest s p ms).
Proof.
  intros Ha Hn Hs Hms. pose proof Hs as [Hr _]. pose proof (at_next _ _ _ _ Ha) as Ha1.
  pose proof (default_spec p L_ESC l s caps ms Ha Hn Hs Hms) as Hdef.
  unfold match_step, read_item. rewrite (at_cons _ _ _ _ Ha). st_simpl.
  change (L_ESC =? ch "(") with false. change (L_ESC =? ch ")") with false. change (L_ESC =? L_ESC) with true. cbn iota.
  destruct (cstr_next pat _ l Ha1) as [[E Hd]|(d & r & -> & Hd0 & E & Hd & Ha2)]; rewrite Hd; st_simpl.
  { rewrite E in *. exact Hdef. }
  rewrite E in *. cbn [length] in Hn. replace (p + 1 + 1) with (p + 2) in Ha2 by lia.
  destruct (d =? ch "b"); [|destruct (d =? ch "f"); [|destruct (isdigit d); [|exact Hdef]]].
  - rewrite (matchbalance_spec s _ r) by done.
    destruct (cstr_next pat _ r Ha2) as [[-> _]|(b & r1 & -> & Hb & E1 & _ & Ha3)]; [exact (agrees_error caps [] ms _)|].
    rewrite E1 in *. cbn [length] in Hn.
    destruct (cstr_next pat _ r1 Ha3) as [[-> _]|(e & r2 & -> & He & E2 & _ & Ha4)]; [exact (agrees_error caps [] ms _)|].
    rewrite E2 in *. cbn [length] in Hn. replace (p + 2 + 1 + 1) with (p + 4) in Ha4 by lia.
    st_simpl. pose proof (one_result (p + 4, r2) caps s (balanced src b e s) ms Ha4) as Ho. unfold run. cbn [alts].
    destruct (balanced src b e s) as [s'|] eqn:Eb; apply Ho; cbn; try done; try lia; intros ? [= <-];
      by eapply balanced_range.
  - destruct (cstr_next pat _ r Ha2) as [[-> Hx]|(x & r1 & -> & Hx0 & E1 & Hx & Ha3)]; rewrite Hx; st_simpl; [exact (agrees_error caps [] ms _)|].
    rewrite E1 in *. cbn [length] in Hn. destruct (Z.eqb_spec x (ch "[")) as [->|]; cbn [negb]; [|exact (agrees_error caps [] ms _)].
    pose proof (set_read pat _ r1 Ha2) as Hset. destruct (read_set (cstr r1)) as [[set rs]|] eqn:Er.
    2:{ rewrite Hset. exact (agrees_error caps [] ms msg_missing). }
    destruct Hset as (ep & r' & -> & Hep & -> & Ht). apply read_set_shorter in Er. st_simpl.
    rewrite (frontier_spec s _ ep set) by done. st_simpl. unfold run. cbn [alts].
    match goal with |- context [if ?b then [Good s caps] else []] => set (t := b) end.
    pose proof (one_result (ep, r') caps s (if t then Some s else None) ms Hep) as Ho. cbn [fst snd] in Ho.
    destruct t; apply Ho; try done; try lia; intros ? [= <-]; lia.
  - pose proof (match_capture_spec s d caps ms Hs Hms) as Hm.
    pose proof (back_ok d s caps _ Hs eq_refl) as Hb. unfold run. cbn [alts].
    destruct (back src d s caps) as [|[s' c|msg] [|? ?]]; try done.
    + rewrite (st_bind_eq _ _ _ _ _ Hm). by apply agrees_fail.
    + destruct Hb as [-> Hb]. rewrite (st_bind_eq _ _ _ _ _ Hm).
      apply (one_result (p + 2, r) caps s (Some s') ms Ha2); try done; cbn; [lia|]. by intros ? [= <-].
    + unfold mbind, ST_bind. rewrite Hm. done.
Qed.

Lemma step_spec p l s caps ms :
  at_ pat p l -> (length (cstr l) < S n)%nat -> st_ok src s caps -> captured ms caps ->
  agrees caps (matches src (parse (cstr l)) s caps) (match_step pat src match_rest s p ms).
Proof.
  intros Ha Hn Hs Hms. destruct (cstr_next pat p l Ha) as [[-> Hr]|(c & r & -> & Hc & E & Hr & Ha1)].
  { unfold match_step. rewrite Hr. st_simpl. exists ms. done. }
  rewrite E in *. cbn [length] in Hn. rewrite parse_cons.
  assert (Hrn : (length (cstr r) < n)%nat) by lia.
  destruct (Z.eq_dec c L_ESC) as [->|Hesc].
  { pose proof (escape_spec p r s caps ms Ha Hrn Hs Hms) as He. by destruct (read_item L_ESC (cstr r)). }
  pose proof (default_spec p c r s caps ms Ha Hrn Hs Hms) as Hdef.
  assert (Hgoal : agrees caps (let '(i, rest) := read_item c (cstr r) in run i rest s caps)
    (match_step pat src match_rest s p ms)); [|by destruct (read_item c (cstr r))].
  unfold match_step, read_item. rewrite Hr. st_simpl.
  rewrite (proj2 (Z.eqb_neq _ _) Hesc), (proj2 (Z.eqb_neq _ _) Hc).
  destruct (c =? ch "("); [|destruct (c =? ch ")"); [by apply end_capture_spec|]].
  - destruct (cstr_next pat _ r Ha1) as [[E1 Hd]|(d & r1 & -> & Hd0 & E1 & Hd & Ha2)]; rewrite Hd; st_simpl.
    + change (0 =? ch ")") with false. rewrite E1 in *. rewrite <- E1.
      apply start_capture_spec; [done|rewrite E1; done|by right|done|done].
    + rewrite E1 in *. destruct (d =? ch ")").
      * cbn [length] in Hrn. replace (p + 1 + 1) with (p + 2) in Ha2 by lia.
        apply start_capture_spec; [done|lia|by left|done|done].
      * rewrite <- E1 in *. apply start_capture_spec; [done|done|by right|done|done].
  - destruct (c =? ch "$"); [|exact Hdef].
    destruct (cstr_next pat _ r Ha1) as [[E1 Hd]|(d & r1 & -> & Hd0 & E1 & Hd & Ha2)]; rewrite Hd; st_simpl.
    + change (0 =? 0) with true. rewrite E1. unfold run, src_end. cbn [alts].
      destruct (s =? lenZ src); [|by apply agrees_fail]. exists ms. done.
    + rewrite (proj2 (Z.eqb_neq _ _) Hd0). rewrite E1 in *. exact Hdef.
Qed.
End search.

(** ** The whole search *)

Section matcher.
Context `{Cenv} `{Frame}.
Variable pat src : bytes.
Hypothesis Hsrc : lenZ src < 2 ^ 62.

Lemma match_spec fuel p l s caps ms :
  at_ pat p l -> (length (cstr l) < fuel)%nat -> st_ok src s caps -> captured ms caps ->
  agrees caps (matches src (parse (cstr l)) s caps) (match_ pat src fuel s p ms).
Proof.
  revert p l s caps ms. induction fuel as [|fuel IH]; intros p l s caps ms Ha Hf; [lia|].
  apply (step_spec pat src Hsrc _ fuel IH); [done|lia].
Qed.

Lemma do_match_spec p l s ms :
  at_ pat p l -> 0 <= s <= lenZ src -> captured ms [] ->
  agrees [] (matches src (parse (cstr l)) s []) (do_match pat src s p ms).
Proof.
  intros Ha Hs Hms. apply match_spec; [done| |split; [done|constructor]|done].
  pose proof (at_length _ _ _ Ha). pose proof (cstr_length l). lia.
Qed.
End matcher.
