(* ===== verification/Strlib.v ===== *)
(** * The string library (lstrlib.c)

    A library function takes the arguments of the call and returns the values
    it pushes.  Positions of the language start at 1, those of the model at
    0. *)

From S2P Require Import Prelude Clib Object Lex Auxlib Strmatch.

Section strlib.
Context `{Cenv} `{Frame}.

(** [s[i .. j-1]] *)
Definition substring (s : bytes) (i j : Z) : bytes := take (Z.to_nat (j - i)) (drop (Z.to_nat i) s).

Definition str_len (args : list TValue) : outcome (list TValue) :=
  s ← luaL_checklstring args 1; Ret [pushinteger (lenZ s)].

Definition posrelat (pos len : Z) : Z :=
  let pos := if pos <? 0 then pos + (len + 1) else pos in
  if 0 <=? pos then pos else 0.

Definition str_sub (args : list TValue) : outcome (list TValue) :=
  s ← luaL_checklstring args 1;
  let l := lenZ s in
  i ← luaL_checkinteger args 2;
  j ← luaL_optinteger args 3 (-1);
  let start := posrelat i l in
  let end_ := posrelat j l in
  let start := if start <? 1 then 1 else start in
  let end_ := if l <? end_ then l else end_ in
  if start <=? end_ then v ← text s (start - 1) (end_ - start + 1); Ret [VString v]
  else Ret [VString []].

(** [while (l--) luaL_addchar(&b, s[l])] *)
Fixpoint reverse_loop (s : bytes) (l : nat) (b : luaL_Buffer) : outcome luaL_Buffer :=
  match l with
  | O => Ret b
  | S l => c ← rd s (Z.of_nat l); reverse_loop s l (luaL_addchar b c)
  end.

Definition str_reverse (args : list TValue) : outcome (list TValue) :=
  s ← luaL_checklstring args 1;
  b ← reverse_loop s (length s) luaL_buffinit;
  Ret [VString (luaL_pushresult b)].

(** The characters of [s] through [f] *)
Fixpoint map_loop (f : Z -> Z) (s : bytes) (b : luaL_Buffer) : luaL_Buffer :=
  match s with [] => b | c :: s => map_loop f s (luaL_addchar b (f c)) end.

Definition str_lower (args : list TValue) : outcome (list TValue) :=
  s ← luaL_checklstring args 1; Ret [VString (luaL_pushresult (map_loop tolower s luaL_buffinit))].

Definition str_upper (args : list TValue) : outcome (list TValue) :=
  s ← luaL_checklstring args 1; Ret [VString (luaL_pushresult (map_loop toupper s luaL_buffinit))].

Fixpoint rep_loop (n : nat) (s : bytes) (b : luaL_Buffer) : luaL_Buffer :=
  match n with O => b | S n => rep_loop n s (luaL_addlstring b s) end.

Definition str_rep (args : list TValue) : outcome (list TValue) :=
  s ← luaL_checklstring args 1;
  n ← luaL_checkint args 2;
  Ret [VString (luaL_pushresult (rep_loop (Z.to_nat n) s luaL_buffinit))].

(** The [n] characters from [i] *)
Fixpoint byte_loop (n : nat) (s : bytes) (i : Z) : outcome (list TValue) :=
  match n with
  | O => Ret []
  | S n => c ← rd s i; vs ← byte_loop n s (i + 1); Ret (pushinteger c :: vs)
  end.

Definition str_byte (args : list TValue) : outcome (list TValue) :=
  s ← luaL_checklstring args 1;
  let l := lenZ s in
  i ← luaL_optinteger args 2 1;
  let posi := posrelat i l in
  j ← luaL_optinteger args 3 posi;
  let pose := posrelat j l in
  let posi := if posi <=? 0 then 1 else posi in
  let pose := if l <? u64 pose then l else pose in
  if pose <? posi then Ret []
  else
    let n := i32 (pose - posi + 1) in
    (if posi + n <=? pose then luaL_error (str "string slice too long") else Ret tt);;
    luaL_checkstack (lenZ args) n (str "string slice too long");;
    byte_loop (Z.to_nat n) s (posi - 1).

(** The arguments from the [i]-th one, [n] of them *)
Fixpoint char_loop (n : nat) (args : list TValue) (i : Z) (b : luaL_Buffer) : outcome luaL_Buffer :=
  match n with
  | O => Ret b
  | S n =>
      c ← luaL_checkint args i;
      luaL_argcheck (u8 c =? c) i (str "invalid value");;
      char_loop n args (i + 1) (luaL_addchar b (u8 c))
  end.

Definition str_char (args : list TValue) : outcome (list TValue) :=
  b ← char_loop (length args) args 1 luaL_buffinit;
  Ret [VString (luaL_pushresult b)].

(** ** Plain search *)

(** [memchr]: the first [c] in the [n] characters from [s] *)
Fixpoint memchr (s : bytes) (c : Z) (n : nat) : option nat :=
  match n, s with
  | S n, d :: s => if d =? c then Some O else match memchr s c n with Some i => Some (S i) | None => None end
  | _, _ => None
  end.

(** The loop of [lmemfind]: [s1] from the place looked at, which is [pos] in
    the string, with [l1] places left; [c] and [s2] are the first character
    and the others of what is looked for. *)
Fixpoint memfind_loop (fuel : nat) (s1 : bytes) (l1 : Z) (pos : Z) (c : Z) (s2 : bytes) : outcome (option Z) :=
  if 0 <? l1 then
    match memchr s1 c (Z.to_nat l1) with
    | None => Ret None
    | Some k =>
        let init := drop (S k) s1 in
        if bool_decide (take (length s2) init = s2) then Ret (Some (pos + Z.of_nat k))
        else
          match fuel with
          | O => Nofuel
          | S fuel => memfind_loop fuel init (l1 - (Z.of_nat k + 1)) (pos + Z.of_nat k + 1) c s2
          end
    end
  else Ret None.

Definition lmemfind (s1 s2 : bytes) : outcome (option Z) :=
  match s2 with
  | [] => Ret (Some 0)
  | c :: s2' =>
      if lenZ s1 <? lenZ s2 then Ret None
      else memfind_loop (length s1) s1 (lenZ s1 - lenZ s2') 0 c s2'
  end.

(** ** Captures as values *)

(** [lua_pushlstring(L, s, e - s)] in the string [src], or of no string *)
Definition push_whole (src : bytes) (whole : option (Z * Z)) : outcome TValue :=
  match whole with
  | Some (s, e) => v ← text src s (e - s); Ret (VString v)
  | None => Ret (VString [])
  end.

(** [whole] are [s] and [e], when they are not [NULL]. *)
Definition push_onecapture (src : bytes) (ms : MatchState) (i : Z) (whole : option (Z * Z)) : outcome TValue :=
  if level ms <=? i then
    if i =? 0 then push_whole src whole else luaL_error (str "invalid capture index")
  else
    '(c, _) ← get_capture i ms;
    let '(init, l) := c in
    if l =? CAP_UNFINISHED then luaL_error (str "unfinished capture")
    else if l =? CAP_POSITION then Ret (pushinteger (init + 1))
    else v ← text src init l; Ret (VString v).

(** The [n] captures from the [i]-th *)
Fixpoint captures_loop (n : nat) (src : bytes) (ms : MatchState) (i : Z) (whole : option (Z * Z)) :
  outcome (list TValue) :=
  match n with
  | O => Ret []
  | S n =>
      v ← push_onecapture src ms i whole;
      vs ← captures_loop n src ms (i + 1) whole;
      Ret (v :: vs)
  end.

(** [used] is the number of values on the stack. *)
Definition push_captures (used : Z) (src : bytes) (ms : MatchState) (whole : option (Z * Z)) : outcome (list TValue) :=
  let nlevels := if (level ms =? 0) && bool_decide (is_Some whole) then 1 else level ms in
  luaL_checkstack used nlevels (str "too many captures");;
  captures_loop (Z.to_nat nlevels) src ms 0 whole.

Definition set_level0 (ms : MatchState) : MatchState := mkMatchState 0 (capture ms).

(** ** [string.find] and [string.match] *)

(** From [s1] on: where there is a match, where it ends, and its captures *)
Fixpoint find_loop (fuel : nat) (pat src : bytes) (anchor : bool) (p s1 : Z) (ms : MatchState) :
  outcome (option (Z * Z * MatchState)) :=
  '(res, ms) ← do_match pat src s1 p (set_level0 ms);
  match res with
  | Some e => Ret (Some (s1, e, ms))
  | None =>
      if (s1 <? lenZ src) && negb anchor then
        match fuel with O => Nofuel | S fuel => find_loop fuel pat src anchor p (s1 + 1) ms end
      else Ret None
  end.

(** [strpbrk(p, SPECIALS) == NULL] *)
Definition no_specials (p : bytes) : bool := negb (existsb (strchr SPECIALS) (cstr p)).

Definition lua_toboolean (args : list TValue) (n : Z) : bool :=
  match getZ args (n - 1) with Some v => negb (l_isfalse v) | None => false end.

Definition str_find_aux (find : bool) (args : list TValue) : outcome (list TValue) :=
  s ← luaL_checklstring args 1;
  p ← luaL_checklstring args 2;
  i ← luaL_optinteger args 3 1;
  let l1 := lenZ s in
  let init := posrelat i l1 - 1 in
  let init := if init <? 0 then 0 else if l1 <? init then l1 else init in
  if find && (lua_toboolean args 4 || no_specials p) then
    s2 ← lmemfind (drop (Z.to_nat init) s) p;
    match s2 with
    | Some k => Ret [pushinteger (init + k + 1); pushinteger (init + k + lenZ p)]
    | None => Ret [VNil]
    end
  else
    c ← rd p 0;
    let anchor := c =? ch "^" in
    m ← find_loop (length s) p s anchor (if anchor then 1 else 0) init match_state0;
    match m with
    | Some (s1, res, ms) =>
        if find then
          vs ← push_captures (lenZ args + 2) s ms None;
          Ret (pushinteger (s1 + 1) :: pushinteger res :: vs)
        else push_captures (lenZ args) s ms (Some (s1, res))
    | None => Ret [VNil]
    end.

Definition str_find : list TValue -> outcome (list TValue) := str_find_aux true.
Definition str_match : list TValue -> outcome (list TValue) := str_find_aux false.

(** ** [string.gmatch] *)

(** The loop over [src], from the position [src] of the string [s] *)
Fixpoint gmatch_loop (fuel : nat) (s p : bytes) (src : Z) (ms : MatchState) : outcome (option (Z * Z * MatchState)) :=
  if src <=? lenZ s then
    match fuel with
    | O => Nofuel
    | S fuel =>
        '(e, ms) ← do_match p s src 0 (set_level0 ms);
        match e with
        | Some e => Ret (Some (src, e, ms))
        | None => gmatch_loop fuel s p (src + 1) ms
        end
    end
  else Ret None.

(** The upvalues are the string, the pattern and the position: the values,
    and the new position when it is set. *)
Definition gmatch_aux (s p : bytes) (pos : TValue) : outcome (list TValue * TValue) :=
  m ← gmatch_loop (S (length s)) s p (u64 (lua_tointeger pos)) match_state0;
  match m with
  | Some (src, e, ms) =>
      let newstart := if e =? src then e + 1 else e in
      vs ← push_captures 0 s ms (Some (src, e));
      Ret (vs, pushinteger newstart)
  | None => Ret ([], pos)
  end.

(** The upvalues of the iterator *)
Definition gmatch (args : list TValue) : outcome (bytes * bytes * TValue) :=
  s ← luaL_checklstring args 1;
  p ← luaL_checklstring args 2;
  Ret (s, p, pushinteger 0).

Definition gfind_nodef (args : list TValue) : outcome (list TValue) :=
  luaL_error (str "'string.gfind' was renamed to 'string.gmatch'").

(** ** [string.gsub] *)

(** The characters of [news]: an escape at its end takes the terminator. *)
Fixpoint add_s (news : bytes) (src : bytes) (ms : MatchState) (b : luaL_Buffer) (s e : Z) : outcome luaL_Buffer :=
  match news with
  | [] => Ret b
  | c :: news =>
      if negb (c =? L_ESC) then add_s news src ms (luaL_addchar b c) s e
      else
        match news with
        | [] => Ret (luaL_addchar b 0)
        | d :: news =>
            if negb (isdigit d) then add_s news src ms (luaL_addchar b d) s e
            else if d =? ch "0" then v ← text src s (e - s); add_s news src ms (luaL_addlstring b v) s e
            else
              v ← push_onecapture src ms (d - ch "1") (Some (s, e));
              v ← deref (luaV_tostring v);
              add_s news src ms (luaL_addvalue b v) s e
        end
  end.

(** The third argument: a function or a table, as what a call of it or an
    index of it does to the state of the program *)
Section replacement.
Context {G : Type}.
Variable call : list TValue -> ST G TValue.
Variable gettable : TValue -> ST G TValue.
Variable args : list TValue.

Definition tr : Z := lua_type args 3.

Definition add_result (src : bytes) (b : luaL_Buffer) (s e : Z) (v : TValue) : outcome luaL_Buffer :=
  if l_isfalse v then t ← text src s (e - s); Ret (luaL_addvalue b t)
  else
    match luaV_tostring v with
    | Some t => Ret (luaL_addvalue b t)
    | None => luaL_error (str "invalid replacement value (a " ++ lua_typename (ttype v) ++ str ")")
    end.

Definition add_value (src : bytes) (ms : MatchState) (b : luaL_Buffer) (s e : Z) : ST G luaL_Buffer :=
  if (tr =? LUA_TNUMBER) || (tr =? LUA_TSTRING) then
    news ← lift (luaL_checklstring args 3);
    lift (add_s news src ms b s e)
  else if tr =? LUA_TFUNCTION then
    vs ← lift (push_captures (lenZ args + lvl b + 1) src ms (Some (s, e)));
    v ← call vs;
    lift (add_result src b s e v)
  else
    k ← lift (push_onecapture src ms 0 (Some (s, e)));
    v ← gettable k;
    lift (add_result src b s e v).

(** [while (n < max_s)]: the buffer, the position, the number of matches *)
Fixpoint gsub_while (fuel : nat) (pat src : bytes) (anchor : bool) (p max_s : Z)
  (b : luaL_Buffer) (s n : Z) (ms : MatchState) : ST G (luaL_Buffer * Z * Z) :=
  if n <? max_s then
    '(e, ms) ← lift (do_match pat src s p (set_level0 ms));
    '(b, n) ← match e with
      | Some e => b ← add_value src ms b s e; mret (b, n + 1)
      | None => mret (b, n)
      end;
    let next (b : luaL_Buffer) (s : Z) :=
      if anchor then mret (b, s, n)
      else match fuel with O => nofuel | S fuel => gsub_while fuel pat src anchor p max_s b s n ms end in
    match e with
    | Some e => if s <? e then next b e
                else if s <? lenZ src then c ← lift (rd src s); next (luaL_addchar b c) (s + 1)
                else mret (b, s, n)
    | None => if s <? lenZ src then c ← lift (rd src s); next (luaL_addchar b c) (s + 1)
              else mret (b, s, n)
    end
  else mret (b, s, n).

Definition str_gsub : ST G (list TValue) :=
  src ← lift (luaL_checklstring args 1);
  p ← lift (luaL_checklstring args 2);
  max_s ← lift (luaL_optint args 4 (lenZ src + 1));
  c ← lift (rd p 0);
  let anchor := c =? ch "^" in
  lift (luaL_argcheck ((tr =? LUA_TNUMBER) || (tr =? LUA_TSTRING) || (tr =? LUA_TFUNCTION) || (tr =? LUA_TTABLE)) 3
    (str "string/function/table expected"));;
  '(b, s, n) ← gsub_while (length src) p src anchor (if anchor then 1 else 0) max_s luaL_buffinit 0 0 match_state0;
  rest ← lift (text src s (lenZ src - s));
  mret [VString (luaL_pushresult (luaL_addlstring b rest)); pushinteger n].
End replacement.
End strlib.

(** ** Examples *)

Section examples.
#[local] Instance ex_env : Cenv := {| sprintf _ _ := []; BUFSIZ := 8192; int_overflow _ := 0; long_overflow _ := 0; ulong_overflow _ := 0 |}.
#[local] Instance ex_frame : Frame := {| in_frame := true; namewhat := []; name := None; luaL_where := [] |}.

Definition strings (l : list string) : list TValue := (fun s => VString (str s)) <$> l.

Definition result_of {A} (m : outcome (list TValue * A)) : option (list TValue) :=
  match m with Ret (v, _) => Some v | _ => None end.

Example sub_ex : str_sub (strings ["hello"%string] ++ [pushinteger (-3); pushinteger 10]) = Ret (strings ["llo"%string]).
Proof. vm_compute. reflexivity. Qed.
Example find_ex1 : str_find (strings ["a.b.c"; "b.c"]%string) = Ret [pushinteger 3; pushinteger 5].
Proof. vm_compute. reflexivity. Qed.
Example find_ex2 : str_find (strings ["key = value"; "(%a+)%s*="; "2"]%string) =
  Ret [pushinteger 2; pushinteger 5; VString (str "ey")].
Proof. vm_compute. reflexivity. Qed.
Example match_ex6 : str_match (strings ["2024-05"; "(%d+)-(%d+)"]%string) = Ret (strings ["2024"; "05"]%string).
Proof. vm_compute. reflexivity. Qed.
Example gsub_ex1 : result_of (str_gsub (fun _ => mret VNil) (fun _ => mret VNil)
  (strings ["hello world"; "(%w+)"; "<%1>"]%string) tt) = Some [VString (str "<hello> <world>"); pushinteger 2].
Proof. vm_compute. reflexivity. Qed.
Example gsub_ex2 : result_of (str_gsub (fun _ => mret VNil) (fun _ => mret VNil)
  (strings ["abc"; ""; "-"]%string) tt) = Some [VString (str "-a-b-c-"); pushinteger 4].
Proof. vm_compute. reflexivity. Qed.
End examples.
