(* ===== verification/Strrun.v ===== *)
(** * Searches through a subject

    What the loops of find, gmatch and gsub do with the first result of a
    pattern, that pushing captures is safe, and the plain search, which looks for a
    substring, against the search for a pattern without special characters. *)

From S2P Require Import Prelude Clib Object Lex Auxlib AuxFacts Strmatch Strsem Strfacts Strequiv Strlib.

(** ** Captures as values *)

Section values.
Context `{Cenv} `{Frame}.
Variable src : bytes.
Implicit Types (ms : MatchState) (caps : list (Z * Z)).

Lemma text_spec i len : 0 <= i -> 0 <= len -> i + len <= lenZ src -> text src i len = Ret (substring src i (i + len)).
Proof.
  intros. unfold text, src_end, substring. rewrite !(proj2 (Z.leb_le _ _)) by lia. cbn [andb]. do 3 f_equal. lia.
Qed.

Definition whole_ok (whole : option (Z * Z)) : Prop :=
  match whole with Some (s, e) => 0 <= s <= e /\ e <= lenZ src | None => True end.

Definition is_piece (v : TValue) : Prop := exists t, (v = VString t \/ exists z, v = pushinteger z /\ 0 <= z <= lenZ src + 1).

Lemma push_whole_post whole : whole_ok whole -> post (push_whole src whole) is_piece.
Proof.
  destruct whole as [[s e]|]; cbn; [|by exists []; left]. intros Hw. rewrite text_spec by lia.
  cbn. by eexists; left.
Qed.

Lemma onecapture_post ms caps i s whole :
  captured ms caps -> st_ok src s caps -> 0 <= i -> whole_ok whole ->
  post (push_onecapture src ms i whole) is_piece.
Proof.
  intros Hms [Hs Hc] Hi Hw. pose proof Hms as (C1 & _). unfold push_onecapture. rewrite C1.
  destruct (Z.leb_spec (lenZ caps) i) as [Hle|Hlt].
  { destruct (i =? 0); [by apply push_whole_post|done]. }
  destruct (getZ_is_Some caps i ltac:(lia)) as [[init l] Hg]. pose proof (getZ_Forall _ _ _ _ Hc Hg) as (Q1 & Q2 & Q3).
  cbn [fst snd] in *. unfold getZ in Hg. rewrite (proj2 (Z.leb_le 0 i)) in Hg by lia.
  rewrite <- (Z2Nat.id i) by lia. rewrite (captured_get _ _ _ _ Hms Hg). cbn [mbind outcome_bind].
  destruct (Z.eqb_spec l CAP_UNFINISHED); [done|]. destruct (Z.eqb_spec l CAP_POSITION).
  - cbn. exists []. right. exists (init + 1). split; [done|lia].
  - unfold CAP_UNFINISHED, CAP_POSITION in *. rewrite text_spec by lia. cbn. by eexists; left.
Qed.

Lemma captures_post n ms caps i s whole :
  captured ms caps -> st_ok src s caps -> 0 <= i -> whole_ok whole ->
  post (captures_loop n src ms i whole) (fun vs => length vs = n /\ Forall is_piece vs).
Proof.
  intros Hms Hs Hi Hw. revert i Hi. induction n as [|n IH]; intros i Hi; cbn [captures_loop]; [done|].
  eapply post_bind; [by eapply onecapture_post|]. intros v Hv.
  eapply post_bind; [apply IH; lia|]. intros vs [Hl Hvs]. cbn. split; [congruence|by constructor].
Qed.

Lemma push_captures_post used ms caps s whole :
  captured ms caps -> st_ok src s caps -> whole_ok whole ->
  post (push_captures used src ms whole) (fun vs => Forall is_piece vs /\ (whole = None \/ vs <> [])).
Proof.
  intros Hms Hs Hw. unfold push_captures. eapply post_bind with (P := fun _ => True).
  { unfold luaL_checkstack. by case_if. }
  intros _ _. eapply post_mono; [by eapply captures_post|]. cbn. intros vs [Hl Hvs]. split; [done|].
  destruct whole as [w|]; [right|by left]. intros ->. cbn [length] in Hl. destruct Hms as (C1 & _).
  rewrite bool_decide_eq_true_2, andb_true_r in Hl by (by eexists). pose proof (lenZ_nonneg caps).
  destruct (Z.eqb_spec (level ms) 0); lia.
Qed.
End values.

(** ** The first result at or after a position *)

Section runs.
Context `{Cenv} `{Frame}.
Variable pat src : bytes.
Hypothesis Hsrc : lenZ src < 2 ^ 62.
Variable p : Z.
Variable l : bytes.
Hypothesis Hp : at_ pat p l.

Definition first (s : Z) : option result := head (matches src (parse (cstr l)) s []).

(** The result of a call of [match] with no captures *)
Definition matched (s : Z) (m : outcome (option Z * MatchState)) : Prop :=
  match first s with
  | Some (Good e caps) => exists ms, m = Ret (Some e, ms) /\ captured ms caps /\ s <= e /\ st_ok src e caps
  | Some (Bad msg) => m = luaL_error msg
  | None => exists ms, m = Ret (None, ms) /\ captured ms []
  end.

Lemma do_match_first s ms :
  0 <= s <= lenZ src -> captured ms [] -> matched s (do_match pat src s p ms).
Proof.
  intros Hs Hms. pose proof (do_match_spec pat src Hsrc p l s ms Hp Hs Hms) as Ha. unfold matched, first.
  pose proof (matches_ok src _ s [] (parse_ok (cstr l)) ltac:(split; [done|constructor])) as Hok.
  unfold agrees in Ha. destruct (matches src (parse (cstr l)) s []) as [|[e caps|msg] rs]; cbn [head] in *; [done| |done].
  destruct Ha as (ms' & -> & Hc). apply list.Forall_cons in Hok as [[? ?] _]. exists ms'. done.
Qed.

Lemma captured_reset ms caps : captured ms caps -> captured (set_level0 ms) [].
Proof. intros (C1 & C2 & C3 & C4). split_and!; [done|done|done|]. intros i Hi. cbn in Hi. lia. Qed.

(** From [s] on, [n] characters before the end *)
Fixpoint search (anchor : bool) (n : nat) (s : Z) : option (Z * result) :=
  match first s with
  | Some r => Some (s, r)
  | None => match n with O => None | S n => if anchor then None else search anchor n (s + 1) end
  end.

Lemma search_after anchor n s : match search anchor n s with Some (k, _) => s <= k | None => True end.
Proof.
  revert s. induction n as [|n IH]; intros s; cbn [search]; destruct (first s); try lia; try done.
  destruct anchor; [done|]. specialize (IH (s + 1)). destruct (search false n (s + 1)) as [[]|]; [lia|done].
Qed.

Definition found (r : option (Z * result)) (m : outcome (option (Z * Z * MatchState))) : Prop :=
  match r with
  | Some (s, Good e caps) => exists ms, m = Ret (Some (s, e, ms)) /\ captured ms caps /\ 0 <= s <= e /\ st_ok src e caps
  | Some (_, Bad msg) => m = luaL_error msg
  | None => m = Ret None
  end.

Lemma find_loop_spec fuel n anchor s ms caps :
  s + Z.of_nat n = lenZ src -> (n <= fuel)%nat -> 0 <= s -> captured ms caps ->
  found (search anchor n s) (find_loop fuel pat src anchor p s ms).
Proof.
  revert fuel s ms caps. induction n as [|n IH]; intros fuel s ms caps Hn Hf Hs Hms; destruct fuel as [|fuel]; try lia;
    pose proof (do_match_first s (set_level0 ms) ltac:(lia) (captured_reset _ _ Hms)) as Hm;
    cbn [search find_loop]; unfold matched in Hm; destruct (first s) as [[e c|msg]|];
    try (rewrite Hm; done);
    try (destruct Hm as (ms' & -> & Hc & H1 & H2); exists ms'; split_and!; done).
  - destruct Hm as (ms' & -> & Hc). cbn [mbind outcome_bind]. rewrite (proj2 (Z.ltb_ge _ _)) by lia. done.
  - destruct Hm as (ms' & -> & Hc). cbn [mbind outcome_bind]. rewrite (proj2 (Z.ltb_ge _ _)) by lia. done.
  - destruct Hm as (ms' & -> & Hc). cbn [mbind outcome_bind]. rewrite (proj2 (Z.ltb_lt _ _)) by lia.
    destruct anchor; cbn [andb negb]; [done|]. eapply IH; [lia|lia|lia|exact Hc].
Qed.

Lemma gmatch_loop_spec fuel n s ms caps :
  p = 0 -> s + Z.of_nat n = lenZ src -> (n < fuel)%nat -> 0 <= s -> captured ms caps ->
  found (search false n s) (gmatch_loop fuel src pat s ms).
Proof.
  intros Hp0. revert fuel s ms caps. induction n as [|n IH]; intros fuel s ms caps Hn Hf Hs Hms; (destruct fuel as [|fuel]; [lia|]);
    pose proof (do_match_first s (set_level0 ms) ltac:(lia) (captured_reset _ _ Hms)) as Hm;
    cbn [search gmatch_loop]; rewrite (proj2 (Z.leb_le _ _)) by lia; rewrite Hp0 in Hm;
    unfold matched in Hm; destruct (first s) as [[e c|msg]|];
    try (rewrite Hm; done);
    try (destruct Hm as (ms' & -> & Hc & H1 & H2); exists ms'; split_and!; done);
    destruct Hm as (ms' & -> & Hc); cbn [mbind outcome_bind].
  - destruct fuel; cbn [gmatch_loop]; rewrite (proj2 (Z.leb_gt _ _)) by lia; done.
  - eapply IH; [lia|lia|lia|exact Hc].
Qed.
End runs.

(** * Plain search

    [lmemfind] finds the first occurrence; so does [match] on a pattern
    without special characters. *)


(** [s2] is in [s1] at [k]. *)
Definition occurs (s1 s2 : bytes) (k : nat) : Prop := take (length s2) (drop k s1) = s2.

#[export] Instance occurs_dec s1 s2 k : Decision (occurs s1 s2 k).
Proof. unfold occurs. apply _. Defined.

Lemma occurs_room s1 s2 k : s2 <> [] -> occurs s1 s2 k -> (k + length s2 <= length s1)%nat.
Proof.
  intros Hne Ho. apply (f_equal length) in Ho. rewrite length_take, length_drop in Ho.
  assert (length s2 <> O) by (by destruct s2). lia.
Qed.

Lemma occurs_cons s1 c s2 k : occurs s1 (c :: s2) k <-> s1 !! k = Some c /\ take (length s2) (drop (S k) s1) = s2.
Proof.
  unfold occurs. destruct (s1 !! k) as [d|] eqn:E.
  - rewrite (drop_S _ _ _ E). cbn [length take]. split; [intros [= -> Ht]; by rewrite Ht|].
    intros [[= ->] ->]. done.
  - apply lookup_ge_None in E. rewrite drop_ge by lia. split; [done|intros [? _]; done].
Qed.

(** The first place where [s2] is in [s1] *)
Definition first_occurrence (s1 s2 : bytes) (o : option Z) : Prop :=
  match o with
  | Some k => exists n, k = Z.of_nat n /\ occurs s1 s2 n /\ forall j, (j < n)%nat -> ~ occurs s1 s2 j
  | None => forall j, ~ occurs s1 s2 j
  end.

Lemma memchr_Some s c n k :
  memchr s c n = Some k -> (k < n)%nat /\ s !! k = Some c /\ forall j, (j < k)%nat -> s !! j <> Some c.
Proof.
  revert s k. induction n as [|n IH]; intros [|d s] k; cbn [memchr]; try done.
  destruct (Z.eqb_spec d c) as [->|Hne].
  - intros [= <-]. split_and!; [lia|done|lia].
  - destruct (memchr s c n) as [i|] eqn:E; [|done]. intros [= <-]. apply IH in E as (H1 & H2 & H3).
    split_and!; [lia|done|]. intros [|j] Hj; [cbn; congruence|]. apply H3. lia.
Qed.

Lemma memchr_None s c n : memchr s c n = None -> forall j, (j < n)%nat -> s !! j <> Some c.
Proof.
  revert s. induction n as [|n IH]; intros s Hm j Hj; [lia|]. destruct s as [|d s]; cbn [memchr] in Hm; [done|].
  destruct (Z.eqb_spec d c) as [->|Hne]; [done|]. destruct (memchr s c n) eqn:E; [done|].
  destruct j as [|j]; [cbn; congruence|]. apply (IH s E). lia.
Qed.

Lemma memfind_loop_spec fuel s s1 pos c s2 l1 :
  s1 = drop pos s -> l1 = lenZ s - Z.of_nat pos - lenZ s2 -> (length s1 <= fuel)%nat ->
  (forall j, (j < pos)%nat -> ~ occurs s (c :: s2) j) ->
  exists o, memfind_loop fuel s1 l1 (Z.of_nat pos) c s2 = Ret o /\ first_occurrence s (c :: s2) o.
Proof.
  revert s1 pos l1. induction fuel as [|fuel IH]; intros s1 pos l1 -> -> Hf Hno; cbn [memfind_loop].
  all: rewrite length_drop in Hf.
  all: destruct (Z.ltb_spec 0 (lenZ s - Z.of_nat pos - lenZ s2)) as [Hlt|Hge];
    [|exists None; split; [done|]; intros j Ho;
      destruct (decide (j < pos)%nat); [by eapply Hno|];
      apply occurs_room in Ho; [unfold lenZ in *; cbn in Ho; lia|done]].
  { unfold lenZ in *. lia. }
  destruct (memchr _ _ _) as [k|] eqn:E.
  - apply memchr_Some in E as (H1 & H2 & H3). rewrite lookup_drop in H2. rewrite drop_drop.
    replace (pos + S k)%nat with (S (pos + k)) by lia.
    assert (Hno' : forall j, (j < pos + k)%nat -> ~ occurs s (c :: s2) j).
    { intros j Hj. destruct (decide (j < pos)%nat); [by apply Hno|]. rewrite occurs_cons. intros [Ho _].
      apply (H3 (j - pos)%nat); [lia|]. rewrite lookup_drop. by replace (pos + (j - pos))%nat with j by lia. }
    case_bool_decide as Ht.
    + exists (Some (Z.of_nat pos + Z.of_nat k)). split; [done|]. exists (pos + k)%nat.
      split_and!; [lia|by apply occurs_cons|done].
    + replace (Z.of_nat pos + Z.of_nat k + 1) with (Z.of_nat (S (pos + k))) by lia.
      apply IH; [done|unfold lenZ in *; lia|rewrite length_drop; lia|].
      intros j Hj. destruct (decide (j = pos + k)%nat) as [->|]; [|apply Hno'; lia].
      rewrite occurs_cons. intros [_ ?]. done.
  - exists None. split; [done|]. intros j Ho. destruct (decide (j < pos)%nat); [by eapply Hno|].
    pose proof (occurs_room s (c :: s2) j ltac:(done) Ho) as Hr. apply occurs_cons in Ho as [Ho _].
    apply (memchr_None _ _ _ E (j - pos)%nat); [unfold lenZ in *; cbn in Hr; lia|].
    rewrite lookup_drop. by replace (pos + (j - pos))%nat with j by lia.
Qed.

Lemma lmemfind_spec s1 s2 : exists o, lmemfind s1 s2 = Ret o /\ first_occurrence s1 s2 o.
Proof.
  destruct s2 as [|c s2]; cbn [lmemfind].
  { exists (Some 0). split; [done|]. exists O. split_and!; [done|done|lia]. }
  destruct (Z.ltb_spec (lenZ s1) (lenZ (c :: s2))) as [Hlt|Hge].
  { exists None. split; [done|]. intros j Ho. apply occurs_room in Ho; [|done]. unfold lenZ in *. lia. }
  apply (memfind_loop_spec _ s1 _ 0); [done|lia|done|lia].
Qed.

(** ** The same search by [match] *)

(** A character that stands for itself, whatever follows *)
Definition plain (c : Z) : Prop := c <> 0 /\ strchr SPECIALS c = false /\ c <> ch ")".

Lemma plain_neq c d : plain c -> strchr SPECIALS d = true -> (c =? d) = false.
Proof. intros (_ & Hc & _) Hd. apply Z.eqb_neq. by intros ->; rewrite Hc in Hd. Qed.

Lemma cstr_plain p : Forall plain p -> cstr p = p.
Proof.
  induction 1 as [|c p (H1 & H2 & H3) Hp IH]; [done|]. cbn [cstr]. rewrite (proj2 (Z.eqb_neq c 0) H1), IH. done.
Qed.

Lemma parse_plain p : Forall plain p -> parse p = (fun c => ISingle (CChar c) One) <$> p.
Proof.
  induction 1 as [|c p Hc Hp IH]; [done|]. rewrite parse_cons.
  assert (Hi : read_item c p = (ISingle (CChar c) One, p)); [|by rewrite Hi, IH].
  unfold read_item, read_single, read_class.
  rewrite (plain_neq c (ch "(")), (plain_neq c L_ESC), (plain_neq c (ch "$")), (plain_neq c (ch "[")), (plain_neq c (ch ".")) by done.
  rewrite (proj2 (Z.eqb_neq c (ch ")"))) by apply Hc.
  destruct Hp as [|d p Hd Hp]; [done|]. 
  by rewrite (plain_neq d (ch "?")), (plain_neq d (ch "*")), (plain_neq d (ch "+")), (plain_neq d (ch "-")) by done.
Qed.

Section plain_match.
Variable src : bytes.

Lemma matches_plain p s caps :
  0 <= s <= lenZ src ->
  matches src ((fun c => ISingle (CChar c) One) <$> p) s caps =
  if bool_decide (occurs src p (Z.to_nat s)) then [Good (s + lenZ p) caps] else [].
Proof.
  revert s. induction p as [|c p IH]; intros s Hs.
  { rewrite bool_decide_eq_true_2 by done. cbn. change (lenZ (@nil Z)) with 0. by rewrite Z.add_0_r. }
  rewrite fmap_cons, matches_cons. cbn [alts positions]. unfold matches_at. cbn [in_class].
  destruct (Z.ltb_spec s (lenZ src)) as [Hlt|Hge]; cbn [andb].
  2:{ rewrite bool_decide_eq_false_2; [done|]. intros Ho. apply occurs_room in Ho; [|done]. unfold lenZ in *. cbn in Ho. lia. }
  destruct (getZ_is_Some src s ltac:(lia)) as [d Hd]. unfold char_at. rewrite Hd. cbn [default].
  unfold getZ in Hd. rewrite (proj2 (Z.leb_le 0 s)) in Hd by lia.
  change (id d) with d. change (default 0 (Some d)) with d.
  destruct (Z.eqb_spec c d) as [->|Hne].
  - cbn [fmap list_fmap flat_map then_matches]. rewrite app_nil_r. fold (fmap (M := list) (A:=Z) (B:=item)).
    rewrite IH by lia. rewrite lenZ_cons.
    replace (Z.to_nat (s + 1)) with (S (Z.to_nat s)) by lia.
    rewrite (bool_decide_ext (occurs src (d :: p) (Z.to_nat s)) (occurs src p (S (Z.to_nat s)))).
    + destruct (bool_decide _); [|done]. do 2 f_equal. lia.
    + rewrite occurs_cons, Hd. unfold occurs. tauto.
  - rewrite bool_decide_eq_false_2; [done|]. rewrite occurs_cons, Hd. intros [[= ->] _]. done.
Qed.
End plain_match.

Section plain_search.
Variable src p : bytes.
Hypothesis Hplain : Forall plain p.

Lemma first_plain s :
  0 <= s <= lenZ src ->
  first src p s = if bool_decide (occurs src p (Z.to_nat s)) then Some (Good (s + lenZ p) []) else None.
Proof.
  intros Hs. unfold first. rewrite cstr_plain, parse_plain, matches_plain by done. by case_bool_decide.
Qed.

Lemma search_plain n s :
  s + Z.of_nat n = lenZ src -> 0 <= s ->
  match search src p false n s with
  | Some (k, r) => r = Good (k + lenZ p) [] /\ s <= k /\ occurs src p (Z.to_nat k) /\
      forall j, s <= Z.of_nat j < k -> ~ occurs src p j
  | None => forall j, s <= Z.of_nat j <= lenZ src -> ~ occurs src p j
  end.
Proof.
  revert s. induction n as [|n IH]; intros s Hn Hs; cbn [search]; rewrite first_plain by lia;
    destruct (decide (occurs src p (Z.to_nat s))) as [Ho|Ho];
    rewrite ?(bool_decide_eq_true_2 _ Ho), ?(bool_decide_eq_false_2 _ Ho).
  - split_and!; [done|lia|done|lia].
  - intros j Hj. by replace j with (Z.to_nat s) by lia.
  - split_and!; [done|lia|done|lia].
  - specialize (IH (s + 1) ltac:(lia) ltac:(lia)). destruct (search src p false n (s + 1)) as [[k r]|].
    + destruct IH as (-> & H1 & H2 & H3). split_and!; [done|lia|done|]. intros j Hj.
      destruct (decide (Z.of_nat j = s)) as [<-|]; [by rewrite Nat2Z.id in Ho|]. apply H3. lia.
    + intros j Hj. destruct (decide (Z.of_nat j = s)) as [<-|]; [by rewrite Nat2Z.id in Ho|]. apply IH. lia.
Qed.

(** Both searches find the same place. *)
Lemma plain_search_same init :
  0 <= init <= lenZ src ->
  lmemfind (drop (Z.to_nat init) src) p =
  Ret match search src p false (Z.to_nat (lenZ src - init)) init with Some (k, _) => Some (k - init) | None => None end.
Proof.
  intros Hi. pose proof (search_plain (Z.to_nat (lenZ src - init)) init ltac:(lia) ltac:(lia)) as Hs.
  destruct (lmemfind_spec (drop (Z.to_nat init) src) p) as (o & -> & Ho). f_equal.
  assert (Hd : forall j, occurs (drop (Z.to_nat init) src) p j <-> occurs src p (Z.to_nat init + j)).
  { intros j. unfold occurs. by rewrite drop_drop. }
  destruct (search _ _ _ _ _) as [[k r]|].
  - destruct Hs as (_ & Hk & Hok & Hmin). destruct o as [z|]; cbn in Ho.
    + destruct Ho as (n & -> & H1 & H2). f_equal. rewrite Hd in H1.
      destruct (Z.lt_trichotomy (Z.of_nat n) (k - init)) as [Hlt|[Heq|Hgt]]; [|done|]; exfalso.
      * apply (Hmin (Z.to_nat init + n)%nat); [lia|done].
      * apply (H2 (Z.to_nat (k - init))); [lia|]. rewrite Hd. by replace (Z.to_nat init + Z.to_nat (k - init))%nat with (Z.to_nat k) by lia.
    + exfalso. apply (Ho (Z.to_nat (k - init))). rewrite Hd. by replace (Z.to_nat init + Z.to_nat (k - init))%nat with (Z.to_nat k) by lia.
  - destruct o as [z|]; [|done]. exfalso. destruct Ho as (n & -> & H1 & _).
    assert (Hn : (n <= length (drop (Z.to_nat init) src))%nat).
    { destruct p as [|c p']; [|apply occurs_room in H1; [lia|done]].
      destruct (decide (n <= length (drop (Z.to_nat init) src))%nat) as [|Hn]; [done|].
      exfalso. apply (Hs (Z.to_nat init)); [lia|done]. }
    rewrite length_drop in Hn. rewrite Hd in H1. apply (Hs (Z.to_nat init + n)%nat); [unfold lenZ in *; lia|done].
Qed.
End plain_search.
