(* ===== verification/Strformat.v ===== *)
(** * [string.format] (lstrlib.c)

    A format specification is copied into [form], a buffer of [MAX_FORMAT]
    characters, and given to [sprintf], which writes into a buffer of
    [MAX_ITEM] characters; more than they hold is [Undef]. *)

From S2P Require Import Prelude Clib Object Lex Auxlib Strmatch.

Definition MAX_ITEM : Z := 512.
Definition FLAGS : bytes := str "-+ #0".
Definition LUA_INTFRMLEN : bytes := str "l".

(** [sizeof] of a string literal counts its terminator. *)
Definition sizeof (s : bytes) : Z := lenZ s + 1.
Definition MAX_FORMAT : Z := sizeof FLAGS + sizeof LUA_INTFRMLEN + 10.

(** A string that is written to an array of [n] characters, terminated *)
Definition stored (n : Z) (s : bytes) : outcome bytes := if lenZ s <? n then Ret s else Undef.

Section format.
Context `{Cenv} `{Frame}.

Definition quoted_char (c : Z) (b : luaL_Buffer) : luaL_Buffer :=
  if (c =? 34) || (c =? 92) || (c =? 10) then luaL_addchar (luaL_addchar b 92) c
  else if c =? 13 then luaL_addlstring b (str "\r")
  else if c =? 0 then luaL_addlstring b (str "\000")
  else luaL_addchar b c.

Fixpoint quoted_chars (s : bytes) (b : luaL_Buffer) : luaL_Buffer :=
  match s with [] => b | c :: s => quoted_chars s (quoted_char c b) end.

Definition addquoted (args : list TValue) (b : luaL_Buffer) (arg : Z) : outcome luaL_Buffer :=
  s ← luaL_checklstring args arg;
  let b := luaL_addchar b 34 in
  let b := quoted_chars s b in
  Ret (luaL_addchar b 34).

(** [while ( *p != '\0' && strchr(FLAGS, *p) != NULL) p++], on what is left
    of the format, to the number of flags *)
Fixpoint skip_flags (l : bytes) : Z :=
  match l with
  | c :: l => if negb (c =? 0) && strchr FLAGS c then 1 + skip_flags l else 0
  | [] => 0
  end.

(** [if (isdigit(uchar( *p))) p++] *)
Definition skip_digit (s : bytes) (p : Z) : outcome Z :=
  c ← rd s p; Ret (if isdigit c then p + 1 else p).

(** The format [s] from [strfrmt]: the position of the conversion, and
    [form]; [strncpy] pads with zeros after the end of the format. *)
Definition scanformat (s : bytes) (strfrmt : Z) : outcome (Z * bytes) :=
  let p := strfrmt + skip_flags (drop (Z.to_nat strfrmt) s) in
  (if sizeof FLAGS <=? p - strfrmt then luaL_error (str "invalid format (repeated flags)") else Ret tt);;
  p ← skip_digit s p;
  p ← skip_digit s p;
  c ← rd s p;
  p ← (if c =? ch "." then p ← skip_digit s (p + 1); skip_digit s p else Ret p);
  c ← rd s p;
  (if isdigit c then luaL_error (str "invalid format (width or precision too long)") else Ret tt);;
  spec ← rd s p;
  form ← stored MAX_FORMAT (ch "%" :: take (Z.to_nat (p - strfrmt)) (drop (Z.to_nat strfrmt) s) ++ [spec]);
  Ret (p, cstr form).

(** [form] is not empty. *)
Definition addintlen (form : bytes) : outcome bytes :=
  let l := lenZ form in
  spec ← deref (getZ form (l - 1));
  stored MAX_FORMAT (take (Z.to_nat (l - 1)) form ++ LUA_INTFRMLEN ++ [spec]).

(** [(unsigned LUA_INTFRM_T)n] *)
Definition number2ulong (n : lua_Number) : Z := cast_to 0 (2 ^ 64) ulong_overflow n.

(** [sprintf(buff, form, x)] and [luaL_addlstring(&b, buff, strlen(buff))] *)
Definition additem (b : luaL_Buffer) (form : bytes) (x : fmtarg) : outcome luaL_Buffer :=
  buff ← stored MAX_ITEM (sprintf form x);
  Ret (luaL_addlstring b (cstr buff)).

(** One format item: [s] from after the percent sign *)
Definition format_item (args : list TValue) (b : luaL_Buffer) (s : bytes) (arg strfrmt : Z) : outcome (luaL_Buffer * Z) :=
  '(p, form) ← scanformat s strfrmt;
  c ← rd s p;
  let strfrmt := p + 1 in
  let any (l : bytes) := existsb (Z.eqb c) l in
  b ← (if any (str "c") then
      n ← luaL_checknumber args arg; additem b form (FInt (lua_number2int n))
    else if any (str "di") then
      form ← addintlen form; n ← luaL_checknumber args arg; additem b form (FLong (lua_number2integer n))
    else if any (str "ouxX") then
      form ← addintlen form; n ← luaL_checknumber args arg; additem b form (FULong (number2ulong n))
    else if any (str "eEfgG") then
      n ← luaL_checknumber args arg; additem b form (FDouble n)
    else if any (str "q") then addquoted args b arg
    else if any (str "s") then
      t ← luaL_checklstring args arg;
      if negb (strchr form (ch ".")) && (100 <=? lenZ t) then Ret (luaL_addvalue b t)
      else additem b form (FString (cstr t))
    else luaL_error (str "invalid option '%" ++ cstr [c] ++ str "' to 'format'"));
  Ret (b, strfrmt).

(** [while (strfrmt < strfrmt_end)] *)
Fixpoint format_loop (fuel : nat) (args : list TValue) (s : bytes) (b : luaL_Buffer) (arg strfrmt : Z) : outcome luaL_Buffer :=
  if strfrmt <? lenZ s then
    match fuel with
    | O => Nofuel
    | S fuel =>
        c ← rd s strfrmt;
        if negb (c =? L_ESC) then format_loop fuel args s (luaL_addchar b c) arg (strfrmt + 1)
        else
          let strfrmt := strfrmt + 1 in
          c ← rd s strfrmt;
          if c =? L_ESC then format_loop fuel args s (luaL_addchar b c) arg (strfrmt + 1)
          else
            let arg := arg + 1 in
            (if lenZ args <? arg then luaL_argerror arg (str "no value") else Ret tt);;
            '(b, strfrmt) ← format_item args b s arg strfrmt;
            format_loop fuel args s b arg strfrmt
    end
  else Ret b.

Definition str_format (args : list TValue) : outcome (list TValue) :=
  s ← luaL_checklstring args 1;
  b ← format_loop (length s) args s luaL_buffinit 1 0;
  Ret [VString (luaL_pushresult b)].
End format.
