(* ===== verification/Strquote.v ===== *)
(** * The option [%q] of [string.format] and the scanner

    A string that was written by [addquoted] is scanned to itself. *)

From S2P Require Import Prelude Clib Object Zio Lex LexFacts LexWords.
From S2P Require Import Auxlib AuxFacts Strformat.

Definition quoted_byte (c : Z) : bytes :=
  if (c =? 34) || (c =? 92) || (c =? 10) then [92; c]
  else if c =? 13 then str "\r"
  else if c =? 0 then str "\000"
  else [c].

(** What [addquoted] adds for the string [s] *)
Definition quoted (s : bytes) : bytes := 34 :: concat (quoted_byte <$> s) ++ [34].

Section added.
Context `{Cenv} `{Frame}.

Lemma quoted_chars_contents s b :
  contents (quoted_chars s b) = contents b ++ concat (quoted_byte <$> s).
Proof.
  revert b. induction s as [|c s IH]; intros b; cbn [quoted_chars fmap list_fmap concat]; [by rewrite app_nil_r|].
  rewrite IH, app_assoc. f_equal. unfold quoted_char, quoted_byte.
  repeat case_if; rewrite ?addlstring_contents, ?addchar_contents, <- ?app_assoc; done.
Qed.

Lemma addquoted_contents args b arg s :
  luaL_checklstring args arg = Ret s ->
  exists b', addquoted args b arg = Ret b' /\ contents b' = contents b ++ quoted s.
Proof.
  intros Hs. unfold addquoted. rewrite Hs. eexists. split; [done|].
  rewrite addchar_contents, quoted_chars_contents, addchar_contents, <- !app_assoc. done.
Qed.

(** A format of just this option *)
Lemma format_q s : str_format [VString (str "%q"); VString s] = Ret [VString (quoted s)].
Proof.
  transitivity (Ret [VString (luaL_pushresult (luaL_addchar (quoted_chars s (luaL_addchar luaL_buffinit 34)) 34))]); [reflexivity|].
  by rewrite pushresult_contents, addchar_contents, quoted_chars_contents, addchar_contents, <- !app_assoc.
Qed.
End added.

Section scanned.
Context {Z' : Type} `{HS : ByteStream Z'} `{HL : !ByteStreamLaws Z'}.
Implicit Types (ls : LexState Z').

(** The state after some characters: [d] is added to the buffer, [r] is left. *)
Definition read_to ls (d r : bytes) (ls' : LexState Z') : Prop :=
  ext ls ls' /\ buffer (buff ls') = buffer (buff ls) ++ d /\ chars ls' = r.

Lemma read_to_trans ls ls1 ls2 d e r1 r2 :
  read_to ls d r1 ls1 -> read_to ls1 e r2 ls2 -> read_to ls (d ++ e) r2 ls2.
Proof. intros (H1 & H2 & H3) (H4 & H5 & H6). split_and!; [eauto with lua|by rewrite H5, H2, app_assoc|done]. Qed.

Lemma next_reads ls c r :
  wf ls -> chars ls = c :: r -> LexFacts.plain c -> post (next ls) (fun '(_, ls') => read_to ls [] r ls').
Proof.
  intros Hw Hc Hp. destruct (chars_cons ls c r Hw Hc) as [Hcu _].
  eapply post_mono; [apply next_spec; [done|by rewrite Hcu]|]. intros [[] ls'] (H1 & _ & H3 & _ & H5).
  rewrite Hc in H5. injection H5 as _ H5. split_and!; [done|by rewrite app_nil_r|done].
Qed.

Lemma save_reads ls c :
  wf ls -> is_byte c -> post (save c ls) (fun '(_, ls') => read_to ls [c] (chars ls) ls').
Proof.
  intros Hw Hb. eapply post_mono; [by apply save_ext|]. intros [[] ls'] (H1 & _ & _ & _ & H5 & H6).
  rewrite u8_small in H5 by done. done.
Qed.

Lemma save_next_reads ls c r :
  wf ls -> chars ls = c :: r -> LexFacts.plain c -> post (save_and_next ls) (fun '(_, ls') => read_to ls [c] r ls').
Proof.
  intros Hw Hc Hp. destruct (chars_cons ls c r Hw Hc) as [Hcu Hb].
  eapply post_mono; [apply save_and_next_spec; [done|by rewrite Hcu]|]. intros [[] ls'] (H1 & _ & H3 & _ & H5).
  rewrite Hc in H5. injection H5 as _ H5. rewrite Hcu, u8_small in H3 by done. done.
Qed.

(** A line feed that no carriage return follows *)
Lemma inclinenumber_reads ls r :
  wf ls -> chars ls = NL :: r -> head r <> Some CR -> post (inclinenumber ls) (fun '(_, ls') => read_to ls [] r ls').
Proof.
  intros Hw Hc Hr. destruct (chars_cons ls NL r Hw Hc) as [Hcu _].
  eapply post_mono.
  - apply post_and; [apply (inclinenumber_spec ls Hw); by rewrite Hcu|].
    instantiate (1 := fun '(_, ls') => chars ls' = r). unfold inclinenumber, currIsNewline. st_simpl. rewrite Hcu.
    eapply st_post_bind; [apply next_raw; [done|by rewrite Hcu]|]. intros [] ls1 (Hw1 & Hch & _).
    rewrite Hc in Hch. injection Hch as _ Hch. st_simpl.
    assert (Hsame : ((current ls1 =? NL) || (current ls1 =? CR)) && negb (current ls1 =? NL) = false).
    { destruct r as [|d r].
      - rewrite (chars_nil ls1 Hw1 (eq_sym Hch)). done.
      - destruct (chars_cons ls1 d r Hw1 (eq_sym Hch)) as [-> _]. destruct (Z.eqb_spec d NL); [done|].
        destruct (Z.eqb_spec d CR) as [->|]; [by destruct Hr|done]. }
    rewrite Hsame. st_simpl. case_if; [apply syntaxerror_spec; apply Hw1|]. st_simpl. done.
  - intros [[] ls'] [(H1 & _ & H3 & _) H4]. split_and!; [done|by rewrite app_nil_r|done].
Qed.

(** The escape of a zero byte *)
Lemma zero_reads ls r :
  wf ls -> chars ls = str "000" ++ r ->
  post (decimal_escape 2 0 ls) (fun '(e, ls') => e = 0 /\ read_to ls [] r ls').
Proof.
  intros Hw Hc. change (str "000" ++ r) with (48 :: 48 :: 48 :: r) in Hc.
  destruct (chars_cons _ _ _ Hw Hc) as [Hcu _]. cbn [decimal_escape]. st_simpl. rewrite Hcu.
  eapply st_post_bind; [by apply (next_reads ls 48 (48 :: 48 :: r))|]. intros [] ls1 H1.
  pose proof H1 as (He1 & _ & Hc1). apply ext_wf in He1. destruct (chars_cons _ _ _ He1 Hc1) as [Hcu1 _].
  st_simpl. rewrite Hcu1. change (isdigit 48) with true. cbn iota. st_simpl. rewrite Hcu1.
  eapply st_post_bind; [by apply (next_reads ls1 48 (48 :: r))|]. intros [] ls2 H2.
  pose proof H2 as (He2 & _ & Hc2). apply ext_wf in He2. destruct (chars_cons _ _ _ He2 Hc2) as [Hcu2 _].
  st_simpl. rewrite Hcu2. change (isdigit 48) with true. cbn iota. st_simpl. rewrite Hcu2.
  eapply st_post_bind; [by apply (next_reads ls2 48 r)|]. intros [] ls3 H3. st_simpl. split; [done|].
  exact (read_to_trans _ _ _ [] [] _ _ (read_to_trans _ _ _ [] [] _ _ H1 H2) H3).
Qed.

Lemma read_escape_reads ls c r :
  wf ls -> (c = 34 \/ c = 92 \/ c = 10) -> chars ls = 92 :: c :: r -> head r <> Some CR ->
  post (read_escape ls) (fun '(_, ls') => read_to ls [c] r ls').
Proof.
  intros Hw Hc Hch Hr. unfold read_escape.
  eapply st_post_bind; [by apply (next_reads ls 92 (c :: r))|]. intros [] ls1 H1.
  pose proof H1 as (He1 & _ & Hc1). pose proof (ext_wf _ _ He1) as Hw1.
  destruct (chars_cons _ _ _ Hw1 Hc1) as [Hcu1 _]. st_simpl. rewrite Hcu1.
  destruct Hc as [-> | [-> | ->]]; cbn -[save inclinenumber save_and_next post].
  - eapply post_mono; [by apply (save_next_reads ls1 34 r)|]. intros [[] ls2] H2. exact (read_to_trans _ _ _ [] _ _ _ H1 H2).
  - eapply post_mono; [by apply (save_next_reads ls1 92 r)|]. intros [[] ls2] H2. exact (read_to_trans _ _ _ [] _ _ _ H1 H2).
  - eapply st_post_bind; [by apply (save_reads ls1 NL)|]. intros [] ls2 H2. rewrite Hc1 in H2.
    pose proof H2 as (He2 & _ & Hc2). eapply post_mono; [apply (inclinenumber_reads ls2 r); [by eapply ext_wf|done|done]|].
    intros [[] ls3] H3. exact (read_to_trans _ _ _ [] _ _ _ H1 (read_to_trans _ _ _ [10] [] _ _ H2 H3)).
Qed.

(** One character of the string *)
Lemma string_step_reads ls c r :
  wf ls -> is_byte c -> chars ls = quoted_byte c ++ r -> head r <> Some CR ->
  post (string_step ls) (fun '(_, ls') => read_to ls [c] r ls').
Proof.
  intros Hw Hb Hc Hr. unfold quoted_byte in Hc. unfold string_step. st_simpl.
  destruct ((c =? 34) || (c =? 92) || (c =? 10)) eqn:Hesc.
  { destruct (chars_cons _ _ _ Hw Hc) as [-> _]. apply read_escape_reads; [done| |done|done].
    apply orb_true_iff in Hesc as [Hesc|Hesc%Z.eqb_eq]; [|tauto].
    apply orb_true_iff in Hesc as [Hesc%Z.eqb_eq|Hesc%Z.eqb_eq]; tauto. }
  bool_facts. destruct (Z.eqb_spec c 13) as [->|]; [|destruct (Z.eqb_spec c 0) as [->|]].
  - change (str "\r" ++ r) with (92 :: 114 :: r) in Hc. destruct (chars_cons _ _ _ Hw Hc) as [-> _].
    change (post (read_escape ls) (fun '(_, ls') => read_to ls [13] r ls')). unfold read_escape.
    eapply st_post_bind; [by apply (next_reads ls 92 (114 :: r))|]. intros [] ls1 K1.
    pose proof K1 as (He1 & _ & Hc1). pose proof (ext_wf _ _ He1) as Hw1.
    destruct (chars_cons _ _ _ Hw1 Hc1) as [Hcu1 _]. st_simpl. rewrite Hcu1. change (escape_char 114) with (Some 13). cbn iota.
    eapply st_post_bind; [by apply (save_reads ls1 13)|]. intros [] ls2 K2. rewrite Hc1 in K2.
    pose proof K2 as (He2 & _ & Hc2). eapply post_mono; [apply (next_reads ls2 114 r); [by eapply ext_wf|done|done]|].
    intros [[] ls3] K3. exact (read_to_trans _ _ _ [] _ _ _ K1 (read_to_trans _ _ _ [13] [] _ _ K2 K3)).
  - change (str "\000" ++ r) with (92 :: str "000" ++ r) in Hc. destruct (chars_cons _ _ _ Hw Hc) as [-> _].
    change (post (read_escape ls) (fun '(_, ls') => read_to ls [0] r ls')). unfold read_escape.
    eapply st_post_bind; [by apply (next_reads ls 92 (str "000" ++ r))|]. intros [] ls1 K1.
    pose proof K1 as (He1 & _ & Hc1). pose proof (ext_wf _ _ He1) as Hw1.
    destruct (chars_cons _ _ _ Hw1 Hc1) as [Hcu1 _]. st_simpl. rewrite Hcu1.
    change (escape_char 48) with (@None Z). change ((48 =? NL) || (48 =? CR)) with false.
    change (48 =? EOZ) with false. change (negb (isdigit 48)) with false. cbn iota.
    eapply st_post_bind; [by apply (zero_reads ls1 r)|]. intros e ls2 [-> K2].
    change (UCHAR_MAX <? 0) with false. cbn iota. st_simpl. pose proof K2 as (He2 & _ & Hc2).
    eapply post_mono; [apply (save_reads ls2 0); [by eapply ext_wf|done]|]. intros [[] ls3] K3. rewrite Hc2 in K3.
    exact (read_to_trans _ _ _ [] _ _ _ K1 (read_to_trans _ _ _ [] [0] _ _ K2 K3)).
  - destruct (chars_cons _ _ _ Hw Hc) as [-> _]. unfold is_byte in Hb. unfold EOZ, NL, CR. change (ch "\") with 92.
    rewrite !(proj2 (Z.eqb_neq c _)) by lia. cbn [orb]. apply save_next_reads; [done|done|].
    apply LexFacts.plain_intro; [unfold EOZ; lia|unfold NL, CR; lia].
Qed.

Definition chars_of (s rest : bytes) : bytes := concat (quoted_byte <$> s) ++ 34 :: rest.

Lemma chars_of_head s rest : head (chars_of s rest) <> Some CR.
Proof.
  destruct s as [|c s]; [done|]. unfold chars_of. cbn [fmap list_fmap concat]. unfold quoted_byte, CR.
  destruct ((c =? 34) || (c =? 92) || (c =? 10)); [done|]. destruct (Z.eqb_spec c 13) as [->|Hne]; [done|].
  destruct (c =? 0); [done|]. cbn. congruence.
Qed.

Lemma string_loop_reads s fuel ls rest :
  wf ls -> Forall is_byte s -> chars ls = chars_of s rest -> (length s <= fuel)%nat ->
  post (string_loop 34 fuel ls) (fun '(_, ls') => read_to ls s (34 :: rest) ls').
Proof.
  intros Hw Hs. revert fuel ls Hw. induction Hs as [|c s Hc Hs IH]; intros fuel ls Hw Hch Hf.
  { destruct (chars_cons _ _ _ Hw Hch) as [Hcu _]. destruct fuel; cbn [string_loop]; st_simpl; rewrite Hcu; cbn;
      (split_and!; [by apply ext_refl|by rewrite app_nil_r|done]). }
  cbn [length] in Hf. destruct fuel as [|fuel]; [lia|]. cbn [string_loop]. st_simpl.
  assert (Hne : current ls <> 34).
  { unfold chars_of in Hch. cbn [fmap list_fmap concat] in Hch. rewrite <- app_assoc in Hch. unfold quoted_byte in Hch at 1.
    destruct ((c =? 34) || (c =? 92) || (c =? 10)) eqn:Hesc; [by destruct (chars_cons _ _ _ Hw Hch) as [-> _]|].
    bool_facts. destruct (c =? 13); [by destruct (chars_cons _ _ _ Hw Hch) as [-> _]|].
    destruct (c =? 0); by destruct (chars_cons _ _ _ Hw Hch) as [-> _]. }
  rewrite (proj2 (Z.eqb_neq _ _) Hne).
  eapply st_post_bind; [apply (string_step_reads ls c (chars_of s rest)); [done|done| |apply chars_of_head]|].
  { rewrite Hch. unfold chars_of. cbn [fmap list_fmap concat]. by rewrite <- app_assoc. }
  intros [] ls1 H1. pose proof H1 as (He1 & _ & Hc1).
  eapply post_mono; [apply (IH fuel ls1); [by eapply ext_wf|done|lia]|].
  intros [[] ls2] H2. exact (read_to_trans _ _ _ [c] s _ _ H1 H2).
Qed.

Lemma quoted_length s : (length s <= length (concat (quoted_byte <$> s)))%nat.
Proof.
  induction s as [|c s IH]; [done|]. cbn [fmap list_fmap concat]. rewrite length_app. cbn [length].
  assert (1 <= length (quoted_byte c))%nat by (unfold quoted_byte; repeat case_if; cbn; lia). lia.
Qed.

Lemma read_string_reads ls s rest :
  wf ls -> Forall is_byte s -> chars ls = quoted s ++ rest -> buffer (buff ls) = [] ->
  post (read_string 34 ls) (fun '(ts, ls') => ts = s /\ chars ls' = rest).
Proof.
  intros Hw Hs Hc Hb. unfold read_string. st_simpl. rewrite left_rounds.
  assert (Hc' : chars ls = 34 :: chars_of s rest).
  { rewrite Hc. unfold quoted, chars_of. cbn [app]. by rewrite <- app_assoc. }
  eapply st_post_bind; [by apply (save_next_reads ls 34 (chars_of s rest))|]. intros [] ls1 H1.
  pose proof H1 as (He1 & _ & Hc1).
  eapply st_post_bind; [apply (string_loop_reads s _ ls1 rest); [by eapply ext_wf|done|done|]|].
  { unfold left. rewrite Hc'. unfold chars_of. cbn [length]. rewrite length_app. pose proof (quoted_length s). lia. }
  intros [] ls2 H2. pose proof H2 as (He2 & _ & Hc2).
  eapply st_post_bind; [apply (save_next_reads ls2 34 rest); [by eapply ext_wf|done|done]|]. intros [] ls3 H3. st_simpl.
  destruct (read_to_trans _ _ _ [34] _ _ _ H1 (read_to_trans _ _ _ s [34] _ _ H2 H3)) as (_ & Hb3 & Hc3).
  rewrite Hb in Hb3. cbn [app] in Hb3. unfold luaX_newstring, slice, luaZ_bufflen. st_simpl. rewrite Hb3.
  rewrite lenZ_cons, lenZ_app. change (lenZ [34]) with 1. pose proof (lenZ_nonneg s).
  rewrite !(proj2 (Z.leb_le _ _)) by lia. cbn [andb]. unfold lift. cbn [post]. split; [|done].
  change (Z.to_nat 1) with 1%nat. cbn [drop]. replace (lenZ s + 1 + 1 - 2) with (lenZ s) by lia.
  unfold lenZ. rewrite Nat2Z.id. apply take_app_length.
Qed.

Lemma llex_quoted ls sem s rest :
  wf ls -> Forall is_byte s -> chars ls = quoted s ++ rest ->
  post (llex sem ls) (fun '(r, ls') => r = (TK_STRING, SString s) /\ chars ls' = rest).
Proof.
  intros Hw Hs Hc. apply llex_first; [done|]. intros ls1 Hw1 Hc1 _ Hb1. rewrite Hc in Hc1.
  assert (Hcu : current ls1 = 34) by (by destruct (chars_cons ls1 34 _ Hw1 Hc1)).
  unfold llex_step. st_simpl. rewrite Hcu. change ((34 =? NL) || (34 =? CR)) with false.
  cbn -[read_string post].
  eapply st_post_bind; [by apply read_string_reads|]. intros ts ls2 [-> Hr]. st_simpl. eauto.
Qed.

End scanned.

#[local] Instance no_frame : Frame := {| in_frame := false; namewhat := []; name := None; luaL_where := [] |}.

#[local] Instance no_sprintf : Cenv := {|
  sprintf _ _ := [];
  BUFSIZ := 4;
  int_overflow _ := 0; long_overflow _ := 0; ulong_overflow _ := 0
|}.

Definition quoted_state : LexState (option bytes) :=
  mkLexState 34 1 1 (mkToken TK_NIL SNone) (mkToken TK_EOS SNone)
    (Some [97; 92; 48; 48; 48; 92; 10; 92; 34; 34; 32]) (mkMbuffer [] LUA_MINBUFFER) (str "=t") 46.

