(* ===== verification/Strsafe.v ===== *)
(** * The string library is safe

    The functions of the library that search, on any arguments: no access
    outside of a string, and every loop ends. *)

From S2P Require Import Prelude Clib Object Lex Auxlib AuxFacts Strmatch Strsem Strfacts Strequiv Strlib Strrun.

(** A value a program can hold: its strings fit in the memory *)
Definition arg_ok (v : TValue) : Prop :=
  match v with VString s => lenZ s < 2 ^ 62 | VNullString => False | _ => True end.

Lemma lenZ_cstr s : lenZ (cstr s) <= lenZ s.
Proof. unfold lenZ. pose proof (cstr_length s). lia. Qed.

Section arguments.
Context `{Cenv} `{Frame}.

(** [lua_number2str] writes into a buffer of 32 characters. *)
Hypothesis number_short : forall n, lenZ (lua_number2str n) < 32.

Lemma argerror_post {A} n msg (Q : A -> Prop) : post (luaL_argerror n msg) Q.
Proof. unfold luaL_argerror. by repeat case_if. Qed.

Section args.
Variable args : list TValue.
Hypothesis Hargs : Forall arg_ok args.

Lemma checklstring_post n : post (luaL_checklstring args n) (fun s => lenZ s < 2 ^ 62).
Proof.
  unfold luaL_checklstring. destruct (getZ args (n - 1)) as [v|] eqn:E; [|apply argerror_post].
  pose proof (getZ_Forall _ _ _ _ Hargs E) as Hv. destruct v; cbn in *; try apply argerror_post; try done.
  pose proof (lenZ_cstr (lua_number2str n0)). specialize (number_short n0). lia.
Qed.

Lemma checkinteger_post n : post (luaL_checkinteger args n) (fun _ => True).
Proof.
  unfold luaL_checkinteger. destruct (getZ args (n - 1)) as [v|] eqn:E; [|apply argerror_post].
  pose proof (getZ_Forall _ _ _ _ Hargs E) as Hv.
  assert (Hc : forall b z, post (if b : bool then tag_error args n LUA_TNUMBER else Ret z) (fun _ : Z => True)).
  { intros [] ?; [apply argerror_post|done]. }
  by destruct v.
Qed.

Lemma checknumber_post n : post (luaL_checknumber args n) (fun _ => True).
Proof.
  unfold luaL_checknumber. destruct (getZ args (n - 1)) as [v|] eqn:E; [|apply argerror_post].
  pose proof (getZ_Forall _ _ _ _ Hargs E) as Hv.
  assert (Hc : forall b z, post (if b : bool then tag_error args n LUA_TNUMBER else Ret z) (fun _ : lua_Number => True)).
  { intros [] ?; [apply argerror_post|done]. }
  by destruct v.
Qed.

Lemma optinteger_post n d : post (luaL_optinteger args n d) (fun _ => True).
Proof. unfold luaL_optinteger. case_if; [done|]. apply checkinteger_post. Qed.

Lemma optint_post n d : post (luaL_optint args n d) (fun _ => True).
Proof. eapply post_bind; [apply optinteger_post|]. done. Qed.
End args.

Lemma posrelat_nonneg pos len : 0 <= posrelat pos len.
Proof. unfold posrelat. repeat case_if; bool_facts; lia. Qed.

(** ** [string.find] and [string.match] *)

(** What the two functions return *)
Definition found_values (vs : list TValue) : Prop :=
  vs = [VNil] \/ Forall (fun v => exists t, v = VString t \/ exists z, v = pushinteger z) vs.

Lemma pieces_values src vs : Forall (is_piece src) vs -> found_values vs.
Proof.
  intros Hvs. right. revert Hvs. apply Forall_impl. intros v (t & [->|(z & -> & _)]); exists t; [by left|].
  right. by exists z.
Qed.

Lemma start_range (i l : Z) :
  0 <= l -> 0 <= (if posrelat i l - 1 <? 0 then 0 else if l <? posrelat i l - 1 then l else posrelat i l - 1) <= l.
Proof. intros. repeat case_if; bool_facts; lia. Qed.

Lemma at_anchor (pat : bytes) :
  exists c l, rd pat 0 = Ret c /\ at_ pat (if c =? ch "^" then 1 else 0) l.
Proof.
  rewrite (at_rd pat 0 pat (at_start pat)). destruct pat as [|c l]; cbn [head default].
  - exists 0, []. split; [done|]. apply at_start.
  - exists c. change (default 0 (Some c)) with c. destruct (c =? ch "^").
    + exists l. split; [done|]. apply (at_next (c :: l) 0 c l), at_start.
    + exists (c :: l). split; [done|]. apply at_start.
Qed.

Lemma str_find_aux_post find args :
  Forall arg_ok args -> post (str_find_aux find args) found_values.
Proof.
  intros Hargs. unfold str_find_aux.
  eapply post_bind; [by apply checklstring_post|]. intros s Hs. cbn beta in Hs.
  eapply post_bind; [by apply checklstring_post|]. intros p _.
  eapply post_bind; [by apply optinteger_post|]. intros i _.
  pose proof (start_range i (lenZ s) (lenZ_nonneg s)) as Hi.
  set (init := if _ <? 0 then 0 else _) in *. destruct (find && _).
  - destruct (lmemfind_spec (drop (Z.to_nat init) s) p) as (o & -> & _). cbn [mbind outcome_bind].
    destruct o; cbn; [right|by left]. do 2 (constructor; [exists []; right; by eexists|]). constructor.
  - destruct (at_anchor p) as (c & l & -> & Hl). cbn [mbind outcome_bind].
    pose proof (find_loop_spec p s Hs _ l Hl (length s) (Z.to_nat (lenZ s - init)) (c =? ch "^") init match_state0 []
      ltac:(lia) ltac:(unfold lenZ in *; lia) ltac:(lia) captured_0) as Hf.
    unfold found in Hf. destruct (search _ _ _ _ _) as [[s1 [e caps|msg]]|]; [|by rewrite Hf|rewrite Hf; by left].
    destruct Hf as (ms & -> & Hc & Hs1 & Hok). cbn [mbind outcome_bind]. destruct find.
    + eapply post_bind; [by eapply push_captures_post|]. intros vs [Hvs _]. cbn.
      destruct (pieces_values _ _ Hvs) as [->|Hv]; right.
      * apply list.Forall_cons in Hvs as [(t & [?|(z & ? & _)]) _]; done.
      * do 2 (constructor; [exists []; right; by eexists|]). done.
    + eapply post_mono; [eapply push_captures_post; [done|done|]|].
      * cbn. destruct Hok as [? _]. lia.
      * intros vs [Hvs _]. by eapply pieces_values.
Qed.

(** ** [string.gmatch] *)

Lemma gmatch_aux_post s p pos :
  lenZ s < INT_MAX - 1 -> 0 <= pos <= lenZ s + 1 ->
  post (gmatch_aux s p (pushinteger pos)) (fun r =>
    r = ([], pushinteger pos) \/
    found_values (fst r) /\ fst r <> [] /\ exists pos', snd r = pushinteger pos' /\ pos < pos' <= lenZ s + 1).
Proof.
  intros Hs Hpos. unfold gmatch_aux. unfold INT_MAX in Hs. rewrite tointeger_push by (unfold is_i32; lia).
  unfold u64. rewrite Z.mod_small by lia.
  assert (Hl : exists r, gmatch_loop (S (length s)) s p pos match_state0 = r /\
    (r = Ret None \/ (exists msg, r = luaL_error msg) \/
     exists s1 e ms caps, r = Ret (Some (s1, e, ms)) /\ captured ms caps /\ pos <= s1 <= e /\ st_ok s e caps)).
  { eexists. split; [done|]. destruct (decide (pos = lenZ s + 1)) as [->|Hne].
    { left. cbn [gmatch_loop]. by rewrite (proj2 (Z.leb_gt _ _)) by lia. }
    pose proof (gmatch_loop_spec p s ltac:(lia) 0 p (at_start p) (S (length s)) (Z.to_nat (lenZ s - pos)) pos match_state0 []
      eq_refl ltac:(lia) ltac:(unfold lenZ in *; lia) ltac:(lia) captured_0) as Hf.
    pose proof (search_after s p false (Z.to_nat (lenZ s - pos)) pos) as Ha.
    unfold found in Hf. destruct (search _ _ _ _ _) as [[s1 [e caps|msg]]|]; [|right; left; by eexists|by left].
    right; right. destruct Hf as (ms & Hm & Hc & Hs1 & Hok). exists s1, e, ms, caps. split_and!; try done. lia. }
  destruct Hl as (r & -> & [->|[(msg & ->)|(s1 & e & ms & caps & -> & Hc & He & Hok)]]); [by left|done|].
  cbn [mbind outcome_bind]. pose proof Hok as [Her _].
  eapply post_bind; [eapply (push_captures_post s 0 ms caps e (Some (s1, e))); [done|done|cbn; lia]|].
  intros vs [Hvs [?|Hne]]; [done|]. right. cbn [fst snd]. split; [by eapply pieces_values|]. split; [done|].
  eexists. split; [done|]. destruct (Z.eqb_spec e s1); lia.
Qed.

(** ** [string.gsub] *)

Section gsub.
Context {G : Type}.
Variable call : list TValue -> ST G TValue.
Variable gettable : TValue -> ST G TValue.
Variable args : list TValue.

Hypothesis Hargs : Forall arg_ok args.

(** What one replacement does to the buffer: [I b s] relates the buffer to
    the position. *)
Variable src : bytes.
Hypothesis Hsrc : lenZ src < 2 ^ 62.
Variable I : luaL_Buffer -> Z -> Prop.
Hypothesis I_value : forall ms caps b s e g,
  captured ms caps -> st_ok src e caps -> 0 <= s <= e -> I b s ->
  post (add_value call gettable args src ms b s e g) (fun r => I (fst r) e).
Hypothesis I_char : forall b s, I b s -> 0 <= s < lenZ src -> I (luaL_addchar b (char_at src s)) (s + 1).

Definition gsub_end (n0 max_s : Z) (r : luaL_Buffer * Z * Z * G) : Prop :=
  let '(b, s, n, _) := r in I b s /\ 0 <= s <= lenZ src /\ n0 <= n <= Z.max n0 max_s.

Lemma gsub_while_post fuel pat anchor p l max_s b s n ms caps g :
  at_ pat p l -> 0 <= s <= lenZ src -> lenZ src - s <= Z.of_nat fuel -> captured ms caps -> I b s ->
  post (gsub_while call gettable args fuel pat src anchor p max_s b s n ms g) (fun r =>
    gsub_end n max_s r /\ (fst r).2 <= n + (lenZ src - s) + 1).
Proof.
  intros Hp. revert b s n ms caps g. induction fuel as [|fuel IH]; intros b s n ms caps g Hs Hf Hms Hb;
    cbn [gsub_while]; (destruct (Z.ltb_spec n max_s) as [Hn|Hn]; [|cbn; split_and!; try done; lia]);
    pose proof (do_match_first pat src Hsrc p l Hp s _ Hs (captured_reset _ _ Hms)) as Hm;
    unfold matched in Hm; destruct (first src l s) as [[e c|msg]|];
    try (unfold mbind, ST_bind, lift; rewrite Hm; done);
    destruct Hm as (ms' & -> & Hc & Hrest); st_simpl.
  (* the fuel is used up at the end of the subject *)
  - destruct Hrest as [He Hok]. pose proof Hok as [Her _]. assert (e = s) as -> by lia. rewrite Z.ltb_irrefl.
    rewrite (proj2 (Z.ltb_ge s (lenZ src))) by lia.
    eapply st_post_bind; [by apply (I_value ms' c b s s g); [done|done|lia|done]|].
    intros b1 g1 Hb1. cbn [fst] in Hb1. st_simpl. cbn. split_and!; try done; lia.
  - rewrite (proj2 (Z.ltb_ge s (lenZ src))) by lia. cbn. split_and!; try done; lia.
  - destruct Hrest as [He Hok]. pose proof Hok as [Her _].
    eapply st_post_bind; [by apply (I_value ms' c b s e g); [done|done|lia|done]|].
    intros b1 g1 Hb1. cbn [fst] in Hb1. st_simpl.
    destruct (Z.ltb_spec s e) as [Hlt|Hge].
    + destruct anchor; [cbn; split_and!; try done; lia|].
      eapply post_mono; [eapply (IH b1 e (n + 1) ms' c g1); [lia|lia|done|done]|].
      intros [[[b2 s2] n2] g2]. cbn. intros [(H1 & H2 & H3) H4]. split_and!; try done; lia.
    + assert (e = s) as -> by lia. destruct (Z.ltb_spec s (lenZ src)) as [Hlt|Hge'].
      2:{ cbn. split_and!; try done; lia. }
      rewrite (src_rd src s) by lia. st_simpl. pose proof (I_char b1 s Hb1 ltac:(lia)) as Hb2.
      destruct anchor; [cbn; split_and!; try done; lia|].
      eapply post_mono; [eapply (IH _ (s + 1) (n + 1) ms' c g1); [lia|lia|done|done]|].
      intros [[[b3 s2] n2] g2]. cbn. intros [(H1 & H2 & H3) H4]. split_and!; try done; lia.
  - destruct (Z.ltb_spec s (lenZ src)) as [Hlt|Hge]; [|cbn; split_and!; try done; lia].
    rewrite (src_rd src s) by lia. st_simpl. pose proof (I_char b s Hb ltac:(lia)) as Hb2.
    destruct anchor; [cbn; split_and!; try done; lia|].
    eapply post_mono; [eapply (IH _ (s + 1) n ms' [] g); [lia|lia|done|done]|].
    intros [[[b3 s2] n2] g2]. cbn. intros [(H1 & H2 & H3) H4]. split_and!; try done; lia.
Qed.
End gsub.

(** ** Replacements *)

Section replacements.
Context {G : Type}.
Variable call : list TValue -> ST G TValue.
Variable gettable : TValue -> ST G TValue.
Hypothesis call_post : forall vs g, post (call vs g) (fun _ => True).
Hypothesis gettable_post : forall k g, post (gettable k g) (fun _ => True).
Variable args : list TValue.
Hypothesis Hargs : Forall arg_ok args.

Lemma piece_tostring src v : is_piece src v -> is_Some (luaV_tostring v).
Proof. intros (t & [->|(z & -> & _)]); by eexists. Qed.

Lemma add_s_post n news src ms caps b s e :
  (length news <= n)%nat -> captured ms caps -> st_ok src e caps -> 0 <= s <= e ->
  post (add_s news src ms b s e) (fun _ => True).
Proof.
  intros Hn Hms Hok Hs. pose proof Hok as [He _].
  revert news b Hn. induction n as [|n IH]; intros [|c news] b Hn; cbn [length] in Hn; try lia; try done.
  cbn [add_s]. destruct (negb (c =? L_ESC)); [apply IH; lia|].
  destruct news as [|d news]; [done|]. cbn [length] in Hn. destruct (isdigit d) eqn:Ed; cbn [negb]; [|apply IH; lia].
  destruct (Z.eqb_spec d (ch "0")) as [->|Hd].
  - rewrite text_spec by lia. cbn [mbind outcome_bind]. apply IH. lia.
  - assert (Hd1 : 0 <= d - ch "1").
    { unfold isdigit in Ed. bool_facts. change (ch "0") with 48 in Hd. change (ch "1") with 49. lia. }
    eapply post_bind; [apply (onecapture_post src ms caps _ e (Some (s, e))); [done|done|done|cbn; lia]|].
    intros v Hv. destruct (piece_tostring _ _ Hv) as [t ->]. cbn [deref mbind outcome_bind]. apply IH. lia.
Qed.

Lemma add_result_post src b s e v : 0 <= s <= e -> e <= lenZ src -> post (add_result src b s e v) (fun _ => True).
Proof.
  intros. unfold add_result. destruct (l_isfalse v).
  - rewrite text_spec by lia. done.
  - by destruct (luaV_tostring v).
Qed.

Lemma add_value_post src ms caps b s e g :
  captured ms caps -> st_ok src e caps -> 0 <= s <= e ->
  post (add_value call gettable args src ms b s e g) (fun _ => True).
Proof.
  intros Hms Hok Hs. pose proof Hok as [He _].
  assert (Hlift : forall A B (m : outcome A) (k : A -> ST G B) Q, post m Q ->
    (forall a, Q a -> post (k a g) (fun _ => True)) -> post ((lift m ≫= k) g) (fun _ => True)).
  { intros A B m k Q Hm Hk. destruct m; cbn in *; try done. st_simpl. by apply Hk. }
  assert (Hadd : forall v g1, post (lift (add_result src b s e v) g1 : outcome (luaL_Buffer * G)) (fun _ => True)).
  { intros v g1. pose proof (add_result_post src b s e v Hs ltac:(lia)) as Hp. unfold lift.
    by destruct (add_result src b s e v). }
  unfold add_value. destruct ((tr args =? LUA_TNUMBER) || (tr args =? LUA_TSTRING)).
  - eapply Hlift; [by apply checklstring_post|]. intros news _.
    pose proof (add_s_post (length news) news src ms caps b s e ltac:(lia) Hms Hok Hs) as Hp. unfold lift.
    by destruct (add_s news src ms b s e).
  - destruct (tr args =? LUA_TFUNCTION).
    + eapply Hlift; [apply (push_captures_post src _ ms caps e (Some (s, e))); [done|done|cbn; lia]|]. intros vs _.
      eapply st_post_bind; [apply call_post|]. intros v g1 _. apply Hadd.
    + eapply Hlift; [apply (onecapture_post src ms caps 0 e (Some (s, e))); [done|done|done|cbn; lia]|]. intros k _.
      eapply st_post_bind; [apply gettable_post|]. intros v g1 _. apply Hadd.
Qed.
End replacements.

(** ** The whole substitution *)

Lemma slice_app (s : bytes) i j k : 0 <= i <= j -> j <= k -> substring s i j ++ substring s j k = substring s i k.
Proof.
  intros. unfold substring. replace (Z.to_nat (k - i)) with (Z.to_nat (j - i) + Z.to_nat (k - j))%nat by lia.
  replace (drop (Z.to_nat j) s) with (drop (Z.to_nat (j - i)) (drop (Z.to_nat i) s)) by (rewrite drop_drop; f_equal; lia).
  rewrite <- (take_drop (Z.to_nat (j - i)) (take (Z.to_nat (j - i) + Z.to_nat (k - j)) (drop (Z.to_nat i) s))).
  rewrite take_take, skipn_firstn_comm, Nat.min_l by lia. do 2 f_equal. lia.
Qed.

Lemma slice_char (s : bytes) i : 0 <= i < lenZ s -> substring s i (i + 1) = [char_at s i].
Proof.
  intros Hi. unfold substring. replace (Z.to_nat (i + 1 - i)) with 1%nat by lia.
  destruct (getZ_is_Some s i Hi) as [c Hc]. unfold char_at. rewrite Hc. cbn [default].
  unfold getZ in Hc. rewrite (proj2 (Z.leb_le 0 i)) in Hc by lia. by rewrite (drop_S _ _ _ Hc).
Qed.

Lemma slice_all (s : bytes) : substring s 0 (lenZ s) = s.
Proof. unfold substring. rewrite drop_0. apply take_ge. unfold lenZ. lia. Qed.

Section whole.
Context {G : Type}.
Variable call : list TValue -> ST G TValue.
Variable gettable : TValue -> ST G TValue.
Variable args : list TValue.
Hypothesis Hargs : Forall arg_ok args.
Variable I : bytes -> luaL_Buffer -> Z -> Prop.
Hypothesis I_init : forall src, luaL_checklstring args 1 = Ret src -> I src luaL_buffinit 0.
Hypothesis I_value : forall src ms caps b s e g,
  captured ms caps -> st_ok src e caps -> 0 <= s <= e -> I src b s ->
  post (add_value call gettable args src ms b s e g) (fun r => I src (fst r) e).
Hypothesis I_char : forall src b s, I src b s -> 0 <= s < lenZ src -> I src (luaL_addchar b (char_at src s)) (s + 1).

Definition substituted (src : bytes) (vs : list TValue) : Prop :=
  exists b s n, vs = [VString (contents b ++ substring src s (lenZ src)); pushinteger n] /\
    I src b s /\ 0 <= s <= lenZ src /\ 0 <= n <= lenZ src + 1.

Lemma str_gsub_post g :
  post (str_gsub call gettable args g) (fun r => exists src, luaL_checklstring args 1 = Ret src /\ substituted src (fst r)).
Proof.
  unfold str_gsub. pose proof (checklstring_post args Hargs 1) as H1.
  destruct (luaL_checklstring args 1) as [src| | |] eqn:E1; try done. cbn in H1. st_simpl.
  pose proof (checklstring_post args Hargs 2) as H2.
  destruct (luaL_checklstring args 2) as [p| | |]; try done. st_simpl.
  pose proof (optint_post args Hargs 4 (lenZ src + 1)) as H3.
  destruct (luaL_optint args 4 (lenZ src + 1)) as [max_s| | |]; try done. st_simpl.
  destruct (at_anchor p) as (c & l & -> & Hl). st_simpl. unfold luaL_argcheck.
  destruct (_ || _).
  2:{ pose proof (argerror_post (A := unit) 3 (str "string/function/table expected") (fun _ => False)) as He.
      revert He. generalize (luaL_argerror (A := unit) 3 (str "string/function/table expected")). by intros []. }
  st_simpl.
  eapply st_post_bind; [eapply (gsub_while_post call gettable args src H1 (I src)); [by intros; eapply I_value|by auto|exact Hl|..]|].
  - pose proof (lenZ_nonneg src). lia.
  - unfold lenZ. lia.
  - apply captured_0.
  - by apply I_init.
  - intros [[b s] n] g1 [(Hb & Hs & Hn) Hn2]. cbn [fst snd] in *. rewrite text_spec by lia. st_simpl. exists src.
    split; [done|]. exists b, s, n. rewrite pushresult_contents, addlstring_contents.
    replace (s + (lenZ src - s)) with (lenZ src) by lia. split_and!; try done; lia.
Qed.
End whole.
End arguments.
