(* ===== verification/StrformatFacts.v ===== *)
(** * [string.format] keeps to its buffers

    Every specification that [scanformat] accepts is a short one, so that it
    fits in [form] and what [sprintf] makes of it fits in [buff]. *)

From S2P Require Import Prelude Clib Object Lex Auxlib AuxFacts Strmatch Strfacts Strformat Strsafe.

Definition all_digits (l : bytes) : Prop := Forall (fun c => isdigit c = true) l.

(** Flags, width and precision: at most five flags, and at most two digits *)
Definition spec_ok (fl w pr : bytes) : Prop :=
  ((length fl <= 5)%nat /\ Forall (fun c => strchr FLAGS c = true) fl) /\ ((length w <= 2)%nat /\ all_digits w) /\
  (pr = [] \/ exists d, pr = ch "." :: d /\ (length d <= 2)%nat /\ all_digits d).

(** A specification of [string.format] for the conversion [c], with the
    length [l] or none *)
Definition form_ok (c : Z) (form : bytes) : Prop :=
  exists fl w pr len, form = ch "%" :: fl ++ w ++ pr ++ len ++ [c] /\ spec_ok fl w pr /\
    (len = [] \/ len = LUA_INTFRMLEN).

(** The conversions of an argument *)
Definition conversions (x : fmtarg) : bytes :=
  match x with
  | FInt _ => str "c" | FLong _ => str "di" | FULong _ => str "ouxX" | FDouble _ => str "eEfgG" | FString _ => str "s" | FPointer _ => str "p"
  end.

(** What fits in [MAX_ITEM]: any number; a string that is short, or cut by a
    precision *)
Definition item_ok (form : bytes) (x : fmtarg) : Prop :=
  (exists c, In c (conversions x) /\ form_ok c form) /\
  match x with FString t => lenZ t < 100 \/ strchr form (ch ".") = true | _ => True end.

Section facts.
Context `{Cenv} `{Frame}.

(** [sprintf] keeps to the width and the precision: of two digits, they make
    at most 99 characters, and the integer part of a number has at most
    309. *)
Hypothesis sprintf_short : forall form x, item_ok form x -> lenZ (sprintf form x) < MAX_ITEM.
Hypothesis number_short : forall n, lenZ (lua_number2str n) < 32.

Section scan.
Variable s : bytes.

(** [k] characters further *)
Lemma at_app p d l : at_ s p (d ++ l) -> at_ s (p + lenZ d) l.
Proof.
  revert p. induction d as [|c d IH]; intros p Ha; cbn [app] in Ha.
  - change (lenZ (@nil Z)) with 0. by rewrite Z.add_0_r.
  - apply at_next, IH in Ha. rewrite lenZ_cons. by replace (p + (lenZ d + 1)) with (p + 1 + lenZ d) by lia.
Qed.

Lemma skip_digit_spec p l :
  at_ s p l -> exists d l', skip_digit s p = Ret (p + lenZ d) /\ l = d ++ l' /\ (length d <= 1)%nat /\ all_digits d.
Proof.
  intros Ha. unfold skip_digit. destruct l as [|c l].
  - rewrite (at_nil _ _ Ha). exists [], []. split_and!; [|done|cbn; lia|constructor]. cbn. f_equal. change (lenZ (@nil Z)) with 0. lia.
  - rewrite (at_cons _ _ _ _ Ha). cbn [mbind outcome_bind]. destruct (isdigit c) eqn:Hd.
    + exists [c], l. split_and!; [done|done|cbn; lia|]. by constructor.
    + exists [], (c :: l). split_and!; [|done|cbn; lia|constructor]. f_equal. change (lenZ (@nil Z)) with 0. lia.
Qed.

(** Two calls of it *)
Lemma two_digits_spec p l :
  at_ s p l -> exists q d l', skip_digit s p = Ret q /\ skip_digit s q = Ret (p + lenZ d) /\ l = d ++ l' /\
    (length d <= 2)%nat /\ all_digits d /\ at_ s (p + lenZ d) l'.
Proof.
  intros Ha. destruct (skip_digit_spec p l Ha) as (d & l1 & Hd & -> & Hd1 & Hd2). apply at_app in Ha.
  destruct (skip_digit_spec _ _ Ha) as (e & l2 & He & -> & He1 & He2).
  apply at_app in Ha. exists (p + lenZ d), (d ++ e), l2. rewrite lenZ_app, Z.add_assoc, length_app.
  split_and!; [done|done|by rewrite app_assoc|lia| |done]. by apply Forall_app.
Qed.

Lemma skip_flags_spec l :
  exists f l', l = f ++ l' /\ skip_flags l = lenZ f /\ Forall (fun c => strchr FLAGS c = true /\ c <> 0) f.
Proof.
  induction l as [|c l (f & l' & -> & Hs & Hf)]; [by exists [], []|]. cbn [skip_flags].
  destruct (negb (c =? 0) && strchr FLAGS c) eqn:E.
  - exists (c :: f), l'. split; [done|]. split; [rewrite Hs, lenZ_cons; lia|]. bool_facts. by constructor.
  - exists [], (c :: f ++ l'). done.
Qed.

Lemma digits_nonzero d : all_digits d -> Forall (fun c => c <> 0) d.
Proof. apply Forall_impl. intros c Hc ->. done. Qed.

Lemma cstr_app l r : Forall (fun c => c <> 0) l -> cstr (l ++ r) = l ++ cstr r.
Proof. induction 1 as [|c l Hc Hl IH]; [done|]. cbn [app cstr]. by rewrite (proj2 (Z.eqb_neq c 0) Hc), IH. Qed.

Lemma scanformat_spec p0 l :
  at_ s p0 l ->
  post (scanformat s p0) (fun '(p, form) => exists fl w pr l',
    p0 <= p /\ at_ s p l' /\ spec_ok fl w pr /\ form = ch "%" :: fl ++ w ++ pr ++ cstr [default 0 (head l')]).
Proof.
  intros Ha. unfold scanformat. pose proof Ha as (Hp0 & _ & Hdrop). rewrite Hdrop.
  destruct (skip_flags_spec l) as (fl & l1 & -> & -> & Hfl). apply at_app in Ha. cbn zeta.
  destruct (Z.leb_spec (sizeof FLAGS) (p0 + lenZ fl - p0)) as [|Hfew]; [done|]. cbn [mbind outcome_bind].
  destruct (two_digits_spec _ _ Ha) as (q & w & l2 & -> & Hw & -> & Hw1 & Hw2 & Ha2). cbn [mbind outcome_bind].
  rewrite Hw. cbn [mbind outcome_bind]. rewrite (at_rd _ _ _ Ha2). cbn [mbind outcome_bind].
  assert (Hprec : exists pr l3, (if default 0 (head l2) =? ch "."
      then p ← skip_digit s (p0 + lenZ fl + lenZ w + 1); skip_digit s p else Ret (p0 + lenZ fl + lenZ w)) =
      Ret (p0 + lenZ fl + lenZ w + lenZ pr) /\ l2 = pr ++ l3 /\ at_ s (p0 + lenZ fl + lenZ w + lenZ pr) l3 /\
      (pr = [] \/ exists d, pr = ch "." :: d /\ (length d <= 2)%nat /\ all_digits d)).
  { destruct (Z.eqb_spec (default 0 (head l2)) (ch ".")) as [Hdot|].
    - destruct l2 as [|c l2]; [done|]. cbn in Hdot. change (id c) with c in Hdot. subst c. pose proof (at_next _ _ _ _ Ha2) as Ha3.
      destruct (two_digits_spec _ _ Ha3) as (q' & d & l3 & -> & Hd & -> & Hd1 & Hd2 & Ha4). exists (ch "." :: d), l3.
      cbn [mbind outcome_bind]. rewrite Hd, lenZ_cons.
      replace (p0 + lenZ fl + lenZ w + (lenZ d + 1)) with (p0 + lenZ fl + lenZ w + 1 + lenZ d) by lia.
      split_and!; [done|done|done|]. right. by exists d.
    - exists [], l2. change (lenZ (@nil Z)) with 0. rewrite Z.add_0_r. split_and!; [done|done|done|by left]. }
  destruct Hprec as (pr & l3 & -> & -> & Ha3 & Hprok). cbn [mbind outcome_bind].
  rewrite (at_rd _ _ _ Ha3). cbn [mbind outcome_bind]. destruct (isdigit _); [done|]. cbn [mbind outcome_bind].
  replace (Z.to_nat (p0 + lenZ fl + lenZ w + lenZ pr - p0)) with (length (fl ++ w ++ pr))
    by (rewrite !length_app; unfold lenZ; lia).
  rewrite !app_assoc, take_app_length, <- !app_assoc.
  assert (Hflw : (lenZ (ch "%" :: fl ++ w ++ pr ++ [default 0 (head l3)]) <? MAX_FORMAT) = true).
  { apply Z.ltb_lt. rewrite lenZ_cons, !lenZ_app. change (lenZ [default 0 (head l3)]) with 1.
    assert (lenZ pr <= 3) by (destruct Hprok as [->|(d & -> & ? & _)]; unfold lenZ; cbn; lia).
    change (sizeof FLAGS) with 6 in Hfew. change MAX_FORMAT with 18. unfold lenZ in *. lia. }
  unfold stored. rewrite Hflw. cbn [post]. exists fl, w, pr, l3.
  pose proof (lenZ_nonneg fl). pose proof (lenZ_nonneg w). pose proof (lenZ_nonneg pr).
  split_and!; [lia|done| |].
  - unfold spec_ok. split_and!; try done.
    + change (sizeof FLAGS) with 6 in Hfew. unfold lenZ in Hfew. lia.
    + revert Hfl. apply Forall_impl. tauto.
  - change (ch "%" :: fl ++ w ++ pr ++ [default 0 (head l3)]) with ([ch "%"] ++ fl ++ w ++ pr ++ [default 0 (head l3)]).
    rewrite !cstr_app; [done|..].
    + destruct Hprok as [->|(d & -> & _ & Hd)]; [constructor|]. constructor; [done|]. by apply digits_nonzero.
    + by apply digits_nonzero.
    + revert Hfl. apply Forall_impl. tauto.
    + by repeat constructor.
Qed.
End scan.

Lemma additem_post b form x : item_ok form x -> post (additem b form x) (fun _ => True).
Proof.
  intros Hx. unfold additem, stored. rewrite (proj2 (Z.ltb_lt _ _)) by by apply sprintf_short. done.
Qed.

Section run.
Variable args : list TValue.
Hypothesis Hargs : Forall arg_ok args.

Section item.
Variables (fl w pr : bytes) (c : Z).
Hypothesis Hspec : spec_ok fl w pr.
Let form := ch "%" :: fl ++ w ++ pr ++ [c].

Lemma form_plain : form_ok c form.
Proof. exists fl, w, pr, []. split_and!; [done|done|by left]. Qed.

Lemma addintlen_post : post (addintlen form) (form_ok c).
Proof.
  unfold addintlen. set (body := ch "%" :: fl ++ w ++ pr).
  assert (Hform : form = body ++ [c]) by (unfold form, body; cbn [app]; by rewrite <- !app_assoc).
  rewrite Hform, lenZ_app. change (lenZ [c]) with 1. replace (lenZ body + 1 - 1) with (lenZ body) by lia.
  rewrite getZ_app_r by lia. rewrite Z.sub_diag. cbn [deref getZ mbind outcome_bind].
  change (getZ [c] 0) with (Some c). cbn [deref mbind outcome_bind].
  replace (Z.to_nat (lenZ body)) with (length body) by (unfold lenZ; lia). rewrite take_app_length.
  assert (Hlen : (lenZ (body ++ LUA_INTFRMLEN ++ [c]) <? MAX_FORMAT) = true).
  { destruct Hspec as ([Hf _] & [Hw _] & Hp). apply Z.ltb_lt. rewrite !lenZ_app. unfold body. rewrite lenZ_cons, !lenZ_app.
    assert (lenZ pr <= 3) by (destruct Hp as [->|(d & -> & ? & _)]; unfold lenZ; cbn; lia).
    change (lenZ LUA_INTFRMLEN) with 1. change (lenZ [c]) with 1. change MAX_FORMAT with 18. unfold lenZ in *. lia. }
  unfold stored. rewrite Hlen. cbn [post]. exists fl, w, pr, LUA_INTFRMLEN. split_and!; [|done|by right].
  unfold body. cbn [app]. by rewrite <- !app_assoc.
Qed.
End item.

Lemma any_in (c : Z) (l : bytes) : existsb (Z.eqb c) l = true -> In c l.
Proof. intros (x & Hx & ->%Z.eqb_eq)%existsb_exists. done. Qed.

Lemma format_item_post s b arg p0 l :
  at_ s p0 l -> post (format_item args b s arg p0) (fun '(_, p) => p0 < p /\ exists l', at_ s p l').
Proof.
  intros Ha. unfold format_item. eapply post_bind; [exact (scanformat_spec s p0 l Ha)|].
  intros [p form] (fl & w & pr & l1 & Hp & Ha1 & Hspec & ->). rewrite (at_rd _ _ _ Ha1). cbn [mbind outcome_bind].
  set (c := default 0 (head l1)). set (form := ch "%" :: _).
  set (m := if existsb (Z.eqb c) (str "c") then _ else _).
  assert (Hm : post m (fun _ => c <> 0)).
  { assert (Hform : c <> 0 -> form = ch "%" :: fl ++ w ++ pr ++ [c]).
    { intros Hc. unfold form, cstr. by rewrite (proj2 (Z.eqb_neq c 0)). }
    assert (Hin : forall l, existsb (Z.eqb c) l = true -> ~ In 0 l -> c <> 0 /\ In c l).
    { intros k Hk Hz. apply any_in in Hk. split; [by intros ->|done]. }
    assert (Hany : forall m : outcome luaL_Buffer, c <> 0 -> post m (fun _ => True) -> post m (fun _ => c <> 0)).
    { intros m' Hc Hm'. eapply post_mono; [done|]. done. }
    unfold m. repeat match goal with |- post (if existsb (Z.eqb c) ?k then _ else _) _ => destruct (existsb (Z.eqb c) k) eqn:?E end.
    - destruct (Hin _ E ltac:(vm_compute; intuition discriminate)) as [Hc Hi]. apply Hany; [done|].
      eapply post_bind; [by apply checknumber_post|]. intros n _. apply additem_post. split; [|done]. exists c.
      split; [done|]. rewrite (Hform Hc). by apply form_plain.
    - destruct (Hin _ E0 ltac:(vm_compute; intuition discriminate)) as [Hc Hi]. apply Hany; [done|].
      rewrite (Hform Hc). eapply post_bind; [by apply addintlen_post|]. intros f Hf.
      eapply post_bind; [by apply checknumber_post|]. intros n _. apply additem_post. split; [|done]. by exists c.
    - destruct (Hin _ E1 ltac:(vm_compute; intuition discriminate)) as [Hc Hi]. apply Hany; [done|].
      rewrite (Hform Hc). eapply post_bind; [by apply addintlen_post|]. intros f Hf.
      eapply post_bind; [by apply checknumber_post|]. intros n _. apply additem_post. split; [|done]. by exists c.
    - destruct (Hin _ E2 ltac:(vm_compute; intuition discriminate)) as [Hc Hi]. apply Hany; [done|].
      eapply post_bind; [by apply checknumber_post|]. intros n _. apply additem_post. split; [|done]. exists c.
      split; [done|]. rewrite (Hform Hc). by apply form_plain.
    - destruct (Hin _ E3 ltac:(vm_compute; intuition discriminate)) as [Hc Hi]. apply Hany; [done|].
      eapply post_bind; [by apply checklstring_post|]. done.
    - destruct (Hin _ E4 ltac:(vm_compute; intuition discriminate)) as [Hc Hi]. apply Hany; [done|].
      eapply post_bind; [by apply checklstring_post|]. intros t _. destruct (negb (strchr form (ch ".")) && (100 <=? lenZ t)) eqn:Et; [done|].
      apply additem_post. split; [exists c; split; [done|]; rewrite (Hform Hc); by apply form_plain|].
      apply andb_false_iff in Et as [Et|Et]; bool_facts; [by right|left]. pose proof (lenZ_cstr t). lia.
    - done. }
  eapply post_bind; [exact Hm|]. intros b' Hc. cbn. split; [lia|]. destruct l1 as [|c1 l1]; [done|].
  exists l1. by eapply at_next.
Qed.

Lemma format_loop_post fuel s b arg p l :
  at_ s p l -> (length l <= fuel)%nat -> post (format_loop fuel args s b arg p) (fun _ => True).
Proof.
  revert b arg p l. induction fuel as [|fuel IH]; intros b arg p l Ha Hf; cbn [format_loop];
    (destruct l as [|c l]; [destruct Ha as (_ & Hl & _); change (lenZ (@nil Z)) with 0 in Hl;
      rewrite (proj2 (Z.ltb_ge _ _)) by lia; done|]); cbn [length] in Hf; [lia|].
  assert (Hlt : (p <? lenZ s) = true).
  { destruct Ha as (_ & Hl & _). rewrite lenZ_cons in Hl. pose proof (lenZ_nonneg l). apply Z.ltb_lt. lia. }
  rewrite Hlt, (at_cons _ _ _ _ Ha). pose proof (at_next _ _ _ _ Ha) as Ha1. cbn [mbind outcome_bind].
  destruct (negb (c =? L_ESC)); [apply (IH _ _ _ l); [done|lia]|].
  rewrite (at_rd _ _ _ Ha1). cbn [mbind outcome_bind].
  destruct (Z.eqb_spec (default 0 (head l)) L_ESC) as [He|He].
  { destruct l as [|d l]; [done|]. apply (IH _ _ _ l); [by eapply at_next|]. cbn [length] in Hf. lia. }
  destruct (lenZ args <? arg + 1); [apply post_bind with (P := fun _ => False); [apply argerror_post|done]|].
  cbn [mbind outcome_bind]. pose proof (format_item_post s b (arg + 1) (p + 1) l Ha1) as Hi.
  destruct (format_item args b s (arg + 1) (p + 1)) as [[b' p']| | |]; try done. cbn in Hi.
  destruct Hi as (Hp & l' & Ha'). eapply IH; [exact Ha'|].
  destruct Ha as (_ & Hl & _). destruct Ha' as (_ & Hl' & _). rewrite lenZ_cons in Hl. unfold lenZ in *. lia.
Qed.

Lemma str_format_post : post (str_format args) (fun vs => exists t, vs = [VString t]).
Proof.
  unfold str_format. eapply post_bind; [by apply checklstring_post|]. intros s _.
  eapply post_bind; [apply (format_loop_post _ s _ 1 0 s); [apply at_start|done]|]. intros b _. by eexists.
Qed.
End run.
End facts.
