(* ===== verification/StrProps.v ===== *)
(** * The string library: properties *)

From S2P Require Import Prelude Clib Object Lex Auxlib AuxFacts Strmatch Strsem Strfacts Strequiv Strlib Strrun Strsafe Strformat StrformatFacts.

(** ** Pattern matching *)

(** C27: matching a pattern is the search in depth first of the meaning of the
    pattern ([matches]): [match] returns the end of its first result with the
    captures of that result, reports the error that the search meets first,
    and fails, with no captures left, exactly when there is no result.  It
    never reads outside of the strings and the captures it returns lie in
    the subject. *)
Theorem do_match_finds_first `{Cenv} `{Frame} (pat src : bytes) (s : Z) (ms : MatchState) :
  lenZ src < 2 ^ 62 -> 0 <= s <= lenZ src -> captured ms [] ->
  match head (matches src (parse (cstr pat)) s []) with
  | Some (Good e caps) => exists ms', do_match pat src s 0 ms = Ret (Some e, ms') /\
      captured ms' caps /\ s <= e /\ st_ok src e caps
  | Some (Bad msg) => do_match pat src s 0 ms = Throw LUA_ERRRUN (luaL_where ++ msg)
  | None => exists ms', do_match pat src s 0 ms = Ret (None, ms') /\ level ms' = 0
  end.
Proof.
  intros Hsrc Hs Hms. pose proof (do_match_first pat src Hsrc 0 pat (at_start pat) s ms Hs Hms) as Hm.
  unfold matched, first in Hm. destruct (head _) as [[e caps|msg]|]; [done..|].
  destruct Hm as (ms' & -> & Hc & _). by exists ms'.
Qed.

(** C28: the plain search that [string.find] uses for a pattern without
    special characters is the search of the pattern: from any start both find
    the first occurrence, or none. *)
Theorem plain_search_correct `{Cenv} `{Frame} (src p : bytes) (init : Z) :
  Forall plain p -> lenZ src < 2 ^ 62 -> 0 <= init <= lenZ src ->
  exists o, lmemfind (drop (Z.to_nat init) src) p = Ret o /\
    first_occurrence (drop (Z.to_nat init) src) p o /\
    match o with
    | Some k => exists ms, find_loop (length src) p src false 0 init match_state0 =
        Ret (Some (init + k, init + k + lenZ p, ms)) /\ level ms = 0
    | None => find_loop (length src) p src false 0 init match_state0 = Ret None
    end.
Proof.
  intros Hp Hsrc Hi. destruct (lmemfind_spec (drop (Z.to_nat init) src) p) as (o & Ho & Hf).
  exists o. split; [done|]. split; [done|]. rewrite (plain_search_same src p Hp init Hi) in Ho.
  set (n := Z.to_nat (lenZ src - init)) in *.
  pose proof (find_loop_spec p src Hsrc 0 p (at_start p) (length src) n false init match_state0 []
    ltac:(lia) ltac:(unfold n, lenZ; lia) ltac:(lia) captured_0) as Hl.
  pose proof (search_plain src p Hp n init ltac:(lia) ltac:(lia)) as Hs. unfold found in Hl.
  destruct (search src p false n init) as [[k r]|]; injection Ho as <-; [|done].
  destruct Hs as (-> & _). destruct Hl as (ms & Hl & Hc & _). exists ms.
  replace (init + (k - init)) with k by lia. split; [done|]. by destruct Hc as [-> _].
Qed.

(** ** Safety *)

(** C29: [string.find] and [string.match] on any arguments end and stay inside
    the strings: they return numbers and strings, or a single nil, or raise
    an error. *)
Theorem str_find_safe `{Cenv} `{Frame} (find : bool) (args : list TValue) :
  (forall n, lenZ (lua_number2str n) < 32) -> Forall arg_ok args ->
  post (str_find_aux find args) found_values.
Proof. intros. by apply str_find_aux_post. Qed.

(** C30: each step of an iteration with [string.gmatch] ends it, or returns
    captures and moves the position of the iterator strictly forward, not
    further than just behind the subject: the iteration ends after at most
    [lenZ s + 2] steps. *)
Theorem gmatch_progress `{Cenv} `{Frame} (s p : bytes) (pos : Z) :
  lenZ s < INT_MAX - 1 -> 0 <= pos <= lenZ s + 1 ->
  post (gmatch_aux s p (pushinteger pos)) (fun r =>
    r = ([], pushinteger pos) \/
    found_values (fst r) /\ fst r <> [] /\ exists pos', snd r = pushinteger pos' /\ pos < pos' <= lenZ s + 1).
Proof. apply gmatch_aux_post. Qed.

(** C31: [string.gsub] with any arguments, whatever the functions and tables
    of the program do as long as they are safe themselves, ends, stays inside
    the strings, and makes at most one substitution for each position of the
    subject, its end included. *)
Theorem str_gsub_safe `{Cenv} `{Frame} {G : Type} (call : list TValue -> ST G TValue)
  (gettable : TValue -> ST G TValue) (args : list TValue) (g : G) :
  (forall n, lenZ (lua_number2str n) < 32) -> Forall arg_ok args ->
  (forall vs g, post (call vs g) (fun _ => True)) -> (forall k g, post (gettable k g) (fun _ => True)) ->
  post (str_gsub call gettable args g) (fun r => exists src t n,
    luaL_checklstring args 1 = Ret src /\ fst r = [VString t; pushinteger n] /\ 0 <= n <= lenZ src + 1).
Proof.
  intros Hnum Hargs Hcall Hget. eapply post_mono.
  - apply (str_gsub_post Hnum call gettable args Hargs (fun _ _ _ => True)); [done| |done].
    intros. by eapply add_value_post.
  - cbn. intros [vs g1] (src & Hsrc & b & s & n & Hvs & _ & _ & Hn). by eexists src, _, n.
Qed.

(** C32: [string.gsub] puts everything that it does not replace where it was:
    when each match is replaced with itself ([%0]) the result is the
    subject, whatever the pattern and its number of matches. *)
Theorem gsub_identity `{Cenv} `{Frame} {G : Type} (call : list TValue -> ST G TValue)
  (gettable : TValue -> ST G TValue) (src p : bytes) (rest : list TValue) (g : G) :
  (forall n, lenZ (lua_number2str n) < 32) -> Forall arg_ok (VString src :: VString p :: rest) ->
  post (str_gsub call gettable (VString src :: VString p :: VString (str "%0") :: rest) g) (fun r =>
    exists n, fst r = [VString src; pushinteger n] /\ 0 <= n <= lenZ src + 1).
Proof.
  intros Hnum Hargs. set (args := _ :: _ :: _ :: rest).
  assert (Hargs' : Forall arg_ok args).
  { apply list.Forall_cons in Hargs as [H1 H2]. apply list.Forall_cons in H2 as [H2 H3]. by repeat constructor. }
  eapply post_mono.
  - apply (str_gsub_post Hnum call gettable args Hargs'
      (fun src b s => 0 <= s <= lenZ src -> contents b = substring src 0 s)).
    + intros s _ _. done.
    + intros s ms caps b i e g1 Hms [He _] Hi Hb. unfold add_value.
      change (tr args =? LUA_TNUMBER) with false. change (tr args =? LUA_TSTRING) with true. cbn [orb].
      change (luaL_checklstring args 3) with (Ret (str "%0")). st_simpl.
      change (add_s (str "%0") s ms b i e) with (v ← text s i (e - i); Ret (luaL_addlstring b v)).
      rewrite text_spec by lia. cbn. intros _. rewrite addlstring_contents, Hb by lia.
      replace (i + (e - i)) with e by lia. apply slice_app; lia.
    + intros s b i Hb Hi _. rewrite addchar_contents, Hb, <- slice_char by lia. apply slice_app; lia.
  - cbn. intros [vs g1] (s & Hs & b & i & n & -> & Hb & Hi & Hn). injection Hs as <-. exists n. split; [|done].
    cbn [fst]. rewrite Hb by done. rewrite slice_app by lia. by rewrite slice_all.
Qed.

(** C33: [string.format] with any format and arguments ends with one string or
    an error and never writes past [form] or [buff], as long as [sprintf]
    keeps to widths and precisions of at most two digits. *)
Theorem str_format_safe `{Cenv} `{Frame} (args : list TValue) :
  (forall form x, item_ok form x -> lenZ (sprintf form x) < MAX_ITEM) ->
  (forall n, lenZ (lua_number2str n) < 32) -> Forall arg_ok args ->
  post (str_format args) (fun vs => exists t, vs = [VString t]).
Proof. intros. by apply str_format_post. Qed.

(** ** Bytes and characters *)

Section bytes_chars.
Context `{Cenv} `{Frame}.

Lemma byte_is_i32 c : is_byte c -> is_i32 c.
Proof. unfold is_byte, is_i32. lia. Qed.

Lemma byte_loop_spec n s i l :
  at_ s i l -> n = length l -> byte_loop n s i = Ret (pushinteger <$> l).
Proof.
  revert i l. induction n as [|n IH]; intros i [|c l] Ha Hn; try done. cbn [byte_loop].
  rewrite (at_cons _ _ _ _ Ha). cbn [mbind outcome_bind].
  injection Hn as Hn. rewrite (IH (i + 1) l (at_next s i c l Ha) Hn). done.
Qed.

Lemma char_loop_spec n args i pre s b :
  args = pre ++ (pushinteger <$> s) -> i = lenZ pre + 1 -> n = length s -> Forall is_byte s ->
  exists b', char_loop n args i b = Ret b' /\ contents b' = contents b ++ s.
Proof.
  revert i pre s b. induction n as [|n IH]; intros i pre [|c s] b -> -> Hn Hs; try done.
  { exists b. split; [done|by rewrite app_nil_r]. }
  apply list.Forall_cons in Hs as [Hc Hs]. cbn [char_loop].
  rewrite (checkint_push _ _ c); [|rewrite getZ_app_r by lia; by replace (lenZ pre + 1 - 1 - lenZ pre) with 0 by lia|by apply byte_is_i32].
  cbn [mbind outcome_bind]. rewrite u8_small, Z.eqb_refl by done. cbn [luaL_argcheck mbind outcome_bind].
  destruct (IH (lenZ pre + 1 + 1) (pre ++ [pushinteger c]) s (luaL_addchar b c)) as (b' & Hb & Hc'); [|rewrite lenZ_app; done|by injection Hn|done|].
  - by rewrite <- app_assoc.
  - exists b'. split; [done|]. by rewrite Hc', addchar_contents, <- app_assoc.
Qed.
End bytes_chars.

(** [string.char(string.byte(s, 1, -1))] is [s], for any string of bytes
    that fits on the stack. *)
Theorem byte_char_roundtrip `{Cenv} `{Frame} (s : bytes) :
  Forall is_byte s -> 1 <= lenZ s <= LUAI_MAXCSTACK - 3 ->
  exists vs, str_byte [VString s; pushinteger 1; pushinteger (-1)] = Ret vs /\ length vs = length s /\
    str_char vs = Ret [VString s].
Proof.
  intros Hs Hlen. exists (pushinteger <$> s). split_and!; [|by rewrite length_fmap|].
  - unfold LUAI_MAXCSTACK in Hlen. unfold str_byte. set (args := [VString s; _; _]).
    change (luaL_checklstring args 1) with (Ret s). cbn [mbind outcome_bind].
    unfold luaL_optinteger. change (lua_isnoneornil args 2) with false. change (lua_isnoneornil args 3) with false.
    rewrite (checkinteger_push args 2 1), (checkinteger_push args 3 (-1)) by (done || (unfold is_i32; lia)).
    cbn [mbind outcome_bind]. unfold posrelat. change (1 <? 0) with false. change (-1 <? 0) with true. cbn iota.
    replace (-1 + (lenZ s + 1)) with (lenZ s) by lia. rewrite (proj2 (Z.leb_le 0 (lenZ s))) by lia.
    change (0 <=? 1) with true. change (1 <=? 0) with false. cbn iota. unfold u64. rewrite Z.mod_small by lia.
    rewrite Z.ltb_irrefl. change (1 <=? 0) with false. cbn iota. rewrite (proj2 (Z.ltb_ge _ _)) by lia. replace (lenZ s - 1 + 1) with (lenZ s) by lia.
    rewrite i32_small by (unfold is_i32; lia). rewrite (proj2 (Z.leb_gt _ _)) by lia. cbn [mbind outcome_bind].
    unfold luaL_checkstack, LUAI_MAXCSTACK. change (lenZ args) with 3. rewrite !(proj2 (Z.ltb_ge _ _)) by lia. cbn [orb mbind outcome_bind].
    apply byte_loop_spec; [apply at_start|]. unfold lenZ. lia.
  - unfold str_char. destruct (char_loop_spec (length (pushinteger <$> s)) (pushinteger <$> s) 1 [] s luaL_buffinit) as (b & -> & Hb); try done.
    { by rewrite length_fmap. }
    cbn [mbind outcome_bind]. by rewrite pushresult_contents, Hb.
Qed.

(** ** Instances *)

#[local] Instance host_env : Cenv := {|
  sprintf _ _ := str "7"; BUFSIZ := 4; int_overflow _ := 0; long_overflow _ := 0; ulong_overflow _ := 0
|}.
#[local] Instance host_frame : Frame := {| in_frame := true; namewhat := []; name := None; luaL_where := str "t:1: " |}.

Lemma do_match_finds_first_witness :
  exists ms', do_match (str "(b+)") (str "abbc") 1 0 match_state0 = Ret (Some 3, ms') /\
    captured ms' [(1, 2)] /\ 1 <= 3 /\ st_ok (str "abbc") 3 [(1, 2)].
Proof.
  exact (do_match_finds_first (str "(b+)") (str "abbc") 1 match_state0 ltac:(by vm_compute) ltac:(by vm_compute; split)
    captured_0).
Defined.

Lemma plain_search_correct_witness :
  exists o, lmemfind (drop (Z.to_nat 1) (str "a-bab")) (str "ab") = Ret o /\
    first_occurrence (drop (Z.to_nat 1) (str "a-bab")) (str "ab") o /\
    match o with
    | Some k => exists ms, find_loop (length (str "a-bab")) (str "ab") (str "a-bab") false 0 1 match_state0 =
        Ret (Some (1 + k, 1 + k + lenZ (str "ab"), ms)) /\ level ms = 0
    | None => find_loop (length (str "a-bab")) (str "ab") (str "a-bab") false 0 1 match_state0 = Ret None
    end.
Proof.
  apply (plain_search_correct (str "a-bab") (str "ab") 1); [|by vm_compute|by vm_compute; split].
  repeat constructor; by vm_compute.
Defined.

Lemma str_find_safe_witness :
  post (str_find_aux true [VString (str "a.b"); VString (str "(%a)%.")]) found_values.
Proof. apply (str_find_safe true [VString (str "a.b"); VString (str "(%a)%.")]); [done|repeat constructor]. Defined.

Lemma gmatch_progress_witness :
  post (gmatch_aux (str "one two") (str "%a+") (pushinteger 3)) (fun r =>
    r = ([], pushinteger 3) \/
    found_values (fst r) /\ fst r <> [] /\ exists pos', snd r = pushinteger pos' /\ 3 < pos' <= lenZ (str "one two") + 1).
Proof. apply (gmatch_progress (str "one two") (str "%a+") 3); [by vm_compute|by vm_compute; split]. Defined.

Lemma str_gsub_safe_witness :
  post (str_gsub (fun _ => mret VNil) (fun _ => mret VNil) [VString (str "abc"); VString (str "%w"); VString (str "%0%0")] tt)
    (fun r => exists src t n, luaL_checklstring [VString (str "abc"); VString (str "%w"); VString (str "%0%0")] 1 = Ret src /\
      fst r = [VString t; pushinteger n] /\ 0 <= n <= lenZ src + 1).
Proof.
  apply (str_gsub_safe (G := unit) (fun _ => mret VNil) (fun _ => mret VNil)
    [VString (str "abc"); VString (str "%w"); VString (str "%0%0")] tt); [done|repeat constructor|done|done].
Defined.

Lemma gsub_identity_witness :
  post (str_gsub (fun _ => mret VNil) (fun _ => mret VNil) [VString (str "a b"); VString (str "%w*"); VString (str "%0")] tt)
    (fun r => exists n, fst r = [VString (str "a b"); pushinteger n] /\ 0 <= n <= lenZ (str "a b") + 1).
Proof.
  apply (gsub_identity (G := unit) (fun _ => mret VNil) (fun _ => mret VNil) (str "a b") (str "%w*") [] tt);
    [done|repeat constructor].
Defined.

Lemma str_format_safe_witness :
  post (str_format [VString (str "%5.2f%%%s"); pushinteger 3; VString (str "x")]) (fun vs => exists t, vs = [VString t]).
Proof.
  apply (str_format_safe [VString (str "%5.2f%%%s"); pushinteger 3; VString (str "x")]); [done|done|repeat constructor].
Defined.

Lemma byte_char_roundtrip_witness :
  exists vs, str_byte [VString (str "Lua"); pushinteger 1; pushinteger (-1)] = Ret vs /\
    length vs = length (str "Lua") /\ str_char vs = Ret [VString (str "Lua")].
Proof.
  apply (byte_char_roundtrip (str "Lua")); [|by vm_compute; split].
  repeat constructor; by vm_compute.
Defined.
