(* ===== verification/Code.v ===== *)
(** * The code generator (lcode.c, lcode.h; the data of lparser.h)

    The state of a compilation: the scanner, the function being compiled,
    the enclosing functions and the depth of C calls.  The vectors of a
    prototype hold the elements in use, so that [pc], [nk], [np], [nlocvars]
    and [nups] are their lengths; nothing may be read beyond them
    ([Undef]).  Strings are interned and nothing is collected.  The table
    [h] of a function finds a constant again: it is a list of the keys set
    and their values, compared like the keys of a table.  The two members of
    the union of an [expdesc] are separate fields.  [lua_assert] does
    nothing. *)

From S2P Require Import Prelude Mem Clib Opcodes Object Debug Zio Lex.

(** ** Data *)

Inductive BinOpr :=
| OPR_ADD | OPR_SUB | OPR_MUL | OPR_DIV | OPR_MOD | OPR_POW
| OPR_CONCAT
| OPR_NE | OPR_EQ
| OPR_LT | OPR_LE | OPR_GT | OPR_GE
| OPR_AND | OPR_OR
| OPR_NOBINOPR.

Inductive UnOpr := OPR_MINUS | OPR_NOT | OPR_LEN | OPR_NOUNOPR.

Inductive expkind :=
| VVOID | VNIL | VTRUE | VFALSE | VK | VKNUM | VLOCAL | VUPVAL | VGLOBAL
| VINDEXED | VJMP | VRELOCABLE | VNONRELOC | VCALL | VVARARG.

#[export] Instance BinOpr_eq_dec : EqDecision BinOpr.
Proof. solve_decision. Defined.
#[export] Instance UnOpr_eq_dec : EqDecision UnOpr.
Proof. solve_decision. Defined.
#[export] Instance expkind_eq_dec : EqDecision expkind.
Proof. solve_decision. Defined.

Record expdesc := mkexpdesc {
  ek : expkind;
  info : Z;
  aux : Z;
  nval : lua_Number;
  et : Z;   (* patch list of `exit when true' *)
  ef : Z    (* patch list of `exit when false' *)
}.

Record upvaldesc := mkupvaldesc { uk : expkind; uinfo : Z }.

Record BlockCnt := mkBlockCnt {
  breaklist : Z;
  bnactvar : Z;
  bupval : bool;
  isbreakable : bool
}.

(** [actvar] has [LUAI_MAXVARS] entries, not set at first. *)
Record FuncState := mkFuncState {
  f : Proto;
  h : list (TValue * Z);
  bl : list BlockCnt;
  lasttarget : Z;
  jpc : Z;
  freereg : Z;
  nactvar : Z;
  upvaldescs : list upvaldesc;
  actvar : list (option Z)
}.

Record CompState (Z' : Type) := mkCompState {
  ls : LexState Z';
  fs : FuncState;
  prev : list FuncState;
  nCcalls : Z
}.
Arguments mkCompState {Z'}.
Arguments ls {Z'}.
Arguments fs {Z'}.
Arguments prev {Z'}.
Arguments nCcalls {Z'}.

Definition pc (F : FuncState) : Z := sizecode (f F).
Definition nk (F : FuncState) : Z := sizek (f F).
Definition np (F : FuncState) : Z := sizep (f F).
Definition nlocvars (F : FuncState) : Z := sizelocvars (f F).

Definition NO_JUMP : Z := -1.

Definition LIMIT_CODE : bytes := str "code size overflow".
Definition LIMIT_K : bytes := str "constant table overflow".

(** *** Updating records *)

Definition set_ek (k : expkind) (e : expdesc) : expdesc :=
  mkexpdesc k (info e) (aux e) (nval e) (et e) (ef e).
Definition set_info (i : Z) (e : expdesc) : expdesc :=
  mkexpdesc (ek e) i (aux e) (nval e) (et e) (ef e).
Definition set_aux (i : Z) (e : expdesc) : expdesc :=
  mkexpdesc (ek e) (info e) i (nval e) (et e) (ef e).
Definition set_nval (n : lua_Number) (e : expdesc) : expdesc :=
  mkexpdesc (ek e) (info e) (aux e) n (et e) (ef e).
Definition set_et (l : Z) (e : expdesc) : expdesc :=
  mkexpdesc (ek e) (info e) (aux e) (nval e) l (ef e).
Definition set_ef (l : Z) (e : expdesc) : expdesc :=
  mkexpdesc (ek e) (info e) (aux e) (nval e) (et e) l.

Definition set_breaklist (l : Z) (b : BlockCnt) : BlockCnt :=
  mkBlockCnt l (bnactvar b) (bupval b) (isbreakable b).
Definition set_bupval (b : BlockCnt) : BlockCnt :=
  mkBlockCnt (breaklist b) (bnactvar b) true (isbreakable b).

(** The vectors of a prototype *)
Definition with_code (c : list Z) (li : list Z) (g : Proto) : Proto :=
  mkProto (k g) c (p g) li (locvars g) (upvalues g) (Object.source g) (linedefined g)
    (lastlinedefined g) (nups g) (numparams g) (is_vararg g) (maxstacksize g).
Definition with_k (l : list TValue) (g : Proto) : Proto :=
  mkProto l (code g) (p g) (lineinfo g) (locvars g) (upvalues g) (Object.source g)
    (linedefined g) (lastlinedefined g) (nups g) (numparams g) (is_vararg g) (maxstacksize g).
Definition with_p (l : list Proto) (g : Proto) : Proto :=
  mkProto (k g) (code g) l (lineinfo g) (locvars g) (upvalues g) (Object.source g)
    (linedefined g) (lastlinedefined g) (nups g) (numparams g) (is_vararg g) (maxstacksize g).
Definition with_locvars (l : list LocVar) (g : Proto) : Proto :=
  mkProto (k g) (code g) (p g) (lineinfo g) l (upvalues g) (Object.source g)
    (linedefined g) (lastlinedefined g) (nups g) (numparams g) (is_vararg g) (maxstacksize g).
Definition with_upvalues (l : list (option bytes)) (n : Z) (g : Proto) : Proto :=
  mkProto (k g) (code g) (p g) (lineinfo g) (locvars g) l (Object.source g)
    (linedefined g) (lastlinedefined g) n (numparams g) (is_vararg g) (maxstacksize g).
Definition with_lines (l1 l2 : Z) (g : Proto) : Proto :=
  mkProto (k g) (code g) (p g) (lineinfo g) (locvars g) (upvalues g) (Object.source g)
    l1 l2 (nups g) (numparams g) (is_vararg g) (maxstacksize g).
Definition with_params (n v : Z) (g : Proto) : Proto :=
  mkProto (k g) (code g) (p g) (lineinfo g) (locvars g) (upvalues g) (Object.source g)
    (linedefined g) (lastlinedefined g) (nups g) n v (maxstacksize g).
Definition with_maxstack (n : Z) (g : Proto) : Proto :=
  mkProto (k g) (code g) (p g) (lineinfo g) (locvars g) (upvalues g) (Object.source g)
    (linedefined g) (lastlinedefined g) (nups g) (numparams g) (is_vararg g) n.

Definition with_f (g : Proto) (F : FuncState) : FuncState :=
  mkFuncState g (h F) (bl F) (lasttarget F) (jpc F) (freereg F) (nactvar F) (upvaldescs F)
    (actvar F).
Definition with_h (h : list (TValue * Z)) (F : FuncState) : FuncState :=
  mkFuncState (f F) h (bl F) (lasttarget F) (jpc F) (freereg F) (nactvar F) (upvaldescs F)
    (actvar F).
Definition with_bl (b : list BlockCnt) (F : FuncState) : FuncState :=
  mkFuncState (f F) (h F) b (lasttarget F) (jpc F) (freereg F) (nactvar F) (upvaldescs F)
    (actvar F).
Definition with_lasttarget (t : Z) (F : FuncState) : FuncState :=
  mkFuncState (f F) (h F) (bl F) t (jpc F) (freereg F) (nactvar F) (upvaldescs F) (actvar F).
Definition with_jpc (l : Z) (F : FuncState) : FuncState :=
  mkFuncState (f F) (h F) (bl F) (lasttarget F) l (freereg F) (nactvar F) (upvaldescs F)
    (actvar F).
Definition with_freereg (r : Z) (F : FuncState) : FuncState :=
  mkFuncState (f F) (h F) (bl F) (lasttarget F) (jpc F) r (nactvar F) (upvaldescs F) (actvar F).
Definition with_nactvar (n : Z) (F : FuncState) : FuncState :=
  mkFuncState (f F) (h F) (bl F) (lasttarget F) (jpc F) (freereg F) n (upvaldescs F) (actvar F).
Definition with_upvaldescs (u : list upvaldesc) (F : FuncState) : FuncState :=
  mkFuncState (f F) (h F) (bl F) (lasttarget F) (jpc F) (freereg F) (nactvar F) u (actvar F).
Definition with_actvar (a : list (option Z)) (F : FuncState) : FuncState :=
  mkFuncState (f F) (h F) (bl F) (lasttarget F) (jpc F) (freereg F) (nactvar F) (upvaldescs F) a.

(** [hasjumps(e)] *)
Definition hasjumps (e : expdesc) : bool := negb (et e =? ef e).

Definition isnumeral (e : expdesc) : bool :=
  bool_decide (ek e = VKNUM) && (et e =? NO_JUMP) && (ef e =? NO_JUMP).

(** [constfolding]: the folded value *)
Definition constfolding `{LibM} (op : OpCode) (e1 e2 : expdesc) : option lua_Number :=
  if negb (isnumeral e1) || negb (isnumeral e2) then None
  else
    let v1 := nval e1 in
    let v2 := nval e2 in
    let zero := luai_numeq v2 (cast_num 0) in
    let r :=
      match op with
      | OP_ADD => Some (luai_numadd v1 v2)
      | OP_SUB => Some (luai_numsub v1 v2)
      | OP_MUL => Some (luai_nummul v1 v2)
      | OP_DIV => if zero then None else Some (luai_numdiv v1 v2)
      | OP_MOD => if zero then None else Some (luai_nummod v1 v2)
      | OP_POW => Some (luai_numpow v1 v2)
      | OP_UNM => Some (luai_numunm v1)
      | OP_LEN => None
      | _ => Some (cast_num 0)
      end in
    match r with
    | Some r => if luai_numisnan r then None else Some r
    | None => None
    end.

Section codegen.
Context {Z' : Type} `{ByteStream Z'} `{LibM}.
Abbreviation CompState := (CompState Z').
Abbreviation Comp := (ST CompState).

(** Run a function of the scanner. *)
Definition lexer {A} (m : ST (LexState Z') A) : Comp A := fun s =>
  match m (ls s) with
  | Ret (a, l) => Ret (a, mkCompState l (fs s) (prev s) (nCcalls s))
  | Throw st e => Throw st e
  | Undef => Undef
  | Nofuel => Nofuel
  end.

Definition set_fs (F : FuncState) (s : CompState) : CompState :=
  mkCompState (ls s) F (prev s) (nCcalls s).

(** Change the current function. *)
Definition modify_fs (g : FuncState -> FuncState) : Comp unit :=
  modify (fun s => set_fs (g (fs s)) s).

Definition get_fs {A} (g : FuncState -> A) : Comp A := gets (fun s => g (fs s)).

(** [fs->f->code[pc]] *)
Definition get_code (i : Z) : Comp Z :=
  c ← get_fs (fun F => code (f F)); lift (deref (getZ c i)).

Definition set_code (i v : Z) : Comp unit :=
  get_code i;;
  modify_fs (fun F => with_f (with_code (setZ (code (f F)) i v) (lineinfo (f F)) (f F)) F).

(** [luaX_syntaxerror(fs->ls, msg)] *)
Definition syntaxerror {A} (msg : bytes) : Comp A := lexer (luaX_syntaxerror msg).

(** ** Jump lists *)

Definition fixjump (pc dest : Z) : Comp unit :=
  let offset := dest - (pc + 1) in
  if MAXARG_sBx <? Z.abs offset then syntaxerror (str "control structure too long")
  else jmp ← get_code pc; set_code pc (SETARG_sBx jmp offset).

Definition luaK_getlabel : Comp Z :=
  modify_fs (fun F => with_lasttarget (pc F) F);;
  get_fs pc.

Definition getjump (pc : Z) : Comp Z :=
  i ← get_code pc;
  let offset := GETARG_sBx i in
  mret (if offset =? NO_JUMP then NO_JUMP else (pc + 1) + offset).

(** The place of the instruction that controls the jump at [pc] *)
Definition getjumpcontrol (pc : Z) : Comp Z :=
  if 1 <=? pc then
    i ← get_code (pc - 1);
    match op_of (GET_OPCODE i) with
    | Some o => mret (if testTMode o then pc - 1 else pc)
    | None => lift Undef
    end
  else mret pc.

(** A list has at most [pc] jumps. *)
Definition jumps (F : FuncState) : nat := S (length (code (f F))).

Fixpoint need_value_loop (fuel : nat) (list : Z) : Comp bool :=
  if list =? NO_JUMP then mret false
  else
    match fuel with
    | O => nofuel
    | S fuel =>
        c ← getjumpcontrol list;
        i ← get_code c;
        if negb (is_op i OP_TESTSET) then mret true
        else next ← getjump list; need_value_loop fuel next
    end.

Definition need_value (list : Z) : Comp bool := fuel ← get_fs jumps; need_value_loop fuel list.

Definition patchtestreg (node reg : Z) : Comp bool :=
  c ← getjumpcontrol node;
  i ← get_code c;
  if negb (is_op i OP_TESTSET) then mret false
  else
    (if negb (reg =? NO_REG) && negb (reg =? GETARG_B i) then set_code c (SETARG_A i reg)
     else set_code c (CREATE_ABC OP_TEST (GETARG_B i) 0 (GETARG_C i)));;
    mret true.

Fixpoint removevalues_loop (fuel : nat) (list : Z) : Comp unit :=
  if list =? NO_JUMP then mret tt
  else
    match fuel with
    | O => nofuel
    | S fuel =>
        patchtestreg list NO_REG;;
        next ← getjump list; removevalues_loop fuel next
    end.

Definition removevalues (list : Z) : Comp unit :=
  fuel ← get_fs jumps; removevalues_loop fuel list.

Fixpoint patchlistaux_loop (fuel : nat) (list vtarget reg dtarget : Z) : Comp unit :=
  if list =? NO_JUMP then mret tt
  else
    match fuel with
    | O => nofuel
    | S fuel =>
        next ← getjump list;
        patched ← patchtestreg list reg;
        fixjump list (if (patched : bool) then vtarget else dtarget);;
        patchlistaux_loop fuel next vtarget reg dtarget
    end.

Definition patchlistaux (list vtarget reg dtarget : Z) : Comp unit :=
  fuel ← get_fs jumps; patchlistaux_loop fuel list vtarget reg dtarget.

Definition dischargejpc : Comp unit :=
  jpc ← get_fs jpc;
  pc ← get_fs pc;
  patchlistaux jpc pc NO_REG pc;;
  modify_fs (with_jpc NO_JUMP).

(** The last jump of a list *)
Fixpoint lastjump (fuel : nat) (list : Z) : Comp Z :=
  match fuel with
  | O => nofuel
  | S fuel =>
      next ← getjump list;
      if next =? NO_JUMP then mret list else lastjump fuel next
  end.

(** [luaK_concat(fs, &l1, l2)]: the new [l1] *)
Definition luaK_concat (l1 l2 : Z) : Comp Z :=
  if l2 =? NO_JUMP then mret l1
  else if l1 =? NO_JUMP then mret l2
  else
    fuel ← get_fs jumps;
    list ← lastjump fuel l1;
    fixjump list l2;;
    mret l1.

Definition luaK_patchtohere (list : Z) : Comp unit :=
  luaK_getlabel;;
  l ← get_fs jpc;
  l ← luaK_concat l list;
  modify_fs (with_jpc l).

Definition luaK_patchlist (list target : Z) : Comp unit :=
  pc ← get_fs pc;
  if target =? pc then luaK_patchtohere list
  else patchlistaux list target NO_REG target.

(** ** Emitting instructions *)

(** The new instruction goes to [code[pc]], its line to [lineinfo[pc]]. *)
Definition luaK_code (i line : Z) : Comp Z :=
  dischargejpc;;
  n ← get_fs pc;
  lift (grow n MAX_INT LIMIT_CODE);;
  modify_fs (fun F => with_f (with_code (code (f F) ++ [i]) (lineinfo (f F) ++ [line]) (f F)) F);;
  mret n.

Definition codeline : Comp Z := gets (fun s => lastline (ls s)).

Definition luaK_codeABC (o : OpCode) (a b c : Z) : Comp Z :=
  line ← codeline; luaK_code (CREATE_ABC o a b c) line.

Definition luaK_codeABx (o : OpCode) (a bc : Z) : Comp Z :=
  line ← codeline; luaK_code (CREATE_ABx o a (u32 bc)) line.

Definition luaK_codeAsBx (o : OpCode) (a sbx : Z) : Comp Z :=
  luaK_codeABx o a (sbx + MAXARG_sBx).

Definition luaK_fixline (line : Z) : Comp unit :=
  li ← get_fs (fun F => lineinfo (f F));
  n ← get_fs pc;
  lift (deref (getZ li (n - 1)));;
  modify_fs (fun F => with_f (with_code (code (f F)) (setZ li (n - 1) line) (f F)) F).

Definition luaK_jump : Comp Z :=
  l ← get_fs jpc;
  modify_fs (with_jpc NO_JUMP);;
  j ← luaK_codeAsBx OP_JMP 0 NO_JUMP;
  luaK_concat j l.

Definition condjump (op : OpCode) (a b c : Z) : Comp Z :=
  luaK_codeABC op a b c;; luaK_jump.

Definition luaK_ret (first nret : Z) : Comp unit :=
  luaK_codeABC OP_RETURN first (nret + 1) 0;; mret tt.

(** [luaK_nil]: whether the loads could be joined with the previous
    instruction or dropped *)
Definition nil_joined (from n : Z) : Comp bool :=
  F ← gets fs;
  if lasttarget F <? pc F then
    if pc F =? 0 then mret (nactvar F <=? from)
    else
      previous ← get_code (pc F - 1);
      if is_op previous OP_LOADNIL then
        let pfrom := GETARG_A previous in
        let pto := GETARG_B previous in
        if (pfrom <=? from) && (from <=? pto + 1) then
          (if pto <? from + n - 1 then set_code (pc F - 1) (SETARG_B previous (from + n - 1))
           else mret tt);;
          mret true
        else mret false
      else mret false
  else mret false.

Definition luaK_nil (from n : Z) : Comp unit :=
  joined ← nil_joined from n;
  if (joined : bool) then mret tt
  else luaK_codeABC OP_LOADNIL from (from + n - 1) 0;; mret tt.

(** ** Registers *)

Definition luaK_checkstack (n : Z) : Comp unit :=
  F ← gets fs;
  let newstack := freereg F + n in
  if maxstacksize (f F) <? newstack then
    if MAXSTACK <=? newstack then syntaxerror (str "function or expression too complex")
    else modify_fs (fun F => with_f (with_maxstack (u8 newstack) (f F)) F)
  else mret tt.

Definition luaK_reserveregs (n : Z) : Comp unit :=
  luaK_checkstack n;;
  modify_fs (fun F => with_freereg (freereg F + n) F).

(** [freereg(fs, reg)] *)
Definition free_reg (reg : Z) : Comp unit :=
  modify_fs (fun F =>
    if negb (ISK reg) && (nactvar F <=? reg) then with_freereg (freereg F - 1) F else F).

Definition freeexp (e : expdesc) : Comp unit :=
  if bool_decide (ek e = VNONRELOC) then free_reg (info e) else mret tt.

(** ** Constants *)

(** [luaH_get(fs->h, k)]: the number stored under the key *)
Fixpoint h_get (l : list (TValue * Z)) (key : TValue) : option Z :=
  match l with
  | [] => None
  | (key', i) :: l => if luaO_rawequalObj key' key then Some i else h_get l key
  end.

(** A key that is not a number is not a NaN. *)
Definition is_nan (v : TValue) : bool :=
  match v with VNumber n => luai_numisnan n | _ => false end.

Definition addk (key v : TValue) : Comp Z :=
  F ← gets fs;
  match h_get (h F) key with
  | Some i => mret i
  | None =>
      (if is_nan key then throw LUA_ERRRUN (str "table index is NaN") else mret tt);;
      modify_fs (with_h ((key, nk F) :: h F));;
      lift (grow (nk F) MAXARG_Bx LIMIT_K);;
      modify_fs (fun F => with_f (with_k (k (f F) ++ [v]) (f F)) F);;
      mret (nk F)
  end.

Definition luaK_stringK (s : bytes) : Comp Z := addk (VString s) (VString s).

Definition luaK_numberK (r : lua_Number) : Comp Z := addk (VNumber r) (VNumber r).

Definition boolK (b : Z) : Comp Z := addk (VBoolean b) (VBoolean b).

(** The table itself, number 0 among the collectable objects the table [h]
    has as keys, stands for nil. *)
Definition nilK : Comp Z := addk (VTable 0) VNil.

(** ** Expressions in registers *)

Definition luaK_setreturns (e : expdesc) (nresults : Z) : Comp unit :=
  if bool_decide (ek e = VCALL) then
    i ← get_code (info e); set_code (info e) (SETARG_C i (nresults + 1))
  else if bool_decide (ek e = VVARARG) then
    i ← get_code (info e);
    set_code (info e) (SETARG_B i (nresults + 1));;
    i ← get_code (info e);
    r ← get_fs freereg;
    set_code (info e) (SETARG_A i r);;
    luaK_reserveregs 1
  else mret tt.

Definition luaK_setmultret (e : expdesc) : Comp unit := luaK_setreturns e LUA_MULTRET.

Definition luaK_setoneret (e : expdesc) : Comp expdesc :=
  if bool_decide (ek e = VCALL) then
    i ← get_code (info e); mret (set_info (GETARG_A i) (set_ek VNONRELOC e))
  else if bool_decide (ek e = VVARARG) then
    i ← get_code (info e);
    set_code (info e) (SETARG_B i 2);;
    mret (set_ek VRELOCABLE e)
  else mret e.

Definition luaK_dischargevars (e : expdesc) : Comp expdesc :=
  match ek e with
  | VLOCAL => mret (set_ek VNONRELOC e)
  | VUPVAL =>
      i ← luaK_codeABC OP_GETUPVAL 0 (info e) 0; mret (set_ek VRELOCABLE (set_info i e))
  | VGLOBAL =>
      i ← luaK_codeABx OP_GETGLOBAL 0 (info e); mret (set_ek VRELOCABLE (set_info i e))
  | VINDEXED =>
      free_reg (aux e);;
      free_reg (info e);;
      i ← luaK_codeABC OP_GETTABLE 0 (info e) (aux e);
      mret (set_ek VRELOCABLE (set_info i e))
  | VVARARG | VCALL => luaK_setoneret e
  | _ => mret e
  end.

Definition code_label (a b jump : Z) : Comp Z :=
  luaK_getlabel;; luaK_codeABC OP_LOADBOOL a b jump.

Definition discharge2reg (e : expdesc) (reg : Z) : Comp expdesc :=
  e ← luaK_dischargevars e;
  let fixed := set_ek VNONRELOC (set_info reg e) in
  match ek e with
  | VNIL => luaK_nil reg 1;; mret fixed
  | VFALSE => luaK_codeABC OP_LOADBOOL reg 0 0;; mret fixed
  | VTRUE => luaK_codeABC OP_LOADBOOL reg 1 0;; mret fixed
  | VK => luaK_codeABx OP_LOADK reg (info e);; mret fixed
  | VKNUM => i ← luaK_numberK (nval e); luaK_codeABx OP_LOADK reg i;; mret fixed
  | VRELOCABLE => i ← get_code (info e); set_code (info e) (SETARG_A i reg);; mret fixed
  | VNONRELOC =>
      (if negb (reg =? info e) then luaK_codeABC OP_MOVE reg (info e) 0;; mret tt
       else mret tt);;
      mret fixed
  | _ => mret e
  end.

Definition discharge2anyreg (e : expdesc) : Comp expdesc :=
  if negb (bool_decide (ek e = VNONRELOC)) then
    luaK_reserveregs 1;;
    r ← get_fs freereg;
    discharge2reg e (r - 1)
  else mret e.

(** The jumps of an expression end up loading its value: positions of the
    loads of false and true *)
Definition load_booleans (e : expdesc) (reg : Z) : Comp (Z * Z) :=
  v1 ← need_value (et e);
  v2 ← (if (v1 : bool) then mret true else need_value (ef e));
  if (v2 : bool) then
    fj ← (if bool_decide (ek e = VJMP) then mret NO_JUMP else luaK_jump);
    p_f ← code_label reg 0 1;
    p_t ← code_label reg 1 0;
    luaK_patchtohere fj;;
    mret (p_f, p_t)
  else mret (NO_JUMP, NO_JUMP).

Definition exp2reg (e : expdesc) (reg : Z) : Comp expdesc :=
  e ← discharge2reg e reg;
  e ← (if bool_decide (ek e = VJMP) then l ← luaK_concat (et e) (info e); mret (set_et l e)
       else mret e);
  (if hasjumps e then
     '(p_f, p_t) ← load_booleans e reg;
     final ← luaK_getlabel;
     patchlistaux (ef e) final reg p_f;;
     patchlistaux (et e) final reg p_t
   else mret tt);;
  mret (set_ek VNONRELOC (set_info reg (set_et NO_JUMP (set_ef NO_JUMP e)))).

Definition luaK_exp2nextreg (e : expdesc) : Comp expdesc :=
  e ← luaK_dischargevars e;
  freeexp e;;
  luaK_reserveregs 1;;
  r ← get_fs freereg;
  exp2reg e (r - 1).

(** The result is [info] of the new expression. *)
Definition luaK_exp2anyreg (e : expdesc) : Comp expdesc :=
  e ← luaK_dischargevars e;
  n ← get_fs nactvar;
  if bool_decide (ek e = VNONRELOC) && negb (hasjumps e) then mret e
  else if bool_decide (ek e = VNONRELOC) && (n <=? info e) then exp2reg e (info e)
  else luaK_exp2nextreg e.

Definition luaK_exp2val (e : expdesc) : Comp expdesc :=
  if hasjumps e then luaK_exp2anyreg e else luaK_dischargevars e.

(** The operand, and the new expression *)
Definition luaK_exp2RK (e : expdesc) : Comp (Z * expdesc) :=
  e ← luaK_exp2val e;
  let in_register := e ← luaK_exp2anyreg e; mret (info e, e) in
  match ek e with
  | VKNUM | VTRUE | VFALSE | VNIL =>
      n ← get_fs nk;
      if n <=? MAXINDEXRK then
        i ← match ek e with
            | VNIL => nilK
            | VKNUM => luaK_numberK (nval e)
            | VTRUE => boolK 1
            | _ => boolK 0
            end;
        mret (RKASK i, set_ek VK (set_info i e))
      else in_register
  | VK => if info e <=? MAXINDEXRK then mret (RKASK (info e), e) else in_register
  | _ => in_register
  end.

Definition luaK_storevar (var ex : expdesc) : Comp unit :=
  match ek var with
  | VLOCAL => freeexp ex;; exp2reg ex (info var);; mret tt
  | VUPVAL =>
      ex ← luaK_exp2anyreg ex;
      luaK_codeABC OP_SETUPVAL (info ex) (info var) 0;;
      freeexp ex
  | VGLOBAL =>
      ex ← luaK_exp2anyreg ex;
      luaK_codeABx OP_SETGLOBAL (info ex) (info var);;
      freeexp ex
  | VINDEXED =>
      '(e, ex) ← luaK_exp2RK ex;
      luaK_codeABC OP_SETTABLE (info var) (aux var) e;;
      freeexp ex
  | _ => freeexp ex
  end.

Definition luaK_self (e key : expdesc) : Comp expdesc :=
  e ← luaK_exp2anyreg e;
  freeexp e;;
  func ← get_fs freereg;
  luaK_reserveregs 2;;
  '(o, key) ← luaK_exp2RK key;
  luaK_codeABC OP_SELF func (info e) o;;
  freeexp key;;
  mret (set_ek VNONRELOC (set_info func e)).

(** ** Conditions *)

Definition invertjump (e : expdesc) : Comp unit :=
  c ← getjumpcontrol (info e);
  i ← get_code c;
  set_code c (SETARG_A i (if GETARG_A i =? 0 then 1 else 0)).

(** [fs->pc--] *)
Definition pop_code : Comp unit :=
  n ← get_fs pc;
  get_code (n - 1);;
  modify_fs (fun F =>
    with_f (with_code (take (Z.to_nat (n - 1)) (code (f F)))
              (take (Z.to_nat (n - 1)) (lineinfo (f F))) (f F)) F).

(** The [cond] argument is 0 or 1; the new jump and the expression *)
Definition jumponcond (e : expdesc) (cond : Z) : Comp (Z * expdesc) :=
  ie ← (if bool_decide (ek e = VRELOCABLE) then i ← get_code (info e); mret (Some i)
        else mret None);
  let test_register :=
    e ← discharge2anyreg e;
    freeexp e;;
    j ← condjump OP_TESTSET NO_REG (info e) cond;
    mret (j, e) in
  match ie with
  | Some i =>
      if is_op i OP_NOT then
        pop_code;;
        j ← condjump OP_TEST (GETARG_B i) 0 (if cond =? 0 then 1 else 0);
        mret (j, e)
      else test_register
  | None => test_register
  end.

Definition luaK_goiftrue (e : expdesc) : Comp expdesc :=
  e ← luaK_dischargevars e;
  '(pc, e) ← match ek e with
             | VK | VKNUM | VTRUE => mret (NO_JUMP, e)
             | VJMP => invertjump e;; mret (info e, e)
             | _ => jumponcond e 0
             end;
  l ← luaK_concat (ef e) pc;
  luaK_patchtohere (et e);;
  mret (set_et NO_JUMP (set_ef l e)).

Definition luaK_goiffalse (e : expdesc) : Comp expdesc :=
  e ← luaK_dischargevars e;
  '(pc, e) ← match ek e with
             | VNIL | VFALSE => mret (NO_JUMP, e)
             | VJMP => mret (info e, e)
             | _ => jumponcond e 1
             end;
  l ← luaK_concat (et e) pc;
  luaK_patchtohere (ef e);;
  mret (set_ef NO_JUMP (set_et l e)).

Definition codenot (e : expdesc) : Comp expdesc :=
  e ← luaK_dischargevars e;
  e ← match ek e with
      | VNIL | VFALSE => mret (set_ek VTRUE e)
      | VK | VKNUM | VTRUE => mret (set_ek VFALSE e)
      | VJMP => invertjump e;; mret e
      | VRELOCABLE | VNONRELOC =>
          e ← discharge2anyreg e;
          freeexp e;;
          i ← luaK_codeABC OP_NOT 0 (info e) 0;
          mret (set_ek VRELOCABLE (set_info i e))
      | _ => mret e
      end;
  let e := set_et (ef e) (set_ef (et e) e) in
  removevalues (ef e);;
  removevalues (et e);;
  mret e.

(** The key, and the table with its key *)
Definition luaK_indexed (t key : expdesc) : Comp expdesc :=
  '(r, _) ← luaK_exp2RK key; mret (set_ek VINDEXED (set_aux r t)).

(** ** Operators *)

Definition codearith (op : OpCode) (e1 e2 : expdesc) : Comp expdesc :=
  match constfolding op e1 e2 with
  | Some r => mret (set_nval r e1)
  | None =>
      '(o2, e2) ← (if negb (bool_decide (op = OP_UNM)) && negb (bool_decide (op = OP_LEN))
                   then luaK_exp2RK e2 else mret (0, e2));
      '(o1, e1) ← luaK_exp2RK e1;
      (if o2 <? o1 then freeexp e1;; freeexp e2 else freeexp e2;; freeexp e1);;
      i ← luaK_codeABC op 0 o1 o2;
      mret (set_ek VRELOCABLE (set_info i e1))
  end.

Definition codecomp (op : OpCode) (cond : Z) (e1 e2 : expdesc) : Comp expdesc :=
  '(o1, e1) ← luaK_exp2RK e1;
  '(o2, e2) ← luaK_exp2RK e2;
  freeexp e2;;
  freeexp e1;;
  j ← (if (cond =? 0) && negb (bool_decide (op = OP_EQ)) then condjump op 1 o2 o1
       else condjump op cond o1 o2);
  mret (set_ek VJMP (set_info j e1)).

Definition luaK_prefix (op : UnOpr) (e : expdesc) : Comp expdesc :=
  let e2 := mkexpdesc VKNUM 0 0 (cast_num 0) NO_JUMP NO_JUMP in
  match op with
  | OPR_MINUS =>
      e ← (if negb (isnumeral e) then luaK_exp2anyreg e else mret e);
      codearith OP_UNM e e2
  | OPR_NOT => codenot e
  | OPR_LEN => e ← luaK_exp2anyreg e; codearith OP_LEN e e2
  | OPR_NOUNOPR => mret e
  end.

Definition luaK_infix (op : BinOpr) (v : expdesc) : Comp expdesc :=
  match op with
  | OPR_AND => luaK_goiftrue v
  | OPR_OR => luaK_goiffalse v
  | OPR_CONCAT => luaK_exp2nextreg v
  | OPR_ADD | OPR_SUB | OPR_MUL | OPR_DIV | OPR_MOD | OPR_POW =>
      if negb (isnumeral v) then '(_, v) ← luaK_exp2RK v; mret v else mret v
  | _ => '(_, v) ← luaK_exp2RK v; mret v
  end.

(** Two concatenations of which the second one is made part of the first *)
Definition is_concat (e : expdesc) : Comp bool :=
  if bool_decide (ek e = VRELOCABLE) then i ← get_code (info e); mret (is_op i OP_CONCAT)
  else mret false.

Definition luaK_posfix (op : BinOpr) (e1 e2 : expdesc) : Comp expdesc :=
  match op with
  | OPR_AND =>
      e2 ← luaK_dischargevars e2; l ← luaK_concat (ef e2) (ef e1); mret (set_ef l e2)
  | OPR_OR =>
      e2 ← luaK_dischargevars e2; l ← luaK_concat (et e2) (et e1); mret (set_et l e2)
  | OPR_CONCAT =>
      e2 ← luaK_exp2val e2;
      joined ← is_concat e2;
      if (joined : bool) then
        freeexp e1;;
        i ← get_code (info e2);
        set_code (info e2) (SETARG_B i (info e1));;
        mret (set_info (info e2) (set_ek VRELOCABLE e1))
      else
        e2 ← luaK_exp2nextreg e2;
        codearith OP_CONCAT e1 e2
  | OPR_ADD => codearith OP_ADD e1 e2
  | OPR_SUB => codearith OP_SUB e1 e2
  | OPR_MUL => codearith OP_MUL e1 e2
  | OPR_DIV => codearith OP_DIV e1 e2
  | OPR_MOD => codearith OP_MOD e1 e2
  | OPR_POW => codearith OP_POW e1 e2
  | OPR_EQ => codecomp OP_EQ 1 e1 e2
  | OPR_NE => codecomp OP_EQ 0 e1 e2
  | OPR_LT => codecomp OP_LT 1 e1 e2
  | OPR_LE => codecomp OP_LE 1 e1 e2
  | OPR_GT => codecomp OP_LT 0 e1 e2
  | OPR_GE => codecomp OP_LE 0 e1 e2
  | OPR_NOBINOPR => mret e1
  end.

(** [nelems] is the number of the last element stored. *)
Definition luaK_setlist (base nelems tostore : Z) : Comp unit :=
  let c := Z.quot (nelems - 1) LFIELDS_PER_FLUSH + 1 in
  let b := if tostore =? LUA_MULTRET then 0 else tostore in
  (if c <=? MAXARG_C then luaK_codeABC OP_SETLIST base b c
   else
     luaK_codeABC OP_SETLIST base b 0;;
     line ← codeline;
     luaK_code (u32 c) line);;
  modify_fs (with_freereg (base + 1)).
End codegen.
