(* ===== verification/JumpLists.v ===== *)
(** * Words of a function under construction and their jump lists

    The code generator threads the jumps that wait for their target through
    the offsets of the jump instructions themselves.  [jl c l ps]: the list
    that starts at [l] in the code [c] visits the positions [ps]; [jlists c
    R]: the lists that start at the roots [R] are disjoint, and every
    OP_TESTSET without a register is the control of a jump of one of them.  With
    it the invariant of a function under construction and what keeps it. *)

From S2P Require Import Prelude Clib Opcodes Object Debug Zio Lex LexFacts Code.

(** ** Positions *)

Definition op_at (c : list Z) (p : Z) : option OpCode :=
  i ← getZ c p; op_of (GET_OPCODE i).

Definition jdest (p i : Z) : Z := p + 1 + GETARG_sBx i.
Definition jnext (p i : Z) : Z := if GETARG_sBx i =? NO_JUMP then NO_JUMP else jdest p i.

Definition jump_word (i : Z) : Prop :=
  is_u32 i /\ exists op, op_of (GET_OPCODE i) = Some op /\ getOpMode op = iAsBx.

(** An OP_TESTSET that has no register yet *)
Definition pending (i : Z) : Prop := is_op i OP_TESTSET = true /\ GETARG_A i = NO_REG.

Fixpoint jl (c : list Z) (l : Z) (ps : list Z) : Prop :=
  match ps with
  | [] => l = NO_JUMP
  | p :: ps => l = p /\ exists i, getZ c p = Some i /\ jump_word i /\ jl c (jnext p i) ps
  end.

Definition positions (L : list (Z * list Z)) : list Z := concat (snd <$> L).

Record glists (c : list Z) (L : list (Z * list Z)) : Prop := {
  gl_jl : Forall (fun x => jl c x.1 x.2) L;
  gl_nodup : NoDup (positions L);
  gl_pending : forall p i, getZ c p = Some i -> pending i -> p + 1 ∈ positions L
}.

Definition jlists (c : list Z) (R : list Z) : Prop := exists L, fst <$> L = R /\ glists c L.

(** The position of the control of a jump *)
Definition control (c : list Z) (q : Z) : Z :=
  match op_at c (q - 1) with
  | Some o => if testTMode o then q - 1 else q
  | None => q
  end.

(** Every jump of the list produces a value. *)
Definition allvalue (c : list Z) (l : Z) : Prop :=
  forall ps, jl c l ps -> forall q, q ∈ ps -> op_at c (control c q) = Some OP_TESTSET.

(** ** Words and their fields *)

Lemma op_at_Some c p i : getZ c p = Some i -> op_at c p = op_of (GET_OPCODE i).
Proof. unfold op_at. by intros ->. Qed.

Lemma op_at_inv c p o :
  op_at c p = Some o -> exists i, getZ c p = Some i /\ op_of (GET_OPCODE i) = Some o.
Proof. unfold op_at. destruct (getZ c p) as [i|]; [eauto|done]. Qed.

Lemma is_op_at c p i o : getZ c p = Some i -> is_op i o = true -> op_at c p = Some o.
Proof. intros H1 H2. rewrite (op_at_Some _ _ _ H1). by apply is_op_true. Qed.

Lemma op_of_GET i : op_of (GET_OPCODE i) = None \/ exists o, op_of (GET_OPCODE i) = Some o.
Proof. destruct (op_of (GET_OPCODE i)); eauto. Qed.

Lemma jump_word_not i o :
  op_of (GET_OPCODE i) = Some o -> getOpMode o <> iAsBx -> ~ jump_word i.
Proof. intros H1 H2 (_ & o' & H3 & H4). congruence. Qed.

Lemma jl_head c l ps : jl c l ps -> l = match ps with [] => NO_JUMP | p :: _ => p end.
Proof. destruct ps; cbn; [done|tauto]. Qed.

Lemma getZ_NO_JUMP {A} (c : list A) : getZ c NO_JUMP = None.
Proof. done. Qed.

Lemma jl_det c l ps ps' : jl c l ps -> jl c l ps' -> ps = ps'.
Proof.
  revert l ps'. induction ps as [|p ps IH]; intros l ps' H H'.
  - destruct ps' as [|p' ps']; [done|]. cbn in H, H'. destruct H' as (-> & i & Hi & _).
    subst p'. by rewrite getZ_NO_JUMP in Hi.
  - destruct ps' as [|p' ps'].
    + cbn in H, H'. destruct H as (-> & i & Hi & _). subst p. by rewrite getZ_NO_JUMP in Hi.
    + cbn in H, H'. destruct H as (-> & i & Hi & _ & H). destruct H' as (<- & i' & Hi' & _ & H').
      rewrite Hi in Hi'. injection Hi' as <-. f_equal. by eapply IH.
Qed.

Lemma jl_range c l ps q : jl c l ps -> q ∈ ps -> 0 <= q < lenZ c.
Proof.
  revert l. induction ps as [|p ps IH]; intros l H Hq; [by apply not_elem_of_nil in Hq|].
  destruct H as (-> & i & Hi & _ & H). apply elem_of_cons in Hq as [->|Hq]; [|eauto].
  by apply getZ_Some in Hi.
Qed.

Lemma jl_word c l ps q : jl c l ps -> q ∈ ps -> exists i, getZ c q = Some i /\ jump_word i.
Proof.
  revert l. induction ps as [|p ps IH]; intros l H Hq; [by apply not_elem_of_nil in Hq|].
  destruct H as (-> & i & Hi & Hw & H). apply elem_of_cons in Hq as [->|Hq]; eauto.
Qed.

Lemma jl_frame c c' l ps :
  (forall q, q ∈ ps -> getZ c' q = getZ c q) -> jl c l ps -> jl c' l ps.
Proof.
  revert l. induction ps as [|p ps IH]; intros l Hf H; [done|].
  destruct H as (-> & i & Hi & Hw & H). split; [done|]. exists i.
  rewrite Hf by (apply elem_of_cons; by left). split; [done|]. split; [done|]. apply IH; [|done].
  intros q Hq. apply Hf, elem_of_cons. by right.
Qed.

(** Lists see only their own jumps. *)
Lemma glists_set_other c L q i v :
  glists c L -> getZ c q = Some i -> ~ jump_word i ->
  (pending v -> q + 1 ∈ positions L) -> glists (setZ c q v) L.
Proof.
  intros [Hj Hn Hp] Hq Hi Hv. split; [|done|].
  - eapply Forall_impl; [|exact Hj]. intros [l ps] Hl. cbn in *. eapply jl_frame; [|done].
    intros r Hr. apply getZ_setZ_ne. intros ->. destruct (jl_word _ _ _ _ Hl Hr) as (j & Hj' & Hw).
    congruence.
  - intros p j Hpj Hpend. destruct (decide (p = q)) as [->|].
    + rewrite getZ_setZ_eq in Hpj by (by apply getZ_Some in Hq).
      injection Hpj as <-. auto.
    + rewrite getZ_setZ_ne in Hpj by done. eauto.
Qed.

Lemma glists_app c L i :
  glists c L -> ~ pending i -> glists (c ++ [i]) L.
Proof.
  intros [Hj Hn Hp] Hi. split; [|done|].
  - eapply Forall_impl; [|exact Hj]. intros [l ps] Hl. cbn in *. eapply jl_frame; [|done].
    intros q Hq. apply getZ_app_l. by destruct (jl_range _ _ _ _ Hl Hq).
  - intros p j Hpj Hpend. destruct (decide (p < lenZ c)).
    + rewrite getZ_app_l in Hpj by done. eauto.
    + rewrite getZ_app_r in Hpj by lia. pose proof (getZ_Some _ _ _ Hpj) as Hr.
      change (lenZ [i]) with 1 in Hr. replace (p - lenZ c) with 0 in Hpj by lia.
      injection Hpj as <-. done.
Qed.

Lemma positions_cons l ps L : positions ((l, ps) :: L) = ps ++ positions L.
Proof. done. Qed.

Lemma jlists_perm c R R' : R ≡ₚ R' -> jlists c R -> jlists c R'.
Proof.
  intros HR (L & HL & [Hj Hn Hp]).
  destruct (Permutation_map_inv fst L (l1 := R')) as (L' & -> & HP).
  { rewrite <- HR. by rewrite <- HL. }
  assert (HP' : positions L ≡ₚ positions L').
  { unfold positions. change (fmap snd) with (map (A := Z * list Z) (B := list Z) snd).
    rewrite <- !flat_map_concat_map. by apply Permutation_flat_map. }
  exists L'. split; [done|]. split.
  - by rewrite <- HP.
  - by rewrite <- HP'.
  - intros p i H1 H2. rewrite <- HP'. eauto.
Qed.

Lemma jl_NO_JUMP c ps : jl c NO_JUMP ps -> ps = [].
Proof.
  destruct ps as [|p ps]; [done|]. intros (<- & i & Hi & _). by rewrite getZ_NO_JUMP in Hi.
Qed.

Lemma glists_drop2 c x l L : glists c (x :: (l, []) :: L) -> glists c (x :: L).
Proof.
  destruct x as [l' ps]. intros [Hj Hn Hp]. split; [|done|done].
  constructor; [by apply Forall_inv in Hj|]. by apply Forall_inv_tail, Forall_inv_tail in Hj.
Qed.

Lemma jlists_nojump c R : jlists c (NO_JUMP :: R) <-> jlists c R.
Proof.
  split.
  - intros (L & HL & [Hj Hn Hp]). destruct L as [|[l ps] L]; [done|]. injection HL as -> <-.
    assert (Hl : jl c NO_JUMP ps) by (by apply Forall_inv in Hj).
    apply jl_NO_JUMP in Hl as ->. exists L. split; [done|]. split; [by apply Forall_inv_tail in Hj|done|done].
  - intros (L & HL & [Hj Hn Hp]). exists ((NO_JUMP, []) :: L). split; [by rewrite <- HL|].
    split; [by constructor|done|done].
Qed.

Lemma positions_lenZ c L :
  glists c L -> (length (positions L) <= length c)%nat.
Proof.
  intros [Hj Hn _].
  assert (Hi : positions L ⊆ (Z.of_nat <$> seq 0 (length c))).
  { intros q Hq. unfold positions in Hq. apply list_elem_of_In, in_concat in Hq.
    destruct Hq as (ps & Hps & Hq). apply list_elem_of_In, list_elem_of_fmap in Hps.
    destruct Hps as ([l ps'] & -> & HL). rewrite Forall_forall in Hj.
    apply list_elem_of_In in Hq, HL. pose proof (jl_range _ _ _ _ (Hj _ HL) Hq) as Hr.
    apply list_elem_of_fmap. exists (Z.to_nat q). split; [lia|]. apply elem_of_seq.
    unfold lenZ in Hr. lia. }
  pose proof (submseteq_length _ _ (NoDup_submseteq _ _ Hn Hi)) as H.
  by rewrite length_fmap, length_seq in H.
Qed.

(** * The invariant of a function under construction

    [finv ms F R]: the words of the code are instructions with operands in
    range (registers below [ms]), jumps stay in the code, the jump lists that
    start at [jpc], at the break lists of the blocks and at the roots [R] the
    parser holds are disjoint and well formed, and the counters agree with
    the vectors.  [cext F F'] is what the code generator keeps. *)


(** ** Operands *)

(** [op_registers] from the fields of the instruction *)
Definition regs_of (op : OpCode) (a b c : Z) : list Z :=
  match op with
  | OP_JMP => []
  | OP_MOVE | OP_LOADNIL | OP_UNM | OP_NOT | OP_LEN => [a; b]
  | OP_TESTSET => if a =? NO_REG then [b] else [a; b]
  | OP_GETTABLE => a :: b :: rk_reg c
  | OP_SETTABLE | OP_ADD | OP_SUB | OP_MUL | OP_DIV | OP_MOD | OP_POW =>
      a :: rk_reg b ++ rk_reg c
  | OP_EQ | OP_LT | OP_LE => rk_reg b ++ rk_reg c
  | OP_SELF => a :: (a + 1) :: b :: rk_reg c
  | OP_CONCAT => [a; b; c]
  | OP_CALL =>
      a :: (if b =? 0 then [] else [a + b - 1])
      ++ (if c <=? 1 then [] else [a + c - 2])
  | OP_TAILCALL => a :: (if b =? 0 then [] else [a + b - 1])
  | OP_RETURN | OP_VARARG => a :: (if b <=? 1 then [] else [a + b - 2])
  | OP_FORLOOP | OP_FORPREP => [a; a + 1; a + 2; a + 3]
  | OP_TFORLOOP => [a; a + 1; a + 2; a + 3; a + 2 + c]
  | OP_SETLIST => a :: (if b =? 0 then [] else [a + b])
  | OP_LOADK | OP_LOADBOOL | OP_GETUPVAL | OP_GETGLOBAL | OP_SETGLOBAL
  | OP_SETUPVAL | OP_NEWTABLE | OP_TEST | OP_CLOSE | OP_CLOSURE => [a]
  end.

Definition consts_of (op : OpCode) (b c bx : Z) : list Z :=
  match op with
  | OP_LOADK | OP_GETGLOBAL | OP_SETGLOBAL => [bx]
  | OP_GETTABLE | OP_SELF => rk_const c
  | OP_SETTABLE | OP_ADD | OP_SUB | OP_MUL | OP_DIV | OP_MOD | OP_POW
  | OP_EQ | OP_LT | OP_LE => rk_const b ++ rk_const c
  | _ => []
  end.

Definition is_string_at (g : Proto) (i : Z) : Prop := exists s, getZ (k g) i = Some (VString s).

Record fits (ms : Z) (g : Proto) (op : OpCode) (a b c bx : Z) : Prop := {
  fit_regs : Forall (fun r => 0 <= r < ms) (regs_of op a b c);
  fit_consts : Forall (fun x => 0 <= x < sizek g) (consts_of op b c bx);
  fit_ups : op = OP_GETUPVAL \/ op = OP_SETUPVAL -> 0 <= b < nups g;
  fit_proto : op = OP_CLOSURE -> 0 <= bx < sizep g;
  fit_global : op = OP_GETGLOBAL \/ op = OP_SETGLOBAL -> is_string_at g bx
}.

(** The instruction at [p] in a function of [n] instructions *)
Definition word_ok (ms : Z) (g : Proto) (n p i : Z) : Prop :=
  is_u32 i /\ exists op, op_of (GET_OPCODE i) = Some op /\
    fits ms g op (GETARG_A i) (GETARG_B i) (GETARG_C i) (GETARG_Bx i) /\
    (getOpMode op = iAsBx -> 0 <= jdest p i <= n).

Definition words_ok (ms : Z) (g : Proto) : Prop :=
  forall p i, getZ (code g) p = Some i -> word_ok ms g (sizecode g) p i.

(** ** The parts of the invariant *)

(** A key of [h] and the constant it stands for *)
Definition h_ok (g : Proto) (x : TValue * Z) : Prop :=
  getZ (k g) x.2 = Some (match x.1 with VTable _ => VNil | v => v end).

Record vars_ok (F : FuncState) : Prop := {
  vo_nactvar : 0 <= nactvar F <= LUAI_MAXVARS;
  vo_actvar : lenZ (actvar F) = LUAI_MAXVARS;
  vo_vars : forall i, 0 <= i < nactvar F ->
    exists j, getZ (actvar F) i = Some (Some j) /\ 0 <= j < nlocvars F;
  vo_nlocvars : nlocvars F <= 32767;
  vo_descs : lenZ (upvaldescs F) = nups (f F);
  vo_names : sizeupvalues (f F) = nups (f F);
  vo_nups : nups (f F) <= LUAI_MAXUPVALUES
}.

(** The blocks, the innermost first, begin at ever fewer variables. *)
Fixpoint blocks_ok (n : Z) (l : list BlockCnt) : Prop :=
  match l with
  | [] => True
  | b :: l => 0 <= bnactvar b <= n /\ blocks_ok (bnactvar b) l
  end.

Record finv (ms : Z) (F : FuncState) (R : list Z) : Prop := {
  fi_lists : jlists (code (f F)) (jpc F :: (breaklist <$> bl F) ++ R);
  fi_words : words_ok ms (f F);
  fi_lines : lenZ (lineinfo (f F)) = pc F;
  fi_regs : nactvar F <= freereg F <= maxstacksize (f F);
  fi_stack : 2 <= maxstacksize (f F) < MAXSTACK;
  fi_ms : maxstacksize (f F) <= ms <= MAXSTACK;
  fi_h : Forall (h_ok (f F)) (h F);
  fi_nk : nk F <= MAXARG_Bx;
  fi_pc : pc F <= MAX_INT;
  fi_vars : vars_ok F;
  fi_blocks : blocks_ok (nactvar F) (bl F)
}.

(** What the code generator does not touch *)
Definition static (F : FuncState) :=
  (nactvar F, bl F, upvaldescs F, actvar F, p (f F), locvars (f F), upvalues (f F),
   (Object.source (f F), linedefined (f F), lastlinedefined (f F)),
   (nups (f F), numparams (f F), is_vararg (f F))).

Record cext (F F' : FuncState) : Prop := {
  ce_static : static F' = static F;
  ce_k : exists l, k (f F') = k (f F) ++ l;
  ce_ms : maxstacksize (f F) <= maxstacksize (f F');
  ce_pc : pc F <= pc F';
  ce_table : forall p, op_at (code (f F)) p = Some OP_NEWTABLE ->
    op_at (code (f F')) p = Some OP_NEWTABLE
}.

(** ** Lemmas on words *)

Lemma op_registers_of i op :
  (op = OP_TESTSET -> GETARG_A i <> NO_REG) ->
  op_registers i op = regs_of op (GETARG_A i) (GETARG_B i) (GETARG_C i).
Proof.
  destruct op; try done. intros Hp. cbn [op_registers regs_of].
  by rewrite (proj2 (Z.eqb_neq (GETARG_A i) NO_REG) (Hp eq_refl)).
Qed.

Lemma getZ_prefix {A} (l l' : list A) i x : getZ l i = Some x -> getZ (l ++ l') i = Some x.
Proof. intros H. rewrite getZ_app_l; [done|]. apply getZ_Some in H. lia. Qed.

Lemma fits_mono ms ms' g g' op a b c bx :
  ms <= ms' -> (exists l, k g' = k g ++ l) -> nups g <= nups g' -> sizep g <= sizep g' ->
  fits ms g op a b c bx -> fits ms' g' op a b c bx.
Proof.
  intros Hm [l Hk] Hn Hp [Hr Hc Hu Hf Hg]. split.
  - eapply Forall_impl; [|exact Hr]. cbn. lia.
  - eapply Forall_impl; [|exact Hc]. cbn. intros x Hx. unfold sizek in *. rewrite Hk, lenZ_app.
    pose proof (lenZ_nonneg l). lia.
  - intros H. specialize (Hu H). lia.
  - intros H. specialize (Hf H). lia.
  - intros H. destruct (Hg H) as [s Hs]. exists s. rewrite Hk. by apply getZ_prefix.
Qed.

Lemma word_ok_mono ms ms' g g' n n' q i :
  ms <= ms' -> (exists l, k g' = k g ++ l) -> nups g <= nups g' -> sizep g <= sizep g' ->
  n <= n' -> word_ok ms g n q i -> word_ok ms' g' n' q i.
Proof.
  intros Hm Hk Hn Hp Hnn (Hi & op & Ho & Hf & Hj). split; [done|]. exists op.
  split; [done|]. split; [by eapply fits_mono|]. intros Hs. specialize (Hj Hs). lia.
Qed.

Lemma k_refl g : exists l, k g = k g ++ l.
Proof. exists []. by rewrite app_nil_r. Qed.

(** [word_ok] does not look at the code. *)
Lemma word_ok_with_code ms g c li n q i :
  word_ok ms g n q i -> word_ok ms (with_code c li g) n q i.
Proof. by apply word_ok_mono; try done; exact (k_refl g). Qed.

Lemma words_ok_app ms g i li :
  words_ok ms g -> word_ok ms g (sizecode g + 1) (sizecode g) i ->
  words_ok ms (with_code (code g ++ [i]) li g).
Proof.
  intros Hw Hi q j Hq. unfold sizecode. cbn [code with_code] in *. rewrite lenZ_app.
  change (lenZ [i]) with 1. destruct (decide (q < lenZ (code g))) as [Hl|Hl].
  - rewrite getZ_app_l in Hq by done. eapply word_ok_mono; [..|by apply Hw]; try done;
      [exact (k_refl g)|unfold sizecode; lia].
  - rewrite getZ_app_r in Hq by lia. pose proof (getZ_Some _ _ _ Hq) as Hr.
    change (lenZ [i]) with 1 in Hr. replace (q - lenZ (code g)) with 0 in Hq by lia.
    injection Hq as <-. replace q with (sizecode g) by (unfold sizecode; lia).
    by apply word_ok_with_code.
Qed.

Lemma words_ok_set ms g q v li :
  words_ok ms g -> word_ok ms g (sizecode g) q v ->
  words_ok ms (with_code (setZ (code g) q v) li g).
Proof.
  intros Hw Hv r j Hr. unfold sizecode. cbn [code with_code] in *. rewrite lenZ_setZ.
  destruct (decide (r = q)) as [->|].
  - assert (0 <= q < lenZ (code g)).
    { apply getZ_Some in Hr. by rewrite lenZ_setZ in Hr. }
    rewrite getZ_setZ_eq in Hr by done. injection Hr as <-. by apply word_ok_with_code.
  - rewrite getZ_setZ_ne in Hr by done. by apply word_ok_with_code, Hw.
Qed.

Lemma words_ok_mono ms ms' g g' :
  code g' = code g -> ms <= ms' -> (exists l, k g' = k g ++ l) -> nups g <= nups g' ->
  sizep g <= sizep g' -> words_ok ms g -> words_ok ms' g'.
Proof.
  intros Hc ? ? ? ? Hw q i Hq. rewrite Hc in Hq. eapply word_ok_mono; [..|by apply Hw]; try done.
  unfold sizecode. by rewrite Hc.
Qed.

(** ** Words built and changed *)

Lemma word_ok_ABC ms g n q o a b c :
  getOpMode o = iABC -> 0 <= a <= MAXARG_A -> 0 <= b <= MAXARG_B -> 0 <= c <= MAXARG_C ->
  (forall bx, fits ms g o a b c bx) -> word_ok ms g n q (CREATE_ABC o a b c).
Proof.
  intros Hm Ha Hb Hc Hf. split; [apply CREATE_ABC_u32|]. exists o.
  destruct (get_CREATE_ABC o a b c Ha Hb Hc) as (-> & -> & -> & ->).
  rewrite op_of_num. split; [done|]. split; [apply Hf|]. congruence.
Qed.

Lemma word_ok_ABx ms g n q o a bx :
  getOpMode o = iABx -> 0 <= a <= MAXARG_A -> 0 <= bx <= MAXARG_Bx ->
  (forall b c, fits ms g o a b c bx) -> word_ok ms g n q (CREATE_ABx o a bx).
Proof.
  intros Hm Ha Hb Hf. split; [apply CREATE_ABx_u32|]. exists o.
  destruct (get_CREATE_ABx o a bx Ha Hb) as (-> & -> & ->).
  rewrite op_of_num. split; [done|]. split; [apply Hf|]. congruence.
Qed.

Lemma sBx_CREATE o a sbx :
  0 <= a <= MAXARG_A -> - MAXARG_sBx <= sbx <= MAXARG_sBx ->
  GETARG_sBx (CREATE_ABx o a (u32 (sbx + MAXARG_sBx))) = sbx.
Proof.
  intros Ha Hs. apply CREATE_AsBx_get; [done|lia].
Qed.

Lemma SETARG_A_fields i v :
  is_u32 i -> 0 <= v <= MAXARG_A ->
  is_u32 (SETARG_A i v) /\ GET_OPCODE (SETARG_A i v) = GET_OPCODE i /\
  GETARG_A (SETARG_A i v) = v /\ GETARG_B (SETARG_A i v) = GETARG_B i /\
  GETARG_C (SETARG_A i v) = GETARG_C i /\ GETARG_Bx (SETARG_A i v) = GETARG_Bx i.
Proof.
  intros Hi Hv. destruct (SETARG_A_spec i v Hi) as (H1 & H2 & H3 & H4).
  split; [done|]. split; [done|]. split; [rewrite H2; apply Z.mod_small; maxargs;
    change (2 ^ SIZE_A) with 256; lia|].
  split; [|split; [|done]].
  - field_bits. apply get_setfield_other; (done || lia).
  - field_bits. apply get_setfield_other; (done || lia).
Qed.

Lemma SETARG_B_fields i v :
  is_u32 i -> 0 <= v <= MAXARG_B ->
  is_u32 (SETARG_B i v) /\ GET_OPCODE (SETARG_B i v) = GET_OPCODE i /\
  GETARG_A (SETARG_B i v) = GETARG_A i /\ GETARG_B (SETARG_B i v) = v /\
  GETARG_C (SETARG_B i v) = GETARG_C i.
Proof.
  intros Hi Hv. destruct (SETARG_B_spec i v Hi) as (H1 & H2 & H3 & H4 & H5).
  split_and!; try done. rewrite H2. apply Z.mod_small. maxargs. change (2 ^ SIZE_B) with 512. lia.
Qed.

Lemma SETARG_C_fields i v :
  is_u32 i -> 0 <= v <= MAXARG_C ->
  is_u32 (SETARG_C i v) /\ GET_OPCODE (SETARG_C i v) = GET_OPCODE i /\
  GETARG_A (SETARG_C i v) = GETARG_A i /\ GETARG_B (SETARG_C i v) = GETARG_B i /\
  GETARG_C (SETARG_C i v) = v.
Proof.
  intros Hi Hv. destruct (SETARG_C_spec i v Hi) as (H1 & H2 & H3 & H4 & H5).
  split_and!; try done. rewrite H2. apply Z.mod_small. maxargs. change (2 ^ SIZE_C) with 512. lia.
Qed.

Lemma SETARG_sBx_fields i v :
  is_u32 i -> - MAXARG_sBx <= v <= MAXARG_sBx ->
  is_u32 (SETARG_sBx i v) /\ GET_OPCODE (SETARG_sBx i v) = GET_OPCODE i /\
  GETARG_A (SETARG_sBx i v) = GETARG_A i /\ GETARG_sBx (SETARG_sBx i v) = v.
Proof.
  intros Hi Hv.
  destruct (SETARG_Bx_spec i (u32 (v + MAXARG_sBx)) Hi) as (H1 & H2 & H3 & H4).
  split_and!; try done. apply SETARG_sBx_get; [done|lia].
Qed.
