(* ===== verification/CodeJumps.v ===== *)
(** * Jump lists are patched safely

    A calculus for the functions of the code generator, which change only
    the current function ([cgen]), and the jump-list functions of lcode.c. *)

From S2P Require Import Prelude Mem Clib Opcodes Object Debug Zio Lex Code JumpLists.
From S2P Require LexFacts.

(** ** The calculus *)

Section calculus.
Context {Z' : Type} `{HS : ByteStream Z'} `{HL : !ByteStreamLaws Z'}.
Context (s : CompState Z').
Abbreviation Comp := (ST (CompState Z')).

(** [cgen m F Q]: with [F] as the current function, [m] raises an error or
    gives a result and a new current function that satisfy [Q]. *)
Definition cgen {A} (m : Comp A) (F : FuncState) (Q : A -> FuncState -> Prop) : Prop :=
post (m (set_fs F s)) (fun '(a, s') => exists F', s' = set_fs F' s /\ Q a F').

Lemma cgen_bind {A B} (m : Comp A) (k : A -> Comp B) F P Q :
cgen m F P -> (forall a F', P a F' -> cgen (k a) F' Q) -> cgen (m ≫= k) F Q.
Proof.
intros Hm Hk. eapply st_post_bind; [exact Hm|]. intros a s' (F' & -> & HP). by apply Hk.
Qed.

Lemma cgen_mono {A} (m : Comp A) F (P Q : A -> FuncState -> Prop) :
cgen m F P -> (forall a F', P a F' -> Q a F') -> cgen m F Q.
Proof.
intros Hm HQ. eapply post_mono; [exact Hm|]. intros [a s'] (F' & -> & HP). eauto.
Qed.

Lemma cgen_ret {A} (a : A) F (Q : A -> FuncState -> Prop) : Q a F -> cgen (mret a) F Q.
Proof. intros HQ. by exists F. Qed.

Lemma cgen_get {A B} (g : FuncState -> A) (k : A -> Comp B) F Q :
cgen (k (g F)) F Q -> cgen (get_fs g ≫= k) F Q.
Proof. done. Qed.

Lemma cgen_fs {B} (k : FuncState -> Comp B) F Q : cgen (k F) F Q -> cgen (gets fs ≫= k) F Q.
Proof. done. Qed.

Lemma cgen_modify (g : FuncState -> FuncState) F (Q : unit -> FuncState -> Prop) :
Q tt (g F) -> cgen (modify_fs g) F Q.
Proof. intros HQ. by exists (g F). Qed.

Lemma cgen_modify_bind {B} (g : FuncState -> FuncState) (k : unit -> Comp B) F Q :
cgen (k tt) (g F) Q -> cgen (modify_fs g ≫= k) F Q.
Proof. done. Qed.

Lemma cgen_ret_bind {A B} (a : A) (k : A -> Comp B) F Q :
cgen (k a) F Q -> cgen (mret a ≫= k) F Q.
Proof. done. Qed.

Lemma cgen_assoc {A B C} (m : Comp A) (k1 : A -> Comp B) (k2 : B -> Comp C) F Q :
cgen (m ≫= fun a => k1 a ≫= k2) F Q -> cgen ((m ≫= k1) ≫= k2) F Q.
Proof. unfold cgen. by rewrite st_bind_bind. Qed.

Lemma cgen_group {A B C} (m : Comp A) (k1 : A -> Comp B) (k2 : B -> Comp C) F Q :
cgen ((m ≫= k1) ≫= k2) F Q -> cgen (m ≫= fun a => k1 a ≫= k2) F Q.
Proof. unfold cgen. by rewrite st_bind_bind. Qed.

Lemma cgen_if {A} (b : bool) (m1 m2 : Comp A) F Q :
(b = true -> cgen m1 F Q) -> (b = false -> cgen m2 F Q) -> cgen (if b then m1 else m2) F Q.
Proof. destruct b; auto. Qed.

Lemma cgen_lift_bind {A B} (m : outcome A) (k : A -> Comp B) F P Q :
post m P -> (forall a, P a -> cgen (k a) F Q) -> cgen (lift m ≫= k) F Q.
Proof.
intros Hm Hk. unfold cgen, mbind, ST_bind, lift. destruct m as [a| | |]; try done. by apply Hk.
Qed.

Lemma cgen_syntaxerror {A} msg F Q :
LexFacts.wf (ls s) -> cgen (syntaxerror msg : Comp A) F Q.
Proof.
intros Hw. unfold cgen, syntaxerror, lexer. cbn [ls set_fs].
pose proof (LexFacts.syntaxerror_spec (A := A) msg (ls s) (fun _ => False)
  (LexFacts.wf_buff _ Hw) (LexFacts.wf_t _ Hw)) as Hs.
by destruct (luaX_syntaxerror msg (ls s)) as [[a l]| | |].
Qed.

Lemma cgen_code {B} i w (k : Z -> Comp B) F Q :
getZ (code (f F)) i = Some w -> cgen (k w) F Q -> cgen (get_code i ≫= k) F Q.
Proof.
intros Hi Hk. unfold get_code. apply cgen_assoc, cgen_get.
eapply cgen_lift_bind; [by apply (post_deref _ (fun x => x = w) w)|]. by intros ? ->.
Qed.

Lemma cgen_code_last i w F (Q : Z -> FuncState -> Prop) :
getZ (code (f F)) i = Some w -> Q w F -> cgen (get_code i) F Q.
Proof.
intros Hi HQ. unfold get_code, cgen, lift, mbind, ST_bind. cbn. rewrite Hi. cbn. by exists F.
Qed.
End calculus.

(** The function with a word of its code changed *)
Definition upd_code (F : FuncState) (i v : Z) : FuncState :=
  with_f (with_code (setZ (code (f F)) i v) (lineinfo (f F)) (f F)) F.

Lemma cgen_set {Z'} (s : CompState Z') i v w F Q :
  getZ (code (f F)) i = Some w -> Q tt (upd_code F i v) -> cgen s (set_code i v) F Q.
Proof.
  intros Hi HQ. unfold set_code. eapply cgen_code; [done|].
  by apply cgen_modify.
Qed.

(** Opcodes change only from OP_TESTSET to OP_TEST. *)
Definition ops_ext (c c' : list Z) : Prop :=
  forall q, op_at c' q = op_at c q \/
    (op_at c q = Some OP_TESTSET /\ op_at c' q = Some OP_TEST).

Lemma ops_ext_refl c : ops_ext c c.
Proof. intros q. by left. Qed.

Lemma ops_ext_trans c1 c2 c3 : ops_ext c1 c2 -> ops_ext c2 c3 -> ops_ext c1 c3.
Proof.
  intros H1 H2 q. destruct (H1 q) as [E1|[E1 E1']], (H2 q) as [E2|[E2 E2']];
    rewrite ?E1, ?E2, ?E2' in *; auto; try congruence.
Qed.

Lemma ops_ext_set c q i v :
  getZ c q = Some i ->
  (op_of (GET_OPCODE v) = op_of (GET_OPCODE i) \/
   is_op i OP_TESTSET = true /\ is_op v OP_TEST = true) ->
  ops_ext c (setZ c q v).
Proof.
  intros Hi Hv r. destruct (decide (r = q)) as [->|].
  - rewrite (op_at_Some _ _ _ Hi), (op_at_Some (setZ c q v) q v)
      by (apply getZ_setZ_eq; by apply getZ_Some in Hi).
    destruct Hv as [->|[H1%is_op_true H2%is_op_true]]; auto.
  - left. unfold op_at. by rewrite getZ_setZ_ne.
Qed.

Lemma control_ext c c' q : ops_ext c c' -> control c' q = control c q.
Proof.
  intros H. unfold control. by destruct (H (q - 1)) as [->|[-> ->]].
Qed.

(** The jump at [q] produces a value. *)
Definition valued (c : list Z) (q : Z) : Prop := op_at c (control c q) = Some OP_TESTSET.

(** The jump at [q] goes to [t]. *)
Definition goes_to (c : list Z) (q t : Z) : Prop :=
  exists j, getZ c q = Some j /\ jump_word j /\ jdest q j = t.

#[export] Instance valued_dec c q : Decision (valued c q).
Proof. unfold valued. apply _. Defined.

Lemma control_cases c q : control c q = q \/ control c q = q - 1.
Proof. unfold control. destruct (op_at c (q - 1)) as [o|]; [destruct (testTMode o)|]; auto. Qed.

Lemma jump_word_ops i o :
  op_of (GET_OPCODE i) = Some o -> jump_word i -> o = OP_JMP \/ o = OP_FORLOOP \/ o = OP_FORPREP.
Proof. intros Ho (_ & o' & Ho' & Hm). rewrite Ho in Ho'. injection Ho' as <-. destruct o; auto; done. Qed.

Lemma jump_word_not_testset i : jump_word i -> is_op i OP_TESTSET = false.
Proof.
  intros Hj. destruct Hj as (Hu & o & Ho & Hm). rewrite (is_op_op_of _ _ _ Ho).
  apply bool_decide_eq_false. intros ->. done.
Qed.

(** Taking the first jump out of its list *)
Lemma glists_unlink c L p ps i v :
  glists c ((p, p :: ps) :: L) -> getZ c p = Some i -> ~ pending v ->
  (forall j, getZ c (p - 1) = Some j -> ~ pending j) ->
  glists (setZ c p v) ((jnext p i, ps) :: L).
Proof.
  intros [Hj Hn Hp] Hi Hv Hc. pose proof (Forall_inv Hj) as Hh. pose proof (Forall_inv_tail Hj) as Ht.
  cbn in Hh. destruct Hh as (_ & i' & Hi' & _ & Hh). rewrite Hi in Hi'. injection Hi' as <-.
  rewrite positions_cons in Hn. cbn in Hn. apply list.NoDup_cons in Hn as [Hnp Hn].
  assert (Hframe : forall l qs, jl c l qs -> (forall q, q ∈ qs -> q ∈ ps ++ positions L) ->
            jl (setZ c p v) l qs).
  { intros l qs Hl Hqs. eapply jl_frame; [|done]. intros q Hq. apply getZ_setZ_ne. intros <-.
    by apply Hnp, Hqs. }
  split.
  - constructor; [cbn; apply Hframe; [done|intros q Hq; apply elem_of_app; by left]|].
    rewrite Forall_forall in Ht |- *. intros [l qs] Hin. cbn. apply Hframe; [by apply (Ht _ Hin)|].
    intros q Hq. apply elem_of_app. right. unfold positions. apply list_elem_of_In, in_concat.
    exists qs. split; [|by apply list_elem_of_In]. change qs with ((l, qs).2).
    by apply (in_map (B := list Z) snd).
  - by rewrite positions_cons.
  - rewrite positions_cons. intros q j Hq Hpend.
    destruct (decide (q = p)) as [->|].
    { rewrite getZ_setZ_eq in Hq by (by apply getZ_Some in Hi). injection Hq as <-. done. }
    rewrite getZ_setZ_ne in Hq by done. pose proof (Hp _ _ Hq Hpend) as Hin.
    rewrite positions_cons in Hin. cbn in Hin. apply elem_of_cons in Hin as [E|]; [|done].
    exfalso. apply (Hc j); [|done]. by replace (p - 1) with q by lia.
Qed.

(** ** Changes to jumps and tests only *)

Definition jext (F F' : FuncState) : Prop :=
  exists c', F' = with_f (with_code c' (lineinfo (f F)) (f F)) F /\
    lenZ c' = lenZ (code (f F)) /\ ops_ext (code (f F)) c'.

Lemma jext_refl F : jext F F.
Proof.
  exists (code (f F)). split; [by destruct F as [[]]|]. split; [done|]. apply ops_ext_refl.
Qed.

Lemma jext_trans F1 F2 F3 : jext F1 F2 -> jext F2 F3 -> jext F1 F3.
Proof.
  intros (c2 & -> & Hl2 & Ho2) (c3 & -> & Hl3 & Ho3). cbn [f code with_f with_code] in *.
  exists c3. split; [done|]. split; [congruence|]. by eapply ops_ext_trans.
Qed.

Lemma jext_upd F q i v :
  getZ (code (f F)) q = Some i ->
  (op_of (GET_OPCODE v) = op_of (GET_OPCODE i) \/
   is_op i OP_TESTSET = true /\ is_op v OP_TEST = true) ->
  jext F (upd_code F q v).
Proof.
  intros Hi Hv. exists (setZ (code (f F)) q v). split; [done|]. split; [apply lenZ_setZ|].
  by eapply ops_ext_set.
Qed.

Lemma jext_pc F F' : jext F F' -> pc F' = pc F.
Proof. by intros (c' & -> & Hl & _). Qed.

Lemma jext_ops F F' : jext F F' -> ops_ext (code (f F)) (code (f F')).
Proof. by intros (c' & -> & _ & Ho). Qed.

Section jumps.
Context {Z' : Type} `{HS : ByteStream Z'} `{HL : !ByteStreamLaws Z'}.
Context (s : CompState Z') (Hw : LexFacts.wf (ls s)).
Context (ms : Z) (Hms : ms <= MAXSTACK).

Lemma getjump_spec {B} q i (k : Z -> ST (CompState Z') B) F Q :
getZ (code (f F)) q = Some i -> cgen s (k (jnext q i)) F Q -> cgen s (getjump q ≫= k) F Q.
Proof. intros Hi Hk. unfold getjump. apply cgen_assoc. eapply cgen_code; [done|]. done. Qed.

Lemma getjumpcontrol_spec {B} q i (k : Z -> ST (CompState Z') B) F Q :
words_ok ms (f F) -> getZ (code (f F)) q = Some i ->
cgen s (k (control (code (f F)) q)) F Q -> cgen s (getjumpcontrol q ≫= k) F Q.
Proof using Hms.
intros Hwords Hi Hk. unfold getjumpcontrol. destruct (Z.leb_spec 1 q) as [Hq|Hq].
- apply getZ_Some in Hi. destruct (getZ_is_Some (code (f F)) (q - 1)) as [j Hj]; [lia|].
  apply cgen_assoc. eapply cgen_code; [done|].
  destruct (Hwords _ _ Hj) as (_ & o & Ho & _). rewrite Ho. unfold control in Hk.
  rewrite (op_at_Some _ _ _ Hj), Ho in Hk. done.
- replace (control (code (f F)) q) with q in Hk; [done|].
  unfold control, op_at. rewrite getZ_None by lia. done.
Qed.

(** A control word is there, and is not a jump unless it is the jump itself. *)
Lemma control_word c q i :
getZ c q = Some i -> exists w, getZ c (control c q) = Some w.
Proof using.
intros Hi. unfold control. destruct (op_at c (q - 1)) as [o|] eqn:E; [|eauto].
destruct (testTMode o); [|eauto]. destruct (op_at_inv _ _ _ E) as (w & Hww & _). eauto.
Qed.

Lemma valued_control c q i :
getZ c q = Some i -> jump_word i -> valued c q ->
control c q = q - 1 /\ exists w, getZ c (q - 1) = Some w /\ is_op w OP_TESTSET = true.
Proof using.
intros Hi Hj Hv. unfold valued in Hv. destruct (control_cases c q) as [E|E]; rewrite E in Hv.
- rewrite (op_at_Some _ _ _ Hi) in Hv. apply jump_word_not_testset in Hj.
  rewrite (is_op_op_of _ _ _ Hv) in Hj. by apply bool_decide_eq_false in Hj.
- split; [done|]. destruct (op_at_inv _ _ _ Hv) as (w & Hww & Ho). exists w.
  split; [done|]. rewrite (is_op_op_of _ _ _ Ho). by apply bool_decide_eq_true.
Qed.

Record patched (reg : Z) (q : Z) (F F' : FuncState) : Prop := {
pt_jext : jext F F';
pt_words : words_ok ms (f F');
pt_lists : forall L, glists (code (f F)) L -> glists (code (f F')) L;
pt_others : forall r, r <> q - 1 -> getZ (code (f F')) r = getZ (code (f F)) r;
pt_pending : forall j, getZ (code (f F')) (q - 1) = Some j -> ~ pending j;
pt_jumps : forall r j, getZ (code (f F)) r = Some j -> jump_word j ->
  getZ (code (f F')) r = Some j
}.

Lemma testset_word F q w :
words_ok ms (f F) -> getZ (code (f F)) q = Some w -> is_op w OP_TESTSET = true ->
is_u32 w /\ 0 <= GETARG_B w < ms.
Proof using Hms.
intros Hwords Hq Hop. destruct (Hwords _ _ Hq) as (Hu & o & Ho & [Hr _ _ _ _] & _).
split; [done|]. rewrite (is_op_op_of _ _ _ Ho), bool_decide_eq_true in Hop. subst o.
cbn [regs_of] in Hr. destruct (_ =? _).
- by apply Forall_inv in Hr.
- by apply Forall_inv_tail, Forall_inv in Hr.
Qed.

Lemma test_word_ok g n q b c :
0 <= b < ms -> 0 <= c <= MAXARG_C -> word_ok ms g n q (CREATE_ABC OP_TEST b 0 c).
Proof using Hms.
intros Hb Hc. change MAXSTACK with 250 in *.
apply word_ok_ABC; try done; maxargs; try lia. intros bx. split; cbn; try done; try by intros [|].
constructor; [lia|constructor].
Qed.

Lemma testset_word_ok g n q w reg :
word_ok ms g n q w -> is_op w OP_TESTSET = true -> 0 <= reg < ms ->
word_ok ms g n q (SETARG_A w reg) /\ ~ pending (SETARG_A w reg) /\
GET_OPCODE (SETARG_A w reg) = GET_OPCODE w.
Proof using Hms.
intros (Hu & o & Ho & [Hr Hc Hup Hp Hg] & Hj) Hop Hreg. change MAXSTACK with 250 in *.
rewrite (is_op_op_of _ _ _ Ho), bool_decide_eq_true in Hop. subst o.
destruct (SETARG_A_fields w reg Hu) as (H1 & H2 & H3 & H4 & H5 & H6); [maxargs; lia|].
split; [|split; [|done]].
- split; [done|]. exists OP_TESTSET. rewrite H2, H3, H4, H5, H6. split; [done|].
  split; [|done]. split; try done. cbn [regs_of] in *.
  rewrite (proj2 (Z.eqb_neq reg NO_REG)) by (unfold NO_REG; maxargs; lia).
  constructor; [done|]. destruct (_ =? NO_REG); [done|]. by apply Forall_inv_tail in Hr.
- intros [_ E]. rewrite H3 in E. unfold NO_REG in E. maxargs. lia.
Qed.

Lemma is_op_CREATE_TEST b c :
0 <= b <= MAXARG_A -> 0 <= c <= MAXARG_C -> is_op (CREATE_ABC OP_TEST b 0 c) OP_TEST = true.
Proof using.
intros Hb Hc. unfold is_op. by destruct (get_CREATE_ABC OP_TEST b 0 c) as (-> & _).
Qed.

Lemma patchtestreg_spec q i reg F :
words_ok ms (f F) -> getZ (code (f F)) q = Some i -> jump_word i ->
reg = NO_REG \/ 0 <= reg < ms ->
cgen s (patchtestreg q reg) F (fun b F' =>
  b = bool_decide (valued (code (f F)) q) /\ patched reg q F F').
Proof using Hms.
intros Hwords Hi Hj Hreg. unfold patchtestreg. eapply getjumpcontrol_spec; [done..|].
destruct (control_word _ _ _ Hi) as (w & Hw'). eapply cgen_code; [done|].
destruct (is_op w OP_TESTSET) eqn:Hop; cbn [negb].
- assert (Hv : valued (code (f F)) q) by (unfold valued; by eapply is_op_at).
  destruct (valued_control _ _ _ Hi Hj Hv) as (Ec & _). rewrite Ec in *.
  destruct (testset_word _ _ _ Hwords Hw' Hop) as (Hu & HB).
  assert (Hset : forall v, word_ok ms (f F) (pc F) (q - 1) v -> ~ pending v ->
      (op_of (GET_OPCODE v) = op_of (GET_OPCODE w) \/
       is_op w OP_TESTSET = true /\ is_op v OP_TEST = true) ->
      patched reg q F (upd_code F (q - 1) v)).
  { intros v Hv1 Hv2 Hv3. split.
    - by eapply jext_upd.
    - by apply words_ok_set.
    - intros L HgL. eapply glists_set_other; [done|done| |done].
      intros Hjw%jump_word_not_testset. congruence.
    - intros r Hr. by apply getZ_setZ_ne.
    - intros j Hjj. cbn in Hjj. rewrite getZ_setZ_eq in Hjj by (by apply getZ_Some in Hw').
      by injection Hjj as <-.
    - intros r j Hr Hjr. cbn. rewrite getZ_setZ_ne; [done|]. intros <-.
      rewrite Hw' in Hr. injection Hr as ->. apply jump_word_not_testset in Hjr. congruence. }
  rewrite (bool_decide_eq_true_2 _ Hv).
  destruct (negb (reg =? NO_REG) && negb (reg =? GETARG_B w)) eqn:E; bool_facts;
    (eapply cgen_bind; [eapply cgen_set with (Q := fun _ F' => patched reg q F F'); [done|]|
       intros [] F' HF'; by apply cgen_ret]).
  + destruct (testset_word_ok (f F) (pc F) (q - 1) w reg) as (H1 & H2 & H3); [by apply Hwords|done|lia|].
    apply Hset; [done|done|]. left. by rewrite H3.
  + pose proof (GETARG_C_range w). change MAXSTACK with 250 in *.
    assert (Hop' : is_op (CREATE_ABC OP_TEST (GETARG_B w) 0 (GETARG_C w)) OP_TEST = true)
      by (apply is_op_CREATE_TEST; maxargs; lia).
    apply Hset; [by apply test_word_ok| |by right].
    intros [Hp _]. apply is_op_true in Hp, Hop'. congruence.
- apply cgen_ret. rewrite bool_decide_eq_false_2.
  2:{ intros Hv. unfold valued in Hv. rewrite (op_at_Some _ _ _ Hw') in Hv.
      rewrite (is_op_op_of _ _ _ Hv) in Hop. by apply bool_decide_eq_false in Hop. }
  split; [done|]. split; try done.
  + apply jext_refl.
  + intros j Hjj [Hp _]. unfold control in Hw'. rewrite (op_at_Some _ _ _ Hjj) in Hw'.
    pose proof (is_op_true _ _ Hp) as Ho. rewrite Ho in Hw'.
    change (testTMode OP_TESTSET) with true in Hw'. congruence.
Qed.

Lemma fixjump_spec q i dest F :
getZ (code (f F)) q = Some i ->
cgen s (fixjump q dest) F (fun _ F' =>
  F' = upd_code F q (SETARG_sBx i (dest - (q + 1))) /\ Z.abs (dest - (q + 1)) <= MAXARG_sBx).
Proof using HL Hw.
intros Hi. unfold fixjump. apply cgen_if; intros; bool_facts; [by apply cgen_syntaxerror|].
eapply cgen_code; [done|]. by eapply cgen_set.
Qed.

(** A jump with a new offset *)
Lemma jump_set_ok F q i v :
words_ok ms (f F) -> getZ (code (f F)) q = Some i -> jump_word i ->
0 <= q + 1 + v <= pc F -> - MAXARG_sBx <= v <= MAXARG_sBx ->
word_ok ms (f F) (pc F) q (SETARG_sBx i v) /\ jump_word (SETARG_sBx i v) /\
GETARG_sBx (SETARG_sBx i v) = v /\ GET_OPCODE (SETARG_sBx i v) = GET_OPCODE i.
Proof using Hms.
intros Hwords Hi (Hu & o & Ho & Hm) Hd Hv.
destruct (SETARG_sBx_fields i v Hu Hv) as (H1 & H2 & H3 & H4).
split_and!; try done.
- destruct (Hwords _ _ Hi) as (_ & o' & Ho' & [Hr Hc Hup Hp Hg] & _).
  rewrite Ho in Ho'. injection Ho' as <-. split; [done|]. exists o. rewrite H2. split; [done|].
  rewrite H3. split; [|intros _; unfold jdest; by rewrite H4].
  destruct o; try done; split; try done; by intros [|].
- split; [done|]. exists o. by rewrite H2.
Qed.

Lemma not_pending_jump i : jump_word i -> ~ pending i.
Proof using. intros Hj%jump_word_not_testset [Hp _]. congruence. Qed.

(** The first jump of a list is patched and leaves the list. *)
Lemma patch_head_spec p ps i L v reg d F :
words_ok ms (f F) -> glists (code (f F)) ((p, p :: ps) :: L) ->
getZ (code (f F)) p = Some i -> jump_word i ->
reg = NO_REG \/ 0 <= reg < ms -> 0 <= v <= pc F ->
0 <= d <= pc F \/ valued (code (f F)) p ->
cgen s (patched ← patchtestreg p reg; fixjump p (if (patched : bool) then v else d)) F
  (fun _ F' => jext F F' /\ words_ok ms (f F') /\ glists (code (f F')) ((jnext p i, ps) :: L) /\
     (forall q, q <> p -> q <> p - 1 -> getZ (code (f F')) q = getZ (code (f F)) q) /\
     (forall q j, q <> p -> getZ (code (f F)) q = Some j -> jump_word j ->
        getZ (code (f F')) q = Some j) /\
     goes_to (code (f F')) p (if bool_decide (valued (code (f F)) p) then v else d)).
Proof using HL Hms Hw.
intros Hwords Hgl Hi Hj Hreg Hv Hd.
eapply cgen_bind; [by eapply patchtestreg_spec|]. intros b F1 (-> & [He1 Hw1 Hl1 Ho1 Hp1 Hj1]).
assert (Hi1 : getZ (code (f F1)) p = Some i) by (rewrite Ho1 by lia; done).
eapply cgen_mono; [by apply fixjump_spec|]. intros [] F2 (-> & Hoff).
set (dest := if bool_decide (valued (code (f F)) p) then v else d) in *.
assert (Hdest : 0 <= dest <= pc F1).
{ rewrite (jext_pc _ _ He1). unfold dest. case_bool_decide; [done|]. destruct Hd; done. }
destruct (jump_set_ok F1 p i (dest - (p + 1))) as (H1 & H2 & H3 & H4); [done..|lia|lia|].
split; [|split; [|split; [|split; [|split]]]].
- eapply jext_trans; [done|]. eapply jext_upd; [done|]. left. by rewrite H4.
- by apply words_ok_set.
- eapply glists_unlink; [by apply Hl1|done|by apply not_pending_jump|done].
- intros q Hq1 Hq2. cbn. rewrite getZ_setZ_ne by done. apply Ho1. lia.
- intros q j Hq Hqj Hjj. cbn. rewrite getZ_setZ_ne by done. by apply Hj1.
- exists (SETARG_sBx i (dest - (p + 1))). cbn. rewrite getZ_setZ_eq by (by apply getZ_Some in Hi1).
  split; [done|]. split; [done|]. unfold jdest. rewrite H3. lia.
Qed.

Lemma valued_ext F F' q i :
jext F F' -> getZ (code (f F)) q = Some i -> jump_word i ->
getZ (code (f F')) (q - 1) = getZ (code (f F)) (q - 1) ->
valued (code (f F)) q -> valued (code (f F')) q.
Proof using.
intros He Hi Hj Hq Hv. destruct (valued_control _ _ _ Hi Hj Hv) as (Ec & _).
unfold valued in *. rewrite (control_ext _ _ _ (jext_ops _ _ He)), Ec in *.
unfold op_at in *. by rewrite Hq.
Qed.

Lemma elem_of_positions (L : list (Z * list Z)) l ps q : (l, ps) ∈ L -> q ∈ ps -> q ∈ positions L.
Proof using.
intros HL' Hq. unfold positions. apply list_elem_of_In, in_concat. exists ps.
split; [|by apply list_elem_of_In]. change ps with ((l, ps).2).
apply (in_map (B := list Z) snd). by apply list_elem_of_In.
Qed.

Lemma jl_jumps c c' l ps :
(forall r j, getZ c r = Some j -> jump_word j -> getZ c' r = Some j) -> jl c l ps -> jl c' l ps.
Proof using.
intros Hr Hl. eapply jl_frame; [|done]. intros q Hq.
destruct (jl_word _ _ _ _ Hl Hq) as (j & Hj & Hjw). rewrite Hj. by apply Hr.
Qed.

Lemma positions_word c L q :
Forall (fun x => jl c x.1 x.2) L -> q ∈ positions L ->
exists j, getZ c q = Some j /\ jump_word j.
Proof using.
intros Hall Hq. unfold positions in Hq. apply list_elem_of_In, in_concat in Hq.
destruct Hq as (qs & Hqs & Hq). apply list_elem_of_In, list_elem_of_fmap in Hqs.
destruct Hqs as ([l' qs'] & -> & Hin). rewrite Forall_forall in Hall.
apply list_elem_of_In in Hin, Hq. eapply jl_word; [by apply (Hall _ Hin)|done].
Qed.

(** Patching the first jump leaves the other jumps with their controls. *)
Lemma valued_rest c c' p ps L i q :
glists c ((p, p :: ps) :: L) -> getZ c p = Some i -> jump_word i -> ops_ext c c' ->
(forall q, q <> p -> q <> p - 1 -> getZ c' q = getZ c q) ->
q ∈ ps ++ positions L -> valued c q -> valued c' q.
Proof using.
intros Hgl Hi Hj He Ho Hq Hval. pose proof (gl_nodup _ _ Hgl) as Hnd.
rewrite positions_cons in Hnd. cbn in Hnd. apply list.NoDup_cons in Hnd as [Hnp _].
assert (Hqp : q <> p) by (intros ->; done).
destruct (positions_word c ((p, p :: ps) :: L) q) as (j & Hj' & Hjw); [apply Hgl| |].
{ rewrite positions_cons. cbn. apply elem_of_cons. by right. }
destruct (valued_control _ _ _ Hj' Hjw Hval) as (Ec & w & Hww & Hop).
unfold valued in *. rewrite (control_ext _ _ _ He), Ec in *. unfold op_at.
rewrite Ho; [done| |lia]. intros E. rewrite E, Hi in Hww. injection Hww as <-.
apply jump_word_not_testset in Hj. congruence.
Qed.

Lemma glists_nil c l L : glists c ((l, []) :: L) -> l = NO_JUMP /\ glists c L.
Proof using.
intros [Hg1 Hg2 Hg3]. split; [by apply Forall_inv in Hg1|].
split; [by apply Forall_inv_tail in Hg1|done|done].
Qed.

Lemma glists_cons c l p ps L :
glists c ((l, p :: ps) :: L) ->
l = p /\ (exists i, getZ c p = Some i /\ jump_word i) /\ p <> NO_JUMP.
Proof using.
intros Hgl. destruct (Forall_inv (gl_jl _ _ Hgl)) as (E & i & Hi & Hj & Hl). cbn in E, Hi.
split; [done|]. split; [eauto|]. apply getZ_Some in Hi. unfold NO_JUMP. lia.
Qed.

Lemma valued_back c c' q : ops_ext c c' -> valued c' q -> valued c q.
Proof using.
intros He Hv. unfold valued in *. rewrite (control_ext _ _ _ He) in Hv.
destruct (He (control c q)) as [<-|[? E]]; [done|]. rewrite E in Hv. done.
Qed.

(** The jumps of [ps] go to [v] when they have a value, to [d] otherwise; only
    they and their controls are changed. *)
Record list_patched (ps : list Z) (v d : Z) (c c' : list Z) : Prop := {
lp_dest : forall q, q ∈ ps -> goes_to c' q (if bool_decide (valued c q) then v else d);
lp_jumps : forall q j, q ∉ ps -> getZ c q = Some j -> jump_word j -> getZ c' q = Some j;
lp_frame : forall q, q ∉ ps -> q + 1 ∉ ps -> getZ c' q = getZ c q
}.

Lemma list_patched_nil v d c : list_patched [] v d c c.
Proof using. split; try done. intros q Hq. by apply not_elem_of_nil in Hq. Qed.

Lemma list_patched_cons p ps v d c c1 c2 L i :
glists c ((p, p :: ps) :: L) -> getZ c p = Some i -> jump_word i -> ops_ext c c1 ->
(forall q, q <> p -> q <> p - 1 -> getZ c1 q = getZ c q) ->
(forall q j, q <> p -> getZ c q = Some j -> jump_word j -> getZ c1 q = Some j) ->
goes_to c1 p (if bool_decide (valued c p) then v else d) ->
list_patched ps v d c1 c2 -> list_patched (p :: ps) v d c c2.
Proof using.
intros Hgl Hi Hj He Ho Hjs (j & Hj1 & Hjw & Hd) [Hp2 Hj2 Hf2].
pose proof (gl_nodup _ _ Hgl) as Hnd. rewrite positions_cons in Hnd. cbn in Hnd.
apply list.NoDup_cons in Hnd as [Hnp _].
assert (Hps : p ∉ ps) by (intros Hin; apply Hnp, elem_of_app; by left).
split.
- intros q [->|Hq]%elem_of_cons.
  + exists j. split; [|done]. by apply Hj2.
  + destruct (Hp2 q Hq) as (j' & Hj' & Hw' & Hd'). exists j'. split; [done|]. split; [done|]. rewrite Hd'.
    assert (E : valued c1 q <-> valued c q); [|by rewrite (bool_decide_ext _ _ E)].
    split; [by apply valued_back|]. eapply valued_rest; try done. apply elem_of_app. by left.
- intros q j' [Hqp Hq]%not_elem_of_cons Hqj Hjj. apply Hj2; [done| |done]. by apply Hjs.
- intros q [Hqp Hq]%not_elem_of_cons [Hqp' Hq']%not_elem_of_cons. rewrite Hf2 by done. apply Ho; lia.
Qed.

Lemma patchlistaux_loop_spec fuel l ps L v reg d F :
words_ok ms (f F) -> glists (code (f F)) ((l, ps) :: L) -> (length ps <= fuel)%nat ->
reg = NO_REG \/ 0 <= reg < ms -> 0 <= v <= pc F ->
0 <= d <= pc F \/ (forall q, q ∈ ps -> valued (code (f F)) q) ->
cgen s (patchlistaux_loop fuel l v reg d) F (fun _ F' =>
  jext F F' /\ words_ok ms (f F') /\ glists (code (f F')) L /\
  (forall q, q ∈ positions L -> valued (code (f F)) q -> valued (code (f F')) q) /\
  list_patched ps v d (code (f F)) (code (f F'))).
Proof using HL Hms Hw.
revert l ps F. induction fuel as [|fuel IH]; intros l ps F Hwords Hgl Hf Hreg Hv Hd;
  (destruct ps as [|p ps]; [|try (cbn in Hf; lia)]); cbn [patchlistaux_loop].
1,2: destruct (glists_nil _ _ _ Hgl) as [-> Hgl']; rewrite Z.eqb_refl; apply cgen_ret;
  split_and!; try done; [apply jext_refl|apply list_patched_nil].
destruct (glists_cons _ _ _ _ _ Hgl) as (-> & (i & Hi & Hj) & Hne).
rewrite (proj2 (Z.eqb_neq p NO_JUMP)) by done.
eapply getjump_spec; [done|].
apply (cgen_group s (patchtestreg p reg) (fun b => fixjump p (if (b : bool) then v else d))
         (fun _ => patchlistaux_loop fuel (jnext p i) v reg d)).
eapply cgen_bind; [eapply patch_head_spec; try done|].
{ destruct Hd as [|Hd]; [by left|]. right. apply Hd, elem_of_cons. by left. }
cbv beta. intros [] F1 (He1 & Hw1 & Hg1 & Ho1 & Hj1 & Hd1).
assert (Hval : forall q, q ∈ ps ++ positions L -> valued (code (f F)) q -> valued (code (f F1)) q).
{ intros q. eapply valued_rest; try done. by apply jext_ops. }
eapply cgen_mono; [apply (IH _ ps); try done|].
- cbn in Hf. lia.
- by rewrite (jext_pc _ _ He1).
- rewrite (jext_pc _ _ He1). destruct Hd as [|Hd]; [by left|]. right. intros q Hq.
  apply Hval; [apply elem_of_app; by left|]. apply Hd, elem_of_cons. by right.
- cbv beta. intros [] F2 (He2 & Hw2 & Hg2 & Hv2 & Hp2). split_and!; try done.
  + by eapply jext_trans.
  + intros q Hq Hqv. apply Hv2; [done|]. apply Hval; [apply elem_of_app; by right|done].
  + eapply list_patched_cons; try done. by apply jext_ops.
Qed.

Lemma fst_cons_inv (L : list (Z * list Z)) l R :
L.*1 = l :: R -> exists ps L', L = (l, ps) :: L' /\ L'.*1 = R.
Proof using. destruct L as [|[l' ps] L']; [done|]. cbn. intros [= -> HL']. eauto. Qed.

Lemma positions_head_len c l ps L :
glists c ((l, ps) :: L) -> (length ps <= length c)%nat.
Proof using.
intros Hgl. pose proof (positions_lenZ _ _ Hgl) as Hlen. rewrite positions_cons, length_app in Hlen. lia.
Qed.

Lemma patchlistaux_lists l ps L v reg d F :
words_ok ms (f F) -> glists (code (f F)) ((l, ps) :: L) ->
reg = NO_REG \/ 0 <= reg < ms -> 0 <= v <= pc F ->
0 <= d <= pc F \/ (forall q, q ∈ ps -> valued (code (f F)) q) ->
cgen s (patchlistaux l v reg d) F (fun _ F' =>
  jext F F' /\ words_ok ms (f F') /\ glists (code (f F')) L /\
  (forall q, q ∈ positions L -> valued (code (f F)) q -> valued (code (f F')) q) /\
  list_patched ps v d (code (f F)) (code (f F'))).
Proof using HL Hms Hw.
intros Hwords Hgl Hreg Hv Hd. unfold patchlistaux. apply cgen_get.
apply patchlistaux_loop_spec; try done.
unfold jumps. pose proof (positions_head_len _ _ _ _ Hgl). lia.
Qed.

Lemma patchlistaux_spec l R v reg d F :
words_ok ms (f F) -> jlists (code (f F)) (l :: R) ->
reg = NO_REG \/ 0 <= reg < ms -> 0 <= v <= pc F ->
0 <= d <= pc F \/ allvalue (code (f F)) l ->
cgen s (patchlistaux l v reg d) F (fun _ F' =>
  jext F F' /\ words_ok ms (f F') /\ jlists (code (f F')) R /\
  (forall l', l' ∈ R -> allvalue (code (f F)) l' -> allvalue (code (f F')) l') /\
  (forall ps, jl (code (f F)) l ps -> list_patched ps v d (code (f F)) (code (f F')))).
Proof using HL Hms Hw.
intros Hwords (L & HL' & Hgl) Hreg Hv Hd. destruct (fst_cons_inv _ _ _ HL') as (ps & L' & -> & <-).
pose proof (gl_jl _ _ Hgl) as Hjl. pose proof (Forall_inv Hjl) as Hj0. cbn in Hj0.
eapply cgen_mono; [eapply patchlistaux_lists; try done|].
- destruct Hd as [|Hd]; [by left|]. right. intros q Hq. by apply (Hd ps).
- cbv beta. intros [] F' (He & Hw' & Hg' & Hval & Hpt). split_and!; try done; [by eexists| |].
  2:{ intros qs Hqs. by rewrite (jl_det _ _ _ _ Hqs Hj0). }
  intros l' Hl' Hall qs Hqs q Hq. apply list_elem_of_fmap in Hl'. destruct Hl' as ([l1 ps1] & -> & Hin).
  cbn in *. pose proof (gl_jl _ _ Hg') as Hj'. rewrite Forall_forall in Hjl, Hj'.
  pose proof (Hj' _ (proj1 (list_elem_of_In _ _) Hin)) as H1. cbn in H1.
  rewrite (jl_det _ _ _ _ Hqs H1) in Hq. apply Hval; [by eapply elem_of_positions|].
  apply (Hall ps1); [|done]. apply (Hjl (l1, ps1)). right. by apply list_elem_of_In.
Qed.

Lemma need_value_loop_spec fuel l ps F :
words_ok ms (f F) -> jl (code (f F)) l ps -> (length ps <= fuel)%nat ->
cgen s (need_value_loop fuel l) F (fun b F' =>
  F' = F /\ (b = false -> forall q, q ∈ ps -> valued (code (f F)) q)).
Proof using HL Hms Hw.
intros Hwords. revert l ps. induction fuel as [|fuel IH]; intros l ps Hl Hf;
  (destruct ps as [|p ps]; [|try (cbn in Hf; lia)]); cbn [need_value_loop].
1,2: cbn in Hl; subst l; rewrite Z.eqb_refl; apply cgen_ret; split; [done|];
  intros _ q Hq; by apply not_elem_of_nil in Hq.
destruct Hl as (-> & i & Hi & Hj & Hl). pose proof (getZ_Some _ _ _ Hi).
rewrite (proj2 (Z.eqb_neq p NO_JUMP)) by (unfold NO_JUMP; lia).
eapply getjumpcontrol_spec; [done..|]. destruct (control_word _ _ _ Hi) as (w & Hw').
eapply cgen_code; [done|]. apply cgen_if; intros Hop; bool_facts; [by apply cgen_ret|].
eapply getjump_spec; [done|]. eapply cgen_mono; [apply (IH _ ps); [done|cbn in Hf; lia]|].
cbv beta. intros b F' (-> & Hb). split; [done|]. intros Hbf q [->|Hq]%elem_of_cons; [|by apply Hb].
by eapply is_op_at.
Qed.

Lemma need_value_spec l R F :
words_ok ms (f F) -> jlists (code (f F)) (l :: R) ->
cgen s (need_value l) F (fun b F' => F' = F /\ (b = false -> allvalue (code (f F)) l)).
Proof using HL Hms Hw.
intros Hwords (L & HL' & Hgl). destruct (fst_cons_inv _ _ _ HL') as (ps & L' & -> & <-).
unfold need_value. apply cgen_get. pose proof (Forall_inv (gl_jl _ _ Hgl)) as Hjl. cbn in Hjl.
eapply cgen_mono; [eapply need_value_loop_spec; try done|].
- unfold jumps. pose proof (positions_head_len _ _ _ _ Hgl). lia.
- cbv beta. intros b F' (-> & Hb). split; [done|]. intros Hbf qs Hqs q Hq.
  rewrite (jl_det _ _ _ _ Hqs Hjl) in Hq. by apply Hb.
Qed.

Lemma removevalues_loop_spec fuel l ps L F :
words_ok ms (f F) -> glists (code (f F)) L -> jl (code (f F)) l ps -> (length ps <= fuel)%nat ->
NoDup ps ->
cgen s (removevalues_loop fuel l) F (fun _ F' =>
  jext F F' /\ words_ok ms (f F') /\ glists (code (f F')) L /\
  (forall r j, getZ (code (f F)) r = Some j -> jump_word j -> getZ (code (f F')) r = Some j)).
Proof using HL Hms Hw.
revert l ps F. induction fuel as [|fuel IH]; intros l ps F Hwords Hgl Hl Hf Hnd;
  (destruct ps as [|p ps]; [|try (cbn in Hf; lia)]); cbn [removevalues_loop].
1,2: cbn in Hl; subst l; rewrite Z.eqb_refl; apply cgen_ret; split_and!; try done; apply jext_refl.
destruct Hl as (-> & i & Hi & Hj & Hl). pose proof (getZ_Some _ _ _ Hi).
rewrite (proj2 (Z.eqb_neq p NO_JUMP)) by (unfold NO_JUMP; lia).
eapply cgen_bind; [eapply patchtestreg_spec; try done; by left|].
cbv beta. intros b F1 (_ & [He1 Hw1 Hl1 Ho1 _ Hj1]).
eapply getjump_spec; [by eapply Hj1|].
eapply cgen_mono; [apply (IH _ ps); [done|by apply Hl1| |cbn in Hf; lia|by apply list.NoDup_cons in Hnd as [_ Hnd]]|].
- eapply jl_jumps; done.
- cbv beta. intros [] F2 (He2 & Hw2 & Hg2 & Hj2). split_and!; try done; [by eapply jext_trans|auto].
Qed.

Lemma removevalues_spec l R F :
words_ok ms (f F) -> jlists (code (f F)) (l :: R) ->
cgen s (removevalues l) F (fun _ F' =>
  jext F F' /\ words_ok ms (f F') /\ jlists (code (f F')) (l :: R) /\
  (forall r j, getZ (code (f F)) r = Some j -> jump_word j -> getZ (code (f F')) r = Some j)).
Proof using HL Hms Hw.
intros Hwords (L & HL' & Hgl). destruct (fst_cons_inv _ _ _ HL') as (ps & L' & -> & <-).
unfold removevalues. apply cgen_get. pose proof (Forall_inv (gl_jl _ _ Hgl)) as Hjl. cbn in Hjl.
pose proof (gl_nodup _ _ Hgl) as Hnd. rewrite positions_cons in Hnd. apply list.NoDup_app in Hnd.
eapply cgen_mono; [eapply removevalues_loop_spec; try done; [|apply Hnd]|].
- unfold jumps. pose proof (positions_head_len _ _ _ _ Hgl). lia.
- cbv beta. intros [] F' (He & Hw' & Hg' & Hj'). split_and!; try done. by eexists.
Qed.

(** ** Joining lists *)

Lemma lastjump_spec fuel l ps F :
jl (code (f F)) l ps -> ps <> [] -> (length ps <= fuel)%nat ->
cgen s (lastjump fuel l) F (fun q F' => F' = F /\ exists qs, ps = qs ++ [q]).
Proof using.
revert l ps. induction fuel as [|fuel IH]; intros l ps Hl Hne Hf;
  (destruct ps as [|p ps]; [done|]); [cbn in Hf; lia|]. cbn [lastjump].
destruct Hl as (-> & i & Hi & Hj & Hl). eapply getjump_spec; [done|].
destruct ps as [|p' ps].
- cbn in Hl. rewrite Hl, Z.eqb_refl. apply cgen_ret. split; [done|]. by exists [].
- pose proof Hl as (E & i' & Hi' & _). pose proof (getZ_Some _ _ _ Hi').
  rewrite (proj2 (Z.eqb_neq _ _)) by (unfold NO_JUMP; lia).
  eapply cgen_mono; [apply (IH _ (p' :: ps)); [done|done|cbn in *; lia]|].
  cbv beta. intros q F' (-> & qs & ->). split; [done|]. by exists (p :: qs).
Qed.

Lemma jl_append c l1 qs q ps i v l2 :
jl c l1 (qs ++ [q]) -> getZ c q = Some i -> q ∉ qs -> q ∉ ps -> jump_word v ->
jnext q v = l2 -> jl c l2 ps -> jl (setZ c q v) l1 (qs ++ q :: ps).
Proof using.
intros Hl Hi Hq1 Hq2 Hv Hn Hl2. revert l1 Hl. induction qs as [|r qs IH]; intros l1 Hl.
- cbn in *. destruct Hl as (-> & _). split; [done|]. exists v.
  split; [apply getZ_setZ_eq; by apply getZ_Some in Hi|]. split; [done|]. rewrite Hn.
  eapply jl_frame; [|done]. intros r Hr. apply getZ_setZ_ne. by intros ->.
- cbn in *. destruct Hl as (-> & j & Hj & Hjw & Hl). apply not_elem_of_cons in Hq1 as [Hqr Hq1].
  split; [done|]. exists j. rewrite getZ_setZ_ne by done. auto.
Qed.

(** Appending one list to another *)
Lemma luaK_concat_lists l1 ps1 l2 ps2 L F :
words_ok ms (f F) -> glists (code (f F)) ((l1, ps1) :: (l2, ps2) :: L) ->
cgen s (luaK_concat l1 l2) F (fun l F' =>
  jext F F' /\ words_ok ms (f F') /\ glists (code (f F')) ((l, ps1 ++ ps2) :: L) /\
  (l1 <> NO_JUMP -> l = l1) /\
  (forall r j, getZ (code (f F')) r = Some j -> getZ (code (f F)) r = Some j \/ jdest r j < pc F) /\
  (forall r j, getZ (code (f F)) r = Some j -> ~ jump_word j -> getZ (code (f F')) r = Some j)).
Proof using HL Hms Hw.
intros Hwords Hgl. pose proof (gl_jl _ _ Hgl) as Hjl. pose proof (Forall_inv Hjl) as Hj1. cbn in Hj1.
apply Forall_inv_tail in Hjl. pose proof (Forall_inv Hjl) as Hj2. cbn in Hj2.
apply Forall_inv_tail in Hjl.
unfold luaK_concat. apply cgen_if; intros E2; bool_facts.
{ subst l2. apply cgen_ret. split; [apply jext_refl|]. split; [done|]. split; [|split_and!; try done; auto].
  rewrite (jl_NO_JUMP _ _ Hj2) in *. rewrite app_nil_r. by apply (glists_drop2 _ _ NO_JUMP). }
apply cgen_if; intros E1; bool_facts.
{ subst l1. apply cgen_ret. split; [apply jext_refl|]. split; [done|]. split; [|split_and!; try done; auto].
  rewrite (jl_NO_JUMP _ _ Hj1) in *. by apply (glists_nil _ NO_JUMP). }
apply cgen_get. eapply cgen_bind; [eapply lastjump_spec; [done| |]|].
- intros ->. by cbn in Hj1.
- unfold jumps. pose proof (positions_head_len _ _ _ _ Hgl). lia.
- cbv beta. intros q F' (-> & qs & ->).
  assert (Hq : q ∈ qs ++ [q]) by (apply elem_of_app; right; by apply list_elem_of_singleton).
  destruct (jl_word _ _ _ _ Hj1 Hq) as (i & Hi & Hjw).
  pose proof (gl_nodup _ _ Hgl) as Hnd. rewrite !positions_cons in Hnd.
  eapply cgen_bind; [by apply fixjump_spec|]. cbv beta. intros [] F' (-> & Hoff).
  apply cgen_ret.
  assert (Hps2 : exists ps2', ps2 = l2 :: ps2').
  { destruct ps2 as [|r ps2]; [by cbn in Hj2|]. destruct Hj2 as (-> & _). eauto. }
  destruct Hps2 as (ps2' & ->).
  assert (Hl2 : 0 <= l2 < pc F) by (eapply jl_range; [exact Hj2|]; apply elem_of_cons; by left).
  rewrite <- app_assoc in Hnd. apply list.NoDup_app in Hnd as (Hn1 & Hn2 & Hn3).
  apply list.NoDup_cons in Hn3 as [Hn3 Hn4].
  assert (Hne : l2 <> q) by (intros ->; apply Hn3; cbn; apply elem_of_cons; by left).
  destruct (jump_set_ok F q i (l2 - (q + 1))) as (H1 & H2 & H3 & H4); [done..|lia|lia|].
  split; [|split; [|split; [|split; [done|split]]]].
  5:{ intros r j Hr Hjr. cbn. rewrite getZ_setZ_ne; [done|]. intros <-. congruence. }
  4:{ intros r j Hr. cbn in Hr. destruct (decide (r = q)) as [->|]; [right|left; by rewrite getZ_setZ_ne in Hr by done].
      rewrite getZ_setZ_eq in Hr by (by apply getZ_Some in Hi). injection Hr as <-. unfold jdest. rewrite H3. lia. }
  + eapply jext_upd; [done|]. left. by rewrite H4.
  + by apply words_ok_set.
  + rewrite <- app_assoc. change ([q] ++ l2 :: ps2') with (q :: l2 :: ps2').
    assert (Hqs : q ∉ qs) by (intros Hin; apply (Hn2 _ Hin), elem_of_cons; by left).
    assert (Hqp : q ∉ l2 :: ps2') by (intros Hin; apply Hn3, elem_of_app; by left).
    assert (HqL : q ∉ positions L) by (intros Hin; apply Hn3, elem_of_app; by right).
    split.
    * constructor; [cbn; apply (jl_append _ _ _ _ _ i _ l2); try done|].
      { unfold jnext. rewrite H3. unfold jdest. rewrite H3.
        destruct (Z.eqb_spec (l2 - (q + 1)) NO_JUMP) as [E|]; [unfold NO_JUMP in E|]; lia. }
      rewrite Forall_forall in Hjl |- *. intros [l ls] Hin. pose proof (Hjl _ Hin) as Hl. cbn in *.
      eapply jl_frame; [|done]. intros r Hr. apply getZ_setZ_ne. intros <-. apply HqL.
      eapply elem_of_positions; [|done]. by apply list_elem_of_In.
    * rewrite positions_cons. rewrite <- app_assoc. apply list.NoDup_app. split; [done|].
      split; [|by apply list.NoDup_cons].
      intros x Hx Hin. apply (Hn2 x Hx). done.
    * intros r j Hr Hp. cbn in Hr. destruct (decide (r = q)) as [->|].
      { rewrite getZ_setZ_eq in Hr by (by apply getZ_Some in Hi). injection Hr as <-.
        by apply not_pending_jump in H2. }
      rewrite getZ_setZ_ne in Hr by done. pose proof (gl_pending _ _ Hgl _ _ Hr Hp) as Hin.
      rewrite !positions_cons in Hin. rewrite positions_cons. rewrite <- !app_assoc in *. done.
Qed.

Lemma luaK_concat_spec l1 l2 R F :
words_ok ms (f F) -> jlists (code (f F)) (l1 :: l2 :: R) ->
cgen s (luaK_concat l1 l2) F (fun l F' =>
  jext F F' /\ words_ok ms (f F') /\ jlists (code (f F')) (l :: R) /\
  (l1 <> NO_JUMP -> l = l1) /\
  (forall r j, getZ (code (f F')) r = Some j -> getZ (code (f F)) r = Some j \/ jdest r j < pc F) /\
  (forall r j, getZ (code (f F)) r = Some j -> ~ jump_word j -> getZ (code (f F')) r = Some j)).
Proof using HL Hms Hw.
intros Hwords (L & HL' & Hgl). destruct (fst_cons_inv _ _ _ HL') as (ps1 & L1 & -> & HL1).
destruct (fst_cons_inv _ _ _ HL1) as (ps2 & L2 & -> & <-).
eapply cgen_mono; [by apply luaK_concat_lists|]. cbv beta. intros l F' (He & Hw' & Hg & Hl & Hd & Hk).
split_and!; try done. by exists ((l, ps1 ++ ps2) :: L2).
Qed.
End jumps.
