(* ===== verification/CodeEmit.v ===== *)
(** * The code generator keeps the invariant

    Every function of lcode.c, from a function under construction that
    satisfies [ok] to another one: emitted words are instructions with
    operands in range, jump lists stay disjoint, registers are used as a
    stack.  [exp_ok F r e r'] describes an expression whose temporaries are
    the registers from [r] to [r'] - 1. *)

From S2P Require Import Prelude Mem Clib Opcodes Object Debug Zio Lex Code JumpLists CodeJumps.
From S2P Require LexFacts.

Definition ok (F : FuncState) (R : list Z) : Prop := finv (maxstacksize (f F)) F R.

(** ** The invariant under small changes *)

Lemma finv_perm ms F R R' : R ≡ₚ R' -> finv ms F R -> finv ms F R'.
Proof.
  intros HR []. split; try done. eapply jlists_perm; [|done]. by rewrite HR.
Qed.

Lemma finv_lists ms F R R' :
  jlists (code (f F)) (jpc F :: (breaklist <$> bl F) ++ R') -> finv ms F R -> finv ms F R'.
Proof. intros Hl []. by split. Qed.

Lemma roots_cons F l R :
  jpc F :: (breaklist <$> bl F) ++ l :: R ≡ₚ l :: jpc F :: (breaklist <$> bl F) ++ R.
Proof. rewrite <- Permutation_middle. apply Permutation_swap. Qed.

Lemma finv_root ms F l R :
  finv ms F (l :: R) -> jlists (code (f F)) (l :: jpc F :: (breaklist <$> bl F) ++ R).
Proof. intros H. eapply jlists_perm; [|apply H]. apply roots_cons. Qed.

Lemma finv_nojump ms F R : finv ms F (NO_JUMP :: R) <-> finv ms F R.
Proof.
  split; intros H.
  - eapply finv_lists; [|exact H]. apply jlists_nojump. by apply (finv_root ms).
  - eapply finv_lists; [|exact H]. eapply jlists_perm; [symmetry; apply roots_cons|].
    apply jlists_nojump, H.
Qed.

Lemma vars_ok_static F F' : static F' = static F -> vars_ok F -> vars_ok F'.
Proof.
  unfold static. intros Hs [V1 V2 V3 V4 V5 V6 V7].
  injection Hs as Hn Hb Hu Ha Hp Hl Hup _ _ _ Hnu _ _. unfold nlocvars, sizelocvars, sizeupvalues in *.
  split; unfold nlocvars, sizelocvars, sizeupvalues;
    rewrite ?Hn, ?Hb, ?Hu, ?Ha, ?Hp, ?Hl, ?Hup, ?Hnu; done.
Qed.

Lemma finv_jext ms F F' R R' :
  finv ms F R -> jext F F' -> words_ok ms (f F') ->
  jlists (code (f F')) (jpc F' :: (breaklist <$> bl F') ++ R') -> finv ms F' R'.
Proof.
  intros [] (c' & -> & Hl & _) Hw Hj. split; try done; cbn in *; unfold pc, sizecode in *; cbn in *;
    try lia. by apply (vars_ok_static F).
Qed.

Lemma cext_refl F : cext F F.
Proof. split; try done. exists []. by rewrite app_nil_r. Qed.

Lemma cext_trans F1 F2 F3 : cext F1 F2 -> cext F2 F3 -> cext F1 F3.
Proof.
  intros [H1 [l1 K1] M1 P1 T1] [H2 [l2 K2] M2 P2 T2]. split; try congruence; try lia; [|auto].
  exists (l1 ++ l2). by rewrite K2, K1, app_assoc.
Qed.

Lemma jext_cext F F' : jext F F' -> cext F F'.
Proof.
  intros He. pose proof (jext_pc _ _ He) as Hpc. pose proof (jext_ops _ _ He) as Ho.
  destruct He as (c' & -> & Hl & _). split; try done.
  - exists []. by rewrite app_nil_r.
  - lia.
  - intros q Hq. destruct (Ho q) as [->|[E _]]; congruence.
Qed.

(** What an emission keeps besides *)
Definition kept (F F' : FuncState) : Prop :=
  cext F F' /\ freereg F' = freereg F /\ maxstacksize (f F') = maxstacksize (f F).

Lemma kept_refl F : kept F F.
Proof. split; [apply cext_refl|done]. Qed.

Lemma kept_trans F1 F2 F3 : kept F1 F2 -> kept F2 F3 -> kept F1 F3.
Proof. intros (H1 & E1 & M1) (H2 & E2 & M2). split; [by eapply cext_trans|]. split; congruence. Qed.

Lemma jext_kept F F' : jext F F' -> kept F F'.
Proof. intros He. split; [by apply jext_cext|]. by destruct He as (c' & -> & _). Qed.

Lemma kept_nactvar F F' : kept F F' -> nactvar F' = nactvar F.
Proof. intros [[Hs _ _ _ _] _]. by injection Hs. Qed.

(** The jumps of the code go to existing instructions. *)
Definition strict (F : FuncState) : Prop :=
  forall q i, getZ (code (f F)) q = Some i -> jump_word i -> jdest q i < pc F.

(** The function with one more instruction *)
Definition emit (F : FuncState) (i line : Z) : FuncState :=
  with_f (with_code (code (f F) ++ [i]) (lineinfo (f F) ++ [line]) (f F)) F.

Lemma emit_cext F i line : cext F (emit F i line).
Proof.
  split; try done.
  - exists []. by rewrite app_nil_r.
  - unfold pc, sizecode. cbn. rewrite lenZ_app. pose proof (lenZ_nonneg [i]). lia.
  - intros q Hq. destruct (op_at_inv _ _ _ Hq) as (w & Hw & Ho). cbn.
    by rewrite (op_at_Some _ _ w) by (by apply getZ_prefix).
Qed.

Lemma emit_pc F i line : pc (emit F i line) = pc F + 1.
Proof. unfold pc, sizecode. cbn. rewrite lenZ_app. done. Qed.

Lemma emit_at F i line : getZ (code (f (emit F i line))) (pc F) = Some i.
Proof. cbn. unfold pc, sizecode. rewrite getZ_app_r by lia. by rewrite Z.sub_diag. Qed.

Lemma emit_finv ms F i line R :
  finv ms F R -> pc F < MAX_INT -> ~ pending i -> word_ok ms (f F) (pc F + 1) (pc F) i ->
  finv ms (emit F i line) R.
Proof.
  intros [] Hpc Hp Hi. split; try done.
  - destruct fi_lists as (L & HL & Hg). exists L. split; [done|]. by apply glists_app.
  - by apply words_ok_app.
  - rewrite emit_pc. cbn. rewrite lenZ_app. change (lenZ [line]) with 1. lia.
  - rewrite emit_pc. lia.
  - by apply (vars_ok_static F).
Qed.

Lemma emit_strict ms F i line : words_ok ms (f F) -> ~ jump_word i -> strict (emit F i line).
Proof.
  intros Hw Hi q j Hq Hj. rewrite emit_pc. cbn in Hq.
  destruct (decide (q < lenZ (code (f F)))) as [Hl|Hl].
  - rewrite getZ_app_l in Hq by done. destruct (Hw _ _ Hq) as (_ & o & Ho & _ & Hd).
    destruct Hj as (_ & o' & Ho' & Hm). rewrite Ho in Ho'. injection Ho' as <-.
    specialize (Hd Hm). unfold pc. lia.
  - rewrite getZ_app_r in Hq by lia. pose proof (getZ_Some _ _ _ Hq) as Hr.
    change (lenZ [i]) with 1 in Hr. replace (q - lenZ (code (f F))) with 0 in Hq by lia.
    injection Hq as <-. done.
Qed.

Section emission.
Context {Z' : Type} `{HS : ByteStream Z'} `{HL : !ByteStreamLaws Z'} `{HM : LibM}.
Context (s : CompState Z') (Hw : LexFacts.wf (ls s)).

Lemma patchlist_spec ms l R v reg d F :
finv ms F (l :: R) -> reg = NO_REG \/ 0 <= reg < ms -> 0 <= v <= pc F ->
0 <= d <= pc F \/ allvalue (code (f F)) l ->
cgen s (patchlistaux l v reg d) F (fun _ F' => jext F F' /\ finv ms F' R /\
  (forall l', l' ∈ R -> allvalue (code (f F)) l' -> allvalue (code (f F')) l')).
Proof using HL Hw.
intros Hi Hreg Hv Hd. pose proof (fi_ms _ _ _ Hi).
eapply cgen_mono; [apply (patchlistaux_spec s Hw ms ltac:(lia) l (jpc F :: (breaklist <$> bl F) ++ R));
  try done; [by apply Hi|by apply (finv_root ms)]|].
cbv beta. intros _ F' (He & Hw' & Hj & Hval & _). split; [done|]. split.
- eapply finv_jext; [exact Hi|done|done|]. by destruct He as (c' & -> & _).
- intros l' Hl'. apply Hval, elem_of_cons. right. apply elem_of_app. by right.
Qed.

Lemma with_jpc_finv ms F R l R' :
finv ms F R -> jlists (code (f F)) (l :: (breaklist <$> bl F) ++ R') -> finv ms (with_jpc l F) R'.
Proof using. intros [] Hl. split; try done. by apply (vars_ok_static F). Qed.

(** Taking over the list of jumps to here *)
Lemma release_jpc ms F R : finv ms F R -> finv ms (with_jpc NO_JUMP F) (jpc F :: R).
Proof using.
intros Hi. eapply with_jpc_finv; [done|]. apply jlists_nojump.
eapply jlists_perm; [|apply Hi]. by rewrite <- Permutation_middle.
Qed.

(** The jumps that waited for the next instruction have their target. *)
Definition arrived (F : FuncState) (c' : list Z) : Prop :=
forall ps, jl (code (f F)) (jpc F) ps -> list_patched ps (pc F) (pc F) (code (f F)) c'.

Lemma arrived_none F : jpc F = NO_JUMP -> arrived F (code (f F)).
Proof using. intros E ps Hl. rewrite E in Hl. apply jl_NO_JUMP in Hl as ->. apply list_patched_nil. Qed.

Lemma dischargejpc_spec ms R F :
finv ms F R ->
cgen s dischargejpc F (fun _ F' => finv ms F' R /\ jpc F' = NO_JUMP /\ kept F F' /\ pc F' = pc F /\
  (jpc F = NO_JUMP -> F' = F) /\ arrived F (code (f F'))).
Proof using HL Hw.
intros Hi. pose proof (fi_ms _ _ _ Hi). unfold dischargejpc. apply cgen_get, cgen_get.
destruct (decide (jpc F = NO_JUMP)) as [E|E].
- unfold patchlistaux. apply cgen_assoc, cgen_get. rewrite E.
  unfold jumps. cbn [patchlistaux_loop]. rewrite Z.eqb_refl. apply cgen_ret_bind, cgen_modify.
  assert (EF : with_jpc NO_JUMP F = F) by (destruct F; cbn in *; by subst). rewrite EF.
  split_and!; try done; [apply kept_refl|by apply arrived_none].
- assert (0 <= pc F) by apply lenZ_nonneg.
  eapply cgen_bind; [apply (patchlistaux_spec s Hw ms ltac:(lia) (jpc F) ((breaklist <$> bl F) ++ R));
    [apply Hi|apply Hi|by left|lia|left; lia]|].
  cbv beta. intros _ F' (He & Hw' & Hj & _ & Hpt). apply cgen_modify. split_and!; try done.
  + destruct He as (c' & -> & Hl & Ho). cbn in *.
    assert (Hi' : finv ms (with_jpc NO_JUMP (with_f (with_code c' (lineinfo (f F)) (f F)) F)) R).
    { destruct Hi. split; try done; cbn; unfold pc, sizecode in *; cbn in *; try lia.
      - by apply jlists_nojump.
      - by apply (vars_ok_static F). }
    done.
  + apply jext_kept in He. destruct He as ([] & ? & ?). by split.
  + by rewrite <- (jext_pc _ _ He).
Qed.

(** Emission appends to a function without pending jumps to here. *)
Lemma luaK_code_emit ms i line R F (Q : Z -> FuncState -> Prop) :
finv ms F R ->
(forall F1, finv ms F1 R -> jpc F1 = NO_JUMP -> kept F F1 -> pc F1 = pc F -> pc F1 < MAX_INT ->
   (jpc F = NO_JUMP -> F1 = F) -> arrived F (code (f F1)) -> Q (pc F1) (emit F1 i line)) ->
cgen s (luaK_code i line) F Q.
Proof using HL Hw.
intros Hi HQ. unfold luaK_code. eapply cgen_bind; [by apply dischargejpc_spec|].
cbv beta. intros _ F1 (Hi1 & Hj1 & Hk1 & Hp1 & He1 & Ha1). apply cgen_get.
eapply cgen_lift_bind with (P := fun _ => pc F1 < MAX_INT).
{ unfold grow. destruct (Z.leb_spec MAX_INT (pc F1)); cbn; done. }
intros [] Hlt. apply cgen_modify_bind, cgen_ret. by apply HQ.
Qed.

(** The common case: an instruction that is no jump and not pending *)
Record emitted (ms : Z) (i : Z) (R : list Z) (F : FuncState) (n : Z) (F' : FuncState) : Prop := {
em_finv : finv ms F' R;
em_kept : kept F F';
em_pos : n = pc F;
em_pc : pc F' = pc F + 1;
em_at : getZ (code (f F')) n = Some i;
em_strict : strict F';
em_jpc : jpc F' = NO_JUMP;
em_jumps : forall ps q, jl (code (f F)) (jpc F) ps -> q ∈ ps -> goes_to (code (f F')) q n;
em_frame : forall ps q, jl (code (f F)) (jpc F) ps -> q ∉ ps -> q + 1 ∉ ps -> 0 <= q < pc F ->
  getZ (code (f F')) q = getZ (code (f F)) q
}.

Lemma kept_word ms F F1 n q i :
kept F F1 -> word_ok ms (f F) n q i -> word_ok ms (f F1) n q i.
Proof using.
intros ([Hst [l Hk] _ _ _] & _) Hi. eapply word_ok_mono; [..|exact Hi]; try done.
- by exists l.
- injection Hst. lia.
- injection Hst as _ _ _ _ Hp _ _ _ _ _ _ _ _. unfold sizep. by rewrite Hp.
Qed.

Lemma luaK_code_spec ms i line R F :
finv ms F R -> ~ pending i -> ~ jump_word i -> word_ok ms (f F) (pc F + 1) (pc F) i ->
cgen s (luaK_code i line) F (emitted ms i R F).
Proof using HL Hw.
intros Hi Hp Hj Hwd. eapply luaK_code_emit; [exact Hi|].
intros F1 Hi1 Hj1 Hk1 Hp1 Hlt _ Ha.
assert (Hwd1 : word_ok ms (f F1) (pc F1 + 1) (pc F1) i) by (rewrite Hp1; by eapply kept_word).
split; [by apply emit_finv| |done|by rewrite emit_pc, Hp1|apply emit_at| |done| |].
- destruct Hk1 as (Hc & Hf & Hm). split; [eapply cext_trans; [done|apply emit_cext]|done].
- by eapply emit_strict; [apply Hi1|].
- intros ps q Hl Hq. destruct (lp_dest _ _ _ _ _ (Ha ps Hl) q Hq) as (j & Hj' & Hjw & Hd).
  exists j. split; [by apply getZ_prefix|]. split; [done|]. rewrite Hd, Hp1. by case_bool_decide.
- intros ps q Hl Hq1 Hq2 Hr. rewrite <- (lp_frame _ _ _ _ _ (Ha ps Hl)) by done.
  apply getZ_app_l. unfold pc, sizecode in *. lia.
Qed.

Lemma cgen_codeline {B} (k : Z -> ST (CompState Z') B) F Q :
cgen s (k (lastline (ls s))) F Q -> cgen s (codeline ≫= k) F Q.
Proof using. done. Qed.

Lemma codeABC_spec ms o a b c R F :
finv ms F R -> getOpMode o = iABC -> o <> OP_TESTSET ->
0 <= a <= MAXARG_A -> 0 <= b <= MAXARG_B -> 0 <= c <= MAXARG_C ->
(forall bx, fits ms (f F) o a b c bx) ->
cgen s (luaK_codeABC o a b c) F (emitted ms (CREATE_ABC o a b c) R F).
Proof using HL Hw.
intros Hi Hm Ho Ha Hb Hc Hf. destruct (get_CREATE_ABC o a b c Ha Hb Hc) as (Hop & _).
unfold luaK_codeABC. apply cgen_codeline.
apply luaK_code_spec; [done| | |by apply word_ok_ABC].
- intros [Hp%is_op_true _]. rewrite Hop, op_of_num in Hp. by injection Hp.
- apply (jump_word_not _ o); [by rewrite Hop, op_of_num|congruence].
Qed.

Lemma codeABx_spec ms o a bx R F :
finv ms F R -> getOpMode o = iABx -> 0 <= a <= MAXARG_A -> 0 <= bx <= MAXARG_Bx ->
(forall b c, fits ms (f F) o a b c bx) ->
cgen s (luaK_codeABx o a bx) F (emitted ms (CREATE_ABx o a bx) R F).
Proof using HL Hw.
intros Hi Hm Ha Hb Hf. destruct (get_CREATE_ABx o a bx Ha Hb) as (Hop & _).
assert (E : u32 bx = bx) by (apply u32_small; unfold is_u32; maxargs; lia).
unfold luaK_codeABx. apply cgen_codeline. rewrite E. apply luaK_code_spec; [done| | |by apply word_ok_ABx].
- intros [Hp%is_op_true _]. rewrite Hop, op_of_num in Hp. injection Hp as ->. done.
- apply (jump_word_not _ o); [by rewrite Hop, op_of_num|congruence].
Qed.

(** *** Jumps *)

(** A new jump is a list of its own. *)
Lemma glists_new c L i :
glists c L -> jump_word i -> GETARG_sBx i = NO_JUMP ->
glists (c ++ [i]) ((lenZ c, [lenZ c]) :: L).
Proof using.
intros Hg Hj Hs. destruct (glists_app c L i Hg (not_pending_jump _ Hj)) as [H1 H2 H3]. split.
- constructor; [|done]. cbn. split; [done|]. exists i. split; [|split; [done|]].
  + rewrite getZ_app_r by lia. by rewrite Z.sub_diag.
  + unfold jnext. by rewrite Hs.
- rewrite positions_cons. cbn. apply list.NoDup_cons. split; [|done]. intros Hin.
  destruct (positions_word _ _ _ (gl_jl _ _ Hg) Hin) as (j & Hq & _). apply getZ_Some in Hq. lia.
- intros q j Hq Hp. rewrite positions_cons. apply elem_of_app. right. eauto.
Qed.

(** ... and so is one with a test that is still open *)
Lemma glists_test c L t i :
glists c L -> ~ jump_word t -> jump_word i -> GETARG_sBx i = NO_JUMP ->
glists (c ++ [t; i]) ((lenZ c + 1, [lenZ c + 1]) :: L).
Proof using.
intros Hg Ht Hj Hs. destruct Hg as [H1 H2 H3]. change [t; i] with ([t] ++ [i]). rewrite app_assoc.
assert (El : lenZ (c ++ [t]) = lenZ c + 1) by (rewrite lenZ_app; done).
split.
- constructor.
  + cbn. split; [done|]. exists i. split; [|split; [done|]].
    * rewrite getZ_app_r by lia. by rewrite El, Z.sub_diag.
    * unfold jnext. by rewrite Hs.
  + eapply Forall_impl; [|exact H1]. intros [l ps] Hl. cbn in *. eapply jl_frame; [|done].
    intros q Hq. pose proof (jl_range _ _ _ _ Hl Hq). rewrite !getZ_app_l by lia. done.
- rewrite positions_cons. cbn. apply list.NoDup_cons. split; [|done]. intros Hin.
  destruct (positions_word _ _ _ H1 Hin) as (j & Hq & _). apply getZ_Some in Hq. lia.
- intros q j Hq Hp. rewrite positions_cons. cbn. pose proof (getZ_Some _ _ _ Hq) as Hr.
  rewrite lenZ_app, El in Hr. change (lenZ [i]) with 1 in Hr.
  destruct (decide (q = lenZ c)) as [->|]; [apply elem_of_cons; by left|].
  destruct (decide (q = lenZ c + 1)) as [->|].
  + rewrite getZ_app_r in Hq by lia. rewrite El, Z.sub_diag in Hq. injection Hq as <-.
    by apply not_pending_jump in Hj.
  + rewrite !getZ_app_l in Hq by lia. apply elem_of_cons. right. eauto.
Qed.

Lemma concat_spec ms l1 l2 R F :
finv ms F (l1 :: l2 :: R) ->
cgen s (luaK_concat l1 l2) F (fun l F' =>
  jext F F' /\ finv ms F' (l :: R) /\ (l1 <> NO_JUMP -> l = l1) /\ (strict F -> strict F') /\
  (forall q j, getZ (code (f F)) q = Some j -> ~ jump_word j -> getZ (code (f F')) q = Some j)).
Proof using HL Hw.
intros Hi. pose proof (fi_ms _ _ _ Hi).
eapply cgen_mono; [apply (luaK_concat_spec s Hw ms ltac:(lia) l1 l2 (jpc F :: (breaklist <$> bl F) ++ R));
  [apply Hi|]|].
- eapply jlists_perm; [|by apply (finv_root ms)]. apply perm_skip. by rewrite roots_cons.
- cbv beta. intros l F' (He & Hw' & Hj & Hl & Hd & Hk). split; [done|]. split; [|split; [done|split; [|done]]].
  2:{ intros Hs q i Hq Hji. rewrite (jext_pc _ _ He). destruct (Hd _ _ Hq) as [Hq'|]; [|done]. by apply (Hs q i). }
  eapply finv_jext; [exact Hi|done|done|]. eapply jlists_perm; [symmetry; apply roots_cons|].
  by destruct He as (c' & -> & _).
Qed.

Lemma luaK_code_nojpc i line F :
jpc F = NO_JUMP ->
cgen s (luaK_code i line) F (fun n F' => n = pc F /\ pc F < MAX_INT /\ F' = emit F i line).
Proof using.
intros E. unfold luaK_code, dischargejpc. apply cgen_assoc, cgen_get, cgen_assoc, cgen_get.
unfold patchlistaux. apply cgen_assoc, cgen_assoc, cgen_get. rewrite E.
unfold jumps. cbn [patchlistaux_loop]. rewrite Z.eqb_refl. apply cgen_ret_bind, cgen_modify_bind.
assert (EF : with_jpc NO_JUMP F = F) by (destruct F; cbn in *; by subst). rewrite EF.
apply cgen_get. eapply cgen_lift_bind with (P := fun _ => pc F < MAX_INT).
{ unfold grow. destruct (Z.leb_spec MAX_INT (pc F)); cbn; done. }
intros [] Hlt. apply cgen_modify_bind, cgen_ret. done.
Qed.

(** An instruction with an open jump *)
Definition sbx_word (o : OpCode) (a : Z) : Z := CREATE_ABx o a (u32 (NO_JUMP + MAXARG_sBx)).

Lemma sbx_word_jump o a :
getOpMode o = iAsBx -> 0 <= a <= MAXARG_A ->
jump_word (sbx_word o a) /\ GETARG_sBx (sbx_word o a) = NO_JUMP /\
op_of (GET_OPCODE (sbx_word o a)) = Some o /\ GETARG_A (sbx_word o a) = a.
Proof using.
intros Hm Ha.
destruct (get_CREATE_ABx o a (u32 (NO_JUMP + MAXARG_sBx))) as (Ho & HA & _); [done|done|].
unfold sbx_word. rewrite Ho, op_of_num. split_and!; [|by apply sBx_CREATE|done|done].
split; [apply CREATE_ABx_u32|]. exists o. by rewrite Ho, op_of_num.
Qed.

Lemma sbx_word_ok ms g n o a :
getOpMode o = iAsBx -> 0 <= a <= MAXARG_A -> 0 <= n ->
Forall (fun r => 0 <= r < ms) (regs_of o a 0 0) ->
word_ok ms g (n + 1) n (sbx_word o a).
Proof using.
intros Hm Ha Hn Hr. destruct (sbx_word_jump o a Hm Ha) as ((Hu & _) & Hs & Ho & HA).
split; [done|]. exists o. split; [done|]. rewrite HA. split.
- destruct o; try done; split; try done; by intros [|].
- intros _. unfold jdest. rewrite Hs. unfold NO_JUMP. lia.
Qed.

Lemma emit_finv_jump ms F i line R :
finv ms F R -> pc F < MAX_INT -> jump_word i -> GETARG_sBx i = NO_JUMP ->
word_ok ms (f F) (pc F + 1) (pc F) i -> finv ms (emit F i line) (pc F :: R).
Proof using.
intros Hi Hpc Hj Hs Hwd.
eapply finv_lists; [|apply emit_finv; try done; by apply not_pending_jump].
eapply jlists_perm; [symmetry; apply roots_cons|].
destruct (fi_lists _ _ _ Hi) as (L & HL' & Hg). exists ((pc F, [pc F]) :: L).
split; [by cbn; rewrite HL'|]. by apply glists_new.
Qed.

Lemma codeAsBx_spec ms o a R F :
finv ms F R -> getOpMode o = iAsBx -> 0 <= a <= MAXARG_A ->
Forall (fun r => 0 <= r < ms) (regs_of o a 0 0) ->
cgen s (luaK_codeAsBx o a NO_JUMP) F (fun n F' =>
  finv ms F' (n :: R) /\ kept F F' /\ n = pc F /\ pc F' = pc F + 1 /\
  op_at (code (f F')) n = Some o).
Proof using HL Hw.
intros Hi Hm Ha Hr. destruct (sbx_word_jump o a Hm Ha) as (Hj & Hs & Ho & HA).
assert (0 <= pc F) by apply lenZ_nonneg.
unfold luaK_codeAsBx, luaK_codeABx. apply cgen_codeline.
eapply luaK_code_emit; [exact Hi|]. intros F1 Hi1 Hj1 Hk1 Hp1 Hlt _ _. fold (sbx_word o a).
split_and!.
- apply emit_finv_jump; try done. rewrite Hp1. by apply sbx_word_ok.
- destruct Hk1 as (Hc & Hf & Hm1). split; [eapply cext_trans; [done|apply emit_cext]|done].
- done.
- by rewrite emit_pc, Hp1.
- rewrite (op_at_Some _ _ (sbx_word o a)) by apply emit_at. done.
Qed.

Lemma with_jpc_kept l F F' : kept (with_jpc l F) F' -> kept F F'.
Proof using. intros ([] & ? & ?). by split. Qed.

Lemma jump_spec ms R F :
finv ms F R ->
cgen s luaK_jump F (fun j F' =>
  finv ms F' (j :: R) /\ kept F F' /\ j = pc F /\ pc F' = pc F + 1).
Proof using HL Hw.
intros Hi. unfold luaK_jump. apply cgen_get, cgen_modify_bind.
assert (0 <= pc F) by apply lenZ_nonneg.
eapply cgen_bind; [apply (codeAsBx_spec ms OP_JMP 0 (jpc F :: R)); [by apply release_jpc|done|done|constructor]|].
cbv beta. intros j F1 (Hi1 & Hk1 & Hj & Hp1 & _). apply with_jpc_kept in Hk1. change (pc (with_jpc NO_JUMP F)) with (pc F) in *.
eapply cgen_mono; [by apply concat_spec|]. cbv beta. intros l F2 (He & Hi2 & Hl & _).
split_and!; [done| | |].
- eapply kept_trans; [done|by apply jext_kept].
- rewrite Hl; [done|]. unfold NO_JUMP. lia.
- rewrite (jext_pc _ _ He). done.
Qed.

Lemma condjump_spec ms o a b c R F :
finv ms F R -> getOpMode o = iABC ->
0 <= a <= MAXARG_A -> 0 <= b <= MAXARG_B -> 0 <= c <= MAXARG_C ->
(forall bx, fits ms (f F) o a b c bx) ->
cgen s (condjump o a b c) F (fun j F' =>
  finv ms F' (j :: R) /\ kept F F' /\ j = pc F + 1 /\ pc F' = pc F + 2 /\
  op_at (code (f F')) (j - 1) = Some o).
Proof using HL Hw.
intros Hi Hm Ha Hb Hc Hf. destruct (get_CREATE_ABC o a b c Ha Hb Hc) as (Hop & _).
unfold condjump. eapply cgen_bind with (P := fun _ F' => exists F1 line,
  finv ms F1 R /\ jpc F1 = NO_JUMP /\ kept F F1 /\ pc F1 = pc F /\ pc F1 < MAX_INT /\
  F' = emit F1 (CREATE_ABC o a b c) line).
{ unfold luaK_codeABC. apply cgen_codeline.
  eapply luaK_code_emit; [exact Hi|]. intros F1 H1 H2 H3 H4 H5 _ _. by eexists F1, _. }
cbv beta. intros _ F2 (F1 & line & Hi1 & Hj1 & Hk1 & Hp1 & Hlt & ->).
set (t := CREATE_ABC o a b c) in *. set (F2 := emit F1 t line).
assert (Hnj : ~ jump_word t) by (apply (jump_word_not _ o); [by rewrite Hop, op_of_num|congruence]).
unfold luaK_jump. apply cgen_get, cgen_modify_bind. change (jpc F2) with (jpc F1). rewrite Hj1.
assert (EF : with_jpc NO_JUMP F2 = F2) by (unfold F2; destruct F1; cbn in *; by subst). rewrite EF.
eapply cgen_bind; [unfold luaK_codeAsBx, luaK_codeABx; apply cgen_codeline; by apply luaK_code_nojpc|].
cbv beta. intros j F3 (-> & Hlt2 & ->).
apply cgen_ret. fold (sbx_word OP_JMP 0).
destruct (sbx_word_jump OP_JMP 0 eq_refl ltac:(done)) as (Hj & Hs & _).
assert (Hwt : word_ok ms (f F1) (pc F1 + 1) (pc F1) t).
{ rewrite Hp1. eapply kept_word; [done|]. by apply word_ok_ABC. }
assert (0 <= pc F1) by apply lenZ_nonneg.
assert (Hp2 : pc F2 = pc F1 + 1) by apply emit_pc.
split_and!.
- match goal with |- finv _ (emit _ _ ?l) _ => set (line2 := l) end.
  assert (Hw2 : words_ok ms (f F2)) by (apply words_ok_app; [apply Hi1|done]).
  assert (Hw3 : words_ok ms (f (emit F2 (sbx_word OP_JMP 0) line2))).
  { apply words_ok_app; [done|]. apply word_ok_with_code.
    replace (sizecode (f F2)) with (pc F1 + 1) by (rewrite <- Hp2; done).
    apply sbx_word_ok; try done; lia || constructor. }
  assert (Hlists : jlists (code (f (emit F2 (sbx_word OP_JMP 0) line2)))
                     (pc F2 :: jpc F1 :: (breaklist <$> bl F1) ++ R)).
  { destruct (fi_lists _ _ _ Hi1) as (L & HL' & Hg). exists ((pc F2, [pc F2]) :: L).
    split; [by cbn; rewrite HL'|]. rewrite Hp2. unfold F2. cbn. rewrite <- app_assoc.
    by apply glists_test. }
  destruct Hi1. split; try done; rewrite ?emit_pc; try lia.
  + eapply jlists_perm; [symmetry; apply roots_cons|done].
  + unfold F2. cbn. rewrite !lenZ_app. change (lenZ [line]) with 1. change (lenZ [line2]) with 1.
    unfold F2 in Hp2. lia.
  + by apply (vars_ok_static F1).
- destruct Hk1 as (Hc1 & Hf1 & Hm1). split; [|done].
  eapply cext_trans; [done|]. eapply cext_trans; apply emit_cext.
- rewrite Hp2. lia.
- rewrite emit_pc. lia.
- rewrite Hp2. replace (pc F1 + 1 - 1) with (pc F1) by lia.
  rewrite (op_at_Some _ _ t); [by rewrite Hop, op_of_num|]. cbn. apply getZ_prefix, (emit_at _ _ line).
Qed.

Lemma getlabel_finv ms F R t : finv ms F R -> finv ms (with_lasttarget t F) R.
Proof using. intros []. split; try done. by apply (vars_ok_static F). Qed.

Lemma patchtohere_spec ms l R F :
finv ms F (l :: R) ->
cgen s (luaK_patchtohere l) F (fun _ F' => finv ms F' R /\ kept F F' /\ pc F' = pc F).
Proof using HL Hw.
intros Hi. unfold luaK_patchtohere, luaK_getlabel.
apply cgen_assoc, cgen_modify_bind, cgen_get, cgen_get.
pose proof (getlabel_finv _ _ _ (pc F) Hi) as Hi1.
remember (with_lasttarget (pc F) F) as F1 eqn:EF.
assert (Hj : jlists (code (f F1)) (jpc F1 :: l :: (breaklist <$> bl F1) ++ R)).
{ eapply jlists_perm; [apply Permutation_swap|]. by apply (finv_root ms). }
pose proof (fi_ms _ _ _ Hi).
eapply cgen_bind; [apply (luaK_concat_spec s Hw ms ltac:(lia)); [apply Hi1|exact Hj]|].
cbv beta. intros l' F2 (He & Hw2 & Hj2 & _). apply cgen_modify.
assert (Hi2 : finv ms (with_jpc l' F2) R).
{ destruct He as (c' & -> & Hl' & _). destruct Hi1. split; try done; cbn;
    unfold pc, sizecode in *; cbn in *; try lia. by apply (vars_ok_static F1). }
split_and!; [done|subst F1; by apply jext_kept in He as ([] & ? & ?)|].
change (pc (with_jpc l' F2)) with (pc F2). rewrite (jext_pc _ _ He). by subst F1.
Qed.

Lemma luaK_patchlist_spec ms l target R F :
finv ms F (l :: R) -> 0 <= target <= pc F ->
cgen s (luaK_patchlist l target) F (fun _ F' => finv ms F' R /\ kept F F' /\ pc F' = pc F).
Proof using HL Hw.
intros Hi Ht. unfold luaK_patchlist. apply cgen_get, cgen_if; intros _; [by apply patchtohere_spec|].
eapply cgen_mono; [apply (patchlist_spec ms l R); [done|by left|done|by left]|].
cbv beta. intros _ F' (He & Hi' & _). split; [done|]. split; [by apply jext_kept|by apply jext_pc].
Qed.

(** *** Loading nil *)

(** Replacing a word by another one with the same opcode, not a jump *)
Lemma upd_finv ms F R q w v :
finv ms F R -> getZ (code (f F)) q = Some w -> ~ jump_word w -> ~ pending v ->
GET_OPCODE v = GET_OPCODE w -> word_ok ms (f F) (pc F) q v ->
finv ms (upd_code F q v) R /\ kept F (upd_code F q v) /\ pc (upd_code F q v) = pc F.
Proof using.
intros Hi Hq Hj Hp Ho Hv.
assert (He : jext F (upd_code F q v)) by (eapply jext_upd; [done|left; by rewrite Ho]).
split; [|split; [by apply jext_kept|by apply jext_pc]].
eapply finv_jext; [exact Hi|done|by apply words_ok_set; [apply Hi|]|].
destruct (fi_lists _ _ _ Hi) as (L & HL' & Hg). exists L. split; [done|].
eapply glists_set_other; try done.
Qed.

Lemma fits_nil g ms a b c bx :
0 <= a < ms -> 0 <= b < ms -> fits ms g OP_LOADNIL a b c bx.
Proof using. intros. split; try done; try by intros [|]. cbn. repeat constructor; lia. Qed.

Lemma luaK_nil_spec ms from n R F :
finv ms F R -> 0 <= from -> 1 <= n -> from + n <= ms ->
cgen s (luaK_nil from n) F (fun _ F' => finv ms F' R /\ kept F F').
Proof using HL Hw.
intros Hi Hf Hn Hms. pose proof (fi_ms _ _ _ Hi) as Hm. change MAXSTACK with 250 in *.
unfold luaK_nil.
eapply cgen_bind with (P := fun _ F' => finv ms F' R /\ kept F F').
{ unfold nil_joined. apply cgen_fs, cgen_if; intros _; [|by apply cgen_ret; split; [|apply kept_refl]].
  apply cgen_if; intros Hp; bool_facts; [by apply cgen_ret; split; [|apply kept_refl]|].
  assert (0 <= pc F) by apply lenZ_nonneg.
  destruct (getZ_is_Some (code (f F)) (pc F - 1)) as [w Hq]; [unfold pc, sizecode in *; lia|].
  eapply cgen_code; [done|].
  destruct (is_op w OP_LOADNIL) eqn:Hop; [|by apply cgen_ret; split; [|apply kept_refl]].
  apply cgen_if; intros Hb; bool_facts; [|by apply cgen_ret; split; [|apply kept_refl]].
  apply (cgen_bind _ _ _ _ (fun _ F' => finv ms F' R /\ kept F F')); [|intros _ F' HF; by apply cgen_ret].
  apply cgen_if; intros Hlt; bool_facts; [|by apply cgen_ret; split; [|apply kept_refl]].
  destruct (fi_words _ _ _ Hi _ _ Hq) as (Hu & o & Ho & [Hr _ _ _ _] & _).
  rewrite (is_op_op_of _ _ _ Ho), bool_decide_eq_true in Hop. subst o. cbn in Hr.
  destruct (SETARG_B_fields w (from + n - 1) Hu) as (_ & E2 & E3 & E4 & _); [maxargs; lia|].
  eapply cgen_set; [done|].
  destruct (upd_finv ms F R (pc F - 1) w (SETARG_B w (from + n - 1))) as (Hi' & Hk & _); try done.
  - by apply (jump_word_not _ OP_LOADNIL).
  - intros [Hp'%is_op_true _]. rewrite E2, Ho in Hp'. done.
  - split; [apply SETARG_B_fields; [done|maxargs; lia]|]. exists OP_LOADNIL. rewrite E2. split; [done|]. split; [|done].
    rewrite E3, E4. apply fits_nil; [by apply Forall_inv in Hr|lia]. }
cbv beta. intros j F1 (Hi1 & Hk1). apply cgen_if; intros _; [by apply cgen_ret|].
eapply cgen_bind; [apply (codeABC_spec ms OP_LOADNIL); try done; maxargs; try lia; intros bx;
  apply fits_nil; lia|].
cbv beta. intros _ F2 [Hi2 Hk2 _ _ _ _ _ _ _]. apply cgen_ret. split; [done|]. by eapply kept_trans.
Qed.

(** *** Registers *)

Lemma checkstack_spec ms n R F :
finv ms F R -> 0 <= n -> ms <= Z.max (maxstacksize (f F)) (freereg F + n) ->
cgen s (luaK_checkstack n) F (fun _ F' => ok F' R /\ cext F F' /\ freereg F' = freereg F /\
  pc F' = pc F /\ code (f F') = code (f F) /\ k (f F') = k (f F) /\
  freereg F + n <= maxstacksize (f F')).
Proof using HL Hw.
intros Hi Hn Hms. pose proof (fi_regs _ _ _ Hi). pose proof (fi_stack _ _ _ Hi).
pose proof (vo_nactvar _ (fi_vars _ _ _ Hi)). pose proof (fi_ms _ _ _ Hi).
change MAXSTACK with 250 in *.
unfold luaK_checkstack. apply cgen_fs, cgen_if; intros Hlt; bool_facts.
- apply cgen_if; intros Hb; bool_facts; [by apply cgen_syntaxerror|].
  change MAXSTACK with 250 in *. apply cgen_modify. rewrite u8_small by (unfold is_byte; lia).
  assert (Hok : ok (with_f (with_maxstack (freereg F + n) (f F)) F) R).
  { destruct Hi. unfold ok. cbn. split; try done; cbn; try lia.
    - eapply words_ok_mono; [..|exact fi_words]; try done; lia || exact (k_refl (f F)).
    - change MAXSTACK with 250. lia.
    - change MAXSTACK with 250. lia.
    - by apply (vars_ok_static F). }
  split; [done|]. split_and!; try done.
  split; try done; cbn; [|lia]. exists []. by rewrite app_nil_r.
- apply cgen_ret. split_and!; try done; [|apply cext_refl].
  unfold ok. replace (maxstacksize (f F)) with ms by lia. done.
Qed.

Lemma set_freereg_ok ms F R r :
finv ms F R -> nactvar F <= r <= maxstacksize (f F) -> finv ms (with_freereg r F) R.
Proof using. intros [] Hr. split; try done. by apply (vars_ok_static F). Qed.

Lemma cext_freereg F r : cext F (with_freereg r F).
Proof using. split; try done. exists []. by rewrite app_nil_r. Qed.

Lemma reserveregs_spec ms n R F :
finv ms F R -> 0 <= n -> ms <= Z.max (maxstacksize (f F)) (freereg F + n) ->
cgen s (luaK_reserveregs n) F (fun _ F' => ok F' R /\ cext F F' /\
  freereg F' = freereg F + n /\ pc F' = pc F /\ code (f F') = code (f F) /\
  k (f F') = k (f F)).
Proof using HL Hw.
intros Hi Hn Hms. unfold luaK_reserveregs.
eapply cgen_bind; [by apply (checkstack_spec ms n R)|].
cbv beta. intros _ F1 (Hi1 & Hc1 & Hf1 & Hp1 & Hco & Hk & Hle). apply cgen_modify.
pose proof (fi_regs _ _ _ Hi1).
split_and!; try done; [| |cbn; lia].
- unfold ok. cbn. apply set_freereg_ok; [done|]. lia.
- eapply cext_trans; [done|]. apply cext_freereg.
Qed.

(** The registers of a function are small numbers. *)
Lemma reg_not_k r : 0 <= r <= MAXSTACK -> ISK r = false.
Proof using. intros Hr. apply RK_fits. change MAXSTACK with 250 in *. maxargs. lia. Qed.

(** *** Constants *)

Lemma h_get_In l key i :
h_get l key = Some i -> exists key', luaO_rawequalObj key' key = true /\ In (key', i) l.
Proof using.
induction l as [|[key' j] l IH]; cbn; [done|].
destruct (luaO_rawequalObj key' key) eqn:E.
- intros [= ->]. eauto.
- intros H. destruct (IH H) as (k2 & H1 & H2). eauto.
Qed.

Definition const_of (key : TValue) : TValue := match key with VTable _ => VNil | v => v end.

Lemma rawequal_refl v : is_nan v = false -> luaO_rawequalObj v v = true.
Proof using.
unfold luaO_rawequalObj. rewrite Z.eqb_refl. destruct v; cbn; intros Hn; try done;
  try apply Z.eqb_refl; try by apply bool_decide_eq_true_2. by apply negb_false_iff.
Qed.

Lemma pushk_finv ms F R key :
finv ms F R -> nk F < MAXARG_Bx ->
finv ms (with_f (with_k (k (f F) ++ [const_of key]) (f F)) (with_h ((key, nk F) :: h F) F)) R.
Proof using.
intros [] Hlt. split; try done.
- cbn. eapply words_ok_mono; [..|exact fi_words]; try done. by exists [const_of key].
- cbn. constructor.
  + unfold h_ok. cbn. unfold nk, sizek. rewrite getZ_app_r by lia. rewrite Z.sub_diag. by destruct key.
  + eapply Forall_impl; [|exact fi_h]. intros x Hx. unfold h_ok in *. cbn. by apply getZ_prefix.
- unfold nk, sizek in *. cbn. rewrite lenZ_app. change (lenZ [const_of key]) with 1. lia.
- by apply (vars_ok_static F).
Qed.

(** The place of a constant: it holds the value of an equal key. *)
Record const_at (F : FuncState) (key : TValue) (i : Z) : Prop := {
ca_range : 0 <= i < nk F;
ca_key : exists key', luaO_rawequalObj key' key = true /\ getZ (k (f F)) i = Some (const_of key')
}.

Lemma addk_spec ms key R F :
finv ms F R ->
cgen s (addk key (const_of key)) F (fun i F' => finv ms F' R /\ kept F F' /\ pc F' = pc F /\
  code (f F') = code (f F) /\ jpc F' = jpc F /\ const_at F' key i /\ i <= nk F /\
  h_get (h F') key = Some i).
Proof using HL Hw.
intros Hi. unfold addk. apply cgen_fs. destruct (h_get (h F) key) as [i|] eqn:Eh.
- apply cgen_ret. destruct (h_get_In _ _ _ Eh) as (key' & He & Hin).
  pose proof (fi_h _ _ _ Hi) as Hh. rewrite Forall_forall in Hh. pose proof (Hh _ Hin) as Hk.
  unfold h_ok in Hk. cbn in Hk. pose proof (getZ_Some _ _ _ Hk) as Hr.
  split_and!; try done; [apply kept_refl| |unfold nk, sizek; lia]. split; [done|]. exists key'. split; [done|]. rewrite Hk. by destruct key'.
- eapply (cgen_bind _ _ _ _ (fun _ F' => F' = F /\ is_nan key = false)).
  { apply cgen_if; intros Hn; [done|by apply cgen_ret]. }
  intros _ F' [-> Hn]. apply cgen_modify_bind.
  eapply cgen_lift_bind with (P := fun _ => nk F < MAXARG_Bx).
  { unfold grow. destruct (Z.leb_spec MAXARG_Bx (nk F)); cbn; done. }
  intros [] Hlt. apply cgen_modify_bind, cgen_ret.
  split_and!; try done.
  + by apply (pushk_finv ms F R key).
  + split; [|done]. split; try done. cbn. by exists [const_of key].
  + split; unfold nk, sizek; cbn.
    * rewrite lenZ_app. change (lenZ [const_of key]) with 1. pose proof (lenZ_nonneg (k (f F))). lia.
    * exists key. split; [by apply rawequal_refl|]. rewrite getZ_app_r by lia. by rewrite Z.sub_diag.
  + cbn. by rewrite rawequal_refl.
Qed.
End emission.
