(* ===== verification/CodeExp.v ===== *)
(** * The code generator on expressions

    Registers are a stack: the temporaries of an expression are the registers
    from [r] to [r'] - 1 ([exp_ok]).  Each function of lcode.c on expressions
    takes an expression on the top of the stack to another one, keeps the
    invariant of the function under construction, and puts back the temporaries
    it uses. *)

From S2P Require Import Prelude Mem Clib Opcodes Object Debug Zio Lex Code JumpLists CodeJumps CodeEmit.
From S2P Require LexFacts.

(** ** Operands that are temporaries *)

(** The register [x] is a variable, or the temporary [r]; then the next one
    is [r']. *)
Definition temp (F : FuncState) (r x r' : Z) : Prop :=
  (0 <= x < nactvar F /\ r' = r) \/ (x = r /\ nactvar F <= r /\ r' = r + 1).

(** An operand that is a register or a constant *)
Definition rk_const_ok (g : Proto) (x : Z) : Prop := ISK x = true /\ 0 <= x <= MAXARG_B /\ 0 <= INDEXK x < sizek g.

Definition rk_temp (F : FuncState) (r x r' : Z) : Prop :=
  (rk_const_ok (f F) x /\ r' = r) \/ temp F r x r'.

(** Instructions that get their target register later *)
Definition reloc_op (o : OpCode) : bool :=
  match o with
  | OP_GETUPVAL | OP_GETGLOBAL | OP_GETTABLE | OP_NEWTABLE | OP_ADD | OP_SUB | OP_MUL | OP_DIV | OP_MOD | OP_POW
  | OP_UNM | OP_NOT | OP_LEN | OP_CONCAT | OP_CLOSURE | OP_VARARG => true
  | _ => false
  end.

Definition reloc_word (F : FuncState) (q w : Z) : Prop :=
  exists o, op_of (GET_OPCODE w) = Some o /\ reloc_op o = true /\
    (o = OP_VARARG -> GETARG_B w <= 2) /\ (o = OP_NOT -> q = pc F - 1 /\ strict F).

(** A comparison, the control of the jump behind it *)
Definition comparison (o : OpCode) : Prop := o = OP_EQ \/ o = OP_LT \/ o = OP_LE.

Definition exp_ok (F : FuncState) (r : Z) (e : expdesc) (r' : Z) : Prop :=
  match ek e with
  | VVOID => False
  | VNIL | VTRUE | VFALSE | VKNUM => r' = r
  | VK => 0 <= info e < nk F /\ r' = r
  | VLOCAL => 0 <= info e < nactvar F /\ r' = r
  | VUPVAL => 0 <= info e < nups (f F) /\ r' = r
  | VGLOBAL => is_string_at (f F) (info e) /\ r' = r
  | VINDEXED => exists r1, temp F r (info e) r1 /\ rk_temp F r1 (aux e) r'
  | VJMP => (exists o, op_at (code (f F)) (info e - 1) = Some o /\ comparison o) /\ r' = r
  | VRELOCABLE => (exists w, getZ (code (f F)) (info e) = Some w /\ reloc_word F (info e) w) /\ r' = r
  | VNONRELOC => temp F r (info e) r'
  | VCALL => (exists w, getZ (code (f F)) (info e) = Some w /\ op_of (GET_OPCODE w) = Some OP_CALL /\ GETARG_A w = r) /\
      nactvar F <= r /\ r' = r + 1
  | VVARARG => op_at (code (f F)) (info e) = Some OP_VARARG /\ r' = r
  end.

(** The jump lists of an expression *)
Definition roots (e : expdesc) : list Z := et e :: ef e :: (if bool_decide (ek e = VJMP) then [info e] else []).

(** The expression on the top of the stack of registers *)
Record top_exp (F : FuncState) (R : list Z) (r : Z) (e : expdesc) : Prop := {
  te_ok : ok F (roots e ++ R);
  te_exp : exp_ok F r e (freereg F);
  te_base : nactvar F <= r
}.

(** It has a value that is not taken from a variable, nor several values. *)
Definition discharged (e : expdesc) : Prop :=
  match ek e with VVOID | VLOCAL | VUPVAL | VGLOBAL | VINDEXED | VCALL | VVARARG => False | _ => True end.

(** The value of an operation *)
Definition val_exp (F : FuncState) (R : list Z) (r : Z) (e : expdesc) : Prop := top_exp F R r e /\ discharged e.

Lemma temp_range F r x r' : temp F r x r' -> 0 <= nactvar F <= r -> 0 <= x < r' /\ r <= r' <= r + 1.
Proof. intros [[? ->]|(-> & ? & ->)] ?; lia. Qed.

Lemma rk_temp_range F r x r' : rk_temp F r x r' -> 0 <= nactvar F <= r -> r <= r' <= r + 1 /\ 0 <= x /\ (ISK x = false -> x < r').
Proof.
  intros [[(HK & Hx & _) ->]|Ht] Hr; [split; [lia|]; split; [lia|]; congruence|].
  pose proof (temp_range _ _ _ _ Ht Hr). lia.
Qed.

Lemma ok_ms F R : ok F R -> 0 <= nactvar F <= freereg F /\ freereg F <= maxstacksize (f F) /\ 2 <= maxstacksize (f F) < 250.
Proof.
  intros Hi. pose proof (fi_regs _ _ _ Hi). pose proof (fi_stack _ _ _ Hi).
  pose proof (vo_nactvar _ (fi_vars _ _ _ Hi)). change MAXSTACK with 250 in *. lia.
Qed.

(** The operands of an instruction *)
Lemma rk_operand F ms r x r' :
  rk_temp F r x r' -> 0 <= nactvar F <= r -> r' <= ms -> ms <= 250 ->
  0 <= x <= MAXARG_B /\ Forall (fun y => 0 <= y < ms) (rk_reg x) /\ Forall (fun y => 0 <= y < sizek (f F)) (rk_const x).
Proof.
  intros [[(HK & Hx & Hi) ->]|Ht] Hr Hm H250; unfold rk_reg, rk_const.
  - rewrite HK. split_and!; [lia|lia|constructor|]. by constructor.
  - pose proof (temp_range _ _ _ _ Ht Hr). rewrite reg_not_k by (change MAXSTACK with 250; lia).
    maxargs. split_and!; [lia|lia| |constructor]. constructor; [lia|constructor].
Qed.

(** *** Growing functions keep their operands *)

Lemma static_parts F F' : static F' = static F ->
  nactvar F' = nactvar F /\ nups (f F') = nups (f F) /\ p (f F') = p (f F) /\ bl F' = bl F.
Proof. intros H. by injection H. Qed.

Lemma cext_nactvar F F' : cext F F' -> nactvar F' = nactvar F.
Proof. intros [Hs _ _ _ _]. by apply static_parts in Hs as [-> _]. Qed.

Lemma cext_sizek F F' : cext F F' -> nk F <= nk F'.
Proof. intros [_ [l Hl] _ _ _]. unfold nk, sizek. rewrite Hl, lenZ_app. pose proof (lenZ_nonneg l). lia. Qed.

Lemma temp_cext F F' r x r' : nactvar F' = nactvar F -> temp F r x r' -> temp F' r x r'.
Proof. unfold temp. by intros ->. Qed.

Lemma rk_temp_cext F F' r x r' : nactvar F' = nactvar F -> nk F <= nk F' -> rk_temp F r x r' -> rk_temp F' r x r'.
Proof.
  intros Hn Hk [[(H1 & H2 & H3) ->]|Ht]; [left|right; by eapply temp_cext]. split; [|done].
  split; [done|]. split; [done|]. unfold nk in *. lia.
Qed.

(** ** Jump lists of expressions *)

(** Two roots are equal only if their lists are empty. *)
Lemma same_root ms F l R : finv ms F (l :: l :: R) -> l = NO_JUMP.
Proof.
  intros Hi. apply finv_root in Hi. destruct Hi as (L & HL' & [Hj Hn _]).
  destruct (fst_cons_inv _ _ _ HL') as (ps & L1 & -> & HL1).
  assert (Hin : l ∈ L1.*1) by (rewrite HL1; apply elem_of_cons; right; apply elem_of_app; right; apply elem_of_cons; by left).
  apply list_elem_of_fmap in Hin. destruct Hin as ([l' ps'] & El & Hin). cbn in El. subst l'.
  pose proof (Forall_inv Hj) as Hl. apply Forall_inv_tail in Hj. rewrite Forall_forall in Hj.
  pose proof (Hj _ (proj1 (list_elem_of_In _ _) Hin)) as Hl'. cbn in Hl, Hl'.
  rewrite (jl_det _ _ _ _ Hl' Hl) in Hin. destruct ps as [|q ps]; [done|]. exfalso.
  rewrite positions_cons in Hn. cbn in Hn. apply list.NoDup_cons in Hn as [Hn _]. apply Hn, elem_of_app. right.
  eapply elem_of_positions; [exact Hin|]. apply elem_of_cons. by left.
Qed.
(** The operands of an instruction are in range. *)
Ltac fits_tac :=
  split; try done; try (intros [|]; done); unfold nk in *; cbn; repeat (apply Forall_cons || apply Forall_nil || split); try done; try lia.

Section expressions.
Context {Z' : Type} `{HS : ByteStream Z'} `{HL : !ByteStreamLaws Z'} `{HM : LibM}.
Context (s : CompState Z') (Hw : LexFacts.wf (ls s)).

(** ** Freeing registers *)

Lemma freeregs_ok F R r : ok F R -> nactvar F <= r <= freereg F -> ok (with_freereg r F) R.
Proof using.
  intros Hi Hr. pose proof (ok_ms _ _ Hi). unfold ok. cbn. apply (set_freereg_ok (maxstacksize (f F))); [done|lia].
Qed.

Lemma free_reg_spec F R r x :
  ok F R -> temp F r x (freereg F) -> nactvar F <= r ->
  cgen s (free_reg x) F (fun _ F' => F' = with_freereg r F /\ ok F' R).
Proof using.
  intros Hi Ht Hr. pose proof (ok_ms _ _ Hi) as Hm. unfold free_reg. apply cgen_modify.
  pose proof (temp_range _ _ _ _ Ht ltac:(lia)).
  rewrite reg_not_k by (change MAXSTACK with 250; lia). cbn [negb andb].
  assert (E : (if nactvar F <=? x then with_freereg (freereg F - 1) F else F) = with_freereg r F).
  { destruct Ht as [[Hx E]|(-> & Hx & E)].
    - rewrite (proj2 (Z.leb_gt _ _)) by lia. rewrite <- E. by destruct F.
    - rewrite (proj2 (Z.leb_le _ _)) by lia. f_equal. lia. }
  rewrite E. split; [done|]. apply freeregs_ok; [done|]. lia.
Qed.

Lemma free_rk_spec F R r x :
  ok F R -> rk_temp F r x (freereg F) -> nactvar F <= r ->
  cgen s (free_reg x) F (fun _ F' => F' = with_freereg r F /\ ok F' R).
Proof using.
  intros Hi [[(HK & _ & _) E]|Ht] Hr; [|by apply free_reg_spec].
  unfold free_reg. apply cgen_modify. rewrite HK. cbn. rewrite <- E. by destruct F.
Qed.

(** An expression whose register was given back *)
Definition freed (F : FuncState) (r : Z) (e : expdesc) : Prop :=
  match ek e with
  | VNONRELOC => 0 <= info e < maxstacksize (f F) /\ freereg F = r
  | _ => exp_ok F r e (freereg F)
  end.

Lemma freeexp_spec F R r e :
  top_exp F R r e ->
  cgen s (freeexp e) F (fun _ F' => F' = with_freereg (if decide (ek e = VNONRELOC) then r else freereg F) F /\
    ok F' (roots e ++ R) /\ freed F' r e).
Proof using.
  intros [Hi He Hr]. unfold freeexp. pose proof (ok_ms _ _ Hi) as Hm.
  destruct (decide (ek e = VNONRELOC)) as [E|E]; case_bool_decide; try done.
  - unfold exp_ok in He. rewrite E in He. pose proof (temp_range _ _ _ _ He ltac:(lia)).
    eapply cgen_mono; [by eapply free_reg_spec|]. cbv beta. intros [] F' (-> & Hi'). split_and!; try done.
    unfold freed. rewrite E. cbn. lia.
  - apply cgen_ret. assert (EF : with_freereg (freereg F) F = F) by (by destruct F).
    rewrite EF. split_and!; try done. unfold freed. by destruct (ek e).
Qed.

(** ** Words that are changed in place *)

Lemma reloc_set ms g n q w o v :
  word_ok ms g n q w -> op_of (GET_OPCODE w) = Some o -> reloc_op o = true -> (o = OP_VARARG -> GETARG_B w <= 2) ->
  0 <= v < ms -> ms <= 250 -> word_ok ms g n q (SETARG_A w v) /\ GET_OPCODE (SETARG_A w v) = GET_OPCODE w.
Proof using.
  intros (Hu & o' & Ho' & [Hr Hc Hup Hp Hg] & _) Ho Hre Hv Hr' Hms. rewrite Ho in Ho'. injection Ho' as <-.
  destruct (SETARG_A_fields w v Hu) as (H1 & H2 & H3 & H4 & H5 & H6); [maxargs; lia|].
  split; [|done]. split; [done|]. exists o. rewrite H2, H3, H4, H5, H6. split; [done|].
  split; [|by destruct o]. split; try done.
  destruct o; try done; cbn [regs_of] in *; try (apply Forall_inv_tail in Hr; by constructor).
  specialize (Hv eq_refl). constructor; [done|].
  destruct (GETARG_B w <=? 1) eqn:E; [constructor|]. bool_facts. constructor; [lia|constructor].
Qed.

Lemma not_pending_op v o : op_of (GET_OPCODE v) = Some o -> o <> OP_TESTSET -> ~ pending v.
Proof using. intros Ho Hn [Hp%is_op_true _]. congruence. Qed.

(** Replacing a word that is neither a jump nor a test by another with its opcode *)
Lemma set_word_ok F R q w v o :
  ok F R -> getZ (code (f F)) q = Some w -> op_of (GET_OPCODE w) = Some o -> o <> OP_TESTSET -> getOpMode o <> iAsBx ->
  GET_OPCODE v = GET_OPCODE w -> word_ok (maxstacksize (f F)) (f F) (pc F) q v ->
  cgen s (set_code q v) F (fun _ F' => F' = upd_code F q v /\ ok F' R /\ kept F F' /\ pc F' = pc F).
Proof using.
  intros Hi Hq Ho Hn Hm Hv Hok. eapply cgen_set; [done|]. split; [done|].
  apply (upd_finv (maxstacksize (f F)) F R q w v); try done.
  - by eapply jump_word_not.
  - eapply (not_pending_op _ o); [congruence|done].
Qed.

Lemma upd_code_at F q v w : getZ (code (f F)) q = Some w -> getZ (code (f (upd_code F q v))) q = Some v.
Proof using. intros Hq. cbn. apply getZ_setZ_eq. by apply getZ_Some in Hq. Qed.

(** ** [luaK_setoneret], [luaK_dischargevars] *)

Definition one_value (e : expdesc) : Prop := match ek e with VCALL | VVARARG => False | _ => True end.

Lemma top_exp_change F R r e e' F' :
  top_exp F R r e -> ok F' (roots e ++ R) -> nactvar F' = nactvar F -> roots e' = roots e ->
  exp_ok F' r e' (freereg F') -> top_exp F' R r e'.
Proof using. intros [? ? Hr] Hi Hn Hro He. split; [by rewrite Hro|done|by rewrite Hn]. Qed.

Lemma setoneret_spec F R r e :
  top_exp F R r e ->
  cgen s (luaK_setoneret e) F (fun e' F' => top_exp F' R r e' /\ cext F F' /\ freereg F' = freereg F /\ one_value e' /\
    et e' = et e /\ ef e' = ef e /\ (one_value e -> e' = e /\ F' = F) /\
    (one_value e \/ (discharged e' /\ (r < freereg F' -> ek e' = VNONRELOC) /\ (ek e <> VCALL -> freereg F' = r) /\
      (ek e' = VNONRELOC \/ ek e' = VRELOCABLE)))).
Proof using.
  intros Ht. pose proof Ht as [Hi He Hr]. unfold luaK_setoneret. pose proof (ok_ms _ _ Hi) as Hm.
  case_bool_decide as E1.
  - unfold exp_ok in He. rewrite E1 in He. destruct He as ((w & Hq & Ho & HA) & Hn & Hf).
    eapply cgen_code; [done|]. apply cgen_ret. split_and!; try done; [|apply cext_refl|by unfold one_value; rewrite E1|right; split_and!; try done; by left].
    eapply top_exp_change; try done; [by unfold roots; cbn; rewrite E1|]. cbn. rewrite HA. right. lia.
  - case_bool_decide as E2.
    + unfold exp_ok in He. rewrite E2 in He. destruct He as (Hq & Hf).
      destruct (op_at_inv _ _ _ Hq) as (w & Hqw & Ho). eapply cgen_code; [done|].
      destruct (fi_words _ _ _ Hi _ _ Hqw) as (Hu & o & Ho' & [Hr' _ _ _ _] & _). rewrite Ho in Ho'. injection Ho' as <-.
      destruct (SETARG_B_fields w 2 Hu) as (H1 & H2 & H3 & H4 & H5); [maxargs; lia|].
      assert (Hv : word_ok (maxstacksize (f F)) (f F) (pc F) (info e) (SETARG_B w 2)).
      { split; [done|]. exists OP_VARARG. rewrite H2, H3, H4. split; [done|]. split; [|done].
        apply Forall_inv in Hr'. split; try done; try by intros [|]. cbn. constructor; [done|]. constructor; [lia|constructor]. }
      eapply cgen_bind; [by eapply (set_word_ok _ _ _ _ _ OP_VARARG)|].
      cbv beta. intros [] F' (-> & Hi' & Hk & Hp). apply cgen_ret.
      split_and!; try done; [|apply Hk|by unfold one_value; rewrite E2|right; split_and!; [done|cbn; lia|done|by right]].
      eapply top_exp_change; try done; [by unfold roots; cbn; rewrite E2|]. cbn. split; [|done].
      exists (SETARG_B w 2). split; [by eapply upd_code_at|]. exists OP_VARARG. rewrite H2, H4. split_and!; done.
    + apply cgen_ret. assert (Ho : one_value e) by (unfold one_value; by destruct (ek e)).
      split_and!; try done; [apply cext_refl|by left].
Qed.

(** *** Instructions that are emitted *)

Lemma emitted_ok i R F n F' : emitted (maxstacksize (f F)) i R F n F' -> ok F' R.
Proof using. intros []. unfold ok. destruct em_kept as (_ & _ & E). by rewrite E. Qed.

Lemma emitted_cext ms i R F n F' : emitted ms i R F n F' -> cext F F' /\ freereg F' = freereg F.
Proof using. intros []. by destruct em_kept as (? & ? & _). Qed.

(** An instruction whose target is still open *)
Lemma emitted_reloc i o R F n F' r e :
  emitted (maxstacksize (f F)) i (et e :: ef e :: R) F n F' -> op_of (GET_OPCODE i) = Some o -> reloc_op o = true ->
  (o = OP_VARARG -> GETARG_B i <= 2) -> freereg F = r -> nactvar F <= r ->
  top_exp F' R r (set_ek VRELOCABLE (set_info n e)).
Proof using.
  intros Hem Ho Hre Hv Hf Hr. destruct (emitted_cext _ _ _ _ _ _ Hem) as (Hc & Hf'). split.
  - apply (emitted_ok _ _ _ _ _ Hem).
  - cbn. split; [|lia]. exists i. split; [apply Hem|]. exists o. split_and!; try done.
    intros ->. split; [|apply Hem]. rewrite (em_pc _ _ _ _ _ _ Hem), (em_pos _ _ _ _ _ _ Hem). lia.
  - by rewrite (cext_nactvar _ _ Hc).
Qed.

Lemma op_create_ABC o a b c :
  0 <= a <= MAXARG_A -> 0 <= b <= MAXARG_B -> 0 <= c <= MAXARG_C ->
  op_of (GET_OPCODE (CREATE_ABC o a b c)) = Some o /\ GETARG_B (CREATE_ABC o a b c) = b.
Proof using. intros Ha Hb Hc. destruct (get_CREATE_ABC o a b c Ha Hb Hc) as (-> & _ & -> & _). by rewrite op_of_num. Qed.

Lemma reloc_ABC_spec R F r e o b c :
  ok F (et e :: ef e :: R) -> freereg F = r -> nactvar F <= r -> getOpMode o = iABC -> reloc_op o = true ->
  (o = OP_VARARG -> b <= 2) -> 0 <= b <= MAXARG_B -> 0 <= c <= MAXARG_C ->
  (forall bx, fits (maxstacksize (f F)) (f F) o 0 b c bx) ->
  cgen s (luaK_codeABC o 0 b c) F (fun n F' =>
    top_exp F' R r (set_ek VRELOCABLE (set_info n e)) /\ cext F F' /\ freereg F' = r).
Proof using HL Hw.
  intros Hi Hf Hr Hm Hre Hv Hb Hc Hfit. assert (Ha : 0 <= 0 <= MAXARG_A) by (maxargs; lia).
  destruct (op_create_ABC o 0 b c Ha Hb Hc) as (Ho & HB).
  eapply cgen_mono; [apply (codeABC_spec s Hw (maxstacksize (f F))); try done; by intros ->|].
  cbv beta. intros n F' Hem. destruct (emitted_cext _ _ _ _ _ _ Hem) as (Hc' & Hf').
  split; [|split; [done|by rewrite Hf']]. eapply emitted_reloc; try done. by rewrite HB.
Qed.

Lemma reloc_ABx_spec R F r e o bx :
  ok F (et e :: ef e :: R) -> freereg F = r -> nactvar F <= r -> getOpMode o = iABx -> reloc_op o = true ->
  0 <= bx <= MAXARG_Bx -> (forall b c, fits (maxstacksize (f F)) (f F) o 0 b c bx) ->
  cgen s (luaK_codeABx o 0 bx) F (fun n F' =>
    top_exp F' R r (set_ek VRELOCABLE (set_info n e)) /\ cext F F' /\ freereg F' = r).
Proof using HL Hw.
  intros Hi Hf Hr Hm Hre Hb Hfit. assert (Ha : 0 <= 0 <= MAXARG_A) by (maxargs; lia).
  destruct (get_CREATE_ABx o 0 bx Ha Hb) as (Ho & _).
  eapply cgen_mono; [by apply (codeABx_spec s Hw (maxstacksize (f F)))|].
  cbv beta. intros n F' Hem. destruct (emitted_cext _ _ _ _ _ _ Hem) as (Hc' & Hf').
  split; [|split; [done|by rewrite Hf']]. eapply emitted_reloc; try done; [by rewrite Ho, op_of_num|].
  intros ->. done.
Qed.

Lemma string_at_range F R i : ok F R -> is_string_at (f F) i -> 0 <= i < nk F /\ 0 <= i <= MAXARG_Bx.
Proof using.
  intros Hi [st Hs]. apply getZ_Some in Hs. pose proof (fi_nk _ _ _ Hi). unfold nk, sizek in *. lia.
Qed.

(** A plain word: no constants, upvalues or functions *)
Lemma fits_regs g ms o a b c bx :
  Forall (fun r => 0 <= r < ms) (regs_of o a b c) -> (forall b c bx, consts_of o b c bx = []) ->
  match o with OP_GETUPVAL | OP_SETUPVAL | OP_CLOSURE | OP_GETGLOBAL | OP_SETGLOBAL => False | _ => True end ->
  fits ms g o a b c bx.
Proof using. intros Hr Hc Ho. split; [done|by rewrite Hc|by intros [-> | ->]|by intros ->|by intros [-> | ->]]. Qed.

Lemma dischargevars_spec F R r e :
  top_exp F R r e ->
  cgen s (luaK_dischargevars e) F (fun e' F' => top_exp F' R r e' /\ cext F F' /\ freereg F' <= freereg F /\ discharged e' /\
    et e' = et e /\ ef e' = ef e /\ (discharged e -> e' = e /\ F' = F) /\ (r < freereg F' -> ek e' = VNONRELOC) /\
    (ek e <> VNONRELOC -> ek e <> VCALL -> freereg F' = r) /\ (ek e' <> VNONRELOC -> ek e' <> VRELOCABLE -> e' = e /\ F' = F)).
Proof using HL Hw.
  intros Ht. pose proof Ht as [Hi He Hr]. pose proof (ok_ms _ _ Hi) as Hm. unfold luaK_dischargevars, discharged.
  assert (H2 : 0 < maxstacksize (f F)) by lia.
  destruct (ek e) eqn:Ek; unfold exp_ok in He; rewrite Ek in He; try done;
    try (assert (Hro : roots e = [et e; ef e]) by (unfold roots; by rewrite Ek); rewrite Hro in Hi);
    try (apply cgen_ret; split_and!; try apply cext_refl; rewrite ?Ek; try done; try (destruct He); intros; done || lia).
  - (* VLOCAL *) destruct He as (He & Hf). apply cgen_ret. split_and!; try done; [|apply cext_refl].
    split; [done| |done]. cbn. left. lia.
  - (* VUPVAL *) destruct He as (He & Hf). pose proof (vo_nups _ (fi_vars _ _ _ Hi)). change LUAI_MAXUPVALUES with 60 in *.
    eapply cgen_bind; [apply (reloc_ABC_spec R F r e OP_GETUPVAL); try done; maxargs; try lia|].
    { intros bx. fits_tac. }
    cbv beta. intros n F' (Ht' & Hc & Hf'). apply cgen_ret. split_and!; try done; lia.
  - (* VGLOBAL *) destruct He as (He & Hf). pose proof (string_at_range _ _ _ Hi He).
    eapply cgen_bind; [apply (reloc_ABx_spec R F r e OP_GETGLOBAL); try done; try lia|].
    { intros b c. fits_tac. }
    cbv beta. intros n F' (Ht' & Hc & Hf'). apply cgen_ret. split_and!; try done; lia.
  - (* VINDEXED *) destruct He as (r1 & Ht1 & Ha). pose proof (temp_range _ _ _ _ Ht1 ltac:(lia)).
    pose proof (rk_temp_range _ _ _ _ Ha ltac:(lia)).
    destruct (rk_operand F (maxstacksize (f F)) _ _ _ Ha ltac:(lia) ltac:(lia) ltac:(lia)) as (HC & HR & HK).
    eapply cgen_bind; [apply (free_rk_spec F ([et e; ef e] ++ R) r1); [done..|lia]|].
    cbv beta. intros [] F1 (-> & Hi1).
    eapply cgen_bind; [by apply (free_reg_spec (with_freereg r1 F) ([et e; ef e] ++ R) r)|].
    cbv beta. intros [] F2 (-> & Hi2).
    eapply cgen_bind; [apply (reloc_ABC_spec R _ r e OP_GETTABLE); try done; maxargs; try (cbn; lia)|].
    { intros bx. split; try done; try by intros [|]. cbn. constructor; [lia|]. constructor; [lia|done]. }
    cbv beta. intros n F' (Ht' & Hc & Hf'). apply cgen_ret. split_and!; try done; try (cbn in *; lia).
    eapply cext_trans; [|exact Hc]. eapply cext_trans; apply cext_freereg.
  - (* VCALL *) eapply cgen_mono; [by apply setoneret_spec|]. cbv beta.
    intros e' F' (Ht' & Hc & Hf & _ & E1 & E2 & _ & Ho). unfold one_value in Ho. rewrite Ek in Ho.
    destruct Ho as [[]|(Hd & Ho & Ho' & Hor)]. split_and!; try done; try lia; auto; by destruct Hor.
  - (* VVARARG *) eapply cgen_mono; [by apply setoneret_spec|]. cbv beta.
    intros e' F' (Ht' & Hc & Hf & _ & E1 & E2 & _ & Ho). unfold one_value in Ho. rewrite Ek in Ho.
    destruct Ho as [[]|(Hd & Ho & Ho' & Hor)]. split_and!; try done; try lia; auto; by destruct Hor.
Qed.

(** ** Values in registers *)

Lemma reserve_spec R F n :
  ok F R -> 0 <= n ->
  cgen s (luaK_reserveregs n) F (fun _ F' => ok F' R /\ cext F F' /\ freereg F' = freereg F + n /\ pc F' = pc F /\
    code (f F') = code (f F) /\ k (f F') = k (f F)).
Proof using HL Hw. intros Hi Hn. apply (reserveregs_spec s Hw (maxstacksize (f F))); [done..|lia]. Qed.

(** An instruction with a known target *)
Lemma plain_ABC_spec R F o a b c :
  ok F R -> getOpMode o = iABC -> o <> OP_TESTSET -> 0 <= a < maxstacksize (f F) -> 0 <= b <= MAXARG_B -> 0 <= c <= MAXARG_C ->
  (forall bx, fits (maxstacksize (f F)) (f F) o a b c bx) ->
  cgen s (luaK_codeABC o a b c) F (fun n F' => ok F' R /\ cext F F' /\ freereg F' = freereg F /\ n = pc F /\ pc F' = pc F + 1 /\
    getZ (code (f F')) n = Some (CREATE_ABC o a b c)).
Proof using HL Hw.
  intros Hi Hm Ho Ha Hb Hc Hf. pose proof (ok_ms _ _ Hi).
  eapply cgen_mono; [apply (codeABC_spec s Hw (maxstacksize (f F))); try done; maxargs; lia|].
  cbv beta. intros n F' Hem. destruct (emitted_cext _ _ _ _ _ _ Hem) as (Hc' & Hf'). split_and!; try done; [|apply Hem..].
  by eapply emitted_ok.
Qed.

Lemma plain_ABx_spec R F o a bx :
  ok F R -> getOpMode o = iABx -> 0 <= a < maxstacksize (f F) -> 0 <= bx <= MAXARG_Bx ->
  (forall b c, fits (maxstacksize (f F)) (f F) o a b c bx) ->
  cgen s (luaK_codeABx o a bx) F (fun n F' => ok F' R /\ cext F F' /\ freereg F' = freereg F /\ n = pc F /\ pc F' = pc F + 1).
Proof using HL Hw.
  intros Hi Hm Ha Hb Hf. pose proof (ok_ms _ _ Hi).
  eapply cgen_mono; [apply (codeABx_spec s Hw (maxstacksize (f F))); try done; maxargs; lia|].
  cbv beta. intros n F' Hem. destruct (emitted_cext _ _ _ _ _ _ Hem) as (Hc' & Hf'). split_and!; try done; [|apply Hem..].
  by eapply emitted_ok.
Qed.

(** A new constant *)
Lemma const_spec R F key :
  ok F R ->
  cgen s (addk key (const_of key)) F (fun i F' => ok F' R /\ cext F F' /\ freereg F' = freereg F /\ pc F' = pc F /\
    code (f F') = code (f F) /\ const_at F' key i /\ 0 <= i < nk F' /\ nk F' <= MAXARG_Bx /\ i <= nk F).
Proof using HL Hw.
  intros Hi. eapply cgen_mono; [by apply (addk_spec s Hw (maxstacksize (f F)))|].
  cbv beta. intros i F' (Hi' & (Hc & Hf & Hm) & Hp & Hco & _ & Hat & Hle & _). split_and!; try done; [|by apply Hat..|apply Hi'].
  unfold ok. by rewrite Hm.
Qed.

(** An expression in the register [reg] *)
Definition fixed (reg : Z) (e : expdesc) : expdesc := set_ek VNONRELOC (set_info reg e).

Definition in_reg (F : FuncState) (R : list Z) (r reg : Z) (e e' : expdesc) (F' : FuncState) : Prop :=
  ok F' (roots e' ++ R) /\ cext F F' /\ freereg F' = r /\
  ((exists e0, e' = fixed reg e0 /\ et e0 = et e /\ ef e0 = ef e) \/
   (e' = e /\ F' = F /\ ek e = VJMP)).

Lemma in_reg_fixed F R r reg e e0 F1 F' :
  ok F' (et e0 :: ef e0 :: R) -> cext F F1 -> cext F1 F' -> freereg F' = r -> et e0 = et e -> ef e0 = ef e ->
  in_reg F R r reg e (fixed reg e0) F'.
Proof using. intros Hi H1 H2 Hf E1 E2. split; [done|]. split; [by eapply cext_trans|]. split; [done|]. left. by eexists. Qed.

(** The last part of [discharge2reg] *)
Lemma discharge_rest F0 F R r reg e0 e :
  cext F0 F -> et e = et e0 -> ef e = ef e0 -> (ek e = VJMP -> e = e0 /\ F = F0) ->
  ok F (roots e ++ R) -> discharged e -> freed F r e -> freereg F = r -> nactvar F <= r -> 0 <= reg < maxstacksize (f F) ->
  cgen s (match ek e with
  | VNIL => luaK_nil reg 1;; mret (fixed reg e)
  | VFALSE => luaK_codeABC OP_LOADBOOL reg 0 0;; mret (fixed reg e)
  | VTRUE => luaK_codeABC OP_LOADBOOL reg 1 0;; mret (fixed reg e)
  | VK => luaK_codeABx OP_LOADK reg (info e);; mret (fixed reg e)
  | VKNUM => i ← luaK_numberK (nval e); luaK_codeABx OP_LOADK reg i;; mret (fixed reg e)
  | VRELOCABLE => i ← get_code (info e); set_code (info e) (SETARG_A i reg);; mret (fixed reg e)
  | VNONRELOC =>
      (if negb (reg =? info e) then luaK_codeABC OP_MOVE reg (info e) 0;; mret tt
       else mret tt);;
      mret (fixed reg e)
  | _ => mret e
  end) F (in_reg F0 R r reg e0).
Proof using HL Hw.
  intros Hc0 E1 E2 Hj Hi Hd He Hf Hr Hreg. pose proof (ok_ms _ _ Hi) as Hm. unfold freed, exp_ok, discharged in *.
  assert (Hro : ek e <> VJMP -> roots e = [et e; ef e]) by (intros; unfold roots; by rewrite bool_decide_eq_false_2).
  destruct (ek e) eqn:Ek; try done; try rewrite Hro in Hi by done.
  - eapply cgen_bind; [apply (luaK_nil_spec s Hw (maxstacksize (f F))); [done|lia..]|]. cbv beta.
    intros [] F' (Hi' & Hk & Hf' & Hm'). apply cgen_ret. eapply (in_reg_fixed _ _ _ _ _ _ F); try done; [|lia]. unfold ok. by rewrite Hm'.
  - eapply cgen_bind; [apply (plain_ABC_spec ([et e; ef e] ++ R)); try done; intros bx; fits_tac|].
    cbv beta. intros n F' (Hi' & Hc & Hf' & _). apply cgen_ret. eapply (in_reg_fixed _ _ _ _ _ _ F); try done. lia.
  - eapply cgen_bind; [apply (plain_ABC_spec ([et e; ef e] ++ R)); try done; intros bx; fits_tac|].
    cbv beta. intros n F' (Hi' & Hc & Hf' & _). apply cgen_ret. eapply (in_reg_fixed _ _ _ _ _ _ F); try done. lia.
  - pose proof (fi_nk _ _ _ Hi). eapply cgen_bind; [apply (plain_ABx_spec ([et e; ef e] ++ R)); try done; [lia|intros bx c; fits_tac]|].
    cbv beta. intros n F' (Hi' & Hc & Hf' & _). apply cgen_ret. eapply (in_reg_fixed _ _ _ _ _ _ F); try done. lia.
  - eapply cgen_bind; [by apply (const_spec ([et e; ef e] ++ R))|]. cbv beta.
    intros i F1 (Hi1 & Hc1 & Hf1 & _ & _ & _ & Hi2 & Hnk & _). pose proof (ce_ms _ _ Hc1).
    eapply cgen_bind; [apply (plain_ABx_spec ([et e; ef e] ++ R)); try done; [lia..|intros bx c; fits_tac]|].
    cbv beta. intros n F' (Hi' & Hc & Hf' & _). apply cgen_ret.
    eapply (in_reg_fixed _ _ _ _ _ _ F1); try done; [by eapply cext_trans|lia].
  - apply cgen_ret. destruct (Hj eq_refl) as [-> ->]. split; [done|]. split; [done|]. split; [done|]. right. done.
  - destruct He as ((w & Hq & o & Ho & Hre & Hv & _) & _). eapply cgen_code; [done|].
    destruct (reloc_set (maxstacksize (f F)) (f F) (pc F) (info e) w o reg) as (Hok & Hop); try done; [by apply (fi_words _ _ _ Hi)|lia|].
    eapply cgen_bind; [eapply (set_word_ok _ _ _ _ _ o); try done; by destruct o|].
    cbv beta. intros [] F' (-> & Hi' & [Hc Hf'] & _). apply cgen_ret. eapply (in_reg_fixed _ _ _ _ _ _ F); try done.
  - destruct He as (He & _).
    apply (cgen_bind _ _ _ _ (fun _ F' => ok F' ([et e; ef e] ++ R) /\ cext F F' /\ freereg F' = freereg F)).
    + apply cgen_if; intros _; [|by apply cgen_ret; split_and!; try done; apply cext_refl].
      eapply cgen_bind; [apply (plain_ABC_spec ([et e; ef e] ++ R)); try done; [maxargs; lia|intros bx; fits_tac]|].
      cbv beta. intros n F' (Hi' & Hc & Hf' & _). by apply cgen_ret.
    + cbv beta. intros [] F' (Hi' & Hc & Hf'). apply cgen_ret. eapply (in_reg_fixed _ _ _ _ _ _ F); try done. lia.
Qed.

Lemma freed_top F R r e : ek e <> VNONRELOC -> ok F (roots e ++ R) -> freed F r e -> nactvar F <= r -> top_exp F R r e.
Proof using. intros Hk Hi He Hr. split; [done| |done]. unfold freed in He. by destruct (ek e). Qed.

Lemma discharged_freed F R r e : discharged e -> ek e <> VNONRELOC -> top_exp F R r e -> freed F r e.
Proof using. intros Hd Hk [_ He _]. unfold freed. by destruct (ek e). Qed.

Lemma discharge2reg_spec F R r e reg :
  ok F (roots e ++ R) -> freed F r e -> ek e <> VCALL -> nactvar F <= r -> 0 <= reg < maxstacksize (f F) ->
  cgen s (discharge2reg e reg) F (in_reg F R r reg e).
Proof using HL Hw.
  intros Hi He Hk Hr Hreg. unfold discharge2reg. destruct (decide (ek e = VNONRELOC)) as [E|E].
  - eapply (cgen_bind _ _ _ _ (fun e' F' => e' = e /\ F' = F)).
    { unfold luaK_dischargevars. rewrite E. by apply cgen_ret. }
    cbv beta. intros e' F' [-> ->]. apply discharge_rest; try done; [apply cext_refl|by unfold discharged; rewrite E|].
    unfold freed in He. rewrite E in He. apply He.
  - pose proof (freed_top _ _ _ _ E Hi He Hr) as Ht.
    eapply cgen_bind; [by apply (dischargevars_spec F R r)|]. cbv beta.
    intros e' F' (Ht' & Hc & Hf & Hd & E1 & E2 & Hsame & Hcase & Hfr & Hvj). pose proof (Hfr E Hk) as Hf'.
    pose proof (ce_ms _ _ Hc). apply discharge_rest; try done; [|by apply Ht'| |by rewrite (cext_nactvar _ _ Hc)|lia].
    + intros Ej. apply Hvj; by rewrite Ej.
    + destruct (decide (ek e' = VNONRELOC)) as [E'|E']; [|by eapply discharged_freed].
      destruct Ht' as [Hi' He' Hr']. unfold freed, exp_ok in *. rewrite E' in *. pose proof (ok_ms _ _ Hi').
      pose proof (temp_range _ _ _ _ He' ltac:(lia)). lia.
Qed.


Lemma hasjumps_false F R e : ok F (et e :: ef e :: R) -> hasjumps e = false -> et e = NO_JUMP /\ ef e = NO_JUMP.
Proof using.
  intros Hi Hj. unfold hasjumps in Hj. bool_facts. rewrite <- Hj in *. split; by eapply same_root.
Qed.

Lemma nojump_ok F R : ok F (NO_JUMP :: R) -> ok F R.
Proof using. apply finv_nojump. Qed.

Lemma ok_nojump F R : ok F R -> ok F (NO_JUMP :: R).
Proof using. apply finv_nojump. Qed.

Lemma ok_perm F R R' : R ≡ₚ R' -> ok F R -> ok F R'.
Proof using. apply finv_perm. Qed.

Lemma kept_ok F F' R : finv (maxstacksize (f F)) F' R -> kept F F' -> ok F' R.
Proof using. intros Hi (_ & _ & E). unfold ok. by rewrite E. Qed.

Lemma words F R : ok F R -> words_ok (maxstacksize (f F)) (f F).
Proof using. intros Hi. apply Hi. Qed.

Lemma getlabel_spec F R {B} (k : Z -> ST (CompState Z') B) Q :
  ok F R -> (forall F', ok F' R -> kept F F' -> code (f F') = code (f F) -> pc F' = pc F -> cgen s (k (pc F)) F' Q) ->
  cgen s (luaK_getlabel ≫= k) F Q.
Proof using.
  intros Hi Hk. unfold luaK_getlabel. apply cgen_assoc, cgen_modify_bind, cgen_get. apply Hk; try done.
  - by apply (getlabel_finv (maxstacksize (f F))).
  - split; [|done]. split; try done. exists []. by rewrite app_nil_r.
Qed.

Lemma code_label_spec F R a b c :
  ok F R -> 0 <= a < maxstacksize (f F) -> 0 <= b <= 1 -> 0 <= c <= 1 ->
  cgen s (code_label a b c) F (fun n F' => ok F' R /\ cext F F' /\ freereg F' = freereg F /\ n = pc F /\ pc F' = pc F + 1 /\
    maxstacksize (f F') = maxstacksize (f F)).
Proof using HL Hw.
  intros Hi Ha Hb Hc. unfold code_label. pose proof (ok_ms _ _ Hi). eapply getlabel_spec; [done|].
  intros F1 Hi1 (Hc1 & Hf1 & Hm1) _ Hp1.
  eapply cgen_mono; [apply (codeABC_spec s Hw (maxstacksize (f F1)) OP_LOADBOOL); try done; maxargs; try lia; intros bx; fits_tac|].
  cbv beta. intros n F' Hem. destruct (emitted_cext _ _ _ _ _ _ Hem) as (Hc' & Hf').
  split_and!; [by eapply emitted_ok|by eapply cext_trans|congruence| | |].
  - rewrite (em_pos _ _ _ _ _ _ Hem). done.
  - rewrite (em_pc _ _ _ _ _ _ Hem). lia.
  - destruct (em_kept _ _ _ _ _ _ Hem) as (_ & _ & E). congruence.
Qed.

(** The loads of false and true: both are there, or all the jumps bring a value *)
Definition labels_ok (F : FuncState) (e : expdesc) (p : Z * Z) : Prop :=
  (0 <= p.1 <= pc F /\ 0 <= p.2 <= pc F) \/ (allvalue (code (f F)) (et e) /\ allvalue (code (f F)) (ef e)).

Lemma load_booleans_spec F R e reg :
  ok F (et e :: ef e :: R) -> 0 <= reg < maxstacksize (f F) ->
  cgen s (load_booleans e reg) F (fun p F' => ok F' (et e :: ef e :: R) /\ cext F F' /\ freereg F' = freereg F /\
    maxstacksize (f F') = maxstacksize (f F) /\ labels_ok F' e p).
Proof using HL Hw.
  intros Hi Hreg. unfold load_booleans. pose proof (ok_ms _ _ Hi) as Hm.
  eapply cgen_bind; [eapply (need_value_spec s Hw (maxstacksize (f F)) ltac:(change MAXSTACK with 250; lia)); [by eapply words|by apply (finv_root (maxstacksize (f F)))]|].
  cbv beta. intros v1 F1 [-> Hv1].
  apply (cgen_bind _ _ _ _ (fun v2 F' => F' = F /\ (v2 = false -> allvalue (code (f F)) (et e) /\ allvalue (code (f F)) (ef e)))).
  { destruct v1; [by apply cgen_ret|]. specialize (Hv1 eq_refl).
    eapply cgen_mono; [eapply (need_value_spec s Hw (maxstacksize (f F)) ltac:(change MAXSTACK with 250; lia)); [by eapply words|]|].
    - apply (finv_root (maxstacksize (f F)) F (ef e) (et e :: R)). eapply ok_perm; [|exact Hi]. apply Permutation_swap.
    - cbv beta. intros b F' [-> Hb]. split; [done|]. auto. }
  cbv beta. intros v2 F1 [-> Hv2]. destruct v2.
  2:{ apply cgen_ret. split_and!; try done; [apply cext_refl|]. right. auto. }
  apply (cgen_bind _ _ _ _ (fun fj F' => ok F' (fj :: et e :: ef e :: R) /\ cext F F' /\ freereg F' = freereg F /\
    maxstacksize (f F') = maxstacksize (f F))).
  { case_bool_decide.
    - apply cgen_ret. split_and!; try done; [by apply finv_nojump|apply cext_refl].
    - eapply cgen_mono; [by apply (jump_spec s Hw (maxstacksize (f F)))|]. cbv beta.
      intros j F' (Hi' & Hk & _). pose proof (kept_ok _ _ _ Hi' Hk). destruct Hk as (? & ? & ?). done. }
  cbv beta. intros fj F1 (Hi1 & Hc1 & Hf1 & Hm1).
  eapply cgen_bind; [apply (code_label_spec F1 (fj :: et e :: ef e :: R)); [done|lia..]|].
  cbv beta. intros p_f F2 (Hi2 & Hc2 & Hf2 & Hp2 & Hpc2 & Hm2).
  eapply cgen_bind; [apply (code_label_spec F2 (fj :: et e :: ef e :: R)); [done|lia..]|].
  cbv beta. intros p_t F3 (Hi3 & Hc3 & Hf3 & Hp3 & Hpc3 & Hm3).
  eapply cgen_bind; [by apply (patchtohere_spec s Hw (maxstacksize (f F3)))|].
  cbv beta. intros [] F4 (Hi4 & Hk4 & Hp4). apply cgen_ret. pose proof (kept_ok _ _ _ Hi4 Hk4). destruct Hk4 as (Hc4 & Hf4 & Hm4).
  split_and!; [done| |congruence|congruence|].
  - eapply cext_trans; [exact Hc1|]. eapply cext_trans; [exact Hc2|]. by eapply cext_trans.
  - left. assert (0 <= pc F1) by apply lenZ_nonneg. cbn. lia.
Qed.

(** An expression that is in a register, without jumps *)
Definition settled_in (reg : Z) (e : expdesc) : Prop :=
  ek e = VNONRELOC /\ info e = reg /\ et e = NO_JUMP /\ ef e = NO_JUMP.

(** The jump of a comparison joins the list of the true ones. *)
Lemma join_jump_spec F R e :
  ok F (roots e ++ R) ->
  cgen s (if bool_decide (ek e = VJMP) then l ← luaK_concat (et e) (info e); mret (set_et l e) else mret e) F
    (fun e' F' => ok F' (et e' :: ef e' :: R) /\ kept F F' /\ ek e' = ek e).
Proof using HL Hw.
  intros Hi. unfold roots in Hi. case_bool_decide as E.
  - eapply cgen_bind; [apply (concat_spec s Hw (maxstacksize (f F)) (et e) (info e) (ef e :: R))|].
    + eapply ok_perm; [|exact Hi]. cbn. apply perm_skip, Permutation_swap.
    + cbv beta. intros l F' (He & Hi' & _). apply cgen_ret. apply jext_kept in He. split_and!; try done.
      by apply (kept_ok F).
  - apply cgen_ret. split_and!; try done. apply kept_refl.
Qed.

(** All the jumps of an expression end here, with its value in [reg]. *)
Lemma end_jumps_spec F R e reg :
  ok F (et e :: ef e :: R) -> 0 <= reg < maxstacksize (f F) ->
  cgen s (if hasjumps e then
     '(p_f, p_t) ← load_booleans e reg;
     final ← luaK_getlabel;
     patchlistaux (ef e) final reg p_f;;
     patchlistaux (et e) final reg p_t
   else mret tt) F (fun _ F' => ok F' R /\ cext F F' /\ freereg F' = freereg F).
Proof using HL Hw.
  intros Hi Hreg. apply cgen_if; intros Hj.
  2:{ destruct (hasjumps_false _ _ _ Hi Hj) as [E1 E2]. rewrite E1, E2 in Hi. apply cgen_ret.
      split_and!; try done; [|apply cext_refl]. by apply nojump_ok, nojump_ok. }
  eapply cgen_bind; [by apply (load_booleans_spec F R)|]. cbv beta. intros [p_f p_t] F1 (Hi1 & Hc1 & Hf1 & Hm1 & Hl).
  eapply getlabel_spec; [done|]. intros F2 Hi2 (Hc2 & Hf2 & Hm2) Hco Hp2.
  assert (0 <= pc F1) by apply lenZ_nonneg.
  eapply cgen_bind; [apply (patchlist_spec s Hw (maxstacksize (f F2)) (ef e) (et e :: R))|].
  - eapply ok_perm; [|exact Hi2]. apply Permutation_swap.
  - right. lia.
  - lia.
  - rewrite Hp2, Hco. destruct Hl as [[Hl1 Hl2]|[_ Hl]]; [left; cbn in Hl1; lia|by right].
  - cbv beta. intros [] F3 (He3 & Hi3 & Hval). pose proof (jext_kept _ _ He3) as (Hc3 & Hf3 & Hm3).
    eapply cgen_mono; [apply (patchlist_spec s Hw (maxstacksize (f F2)) (et e) R); [done|right; lia| |]|].
    + rewrite (jext_pc _ _ He3). lia.
    + rewrite (jext_pc _ _ He3), Hp2. destruct Hl as [[Hl1 Hl2]|[Hl _]]; [left; cbn in Hl2; lia|right].
      apply Hval; [apply elem_of_cons; by left|by rewrite Hco].
    + cbv beta. intros [] F' (He & Hi' & _). pose proof (jext_kept _ _ He) as (Hc & Hf & Hm).
      split_and!; [unfold ok; by rewrite Hm, Hm3| |congruence].
      eapply cext_trans; [exact Hc1|]. eapply cext_trans; [exact Hc2|]. by eapply cext_trans.
Qed.

Lemma exp2reg_spec F R r e reg :
  ok F (roots e ++ R) -> freed F r e -> ek e <> VCALL -> nactvar F <= r -> 0 <= reg < maxstacksize (f F) ->
  cgen s (exp2reg e reg) F (fun e' F' => ok F' R /\ cext F F' /\ freereg F' = r /\ settled_in reg e').
Proof using HL Hw.
  intros Hi He Hk Hr Hreg. unfold exp2reg.
  eapply cgen_bind; [by apply (discharge2reg_spec F R r)|]. cbv beta. intros e1 F1 (Hi1 & Hc1 & Hf1 & _).
  eapply cgen_bind; [by apply join_jump_spec|]. cbv beta. intros e2 F2 (Hi2 & (Hc2 & Hf2 & Hm2) & _).
  pose proof (ce_ms _ _ Hc1). eapply cgen_bind; [apply (end_jumps_spec F2 R); [done|lia]|].
  cbv beta. intros [] F' (Hi' & Hc & Hf). apply cgen_ret. split_and!; try done; [|congruence].
  eapply cext_trans; [exact Hc1|]. by eapply cext_trans.
Qed.

(** More registers do not matter to an expression that needs none. *)
Lemma freed_reserved F F' r e n :
  cext F F' -> pc F' = pc F -> code (f F') = code (f F) -> freereg F' = freereg F + n -> discharged e ->
  freed F r e -> freed F' (r + n) e.
Proof using.
  intros Hc Hp Hco Hf Hd He. pose proof (cext_sizek _ _ Hc) as Hk. pose proof (ce_ms _ _ Hc).
  unfold freed, exp_ok, discharged in *. rewrite Hco, Hf. destruct (ek e); try done; try lia.
  - destruct He as (He & ->). done.
  - destruct He as ((w & Hq & o & Ho & Hre & Hv & Hn) & ->). split; [|done]. exists w. split; [done|]. exists o.
    split_and!; try done. intros Ho'. destruct (Hn Ho') as [Hi Hs]. rewrite Hp. split; [done|].
    unfold strict. by rewrite Hco, Hp.
Qed.

Lemma exp2nextreg_spec F R r e :
  top_exp F R r e ->
  cgen s (luaK_exp2nextreg e) F (fun e' F' => ok F' R /\ cext F F' /\ freereg F' = r + 1 /\ settled_in r e').
Proof using HL Hw.
  intros Ht. pose proof (te_base _ _ _ _ Ht) as Hr. unfold luaK_exp2nextreg.
  eapply cgen_bind; [by apply (dischargevars_spec F R r)|]. cbv beta.
  intros e1 F1 (Ht1 & Hc1 & Hf1 & Hd1 & _ & _ & _ & Hn1 & _).
  pose proof (cext_nactvar _ _ Hc1) as Hna.
  eapply cgen_bind; [by apply (freeexp_spec F1 R r)|]. cbv beta. intros [] F2 (E2 & Hi2 & He2).
  assert (Hc2 : cext F1 F2) by (rewrite E2; apply cext_freereg).
  assert (Hf2 : freereg F2 = r).
  { rewrite E2. case_decide as E; cbn; [done|]. destruct Ht1 as [Hi1 He1 Hr1]. pose proof (ok_ms _ _ Hi1).
    unfold exp_ok in He1. unfold discharged in Hd1. destruct (ek e1); try done; try (by destruct He1). }
  eapply cgen_bind; [by apply (reserve_spec (roots e1 ++ R) F2 1)|]. cbv beta. intros [] F3 (Hi3 & Hc3 & Hf3 & Hp3 & Hco3 & _).
  apply cgen_get. pose proof (ok_ms _ _ Hi3) as Hm3.
  pose proof (cext_nactvar _ _ Hc2). pose proof (cext_nactvar _ _ Hc3).
  eapply cgen_mono; [apply (exp2reg_spec F3 R (r + 1) e1 (freereg F3 - 1)); [done| | |lia|lia]|].
  - by apply (freed_reserved F2).
  - unfold discharged in Hd1. by destruct (ek e1).
  - cbv beta. intros e' F' (Hi' & Hc & Hf & Hs). split_and!; try done.
    + eapply cext_trans; [exact Hc1|]. eapply cext_trans; [exact Hc2|]. by eapply cext_trans.
    + rewrite Hf3, Hf2 in Hs. by replace (r + 1 - 1) with r in Hs by lia.
Qed.

Lemma top_nojumps F R r e : top_exp F R r e -> ek e = VNONRELOC -> hasjumps e = false ->
  ok F R /\ settled_in (info e) e /\ temp F r (info e) (freereg F).
Proof using.
  intros [Hi He Hr] E Hj. unfold roots in Hi. rewrite bool_decide_eq_false_2 in Hi by (by rewrite E).
  destruct (hasjumps_false _ _ _ Hi Hj) as [E1 E2]. cbn in Hi. rewrite E1, E2 in Hi.
  split; [by apply nojump_ok, nojump_ok|]. split; [done|]. unfold exp_ok in He. by rewrite E in He.
Qed.

Lemma settled_self reg e : settled_in reg e -> settled_in (info e) e.
Proof using. by intros (? & _ & ? & ?). Qed.

(** The value of an expression is in some register. *)
Lemma exp2anyreg_spec F R r e :
  top_exp F R r e ->
  cgen s (luaK_exp2anyreg e) F (fun e' F' => ok F' R /\ cext F F' /\ settled_in (info e') e' /\
    temp F' r (info e') (freereg F') /\ (ek e = VNONRELOC -> hasjumps e = false -> e' = e /\ F' = F)).
Proof using HL Hw.
  intros Ht. unfold luaK_exp2anyreg.
  eapply cgen_bind; [by apply (dischargevars_spec F R r)|]. cbv beta.
  intros e1 F1 (Ht1 & Hc1 & Hf1 & Hd1 & E1 & E2 & Hsame & _). apply cgen_get.
  assert (Hs : ek e = VNONRELOC -> e1 = e /\ F1 = F).
  { intros E. apply Hsame. unfold discharged. by rewrite E. }
  apply cgen_if; intros Hb; bool_facts.
  { apply bool_decide_eq_true in H. destruct (top_nojumps _ _ _ _ Ht1 H H0) as (Hi & Hse & Hte).
    apply cgen_ret. split_and!; try done; auto. }
  assert (Hs' : ek e = VNONRELOC -> hasjumps e = false -> False).
  { intros E Hj. destruct (Hs E) as [-> ->]. rewrite E, Hj in Hb. done. }
  apply cgen_if; intros Hb2; bool_facts.
  - apply bool_decide_eq_true in H. pose proof Ht1 as [Hi1 He1 Hr1]. pose proof (ok_ms _ _ Hi1).
    unfold exp_ok in He1. rewrite H in He1. pose proof (temp_range _ _ _ _ He1 ltac:(lia)).
    eapply cgen_mono; [apply (exp2reg_spec F1 R (freereg F1) e1 (info e1)); try done; try lia|].
    + unfold freed. rewrite H. lia.
    + by rewrite H.
    + cbv beta. intros e' F' (Hi' & Hc & Hf & Hse). pose proof (cext_nactvar _ _ Hc).
      split_and!; [done|by eapply cext_trans|by eapply settled_self| |].
      * destruct Hse as (_ & -> & _). rewrite Hf. by eapply temp_cext.
      * intros E Hj. by destruct (Hs' E Hj).
  - eapply cgen_mono; [by apply (exp2nextreg_spec F1 R r)|]. cbv beta. intros e' F' (Hi' & Hc & Hf & Hse).
    pose proof (te_base _ _ _ _ Ht1). pose proof (cext_nactvar _ _ Hc).
    split_and!; [done|by eapply cext_trans|by eapply settled_self| |].
    + destruct Hse as (_ & -> & _). right. lia.
    + intros E Hj. by destruct (Hs' E Hj).
Qed.

Lemma settled_top F R r e : ok F R -> settled_in (info e) e -> temp F r (info e) (freereg F) -> nactvar F <= r -> top_exp F R r e.
Proof using.
  intros Hi (E & _ & E1 & E2) Ht Hr. split; [| |done].
  - unfold roots. rewrite E, E1, E2. cbn. by apply ok_nojump, ok_nojump.
  - unfold exp_ok. by rewrite E.
Qed.

Lemma exp2val_spec F R r e :
  top_exp F R r e ->
  cgen s (luaK_exp2val e) F (fun e' F' => top_exp F' R r e' /\ cext F F' /\ discharged e' /\ hasjumps e' = false /\
    (discharged e -> hasjumps e = false -> e' = e /\ F' = F)).
Proof using HL Hw.
  intros Ht. unfold luaK_exp2val. pose proof (te_base _ _ _ _ Ht). apply cgen_if; intros Hj.
  - eapply cgen_mono; [by apply (exp2anyreg_spec F R r)|]. cbv beta. intros e' F' (Hi & Hc & Hse & Hte & _).
    pose proof (cext_nactvar _ _ Hc). split_and!; [apply settled_top; try done; lia|done| | |].
    + unfold discharged. by destruct Hse as (-> & _).
    + unfold hasjumps. by destruct Hse as (_ & _ & -> & ->).
    + intros _ E. congruence.
  - eapply cgen_mono; [by apply (dischargevars_spec F R r)|]. cbv beta.
    intros e1 F1 (Ht1 & Hc1 & Hf1 & Hd1 & E1 & E2 & Hsame & _). split_and!; try done; [|by auto].
    unfold hasjumps. by rewrite E1, E2.
Qed.

(** ** Operands that are registers or constants *)

(** The expression [e] is the operand [x], and needs the registers from [r] on. *)
Definition rk_exp (F : FuncState) (r x : Z) (e : expdesc) (r' : Z) : Prop :=
  et e = NO_JUMP /\ ef e = NO_JUMP /\
  ((ek e = VK /\ x = RKASK (info e) /\ 0 <= info e <= MAXINDEXRK /\ info e < nk F /\ r' = r) \/
   (ek e = VNONRELOC /\ x = info e /\ temp F r x r')).

Lemma rk_exp_temp F r x e r' : rk_exp F r x e r' -> rk_temp F r x r'.
Proof using.
  intros (_ & _ & [(_ & -> & Hx & Hk & ->)|(_ & -> & Ht)]); [left|by right].
  destruct (RK_fits (info e) Hx) as (H1 & H2 & H3 & _). split; [|done]. unfold rk_const_ok. rewrite H2. unfold nk in *. by split_and!; lia || done.
Qed.

Lemma rk_exp_cext F F' r x e r' : cext F F' -> rk_exp F r x e r' -> rk_exp F' r x e r'.
Proof using.
  intros Hc (E1 & E2 & H). pose proof (cext_sizek _ _ Hc). split; [done|]. split; [done|].
  destruct H as [(? & ? & ? & ? & ?)|(? & ? & ?)]; [left|right]; split_and!; try done; try lia.
  eapply temp_cext; [|done]. by apply cext_nactvar.
Qed.

(** An operand stays as it is. *)
Lemma exp2RK_id F r x e r' : rk_exp F r x e r' -> cgen s (luaK_exp2RK e) F (fun p F' => p = (x, e) /\ F' = F).
Proof using.
  intros (E1 & E2 & H). unfold luaK_exp2RK, luaK_exp2val. assert (Hj : hasjumps e = false) by (unfold hasjumps; by rewrite E1, E2).
  rewrite Hj. destruct H as [(Ek & -> & Hx & Hk & ->)|(Ek & -> & Ht)];
    apply (cgen_bind _ _ _ _ (fun e' F' => e' = e /\ F' = F)); try (unfold luaK_dischargevars; rewrite Ek; by apply cgen_ret).
  - cbv beta. intros e' F' [-> ->]. rewrite Ek. rewrite (proj2 (Z.leb_le _ _)) by lia. by apply cgen_ret.
  - cbv beta. intros e' F' [-> ->]. rewrite Ek.
    apply (cgen_bind _ _ _ _ (fun e' F' => e' = e /\ F' = F)).
    + unfold luaK_exp2anyreg, luaK_dischargevars. rewrite Ek. apply cgen_ret_bind, cgen_get.
      rewrite Ek, Hj. by apply cgen_ret.
    + cbv beta. intros e' F' [-> ->]. by apply cgen_ret.
Qed.

Lemma in_register_spec F R r e :
  top_exp F R r e ->
  cgen s (e ← luaK_exp2anyreg e; mret (info e, e)) F (fun p F' => ok F' R /\ cext F F' /\ rk_exp F' r p.1 p.2 (freereg F')).
Proof using HL Hw.
  intros Ht. eapply cgen_bind; [by apply (exp2anyreg_spec F R r)|]. cbv beta.
  intros e' F' (Hi & Hc & (Ek & _ & E1 & E2) & Hte & _). apply cgen_ret. split; [done|]. split; [done|]. split; [done|]. split; [done|]. by right.
Qed.

(** A constant as an operand *)
Lemma constant_spec F R r e key :
  ok F R -> freereg F = r -> et e = NO_JUMP -> ef e = NO_JUMP -> nk F <= MAXINDEXRK ->
  cgen s (i ← addk key (const_of key); mret (RKASK i, set_ek VK (set_info i e))) F (fun p F' =>
    ok F' R /\ cext F F' /\ rk_exp F' r p.1 p.2 (freereg F')).
Proof using HL Hw.
  intros Hi Hf E1 E2 Hn. eapply cgen_bind; [by apply (const_spec R)|]. cbv beta.
  intros i F' (Hi' & Hc & Hf' & _ & _ & _ & Hr & _ & Hle). apply cgen_ret. split; [done|]. split; [done|].
  split; [done|]. split; [done|]. left. cbn. split_and!; try done; lia.
Qed.

Lemma exp2RK_spec F R r e :
  top_exp F R r e ->
  cgen s (luaK_exp2RK e) F (fun p F' => ok F' R /\ cext F F' /\ rk_exp F' r p.1 p.2 (freereg F')).
Proof using HL Hw.
  intros Ht. unfold luaK_exp2RK.
  eapply cgen_bind; [by apply (exp2val_spec F R r)|]. cbv beta. intros e1 F1 (Ht1 & Hc1 & Hd1 & Hj1 & _).
  eapply cgen_mono with (P := fun p F' => ok F' R /\ cext F1 F' /\ rk_exp F' r p.1 p.2 (freereg F')).
  2:{ cbv beta. intros p F' (? & ? & ?). split_and!; try done. by eapply cext_trans. }
  pose proof Ht1 as [Hi He Hr]. unfold exp_ok in He.
  assert (Hno : ek e1 <> VJMP -> ok F1 R /\ et e1 = NO_JUMP /\ ef e1 = NO_JUMP).
  { intros Hk. unfold roots in Hi. rewrite bool_decide_eq_false_2 in Hi by done.
    destruct (hasjumps_false _ _ _ Hi Hj1) as [E1 E2]. cbn in Hi. rewrite E1, E2 in *. split; [by apply nojump_ok, nojump_ok|done]. }
  destruct (ek e1) eqn:Ek; try (by apply in_register_spec).
  1,2,3,5: destruct (Hno ltac:(done)) as (Hi' & E1 & E2); apply cgen_get, cgen_if; intros Hn; bool_facts; [|by apply in_register_spec];
    by apply constant_spec.
  apply cgen_if; intros Hn; bool_facts; [|by apply in_register_spec].
  destruct (Hno ltac:(done)) as (Hi' & E1 & E2). apply cgen_ret. split; [done|]. split; [apply cext_refl|].
  split; [done|]. split; [done|]. left. cbn. split_and!; try done; lia.
Qed.

Lemma free_rk_exp_spec F R r x e :
  ok F R -> rk_exp F r x e (freereg F) -> nactvar F <= r ->
  cgen s (freeexp e) F (fun _ F' => F' = with_freereg r F /\ ok F' R).
Proof using.
  intros Hi (_ & _ & [(Ek & _ & _ & _ & E)|(Ek & -> & Ht)]) Hr; unfold freeexp; rewrite Ek; cbn.
  - apply cgen_ret. rewrite <- E. split; by destruct F.
  - by apply free_reg_spec.
Qed.

(** ** Assigning to variables *)

Definition var_ok (F : FuncState) (v : expdesc) : Prop :=
  match ek v with
  | VLOCAL => 0 <= info v < maxstacksize (f F)
  | VUPVAL => 0 <= info v < nups (f F)
  | VGLOBAL => is_string_at (f F) (info v)
  | VINDEXED => 0 <= info v < maxstacksize (f F) /\ (rk_const_ok (f F) (aux v) \/ 0 <= aux v < maxstacksize (f F))
  | _ => False
  end.

Lemma rk_const_ok_cext F F' x : cext F F' -> rk_const_ok (f F) x -> rk_const_ok (f F') x.
Proof using. intros Hc (H1 & H2 & H3). pose proof (cext_sizek _ _ Hc). unfold nk in *. split_and!; try done; lia. Qed.

Lemma string_at_cext F F' i : cext F F' -> is_string_at (f F) i -> is_string_at (f F') i.
Proof using. intros [_ [l Hl] _ _ _] [st Hs]. exists st. rewrite Hl. by apply getZ_prefix. Qed.

Lemma var_ok_cext F F' v : cext F F' -> var_ok F v -> var_ok F' v.
Proof using.
  intros Hc Hv. pose proof (ce_ms _ _ Hc). destruct (static_parts _ _ (ce_static _ _ Hc)) as (_ & Hu & _).
  unfold var_ok in *. destruct (ek v); try done; rewrite ?Hu; try lia.
  - by eapply string_at_cext.
  - destruct Hv as [H1 [H2|H2]]; (split; [lia|]); [left; by eapply rk_const_ok_cext|right; lia].
Qed.

Lemma rk_any_operand F x :
  maxstacksize (f F) < 250 -> (rk_const_ok (f F) x \/ 0 <= x < maxstacksize (f F)) ->
  0 <= x <= MAXARG_B /\ Forall (fun y => 0 <= y < maxstacksize (f F)) (rk_reg x) /\ Forall (fun y => 0 <= y < sizek (f F)) (rk_const x).
Proof using.
  intros Hm [(HK & Hx & Hi)|Hx]; unfold rk_reg, rk_const.
  - rewrite HK. split_and!; [lia|lia|constructor|]. by constructor.
  - rewrite reg_not_k by (change MAXSTACK with 250; lia). maxargs. split_and!; [lia|lia| |constructor]. by constructor.
Qed.

Lemma fits_settable g ms a b c bx :
  0 <= a < ms -> Forall (fun y => 0 <= y < ms) (rk_reg b) -> Forall (fun y => 0 <= y < sizek g) (rk_const b) ->
  Forall (fun y => 0 <= y < ms) (rk_reg c) -> Forall (fun y => 0 <= y < sizek g) (rk_const c) ->
  fits ms g OP_SETTABLE a b c bx.
Proof using.
  intros Ha H1 H2 H3 H4. split; try done; try (intros [|]; done); cbn.
  - constructor; [done|]. by apply list.Forall_app.
  - by apply list.Forall_app.
Qed.

Lemma free_settled_spec F R r e :
  ok F R -> settled_in (info e) e -> temp F r (info e) (freereg F) -> nactvar F <= r ->
  cgen s (freeexp e) F (fun _ F' => F' = with_freereg r F /\ ok F' R).
Proof using. intros Hi (Ek & _) Ht Hr. unfold freeexp. rewrite Ek. by apply free_reg_spec. Qed.

Lemma storevar_spec F R r v ex :
  top_exp F R r ex -> ek ex <> VCALL -> var_ok F v ->
  cgen s (luaK_storevar v ex) F (fun _ F' => ok F' R /\ cext F F' /\ freereg F' = r).
Proof using HL Hw.
  intros Ht Hk Hv. pose proof (te_base _ _ _ _ Ht) as Hr. unfold luaK_storevar. unfold var_ok in Hv.
  destruct (ek v) eqn:Ev; try done.
  - (* VLOCAL *)
    eapply cgen_bind; [by apply (freeexp_spec F R r)|]. cbv beta. intros [] F1 (E1 & Hi1 & He1).
    assert (Hc1 : cext F F1) by (rewrite E1; apply cext_freereg). pose proof (cext_nactvar _ _ Hc1). pose proof (ce_ms _ _ Hc1).
    eapply cgen_bind; [apply (exp2reg_spec F1 R r ex (info v)); try done; lia|].
    cbv beta. intros e' F' (Hi' & Hc & Hf & _). apply cgen_ret. split_and!; try done. by eapply cext_trans.
  - (* VUPVAL *)
    eapply cgen_bind; [by apply (exp2anyreg_spec F R r)|]. cbv beta. intros e1 F1 (Hi1 & Hc1 & Hse & Hte & _).
    pose proof (ok_ms _ _ Hi1). pose proof (cext_nactvar _ _ Hc1). pose proof (temp_range _ _ _ _ Hte ltac:(lia)).
    destruct (static_parts _ _ (ce_static _ _ Hc1)) as (_ & Hu & _). pose proof (vo_nups _ (fi_vars _ _ _ Hi1)). change LUAI_MAXUPVALUES with 60 in *.
    eapply cgen_bind; [apply (plain_ABC_spec R F1 OP_SETUPVAL); try done; maxargs; try lia; intros bx; fits_tac|].
    cbv beta. intros n F2 (Hi2 & Hc2 & Hf2 & _). pose proof (cext_nactvar _ _ Hc2).
    eapply cgen_mono; [apply (free_settled_spec F2 R r e1); try done; [rewrite Hf2; by eapply temp_cext|lia]|].
    cbv beta. intros [] F' (-> & Hi'). split_and!; try done.
    eapply cext_trans; [exact Hc1|]. eapply cext_trans; [exact Hc2|]. apply cext_freereg.
  - (* VGLOBAL *)
    eapply cgen_bind; [by apply (exp2anyreg_spec F R r)|]. cbv beta. intros e1 F1 (Hi1 & Hc1 & Hse & Hte & _).
    pose proof (ok_ms _ _ Hi1). pose proof (cext_nactvar _ _ Hc1). pose proof (temp_range _ _ _ _ Hte ltac:(lia)).
    pose proof (string_at_cext _ _ _ Hc1 Hv) as Hs. pose proof (string_at_range _ _ _ Hi1 Hs).
    eapply cgen_bind; [apply (plain_ABx_spec R F1 OP_SETGLOBAL); try done; try lia; intros b c; fits_tac|].
    cbv beta. intros n F2 (Hi2 & Hc2 & Hf2 & _). pose proof (cext_nactvar _ _ Hc2).
    eapply cgen_mono; [apply (free_settled_spec F2 R r e1); try done; [rewrite Hf2; by eapply temp_cext|lia]|].
    cbv beta. intros [] F' (-> & Hi'). split_and!; try done.
    eapply cext_trans; [exact Hc1|]. eapply cext_trans; [exact Hc2|]. apply cext_freereg.
  - (* VINDEXED *)
    eapply cgen_bind; [by apply (exp2RK_spec F R r)|]. cbv beta. intros [x e1] F1 (Hi1 & Hc1 & Hx). cbn [fst snd] in Hx.
    pose proof (ok_ms _ _ Hi1). pose proof (cext_nactvar _ _ Hc1). pose proof (ce_ms _ _ Hc1).
    pose proof (var_ok_cext F F1 v Hc1) as Hv1. unfold var_ok in Hv1. rewrite Ev in Hv1. destruct (Hv1 Hv) as [Hiv Hav].
    pose proof (rk_exp_temp _ _ _ _ _ Hx) as Hxt.
    destruct (rk_operand F1 (maxstacksize (f F1)) _ _ _ Hxt ltac:(lia) ltac:(lia) ltac:(lia)) as (HC & HR & HK).
    destruct (rk_any_operand F1 (aux v) ltac:(lia) Hav) as (HC' & HR' & HK').
    eapply cgen_bind; [apply (plain_ABC_spec R F1 OP_SETTABLE); try done; intros bx; by apply fits_settable|].
    cbv beta. intros n F2 (Hi2 & Hc2 & Hf2 & _). pose proof (cext_nactvar _ _ Hc2).
    eapply cgen_mono; [apply (free_rk_exp_spec F2 R r x e1); [done|rewrite Hf2; by eapply rk_exp_cext|lia]|].
    cbv beta. intros [] F' (-> & Hi'). split_and!; try done.
    eapply cext_trans; [exact Hc1|]. eapply cext_trans; [exact Hc2|]. apply cext_freereg.
Qed.

(** [e:key]: the function and the object are in the registers [r] and [r] + 1. *)
Lemma self_spec F R r e key :
  top_exp F R r e -> et key = NO_JUMP -> ef key = NO_JUMP -> ek key = VK -> 0 <= info key < nk F ->
  cgen s (luaK_self e key) F (fun e' F' => ok F' R /\ cext F F' /\ settled_in r e' /\ freereg F' = r + 2).
Proof using HL Hw.
  intros Ht E1 E2 Ek Hk. pose proof (te_base _ _ _ _ Ht) as Hr. unfold luaK_self.
  eapply cgen_bind; [by apply (exp2anyreg_spec F R r)|]. cbv beta. intros e1 F1 (Hi1 & Hc1 & Hse & Hte & _).
  pose proof (cext_nactvar _ _ Hc1). pose proof (ok_ms _ _ Hi1). pose proof (temp_range _ _ _ _ Hte ltac:(lia)).
  eapply cgen_bind; [apply (free_settled_spec F1 R r e1); try done; lia|]. cbv beta. intros [] F2 (-> & Hi2). apply cgen_get.
  eapply cgen_bind; [by apply (reserve_spec R (with_freereg r F1) 2)|]. cbv beta. intros [] F3 (Hi3 & Hc3 & Hf3 & _).
  change (freereg (with_freereg r F1)) with r in *. pose proof (ce_ms _ _ Hc3) as Hms3. cbn in Hms3.
  pose proof (cext_nactvar _ _ Hc3) as Hna3. cbn in Hna3.
  pose proof (cext_sizek _ _ Hc1). pose proof (cext_sizek _ _ Hc3) as Hk3. change (nk (with_freereg r F1)) with (nk F1) in Hk3.
  eapply cgen_bind; [apply (exp2RK_spec F3 R (r + 2) key); split|].
  - unfold roots. rewrite Ek, E1, E2. cbn. by apply ok_nojump, ok_nojump.
  - unfold exp_ok. rewrite Ek. lia.
  - lia.
  - cbv beta. intros [x k'] F4 (Hi4 & Hc4 & Hx). cbn [fst snd] in Hx. pose proof (ok_ms _ _ Hi4). pose proof (ok_ms _ _ Hi3).
    pose proof (cext_nactvar _ _ Hc4). pose proof (ce_ms _ _ Hc4). pose proof (rk_exp_temp _ _ _ _ _ Hx) as Hxt.
    destruct (rk_operand F4 (maxstacksize (f F4)) _ _ _ Hxt ltac:(lia) ltac:(lia) ltac:(lia)) as (HC & HR & HK).
    eapply cgen_bind; [apply (plain_ABC_spec R F4 OP_SELF); try done; try (maxargs; lia)|].
    { intros bx. split; try done; try (intros [|]; done); cbn. constructor; [lia|]. constructor; [lia|]. constructor; [lia|done]. }
    cbv beta. intros n F5 (Hi5 & Hc5 & Hf5 & _). pose proof (cext_nactvar _ _ Hc5).
    eapply cgen_bind; [apply (free_rk_exp_spec F5 R (r + 2) x k'); [done|rewrite Hf5; by eapply rk_exp_cext|lia]|].
    cbv beta. intros [] F6 (-> & Hi6). apply cgen_ret. split; [done|]. split; [|split; [|done]].
    + eapply cext_trans; [exact Hc1|]. eapply cext_trans; [apply (cext_freereg _ r)|]. eapply cext_trans; [exact Hc3|].
      eapply cext_trans; [exact Hc4|]. eapply cext_trans; [exact Hc5|]. apply cext_freereg.
    + destruct Hse as (Ek1 & _ & E1' & E2'). done.
Qed.

(** [t[key]] for a table in a register *)
Lemma indexed_spec F R r r1 t key :
  temp F r (info t) r1 -> nactvar F <= r -> et t = NO_JUMP -> ef t = NO_JUMP -> top_exp F R r1 key ->
  cgen s (luaK_indexed t key) F (fun e' F' => top_exp F' R r e' /\ cext F F' /\ ek e' = VINDEXED).
Proof using HL Hw.
  intros Htt Hr E1 E2 Ht. unfold luaK_indexed.
  eapply cgen_bind; [by apply (exp2RK_spec F R r1 key)|]. cbv beta. intros [x k'] F' (Hi' & Hc & Hx). cbn [fst snd] in Hx.
  pose proof (cext_nactvar _ _ Hc). apply cgen_ret. split; [|done]. split.
  - cbn. rewrite E1, E2. by apply ok_nojump, ok_nojump.
  - cbn. exists r1. split; [by eapply temp_cext|]. by eapply rk_exp_temp.
  - lia.
Qed.

(** ** Conditions *)

(** The jump of a comparison is there, behind it. *)
Lemma jump_there F l R :
  ok F (l :: R) -> (exists o, op_at (code (f F)) (l - 1) = Some o) -> exists w, getZ (code (f F)) l = Some w.
Proof using.
  intros Hi (o & Ho). destruct (op_at_inv _ _ _ Ho) as (w & Hq & _). apply getZ_Some in Hq.
  apply (finv_root (maxstacksize (f F))) in Hi. destruct Hi as (L & HL' & [Hj _ _]). destruct (fst_cons_inv _ _ _ HL') as (ps & L' & -> & _).
  apply Forall_inv in Hj. cbn in Hj. destruct ps as [|q ps]; [cbn in Hj; unfold NO_JUMP in Hj; lia|].
  destruct Hj as (-> & i & Hi & _). eauto.
Qed.

Lemma comparison_mode o : comparison o -> testTMode o = true /\ o <> OP_TESTSET /\ getOpMode o <> iAsBx.
Proof using. by intros [->|[->| ->]]. Qed.

Lemma invertjump_spec F R e :
  ok F (info e :: R) -> (exists o, op_at (code (f F)) (info e - 1) = Some o /\ comparison o) ->
  cgen s (invertjump e) F (fun _ F' => ok F' (info e :: R) /\ kept F F' /\
    exists o, op_at (code (f F')) (info e - 1) = Some o /\ comparison o).
Proof using.
  intros Hi (o & Ho & Hcmp). pose proof (ok_ms _ _ Hi). destruct (comparison_mode _ Hcmp) as (Ht & Hn & Hm).
  destruct (jump_there _ _ _ Hi (ex_intro _ _ Ho)) as (i & Hq). unfold invertjump.
  eapply (getjumpcontrol_spec s (maxstacksize (f F)) ltac:(change MAXSTACK with 250; lia)); [by eapply words|done|].
  assert (Ec : control (code (f F)) (info e) = info e - 1) by (unfold control; by rewrite Ho, Ht). rewrite Ec.
  destruct (op_at_inv _ _ _ Ho) as (w & Hw' & Ho'). eapply cgen_code; [done|].
  destruct (fi_words _ _ _ Hi _ _ Hw') as (Hu & o' & Ho2 & [Hr Hk Hup Hp Hg] & _). rewrite Ho' in Ho2. injection Ho2 as <-.
  set (v := if GETARG_A w =? 0 then 1 else 0). assert (Hv : 0 <= v <= 1) by (unfold v; case_if; lia).
  destruct (SETARG_A_fields w v Hu) as (H1 & H2 & H3 & H4 & H5 & H6); [maxargs; lia|].
  eapply cgen_mono; [eapply (set_word_ok F (info e :: R) _ w (SETARG_A w v) o); try done|].
  - split; [done|]. exists o. rewrite H2, H3, H4, H5, H6. split; [done|]. split; [|done]. by destruct Hcmp as [->|[->| ->]].
  - cbv beta. intros [] F' (-> & Hi' & Hkk & _). split_and!; try done. exists o. split; [|done].
    rewrite (op_at_Some _ _ (SETARG_A w v)); [by rewrite H2|]. by eapply upd_code_at.
Qed.

(** *** Taking an OP_NOT back *)

Definition popped (F : FuncState) : FuncState :=
  with_f (with_code (take (Z.to_nat (pc F - 1)) (code (f F))) (take (Z.to_nat (pc F - 1)) (lineinfo (f F))) (f F)) F.

Lemma getZ_firsts {A} (l : list A) n i : i < n -> getZ (take (Z.to_nat n) l) i = getZ l i.
Proof using.
  intros Hi. unfold getZ. destruct (0 <=? i) eqn:E; [|done]. bool_facts. apply lookup_take_lt. lia.
Qed.

Lemma getZ_take_Some {A} (l : list A) n i x : getZ (take (Z.to_nat n) l) i = Some x -> getZ l i = Some x.
Proof using.
  unfold getZ. destruct (0 <=? i); [|done]. intros H. rewrite lookup_take in H. by case_decide.
Qed.

Lemma popped_lists c L n w :
  glists c L -> n = lenZ c - 1 -> getZ c n = Some w -> ~ jump_word w -> glists (take (Z.to_nat n) c) L.
Proof using.
  intros [Hj Hn Hp] -> Hq Hw'. split; [|done|].
  - eapply Forall_impl; [|exact Hj]. intros [l ps] Hl. cbn in *. eapply jl_frame; [|exact Hl].
    intros q Hin. apply getZ_firsts. pose proof (jl_range _ _ _ _ Hl Hin). destruct (jl_word _ _ _ _ Hl Hin) as (i & Hi & Hji).
    destruct (decide (q = lenZ c - 1)) as [->|]; [congruence|lia].
  - intros q i Hi. apply getZ_take_Some in Hi. eauto.
Qed.

Lemma popped_ok F R w :
  ok F R -> getZ (code (f F)) (pc F - 1) = Some w -> op_of (GET_OPCODE w) = Some OP_NOT -> strict F -> ok (popped F) R.
Proof using.
  intros Hi Hq Ho Hs. assert (Hnj : ~ jump_word w) by (by eapply jump_word_not).
  pose proof (getZ_Some _ _ _ Hq) as Hr. unfold ok. destruct Hi. unfold pc, sizecode in *.
  assert (Hpc : sizecode (f (popped F)) = pc F - 1) by (unfold popped, pc, sizecode; cbn; rewrite lenZ_take; lia).
  split; try done.
  - destruct fi_lists as (L & HL' & Hg). exists L. split; [done|]. by apply (popped_lists _ L (pc F - 1) w Hg).
  - intros q i Hqi. pose proof (getZ_Some _ _ _ Hqi) as Hqr. unfold sizecode in Hpc. rewrite Hpc in Hqr.
    cbn in Hqi. apply getZ_take_Some in Hqi. destruct (fi_words _ _ Hqi) as (Hu & o & Ho' & Hf & Hd).
    split; [done|]. exists o. split; [done|].
    split; [eapply fits_mono; [..|exact Hf]; try done; exact (k_refl (f F))|]. intros Hm. specialize (Hd Hm).
    pose proof (Hs _ _ Hqi (conj Hu (ex_intro _ o (conj Ho' Hm)))). unfold sizecode. rewrite Hpc. lia.
  - unfold pc at 1. rewrite Hpc. unfold popped, pc, sizecode; cbn; rewrite lenZ_take; lia.
  - unfold pc. rewrite Hpc. unfold pc, sizecode. lia.
  - by apply (vars_ok_static F).
Qed.

Lemma popped_cext F F' w :
  getZ (code (f F)) (pc F - 1) = Some w -> op_of (GET_OPCODE w) = Some OP_NOT -> cext (popped F) F' -> pc F <= pc F' -> cext F F'.
Proof using.
  intros Hq Ho [H1 H2 H3 H4 H5] Hp. split; try done. intros q Hqt. apply H5.
  destruct (op_at_inv _ _ _ Hqt) as (i & Hi & Hoi). pose proof (getZ_Some _ _ _ Hi) as Hr.
  assert (q <> pc F - 1) by (intros ->; congruence).
  rewrite (op_at_Some _ _ i); [done|]. cbn. rewrite getZ_firsts; [done|]. unfold pc, sizecode in *. lia.
Qed.

Lemma pop_code_spec F w :
  getZ (code (f F)) (pc F - 1) = Some w -> cgen s pop_code F (fun _ F' => F' = popped F).
Proof using. intros Hq. unfold pop_code. apply cgen_get. eapply cgen_code; [done|]. by apply cgen_modify. Qed.

Lemma fits_test g ms o a b c bx : o = OP_TEST \/ o = OP_TESTSET /\ a = NO_REG -> 0 <= (if decide (o = OP_TEST) then a else b) < ms -> fits ms g o a b c bx.
Proof using.
  intros [->|[-> ->]]; cbn; intros H; split; try done; try (intros [|]; done); cbn; by constructor.
Qed.

(** A test of a register, and the jump behind it *)
Lemma test_jump_spec R F o a b c :
  ok F R -> (o = OP_TEST /\ 0 <= a < maxstacksize (f F) /\ b = 0 \/ o = OP_TESTSET /\ a = NO_REG /\ 0 <= b < maxstacksize (f F)) -> 0 <= c <= 1 ->
  cgen s (condjump o a b c) F (fun j F' => ok F' (j :: R) /\ kept F F' /\ j = pc F + 1 /\ pc F' = pc F + 2).
Proof using HL Hw.
  intros Hi Ho Hc. pose proof (ok_ms _ _ Hi).
  eapply cgen_mono; [apply (condjump_spec s Hw (maxstacksize (f F)) o a b c R); try done|].
  - by destruct Ho as [(-> & _)|(-> & _)].
  - destruct Ho as [(-> & ? & ->)|(-> & -> & ?)]; maxargs; unfold NO_REG; maxargs; lia.
  - destruct Ho as [(-> & ? & ->)|(-> & -> & ?)]; maxargs; lia.
  - maxargs; lia.
  - intros bx. destruct Ho as [(-> & ? & ->)|(-> & -> & ?)]; apply fits_test; auto.
  - cbv beta. intros j F' (Hi' & Hk & Hj & Hp & _). split_and!; try done. by apply (kept_ok F).
Qed.

Lemma discharge2anyreg_spec F R r e :
  top_exp F R r e -> discharged e -> ek e <> VJMP ->
  cgen s (discharge2anyreg e) F (fun e' F' =>
    top_exp F' R r e' /\ cext F F' /\ ek e' = VNONRELOC /\ et e' = et e /\ ef e' = ef e).
Proof using HL Hw.
  intros Ht Hd Hk. pose proof Ht as [Hi He Hr]. pose proof (ok_ms _ _ Hi).
  unfold discharge2anyreg. apply cgen_if; intros Hb; bool_facts.
  2:{ apply bool_decide_eq_true in Hb. apply cgen_ret. split_and!; try done. apply cext_refl. }
  apply bool_decide_eq_false in Hb.
  eapply cgen_bind; [by apply (reserve_spec (roots e ++ R) F 1)|]. cbv beta. intros [] F1 (Hi1 & Hc1 & Hf1 & Hp1 & Hco1 & _).
  apply cgen_get. pose proof (discharged_freed _ _ _ _ Hd Hb Ht) as Hfr.
  pose proof (cext_nactvar _ _ Hc1). pose proof (ok_ms _ _ Hi1).
  assert (Hfr' : freereg F = r). { unfold exp_ok, discharged in *. destruct (ek e); try done; by destruct He. }
  eapply cgen_mono; [apply (discharge2reg_spec F1 R (r + 1) e (freereg F1 - 1)); try done; try lia|].
  - by eapply freed_reserved.
  - unfold discharged in Hd. by destruct (ek e).
  - cbv beta. intros e' F' (Hi' & Hc' & Hf' & [(e0 & -> & E1 & E2)|(-> & _ & E)]); [|done].
    pose proof (cext_nactvar _ _ Hc').
    split_and!; try done; [split; [done| |lia]|by eapply cext_trans]. cbn. right. lia.
Qed.

(** A value in a register that is given back at once *)
Lemma reg_freed_spec F R r e :
  top_exp F R r e -> ek e = VNONRELOC ->
  0 <= info e < maxstacksize (f F) /\
  cgen s (freeexp e) F (fun _ F' => F' = with_freereg r F /\ ok F' (et e :: ef e :: R)).
Proof using.
  intros Ht Ek. pose proof Ht as [Hi He Hr]. unfold exp_ok in He. rewrite Ek in He.
  pose proof (ok_ms _ _ Hi). pose proof (temp_range _ _ _ _ He ltac:(lia)). split; [lia|].
  eapply cgen_mono; [by apply (freeexp_spec F R r e)|]. cbv beta. intros [] F2 (-> & Hi2 & _).
  rewrite decide_True in Hi2 |- * by done. unfold roots in Hi2. by rewrite Ek in Hi2.
Qed.

Lemma test_register_spec F R r e cond :
  top_exp F R r e -> discharged e -> ek e <> VJMP -> 0 <= cond <= 1 ->
  cgen s (e ← discharge2anyreg e; freeexp e;; j ← condjump OP_TESTSET NO_REG (info e) cond; mret (j, e)) F (fun p F' =>
    ok F' (p.1 :: et p.2 :: ef p.2 :: R) /\ cext F F' /\ freereg F' = r /\ et p.2 = et e /\ ef p.2 = ef e).
Proof using HL Hw.
  intros Ht Hd Hk Hc. eapply cgen_bind; [by apply (discharge2anyreg_spec F R r)|].
  cbv beta. intros e1 F1 (Ht1 & Hc1 & Ek1 & E1 & E2). destruct (reg_freed_spec _ _ _ _ Ht1 Ek1) as (Hr1 & Hfree).
  eapply cgen_bind; [exact Hfree|]. cbv beta. intros [] F2 (-> & Hi2).
  eapply cgen_bind; [eapply test_jump_spec; [exact Hi2| |done]; by right|].
  cbv beta. intros j F' (Hi' & (Hc' & Hf' & _) & _). apply cgen_ret. split_and!; try done.
  eapply cext_trans; [exact Hc1|]. eapply cext_trans; [apply (cext_freereg _ r)|done].
Qed.

(** A jump that is taken when the value of the expression is [cond] *)
Lemma jumponcond_spec F R r e cond :
  top_exp F R r e -> discharged e -> ek e <> VJMP -> 0 <= cond <= 1 ->
  cgen s (jumponcond e cond) F (fun p F' =>
    ok F' (p.1 :: et p.2 :: ef p.2 :: R) /\ cext F F' /\ freereg F' = r /\ et p.2 = et e /\ ef p.2 = ef e).
Proof using HL Hw.
  intros Ht Hd Hk Hc. unfold jumponcond. destruct (decide (ek e = VRELOCABLE)) as [E|E].
  2:{ rewrite bool_decide_eq_false_2 by done. apply cgen_ret_bind. by apply test_register_spec. }
  rewrite bool_decide_eq_true_2 by done. apply cgen_assoc.
  pose proof Ht as [Hi He Hr]. unfold exp_ok in He. rewrite E in He. destruct He as ((w & Hq & o & Ho & Hre & Hv & Hn) & Hf).
  eapply cgen_code; [done|]. apply cgen_ret_bind. apply cgen_if; intros Hop; [|by apply test_register_spec].
  rewrite (is_op_op_of _ _ _ Ho), bool_decide_eq_true in Hop. subst o. destruct (Hn eq_refl) as [Ei Hs]. rewrite Ei in Hq.
  eapply cgen_bind; [by eapply pop_code_spec|]. cbv beta. intros [] F1 ->.
  pose proof (popped_ok F _ w Hi Hq Ho Hs) as Hi1. unfold roots in Hi1. rewrite E in Hi1.
  destruct (fi_words _ _ _ Hi _ _ Hq) as (_ & o & Ho' & [Hregs _ _ _ _] & _). rewrite Ho in Ho'. injection Ho' as <-.
  cbn in Hregs. apply Forall_inv_tail, Forall_inv in Hregs.
  eapply cgen_bind; [eapply test_jump_spec; [exact Hi1| |]|].
  - by left.
  - case_if; lia.
  - cbv beta. intros j F' (Hi' & (Hc' & Hf' & _) & _ & Hp'). apply cgen_ret. split_and!; try done; [|cbn in *; lia].
    pose proof (getZ_Some _ _ _ Hq) as Hrq. eapply popped_cext; [done|done|done|]. rewrite Hp'.
    assert (pc (popped F) = pc F - 1); [|lia]. unfold popped, pc, sizecode in *. cbn. rewrite lenZ_take; lia.
Qed.

(** The condition jumps to the list of the false, or of the true, ones. *)
Lemma goiftrue_spec F R r e :
  top_exp F R r e ->
  cgen s (luaK_goiftrue e) F (fun e' F' => ok F' (ef e' :: R) /\ cext F F' /\ freereg F' = r /\ et e' = NO_JUMP).
Proof using HL Hw.
  intros Ht. unfold luaK_goiftrue.
  eapply cgen_bind; [by apply (dischargevars_spec F R r)|]. cbv beta. intros e1 F1 (Ht1 & Hc1 & _ & Hd1 & E1 & E2 & _ & Hn1 & _).
  apply (cgen_bind _ _ _ _ (fun p F' => ok F' (p.1 :: et p.2 :: ef p.2 :: R) /\ cext F1 F' /\ freereg F' = r)).
  { pose proof Ht1 as [Hi He Hr]. unfold exp_ok, roots in *.
    assert (Hjc : ek e1 <> VJMP -> cgen s (jumponcond e1 0) F1 (fun p F' => ok F' (p.1 :: et p.2 :: ef p.2 :: R) /\ cext F1 F' /\ freereg F' = r)).
    { intros Hk. eapply cgen_mono; [by apply (jumponcond_spec F1 R r)|]. cbv beta. by intros p F' (? & ? & ? & _). }
    destruct (ek e1) eqn:Ek; try (by apply Hjc); cbn in Hi.
    - apply cgen_ret. split_and!; try done; [by apply ok_nojump|apply cext_refl].
    - destruct He as (_ & He). apply cgen_ret. split_and!; try done; [by apply ok_nojump|apply cext_refl].
    - apply cgen_ret. split_and!; try done; [by apply ok_nojump|apply cext_refl].
    - destruct He as (He & Hf). eapply cgen_bind; [apply (invertjump_spec F1 (et e1 :: ef e1 :: R)); [|done]|].
      + eapply ok_perm; [|exact Hi]. cbn. symmetry. apply (Permutation_middle [et e1; ef e1] R).
      + cbv beta. intros [] F' (Hi' & (Hc' & Hf' & _) & _). apply cgen_ret. split_and!; try done. lia. }
  cbv beta. intros [j e2] F2 (Hi2 & Hc2 & Hf2). cbn [fst snd] in Hi2.
  eapply cgen_bind; [apply (concat_spec s Hw (maxstacksize (f F2)) (ef e2) j (et e2 :: R))|].
  - eapply ok_perm; [|exact Hi2]. symmetry. apply (Permutation_middle [j; et e2] R).
  - cbv beta. intros l F3 (He3 & Hi3 & _). apply jext_kept in He3.
    eapply cgen_bind; [apply (patchtohere_spec s Hw (maxstacksize (f F2)) (et e2) (l :: R))|].
    + eapply finv_perm; [|exact Hi3]. apply Permutation_swap.
    + cbv beta. intros [] F4 (Hi4 & Hk4 & _). apply cgen_ret. pose proof (kept_trans _ _ _ He3 Hk4) as Hk.
      pose proof (kept_ok F2 F4 _ Hi4 Hk). destruct Hk as (Hc & Hf & _). split_and!; try done; [|congruence].
      eapply cext_trans; [exact Hc1|]. by eapply cext_trans.
Qed.

Lemma goiffalse_spec F R r e :
  top_exp F R r e ->
  cgen s (luaK_goiffalse e) F (fun e' F' => ok F' (et e' :: R) /\ cext F F' /\ freereg F' = r /\ ef e' = NO_JUMP).
Proof using HL Hw.
  intros Ht. unfold luaK_goiffalse.
  eapply cgen_bind; [by apply (dischargevars_spec F R r)|]. cbv beta. intros e1 F1 (Ht1 & Hc1 & _ & Hd1 & E1 & E2 & _ & Hn1 & _).
  apply (cgen_bind _ _ _ _ (fun p F' => ok F' (p.1 :: et p.2 :: ef p.2 :: R) /\ cext F1 F' /\ freereg F' = r)).
  { pose proof Ht1 as [Hi He Hr]. unfold exp_ok, roots in *.
    assert (Hjc : ek e1 <> VJMP -> cgen s (jumponcond e1 1) F1 (fun p F' => ok F' (p.1 :: et p.2 :: ef p.2 :: R) /\ cext F1 F' /\ freereg F' = r)).
    { intros Hk. eapply cgen_mono; [by apply (jumponcond_spec F1 R r)|]. cbv beta. by intros p F' (? & ? & ? & _). }
    destruct (ek e1) eqn:Ek; try (by apply Hjc); cbn in Hi.
    - apply cgen_ret. split_and!; try done; [by apply ok_nojump|apply cext_refl].
    - apply cgen_ret. split_and!; try done; [by apply ok_nojump|apply cext_refl].
    - destruct He as (He & Hf). apply cgen_ret. split_and!; try done; [|apply cext_refl].
      eapply ok_perm; [|exact Hi]. symmetry. apply (Permutation_middle [et e1; ef e1] R). }
  cbv beta. intros [j e2] F2 (Hi2 & Hc2 & Hf2). cbn [fst snd] in Hi2.
  eapply cgen_bind; [apply (concat_spec s Hw (maxstacksize (f F2)) (et e2) j (ef e2 :: R))|].
  - eapply ok_perm; [|exact Hi2]. apply Permutation_swap.
  - cbv beta. intros l F3 (He3 & Hi3 & _). apply jext_kept in He3.
    eapply cgen_bind; [apply (patchtohere_spec s Hw (maxstacksize (f F2)) (ef e2) (l :: R))|].
    + eapply finv_perm; [|exact Hi3]. apply Permutation_swap.
    + cbv beta. intros [] F4 (Hi4 & Hk4 & _). apply cgen_ret. pose proof (kept_trans _ _ _ He3 Hk4) as Hk.
      pose proof (kept_ok F2 F4 _ Hi4 Hk). destruct Hk as (Hc & Hf & _). split_and!; try done; [|congruence].
      eapply cext_trans; [exact Hc1|]. by eapply cext_trans.
Qed.

(** *** Negation *)

Lemma strict_jumps F F' :
  words_ok (maxstacksize (f F)) (f F) -> jext F F' ->
  (forall r j, getZ (code (f F)) r = Some j -> jump_word j -> getZ (code (f F')) r = Some j) -> strict F -> strict F'.
Proof using.
  intros Hw' He Hj Hs q i Hq Hji. rewrite (jext_pc _ _ He). pose proof (jext_ops _ _ He q) as Ho.
  assert (Hr : 0 <= q < lenZ (code (f F))).
  { apply getZ_Some in Hq. destruct He as (c' & -> & Hl & _). cbn in Hq. lia. }
  destruct (getZ_is_Some _ _ Hr) as [w Hqw]. destruct (Hw' _ _ Hqw) as (Hu & o & Hwo & _).
  rewrite (op_at_Some _ _ _ Hq), (op_at_Some _ _ _ Hqw) in Ho. destruct Hji as (Hui & o' & Hio & Hm).
  assert (E : o' = o). { destruct Ho as [Ho|[_ Ho]]; [congruence|]. rewrite Hio in Ho. injection Ho as ->. done. }
  subst o'. assert (Hjw : jump_word w) by (split; [done|]; by exists o).
  pose proof (Hj _ _ Hqw Hjw) as Hq'. rewrite Hq in Hq'. injection Hq' as ->. by apply (Hs q w).
Qed.

Lemma removevalues_keeps F R l :
  ok F (l :: R) ->
  cgen s (removevalues l) F (fun _ F' => ok F' (l :: R) /\ jext F F' /\ (strict F -> strict F')).
Proof using HL Hw.
  intros Hi. pose proof (ok_ms _ _ Hi).
  eapply cgen_mono; [eapply (removevalues_spec s Hw (maxstacksize (f F)) ltac:(change MAXSTACK with 250; lia));
    [by eapply words|by apply (finv_root (maxstacksize (f F)))]|].
  cbv beta. intros [] F' (He & Hw' & Hl & Hj). split_and!; try done.
  - apply (kept_ok F); [|by apply jext_kept]. eapply finv_jext; [exact Hi|done|done|].
    destruct He as (c' & -> & _). eapply jlists_perm; [symmetry; apply roots_cons|done].
  - eapply strict_jumps; try done. by eapply words.
Qed.

(** The kinds of values that [codenot] leaves *)
Definition negated (F : FuncState) (e : expdesc) : Prop :=
  match ek e with
  | VTRUE | VFALSE => True
  | VJMP => exists o, op_at (code (f F)) (info e - 1) = Some o /\ comparison o
  | VRELOCABLE => op_at (code (f F)) (info e) = Some OP_NOT /\ info e = pc F - 1 /\ strict F
  | _ => False
  end.

Lemma ops_kept c c' q o : ops_ext c c' -> op_at c q = Some o -> o <> OP_TESTSET -> op_at c' q = Some o.
Proof using. intros He Ho Hn. destruct (He q) as [->|[E _]]; congruence. Qed.

Lemma negated_kept F F' e : jext F F' -> (strict F -> strict F') -> negated F e -> negated F' e.
Proof using.
  intros He Hs Hn. pose proof (jext_ops _ _ He) as Ho. unfold negated in *. destruct (ek e); try done.
  - destruct Hn as (o & Hq & Hc). exists o. split; [|done]. eapply ops_kept; [done|done|]. by apply comparison_mode.
  - destruct Hn as (Hq & Hi & Hst). split; [by eapply ops_kept|]. rewrite (jext_pc _ _ He). auto.
Qed.

Lemma negated_top F R r e : ok F (roots e ++ R) -> negated F e -> freereg F = r -> nactvar F <= r -> top_exp F R r e.
Proof using.
  intros Hi Hn Hf Hr. split; try done. unfold negated, exp_ok in *. destruct (ek e); try done.
  destruct Hn as (Hq & Hp & Hs). split; [|done]. destruct (op_at_inv _ _ _ Hq) as (w & Hqw & Ho).
  exists w. split; [done|]. exists OP_NOT. by split_and!.
Qed.

Lemma fits_not g ms a b c bx : 0 <= a < ms -> 0 <= b < ms -> fits ms g OP_NOT a b c bx.
Proof using. intros. split; try done; try (intros [|]; done). cbn. by repeat constructor; try lia. Qed.

Lemma codenot_spec F R r e :
  top_exp F R r e -> cgen s (codenot e) F (fun e' F' => val_exp F' R r e' /\ cext F F').
Proof using HL Hw.
  intros Ht. unfold codenot.
  eapply cgen_bind; [by apply (dischargevars_spec F R r)|]. cbv beta. intros e1 F1 (Ht1 & Hc1 & _ & Hd1 & E1 & E2 & _ & Hn1 & _).
  apply (cgen_bind _ _ _ _ (fun e' F' => ok F' (roots e' ++ R) /\ negated F' e' /\ freereg F' = r /\ cext F1 F')).
  { pose proof Ht1 as [Hi He Hr]. unfold exp_ok, roots in *.
    assert (Hreg : ek e1 <> VJMP -> cgen s (e ← discharge2anyreg e1; freeexp e;; i ← luaK_codeABC OP_NOT 0 (info e) 0;
        mret (set_ek VRELOCABLE (set_info i e))) F1 (fun e' F' => ok F' (roots e' ++ R) /\ negated F' e' /\ freereg F' = r /\ cext F1 F')).
    { intros Hk. eapply cgen_bind; [by apply (discharge2anyreg_spec F1 R r)|].
      cbv beta. intros e2 F2 (Ht2 & Hc2 & Ek2 & _). destruct (reg_freed_spec _ _ _ _ Ht2 Ek2) as (Hr2 & Hfree).
      eapply cgen_bind; [exact Hfree|]. cbv beta. intros [] F3 (-> & Hi3). pose proof (ok_ms _ _ Hi3) as Hm3. cbn in Hm3.
      eapply cgen_bind; [apply (codeABC_spec s Hw (maxstacksize (f F2)) OP_NOT 0 (info e2) 0 (et e2 :: ef e2 :: R)); try done; try (maxargs; lia)|].
      { intros bx. apply fits_not; lia. }
      cbv beta. intros n F4 Hem. apply cgen_ret. destruct (emitted_cext _ _ _ _ _ _ Hem) as (Hc4 & Hf4).
      split_and!; [|unfold negated; cbn; split_and!| |].
      - apply (emitted_ok _ _ (with_freereg r F2) _ _ Hem).
      - rewrite (op_at_Some _ _ _ (em_at _ _ _ _ _ _ Hem)). by apply op_create_ABC; maxargs; lia.
      - rewrite (em_pc _ _ _ _ _ _ Hem), (em_pos _ _ _ _ _ _ Hem). lia.
      - apply Hem.
      - done.
      - eapply cext_trans; [exact Hc2|]. eapply cext_trans; [apply (cext_freereg _ r)|done]. }
    unfold discharged in Hd1. destruct (ek e1) eqn:Ek; try done; try (by apply Hreg); cbn in Hi.
    1-5: apply cgen_ret; split_and!; try done; try apply cext_refl; by destruct He.
    destruct He as (He & Hf). assert (Hp : forall F', ok F' (info e1 :: et e1 :: ef e1 :: R) -> ok F' (et e1 :: ef e1 :: info e1 :: R)).
    { intros F'. apply ok_perm. apply (Permutation_middle [et e1; ef e1] R). }
    eapply cgen_bind; [apply (invertjump_spec F1 (et e1 :: ef e1 :: R)); [|done]|].
    - eapply ok_perm; [|exact Hi]. symmetry. apply (Permutation_middle [et e1; ef e1] R).
    - cbv beta. intros [] F' (Hi' & (Hc' & Hf' & _) & Hop'). apply cgen_ret. rewrite Ek. cbn. split_and!; try done; [by apply Hp| |lia].
      unfold negated. by rewrite Ek. }
  cbv beta. intros e2 F2 (Hi2 & Hn2 & Hf2 & Hc2). set (e3 := set_et (ef e2) (set_ef (et e2) e2)).
  assert (Hi3 : ok F2 (ef e3 :: et e3 :: (if bool_decide (ek e3 = VJMP) then [info e3] else []) ++ R)) by exact Hi2.
  assert (Hn3 : negated F2 e3) by exact Hn2. clearbody e3.
  eapply cgen_bind; [by apply removevalues_keeps|]. cbv beta. intros [] F3 (Hi4 & He4 & Hs4).
  eapply cgen_bind; [apply (removevalues_keeps F3 (ef e3 :: (if bool_decide (ek e3 = VJMP) then [info e3] else []) ++ R))|].
  { eapply ok_perm; [|exact Hi4]. apply Permutation_swap. }
  cbv beta. intros [] F4 (Hi5 & He5 & Hs5). apply cgen_ret.
  pose proof (jext_kept _ _ He4) as (Hc4 & Hf4 & _). pose proof (jext_kept _ _ He5) as (Hc5 & Hf5 & _).
  assert (Hc : cext F1 F4) by (eapply cext_trans; [exact Hc2|]; by eapply cext_trans).
  pose proof (te_base _ _ _ _ Ht1). pose proof (cext_nactvar _ _ Hc). split; [|by eapply cext_trans].
  assert (Hn5 : negated F4 e3) by (eapply negated_kept; [done|done|]; by eapply negated_kept).
  split; [apply negated_top; try done; congruence || lia|]. unfold negated, discharged in *. by destruct (ek e3).
Qed.

(** ** Operators *)

Lemma RKASK_large x : 0 <= x <= MAXINDEXRK -> 256 <= RKASK x.
Proof using.
  intros Hx. destruct (RK_fits x Hx) as (HK & _ & HR & _). destruct (decide (RKASK x < 256)) as [Hl|]; [|lia].
  destruct (RK_fits (RKASK x)) as (_ & _ & _ & HF); [maxargs; lia|congruence].
Qed.

(** Giving two operands back, of which [e1] has the lower registers *)
Lemma free_upper_first F R r r1 x y e1 e2 :
  ok F R -> nactvar F <= r -> rk_exp F r x e1 r1 -> rk_exp F r1 y e2 (freereg F) ->
  cgen s (freeexp e2;; freeexp e1) F (fun _ F' => F' = with_freereg r F /\ ok F' R).
Proof using.
  intros Hi Hr H1 H2. pose proof (ok_ms _ _ Hi). pose proof (rk_temp_range _ _ _ _ (rk_exp_temp _ _ _ _ _ H1) ltac:(lia)).
  eapply cgen_bind; [apply (free_rk_exp_spec F R r1 y e2); try done; lia|]. cbv beta. intros [] F1 (-> & Hi1).
  eapply cgen_mono; [by apply (free_rk_exp_spec (with_freereg r1 F) R r x e1)|]. cbv beta. by intros [] F' (-> & Hi').
Qed.

Lemma free_lower_first F R r r1 x y e1 e2 :
  ok F R -> nactvar F <= r -> rk_exp F r x e1 r1 -> rk_exp F r1 y e2 (freereg F) -> y <= x ->
  cgen s (freeexp e1;; freeexp e2) F (fun _ F' => F' = with_freereg r F /\ ok F' R).
Proof using.
  intros Hi Hr H1 H2 Hxy. pose proof (ok_ms _ _ Hi).
  destruct (decide (r1 = r)) as [->|Hne].
  - eapply cgen_bind with (P := fun _ F' => F' = F).
    + destruct H1 as (_ & _ & [(Ek & _)|(Ek & -> & [(Hx & _)|(_ & _ & E)])]); [by unfold freeexp; rewrite Ek; apply cgen_ret| |lia].
      unfold freeexp. rewrite Ek. apply cgen_modify. rewrite reg_not_k by (change MAXSTACK with 250; lia).
      by rewrite (proj2 (Z.leb_gt _ _)) by lia.
    + cbv beta. intros [] F' ->. by apply (free_rk_exp_spec F R r y e2).
  - destruct H1 as (E1 & E1' & [(_ & _ & _ & _ & E)|(Ek & -> & [(_ & E)|(Hx & Hn & E)])]); [done|done|].
    assert (E2 : freereg F = r1 /\ rk_exp F r y e2 r).
    { destruct H2 as (E2 & E2' & [(Ek2 & -> & Hi2 & _ & Ef)|(Ek2 & -> & [(Hy & Ef)|(Hy & _ & Ef)])]).
      - pose proof (RKASK_large _ Hi2). lia.
      - split; [done|]. split; [done|]. split; [done|]. right. split_and!; try done. by left.
      - lia. }
    destruct E2 as (E2 & Hrk).
    eapply cgen_bind; [unfold freeexp; rewrite Ek; apply (free_reg_spec F R r (info e1)); try done; right; lia|].
    cbv beta. intros [] F1 (-> & Hi1).
    eapply cgen_mono; [by apply (free_rk_exp_spec (with_freereg r F) R r y e2)|]. cbv beta. by intros [] F' (-> & Hi').
Qed.

(** An operand of an instruction *)
Definition operand_ok (F : FuncState) (x : Z) : Prop :=
  0 <= x <= MAXARG_B /\ Forall (fun y => 0 <= y < maxstacksize (f F)) (rk_reg x) /\
  Forall (fun y => 0 <= y < sizek (f F)) (rk_const x).

Lemma rk_exp_operand F R r x e r' :
  ok F R -> nactvar F <= r -> rk_exp F r x e r' -> r' <= freereg F -> operand_ok F x.
Proof using.
  intros Hi Hr Hx Hf. pose proof (ok_ms _ _ Hi). apply (rk_operand F (maxstacksize (f F)) r x r'); try lia.
  by eapply rk_exp_temp.
Qed.

(** *** Arithmetic *)

(** The left operand while the right one is compiled *)
Definition operand (F : FuncState) (r : Z) (e : expdesc) (r' : Z) : Prop :=
  (exists x, rk_exp F r x e r') \/ (isnumeral e = true /\ r' = r).

Lemma numeral_parts e : isnumeral e = true -> ek e = VKNUM /\ et e = NO_JUMP /\ ef e = NO_JUMP.
Proof using. unfold isnumeral. intros Hn. bool_facts. apply bool_decide_eq_true in H. done. Qed.

Lemma numeral_top F R r e : ok F R -> isnumeral e = true -> freereg F = r -> nactvar F <= r -> top_exp F R r e.
Proof using.
  intros Hi Hn Hf Hr. destruct (numeral_parts _ Hn) as (Ek & E1 & E2). split; [|by unfold exp_ok; rewrite Ek|done].
  unfold roots. rewrite Ek, E1, E2. cbn. by apply ok_nojump, ok_nojump.
Qed.

Lemma top_numeral F R r e : top_exp F R r e -> isnumeral e = true -> ok F R /\ freereg F = r.
Proof using.
  intros [Hi He Hr] Hn. destruct (numeral_parts _ Hn) as (Ek & E1 & E2). unfold roots in Hi. rewrite Ek, E1, E2 in Hi.
  unfold exp_ok in He. rewrite Ek in He. split; [by apply nojump_ok, nojump_ok|done].
Qed.

Lemma operand_base F r e r' : operand F r e r' -> 0 <= nactvar F <= r -> r <= r'.
Proof using. intros [[x Hx]|[_ ->]] Hr; [|lia]. apply rk_exp_temp in Hx. apply rk_temp_range in Hx; lia. Qed.

Lemma fits_arith ms g o b c bx :
  0 < ms -> match o with OP_ADD | OP_SUB | OP_MUL | OP_DIV | OP_MOD | OP_POW => True | _ => False end ->
  Forall (fun y => 0 <= y < ms) (rk_reg b) -> Forall (fun y => 0 <= y < sizek g) (rk_const b) ->
  Forall (fun y => 0 <= y < ms) (rk_reg c) -> Forall (fun y => 0 <= y < sizek g) (rk_const c) ->
  fits ms g o 0 b c bx.
Proof using.
  intros Ha Ho H1 H2 H3 H4. destruct o; try done; (split; try done; try (intros [|]; done); cbn;
    [constructor; [done|]; by apply list.Forall_app|by apply list.Forall_app]).
Qed.

(** The last part of [codearith] *)
Lemma arith_emit F R r o e b c :
  ok (with_freereg r F) R -> nactvar F <= r -> et e = NO_JUMP -> ef e = NO_JUMP -> getOpMode o = iABC -> reloc_op o = true -> o <> OP_VARARG ->
  0 <= b <= MAXARG_B -> 0 <= c <= MAXARG_C -> (forall bx, fits (maxstacksize (f F)) (f F) o 0 b c bx) ->
  cgen s (i ← luaK_codeABC o 0 b c; mret (set_ek VRELOCABLE (set_info i e))) (with_freereg r F) (fun e' F' =>
    val_exp F' R r e' /\ cext F F').
Proof using HL Hw.
  intros Hi Hr E1 E2 Hm Hre Hv Hb Hc Hfit.
  assert (Hi' : ok (with_freereg r F) (et e :: ef e :: R)) by (rewrite E1, E2; by apply ok_nojump, ok_nojump).
  eapply cgen_bind; [by apply (reloc_ABC_spec R (with_freereg r F) r e)|]. cbv beta. intros n F' (Ht & Hc' & _). apply cgen_ret.
  split; [done|]. eapply cext_trans; [apply (cext_freereg _ r)|done].
Qed.

Lemma codearith_spec F R r r1 o e1 e2 :
  match o with OP_ADD | OP_SUB | OP_MUL | OP_DIV | OP_MOD | OP_POW => True | _ => False end ->
  operand F r e1 r1 -> nactvar F <= r -> top_exp F R r1 e2 ->
  cgen s (codearith o e1 e2) F (fun e' F' => val_exp F' R r e' /\ cext F F').
Proof using HL Hw.
  intros Ho Hop Hr Ht. unfold codearith. destruct (constfolding o e1 e2) as [n|] eqn:Ef.
  { unfold constfolding in Ef. destruct (isnumeral e1) eqn:N1; [|done]. destruct (isnumeral e2) eqn:N2; [|done].
    destruct (top_numeral _ _ _ _ Ht N2) as (Hi & Hf). destruct (numeral_parts _ N1) as (Ek & E1 & E2).
    apply cgen_ret. split; [|apply cext_refl]. split; [|unfold discharged; cbn; by rewrite Ek]. apply numeral_top; try done.
    destruct Hop as [[x (_ & _ & [(Ek' & _)|(Ek' & _)])]|[_ ->]]; congruence. }
  clear Ef. assert (Hoo : negb (bool_decide (o = OP_UNM)) && negb (bool_decide (o = OP_LEN)) = true) by (by destruct o).
  rewrite Hoo. clear Hoo.
  eapply cgen_bind; [by apply (exp2RK_spec F R r1)|]. cbv beta. intros [o2 e2'] F1 (Hi1 & Hc1 & Hx2). cbn [fst snd] in Hx2.
  pose proof (cext_nactvar _ _ Hc1). pose proof (ok_ms _ _ Hi1) as Hm1.
  assert (Hr1 : r <= r1). { destruct Ht as [Hi _ _]. pose proof (ok_ms _ _ Hi). eapply operand_base; [done|lia]. }
  assert (Hr2 : r1 <= freereg F1) by (pose proof (rk_temp_range _ _ _ _ (rk_exp_temp _ _ _ _ _ Hx2)); lia).
  apply (cgen_bind _ _ _ _ (fun p F' => ok F' R /\ cext F1 F' /\ et p.2 = NO_JUMP /\ ef p.2 = NO_JUMP /\
    operand_ok F' p.1 /\ operand_ok F' o2 /\
    cgen s (if o2 <? p.1 then freeexp p.2;; freeexp e2' else freeexp e2';; freeexp p.2) F' (fun _ F'' => F'' = with_freereg r F' /\ ok F'' R))).
  { destruct Hop as [[x Hx]|[Hn ->]].
    - pose proof (rk_exp_cext _ _ _ _ _ _ Hc1 Hx) as Hx'.
      eapply cgen_mono; [by eapply exp2RK_id|]. cbv beta. intros p F' [-> ->]. cbn [fst snd].
      split_and!; try done; [apply cext_refl|apply Hx|apply Hx|
        apply (rk_exp_operand F1 R r x e1 r1); try done; lia|apply (rk_exp_operand F1 R r1 o2 e2' (freereg F1)); try done; lia|].
      apply cgen_if; intros Hb; bool_facts; [apply (free_lower_first F1 R r r1 x o2)|apply (free_upper_first F1 R r r1 x o2)]; try done; lia.
    - eapply cgen_mono; [apply (exp2RK_spec F1 R (freereg F1) e1); apply numeral_top; try done; lia|]. cbv beta.
      intros [x1 e1'] F2 (Hi2 & Hc2 & Hx1). cbn [fst snd] in *. pose proof (cext_nactvar _ _ Hc2).
      pose proof (rk_exp_cext _ _ _ _ _ _ Hc2 Hx2) as Hx2'. pose proof (rk_temp_range _ _ _ _ (rk_exp_temp _ _ _ _ _ Hx1) ltac:(lia)).
      split_and!; try done; [apply Hx1|apply Hx1|apply (rk_exp_operand F2 R (freereg F1) x1 e1' (freereg F2)); try done; lia|
        apply (rk_exp_operand F2 R r o2 e2' (freereg F1)); try done; lia|].
      apply cgen_if; intros Hb; bool_facts; [apply (free_upper_first F2 R r (freereg F1) o2 x1)|apply (free_lower_first F2 R r (freereg F1) o2 x1)]; try done; lia. }
  cbv beta. intros [o1 e1'] F2 (Hi2 & Hc2 & E1 & E2 & (HB & HB1 & HB2) & (HC & HC1 & HC2) & Hfree). cbn [fst snd] in *.
  eapply cgen_bind; [exact Hfree|]. cbv beta. intros [] F3 (-> & Hi3). pose proof (cext_nactvar _ _ Hc2). pose proof (ok_ms _ _ Hi2).
  eapply cgen_mono; [apply (arith_emit F2 R r o); try done; try (by destruct o); [lia|intros bx; apply fits_arith; try done; lia]|].
  cbv beta. intros e' F' (Ht' & Hc'). split; [done|]. eapply cext_trans; [exact Hc1|]. by eapply cext_trans.
Qed.

(** [-e], [#e] *)
Lemma settled_rk F r e r' : settled_in (info e) e -> temp F r (info e) r' -> rk_exp F r (info e) e r'.
Proof using. intros (Ek & _ & E1 & E2) Ht. split; [done|]. split; [done|]. by right. Qed.

(** The operand of a unary operator is in a register. *)
Definition in_some_reg (F : FuncState) (R : list Z) (r : Z) (p : Z * expdesc) (F' : FuncState) : Prop :=
  ok F' R /\ cext F F' /\ settled_in (info p.2) p.2 /\ p.1 = info p.2 /\ temp F' r p.1 (freereg F').

Lemma unary_rest F R r o e e2 :
  o = OP_UNM \/ o = OP_LEN -> nactvar F <= r -> ek e2 = VKNUM -> constfolding o e e2 = None ->
  cgen s (luaK_exp2RK e) F (in_some_reg F R r) ->
  cgen s (codearith o e e2) F (fun e' F' => val_exp F' R r e' /\ cext F F').
Proof using HL Hw.
  intros Ho Hr Ek2 Ef Hrk. unfold codearith. rewrite Ef.
  assert (Hoo : negb (bool_decide (o = OP_UNM)) && negb (bool_decide (o = OP_LEN)) = false) by (by destruct Ho as [-> | ->]).
  rewrite Hoo. apply cgen_ret_bind. eapply cgen_bind; [exact Hrk|]. cbv beta. intros [x e1] F1 (Hi1 & Hc1 & Hs & Ex & Ht).
  cbn [fst snd] in *. subst x. pose proof (settled_rk _ _ _ _ Hs Ht) as Hx. pose proof (ok_ms _ _ Hi1). pose proof (cext_nactvar _ _ Hc1).
  pose proof (temp_range _ _ _ _ Ht ltac:(lia)). destruct Hs as (_ & _ & E1 & E2).
  apply (cgen_bind _ _ _ _ (fun _ F' => F' = with_freereg r F1 /\ ok F' R)).
  { assert (E : freeexp e2 = (mret tt : ST (CompState Z') unit)) by (unfold freeexp; by rewrite Ek2). rewrite E.
    apply cgen_if; intros _.
    - eapply cgen_bind; [apply (free_rk_exp_spec F1 R r (info e1) e1); try done; lia|]. cbv beta. intros [] F' HF. by apply cgen_ret.
    - apply cgen_ret_bind. apply (free_rk_exp_spec F1 R r (info e1) e1); try done; lia. }
  cbv beta. intros [] F2 (-> & Hi2).
  eapply cgen_mono; [apply (arith_emit F1 R r o); try done; try (by destruct Ho as [-> | ->]); try (maxargs; lia)|].
  - intros bx. destruct Ho as [-> | ->]; split; try done; try (intros [|]; done); cbn; (constructor; [lia|]); (constructor; [lia|constructor]).
  - cbv beta. intros e' F' (Ht' & Hc'). split; [done|]. by eapply cext_trans.
Qed.

Lemma unary_spec F R r o e e2 :
  o = OP_UNM \/ o = OP_LEN -> ok F R -> settled_in (info e) e -> temp F r (info e) (freereg F) -> nactvar F <= r -> ek e2 = VKNUM ->
  cgen s (codearith o e e2) F (fun e' F' => val_exp F' R r e' /\ cext F F').
Proof using HL Hw.
  intros Ho Hi Hs Ht Hr Ek2. pose proof (settled_rk _ _ _ _ Hs Ht) as Hx. apply unary_rest; try done.
  - unfold constfolding, isnumeral. by destruct Hs as (-> & _).
  - eapply cgen_mono; [by eapply exp2RK_id|]. cbv beta. intros p F1 [-> ->]. split_and!; try done. apply cext_refl.
Qed.

(** A number that is folded to NaN is NaN itself, which is no constant. *)
Lemma numunm_nan v : luai_numisnan (luai_numunm v) = true -> luai_numisnan v = true.
Proof using.
  unfold luai_numisnan, luai_numeq, luai_numunm. intros H. apply negb_true_iff in H. apply negb_true_iff.
  destruct v as [b|b| |b m e]; try done.
  - by destruct b.
  - unfold SFeqb, SFcompare in *. cbn in *. exfalso. rewrite Z.compare_refl, Pos.compare_cont_refl in H. by destruct b.
Qed.

Lemma nan_no_key l v : luai_numisnan v = true -> h_get l (VNumber v) = None.
Proof using.
  intros Hn. induction l as [|[key i] l IH]; [done|]. cbn [h_get].
  assert (E : luaO_rawequalObj key (VNumber v) = false); [|by rewrite E].
  unfold luaO_rawequalObj. destruct key; try done. cbn. unfold luai_numeq, luai_numisnan in *.
  apply negb_true_iff in Hn. assert (Ev : v = S754_nan); [|subst v; by destruct n].
  destruct v as [b|b| |b m e]; try done; [by destruct b|]. exfalso. unfold SFeqb, SFcompare in Hn. cbn in Hn.
  rewrite Z.compare_refl, Pos.compare_cont_refl in Hn. by destruct b.
Qed.
Lemma concat_op_spec F R r e1 e2 :
  ok F R -> nactvar F <= r -> settled_in r e1 -> settled_in (r + 1) e2 -> freereg F = r + 2 ->
  cgen s (codearith OP_CONCAT e1 e2) F (fun e' F' => val_exp F' R r e' /\ cext F F').
Proof using HL Hw.
  intros Hi Hr H1 H2 Hf. unfold codearith. pose proof (ok_ms _ _ Hi).
  assert (Hx1 : rk_exp F r r e1 (r + 1)). { destruct H1 as (? & ? & ? & ?). split; [done|]. split; [done|]. right. split_and!; try done. by right. }
  assert (Hx2 : rk_exp F (r + 1) (r + 1) e2 (freereg F)).
  { destruct H2 as (? & ? & ? & ?). split; [done|]. split; [done|]. right. split_and!; try done. right. lia. }
  assert (Ef : constfolding OP_CONCAT e1 e2 = None). { unfold constfolding, isnumeral. by destruct H1 as (-> & _). } rewrite Ef.
  change (negb (bool_decide (OP_CONCAT = OP_UNM)) && negb (bool_decide (OP_CONCAT = OP_LEN))) with true.
  eapply cgen_bind; [by eapply exp2RK_id|]. cbv beta. intros p F1 [-> ->].
  eapply cgen_bind; [by eapply exp2RK_id|]. cbv beta. intros p F1 [-> ->].
  rewrite (proj2 (Z.ltb_ge _ _)) by lia.
  eapply cgen_bind; [by apply (free_upper_first F R r (r + 1) r (r + 1))|]. cbv beta. intros [] F1 (-> & Hi1).
  destruct H1 as (_ & _ & E1 & E2).
  apply (arith_emit F R r OP_CONCAT); try done; try (maxargs; lia).
  intros bx. split; try done; try (intros [|]; done). cbn. constructor; [lia|]. constructor; [lia|]. constructor; [lia|constructor].
Qed.

(** *** Comparisons *)

Lemma codecomp_spec F R r r1 o cond e1 e2 x :
  comparison o -> 0 <= cond <= 1 -> rk_exp F r x e1 r1 -> nactvar F <= r -> top_exp F R r1 e2 ->
  cgen s (codecomp o cond e1 e2) F (fun e' F' => val_exp F' R r e' /\ cext F F').
Proof using HL Hw.
  intros Ho Hcond Hx Hr Ht. unfold codecomp. pose proof (te_ok _ _ _ _ Ht) as Hi. pose proof (ok_ms _ _ Hi).
  pose proof (rk_temp_range _ _ _ _ (rk_exp_temp _ _ _ _ _ Hx) ltac:(lia)).
  eapply cgen_bind; [by eapply exp2RK_id|]. cbv beta. intros p F1 [-> ->].
  eapply cgen_bind; [by apply (exp2RK_spec F R r1)|]. cbv beta. intros [y e2'] F1 (Hi1 & Hc1 & Hy). cbn [fst snd] in Hy.
  pose proof (cext_nactvar _ _ Hc1). pose proof (rk_exp_cext _ _ _ _ _ _ Hc1 Hx) as Hx1. pose proof (ok_ms _ _ Hi1).
  pose proof (rk_temp_range _ _ _ _ (rk_exp_temp _ _ _ _ _ Hy) ltac:(lia)).
  destruct (rk_exp_operand F1 R r x e1 r1) as (HB & HB1 & HB2); try done; try lia.
  destruct (rk_exp_operand F1 R r1 y e2' (freereg F1)) as (HC & HC1 & HC2); try done; try lia.
  apply cgen_group. eapply cgen_bind; [apply (free_upper_first F1 R r r1 x y); try done; lia|]. cbv beta. intros [] F2 (-> & Hi2).
  assert (Hcj : forall a b c, 0 <= a <= 1 -> operand_ok F1 b -> operand_ok F1 c ->
    cgen s (condjump o a b c) (with_freereg r F1) (fun j F' => ok F' (j :: R) /\ kept (with_freereg r F1) F' /\
      op_at (code (f F')) (j - 1) = Some o)).
  { intros a b c Ha (Hb & Hb1 & Hb2) (Hc & Hc1' & Hc2). 
    eapply cgen_mono; [apply (condjump_spec s Hw (maxstacksize (f F1)) o a b c R (with_freereg r F1)); try done|].
    - by destruct Ho as [->|[-> | ->]].
    - maxargs; lia.
    - intros bx. destruct Ho as [->|[-> | ->]]; split; try done; try (intros [|]; done); cbn; by apply list.Forall_app.
    - cbv beta. intros j F' (Hi' & Hk & _ & _ & Hop). split_and!; try done. by apply (kept_ok (with_freereg r F1)). }
  eapply cgen_bind with (P := fun j F' => ok F' (j :: R) /\ kept (with_freereg r F1) F' /\ op_at (code (f F')) (j - 1) = Some o).
  { apply cgen_if; intros _; apply Hcj; try done; lia. }
  cbv beta. intros j F' (Hi' & (Hc' & Hf' & _) & Hop). apply cgen_ret. pose proof (cext_nactvar _ _ Hc'). cbn in *.
  split; [split; [split|done]|].
  - unfold roots. cbn. destruct Hx as (E1 & E2 & _). rewrite E1, E2. by apply ok_nojump, ok_nojump.
  - cbn. split; [by exists o|done].
  - lia.
  - eapply cext_trans; [exact Hc1|]. eapply cext_trans; [apply (cext_freereg _ r)|done].
Qed.

(** *** [luaK_prefix], [luaK_infix], [luaK_posfix] *)

Definition zero_numeral : expdesc := mkexpdesc VKNUM 0 0 (cast_num 0) NO_JUMP NO_JUMP.

Lemma numeral_unm_spec F R r e :
  top_exp F R r e -> isnumeral e = true ->
  cgen s (codearith OP_UNM e zero_numeral) F (fun e' F' => val_exp F' R r e' /\ cext F F').
Proof using HL Hw.
  intros Ht Hn. pose proof (te_base _ _ _ _ Ht) as Hr. destruct (top_numeral _ _ _ _ Ht Hn) as (Hi & Hf).
  destruct (numeral_parts _ Hn) as (Ek & E1 & E2).
  destruct (constfolding OP_UNM e zero_numeral) as [v|] eqn:Ef.
  { unfold codearith. rewrite Ef. apply cgen_ret. split; [|apply cext_refl]. split; [by apply numeral_top|].
    unfold discharged. cbn. by rewrite Ek. }
  apply unary_rest; try done; [by left|]. unfold constfolding in Ef. rewrite Hn in Ef. cbn in Ef.
  destruct (luai_numisnan (luai_numunm (nval e))) eqn:Hnan; [|done]. apply numunm_nan in Hnan.
  unfold luaK_exp2RK, luaK_exp2val. assert (Hj : hasjumps e = false) by (unfold hasjumps; by rewrite E1, E2). rewrite Hj.
  apply (cgen_bind _ _ _ _ (fun e' F' => e' = e /\ F' = F)); [unfold luaK_dischargevars; rewrite Ek; by apply cgen_ret|].
  cbv beta. intros e' F' [-> ->]. rewrite Ek. apply cgen_get, cgen_if; intros _.
  - eapply cgen_bind with (P := fun _ _ => False); [|done]. unfold luaK_numberK, addk. apply cgen_fs. rewrite nan_no_key by done.
    unfold is_nan. rewrite Hnan. done.
  - eapply cgen_bind; [by apply (exp2anyreg_spec F R r)|]. cbv beta. intros e1 F1 (Hi1 & Hc1 & Hs1 & Ht1 & _). by apply cgen_ret.
Qed.

(** What joining lists keeps of an expression *)
Lemma exp_ok_joined F F' r e r' :
  jext F F' -> (strict F -> strict F') ->
  (forall q j, getZ (code (f F)) q = Some j -> ~ jump_word j -> getZ (code (f F')) q = Some j) ->
  exp_ok F r e r' -> exp_ok F' r e r'.
Proof using.
  intros He Hs Hj Ho. pose proof (jext_kept _ _ He) as (Hc & _). pose proof (cext_nactvar _ _ Hc) as Hn. pose proof (cext_sizek _ _ Hc) as Hk.
  destruct (static_parts _ _ (ce_static _ _ Hc)) as (_ & Hu & _). pose proof (jext_ops _ _ He) as Hops.
  unfold exp_ok in *. rewrite ?Hn, ?Hu. destruct (ek e); try done.
  - destruct Ho. split; [lia|done].
  - destruct Ho. split; [by eapply string_at_cext|done].
  - destruct Ho as (r1 & H1 & H2). exists r1. split; [by eapply temp_cext|by eapply rk_temp_cext].
  - destruct Ho as ((o & Hq & Hcmp) & Hf). split; [|done]. exists o. split; [|done]. eapply ops_kept; [done|done|]. by apply comparison_mode.
  - destruct Ho as ((w & Hq & o & Ho & Hre & Hv & Hnt) & Hf). split; [|done]. exists w. split.
    + apply Hj; [done|]. eapply jump_word_not; [done|]. by destruct o.
    + exists o. split_and!; try done. intros Eo. destruct (Hnt Eo) as [Hi Hst]. rewrite (jext_pc _ _ He). auto.
  - by eapply temp_cext.
  - destruct Ho as ((w & Hq & Ho & HA) & Hf). split; [|done]. exists w. split; [|done].
    apply Hj; [done|]. by eapply jump_word_not.
  - destruct Ho as (Hq & Hf). split; [|done]. by eapply ops_kept.
Qed.

Lemma prefix_spec F R r o e :
  top_exp F R r e -> o <> OPR_NOUNOPR -> cgen s (luaK_prefix o e) F (fun e' F' => val_exp F' R r e' /\ cext F F').
Proof using HL Hw.
  intros Ht Hno. pose proof (te_base _ _ _ _ Ht). unfold luaK_prefix. destruct o; [| | |done].
  - destruct (isnumeral e) eqn:Hn; cbn [negb].
    + apply cgen_ret_bind. by apply numeral_unm_spec.
    + eapply cgen_bind; [by apply (exp2anyreg_spec F R r)|]. cbv beta. intros e1 F1 (Hi1 & Hc1 & Hs1 & Ht1 & _).
      pose proof (cext_nactvar _ _ Hc1). eapply cgen_mono; [apply (unary_spec F1 R r); try done; [by left|lia]|].
      cbv beta. intros e' F' (Ht' & Hc'). split; [done|]. by eapply cext_trans.
  - by apply codenot_spec.
  - eapply cgen_bind; [by apply (exp2anyreg_spec F R r)|]. cbv beta. intros e1 F1 (Hi1 & Hc1 & Hs1 & Ht1 & _).
    pose proof (cext_nactvar _ _ Hc1). eapply cgen_mono; [apply (unary_spec F1 R r); try done; [by right|lia]|].
    cbv beta. intros e' F' (Ht' & Hc'). split; [done|]. by eapply cext_trans.
Qed.

(** The left operand between [luaK_infix] and [luaK_posfix] *)
Definition infixed (op : BinOpr) (F : FuncState) (r : Z) (e : expdesc) (r' : Z) : Prop :=
  match op with
  | OPR_AND => et e = NO_JUMP /\ r' = r
  | OPR_OR => ef e = NO_JUMP /\ r' = r
  | OPR_CONCAT => settled_in r e /\ r' = r + 1
  | OPR_ADD | OPR_SUB | OPR_MUL | OPR_DIV | OPR_MOD | OPR_POW => operand F r e r'
  | OPR_NOBINOPR => False
  | _ => exists x, rk_exp F r x e r'
  end.

Lemma infix_spec F R r op e :
  top_exp F R r e -> op <> OPR_NOBINOPR ->
  cgen s (luaK_infix op e) F (fun e' F' => ok F' (et e' :: ef e' :: R) /\ cext F F' /\ infixed op F' r e' (freereg F')).
Proof using HL Hw.
  intros Ht Hop. unfold luaK_infix.
  assert (Hrk : cgen s ('(_, v) ← luaK_exp2RK e; mret v) F (fun e' F' => ok F' (et e' :: ef e' :: R) /\ cext F F' /\
    exists x, rk_exp F' r x e' (freereg F'))).
  { eapply cgen_bind; [by apply (exp2RK_spec F R r)|]. cbv beta. intros [x e1] F1 (Hi1 & Hc1 & Hx). cbn [fst snd] in Hx.
    apply cgen_ret. split_and!; try done; [|by exists x]. destruct Hx as (-> & -> & _). by apply ok_nojump, ok_nojump. }
  assert (Hrk2 : cgen s (if negb (isnumeral e) then '(_, v) ← luaK_exp2RK e; mret v else mret e) F (fun e' F' =>
    ok F' (et e' :: ef e' :: R) /\ cext F F' /\ operand F' r e' (freereg F'))).
  { destruct (isnumeral e) eqn:Hn; cbn [negb].
    - destruct (top_numeral _ _ _ _ Ht Hn) as (Hi & Hf). destruct (numeral_parts _ Hn) as (_ & E1 & E2).
      apply cgen_ret. rewrite E1, E2. split_and!; [by apply ok_nojump, ok_nojump|apply cext_refl|by right].
    - eapply cgen_mono; [exact Hrk|]. cbv beta. intros e' F' (? & ? & ?). split_and!; try done. by left. }
  destruct op; try done.
  - eapply cgen_mono; [by apply (exp2nextreg_spec F R r)|]. cbv beta. intros e' F' (Hi & Hc & Hf & Hs). split_and!; try done.
    destruct Hs as (_ & _ & -> & ->). by apply ok_nojump, ok_nojump.
  - eapply cgen_mono; [by apply (goiftrue_spec F R r)|]. cbv beta. intros e' F' (Hi & Hc & Hf & E). split_and!; try done.
    rewrite E. by apply ok_nojump.
  - eapply cgen_mono; [by apply (goiffalse_spec F R r)|]. cbv beta. intros e' F' (Hi & Hc & Hf & E). split_and!; try done.
    rewrite E. eapply ok_perm; [apply Permutation_swap|]. by apply ok_nojump.
Qed.

(** Joining the list of the left operand with the one of the right operand *)
Lemma join_spec F R r (e2 : expdesc) l0 (sel : expdesc -> Z) (upd : Z -> expdesc -> expdesc)
    (rest : expdesc -> list Z) :
  (forall l e, ek (upd l e) = ek e /\ info (upd l e) = info e /\ aux (upd l e) = aux e) ->
  (forall e l, roots (upd l e) ≡ₚ l :: rest e) -> (forall e, roots e ≡ₚ sel e :: rest e) ->
  top_exp F (l0 :: R) r e2 -> discharged e2 ->
  cgen s (l ← luaK_concat (sel e2) l0; mret (upd l e2)) F (fun e' F' => val_exp F' R r e' /\ cext F F').
Proof using HL Hw.
  intros Hu Hr1 Hr2 [Hi He Hr] Hd.
  eapply cgen_bind; [apply (concat_spec s Hw (maxstacksize (f F)) (sel e2) l0 (rest e2 ++ R))|].
  - eapply ok_perm; [|exact Hi]. rewrite (Hr2 e2). cbn. apply perm_skip. symmetry. apply Permutation_middle.
  - cbv beta. intros l F' (Hj & Hi' & _ & Hs & Hk). apply cgen_ret. pose proof (jext_kept _ _ Hj) as Hke.
    split; [split; [split|unfold discharged in *; by destruct (Hu l e2) as (-> & _)]|].
    + apply (kept_ok F); [|done]. eapply finv_perm; [|exact Hi']. by rewrite (Hr1 e2 l).
    + pose proof (exp_ok_joined _ _ _ _ _ Hj Hs Hk He) as He'. destruct Hke as (_ & Hf & _). rewrite Hf.
      unfold exp_ok in *. destruct (Hu l e2) as (-> & -> & ->). done.
    + by rewrite (kept_nactvar _ _ Hke).
    + apply Hke.
Qed.

Definition jump_root (e : expdesc) : list Z := if bool_decide (ek e = VJMP) then [info e] else [].

Lemma join_false_spec F R r e2 l0 :
  top_exp F (l0 :: R) r e2 -> discharged e2 ->
  cgen s (l ← luaK_concat (ef e2) l0; mret (set_ef l e2)) F (fun e' F' => val_exp F' R r e' /\ cext F F').
Proof using HL Hw.
  apply (join_spec F R r e2 l0 ef set_ef (fun e => et e :: jump_root e)); try done; intros; apply Permutation_swap.
Qed.

Lemma join_true_spec F R r e2 l0 :
  top_exp F (l0 :: R) r e2 -> discharged e2 ->
  cgen s (l ← luaK_concat (et e2) l0; mret (set_et l e2)) F (fun e' F' => val_exp F' R r e' /\ cext F F').
Proof using HL Hw. by apply (join_spec F R r e2 l0 et set_et (fun e => ef e :: jump_root e)). Qed.

Lemma top_exp_perm F R R' r e : R ≡ₚ R' -> top_exp F R r e -> top_exp F R' r e.
Proof using. intros HR [Hi He Hr]. split; try done. eapply ok_perm; [|exact Hi]. by rewrite HR. Qed.

Lemma top_exp_nojump F R r e : top_exp F (NO_JUMP :: R) r e -> top_exp F R r e.
Proof using.
  intros [Hi He Hr]. split; try done. apply nojump_ok. eapply ok_perm; [|exact Hi]. symmetry. apply Permutation_middle.
Qed.

(** A concatenation whose right operand is one becomes part of it. *)
Lemma concat_join_spec F R r e1 e2 w :
  settled_in r e1 -> top_exp F R (r + 1) e2 -> nactvar F <= r -> ek e2 = VRELOCABLE -> getZ (code (f F)) (info e2) = Some w ->
  op_of (GET_OPCODE w) = Some OP_CONCAT -> hasjumps e2 = false ->
  cgen s (freeexp e1;; i ← get_code (info e2); set_code (info e2) (SETARG_B i (info e1));;
    mret (set_info (info e2) (set_ek VRELOCABLE e1))) F (fun e' F' => val_exp F' R r e' /\ cext F F').
Proof using.
  intros (Ek1 & Ei1 & E1 & E2) [Hi He Hr'] Hr Ek2 Hq Ho Hj. unfold exp_ok in He. rewrite Ek2 in He. destruct He as (_ & Hf).
  unfold roots in Hi. rewrite Ek2 in Hi. destruct (hasjumps_false _ _ _ Hi Hj) as [E3 E4]. cbn in Hi. rewrite E3, E4 in Hi.
  do 2 apply nojump_ok in Hi. pose proof (ok_ms _ _ Hi).
  eapply cgen_bind; [unfold freeexp; rewrite Ek1; apply (free_reg_spec F R r (info e1)); try done; right; lia|].
  cbv beta. intros [] F1 (-> & Hi1). eapply cgen_code; [done|].
  destruct (fi_words _ _ _ Hi _ _ Hq) as (Hu & o & Ho' & [Hregs _ _ _ _] & _). rewrite Ho in Ho'. injection Ho' as <-.
  destruct (SETARG_B_fields w (info e1) Hu) as (H1 & H2 & H3 & H4 & H5); [maxargs; lia|].
  pose proof (Forall_inv Hregs) as HA. apply Forall_inv_tail, Forall_inv_tail in Hregs. cbn in HA.
  eapply cgen_bind; [eapply (set_word_ok (with_freereg r F) R (info e2) w (SETARG_B w (info e1)) OP_CONCAT); try done|].
  - split; [done|]. exists OP_CONCAT. rewrite H2, H3, H4, H5. split; [done|]. split; [|done].
    split; try done; try (intros [|]; done). cbn. constructor; [done|]. constructor; [lia|done].
  - cbv beta. intros [] F' (-> & Hi' & (Hc & Hf' & _) & _). apply cgen_ret. split; [split; [split|done]|].
    + cbn. rewrite E1, E2. by apply ok_nojump, ok_nojump.
    + cbn. split; [|done]. exists (SETARG_B w (info e1)). split; [by apply (upd_code_at (with_freereg r F) _ _ w)|].
      exists OP_CONCAT. split_and!; try done. by rewrite H2.
    + done.
    + eapply cext_trans; [apply (cext_freereg _ r)|done].
Qed.

Lemma posfix_spec F R r r1 op e1 e2 :
  infixed op F r e1 r1 -> nactvar F <= r -> top_exp F (et e1 :: ef e1 :: R) r1 e2 ->
  cgen s (luaK_posfix op e1 e2) F (fun e' F' => val_exp F' R r e' /\ cext F F').
Proof using HL Hw.
  intros Hop Hr Ht. pose proof (te_ok _ _ _ _ Ht) as Hi0. pose proof (ok_ms _ _ Hi0).
  assert (Hno : et e1 = NO_JUMP -> ef e1 = NO_JUMP -> top_exp F R r1 e2).
  { intros E1 E2. rewrite E1, E2 in Ht. by apply top_exp_nojump, top_exp_nojump. }
  assert (Har : forall o, match o with OP_ADD | OP_SUB | OP_MUL | OP_DIV | OP_MOD | OP_POW => True | _ => False end -> operand F r e1 r1 ->
    cgen s (codearith o e1 e2) F (fun e' F' => val_exp F' R r e' /\ cext F F')).
  { intros o Ho Hope. apply (codearith_spec F R r r1); try done. destruct Hope as [[x (E1 & E2 & _)]|[Hn _]]; [by apply Hno|].
    destruct (numeral_parts _ Hn) as (_ & ? & ?). by apply Hno. }
  assert (Hcm : forall o cond, comparison o -> 0 <= cond <= 1 -> (exists x, rk_exp F r x e1 r1) ->
    cgen s (codecomp o cond e1 e2) F (fun e' F' => val_exp F' R r e' /\ cext F F')).
  { intros o cond Ho Hc [x Hx]. apply (codecomp_spec F R r r1 o cond e1 e2 x); try done. destruct Hx as (? & ? & _). by apply Hno. }
  unfold luaK_posfix, infixed in *. destruct op; try done; try (by apply Har);
    try (by apply Hcm; [unfold comparison; auto|lia|]).
  - (* CONCAT *) destruct Hop as ((Ek1 & Ei1 & E1 & E2) & ->). specialize (Hno E1 E2).
    eapply cgen_bind; [by apply (exp2val_spec F R (r + 1))|]. cbv beta. intros e3 F1 (Ht1 & Hc1 & Hd1 & Hj1 & _). pose proof (cext_nactvar _ _ Hc1).
    apply (cgen_bind _ _ _ _ (fun b F' => F' = F1 /\ (b = true -> ek e3 = VRELOCABLE /\
      exists w, getZ (code (f F1)) (info e3) = Some w /\ op_of (GET_OPCODE w) = Some OP_CONCAT))).
    { unfold is_concat. destruct (decide (ek e3 = VRELOCABLE)) as [E|E].
      - rewrite bool_decide_eq_true_2 by done. pose proof (te_exp _ _ _ _ Ht1) as He. unfold exp_ok in He. rewrite E in He.
        destruct He as ((w & Hq & _) & _). eapply cgen_code; [done|]. apply cgen_ret. split; [done|]. intros Hb%is_op_true.
        split; [done|]. by exists w.
      - rewrite bool_decide_eq_false_2 by done. by apply cgen_ret. }
    cbv beta. intros b F' [-> Hb]. apply cgen_if; intros Ebb.
    + destruct (Hb Ebb) as (Ek3 & w & Hq & Ho). eapply cgen_mono; [apply (concat_join_spec F1 R r e1 e3 w); try done; lia|].
      cbv beta. intros e' F' (Ht' & Hc'). split; [done|]. by eapply cext_trans.
    + eapply cgen_bind; [by apply (exp2nextreg_spec F1 R (r + 1))|]. cbv beta. intros e4 F2 (Hi2 & Hc2 & Hf2 & Hs2). pose proof (cext_nactvar _ _ Hc2).
      eapply cgen_mono; [apply (concat_op_spec F2 R r); try done; lia|].
      cbv beta. intros e' F' (Ht' & Hc'). split; [done|]. eapply cext_trans; [exact Hc1|]. by eapply cext_trans.
  - (* AND *) destruct Hop as (E1 & ->). rewrite E1 in Ht. apply top_exp_nojump in Ht.
    eapply cgen_bind; [by apply (dischargevars_spec F (ef e1 :: R) r)|]. cbv beta. intros e3 F1 (Ht1 & Hc1 & _ & Hd1 & _).
    eapply cgen_mono; [by apply (join_false_spec F1 R r)|]. cbv beta. intros e' F' (Ht' & Hc'). split; [done|]. by eapply cext_trans.
  - (* OR *) destruct Hop as (E1 & ->). rewrite E1 in Ht. apply (top_exp_perm _ _ (NO_JUMP :: et e1 :: R)) in Ht; [|apply Permutation_swap].
    apply top_exp_nojump in Ht.
    eapply cgen_bind; [by apply (dischargevars_spec F (et e1 :: R) r)|]. cbv beta. intros e3 F1 (Ht1 & Hc1 & _ & Hd1 & _).
    eapply cgen_mono; [by apply (join_true_spec F1 R r)|]. cbv beta. intros e' F' (Ht' & Hc'). split; [done|]. by eapply cext_trans.
Qed.
End expressions.
