(* ===== verification/CodeProps.v ===== *)
(** * What the code generator does

    Jump lists are joined and patched as intended, emission keeps the
    invariant of a function under construction and binds the jumps that wait
    for the next instruction, registers and constants are allocated within
    their limits; and two places where the code falls short. *)

From S2P Require Import Prelude Mem Clib Opcodes Object Debug Zio Lex Code JumpLists CodeJumps CodeEmit CodeExp.
From S2P Require LexFacts.

Lemma discharged_one_temp F r e r' :
  discharged e -> exp_ok F r e r' -> 0 <= nactvar F <= r -> r <= r' <= r + 1.
Proof.
  unfold discharged, exp_ok. intros Hd He Hr. destruct (ek e); try done; try (destruct He; lia); try lia.
Qed.

Section properties.
Context {Z' : Type} `{HS : ByteStream Z'} `{HL : !ByteStreamLaws Z'} `{HM : LibM}.

(** C16: luaK_concat appends the second jump list to the first one: the
    result visits the jumps of both, in order, the other lists are as they
    were, every word is still a valid instruction and no opcode changes
    (except a TESTSET to a TEST, which concat does not use). *)
Theorem luaK_concat_joins (s : CompState Z') ms F l1 ps1 l2 ps2 L :
LexFacts.wf (ls s) -> ms <= MAXSTACK -> words_ok ms (f F) ->
glists (code (f F)) ((l1, ps1) :: (l2, ps2) :: L) ->
cgen s (luaK_concat l1 l2) F (fun l F' =>
  glists (code (f F')) ((l, ps1 ++ ps2) :: L) /\ words_ok ms (f F') /\ jext F F').
Proof using HL.
intros Hw Hms Hwords Hgl. eapply cgen_mono; [by apply (luaK_concat_lists s Hw ms Hms)|].
cbv beta. by intros l F' (? & ? & ? & _).
Qed.

(** C17: patchlistaux takes a list apart: every jump with a value (a TESTSET
    before it) goes to [v], every other one to [d]; only these jumps and
    their tests change, the remaining lists stay well formed and every word
    stays a valid instruction. *)
Theorem patchlistaux_patches (s : CompState Z') ms F l ps L v reg d :
LexFacts.wf (ls s) -> ms <= MAXSTACK -> words_ok ms (f F) ->
glists (code (f F)) ((l, ps) :: L) ->
reg = NO_REG \/ 0 <= reg < ms -> 0 <= v <= pc F -> 0 <= d <= pc F ->
cgen s (patchlistaux l v reg d) F (fun _ F' =>
  list_patched ps v d (code (f F)) (code (f F')) /\
  glists (code (f F')) L /\ words_ok ms (f F') /\ jext F F').
Proof using HL.
intros Hw Hms Hwords Hgl Hr Hv Hd.
eapply cgen_mono; [apply (patchlistaux_lists s Hw ms Hms l ps L); try done; by left|].
cbv beta. by intros [] F' (? & ? & ? & _ & ?).
Qed.

(** luaK_codeABC appends its instruction, keeps the invariant of the
    function under construction and makes every jump that waited for the
    next instruction go there; or it raises an error. *)
Theorem luaK_codeABC_emits (s : CompState Z') ms o a b c R F :
LexFacts.wf (ls s) -> finv ms F R -> getOpMode o = iABC -> o <> OP_TESTSET ->
0 <= a <= MAXARG_A -> 0 <= b <= MAXARG_B -> 0 <= c <= MAXARG_C ->
(forall bx, fits ms (f F) o a b c bx) ->
cgen s (luaK_codeABC o a b c) F (fun n F' =>
  finv ms F' R /\ n = pc F /\ pc F' = pc F + 1 /\ jpc F' = NO_JUMP /\
  getZ (code (f F')) n = Some (CREATE_ABC o a b c) /\
  (forall ps q, jl (code (f F)) (jpc F) ps -> q ∈ ps -> goes_to (code (f F')) q n)).
Proof using HL.
intros Hw Hi Hm Ho Ha Hb Hc Hf. eapply cgen_mono; [by apply (codeABC_spec s Hw ms)|].
by intros n F' [].
Qed.

(** C15: a binary operation.  The left operand is as [luaK_infix] leaves it,
    its temporaries the registers from [r] to [r1] - 1, the right one lies on
    top of it: [luaK_posfix] gives a value on the registers from [r] on, keeps
    the invariant of the function and the jump lists that wait elsewhere
    ([R]), and gives back every temporary but the one of the result. *)
Theorem luaK_posfix_operates (s : CompState Z') op e1 e2 r r1 F R :
LexFacts.wf (ls s) -> nactvar F <= r ->
infixed op F r e1 r1 -> top_exp F (et e1 :: ef e1 :: R) r1 e2 ->
cgen s (luaK_posfix op e1 e2) F (fun e' F' =>
  ok F' (roots e' ++ R) /\ exp_ok F' r e' (freereg F') /\ discharged e' /\
  r <= freereg F' <= r + 1 /\ cext F F').
Proof using HL.
intros Hw Hr Hop Ht. eapply cgen_mono; [by apply (posfix_spec s Hw F R r r1)|].
cbv beta. intros e' F' ([[Hi He Hr'] Hd] & Hc). pose proof (ok_ms _ _ Hi).
by split_and!; try done; eapply (discharged_one_temp F' r e'); try done; lia.
Qed.

(** LuaK_reserveregs moves the top of the register stack by [n] and
    keeps it below MAXSTACK and the recorded size of the frame; beyond the
    limit it raises an error. *)
Theorem luaK_reserveregs_bound (s : CompState Z') n F R :
LexFacts.wf (ls s) -> ok F R -> 0 <= n ->
cgen s (luaK_reserveregs n) F (fun _ F' => ok F' R /\
  freereg F' = freereg F + n /\ freereg F' <= maxstacksize (f F') < MAXSTACK /\
  code (f F') = code (f F)).
Proof using HL.
intros Hw Hi Hn.
eapply cgen_mono; [apply (reserveregs_spec s Hw (maxstacksize (f F)) n R F Hi Hn); lia|].
cbv beta. intros [] F' (Hi' & _ & Hf & _ & Hc & _). split_and!; try done; [apply Hi'|apply Hi'].
Qed.

(** luaK_stringK gives the place of the string among the constants, adds
    at most one constant, and a second request finds the same place and
    changes nothing. *)
Theorem luaK_stringK_shares (s : CompState Z') str ms F R :
LexFacts.wf (ls s) -> finv ms F R ->
cgen s (luaK_stringK str) F (fun i F' => finv ms F' R /\
  getZ (k (f F')) i = Some (VString str) /\ (exists l, k (f F') = k (f F) ++ l) /\
  luaK_stringK str (set_fs F' s) = Ret (i, set_fs F' s)).
Proof using HL.
intros Hw Hi.
eapply cgen_mono; [apply (addk_spec s Hw ms (VString str) R F Hi)|].
cbv beta. intros i F' (Hi' & (Hc & _) & _ & _ & _ & [Hr (key' & He & Hk)] & _ & Hg).
split; [done|]. split; [|split; [apply Hc|]].
- rewrite Hk. destruct key'; try done. cbn in He. apply bool_decide_eq_true in He.
  by injection He as ->.
- unfold luaK_stringK, addk. rewrite st_gets_bind. cbn [fs set_fs]. by rewrite Hg.
Qed.
End properties.

(** ** Witnesses *)

(** A test, two jumps with lists of their own, and a return *)
Definition two_jumps : list Z :=
  [CREATE_ABC OP_TESTSET NO_REG 0 1; sbx_word OP_JMP 0; sbx_word OP_JMP 0; CREATE_ABC OP_RETURN 0 1 0].

Definition example_func (c : list Z) : FuncState :=
  mkFuncState
    (mkProto [] c [] ((fun _ => 1) <$> c) [] [] (Some (str "=t")) 0 0 0 0 0 2)
    [] [] (-1) NO_JUMP 0 0 [] (replicate (Z.to_nat LUAI_MAXVARS) None).

Definition example_comp (c : list Z) : CompState (option bytes) :=
  mkCompState LexFacts.example_state (example_func c) [] 0.

Lemma words_ok_Forall ms g :
  (forall n, (n < length (code g))%nat -> forall i, code g !! n = Some i ->
     word_ok ms g (sizecode g) (Z.of_nat n) i) -> words_ok ms g.
Proof.
  intros H q i Hq. unfold getZ in Hq. destruct (Z.leb_spec 0 q); [|done].
  replace q with (Z.of_nat (Z.to_nat q)) by lia. apply H; [|done]. by apply lookup_lt_Some in Hq.
Qed.

Lemma two_jumps_words : words_ok 2 (f (example_func two_jumps)).
Proof.
  apply words_ok_Forall. intros [|[|[|[|n]]]] Hn i [= <-].
  - apply word_ok_ABC; try done. intros bx. split; try done; [|by intros [|]..].
    repeat constructor; done.
  - split; [done|]. exists OP_JMP. split; [done|]. split; [|done]. split; try done; by intros [|].
  - split; [done|]. exists OP_JMP. split; [done|]. split; [|done]. split; try done; by intros [|].
  - apply word_ok_ABC; try done. intros bx. split; try done; [|by intros [|]..].
    repeat constructor; done.
Qed.

Lemma two_jumps_lists : glists two_jumps [(1, [1]); (2, [2])].
Proof.
  split.
  - repeat constructor; cbn; try done.
    + eexists. split; [done|]. split; [split; [done|by exists OP_JMP]|done].
    + eexists. split; [done|]. split; [split; [done|by exists OP_JMP]|done].
  - cbn. repeat (apply list.NoDup_cons; split; [rewrite ?elem_of_cons, elem_of_nil; lia|]).
    by apply list.NoDup_nil.
  - intros q i Hq. pose proof (getZ_Some _ _ _ Hq) as Hr. change (lenZ two_jumps) with 4 in Hr.
    assert (q = 0 \/ q = 1 \/ q = 2 \/ q = 3) as [->|[->|[->| ->]]] by lia; injection Hq as <-.
    + intros _. cbn. apply elem_of_cons. by left.
    + by intros [].
    + by intros [].
    + by intros [].
Qed.

Lemma luaK_concat_joins_witness :
  cgen (example_comp []) (luaK_concat 1 2) (example_func two_jumps) (fun l F' =>
    glists (code (f F')) [(l, [1; 2])] /\ words_ok 2 (f F') /\ jext (example_func two_jumps) F').
Proof.
  apply (luaK_concat_joins (example_comp []) 2 (example_func two_jumps) 1 [1] 2 [2] []);
    [apply LexFacts.example_state_wf|done|apply two_jumps_words|apply two_jumps_lists].
Defined.

Lemma patchlistaux_patches_witness :
  cgen (example_comp []) (patchlistaux 1 3 0 0) (example_func two_jumps) (fun _ F' =>
    list_patched [1] 3 0 two_jumps (code (f F')) /\
    glists (code (f F')) [(2, [2])] /\ words_ok 2 (f F') /\ jext (example_func two_jumps) F').
Proof.
  apply (patchlistaux_patches (example_comp []) 2 (example_func two_jumps) 1 [1] [(2, [2])] 3 0 0);
    [apply LexFacts.example_state_wf|done|apply two_jumps_words|apply two_jumps_lists| | |];
    [right; lia|done|done].
Defined.

Lemma example_func_ok : ok (example_func []) [].
Proof.
  split; try done.
  - exists [(NO_JUMP, [])]. split; [done|]. split; [by apply list.Forall_singleton|by apply list.NoDup_nil|].
    intros q i Hq%getZ_Some. unfold lenZ in Hq. cbn in Hq. lia.
  - apply words_ok_Forall. intros n Hn. cbn in Hn. lia.
  - split; try done. cbn. intros. lia.
Qed.

Lemma luaK_codeABC_emits_witness :
  cgen (example_comp []) (luaK_codeABC OP_MOVE 1 0 0) (example_func []) (fun n F' =>
    finv 2 F' [] /\ n = 0 /\ pc F' = 0 + 1 /\ jpc F' = NO_JUMP /\
    getZ (code (f F')) n = Some (CREATE_ABC OP_MOVE 1 0 0) /\
    (forall ps q, jl [] NO_JUMP ps -> q ∈ ps -> goes_to (code (f F')) q n)).
Proof.
  apply (luaK_codeABC_emits (example_comp []) 2 OP_MOVE 1 0 0 [] (example_func []));
    try done; [apply LexFacts.example_state_wf|apply example_func_ok|].
  intros bx. split; try done; [repeat constructor; lia|by intros [|]..].
Defined.

#[local] Instance example_libm : LibM := {| pow a _ := a |}.

(** The first register compared with 2 *)
Definition register_0 : expdesc := mkexpdesc VNONRELOC 0 0 (cast_num 0) NO_JUMP NO_JUMP.
Definition numeral_2 : expdesc := mkexpdesc VKNUM 0 0 (cast_num 2) NO_JUMP NO_JUMP.

Lemma luaK_posfix_operates_witness :
  cgen (example_comp []) (luaK_posfix OPR_LT register_0 numeral_2) (with_freereg 1 (example_func []))
    (fun e' F' => ok F' (roots e' ++ []) /\ exp_ok F' 0 e' (freereg F') /\ discharged e' /\
       0 <= freereg F' <= 0 + 1 /\ cext (with_freereg 1 (example_func [])) F').
Proof.
  assert (Hi : ok (with_freereg 1 (example_func [])) [NO_JUMP; NO_JUMP; NO_JUMP; NO_JUMP]).
  { do 4 apply ok_nojump. apply (set_freereg_ok 2); [apply example_func_ok|cbn; lia]. }
  apply (luaK_posfix_operates (example_comp []) OPR_LT register_0 numeral_2 0 1 (with_freereg 1 (example_func [])) []);
    [apply LexFacts.example_state_wf|done| |].
  - exists 0. split; [done|]. split; [done|]. right. split; [done|]. split; [done|]. by right.
  - split; done.
Defined.

Lemma luaK_reserveregs_bound_witness :
  cgen (example_comp []) (luaK_reserveregs 5) (example_func []) (fun _ F' => ok F' [] /\
    freereg F' = 0 + 5 /\ freereg F' <= maxstacksize (f F') < MAXSTACK /\ code (f F') = []).
Proof.
  apply (luaK_reserveregs_bound (example_comp []) 5 (example_func []) []);
    [apply LexFacts.example_state_wf|apply example_func_ok|done].
Defined.

Lemma luaK_stringK_shares_witness :
  cgen (example_comp []) (luaK_stringK (str "x")) (example_func []) (fun i F' => finv 2 F' [] /\
    getZ (k (f F')) i = Some (VString (str "x")) /\ (exists l, k (f F') = [] ++ l) /\
    luaK_stringK (str "x") (set_fs F' (example_comp [])) = Ret (i, set_fs F' (example_comp []))).
Proof.
  apply (luaK_stringK_shares (example_comp []) (str "x") 2 (example_func []) []);
    [apply LexFacts.example_state_wf|apply example_func_ok].
Defined.

(** ** Where the code falls short *)

(** The word after an OP_SETLIST with C = 0 is a count, but
    getjumpcontrol takes it for an instruction: closing a constructor of
    26950 items (count word 539, whose low bits are those of OP_TESTSET) and
    binding a jump that follows it overwrites the count with 26, an OP_TEST. *)
Theorem setlist_count_overwritten :
  (luaK_setlist 0 26950 50;; get_fs (fun F => code (f F))) (example_comp [])
    ≫= (fun '(c, _) => Ret c) = Ret [CREATE_ABC OP_SETLIST 0 50 0; 539] /\
  (luaK_setlist 0 26950 50;; j ← luaK_jump; luaK_patchtohere j;; luaK_ret 0 0;;
     get_fs (fun F => code (f F))) (example_comp []) ≫= (fun '(c, _) => Ret c)
    = Ret [CREATE_ABC OP_SETLIST 0 50 0; 26; SETARG_sBx (CREATE_ABx OP_JMP 0 0) 0;
           CREATE_ABC OP_RETURN 0 1 0].
Proof. split; vm_compute; reflexivity. Qed.
