(* ===== verification/Parser.v ===== *)
(** * The parser (lparser.c)

    One definition per function, in the state of [Code.v].  The recursion of
    the grammar goes through [subexpr] and [chunk], which count their depth
    in [nCcalls]: the rules take these two as arguments, and [levels] closes
    the knot with as many levels as [LUAI_MAXCCALLS] allows.  Loops that read
    a token in every round run on fuel computed from the rest of the input.
    The fields of an [expdesc] that C leaves unset are 0. *)

From S2P Require Import Prelude Mem Clib Opcodes Object Debug Zio Lex Code.

Definition hasmultret (k : expkind) : bool :=
  bool_decide (k = VCALL) || bool_decide (k = VVARARG).

Definition SHRT_MAX : Z := 32767.

Definition init_exp (k : expkind) (i : Z) : expdesc :=
  mkexpdesc k i 0 (cast_num 0) NO_JUMP NO_JUMP.

(** [luaF_newproto], with the initial values of [open_func] *)
Definition new_proto (src : bytes) : Proto :=
  mkProto [] [] [] [] [] [] (Some src) 0 0 0 0 0 2.

Definition new_func (src : bytes) : FuncState :=
  mkFuncState (new_proto src) [] [] (-1) NO_JUMP 0 0 []
    (replicate (Z.to_nat LUAI_MAXVARS) None).

(** ** Variables of a function at any level *)

(** [fs->actvar[i]], and [getlocvar(fs, i)] *)
Definition get_actvar (F : FuncState) (i : Z) : outcome Z :=
  o ← deref (getZ (actvar F) i); deref o.

Definition getlocvar (F : FuncState) (i : Z) : outcome LocVar :=
  j ← get_actvar F i; deref (getZ (locvars (f F)) j).

(** Change [getlocvar(fs, i)]. *)
Definition set_locvar (g : LocVar -> LocVar) (i : Z) (F : FuncState) : outcome FuncState :=
  j ← get_actvar F i;
  v ← deref (getZ (locvars (f F)) j);
  Ret (with_f (with_locvars (setZ (locvars (f F)) j (g v)) (f F)) F).

Definition set_startpc (n : Z) (v : LocVar) : LocVar := mkLocVar (varname v) n (endpc v).
Definition set_endpc (n : Z) (v : LocVar) : LocVar := mkLocVar (varname v) (startpc v) n.

(** The loop of [searchvar] goes down from [i] - 1. *)
Fixpoint searchvar_from (F : FuncState) (n : bytes) (i : nat) : outcome Z :=
  match i with
  | O => Ret (-1)
  | S i =>
      v ← getlocvar F (Z.of_nat i);
      if bool_decide (varname v = Some n) then Ret (Z.of_nat i) else searchvar_from F n i
  end.

Definition searchvar (F : FuncState) (n : bytes) : outcome Z :=
  searchvar_from F n (Z.to_nat (nactvar F)).

Fixpoint mark_block (level : Z) (l : list BlockCnt) : list BlockCnt :=
  match l with
  | [] => []
  | b :: l => if level <? bnactvar b then b :: mark_block level l else set_bupval b :: l
  end.

Definition markupval (level : Z) (F : FuncState) : FuncState :=
  with_bl (mark_block level (bl F)) F.

(** The place of an upvalue in the list of a function *)
Fixpoint find_upvalue (k : expkind) (i : Z) (l : list upvaldesc) (n : Z) : option Z :=
  match l with
  | [] => None
  | u :: l =>
      if bool_decide (uk u = k) && (uinfo u =? i) then Some n else find_upvalue k i l (n + 1)
  end.

Section parser.
Context {Z' : Type} `{ByteStream Z'} `{LibM}.
Abbreviation CompState := (CompState Z').
Abbreviation Comp := (ST CompState).

Definition tok : Comp Z := gets (fun s => token (t (ls s))).

Definition next_token : Comp unit := lexer luaX_next.

(** [ls->t.seminfo.ts] *)
Definition tok_string : Comp bytes :=
  sem ← gets (fun s => seminfo (t (ls s)));
  match sem with SString ts => mret ts | _ => lift Undef end.

Definition linenumber_ : Comp Z := gets (fun s => linenumber (ls s)).

(** Every round of a loop that reads tokens uses a character or the token
    looked at; the end of the stream is a token. *)
Definition token_rounds : Comp nat := gets (fun s => S (S (S (rounds (ls s))))).

(** The string is anchored in the current function, which must exist. *)
Definition anchor_token (closed_main : bool) : Comp unit :=
  k ← tok;
  if (k =? TK_NAME) || (k =? TK_STRING) then
    tok_string;; (if closed_main then lift Undef else mret tt)
  else mret tt.

Definition error_expected {A} (token : Z) : Comp A :=
  s ← lift (luaX_token2str token);
  syntaxerror (quoted s ++ str " expected").

(** [linedefined] is that of the function the limit is for. *)
Definition errorlimit {A} (linedefined limit : Z) (what : bytes) : Comp A :=
  let msg :=
    if linedefined =? 0 then
      str "main function has more than " ++ fmt_d limit ++ str " " ++ what
    else
      str "function at line " ++ fmt_d linedefined ++ str " has more than " ++ fmt_d limit
      ++ str " " ++ what in
  lexer (luaX_lexerror msg 0).

Definition luaY_checklimit (F : FuncState) (v l : Z) (m : bytes) : Comp unit :=
  if l <? v then errorlimit (linedefined (f F)) l m else mret tt.

Definition testnext (c : Z) : Comp bool :=
  k ← tok; if k =? c then next_token;; mret true else mret false.

Definition check (c : Z) : Comp unit :=
  k ← tok; if negb (k =? c) then error_expected c else mret tt.

Definition checknext (c : Z) : Comp unit := check c;; next_token.

Definition check_match (what who where_ : Z) : Comp unit :=
  found ← testnext what;
  if negb found then
    line ← linenumber_;
    if where_ =? line then error_expected what
    else
      s1 ← lift (luaX_token2str what);
      s2 ← lift (luaX_token2str who);
      syntaxerror (quoted s1 ++ str " expected (to close " ++ quoted s2 ++ str " at line "
        ++ fmt_d where_ ++ str ")")
  else mret tt.

Definition str_checkname : Comp bytes :=
  check TK_NAME;; ts ← tok_string; next_token;; mret ts.

Definition codestring (s : bytes) : Comp expdesc :=
  i ← luaK_stringK s; mret (init_exp VK i).

Definition checkname : Comp expdesc := s ← str_checkname; codestring s.

(** ** Local variables *)

Definition registerlocalvar (name : bytes) : Comp Z :=
  n ← get_fs nlocvars;
  lift (grow n SHRT_MAX (str "too many local variables"));;
  modify_fs (fun F =>
    with_f (with_locvars (locvars (f F) ++ [mkLocVar (Some name) 0 0]) (f F)) F);;
  mret n.

Definition new_localvar (name : bytes) (n : Z) : Comp unit :=
  F ← gets fs;
  luaY_checklimit F (nactvar F + n + 1) LUAI_MAXVARS (str "local variables");;
  j ← registerlocalvar name;
  lift (deref (getZ (actvar F) (nactvar F + n)));;
  modify_fs (fun F => with_actvar (setZ (actvar F) (nactvar F + n) (Some (j mod 2 ^ 16))) F).

(** Change a variable of the current function. *)
Definition modify_locvar (g : LocVar -> LocVar) (i : Z) : Comp unit :=
  F ← gets fs; F ← lift (set_locvar g i F); modify (set_fs F).

Fixpoint start_vars (nvars : nat) : Comp unit :=
  match nvars with
  | O => mret tt
  | S n =>
      F ← gets fs;
      modify_locvar (set_startpc (pc F)) (nactvar F - Z.of_nat nvars);;
      start_vars n
  end.

Definition adjustlocalvars (nvars : Z) : Comp unit :=
  modify_fs (fun F => with_nactvar (u8 (nactvar F + nvars)) F);;
  start_vars (Z.to_nat nvars).

Fixpoint removevars_loop (n : nat) : Comp unit :=
  match n with
  | O => mret tt
  | S n =>
      modify_fs (fun F => with_nactvar (nactvar F - 1) F);;
      F ← gets fs;
      modify_locvar (set_endpc (pc F)) (nactvar F);;
      removevars_loop n
  end.

Definition removevars (tolevel : Z) : Comp unit :=
  n ← get_fs nactvar; removevars_loop (Z.to_nat (n - tolevel)).

Definition indexupvalue (F : FuncState) (name : bytes) (v : expdesc) : Comp (Z * FuncState) :=
  match find_upvalue (ek v) (info v) (upvaldescs F) 0 with
  | Some i => mret (i, F)
  | None =>
      let n := nups (f F) in
      luaY_checklimit F (n + 1) LUAI_MAXUPVALUES (str "upvalues");;
      lift (grow n MAX_INT []);;
      let g := with_upvalues (upvalues (f F) ++ [Some name]) (u8 (n + 1)) (f F) in
      mret (n, with_upvaldescs (upvaldescs F ++ [mkupvaldesc (ek v) (u8 (info v))]) (with_f g F))
  end.

(** The functions from the current one outwards; [base] tells the current
    one. *)
Fixpoint singlevaraux (Fs : list FuncState) (n : bytes) (base : bool)
    : Comp (expdesc * list FuncState) :=
  match Fs with
  | [] => mret (init_exp VGLOBAL NO_REG, [])
  | F :: Fs =>
      v ← lift (searchvar F n);
      if 0 <=? v then mret (init_exp VLOCAL v, (if base then F else markupval v F) :: Fs)
      else
        '(var, Fs) ← singlevaraux Fs n false;
        if bool_decide (ek var = VGLOBAL) then mret (var, F :: Fs)
        else
          '(i, F) ← indexupvalue F n var;
          mret (set_ek VUPVAL (set_info i var), F :: Fs)
  end.

Definition singlevar : Comp expdesc :=
  name ← str_checkname;
  Fs ← gets (fun s => fs s :: prev s);
  '(var, Fs) ← singlevaraux Fs name true;
  match Fs with
  | F :: Fs => modify (fun s => mkCompState (ls s) F Fs (nCcalls s))
  | [] => lift Undef
  end;;
  if bool_decide (ek var = VGLOBAL) then i ← luaK_stringK name; mret (set_info i var)
  else mret var.

Definition adjust_assign (nvars nexps : Z) (e : expdesc) : Comp unit :=
  let extra := nvars - nexps in
  if hasmultret (ek e) then
    let extra := Z.max 0 (extra + 1) in
    luaK_setreturns e extra;;
    (if 1 <? extra then luaK_reserveregs (extra - 1) else mret tt)
  else
    (if negb (bool_decide (ek e = VVOID)) then luaK_exp2nextreg e;; mret tt else mret tt);;
    if 0 <? extra then
      reg ← get_fs freereg;
      luaK_reserveregs extra;;
      luaK_nil reg extra
    else mret tt.

Definition enterlevel : Comp unit :=
  modify (fun s => mkCompState (ls s) (fs s) (prev s) (nCcalls s + 1));;
  n ← gets nCcalls;
  if LUAI_MAXCCALLS <? n then lexer (luaX_lexerror (str "chunk has too many syntax levels") 0)
  else mret tt.

Definition leavelevel : Comp unit :=
  modify (fun s => mkCompState (ls s) (fs s) (prev s) (nCcalls s - 1)).

Definition enterblock (isbreakable : bool) : Comp unit :=
  modify_fs (fun F => with_bl (mkBlockCnt NO_JUMP (nactvar F) false isbreakable :: bl F) F).

Definition leaveblock : Comp unit :=
  l ← get_fs bl;
  match l with
  | [] => lift Undef
  | b :: l =>
      modify_fs (with_bl l);;
      removevars (bnactvar b);;
      (if bupval b then luaK_codeABC OP_CLOSE (bnactvar b) 0 0;; mret tt else mret tt);;
      modify_fs (fun F => with_freereg (nactvar F) F);;
      luaK_patchtohere (breaklist b)
  end.

(** ** Functions *)

(** The pseudo-instructions that capture the upvalues *)
Fixpoint capture (l : list upvaldesc) : Comp unit :=
  match l with
  | [] => mret tt
  | u :: l =>
      luaK_codeABC (if bool_decide (uk u = VLOCAL) then OP_MOVE else OP_GETUPVAL) 0 (uinfo u) 0;;
      capture l
  end.

Definition pushclosure (func : FuncState) : Comp expdesc :=
  n ← get_fs np;
  lift (grow n MAXARG_Bx LIMIT_K);;
  modify_fs (fun F => with_f (with_p (p (f F) ++ [f func]) (f F)) F);;
  i ← luaK_codeABx OP_CLOSURE 0 n;
  capture (take (Z.to_nat (nups (f func))) (upvaldescs func));;
  mret (init_exp VRELOCABLE i).

Definition open_func : Comp unit :=
  modify (fun s => mkCompState (ls s) (new_func (Lex.source (ls s))) (fs s :: prev s) (nCcalls s)).

(** The finished function; the enclosing one is current again. *)
Definition close_func : Comp FuncState :=
  removevars 0;;
  luaK_ret 0 0;;
  F ← gets fs;
  enclosing ← gets prev;
  match enclosing with
  | G :: Gs => modify (fun s => mkCompState (ls s) G Gs (nCcalls s));; anchor_token false
  | [] => anchor_token true
  end;;
  mret F.

(** ** Expressions *)

Section grammar.
Context (subexpr : Z -> Comp (expdesc * BinOpr)) (chunk : Comp unit).

Definition expr : Comp expdesc := '(v, _) ← subexpr 0; mret v.

Definition field (v : expdesc) : Comp expdesc :=
  v ← luaK_exp2anyreg v;
  next_token;;
  key ← checkname;
  luaK_indexed v key.

Definition yindex : Comp expdesc :=
  next_token;;
  v ← expr;
  v ← luaK_exp2val v;
  checknext (ch "]");;
  mret v.

(** *** Constructors *)

Record ConsControl := mkConsControl {
  cv : expdesc;    (* last list item read *)
  nh : Z;          (* total number of `record' elements *)
  na : Z;          (* total number of array elements *)
  tostore : Z      (* number of array elements pending to be stored *)
}.

(** [t] is the table descriptor [cc->t] *)
Definition recfield (t : expdesc) (cc : ConsControl) : Comp ConsControl :=
  F ← gets fs;
  let reg := freereg F in
  k ← tok;
  key ← (if k =? TK_NAME then
           luaY_checklimit F (nh cc) MAX_INT (str "items in a constructor");; checkname
         else yindex);
  checknext (ch "=");;
  '(rkkey, _) ← luaK_exp2RK key;
  val ← expr;
  '(rkval, _) ← luaK_exp2RK val;
  luaK_codeABC OP_SETTABLE (info t) rkkey rkval;;
  modify_fs (with_freereg reg);;
  mret (mkConsControl (cv cc) (nh cc + 1) (na cc) (tostore cc)).

Definition closelistfield (t : expdesc) (cc : ConsControl) : Comp ConsControl :=
  if bool_decide (ek (cv cc) = VVOID) then mret cc
  else
    v ← luaK_exp2nextreg (cv cc);
    let v := set_ek VVOID v in
    if tostore cc =? LFIELDS_PER_FLUSH then
      luaK_setlist (info t) (na cc) (tostore cc);;
      mret (mkConsControl v (nh cc) (na cc) 0)
    else mret (mkConsControl v (nh cc) (na cc) (tostore cc)).

Definition lastlistfield (t : expdesc) (cc : ConsControl) : Comp ConsControl :=
  if tostore cc =? 0 then mret cc
  else if hasmultret (ek (cv cc)) then
    luaK_setmultret (cv cc);;
    luaK_setlist (info t) (na cc) LUA_MULTRET;;
    mret (mkConsControl (cv cc) (nh cc) (na cc - 1) (tostore cc))
  else
    v ← (if negb (bool_decide (ek (cv cc) = VVOID)) then luaK_exp2nextreg (cv cc)
         else mret (cv cc));
    luaK_setlist (info t) (na cc) (tostore cc);;
    mret (mkConsControl v (nh cc) (na cc) (tostore cc)).

Definition listfield (cc : ConsControl) : Comp ConsControl :=
  v ← expr;
  F ← gets fs;
  luaY_checklimit F (na cc) MAX_INT (str "items in a constructor");;
  mret (mkConsControl v (nh cc) (na cc + 1) (tostore cc + 1)).

Definition cons_item (t : expdesc) (cc : ConsControl) : Comp ConsControl :=
  k ← tok;
  if k =? TK_NAME then
    lexer luaX_lookahead;;
    la ← gets (fun s => token (lookahead (ls s)));
    if negb (la =? ch "=") then listfield cc else recfield t cc
  else if k =? ch "[" then recfield t cc
  else listfield cc.

Fixpoint cons_loop (fuel : nat) (t : expdesc) (cc : ConsControl) : Comp ConsControl :=
  match fuel with
  | O => nofuel
  | S fuel =>
      k ← tok;
      if k =? ch "}" then mret cc
      else
        cc ← closelistfield t cc;
        cc ← cons_item t cc;
        c1 ← testnext (ch ",");
        c2 ← (if (c1 : bool) then mret true else testnext (ch ";"));
        if (c2 : bool) then cons_loop fuel t cc else mret cc
  end.

Definition constructor : Comp expdesc :=
  line ← linenumber_;
  pc ← luaK_codeABC OP_NEWTABLE 0 0 0;
  t ← luaK_exp2nextreg (init_exp VRELOCABLE pc);
  checknext (ch "{");;
  fuel ← token_rounds;
  cc ← cons_loop fuel t (mkConsControl (init_exp VVOID 0) 0 0 0);
  check_match (ch "}") (ch "{") line;;
  cc ← lastlistfield t cc;
  i ← get_code pc;
  b ← lift (luaO_int2fb (na cc));
  set_code pc (SETARG_B i b);;
  i ← get_code pc;
  c ← lift (luaO_int2fb (nh cc));
  set_code pc (SETARG_C i c);;
  mret t.

(** *** Functions *)

Definition set_is_vararg (v : Z) : Comp unit :=
  modify_fs (fun F => with_f (with_params (numparams (f F)) v (f F)) F).

(** One parameter; the number of parameters *)
Definition parameter (nparams : Z) : Comp Z :=
  k ← tok;
  if k =? TK_NAME then
    s ← str_checkname; new_localvar s nparams;; mret (nparams + 1)
  else if k =? TK_DOTS then
    next_token;;
    new_localvar (str "arg") nparams;;
    set_is_vararg (Z.lor VARARG_HASARG VARARG_NEEDSARG);;
    v ← get_fs (fun F => is_vararg (f F));
    set_is_vararg (Z.lor v VARARG_ISVARARG);;
    mret (nparams + 1)
  else syntaxerror (str "<name> or '...' expected").

Fixpoint parlist_loop (fuel : nat) (nparams : Z) : Comp Z :=
  match fuel with
  | O => nofuel
  | S fuel =>
      nparams ← parameter nparams;
      v ← get_fs (fun F => is_vararg (f F));
      if v =? 0 then
        comma ← testnext (ch ",");
        if (comma : bool) then parlist_loop fuel nparams else mret nparams
      else mret nparams
  end.

Definition parlist : Comp unit :=
  set_is_vararg 0;;
  k ← tok;
  fuel ← token_rounds;
  nparams ← (if negb (k =? ch ")") then parlist_loop fuel 0 else mret 0);
  adjustlocalvars nparams;;
  modify_fs (fun F =>
    with_f (with_params (u8 (nactvar F - Z.land (is_vararg (f F)) VARARG_HASARG))
              (is_vararg (f F)) (f F)) F);;
  n ← get_fs nactvar;
  luaK_reserveregs n.

Definition body (needself : bool) (line : Z) : Comp expdesc :=
  open_func;;
  modify_fs (fun F => with_f (with_lines line (lastlinedefined (f F)) (f F)) F);;
  checknext (ch "(");;
  (if needself then new_localvar (str "self") 0;; adjustlocalvars 1 else mret tt);;
  parlist;;
  checknext (ch ")");;
  chunk;;
  last ← linenumber_;
  modify_fs (fun F => with_f (with_lines (linedefined (f F)) last (f F)) F);;
  check_match TK_END TK_FUNCTION line;;
  func ← close_func;
  pushclosure func.

Fixpoint explist_loop (fuel : nat) (n : Z) (v : expdesc) : Comp (Z * expdesc) :=
  match fuel with
  | O => nofuel
  | S fuel =>
      comma ← testnext (ch ",");
      if (comma : bool) then
        luaK_exp2nextreg v;; v ← expr; explist_loop fuel (n + 1) v
      else mret (n, v)
  end.

Definition explist1 : Comp (Z * expdesc) :=
  v ← expr; fuel ← token_rounds; explist_loop fuel 1 v.

Definition call_args (line : Z) : Comp expdesc :=
  k ← tok;
  if k =? ch "(" then
    last ← gets (fun s => lastline (ls s));
    (if negb (line =? last) then
       syntaxerror (str "ambiguous syntax (function call x new statement)")
     else mret tt);;
    next_token;;
    k ← tok;
    args ← (if k =? ch ")" then mret (init_exp VVOID 0)
            else '(_, args) ← explist1; luaK_setmultret args;; mret args);
    check_match (ch ")") (ch "(") line;;
    mret args
  else if k =? ch "{" then constructor
  else if k =? TK_STRING then
    s ← tok_string; args ← codestring s; next_token;; mret args
  else syntaxerror (str "function arguments expected").

Definition funcargs (v : expdesc) : Comp expdesc :=
  line ← linenumber_;
  args ← call_args line;
  let base := info v in
  nparams ← (if hasmultret (ek args) then mret LUA_MULTRET
             else
               (if negb (bool_decide (ek args = VVOID)) then luaK_exp2nextreg args;; mret tt
                else mret tt);;
               r ← get_fs freereg;
               mret (r - (base + 1)));
  i ← luaK_codeABC OP_CALL base (nparams + 1) 2;
  luaK_fixline line;;
  modify_fs (with_freereg (base + 1));;
  mret (init_exp VCALL i).

Definition prefixexp : Comp expdesc :=
  k ← tok;
  if k =? ch "(" then
    line ← linenumber_;
    next_token;;
    v ← expr;
    check_match (ch ")") (ch "(") line;;
    luaK_dischargevars v
  else if k =? TK_NAME then singlevar
  else syntaxerror (str "unexpected symbol").

(** One suffix of a primary expression, [None] at its end *)
Definition suffix (v : expdesc) : Comp (option expdesc) :=
  k ← tok;
  if k =? ch "." then v ← field v; mret (Some v)
  else if k =? ch "[" then
    v ← luaK_exp2anyreg v;
    key ← yindex;
    v ← luaK_indexed v key;
    mret (Some v)
  else if k =? ch ":" then
    next_token;;
    key ← checkname;
    v ← luaK_self v key;
    v ← funcargs v;
    mret (Some v)
  else if (k =? ch "(") || (k =? TK_STRING) || (k =? ch "{") then
    v ← luaK_exp2nextreg v;
    v ← funcargs v;
    mret (Some v)
  else mret None.

Fixpoint primary_loop (fuel : nat) (v : expdesc) : Comp expdesc :=
  match fuel with
  | O => nofuel
  | S fuel =>
      w ← suffix v;
      match w with Some v => primary_loop fuel v | None => mret v end
  end.

Definition primaryexp : Comp expdesc :=
  v ← prefixexp; fuel ← token_rounds; primary_loop fuel v.

Definition tok_number : Comp lua_Number :=
  sem ← gets (fun s => seminfo (t (ls s)));
  match sem with SNumber r => mret r | _ => lift Undef end.

Definition simpleexp : Comp expdesc :=
  k ← tok;
  if k =? TK_NUMBER then
    r ← tok_number; next_token;; mret (set_nval r (init_exp VKNUM 0))
  else if k =? TK_STRING then
    s ← tok_string; v ← codestring s; next_token;; mret v
  else if k =? TK_NIL then next_token;; mret (init_exp VNIL 0)
  else if k =? TK_TRUE then next_token;; mret (init_exp VTRUE 0)
  else if k =? TK_FALSE then next_token;; mret (init_exp VFALSE 0)
  else if k =? TK_DOTS then
    v ← get_fs (fun F => is_vararg (f F));
    (if v =? 0 then syntaxerror (str "cannot use '...' outside a vararg function") else mret tt);;
    set_is_vararg (Z.land v (Z.lnot VARARG_NEEDSARG));;
    i ← luaK_codeABC OP_VARARG 0 1 0;
    next_token;;
    mret (init_exp VVARARG i)
  else if k =? ch "{" then constructor
  else if k =? TK_FUNCTION then
    next_token;; line ← linenumber_; body false line
  else primaryexp.

Definition getunopr (op : Z) : UnOpr :=
  if op =? TK_NOT then OPR_NOT
  else if op =? ch "-" then OPR_MINUS
  else if op =? ch "#" then OPR_LEN
  else OPR_NOUNOPR.

Definition getbinopr (op : Z) : BinOpr :=
  if op =? ch "+" then OPR_ADD
  else if op =? ch "-" then OPR_SUB
  else if op =? ch "*" then OPR_MUL
  else if op =? ch "/" then OPR_DIV
  else if op =? ch "%" then OPR_MOD
  else if op =? ch "^" then OPR_POW
  else if op =? TK_CONCAT then OPR_CONCAT
  else if op =? TK_NE then OPR_NE
  else if op =? TK_EQ then OPR_EQ
  else if op =? ch "<" then OPR_LT
  else if op =? TK_LE then OPR_LE
  else if op =? ch ">" then OPR_GT
  else if op =? TK_GE then OPR_GE
  else if op =? TK_AND then OPR_AND
  else if op =? TK_OR then OPR_OR
  else OPR_NOBINOPR.

(** Left and right priority *)
Definition priority (op : BinOpr) : Z * Z :=
  match op with
  | OPR_ADD | OPR_SUB => (6, 6)
  | OPR_MUL | OPR_DIV | OPR_MOD => (7, 7)
  | OPR_POW => (10, 9)
  | OPR_CONCAT => (5, 4)
  | OPR_NE | OPR_EQ | OPR_LT | OPR_LE | OPR_GT | OPR_GE => (3, 3)
  | OPR_AND => (2, 2)
  | OPR_OR => (1, 1)
  | OPR_NOBINOPR => (0, 0)
  end.

Definition UNARY_PRIORITY : Z := 8.

Fixpoint binop_loop (fuel : nat) (limit : Z) (op : BinOpr) (v : expdesc)
    : Comp (expdesc * BinOpr) :=
  match fuel with
  | O => nofuel
  | S fuel =>
      if negb (bool_decide (op = OPR_NOBINOPR)) && (limit <? fst (priority op)) then
        next_token;;
        v ← luaK_infix op v;
        '(v2, nextop) ← subexpr (snd (priority op));
        v ← luaK_posfix op v v2;
        binop_loop fuel limit nextop v
      else mret (v, op)
  end.

(** [subexpr] between [enterlevel] and [leavelevel] *)
Definition subexpr_rule (limit : Z) : Comp (expdesc * BinOpr) :=
  k ← tok;
  let uop := getunopr k in
  v ← (if negb (bool_decide (uop = OPR_NOUNOPR)) then
         next_token;;
         '(v, _) ← subexpr UNARY_PRIORITY;
         luaK_prefix uop v
       else simpleexp);
  k ← tok;
  fuel ← token_rounds;
  binop_loop fuel limit (getbinopr k) v.

(** ** Statements *)

Definition block_follow (token : Z) : bool :=
  (token =? TK_ELSE) || (token =? TK_ELSEIF) || (token =? TK_END) || (token =? TK_UNTIL)
  || (token =? TK_EOS).

Definition block : Comp unit := enterblock false;; chunk;; leaveblock.

(** The chain of the left-hand sides of an assignment, the last one first;
    [extra] replaces register [r]. *)
Definition conflict (r extra : Z) (v : expdesc) : bool * expdesc :=
  if bool_decide (ek v = VINDEXED) then
    let v1 := if info v =? r then set_info extra v else v in
    let v2 := if aux v1 =? r then set_aux extra v1 else v1 in
    ((info v =? r) || (aux v1 =? r), v2)
  else (false, v).

Definition check_conflict (lh : list expdesc) (v : expdesc) : Comp (list expdesc) :=
  extra ← get_fs freereg;
  let l := conflict (info v) extra <$> lh in
  (if existsb fst l then
     r ← get_fs freereg;
     luaK_codeABC OP_MOVE r (info v) 0;;
     luaK_reserveregs 1
   else mret tt);;
  mret (snd <$> l).

(** [VLOCAL <= k && k <= VINDEXED] *)
Definition is_variable (k : expkind) : bool :=
  match k with VLOCAL | VUPVAL | VGLOBAL | VINDEXED => true | _ => false end.

Definition store_top (var : expdesc) : Comp unit :=
  r ← get_fs freereg; luaK_storevar var (init_exp VNONRELOC (r - 1)).

(** The chain behind the first variable, as the conflicts left it *)
Fixpoint assignment (fuel : nat) (lh : list expdesc) (nvars : Z) : Comp (list expdesc) :=
  match lh with
  | [] => lift Undef
  | v :: _ =>
      (if negb (is_variable (ek v)) then syntaxerror (str "syntax error") else mret tt);;
      comma ← testnext (ch ",");
      if (comma : bool) then
        nv ← primaryexp;
        lh ← (if bool_decide (ek nv = VLOCAL) then check_conflict lh nv else mret lh);
        F ← gets fs;
        depth ← gets nCcalls;
        luaY_checklimit F nvars (LUAI_MAXCCALLS - depth) (str "variables in assignment");;
        match fuel with
        | O => nofuel
        | S fuel =>
            lh ← assignment fuel (nv :: lh) (nvars + 1);
            match lh with
            | [] => lift Undef
            | v :: lh => store_top v;; mret lh
            end
        end
      else
        checknext (ch "=");;
        '(nexps, e) ← explist1;
        if negb (nexps =? nvars) then
          adjust_assign nvars nexps e;;
          (if nvars <? nexps then
             modify_fs (fun F => with_freereg (freereg F - (nexps - nvars)) F)
           else mret tt);;
          store_top v;;
          mret (tail lh)
        else
          e ← luaK_setoneret e;
          luaK_storevar v e;;
          mret (tail lh)
  end.

(** The list of jumps out of the condition when it is false *)
Definition cond : Comp Z :=
  v ← expr;
  v ← luaK_goiftrue (if bool_decide (ek v = VNIL) then set_ek VFALSE v else v);
  mret (ef v).

(** The innermost loop: its place in the list of blocks, and whether a block
    inside it has an upvalue *)
Fixpoint find_loop (l : list BlockCnt) (i : nat) (upval : bool) : option (nat * bool) :=
  match l with
  | [] => None
  | b :: l => if isbreakable b then Some (i, upval) else find_loop l (S i) (upval || bupval b)
  end.

Definition get_block (i : nat) : Comp BlockCnt :=
  l ← get_fs bl; lift (deref (l !! i)).

Definition breakstat : Comp unit :=
  l ← get_fs bl;
  match find_loop l 0 false with
  | None => syntaxerror (str "no loop to break")
  | Some (i, upval) =>
      b ← get_block i;
      (if (upval : bool) then luaK_codeABC OP_CLOSE (bnactvar b) 0 0;; mret tt else mret tt);;
      j ← luaK_jump;
      b ← get_block i;
      list ← luaK_concat (breaklist b) j;
      modify_fs (fun F => with_bl (<[i := set_breaklist list b]> (bl F)) F)
  end.

Definition whilestat (line : Z) : Comp unit :=
  next_token;;
  whileinit ← luaK_getlabel;
  condexit ← cond;
  enterblock true;;
  checknext TK_DO;;
  block;;
  j ← luaK_jump;
  luaK_patchlist j whileinit;;
  check_match TK_END TK_WHILE line;;
  leaveblock;;
  luaK_patchtohere condexit.

Definition repeatstat (line : Z) : Comp unit :=
  repeat_init ← luaK_getlabel;
  enterblock true;;
  enterblock false;;
  next_token;;
  chunk;;
  check_match TK_UNTIL TK_REPEAT line;;
  condexit ← cond;
  bl2 ← get_block 0;
  (if negb (bupval bl2) then leaveblock;; luaK_patchlist condexit repeat_init
   else
     breakstat;;
     luaK_patchtohere condexit;;
     leaveblock;;
     j ← luaK_jump;
     luaK_patchlist j repeat_init);;
  leaveblock.

Definition exp1 : Comp expkind :=
  e ← expr;
  luaK_exp2nextreg e;;
  mret (ek e).

Definition forbody (base line nvars : Z) (isnum : bool) : Comp unit :=
  adjustlocalvars 3;;
  checknext TK_DO;;
  prep ← (if isnum then luaK_codeAsBx OP_FORPREP base NO_JUMP else luaK_jump);
  enterblock false;;
  adjustlocalvars nvars;;
  luaK_reserveregs nvars;;
  block;;
  leaveblock;;
  luaK_patchtohere prep;;
  endfor ← (if isnum then luaK_codeAsBx OP_FORLOOP base NO_JUMP
            else luaK_codeABC OP_TFORLOOP base 0 nvars);
  luaK_fixline line;;
  j ← (if isnum then mret endfor else luaK_jump);
  luaK_patchlist j (prep + 1).

Definition fornum (name : bytes) (line : Z) : Comp unit :=
  base ← get_fs freereg;
  new_localvar (str "(for index)") 0;;
  new_localvar (str "(for limit)") 1;;
  new_localvar (str "(for step)") 2;;
  new_localvar name 3;;
  checknext (ch "=");;
  exp1;;
  checknext (ch ",");;
  exp1;;
  comma ← testnext (ch ",");
  (if (comma : bool) then exp1;; mret tt
   else
     r ← get_fs freereg;
     i ← luaK_numberK (cast_num 1);
     luaK_codeABx OP_LOADK r i;;
     luaK_reserveregs 1);;
  forbody base line 1 true.

Fixpoint forlist_names (fuel : nat) (nvars : Z) : Comp Z :=
  match fuel with
  | O => nofuel
  | S fuel =>
      comma ← testnext (ch ",");
      if (comma : bool) then
        s ← str_checkname; new_localvar s nvars;; forlist_names fuel (nvars + 1)
      else mret nvars
  end.

Definition forlist (indexname : bytes) : Comp unit :=
  base ← get_fs freereg;
  new_localvar (str "(for generator)") 0;;
  new_localvar (str "(for state)") 1;;
  new_localvar (str "(for control)") 2;;
  new_localvar indexname 3;;
  fuel ← token_rounds;
  nvars ← forlist_names fuel 4;
  checknext TK_IN;;
  line ← linenumber_;
  '(n, e) ← explist1;
  adjust_assign 3 n e;;
  luaK_checkstack 3;;
  forbody base line (nvars - 3) false.

Definition forstat (line : Z) : Comp unit :=
  enterblock true;;
  next_token;;
  name ← str_checkname;
  k ← tok;
  (if k =? ch "=" then fornum name line
   else if (k =? ch ",") || (k =? TK_IN) then forlist name
   else syntaxerror (str "'=' or 'in' expected"));;
  check_match TK_END TK_FOR line;;
  leaveblock.

Definition test_then_block : Comp Z :=
  next_token;;
  condexit ← cond;
  checknext TK_THEN;;
  block;;
  mret condexit.

(** The [elseif] parts: the lists of jumps to the end and to the next part *)
Fixpoint elseif_loop (fuel : nat) (escapelist flist : Z) : Comp (Z * Z) :=
  match fuel with
  | O => nofuel
  | S fuel =>
      k ← tok;
      if k =? TK_ELSEIF then
        j ← luaK_jump;
        escapelist ← luaK_concat escapelist j;
        luaK_patchtohere flist;;
        flist ← test_then_block;
        elseif_loop fuel escapelist flist
      else mret (escapelist, flist)
  end.

Definition ifstat (line : Z) : Comp unit :=
  flist ← test_then_block;
  fuel ← token_rounds;
  '(escapelist, flist) ← elseif_loop fuel NO_JUMP flist;
  k ← tok;
  escapelist ← (if k =? TK_ELSE then
                  j ← luaK_jump;
                  escapelist ← luaK_concat escapelist j;
                  luaK_patchtohere flist;;
                  next_token;;
                  block;;
                  mret escapelist
                else luaK_concat escapelist flist);
  luaK_patchtohere escapelist;;
  check_match TK_END TK_IF line.

Definition localfunc : Comp unit :=
  s ← str_checkname;
  new_localvar s 0;;
  r ← get_fs freereg;
  let v := init_exp VLOCAL r in
  luaK_reserveregs 1;;
  adjustlocalvars 1;;
  line ← linenumber_;
  b ← body false line;
  luaK_storevar v b;;
  F ← gets fs;
  modify_locvar (set_startpc (pc F)) (nactvar F - 1).

Fixpoint local_names (fuel : nat) (nvars : Z) : Comp Z :=
  match fuel with
  | O => nofuel
  | S fuel =>
      s ← str_checkname;
      new_localvar s nvars;;
      comma ← testnext (ch ",");
      if (comma : bool) then local_names fuel (nvars + 1) else mret (nvars + 1)
  end.

Definition localstat : Comp unit :=
  fuel ← token_rounds;
  nvars ← local_names fuel 0;
  assigned ← testnext (ch "=");
  '(nexps, e) ← (if (assigned : bool) then explist1 else mret (0, init_exp VVOID 0));
  adjust_assign nvars nexps e;;
  adjustlocalvars nvars.

Fixpoint funcname_loop (fuel : nat) (v : expdesc) : Comp expdesc :=
  match fuel with
  | O => nofuel
  | S fuel =>
      k ← tok;
      if k =? ch "." then v ← field v; funcname_loop fuel v else mret v
  end.

Definition funcname : Comp (bool * expdesc) :=
  v ← singlevar;
  fuel ← token_rounds;
  v ← funcname_loop fuel v;
  k ← tok;
  if k =? ch ":" then v ← field v; mret (true, v) else mret (false, v).

Definition funcstat (line : Z) : Comp unit :=
  next_token;;
  '(needself, v) ← funcname;
  b ← body needself line;
  luaK_storevar v b;;
  luaK_fixline line.

Definition exprstat : Comp unit :=
  v ← primaryexp;
  if bool_decide (ek v = VCALL) then
    i ← get_code (info v); set_code (info v) (SETARG_C i 1)
  else assignment (S (S (Z.to_nat LUAI_MAXCCALLS))) [v] 1;; mret tt.

Definition retstat : Comp unit :=
  next_token;;
  k ← tok;
  '(first, nret) ←
    (if block_follow k || (k =? ch ";") then mret (0, 0)
     else
       '(nret, e) ← explist1;
       if hasmultret (ek e) then
         luaK_setmultret e;;
         (if bool_decide (ek e = VCALL) && (nret =? 1) then
            i ← get_code (info e); set_code (info e) (SET_OPCODE i OP_TAILCALL)
          else mret tt);;
         first ← get_fs nactvar;
         mret (first, LUA_MULTRET)
       else if nret =? 1 then e ← luaK_exp2anyreg e; mret (info e, nret)
       else luaK_exp2nextreg e;; first ← get_fs nactvar; mret (first, nret));
  luaK_ret first nret.

(** Whether it must be the last statement of its block *)
Definition statement : Comp bool :=
  line ← linenumber_;
  k ← tok;
  if k =? TK_IF then ifstat line;; mret false
  else if k =? TK_WHILE then whilestat line;; mret false
  else if k =? TK_DO then next_token;; block;; check_match TK_END TK_DO line;; mret false
  else if k =? TK_FOR then forstat line;; mret false
  else if k =? TK_REPEAT then repeatstat line;; mret false
  else if k =? TK_FUNCTION then funcstat line;; mret false
  else if k =? TK_LOCAL then
    next_token;;
    is_function ← testnext TK_FUNCTION;
    (if (is_function : bool) then localfunc else localstat);;
    mret false
  else if k =? TK_RETURN then retstat;; mret true
  else if k =? TK_BREAK then next_token;; breakstat;; mret true
  else exprstat;; mret false.

Fixpoint chunk_loop (fuel : nat) : Comp unit :=
  k ← tok;
  if block_follow k then mret tt
  else
    match fuel with
    | O => nofuel
    | S fuel =>
        islast ← statement;
        testnext (ch ";");;
        modify_fs (fun F => with_freereg (nactvar F) F);;
        if (islast : bool) then mret tt else chunk_loop fuel
    end.

(** [chunk] between [enterlevel] and [leavelevel] *)
Definition chunk_rule : Comp unit := fuel ← token_rounds; chunk_loop fuel.
End grammar.

(** ** The whole grammar

    The two recursive functions with [n] levels below them *)
Fixpoint levels (n : nat) : (Z -> Comp (expdesc * BinOpr)) * Comp unit :=
  match n with
  | O => (fun _ => enterlevel;; nofuel, enterlevel;; nofuel)
  | S n =>
      let '(subexpr, chunk) := levels n in
      (fun limit =>
         enterlevel;;
         r ← subexpr_rule subexpr chunk limit;
         leavelevel;;
         mret r,
       enterlevel;;
       chunk_rule subexpr chunk;;
       leavelevel)
  end.

Definition chunk : Comp unit := snd (levels (S (Z.to_nat LUAI_MAXCCALLS))).

(** [nCcalls] is the depth of C calls of the thread, [tk] what the token of
    the fresh [LexState] holds. *)
Definition luaY_parser (nCcalls : Z) (tk : Token) (z : Z') (name : bytes) : outcome Proto :=
  ls ← luaX_setinput tk z name;
  let main := new_func (Lex.source ls) in
  let s := mkCompState ls main [] nCcalls in
  '(F, _) ←
    (set_is_vararg VARARG_ISVARARG;;
     next_token;;
     chunk;;
     check TK_EOS;;
     close_func) s;
  Ret (f F).
End parser.
