(* ===== verification/ParseState.v ===== *)
(** * The state of the parser

    A calculus for the functions of lparser.c ([run]), the invariant of the
    parser's state ([pst]): the current function is under construction
    ([fun_ok]), and so are the functions around it, whose variables the
    upvalues of the inner ones name ([chain]); and what parsing an expression
    ([estep]) or a statement ([sstep]) keeps.  Then the functions on tokens,
    variables and blocks. *)

From S2P Require Import Prelude Mem Clib Opcodes Object Debug Zio Lex Code JumpLists CodeJumps CodeEmit CodeExp Parser.
From S2P Require LexFacts.

(** A conjunction of facts that are known or plain; [pst] is not taken apart. *)
Ltac conj := split_and!; try assumption; try reflexivity.

(** ** Tokens carry their values *)

Definition tok_ok (tk : Token) : Prop :=
  (token tk = TK_NAME \/ token tk = TK_STRING -> exists ts, seminfo tk = SString ts) /\
  (token tk = TK_NUMBER -> exists r, seminfo tk = SNumber r).

Lemma tok_ok_plain tok sem :
  tok <> TK_NAME -> tok <> TK_STRING -> tok <> TK_NUMBER -> tok_ok (mkToken tok sem).
Proof. intros H1 H2 H3. split; cbn; [by intros [|]|done]. Qed.

Lemma tok_ok_string tok ts : tok <> TK_NUMBER -> tok_ok (mkToken tok (SString ts)).
Proof. intros H. split; cbn; [by exists ts|done]. Qed.

Lemma tok_ok_number r : tok_ok (mkToken TK_NUMBER (SNumber r)).
Proof. split; cbn; [by intros [|]|by exists r]. Qed.

Section tokens.
Context {Z' : Type} `{HS : ByteStream Z'} `{HL : !ByteStreamLaws Z'}.
Abbreviation Lex := (ST (LexState Z')).

(** The result of [m], if there is one, satisfies [P]. *)
Definition gives {A} (m : Lex A) (l : LexState Z') (P : A -> Prop) : Prop :=
  match m l with Ret (a, _) => P a | _ => True end.

Lemma gives_bind {A B} (m : Lex A) (k : A -> Lex B) l P :
  (forall a l', gives (k a) l' P) -> gives (m ≫= k) l P.
Proof using.
  intros Hk. unfold gives, mbind, ST_bind. destruct (m l) as [[a l']| | |]; try done. apply Hk.
Qed.

Lemma gives_bind_val {A B} (m : Lex A) (k : A -> Lex B) l P0 P :
  gives m l P0 -> (forall a l', P0 a -> gives (k a) l' P) -> gives (m ≫= k) l P.
Proof using.
  intros Hm Hk. unfold gives, mbind, ST_bind in *. destruct (m l) as [[a l']| | |]; try done. by apply Hk.
Qed.

Lemma gives_if {A} (b : bool) (m1 m2 : Lex A) l P :
  (b = true -> gives m1 l P) -> (b = false -> gives m2 l P) -> gives (if b then m1 else m2) l P.
Proof using. destruct b; auto. Qed.

Ltac gif H := lazymatch goal with |- gives (if ?b then _ else _) _ _ => destruct b eqn:H end.

Ltac split_if := let H := fresh "Hb" in gif H.

Definition round_ok (r : option (Z * SemInfo)) : Prop :=
  match r with Some (tok, sem) => tok_ok (mkToken tok sem) | None => True end.

Lemma round_plain tok sem l :
  tok < TK_NUMBER -> gives (mret (Some (tok, sem))) l round_ok.
Proof using. intros H. apply tok_ok_plain; unfold TK_NUMBER, TK_NAME, TK_STRING in *; lia. Qed.

Lemma one_or_two_ok c second tk sem l :
  c < TK_NUMBER -> tk < TK_NUMBER -> gives (one_or_two c second tk sem) l round_ok.
Proof using.
  intros Hc Ht. apply gives_bind. intros [] l1. apply gives_bind. intros d l2.
  split_if; [by apply round_plain|]. apply gives_bind. intros [] l3. by apply round_plain.
Qed.

Lemma lex_minus_ok sem l : gives (lex_minus sem) l round_ok.
Proof using.
  unfold lex_minus. do 3 (apply gives_bind; intros ? ?). split_if; [by apply round_plain|].
  do 3 (apply gives_bind; intros ? ?). split_if; repeat (apply gives_bind; intros ? ?); done.
Qed.

Lemma gives_gets {A B} (g : LexState Z' -> A) (k : A -> Lex B) l P :
  gives (k (g l)) l P -> gives (gets g ≫= k) l P.
Proof using. done. Qed.

Lemma llex_step_ok sem l : LexFacts.wf l -> gives (llex_step sem) l round_ok.
Proof using HL.
  intros Hw. unfold llex_step. do 2 apply gives_gets. set (c := current l).
  assert (Hlt : c <> EOZ -> c < TK_NUMBER).
  { intros Hc. destruct (LexFacts.current_byte l Hw Hc). unfold c, TK_NUMBER. lia. }
  assert (Hz : forall x, (c =? x) = true -> x <> EOZ -> c < TK_NUMBER) by (intros x Hx Hn; apply Hlt; bool_facts; congruence).
  gif Hc; [|gif H1; [|gif H2; [|do 4 (gif Hx; [apply one_or_two_ok; [by eapply Hz|done]|clear Hx]); gif H3; [|gif H4]]]].
  - by apply gives_bind.
  - apply lex_minus_ok.
  - apply gives_bind. intros sep l1. split_if.
    + apply (gives_bind_val _ _ _ (fun ts => ts <> None)).
      * unfold read_long_string. repeat (apply gives_bind; intros ? ?). done.
      * intros [ts|] l2 Hn; [by apply tok_ok_string|done].
    + split_if; [by apply round_plain|]. by apply gives_gets, gives_bind.
  - apply gives_bind. intros ts l1. by apply tok_ok_string.
  - do 2 (apply gives_bind; intros ? ?). split_if.
    + apply gives_bind. intros b l2. by split_if; apply round_plain.
    + apply gives_bind. intros d l2. split_if; [by apply round_plain|].
      apply gives_bind. intros r l3. apply tok_ok_number.
  - gif H5; [by apply tok_ok_plain|].
    split_if; [by apply gives_bind|].
    split_if; [apply gives_bind; intros r l1; apply tok_ok_number|].
    split_if.
    + do 4 (apply gives_bind; intros ? ?). split_if.
      * match goal with |- context [reserved ?ts] => pose proof (LexFacts.reserved_range ts) end.
        apply round_plain. unfold TK_NUMBER, FIRST_RESERVED. lia.
      * by apply tok_ok_string.
    + apply gives_bind. intros [] l1. apply round_plain, Hlt. by apply Z.eqb_neq.
Qed.

Lemma llex_loop_ok sem fuel l :
  LexFacts.wf l -> LexFacts.short l -> buffer (buff l) = [] -> gives (llex_loop sem fuel) l (fun '(tok, sem) => tok_ok (mkToken tok sem)).
Proof using HL.
  revert l. induction fuel as [|fuel IH]; intros l Hw Hsh Hb; [done|]. cbn [llex_loop].
  pose proof (llex_step_ok sem l Hw) as Hg. pose proof (LexFacts.llex_step_spec sem l Hw Hsh Hb) as Hp.
  unfold gives, mbind, ST_bind in *. destruct (llex_step sem l) as [[[r|] l1]| | |]; try done.
  destruct Hp as (Ha & _ & Hb1). apply IH; [by apply LexFacts.adv_wf in Ha|by eapply LexFacts.short_adv|done].
Qed.

Lemma llex_ok sem l : LexFacts.wf l -> LexFacts.short l -> gives (llex sem) l (fun '(tok, sem) => tok_ok (mkToken tok sem)).
Proof using HL.
  intros Hw Hsh. unfold llex. pose proof (LexFacts.resetbuffer_spec l Hw) as Hp.
  unfold gives, mbind, ST_bind in *. destruct (resetbuffer l) as [[[] l1]| | |]; try done.
  destruct Hp as (Ha & _ & Hb). apply (llex_loop_ok sem (S (rounds l1)) l1); [by apply LexFacts.adv_wf in Ha|by eapply LexFacts.short_adv|done].
Qed.

(** Both tokens of the scanner carry their values. *)
Definition sem_ok (l : LexState Z') : Prop := tok_ok (t l) /\ tok_ok (lookahead l).

Lemma gives_post {A} (m : Lex A) l (P : A * LexState Z' -> Prop) G :
  post (m l) P -> gives m l G -> post (m l) (fun x => P x /\ G x.1).
Proof using. unfold gives. by destruct (m l) as [[a l']| | |]. Qed.

Lemma next_sem l : LexFacts.wf l -> LexFacts.short l -> sem_ok l -> post (luaX_next l) (fun '(_, l') => sem_ok l').
Proof using HL.
  intros Hw Hsh [H1 H2]. unfold luaX_next. st_simpl. pose proof (LexFacts.set_lastline_wf l Hw) as Hw1.
  destruct (Z.eqb_spec (token (lookahead (set_lastline (linenumber l) l))) TK_EOS) as [E|E]; cbn [negb].
  - st_simpl. eapply st_post_bind; [apply gives_post; [by apply LexFacts.llex_spec|by apply llex_ok]|].
    intros [tok sem] l1 [(Ha & _) Hg]. split; [exact Hg|]. cbn. by rewrite (LexFacts.adv_lookahead _ _ Ha).
  - st_simpl. split; [done|]. by apply tok_ok_plain.
Qed.

Lemma lookahead_sem l :
  LexFacts.wf l -> LexFacts.short l -> sem_ok l -> token (lookahead l) = TK_EOS -> post (luaX_lookahead l) (fun '(_, l') => sem_ok l').
Proof using HL.
  intros Hw Hsh [H1 H2] He. unfold luaX_lookahead. st_simpl.
  eapply st_post_bind; [apply gives_post; [by apply LexFacts.llex_spec|by apply llex_ok]|].
  intros [tok sem] l1 [(Ha & _) Hg]. split; [|exact Hg]. cbn. by rewrite (LexFacts.adv_t _ _ Ha).
Qed.
End tokens.

(** ** Functions under construction *)

(** A finished function: its instructions have operands in range ([regs_of]
    leaves out the register of an [OP_TESTSET] that still has none, and no
    such instruction is left), its jumps go to instructions, and it ends with
    a return. *)
Inductive good : Proto -> Prop :=
| Good g :
    words_ok (maxstacksize g) g ->
    (forall q i, getZ (code g) q = Some i -> ~ pending i) ->
    (forall q i, getZ (code g) q = Some i -> jump_word i -> 0 <= jdest q i < sizecode g) ->
    getZ (code g) (sizecode g - 1) = Some (CREATE_ABC OP_RETURN 0 1 0) ->
    lenZ (lineinfo g) = sizecode g ->
    2 <= maxstacksize g < MAXSTACK ->
    sizeupvalues g = nups g -> nups g <= LUAI_MAXUPVALUES ->
    (forall h, In h (p g) -> good h) -> good g.

(** The first variable of a block with a captured variable has a register. *)
Definition ups_ok (F : FuncState) : Prop :=
  Forall (fun b => bupval b = true -> bnactvar b < maxstacksize (f F)) (bl F).

Record fun_ok (F : FuncState) (R : list Z) : Prop := {
  fo_ok : ok F R;
  fo_ups : ups_ok F;
  fo_protos : forall h, In h (p (f F)) -> good h
}.

(** The variable of the enclosing function that an upvalue captures *)
Definition captured (G : FuncState) (u : upvaldesc) : Prop :=
  match uk u with
  | VLOCAL => 0 <= uinfo u < nactvar G
  | VUPVAL => 0 <= uinfo u < nups (f G)
  | _ => False
  end.

(** The functions from the current one outwards *)
Fixpoint chain (Fs : list FuncState) : Prop :=
  match Fs with
  | [] => True
  | F :: Fs =>
      match Fs with
      | [] => upvaldescs F = []
      | G :: _ => Forall (captured G) (upvaldescs F)
      end /\ chain Fs
  end.

(** *** What grows *)

Definition same_block (b b' : BlockCnt) : Prop := bnactvar b' = bnactvar b /\ isbreakable b' = isbreakable b.

Record gext (F F' : FuncState) : Prop := {
  gx_nups : nups (f F) <= nups (f F');
  gx_k : exists l, k (f F') = k (f F) ++ l;
  gx_ms : maxstacksize (f F) <= maxstacksize (f F');
  gx_pc : pc F <= pc F';
  gx_table : forall q, op_at (code (f F)) q = Some OP_NEWTABLE -> op_at (code (f F')) q = Some OP_NEWTABLE
}.

(** Variables may have come into scope, and blocks may have breaks and
    captured variables. *)
Record fext (F F' : FuncState) : Prop := {
  fx_nactvar : nactvar F <= nactvar F';
  fx_bl : Forall2 same_block (bl F) (bl F');
  fx_gext : gext F F'
}.

(** In expressions no variable of the function comes or goes. *)
Record eext (F F' : FuncState) : Prop := {
  ex_fext : fext F F';
  ex_nactvar : nactvar F' = nactvar F;
  ex_actvar : actvar F' = actvar F;
  ex_nlocvars : nlocvars F <= nlocvars F'
}.

(** Inner functions only capture variables of the outer ones. *)
Record oext (G G' : FuncState) : Prop := {
  ox_eext : eext G G';
  ox_freereg : freereg G' = freereg G;
  ox_ok : forall R, fun_ok G R -> fun_ok G' R
}.

#[export] Instance same_block_preorder : PreOrder same_block.
Proof. split; [done|]. intros b1 b2 b3 [] []. split; congruence. Qed.

#[export] Instance gext_preorder : PreOrder gext.
Proof.
  split.
  - intros F. split; try done. exists []. by rewrite app_nil_r.
  - intros F1 F2 F3 [C1 [l1 D1] E1 G1 H1] [C2 [l2 D2] E2 G2 H2]. split; try lia; [|auto].
    exists (l1 ++ l2). by rewrite D2, D1, app_assoc.
Qed.

#[export] Instance fext_preorder : PreOrder fext.
Proof. split; [by split|]. intros F1 F2 F3 [] []. split; [lia|by etrans..]. Qed.

#[export] Instance eext_preorder : PreOrder eext.
Proof.
  split; [by split|]. intros F1 F2 F3 [] []. split; [by etrans|congruence|congruence|lia].
Qed.

#[export] Instance oext_preorder : PreOrder oext.
Proof.
  split; [by split|]. intros F1 F2 F3 [? ? H1] [? ? H2]. split; [by etrans|congruence|auto].
Qed.

Lemma cext_gext F F' : cext F F' -> gext F F'.
Proof. intros [Hs Hk Hm Hp Ht]. injection Hs as _ _ _ _ _ _ _ _ _ _ Hnu _ _. split; try done. by rewrite Hnu. Qed.

Lemma cext_eext F F' : cext F F' -> eext F F'.
Proof.
  intros Hc. pose proof (cext_gext _ _ Hc). destruct Hc as [Hs _ _ _ _]. injection Hs as Hn Hb Hu Ha Hpr Hl Hup _ _ _ Hnu _ _.
  split; [split|done|done|]; try done; [by rewrite Hn|by rewrite Hb|].
  unfold nlocvars, sizelocvars. by rewrite Hl.
Qed.

Lemma cext_fun_ok F F' R R' : fun_ok F R -> cext F F' -> ok F' R' -> fun_ok F' R'.
Proof.
  intros [Hi Hu Hp] [Hs _ Hm _ _] Hi'. injection Hs as _ Hb _ _ Hpr _ _ _ _ _ _ _ _.
  split; [done| |by rewrite Hpr]. unfold ups_ok. rewrite Hb. eapply Forall_impl; [|exact Hu].
  cbn. intros b H1 H2. specialize (H1 H2). lia.
Qed.

Lemma captured_mono G G' u : nactvar G <= nactvar G' -> nups (f G) <= nups (f G') -> captured G u -> captured G' u.
Proof. unfold captured. intros H1 H2. destruct (uk u); try done; lia. Qed.

Lemma chain_head F F' Fs : upvaldescs F' = upvaldescs F -> chain (F :: Fs) -> chain (F' :: Fs).
Proof. cbn. by intros ->. Qed.

(** ** The state of the parser *)

(** The number of characters and tokens that the theorem is for: all items of
    a constructor are counted by the argument C of OP_SETLIST. *)
Definition MAXTEXT : Z := 25550.

Section parsing.
Context {Z' : Type} `{HS : ByteStream Z'} `{HL : !ByteStreamLaws Z'} `{HM : LibM}.
Abbreviation Comp := (ST (CompState Z')).
Implicit Types s : CompState Z'.

Definition todo s : nat := LexFacts.todo (ls s).

(** [N] is the number of levels entered. *)
Record pst (N : Z) s (R : list Z) : Prop := {
  ps_wf : LexFacts.wf (ls s);
  ps_sem : sem_ok (ls s);
  ps_fun : fun_ok (fs s) R;
  ps_prev : Forall (fun G => exists R, fun_ok G R) (prev s);
  ps_chain : chain (fs s :: prev s);
  ps_depth : nCcalls s = N;
  ps_todo : Z.of_nat (todo s) <= MAXTEXT
}.

(** A statement was parsed. *)
Record sstep s s' : Prop := {
  ss_todo : (todo s' <= todo s)%nat;
  ss_prev : Forall2 oext (prev s) (prev s');
  ss_fext : fext (fs s) (fs s')
}.

(** A part of an expression was parsed. *)
Record estep s s' : Prop := {
  es_todo : (todo s' <= todo s)%nat;
  es_prev : Forall2 oext (prev s) (prev s');
  es_eext : eext (fs s) (fs s')
}.

#[export] Instance sstep_preorder : PreOrder sstep.
Proof using. split; [by split|]. intros s1 s2 s3 [] []. split; [lia|by etrans..]. Qed.

#[export] Instance estep_preorder : PreOrder estep.
Proof using. split; [by split|]. intros s1 s2 s3 [] []. split; [lia|by etrans..]. Qed.

Lemma estep_sstep s s' : estep s s' -> sstep s s'.
Proof using. intros [? ? []]. by split. Qed.

(** *** Running the functions of the parser *)

Definition run {A} (m : Comp A) s (Q : A -> CompState Z' -> Prop) : Prop := post (m s) (fun '(a, s') => Q a s').

Lemma run_bind {A B} (m : Comp A) (k : A -> Comp B) s P Q :
  run m s P -> (forall a s', P a s' -> run (k a) s' Q) -> run (m ≫= k) s Q.
Proof using. intros Hm Hk. eapply st_post_bind; [exact Hm|]. intros a s'. apply Hk. Qed.

Lemma run_mono {A} (m : Comp A) s (P Q : A -> CompState Z' -> Prop) :
  run m s P -> (forall a s', P a s' -> Q a s') -> run m s Q.
Proof using. intros Hm HQ. eapply post_mono; [exact Hm|]. intros [a s']. apply HQ. Qed.

Lemma run_ret {A} (a : A) s (Q : A -> CompState Z' -> Prop) : Q a s -> run (mret a) s Q.
Proof using. done. Qed.

Lemma run_ret_bind {A B} (a : A) (k : A -> Comp B) s Q : run (k a) s Q -> run (mret a ≫= k) s Q.
Proof using. done. Qed.

Lemma run_gets {A B} (g : CompState Z' -> A) (k : A -> Comp B) s Q : run (k (g s)) s Q -> run (gets g ≫= k) s Q.
Proof using. done. Qed.

Lemma run_modify (g : CompState Z' -> CompState Z') s (Q : unit -> CompState Z' -> Prop) : Q tt (g s) -> run (modify g) s Q.
Proof using. done. Qed.

Lemma run_modify_bind {B} (g : CompState Z' -> CompState Z') (k : unit -> Comp B) s Q : run (k tt) (g s) Q -> run (modify g ≫= k) s Q.
Proof using. done. Qed.

Lemma run_group {A B C} (m : Comp A) (k1 : A -> Comp B) (k2 : B -> Comp C) s Q :
  run (m ≫= fun a => k1 a ≫= k2) s Q -> run ((m ≫= k1) ≫= k2) s Q.
Proof using. unfold run. by rewrite st_bind_bind. Qed.

Lemma run_regroup {A B C} (m : Comp A) (k1 : A -> Comp B) (k2 : B -> Comp C) s Q :
  run ((m ≫= k1) ≫= k2) s Q -> run (m ≫= fun a => k1 a ≫= k2) s Q.
Proof using. unfold run. by rewrite st_bind_bind. Qed.

Lemma run_lift {A} (m : outcome A) s (P : A -> Prop) (Q : A -> CompState Z' -> Prop) :
  post m P -> (forall a, P a -> Q a s) -> run (lift m) s Q.
Proof using. intros Hm HQ. unfold run, lift. destruct m; try done. by apply HQ. Qed.

(** The code generator worked on the current function. *)
Record cstep s s' : Prop := {
  cs_eq : s' = set_fs (fs s') s;
  cs_cext : cext (fs s) (fs s')
}.

Lemma cstep_ls s s' : cstep s s' -> ls s' = ls s.
Proof using. by intros [-> _]. Qed.

Lemma cstep_prev s s' : cstep s s' -> prev s' = prev s.
Proof using. by intros [-> _]. Qed.

Lemma cstep_todo s s' : cstep s s' -> todo s' = todo s.
Proof using. intros H. unfold todo. by rewrite (cstep_ls _ _ H). Qed.

Lemma cstep_bl s s' : cstep s s' -> bl (fs s') = bl (fs s).
Proof using. intros [_ [Hs _ _ _ _]]. by injection Hs. Qed.

Lemma cstep_estep s s' : cstep s s' -> estep s s'.
Proof using.
  intros H. split; [by rewrite (cstep_todo _ _ H)|by rewrite (cstep_prev _ _ H)|]. apply cext_eext, H.
Qed.

#[export] Instance cstep_preorder : PreOrder cstep.
Proof using.
  split.
  - intros s. split; [by destruct s|apply cext_refl].
  - intros s1 s2 s3 [E1 H1] [E2 H2]. split; [|by eapply cext_trans]. by rewrite E2, E1.
Qed.

(** A function of the code generator *)
Lemma run_gen {A} N (m : Comp A) s R (R' : A -> list Z) (P : A -> FuncState -> Prop) :
  pst N s R -> cgen s m (fs s) (fun a F' => ok F' (R' a) /\ cext (fs s) F' /\ P a F') ->
  run m s (fun a s' => pst N s' (R' a) /\ cstep s s' /\ P a (fs s')).
Proof using.
  intros [] Hm. assert (E : s = set_fs (fs s) s) by (by destruct s). unfold run. rewrite E at 1.
  eapply post_mono; [exact Hm|]. intros [a s'] (F' & -> & Hi & Hc & HP).
  split; [|split; [|exact HP]].
  - split; [exact ps_wf0|exact ps_sem0|exact (cext_fun_ok _ _ _ _ ps_fun0 Hc Hi)|exact ps_prev0| |exact ps_depth0|exact ps_todo0].
    eapply chain_head; [|exact ps_chain0]. cbn. destruct Hc as [Hs _ _ _ _]. by injection Hs.
  - split; [done|exact Hc].
Qed.
End parsing.

(** ** More of the code generator *)

(** The function with another top of the registers and another frame *)
Definition grown (m r : Z) (F : FuncState) : FuncState := with_freereg r (with_f (with_maxstack m (f F)) F).

Lemma grown_grown m r m' r' F : grown m' r' (grown m r F) = grown m' r' F.
Proof. done. Qed.

Lemma grown_self F r : freereg F = r -> grown (maxstacksize (f F)) r F = F.
Proof. intros <-. by destruct F as [[]]. Qed.

Lemma finv_ms ms ms' F R : finv ms F R -> ms <= ms' <= MAXSTACK -> finv ms' F R.
Proof.
  intros [] Hm. split; try done; [|lia]. eapply words_ok_mono; [..|exact fi_words]; try done; [lia|exact (k_refl (f F))].
Qed.

Lemma grown_finv ms m r F R :
  finv ms F R -> maxstacksize (f F) <= m <= ms -> m < MAXSTACK -> nactvar F <= r <= m -> finv ms (grown m r F) R.
Proof.
  intros [] Hm H250 Hr. split; try done; cbn; try lia.
  - eapply words_ok_mono; [..|exact fi_words]; try done. exact (k_refl (f F)).
  - by apply (vars_ok_static F).
Qed.

Lemma grown_cext m r F : maxstacksize (f F) <= m -> cext F (grown m r F).
Proof. intros Hm. split; try done. exists []. by rewrite app_nil_r. Qed.

Lemma upd_kept F q w v :
  getZ (code (f F)) q = Some w -> GET_OPCODE v = GET_OPCODE w -> kept F (upd_code F q v).
Proof. intros Hq Hv. eapply jext_kept, jext_upd; [done|]. left. by rewrite Hv. Qed.

Lemma upd_upd F q v w : upd_code (upd_code F q v) q w = upd_code F q w.
Proof.
  unfold upd_code. cbn. unfold setZ. destruct (0 <=? q); [by rewrite list_insert_insert_eq|done].
Qed.

(** A call or a [...] with as many results as there are, or with [n] *)
Lemma upd_fin ms F R q w v o :
  finv ms F R -> getZ (code (f F)) q = Some w -> op_of (GET_OPCODE w) = Some o -> o <> OP_TESTSET -> getOpMode o <> iAsBx ->
  is_u32 v -> GET_OPCODE v = GET_OPCODE w -> fits ms (f F) o (GETARG_A v) (GETARG_B v) (GETARG_C v) (GETARG_Bx v) ->
  finv ms (upd_code F q v) R.
Proof.
  intros Hi Hq Ho Hn Hm Hv Hov Hf. apply (upd_finv ms F R q w); try done.
  - by eapply jump_word_not.
  - eapply (not_pending_op _ o); [congruence|done].
  - split; [done|]. exists o. by rewrite Hov.
Qed.

Section extras.
Context {Z' : Type} `{HS : ByteStream Z'} `{HL : !ByteStreamLaws Z'} `{HM : LibM}.
Context (s : CompState Z') (Hw : LexFacts.wf (ls s)).

Lemma reserve_exact F n :
  0 <= n -> maxstacksize (f F) < MAXSTACK -> 0 <= freereg F ->
  cgen s (luaK_reserveregs n) F (fun _ F' =>
    F' = grown (Z.max (maxstacksize (f F)) (freereg F + n)) (freereg F + n) F /\ freereg F + n < MAXSTACK).
Proof using HL Hw.
  intros Hn Hm Hf. change MAXSTACK with 250 in *. unfold luaK_reserveregs, luaK_checkstack.
  apply cgen_assoc, cgen_fs. destruct (Z.ltb_spec (maxstacksize (f F)) (freereg F + n)) as [Hlt|Hle].
  - destruct (Z.leb_spec MAXSTACK (freereg F + n)) as [Hb|Hb]; change MAXSTACK with 250 in *.
    + eapply cgen_bind with (P := fun _ _ => False); [by apply cgen_syntaxerror|done].
    + rewrite u8_small by (unfold is_byte; lia). apply cgen_modify_bind, cgen_modify. split; [|lia].
      unfold grown. by rewrite Z.max_r by lia.
  - apply cgen_ret_bind, cgen_modify. split; [|lia]. rewrite Z.max_l by lia. by destruct F as [[]].
Qed.

(** A call gets its number of results, in the word or by the top of the stack. *)
Lemma setreturns_spec F R r e n :
  top_exp F R r e -> hasmultret (ek e) = true -> et e = NO_JUMP -> ef e = NO_JUMP -> -1 <= n < MAXARG_C ->
  cgen s (luaK_setreturns e n) F (fun _ F' => exists F1,
    (forall ms, maxstacksize (f F) <= ms <= MAXSTACK -> r + Z.max n 1 <= ms -> finv ms F1 R) /\ kept F F1 /\
    F' = grown (Z.max (maxstacksize (f F)) (r + 1)) (r + 1) F1 /\ r + 1 < MAXSTACK /\
    (ek e = VCALL -> exists w, getZ (code (f F1)) (info e) = Some w /\ op_of (GET_OPCODE w) = Some OP_CALL)).
Proof using HL Hw.
  intros [Hi He Hr] Hk E1 E2 Hn. unfold roots in Hi. rewrite E1, E2 in Hi. pose proof (ok_ms _ _ Hi) as Hms.
  change MAXSTACK with 250 in *. assert (Hmx : MAXARG_C = 511) by done.
  unfold luaK_setreturns, exp_ok in *. destruct (ek e) eqn:Ek; try done.
  - (* VCALL *) destruct He as ((w & Hq & Ho & HA) & _ & Hf). cbn [bool_decide] in *.
    rewrite bool_decide_eq_false_2 in Hi by done. cbn in Hi. do 2 apply nojump_ok in Hi.
    rewrite bool_decide_eq_true_2 by done. eapply cgen_code; [done|]. eapply cgen_set; [done|].
    destruct (fi_words _ _ _ Hi _ _ Hq) as (Hu & o & Ho' & [Hregs _ _ _ _] & _). rewrite Ho in Ho'. injection Ho' as <-.
    destruct (SETARG_C_fields w (n + 1) Hu) as (H1 & H2 & H3 & H4 & H5); [lia|].
    exists (upd_code F (info e) (SETARG_C w (n + 1))). split; [|split; [|split; [|split; [lia|]]]].
    + intros ms Hm1 Hm2. apply (upd_fin ms F R (info e) w _ OP_CALL); try done; [by eapply finv_ms|].
      rewrite H3, H4, H5. split; try done; try (by intros [|]). cbn [regs_of] in *. rewrite HA in *. constructor; [lia|].
      apply list.Forall_app. apply Forall_inv_tail in Hregs. apply list.Forall_app in Hregs as [Hregs _]. split.
      { eapply Forall_impl; [|exact Hregs]. cbn. lia. }
      destruct (n + 1 <=? 1) eqn:E; constructor; [bool_facts; lia|constructor].
    + by eapply upd_kept.
    + rewrite Z.max_l by lia. symmetry. by apply (grown_self (upd_code F (info e) _)).
    + intros _. exists (SETARG_C w (n + 1)). split; [by eapply upd_code_at|congruence].
  - (* VVARARG *) destruct He as (Hop & Hf). destruct (op_at_inv _ _ _ Hop) as (w & Hq & Ho).
    rewrite bool_decide_eq_false_2 in Hi by done. cbn in Hi. do 2 apply nojump_ok in Hi.
    rewrite bool_decide_eq_false_2 by done. rewrite bool_decide_eq_true_2 by done.
    destruct (fi_words _ _ _ Hi _ _ Hq) as (Hu & o & Ho' & [Hregs _ _ _ _] & _). rewrite Ho in Ho'. injection Ho' as <-.
    destruct (SETARG_B_fields w (n + 1) Hu) as (H1 & H2 & H3 & H4 & H5); [maxargs; lia|].
    set (w1 := SETARG_B w (n + 1)) in *.
    destruct (SETARG_A_fields w1 (freereg F) H1) as (G1 & G2 & G3 & G4 & G5 & _); [maxargs; lia|].
    set (w2 := SETARG_A w1 (freereg F)) in *.
    assert (Hq1 : getZ (code (f (upd_code F (info e) w1))) (info e) = Some w1) by (by eapply upd_code_at).
    eapply cgen_code; [done|]. eapply cgen_bind; [eapply (cgen_set s _ _ _ _ (fun _ F' => F' = upd_code F (info e) w1)); done|].
    cbv beta. intros _ F' ->. eapply cgen_code; [done|]. apply cgen_get.
    eapply cgen_bind; [eapply (cgen_set s _ _ _ _ (fun _ F' => F' = upd_code F (info e) w2)); [done|apply upd_upd]|].
    cbv beta. intros _ F' ->. eapply cgen_mono; [apply reserve_exact; [done|change (maxstacksize (f F) < 250); lia|change (0 <= freereg F); lia]|].
    cbv beta. intros _ F' [-> Hlt]. change (freereg _) with (freereg F) in *. rewrite Hf in *.
    exists (upd_code F (info e) w2). split; [|split; [by eapply upd_kept; [done|congruence]|split; [done|by split]]].
    intros ms Hm1 Hm2. apply (upd_fin ms F R (info e) w _ OP_VARARG); try done; [by eapply finv_ms|congruence|].
    rewrite G3, G4, H4. split; try done; try (by intros [|]). cbn [regs_of]. constructor; [lia|].
    destruct (n + 1 <=? 1) eqn:E; constructor; [bool_facts; lia|constructor].
Qed.

Lemma grown_ok F F1 m r R :
  finv m F1 R -> kept F F1 -> maxstacksize (f F) <= m < MAXSTACK -> nactvar F <= r <= m -> ok (grown m r F1) R /\ cext F (grown m r F1).
Proof using.
  intros Hi Hk Hm Hr. pose proof (kept_nactvar _ _ Hk) as Hn. destruct Hk as (Hc & _ & Hms). split.
  - unfold ok. apply (grown_finv m); [done|lia..].
  - eapply cext_trans; [exact Hc|]. apply grown_cext. lia.
Qed.

(** As many results as there are *)
Lemma setmultret_spec F R r e :
  top_exp F R r e -> hasmultret (ek e) = true -> et e = NO_JUMP -> ef e = NO_JUMP ->
  cgen s (luaK_setmultret e) F (fun _ F' => ok F' R /\ cext F F' /\ freereg F' = r + 1 /\
    (ek e = VCALL -> exists w, getZ (code (f F')) (info e) = Some w /\ op_of (GET_OPCODE w) = Some OP_CALL)).
Proof using HL Hw.
  intros Ht Hk E1 E2. pose proof (te_base _ _ _ _ Ht). pose proof (ok_ms _ _ (te_ok _ _ _ _ Ht)).
  eapply cgen_mono; [apply (setreturns_spec F R r e LUA_MULTRET); try done; unfold LUA_MULTRET; maxargs; lia|].
  cbv beta. intros _ F' (F1 & Hi & Hk1 & -> & Hlt & Hcall). unfold LUA_MULTRET in *. change MAXSTACK with 250 in *.
  destruct (grown_ok F F1 (Z.max (maxstacksize (f F)) (r + 1)) (r + 1) R) as [H1 H2];
    [apply Hi; lia|done|change MAXSTACK with 250; lia|lia|].
  split; [exact H1|]. split; [exact H2|]. split; [reflexivity|exact Hcall].
Qed.

(** [n] results in registers of their own *)
Lemma adjust_multi_spec F R r e n :
  top_exp F R r e -> hasmultret (ek e) = true -> et e = NO_JUMP -> ef e = NO_JUMP -> 0 <= n < MAXARG_C ->
  cgen s (luaK_setreturns e n;; (if 1 <? n then luaK_reserveregs (n - 1) else mret tt)) F
    (fun _ F' => ok F' R /\ cext F F' /\ freereg F' = r + Z.max n 1).
Proof using HL Hw.
  intros Ht Hk E1 E2 Hn. pose proof (te_base _ _ _ _ Ht). pose proof (ok_ms _ _ (te_ok _ _ _ _ Ht)).
  eapply cgen_bind; [apply (setreturns_spec F R r e n); try done; lia|].
  cbv beta. intros _ F' (F1 & Hi & Hk1 & -> & Hlt & _). change MAXSTACK with 250 in *. destruct Hk1 as (Hc1 & Hf1 & Hm1).
  destruct (Z.ltb_spec 1 n) as [H1|H1].
  - eapply cgen_mono; [apply reserve_exact; [lia|change MAXSTACK with 250; cbn; lia|cbn; lia]|].
    cbv beta. intros _ F' [-> Hlt2]. rewrite grown_grown. cbn [maxstacksize freereg f grown with_freereg with_f with_maxstack] in *.
    change MAXSTACK with 250 in *.
    destruct (grown_ok F F1 (Z.max (Z.max (maxstacksize (f F)) (r + 1)) (r + 1 + (n - 1))) (r + 1 + (n - 1)) R) as [G1 G2];
      [apply Hi; lia|done|change MAXSTACK with 250; lia|lia|].
    split; [exact G1|]. split; [exact G2|]. cbn. lia.
  - apply cgen_ret. destruct (grown_ok F F1 (Z.max (maxstacksize (f F)) (r + 1)) (r + 1) R) as [G1 G2];
      [apply Hi; lia|done|change MAXSTACK with 250; lia|lia|].
    split; [exact G1|]. split; [exact G2|]. cbn. lia.
Qed.

Lemma setlist_spec F R base nelems tostore :
  ok F R -> 0 <= base -> nactvar F <= base + 1 <= maxstacksize (f F) -> 1 <= nelems <= 25550 ->
  tostore = LUA_MULTRET \/ 0 < tostore <= LFIELDS_PER_FLUSH /\ base + tostore < maxstacksize (f F) ->
  cgen s (luaK_setlist base nelems tostore) F (fun _ F' => ok F' R /\ cext F F' /\ freereg F' = base + 1).
Proof using HL Hw.
  intros Hi Hb Hr Hn Ht. pose proof (ok_ms _ _ Hi) as Hms. unfold luaK_setlist. unfold LFIELDS_PER_FLUSH, LUA_MULTRET in *.
  assert (Hc : 1 <= Z.quot (nelems - 1) 50 + 1 <= MAXARG_C).
  { rewrite Z.quot_div_nonneg by lia. maxargs. pose proof (Z.div_pos (nelems - 1) 50).
    pose proof (Z.div_le_mono (nelems - 1) 25549 50). change (25549 / 50) with 510 in *. lia. }
  rewrite (proj2 (Z.leb_le _ _)) by lia.
  set (c := Z.quot (nelems - 1) 50 + 1) in *. set (b := if tostore =? -1 then 0 else tostore).
  assert (Hbr : 0 <= b <= 50 /\ (b = 0 \/ base + b < maxstacksize (f F))).
  { unfold b. destruct (Z.eqb_spec tostore (-1)); lia. }
  eapply cgen_bind; [apply (plain_ABC_spec s Hw R F OP_SETLIST); try done; maxargs; try lia|].
  - intros bx. split; try done; try (by intros [|]). cbn [regs_of]. constructor; [lia|].
    destruct (b =? 0) eqn:E; constructor; [bool_facts; lia|constructor].
  - cbv beta. intros n F1 (Hi1 & Hc1 & _). apply cgen_modify. pose proof (cext_nactvar _ _ Hc1). pose proof (ce_ms _ _ Hc1).
    split; [|split; [|done]].
    + apply (set_freereg_ok (maxstacksize (f F1))); [done|lia].
    + eapply cext_trans; [exact Hc1|]. apply cext_freereg.
Qed.

Lemma fixline_spec F R line :
  ok F R -> 0 < pc F ->
  cgen s (luaK_fixline line) F (fun _ F' => ok F' R /\ cext F F' /\ freereg F' = freereg F /\ code (f F') = code (f F)).
Proof using.
  intros Hi Hp. unfold luaK_fixline. apply cgen_get, cgen_get.
  destruct (getZ_is_Some (lineinfo (f F)) (pc F - 1)) as [l Hl]; [rewrite (fi_lines _ _ _ Hi); lia|].
  eapply cgen_lift_bind; [by apply (post_deref _ (fun _ => True) l)|]. intros _ _. apply cgen_modify.
  destruct Hi. split; [|split; [|done]].
  - split; try done.
    + cbn. eapply words_ok_mono; [..|exact fi_words]; try done. exact (k_refl (f F)).
    + cbn. by rewrite lenZ_setZ.
    + by apply (vars_ok_static F).
  - split; try done. exists []. by rewrite app_nil_r.
Qed.

Lemma ret_spec F R first nret :
  ok F R -> 0 <= first < maxstacksize (f F) -> -1 <= nret -> first + nret <= maxstacksize (f F) ->
  cgen s (luaK_ret first nret) F (fun _ F' => ok F' R /\ cext F F' /\ freereg F' = freereg F /\ strict F' /\ jpc F' = NO_JUMP /\
    pc F' = pc F + 1 /\ getZ (code (f F')) (pc F) = Some (CREATE_ABC OP_RETURN first (nret + 1) 0)).
Proof using HL Hw.
  intros Hi Hf Hn Hr. pose proof (ok_ms _ _ Hi). unfold luaK_ret.
  eapply cgen_bind; [apply (codeABC_spec s Hw (maxstacksize (f F)) OP_RETURN); try done; maxargs; try lia|].
  - intros bx. split; try done; try (by intros [|]). cbn [regs_of]. constructor; [lia|].
    destruct (nret + 1 <=? 1) eqn:E; constructor; [bool_facts; lia|constructor].
  - cbv beta. intros n F' Hem. apply cgen_ret. destruct (emitted_cext _ _ _ _ _ _ Hem) as (Hc & Hfr).
    split_and!; try done; [by eapply emitted_ok|apply Hem..|]. rewrite <- (em_pos _ _ _ _ _ _ Hem). apply Hem.
Qed.
End extras.

(** ** Tokens *)

Section states.
Context {Z' : Type} `{HS : ByteStream Z'} `{HL : !ByteStreamLaws Z'} `{HM : LibM}.
Context (N : Z).
Abbreviation Comp := (ST (CompState Z')).
Implicit Types s : CompState Z'.

Lemma pst_ok s R : pst N s R -> ok (fs s) R.
Proof using. intros []. by apply fo_ok. Qed.

Lemma pst_roots s R R' : pst N s R -> ok (fs s) R' -> pst N s R'.
Proof using.
  intros [] Hi. split; [done|done| |done|done|done|done]. destruct ps_fun0. by split.
Qed.

Lemma pst_perm s R R' : R ≡ₚ R' -> pst N s R -> pst N s R'.
Proof using. intros HR Hp. eapply pst_roots; [done|]. eapply ok_perm; [exact HR|by apply pst_ok]. Qed.

Lemma pst_nojump s R : pst N s (NO_JUMP :: R) -> pst N s R.
Proof using. intros Hp. eapply pst_roots; [done|]. by apply nojump_ok, pst_ok. Qed.

Lemma nojump_pst s R : pst N s R -> pst N s (NO_JUMP :: R).
Proof using. intros Hp. eapply pst_roots; [done|]. by apply ok_nojump, pst_ok. Qed.

Lemma pst_regs s R : pst N s R -> 0 <= nactvar (fs s) <= freereg (fs s) /\ freereg (fs s) <= maxstacksize (f (fs s)) < 250 /\ 2 <= maxstacksize (f (fs s)).
Proof using. intros Hp%pst_ok. pose proof (ok_ms _ _ Hp). lia. Qed.

(** The scanner is fine. *)
Record lok s : Prop := { lk_wf : LexFacts.wf (ls s); lk_sem : sem_ok (ls s); lk_short : LexFacts.short (ls s) }.

Lemma pst_lok s R : pst N s R -> lok s.
Proof using.
  intros [Hw Hs _ _ _ _ Ht]. split; [done|done|]. unfold LexFacts.short, todo, LexFacts.todo, MAXTEXT in *.
  change INT_MAX with 2147483647. lia.
Qed.

(** Tokens were read. *)
Record tstep s s' : Prop := {
  ts_fs : fs s' = fs s;
  ts_prev : prev s' = prev s;
  ts_depth : nCcalls s' = nCcalls s;
  ts_todo : (todo s' <= todo s)%nat;
  ts_lok : lok s'
}.

(** At least one token was used up, and the next one is not known. *)
Definition used s s' : Prop := tstep s s' /\ (todo s' < todo s)%nat /\ token (lookahead (ls s')) = TK_EOS.

Lemma tstep_refl s : lok s -> tstep s s.
Proof using. by split. Qed.

Lemma tstep_trans s1 s2 s3 : tstep s1 s2 -> tstep s2 s3 -> tstep s1 s3.
Proof using. intros [] []. split; try congruence; lia || done. Qed.

Lemma tstep_estep s s' : tstep s s' -> estep s s'.
Proof using. intros [Hf Hp _ Ht _]. split; [done|by rewrite Hp|by rewrite Hf]. Qed.

Lemma pst_tstep s s' R : pst N s R -> tstep s s' -> pst N s' R.
Proof using.
  intros [] [Hf Hp Hd Ht [H1 H2]]. split; [exact H1|exact H2|by rewrite Hf|by rewrite Hp|by rewrite Hf, Hp|congruence|lia].
Qed.

Lemma next_run s :
  lok s -> run next_token s (fun _ s' => tstep s s' /\ (token (t (ls s)) <> TK_EOS -> used s s')).
Proof using HL.
  intros [Hw Hs Hsh]. unfold run, next_token, lexer.
  pose proof (post_and _ _ _ (LexFacts.luaX_next_spec (ls s) Hw Hsh) (next_sem (ls s) Hw Hsh Hs)) as Hp.
  destruct (luaX_next (ls s)) as [[[] l]| | |]; try done. destruct Hp as [Hnx Hs'].
  pose proof (LexFacts.next_short _ _ Hnx Hsh) as Hsh'. destruct Hnx as [Hw' Ht _ Hpr Hla _ _ _ _].
  assert (H : tstep s (mkCompState l (fs s) (prev s) (nCcalls s))) by (split; done).
  split; [exact H|]. intros Hn. split; [exact H|]. split; [by apply Hpr|exact Hla].
Qed.

Lemma lookahead_run s R :
  pst N s R -> token (lookahead (ls s)) = TK_EOS ->
  run (lexer luaX_lookahead) s (fun _ s' => tstep s s' /\ t (ls s') = t (ls s)).
Proof using HL.
  intros Hp0%pst_lok He. destruct Hp0 as [Hw Hs Hsh]. unfold run, lexer.
  pose proof (post_and _ _ _ (LexFacts.luaX_lookahead_spec (ls s) Hw Hsh He) (lookahead_sem (ls s) Hw Hsh Hs He)) as Hp.
  destruct (luaX_lookahead (ls s)) as [[[] l]| | |]; try done. destruct Hp as [[Hw' Ht Hl Hpr _ _ _ _] Hs'].
  assert (LexFacts.short l) by (unfold LexFacts.short in *; lia). done.
Qed.

Lemma syntaxerror_run {A} msg s (Q : A -> CompState Z' -> Prop) : lok s -> run (syntaxerror msg) s Q.
Proof using HL.
  intros [Hw _ _]. unfold run, syntaxerror, lexer.
  pose proof (LexFacts.syntaxerror_spec (A := A) msg (ls s) (fun _ => False)
    (LexFacts.wf_buff _ Hw) (LexFacts.wf_t _ Hw)) as Hs.
  by destruct (luaX_syntaxerror msg (ls s)) as [[a l]| | |].
Qed.

Lemma lexerror_run {A} msg s (Q : A -> CompState Z' -> Prop) : lok s -> run (lexer (luaX_lexerror msg 0)) s Q.
Proof using HL.
  intros [Hw _]. unfold run, lexer.
  pose proof (LexFacts.lexerror_spec (A := A) msg 0 (ls s) (fun _ => False) (LexFacts.wf_buff _ Hw) ltac:(split; done)) as Hs.
  by destruct (luaX_lexerror msg 0 (ls s)) as [[a l]| | |].
Qed.

Lemma checklimit_run F v l msg s : lok s -> run (luaY_checklimit F v l msg) s (fun _ s' => s' = s /\ v <= l).
Proof using HL.
  intros Hl. unfold luaY_checklimit. destruct (Z.ltb_spec l v); [|by apply run_ret].
  unfold errorlimit. by apply lexerror_run.
Qed.

Lemma error_expected_run {A} c s (Q : A -> CompState Z' -> Prop) : LexFacts.token_ok c -> lok s -> run (error_expected c) s Q.
Proof using HL.
  intros Hc Hp. unfold error_expected. destruct (LexFacts.token2str_spec c Hc) as [st ->].
  eapply run_bind; [by apply (run_lift _ _ (fun _ => True) (fun _ s' => s' = s))|]. cbv beta. intros a s' ->. by apply syntaxerror_run.
Qed.

Lemma testnext_run c s :
  c <> TK_EOS -> lok s -> run (testnext c) s (fun (b : bool) s' => if b then used s s' else s' = s).
Proof using HL.
  intros Hc Hp. unfold testnext, tok. apply run_gets. destruct (Z.eqb_spec (token (t (ls s))) c) as [E|E]; [|by apply run_ret].
  eapply run_bind; [by apply next_run|]. cbv beta. intros _ s' (_ & Hu). apply run_ret. apply Hu. congruence.
Qed.

Lemma check_run c s : LexFacts.token_ok c -> lok s -> run (check c) s (fun _ s' => s' = s /\ token (t (ls s)) = c).
Proof using HL.
  intros Hc Hp. unfold check, tok. apply run_gets. destruct (Z.eqb_spec (token (t (ls s))) c) as [E|E]; cbn [negb].
  - by apply run_ret.
  - by apply error_expected_run.
Qed.

Lemma checknext_run c s : LexFacts.token_ok c -> c <> TK_EOS -> lok s -> run (checknext c) s (fun _ => used s).
Proof using HL.
  intros Hc Hn Hp. unfold checknext. eapply run_bind; [by apply check_run|]. cbv beta. intros _ s' [-> E].
  eapply run_mono; [by apply next_run|]. cbv beta. intros _ s' (_ & Hu). apply Hu. congruence.
Qed.

(** The current token is known not to be the end. *)
Lemma next_used s : token (t (ls s)) <> TK_EOS -> lok s -> run next_token s (fun _ => used s).
Proof using HL. intros Hn Hp. eapply run_mono; [by apply next_run|]. cbv beta. intros _ s' (_ & Hu). by apply Hu. Qed.

Lemma check_match_run what who where_ s :
  LexFacts.token_ok what -> LexFacts.token_ok who -> what <> TK_EOS -> lok s ->
  run (check_match what who where_) s (fun _ => used s).
Proof using HL.
  intros Hc Hc2 Hn Hp. unfold check_match. eapply run_bind; [by apply testnext_run|].
  cbv beta. intros [] s' Hs; cbn [negb]; [by apply run_ret|].
  subst s'. apply run_gets. destruct (where_ =? _); [by apply error_expected_run|].
  destruct (LexFacts.token2str_spec what Hc) as [s1 ->]. destruct (LexFacts.token2str_spec who Hc2) as [s2 ->].
  eapply run_bind; [by apply (run_lift _ _ (fun _ => True) (fun _ s' => s' = s))|]. cbv beta. intros a s3 ->.
  eapply run_bind; [by apply (run_lift _ _ (fun _ => True) (fun _ s' => s' = s))|]. cbv beta. intros a2 s3 ->.
  by apply syntaxerror_run.
Qed.

Lemma tok_string_run s :
  token (t (ls s)) = TK_NAME \/ token (t (ls s)) = TK_STRING -> lok s -> run tok_string s (fun _ s' => s' = s).
Proof using.
  intros Ht [_ [[H1 _] _]]. unfold tok_string. apply run_gets. by destruct (H1 Ht) as [ts ->].
Qed.

Lemma tok_number_run s : token (t (ls s)) = TK_NUMBER -> lok s -> run tok_number s (fun _ s' => s' = s).
Proof using.
  intros Ht [_ [[_ H1] _]]. unfold tok_number. apply run_gets. by destruct (H1 Ht) as [r ->].
Qed.

Lemma str_checkname_run s : lok s -> run str_checkname s (fun _ => used s).
Proof using HL.
  intros Hp. unfold str_checkname. eapply run_bind; [by apply (check_run TK_NAME)|]. cbv beta. intros _ s' [-> E].
  eapply run_bind; [apply (tok_string_run s); [by left|done]|]. cbv beta. intros ts s' ->.
  eapply run_bind; [apply (next_used s); [by rewrite E|done]|]. cbv beta. intros _ s' Hu. by apply run_ret.
Qed.

(** Rounds of a loop that reads a token in each of them *)
Lemma token_rounds_run {B} (k : nat -> Comp B) s Q :
  (forall fuel, (todo s < fuel)%nat -> run (k fuel) s Q) -> run (token_rounds ≫= k) s Q.
Proof using.
  intros Hk. unfold token_rounds. apply run_gets. apply Hk. rewrite LexFacts.left_rounds.
  unfold todo, LexFacts.todo. repeat case_decide; lia.
Qed.

(** ** Changing the current function *)

Lemma pst_fs s R R' F' :
  pst N s R -> fun_ok F' R' -> upvaldescs F' = upvaldescs (fs s) -> pst N (set_fs F' s) R'.
Proof using.
  intros [] Hf Hu. split; [exact ps_wf0|exact ps_sem0|exact Hf|exact ps_prev0| |exact ps_depth0|exact ps_todo0].
  eapply chain_head; [exact Hu|exact ps_chain0].
Qed.

Lemma sstep_fs s F' : fext (fs s) F' -> sstep s (set_fs F' s).
Proof using. intros Hf. by split. Qed.

Lemma estep_fs s F' : eext (fs s) F' -> estep s (set_fs F' s).
Proof using. intros Hf. by split. Qed.

Lemma blocks_ok_mono n n' l : n <= n' -> blocks_ok n l -> blocks_ok n' l.
Proof using. destruct l as [|b l]; [done|]. cbn. intros Hn [? ?]. split; [lia|done]. Qed.

(** *** Local variables *)

(** The next [n] variables are declared. *)
Definition declared (F : FuncState) (n : Z) : Prop :=
  nactvar F + n <= LUAI_MAXVARS /\
  forall i, nactvar F <= i < nactvar F + n -> exists j, getZ (actvar F) i = Some (Some j) /\ 0 <= j < nlocvars F.

Lemma declared_0 F : vars_ok F -> declared F 0.
Proof using. intros Hv. pose proof (vo_nactvar _ Hv). split; [lia|]. lia. Qed.

Lemma declared_eext F F' n : eext F F' -> declared F n -> declared F' n.
Proof using.
  intros [_ Hn Ha Hl] [H1 H2]. split; [lia|]. rewrite Hn, Ha. intros i Hi. destruct (H2 i Hi) as (j & Hj & ?).
  exists j. split; [done|lia].
Qed.

(** The function with one more variable *)
Definition with_var (n : Z) (v : LocVar) (F : FuncState) : FuncState :=
  with_actvar (setZ (actvar F) (nactvar F + n) (Some (nlocvars F))) (with_f (with_locvars (locvars (f F) ++ [v]) (f F)) F).

Lemma nlocvars_with_var n v F : nlocvars (with_var n v F) = nlocvars F + 1.
Proof using. unfold nlocvars, sizelocvars. cbn. by rewrite lenZ_app. Qed.

Lemma vars_ok_with_var n v F :
  vars_ok F -> 0 <= n -> nactvar F + n < LUAI_MAXVARS -> nlocvars F < 32767 -> vars_ok (with_var n v F).
Proof using.
  intros [V1 V2 V3 V4 V5 V6 V7] Hn Hm Hl. split; try done.
  - cbn. by rewrite lenZ_setZ.
  - rewrite nlocvars_with_var. cbn. intros i Hi. destruct (V3 i Hi) as (j & Hj & ?). exists j. split; [|lia].
    rewrite getZ_setZ_ne by lia. done.
  - rewrite nlocvars_with_var. lia.
Qed.

Lemma declared_with_var n v F :
  vars_ok F -> 0 <= n -> nactvar F + n < LUAI_MAXVARS -> declared F n -> declared (with_var n v F) (n + 1).
Proof using.
  intros Hv Hn Hm [H1 H2]. split; [cbn; lia|]. rewrite nlocvars_with_var. cbn. intros i Hi.
  assert (0 <= nlocvars F) by apply lenZ_nonneg. pose proof (vo_nactvar _ Hv). pose proof (vo_actvar _ Hv).
  destruct (decide (i = nactvar F + n)) as [->|].
  - exists (nlocvars F). split; [|lia]. apply getZ_setZ_eq. lia.
  - rewrite getZ_setZ_ne by done. destruct (H2 i) as (j & Hj & ?); [lia|]. exists j. split; [done|lia].
Qed.

Lemma new_localvar_raw name n s :
  lok s -> vars_ok (fs s) -> 0 <= n ->
  run (new_localvar name n) s (fun _ s' => exists v, s' = set_fs (with_var n v (fs s)) s /\
    nactvar (fs s) + n < LUAI_MAXVARS /\ nlocvars (fs s) < 32767).
Proof using HL.
  intros Hl Hv Hn. unfold new_localvar. apply run_gets.
  eapply run_bind; [by apply checklimit_run|]. cbv beta. intros _ s1 [-> Hlim].
  unfold registerlocalvar. apply run_group, run_gets, run_group.
  eapply run_bind; [apply (run_lift _ _ (fun _ => nlocvars (fs s) < 32767) (fun _ s' => s' = s /\ nlocvars (fs s) < 32767))|].
  { unfold grow. change SHRT_MAX with 32767. destruct (Z.leb_spec 32767 (nlocvars (fs s))); cbn; done. }
  { done. }
  cbv beta. intros [] s1 [-> Hlt]. apply run_group, run_modify_bind, run_ret_bind.
  assert (0 <= nlocvars (fs s)) by apply lenZ_nonneg. pose proof (vo_nactvar _ Hv). pose proof (vo_actvar _ Hv).
  destruct (getZ_is_Some (actvar (fs s)) (nactvar (fs s) + n)) as [o Ho]; [lia|].
  eapply run_bind.
  { apply (run_lift _ _ (fun _ => True) (fun _ s' => s' = set_fs (with_f (with_locvars (locvars (f (fs s)) ++ [mkLocVar (Some name) 0 0]) (f (fs s))) (fs s)) s)).
    - by apply (post_deref _ _ o).
    - done. }
  cbv beta. intros _ s1 ->. apply run_modify. exists (mkLocVar (Some name) 0 0). split; [|lia].
  unfold with_var. rewrite Z.mod_small by lia. done.
Qed.

(** A locvar changed *)
Lemma set_locvar_raw g i F :
  vars_ok F -> 0 <= i < nactvar F ->
  post (set_locvar g i F) (fun F' => exists l, F' = with_f (with_locvars l (f F)) F /\ lenZ l = nlocvars F).
Proof using.
  intros Hv Hi. destruct (vo_vars _ Hv i Hi) as (j & Hj & Hr). unfold set_locvar, get_actvar. rewrite Hj. cbn.
  destruct (getZ_is_Some (locvars (f F)) j) as [v Hl]; [done|]. rewrite Hl. cbn.
  eexists. split; [done|]. by rewrite lenZ_setZ.
Qed.

Lemma modify_locvar_raw g i s :
  vars_ok (fs s) -> 0 <= i < nactvar (fs s) ->
  run (modify_locvar g i) s (fun _ s' => exists l, s' = set_fs (with_f (with_locvars l (f (fs s))) (fs s)) s /\ lenZ l = nlocvars (fs s)).
Proof using.
  intros Hv Hi. unfold modify_locvar. apply run_gets. eapply run_bind.
  - apply (run_lift _ _ (fun F' => exists l, F' = with_f (with_locvars l (f (fs s))) (fs s) /\ lenZ l = nlocvars (fs s))
      (fun F' s' => s' = s /\ exists l, F' = with_f (with_locvars l (f (fs s))) (fs s) /\ lenZ l = nlocvars (fs s))); [by apply set_locvar_raw|done].
  - cbv beta. intros F' s' (-> & l & -> & Hl). apply run_modify. by exists l.
Qed.

Lemma vars_ok_locvars l F : vars_ok F -> lenZ l = nlocvars F -> vars_ok (with_f (with_locvars l (f F)) F).
Proof using.
  intros [V1 V2 V3 V4 V5 V6 V7] Hl. unfold nlocvars, sizelocvars in *. split; try done; unfold nlocvars, sizelocvars; cbn; by rewrite Hl.
Qed.

Lemma with_locvars_twice l l' F :
  with_f (with_locvars l' (f (with_f (with_locvars l (f F)) F))) (with_f (with_locvars l (f F)) F) = with_f (with_locvars l' (f F)) F.
Proof using. done. Qed.

Lemma start_vars_raw n s :
  vars_ok (fs s) -> Z.of_nat n <= nactvar (fs s) ->
  run (start_vars n) s (fun _ s' => exists l, s' = set_fs (with_f (with_locvars l (f (fs s))) (fs s)) s /\ lenZ l = nlocvars (fs s)).
Proof using.
  revert s. induction n as [|n IH]; intros s Hv Hn.
  - apply run_ret. exists (locvars (f (fs s))). split; [by destruct s as [? [[]] ? ?]|done].
  - cbn [start_vars]. apply run_gets. eapply run_bind; [apply modify_locvar_raw; [done|lia]|].
    cbv beta. intros _ s1 (l & -> & Hl). eapply run_mono; [apply IH; cbn; [by apply vars_ok_locvars|lia]|].
    cbv beta. intros _ s2 (l2 & -> & Hl2). exists l2. split; [done|]. rewrite Hl2. exact Hl.
Qed.

(** The first [n] declared variables come into scope. *)
Definition scoped (n : Z) (l : list LocVar) (F : FuncState) : FuncState := with_nactvar n (with_f (with_locvars l (f F)) F).

Lemma vars_ok_scoped n l F :
  vars_ok F -> 0 <= n -> declared F n -> lenZ l = nlocvars F -> vars_ok (scoped (nactvar F + n) l F).
Proof using.
  intros Hv Hn [D1 D2] Hl. pose proof (vars_ok_locvars l F Hv Hl) as [V1 V2 V3 V4 V5 V6 V7].
  split; try done; cbn; [cbn in V1; lia|]. intros i Hi. destruct (decide (i < nactvar F)); [apply V3; cbn; lia|].
  destruct (D2 i) as (j & Hj & Hr); [lia|]. exists j. split; [done|]. unfold nlocvars, sizelocvars in *. cbn. lia.
Qed.

Lemma adjustlocalvars_raw n s :
  vars_ok (fs s) -> 0 <= n -> declared (fs s) n ->
  run (adjustlocalvars n) s (fun _ s' => exists l, s' = set_fs (scoped (nactvar (fs s) + n) l (fs s)) s /\ lenZ l = nlocvars (fs s)).
Proof using.
  intros Hv Hn Hd. unfold adjustlocalvars. apply run_modify_bind. pose proof (vo_nactvar _ Hv).
  assert (Hu : u8 (nactvar (fs s) + n) = nactvar (fs s) + n).
  { apply u8_small. unfold is_byte. destruct Hd. change LUAI_MAXVARS with 200 in *. lia. }
  rewrite Hu. pose proof (vars_ok_scoped n (locvars (f (fs s))) (fs s) Hv Hn Hd eq_refl) as Hv'.
  eapply run_mono; [apply start_vars_raw|].
  - replace (fs (set_fs _ s)) with (scoped (nactvar (fs s) + n) (locvars (f (fs s))) (fs s)); [done|]. by destruct s as [? [[]] ? ?].
  - cbn. lia.
  - cbv beta. intros _ s' (l & -> & Hl). exists l. split; [done|exact Hl].
Qed.

Lemma removevars_raw n s :
  vars_ok (fs s) -> Z.of_nat n <= nactvar (fs s) ->
  run (removevars_loop n) s (fun _ s' => exists l, s' = set_fs (scoped (nactvar (fs s) - Z.of_nat n) l (fs s)) s /\ lenZ l = nlocvars (fs s)).
Proof using.
  revert s. induction n as [|n IH]; intros s Hv Hn.
  - apply run_ret. exists (locvars (f (fs s))). split; [|done]. rewrite Z.sub_0_r. by destruct s as [? [[]] ? ?].
  - cbn [removevars_loop]. apply run_modify_bind, run_gets. pose proof (vo_nactvar _ Hv).
    destruct (vo_vars _ Hv (nactvar (fs s) - 1)) as (j & Hj & Hr); [lia|].
    unfold modify_locvar. apply run_group, run_gets, run_group.
    eapply run_bind.
    { apply (run_lift _ _ (fun F' => exists l, F' = scoped (nactvar (fs s) - 1) l (fs s) /\ lenZ l = nlocvars (fs s))
        (fun F' s' => s' = set_fs (with_nactvar (nactvar (fs s) - 1) (fs s)) s /\ exists l, F' = scoped (nactvar (fs s) - 1) l (fs s) /\ lenZ l = nlocvars (fs s))); [|done].
      unfold set_locvar, get_actvar. cbn. rewrite Hj. cbn.
      destruct (getZ_is_Some (locvars (f (fs s))) j) as [v Hl]; [done|]. rewrite Hl. cbn.
      eexists. split; [done|]. by rewrite lenZ_setZ. }
    cbv beta. intros F' s' (-> & l & -> & Hl). apply run_modify_bind.
    eapply run_mono; [apply IH; cbn|].
    + destruct (vars_ok_locvars l (fs s) Hv Hl) as [V1 V2 V3 V4 V5 V6 V7]. split; try done; cbn; [lia|].
      intros i Hi. apply V3. cbn. lia.
    + lia.
    + cbv beta. intros _ s2 (l2 & -> & Hl2). exists l2. split; [|rewrite Hl2; exact Hl].
      cbn. unfold scoped. cbn. replace (nactvar (fs s) - 1 - Z.of_nat n) with (nactvar (fs s) - Z.of_nat (S n)) by lia. done.
Qed.

(** The function with other variables in scope *)
Definition with_vars (n : Z) (a : list (option Z)) (l : list LocVar) (F : FuncState) : FuncState :=
  with_nactvar n (with_actvar a (with_f (with_locvars l (f F)) F)).

Lemma with_vars_ok n a l F R :
  ok F R -> vars_ok (with_vars n a l F) -> n <= freereg F -> blocks_ok n (bl F) -> ok (with_vars n a l F) R.
Proof using.
  intros [] Hv Hn Hb. split; try done; cbn; [|lia]. eapply words_ok_mono; [..|exact fi_words]; try done. exact (k_refl (f F)).
Qed.

Lemma with_vars_fun_ok n a l F R :
  fun_ok F R -> vars_ok (with_vars n a l F) -> n <= freereg F -> blocks_ok n (bl F) -> fun_ok (with_vars n a l F) R.
Proof using. intros [] Hv Hn Hb. split; [by apply with_vars_ok|done|done]. Qed.

Lemma with_vars_fext n a l F : nactvar F <= n -> fext F (with_vars n a l F).
Proof using. intros Hn. split; [done|done|]. split; try done. exists []. by rewrite app_nil_r. Qed.

Lemma with_var_vars n v F :
  with_var n v F = with_vars (nactvar F) (setZ (actvar F) (nactvar F + n) (Some (nlocvars F))) (locvars (f F) ++ [v]) F.
Proof using. done. Qed.

Lemma scoped_vars n l F : scoped n l F = with_vars n (actvar F) l F.
Proof using. done. Qed.

Lemma pst_vars s R : pst N s R -> vars_ok (fs s).
Proof using. intros Hp%pst_ok. apply Hp. Qed.

Lemma pst_blocks s R : pst N s R -> blocks_ok (nactvar (fs s)) (bl (fs s)).
Proof using. intros Hp%pst_ok. apply Hp. Qed.

Lemma new_localvar_run name n s R :
  pst N s R -> 0 <= n -> declared (fs s) n ->
  run (new_localvar name n) s (fun _ s' => pst N s' R /\ sstep s s' /\ declared (fs s') (n + 1) /\
    nactvar (fs s') = nactvar (fs s) /\ freereg (fs s') = freereg (fs s) /\ ls s' = ls s).
Proof using HL.
  intros Hp Hn Hd. pose proof (pst_vars _ _ Hp) as Hv. pose proof (pst_regs _ _ Hp).
  eapply run_mono; [apply new_localvar_raw; [exact (pst_lok _ _ Hp)|done|done]|].
  cbv beta. intros _ s' (v & -> & Hlt & Hnl). conj.
  - eapply pst_fs; [exact Hp| |done].
    pose proof (vars_ok_with_var n v (fs s) Hv Hn Hlt Hnl) as Hv'. rewrite with_var_vars in *. apply with_vars_fun_ok; [apply Hp|exact Hv'| |].
    + lia.
    + exact (pst_blocks _ _ Hp).
  - apply sstep_fs. rewrite with_var_vars. by apply with_vars_fext.
  - by apply (declared_with_var n v (fs s)).
Qed.

Lemma adjustlocalvars_run n s R :
  pst N s R -> 0 <= n -> declared (fs s) n -> nactvar (fs s) + n <= freereg (fs s) ->
  run (adjustlocalvars n) s (fun _ s' => pst N s' R /\ sstep s s' /\
    nactvar (fs s') = nactvar (fs s) + n /\ freereg (fs s') = freereg (fs s) /\ ls s' = ls s /\
    actvar (fs s') = actvar (fs s) /\ nlocvars (fs s') = nlocvars (fs s)).
Proof using.
  intros Hp Hn Hd Hr. pose proof (pst_vars _ _ Hp) as Hv. eapply run_mono; [by apply adjustlocalvars_raw|].
  cbv beta. intros _ s' (l & -> & Hl). conj.
  - eapply pst_fs; [exact Hp| |done]. pose proof (vars_ok_scoped n l (fs s) Hv Hn Hd Hl) as Hv'. rewrite scoped_vars in *.
    apply with_vars_fun_ok; [apply Hp|exact Hv'|exact Hr|].
    eapply blocks_ok_mono; [|exact (pst_blocks _ _ Hp)]. lia.
  - apply sstep_fs. rewrite scoped_vars. apply with_vars_fext. lia.
Qed.

(** *** Blocks *)

Definition entered (isbreakable : bool) s : CompState Z' :=
  set_fs (with_bl (mkBlockCnt NO_JUMP (nactvar (fs s)) false isbreakable :: bl (fs s)) (fs s)) s.

Lemma enterblock_run isb s R : pst N s R -> run (enterblock isb) s (fun _ s' => s' = entered isb s /\ pst N s' R).
Proof using.
  intros Hp. apply run_modify. split; [done|]. eapply pst_fs; [exact Hp| |done].
  destruct (ps_fun _ _ _ Hp) as [Hi Hu Hpr]. pose proof (pst_regs _ _ Hp). split; [|constructor; [by cbn|exact Hu]|done].
  destruct Hi. split; try done; [|by destruct fi_vars|split; [cbn; lia|done]]. cbn.
  eapply jlists_perm; [apply Permutation_swap|]. by apply jlists_nojump.
Qed.

Lemma close_block_run b s R :
  pst N s R -> (bupval b = true -> 0 <= bnactvar b < maxstacksize (f (fs s))) ->
  run (if bupval b then luaK_codeABC OP_CLOSE (bnactvar b) 0 0;; mret tt else mret tt) s
    (fun _ s' => pst N s' R /\ cstep s s').
Proof using HL.
  intros Hp Hu. destruct (bupval b); [|apply run_ret; split; [exact Hp|reflexivity]].
  specialize (Hu eq_refl). eapply run_bind; [eapply (run_gen N _ s R (fun _ => R)); [exact Hp|]|].
  - apply (plain_ABC_spec s (ps_wf _ _ _ Hp)); try done; maxargs; try lia; [exact (pst_ok _ _ Hp)|]. intros bx. fits_tac.
  - cbv beta. intros a s' (Hp' & Hc & _). by apply run_ret.
Qed.

Lemma vars_ok_shrink n l F :
  vars_ok F -> 0 <= n <= nactvar F -> lenZ l = nlocvars F -> vars_ok (scoped n l F).
Proof using.
  intros Hv Hn Hl. pose proof (vars_ok_locvars l F Hv Hl) as [V1 V2 V3 V4 V5 V6 V7].
  split; try done; cbn; [cbn in V1; lia|]. intros i Hi. apply V3. cbn. lia.
Qed.

(** Only the prototypes matter. *)
Lemma gext_f F1 F2 F1' F2' : f F1' = f F1 -> f F2' = f F2 -> gext F1 F2 -> gext F1' F2'.
Proof using. intros E1 E2 []. split; unfold pc in *; rewrite ?E1, ?E2; done. Qed.

Lemma removevars_run lvl s R :
  pst N s R -> 0 <= lvl <= nactvar (fs s) -> blocks_ok lvl (bl (fs s)) ->
  run (removevars lvl) s (fun _ s' => pst N s' R /\ nactvar (fs s') = lvl /\ bl (fs s') = bl (fs s) /\
    gext (fs s) (fs s') /\ maxstacksize (f (fs s')) = maxstacksize (f (fs s)) /\ prev s' = prev s /\ ls s' = ls s).
Proof using.
  intros Hp Hl Hb. pose proof (pst_vars _ _ Hp) as Hv. pose proof (pst_regs _ _ Hp). unfold removevars. apply run_gets.
  eapply run_mono; [apply removevars_raw; [exact Hv|lia]|]. cbv beta. intros _ s' (l & -> & Hlen).
  replace (nactvar (fs s) - Z.of_nat (Z.to_nat (nactvar (fs s) - lvl))) with lvl by lia. conj.
  - eapply pst_fs; [exact Hp| |done]. pose proof (vars_ok_shrink lvl l (fs s) Hv Hl Hlen) as Hv'. rewrite scoped_vars in *.
    apply with_vars_fun_ok; [apply Hp|exact Hv'|lia|exact Hb].
  - split; try done. exists []. by rewrite app_nil_r.
Qed.

Lemma leave_run isb s0 s R :
  pst N s R -> sstep (entered isb s0) s -> 0 <= nactvar (fs s0) ->
  run leaveblock s (fun _ s' => pst N s' R /\ sstep s0 s' /\ nactvar (fs s') = nactvar (fs s0) /\ ls s' = ls s /\ gext (fs s) (fs s')).
Proof using HL.
  intros Hp [Ht Hpr [Hn Hbl Hg]] H0. cbn in Hbl. unfold leaveblock. apply run_gets.
  destruct (bl (fs s)) as [|b l] eqn:Eb; [by apply Forall2_cons_nil_inv in Hbl|].
  apply list.Forall2_cons_1 in Hbl as [[Hb1 Hb2] Hbl]. cbn in Hb1, Hn.
  destruct (ps_fun _ _ _ Hp) as [Hi Hu Hps]. pose proof (pst_regs _ _ Hp) as Hr. pose proof (pst_blocks _ _ Hp) as Hbo.
  rewrite Eb in Hbo. destruct Hbo as [_ Hbo]. unfold ups_ok in Hu. rewrite Eb in Hu.
  apply run_modify_bind. set (s1 := set_fs (with_bl l (fs s)) s).
  assert (Hp1 : pst N s1 (breaklist b :: R)).
  { eapply pst_fs; [exact Hp| |done]. split; [|by apply Forall_inv_tail in Hu|done]. destruct Hi. split; try done; [| |].
    - cbn. rewrite Eb in fi_lists. eapply jlists_perm; [|exact fi_lists]. cbn. apply perm_skip. apply (Permutation_middle (breaklist <$> l) R).
    - by destruct fi_vars.
    - cbn. eapply blocks_ok_mono; [|exact Hbo]. lia. }
  rewrite Hb1 in *. eapply run_bind; [apply (removevars_run (nactvar (fs s0)) s1 (breaklist b :: R) Hp1); [cbn; lia|exact Hbo]|].
  cbv beta. intros _ s2 (Hp2 & Hn2 & Hbl2 & Hg2 & Hm2 & Hpr2 & Hl2). rewrite <- Hb1.
  eapply run_bind; [apply (close_block_run b s2 _ Hp2)|].
  { intros Hbu. rewrite Hm2. apply Forall_inv in Hu. specialize (Hu Hbu). cbn. lia. }
  cbv beta. intros _ s3 (Hp3 & Hs23). destruct (cstep_estep _ _ Hs23) as [Ht3 Hpr3 Hs3]. pose proof (cstep_ls _ _ Hs23) as Hl3.
  pose proof (ex_nactvar _ _ Hs3) as Hn3.
  apply run_modify_bind. set (s4 := set_fs (with_freereg (nactvar (fs s3)) (fs s3)) s3).
  assert (Hp4 : pst N s4 (breaklist b :: R)).
  { eapply pst_fs; [exact Hp3| |done]. destruct (ps_fun _ _ _ Hp3) as [Hi3 Hu3 Hps3]. split; [|done|done].
    apply (set_freereg_ok (maxstacksize (f (fs s3)))); [exact Hi3|]. pose proof (pst_regs _ _ Hp3). lia. }
  eapply run_mono; [eapply (run_gen N _ s4 (breaklist b :: R) (fun _ => R) (fun _ _ => True)); [exact Hp4|]|].
  - eapply cgen_mono; [apply (patchtohere_spec s4 (ps_wf _ _ _ Hp4) (maxstacksize (f (fs s4))) (breaklist b) R); exact (pst_ok _ _ Hp4)|].
    cbv beta. intros _ F' (HF & Hk & _). split; [by apply (kept_ok (fs s4))|]. by split; [apply Hk|].
  - cbv beta. intros _ s5 (Hp5 & Hs45 & _). destruct (cstep_estep _ _ Hs45) as [Ht5 Hpr5 [Hx5 Hn5 _ _]]. pose proof (cstep_ls _ _ Hs45) as Hl5.
    assert (Hn0 : nactvar (fs s5) = nactvar (fs s0)) by (rewrite Hn5; cbn; congruence).
    assert (Hg5 : gext (fs s) (fs s5)).
    { etrans; [exact (gext_f (fs s1) (fs s2) (fs s) (fs s2) eq_refl eq_refl Hg2)|].
      etrans; [apply Hs3|]. apply (gext_f (fs s4) (fs s5)); [done|done|apply Hx5]. }
    conj; [|congruence|rewrite Hl5; change (ls s4) with (ls s3); rewrite Hl3, Hl2; done]. split.
    + unfold todo in *. rewrite Hl5. change (ls s4) with (ls s3). rewrite Hl3, Hl2. exact Ht.
    + etrans; [exact Hpr|]. change (prev s) with (prev s1). rewrite <- Hpr2. etrans; [exact Hpr3|exact Hpr5].
    + split; [lia| |].
      * etrans; [exact Hbl|]. change l with (bl (fs s1)). rewrite <- Hbl2. etrans; [apply Hs3|apply Hx5].
      * apply (gext_f (fs (entered isb s0)) (fs s5)); [done|done|]. by etrans.
Qed.

(** ** Variables by name *)

Definition outer_ok (G : FuncState) : Prop := exists R, fun_ok G R.

Lemma outer_vars G : outer_ok G -> vars_ok G.
Proof using. intros [R HR]. apply (fo_ok _ _ HR). Qed.

Lemma oext_outer G G' : oext G G' -> outer_ok G -> outer_ok G'.
Proof using. intros [_ _ Ho] [R HR]. exists R. by apply Ho. Qed.

Lemma oexts_outer Gs Gs' : Forall2 oext Gs Gs' -> Forall outer_ok Gs -> Forall outer_ok Gs'.
Proof using.
  induction 1 as [|G G' Gs Gs' HG HGs IH]; intros Ho; [done|].
  constructor; [apply (oext_outer G); [done|by apply Forall_inv in Ho]|apply IH; by apply Forall_inv_tail in Ho].
Qed.

Lemma searchvar_spec F n : vars_ok F -> post (searchvar F n) (fun v => -1 <= v < nactvar F).
Proof using.
  intros Hv. unfold searchvar. pose proof (vo_nactvar _ Hv).
  assert (Hi : Z.of_nat (Z.to_nat (nactvar F)) <= nactvar F) by lia.
  revert Hi. generalize (Z.to_nat (nactvar F)) as i. induction i as [|i IH]; intros Hi; cbn [searchvar_from].
  - cbn. lia.
  - destruct (vo_vars _ Hv (Z.of_nat i)) as (j & Hj & Hr); [lia|]. unfold getlocvar, get_actvar. rewrite Hj. cbn.
    destruct (getZ_is_Some (locvars (f F)) j) as [v Hl]; [done|]. rewrite Hl. cbn.
    case_bool_decide; [cbn; lia|]. apply IH. lia.
Qed.

Lemma mark_block_breaks level l : breaklist <$> mark_block level l = breaklist <$> l.
Proof using. induction l as [|b l IH]; [done|]. cbn. destruct (_ <? _); [|done]. cbn. by f_equal. Qed.

Lemma mark_block_ok n level l : blocks_ok n l -> blocks_ok n (mark_block level l).
Proof using.
  revert n. induction l as [|b l IH]; intros n; [done|]. cbn. destruct (_ <? _); cbn; [|done].
  intros [? ?]. split; [done|by apply IH].
Qed.

Lemma mark_block_same level l : Forall2 same_block l (mark_block level l).
Proof using.
  induction l as [|b l IH]; [constructor|]. cbn. destruct (_ <? _); constructor; try done; reflexivity.
Qed.

Lemma mark_block_ups level ms l :
  level < ms -> Forall (fun b => bupval b = true -> bnactvar b < ms) l ->
  Forall (fun b => bupval b = true -> bnactvar b < ms) (mark_block level l).
Proof using.
  intros Hl. induction 1 as [|b l Hb Hbs IH]; [constructor|]. cbn. destruct (Z.ltb_spec level (bnactvar b)); constructor; try done.
  intros _. cbn. lia.
Qed.

Lemma mark_oext level F : level < nactvar F -> oext F (markupval level F).
Proof using.
  intros Hl. split; [split; [split; [done|apply mark_block_same|]|done|done|done]|done|].
  - split; try done. exists []. by rewrite app_nil_r.
  - intros R [Hi Hu Hp]. pose proof (ok_ms _ _ Hi). split; [|apply mark_block_ups; [cbn; lia|exact Hu]|done].
    destruct Hi. split; try done; [| |by apply mark_block_ok].
    + cbn. by rewrite mark_block_breaks.
    + by destruct fi_vars.
Qed.

Lemma find_upvalue_range k i l n r : find_upvalue k i l n = Some r -> n <= r < n + lenZ l.
Proof using.
  revert n. induction l as [|u l IH]; intros n; [done|]. cbn [find_upvalue]. rewrite lenZ_cons. pose proof (lenZ_nonneg l).
  destruct (_ && _); [intros [= <-]; lia|]. intros Hr%IH. lia.
Qed.

Lemma indexupvalue_run F name v s :
  lok s -> vars_ok F -> 0 <= info v < 256 ->
  run (indexupvalue F name v) s (fun '(i, F') s' => s' = s /\ oext F F' /\ 0 <= i < nups (f F') /\
    (F' = F \/ upvaldescs F' = upvaldescs F ++ [mkupvaldesc (ek v) (info v)])).
Proof using HL.
  intros Hs Hv Hi. unfold indexupvalue. destruct (find_upvalue _ _ _ _) as [i|] eqn:E.
  - apply run_ret. apply find_upvalue_range in E. rewrite (vo_descs _ Hv) in E. conj; [lia|lia|by left].
  - eapply run_bind; [by apply checklimit_run|]. cbv beta. intros _ s' [-> Hlim]. change LUAI_MAXUPVALUES with 60 in *.
    assert (Hn : 0 <= nups (f F)) by (rewrite <- (vo_descs _ Hv); apply lenZ_nonneg).
    eapply run_bind; [apply (run_lift _ _ (fun _ => True) (fun _ s' => s' = s))|].
    { unfold grow. change MAX_INT with 2147483645. destruct (Z.leb_spec 2147483645 (nups (f F))); cbn; done. }
    { done. }
    cbv beta. intros _ s' ->. apply run_ret. rewrite !u8_small by (unfold is_byte; lia).
    split; [done|]. split; [|split; [cbn; lia|by right]].
    split; [split; [split; [done|reflexivity|]|done|done|done]|done|].
    + split; try done; cbn; [lia|]. exists []. by rewrite app_nil_r.
    + intros R [Hi' Hu Hp]. split; [|exact Hu|exact Hp]. destruct Hi'. split; try done.
      * cbn. eapply words_ok_mono; [..|exact fi_words]; try done; [exact (k_refl (f F))|cbn; lia].
      * destruct fi_vars as [V1 V2 V3 V4 V5 V6 V7]. split; try done; cbn.
        -- rewrite lenZ_app. change (lenZ [_]) with 1. by rewrite V5.
        -- unfold sizeupvalues in *. cbn. rewrite lenZ_app. change (lenZ [_]) with 1. by rewrite V6.
Qed.

(** Where the variable is found *)
Definition found (v : expdesc) (Fs : list FuncState) : Prop :=
  et v = NO_JUMP /\ ef v = NO_JUMP /\
  (ek v = VGLOBAL \/ match Fs with [] => False | G :: _ => captured G (mkupvaldesc (ek v) (info v)) end).

Lemma chain_oext F F' Fs Fs' :
  upvaldescs F' = upvaldescs F -> Forall2 oext Fs Fs' -> chain (F :: Fs) -> chain Fs' -> chain (F' :: Fs').
Proof using.
  intros Hu HF [Hc _] Hc'. split; [|done]. rewrite Hu. inversion HF as [|G G' Gs Gs' [HG _ _] HGs]; subst; [done|].
  eapply Forall_impl; [|exact Hc]. intros u. apply captured_mono; [|apply HG]. rewrite (ex_nactvar _ _ HG). lia.
Qed.

Lemma captured_range G v : vars_ok G -> captured G (mkupvaldesc (ek v) (info v)) -> 0 <= info v < 256.
Proof using.
  intros Hv. pose proof (vo_nactvar _ Hv). pose proof (vo_nups _ Hv).
  change LUAI_MAXVARS with 200 in *. change LUAI_MAXUPVALUES with 60 in *. unfold captured. cbn. destruct (ek v); try done; lia.
Qed.

Lemma singlevaraux_run Fs name base s :
  lok s -> Forall outer_ok Fs -> chain Fs ->
  run (singlevaraux Fs name base) s (fun '(v, Fs') s' => s' = s /\ Forall2 oext Fs Fs' /\ chain Fs' /\ found v Fs').
Proof using HL.
  intros Hs. revert base. induction Fs as [|F Fs IH]; intros base Ho Hc; cbn [singlevaraux].
  - apply run_ret. split; [done|]. split; [constructor|]. split; [done|]. by split_and!; try left.
  - pose proof (Forall_inv Ho) as HF. apply Forall_inv_tail in Ho. pose proof (outer_vars _ HF) as Hv.
    eapply run_bind; [apply (run_lift _ _ (fun v => -1 <= v < nactvar F) (fun v s' => s' = s /\ -1 <= v < nactvar F)); [by apply searchvar_spec|done]|].
    cbv beta. intros v s' [-> Hr]. destruct (Z.leb_spec 0 v).
    + apply run_ret. split; [done|]. split; [|split].
      * constructor; [|reflexivity]. destruct base; [reflexivity|apply mark_oext; lia].
      * destruct base; [done|]. eapply chain_head; [|exact Hc]. done.
      * split; [done|]. split; [done|]. right. destruct base; cbn; lia.
    + eapply run_bind; [apply (IH false Ho); apply Hc|]. cbv beta. intros [var Fs'] s' (-> & HFs & Hc' & He1 & He2 & Hf).
      case_bool_decide as Hg.
      * apply run_ret. split; [done|]. split; [constructor; [reflexivity|exact HFs]|]. split; [by apply (chain_oext F F Fs)|].
        split; [done|]. split; [done|]. by left.
      * destruct Hf as [|Hf]; [done|]. destruct Fs' as [|G' Gs']; [done|].
        pose proof (oexts_outer _ _ HFs Ho) as Ho'. apply Forall_inv in Ho'.
        eapply run_bind; [apply (indexupvalue_run F name var s Hs Hv); apply (captured_range G'); [by apply outer_vars|done]|].
        cbv beta. intros [i F'] s' (-> & HFx & Hi & Hu). apply run_ret. split; [done|]. split; [by constructor|]. split.
        -- pose proof (chain_oext F F Fs (G' :: Gs') eq_refl HFs Hc Hc') as [Hcap _]. split; [|done].
           destruct Hu as [->| ->]; [done|]. apply list.Forall_app. split; [done|]. by constructor.
        -- split; [done|]. split; [done|]. right. exact Hi.
Qed.

(** *** Expressions on the top of the stack *)

Record pexp s (R : list Z) (r : Z) (e : expdesc) : Prop := {
  px_pst : pst N s (roots e ++ R);
  px_exp : exp_ok (fs s) r e (freereg (fs s));
  px_base : nactvar (fs s) <= r;
  px_plain : discharged e \/ et e = NO_JUMP /\ ef e = NO_JUMP
}.

Lemma pexp_top s R r e : pexp s R r e -> top_exp (fs s) R r e.
Proof using. intros [Hp He Hr _]. split; [exact (pst_ok _ _ Hp)|exact He|exact Hr]. Qed.

Lemma pexp_wf s R r e : pexp s R r e -> LexFacts.wf (ls s).
Proof using. intros [Hp _ _ _]. exact (ps_wf _ _ _ Hp). Qed.

(** New constants do not matter to an expression. *)
Lemma exp_ok_code F F' r e r' : cext F F' -> code (f F') = code (f F) -> exp_ok F r e r' -> exp_ok F' r e r'.
Proof using.
  intros Hc Hco. pose proof (cext_nactvar _ _ Hc) as Hn. pose proof (cext_sizek _ _ Hc) as Hk.
  destruct (static_parts _ _ (ce_static _ _ Hc)) as (_ & Hu & _). assert (Hpc : pc F' = pc F) by (unfold pc, sizecode; by rewrite Hco).
  unfold exp_ok. rewrite ?Hn, ?Hu, ?Hco. destruct (ek e); try done.
  - intros []. split; [lia|done].
  - intros [[st Hs] ?]. split; [|done]. destruct Hc as [_ [l Hl] _ _ _]. exists st. rewrite Hl. by apply getZ_prefix.
  - intros (r1 & H1 & H2). exists r1. split; [by eapply temp_cext|by eapply rk_temp_cext].
  - intros ((w & Hq & o & Ho & Hre & Hv & Hnt) & Hf). split; [|done]. exists w. split; [done|]. exists o. split_and!; try done.
    intros Eo. destruct (Hnt Eo) as [Hi Hst]. rewrite Hpc. split; [done|]. unfold strict in *. by rewrite Hco, Hpc.
  - by apply temp_cext.
Qed.

Lemma pexp_const s s' R r e :
  pexp s R r e -> pst N s' (roots e ++ R) -> cext (fs s) (fs s') -> code (f (fs s')) = code (f (fs s)) -> freereg (fs s') = freereg (fs s) ->
  pexp s' R r e.
Proof using.
  intros [_ He Hr Hd] Hp Hc Hco Hf. split; [done| |by rewrite (cext_nactvar _ _ Hc)|done]. rewrite Hf. by apply (exp_ok_code (fs s)).
Qed.

(** A new expression without jumps *)
Lemma init_pexp s R r k i :
  pst N s R -> k <> VJMP -> exp_ok (fs s) r (init_exp k i) (freereg (fs s)) -> nactvar (fs s) <= r -> pexp s R r (init_exp k i).
Proof using.
  intros Hp Hk He Hr. split; [|exact He|exact Hr|by right]. unfold roots. cbn. rewrite bool_decide_eq_false_2 by done.
  by apply nojump_pst, nojump_pst.
Qed.

Lemma stringK_run st s R :
  pst N s R -> run (luaK_stringK st) s (fun i s' => pst N s' R /\ cstep s s' /\ freereg (fs s') = freereg (fs s) /\
    is_string_at (f (fs s')) i /\ 0 <= i < nk (fs s') /\ code (f (fs s')) = code (f (fs s))).
Proof using HL.
  intros Hp. apply (run_gen N _ s R (fun _ => R) (fun i F' => freereg F' = freereg (fs s) /\ is_string_at (f F') i /\
    0 <= i < nk F' /\ code (f F') = code (f (fs s)))); [exact Hp|].
  eapply cgen_mono; [apply (const_spec s (ps_wf _ _ _ Hp) R (fs s) (VString st)); exact (pst_ok _ _ Hp)|].
  cbv beta. intros i F' (Hi & Hc & Hf & _ & Hco & [_ (key & Hk & Hg)] & Hr & _). split_and!; try done; try lia.
  destruct key; try done. cbn in Hk. apply bool_decide_eq_true in Hk. injection Hk as ->. by exists st.
Qed.

Lemma singlevar_run s R :
  pst N s R -> run singlevar s (fun e s' => pexp s' R (freereg (fs s')) e /\ estep s s' /\ freereg (fs s') = freereg (fs s) /\
    is_variable (ek e) = true /\ (todo s' < todo s)%nat).
Proof using HL.
  intros Hp0. unfold singlevar. eapply run_bind; [apply str_checkname_run; exact (pst_lok _ _ Hp0)|].
  cbv beta. intros name s1 (Ht & Hlt & _). pose proof (pst_tstep _ _ _ Hp0 Ht) as Hp. apply run_gets.
  assert (Ho : Forall outer_ok (fs s1 :: prev s1)) by (constructor; [eexists; apply Hp|apply Hp]).
  eapply run_bind; [apply (singlevaraux_run (fs s1 :: prev s1) name true s1 (pst_lok _ _ Hp) Ho); apply Hp|].
  cbv beta. intros [var Fs'] s2 (-> & HFs & Hch & He1 & He2 & Hf).
  destruct (list.Forall2_cons_inv_l _ _ _ _ HFs) as (F' & Gs' & HF & HGs & ->).
  apply run_modify_bind. set (s2 := mkCompState (ls s1) F' Gs' (nCcalls s1)).
  assert (Hp2 : pst N s2 R).
  { split; [apply Hp|apply Hp|apply HF, Hp|apply (oexts_outer _ _ HGs); apply Hp|exact Hch|apply Hp|apply Hp]. }
  assert (Hs : estep s1 s2) by (split; [done|exact HGs|apply HF]).
  assert (Hfr : freereg F' = freereg (fs s)) by (rewrite (ox_freereg _ _ HF), (ts_fs _ _ Ht); done).
  apply tstep_estep in Ht. pose proof (pst_regs _ _ Hp2).
  case_bool_decide as Hg.
  - eapply run_bind; [apply (stringK_run _ _ _ Hp2)|]. cbv beta. intros i s3 (Hp3 & Hs3 & Hf3 & Hst & Hi & _). apply run_ret.
    pose proof (pst_regs _ _ Hp3). pose proof (cstep_todo _ _ Hs3). split; [split|split; [|split; [rewrite Hf3; exact Hfr|split]]].
    + unfold roots. cbn. rewrite Hg, He1, He2. by apply nojump_pst, nojump_pst.
    + unfold exp_ok. cbn. rewrite Hg. done.
    + lia.
    + by right.
    + etrans; [exact Ht|]. etrans; [exact Hs|]. by apply cstep_estep.
    + cbn. by rewrite Hg.
    + change (todo s2) with (todo s1) in *. lia.
  - destruct Hf as [|Hf]; [done|]. apply run_ret. split; [split|split; [|split; [exact Hfr|split]]].
    + unfold roots. rewrite He1, He2, bool_decide_eq_false_2; [by apply nojump_pst, nojump_pst|].
      intros Hj. by rewrite Hj in Hf.
    + unfold exp_ok, captured in *. cbn in Hf. by destruct (ek var).
    + change (nactvar (fs s2) <= freereg (fs s2)); lia.
    + by right.
    + by etrans.
    + unfold captured in Hf. cbn in Hf. by destruct (ek var).
    + done.
Qed.

(** *** The code generator on the expression on the top *)

Lemma run_gen_exp (m : Comp expdesc) s R0 R r (P : expdesc -> FuncState -> Prop) :
  pst N s R0 ->
  cgen s m (fs s) (fun e F' => top_exp F' R r e /\ cext (fs s) F' /\ (discharged e \/ et e = NO_JUMP /\ ef e = NO_JUMP) /\ P e F') ->
  run m s (fun e s' => pexp s' R r e /\ cstep s s' /\ P e (fs s')).
Proof using.
  intros Hp Hm. eapply run_mono.
  - apply (run_gen N m s R0 (fun e => roots e ++ R) (fun e F' => (exp_ok F' r e (freereg F') /\ nactvar F' <= r) /\
      (discharged e \/ et e = NO_JUMP /\ ef e = NO_JUMP) /\ P e F') Hp).
    eapply cgen_mono; [exact Hm|]. cbv beta. intros e F' ([Hi He Hr] & Hc & Hd & HP). by split_and!.
  - cbv beta. intros e s' (Hp' & Hc & (He & Hr) & Hd & HP). by split_and!.
Qed.

Lemma exp2nextreg_run s R r e :
  pexp s R r e -> run (luaK_exp2nextreg e) s (fun e' s' => pst N s' R /\ cstep s s' /\ freereg (fs s') = r + 1 /\ settled_in r e').
Proof using HL.
  intros He. apply (run_gen N _ s _ (fun _ => R) (fun e' F' => freereg F' = r + 1 /\ settled_in r e') (px_pst _ _ _ _ He)).
  by apply (exp2nextreg_spec s (pexp_wf _ _ _ _ He) (fs s) R r), pexp_top.
Qed.

Lemma exp2anyreg_run s R r e :
  pexp s R r e -> run (luaK_exp2anyreg e) s (fun e' s' => pst N s' R /\ cstep s s' /\ settled_in (info e') e' /\
    temp (fs s') r (info e') (freereg (fs s'))).
Proof using HL.
  intros He. apply (run_gen N _ s _ (fun _ => R) (fun e' F' => settled_in (info e') e' /\ temp F' r (info e') (freereg F')) (px_pst _ _ _ _ He)).
  eapply cgen_mono; [by apply (exp2anyreg_spec s (pexp_wf _ _ _ _ He) (fs s) R r), pexp_top|].
  cbv beta. intros e' F' (? & ? & ? & ? & _). by split_and!.
Qed.

Lemma settled_pexp s R r e :
  pst N s R -> settled_in (info e) e -> temp (fs s) r (info e) (freereg (fs s)) -> nactvar (fs s) <= r -> pexp s R r e.
Proof using.
  intros Hp (Ek & _ & E1 & E2) Ht Hr. split; [|by unfold exp_ok; rewrite Ek|done|by right].
  unfold roots. rewrite Ek, E1, E2. by apply nojump_pst, nojump_pst.
Qed.

Lemma exp2val_run s R r e : pexp s R r e -> run (luaK_exp2val e) s (fun e' s' => pexp s' R r e' /\ cstep s s').
Proof using HL.
  intros He. eapply run_mono; [apply (run_gen_exp _ s _ R r (fun _ _ => True) (px_pst _ _ _ _ He))|].
  - eapply cgen_mono; [by apply (exp2val_spec s (pexp_wf _ _ _ _ He) (fs s) R r), pexp_top|].
    cbv beta. intros e' F' (? & ? & ? & _). split_and!; try done. by left.
  - cbv beta. intros e' s' (? & ? & _). by split.
Qed.

Lemma exp2RK_run s R r e :
  pexp s R r e -> run (luaK_exp2RK e) s (fun p s' => pst N s' R /\ cstep s s' /\ rk_exp (fs s') r p.1 p.2 (freereg (fs s'))).
Proof using HL.
  intros He. apply (run_gen N _ s _ (fun _ => R) (fun p F' => rk_exp F' r p.1 p.2 (freereg F')) (px_pst _ _ _ _ He)).
  by apply (exp2RK_spec s (pexp_wf _ _ _ _ He) (fs s) R r), pexp_top.
Qed.

Lemma dischargevars_run s R r e : pexp s R r e -> run (luaK_dischargevars e) s (fun e' s' => pexp s' R r e' /\ cstep s s').
Proof using HL.
  intros He. eapply run_mono; [apply (run_gen_exp _ s _ R r (fun _ _ => True) (px_pst _ _ _ _ He))|].
  - eapply cgen_mono; [by apply (dischargevars_spec s (pexp_wf _ _ _ _ He) (fs s) R r), pexp_top|].
    cbv beta. intros e' F' (? & ? & _ & ? & _). split_and!; try done. by left.
  - cbv beta. intros e' s' (? & ? & _). by split.
Qed.

Lemma goiftrue_run s R r e :
  pexp s R r e -> run (luaK_goiftrue e) s (fun e' s' => pst N s' (ef e' :: R) /\ cstep s s' /\ freereg (fs s') = r).
Proof using HL.
  intros He. apply (run_gen N _ s _ (fun e' => ef e' :: R) (fun _ F' => freereg F' = r) (px_pst _ _ _ _ He)).
  eapply cgen_mono; [by apply (goiftrue_spec s (pexp_wf _ _ _ _ He) (fs s) R r), pexp_top|].
  cbv beta. intros e' F' (? & ? & ? & _). by split_and!.
Qed.

Lemma prefix_run s R r o e :
  pexp s R r e -> o <> OPR_NOUNOPR -> run (luaK_prefix o e) s (fun e' s' => pexp s' R r e' /\ cstep s s').
Proof using HL.
  intros He Ho. eapply run_mono; [apply (run_gen_exp _ s _ R r (fun _ _ => True) (px_pst _ _ _ _ He))|].
  - eapply cgen_mono; [apply (prefix_spec s (pexp_wf _ _ _ _ He) (fs s) R r o e); [by apply pexp_top|done]|].
    cbv beta. intros e' F' ([? ?] & ?). split_and!; try done. by left.
  - cbv beta. intros e' s' (? & ? & _). by split.
Qed.

Lemma infix_run s R r o e :
  pexp s R r e -> o <> OPR_NOBINOPR ->
  run (luaK_infix o e) s (fun e' s' => pst N s' (et e' :: ef e' :: R) /\ cstep s s' /\ infixed o (fs s') r e' (freereg (fs s'))).
Proof using HL.
  intros He Ho. apply (run_gen N _ s _ (fun e' => et e' :: ef e' :: R) (fun e' F' => infixed o F' r e' (freereg F')) (px_pst _ _ _ _ He)).
  apply (infix_spec s (pexp_wf _ _ _ _ He) (fs s) R r o e); [by apply pexp_top|done].
Qed.

Lemma posfix_run s R r r1 o e1 e2 :
  infixed o (fs s) r e1 r1 -> nactvar (fs s) <= r -> pexp s (et e1 :: ef e1 :: R) r1 e2 ->
  run (luaK_posfix o e1 e2) s (fun e' s' => pexp s' R r e' /\ cstep s s').
Proof using HL.
  intros Ho Hr He. eapply run_mono; [apply (run_gen_exp _ s _ R r (fun _ _ => True) (px_pst _ _ _ _ He))|].
  - eapply cgen_mono; [apply (posfix_spec s (pexp_wf _ _ _ _ He) (fs s) R r r1 o e1 e2); [done|done|by apply pexp_top]|].
    cbv beta. intros e' F' ([? ?] & ?). split_and!; try done. by left.
  - cbv beta. intros e' s' (? & ? & _). by split.
Qed.

Lemma storevar_run s R r v e :
  pexp s R r e -> ek e <> VCALL -> var_ok (fs s) v -> run (luaK_storevar v e) s (fun _ s' => pst N s' R /\ cstep s s' /\ freereg (fs s') = r).
Proof using HL.
  intros He Hk Hv. apply (run_gen N _ s _ (fun _ => R) (fun _ F' => freereg F' = r) (px_pst _ _ _ _ He)).
  apply (storevar_spec s (pexp_wf _ _ _ _ He) (fs s) R r v e); [by apply pexp_top|done|done].
Qed.

Lemma self_run s R r e key :
  pexp s R r e -> key = init_exp VK (info key) -> 0 <= info key < nk (fs s) ->
  run (luaK_self e key) s (fun e' s' => pst N s' R /\ cstep s s' /\ settled_in r e' /\ freereg (fs s') = r + 2).
Proof using HL.
  intros He Hk Hi. apply (run_gen N _ s _ (fun _ => R) (fun e' F' => settled_in r e' /\ freereg F' = r + 2) (px_pst _ _ _ _ He)).
  apply (self_spec s (pexp_wf _ _ _ _ He) (fs s) R r e key); [by apply pexp_top|by rewrite Hk..|done].
Qed.

Lemma indexed_run s R r r1 t key :
  temp (fs s) r (info t) r1 -> nactvar (fs s) <= r -> et t = NO_JUMP -> ef t = NO_JUMP -> pexp s R r1 key ->
  run (luaK_indexed t key) s (fun e' s' => pexp s' R r e' /\ cstep s s' /\ ek e' = VINDEXED).
Proof using HL.
  intros Ht Hr E1 E2 Hk. apply (run_gen_exp _ s _ R r (fun e' _ => ek e' = VINDEXED) (px_pst _ _ _ _ Hk)).
  unfold luaK_indexed. eapply cgen_bind; [by apply (exp2RK_spec s (pexp_wf _ _ _ _ Hk) (fs s) R r1), pexp_top|].
  cbv beta. intros [x k'] F' (Hi' & Hc & Hx). cbn [fst snd] in Hx. pose proof (cext_nactvar _ _ Hc).
  apply cgen_ret. split; [|split; [done|split; [by right|done]]]. split.
  - cbn. rewrite E1, E2. by apply ok_nojump, ok_nojump.
  - cbn. exists r1. split; [by eapply temp_cext|]. by eapply rk_exp_temp.
  - lia.
Qed.

Lemma setoneret_run s R r e :
  pexp s R r e -> run (luaK_setoneret e) s (fun e' s' => pexp s' R r e' /\ cstep s s' /\ ek e' <> VCALL).
Proof using HL.
  intros He. apply (run_gen_exp _ s _ R r (fun e' _ => ek e' <> VCALL) (px_pst _ _ _ _ He)).
  eapply cgen_mono; [by apply (setoneret_spec s (fs s) R r), pexp_top|].
  cbv beta. intros e' F' (Ht & Hc & _ & Ho & E1 & E2 & Hsame & Hd). split; [done|]. split; [done|]. split.
  - destruct Hd as [Ho'|(Hd & _)]; [|by left]. destruct (Hsame Ho') as [-> _]. exact (px_plain _ _ _ _ He).
  - unfold one_value in Ho. intros Ek. by rewrite Ek in Ho.
Qed.

Lemma not_discharged e : hasmultret (ek e) = true \/ is_variable (ek e) = true -> ~ discharged e.
Proof using. unfold discharged. intros [H|H] Hd; destruct (ek e); first [done|vm_compute in H; done]. Qed.

Lemma plain_jumps s R r e :
  pexp s R r e -> hasmultret (ek e) = true \/ is_variable (ek e) = true -> et e = NO_JUMP /\ ef e = NO_JUMP.
Proof using. intros He Hk%not_discharged. by destruct (px_plain _ _ _ _ He). Qed.

Lemma setmultret_run s R r e :
  pexp s R r e -> hasmultret (ek e) = true ->
  run (luaK_setmultret e) s (fun _ s' => pst N s' R /\ cstep s s' /\ freereg (fs s') = r + 1 /\
    (ek e = VCALL -> exists w, getZ (code (f (fs s'))) (info e) = Some w /\ op_of (GET_OPCODE w) = Some OP_CALL)).
Proof using HL.
  intros He Hk. destruct (plain_jumps _ _ _ _ He (or_introl Hk)) as [E1 E2].
  apply (run_gen N _ s _ (fun _ => R) (fun _ F' => freereg F' = r + 1 /\
    (ek e = VCALL -> exists w, getZ (code (f F')) (info e) = Some w /\ op_of (GET_OPCODE w) = Some OP_CALL)) (px_pst _ _ _ _ He)).
  apply (setmultret_spec s (pexp_wf _ _ _ _ He) (fs s) R r e); [by apply pexp_top|done..].
Qed.

Lemma reserve_run n s R :
  pst N s R -> 0 <= n -> run (luaK_reserveregs n) s (fun _ s' => pst N s' R /\ cstep s s' /\ freereg (fs s') = freereg (fs s) + n).
Proof using HL.
  intros Hp Hn. apply (run_gen N _ s R (fun _ => R) (fun _ F' => freereg F' = freereg (fs s) + n) Hp).
  eapply cgen_mono; [apply (reserve_spec s (ps_wf _ _ _ Hp) R (fs s) n (pst_ok _ _ Hp) Hn)|].
  cbv beta. intros _ F' (? & ? & ? & _). by split_and!.
Qed.

Lemma getlabel_run {B} (k : Z -> Comp B) s R Q :
  pst N s R -> (forall s', pst N s' R -> cstep s s' -> freereg (fs s') = freereg (fs s) -> pc (fs s') = pc (fs s) -> run (k (pc (fs s))) s' Q) ->
  run (luaK_getlabel ≫= k) s Q.
Proof using.
  intros Hp Hk. unfold luaK_getlabel. apply run_group, run_modify_bind, run_gets. apply Hk; [| |done|done].
  - eapply pst_fs; [exact Hp| |done]. destruct (ps_fun _ _ _ Hp). split; [|done|done].
    by apply (getlabel_finv (maxstacksize (f (fs s)))).
  - split; [done|]. split; try done. exists []. by rewrite app_nil_r.
Qed.

Lemma jump_run s R :
  pst N s R -> run luaK_jump s (fun j s' => pst N s' (j :: R) /\ cstep s s' /\ freereg (fs s') = freereg (fs s)).
Proof using HL.
  intros Hp. apply (run_gen N _ s R (fun j => j :: R) (fun _ F' => freereg F' = freereg (fs s)) Hp).
  eapply cgen_mono; [apply (jump_spec s (ps_wf _ _ _ Hp) _ R (fs s) (pst_ok _ _ Hp))|].
  cbv beta. intros j F' (Hi & Hk & _). split; [by apply (kept_ok (fs s))|]. split; apply Hk.
Qed.

Lemma patchlist_run l target s R :
  pst N s (l :: R) -> 0 <= target <= pc (fs s) ->
  run (luaK_patchlist l target) s (fun _ s' => pst N s' R /\ cstep s s' /\ freereg (fs s') = freereg (fs s)).
Proof using HL.
  intros Hp Ht. apply (run_gen N _ s (l :: R) (fun _ => R) (fun _ F' => freereg F' = freereg (fs s)) Hp).
  eapply cgen_mono; [apply (luaK_patchlist_spec s (ps_wf _ _ _ Hp) _ l target R (fs s) (pst_ok _ _ Hp) Ht)|].
  cbv beta. intros _ F' (Hi & Hk & _). split; [by apply (kept_ok (fs s))|]. split; apply Hk.
Qed.

Lemma patchtohere_run l s R :
  pst N s (l :: R) -> run (luaK_patchtohere l) s (fun _ s' => pst N s' R /\ cstep s s' /\ freereg (fs s') = freereg (fs s)).
Proof using HL.
  intros Hp. apply (run_gen N _ s (l :: R) (fun _ => R) (fun _ F' => freereg F' = freereg (fs s)) Hp).
  eapply cgen_mono; [apply (patchtohere_spec s (ps_wf _ _ _ Hp) _ l R (fs s) (pst_ok _ _ Hp))|].
  cbv beta. intros _ F' (Hi & Hk & _). split; [by apply (kept_ok (fs s))|]. split; apply Hk.
Qed.

Lemma concat_run l1 l2 s R :
  pst N s (l1 :: l2 :: R) ->
  run (luaK_concat l1 l2) s (fun l s' => pst N s' (l :: R) /\ cstep s s' /\ freereg (fs s') = freereg (fs s)).
Proof using HL.
  intros Hp. apply (run_gen N _ s (l1 :: l2 :: R) (fun l => l :: R) (fun _ F' => freereg F' = freereg (fs s)) Hp).
  eapply cgen_mono; [apply (concat_spec s (ps_wf _ _ _ Hp) _ l1 l2 R (fs s) (pst_ok _ _ Hp))|].
  cbv beta. intros l F' (Hj & Hi & _). pose proof (jext_kept _ _ Hj) as Hk.
  split; [by apply (kept_ok (fs s))|]. split; apply Hk.
Qed.

Lemma code_run o a b c s R :
  pst N s R -> getOpMode o = iABC -> o <> OP_TESTSET -> 0 <= a < maxstacksize (f (fs s)) -> 0 <= b <= MAXARG_B -> 0 <= c <= MAXARG_C ->
  (forall bx, fits (maxstacksize (f (fs s))) (f (fs s)) o a b c bx) ->
  run (luaK_codeABC o a b c) s (fun n s' => pst N s' R /\ cstep s s' /\ freereg (fs s') = freereg (fs s) /\
    n = pc (fs s) /\ 0 < pc (fs s') /\ getZ (code (f (fs s'))) n = Some (CREATE_ABC o a b c)).
Proof using HL.
  intros Hp Hm Ho Ha Hb Hc Hf.
  apply (run_gen N _ s R (fun _ => R) (fun n F' => freereg F' = freereg (fs s) /\ n = pc (fs s) /\ 0 < pc F' /\
    getZ (code (f F')) n = Some (CREATE_ABC o a b c)) Hp).
  eapply cgen_mono; [apply (plain_ABC_spec s (ps_wf _ _ _ Hp) R (fs s) o a b c (pst_ok _ _ Hp)); done|].
  cbv beta. intros n F' (? & ? & ? & ? & ? & ?). split_and!; try done. assert (0 <= pc (fs s)) by apply lenZ_nonneg. lia.
Qed.

(** *** Lists of expressions *)

(** [n] expressions, the last one [e] not yet in its register *)
Definition explist_ok s (R : list Z) (base n : Z) (e : expdesc) : Prop :=
  (n = 0 /\ ek e = VVOID /\ pst N s R /\ freereg (fs s) = base) \/ (1 <= n /\ pexp s R (base + n - 1) e).

Lemma adjust_assign_run nvars n e base s R :
  explist_ok s R base n e -> nactvar (fs s) <= base -> 0 <= nvars <= 255 ->
  run (adjust_assign nvars n e) s (fun _ s' => pst N s' R /\ cstep s s' /\ freereg (fs s') = base + Z.max n nvars).
Proof using HL.
  intros He Hb Hn. unfold adjust_assign. destruct (hasmultret (ek e)) eqn:Hk.
  - destruct He as [(_ & Ek & _)|[H1 He]]; [by rewrite Ek in Hk|]. destruct (plain_jumps _ _ _ _ He (or_introl Hk)) as [E1 E2].
    apply (run_gen N _ s _ (fun _ => R) (fun _ F' => freereg F' = base + Z.max n nvars) (px_pst _ _ _ _ He)).
    eapply cgen_mono; [apply (adjust_multi_spec s (pexp_wf _ _ _ _ He) (fs s) R (base + n - 1) e); [by apply pexp_top|done|done|done|]|].
    + maxargs. lia.
    + cbv beta. intros _ F' (? & ? & ?). split_and!; try done. lia.
  - eapply (run_bind _ _ _ (fun _ s' => pst N s' R /\ cstep s s' /\ freereg (fs s') = base + n)).
    { destruct He as [(-> & Ek & Hp & Hf)|[H1 He]].
      - rewrite bool_decide_eq_true_2 by done. apply run_ret. split; [exact Hp|]. split; [reflexivity|lia].
      - rewrite bool_decide_eq_false_2; [|intros Ek; pose proof (px_exp _ _ _ _ He) as Hx; unfold exp_ok in Hx; by rewrite Ek in Hx].
        eapply run_bind; [by apply (exp2nextreg_run s R (base + n - 1))|]. cbv beta. intros e' s' (Hp & Hc & Hf & _).
        apply run_ret. split; [exact Hp|]. split; [exact Hc|lia]. }
    cbv beta. intros _ s1 (Hp1 & Hc1 & Hf1). pose proof (pst_regs _ _ Hp1).
    destruct (Z.ltb_spec 0 (nvars - n)) as [Hx|Hx]; [|apply run_ret; split; [exact Hp1|split; [exact Hc1|lia]]].
    apply run_gets. eapply run_bind; [apply (reserve_run (nvars - n) s1 R Hp1); lia|].
    cbv beta. intros _ s2 (Hp2 & Hc2 & Hf2). pose proof (pst_regs _ _ Hp2).
    eapply run_mono; [apply (run_gen N _ s2 R (fun _ => R) (fun _ F' => freereg F' = freereg (fs s2)) Hp2)|].
    + eapply cgen_mono; [apply (luaK_nil_spec s2 (ps_wf _ _ _ Hp2) _ (freereg (fs s1)) (nvars - n) R (fs s2) (pst_ok _ _ Hp2)); lia|].
      cbv beta. intros _ F' (Hi & Hk'). split; [by apply (kept_ok (fs s2))|]. split; apply Hk'.
    + cbv beta. intros _ s3 (Hp3 & Hc3 & Hf3). split; [exact Hp3|]. split; [etrans; [exact Hc1|]; by etrans|lia].
Qed.
End states.
