(* ===== verification/ParseSafe.v ===== *)
(** * The parser is safe

    One lemma for each function of lparser.c, in the order of the file: from
    a state that satisfies [pst] it raises an error or gives another one,
    having used up tokens; expressions lie on the top of the register stack.
    In the end, [luaY_parser] gives a [good] function for every text that is
    not too long. *)

From S2P Require Import Prelude Mem Clib Opcodes Object Debug Zio Lex Code JumpLists CodeJumps CodeEmit CodeExp Parser ParseState.
From S2P Require LexFacts.

Section facts.
Context {Z' : Type} `{HS : ByteStream Z'} `{HL : !ByteStreamLaws Z'} `{HM : LibM}.
Implicit Types s : CompState Z'.

(** *** Numbers that steps keep *)

Lemma nk_grows F F' : gext F F' -> nk F <= nk F'.
Proof using. intros [_ [l Hl] _ _ _]. unfold nk, sizek. rewrite Hl, lenZ_app. pose proof (lenZ_nonneg l). lia. Qed.

Lemma tstep_facts s s' : tstep s s' ->
  (todo s' <= todo s)%nat /\ nactvar (fs s') = nactvar (fs s) /\ freereg (fs s') = freereg (fs s) /\
  maxstacksize (f (fs s')) = maxstacksize (f (fs s)) /\ nk (fs s') = nk (fs s) /\ pc (fs s') = pc (fs s).
Proof using. intros [-> _ _ ? _]. by split_and!. Qed.

Lemma sstep_facts s s' : sstep s s' ->
  (todo s' <= todo s)%nat /\ nactvar (fs s) <= nactvar (fs s') /\
  maxstacksize (f (fs s)) <= maxstacksize (f (fs s')) /\ nk (fs s) <= nk (fs s') /\ pc (fs s) <= pc (fs s').
Proof using. intros [Ht _ [Hn _ Hg]]. pose proof (nk_grows _ _ Hg). destruct Hg. by split_and!. Qed.

Lemma estep_facts s s' : estep s s' ->
  (todo s' <= todo s)%nat /\ nactvar (fs s') = nactvar (fs s) /\
  maxstacksize (f (fs s)) <= maxstacksize (f (fs s')) /\ nk (fs s) <= nk (fs s') /\ pc (fs s) <= pc (fs s').
Proof using. intros H. pose proof (sstep_facts _ _ (estep_sstep _ _ H)) as (? & _ & ? & ? & ?). destruct H as [_ _ [_ ? _ _]]. by split_and!. Qed.

Lemma cstep_facts s s' : cstep s s' ->
  todo s' = todo s /\ nactvar (fs s') = nactvar (fs s) /\
  maxstacksize (f (fs s)) <= maxstacksize (f (fs s')) /\ nk (fs s) <= nk (fs s') /\ pc (fs s) <= pc (fs s').
Proof using. intros H. pose proof (cstep_todo _ _ H). pose proof (estep_facts _ _ (cstep_estep _ _ H)) as (_ & ? & ? & ? & ?). by split_and!. Qed.

Lemma exp_base F r e r' : exp_ok F r e r' -> 0 <= nactvar F <= r -> r <= r'.
Proof using.
  unfold exp_ok. intros He Hr. destruct (ek e); try done; try (destruct He; lia); try lia.
  destruct He as (r1 & Ht & Hk). apply temp_range in Ht; [|lia]. apply rk_temp_range in Hk; lia.
Qed.

Lemma pexp_facts N s R r e : pexp N s R r e ->
  0 <= nactvar (fs s) <= r /\ r <= freereg (fs s) /\ freereg (fs s) <= maxstacksize (f (fs s)) < 250.
Proof using.
  intros [Hp He Hr _]. pose proof (pst_regs _ _ _ Hp). pose proof (exp_base _ _ _ _ He). lia.
Qed.
End facts.

(** What the steps and the states say of numbers *)
Ltac step_facts :=
  repeat match goal with
  | H : used _ _ |- _ => destruct H as (H & ? & _)
  | H : tstep _ _ |- _ => apply tstep_facts in H as (? & ? & ? & ? & ? & ?)
  | H : cstep _ _ |- _ => apply cstep_facts in H as (? & ? & ? & ? & ?)
  | H : estep _ _ |- _ => apply estep_facts in H as (? & ? & ? & ? & ?)
  | H : sstep _ _ |- _ => apply sstep_facts in H as (? & ? & ? & ? & ?)
  | H : pst _ _ _ |- _ => apply pst_regs in H as (? & ? & ?)
  | H : pexp _ _ _ _ _ |- _ => apply pexp_facts in H as (? & ? & ?)
  end.
Ltac nums := step_facts; lia.

(** A state is reached by the steps taken. *)
Ltac steps :=
  lazymatch goal with
  | |- estep ?a ?a => reflexivity
  | |- sstep ?a ?a => reflexivity
  | |- cstep ?a ?a => reflexivity
  | |- tstep _ _ => assumption
  | |- estep ?a _ =>
      match goal with
      | H : estep a _ |- _ => etrans; [exact H|steps]
      | H : cstep a _ |- _ => etrans; [exact (cstep_estep _ _ H)|steps]
      | H : tstep a _ |- _ => etrans; [exact (tstep_estep _ _ H)|steps]
      | H : used a _ |- _ => etrans; [exact (tstep_estep _ _ (proj1 H))|steps]
      end
  | |- sstep ?a _ =>
      match goal with
      | H : sstep a _ |- _ => etrans; [exact H|steps]
      | H : estep a _ |- _ => etrans; [exact (estep_sstep _ _ H)|steps]
      | H : cstep a _ |- _ => etrans; [exact (estep_sstep _ _ (cstep_estep _ _ H))|steps]
      | H : tstep a _ |- _ => etrans; [exact (estep_sstep _ _ (tstep_estep _ _ H))|steps]
      | H : used a _ |- _ => etrans; [exact (estep_sstep _ _ (tstep_estep _ _ (proj1 H)))|steps]
      end
  end.

(** The scanner of a state is fine. *)
Ltac lk :=
  match goal with
  | H : pst _ ?s _ |- lok ?s => exact (pst_lok _ _ _ H)
  | H : pexp _ ?s _ _ _ |- lok ?s => exact (pst_lok _ _ _ (px_pst _ _ _ _ _ H))
  | H : used _ ?s |- lok ?s => exact (ts_lok _ _ (proj1 H))
  | H : tstep _ ?s |- lok ?s => exact (ts_lok _ _ H)
  end.

(** A token was read: the invariant goes on. *)
Ltac tk Hp :=
  match type of Hp with pst _ ?s ?R =>
    match goal with
    | H : used s ?s' |- _ => let H2 := fresh "Hp" in pose proof (pst_tstep _ _ _ _ Hp (proj1 H)) as H2
    | H : tstep s ?s' |- _ => let H2 := fresh "Hp" in pose proof (pst_tstep _ _ _ _ Hp H) as H2
    end
  end.

Section safety.
Context {Z' : Type} `{HS : ByteStream Z'} `{HL : !ByteStreamLaws Z'} `{HM : LibM}.
Context (N : Z) (HN : 0 <= N).
Abbreviation Comp := (ST (CompState Z')).
Implicit Types s : CompState Z'.
Abbreviation pst := (pst N).
Abbreviation pexp := (pexp N).

Lemma pexp_tstep s s' R r e : pexp s R r e -> tstep s s' -> pexp s' R r e.
Proof using.
  intros [Hp He Hr Hd] Ht. split; [exact (pst_tstep _ _ _ _ Hp Ht)|by rewrite (ts_fs _ _ Ht)..|done].
Qed.

Lemma token_is s c : token (t (ls s)) = c -> c <> TK_EOS -> token (t (ls s)) <> TK_EOS.
Proof using. by intros ->. Qed.

Context (subexpr : Z -> Comp (expdesc * BinOpr)) (chunk : Comp unit).
Context (Hsub : forall limit s R, pst s R ->
  run (subexpr limit) s (fun '(e, _) s' => pexp s' R (freereg (fs s)) e /\ estep s s' /\ (todo s' < todo s)%nat)).
Context (Hchunk : forall s R, pst s R -> run chunk s (fun _ s' => pst s' R /\ sstep s s')).

Lemma expr_run s R :
  pst s R -> run (expr subexpr) s (fun e s' => pexp s' R (freereg (fs s)) e /\ estep s s' /\ (todo s' < todo s)%nat).
Proof using Hsub.
  intros Hp. unfold expr. eapply run_bind; [by apply Hsub|]. cbv beta. intros [e op] s' (? & ? & ?). by apply run_ret.
Qed.

Lemma codestring_run st s R :
  pst s R -> run (codestring st) s (fun e s' => e = init_exp VK (info e) /\ pst s' R /\ cstep s s' /\
    freereg (fs s') = freereg (fs s) /\ 0 <= info e < nk (fs s') /\ code (f (fs s')) = code (f (fs s))).
Proof using HL.
  intros Hp. unfold codestring. eapply run_bind; [exact (stringK_run N st s R Hp)|].
  cbv beta. intros i s' (? & ? & ? & _ & [? ?] & ?). apply run_ret. conj.
Qed.

Lemma constant_pexp s R e : pst s R -> e = init_exp VK (info e) -> 0 <= info e < nk (fs s) -> pexp s R (freereg (fs s)) e.
Proof using. intros Hp -> Hi. apply init_pexp; [done|done|by unfold exp_ok|nums]. Qed.

Lemma checkname_run s R :
  pst s R -> run checkname s (fun e s' => e = init_exp VK (info e) /\ pst s' R /\ estep s s' /\
    freereg (fs s') = freereg (fs s) /\ 0 <= info e < nk (fs s') /\ (todo s' < todo s)%nat /\
    cext (fs s) (fs s') /\ code (f (fs s')) = code (f (fs s))).
Proof using HL.
  intros Hp. unfold checkname. eapply run_bind; [apply str_checkname_run; lk|]. cbv beta. intros st s1 Hu. tk Hp.
  eapply run_mono; [by apply codestring_run|]. cbv beta. intros e s2 (He & Hp2 & Hc & Hf & [Hi1 Hi2] & Hco).
  pose proof (ts_fs _ _ (proj1 Hu)) as E. rewrite <- E. conj; [steps|nums|apply Hc].
Qed.

Lemma rk_temp_estep s s' r x r' : estep s s' -> rk_temp (fs s) r x r' -> rk_temp (fs s') r x r'.
Proof using. intros Hs. apply rk_temp_cext; nums. Qed.

Lemma temp_estep s s' r x r' : estep s s' -> temp (fs s) r x r' -> temp (fs s') r x r'.
Proof using. intros Hs. apply temp_cext. nums. Qed.

Lemma field_run s R r v :
  pexp s R r v -> token (t (ls s)) <> TK_EOS ->
  run (field v) s (fun e s' => pexp s' R r e /\ estep s s' /\ ek e = VINDEXED /\ (todo s' < todo s)%nat).
Proof using HL.
  intros Hv Ht. unfold field. eapply run_bind; [by apply (exp2anyreg_run N s R r)|].
  cbv beta. intros v1 s1 (Hp1 & Hc1 & (_ & _ & E1 & E2) & Htmp).
  eapply run_bind; [apply next_used; [by rewrite (cstep_ls _ _ Hc1)|lk]|]. cbv beta. intros _ s2 Hu. tk Hp1.
  eapply run_bind; [by apply checkname_run|]. cbv beta. intros key s3 (Ek & Hp3 & Hs3 & Hf3 & Hi & Hlt & _).
  assert (Hs13 : estep s1 s3) by steps.
  eapply run_mono; [apply (indexed_run N s3 R r (freereg (fs s1)) v1 key);
    [by apply (temp_estep s1)|nums|exact E1|exact E2|]|].
  - replace (freereg (fs s1)) with (freereg (fs s3)) by nums. by apply constant_pexp.
  - cbv beta. intros e s4 (He & Hc4 & Hk). conj; [steps|nums].
Qed.

Lemma yindex_run s R :
  pst s R -> token (t (ls s)) <> TK_EOS ->
  run (yindex subexpr) s (fun e s' => pexp s' R (freereg (fs s)) e /\ estep s s' /\ (todo s' < todo s)%nat).
Proof using HL Hsub.
  intros Hp Ht. unfold yindex. eapply run_bind; [by apply next_used; [|lk]|]. cbv beta. intros _ s1 Hu. tk Hp.
  eapply run_bind; [by apply expr_run|]. cbv beta. intros v s2 (Hv & Hs2 & Hlt).
  eapply run_bind; [by apply (exp2val_run N s2 R (freereg (fs s1)))|]. cbv beta. intros e s3 (He & Hc3).
  eapply run_bind; [apply checknext_run; [by split|done|lk]|]. cbv beta. intros _ s4 Hu4. apply run_ret.
  split; [|split; [steps|nums]]. replace (freereg (fs s)) with (freereg (fs s1)) by nums.
  exact (pexp_tstep _ _ _ _ _ He (proj1 Hu4)).
Qed.

(** *** Lists of expressions *)

Lemma explist_loop_run fuel base n v s R :
  (todo s < fuel)%nat -> 1 <= n -> nactvar (fs s) <= base -> pexp s R (base + n - 1) v ->
  run (explist_loop subexpr fuel n v) s (fun '(n, e) s' => 1 <= n /\ pexp s' R (base + n - 1) e /\ estep s s').
Proof using HL Hsub.
  revert n v s. induction fuel as [|fuel IH]; intros n v s Hf Hn Hb Hv; [lia|]. cbn [explist_loop].
  eapply run_bind; [apply testnext_run; [done|lk]|]. cbv beta. intros [] s1 Hs1.
  - pose proof (pexp_tstep _ _ _ _ _ Hv (proj1 Hs1)) as Hv1.
    eapply run_bind; [by apply (exp2nextreg_run N s1 R (base + n - 1))|]. cbv beta. intros _ s2 (Hp2 & Hc2 & Hf2 & _).
    eapply run_bind; [by apply expr_run|]. cbv beta. intros e s3 (He & Hs3 & Hlt).
    eapply run_mono; [apply (IH (n + 1) e s3); [nums|lia|nums|]|].
    + by replace (base + (n + 1) - 1) with (freereg (fs s2)) by lia.
    + cbv beta. intros [n' e'] s4 (Hn' & He' & Hs4). conj. steps.
  - subst s1. apply run_ret. conj.
Qed.

Lemma explist1_run s R :
  pst s R -> run (explist1 subexpr) s (fun '(n, e) s' => 1 <= n /\ pexp s' R (freereg (fs s) + n - 1) e /\ estep s s' /\ (todo s' < todo s)%nat).
Proof using HL Hsub.
  intros Hp. unfold explist1. eapply run_bind; [by apply expr_run|]. cbv beta. intros v s1 (Hv & Hs1 & Hlt).
  apply token_rounds_run. intros fuel Hfuel.
  eapply run_mono; [apply (explist_loop_run fuel (freereg (fs s)) 1 v s1 R Hfuel); [done|nums|]|].
  - by replace (freereg (fs s) + 1 - 1) with (freereg (fs s)) by lia.
  - cbv beta. intros [n e] s2 (Hn & He & Hs2). conj; [steps|nums].
Qed.

(** *** Words of the code *)

Lemma get_code_run {B} q w (k : Z -> Comp B) s Q : getZ (code (f (fs s))) q = Some w -> run (k w) s Q -> run (get_code q ≫= k) s Q.
Proof using.
  intros Hq Hk. unfold get_code. apply run_group, run_gets.
  eapply run_bind; [apply (run_lift _ _ (fun x => x = w) (fun x s' => x = w /\ s' = s)); [by rewrite Hq|done]|].
  by cbv beta; intros ? ? [-> ->].
Qed.

Lemma set_code_run q w v o s R :
  pst s R -> getZ (code (f (fs s))) q = Some w -> op_of (GET_OPCODE w) = Some o -> o <> OP_TESTSET -> getOpMode o <> iAsBx ->
  is_u32 v -> GET_OPCODE v = GET_OPCODE w -> fits (maxstacksize (f (fs s))) (f (fs s)) o (GETARG_A v) (GETARG_B v) (GETARG_C v) (GETARG_Bx v) ->
  run (set_code q v) s (fun _ s' => pst s' R /\ cstep s s' /\ freereg (fs s') = freereg (fs s)).
Proof using.
  intros Hp Hq Ho Hn Hm Hu Hov Hf. apply (run_gen N _ s R (fun _ => R) (fun _ F' => freereg F' = freereg (fs s)) Hp).
  eapply cgen_mono; [apply (set_word_ok s (fs s) R q w v o (pst_ok _ _ _ Hp)); try done|].
  - split; [done|]. exists o. by rewrite Hov.
  - cbv beta. intros _ F' (_ & Hi & Hk & _). split; [exact Hi|]. split; apply Hk.
Qed.

(** The arguments of OP_NEWTABLE are set when the size is known. *)
Lemma set_size_run q g s R :
  pst s R -> op_at (code (f (fs s))) q = Some OP_NEWTABLE ->
  (forall w, is_u32 w -> is_u32 (g w) /\ GET_OPCODE (g w) = GET_OPCODE w /\ GETARG_A (g w) = GETARG_A w) ->
  exists w, getZ (code (f (fs s))) q = Some w /\
    run (set_code q (g w)) s (fun _ s' => pst s' R /\ cstep s s' /\ freereg (fs s') = freereg (fs s)).
Proof using.
  intros Hp Hop Hg. destruct (op_at_inv _ _ _ Hop) as (w & Hq & Ho). exists w. split; [done|].
  destruct (fi_words _ _ _ (pst_ok _ _ _ Hp) _ _ Hq) as (Hu & o & Ho' & [Hr _ _ _ _] & _). rewrite Ho in Ho'. injection Ho' as <-.
  destruct (Hg w Hu) as (H1 & H2 & H3).
  eapply set_code_run; [exact Hp|exact Hq|exact Ho|done|done|exact H1|exact H2|].
  rewrite H3. split; try done; by intros [|].
Qed.

Lemma int2fb_run {B} x (k : Z -> Comp B) s Q :
  0 <= x <= MAXTEXT -> (forall b, 0 <= b <= MAXARG_B -> run (k b) s Q) -> run (lift (luaO_int2fb x) ≫= k) s Q.
Proof using.
  intros Hx Hk. destruct (int2fb_rounds_up x) as (b & Hb & Hr & _); [unfold MAXTEXT in Hx; lia|]. rewrite Hb.
  apply (Hk b). maxargs. lia.
Qed.

(** *** Constructors *)

(** The items of a table in register [r]: the pending ones are in the
    registers behind it, or the last one is still an expression. *)
Record items s (R : list Z) (r : Z) (cc : ConsControl) : Prop := {
  it_na : 0 <= tostore cc <= na cc;
  it_nh : 0 <= nh cc;
  it_base : nactvar (fs s) <= r;
  it_cv : (ek (cv cc) = VVOID /\ tostore cc < LFIELDS_PER_FLUSH /\ pst s R /\ freereg (fs s) = r + 1 + tostore cc) \/
    (1 <= tostore cc <= LFIELDS_PER_FLUSH /\ pexp s R (r + tostore cc) (cv cc))
}.

(** All items are stored in it. *)
Definition table_at s (R : list Z) (r : Z) : Prop := pst s R /\ freereg (fs s) = r + 1 /\ nactvar (fs s) <= r.

Lemma setlist_run r nelems st s R :
  pst s R -> nactvar (fs s) <= r -> r + 1 <= freereg (fs s) -> 1 <= nelems <= MAXTEXT ->
  st = LUA_MULTRET \/ 0 < st <= LFIELDS_PER_FLUSH /\ r + st < freereg (fs s) ->
  run (luaK_setlist r nelems st) s (fun _ s' => pst s' R /\ cstep s s' /\ freereg (fs s') = r + 1).
Proof using HL.
  intros Hp Hr Hf Hn Hst. apply (run_gen N _ s R (fun _ => R) (fun _ F' => freereg F' = r + 1) Hp).
  pose proof (pst_regs _ _ _ Hp). unfold MAXTEXT in Hn.
  apply (setlist_spec s (ps_wf _ _ _ Hp) (fs s) R r nelems st (pst_ok _ _ _ Hp)); lia.
Qed.

Lemma closelistfield_run t r cc s R :
  settled_in r t -> items s R r cc -> na cc <= MAXTEXT ->
  run (closelistfield t cc) s (fun cc' s' => items s' R r cc' /\ cstep s s' /\ ek (cv cc') = VVOID /\ na cc' = na cc /\ nh cc' = nh cc).
Proof using HL.
  intros (_ & Et & _) [H1 H2 H3 Hcv] Hmax. unfold closelistfield. destruct Hcv as [(Ek & Hlt & Hp & Hf)|[Hb He]].
  { rewrite bool_decide_eq_true_2 by done. apply run_ret. split; [|split; [reflexivity|done]]. split; try done. by left. }
  rewrite bool_decide_eq_false_2; [|intros Ek; pose proof (px_exp _ _ _ _ _ He) as Hx; unfold exp_ok in Hx; by rewrite Ek in Hx].
  eapply run_bind; [by apply (exp2nextreg_run N s R (r + tostore cc))|]. cbv beta. intros v s1 (Hp1 & Hc1 & Hf1 & _).
  destruct (Z.eqb_spec (tostore cc) LFIELDS_PER_FLUSH) as [E|E].
  - eapply run_bind; [apply (setlist_run (info t) (na cc) (tostore cc) s1 R Hp1); rewrite ?Et; try nums|].
    cbv beta. intros _ s2 (Hp2 & Hc2 & Hf2). rewrite Et in Hf2. apply run_ret.
    split; [|split; [by etrans|done]]. split; cbn; [lia|lia|nums|]. left. split; [done|]. split; [done|]. split; [done|lia].
  - apply run_ret. split; [|split; [done|done]]. split; cbn; [lia|lia|nums|]. left. split; [done|]. split; [lia|]. split; [done|lia].
Qed.

Lemma lastlistfield_run t r cc s R :
  settled_in r t -> items s R r cc -> na cc <= MAXTEXT ->
  run (lastlistfield t cc) s (fun cc' s' => table_at s' R r /\ cstep s s' /\ 0 <= na cc' <= na cc /\ nh cc' = nh cc).
Proof using HL.
  intros (_ & Et & _) [H1 H2 H3 Hcv] Hmax. unfold lastlistfield. destruct (Z.eqb_spec (tostore cc) 0) as [E0|E0].
  { destruct Hcv as [(Ek & Hlt & Hp & Hf)|[Hb He]]; [|lia]. apply run_ret. split; [split; [done|lia]|]. split; [reflexivity|]. lia. }
  destruct (hasmultret (ek (cv cc))) eqn:Hm.
  { destruct Hcv as [(Ek & _)|[Hb He]]; [by rewrite Ek in Hm|].
    eapply run_bind; [by apply (setmultret_run N s R (r + tostore cc))|]. cbv beta. intros _ s1 (Hp1 & Hc1 & Hf1 & _).
    eapply run_bind; [apply (setlist_run (info t) (na cc) LUA_MULTRET s1 R Hp1); rewrite ?Et; try nums; by left|].
    cbv beta. intros _ s2 (Hp2 & Hc2 & Hf2). rewrite Et in Hf2. apply run_ret. cbn.
    split; [split; [done|split; [done|nums]]|]. split; [by etrans|]. lia. }
  apply (run_bind _ _ _ (fun _ s1 => pst s1 R /\ cstep s s1 /\ freereg (fs s1) = r + 1 + tostore cc)).
  { destruct Hcv as [(Ek & _ & Hp & Hf)|[Hb He]].
    - rewrite bool_decide_eq_true_2 by done. apply run_ret. split; [done|]. split; [reflexivity|done].
    - rewrite bool_decide_eq_false_2; [|intros Ek; pose proof (px_exp _ _ _ _ _ He) as Hx; unfold exp_ok in Hx; by rewrite Ek in Hx].
      eapply run_mono; [by apply (exp2nextreg_run N s R (r + tostore cc))|]. cbv beta. intros v s1 (Hp1 & Hc1 & Hf1 & _).
      split; [done|]. split; [done|lia]. }
  cbv beta. intros v s1 (Hp1 & Hc1 & Hf1).
  assert (Hst : tostore cc <= LFIELDS_PER_FLUSH) by (destruct Hcv as [(_ & ? & _)|[? _]]; lia).
  eapply run_bind; [apply (setlist_run (info t) (na cc) (tostore cc) s1 R Hp1); rewrite ?Et; try nums|].
  cbv beta. intros _ s2 (Hp2 & Hc2 & Hf2). rewrite Et in Hf2. apply run_ret. cbn.
  split; [split; [done|split; [done|nums]]|]. split; [by etrans|]. lia.
Qed.

Lemma set_freereg_run {B} r (k : unit -> Comp B) s R Q :
  pst s R -> nactvar (fs s) <= r <= freereg (fs s) ->
  (forall s', pst s' R -> cstep s s' -> freereg (fs s') = r -> code (f (fs s')) = code (f (fs s)) -> run (k tt) s' Q) ->
  run (modify_fs (with_freereg r) ≫= k) s Q.
Proof using.
  intros Hp Hr Hk. apply run_modify_bind. apply Hk; [| |done|done].
  - eapply pst_fs; [exact Hp| |done]. pose proof (pst_regs _ _ _ Hp). destruct (ps_fun _ _ _ Hp) as [Hi Hu Hps]. split; [|done|done].
    apply (set_freereg_ok (maxstacksize (f (fs s)))); [exact Hi|lia].
  - split; [done|]. apply cext_freereg.
Qed.

Lemma void_items s R r cc : items s R r cc -> ek (cv cc) = VVOID -> pst s R /\ freereg (fs s) = r + 1 + tostore cc /\ tostore cc < LFIELDS_PER_FLUSH.
Proof using.
  intros [_ _ _ [(_ & ? & ? & ?)|[_ He]]] Ek; [done|]. pose proof (px_exp _ _ _ _ _ He) as Hx. unfold exp_ok in Hx. by rewrite Ek in Hx.
Qed.

Lemma recfield_run tab r cc s R :
  settled_in r tab -> items s R r cc -> ek (cv cc) = VVOID -> token (t (ls s)) <> TK_EOS ->
  run (recfield subexpr tab cc) s (fun cc' s' => items s' R r cc' /\ estep s s' /\ (todo s' < todo s)%nat /\ na cc' = na cc /\ nh cc' = nh cc + 1).
Proof using HL Hsub.
  intros (_ & Et & _) Hit Ek Ht. destruct (void_items _ _ _ _ Hit Ek) as (Hp & Hf & Hst). destruct Hit as [H1 H2 H3 _].
  unfold recfield. apply run_gets, run_gets. set (reg := freereg (fs s)).
  apply (run_bind _ _ _ (fun key s1 => pexp s1 R reg key /\ estep s s1 /\ (todo s1 < todo s)%nat)).
  { destruct (Z.eqb_spec (token (t (ls s))) TK_NAME) as [E|E]; [|by apply yindex_run].
    eapply run_bind; [apply checklimit_run; lk|]. cbv beta. intros _ s1 [-> _].
    eapply run_mono; [by apply checkname_run|]. cbv beta. intros key s1 (Ek1 & Hp1 & Hs1 & Hf1 & Hi & Hlt & _).
    split; [|by split]. unfold reg. rewrite <- Hf1. by apply constant_pexp. }
  cbv beta. intros key s1 (Hkey & Hs1 & Hlt).
  eapply run_bind; [apply checknext_run; [by split|done|lk]|]. cbv beta. intros _ s2 Hu.
  pose proof (pexp_tstep _ _ _ _ _ Hkey (proj1 Hu)) as Hkey2.
  eapply run_bind; [by apply (exp2RK_run N s2 R reg)|]. cbv beta. intros [x k'] s3 (Hp3 & Hc3 & Hx). cbn [fst snd] in Hx.
  eapply run_bind; [by apply expr_run|]. cbv beta. intros val s4 (Hval & Hs4 & Hlt4).
  eapply run_bind; [by apply (exp2RK_run N s4 R (freereg (fs s3)))|]. cbv beta. intros [y v'] s5 (Hp5 & Hc5 & Hy). cbn [fst snd] in Hy.
  apply rk_exp_temp in Hx, Hy. assert (Hs35 : estep s3 s5) by steps. pose proof (rk_temp_estep _ _ _ _ _ Hs35 Hx) as Hx5.
  assert (Hn : 0 <= nactvar (fs s5) <= reg) by (unfold reg; nums).
  pose proof (rk_temp_range _ _ _ _ Hx5 Hn) as Hrx. pose proof (rk_temp_range _ _ _ _ Hy ltac:(lia)) as Hry. pose proof (pst_regs _ _ _ Hp5) as Hr5.
  destruct (rk_operand _ (maxstacksize (f (fs s5))) _ _ _ Hx5 Hn ltac:(lia) ltac:(lia)) as (HB & HRb & HKb).
  destruct (rk_operand _ (maxstacksize (f (fs s5))) _ _ _ Hy ltac:(lia) ltac:(lia) ltac:(lia)) as (HC & HRc & HKc).
  assert (Hreg : reg = r + 1 + tostore cc) by exact Hf.
  eapply run_bind; [apply (code_run N OP_SETTABLE (info tab) x y s5 R Hp5); try done; rewrite ?Et; [nums|]|].
  { intros bx. apply fits_settable; try done. nums. }
  cbv beta. intros n s6 (Hp6 & Hc6 & Hf6 & _). eapply set_freereg_run; [exact Hp6|nums|].
  intros s7 Hp7 Hc7 Hf7 _. apply run_ret.
  split; [|split; [steps|split; [nums|split; [done|done]]]].
  split; cbn; [lia|lia|nums|]. left. split; [done|]. split; [done|]. split; [done|lia].
Qed.

Lemma listfield_run r cc s R :
  items s R r cc -> ek (cv cc) = VVOID ->
  run (listfield subexpr cc) s (fun cc' s' => items s' R r cc' /\ estep s s' /\ (todo s' < todo s)%nat /\ na cc' = na cc + 1 /\ nh cc' = nh cc).
Proof using HL Hsub.
  intros Hit Ek. destruct (void_items _ _ _ _ Hit Ek) as (Hp & Hf & Hst). destruct Hit as [H1 H2 H3 _].
  unfold listfield. eapply run_bind; [by apply expr_run|]. cbv beta. intros v s1 (Hv & Hs1 & Hlt). apply run_gets.
  eapply run_bind; [apply checklimit_run; lk|]. cbv beta. intros _ s2 [-> _]. apply run_ret.
  split; [|by split]. split; cbn; [lia|lia|nums|]. right. split; [lia|]. by replace (r + (tostore cc + 1)) with (freereg (fs s)) by lia.
Qed.

Lemma cons_item_run tab r cc s R :
  settled_in r tab -> items s R r cc -> ek (cv cc) = VVOID -> token (lookahead (ls s)) = TK_EOS ->
  run (cons_item subexpr tab cc) s (fun cc' s' => items s' R r cc' /\ estep s s' /\ (todo s' < todo s)%nat /\
    0 <= na cc' - na cc <= 1 /\ 0 <= nh cc' - nh cc <= 1).
Proof using HL Hsub.
  intros Ht Hit Ek Hla. unfold cons_item. apply run_gets.
  assert (Hl : forall s0, items s0 R r cc -> estep s s0 -> run (listfield subexpr cc) s0 (fun cc' s' => items s' R r cc' /\ estep s s' /\ (todo s' < todo s)%nat /\
    0 <= na cc' - na cc <= 1 /\ 0 <= nh cc' - nh cc <= 1)).
  { intros s0 Hit0 Hs0. eapply run_mono; [by apply (listfield_run r cc s0 R)|]. cbv beta. intros cc' s' (? & ? & ? & ? & ?).
    conj; [steps|nums|lia..]. }
  assert (Hr : forall s0, items s0 R r cc -> estep s s0 -> token (t (ls s0)) <> TK_EOS -> run (recfield subexpr tab cc) s0 (fun cc' s' => items s' R r cc' /\ estep s s' /\ (todo s' < todo s)%nat /\
    0 <= na cc' - na cc <= 1 /\ 0 <= nh cc' - nh cc <= 1)).
  { intros s0 Hit0 Hs0 Hn. eapply run_mono; [by apply (recfield_run tab r cc s0 R)|]. cbv beta. intros cc' s' (? & ? & ? & ? & ?).
    conj; [steps|nums|lia..]. }
  destruct (Z.eqb_spec (token (t (ls s))) TK_NAME) as [E|E].
  - destruct (void_items _ _ _ _ Hit Ek) as (Hp & Hf & Hst).
    eapply run_bind; [apply (lookahead_run N s R Hp Hla)|]. cbv beta. intros _ s1 (Ht1 & E1). apply run_gets.
    assert (Hit1 : items s1 R r cc).
    { destruct Hit as [H1 H2 H3 _]. split; [done|done|by rewrite (ts_fs _ _ Ht1)|]. left. split; [done|]. split; [done|].
      split; [exact (pst_tstep _ _ _ _ Hp Ht1)|]. by rewrite (ts_fs _ _ Ht1). }
    destruct (negb _); [apply Hl|apply Hr]; try done; try (by apply tstep_estep). by rewrite E1, E.
  - destruct (Z.eqb_spec (token (t (ls s))) (ch "[")) as [E2|E2]; [apply Hr|apply Hl]; try done. by rewrite E2.
Qed.

Lemma cons_loop_run fuel tab r cc s R T :
  (todo s < fuel)%nat -> settled_in r tab -> items s R r cc -> token (lookahead (ls s)) = TK_EOS ->
  na cc + Z.of_nat (todo s) <= T -> nh cc + Z.of_nat (todo s) <= T -> T <= MAXTEXT ->
  run (cons_loop subexpr fuel tab cc) s (fun cc' s' => items s' R r cc' /\ estep s s' /\ na cc' <= T /\ nh cc' <= T).
Proof using HL Hsub.
  revert cc s. induction fuel as [|fuel IH]; intros cc s Hf Ht Hit Hla Hna Hnh HT; [lia|]. cbn [cons_loop]. apply run_gets.
  destruct (_ =? _); [apply run_ret; conj; lia|].
  eapply run_bind; [apply (closelistfield_run tab r cc s R Ht Hit); lia|]. cbv beta. intros cc1 s1 (Hit1 & Hc1 & Ek & Ena & Enh).
  eapply run_bind; [apply (cons_item_run tab r cc1 s1 R Ht Hit1 Ek); by rewrite (cstep_ls _ _ Hc1)|].
  cbv beta. intros cc2 s2 (Hit2 & Hs2 & Hlt & Hna2 & Hnh2).
  assert (Hlk : lok s2) by (destruct Hit2 as [_ _ _ [(_ & _ & Hp & _)|[_ He]]]; lk).
  assert (Hgo : forall s3, used s2 s3 -> run (cons_loop subexpr fuel tab cc2) s3 (fun cc' s' => items s' R r cc' /\ estep s s' /\ na cc' <= T /\ nh cc' <= T)).
  { intros s3 Hu. assert (Hit3 : items s3 R r cc2).
    { destruct Hit2 as [G1 G2 G3 G4]. pose proof (ts_fs _ _ (proj1 Hu)) as E. split; [done|done|by rewrite E|].
      destruct G4 as [(? & ? & Hp & ?)|[? He]]; [left|right].
      - rewrite E. split; [done|]. split; [done|]. split; [exact (pst_tstep _ _ _ _ Hp (proj1 Hu))|done].
      - split; [done|]. exact (pexp_tstep _ _ _ _ _ He (proj1 Hu)). }
    eapply run_mono; [apply (IH cc2 s3); [nums|done|done|apply Hu|nums|nums|done]|].
    cbv beta. intros cc' s' (? & ? & ? & ?). conj. steps. }
  eapply run_bind; [by apply testnext_run|]. cbv beta. intros c1 s3 Hs3.
  apply (run_bind _ _ _ (fun (b : bool) s' => if b then used s2 s' else s' = s2)).
  { destruct c1; [by apply run_ret|]. subst s3. by apply testnext_run. }
  cbv beta. intros [] s4 Hs4; [by apply Hgo|]. subst s4. apply run_ret. conj; [steps|nums|nums].
Qed.

Lemma newtable_kept s s' q : estep s s' -> op_at (code (f (fs s))) q = Some OP_NEWTABLE -> op_at (code (f (fs s'))) q = Some OP_NEWTABLE.
Proof using. intros [_ _ [[_ _ [_ _ _ _ Ht]] _ _ _]]. apply Ht. Qed.

(** The sizes are written into the instruction at [q]. *)
Lemma sizes_run q (n1 n2 : Z) {B} (k : unit -> Comp B) s R Q :
  pst s R -> op_at (code (f (fs s))) q = Some OP_NEWTABLE -> 0 <= n1 <= MAXTEXT -> 0 <= n2 <= MAXTEXT ->
  (forall s', pst s' R -> cstep s s' -> freereg (fs s') = freereg (fs s) -> run (k tt) s' Q) ->
  run (i ← get_code q; b ← lift (luaO_int2fb n1); set_code q (SETARG_B i b);;
       i ← get_code q; c ← lift (luaO_int2fb n2); set_code q (SETARG_C i c) ≫= k) s Q.
Proof using.
  intros Hp Hop H1 H2 Hk. destruct (op_at_inv _ _ _ Hop) as (w & Hq & _).
  eapply get_code_run; [exact Hq|]. apply int2fb_run; [done|]. intros b Hb.
  destruct (set_size_run q (fun w => SETARG_B w b) s R Hp Hop) as (w1 & Hq1 & Hrun).
  { intros w1 Hu. destruct (SETARG_B_fields w1 b Hu Hb) as (? & ? & ? & _). done. }
  rewrite Hq in Hq1. injection Hq1 as <-. eapply run_bind; [exact Hrun|]. cbv beta. intros _ s1 (Hp1 & Hc1 & Hf1).
  pose proof (newtable_kept _ _ _ (cstep_estep _ _ Hc1) Hop) as Hop1. destruct (op_at_inv _ _ _ Hop1) as (w2 & Hq2 & _).
  eapply get_code_run; [exact Hq2|]. apply int2fb_run; [done|]. intros c Hc.
  destruct (set_size_run q (fun w => SETARG_C w c) s1 R Hp1 Hop1) as (w3 & Hq3 & Hrun3).
  { intros w3 Hu. destruct (SETARG_C_fields w3 c Hu Hc) as (? & ? & ? & _). done. }
  rewrite Hq2 in Hq3. injection Hq3 as <-. eapply run_bind; [exact Hrun3|]. cbv beta. intros [] s2 (Hp2 & Hc2 & Hf2).
  apply Hk; [done|by etrans|congruence].
Qed.

Lemma table_pexp s R r tab : table_at s R r -> settled_in r tab -> pexp s R r tab.
Proof using.
  intros (Hp & Hf & Hn) (Ek & Ei & E1 & E2). apply settled_pexp; [done| | |done].
  - rewrite Ei. done.
  - rewrite Ei, Hf. right. done.
Qed.

Lemma constructor_run s R :
  pst s R -> run (constructor subexpr) s (fun e s' => pexp s' R (freereg (fs s)) e /\ estep s s' /\ (todo s' < todo s)%nat /\ ek e = VNONRELOC).
Proof using HL Hsub.
  intros Hp. unfold constructor. apply run_gets. set (r := freereg (fs s)).
  eapply run_bind; [apply (code_run N OP_NEWTABLE 0 0 0 s R Hp); try done; [nums|intros bx; fits_tac; nums]|].
  cbv beta. intros q s1 (Hp1 & Hc1 & Hf1 & _ & _ & Hq).
  assert (Hop : op_at (code (f (fs s1))) q = Some OP_NEWTABLE) by (by rewrite (op_at_Some _ _ _ Hq)).
  eapply run_bind; [apply (exp2nextreg_run N s1 R r)|].
  { apply init_pexp; [exact Hp1|done| |nums]. unfold exp_ok. cbn. split; [|done]. eexists. split; [exact Hq|].
    exists OP_NEWTABLE. split_and!; done. }
  cbv beta. intros tab s2 (Hp2 & Hc2 & Hf2 & Htab).
  eapply run_bind; [apply checknext_run; [by split|done|lk]|]. cbv beta. intros _ s3 Hu3. tk Hp2.
  apply token_rounds_run. intros fuel Hfuel.
  eapply run_bind; [apply (cons_loop_run fuel tab r _ s3 R (Z.of_nat (todo s3)) Hfuel Htab)|].
  { split; cbn; [lia|lia|unfold r; nums|]. left. split; [done|]. split; [done|]. split; [done|nums]. }
  { apply Hu3. }
  { cbn. lia. }
  { cbn. lia. }
  { exact (ps_todo _ _ _ Hp0). }
  cbv beta. intros cc s4 (Hit & Hs4 & Hna & Hnh). pose proof (ps_todo _ _ _ Hp0) as HT.
  assert (Hlk : lok s4) by (destruct Hit as [_ _ _ [(_ & _ & Hp4 & _)|[_ He]]]; lk).
  eapply run_bind; [apply check_match_run; [by split|by split|done|exact Hlk]|]. cbv beta. intros _ s5 Hu5.
  assert (Hit5 : items s5 R r cc).
  { destruct Hit as [G1 G2 G3 G4]. pose proof (ts_fs _ _ (proj1 Hu5)) as E. split; [done|done|by rewrite E|].
    destruct G4 as [(? & ? & Hp4 & ?)|[? He]]; [left|right].
    - rewrite E. split; [done|]. split; [done|]. split; [exact (pst_tstep _ _ _ _ Hp4 (proj1 Hu5))|done].
    - split; [done|]. exact (pexp_tstep _ _ _ _ _ He (proj1 Hu5)). }
  eapply run_bind; [apply (lastlistfield_run tab r cc s5 R Htab Hit5); lia|].
  cbv beta. intros cc6 s6 (Htb & Hc6 & Hna6 & Hnh6). pose proof (it_nh _ _ _ _ Hit5).
  assert (Hs16 : estep s1 s6) by steps. destruct Htb as (Hp6 & Hf6 & Hn6).
  eapply (sizes_run q (na cc6) (nh cc6) (fun _ => mret tab)); [exact Hp6|by apply (newtable_kept s1)|lia|lia|].
  intros s7 Hp7 Hc7 Hf7. apply run_ret. split; [|split; [steps|split; [nums|apply Htab]]].
  apply table_pexp; [|exact Htab]. split; [exact Hp7|]. split; [lia|unfold r; nums].
Qed.

(** ** Functions *)

(** *** The end of a function *)

Lemma anchor_run b s : lok s -> (b = true -> token (t (ls s)) = TK_EOS) -> run (anchor_token b) s (fun _ s' => s' = s).
Proof using.
  intros Hl Hb. unfold anchor_token. apply run_gets.
  destruct ((token (t (ls s)) =? TK_NAME) || (token (t (ls s)) =? TK_STRING)) eqn:E; [|by apply run_ret].
  assert (Ht : token (t (ls s)) = TK_NAME \/ token (t (ls s)) = TK_STRING) by (apply orb_true_iff in E as [E|E]; bool_facts; auto).
  eapply run_bind; [by apply tok_string_run|]. cbv beta. intros ts s' ->. destruct b; [|by apply run_ret].
  specialize (Hb eq_refl). rewrite Hb in Ht. by destruct Ht.
Qed.

(** Without jumps in lists, every [OP_TESTSET] has its register. *)
Lemma none_pending F q i :
  ok F [] -> jpc F = NO_JUMP -> bl F = [] -> getZ (code (f F)) q = Some i -> ~ pending i.
Proof using.
  intros Hi Hj Hb Hq Hp. destruct (fi_lists _ _ _ Hi) as (L & HfL & Hg). rewrite Hj, Hb in HfL.
  destruct L as [|[l ps] [|]]; try done. injection HfL as ->.
  pose proof (gl_pending _ _ Hg _ _ Hq Hp) as Hin. pose proof (Forall_inv (gl_jl _ _ Hg)) as Hl.
  apply jl_NO_JUMP in Hl. cbn in Hl. subst ps. by apply elem_of_nil in Hin.
Qed.

Lemma finished_good F :
  fun_ok F [] -> strict F -> jpc F = NO_JUMP -> bl F = [] -> getZ (code (f F)) (pc F - 1) = Some (CREATE_ABC OP_RETURN 0 1 0) -> good (f F).
Proof using.
  intros [Hi Hu Hp] Hs Hj Hb Hr. pose proof (fi_words _ _ _ Hi) as Hw. constructor; try done.
  - intros q i Hq. by apply (none_pending F q i Hi Hj Hb).
  - intros q i Hq Hjw. split; [|by apply Hs]. destruct (Hw _ _ Hq) as (_ & o & Ho & _ & Hd).
    destruct Hjw as (_ & o' & Ho' & Hm). rewrite Ho in Ho'. injection Ho' as <-. by destruct (Hd Hm).
  - apply Hi.
  - apply Hi.
  - apply (vo_names _ (fi_vars _ _ _ Hi)).
  - apply (vo_nups _ (fi_vars _ _ _ Hi)).
Qed.

(** The last return, and what [close_func] has of the function then *)
Lemma finish_run s :
  pst s [] -> bl (fs s) = [] ->
  run (removevars 0;; luaK_ret 0 0) s (fun _ s' => pst s' [] /\ good (f (fs s')) /\ prev s' = prev s /\ ls s' = ls s).
Proof using HL.
  intros Hp Hb. pose proof (pst_regs _ _ _ Hp).
  eapply run_bind; [apply (removevars_run N 0 s [] Hp); [lia|by rewrite Hb]|].
  cbv beta. intros _ s1 (Hp1 & _ & Hb1 & _ & Hm1 & Hpr1 & Hl1). pose proof (pst_regs _ _ _ Hp1).
  eapply run_mono.
  - apply (run_gen N _ s1 [] (fun _ => []) (fun _ F' => strict F' /\ jpc F' = NO_JUMP /\ pc F' = pc (fs s1) + 1 /\
      getZ (code (f F')) (pc (fs s1)) = Some (CREATE_ABC OP_RETURN 0 1 0)) Hp1).
    eapply cgen_mono; [apply (ret_spec s1 (ps_wf _ _ _ Hp1) (fs s1) [] 0 0 (pst_ok _ _ _ Hp1)); lia|].
    cbv beta. intros _ F' (? & ? & _ & ? & ? & ? & ?). by split_and!.
  - cbv beta. intros _ s2 (Hp2 & Hc2 & Hst & Hj & Hpc & Hg). split; [exact Hp2|]. split; [|split].
    + apply finished_good; [apply Hp2|done|done|by rewrite (cstep_bl _ _ Hc2), Hb1|]. rewrite Hpc. by replace (pc (fs s1) + 1 - 1) with (pc (fs s1)) by lia.
    + rewrite (cstep_prev _ _ Hc2). exact Hpr1.
    + rewrite (cstep_ls _ _ Hc2). exact Hl1.
Qed.

Lemma close_func_run s G Gs :
  pst s [] -> bl (fs s) = [] -> prev s = G :: Gs ->
  run close_func s (fun F s' => good (f F) /\ Forall (captured G) (upvaldescs F) /\ lenZ (upvaldescs F) = nups (f F) /\
    s' = mkCompState (ls s) G Gs N).
Proof using HL.
  intros Hp Hb Hpr. unfold close_func. apply run_regroup. eapply run_bind; [by apply finish_run|].
  cbv beta. intros _ s1 (Hp1 & Hg & Hpr1 & Hl1). apply run_gets, run_gets. rewrite Hpr1, Hpr. apply run_group, run_modify_bind.
  pose proof (ps_chain _ _ _ Hp1) as [Hc _]. rewrite Hpr1, Hpr in Hc. rewrite (ps_depth _ _ _ Hp1), Hl1.
  eapply run_bind; [apply anchor_run; [|done]|].
  - destruct (pst_lok _ _ _ Hp) as [H1 H2 H3]. split; [exact H1|exact H2|exact H3].
  - cbv beta. intros _ s2 ->. apply run_ret. split; [done|]. split; [done|]. split; [|done].
    apply (vo_descs _ (pst_vars _ _ _ Hp1)).
Qed.

(** The enclosing function goes on. *)
Lemma resume_pst s G Gs R : pst s [] -> prev s = G :: Gs -> fun_ok G R -> pst (mkCompState (ls s) G Gs N) R.
Proof using.
  intros [] Hpr HG. rewrite Hpr in *. split; [exact ps_wf|exact ps_sem|exact HG|by apply Forall_inv_tail in ps_prev|apply ps_chain|done|exact ps_todo].
Qed.

(** *** Closures *)

Lemma capture_run l s R :
  pst s R -> jpc (fs s) = NO_JUMP -> Forall (captured (fs s)) l ->
  run (capture l) s (fun _ s' => pst s' R /\ cstep s s' /\ freereg (fs s') = freereg (fs s) /\
    forall q w, getZ (code (f (fs s))) q = Some w -> getZ (code (f (fs s'))) q = Some w).
Proof using HL.
  revert s. induction l as [|u l IH]; intros s Hp Hj Hu; cbn [capture].
  { apply run_ret. split; [done|]. split; [reflexivity|]. done. }
  pose proof (pst_regs _ _ _ Hp) as Hr. pose proof (vo_nups _ (pst_vars _ _ _ Hp)) as Hnu. change LUAI_MAXUPVALUES with 60 in *.
  pose proof (Forall_inv Hu) as Hc. apply Forall_inv_tail in Hu. unfold captured in Hc.
  eapply (run_bind _ _ _ (fun _ s' => pst s' R /\ cstep s s' /\ freereg (fs s') = freereg (fs s) /\ jpc (fs s') = NO_JUMP /\
    forall q w, getZ (code (f (fs s))) q = Some w -> getZ (code (f (fs s'))) q = Some w)).
  { apply (run_gen N _ s R (fun _ => R) (fun _ F' => freereg F' = freereg (fs s) /\ jpc F' = NO_JUMP /\
      forall q w, getZ (code (f (fs s))) q = Some w -> getZ (code (f F')) q = Some w) Hp).
    eapply cgen_mono; [apply (codeABC_spec s (ps_wf _ _ _ Hp) (maxstacksize (f (fs s))) _ 0 (uinfo u) 0 R (fs s) (pst_ok _ _ _ Hp))|].
    - by case_bool_decide.
    - by case_bool_decide.
    - maxargs. lia.
    - maxargs. destruct (uk u); try done; lia.
    - maxargs. lia.
    - intros bx. case_bool_decide as E.
      + rewrite E in Hc. fits_tac.
      + destruct (uk u); try done. split; try done; cbn; [constructor; [lia|constructor]|by intros [|]].
    - cbv beta. intros n F' Hem. destruct (emitted_cext _ _ _ _ _ _ Hem) as (Hc' & Hf'). split_and!; try done; [by eapply emitted_ok|apply Hem|].
      intros q w Hq. rewrite <- Hq. apply (em_frame _ _ _ _ _ _ Hem []); [by rewrite Hj|apply not_elem_of_nil..|]. by apply getZ_Some in Hq. }
  cbv beta. intros _ s1 (Hp1 & Hc1 & Hf1 & Hj1 & Hg1). destruct (static_parts _ _ (ce_static _ _ (cs_cext _ _ Hc1))) as (Hn & Hups & _).
  eapply run_mono; [apply (IH s1 Hp1 Hj1)|].
  - eapply Forall_impl; [|exact Hu]. intros u' Hu'. apply (captured_mono (fs s)); [lia|lia|done].
  - cbv beta. intros _ s2 (Hp2 & Hc2 & Hf2 & Hg2). split; [done|]. split; [by etrans|]. split; [congruence|]. auto.
Qed.

Lemma pushclosure_run func s R :
  pst s R -> good (f func) -> Forall (captured (fs s)) (upvaldescs func) ->
  run (pushclosure func) s (fun e s' => pexp s' R (freereg (fs s)) e /\ estep s s' /\ ls s' = ls s /\ ek e = VRELOCABLE).
Proof using HL.
  intros Hp Hg Hu. unfold pushclosure. apply run_gets.
  eapply run_bind; [apply (run_lift _ _ (fun _ => np (fs s) < MAXARG_Bx) (fun _ s' => s' = s /\ np (fs s) < MAXARG_Bx))|].
  { unfold grow. destruct (Z.leb_spec MAXARG_Bx (np (fs s))); cbn; done. }
  { done. }
  cbv beta. intros _ s0 [-> Hnp]. apply run_modify_bind.
  set (F1 := with_f (with_p (p (f (fs s)) ++ [f func]) (f (fs s))) (fs s)). set (s1 := set_fs F1 s).
  assert (Hsz : sizep (f F1) = np (fs s) + 1) by (unfold sizep; cbn; by rewrite lenZ_app).
  assert (H0 : 0 <= np (fs s)) by apply lenZ_nonneg.
  assert (Hp1 : pst s1 R).
  { eapply pst_fs; [exact Hp| |done]. destruct (ps_fun _ _ _ Hp) as [Hi Hups Hps]. split; [|done|].
    - destruct Hi. split; try done; [|by destruct fi_vars]. eapply words_ok_mono; [..|exact fi_words]; try done; [exact (k_refl (f (fs s)))|].
      unfold sizep in *. cbn in *. rewrite Hsz. unfold np, sizep. lia.
    - cbn. intros h Hh. apply in_app_iff in Hh as [Hh|[<-|[]]]; [by apply Hps|done]. }
  assert (Hs1 : estep s s1).
  { apply estep_fs. split; try done. split; [done|done|]. split; try done. exists []. by rewrite app_nil_r. }
  pose proof (pst_regs _ _ _ Hp) as Hr.
  eapply run_bind.
  { apply (run_gen N _ s1 R (fun _ => R) (fun n F' => freereg F' = freereg F1 /\ jpc F' = NO_JUMP /\
      getZ (code (f F')) n = Some (CREATE_ABx OP_CLOSURE 0 (np (fs s)))) Hp1).
    eapply cgen_mono; [apply (codeABx_spec s1 (ps_wf _ _ _ Hp1) (maxstacksize (f F1)) OP_CLOSURE 0 (np (fs s)) R F1 (pst_ok _ _ _ Hp1)); [done|maxargs; lia|lia|]|].
    - intros b c. split; try done; try (by intros [|]); [cbn; constructor; [lia|constructor]|intros _; rewrite Hsz; lia].
    - cbv beta. intros n F' Hem. destruct (emitted_cext _ _ _ _ _ _ Hem) as (Hc' & Hf'). split_and!; try done; [by eapply emitted_ok|apply Hem|apply Hem]. }
  cbv beta. intros i s2 (Hp2 & Hc2 & Hf2 & Hj2 & Hq2). destruct (static_parts _ _ (ce_static _ _ (cs_cext _ _ Hc2))) as (Hn & Hups & _).
  eapply run_bind; [apply (capture_run _ s2 R Hp2 Hj2)|].
  - apply list.Forall_take. eapply Forall_impl; [|exact Hu]. intros u' Hu'. apply (captured_mono (fs s)); [|..|done].
    + rewrite Hn. done.
    + rewrite Hups. done.
  - cbv beta. intros _ s3 (Hp3 & Hc3 & Hf3 & Hg3). apply run_ret.
    assert (Hf : freereg (fs s3) = freereg (fs s)) by (rewrite Hf3, Hf2; done).
    split; [|split; [steps|]].
    + apply init_pexp; [exact Hp3|done| |nums]. unfold exp_ok. cbn. split; [|done]. eexists. split; [by apply Hg3|].
      exists OP_CLOSURE. destruct (get_CREATE_ABx OP_CLOSURE 0 (np (fs s))) as (-> & _); [maxargs; lia|lia|]. by rewrite op_of_num.
    + rewrite (cstep_ls _ _ Hc3), (cstep_ls _ _ Hc2). done.
Qed.

(** *** Parameters *)

(** A function whose parameters are read: they have no registers yet. *)
Record hst s : Prop := {
  hs_lok : lok s;
  hs_todo : Z.of_nat (todo s) <= MAXTEXT;
  hs_depth : nCcalls s = N;
  hs_prev : Forall outer_ok (prev s);
  hs_chain : chain (fs s :: prev s);
  hs_vars : vars_ok (fs s);
  hs_fun : fun_ok (with_nactvar 0 (fs s)) [];
  hs_bl : bl (fs s) = [];
  hs_freereg : freereg (fs s) = 0
}.

Lemma hst_tstep s s' : hst s -> tstep s s' -> hst s'.
Proof using.
  intros [] [Hf Hp Hd Ht Hl]. split; rewrite ?Hf, ?Hp; [exact Hl|lia|congruence|exact hs_prev0|exact hs_chain0|exact hs_vars0|exact hs_fun0|exact hs_bl0|exact hs_freereg0].
Qed.

Lemma hst_fs s F' :
  hst s -> vars_ok F' -> fun_ok (with_nactvar 0 F') [] -> upvaldescs F' = upvaldescs (fs s) -> bl F' = [] -> freereg F' = 0 ->
  hst (set_fs F' s).
Proof using.
  intros [] Hv Hf Hu Hb Hr. split; [split; apply hs_lok0|exact hs_todo0|exact hs_depth0|exact hs_prev0| |exact Hv|exact Hf|exact Hb|exact Hr].
  eapply chain_head; [exact Hu|exact hs_chain0].
Qed.

Lemma vars_ok_none F : vars_ok F -> vars_ok (with_nactvar 0 F).
Proof using. intros [V1 V2 V3 V4 V5 V6 V7]. split; try done. cbn. lia. Qed.

Lemma new_param_run name n s :
  hst s -> 0 <= n -> declared (fs s) n ->
  run (new_localvar name n) s (fun _ s' => hst s' /\ declared (fs s') (n + 1) /\ prev s' = prev s /\ ls s' = ls s).
Proof using HL.
  intros Hh Hn Hd. pose proof (hs_vars _ Hh) as Hv. pose proof (vo_nactvar _ Hv).
  eapply run_mono; [apply (new_localvar_raw name n s (hs_lok _ Hh) Hv Hn)|]. cbv beta. intros _ s' (v & -> & Hlt & Hnl).
  pose proof (vars_ok_with_var n v (fs s) Hv Hn Hlt Hnl) as Hv'.
  split; [|split; [by apply (declared_with_var n v (fs s))|done]].
  apply hst_fs; [done|exact Hv'| |done|apply Hh|apply Hh]. apply vars_ok_none in Hv'.
  apply (with_vars_fun_ok 0 (setZ (actvar (fs s)) (nactvar (fs s) + n) (Some (nlocvars (fs s)))) (locvars (f (fs s)) ++ [v]) (with_nactvar 0 (fs s)));
    [apply Hh|exact Hv'|cbn; by rewrite (hs_freereg _ Hh)|cbn; by rewrite (hs_bl _ Hh)].
Qed.

Lemma adjust_params_run n s :
  hst s -> 0 <= n -> declared (fs s) n ->
  run (adjustlocalvars n) s (fun _ s' => hst s' /\ nactvar (fs s') = nactvar (fs s) + n /\ prev s' = prev s /\ ls s' = ls s).
Proof using.
  intros Hh Hn Hd. pose proof (hs_vars _ Hh) as Hv. eapply run_mono; [by apply adjustlocalvars_raw|].
  cbv beta. intros _ s' (l & -> & Hl). pose proof (vars_ok_scoped n l (fs s) Hv Hn Hd Hl) as Hv'.
  split; [|done]. apply hst_fs; [done|exact Hv'| |done|apply Hh|apply Hh]. apply vars_ok_none in Hv'.
  apply (with_vars_fun_ok 0 (actvar (fs s)) l (with_nactvar 0 (fs s)));
    [apply Hh|exact Hv'|cbn; by rewrite (hs_freereg _ Hh)|cbn; by rewrite (hs_bl _ Hh)].
Qed.

(** Parts of a prototype that the invariant does not see *)
Definition header (n v l1 l2 : Z) (F : FuncState) : FuncState := with_f (with_params n v (with_lines l1 l2 (f F))) F.

Lemma header_ok n v l1 l2 F R : ok F R -> ok (header n v l1 l2 F) R.
Proof using.
  intros []. split; try done; [|by destruct fi_vars]. eapply words_ok_mono; [..|exact fi_words]; try done. exact (k_refl (f F)).
Qed.

Lemma header_fun_ok n v l1 l2 F R : fun_ok F R -> fun_ok (header n v l1 l2 F) R.
Proof using. intros [Hi Hu Hp]. split; [by apply header_ok|done|done]. Qed.

Lemma header_eext n v l1 l2 F : eext F (header n v l1 l2 F).
Proof using. split; try done. split; [done|done|]. split; try done. exists []. by rewrite app_nil_r. Qed.

Lemma header_pst n v l1 l2 s R : pst s R -> pst (set_fs (header n v l1 l2 (fs s)) s) R.
Proof using. intros Hp. eapply pst_fs; [exact Hp| |done]. apply header_fun_ok, Hp. Qed.

Lemma header_hst n v l1 l2 s : hst s -> hst (set_fs (header n v l1 l2 (fs s)) s).
Proof using.
  intros Hh. apply hst_fs; [done| | |done|apply Hh|apply Hh].
  - pose proof (hs_vars _ Hh) as Hv. by destruct Hv.
  - apply (header_fun_ok n v l1 l2 (with_nactvar 0 (fs s))), Hh.
Qed.

Lemma set_is_vararg_header v F :
  with_f (with_params (numparams (f F)) v (f F)) F = header (numparams (f F)) v (linedefined (f F)) (lastlinedefined (f F)) F.
Proof using. done. Qed.

Lemma params_hst n v s : hst s -> hst (set_fs (with_f (with_params n v (f (fs s))) (fs s)) s).
Proof using. exact (header_hst n v (linedefined (f (fs s))) (lastlinedefined (f (fs s))) s). Qed.

Lemma lines_hst l1 l2 s : hst s -> hst (set_fs (with_f (with_lines l1 l2 (f (fs s))) (fs s)) s).
Proof using. exact (header_hst (numparams (f (fs s))) (is_vararg (f (fs s))) l1 l2 s). Qed.

Lemma lines_pst l1 l2 s R : pst s R -> pst (set_fs (with_f (with_lines l1 l2 (f (fs s))) (fs s)) s) R.
Proof using. exact (header_pst (numparams (f (fs s))) (is_vararg (f (fs s))) l1 l2 s R). Qed.

Lemma params_pst n v s R : pst s R -> pst (set_fs (with_f (with_params n v (f (fs s))) (fs s)) s) R.
Proof using. exact (header_pst n v (linedefined (f (fs s))) (lastlinedefined (f (fs s))) s R). Qed.

Lemma params_eext n v F : eext F (with_f (with_params n v (f F)) F).
Proof using. exact (header_eext n v (linedefined (f F)) (lastlinedefined (f F)) F). Qed.

(** What reading parameters keeps *)
Definition hstep s s' : Prop := prev s' = prev s /\ (todo s' <= todo s)%nat.

Lemma parameter_run n s :
  hst s -> 0 <= n -> declared (fs s) n ->
  run (parameter n) s (fun n' s' => hst s' /\ n' = n + 1 /\ declared (fs s') n' /\ hstep s s' /\ (todo s' < todo s)%nat).
Proof using HL.
  intros Hh Hn Hd. unfold parameter. apply run_gets. destruct (Z.eqb_spec (token (t (ls s))) TK_NAME) as [E|E].
  { eapply run_bind; [apply str_checkname_run, Hh|]. cbv beta. intros name s1 Hu.
    eapply run_bind; [apply (new_param_run name n s1 (hst_tstep _ _ Hh (proj1 Hu)) Hn); by rewrite (ts_fs _ _ (proj1 Hu))|].
    cbv beta. intros _ s2 (Hh2 & Hd2 & Hpr2 & Hl2). apply run_ret.
    assert (todo s2 = todo s1) by (unfold todo; by rewrite Hl2). pose proof (ts_prev _ _ (proj1 Hu)).
    split; [done|]. split; [done|]. split; [done|]. split; [split; [congruence|]|]; nums. }
  destruct (Z.eqb_spec (token (t (ls s))) TK_DOTS) as [E2|E2]; [|apply syntaxerror_run, Hh].
  eapply run_bind; [apply next_used; [by rewrite E2|apply Hh]|]. cbv beta. intros _ s1 Hu.
  eapply run_bind; [apply (new_param_run (str "arg") n s1 (hst_tstep _ _ Hh (proj1 Hu)) Hn); by rewrite (ts_fs _ _ (proj1 Hu))|].
  cbv beta. intros _ s2 (Hh2 & Hd2 & Hpr2 & Hl2). apply run_modify_bind, run_gets, run_modify_bind, run_ret.
  assert (todo s2 = todo s1) by (unfold todo; by rewrite Hl2). pose proof (ts_prev _ _ (proj1 Hu)).
  split; [by apply params_hst, params_hst|]. split; [done|]. split; [exact Hd2|].
  split; [split; [cbn; congruence|change (todo s2 <= todo s)%nat; nums]|change (todo s2 < todo s)%nat; nums].
Qed.

Lemma parlist_loop_run fuel n s :
  (todo s < fuel)%nat -> hst s -> 0 <= n -> declared (fs s) n ->
  run (parlist_loop fuel n) s (fun n' s' => hst s' /\ 0 <= n' /\ declared (fs s') n' /\ hstep s s').
Proof using HL.
  revert n s. induction fuel as [|fuel IH]; intros n s Hf Hh Hn Hd; [lia|]. cbn [parlist_loop].
  eapply run_bind; [by apply parameter_run|]. cbv beta. intros n' s1 (Hh1 & -> & Hd1 & [Hpr Ht] & Hlt). apply run_gets.
  destruct (_ =? _); [|apply run_ret; split; [done|]; split; [lia|]; by split].
  eapply run_bind; [apply testnext_run; [done|apply Hh1]|]. cbv beta. intros [] s2 Hs2.
  - eapply run_mono; [apply IH; [nums|exact (hst_tstep _ _ Hh1 (proj1 Hs2))|lia|by rewrite (ts_fs _ _ (proj1 Hs2))]|].
    cbv beta. intros n' s3 (Hh3 & Hn3 & Hd3 & [Hpr3 Ht3]). pose proof (ts_prev _ _ (proj1 Hs2)).
    split; [done|]. split; [done|]. split; [done|]. split; [congruence|nums].
  - subst s2. apply run_ret. split; [done|]. split; [lia|]. by split.
Qed.

(** Registers catch up with the variables. *)
Lemma catch_up ms F n0 m r R :
  finv ms (with_nactvar n0 F) R -> vars_ok F -> blocks_ok (nactvar F) (bl F) -> nactvar F <= r <= m -> ms <= m < MAXSTACK ->
  ok (grown m r F) R.
Proof using.
  intros [] Hv Hb Hr Hm. split; try done; cbn in *; try lia; [|by destruct Hv].
  eapply words_ok_mono; [..|exact fi_words]; try done; [cbn; lia|exact (k_refl (f F))].
Qed.

Lemma parlist_run s :
  hst s -> run parlist s (fun _ s' => pst s' [] /\ bl (fs s') = [] /\ hstep s s').
Proof using HL.
  intros Hh. unfold parlist. apply run_modify_bind. set (s1 := set_fs _ s).
  assert (Hh1 : hst s1) by (by apply params_hst). apply run_gets. apply token_rounds_run. intros fuel Hfuel.
  apply (run_bind _ _ _ (fun n' s' => hst s' /\ 0 <= n' /\ declared (fs s') n' /\ hstep s1 s')).
  { destruct (negb _); [apply (parlist_loop_run fuel 0 s1 Hfuel Hh1); [done|apply declared_0, Hh1]|].
    apply run_ret. split; [done|]. split; [done|]. split; [apply declared_0, Hh1|done]. }
  cbv beta. intros n s2 (Hh2 & Hn2 & Hd2 & Hs2).
  eapply run_bind; [by apply adjust_params_run|]. cbv beta. intros _ s3 (Hh3 & Hn3 & Hpr3 & Hl3).
  apply run_modify_bind. set (s4 := set_fs _ s3). assert (Hh4 : hst s4) by (by apply params_hst).
  apply run_gets. pose proof (hs_vars _ Hh4) as Hv4. pose proof (vo_nactvar _ Hv4) as Hna. pose proof (fo_ok _ _ (hs_fun _ Hh4)) as Hi4.
  assert (Hms : 2 <= maxstacksize (f (fs s4)) < MAXSTACK) by (apply (fi_stack _ _ _ Hi4)).
  assert (E : s4 = set_fs (fs s4) s4) by (by destruct s4). unfold run. rewrite E.
  eapply post_mono; [apply (reserve_exact s4 (lk_wf _ (hs_lok _ Hh4)) (fs s4) (nactvar (fs s4))); [lia|lia|by rewrite (hs_freereg _ Hh4)]|].
  intros [[] s5] (F' & -> & -> & Hlt). change (nactvar (fs (set_fs (fs s4) s4))) with (nactvar (fs s4)) in *.
  rewrite (hs_freereg _ Hh4) in *. rewrite Z.add_0_l in *.
  split; [|split; [apply Hh4|]].
  - destruct Hh4. split; [apply hs_lok0|apply hs_lok0| |exact hs_prev0| |exact hs_depth0|exact hs_todo0].
    + split; [|unfold ups_ok; match goal with |- Forall _ ?l => replace l with (@nil BlockCnt) by (symmetry; exact hs_bl0) end; constructor|apply (fo_protos _ _ hs_fun0)].
      apply (catch_up (maxstacksize (f (fs s4))) (fs s4) 0); [exact Hi4|exact Hv4|by rewrite hs_bl0|lia|lia].
    + eapply chain_head; [|exact hs_chain0]. done.
  - destruct Hs2 as [Hpr2 Ht2]. split.
    + change (prev s3 = prev s). rewrite Hpr3, Hpr2. done.
    + change (todo s3 <= todo s)%nat. unfold todo. rewrite Hl3. exact Ht2.
Qed.

(** *** Bodies *)

Lemma new_func_ok src : fun_ok (new_func src) [].
Proof using.
  assert (Hv : vars_ok (new_func src)).
  { split; try done. cbn. lia. }
  split; [|constructor|done]. split; try done.
  - exists [(NO_JUMP, [])]. split; [done|]. split; [by apply list.Forall_singleton|by apply list.NoDup_nil|].
    intros q i Hi. apply getZ_Some in Hi. unfold lenZ in Hi. cbn in Hi. lia.
  - intros q i Hi. apply getZ_Some in Hi. unfold lenZ in Hi. cbn in Hi. lia.
Qed.

Lemma new_func_hst s R :
  pst s R -> hst (mkCompState (ls s) (new_func (Lex.source (ls s))) (fs s :: prev s) (nCcalls s)).
Proof using.
  intros Hp. pose proof (pst_lok _ _ _ Hp) as [H1 H2 H3]. destruct Hp. pose proof (new_func_ok (Lex.source (ls s))) as Hf.
  split; [split; [exact H1|exact H2|exact H3]|exact ps_todo|exact ps_depth|constructor; [by exists R|exact ps_prev]|split; [constructor|exact ps_chain]| |exact Hf|done|done].
  apply (fi_vars _ _ _ (fo_ok _ _ Hf)).
Qed.

Lemma body_run needself line s R :
  pst s R -> run (body chunk needself line) s (fun e s' => pexp s' R (freereg (fs s)) e /\ estep s s' /\ (todo s' < todo s)%nat /\ ek e = VRELOCABLE).
Proof using HL Hchunk.
  intros Hp. unfold body. apply run_modify_bind. set (s1 := mkCompState _ _ _ _).
  assert (Hh1 : hst s1) by exact (new_func_hst s R Hp). apply run_modify_bind. set (s2 := set_fs _ s1).
  assert (Hh2 : hst s2) by exact (lines_hst _ _ s1 Hh1).
  eapply run_bind; [apply checknext_run; [by split|done|apply Hh2]|]. cbv beta. intros _ s3 Hu3. pose proof (hst_tstep _ _ Hh2 (proj1 Hu3)) as Hh3.
  assert (Hlt3 : (todo s3 < todo s)%nat) by exact (proj1 (proj2 Hu3)).
  assert (Hpr3 : prev s3 = fs s :: prev s) by exact (ts_prev _ _ (proj1 Hu3)).
  apply (run_bind _ _ _ (fun _ s4 => hst s4 /\ prev s4 = prev s3 /\ (todo s4 <= todo s3)%nat)).
  { destruct needself; [|by apply run_ret]. eapply run_bind; [apply (new_param_run (str "self") 0 s3 Hh3); [done|apply declared_0, Hh3]|].
    cbv beta. intros _ s4 (Hh4 & Hd4 & Hpr4 & Hl4). eapply run_mono; [by apply (adjust_params_run 1 s4)|].
    cbv beta. intros _ s5 (Hh5 & _ & Hpr5 & Hl5). split; [done|]. split; [congruence|]. unfold todo. by rewrite Hl5, Hl4. }
  cbv beta. intros _ s4 (Hh4 & Hpr4 & Ht4).
  eapply run_bind; [by apply parlist_run|]. cbv beta. intros _ s5 (Hp5 & Hb5 & Hpr5 & Ht5).
  eapply run_bind; [apply checknext_run; [by split|done|lk]|]. cbv beta. intros _ s6 Hu6. tk Hp5.
  eapply run_bind; [by apply Hchunk|]. cbv beta. intros _ s7 (Hp7 & Hs7). apply run_gets, run_modify_bind. set (s8 := set_fs _ s7).
  assert (Hp8 : pst s8 []) by exact (lines_pst _ _ s7 [] Hp7).
  eapply run_bind; [apply check_match_run; [by split|by split|done|lk]|]. cbv beta. intros _ s9 Hu9. tk Hp8.
  assert (Hb9 : bl (fs s9) = []).
  { rewrite (ts_fs _ _ (proj1 Hu9)). change (bl (fs s7) = []). pose proof (fx_bl _ _ (ss_fext _ _ Hs7)) as Hb.
    rewrite (ts_fs _ _ (proj1 Hu6)), Hb5 in Hb. by apply list.Forall2_nil_inv_l in Hb. }
  assert (Ho : Forall2 oext (fs s :: prev s) (prev s9)).
  { rewrite (ts_prev _ _ (proj1 Hu9)). change (Forall2 oext (fs s :: prev s) (prev s7)).
    rewrite <- Hpr3, <- Hpr4, <- Hpr5, <- (ts_prev _ _ (proj1 Hu6)). apply Hs7. }
  destruct (list.Forall2_cons_inv_l _ _ _ _ Ho) as (G & Gs & HG & HGs & Hpr9).
  assert (Ht9 : (todo s9 <= todo s3)%nat).
  { assert (todo s8 = todo s7) by done. nums. }
  eapply run_bind; [by apply (close_func_run s9 G Gs)|]. cbv beta. intros F s10 (Hg & Hcap & _ & ->).
  assert (Hp10 : pst (mkCompState (ls s9) G Gs N) R) by (apply (resume_pst s9 G Gs R); [done|done|apply HG, Hp]).
  eapply run_mono; [by apply (pushclosure_run F _ R)|]. cbv beta. intros e s11 (He & Hs11 & Hl11 & Ek).
  cbn [fs] in He. rewrite (ox_freereg _ _ HG) in He.
  assert (Hs10 : estep s (mkCompState (ls s9) G Gs N)).
  { split; [change (todo s9 <= todo s)%nat; lia|exact HGs|apply HG]. }
  split; [exact He|]. split; [steps|]. split; [|exact Ek]. unfold todo in *. rewrite Hl11. change (todo s9 < todo s)%nat. unfold todo. lia.
Qed.

(** *** Calls *)

(** Arguments: none, as many as there are, or the last one on the top *)
Definition args_ok s (R : list Z) (b : Z) (args : expdesc) : Prop :=
  ((ek args = VVOID \/ hasmultret (ek args) = true) /\ pst s R /\ b <= freereg (fs s)) \/
  (hasmultret (ek args) = false /\ exists r, b <= r /\ pexp s R r args).

Lemma pexp_not_void s R r e : pexp s R r e -> ek e <> VVOID.
Proof using. intros He Ek. pose proof (px_exp _ _ _ _ _ He) as Hx. unfold exp_ok in Hx. by rewrite Ek in Hx. Qed.

Lemma call_args_run line s R :
  pst s R -> run (call_args subexpr line) s (fun args s' => args_ok s' R (freereg (fs s)) args /\ estep s s' /\ (todo s' < todo s)%nat).
Proof using HL Hsub.
  intros Hp. unfold call_args. apply run_gets. destruct (Z.eqb_spec (token (t (ls s))) (ch "(")) as [E|E].
  - apply run_gets. apply (run_bind _ _ _ (fun _ s' => s' = s)).
    { destruct (negb _); [apply syntaxerror_run; lk|by apply run_ret]. }
    cbv beta. intros _ s0 ->. eapply run_bind; [apply next_used; [by rewrite E|lk]|]. cbv beta. intros _ s1 Hu1. tk Hp. apply run_gets.
    apply (run_bind _ _ _ (fun args s' => args_ok s' R (freereg (fs s1)) args /\ estep s1 s' /\ lok s')).
    { destruct (_ =? _).
      - apply run_ret. split; [|split; [reflexivity|lk]]. left. split; [by left|]. split; [done|lia].
      - eapply run_bind; [by apply explist1_run|]. cbv beta. intros [n args] s2 (Hn & He & Hs2 & Hlt).
        destruct (hasmultret (ek args)) eqn:Hm.
        + eapply run_bind; [by apply (setmultret_run N s2 R (freereg (fs s1) + n - 1))|]. cbv beta. intros _ s3 (Hp3 & Hc3 & Hf3 & _).
          apply run_ret. split; [|split; [steps|lk]]. left. split; [by right|]. split; [done|lia].
        + unfold luaK_setmultret, luaK_setreturns. unfold hasmultret in Hm. apply orb_false_iff in Hm as [Hm1 Hm2]. rewrite Hm1, Hm2.
          apply run_ret_bind, run_ret. split; [|split; [done|lk]]. right. split; [unfold hasmultret; by rewrite Hm1, Hm2|].
          exists (freereg (fs s1) + n - 1). split; [lia|done]. }
    cbv beta. intros args s2 (Ha & Hs2 & Hl2).
    eapply run_bind; [apply check_match_run; [by split|by split|done|done]|]. cbv beta. intros _ s3 Hu3. apply run_ret.
    split; [|split; [steps|nums]]. replace (freereg (fs s)) with (freereg (fs s1)) by nums.
    destruct Ha as [(H1 & H2 & H3)|(H1 & r & H2 & H3)]; [left|right].
    + split; [done|]. split; [exact (pst_tstep _ _ _ _ H2 (proj1 Hu3))|by rewrite (ts_fs _ _ (proj1 Hu3))].
    + split; [done|]. exists r. split; [done|exact (pexp_tstep _ _ _ _ _ H3 (proj1 Hu3))].
  - destruct (Z.eqb_spec (token (t (ls s))) (ch "{")) as [E2|E2].
    + eapply run_mono; [by apply constructor_run|]. cbv beta. intros e s1 (He & Hs1 & Hlt & Ek). split; [|by split].
      right. rewrite Ek. split; [done|]. exists (freereg (fs s)). split; [lia|done].
    + destruct (Z.eqb_spec (token (t (ls s))) TK_STRING) as [E3|E3]; [|apply syntaxerror_run; lk].
      eapply run_bind; [apply tok_string_run; [by right|lk]|]. cbv beta. intros ts s0 ->.
      eapply run_bind; [by apply codestring_run|]. cbv beta. intros e s1 (Ek & Hp1 & Hc1 & Hf1 & Hi & _).
      eapply run_bind; [apply next_used; [by rewrite (cstep_ls _ _ Hc1), E3|lk]|]. cbv beta. intros _ s2 Hu2. tk Hp1. apply run_ret.
      split; [|split; [steps|nums]]. right. split; [by rewrite Ek|]. exists (freereg (fs s2)). split; [nums|].
      apply constant_pexp; [done|done|nums].
Qed.

Lemma funcargs_run v r s R :
  pst s R -> settled_in r v -> nactvar (fs s) <= r -> r + 1 <= freereg (fs s) ->
  run (funcargs subexpr v) s (fun e s' => pexp s' R r e /\ estep s s' /\ (todo s' < todo s)%nat).
Proof using HL Hsub.
  intros Hp (_ & Ei & _) Hn Hf. unfold funcargs. apply run_gets. assert (Hr0 : 0 <= r) by nums.
  eapply run_bind; [by apply call_args_run|]. cbv beta. intros args s1 (Ha & Hs1 & Hlt1). rewrite Ei.
  apply (run_bind _ _ _ (fun n s2 => pst s2 R /\ cstep s1 s2 /\ r + 1 <= freereg (fs s2) /\ -1 <= n <= freereg (fs s2) - (r + 1))).
  { destruct Ha as [([Ek|Hm] & Hp1 & Hf1)|(Hm & r1 & Hr1 & He)].
    - rewrite Ek. cbn. apply run_gets, run_ret. split; [done|]. split; [reflexivity|]. lia.
    - rewrite Hm. apply run_ret. split; [done|]. split; [reflexivity|]. unfold LUA_MULTRET. lia.
    - rewrite Hm. rewrite bool_decide_eq_false_2 by exact (pexp_not_void _ _ _ _ He). cbn [negb]. apply run_group.
      eapply run_bind; [by apply (exp2nextreg_run N s1 R r1)|]. cbv beta. intros _ s2 (Hp2 & Hc2 & Hf2 & _). apply run_ret_bind, run_gets, run_ret.
      split; [done|]. split; [done|]. lia. }
  cbv beta. intros n s2 (Hp2 & Hc2 & Hf2 & Hr). pose proof (pst_regs _ _ _ Hp2).
  eapply run_bind; [apply (code_run N OP_CALL r (n + 1) 2 s2 R Hp2); try done; [lia|maxargs; lia|]|].
  { intros bx. split; try done; try (by intros [|]). cbn [regs_of]. constructor; [lia|]. apply list.Forall_app. split.
    - destruct (n + 1 =? 0) eqn:E; constructor; [bool_facts; lia|constructor].
    - cbn. constructor; [lia|constructor]. }
  cbv beta. intros i s3 (Hp3 & Hc3 & Hf3 & _ & Hpc & Hg).
  eapply run_bind.
  { apply (run_gen N _ s3 R (fun _ => R) (fun _ F' => freereg F' = freereg (fs s3) /\ code (f F') = code (f (fs s3))) Hp3).
    exact (fixline_spec s3 (fs s3) R _ (pst_ok _ _ _ Hp3) Hpc). }
  cbv beta. intros _ s4 (Hp4 & Hc4 & Hf4 & Hco4). eapply (set_freereg_run (r + 1)); [exact Hp4|nums|].
  intros s5 Hp5 Hc5 Hf5 Hco5. apply run_ret. split; [|split; [steps|nums]].
  apply init_pexp; [exact Hp5|done| |nums]. unfold exp_ok. cbn. split; [|split; [nums|done]].
  exists (CREATE_ABC OP_CALL r (n + 1) 2). rewrite Hco5, Hco4. split; [done|].
  destruct (get_CREATE_ABC OP_CALL r (n + 1) 2) as (-> & -> & _); [maxargs; lia|maxargs; lia|maxargs; lia|]. by rewrite op_of_num.
Qed.

(** *** Primary expressions *)

Lemma prefixexp_run s R :
  pst s R -> run (prefixexp subexpr) s (fun e s' => pexp s' R (freereg (fs s)) e /\ estep s s' /\ (todo s' < todo s)%nat).
Proof using HL Hsub.
  intros Hp. unfold prefixexp. apply run_gets. destruct (Z.eqb_spec (token (t (ls s))) (ch "(")) as [E|E].
  - apply run_gets. eapply run_bind; [apply next_used; [by rewrite E|lk]|]. cbv beta. intros _ s1 Hu1. tk Hp.
    eapply run_bind; [by apply expr_run|]. cbv beta. intros v s2 (Hv & Hs2 & Hlt2).
    eapply run_bind; [apply check_match_run; [by split|by split|done|lk]|]. cbv beta. intros _ s3 Hu3.
    pose proof (pexp_tstep _ _ _ _ _ Hv (proj1 Hu3)) as Hv3.
    eapply run_mono; [by apply (dischargevars_run N s3 R (freereg (fs s1)))|]. cbv beta. intros e s4 (He & Hc4).
    split; [|split; [steps|nums]]. by replace (freereg (fs s)) with (freereg (fs s1)) by nums.
  - destruct (Z.eqb_spec (token (t (ls s))) TK_NAME) as [E2|E2]; [|apply syntaxerror_run; lk].
    eapply run_mono; [by apply singlevar_run|]. cbv beta. intros e s1 (He & Hs1 & Hf1 & _ & Hlt).
    split; [|by split]. by rewrite <- Hf1.
Qed.

Lemma suffix_run v r s R :
  pexp s R r v ->
  run (suffix subexpr v) s (fun w s' => match w with
    | Some e => pexp s' R r e /\ estep s s' /\ (todo s' < todo s)%nat
    | None => s' = s
    end).
Proof using HL Hsub.
  intros Hv. unfold suffix. apply run_gets. destruct (Z.eqb_spec (token (t (ls s))) (ch ".")) as [E|E].
  { eapply run_bind; [apply (field_run s R r v Hv); by rewrite E|]. cbv beta. intros e s1 (He & Hs1 & _ & Hlt). by apply run_ret. }
  destruct (Z.eqb_spec (token (t (ls s))) (ch "[")) as [E2|E2].
  { eapply run_bind; [by apply (exp2anyreg_run N s R r)|]. cbv beta. intros v1 s1 (Hp1 & Hc1 & (_ & _ & E3 & E4) & Htmp).
    eapply run_bind; [apply yindex_run; [done|by rewrite (cstep_ls _ _ Hc1), E2]|]. cbv beta. intros key s2 (Hk & Hs2 & Hlt2).
    eapply run_bind; [apply (indexed_run N s2 R r (freereg (fs s1)) v1 key);
      [by apply (temp_estep s1)|nums|exact E3|exact E4|exact Hk]|].
    cbv beta. intros e s3 (He & Hc3 & _). apply run_ret. split; [done|]. split; [steps|nums]. }
  destruct (Z.eqb_spec (token (t (ls s))) (ch ":")) as [E3|E3].
  { eapply run_bind; [apply next_used; [by rewrite E3|lk]|]. cbv beta. intros _ s1 Hu1. pose proof (pexp_tstep _ _ _ _ _ Hv (proj1 Hu1)) as Hv1.
    eapply run_bind; [exact (checkname_run s1 _ (px_pst _ _ _ _ _ Hv1))|]. cbv beta. intros key s2 (Ek & Hp2 & Hs2 & Hf2 & Hi & Hlt2 & Hc2 & Hco).
    pose proof (pexp_const N s1 s2 R r v Hv1 Hp2 Hc2 Hco Hf2) as Hv2.
    eapply run_bind; [by apply (self_run N s2 R r v key)|]. cbv beta. intros v3 s3 (Hp3 & Hc3 & Hs & Hf3).
    eapply run_bind; [apply (funcargs_run v3 r s3 R Hp3 Hs); [nums|lia]|]. cbv beta. intros e s4 (He & Hs4 & Hlt4).
    apply run_ret. split; [done|]. split; [steps|nums]. }
  destruct (_ || _); [|by apply run_ret].
  eapply run_bind; [by apply (exp2nextreg_run N s R r)|]. cbv beta. intros v1 s1 (Hp1 & Hc1 & Hf1 & Hs).
  eapply run_bind; [apply (funcargs_run v1 r s1 R Hp1 Hs); [nums|lia]|]. cbv beta. intros e s2 (He & Hs2 & Hlt2).
  apply run_ret. split; [done|]. split; [steps|nums].
Qed.

Lemma primary_loop_run fuel v r s R :
  (todo s < fuel)%nat -> pexp s R r v -> run (primary_loop subexpr fuel v) s (fun e s' => pexp s' R r e /\ estep s s').
Proof using HL Hsub.
  revert v s. induction fuel as [|fuel IH]; intros v s Hf Hv; [lia|]. cbn [primary_loop].
  eapply run_bind; [by apply (suffix_run v r s R)|]. cbv beta. intros [e|] s1 Hs1.
  - destruct Hs1 as (He & Hs1 & Hlt). eapply run_mono; [apply IH; [lia|done]|]. cbv beta. intros e' s2 (He' & Hs2). split; [done|steps].
  - subst s1. apply run_ret. split; [done|reflexivity].
Qed.

Lemma primaryexp_run s R :
  pst s R -> run (primaryexp subexpr) s (fun e s' => pexp s' R (freereg (fs s)) e /\ estep s s' /\ (todo s' < todo s)%nat).
Proof using HL Hsub.
  intros Hp. unfold primaryexp. eapply run_bind; [by apply prefixexp_run|]. cbv beta. intros v s1 (Hv & Hs1 & Hlt).
  apply token_rounds_run. intros fuel Hfuel. eapply run_mono; [by apply (primary_loop_run fuel v (freereg (fs s)) s1 R)|].
  cbv beta. intros e s2 (He & Hs2). split; [done|]. split; [steps|nums].
Qed.

(** *** Simple expressions and operators *)

(** A constant that needs no register *)
Lemma literal_run k i s R :
  pst s R -> token (t (ls s)) <> TK_EOS -> (forall F r, exp_ok F r (init_exp k i) r) -> k <> VJMP ->
  run (next_token;; mret (init_exp k i)) s (fun e s' => pexp s' R (freereg (fs s)) e /\ estep s s' /\ (todo s' < todo s)%nat).
Proof using HL.
  intros Hp Ht He Hk. eapply run_bind; [by apply next_used; [|lk]|]. cbv beta. intros _ s1 Hu. tk Hp. apply run_ret.
  split; [|split; [steps|nums]]. replace (freereg (fs s)) with (freereg (fs s1)) by nums. apply init_pexp; [done|done|apply He|nums].
Qed.

Lemma pexp_nval x s R r e : pexp s R r e -> pexp s R r (set_nval x e).
Proof using. intros [H1 H2 H3 H4]. split; [exact H1|exact H2|exact H3|exact H4]. Qed.

Lemma vararg_pexp i s R : pst s R -> op_at (code (f (fs s))) i = Some OP_VARARG -> pexp s R (freereg (fs s)) (init_exp VVARARG i).
Proof using. intros Hp Ho. apply init_pexp; [done|done|by unfold exp_ok|nums]. Qed.

Lemma dots_run s R :
  pst s R -> token (t (ls s)) = TK_DOTS ->
  run (v ← get_fs (fun F => is_vararg (f F));
       (if v =? 0 then syntaxerror (str "cannot use '...' outside a vararg function") else mret tt);;
       set_is_vararg (Z.land v (Z.lnot VARARG_NEEDSARG));;
       i ← luaK_codeABC OP_VARARG 0 1 0; next_token;; mret (init_exp VVARARG i)) s
    (fun e s' => pexp s' R (freereg (fs s)) e /\ estep s s' /\ (todo s' < todo s)%nat).
Proof using HL.
  intros Hp Ht. apply run_gets. apply (run_bind _ _ _ (fun _ s' => s' = s)).
  { destruct (_ =? _); [apply syntaxerror_run; lk|by apply run_ret]. }
  cbv beta. intros _ s0 ->. apply run_modify_bind. set (s1 := set_fs _ s).
  assert (Hp1 : pst s1 R) by (by apply params_pst). assert (Hs1 : estep s s1) by apply estep_fs, params_eext.
  eapply run_bind; [apply (code_run N OP_VARARG 0 1 0 s1 R Hp1); try done; [nums|intros bx; fits_tac; nums]|].
  cbv beta. intros i s2 (Hp2 & Hc2 & Hf2 & _ & _ & Hg).
  eapply run_bind; [apply next_used; [rewrite (cstep_ls _ _ Hc2); change (ls s1) with (ls s); by rewrite Ht|lk]|].
  cbv beta. intros _ s3 Hu. tk Hp2. apply run_ret. split; [|split; [steps|nums]].
  replace (freereg (fs s)) with (freereg (fs s3)); [apply vararg_pexp; [done|]|].
  - rewrite (ts_fs _ _ (proj1 Hu)). by rewrite (op_at_Some _ _ _ Hg).
  - rewrite (ts_fs _ _ (proj1 Hu)). exact Hf2.
Qed.

Lemma simpleexp_run s R :
  pst s R -> run (simpleexp subexpr chunk) s (fun e s' => pexp s' R (freereg (fs s)) e /\ estep s s' /\ (todo s' < todo s)%nat).
Proof using HL Hsub Hchunk.
  intros Hp. unfold simpleexp. apply run_gets. set (k := token (t (ls s))).
  destruct (Z.eqb_spec k TK_NUMBER) as [E|_].
  { eapply run_bind; [apply tok_number_run; [done|lk]|]. cbv beta. intros x s0 ->.
    eapply run_bind; [apply next_used; [by fold k; rewrite E|lk]|]. cbv beta. intros _ s1 Hu. tk Hp. apply run_ret.
    split; [|split; [steps|nums]]. replace (freereg (fs s)) with (freereg (fs s1)) by nums.
    apply pexp_nval, init_pexp; [done|done|by unfold exp_ok|nums]. }
  destruct (Z.eqb_spec k TK_STRING) as [E|_].
  { eapply run_bind; [apply tok_string_run; [by right|lk]|]. cbv beta. intros x s0 ->.
    eapply run_bind; [by apply codestring_run|]. cbv beta. intros e s1 (Ek & Hp1 & Hc1 & Hf1 & Hi & _).
    eapply run_bind; [apply next_used; [rewrite (cstep_ls _ _ Hc1); by fold k; rewrite E|lk]|]. cbv beta. intros _ s2 Hu. tk Hp1. apply run_ret.
    split; [|split; [steps|nums]]. replace (freereg (fs s)) with (freereg (fs s2)) by nums. apply constant_pexp; [done|done|nums]. }
  destruct (Z.eqb_spec k TK_NIL) as [E|_]; [apply literal_run; [done|by fold k; rewrite E|done..]|].
  destruct (Z.eqb_spec k TK_TRUE) as [E|_]; [apply literal_run; [done|by fold k; rewrite E|done..]|].
  destruct (Z.eqb_spec k TK_FALSE) as [E|_]; [apply literal_run; [done|by fold k; rewrite E|done..]|].
  destruct (Z.eqb_spec k TK_DOTS) as [E|_]; [by apply dots_run|].
  destruct (Z.eqb_spec k (ch "{")) as [E|_].
  { eapply run_mono; [by apply constructor_run|]. cbv beta. intros e s1 (? & ? & ? & _). by split. }
  destruct (Z.eqb_spec k TK_FUNCTION) as [E|_]; [|by apply primaryexp_run].
  eapply run_bind; [apply next_used; [by fold k; rewrite E|lk]|]. cbv beta. intros _ s1 Hu. tk Hp. apply run_gets.
  eapply run_mono; [by apply body_run|]. cbv beta. intros e s2 (He & Hs2 & Hlt & _).
  split; [|split; [steps|nums]]. by replace (freereg (fs s)) with (freereg (fs s1)) by nums.
Qed.

Lemma rk_exp_estep s s' r x e r' : estep s s' -> rk_exp (fs s) r x e r' -> rk_exp (fs s') r x e r'.
Proof using.
  intros Hs (E1 & E2 & H). split; [done|]. split; [done|].
  destruct H as [(? & ? & ? & ? & ?)|(? & ? & ?)]; [left; conj; nums|right; conj; by apply (temp_estep s)].
Qed.

Lemma infixed_estep o s s' r e r' : estep s s' -> infixed o (fs s) r e r' -> infixed o (fs s') r e r'.
Proof using.
  intros Hs. unfold infixed, operand. destruct o; try done; try (intros [x Hx]; exists x; by apply (rk_exp_estep s));
    (intros [[x Hx]|Hx]; [left; exists x; by apply (rk_exp_estep s)|by right]).
Qed.

Lemma binop_loop_run fuel limit o v r s R :
  (todo s < fuel)%nat -> pexp s R r v ->
  run (binop_loop subexpr fuel limit o v) s (fun '(e, _) s' => pexp s' R r e /\ estep s s').
Proof using HL Hsub.
  revert o v s. induction fuel as [|fuel IH]; intros o v s Hf Hv; [lia|]. cbn [binop_loop].
  case_bool_decide as Ho; cbn [negb andb]; [apply run_ret; split; [done|reflexivity]|].
  destruct (limit <? _); [|apply run_ret; split; [done|reflexivity]].
  eapply run_bind; [apply next_run; lk|]. cbv beta. intros _ s1 [Ht1 _]. pose proof (pexp_tstep _ _ _ _ _ Hv Ht1) as Hv1.
  eapply run_bind; [apply (infix_run N s1 R r o v Hv1 Ho)|]. cbv beta. intros v2 s2 (Hp2 & Hc2 & Hi2).
  eapply run_bind; [by apply Hsub|]. cbv beta. intros [e2 o2] s3 (He & Hs3 & Hlt3).
  pose proof (infixed_estep _ _ _ _ _ _ Hs3 Hi2) as Hi3.
  eapply run_bind; [apply (posfix_run N s3 R r _ o v2 e2 Hi3); [nums|done]|]. cbv beta. intros v4 s4 (Hv4 & Hc4).
  eapply run_mono; [apply (IH o2 v4 s4); [nums|done]|]. cbv beta. intros [e o'] s5 (He5 & Hs5). split; [done|steps].
Qed.

Lemma subexpr_rule_run limit s R :
  pst s R -> run (subexpr_rule subexpr chunk limit) s (fun '(e, _) s' => pexp s' R (freereg (fs s)) e /\ estep s s' /\ (todo s' < todo s)%nat).
Proof using HL Hsub Hchunk.
  intros Hp. unfold subexpr_rule. apply run_gets.
  apply (run_bind _ _ _ (fun e s' => pexp s' R (freereg (fs s)) e /\ estep s s' /\ (todo s' < todo s)%nat)).
  { case_bool_decide as Ho; cbn [negb]; [by apply simpleexp_run|].
    eapply run_bind; [apply next_run; lk|]. cbv beta. intros _ s1 [Ht1 _]. tk Hp.
    eapply run_bind; [by apply Hsub|]. cbv beta. intros [v o] s2 (Hv & Hs2 & Hlt).
    eapply run_mono; [by apply (prefix_run N s2 R (freereg (fs s1)))|]. cbv beta. intros e s3 (He & Hc3).
    split; [|split; [steps|nums]]. by replace (freereg (fs s)) with (freereg (fs s1)) by nums. }
  cbv beta. intros v s1 (Hv & Hs1 & Hlt). apply run_gets. apply token_rounds_run. intros fuel Hfuel.
  eapply run_mono; [by apply (binop_loop_run fuel limit _ v (freereg (fs s)) s1 R)|]. cbv beta. intros [e o] s2 (He & Hs2).
  split; [done|]. split; [steps|nums].
Qed.

(** ** Statements *)

(** What a statement keeps; it uses up at least one token. *)
Definition stat_post s (R : list Z) (s' : CompState Z') : Prop := pst s' R /\ sstep s s' /\ (todo s' < todo s)%nat.

Lemma block_run s R :
  pst s R -> run (block chunk) s (fun _ s' => pst s' R /\ sstep s s' /\ nactvar (fs s') = nactvar (fs s)).
Proof using HL Hchunk.
  intros Hp. unfold block. pose proof (pst_regs _ _ _ Hp).
  eapply run_bind; [by apply enterblock_run|]. cbv beta. intros _ s1 [-> Hp1].
  eapply run_bind; [by apply Hchunk|]. cbv beta. intros _ s2 (Hp2 & Hs2).
  eapply run_mono; [apply (leave_run N false s s2 R Hp2 Hs2); lia|]. cbv beta. intros _ s3 (Hp3 & Hs3 & Hn3 & _). by split.
Qed.

(** *** Assignments *)

Lemma var_ok_gext F F' v : gext F F' -> var_ok F v -> var_ok F' v.
Proof using.
  intros Hg Hv. pose proof (nk_grows _ _ Hg) as Hk. destruct Hg as [Hu [l Hl] Hm _ _].
  unfold var_ok, rk_const_ok in *. destruct (ek v); try done; try lia.
  - destruct Hv as [st Hst]. exists st. rewrite Hl. by apply getZ_prefix.
  - destruct Hv as [H1 [(H2 & H3 & H4)|H2]]; (split; [lia|]); [left|right; lia].
    split; [done|]. split; [done|]. unfold nk in *. lia.
Qed.

Lemma var_ok_estep s s' v : estep s s' -> var_ok (fs s) v -> var_ok (fs s') v.
Proof using. intros [_ _ [[_ _ Hg] _ _ _]]. by apply var_ok_gext. Qed.

Lemma vars_ok_estep s s' lh : estep s s' -> Forall (var_ok (fs s)) lh -> Forall (var_ok (fs s')) lh.
Proof using. intros Hs. apply Forall_impl. intros v. by apply var_ok_estep. Qed.

Lemma pexp_var s R r e : pexp s R r e -> is_variable (ek e) = true -> pst s R /\ var_ok (fs s) e.
Proof using.
  intros He Hv. destruct (plain_jumps _ _ _ _ _ He (or_intror Hv)) as [E1 E2]. pose proof (pexp_facts _ _ _ _ _ He) as (Hn & Hr & Hm).
  destruct He as [Hp Hx _ _]. unfold roots in Hp. rewrite E1, E2 in Hp. split.
  - rewrite bool_decide_eq_false_2 in Hp by (intros Ek; by rewrite Ek in Hv). by apply pst_nojump, pst_nojump.
  - unfold exp_ok, var_ok in *. destruct (ek e); try done; try (destruct Hx; (done || lia)).
    destruct Hx as (r1 & Ht & Hk). apply temp_range in Ht; [|lia]. split; [destruct Hk as [[_ Hk]|Hk]; [lia|apply temp_range in Hk; lia]|].
    destruct Hk as [[Hk _]|Hk]; [by left|right; apply temp_range in Hk; lia].
Qed.

Lemma top_pexp s R : pst s R -> nactvar (fs s) < freereg (fs s) -> pexp s R (freereg (fs s) - 1) (init_exp VNONRELOC (freereg (fs s) - 1)).
Proof using.
  intros Hp Hr. apply init_pexp; [done|done| |lia]. unfold exp_ok. cbn. right. lia.
Qed.

Lemma store_top_run v s R :
  pst s R -> var_ok (fs s) v -> nactvar (fs s) < freereg (fs s) ->
  run (store_top v) s (fun _ s' => pst s' R /\ cstep s s' /\ freereg (fs s') = freereg (fs s) - 1).
Proof using HL. intros Hp Hv Hr. unfold store_top. apply run_gets. apply storevar_run; [by apply top_pexp|done|done]. Qed.

Lemma conflict_ok F r x v : var_ok F v -> 0 <= x < maxstacksize (f F) -> var_ok F (conflict r x v).2.
Proof using.
  intros Hv Hx. unfold conflict. case_bool_decide as Ek; [|done]. cbn. unfold var_ok in *. rewrite Ek in Hv.
  destruct Hv as [H1 H2]. destruct (info v =? r), (aux _ =? r); cbn; rewrite Ek; cbn; (split; [done|]); try (by right); done.
Qed.

Lemma conflict_none r x v : (conflict r x v).1 = false -> (conflict r x v).2 = v.
Proof using.
  unfold conflict. case_bool_decide; [|done]. cbn. intros Hb. apply orb_false_iff in Hb as [H1 H2]. rewrite H1 in *. by rewrite H2.
Qed.

(** An instruction into the first free register, and the register is taken. *)
Lemma push_run (m : Comp Z) i s R :
  pst s R -> cgen s m (fs s) (emitted (Z.max (maxstacksize (f (fs s))) (freereg (fs s) + 1)) i R (fs s)) ->
  run (m;; luaK_reserveregs 1) s (fun _ s' => pst s' R /\ cstep s s' /\ freereg (fs s') = freereg (fs s) + 1).
Proof using HL.
  intros Hp Hm. apply (run_gen N _ s R (fun _ => R) (fun _ F' => freereg F' = freereg (fs s) + 1) Hp).
  eapply cgen_bind; [exact Hm|]. cbv beta. intros n F1 Hem. destruct (emitted_cext _ _ _ _ _ _ Hem) as (Hc1 & Hf1).
  pose proof (em_kept _ _ _ _ _ _ Hem) as (_ & _ & Hms).
  eapply cgen_mono; [apply (reserveregs_spec s (ps_wf _ _ _ Hp) _ 1 R F1 (em_finv _ _ _ _ _ _ Hem)); lia|].
  cbv beta. intros _ F2 (Hi2 & Hc2 & Hf2 & _). split; [done|]. split; [by eapply cext_trans|lia].
Qed.

Lemma finv_top s R : pst s R -> finv (Z.max (maxstacksize (f (fs s))) (freereg (fs s) + 1)) (fs s) R.
Proof using. intros Hp. pose proof (pst_regs _ _ _ Hp). eapply finv_ms; [exact (pst_ok _ _ _ Hp)|]. change MAXSTACK with 250. lia. Qed.

Lemma check_conflict_run lh v s R :
  pst s R -> Forall (var_ok (fs s)) lh -> 0 <= info v < nactvar (fs s) ->
  run (check_conflict lh v) s (fun lh' s' => pst s' R /\ cstep s s' /\ Forall (var_ok (fs s')) lh' /\ length lh' = length lh /\
    freereg (fs s) <= freereg (fs s')).
Proof using HL.
  intros Hp Hlh Hv. unfold check_conflict. apply run_gets. set (x := freereg (fs s)). pose proof (pst_regs _ _ _ Hp).
  set (l := conflict (info v) x <$> lh). assert (Hlen : length (snd <$> l) = length lh) by (unfold l; by rewrite !length_fmap).
  destruct (existsb fst l) eqn:Hb.
  - eapply (run_bind _ _ _ (fun _ s' => pst s' R /\ cstep s s' /\ freereg (fs s') = x + 1)).
    + apply run_gets. apply (push_run _ (CREATE_ABC OP_MOVE x (info v) 0) s R Hp).
      apply (codeABC_spec s (ps_wf _ _ _ Hp)); try done; [by apply finv_top|maxargs; unfold x; lia|maxargs; lia|].
      intros bx. unfold x. fits_tac.
    + cbv beta. intros _ s1 (Hp1 & Hc1 & Hf1). apply run_ret. split; [done|]. split; [done|]. split; [|split; [done|lia]].
      pose proof (vars_ok_estep _ _ _ (cstep_estep _ _ Hc1) Hlh) as Hlh1. pose proof (pst_regs _ _ _ Hp1).
      unfold l. rewrite !list.Forall_fmap. eapply Forall_impl; [|exact Hlh1]. intros u Hu. apply conflict_ok; [done|unfold x in *; lia].
  - apply run_ret_bind, run_ret. split; [done|]. split; [reflexivity|]. split; [|split; [done|reflexivity]].
    assert (E : snd <$> l = lh); [|by rewrite E]. revert Hb. unfold l. clear. induction lh as [|u lh IH]; [done|]. cbn.
    intros Hb. apply orb_false_iff in Hb as [H1 H2]. f_equal; [by apply conflict_none|by apply IH].
Qed.

Lemma set_freereg_unit r s R :
  pst s R -> nactvar (fs s) <= r <= freereg (fs s) ->
  run (modify_fs (with_freereg r)) s (fun _ s' => pst s' R /\ cstep s s' /\ freereg (fs s') = r).
Proof using.
  intros Hp Hr. refine (set_freereg_run r (fun _ => mret tt) s R (fun _ s' => pst s' R /\ cstep s s' /\ freereg (fs s') = r) Hp Hr _).
  intros s' ? ? ? _. by apply run_ret.
Qed.

(** The values are assigned from the last variable to the first one. *)
Definition assigned s (R : list Z) (n nvars : Z) (lh' : list expdesc) s' : Prop :=
  pst s' R /\ estep s s' /\ Forall (var_ok (fs s')) lh' /\ lenZ lh' = n /\ nactvar (fs s') + nvars - 1 <= freereg (fs s').

Lemma assignment_eq fuel v lh nvars :
  assignment subexpr fuel (v :: lh) nvars =
  ((if negb (is_variable (ek v)) then syntaxerror (str "syntax error") else mret tt);;
   comma ← testnext (ch ",");
   if (comma : bool) then
     nv ← primaryexp subexpr;
     lh ← (if bool_decide (ek nv = VLOCAL) then check_conflict (v :: lh) nv else mret (v :: lh));
     F ← gets fs;
     depth ← gets nCcalls;
     luaY_checklimit F nvars (LUAI_MAXCCALLS - depth) (str "variables in assignment");;
     match fuel with
     | O => nofuel
     | S fuel =>
         lh ← assignment subexpr fuel (nv :: lh) (nvars + 1);
         match lh with [] => lift Undef | v :: lh => store_top v;; mret lh end
     end
   else
     checknext (ch "=");;
     '(nexps, e) ← explist1 subexpr;
     if negb (nexps =? nvars) then
       adjust_assign nvars nexps e;;
       (if nvars <? nexps then modify_fs (fun F => with_freereg (freereg F - (nexps - nvars)) F) else mret tt);;
       store_top v;;
       mret lh
     else e ← luaK_setoneret e; luaK_storevar v e;; mret lh).
Proof using. by destruct fuel. Qed.

Lemma assign_values_run v lh nvars s R :
  pst s R -> var_ok (fs s) v -> Forall (var_ok (fs s)) lh -> 1 <= nvars <= 255 ->
  run ('(nexps, e) ← explist1 subexpr;
     if negb (nexps =? nvars) then
       adjust_assign nvars nexps e;;
       (if nvars <? nexps then modify_fs (fun F => with_freereg (freereg F - (nexps - nvars)) F) else mret tt);;
       store_top v;;
       mret lh
     else e ← luaK_setoneret e; luaK_storevar v e;; mret lh) s (assigned s R (lenZ lh) nvars).
Proof using HL Hsub.
  intros Hp Hv Hlh Hn. eapply run_bind; [by apply explist1_run|]. cbv beta. intros [nexps e] s1 (Hn1 & He & Hs1 & _).
  pose proof (var_ok_estep _ _ _ Hs1 Hv) as Hv1. destruct (Z.eqb_spec nexps nvars) as [->|Hne]; cbn [negb].
  - eapply run_bind; [by apply (setoneret_run N s1 R (freereg (fs s) + nvars - 1))|]. cbv beta. intros e2 s2 (He2 & Hc2 & Hk).
    pose proof (var_ok_estep _ _ _ (cstep_estep _ _ Hc2) Hv1) as Hv2.
    eapply run_bind; [by apply (storevar_run N s2 R (freereg (fs s) + nvars - 1) v e2)|]. cbv beta. intros _ s3 (Hp3 & Hc3 & Hf3).
    apply run_ret. assert (Hs : estep s s3) by steps. split; [done|]. split; [done|]. split; [by apply (vars_ok_estep s)|]. split; [done|nums].
  - eapply run_bind; [apply (adjust_assign_run N nvars nexps e (freereg (fs s)) s1 R); [right; by split|nums|lia]|].
    cbv beta. intros _ s2 (Hp2 & Hc2 & Hf2).
    apply (run_bind _ _ _ (fun _ s' => pst s' R /\ cstep s2 s' /\ freereg (fs s') = freereg (fs s) + nvars)).
    { destruct (Z.ltb_spec nvars nexps).
      - eapply run_mono; [apply (set_freereg_unit (freereg (fs s2) - (nexps - nvars)) s2 R Hp2); nums|].
        cbv beta. intros _ s3 (Hp3 & Hc3 & Hf3). split; [done|]. split; [done|lia].
      - apply run_ret. split; [done|]. split; [reflexivity|lia]. }
    cbv beta. intros _ s3 (Hp3 & Hc3 & Hf3). assert (Hs13 : estep s1 s3) by steps.
    pose proof (var_ok_estep _ _ _ Hs13 Hv1) as Hv3.
    eapply run_bind; [apply (store_top_run v s3 R Hp3 Hv3); nums|]. cbv beta. intros _ s4 (Hp4 & Hc4 & Hf4).
    apply run_ret. assert (Hs : estep s s4) by steps. split; [done|]. split; [done|]. split; [by apply (vars_ok_estep s)|]. split; [done|nums].
Qed.

Lemma assignment_run fuel lh v nvars r s R :
  pexp s R r v -> Forall (var_ok (fs s)) lh -> 1 <= nvars <= 255 -> Z.of_nat fuel + nvars = LUAI_MAXCCALLS + 3 ->
  run (assignment subexpr fuel (v :: lh) nvars) s (assigned s R (lenZ lh) nvars).
Proof using HL Hsub HN.
  revert lh v nvars r s. induction fuel as [fuel IH] using lt_wf_ind. intros lh v nvars r s Hv Hlh Hn Hfuel. rewrite assignment_eq.
  apply (run_bind _ _ _ (fun _ s' => s' = s /\ is_variable (ek v) = true)).
  { destruct (is_variable (ek v)) eqn:Hk; cbn [negb]; [by apply run_ret|apply syntaxerror_run; lk]. }
  cbv beta. intros _ s0 [-> Hk]. destruct (pexp_var _ _ _ _ Hv Hk) as [Hp Hvar].
  eapply run_bind; [apply testnext_run; [done|lk]|]. cbv beta. intros [] s1 Hs1.
  2:{ subst s1. eapply run_bind; [apply checknext_run; [by split|done|lk]|]. cbv beta. intros _ s1 Hu1. tk Hp.
    assert (Hs1 : estep s s1) by steps.
    eapply run_mono; [apply (assign_values_run v lh nvars s1 R); [done|by apply (var_ok_estep s)|by apply (vars_ok_estep s)|done]|].
    cbv beta. intros lh' s2 (? & ? & ? & ? & ?). split; [done|]. split; [steps|done]. }
  tk Hp. assert (Hall : Forall (var_ok (fs s)) (v :: lh)) by (by constructor).
  eapply run_bind; [by apply primaryexp_run|]. cbv beta. intros nv s2 (Hnv & Hs2 & _).
  assert (Hs02 : estep s s2) by steps. pose proof (vars_ok_estep _ _ _ Hs02 Hall) as Hall2.
  apply (run_bind _ _ _ (fun lh' s3 => exists r, pexp s3 R r nv /\ estep s2 s3 /\ Forall (var_ok (fs s3)) lh' /\ length lh' = S (length lh))).
  { case_bool_decide as El.
    - destruct (pexp_var _ _ _ _ Hnv ltac:(by rewrite El)) as [Hp2 _]. pose proof (px_exp _ _ _ _ _ Hnv) as Hx.
      unfold exp_ok in Hx. rewrite El in Hx. destruct Hx as [Hx Hf2].
      eapply run_mono; [by apply (check_conflict_run (v :: lh) nv s2 R)|]. cbv beta. intros lh' s3 (Hp3 & Hc3 & Hlh3 & Hlen & Hf3).
      exists (freereg (fs s3)). split; [|split; [steps|done]]. destruct (plain_jumps N _ _ _ _ Hnv ltac:(right; by rewrite El)) as [E1 E2].
      split; [|unfold exp_ok; rewrite El; split; [nums|done]|nums|by right].
      unfold roots. rewrite E1, E2, El. by apply nojump_pst, nojump_pst.
    - apply run_ret. exists (freereg (fs s1)). split; [done|]. split; [reflexivity|done]. }
  cbv beta. intros lh3 s3 (r3 & Hnv3 & Hs3 & Hlh3 & Hlen). apply run_gets, run_gets.
  pose proof (ps_depth _ _ _ (px_pst _ _ _ _ _ Hnv3)) as Hd. rewrite Hd.
  eapply run_bind; [apply checklimit_run; lk|]. cbv beta. intros _ s4 [-> Hlim]. change LUAI_MAXCCALLS with 200 in *.
  destruct fuel as [|fuel]; [lia|].
  eapply run_bind; [apply (IH fuel ltac:(lia) lh3 nv (nvars + 1) r3 s3 Hnv3 Hlh3); lia|].
  cbv beta. intros lh4 s4 (Hp4 & Hs4 & Hlh4 & Hlen4 & Hf4). unfold lenZ in *.
  destruct lh4 as [|v4 lh4]; [cbn in Hlen4; lia|]. pose proof (Forall_inv Hlh4) as Hv4. apply Forall_inv_tail in Hlh4.
  eapply run_bind; [apply (store_top_run v4 s4 R Hp4 Hv4); lia|]. cbv beta. intros _ s5 (Hp5 & Hc5 & Hf5). apply run_ret.
  split; [done|]. split; [steps|]. split; [by apply (vars_ok_estep s4); [steps|]|]. unfold lenZ. split; [cbn in Hlen4; lia|nums].
Qed.

(** *** Conditions, breaks *)

Lemma cond_run s R :
  pst s R -> run (cond subexpr) s (fun j s' => pst s' (j :: R) /\ estep s s' /\ (todo s' < todo s)%nat).
Proof using HL Hsub.
  intros Hp. unfold cond. eapply run_bind; [by apply expr_run|]. cbv beta. intros v s1 (Hv & Hs1 & Hlt).
  assert (Hv' : pexp s1 R (freereg (fs s)) (if bool_decide (ek v = VNIL) then set_ek VFALSE v else v)).
  { case_bool_decide as Ek; [|done]. destruct Hv as [H1 H2 H3 H4]. unfold roots, exp_ok in *. rewrite Ek in H1, H2.
    split; [exact H1|exact H2|exact H3|by left]. }
  eapply run_bind; [by apply (goiftrue_run N s1 R (freereg (fs s)))|]. cbv beta. intros e s2 (Hp2 & Hc2 & _). apply run_ret.
  split; [done|]. split; [steps|nums].
Qed.

Lemma same_blocks_ok n l l' : Forall2 same_block l l' -> blocks_ok n l -> blocks_ok n l'.
Proof using.
  intros Hl. revert n. induction Hl as [|b b' l l' [Hb _] Hl IH]; intros n; [done|]. cbn. rewrite Hb. intros [? ?]. split; [done|by apply IH].
Qed.

Lemma insert_same i x b l : l !! i = Some b -> Forall2 same_block l (<[i := set_breaklist x b]> l).
Proof using.
  revert i. induction l as [|c l IH]; intros [|i] Hi; try done; cbn in *.
  - injection Hi as ->. by constructor.
  - constructor; [done|by apply IH].
Qed.

Lemma innermost_loop_spec l n u i up :
  find_loop l n u = Some (i, up) -> exists m b, i = (n + m)%nat /\ l !! m = Some b /\
    (up = true -> u = true \/ exists m' b', (m' < m)%nat /\ l !! m' = Some b' /\ bupval b' = true).
Proof using.
  revert n u. induction l as [|b l IH]; intros n u; [done|]. cbn. destruct (isbreakable b).
  - intros [= <- <-]. exists 0%nat, b. split; [lia|]. split; [done|by left].
  - intros (m & b' & -> & Hm & Hu)%IH. exists (S m), b'. split; [lia|]. split; [done|]. intros Hup. destruct (Hu Hup) as [Hb|(m' & b2 & ? & ? & ?)].
    + apply orb_true_iff in Hb as [Hb|Hb]; [by left|]. right. exists 0%nat, b. split; [lia|done].
    + right. exists (S m'), b2. split; [lia|done].
Qed.

(** Outer blocks begin at fewer variables. *)
Lemma blocks_ok_range n l m b : blocks_ok n l -> l !! m = Some b -> 0 <= bnactvar b <= n.
Proof using.
  revert n m. induction l as [|c l IH]; intros n [|m]; try done; cbn; intros [? Hl] Hm.
  - by injection Hm as ->.
  - pose proof (IH _ _ Hl Hm). lia.
Qed.

Lemma blocks_ok_order n l m m' b b' : blocks_ok n l -> (m' < m)%nat -> l !! m = Some b -> l !! m' = Some b' -> bnactvar b <= bnactvar b'.
Proof using.
  revert n m m'. induction l as [|c l IH]; intros n [|m] [|m'] Hl Hlt Hm Hm'; try done; try lia; cbn in *; destruct Hl as [? Hl].
  - injection Hm' as ->. pose proof (blocks_ok_range _ _ _ _ Hl Hm). lia.
  - eapply (IH _ m m'); eauto. lia.
Qed.

Lemma get_block_run {B} i b (k : BlockCnt -> Comp B) s Q : bl (fs s) !! i = Some b -> run (k b) s Q -> run (get_block i ≫= k) s Q.
Proof using.
  intros Hi Hk. unfold get_block. apply run_group, run_gets. unfold deref.
  eapply run_bind; [apply (run_lift _ _ (fun x => x = b) (fun x s' => x = b /\ s' = s)); [by rewrite Hi|done]|].
  by cbv beta; intros ? ? [-> ->].
Qed.

(** A jump is added to the breaks of a block. *)
Lemma add_break_run i b j s R :
  pst s (j :: R) -> bl (fs s) !! i = Some b ->
  run (list ← luaK_concat (breaklist b) j; modify_fs (fun F => with_bl (<[i := set_breaklist list b]> (bl F)) F)) s
    (fun _ s' => pst s' R /\ estep s s' /\ ls s' = ls s).
Proof using HL.
  intros Hp Hi. set (F := fs s). set (ms := maxstacksize (f F)). pose proof (pst_ok _ _ _ Hp) as Hok.
  pose proof (take_drop_middle _ _ _ Hi) as Hsplit. set (l1 := take i (bl F)) in *. set (l2 := drop (S i) (bl F)) in *.
  set (rest := jpc F :: (breaklist <$> l1 ++ l2) ++ R).
  assert (Hlists : jlists (code (f F)) (breaklist b :: j :: rest)).
  { eapply jlists_perm; [|apply Hok]. unfold F in *. rewrite <- Hsplit at 1. unfold rest. rewrite !fmap_app, fmap_cons. solve_Permutation. }
  assert (Hms : ms <= 250) by (unfold ms, F; nums).
  assert (E : s = set_fs F s) by (by destruct s). unfold run. rewrite E.
  eapply post_mono.
  { eapply (cgen_bind s _ _ F); [apply (luaK_concat_spec s (ps_wf _ _ _ Hp) ms ltac:(done) (breaklist b) j rest); [apply Hok|exact Hlists]|].
    cbv beta. intros l F1 (He & Hw1 & Hl1 & _). apply cgen_modify.
    refine (_ : (fun _ F' => exists l F1, jext F F1 /\ words_ok ms (f F1) /\ jlists (code (f F1)) (l :: rest) /\
      F' = with_bl (<[i := set_breaklist l b]> (bl F1)) F1) tt _). by exists l, F1. }
  intros [[] s'] (F' & -> & l & F1 & He & Hw1 & Hl1 & ->). rewrite <- E.
  pose proof (jext_cext _ _ He) as Hc. destruct He as (c' & -> & Hlen & Hops). cbn [with_f bl] in *.
  pose proof (insert_same i l b (bl F) Hi) as Hsame.
  split; [|split; [|done]].
  - eapply pst_fs; [exact Hp| |done]. destruct (ps_fun _ _ _ Hp) as [_ Hu Hps]. split; [| |exact Hps].
    + destruct Hok. split; try done; cbn in *.
      * eapply jlists_perm; [|exact Hl1]. change (bl (fs s)) with (bl F). rewrite (insert_take_drop _ _ _ (lookup_lt_Some _ _ _ Hi)). fold l1 l2.
        unfold rest. rewrite !fmap_app, fmap_cons. cbn. solve_Permutation.
      * unfold pc, sizecode in *. cbn in *. rewrite Hlen. exact fi_lines.
      * unfold pc, sizecode in *. cbn in *. rewrite Hlen. assumption.
      * by destruct fi_vars.
      * eapply same_blocks_ok; [exact Hsame|]. done.
    + unfold ups_ok in *. cbn. apply list.Forall_insert; [exact Hu|]. cbn. rewrite Forall_forall in Hu. apply Hu, list_elem_of_In.
      by apply list_elem_of_lookup_2 in Hi.
  - apply estep_fs. destruct (cext_eext _ _ Hc) as [[H1 H2 H3] H4 H5 H6]. split; [split|exact H4|exact H5|exact H6]; [exact H1|exact Hsame|].
    eapply gext_f; [..|exact H3]; reflexivity.
Qed.

Lemma breakstat_run s R :
  pst s R -> run breakstat s (fun _ s' => pst s' R /\ estep s s' /\ ls s' = ls s).
Proof using HL.
  intros Hp. unfold breakstat. apply run_gets. pose proof (pst_blocks _ _ _ Hp) as Hb. pose proof (pst_regs _ _ _ Hp).
  destruct (find_loop (bl (fs s)) 0 false) as [[i up]|] eqn:Hl; [|apply syntaxerror_run; lk].
  destruct (innermost_loop_spec _ _ _ _ _ Hl) as (m & b & -> & Hi & Hup). cbn [plus] in *.
  eapply get_block_run; [exact Hi|]. pose proof (blocks_ok_range _ _ _ _ Hb Hi).
  apply (run_bind _ _ _ (fun _ s' => pst s' R /\ cstep s s')).
  { destruct up; [|apply run_ret; split; [done|reflexivity]].
    apply (close_block_run N (mkBlockCnt (breaklist b) (bnactvar b) true (isbreakable b)) s R Hp). intros _. cbn.
    destruct (Hup eq_refl) as [?|(m' & b' & Hlt & Hm' & Hbu)]; [done|]. pose proof (blocks_ok_order _ _ _ _ _ _ Hb Hlt Hi Hm').
    pose proof (fo_ups _ _ (ps_fun _ _ _ Hp)) as Hu. unfold ups_ok in Hu. rewrite Forall_forall in Hu.
    pose proof (Hu b' (proj1 (list_elem_of_In _ _) (list_elem_of_lookup_2 _ _ _ Hm')) Hbu). lia. }
  cbv beta. intros _ s1 (Hp1 & Hc1). eapply run_bind; [by apply (jump_run N s1 R)|]. cbv beta. intros j s2 (Hp2 & Hc2 & _).
  assert (Hc : cstep s s2) by (by etrans). destruct (static_parts _ _ (ce_static _ _ (cs_cext _ _ Hc))) as (_ & _ & _ & Hbl).
  assert (Hi2 : bl (fs s2) !! m = Some b) by (by rewrite Hbl).
  eapply get_block_run; [exact Hi2|]. eapply run_mono; [by apply (add_break_run m b j s2 R)|].
  cbv beta. intros _ s3 (Hp3 & Hs3 & Hl3). split; [done|]. split; [steps|]. rewrite Hl3. exact (cstep_ls _ _ Hc).
Qed.

(** *** Loops *)

Lemma entered_facts b s :
  todo (entered b s) = todo s /\ nactvar (fs (entered b s)) = nactvar (fs s) /\ freereg (fs (entered b s)) = freereg (fs s) /\
  maxstacksize (f (fs (entered b s))) = maxstacksize (f (fs s)) /\ pc (fs (entered b s)) = pc (fs s) /\ 0 <= pc (fs s).
Proof using. split_and!; try done. apply lenZ_nonneg. Qed.

Lemma whilestat_run line s R :
  pst s R -> token (t (ls s)) <> TK_EOS -> run (whilestat subexpr chunk line) s (fun _ => stat_post s R).
Proof using HL Hsub Hchunk.
  intros Hp Ht. unfold whilestat. eapply run_bind; [apply next_used; [done|lk]|]. cbv beta. intros _ s1 Hu1. tk Hp.
  eapply getlabel_run; [exact Hp0|]. intros s2 Hp2 Hc2 _ _.
  eapply run_bind; [by apply cond_run|]. cbv beta. intros c s3 (Hp3 & Hs3 & Hlt3).
  eapply run_bind; [by apply enterblock_run|]. cbv beta. intros _ e3 [-> Hpe]. pose proof (entered_facts true s3) as (T1 & T2 & _ & _ & T3 & _).
  eapply run_bind; [apply checknext_run; [by split|done|lk]|]. cbv beta. intros _ s4 Hu4. tk Hpe.
  eapply run_bind; [by apply block_run|]. cbv beta. intros _ s5 (Hp5 & Hs5 & _).
  eapply run_bind; [by apply jump_run|]. cbv beta. intros j s6 (Hp6 & Hc6 & _).
  eapply run_bind; [apply (patchlist_run N j _ s6 _ Hp6); split; [apply lenZ_nonneg|nums]|]. cbv beta. intros _ s7 (Hp7 & Hc7 & _).
  eapply run_bind; [apply check_match_run; [by split|by split|done|lk]|]. cbv beta. intros _ s8 Hu8. tk Hp7.
  assert (Hs38 : sstep (entered true s3) s8) by steps.
  eapply run_bind; [apply (leave_run N true s3 s8 _ Hp4 Hs38); nums|]. cbv beta. intros _ s9 (Hp9 & Hs9 & _).
  eapply run_mono; [by apply patchtohere_run|]. cbv beta. intros _ s10 (Hp10 & Hc10 & _).
  split; [done|]. split; [steps|nums].
Qed.

(** The inner block of a repeat loop is left with its condition. *)
Lemma until_run c target s0 s R :
  pst s (c :: R) -> sstep (entered false s0) s -> 0 <= nactvar (fs s0) -> 0 <= target <= pc (fs s0) ->
  run (bl2 ← get_block 0;
       if negb (bupval bl2) then leaveblock;; luaK_patchlist c target
       else breakstat;; luaK_patchtohere c;; leaveblock;; j ← luaK_jump; luaK_patchlist j target) s
    (fun _ s' => pst s' R /\ sstep s0 s' /\ ls s' = ls s).
Proof using HL.
  intros Hp Hs0 Hn Ht. pose proof (fx_bl _ _ (ss_fext _ _ Hs0)) as Hb. destruct (bl (fs s)) as [|b l] eqn:Eb; [by apply Forall2_cons_nil_inv in Hb|].
  eapply (get_block_run 0 b); [by rewrite Eb|]. destruct (bupval b); cbn [negb].
  - eapply run_bind; [by apply breakstat_run|]. cbv beta. intros _ s1 (Hp1 & Hs1 & Hl1).
    eapply run_bind; [by apply patchtohere_run|]. cbv beta. intros _ s2 (Hp2 & Hc2 & _).
    assert (Hs02 : sstep (entered false s0) s2) by steps.
    eapply run_bind; [apply (leave_run N false s0 s2 R Hp2 Hs02 Hn)|]. cbv beta. intros _ s3 (Hp3 & Hs3 & _ & Hl3 & _).
    eapply run_bind; [by apply jump_run|]. cbv beta. intros j s4 (Hp4 & Hc4 & _).
    eapply run_mono; [apply (patchlist_run N j _ s4 R Hp4); nums|]. cbv beta. intros _ s5 (Hp5 & Hc5 & _). split; [done|]. split; [steps|].
    by rewrite (cstep_ls _ _ Hc5), (cstep_ls _ _ Hc4), Hl3, (cstep_ls _ _ Hc2).
  - eapply run_bind; [apply (leave_run N false s0 s (c :: R) Hp Hs0 Hn)|]. cbv beta. intros _ s1 (Hp1 & Hs1 & _ & Hl1 & _).
    eapply run_mono; [apply (patchlist_run N c _ s1 R Hp1); nums|]. cbv beta. intros _ s2 (Hp2 & Hc2 & _). split; [done|]. split; [steps|].
    by rewrite (cstep_ls _ _ Hc2).
Qed.

Lemma repeatstat_run line s R :
  pst s R -> token (t (ls s)) <> TK_EOS -> run (repeatstat subexpr chunk line) s (fun _ => stat_post s R).
Proof using HL Hsub Hchunk.
  intros Hp Ht. unfold repeatstat. eapply getlabel_run; [exact Hp|]. intros s1 Hp1 Hc1 _ Hpc1.
  eapply run_bind; [by apply enterblock_run|]. cbv beta. intros _ e1 [-> Hpe1]. set (e1 := entered true s1) in *.
  eapply run_bind; [by apply enterblock_run|]. cbv beta. intros _ e2 [-> Hpe2]. set (e2 := entered false e1) in *.
  assert (Ht2 : token (t (ls e2)) <> TK_EOS) by (change (ls e2) with (ls s1); by rewrite (cstep_ls _ _ Hc1)).
  pose proof (entered_facts true s1) as (T1 & T2 & _ & _ & T3 & T0). pose proof (entered_facts false e1) as (U1 & U2 & _ & _ & U3 & _). fold e1 in T1, T2, T3. fold e2 in U1, U2, U3.
  eapply run_bind; [apply next_used; [done|lk]|]. cbv beta. intros _ s2 Hu2. tk Hpe2.
  eapply run_bind; [by apply Hchunk|]. cbv beta. intros _ s3 (Hp3 & Hs3).
  eapply run_bind; [apply check_match_run; [by split|by split|done|lk]|]. cbv beta. intros _ s4 Hu4. tk Hp3.
  eapply run_bind; [by apply cond_run|]. cbv beta. intros c s5 (Hp5 & Hs5 & Hlt5).
  assert (Hs25 : sstep e2 s5) by steps.
  apply run_regroup. eapply run_bind; [apply (until_run c _ e1 s5 R Hp5 Hs25); nums|]. cbv beta. intros _ s6 (Hp6 & Hs6 & Hl6).
  eapply run_mono; [apply (leave_run N true s1 s6 R Hp6 Hs6); nums|]. cbv beta. intros _ s7 (Hp7 & Hs7 & _ & Hl7 & _).
  split; [done|]. split; [steps|]. assert (todo s7 = todo s5) by (unfold todo; by rewrite Hl7, Hl6). nums.
Qed.

Lemma exp1_run s R :
  pst s R -> run (exp1 subexpr) s (fun _ s' => pst s' R /\ estep s s' /\ freereg (fs s') = freereg (fs s) + 1 /\ (todo s' < todo s)%nat).
Proof using HL Hsub.
  intros Hp. unfold exp1. eapply run_bind; [by apply expr_run|]. cbv beta. intros e s1 (He & Hs1 & Hlt).
  eapply run_bind; [by apply (exp2nextreg_run N s1 R (freereg (fs s)))|]. cbv beta. intros e2 s2 (Hp2 & Hc2 & Hf2 & _).
  apply run_ret. split; [done|]. split; [steps|]. split; [done|nums].
Qed.

(** A part of the code generator, without the invariant *)
Lemma run_cgen {A} (m : Comp A) s (P : A -> FuncState -> Prop) :
  cgen s m (fs s) P -> run m s (fun a s' => exists F', s' = set_fs F' s /\ P a F').
Proof using. intros Hm. assert (E : s = set_fs (fs s) s) by (by destruct s). unfold run. rewrite E at 1. exact Hm. Qed.

Definition for_prep (isnum : bool) (base : Z) : Comp Z := if isnum then luaK_codeAsBx OP_FORPREP base NO_JUMP else luaK_jump.

Lemma for_prep_spec isnum base s R :
  pst s R -> 0 <= base -> base + 3 <= freereg (fs s) ->
  cgen s (for_prep isnum base) (fs s) (fun n F1 => finv (Z.max (maxstacksize (f (fs s))) (base + 4)) F1 (n :: R) /\ kept (fs s) F1 /\
    n = pc (fs s) /\ pc F1 = pc (fs s) + 1).
Proof using HL.
  intros Hp Hb Hf. pose proof (pst_regs _ _ _ Hp). set (ms := Z.max _ _).
  assert (Hi : finv ms (fs s) R) by (eapply finv_ms; [exact (pst_ok _ _ _ Hp)|unfold ms; change MAXSTACK with 250; lia]).
  unfold for_prep. destruct isnum; [|by apply (jump_spec s (ps_wf _ _ _ Hp))].
  eapply cgen_mono; [apply (codeAsBx_spec s (ps_wf _ _ _ Hp) ms OP_FORPREP base R (fs s) Hi); [done|maxargs; lia|]|].
  - cbn. unfold ms. repeat constructor; lia.
  - cbv beta. intros n F1 (? & ? & ? & ? & _). by split_and!.
Qed.

(** The block of the declared variables is entered, and gets their registers. *)
Definition loop_fs (l : list LocVar) (n r : Z) (F : FuncState) : FuncState :=
  grown (Z.max (maxstacksize (f F)) r) r (scoped (nactvar F + n) l (with_bl (mkBlockCnt NO_JUMP (nactvar F) false false :: bl F) F)).

Lemma loop_fs_ok ms l n r F R :
  finv ms F R -> 0 <= n -> declared F n -> lenZ l = nlocvars F -> nactvar F + n <= r -> ms <= Z.max (maxstacksize (f F)) r -> r < MAXSTACK ->
  ok (loop_fs l n r F) R.
Proof using.
  intros Hi Hn Hd Hl Hr Hm Hr250. pose proof (vo_nactvar _ (fi_vars _ _ _ Hi)). pose proof (fi_stack _ _ _ Hi).
  unfold loop_fs. set (F2 := with_bl _ F).
  assert (Hv2 : vars_ok F2) by (by destruct (fi_vars _ _ _ Hi)).
  change (maxstacksize (f F)) with (maxstacksize (f (scoped (nactvar F + n) l F2))) in *.
  apply (catch_up ms _ (nactvar F)); [| |cbn; split; [lia|]|cbn in *; lia|cbn in *; lia].
  - destruct Hi. split; try done; cbn.
    + eapply jlists_perm; [apply Permutation_swap|]. by apply jlists_nojump.
    + eapply words_ok_mono; [..|exact fi_words]; try done. exact (k_refl (f F)).
    + apply (vars_ok_shrink (nactvar F) l F2) in Hv2; [by destruct Hv2|cbn; lia|done].
    + split; [lia|done].
  - apply (vars_ok_scoped n l F2); done.
  - eapply blocks_ok_mono; [|apply Hi]. lia.
Qed.

Lemma for_head_run {B} isnum base nvars (k : Z -> Comp B) s R Q :
  pst s R -> declared (fs s) nvars -> 0 <= base -> base + 3 <= freereg (fs s) -> 1 <= nvars ->
  (forall prep s1 s', estep s s1 -> sstep (entered false s1) s' -> pst s' (prep :: R) -> 0 <= prep < pc (fs s1) ->
     base + 3 + nvars <= maxstacksize (f (fs s')) -> run (k prep) s' Q) ->
  run (prep ← for_prep isnum base; enterblock false;; adjustlocalvars nvars;; luaK_reserveregs nvars;; k prep) s Q.
Proof using HL.
  intros Hp Hd Hb Hf Hn Hk. pose proof (pst_regs _ _ _ Hp) as Hr. assert (0 <= pc (fs s)) by apply lenZ_nonneg.
  eapply run_bind; [apply run_cgen; by apply (for_prep_spec isnum base s R)|].
  cbv beta. intros prep s1 (F1 & -> & Hi1 & Hk1 & -> & Hpc1). set (s1 := set_fs F1 s).
  assert (Hc1 : cext (fs s) F1) by apply Hk1. pose proof (cext_eext _ _ Hc1) as He1. destruct Hk1 as (_ & Hf1 & Hm1).
  pose proof (declared_eext _ _ _ He1 Hd) as Hd1. pose proof (cext_nactvar _ _ Hc1) as Hn1.
  pose proof (fi_vars _ _ _ Hi1) as Hv1. apply run_modify_bind. set (s2 := set_fs _ s1).
  assert (Hv2 : vars_ok (fs s2)) by (by destruct Hv1).
  eapply run_bind; [apply (adjustlocalvars_raw nvars s2 Hv2); [lia|exact Hd1]|]. cbv beta. intros _ s3 (l & -> & Hl).
  set (s3 := set_fs _ s2).
  eapply run_bind; [apply run_cgen, (reserve_exact s3 (ps_wf _ _ _ Hp)); [lia|change MAXSTACK with 250; cbn; lia|cbn; lia]|].
  cbv beta. intros _ s4 (F4 & -> & -> & Hlt). cbn [s3 s2 s1 set_fs fs] in Hlt. change (freereg _) with (freereg F1) in Hlt.
  match goal with |- run _ (set_fs ?G s3) _ => change (set_fs G s3) with (set_fs (loop_fs l nvars (freereg F1 + nvars) F1) s) end.
  assert (Hok : ok (loop_fs l nvars (freereg F1 + nvars) F1) (pc (fs s) :: R)).
  { eapply loop_fs_ok; [exact Hi1|lia|exact Hd1|exact Hl|lia|lia|done]. }
  apply (Hk _ s1); [by apply estep_fs| | |cbn; lia|cbn; lia].
  - apply (sstep_fs (entered false s1)). split; [cbn; lia|done|]. split; try done; [|cbn; lia]. exists []. by rewrite app_nil_r.
  - eapply pst_fs; [exact Hp| |cbn; pose proof (ce_static _ _ Hc1) as Hst; by injection Hst]. destruct (ps_fun _ _ _ Hp) as [_ Hu Hps].
    destruct (static_parts _ _ (ce_static _ _ Hc1)) as (_ & _ & Epr & Ebl). split; [done| |by cbn; rewrite Epr].
    unfold ups_ok. cbn. rewrite Ebl. constructor; [done|]. eapply Forall_impl; [|exact Hu]. cbn. intros b Hb1 Hb2. specialize (Hb1 Hb2). lia.
Qed.

Definition for_end (isnum : bool) (base line nvars prep : Z) : Comp unit :=
  endfor ← (if isnum then luaK_codeAsBx OP_FORLOOP base NO_JUMP else luaK_codeABC OP_TFORLOOP base 0 nvars);
  luaK_fixline line;;
  j ← (if isnum then mret endfor else luaK_jump);
  luaK_patchlist j (prep + 1).

Lemma fixline_run line s R : pst s R -> 0 < pc (fs s) -> run (luaK_fixline line) s (fun _ s' => pst s' R /\ cstep s s' /\ freereg (fs s') = freereg (fs s)).
Proof using HL.
  intros Hp Hpc. apply (run_gen N _ s R (fun _ => R) (fun _ F' => freereg F' = freereg (fs s)) Hp).
  eapply cgen_mono; [apply (fixline_spec s (fs s) R line (pst_ok _ _ _ Hp) Hpc)|]. cbv beta. intros _ F' (? & ? & ? & _). by split_and!.
Qed.

Lemma for_end_run isnum base line nvars prep s R :
  pst s R -> 0 <= base -> 1 <= nvars -> base + 3 + nvars <= maxstacksize (f (fs s)) -> 0 <= prep < pc (fs s) ->
  run (for_end isnum base line nvars prep) s (fun _ s' => pst s' R /\ cstep s s').
Proof using HL.
  intros Hp Hb Hn Hm Hpr. unfold for_end. pose proof (pst_regs _ _ _ Hp).
  apply (run_bind _ _ _ (fun e s' => pst s' (if isnum then e :: R else R) /\ cstep s s')).
  { destruct isnum.
    - eapply run_mono; [apply (run_gen N _ s R (fun e => e :: R) (fun _ _ => True) Hp)|].
      + eapply cgen_mono; [apply (codeAsBx_spec s (ps_wf _ _ _ Hp) _ OP_FORLOOP base R (fs s) (pst_ok _ _ _ Hp)); [done|maxargs; lia|]|].
        * cbn. repeat constructor; lia.
        * cbv beta. intros n F1 (Hi & Hk & _). split; [by apply (kept_ok (fs s))|]. by split; [apply Hk|].
      + cbv beta. intros e s1 (? & ? & _). by split.
    - eapply run_mono; [apply (code_run N OP_TFORLOOP base 0 nvars s R Hp); try done; [lia|maxargs; lia|]|].
      + intros bx. split; try done; try (by intros [|]). cbn. repeat constructor; lia.
      + cbv beta. intros e s1 (? & ? & _). by split. }
  cbv beta. intros e s1 (Hp1 & Hc1).
  eapply run_bind; [apply (fixline_run line s1 _ Hp1); nums|]. cbv beta. intros _ s2 (Hp2 & Hc2 & _).
  apply (run_bind _ _ _ (fun j s' => pst s' (j :: R) /\ cstep s2 s')).
  { destruct isnum; [apply run_ret; split; [done|reflexivity]|]. eapply run_mono; [by apply jump_run|].
    cbv beta. intros j s3 (? & ? & _). by split. }
  cbv beta. intros j s3 (Hp3 & Hc3). eapply run_mono; [apply (patchlist_run N j _ s3 R Hp3); nums|].
  cbv beta. intros _ s4 (Hp4 & Hc4 & _). split; [done|]. etrans; [exact Hc1|]. etrans; [exact Hc2|]. by etrans.
Qed.

Lemma declared_less F n m : declared F m -> n <= m -> declared F n.
Proof using. intros [H1 H2] Hn. split; [lia|]. intros i Hi. apply H2. lia. Qed.

Lemma declared_rest F F' n m :
  declared F (n + m) -> 0 <= n -> 0 <= m -> nactvar F' = nactvar F + n -> actvar F' = actvar F -> nlocvars F' = nlocvars F -> declared F' m.
Proof using. intros [H1 H2] Hn Hm En Ea El. split; [lia|]. rewrite Ea, El, En. intros i Hi. apply H2. lia. Qed.

Lemma forbody_run base line nvars isnum s R :
  pst s R -> declared (fs s) (3 + nvars) -> 0 <= base -> base + 3 <= freereg (fs s) -> nactvar (fs s) + 3 <= freereg (fs s) -> 1 <= nvars ->
  run (forbody chunk base line nvars isnum) s (fun _ s' => pst s' R /\ sstep s s').
Proof using HL Hchunk.
  intros Hp Hd Hb Hf Hr Hn. unfold forbody.
  eapply run_bind; [apply (adjustlocalvars_run N 3 s R Hp); [done|eapply declared_less; [done|lia]|lia]|].
  cbv beta. intros _ s1 (Hp1 & Hs1 & Hn1 & Hf1 & _ & Ha1 & Hl1).
  assert (Hd1 : declared (fs s1) nvars) by (eapply (declared_rest (fs s)); [exact Hd|done|lia|done..]).
  eapply run_bind; [apply checknext_run; [by split|done|lk]|]. cbv beta. intros _ s2 Hu2. tk Hp1.
  pose proof (ts_fs _ _ (proj1 Hu2)) as E2. rewrite <- E2 in Hd1, Hf1.
  apply (for_head_run isnum base nvars _ s2 R _ Hp0 Hd1 Hb ltac:(lia) Hn). intros prep s3 s4 Hs3 Hs4 Hp4 Hpr Hm4.
  eapply run_bind; [by apply block_run|]. cbv beta. intros _ s5 (Hp5 & Hs5 & _).
  assert (Hs35 : sstep (entered false s3) s5) by steps.
  eapply run_bind; [apply (leave_run N false s3 s5 _ Hp5 Hs35); nums|]. cbv beta. intros _ s6 (Hp6 & Hs6 & _ & _ & Hg6).
  eapply run_bind; [by apply patchtohere_run|]. cbv beta. intros _ s7 (Hp7 & Hc7 & _).
  destruct Hg6 as [_ _ Hm6 Hpc6 _].
  eapply run_mono; [apply (for_end_run isnum base line nvars prep s7 R Hp7); [done|done|nums|nums]|].
  cbv beta. intros _ s8 (Hp8 & Hc8). split; [done|steps].
Qed.

Lemma declared_estep s s' n : estep s s' -> declared (fs s) n -> declared (fs s') n.
Proof using. intros [_ _ He]. by apply declared_eext. Qed.

(** Four hidden or named variables of a loop *)
Lemma loop_vars_run {B} n1 n2 n3 n4 (k : Comp B) s R Q :
  pst s R ->
  (forall s', pst s' R -> sstep s s' -> declared (fs s') 4 -> nactvar (fs s') = nactvar (fs s) -> freereg (fs s') = freereg (fs s) ->
     run k s' Q) ->
  run (new_localvar n1 0;; new_localvar n2 1;; new_localvar n3 2;; new_localvar n4 3;; k) s Q.
Proof using HL.
  intros Hp Hk. eapply run_bind; [apply (new_localvar_run N n1 0 s R Hp); [done|exact (declared_0 _ (pst_vars _ _ _ Hp))]|].
  cbv beta. intros _ s1 (Hp1 & Hs1 & Hd1 & Hn1 & Hf1 & _).
  eapply run_bind; [by apply (new_localvar_run N n2 1 s1 R Hp1)|]. cbv beta. intros _ s2 (Hp2 & Hs2 & Hd2 & Hn2 & Hf2 & _).
  eapply run_bind; [by apply (new_localvar_run N n3 2 s2 R Hp2)|]. cbv beta. intros _ s3 (Hp3 & Hs3 & Hd3 & Hn3 & Hf3 & _).
  eapply run_bind; [by apply (new_localvar_run N n4 3 s3 R Hp3)|]. cbv beta. intros _ s4 (Hp4 & Hs4 & Hd4 & Hn4 & Hf4 & _).
  apply Hk; [done|steps|exact Hd4|lia|lia].
Qed.

(** The step of a loop without one *)
Lemma default_step_run s R :
  pst s R ->
  run (r ← get_fs freereg; i ← luaK_numberK (cast_num 1); luaK_codeABx OP_LOADK r i;; luaK_reserveregs 1) s
    (fun _ s' => pst s' R /\ cstep s s' /\ freereg (fs s') = freereg (fs s) + 1).
Proof using HL.
  intros Hp. apply run_gets. set (r := freereg (fs s)).
  eapply run_bind.
  { apply (run_gen N _ s R (fun _ => R) (fun i F' => freereg F' = r /\ 0 <= i < nk F' /\ nk F' <= MAXARG_Bx) Hp).
    eapply cgen_mono; [apply (const_spec s (ps_wf _ _ _ Hp) R (fs s) (VNumber (cast_num 1)) (pst_ok _ _ _ Hp))|].
    cbv beta. intros i F' (? & ? & ? & _ & _ & _ & ? & ? & _). conj; lia. }
  cbv beta. intros i s1 (Hp1 & Hc1 & Hf1 & Hi & Hk). pose proof (pst_regs _ _ _ Hp1). pose proof (finv_top s1 R Hp1) as Hi1.
  rewrite <- Hf1 in *.
  eapply run_mono; [apply (push_run _ (CREATE_ABx OP_LOADK (freereg (fs s1)) i) s1 R Hp1)|].
  - apply (codeABx_spec s1 (ps_wf _ _ _ Hp1)); try done; [maxargs; lia|maxargs; lia|]. intros b c. fits_tac.
  - cbv beta. intros _ s2 (Hp2 & Hc2 & Hf2). split; [done|]. split; [by etrans|done].
Qed.

Lemma fornum_run name line s R :
  pst s R -> run (fornum subexpr chunk name line) s (fun _ s' => pst s' R /\ sstep s s').
Proof using HL Hsub Hchunk.
  intros Hp. unfold fornum. apply run_gets. set (base := freereg (fs s)).
  eapply loop_vars_run; [exact Hp|]. intros s1 Hp1 Hs1 Hd1 Hn1 Hf1.
  eapply run_bind; [apply checknext_run; [by split|done|lk]|]. cbv beta. intros _ s2 Hu2. tk Hp1.
  eapply run_bind; [by apply exp1_run|]. cbv beta. intros _ s3 (Hp3 & Hs3 & Hf3 & _).
  eapply run_bind; [apply checknext_run; [by split|done|lk]|]. cbv beta. intros _ s4 Hu4. tk Hp3.
  eapply run_bind; [by apply exp1_run|]. cbv beta. intros _ s5 (Hp5 & Hs5 & Hf5 & _).
  eapply run_bind; [apply testnext_run; [done|lk]|]. cbv beta. intros comma s6 Hs6.
  assert (Hp6 : pst s6 R /\ estep s5 s6 /\ freereg (fs s6) = freereg (fs s5)).
  { destruct comma; [|subst s6; split; [done|split; [reflexivity|done]]]. tk Hp5. split; [done|]. split; [steps|nums]. }
  destruct Hp6 as (Hp6 & Hs56 & Hf6). clear Hs6.
  apply (run_bind _ _ _ (fun _ s7 => pst s7 R /\ estep s6 s7 /\ freereg (fs s7) = freereg (fs s6) + 1)).
  { destruct comma.
    - eapply run_bind; [by apply exp1_run|]. cbv beta. intros _ s7 (Hp7 & Hs7 & Hf7 & _). apply run_ret. by split.
    - eapply run_mono; [by apply default_step_run|]. cbv beta. intros _ s7 (Hp7 & Hc7 & Hf7). split; [done|]. split; [steps|done]. }
  cbv beta. intros _ s7 (Hp7 & Hs7 & Hf7). assert (Hs17 : estep s1 s7) by steps.
  assert (Hf : freereg (fs s7) = base + 3) by (unfold base; nums).
  eapply run_mono; [apply (forbody_run base line 1 true s7 R Hp7); [exact (declared_estep _ _ _ Hs17 Hd1)|unfold base; nums|lia|unfold base in *; nums|done]|].
  cbv beta. intros _ s8 (Hp8 & Hs8). split; [done|steps].
Qed.

Lemma forlist_names_run fuel n s R :
  (todo s < fuel)%nat -> pst s R -> 0 <= n -> declared (fs s) n ->
  run (forlist_names fuel n) s (fun n' s' => pst s' R /\ sstep s s' /\ n <= n' /\ declared (fs s') n' /\
    nactvar (fs s') = nactvar (fs s) /\ freereg (fs s') = freereg (fs s)).
Proof using HL.
  revert n s. induction fuel as [|fuel IH]; intros n s Hf Hp Hn Hd; [lia|]. cbn [forlist_names].
  eapply run_bind; [apply testnext_run; [done|lk]|]. cbv beta. intros [] s1 Hs1.
  - tk Hp. eapply run_bind; [apply str_checkname_run; lk|]. cbv beta. intros name s2 Hu2. tk Hp0.
    assert (Hs2 : estep s s2) by steps.
    eapply run_bind; [apply (new_localvar_run N name n s2 R Hp1 Hn); by apply (declared_estep s)|].
    cbv beta. intros _ s3 (Hp3 & Hs3 & Hd3 & Hn3 & Hf3 & Hl3).
    eapply run_mono; [apply (IH (n + 1) s3); [nums|done|lia|done]|].
    cbv beta. intros n' s4 (Hp4 & Hs4 & Hn4 & Hd4 & Ha4 & Hf4). split; [done|]. split; [steps|]. split; [lia|]. split; [done|]. split; nums.
  - subst s1. apply run_ret. split; [done|]. split; [reflexivity|]. by split.
Qed.

Lemma checkstack_run n s R :
  pst s R -> 0 <= n -> run (luaK_checkstack n) s (fun _ s' => pst s' R /\ cstep s s' /\ freereg (fs s') = freereg (fs s) /\
    freereg (fs s) + n <= maxstacksize (f (fs s'))).
Proof using HL.
  intros Hp Hn. apply (run_gen N _ s R (fun _ => R) (fun _ F' => freereg F' = freereg (fs s) /\ freereg (fs s) + n <= maxstacksize (f F')) Hp).
  eapply cgen_mono; [apply (checkstack_spec s (ps_wf _ _ _ Hp) _ n R (fs s) (pst_ok _ _ _ Hp) Hn); lia|].
  cbv beta. intros _ F' (? & ? & ? & _ & _ & _ & ?). by split_and!.
Qed.

Lemma forlist_run name s R :
  pst s R -> run (forlist subexpr chunk name) s (fun _ s' => pst s' R /\ sstep s s').
Proof using HL Hsub Hchunk.
  intros Hp. unfold forlist. apply run_gets. set (base := freereg (fs s)).
  eapply loop_vars_run; [exact Hp|]. intros s1 Hp1 Hs1 Hd1 Hn1 Hf1. apply token_rounds_run. intros fuel Hfuel.
  eapply run_bind; [by apply (forlist_names_run fuel 4 s1 R)|]. cbv beta. intros n s2 (Hp2 & Hs2 & Hn2 & Hd2 & Ha2 & Hf2).
  eapply run_bind; [apply checknext_run; [by split|done|lk]|]. cbv beta. intros _ s3 Hu3. tk Hp2. apply run_gets.
  eapply run_bind; [by apply explist1_run|]. cbv beta. intros [m e] s4 (Hm & He & Hs4 & _).
  assert (Hf3 : freereg (fs s3) = base) by (unfold base; nums).
  eapply run_bind; [apply (adjust_assign_run N 3 m e base s4 R); [right; rewrite <- Hf3; by split|unfold base; nums|lia]|].
  cbv beta. intros _ s5 (Hp5 & Hc5 & Hf5).
  eapply run_bind; [apply (checkstack_run 3 s5 R Hp5); done|]. cbv beta. intros _ s6 (Hp6 & Hc6 & Hf6 & _).
  assert (Hs26 : estep s2 s6) by steps. assert (Hb : 0 <= base) by (unfold base; nums).
  eapply run_mono; [apply (forbody_run base _ (n - 3) false s6 R Hp6); [|exact Hb|lia|unfold base in *; nums|lia]|].
  - replace (3 + (n - 3)) with n by lia. exact (declared_estep _ _ _ Hs26 Hd2).
  - cbv beta. intros _ s8 (Hp8 & Hs8). split; [done|steps].
Qed.

Lemma forstat_run line s R :
  pst s R -> token (t (ls s)) <> TK_EOS -> run (forstat subexpr chunk line) s (fun _ => stat_post s R).
Proof using HL Hsub Hchunk.
  intros Hp Ht. unfold forstat. eapply run_bind; [by apply enterblock_run|]. cbv beta. intros _ e [-> Hpe].
  pose proof (entered_facts true s) as (T1 & T2 & _).
  eapply run_bind; [apply next_used; [exact Ht|lk]|]. cbv beta. intros _ s1 Hu1. tk Hpe.
  eapply run_bind; [apply str_checkname_run; lk|]. cbv beta. intros name s2 Hu2. tk Hp0. apply run_gets.
  apply (run_bind _ _ _ (fun _ s3 => pst s3 R /\ sstep s2 s3)).
  { destruct (_ =? _); [by apply fornum_run|]. destruct (_ || _); [by apply forlist_run|apply syntaxerror_run; lk]. }
  cbv beta. intros _ s3 (Hp3 & Hs3). eapply run_bind; [apply check_match_run; [by split|by split|done|lk]|]. cbv beta. intros _ s4 Hu4. tk Hp3.
  assert (Hs4 : sstep (entered true s) s4) by steps.
  eapply run_mono; [apply (leave_run N true s s4 R Hp2 Hs4); nums|]. cbv beta. intros _ s5 (Hp5 & Hs5 & _ & Hl5 & _).
  split; [done|]. split; [steps|]. assert (todo s5 = todo s4) by (unfold todo; by rewrite Hl5). nums.
Qed.

(** *** Conditional statements *)

Lemma test_then_block_run s R :
  pst s R -> token (t (ls s)) <> TK_EOS ->
  run (test_then_block subexpr chunk) s (fun j s' => pst s' (j :: R) /\ sstep s s' /\ (todo s' < todo s)%nat).
Proof using HL Hsub Hchunk.
  intros Hp Ht. unfold test_then_block. eapply run_bind; [apply next_used; [done|lk]|]. cbv beta. intros _ s1 Hu1. tk Hp.
  eapply run_bind; [by apply cond_run|]. cbv beta. intros j s2 (Hp2 & Hs2 & _).
  eapply run_bind; [apply checknext_run; [by split|done|lk]|]. cbv beta. intros _ s3 Hu3. tk Hp2.
  eapply run_bind; [by apply block_run|]. cbv beta. intros _ s4 (Hp4 & Hs4 & _). apply run_ret. split; [done|]. split; [steps|nums].
Qed.

(** The jump over the rest, at the end of a part: both lists go on. *)
Lemma escape_run {B} esc fl (k : Z -> Comp B) s R Q :
  pst s (esc :: fl :: R) -> (forall esc' s', pst s' (esc' :: R) -> cstep s s' -> run (k esc') s' Q) ->
  run (j ← luaK_jump; esc ← luaK_concat esc j; luaK_patchtohere fl;; k esc) s Q.
Proof using HL.
  intros Hp Hk. eapply run_bind; [by apply jump_run|]. cbv beta. intros j s1 (Hp1 & Hc1 & _).
  apply (pst_perm N s1 _ (esc :: j :: fl :: R)) in Hp1; [|apply Permutation_swap].
  eapply run_bind; [by apply concat_run|]. cbv beta. intros esc' s2 (Hp2 & Hc2 & _).
  apply (pst_perm N s2 _ (fl :: esc' :: R)) in Hp2; [|apply Permutation_swap].
  eapply run_bind; [by apply patchtohere_run|]. cbv beta. intros _ s3 (Hp3 & Hc3 & _).
  apply Hk; [done|]. etrans; [exact Hc1|]. by etrans.
Qed.

Lemma elseif_loop_run fuel esc fl s R :
  (todo s < fuel)%nat -> pst s (esc :: fl :: R) ->
  run (elseif_loop subexpr chunk fuel esc fl) s (fun '(esc', fl') s' => pst s' (esc' :: fl' :: R) /\ sstep s s').
Proof using HL Hsub Hchunk.
  revert esc fl s. induction fuel as [|fuel IH]; intros esc fl s Hf Hp; [lia|]. cbn [elseif_loop]. apply run_gets.
  destruct (Z.eqb_spec (token (t (ls s))) TK_ELSEIF) as [E|E]; [|apply run_ret; split; [done|reflexivity]].
  apply (escape_run esc fl _ s R _ Hp). intros esc' s1 Hp1 Hc1.
  eapply run_bind; [apply (test_then_block_run s1 _ Hp1); by rewrite (cstep_ls _ _ Hc1), E|]. cbv beta. intros fl' s2 (Hp2 & Hs2 & Hlt2).
  apply (pst_perm N s2 _ (esc' :: fl' :: R)) in Hp2; [|apply Permutation_swap].
  eapply run_mono; [apply (IH esc' fl' s2); [nums|done]|]. cbv beta. intros [e2 f2] s3 (Hp3 & Hs3). split; [done|steps].
Qed.

Lemma ifstat_run line s R :
  pst s R -> token (t (ls s)) <> TK_EOS -> run (ifstat subexpr chunk line) s (fun _ => stat_post s R).
Proof using HL Hsub Hchunk.
  intros Hp Ht. unfold ifstat. eapply run_bind; [by apply test_then_block_run|]. cbv beta. intros fl s1 (Hp1 & Hs1 & Hlt1).
  apply token_rounds_run. intros fuel Hfuel.
  eapply run_bind; [apply (elseif_loop_run fuel NO_JUMP fl s1 R Hfuel); by apply nojump_pst|]. cbv beta. intros [esc fl2] s2 (Hp2 & Hs2).
  apply run_gets. apply (run_bind _ _ _ (fun esc' s3 => pst s3 (esc' :: R) /\ sstep s2 s3)).
  { destruct (Z.eqb_spec (token (t (ls s2))) TK_ELSE) as [E|E].
    - apply (escape_run esc fl2 _ s2 R _ Hp2). intros esc' s3 Hp3 Hc3.
      eapply run_bind; [apply next_used; [by rewrite (cstep_ls _ _ Hc3), E|lk]|]. cbv beta. intros _ s4 Hu4. tk Hp3.
      eapply run_bind; [by apply block_run|]. cbv beta. intros _ s5 (Hp5 & Hs5 & _). apply run_ret. split; [done|steps].
    - eapply run_mono; [by apply concat_run|]. cbv beta. intros esc' s3 (Hp3 & Hc3 & _). split; [done|steps]. }
  cbv beta. intros esc' s3 (Hp3 & Hs3). eapply run_bind; [by apply patchtohere_run|]. cbv beta. intros _ s4 (Hp4 & Hc4 & _).
  eapply run_mono; [apply check_match_run; [by split|by split|done|lk]|]. cbv beta. intros _ s5 Hu5. tk Hp4.
  split; [done|]. split; [steps|nums].
Qed.

(** *** Local variables and functions *)

Lemma modify_locvar_run g i s R :
  pst s R -> 0 <= i < nactvar (fs s) -> run (modify_locvar g i) s (fun _ s' => pst s' R /\ sstep s s' /\ ls s' = ls s).
Proof using.
  intros Hp Hi. pose proof (pst_vars _ _ _ Hp) as Hv. eapply run_mono; [by apply (modify_locvar_raw g i s Hv)|].
  cbv beta. intros _ s' (l & -> & Hl). pose proof (vars_ok_locvars l (fs s) Hv Hl) as Hv'.
  assert (E : with_f (with_locvars l (f (fs s))) (fs s) = with_vars (nactvar (fs s)) (actvar (fs s)) l (fs s)) by (by destruct (fs s)).
  rewrite E in *. pose proof (pst_regs _ _ _ Hp). split; [|split; [|done]].
  - eapply pst_fs; [exact Hp| |done]. apply with_vars_fun_ok; [apply Hp|exact Hv'|lia|exact (pst_blocks _ _ _ Hp)].
  - by apply sstep_fs, with_vars_fext.
Qed.

Lemma localfunc_run s R : pst s R -> run (localfunc chunk) s (fun _ s' => pst s' R /\ sstep s s').
Proof using HL Hchunk.
  intros Hp. unfold localfunc. eapply run_bind; [apply str_checkname_run; lk|]. cbv beta. intros name s1 Hu1. tk Hp.
  eapply run_bind; [apply (new_localvar_run N name 0 s1 R Hp0); [done|exact (declared_0 _ (pst_vars _ _ _ Hp0))]|].
  cbv beta. intros _ s2 (Hp2 & Hs2 & Hd2 & Hn2 & Hf2 & _). apply run_gets.
  eapply run_bind; [by apply (reserve_run N 1 s2 R Hp2)|]. cbv beta. intros _ s3 (Hp3 & Hc3 & Hf3).
  eapply run_bind; [apply (adjustlocalvars_run N 1 s3 R Hp3); [done|exact (declared_estep _ _ _ (cstep_estep _ _ Hc3) Hd2)|nums]|].
  cbv beta. intros _ s4 (Hp4 & Hs4 & Hn4 & Hf4 & _). apply run_gets.
  eapply run_bind; [by apply body_run|]. cbv beta. intros b s5 (Hb & Hs5 & _ & Ek).
  eapply run_bind; [apply (storevar_run N s5 R (freereg (fs s4)) (init_exp VLOCAL (freereg (fs s2))) b Hb); [by rewrite Ek|]|].
  - unfold var_ok. cbn. nums.
  - cbv beta. intros _ s6 (Hp6 & Hc6 & _). apply run_gets.
    eapply run_mono; [apply (modify_locvar_run _ _ s6 R Hp6); nums|]. cbv beta. intros _ s7 (Hp7 & Hs7 & _). split; [done|steps].
Qed.

Lemma local_names_run fuel n s R :
  (todo s < fuel)%nat -> pst s R -> 0 <= n -> declared (fs s) n ->
  run (local_names fuel n) s (fun n' s' => pst s' R /\ sstep s s' /\ 0 <= n' /\ declared (fs s') n' /\
    nactvar (fs s') = nactvar (fs s) /\ freereg (fs s') = freereg (fs s)).
Proof using HL.
  revert n s. induction fuel as [|fuel IH]; intros n s Hf Hp Hn Hd; [lia|]. cbn [local_names].
  eapply run_bind; [apply str_checkname_run; lk|]. cbv beta. intros name s1 Hu1. tk Hp. assert (Hs1 : estep s s1) by steps.
  eapply run_bind; [apply (new_localvar_run N name n s1 R Hp0 Hn); by apply (declared_estep s)|].
  cbv beta. intros _ s2 (Hp2 & Hs2 & Hd2 & Hn2 & Hf2 & Hl2).
  eapply run_bind; [apply testnext_run; [done|lk]|]. cbv beta. intros [] s3 Hs3.
  - tk Hp2. assert (Hs23 : estep s2 s3) by steps.
    eapply run_mono; [apply (IH (n + 1) s3); [nums|done|lia|by apply (declared_estep s2)]|].
    cbv beta. intros n' s4 (Hp4 & Hs4 & Hn4 & Hd4 & Ha4 & Hf4). split; [done|]. split; [steps|]. split; [lia|]. split; [done|]. split; nums.
  - subst s3. apply run_ret. split; [done|]. split; [steps|]. split; [lia|]. split; [done|]. split; nums.
Qed.

Lemma localstat_run s R : pst s R -> run (localstat subexpr) s (fun _ s' => pst s' R /\ sstep s s').
Proof using HL Hsub.
  intros Hp. unfold localstat. apply token_rounds_run. intros fuel Hfuel.
  eapply run_bind; [apply (local_names_run fuel 0 s R Hfuel Hp); [done|exact (declared_0 _ (pst_vars _ _ _ Hp))]|].
  cbv beta. intros n s1 (Hp1 & Hs1 & Hn1 & Hd1 & Ha1 & Hf1).
  eapply run_bind; [apply testnext_run; [done|lk]|]. cbv beta. intros b s2 Hs2.
  assert (Hp2 : pst s2 R /\ estep s1 s2 /\ freereg (fs s2) = freereg (fs s)).
  { destruct b; [|subst s2; split; [done|]; split; [reflexivity|done]]. tk Hp1. split; [done|]. split; [steps|nums]. }
  clear Hs2. destruct Hp2 as (Hp2 & Hs2 & Hf2).
  apply (run_bind _ _ _ (fun '(m, e) s3 => explist_ok N s3 R (freereg (fs s)) m e /\ estep s2 s3)).
  { destruct b.
    - eapply run_mono; [by apply explist1_run|]. cbv beta. intros [m e] s3 (Hm & He & Hs3 & _). split; [|done]. right. rewrite <- Hf2. by split.
    - apply run_ret. split; [|reflexivity]. left. by split_and!. }
  cbv beta. intros [m e] s3 (He & Hs3). assert (Hn : n <= 200) by (destruct Hd1 as [Hd1 _]; change LUAI_MAXVARS with 200 in Hd1; nums).
  eapply run_bind; [apply (adjust_assign_run N n m e (freereg (fs s)) s3 R He); [nums|lia]|]. cbv beta. intros _ s4 (Hp4 & Hc4 & Hf4).
  assert (Hs14 : estep s1 s4) by steps.
  eapply run_mono; [apply (adjustlocalvars_run N n s4 R Hp4 Hn1); [exact (declared_estep _ _ _ Hs14 Hd1)|nums]|].
  cbv beta. intros _ s5 (Hp5 & Hs5 & _). split; [done|steps].
Qed.

Lemma funcname_loop_run fuel v r s R :
  (todo s < fuel)%nat -> pexp s R r v -> is_variable (ek v) = true ->
  run (funcname_loop fuel v) s (fun e s' => pexp s' R r e /\ is_variable (ek e) = true /\ estep s s').
Proof using HL.
  revert v s. induction fuel as [|fuel IH]; intros v s Hf Hv Hk; [lia|]. cbn [funcname_loop]. apply run_gets.
  destruct (Z.eqb_spec (token (t (ls s))) (ch ".")) as [E|E]; [|apply run_ret; split; [done|]; split; [done|reflexivity]].
  eapply run_bind; [apply (field_run s R r v Hv); by rewrite E|]. cbv beta. intros e s1 (He & Hs1 & Ek & Hlt).
  eapply run_mono; [apply (IH e s1); [lia|done|by rewrite Ek]|]. cbv beta. intros e' s2 (? & ? & ?). split; [done|]. split; [done|steps].
Qed.

Lemma funcname_run s R :
  pst s R -> run funcname s (fun '(_, e) s' => pexp s' R (freereg (fs s)) e /\ is_variable (ek e) = true /\ estep s s').
Proof using HL.
  intros Hp. unfold funcname. eapply run_bind; [by apply singlevar_run|]. cbv beta. intros v s1 (Hv & Hs1 & Hf1 & Hk & _). rewrite Hf1 in Hv.
  apply token_rounds_run. intros fuel Hfuel.
  eapply run_bind; [by apply (funcname_loop_run fuel v (freereg (fs s)) s1 R)|]. cbv beta. intros e s2 (He & Hk2 & Hs2). apply run_gets.
  destruct (Z.eqb_spec (token (t (ls s2))) (ch ":")) as [E|E].
  - eapply run_bind; [apply (field_run s2 R _ e He); by rewrite E|]. cbv beta. intros e3 s3 (He3 & Hs3 & Ek & _). apply run_ret.
    split; [done|]. split; [by rewrite Ek|steps].
  - apply run_ret. split; [done|]. split; [done|steps].
Qed.

Lemma funcstat_run line s R :
  pst s R -> token (t (ls s)) <> TK_EOS -> run (funcstat chunk line) s (fun _ => stat_post s R).
Proof using HL Hchunk.
  intros Hp Ht. unfold funcstat. eapply run_bind; [apply next_used; [done|lk]|]. cbv beta. intros _ s1 Hu1. tk Hp.
  eapply run_bind; [by apply funcname_run|]. cbv beta. intros [self v] s2 (Hv & Hk & Hs2). destruct (pexp_var _ _ _ _ Hv Hk) as [Hp2 Hvar].
  eapply run_bind; [by apply body_run|]. cbv beta. intros b s3 (Hb & Hs3 & _ & Ek).
  assert (Hpc : 0 < pc (fs s3)).
  { pose proof (px_exp _ _ _ _ _ Hb) as Hx. unfold exp_ok in Hx. rewrite Ek in Hx. destruct Hx as ((w & Hq & _) & _). apply getZ_Some in Hq. unfold pc, sizecode. lia. }
  eapply run_bind; [apply (storevar_run N s3 R _ v b Hb); [by rewrite Ek|by apply (var_ok_estep s2)]|]. cbv beta. intros _ s4 (Hp4 & Hc4 & _).
  eapply run_mono; [apply (fixline_run line s4 R Hp4); nums|]. cbv beta. intros _ s5 (Hp5 & Hc5 & _). split; [done|]. split; [steps|nums].
Qed.

(** *** Calls and returns *)

Lemma call_word s R r e :
  pexp s R r e -> ek e = VCALL -> pst s R /\ exists w, getZ (code (f (fs s))) (info e) = Some w /\ op_of (GET_OPCODE w) = Some OP_CALL.
Proof using.
  intros He Ek. destruct (plain_jumps N _ _ _ _ He ltac:(left; by rewrite Ek)) as [E1 E2]. destruct He as [Hp Hx _ _].
  unfold roots in Hp. rewrite E1, E2, Ek in Hp. split; [by apply pst_nojump, pst_nojump|].
  unfold exp_ok in Hx. rewrite Ek in Hx. destruct Hx as ((w & Hq & Ho & _) & _). by exists w.
Qed.

(** The call of a statement has no results. *)
Lemma exprstat_run s R : pst s R -> run (exprstat subexpr) s (fun _ => stat_post s R).
Proof using HL Hsub HN.
  intros Hp. unfold exprstat. eapply run_bind; [by apply primaryexp_run|]. cbv beta. intros v s1 (Hv & Hs1 & Hlt).
  case_bool_decide as Ek.
  - destruct (call_word _ _ _ _ Hv Ek) as (Hp1 & w & Hq & Ho). eapply get_code_run; [exact Hq|].
    destruct (fi_words _ _ _ (pst_ok _ _ _ Hp1) _ _ Hq) as (Hu & o & Ho' & [Hregs _ _ _ _] & _). rewrite Ho in Ho'. injection Ho' as <-.
    destruct (SETARG_C_fields w 1 Hu) as (H1 & H2 & H3 & H4 & H5); [maxargs; lia|].
    eapply run_mono; [apply (set_code_run (info v) w _ OP_CALL s1 R Hp1 Hq Ho); try done|].
    + rewrite H3, H4, H5. split; try done; try (by intros [|]). cbn [regs_of] in *.
      pose proof (Forall_inv Hregs) as Ha. apply Forall_inv_tail, list.Forall_app in Hregs as [Hb _].
      constructor; [done|]. apply list.Forall_app. split; [done|constructor].
    + cbv beta. intros _ s2 (Hp2 & Hc2 & _). split; [done|]. split; [steps|nums].
  - eapply run_bind; [apply (assignment_run _ [] v 1 (freereg (fs s)) s1 R Hv); [constructor|lia|done]|].
    cbv beta. intros lh s2 (Hp2 & Hs2 & _). apply run_ret. split; [done|]. split; [steps|nums].
Qed.

Lemma SET_OPCODE_fields w o :
  is_u32 w -> is_u32 (SET_OPCODE w o) /\ GET_OPCODE (SET_OPCODE w o) = op_num o /\ GETARG_A (SET_OPCODE w o) = GETARG_A w /\
  GETARG_B (SET_OPCODE w o) = GETARG_B w /\ GETARG_C (SET_OPCODE w o) = GETARG_C w.
Proof using.
  intros Hw. split_and!.
  - field_bits. apply setfield_u32; (done || lia).
  - field_bits. rewrite get_setfield_same by (done || lia). by destruct o.
  - field_bits. apply get_setfield_other; (done || lia).
  - field_bits. apply get_setfield_other; (done || lia).
  - field_bits. apply get_setfield_other; (done || lia).
Qed.

(** The instruction of a call becomes that of a tail call. *)
Lemma tailcall_run q w s R :
  pst s R -> getZ (code (f (fs s))) q = Some w -> op_of (GET_OPCODE w) = Some OP_CALL ->
  run (set_code q (SET_OPCODE w OP_TAILCALL)) s (fun _ s' => pst s' R /\ cstep s s').
Proof using.
  intros Hp Hq Ho. set (v := SET_OPCODE w OP_TAILCALL). pose proof (pst_ok _ _ _ Hp) as Hi.
  destruct (fi_words _ _ _ Hi _ _ Hq) as (Hu & o & Ho' & [Hregs _ _ _ _] & _). rewrite Ho in Ho'. injection Ho' as <-.
  destruct (SET_OPCODE_fields w OP_TAILCALL Hu) as (H1 & H2 & H3 & H4 & H5). fold v in H1, H2, H3, H4, H5.
  assert (Hov : op_of (GET_OPCODE v) = Some OP_TAILCALL) by (by rewrite H2).
  assert (Hwd : word_ok (maxstacksize (f (fs s))) (f (fs s)) (pc (fs s)) q v).
  { split; [done|]. exists OP_TAILCALL. split; [done|]. split; [|done]. rewrite H3, H4, H5. split; try done; try (by intros [|]).
    cbn [regs_of] in *. pose proof (Forall_inv Hregs) as Ha. apply Forall_inv_tail, list.Forall_app in Hregs as [Hb _]. by constructor. }
  eapply run_mono; [apply (run_gen N _ s R (fun _ => R) (fun _ _ => True) Hp)|].
  - eapply cgen_set; [exact Hq|]. split; [|split; [|done]].
    + destruct Hi. split; try done; cbn in *.
      * destruct fi_lists as (L & HL' & Hg). exists L. split; [done|]. eapply glists_set_other; [exact Hg|exact Hq| |].
        -- by eapply jump_word_not.
        -- intros Hpd. by destruct (not_pending_op _ _ Hov ltac:(done) Hpd).
      * by apply words_ok_set.
      * unfold pc, sizecode in *. cbn. by rewrite lenZ_setZ.
      * unfold pc, sizecode in *. cbn. by rewrite lenZ_setZ.
      * by apply (vars_ok_static (fs s)).
    + split; try done.
      * exists []. by rewrite app_nil_r.
      * unfold pc, sizecode. cbn. rewrite lenZ_setZ. lia.
      * intros x Hx. cbn. destruct (op_at_inv _ _ _ Hx) as (wx & Hqx & Hox).
        assert (x <> q) by (intros ->; congruence). unfold op_at in *. by rewrite getZ_setZ_ne.
  - cbv beta. intros _ s' (? & ? & _). by split.
Qed.

(** The values that are returned *)
Definition returned s (first nret : Z) : Prop :=
  0 <= first < maxstacksize (f (fs s)) /\ -1 <= nret /\ first + nret <= maxstacksize (f (fs s)).

Lemma multiple_return_run n r e s R :
  pexp s R r e -> hasmultret (ek e) = true ->
  run (luaK_setmultret e;;
       (if bool_decide (ek e = VCALL) && (n =? 1) then
          i ← get_code (info e); set_code (info e) (SET_OPCODE i OP_TAILCALL)
        else mret tt);;
       first ← get_fs nactvar; mret (first, LUA_MULTRET)) s
    (fun '(first, nret) s' => pst s' R /\ estep s s' /\ returned s' first nret).
Proof using HL.
  intros He Hm. eapply run_bind; [by apply (setmultret_run N s R r e He)|]. cbv beta. intros _ s1 (Hp1 & Hc1 & Hf1 & Hcall).
  apply (run_bind _ _ _ (fun _ s2 => pst s2 R /\ cstep s1 s2)).
  { destruct (bool_decide (ek e = VCALL)) eqn:Hk; cbn [andb]; [|apply run_ret; split; [done|reflexivity]].
    apply bool_decide_eq_true in Hk. destruct (n =? 1); [|apply run_ret; split; [done|reflexivity]].
    destruct (Hcall Hk) as (w & Hq & Ho). eapply get_code_run; [exact Hq|]. by apply tailcall_run. }
  cbv beta. intros _ s2 (Hp2 & Hc2). apply run_gets, run_ret. split; [done|]. split; [steps|].
  unfold returned, LUA_MULTRET. nums.
Qed.

Lemma retstat_run s R :
  pst s R -> token (t (ls s)) <> TK_EOS -> run (retstat subexpr) s (fun _ => stat_post s R).
Proof using HL Hsub.
  intros Hp Ht. unfold retstat. eapply run_bind; [apply next_used; [done|lk]|]. cbv beta. intros _ s1 Hu1. tk Hp. apply run_gets.
  apply (run_bind _ _ _ (fun '(first, nret) s2 => pst s2 R /\ estep s1 s2 /\ returned s2 first nret)).
  { destruct (_ || _).
    { apply run_ret. split; [done|]. split; [reflexivity|]. unfold returned. nums. }
    eapply run_bind; [by apply explist1_run|]. cbv beta. intros [n e] s2 (Hn & He & Hs2 & _).
    destruct (hasmultret (ek e)) eqn:Hm.
    { eapply run_mono; [by apply (multiple_return_run n _ e s2 R He)|]. cbv beta. intros [first nret] s3 (? & ? & ?). split; [done|]. split; [steps|done]. }
    destruct (Z.eqb_spec n 1) as [->|Hne].
    - eapply run_bind; [by apply (exp2anyreg_run N s2 R _ e He)|]. cbv beta. intros e3 s3 (Hp3 & Hc3 & _ & Htmp). apply run_ret.
      split; [done|]. split; [steps|]. unfold returned. apply temp_range in Htmp; nums.
    - eapply run_bind; [by apply (exp2nextreg_run N s2 R _ e He)|]. cbv beta. intros e3 s3 (Hp3 & Hc3 & Hf3 & _). apply run_gets, run_ret.
      split; [done|]. split; [steps|]. unfold returned. nums. }
  cbv beta. intros [first nret] s2 (Hp2 & Hs2 & Hr1 & Hr2 & Hr3).
  eapply run_mono; [apply (run_gen N _ s2 R (fun _ => R) (fun _ _ => True) Hp2)|].
  - eapply cgen_mono; [apply (ret_spec s2 (ps_wf _ _ _ Hp2) (fs s2) R first nret (pst_ok _ _ _ Hp2) Hr1 Hr2 Hr3)|].
    cbv beta. intros _ F' (? & ? & _). by split_and!.
  - cbv beta. intros _ s3 (Hp3 & Hc3 & _). split; [done|]. split; [steps|nums].
Qed.

(** *** Statements and chunks *)

Lemma then_false {A} (m : Comp A) b s (P : CompState Z' -> Prop) : run m s (fun _ => P) -> run (m;; mret b) s (fun (_ : bool) => P).
Proof using. intros Hm. eapply run_bind; [exact Hm|]. cbv beta. intros _ s' H. by apply run_ret. Qed.

Lemma statement_run s R :
  pst s R -> token (t (ls s)) <> TK_EOS -> run (statement subexpr chunk) s (fun _ => stat_post s R).
Proof using HL Hsub Hchunk HN.
  intros Hp Ht. unfold statement. apply run_gets, run_gets. set (k := token (t (ls s))) in *.
  destruct (k =? TK_IF); [by apply then_false, ifstat_run|].
  destruct (k =? TK_WHILE); [by apply then_false, whilestat_run|].
  destruct (k =? TK_DO).
  { eapply run_bind; [apply next_used; [done|lk]|]. cbv beta. intros _ s1 Hu1. tk Hp.
    eapply run_bind; [by apply block_run|]. cbv beta. intros _ s2 (Hp2 & Hs2 & _).
    eapply run_bind; [apply check_match_run; [by split|by split|done|lk]|]. cbv beta. intros _ s3 Hu3. tk Hp2.
    apply run_ret. split; [done|]. split; [steps|nums]. }
  destruct (k =? TK_FOR); [by apply then_false, forstat_run|].
  destruct (k =? TK_REPEAT); [by apply then_false, repeatstat_run|].
  destruct (k =? TK_FUNCTION); [by apply then_false, funcstat_run|].
  destruct (k =? TK_LOCAL).
  { eapply run_bind; [apply next_used; [done|lk]|]. cbv beta. intros _ s1 Hu1. tk Hp.
    eapply run_bind; [apply testnext_run; [done|lk]|]. cbv beta. intros b s2 Hs2.
    assert (Hp2 : pst s2 R /\ sstep s1 s2).
    { destruct b; [|subst s2; split; [done|reflexivity]]. tk Hp0. split; [done|steps]. }
    clear Hs2. destruct Hp2 as [Hp2 Hs2].
    apply (run_bind _ _ _ (fun _ s3 => pst s3 R /\ sstep s2 s3)); [destruct b; [by apply localfunc_run|by apply localstat_run]|].
    cbv beta. intros _ s3 (Hp3 & Hs3). apply run_ret. split; [done|]. split; [steps|nums]. }
  destruct (k =? TK_RETURN); [by apply then_false, retstat_run|].
  destruct (k =? TK_BREAK); [|by apply then_false, exprstat_run].
  eapply run_bind; [apply next_used; [done|lk]|]. cbv beta. intros _ s1 Hu1. tk Hp.
  eapply run_bind; [by apply breakstat_run|]. cbv beta. intros _ s2 (Hp2 & Hs2 & _). apply run_ret. split; [done|]. split; [steps|nums].
Qed.

Lemma chunk_loop_run fuel s R :
  (todo s < fuel)%nat -> pst s R -> run (chunk_loop subexpr chunk fuel) s (fun _ s' => pst s' R /\ sstep s s').
Proof using HL Hsub Hchunk HN.
  revert s. induction fuel as [|fuel IH]; intros s Hf Hp; [lia|]. cbn [chunk_loop]. apply run_gets.
  destruct (block_follow _) eqn:Hb; [apply run_ret; split; [done|reflexivity]|].
  eapply run_bind; [apply (statement_run s R Hp)|].
  { intros E. unfold block_follow in Hb. rewrite E in Hb. done. }
  cbv beta. intros islast s1 (Hp1 & Hs1 & Hlt). eapply run_bind; [apply testnext_run; [done|lk]|]. cbv beta. intros b s2 Hs2.
  assert (Hp2 : pst s2 R /\ sstep s1 s2).
  { destruct b; [|subst s2; split; [done|reflexivity]]. tk Hp1. split; [done|steps]. }
  clear Hs2. destruct Hp2 as [Hp2 Hs2].
  apply (set_freereg_run (nactvar (fs s2)) _ s2 R _ Hp2); [nums|]. intros s3 Hp3 Hc3 _ _.
  destruct islast; [apply run_ret; split; [done|steps]|].
  eapply run_mono; [apply (IH s3); [nums|done]|]. cbv beta. intros _ s4 (Hp4 & Hs4). split; [done|steps].
Qed.

Lemma chunk_rule_run s R :
  pst s R -> run (chunk_rule subexpr chunk) s (fun _ s' => pst s' R /\ sstep s s').
Proof using HL Hsub Hchunk HN.
  intros Hp. unfold chunk_rule. apply token_rounds_run. intros fuel Hfuel. by apply chunk_loop_run.
Qed.
End safety.

(** ** The whole grammar *)

Section grammar.
Context {Z' : Type} `{HS : ByteStream Z'} `{HL : !ByteStreamLaws Z'} `{HM : LibM}.
Abbreviation Comp := (ST (CompState Z')).
Implicit Types s : CompState Z'.

Lemma enterlevel_run N s R :
  pst N s R -> run enterlevel s (fun _ s' => pst (N + 1) s' R /\ estep s s' /\ fs s' = fs s /\ N + 1 <= LUAI_MAXCCALLS).
Proof using HL.
  intros Hp. unfold enterlevel. apply run_modify_bind. set (s1 := mkCompState _ _ _ _). apply run_gets.
  assert (Hp1 : pst (N + 1) s1 R) by (destruct Hp; split; try assumption; cbn; lia).
  change (nCcalls s1) with (nCcalls s + 1). rewrite (ps_depth _ _ _ Hp).
  destruct (Z.ltb_spec LUAI_MAXCCALLS (N + 1)); [apply lexerror_run; exact (pst_lok _ _ _ Hp1)|].
  apply run_ret. split; [done|]. split; [by split|]. split; [done|lia].
Qed.

Lemma leavelevel_run N s R : pst (N + 1) s R -> run leavelevel s (fun _ s' => pst N s' R /\ estep s s' /\ fs s' = fs s /\ todo s' = todo s).
Proof using.
  intros Hp. apply run_modify. split; [|split; [by split|done]]. destruct Hp. split; try assumption. cbn. lia.
Qed.

(** [n] more levels are left. *)
Lemma levels_run n N :
  0 <= N -> LUAI_MAXCCALLS <= N + Z.of_nat n ->
  (forall limit s R, pst N s R -> run (fst (levels n) limit) s (fun '(e, _) s' => pexp N s' R (freereg (fs s)) e /\ estep s s' /\ (todo s' < todo s)%nat)) /\
  (forall s R, pst N s R -> run (snd (levels n)) s (fun _ s' => pst N s' R /\ sstep s s')).
Proof using HL.
  revert N. induction n as [|n IH]; intros N H0 Hn.
  { split; intros; (eapply run_bind; [by apply enterlevel_run|]; cbv beta; intros _ s1 (_ & _ & _ & ?); lia). }
  destruct (IH (N + 1)) as [Hsub Hchunk]; [lia|lia|]. cbn [levels]. destruct (levels n) as [subexpr chunk]. cbn [fst snd] in *. split.
  - intros limit s R Hp. eapply run_bind; [by apply enterlevel_run|]. cbv beta. intros _ s1 (Hp1 & Hs1 & Hf1 & _).
    eapply run_bind; [by apply (subexpr_rule_run (N + 1) subexpr chunk Hsub Hchunk)|]. cbv beta. intros [e o] s2 (He & Hs2 & Hlt2).
    eapply run_bind; [exact (leavelevel_run N s2 _ (px_pst _ _ _ _ _ He))|]. cbv beta. intros _ s3 (Hp3 & Hs3 & Hf3 & Ht3). apply run_ret.
    destruct Hs1 as [? ? ?]. split; [|split].
    + rewrite <- Hf1. destruct He as [_ H2 H3 H4]. split; [done|by rewrite Hf3..|done].
    + etrans; [by split|]. by etrans.
    + lia.
  - intros s R Hp. eapply run_bind; [by apply enterlevel_run|]. cbv beta. intros _ s1 (Hp1 & Hs1 & _).
    eapply run_bind; [apply (chunk_rule_run (N + 1) ltac:(lia) subexpr chunk Hsub Hchunk s1 R Hp1)|]. cbv beta. intros _ s2 (Hp2 & Hs2).
    eapply run_mono; [exact (leavelevel_run N s2 _ Hp2)|]. cbv beta. intros _ s3 (Hp3 & Hs3 & _). split; [done|]. steps.
Qed.

Lemma chunk_run N s R : 0 <= N -> pst N s R -> run chunk s (fun _ s' => pst N s' R /\ sstep s s').
Proof using HL. intros H0. apply (levels_run (S (Z.to_nat LUAI_MAXCCALLS)) N H0). change LUAI_MAXCCALLS with 200. lia. Qed.

(** The main function is finished at the end of the text. *)
Lemma close_main_run N s :
  pst N s [] -> bl (fs s) = [] -> prev s = [] -> token (t (ls s)) = TK_EOS -> run close_func s (fun F _ => good (f F)).
Proof using HL.
  intros Hp Hb Hpr Ht. unfold close_func. apply run_regroup. eapply run_bind; [by apply (finish_run N s Hp)|].
  cbv beta. intros _ s1 (Hp1 & Hg & Hpr1 & Hl1). apply run_gets, run_gets. rewrite Hpr1, Hpr.
  eapply run_bind; [apply anchor_run; [exact (pst_lok _ _ _ Hp1)|by rewrite Hl1]|]. cbv beta. intros _ s2 _. by apply run_ret.
Qed.

(** The invariant holds when the text begins. *)
Lemma start_pst N ls :
  LexFacts.wf ls -> sem_ok ls -> Z.of_nat (LexFacts.todo ls) <= MAXTEXT ->
  pst N (mkCompState ls (new_func (Lex.source ls)) [] N) [].
Proof using. intros Hw Hs Ht. split; [exact Hw|exact Hs|apply new_func_ok|constructor|by split|done|exact Ht]. Qed.

(** C2: The parser is safe and its code is well formed: for every text of
    fewer than 25,550 characters and at every depth of C calls, [luaY_parser]
    either raises an error or gives a function that is [good] with all the
    functions in it.  Its loops end, it does nothing that is undefined (no
    index out of range, no missing block or jump), every instruction has its
    registers below [maxstacksize] and its constants, upvalues and functions
    in their tables, no [OP_TESTSET] is left without a register
    (patchtestreg), every jump goes to an instruction, and the last
    instruction is a return. *)
Theorem luaY_parser_safe (nCcalls : Z) (tk : Token) (z : Z') (name r : bytes) :
  0 <= nCcalls -> LexFacts.token_ok (token tk) -> tok_ok tk -> stream_ok z -> view z = Some r -> lenZ r < MAXTEXT ->
  post (luaY_parser nCcalls tk z name) good.
Proof using HL.
  intros HN Htk Hsem Hz Hv Hlen. unfold luaY_parser.
  destruct (LexFacts.luaX_setinput_spec tk z name r Htk Hz Hv) as (ls & -> & Hw & Hch & _ & Hla & Ht & _). cbn [mbind outcome_bind].
  assert (Hs : sem_ok ls).
  { split; [by rewrite Ht|]. destruct (lookahead ls) as [k sem]. cbn in Hla. subst k. by apply tok_ok_plain. }
  set (s := mkCompState ls _ [] nCcalls). assert (Hp : pst nCcalls s []).
  { apply start_pst; [done|done|]. unfold LexFacts.todo, LexFacts.left. rewrite Hch, decide_True by done. unfold lenZ in Hlen. case_decide; lia. }
  eapply post_bind; [apply (run_mono _ s (fun F _ => good (f F)) (fun F _ => good (f F))); [|done]|by intros [F s']].
  apply run_modify_bind. set (s1 := set_fs _ s). assert (Hp1 : pst nCcalls s1 []) by (by apply params_pst).
  eapply run_bind; [apply next_run; exact (pst_lok _ _ _ Hp1)|]. cbv beta. intros _ s2 [Ht2 _].
  pose proof (pst_tstep _ _ _ _ Hp1 Ht2) as Hp2.
  eapply run_bind; [by apply (chunk_run nCcalls s2 [] HN)|]. cbv beta. intros _ s3 (Hp3 & Hs3).
  eapply run_bind; [apply check_run; [by split|exact (pst_lok _ _ _ Hp3)]|]. cbv beta. intros _ s4 [-> Heos].
  apply (close_main_run nCcalls s3 Hp3); [| |exact Heos].
  - pose proof (fx_bl _ _ (ss_fext _ _ Hs3)) as Hb. rewrite (ts_fs _ _ Ht2) in Hb. by apply list.Forall2_nil_inv_l in Hb.
  - pose proof (ss_prev _ _ Hs3) as Hpr. rewrite (ts_prev _ _ Ht2) in Hpr. by apply list.Forall2_nil_inv_l in Hpr.
Qed.
End grammar.

(** ** A program that is parsed *)

#[local] Instance some_pow : LibM := {| pow a _ := a |}.

(** Loops, closures with upvalues, a constructor, a vararg function, a tail call *)
Definition example_text : bytes :=
  str "local t, n = {1, 2; x = 3, f = function (a, ...) n = a return select(a, ...) end}, 0 " ++
  str "for i = 1, 10 do local j = i t[i] = function () j = j + 1 return t, j end end " ++
  str "for k, v in pairs(t) do if v == n or not v then break elseif k < n then t.x, t[k] = v, t.x end end " ++
  str "repeat n = n - 1 local d = n until d <= 0 while n and t.y do t = t.y:z(n) end return t.f(#t)".

Lemma luaY_parser_safe_witness :
  exists g, luaY_parser 0 (mkToken TK_EOS SNone) (Some example_text : option bytes) (str "=t") = Ret g /\ good g.
Proof.
  assert (H : post (luaY_parser 0 (mkToken TK_EOS SNone) (Some example_text : option bytes) (str "=t")) good).
  { apply (luaY_parser_safe 0 (mkToken TK_EOS SNone) (Some example_text : option bytes) (str "=t") example_text).
    - done.
    - by split.
    - by apply tok_ok_plain.
    - apply Forall_forall. intros c Hc. apply is_byteb_spec. revert c Hc. apply forallb_forall. by vm_compute.
    - done.
    - by vm_compute. }
  assert (E : match luaY_parser 0 (mkToken TK_EOS SNone) (Some example_text : option bytes) (str "=t") with Ret _ => true | _ => false end = true)
    by (vm_compute; reflexivity).
  destruct (luaY_parser _ _ _ _) as [g| | |]; try done. by exists g.
Defined.
