(* ===== verification/State.v ===== *)
(** * The run-time state (lstate.h, the data of lobject.h and lgc.h)

    A collectable object is an entry of a heap, its address a number; strings
    are values (lstring.c shares them) and prototypes belong to the closures
    that use them, so neither is an entry.  A [StkId] is an index of the stack
    of its thread, a [CallInfo *] an index of its array of calls, and a
    [savedpc] an index of the code of the function that runs; what
    [correctstack] and [luaD_reallocCI] do to pointers is then nothing.

    The functions of the run-time system live in the monad [M] over a state:
    a long jump keeps the state it leaves, which the protected call it goes to
    repairs. *)

From S2P Require Import Prelude Clib Opcodes Object Table.

(** ** Data *)

Abbreviation StkId := Z.

Definition EXTRA_STACK : Z := 5.
Definition LUA_MINSTACK : Z := 20.
Definition BASIC_CI_SIZE : Z := 8.
Definition BASIC_STACK_SIZE : Z := 2 * LUA_MINSTACK.
Definition LUAI_MAXCALLS : Z := 20000.

Record CallInfo := mkCallInfo {
  ci_base : StkId;
  ci_func : StkId;
  ci_top : StkId;
  ci_savedpc : Z;
  nresults : Z;
  tailcalls : Z
}.

(** An open upvalue points to a slot of a stack. *)
Inductive UpVal :=
| UOpen (th : Z) (level : StkId)
| UClosed (value : TValue).

(** The C function of a [CClosure] is a name, as are the hook and the panic
    function. *)
Inductive Closure :=
| CClosure (env : Z) (f : Z) (upvalue : list TValue)
| LClosure (env : Z) (p : Proto) (upvals : list (option Z)).

Record Udata := mkUdata {
  uv_metatable : option Z;
  uv_env : Z;
  uv_mem : bytes
}.

(** [stacksize] and [size_ci] are the lengths of the arrays, [errorJmp] the
    number of handlers in the chain. *)
Record lua_State := mkthread {
  status : Z;
  top : StkId;
  base : StkId;
  ci : Z;
  savedpc : Z;
  stack_last : StkId;
  stack : list TValue;
  base_ci : list CallInfo;
  nCcalls : Z;
  baseCcalls : Z;
  hookmask : Z;
  allowhook : bool;
  basehookcount : Z;
  hookcount : Z;
  hook : option Z;
  l_gt : TValue;
  env : TValue;
  openupval : list Z;
  errorJmp : nat;
  errfunc : StkId
}.

(** What the header of an object is followed by *)
Inductive body :=
| OTable (h : Table)
| OUdata (u : Udata)
| OClosure (cl : Closure)
| OUpVal (uv : UpVal)
| OThread (th : lua_State).

Record GCObject := mkobject { marked : Z; obj : body }.

(** The objects of the C list [rootgc] are in [rootgc] up to the main thread and
    in [udlist] after it; lists of objects are lists of addresses.  [sweepgc] is
    the object whose [next] field it points to, or [None] for [&g->rootgc].
    [tmudata] has the oldest element first.  The amounts of memory and what is
    computed from them ([totalbytes], [GCthreshold], [estimate], [gcdept]) are
    left out, as is the string table, which is in Lstring.v. *)
Record global_State := mkglobal {
  currentwhite : Z;
  gcstate : Z;
  rootgc : list Z;
  udlist : list Z;
  sweepgc : option Z;
  gray : list Z;
  grayagain : list Z;
  weak : list Z;
  tmudata : list Z;
  panic : option Z;
  l_registry : TValue;
  mainthread : Z;
  uvhead : list Z;
  mt : list (option Z);
  gcpause : Z;
  gcstepmul : Z
}.

(** Addresses from [brk] on have never been used. *)
Record State := mkState {
  heap : gmap Z GCObject;
  G : global_State;
  brk : Z
}.

Definition stacksize (t : lua_State) : Z := lenZ (stack t).
Definition size_ci (t : lua_State) : Z := lenZ (base_ci t).
Definition end_ci (t : lua_State) : Z := size_ci t - 1.

(** ** Updating records *)

Section setters.
Implicit Types (t : lua_State) (g : global_State).

Definition set_status x t := mkthread x (top t) (base t) (ci t) (savedpc t) (stack_last t) (stack t) (base_ci t)
  (nCcalls t) (baseCcalls t) (hookmask t) (allowhook t) (basehookcount t) (hookcount t) (hook t) (l_gt t) (env
  t) (openupval t) (errorJmp t) (errfunc t).
Definition set_top x t := mkthread (status t) x (base t) (ci t) (savedpc t) (stack_last t) (stack t) (base_ci t)
  (nCcalls t) (baseCcalls t) (hookmask t) (allowhook t) (basehookcount t) (hookcount t) (hook t) (l_gt t) (env
  t) (openupval t) (errorJmp t) (errfunc t).
Definition set_base x t := mkthread (status t) (top t) x (ci t) (savedpc t) (stack_last t) (stack t) (base_ci t)
  (nCcalls t) (baseCcalls t) (hookmask t) (allowhook t) (basehookcount t) (hookcount t) (hook t) (l_gt t) (env
  t) (openupval t) (errorJmp t) (errfunc t).
Definition set_ci x t := mkthread (status t) (top t) (base t) x (savedpc t) (stack_last t) (stack t) (base_ci t)
  (nCcalls t) (baseCcalls t) (hookmask t) (allowhook t) (basehookcount t) (hookcount t) (hook t) (l_gt t) (env
  t) (openupval t) (errorJmp t) (errfunc t).
Definition set_savedpc x t := mkthread (status t) (top t) (base t) (ci t) x (stack_last t) (stack t) (base_ci t)
  (nCcalls t) (baseCcalls t) (hookmask t) (allowhook t) (basehookcount t) (hookcount t) (hook t) (l_gt t) (env
  t) (openupval t) (errorJmp t) (errfunc t).
Definition set_stack_last x t := mkthread (status t) (top t) (base t) (ci t) (savedpc t) x (stack t) (base_ci t)
  (nCcalls t) (baseCcalls t) (hookmask t) (allowhook t) (basehookcount t) (hookcount t) (hook t) (l_gt t) (env
  t) (openupval t) (errorJmp t) (errfunc t).
Definition set_stack x t := mkthread (status t) (top t) (base t) (ci t) (savedpc t) (stack_last t) x (base_ci t)
  (nCcalls t) (baseCcalls t) (hookmask t) (allowhook t) (basehookcount t) (hookcount t) (hook t) (l_gt t) (env
  t) (openupval t) (errorJmp t) (errfunc t).
Definition set_base_ci x t := mkthread (status t) (top t) (base t) (ci t) (savedpc t) (stack_last t) (stack t) x
  (nCcalls t) (baseCcalls t) (hookmask t) (allowhook t) (basehookcount t) (hookcount t) (hook t) (l_gt t) (env
  t) (openupval t) (errorJmp t) (errfunc t).
Definition set_nCcalls x t := mkthread (status t) (top t) (base t) (ci t) (savedpc t) (stack_last t) (stack t)
  (base_ci t) x (baseCcalls t) (hookmask t) (allowhook t) (basehookcount t) (hookcount t) (hook t) (l_gt t) (env
  t) (openupval t) (errorJmp t) (errfunc t).
Definition set_baseCcalls x t := mkthread (status t) (top t) (base t) (ci t) (savedpc t) (stack_last t) (stack
  t) (base_ci t) (nCcalls t) x (hookmask t) (allowhook t) (basehookcount t) (hookcount t) (hook t) (l_gt t) (env
  t) (openupval t) (errorJmp t) (errfunc t).
Definition set_hookmask x t := mkthread (status t) (top t) (base t) (ci t) (savedpc t) (stack_last t) (stack t)
  (base_ci t) (nCcalls t) (baseCcalls t) x (allowhook t) (basehookcount t) (hookcount t) (hook t) (l_gt t) (env
  t) (openupval t) (errorJmp t) (errfunc t).
Definition set_allowhook x t := mkthread (status t) (top t) (base t) (ci t) (savedpc t) (stack_last t) (stack t)
  (base_ci t) (nCcalls t) (baseCcalls t) (hookmask t) x (basehookcount t) (hookcount t) (hook t) (l_gt t) (env
  t) (openupval t) (errorJmp t) (errfunc t).
Definition set_basehookcount x t := mkthread (status t) (top t) (base t) (ci t) (savedpc t) (stack_last t)
  (stack t) (base_ci t) (nCcalls t) (baseCcalls t) (hookmask t) (allowhook t) x (hookcount t) (hook t) (l_gt t)
  (env t) (openupval t) (errorJmp t) (errfunc t).
Definition set_hookcount x t := mkthread (status t) (top t) (base t) (ci t) (savedpc t) (stack_last t) (stack t)
  (base_ci t) (nCcalls t) (baseCcalls t) (hookmask t) (allowhook t) (basehookcount t) x (hook t) (l_gt t) (env
  t) (openupval t) (errorJmp t) (errfunc t).
Definition set_hook x t := mkthread (status t) (top t) (base t) (ci t) (savedpc t) (stack_last t) (stack t)
  (base_ci t) (nCcalls t) (baseCcalls t) (hookmask t) (allowhook t) (basehookcount t) (hookcount t) x (l_gt t)
  (env t) (openupval t) (errorJmp t) (errfunc t).
Definition set_l_gt x t := mkthread (status t) (top t) (base t) (ci t) (savedpc t) (stack_last t) (stack t)
  (base_ci t) (nCcalls t) (baseCcalls t) (hookmask t) (allowhook t) (basehookcount t) (hookcount t) (hook t) x
  (env t) (openupval t) (errorJmp t) (errfunc t).
Definition set_env x t := mkthread (status t) (top t) (base t) (ci t) (savedpc t) (stack_last t) (stack t)
  (base_ci t) (nCcalls t) (baseCcalls t) (hookmask t) (allowhook t) (basehookcount t) (hookcount t) (hook t)
  (l_gt t) x (openupval t) (errorJmp t) (errfunc t).
Definition set_openupval x t := mkthread (status t) (top t) (base t) (ci t) (savedpc t) (stack_last t) (stack t)
  (base_ci t) (nCcalls t) (baseCcalls t) (hookmask t) (allowhook t) (basehookcount t) (hookcount t) (hook t)
  (l_gt t) (env t) x (errorJmp t) (errfunc t).
Definition set_errorJmp x t := mkthread (status t) (top t) (base t) (ci t) (savedpc t) (stack_last t) (stack t)
  (base_ci t) (nCcalls t) (baseCcalls t) (hookmask t) (allowhook t) (basehookcount t) (hookcount t) (hook t)
  (l_gt t) (env t) (openupval t) x (errfunc t).
Definition set_errfunc x t := mkthread (status t) (top t) (base t) (ci t) (savedpc t) (stack_last t) (stack t)
  (base_ci t) (nCcalls t) (baseCcalls t) (hookmask t) (allowhook t) (basehookcount t) (hookcount t) (hook t)
  (l_gt t) (env t) (openupval t) (errorJmp t) x.

Definition set_currentwhite x g := mkglobal x (gcstate g) (rootgc g) (udlist g) (sweepgc g) (gray g) (grayagain g)
  (weak g) (tmudata g) (panic g) (l_registry g) (mainthread g) (uvhead g) (mt g) (gcpause g) (gcstepmul g).
Definition set_gcstate x g := mkglobal (currentwhite g) x (rootgc g) (udlist g) (sweepgc g) (gray g) (grayagain g)
  (weak g) (tmudata g) (panic g) (l_registry g) (mainthread g) (uvhead g) (mt g) (gcpause g) (gcstepmul g).
Definition set_rootgc x g := mkglobal (currentwhite g) (gcstate g) x (udlist g) (sweepgc g) (gray g) (grayagain g)
  (weak g) (tmudata g) (panic g) (l_registry g) (mainthread g) (uvhead g) (mt g) (gcpause g) (gcstepmul g).
Definition set_udlist x g := mkglobal (currentwhite g) (gcstate g) (rootgc g) x (sweepgc g) (gray g) (grayagain g)
  (weak g) (tmudata g) (panic g) (l_registry g) (mainthread g) (uvhead g) (mt g) (gcpause g) (gcstepmul g).
Definition set_sweepgc x g := mkglobal (currentwhite g) (gcstate g) (rootgc g) (udlist g) x (gray g) (grayagain g)
  (weak g) (tmudata g) (panic g) (l_registry g) (mainthread g) (uvhead g) (mt g) (gcpause g) (gcstepmul g).
Definition set_gray x g := mkglobal (currentwhite g) (gcstate g) (rootgc g) (udlist g) (sweepgc g) x (grayagain g)
  (weak g) (tmudata g) (panic g) (l_registry g) (mainthread g) (uvhead g) (mt g) (gcpause g) (gcstepmul g).
Definition set_grayagain x g := mkglobal (currentwhite g) (gcstate g) (rootgc g) (udlist g) (sweepgc g) (gray g) x
  (weak g) (tmudata g) (panic g) (l_registry g) (mainthread g) (uvhead g) (mt g) (gcpause g) (gcstepmul g).
Definition set_weak x g := mkglobal (currentwhite g) (gcstate g) (rootgc g) (udlist g) (sweepgc g) (gray g) (grayagain
  g) x (tmudata g) (panic g) (l_registry g) (mainthread g) (uvhead g) (mt g) (gcpause g) (gcstepmul g).
Definition set_tmudata x g := mkglobal (currentwhite g) (gcstate g) (rootgc g) (udlist g) (sweepgc g) (gray g)
  (grayagain g) (weak g) x (panic g) (l_registry g) (mainthread g) (uvhead g) (mt g) (gcpause g) (gcstepmul g).
Definition set_panic x g := mkglobal (currentwhite g) (gcstate g) (rootgc g) (udlist g) (sweepgc g) (gray g)
  (grayagain g) (weak g) (tmudata g) x (l_registry g) (mainthread g) (uvhead g) (mt g) (gcpause g) (gcstepmul g).
Definition set_l_registry x g := mkglobal (currentwhite g) (gcstate g) (rootgc g) (udlist g) (sweepgc g) (gray g)
  (grayagain g) (weak g) (tmudata g) (panic g) x (mainthread g) (uvhead g) (mt g) (gcpause g) (gcstepmul g).
Definition set_mainthread x g := mkglobal (currentwhite g) (gcstate g) (rootgc g) (udlist g) (sweepgc g) (gray g)
  (grayagain g) (weak g) (tmudata g) (panic g) (l_registry g) x (uvhead g) (mt g) (gcpause g) (gcstepmul g).
Definition set_uvhead x g := mkglobal (currentwhite g) (gcstate g) (rootgc g) (udlist g) (sweepgc g) (gray g)
  (grayagain g) (weak g) (tmudata g) (panic g) (l_registry g) (mainthread g) x (mt g) (gcpause g) (gcstepmul g).
Definition set_mt x g := mkglobal (currentwhite g) (gcstate g) (rootgc g) (udlist g) (sweepgc g) (gray g) (grayagain
  g) (weak g) (tmudata g) (panic g) (l_registry g) (mainthread g) (uvhead g) x (gcpause g) (gcstepmul g).
Definition set_gcpause x g := mkglobal (currentwhite g) (gcstate g) (rootgc g) (udlist g) (sweepgc g) (gray g)
  (grayagain g) (weak g) (tmudata g) (panic g) (l_registry g) (mainthread g) (uvhead g) (mt g) x (gcstepmul g).
Definition set_gcstepmul x g := mkglobal (currentwhite g) (gcstate g) (rootgc g) (udlist g) (sweepgc g) (gray g)
  (grayagain g) (weak g) (tmudata g) (panic g) (l_registry g) (mainthread g) (uvhead g) (mt g) (gcpause g) x.
End setters.

Definition set_savedpc_ci (x : Z) (c : CallInfo) : CallInfo :=
  mkCallInfo (ci_base c) (ci_func c) (ci_top c) x (nresults c) (tailcalls c).
Definition set_base_ci_top (b t : StkId) (c : CallInfo) : CallInfo :=
  mkCallInfo b (ci_func c) t (ci_savedpc c) (nresults c) (tailcalls c).
Definition set_ci_top (t : StkId) (c : CallInfo) : CallInfo := set_base_ci_top (ci_base c) t c.
Definition set_tailcalls (x : Z) (c : CallInfo) : CallInfo :=
  mkCallInfo (ci_base c) (ci_func c) (ci_top c) (ci_savedpc c) (nresults c) x.

Definition set_heap (h : gmap Z GCObject) (s : State) : State := mkState h (G s) (brk s).
Definition set_G (g : global_State) (s : State) : State := mkState (heap s) g (brk s).
Definition set_marked (m : Z) (o : GCObject) : GCObject := mkobject m (obj o).
Definition set_obj (b : body) (o : GCObject) : GCObject := mkobject (marked o) b.

(** ** The monad *)

Inductive result (A : Type) :=
| Ok (a : A) (s : State)
(** [luaD_throw]: a long jump to the handler of the thread [L] *)
| Jump (L : Z) (errcode : Z) (s : State)
(** [exit] *)
| Exit (s : State)
(** undefined behaviour *)
| Wrong
(** the bound on the number of steps is reached *)
| Late.

Arguments Ok {A} a s.
Arguments Jump {A} L errcode s.
Arguments Exit {A} s.
Arguments Wrong {A}.
Arguments Late {A}.

Definition M (A : Type) : Type := State -> result A.

#[export] Instance M_ret : MRet M := fun A a s => Ok a s.
#[export] Instance M_bind : MBind M := fun A B f m s =>
  match m s with
  | Ok a s' => f a s'
  | Jump L e s' => Jump L e s'
  | Exit s' => Exit s'
  | Wrong => Wrong
  | Late => Late
  end.

Definition wrong {A} : M A := fun _ => Wrong.
Definition late {A} : M A := fun _ => Late.
Definition jump {A} (L errcode : Z) : M A := fun s => Jump L errcode s.
Definition exit {A} : M A := fun s => Exit s.

(** A pointer that must be valid *)
Definition valid {A} (o : option A) : M A := match o with Some a => mret a | None => wrong end.

(** A computation without errors *)
Definition pure {A} (m : outcome A) : M A := fun s =>
  match m with Ret a => Ok a s | Nofuel => Late | _ => Wrong end.

(** ** Access to the state *)

Definition getG : M global_State := fun s => Ok (G s) s.
Definition modG (f : global_State -> global_State) : M unit := fun s => Ok tt (set_G (f (G s)) s).

Definition object (r : Z) : M GCObject := fun s => valid (heap s !! r) s.
Definition set_object (r : Z) (o : GCObject) : M unit := fun s => Ok tt (set_heap (<[r := o]> (heap s)) s).
Definition upd_object (r : Z) (f : GCObject -> GCObject) : M unit := o ← object r; set_object r (f o).
Definition set_body (r : Z) (b : body) : M unit := upd_object r (set_obj b).
Definition free (r : Z) : M unit := fun s => Ok tt (set_heap (delete r (heap s)) s).

(** [gco2h], [gco2u], [gco2cl], [gco2uv], [gco2th] *)
Definition gco2h (r : Z) : M Table := o ← object r; match obj o with OTable h => mret h | _ => wrong end.
Definition gco2u (r : Z) : M Udata := o ← object r; match obj o with OUdata u => mret u | _ => wrong end.
Definition gco2cl (r : Z) : M Closure := o ← object r; match obj o with OClosure c => mret c | _ => wrong end.
Definition gco2uv (r : Z) : M UpVal := o ← object r; match obj o with OUpVal u => mret u | _ => wrong end.
Definition gco2th (r : Z) : M lua_State := o ← object r; match obj o with OThread t => mret t | _ => wrong end.

Definition thread (L : Z) : M lua_State := gco2th L.
Definition upd (L : Z) (f : lua_State -> lua_State) : M unit := t ← thread L; set_body L (OThread (f t)).
Definition field {A} (L : Z) (f : lua_State -> A) : M A := t ← thread L; mret (f t).

(** A slot of the stack of [L] *)
Definition stk (L : Z) (i : StkId) : M TValue := t ← thread L; valid (getZ (stack t) i).
Definition setstk (L : Z) (i : StkId) (v : TValue) : M unit :=
  t ← thread L;
  valid (getZ (stack t) i);;
  upd L (set_stack (setZ (stack t) i v)).

Definition get_ci (L : Z) (i : Z) : M CallInfo := t ← thread L; valid (getZ (base_ci t) i).
Definition upd_ci (L : Z) (i : Z) (f : CallInfo -> CallInfo) : M unit :=
  c ← get_ci L i;
  upd L (fun t => set_base_ci (setZ (base_ci t) i (f c)) t).

Definition set_topM (L : Z) (i : StkId) : M unit := upd L (set_top i).

(** A [const TValue *]: a slot of the stack, or a place outside of it *)
Inductive ptr :=
| PStk (i : StkId)
| PVal (v : TValue).

Definition pval (L : Z) (p : ptr) : M TValue := match p with PStk i => stk L i | PVal v => mret v end.

(** ** What the machine decides

    The contents of new memory, and the functions of the host: a C function
    is given what [luaD_call] does, its thread, and returns the number of its
    results, or a negative number when it yields. *)
Abbreviation Calls := (Z -> StkId -> Z -> M unit) (only parsing).

Class Machine := {
  junk : TValue;
  junk_ci : CallInfo;
  cfunction : Calls -> Z -> Z -> M Z;
  hook_function : Calls -> Z -> Z -> Z -> Z -> Z -> M unit;
  panic_function : Z -> Z -> M unit;
  collect : Calls -> Z -> M unit
}.
