(* ===== verification/Barrier.v ===== *)
(** * Marks and write barriers (lgc.h, the first and the last part of lgc.c)

    The colour of an object is in the bits of [marked].  Strings have no mark
    in the model: they are never removed by the collector's other parts, and
    [stringmark] has no effect. *)

From S2P Require Import Prelude Clib Opcodes Object Table State.

(** ** Bits of [marked] *)

Definition WHITE0BIT : Z := 0.
Definition WHITE1BIT : Z := 1.
Definition BLACKBIT : Z := 2.
Definition FINALIZEDBIT : Z := 3.
Definition KEYWEAKBIT : Z := 3.
Definition VALUEWEAKBIT : Z := 4.
Definition FIXEDBIT : Z := 5.
Definition SFIXEDBIT : Z := 6.

Definition bitmask (b : Z) : Z := Z.shiftl 1 b.
Definition bit2mask (b1 b2 : Z) : Z := Z.lor (bitmask b1) (bitmask b2).
Definition WHITEBITS : Z := bit2mask WHITE0BIT WHITE1BIT.

Definition resetbits (x m : Z) : Z := Z.land x (u8 (Z.lnot m)).
Definition setbits (x m : Z) : Z := Z.lor x m.
Definition testbits (x m : Z) : bool := negb (Z.land x m =? 0).
Definition l_setbit (x b : Z) : Z := setbits x (bitmask b).
Definition resetbit (x b : Z) : Z := resetbits x (bitmask b).
Definition testbit (x b : Z) : bool := testbits x (bitmask b).

Implicit Types (o : GCObject) (g : global_State).

Definition iswhite o : bool := testbits (marked o) WHITEBITS.
Definition isblack o : bool := testbit (marked o) BLACKBIT.
Definition isgray o : bool := negb (isblack o) && negb (iswhite o).

Definition otherwhite g : Z := Z.lxor (currentwhite g) WHITEBITS.
Definition isdead g o : bool := negb (Z.land (Z.land (marked o) (otherwhite g)) WHITEBITS =? 0).

Definition luaC_white g : Z := u8 (Z.land (currentwhite g) WHITEBITS).
Definition maskmarks : Z := u8 (Z.lnot (Z.lor (bitmask BLACKBIT) WHITEBITS)).

Definition makewhite g o : GCObject := set_marked (u8 (Z.lor (Z.land (marked o) maskmarks) (luaC_white g))) o.
Definition white2gray o : GCObject := set_marked (resetbits (marked o) WHITEBITS) o.
Definition black2gray o : GCObject := set_marked (resetbit (marked o) BLACKBIT) o.
Definition gray2black o : GCObject := set_marked (l_setbit (marked o) BLACKBIT) o.
Definition changewhite o : GCObject := set_marked (Z.lxor (marked o) WHITEBITS) o.

(** ** States of the collector *)

Definition GCSpause : Z := 0.
Definition GCSpropagate : Z := 1.
Definition GCSsweepstring : Z := 2.
Definition GCSsweep : Z := 3.
Definition GCSfinalize : Z := 4.

(** [gcvalue], for the values that are objects of the heap *)
Definition gcvalue (v : TValue) : option Z :=
  match v with
  | VTable r | VFunction r | VUserdata r | VThread r => Some r
  | _ => None
  end.

(** ** Marking

    The calls nest at most three deep: an upvalue, a userdata, a table. *)

Definition push_gray (r : Z) : M unit := modG (fun g => set_gray (r :: gray g) g).

Fixpoint reallymark (depth : nat) (r : Z) : M unit :=
  match depth with
  | O => late
  | S depth =>
      let markobject r := (o ← object r; if iswhite o then reallymark depth r else mret tt) in
      upd_object r white2gray;;
      o ← object r;
      match obj o with
      | OUdata u =>
          upd_object r gray2black;;
          (match uv_metatable u with Some mt => markobject mt | None => mret tt end);;
          markobject (uv_env u)
      | OUpVal uv =>
          v ← (match uv with UOpen L level => stk L level | UClosed v => mret v end);
          (match gcvalue v with Some r' => markobject r' | None => mret tt end);;
          match uv with UClosed _ => upd_object r gray2black | UOpen _ _ => mret tt end
      | OClosure _ | OTable _ | OThread _ => push_gray r
      end
  end.

Definition reallymarkobject : Z -> M unit := reallymark 3.

Definition markobject (r : Z) : M unit := o ← object r; if iswhite o then reallymarkobject r else mret tt.
Definition markvalue (v : TValue) : M unit :=
  match gcvalue v with Some r => markobject r | None => mret tt end.

(** ** Barriers *)

Definition luaC_barrierf (o v : Z) : M unit :=
  g ← getG;
  if gcstate g =? GCSpropagate then reallymarkobject v
  else upd_object o (makewhite g).

Definition luaC_barrierback (t : Z) : M unit :=
  upd_object t black2gray;;
  modG (fun g => set_grayagain (t :: grayagain g) g).

Definition valiswhite (v : TValue) : M bool :=
  match gcvalue v with Some r => o ← object r; mret (iswhite o) | None => mret false end.

(** [luaC_barrier], [luaC_barriert], [luaC_objbarrier], [luaC_objbarriert] *)
Definition luaC_barrier (p : Z) (v : TValue) : M unit :=
  w ← valiswhite v;
  o ← object p;
  if w && isblack o then match gcvalue v with Some r => luaC_barrierf p r | None => mret tt end else mret tt.

Definition luaC_barriert (t : Z) (v : TValue) : M unit :=
  w ← valiswhite v;
  o ← object t;
  if w && isblack o then luaC_barrierback t else mret tt.

Definition luaC_objbarrier (p o : Z) : M unit :=
  x ← object o;
  y ← object p;
  if iswhite x && isblack y then luaC_barrierf p o else mret tt.

Definition luaC_objbarriert (t o : Z) : M unit :=
  x ← object o;
  y ← object t;
  if iswhite x && isblack y then luaC_barrierback t else mret tt.

(** ** New objects *)

(** [luaM_new] and the fields of the object *)
Definition luaM_new (m : Z) (b : body) : M Z := fun s =>
  Ok (brk s) (mkState (<[brk s := mkobject m b]> (heap s)) (G s) (brk s + 1)).

Definition luaC_link (r : Z) : M unit :=
  g ← getG;
  modG (set_rootgc (r :: rootgc g));;
  upd_object r (set_marked (luaC_white g)).

(** An object of the list of all objects *)
Definition new_object (b : body) : M Z := r ← luaM_new 0 b; luaC_link r;; mret r.

Definition luaC_linkupval (r : Z) : M unit :=
  modG (fun g => set_rootgc (r :: rootgc g) g);;
  g ← getG;
  o ← object r;
  if isgray o then
    if gcstate g =? GCSpropagate then
      upd_object r gray2black;;
      uv ← gco2uv r;
      v ← (match uv with UOpen L level => stk L level | UClosed v => mret v end);
      luaC_barrier r v
    else upd_object r (makewhite g)
  else mret tt.
