(* ===== verification/Func.v ===== *)
(** * Closures and upvalues (lfunc.c) *)

From S2P Require Import Prelude Clib Opcodes Object Table State Barrier.

Definition luaF_newCclosure `{Machine} (nelems : Z) (e f : Z) : M Z :=
  new_object (OClosure (CClosure e f (replicate (Z.to_nat nelems) junk))).

(** The closure of the prototype [p] *)
Definition luaF_newLclosure (nelems : Z) (e : Z) (p : Proto) : M Z :=
  new_object (OClosure (LClosure e p (replicate (Z.to_nat nelems) None))).

Definition luaF_newupval : M Z := new_object (OUpVal (UClosed VNil)).

(** The slot an open upvalue points to *)
Definition uv_level (uv : UpVal) : M StkId :=
  match uv with UOpen _ level => mret level | UClosed _ => wrong end.

Fixpoint find_loop (level : StkId) (before rest : list Z) : M (Z + list Z * list Z) :=
  match rest with
  | [] => mret (inr (before, []))
  | p :: rest' =>
      uv ← gco2uv p;
      l ← uv_level uv;
      if level <=? l then
        if l =? level then mret (inl p)
        else find_loop level (before ++ [p]) rest'
      else mret (inr (before, rest))
  end.

(** The list of open upvalues of [L], highest level first *)
Definition luaF_findupval (L : Z) (level : StkId) : M Z :=
  g ← getG;
  l ← field L openupval;
  r ← find_loop level [] l;
  match r with
  | inl p =>
      o ← object p;
      (if isdead g o then upd_object p changewhite else mret tt);;
      mret p
  | inr (before, after) =>
      uv ← luaM_new (luaC_white g) (OUpVal (UOpen L level));
      upd L (set_openupval (before ++ uv :: after));;
      modG (fun g => set_uvhead (uv :: uvhead g) g);;
      mret uv
  end.

Fixpoint list_remove_first (x : Z) (l : list Z) : list Z :=
  match l with
  | [] => []
  | y :: l => if y =? x then l else y :: list_remove_first x l
  end.

Definition unlinkupval (uv : Z) : M unit := modG (fun g => set_uvhead (list_remove_first uv (uvhead g)) g).

Definition luaF_freeupval (r : Z) : M unit :=
  uv ← gco2uv r;
  (match uv with UOpen _ _ => unlinkupval r | UClosed _ => mret tt end);;
  free r.

(** Close one upvalue. *)
Definition close_upval (r : Z) : M unit :=
  g ← getG;
  o ← object r;
  if isdead g o then luaF_freeupval r
  else
    unlinkupval r;;
    uv ← gco2uv r;
    (match uv with
     | UOpen L level => v ← stk L level; set_body r (OUpVal (UClosed v))
     | UClosed _ => wrong
     end);;
    luaC_linkupval r.

(** [n] upvalues are left at most. *)
Fixpoint close_loop (n : nat) (L : Z) (level : StkId) : M unit :=
  l ← field L openupval;
  match l with
  | [] => mret tt
  | r :: rest =>
      uv ← gco2uv r;
      lv ← uv_level uv;
      if level <=? lv then
        match n with
        | O => late
        | S n => upd L (set_openupval rest);; close_upval r;; close_loop n L level
        end
      else mret tt
  end.

Definition luaF_close (L : Z) (level : StkId) : M unit :=
  l ← field L openupval;
  close_loop (length l) L level.

Definition luaF_freeclosure (r : Z) : M unit := c ← gco2cl r; free r.

(** [*uv->v]: the value of an upvalue *)
Definition uv_value (r : Z) : M TValue :=
  uv ← gco2uv r;
  match uv with UOpen L level => stk L level | UClosed v => mret v end.

Definition set_uv_value (r : Z) (v : TValue) : M unit :=
  uv ← gco2uv r;
  match uv with UOpen L level => setstk L level v | UClosed _ => set_body r (OUpVal (UClosed v)) end.
