(* ===== verification/Tm.v ===== *)
(** * Tag methods (ltm.h, ltm.c) *)

From S2P Require Import Prelude Clib Opcodes Object Table State Barrier.

Inductive TMS :=
| TM_INDEX | TM_NEWINDEX | TM_GC | TM_MODE | TM_EQ
| TM_ADD | TM_SUB | TM_MUL | TM_DIV | TM_MOD | TM_POW | TM_UNM | TM_LEN | TM_LT | TM_LE
| TM_CONCAT | TM_CALL.

#[export] Instance TMS_eq_dec : EqDecision TMS.
Proof. solve_decision. Defined.

Definition tms_num (e : TMS) : Z :=
  match e with
  | TM_INDEX => 0 | TM_NEWINDEX => 1 | TM_GC => 2 | TM_MODE => 3 | TM_EQ => 4
  | TM_ADD => 5 | TM_SUB => 6 | TM_MUL => 7 | TM_DIV => 8 | TM_MOD => 9 | TM_POW => 10
  | TM_UNM => 11 | TM_LEN => 12 | TM_LT => 13 | TM_LE => 14 | TM_CONCAT => 15 | TM_CALL => 16
  end.

(** [G(L)->tmname], as [luaT_init] fills it *)
Definition tmname (e : TMS) : bytes :=
  match e with
  | TM_INDEX => str "__index" | TM_NEWINDEX => str "__newindex"
  | TM_GC => str "__gc" | TM_MODE => str "__mode" | TM_EQ => str "__eq"
  | TM_ADD => str "__add" | TM_SUB => str "__sub" | TM_MUL => str "__mul" | TM_DIV => str "__div"
  | TM_MOD => str "__mod" | TM_POW => str "__pow" | TM_UNM => str "__unm" | TM_LEN => str "__len"
  | TM_LT => str "__lt" | TM_LE => str "__le" | TM_CONCAT => str "__concat" | TM_CALL => str "__call"
  end.

Section tm.
Context `{Host}.

(** [luaH_getstr] and the value of the place *)
Definition getstr_value (t : Table) (name : bytes) : M TValue := pure (r ← luaH_getstr t name; load t r).

Definition luaT_gettm (events : Z) (event : TMS) (ename : bytes) : M (option TValue) :=
  h ← gco2h events;
  tm ← getstr_value h ename;
  if ttisnil tm then
    set_body events (OTable (with_flags (Z.lor (flags h) (u8 (Z.shiftl 1 (tms_num event)))) h));;
    mret None
  else mret (Some tm).

(** [NULL] for an absent method *)
Definition fasttm (et : option Z) (e : TMS) : M (option TValue) :=
  match et with
  | None => mret None
  | Some et =>
      h ← gco2h et;
      if testbits (flags h) (Z.shiftl 1 (tms_num e)) then mret None else luaT_gettm et e (tmname e)
  end.

(** The metatable of a value *)
Definition metatable_of (o : TValue) : M (option Z) :=
  match o with
  | VTable r => h ← gco2h r; mret (metatable h)
  | VUserdata r => u ← gco2u r; mret (uv_metatable u)
  | _ => g ← getG; valid (getZ (mt g) (ttype o))
  end.

Definition luaT_gettmbyobj (o : TValue) (event : TMS) : M TValue :=
  mt ← metatable_of o;
  match mt with
  | None => mret VNil
  | Some mt => h ← gco2h mt; getstr_value h (tmname event)
  end.
End tm.
