(* ===== verification/Do.v ===== *)
(** * Stack, errors and calls (ldo.c, the error functions of ldebug.c)

    What [luaD_call] does is a parameter here, because a call runs the virtual
    machine, which is in Vm.v and calls functions in turn. *)

From S2P Require Import Prelude Clib Opcodes Object Debug Table Auxlib State Barrier Func Tm.

(** [luaD_call L func nResults] *)
Class Calling := luaD_call : Z -> StkId -> Z -> M unit.

Definition LUA_YIELD : Z := 1.

Section stack.
Context `{Machine}.

(** ** Growing the arrays of a thread *)

(** [luaM_reallocvector]: the new part of the block has any contents. *)
Definition realloc {A} (x : A) (n : Z) (l : list A) : list A :=
  take (Z.to_nat n) l ++ replicate (Z.to_nat n - length l) x.

Definition luaD_reallocstack (L : Z) (newsize : Z) : M unit :=
  let realsize := newsize + 1 + EXTRA_STACK in
  upd L (fun t => set_stack_last newsize (set_stack (realloc junk realsize (stack t)) t)).

Definition luaD_reallocCI (L : Z) (newsize : Z) : M unit :=
  upd L (fun t => set_base_ci (realloc junk_ci newsize (base_ci t)) t).

Definition luaD_growstack (L : Z) (n : Z) : M unit :=
  t ← thread L;
  if n <=? stacksize t then luaD_reallocstack L (2 * stacksize t)
  else luaD_reallocstack L (stacksize t + n).

Definition luaD_checkstack (L : Z) (n : Z) : M unit :=
  t ← thread L;
  if stack_last t - top t <=? n then luaD_growstack L n else mret tt.

Definition incr_top (L : Z) : M unit := luaD_checkstack L 1;; upd L (fun t => set_top (top t + 1) t).

(** [setobj2s(L, L->top, v); incr_top(L)] *)
Definition push (L : Z) (v : TValue) : M unit := top ← field L top; setstk L top v;; incr_top L.

(** ** Error recovery *)

Definition luaD_seterrorobj (L : Z) (errcode : Z) (oldtop : StkId) : M unit :=
  (if errcode =? LUA_ERRMEM then setstk L oldtop (VString (str "not enough memory"))
   else if errcode =? LUA_ERRERR then setstk L oldtop (VString (str "error in error handling"))
   else if (errcode =? LUA_ERRSYNTAX) || (errcode =? LUA_ERRRUN) then
     top ← field L top; v ← stk L (top - 1); setstk L oldtop v
   else mret tt);;
  set_topM L (oldtop + 1).

Definition restore_stack_limit (L : Z) : M unit :=
  t ← thread L;
  if LUAI_MAXCALLS <? size_ci t then
    if ci t + 1 <? LUAI_MAXCALLS then luaD_reallocCI L LUAI_MAXCALLS else mret tt
  else mret tt.

Definition resetstack (L : Z) (status : Z) : M unit :=
  upd L (set_ci 0);;
  c ← get_ci L 0;
  upd L (set_base (ci_base c));;
  luaF_close L (ci_base c);;
  luaD_seterrorobj L status (ci_base c);;
  upd L (fun t => set_allowhook true (set_nCcalls (baseCcalls t) t));;
  restore_stack_limit L;;
  upd L (fun t => set_errorJmp O (set_errfunc 0 t)).

Definition luaD_throw {A} (L : Z) (errcode : Z) : M A :=
  t ← thread L;
  if negb (Nat.eqb (errorJmp t) 0) then jump L errcode
  else
    upd L (set_status (u8 errcode));;
    g ← getG;
    (match panic g with
     | Some p => resetstack L errcode;; panic_function p L
     | None => mret tt
     end);;
    exit.

(** [LUAI_TRY]: the error code of a jump to a handler of [L] *)
Definition caught (L : Z) (f : M unit) : M Z := fun s =>
  match f s with
  | Ok _ s => Ok 0 s
  | Jump L' errcode s => if L' =? L then Ok errcode s else Jump L' errcode s
  | Exit s => Exit s
  | Wrong => Wrong
  | Late => Late
  end.

Definition luaD_rawrunprotected (L : Z) (f : M unit) : M Z :=
  previous ← field L errorJmp;
  upd L (set_errorJmp (S previous));;
  status ← caught L f;
  upd L (set_errorJmp previous);;
  mret status.

(** ** Messages (lobject.c) *)

Inductive va_arg :=
| AStr (s : option bytes)
| AChar (c : Z)
| AInt (n : Z)
| ANum (x : lua_Number)
| APtr (p : Z).

Context `{Cenv}.

Definition pushstr (L : Z) (s : bytes) : M unit := push L (VString (cstr s)).

(** The pieces of a message, from [fmt] on; [lit] is the text since the last
    conversion, backwards.  Result: the number of pieces that were pushed. *)
Fixpoint push_pieces (L : Z) (lit fmt : bytes) (args : list va_arg) (n : Z) : M Z :=
  match fmt with
  | [] => pushstr L (rev lit);; mret n
  | c :: fmt =>
      if c =? 37 then
        push L (VString (rev lit));;
        match fmt with
        | [] => wrong
        | d :: fmt =>
            if d =? 115 then
              match args with
              | AStr s :: args => pushstr L (default (str "(null)") s);; push_pieces L [] fmt args (n + 2)
              | _ => wrong
              end
            else if d =? 100 then
              match args with
              | AInt z :: args => push L (VNumber (cast_num z));; push_pieces L [] fmt args (n + 2)
              | _ => wrong
              end
            else if d =? 99 then
              match args with
              | AChar c :: args => pushstr L [u8 c];; push_pieces L [] fmt args (n + 2)
              | _ => wrong
              end
            else if d =? 102 then
              match args with
              | ANum x :: args => push L (VNumber x);; push_pieces L [] fmt args (n + 2)
              | _ => wrong
              end
            else if d =? 112 then
              match args with
              | APtr p :: args => pushstr L (sprintf (str "%p") (FPointer p));; push_pieces L [] fmt args (n + 2)
              | _ => wrong
              end
            else if d =? 37 then pushstr L [37];; push_pieces L [] fmt args (n + 2)
            else pushstr L [37; d];; push_pieces L [] fmt args (n + 2)
        end
      else push_pieces L (c :: lit) fmt args n
  end.

(** The concatenation of strings and numbers in [n] slots, as [luaV_concat]
    leaves it in the first of them *)
Fixpoint concat_slots (L : Z) (n : nat) (i : StkId) : M bytes :=
  match n with
  | O => mret []
  | S n =>
      v ← stk L i;
      s ← valid (luaV_tostring v);
      rest ← concat_slots L n (i + 1);
      mret (s ++ rest)
  end.

(** The pieces are concatenated without tag methods, as they are strings and
    numbers; the buffer of [%p] is large enough for every address. *)
Definition luaO_pushvfstring (L : Z) (fmt : bytes) (args : list va_arg) : M bytes :=
  pushstr L [];;
  n ← push_pieces L [] fmt args 1;
  top ← field L top;
  s ← concat_slots L (Z.to_nat (n + 1)) (top - n - 1);
  setstk L (top - n - 1) (VString s);;
  set_topM L (top - n);;
  mret s.

(** ** Functions and their calls (lstate.h, ldebug.c) *)

Definition clvalue (v : TValue) : M Closure := match v with VFunction r => gco2cl r | _ => wrong end.

(** [ci_func(ci)] for the call of index [i] *)
Definition ci_closure (L : Z) (i : Z) : M Closure := c ← get_ci L i; f ← stk L (ci_func c); clvalue f.

Definition f_isLua (L : Z) (i : Z) : M bool :=
  cl ← ci_closure L i; mret (match cl with LClosure _ _ _ => true | CClosure _ _ _ => false end).

Definition isLua (L : Z) (i : Z) : M bool :=
  c ← get_ci L i;
  f ← stk L (ci_func c);
  if ttisfunction f then f_isLua L i else mret false.

Definition getluaproto (L : Z) (i : Z) : M (option Proto) :=
  b ← isLua L i;
  if (b : bool) then
    cl ← ci_closure L i;
    match cl with LClosure _ p _ => mret (Some p) | CClosure _ _ _ => wrong end
  else mret None.

Definition pcRel (pc : Z) : Z := pc - 1.

Definition getline (f : Proto) (pc : Z) : M Z :=
  if sizelineinfo f =? 0 then mret 0 else valid (getZ (lineinfo f) pc).

Definition currentpc (L : Z) (i : Z) : M Z :=
  b ← isLua L i;
  if negb b then mret (-1)
  else
    t ← thread L;
    (if i =? ci t then upd_ci L i (set_savedpc_ci (savedpc t)) else mret tt);;
    c ← get_ci L i;
    mret (pcRel (ci_savedpc c)).

Definition currentline (L : Z) (i : Z) : M Z :=
  pc ← currentpc L i;
  if pc <? 0 then mret (-1)
  else
    p ← getluaproto L i;
    p ← valid p;
    getline p pc.

(** ** Errors (ldebug.c) *)

Context `{Calling}.

Definition addinfo (L : Z) (msg : bytes) : M unit :=
  t ← thread L;
  b ← isLua L (ci t);
  if (b : bool) then
    line ← currentline L (ci t);
    p ← getluaproto L (ci t);
    p ← valid p;
    source ← valid (source p);
    luaO_pushvfstring L (str "%s:%d: %s")
      [AStr (Some (luaO_chunkid source LUA_IDSIZE)); AInt line; AStr (Some msg)];;
    mret tt
  else mret tt.

Definition luaG_errormsg {A} (L : Z) : M A :=
  t ← thread L;
  (if negb (errfunc t =? 0) then
     f ← stk L (errfunc t);
     (if negb (ttisfunction f) then luaD_throw L LUA_ERRERR else mret tt);;
     v ← stk L (top t - 1);
     setstk L (top t) v;;
     setstk L (top t - 1) f;;
     incr_top L;;
     top ← field L top;
     luaD_call L (top - 2) 1
   else mret tt);;
  luaD_throw L LUA_ERRRUN.

Definition luaG_runerror {A} (L : Z) (fmt : bytes) (args : list va_arg) : M A :=
  msg ← luaO_pushvfstring L fmt args;
  addinfo L msg;;
  luaG_errormsg L.

(** An operation of another component: its errors are run-time errors. *)
Definition raise {A} (L : Z) (m : outcome A) : M A :=
  match m with
  | Ret a => mret a
  | Throw _ msg => luaG_runerror L (str "%s") [AStr (Some msg)]
  | Undef => wrong
  | Nofuel => late
  end.

Definition typename (v : TValue) : bytes := default [] (getZ luaT_typenames (ttype v)).

(** [isinstack(L->ci, o)] and the distance to the base *)
Definition stack_position (L : Z) (o : ptr) : M (option Z) :=
  match o with
  | PVal _ => mret None
  | PStk i =>
      t ← thread L;
      c ← get_ci L (ci t);
      mret (if (ci_base c <=? i) && (i <? ci_top c) then Some (i - base t) else None)
  end.

(** [getobjname(L, L->ci, stackpos, &name)] *)
Definition object_name (L : Z) (stackpos : Z) : M (option (bytes * bytes)) :=
  t ← thread L;
  p ← getluaproto L (ci t);
  match p with
  | None => mret None
  | Some p => pc ← currentpc L (ci t); pure (getobjname p pc stackpos)
  end.

Definition luaG_typeerror {A} (L : Z) (o : ptr) (op : bytes) : M A :=
  v ← pval L o;
  pos ← stack_position L o;
  kind ← (match pos with Some i => object_name L i | None => mret None end);
  match kind with
  | Some (kind, name) =>
      luaG_runerror L (str "attempt to %s %s '%s' (a %s value)")
        [AStr (Some op); AStr (Some kind); AStr (Some name); AStr (Some (typename v))]
  | None =>
      luaG_runerror L (str "attempt to %s a %s value") [AStr (Some op); AStr (Some (typename v))]
  end.

Definition luaG_concaterror {A} (L : Z) (p1 p2 : StkId) : M A :=
  v ← stk L p1;
  luaG_typeerror L (PStk (if ttisstring v || ttisnumber v then p2 else p1)) (str "concatenate").

Definition luaG_aritherror {A} (L : Z) (p1 p2 : ptr) : M A :=
  v ← pval L p1;
  luaG_typeerror L (match luaV_tonumber v with None => p1 | Some _ => p2 end) (str "perform arithmetic on").

Definition luaG_ordererror {A} (L : Z) (v1 v2 : TValue) : M A :=
  let t1 := typename v1 in
  let t2 := typename v2 in
  if bool_decide (getZ t1 2 = getZ t2 2)
  then luaG_runerror L (str "attempt to compare two %s values") [AStr (Some t1)]
  else luaG_runerror L (str "attempt to compare %s with %s") [AStr (Some t1); AStr (Some t2)].

(** ** Calls *)

Definition growCI (L : Z) : M unit :=
  t ← thread L;
  (if LUAI_MAXCALLS <? size_ci t then luaD_throw L LUA_ERRERR
   else
     luaD_reallocCI L (2 * size_ci t);;
     t ← thread L;
     if LUAI_MAXCALLS <? size_ci t then luaG_runerror L (str "stack overflow") [] else mret tt);;
  upd L (fun t => set_ci (ci t + 1) t).

(** [inc_ci(L)]; result: the new call *)
Definition inc_ci (L : Z) : M Z :=
  t ← thread L;
  (if ci t =? end_ci t then growCI L else upd L (fun t => set_ci (ci t + 1) t));;
  field L ci.

Definition LUA_HOOKCALL : Z := 0.
Definition LUA_HOOKRET : Z := 1.
Definition LUA_HOOKLINE : Z := 2.
Definition LUA_HOOKCOUNT : Z := 3.
Definition LUA_HOOKTAILRET : Z := 4.
Definition LUA_MASKCALL : Z := Z.shiftl 1 LUA_HOOKCALL.
Definition LUA_MASKRET : Z := Z.shiftl 1 LUA_HOOKRET.
Definition LUA_MASKLINE : Z := Z.shiftl 1 LUA_HOOKLINE.
Definition LUA_MASKCOUNT : Z := Z.shiftl 1 LUA_HOOKCOUNT.

Definition has_mask (t : lua_State) (m : Z) : bool := negb (Z.land (hookmask t) m =? 0).

Definition luaD_callhook (L : Z) (event line : Z) : M unit :=
  t ← thread L;
  match hook t with
  | Some h =>
      if allowhook t then
        c ← get_ci L (ci t);
        let i_ci := if event =? LUA_HOOKTAILRET then 0 else ci t in
        luaD_checkstack L LUA_MINSTACK;;
        upd_ci L (ci t) (set_ci_top (top t + LUA_MINSTACK));;
        upd L (set_allowhook false);;
        hook_function luaD_call h L event line i_ci;;
        upd L (set_allowhook true);;
        i ← field L ci;
        upd_ci L i (set_ci_top (ci_top c));;
        set_topM L (top t)
      else mret tt
  | None => mret tt
  end.

(** [setobjs2s(L, to, from)] *)
Definition copy (L : Z) (to from : StkId) : M unit := v ← stk L from; setstk L to v.

(** [for (; actual < nfixargs; ++actual) setnilvalue(L->top++)]: [n] to add *)
Fixpoint push_nils (n : nat) (L : Z) : M unit :=
  match n with
  | O => mret tt
  | S n => top ← field L top; setstk L top VNil;; set_topM L (top + 1);; push_nils n L
  end.

Context `{Host}.

(** ** Fields of tables of the heap (ltable.c)

    [luaC_barriert] in [newkey], for the keys that a rehash enters again and for
    the new key *)

(** Whether [newkey] finds no free position for [key] *)
Definition rehashes (h : Table) (key : TValue) : bool :=
  let r : outcome bool :=
    mp ← mainposition h key;
    x ← gnode h mp;
    if negb (ttisnil (gval x)) || dummy h then
      '(n, _) ← getfreepos h; Ret (match n with None => true | Some _ => false end)
    else Ret false in
  match r with Ret b => b | _ => false end.

Fixpoint barrier_nodes (r : Z) (l : list Node) : M unit :=
  match l with
  | [] => mret tt
  | n :: l =>
      barrier_nodes r l;;
      if ttisnil (gval n) then mret tt
      else luaC_barriert r (match gkey n with LiveKey k | DeadKey k => k end)
  end.

Definition newkey_barriers (r : Z) (h : Table) (key : TValue) : M unit :=
  (if rehashes h key then barrier_nodes r (node h) else mret tt);;
  luaC_barriert r key.

(** The slot of [key] in the table [r]: where it is found, or a new one *)
Definition set_field (L r : Z) (key : TValue) (get : Table -> outcome (option slot))
    (set : Table -> outcome (Table * slot)) : M slot :=
  h ← gco2h r;
  p ← pure (get h);
  '(h', x) ← raise L (set h);
  set_body r (OTable h');;
  (match p with Some _ => mret tt | None => newkey_barriers r h key end);;
  mret x.

Definition heap_set (L r : Z) (key : TValue) : M slot := set_field L r key (fun h => luaH_get h key) (fun h => luaH_set h key).
Definition heap_setnum (L r : Z) (n : Z) : M slot :=
  set_field L r (VNumber (cast_num n)) (fun h => luaH_getnum h n) (fun h => luaH_setnum h n).
Definition heap_setstr (L r : Z) (s : bytes) : M slot :=
  set_field L r (VString s) (fun h => luaH_getstr h s) (fun h => luaH_setstr h s).

(** [setobj] to a slot of the table [r] *)
Definition heap_store (r : Z) (x : slot) (v : TValue) : M unit :=
  h ← gco2h r; h ← pure (store h x v); set_body r (OTable h).

(** [setobj2n(L, luaH_setnum(L, htab, i+1), L->top - nvar + i)] *)
Fixpoint arg_fields (n : nat) (L : Z) (htab : Z) (first : StkId) (i : Z) : M unit :=
  match n with
  | O => mret tt
  | S n =>
      x ← heap_setnum L htab (i + 1);
      v ← stk L (first + i);
      heap_store htab x v;;
      arg_fields n L htab first (i + 1)
  end.

(** The compatibility table [arg] with the [nvar] values below the top *)
Definition arg_table (L : Z) (maxstack nvar : Z) : M Z :=
  collect luaD_call L;;
  luaD_checkstack L maxstack;;
  h ← raise L (luaH_new nvar 1);
  htab ← new_object (OTable h);
  top ← field L top;
  arg_fields (Z.to_nat nvar) L htab (top - nvar) 0;;
  x ← heap_setstr L htab (str "n");
  heap_store htab x (VNumber (cast_num nvar));;
  mret htab.

(** Move the fixed parameters to the top; [n] are left. *)
Fixpoint move_fixed (n : nat) (L : Z) (fixed : StkId) : M unit :=
  match n with
  | O => mret tt
  | S n =>
      top ← field L top;
      v ← stk L fixed;
      setstk L top v;;
      set_topM L (top + 1);;
      setstk L fixed VNil;;
      move_fixed n L (fixed + 1)
  end.

Definition adjust_varargs (L : Z) (p : Proto) (actual : Z) : M StkId :=
  let nfixargs := numparams p in
  push_nils (Z.to_nat (nfixargs - actual)) L;;
  let actual := Z.max actual nfixargs in
  htab ← (if has_flag (is_vararg p) VARARG_NEEDSARG then
            h ← arg_table L (maxstacksize p) (actual - nfixargs); mret (Some h)
          else mret None);
  base ← field L top;
  move_fixed (Z.to_nat nfixargs) L (base - actual);;
  (match htab with
   | Some h => top ← field L top; setstk L top (VTable h);; set_topM L (top + 1)
   | None => mret tt
   end);;
  mret base.

(** [for (p = L->top; p > func; p--) setobjs2s(L, p, p-1)] *)
Fixpoint open_hole (n : nat) (L : Z) (p : StkId) : M unit :=
  match n with
  | O => mret tt
  | S n => copy L p (p - 1);; open_hole n L (p - 1)
  end.

Definition tryfuncTM (L : Z) (func : StkId) : M unit :=
  v ← stk L func;
  tm ← luaT_gettmbyobj v TM_CALL;
  if negb (ttisfunction tm) then luaG_typeerror L (PStk func) (str "call")
  else
    top ← field L top;
    open_hole (Z.to_nat (top - func)) L top;;
    incr_top L;;
    setstk L func tm.

(** [for (i = wanted; i != 0 && firstResult < L->top; i--)]: at most [n]
    results; the number still wanted and the places. *)
Fixpoint move_results (n : nat) (L : Z) (wanted : Z) (res first : StkId) : M (Z * StkId) :=
  match n with
  | O => mret (wanted, res)
  | S n => if wanted =? 0 then mret (wanted, res) else copy L res first;; move_results n L (wanted - 1) (res + 1) (first + 1)
  end.

Fixpoint nil_slots (n : nat) (L : Z) (i : StkId) : M unit :=
  match n with
  | O => mret tt
  | S n => setstk L i VNil;; nil_slots n L (i + 1)
  end.

(** [while ((L->hookmask & LUA_MASKRET) && L->ci->tailcalls--)] *)
Fixpoint tailret_hooks (n : nat) (L : Z) : M unit :=
  t ← thread L;
  if has_mask t LUA_MASKRET then
    c ← get_ci L (ci t);
    upd_ci L (ci t) (set_tailcalls (tailcalls c - 1));;
    if tailcalls c =? 0 then mret tt
    else match n with
         | O => late
         | S n => luaD_callhook L LUA_HOOKTAILRET (-1);; tailret_hooks n L
         end
  else mret tt.

Definition callrethooks (L : Z) : M unit :=
  luaD_callhook L LUA_HOOKRET (-1);;
  i ← field L ci;
  b ← f_isLua L i;
  if (b : bool) then c ← get_ci L i; tailret_hooks (Z.to_nat (tailcalls c)) L else mret tt.

Definition luaD_poscall (L : Z) (firstResult : StkId) : M bool :=
  t ← thread L;
  (if has_mask t LUA_MASKRET then callrethooks L else mret tt);;
  t ← thread L;
  c ← get_ci L (ci t);
  let wanted := nresults c in
  upd L (fun t => set_ci (ci t - 1) t);;
  prev ← get_ci L (ci t - 1);
  upd L (fun t => set_savedpc (ci_savedpc prev) (set_base (ci_base prev) t));;
  '(i, res) ← move_results (Z.to_nat (top t - firstResult)) L wanted (ci_func c) firstResult;
  nil_slots (Z.to_nat i) L res;;
  set_topM L (res + Z.max 0 i);;
  mret (negb (wanted - LUA_MULTRET =? 0)).

Inductive precalled := PCRLUA | PCRC | PCRYIELD.

(** [luaD_precall] for a Lua function of prototype [p] *)
Definition precall_lua (L : Z) (func : StkId) (nresults : Z) (p : Proto) : M precalled :=
  luaD_checkstack L (maxstacksize p);;
  base ← (if is_vararg p =? 0 then
            t ← thread L;
            let base := func + 1 in
            (if base + numparams p <? top t then set_topM L (base + numparams p) else mret tt);;
            mret base
          else
            t ← thread L;
            adjust_varargs L p (top t - func - 1));
  i ← inc_ci L;
  upd_ci L i (fun _ => mkCallInfo base func (base + maxstacksize p) 0 nresults 0);;
  upd L (fun t => set_savedpc 0 (set_base base t));;
  top ← field L top;
  nil_slots (Z.to_nat (base + maxstacksize p - top)) L top;;
  set_topM L (base + maxstacksize p);;
  t ← thread L;
  (if has_mask t LUA_MASKCALL then
     upd L (fun t => set_savedpc (savedpc t + 1) t);;
     luaD_callhook L LUA_HOOKCALL (-1);;
     upd L (fun t => set_savedpc (savedpc t - 1) t)
   else mret tt);;
  mret PCRLUA.

(** [luaD_precall] for a C function: it is called. *)
Definition precall_C (L : Z) (func : StkId) (nresults : Z) : M precalled :=
  luaD_checkstack L LUA_MINSTACK;;
  i ← inc_ci L;
  top ← field L top;
  upd_ci L i (fun c => mkCallInfo (func + 1) func (top + LUA_MINSTACK) (ci_savedpc c) nresults (tailcalls c));;
  upd L (set_base (func + 1));;
  t ← thread L;
  (if has_mask t LUA_MASKCALL then luaD_callhook L LUA_HOOKCALL (-1) else mret tt);;
  i ← field L ci;
  cl ← ci_closure L i;
  n ← (match cl with CClosure _ f _ => cfunction luaD_call f L | LClosure _ _ _ => wrong end);
  if n <? 0 then mret PCRYIELD
  else
    top ← field L State.top;
    luaD_poscall L (top - n);;
    mret PCRC.

Definition luaD_precall (L : Z) (func : StkId) (nresults : Z) : M precalled :=
  v ← stk L func;
  (if negb (ttisfunction v) then tryfuncTM L func else mret tt);;
  v ← stk L func;
  cl ← clvalue v;
  t ← thread L;
  upd_ci L (ci t) (set_savedpc_ci (savedpc t));;
  match cl with
  | LClosure _ p _ => precall_lua L func nresults p
  | CClosure _ _ _ => precall_C L func nresults
  end.

(** ** Protected calls *)

Definition luaD_pcall (L : Z) (func : M unit) (old_top : StkId) (ef : StkId) : M Z :=
  old ← thread L;
  upd L (set_errfunc ef);;
  status ← luaD_rawrunprotected L func;
  (if negb (status =? 0) then
     luaF_close L old_top;;
     luaD_seterrorobj L status old_top;;
     upd L (fun t => set_ci (ci old) (set_nCcalls (nCcalls old) t));;
     c ← get_ci L (ci old);
     upd L (fun t => set_allowhook (allowhook old) (set_savedpc (ci_savedpc c) (set_base (ci_base c) t)));;
     restore_stack_limit L
   else mret tt);;
  upd L (set_errfunc (errfunc old));;
  mret status.

(** ** Coroutines *)

Definition lua_yield (L : Z) (nresults : Z) : M Z :=
  t ← thread L;
  (if baseCcalls t <? nCcalls t
   then luaG_runerror L (str "attempt to yield across metamethod/C-call boundary") []
   else mret tt);;
  upd L (fun t => set_status LUA_YIELD (set_base (top t - nresults) t));;
  mret (-1).

Definition resume_error (L : Z) (msg : bytes) : M Z :=
  t ← thread L;
  c ← get_ci L (ci t);
  set_topM L (ci_base c);;
  push L (VString msg);;
  mret LUA_ERRRUN.
End stack.
