(* ===== verification/Vm.v ===== *)
(** * The virtual machine (lvm.c)

    Sections follow the file: conversions, access to tables with tag methods,
    comparison, concatenation, arithmetic, and the interpreter, one
    definition per group of instructions.  A [const TValue *] operand is a
    [ptr]; the result of an instruction is what its C code does next. *)

From S2P Require Import Prelude Clib Opcodes Object Debug Table Auxlib State Barrier Func Tm Do.

(** [strcoll] on two C strings, in the current locale *)
Class Locale := { strcoll : bytes -> bytes -> Z }.

Definition MAXTAGLOOP : nat := 100.
Definition MAX_SIZET : Z := 2 ^ 64 - 3.

Section vm.
Context `{Machine} `{Host} `{Cenv} `{LibM} `{Locale} `{Calling}.

(** ** Conversions *)

(** [tostring(L, o)] on a slot of the stack *)
Definition tostring (L : Z) (i : StkId) : M bool :=
  v ← stk L i;
  match v with
  | VString _ | VNullString => mret true
  | VNumber n => setstk L i (VString (cstr (lua_number2str n)));; mret true
  | _ => mret false
  end.

Definition resethookcount (L : Z) : M unit := upd L (fun t => set_hookcount (basehookcount t) t).

(** [pc] is the one after the instruction that is next. *)
Definition traceexec (L : Z) (pc : Z) : M unit :=
  t ← thread L;
  let oldpc := savedpc t in
  upd L (set_savedpc pc);;
  (if has_mask t LUA_MASKCOUNT && (hookcount t =? 0) then
     resethookcount L;; luaD_callhook L LUA_HOOKCOUNT (-1)
   else mret tt);;
  if has_mask t LUA_MASKLINE then
    i ← field L ci;
    p ← getluaproto L i;
    p ← valid p;
    let npc := pcRel pc in
    newline ← getline p npc;
    newer ← (if (npc =? 0) || (pc <=? oldpc) then mret true
             else oldline ← getline p (pcRel oldpc); mret (negb (newline =? oldline)));
    if (newer : bool) then luaD_callhook L LUA_HOOKLINE newline else mret tt
  else mret tt.

(** ** Calling tag methods *)

Definition callTMres (L : Z) (res : StkId) (f : TValue) (p1 p2 : ptr) : M unit :=
  t ← field L top;
  setstk L t f;;
  v1 ← pval L p1; setstk L (t + 1) v1;;
  v2 ← pval L p2; setstk L (t + 2) v2;;
  luaD_checkstack L 3;;
  set_topM L (t + 3);;
  luaD_call L t 1;;
  t ← field L top;
  set_topM L (t - 1);;
  copy L res (t - 1).

Definition callTM (L : Z) (f : TValue) (p1 p2 p3 : ptr) : M unit :=
  t ← field L top;
  setstk L t f;;
  v1 ← pval L p1; setstk L (t + 1) v1;;
  v2 ← pval L p2; setstk L (t + 2) v2;;
  v3 ← pval L p3; setstk L (t + 3) v3;;
  luaD_checkstack L 4;;
  set_topM L (t + 4);;
  luaD_call L t 0.

(** ** Access to tables *)

(** The value of a field, or the tag method to try; [n] rounds are left. *)
Fixpoint gettable_loop (n : nat) (L : Z) (t key : ptr) (val : StkId) : M unit :=
  match n with
  | O => luaG_runerror L (str "loop in gettable") []
  | S n =>
      v ← pval L t;
      tm ← (match v with
        | VTable r =>
            h ← gco2h r;
            k ← pval L key;
            res ← pure (x ← luaH_get h k; load h x);
            if negb (ttisnil res) then setstk L val res;; mret None
            else
              tm ← fasttm (metatable h) TM_INDEX;
              match tm with None => setstk L val res;; mret None | Some tm => mret (Some tm) end
        | _ =>
            tm ← luaT_gettmbyobj v TM_INDEX;
            if ttisnil tm then luaG_typeerror L t (str "index") else mret (Some tm)
        end);
      match tm with
      | None => mret tt
      | Some tm =>
          if ttisfunction tm then callTMres L val tm t key
          else gettable_loop n L (PVal tm) key val
      end
  end.

Definition luaV_gettable : Z -> ptr -> ptr -> StkId -> M unit := gettable_loop MAXTAGLOOP.

Fixpoint settable_loop (n : nat) (L : Z) (t key val : ptr) : M unit :=
  match n with
  | O => luaG_runerror L (str "loop in settable") []
  | S n =>
      v ← pval L t;
      tm ← (match v with
        | VTable r =>
            k ← pval L key;
            oldval ← heap_set L r k;
            h ← gco2h r;
            old ← pure (load h (Some oldval));
            tm ← (if negb (ttisnil old) then mret None else fasttm (metatable h) TM_NEWINDEX);
            match tm with
            | None =>
                x ← pval L val;
                h ← gco2h r;
                h ← pure (store h oldval x);
                set_body r (OTable (with_flags 0 h));;
                luaC_barriert r x;;
                mret None
            | Some tm => mret (Some tm)
            end
        | _ =>
            tm ← luaT_gettmbyobj v TM_NEWINDEX;
            if ttisnil tm then luaG_typeerror L t (str "index") else mret (Some tm)
        end);
      match tm with
      | None => mret tt
      | Some tm =>
          if ttisfunction tm then callTM L tm t key val
          else settable_loop n L (PVal tm) key val
      end
  end.

Definition luaV_settable : Z -> ptr -> ptr -> ptr -> M unit := settable_loop MAXTAGLOOP.

(** ** Comparison *)

Definition call_binTM (L : Z) (p1 p2 : ptr) (res : StkId) (event : TMS) : M bool :=
  v1 ← pval L p1;
  tm ← luaT_gettmbyobj v1 event;
  tm ← (if ttisnil tm then v2 ← pval L p2; luaT_gettmbyobj v2 event else mret tm);
  if ttisnil tm then mret false
  else callTMres L res tm p1 p2;; mret true.

Definition get_compTM (mt1 mt2 : option Z) (event : TMS) : M (option TValue) :=
  tm1 ← fasttm mt1 event;
  match tm1 with
  | None => mret None
  | Some tm1 =>
      if bool_decide (mt1 = mt2) then mret (Some tm1)
      else
        tm2 ← fasttm mt2 event;
        match tm2 with
        | None => mret None
        | Some tm2 => mret (if luaO_rawequalObj tm1 tm2 then Some tm1 else None)
        end
  end.

(** The truth of the result in the slot at the top *)
Definition top_is_true (L : Z) : M bool := t ← field L top; v ← stk L t; mret (negb (l_isfalse v)).

(** [None]: no tag method *)
Definition call_orderTM (L : Z) (p1 p2 : ptr) (event : TMS) : M (option bool) :=
  v1 ← pval L p1;
  v2 ← pval L p2;
  tm1 ← luaT_gettmbyobj v1 event;
  if ttisnil tm1 then mret None
  else
    tm2 ← luaT_gettmbyobj v2 event;
    if negb (luaO_rawequalObj tm1 tm2) then mret None
    else
      t ← field L top;
      callTMres L t tm1 p1 p2;;
      b ← top_is_true L;
      mret (Some b).

(** [ll], [lr]: the lengths that are left; a chunk ends at a NUL. *)
Fixpoint strcmp_loop (fuel : nat) (l : bytes) (ll : Z) (r : bytes) (lr : Z) : outcome Z :=
  match fuel with
  | O => Nofuel
  | S fuel =>
      let temp := strcoll (cstr l) (cstr r) in
      if negb (temp =? 0) then Ret temp
      else
        let len := strlen l in
        if len =? lr then Ret (if len =? ll then 0 else 1)
        else if len =? ll then Ret (-1)
        else
          let len := len + 1 in
          if lr <? len then Undef
          else strcmp_loop fuel (drop (Z.to_nat len) l) (ll - len) (drop (Z.to_nat len) r) (lr - len)
  end.

Definition l_strcmp (ls rs : bytes) : outcome Z := strcmp_loop (S (length ls)) ls (lenZ ls) rs (lenZ rs).

Definition luaV_lessthan (L : Z) (l r : ptr) : M bool :=
  vl ← pval L l;
  vr ← pval L r;
  if negb (ttype vl =? ttype vr) then luaG_ordererror L vl vr
  else match vl, vr with
  | VNumber a, VNumber b => mret (luai_numlt a b)
  | VString a, VString b => c ← pure (l_strcmp a b); mret (c <? 0)
  | VNullString, _ | _, VNullString => wrong
  | _, _ =>
      res ← call_orderTM L l r TM_LT;
      match res with Some b => mret b | None => luaG_ordererror L vl vr end
  end.

Definition lessequal (L : Z) (l r : ptr) : M bool :=
  vl ← pval L l;
  vr ← pval L r;
  if negb (ttype vl =? ttype vr) then luaG_ordererror L vl vr
  else match vl, vr with
  | VNumber a, VNumber b => mret (luai_numle a b)
  | VString a, VString b => c ← pure (l_strcmp a b); mret (c <=? 0)
  | VNullString, _ | _, VNullString => wrong
  | _, _ =>
      res ← call_orderTM L l r TM_LE;
      match res with
      | Some b => mret b
      | None =>
          res ← call_orderTM L r l TM_LT;
          match res with Some b => mret (negb b) | None => luaG_ordererror L vl vr end
      end
  end.

Definition luaV_equalval (L : Z) (t1 t2 : ptr) : M bool :=
  v1 ← pval L t1;
  v2 ← pval L t2;
  let try_TM (mt1 mt2 : option Z) : M bool :=
    tm ← get_compTM mt1 mt2 TM_EQ;
    match tm with
    | None => mret false
    | Some tm => t ← field L top; callTMres L t tm t1 t2;; top_is_true L
    end in
  match v1, v2 with
  | VUserdata a, VUserdata b =>
      if a =? b then mret true
      else ua ← gco2u a; ub ← gco2u b; try_TM (uv_metatable ua) (uv_metatable ub)
  | VTable a, VTable b =>
      if a =? b then mret true
      else ha ← gco2h a; hb ← gco2h b; try_TM (metatable ha) (metatable hb)
  | _, _ => mret (luaO_rawequalObj v1 v2)
  end.

(** [equalobj(L, o1, o2)] *)
Definition equalobj (L : Z) (o1 o2 : ptr) : M bool :=
  v1 ← pval L o1;
  v2 ← pval L o2;
  if ttype v1 =? ttype v2 then luaV_equalval L o1 o2 else mret false.

(** ** Concatenation *)

(** [for (n = 1; n < total && tostring(L, top-n-1); n++)], [k] rounds at most:
    the number of strings and their total length *)
Fixpoint collect_strings (k : nat) (L : Z) (top : StkId) (n tl : Z) : M (Z * Z) :=
  match k with
  | O => mret (n, tl)
  | S k =>
      b ← tostring L (top - n - 1);
      if (b : bool) then
        v ← stk L (top - n - 1);
        s ← pure (svalue v);
        let l := lenZ s in
        if MAX_SIZET - tl <=? l then luaG_runerror L (str "string length overflow") []
        else collect_strings k L top (n + 1) (tl + l)
      else mret (n, tl)
  end.

(** The strings of the slots from [i] *)
Fixpoint copy_strings (n : nat) (L : Z) (i : StkId) : M bytes :=
  match n with
  | O => mret []
  | S n => v ← stk L i; s ← pure (svalue v); rest ← copy_strings n L (i + 1); mret (s ++ rest)
  end.

(** One pass; result: the number of values it handled *)
Definition concat_pass (L : Z) (total : Z) (top : StkId) : M Z :=
  v2 ← stk L (top - 2);
  b ← (if ttisstring v2 || ttisnumber v2 then tostring L (top - 1) else mret false);
  if negb (b : bool) then
    b ← call_binTM L (PStk (top - 2)) (PStk (top - 1)) (top - 2) TM_CONCAT;
    (if negb (b : bool) then luaG_concaterror L (top - 2) (top - 1) else mret tt);;
    mret 2
  else
    v1 ← stk L (top - 1);
    s1 ← pure (svalue v1);
    if lenZ s1 =? 0 then tostring L (top - 2);; mret 2
    else
      '(n, _) ← collect_strings (Z.to_nat (total - 1)) L top 1 (lenZ s1);
      s ← copy_strings (Z.to_nat n) L (top - n);
      setstk L (top - n) (VString s);;
      mret n.

Fixpoint concat_loop (fuel : nat) (L : Z) (total last : Z) : M unit :=
  base ← field L base;
  n ← concat_pass L total (base + last + 1);
  let total := total - (n - 1) in
  let last := last - (n - 1) in
  if 1 <? total then match fuel with O => late | S fuel => concat_loop fuel L total last end
  else mret tt.

Definition luaV_concat (L : Z) (total last : Z) : M unit := concat_loop (Z.to_nat total) L total last.

(** ** Arithmetic *)

Definition arith_function (op : TMS) : option (lua_Number -> lua_Number -> lua_Number) :=
  match op with
  | TM_ADD => Some luai_numadd
  | TM_SUB => Some luai_numsub
  | TM_MUL => Some luai_nummul
  | TM_DIV => Some luai_numdiv
  | TM_MOD => Some luai_nummod
  | TM_POW => Some luai_numpow
  | TM_UNM => Some (fun nb _ => luai_numunm nb)
  | _ => None
  end.

Definition Arith (L : Z) (ra : StkId) (rb rc : ptr) (op : TMS) : M unit :=
  vb ← pval L rb;
  vc ← pval L rc;
  match luaV_tonumber vb, luaV_tonumber vc with
  | Some nb, Some nc =>
      match arith_function op with
      | Some f => setstk L ra (VNumber (f nb nc))
      | None => mret tt
      end
  | _, _ =>
      b ← call_binTM L rb rc ra op;
      if negb (b : bool) then luaG_aritherror L rb rc else mret tt
  end.

(** ** The interpreter *)

(** The local variables of [luaV_execute]: [cl] is the address of the closure,
    whose prototype and upvalues do not change; [k] is the one of [cl->p]. *)
Record frame := mkframe {
  fr_cl : Z;
  fr_p : Proto;
  fr_upvals : list (option Z);
  fr_base : StkId;
  fr_pc : Z;
  nexeccalls : Z
}.

Definition with_pc (pc : Z) (fr : frame) : frame :=
  mkframe (fr_cl fr) (fr_p fr) (fr_upvals fr) (fr_base fr) pc (nexeccalls fr).
Definition with_base (b : StkId) (fr : frame) : frame :=
  mkframe (fr_cl fr) (fr_p fr) (fr_upvals fr) b (fr_pc fr) (nexeccalls fr).

(** [continue], [goto reentry] with the number of calls, [return] *)
Inductive next :=
| Continue (fr : frame)
| Reentry (nexeccalls : Z)
| Return.

(** [reentry:] *)
Definition reentry (L : Z) (nexeccalls : Z) : M frame :=
  t ← thread L;
  c ← get_ci L (ci t);
  f ← stk L (ci_func c);
  match f with
  | VFunction r =>
      cl ← gco2cl r;
      match cl with
      | LClosure _ p ups => mret (mkframe r p ups (base t) (savedpc t) nexeccalls)
      | CClosure _ _ _ => wrong
      end
  | _ => wrong
  end.

Section instruction.
Variables (L : Z) (i : Z) (fr : frame).

Abbreviation A := (GETARG_A i).
Abbreviation B := (GETARG_B i).
Abbreviation C := (GETARG_C i).
Abbreviation pc := (fr_pc fr).

Definition RA : StkId := fr_base fr + A.
Definition RB : StkId := fr_base fr + B.

Definition constant (n : Z) : M TValue := valid (getZ (k (fr_p fr)) n).

(** [RKB(i)], [RKC(i)] *)
Definition RK (x : Z) : M ptr := if ISK x then v ← constant (INDEXK x); mret (PVal v) else mret (PStk (fr_base fr + x)).

Definition continue : M next := mret (Continue fr).
Definition continue_at (pc : Z) : M next := mret (Continue (with_pc pc fr)).

(** [Protect(x)] *)
Definition Protect (x : M unit) : M next :=
  upd L (set_savedpc pc);;
  x;;
  b ← field L base;
  mret (Continue (with_base b fr)).

Definition instruction (pc : Z) : M Z := valid (getZ (code (fr_p fr)) pc).

(** [dojump(L, pc, GETARG_sBx( *pc)); pc++] when [b], else [pc++], after [Protect] *)
Definition branch (b : bool) (x : next) : M next :=
  match x with
  | Continue fr =>
      if b then j ← instruction (fr_pc fr); mret (Continue (with_pc (fr_pc fr + GETARG_sBx j + 1) fr))
      else mret (Continue (with_pc (fr_pc fr + 1) fr))
  | x => mret x
  end.

(** [Protect(if (test == A) dojump); pc++]; the jump is read before the call
    could change [base], as the code of a function never changes. *)
Definition compare (test : M bool) : M next :=
  upd L (set_savedpc pc);;
  res ← test;
  b ← field L base;
  branch (Z.b2z res =? A) (Continue (with_base b fr)).

Definition op_load (op : OpCode) : M next :=
  match op with
  | OP_MOVE => copy L RA RB;; continue
  | OP_LOADK => v ← constant (GETARG_Bx i); setstk L RA v;; continue
  | OP_LOADBOOL => setstk L RA (VBoolean B);; continue_at (if negb (C =? 0) then pc + 1 else pc)
  | OP_LOADNIL => setstk L RB VNil;; nil_slots (Z.to_nat (RB - RA)) L RA;; continue
  | _ => wrong
  end.

(** [cl->env], which [setfenv] changes while the function runs *)
Definition cl_env : M Z := cl ← gco2cl (fr_cl fr); mret (match cl with LClosure e _ _ | CClosure e _ _ => e end).

Definition upvalue (n : Z) : M Z := u ← valid (getZ (fr_upvals fr) n); valid u.

Definition op_variable (op : OpCode) : M next :=
  match op with
  | OP_GETUPVAL => u ← upvalue B; v ← uv_value u; setstk L RA v;; continue
  | OP_SETUPVAL =>
      u ← upvalue B;
      v ← stk L RA;
      set_uv_value u v;;
      luaC_barrier u v;;
      continue
  | OP_GETGLOBAL =>
      rb ← constant (GETARG_Bx i);
      e ← cl_env;
      Protect (luaV_gettable L (PVal (VTable e)) (PVal rb) RA)
  | OP_SETGLOBAL =>
      rb ← constant (GETARG_Bx i);
      e ← cl_env;
      Protect (luaV_settable L (PVal (VTable e)) (PVal rb) (PStk RA))
  | _ => wrong
  end.

Definition op_table (op : OpCode) : M next :=
  match op with
  | OP_GETTABLE => rc ← RK C; Protect (luaV_gettable L (PStk RB) rc RA)
  | OP_SETTABLE => rb ← RK B; rc ← RK C; Protect (luaV_settable L (PStk RA) rb rc)
  | OP_NEWTABLE =>
      h ← raise L (luaH_new (luaO_fb2int B) (luaO_fb2int C));
      r ← new_object (OTable h);
      setstk L RA (VTable r);;
      Protect (collect luaD_call L)
  | OP_SELF =>
      copy L (RA + 1) RB;;
      rc ← RK C;
      Protect (luaV_gettable L (PStk RB) rc RA)
  | _ => wrong
  end.

(** [arith_op] *)
Definition op_arith (op : TMS) : M next :=
  rb ← RK B;
  rc ← RK C;
  vb ← pval L rb;
  vc ← pval L rc;
  match vb, vc, arith_function op with
  | VNumber nb, VNumber nc, Some f => setstk L RA (VNumber (f nb nc));; continue
  | _, _, _ => Protect (Arith L RA rb rc op)
  end.

Definition op_unary (op : OpCode) : M next :=
  v ← stk L RB;
  match op with
  | OP_UNM =>
      match v with
      | VNumber nb => setstk L RA (VNumber (luai_numunm nb));; continue
      | _ => Protect (Arith L RA (PStk RB) (PStk RB) TM_UNM)
      end
  | OP_NOT => setstk L RA (VBoolean (Z.b2z (l_isfalse v)));; continue
  | OP_LEN =>
      match v with
      | VTable r => h ← gco2h r; n ← pure (luaH_getn h); setstk L RA (VNumber (cast_num n));; continue
      | VString s => setstk L RA (VNumber (cast_num (lenZ s)));; continue
      | VNullString => wrong
      | _ => Protect (b ← call_binTM L (PStk RB) (PVal VNil) RA TM_LEN;
                      if negb (b : bool) then luaG_typeerror L (PStk RB) (str "get length of") else mret tt)
      end
  | _ => wrong
  end.

Definition op_concat : M next :=
  x ← Protect (luaV_concat L (C - B + 1) C;; collect luaD_call L);
  match x with
  | Continue fr => copy L (fr_base fr + A) (fr_base fr + B);; mret (Continue fr)
  | x => mret x
  end.

Definition op_test (op : OpCode) : M next :=
  match op with
  | OP_EQ => rb ← RK B; rc ← RK C; compare (equalobj L rb rc)
  | OP_LT => rb ← RK B; rc ← RK C; compare (luaV_lessthan L rb rc)
  | OP_LE => rb ← RK B; rc ← RK C; compare (lessequal L rb rc)
  | OP_TEST => v ← stk L RA; branch (negb (Z.b2z (l_isfalse v) =? C)) (Continue fr)
  | OP_TESTSET =>
      v ← stk L RB;
      if negb (Z.b2z (l_isfalse v) =? C) then setstk L RA v;; branch true (Continue fr)
      else branch false (Continue fr)
  | _ => wrong
  end.

(** *** Calls *)

Definition op_call : M next :=
  let nresults := C - 1 in
  (if negb (B =? 0) then set_topM L (RA + B) else mret tt);;
  upd L (set_savedpc pc);;
  r ← luaD_precall L RA nresults;
  match r with
  | PCRLUA => mret (Reentry (nexeccalls fr + 1))
  | PCRC =>
      (if 0 <=? nresults then t ← thread L; c ← get_ci L (ci t); set_topM L (ci_top c) else mret tt);;
      b ← field L base;
      mret (Continue (with_base b fr))
  | PCRYIELD => mret Return
  end.

(** Move the new frame down: [n] slots are left. *)
Fixpoint move_down (n : nat) (to from : StkId) : M unit :=
  match n with
  | O => mret tt
  | S n => copy L to from;; move_down n (to + 1) (from + 1)
  end.

Definition op_tailcall : M next :=
  (if negb (B =? 0) then set_topM L (RA + B) else mret tt);;
  upd L (set_savedpc pc);;
  r ← luaD_precall L RA LUA_MULTRET;
  match r with
  | PCRLUA =>
      t ← thread L;
      new ← get_ci L (ci t);
      old ← get_ci L (ci t - 1);
      let func := ci_func old in
      let pfunc := ci_func new in
      (match openupval t with [] => mret tt | _ => luaF_close L (ci_base old) end);;
      let base := func + (ci_base new - pfunc) in
      upd L (set_base base);;
      move_down (Z.to_nat (top t - pfunc)) func pfunc;;
      let top := func + Z.max 0 (top t - pfunc) in
      set_topM L top;;
      upd_ci L (ci t - 1) (fun c => set_tailcalls (tailcalls c + 1) (set_savedpc_ci (savedpc t) (set_base_ci_top base top c)));;
      upd L (fun t => set_ci (ci t - 1) t);;
      mret (Reentry (nexeccalls fr))
  | PCRC => b ← field L base; mret (Continue (with_base b fr))
  | PCRYIELD => mret Return
  end.

Definition op_return : M next :=
  (if negb (B =? 0) then set_topM L (RA + B - 1) else mret tt);;
  t ← thread L;
  (match openupval t with [] => mret tt | _ => luaF_close L (fr_base fr) end);;
  upd L (set_savedpc pc);;
  b ← luaD_poscall L RA;
  let nexeccalls := nexeccalls fr - 1 in
  if nexeccalls =? 0 then mret Return
  else
    (if (b : bool) then t ← thread L; c ← get_ci L (ci t); set_topM L (ci_top c) else mret tt);;
    mret (Reentry nexeccalls).

(** *** Loops *)

(** [nvalue] of a slot *)
Definition number_at (i : StkId) : M lua_Number := v ← stk L i; match v with VNumber n => mret n | _ => wrong end.

Definition op_forloop : M next :=
  step ← number_at (RA + 2);
  init ← number_at RA;
  let idx := luai_numadd init step in
  limit ← number_at (RA + 1);
  if (if luai_numlt (cast_num 0) step then luai_numle idx limit else luai_numle limit idx) then
    setstk L RA (VNumber idx);;
    setstk L (RA + 3) (VNumber idx);;
    continue_at (pc + GETARG_sBx i)
  else continue.

(** [tonumber(o, ra)] on a slot of the stack, or the error *)
Definition for_number (i : StkId) (what : bytes) : M lua_Number :=
  v ← stk L i;
  match luaV_tonumber v with
  | Some n => setstk L i (VNumber n);; mret n
  | None => luaG_runerror L (str "'for' " ++ what ++ str " must be a number") []
  end.

Definition op_forprep : M next :=
  upd L (set_savedpc pc);;
  init ← for_number RA (str "initial value");
  for_number (RA + 1) (str "limit");;
  step ← for_number (RA + 2) (str "step");
  setstk L RA (VNumber (luai_numsub init step));;
  continue_at (pc + GETARG_sBx i).

Definition op_tforloop : M next :=
  let cb := RA + 3 in
  copy L (cb + 2) (RA + 2);;
  copy L (cb + 1) (RA + 1);;
  copy L cb RA;;
  set_topM L (cb + 3);;
  upd L (set_savedpc pc);;
  luaD_call L cb C;;
  b ← field L base;
  let fr := with_base b fr in
  t ← thread L;
  c ← get_ci L (ci t);
  set_topM L (ci_top c);;
  let cb := b + A + 3 in
  v ← stk L cb;
  if negb (ttisnil v) then setstk L (cb - 1) v;; branch true (Continue fr)
  else branch false (Continue fr).

(** *** Constructors *)

(** [for (; n > 0; n--)]: store the slots [ra + n] to [ra + 1]. *)
Fixpoint setlist_loop (n : nat) (r : Z) (last : Z) : M unit :=
  match n with
  | O => mret tt
  | S n' =>
      v ← stk L (RA + Z.of_nat n);
      x ← heap_setnum L r last;
      heap_store r x v;;
      luaC_barriert r v;;
      setlist_loop n' r (last - 1)
  end.

Definition op_setlist : M next :=
  n ← (if B =? 0 then
         t ← thread L;
         c ← get_ci L (ci t);
         set_topM L (ci_top c);;
         mret (top t - RA - 1)
       else mret B);
  '(c, pc) ← (if C =? 0 then c ← instruction pc; mret (i32 c, pc + 1) else mret (C, pc));
  v ← stk L RA;
  match v with
  | VTable r =>
      h ← gco2h r;
      let last := i32 ((c - 1) * LFIELDS_PER_FLUSH + n) in
      (if sizearray h <? last then h' ← raise L (luaH_resizearray h last); set_body r (OTable h');; barrier_nodes r (node h) else mret tt);;
      setlist_loop (Z.to_nat n) r last;;
      continue_at pc
  | _ => continue_at pc
  end.

(** The upvalues of a new closure, from the instructions at [pc]; [n] are left. *)
Fixpoint closure_upvals (n : nat) (pc : Z) : M (list (option Z)) :=
  match n with
  | O => mret []
  | S n =>
      j ← instruction pc;
      u ← (if is_op j OP_GETUPVAL then valid (getZ (fr_upvals fr) (GETARG_B j))
           else u ← luaF_findupval L (fr_base fr + GETARG_B j); mret (Some u));
      rest ← closure_upvals n (pc + 1);
      mret (u :: rest)
  end.

Definition op_closure : M next :=
  p ← valid (getZ (Object.p (fr_p fr)) (GETARG_Bx i));
  let nup := nups p in
  e ← cl_env;
  ncl ← luaF_newLclosure nup e p;
  ups ← closure_upvals (Z.to_nat nup) pc;
  set_body ncl (OClosure (LClosure e p ups));;
  setstk L RA (VFunction ncl);;
  upd L (set_savedpc (pc + nup));;
  collect luaD_call L;;
  b ← field L base;
  mret (Continue (with_base b (with_pc (pc + nup) fr))).

(** Slots [ra + j] to [ra + b - 1]: the [n] extra arguments, then nil; [m] are left. *)
Fixpoint vararg_loop (m : nat) (ra : StkId) (first : StkId) (j n : Z) : M unit :=
  match m with
  | O => mret tt
  | S m =>
      (if j <? n then copy L (ra + j) (first + j) else setstk L (ra + j) VNil);;
      vararg_loop m ra first (j + 1) n
  end.

Definition op_vararg : M next :=
  let b := B - 1 in
  t ← thread L;
  c ← get_ci L (ci t);
  let n := ci_base c - ci_func c - numparams (fr_p fr) - 1 in
  if b =? LUA_MULTRET then
    upd L (set_savedpc pc);;
    luaD_checkstack L n;;
    base ← field L base;
    let fr := with_base base fr in
    let ra := base + A in
    set_topM L (ra + n);;
    vararg_loop (Z.to_nat n) ra (ci_base c - n) 0 n;;
    mret (Continue fr)
  else vararg_loop (Z.to_nat b) RA (ci_base c - n) 0 n;; continue.

Definition execute_op (op : OpCode) : M next :=
  match op with
  | OP_MOVE | OP_LOADK | OP_LOADBOOL | OP_LOADNIL => op_load op
  | OP_GETUPVAL | OP_GETGLOBAL | OP_SETGLOBAL | OP_SETUPVAL => op_variable op
  | OP_GETTABLE | OP_SETTABLE | OP_NEWTABLE | OP_SELF => op_table op
  | OP_ADD => op_arith TM_ADD
  | OP_SUB => op_arith TM_SUB
  | OP_MUL => op_arith TM_MUL
  | OP_DIV => op_arith TM_DIV
  | OP_MOD => op_arith TM_MOD
  | OP_POW => op_arith TM_POW
  | OP_UNM | OP_NOT | OP_LEN => op_unary op
  | OP_CONCAT => op_concat
  | OP_JMP => continue_at (pc + GETARG_sBx i)
  | OP_EQ | OP_LT | OP_LE | OP_TEST | OP_TESTSET => op_test op
  | OP_CALL => op_call
  | OP_TAILCALL => op_tailcall
  | OP_RETURN => op_return
  | OP_FORLOOP => op_forloop
  | OP_FORPREP => op_forprep
  | OP_TFORLOOP => op_tforloop
  | OP_SETLIST => op_setlist
  | OP_CLOSE => luaF_close L RA;; continue
  | OP_CLOSURE => op_closure
  | OP_VARARG => op_vararg
  end.
End instruction.

(** One round of the main loop; an unknown operation code does nothing. *)
Definition execute_step (L : Z) (fr : frame) : M next :=
  i ← instruction fr (fr_pc fr);
  let fr := with_pc (fr_pc fr + 1) fr in
  t ← thread L;
  fr ← (if has_mask t LUA_MASKLINE || has_mask t LUA_MASKCOUNT then
          upd L (fun t => set_hookcount (hookcount t - 1) t);;
          if (hookcount t - 1 =? 0) || has_mask t LUA_MASKLINE then
            traceexec L (fr_pc fr);;
            t ← thread L;
            if status t =? LUA_YIELD then
              upd L (set_savedpc (fr_pc fr - 1));; mret None
            else mret (Some (with_base (base t) fr))
          else mret (Some fr)
        else mret (Some fr));
  match fr with
  | None => mret Return
  | Some fr =>
      match op_of (GET_OPCODE i) with
      | Some op => execute_op L i fr op
      | None => mret (Continue fr)
      end
  end.

Fixpoint execute_loop (fuel : nat) (L : Z) (fr : frame) : M unit :=
  match fuel with
  | O => late
  | S fuel =>
      x ← execute_step L fr;
      match x with
      | Continue fr => execute_loop fuel L fr
      | Reentry n => fr ← reentry L n; execute_loop fuel L fr
      | Return => mret tt
      end
  end.

Definition luaV_execute (fuel : nat) (L : Z) (nexeccalls : Z) : M unit :=
  fr ← reentry L nexeccalls;
  execute_loop fuel L fr.
End vm.
