(* ===== verification/Run.v ===== *)
(** * Running programs (the rest of ldo.c)

    [luaD_call] and the virtual machine call each other; the number of nested
    calls of [luaD_call], and of instructions in each run of the virtual
    machine, is bounded by [fuel] here. *)

From S2P Require Import Prelude Clib Opcodes Object Debug Table Auxlib State Barrier Func Tm Do Vm.

Section run.
Context `{Machine} `{Host} `{Cenv} `{LibM} `{Locale}.

(** [luaD_call], with the calls that the called function makes in turn *)
Definition call_body `{Calling} (fuel : nat) : Calling := fun L func nResults =>
  upd L (fun t => set_nCcalls ((nCcalls t + 1) mod 2 ^ 16) t);;
  n ← field L nCcalls;
  (if LUAI_MAXCCALLS <=? n then
     if n =? LUAI_MAXCCALLS then luaG_runerror L (str "C stack overflow") []
     else if LUAI_MAXCCALLS + Z.shiftr LUAI_MAXCCALLS 3 <=? n then luaD_throw L LUA_ERRERR
     else mret tt
   else mret tt);;
  r ← luaD_precall L func nResults;
  (match r with PCRLUA => luaV_execute fuel L 1 | _ => mret tt end);;
  upd L (fun t => set_nCcalls ((nCcalls t - 1) mod 2 ^ 16) t);;
  collect luaD_call L.

Fixpoint call (fuel : nat) : Calling :=
  match fuel with
  | O => fun _ _ _ => late
  | S fuel => let inner : Calling := call fuel in call_body fuel
  end.

Section resume.
Context `{Calling}.
Variable fuel : nat.

(** *** Coroutines *)

Definition resume (L : Z) (firstArg : StkId) : M unit :=
  t ← thread L;
  run ← (if status t =? 0 then
    r ← luaD_precall L (firstArg - 1) LUA_MULTRET;
    mret (match r with PCRLUA => true | _ => false end)
  else
    upd L (set_status 0);;
    b ← f_isLua L (ci t);
    (if negb b then
       b ← luaD_poscall L firstArg;
       if (b : bool) then t ← thread L; c ← get_ci L (ci t); set_topM L (ci_top c) else mret tt
     else c ← get_ci L (ci t); upd L (set_base (ci_base c)));;
    mret true);
  if (run : bool) then i ← field L ci; luaV_execute fuel L i else mret tt.

Definition lua_resume (L : Z) (nargs : Z) : M Z :=
  t ← thread L;
  if negb (status t =? LUA_YIELD) && (negb (status t =? 0) || negb (ci t =? 0)) then
    resume_error L (str "cannot resume non-suspended coroutine")
  else if LUAI_MAXCCALLS <=? nCcalls t then resume_error L (str "C stack overflow")
  else
    upd L (fun t => let n := (nCcalls t + 1) mod 2 ^ 16 in set_baseCcalls n (set_nCcalls n t));;
    status' ← luaD_rawrunprotected L (resume L (top t - nargs));
    status' ← (if negb (status' =? 0) then
      upd L (set_status (u8 status'));;
      top ← field L top;
      luaD_seterrorobj L status' top;;
      t ← thread L;
      upd_ci L (ci t) (set_ci_top (State.top t));;
      mret status'
    else field L status);
    upd L (fun t => set_nCcalls ((nCcalls t - 1) mod 2 ^ 16) t);;
    mret status'.
End resume.
End run.
