(* ===== verification/Lstate.v ===== *)
(** * States and threads (lstate.c) *)

From S2P Require Import Prelude Clib Opcodes Object Debug Table Auxlib State Barrier Func Tm Do Vm Run.

Definition NUM_TAGS : Z := LUA_TTHREAD + 1.

Definition LUAI_GCPAUSE : Z := 200.
Definition LUAI_GCMUL : Z := 200.

Section lstate.
Context `{Machine} `{Host} `{Cenv} `{Calling}.

(** A thread before its stack is made; [env] and [top] are not set yet. *)
Definition preinit_state : lua_State :=
  mkthread 0 0 0 0 0 0 [] [] 0 0 0 true 0 0 None VNil junk [] O 0.

Definition stack_init (L1 : Z) : M unit :=
  upd L1 (fun t => set_ci 0 (set_base_ci (replicate (Z.to_nat BASIC_CI_SIZE) junk_ci) t));;
  upd L1 (fun t => set_stack_last (BASIC_STACK_SIZE - 1)
    (set_top 0 (set_stack (replicate (Z.to_nat (BASIC_STACK_SIZE + EXTRA_STACK)) junk) t)));;
  setstk L1 0 VNil;;
  set_topM L1 1;;
  upd L1 (set_base 1);;
  upd_ci L1 0 (fun c => mkCallInfo 1 0 (1 + LUA_MINSTACK) (ci_savedpc c) (State.nresults c) (tailcalls c)).

(** The string table and the reserved words are in Lstring.v and LexWords.v. *)
Definition f_luaopen (L : Z) : M unit :=
  stack_init L;;
  h ← raise L (luaH_new 0 2); gt ← new_object (OTable h);
  upd L (set_l_gt (VTable gt));;
  h ← raise L (luaH_new 0 2); r ← new_object (OTable h);
  modG (set_l_registry (VTable r)).

Definition luaE_newthread (L : Z) : M Z :=
  L1 ← new_object (OThread preinit_state);
  stack_init L1;;
  t ← thread L;
  upd L1 (fun t1 => set_hook (hook t) (set_basehookcount (basehookcount t) (set_hookmask (hookmask t) (set_l_gt (l_gt t) t1))));;
  resethookcount L1;;
  mret L1.

Definition luaE_freethread (L1 : Z) : M unit := luaF_close L1 0;; free L1.

(** The state in which [lua_newstate] opens the library, and the address of
    the main thread *)
Definition new_state : State :=
  let white := bit2mask WHITE0BIT FIXEDBIT in
  let g := mkglobal white GCSpause [1] [] None [] [] [] [] None VNil 1 [] (replicate (Z.to_nat NUM_TAGS) None)
    LUAI_GCPAUSE LUAI_GCMUL in
  let mark := Z.lor (luaC_white g) (bit2mask FIXEDBIT SFIXEDBIT) in
  mkState {[ 1 := mkobject mark (OThread preinit_state) ]} g 2.

Definition lua_newstate : result Z :=
  (status ← luaD_rawrunprotected 1 (f_luaopen 1);
   if status =? 0 then mret 1 else wrong) new_state.
End lstate.
