(* ===== verification/Gc.v ===== *)
(** * The garbage collector (lgc.c) and the end of a state (lstate.c)

    The collector works on the heap of State.v.  Strings and prototypes are
    values there, so that [stringmark], [traverseproto] and the sweep of the
    string table, which is one step here, have no effect.  The costs of the
    steps are counted with the sizes of the machine; the amounts of memory, with
    which the code only decides when the next step begins, are not. *)

From S2P Require Import Prelude Clib Opcodes Object Debug Table Auxlib State Barrier Func Tm Do Vm Run Lstate.

Definition GCSTEPSIZE : Z := 1024.
Definition GCSWEEPMAX : Z := 40.
Definition GCSWEEPCOST : Z := 10.
Definition GCFINALIZECOST : Z := 100.
Definition MAX_LUMEM : Z := 2 ^ 64 - 1 - 2.

Definition isfinalized (o : GCObject) : bool := testbit (marked o) FINALIZEDBIT.
Definition markfinalized (o : GCObject) : GCObject := set_marked (l_setbit (marked o) FINALIZEDBIT) o.

Definition KEYWEAK : Z := bitmask KEYWEAKBIT.
Definition VALUEWEAK : Z := bitmask VALUEWEAKBIT.

(** [sizeof] the structures of the machine *)
Class Sizes := {
  sizeof_Table : Z;
  sizeof_TValue : Z;
  sizeof_Node : Z;
  sizeof_lua_State : Z;
  sizeof_CallInfo : Z;
  sizeCclosure : Z -> Z;
  sizeLclosure : Z -> Z
}.

Section gc.
Context `{Machine} `{Host} `{Cenv} `{Calling} `{Sizes}.

(** ** Marking *)

Fixpoint marktmu_loop (l : list Z) : M unit :=
  match l with
  | [] => mret tt
  | u :: l => g ← getG; upd_object u (makewhite g);; reallymarkobject u;; marktmu_loop l
  end.

Definition marktmu : M unit := g ← getG; marktmu_loop (tmudata g).

(** The userdata [keep] have been passed and stay; the code also returns the
    size of those it moves to [tmudata]. *)
Fixpoint separate_loop (all : bool) (keep rest : list Z) : M unit :=
  match rest with
  | [] => mret tt
  | curr :: rest =>
      o ← object curr;
      u ← gco2u curr;
      if negb (iswhite o || all) || isfinalized o then separate_loop all (keep ++ [curr]) rest
      else
        tm ← fasttm (uv_metatable u) TM_GC;
        upd_object curr markfinalized;;
        match tm with
        | None => separate_loop all (keep ++ [curr]) rest
        | Some _ =>
            modG (fun g => set_tmudata (tmudata g ++ [curr]) (set_udlist (keep ++ rest) g));;
            separate_loop all keep rest
        end
  end.

Definition luaC_separateudata (all : bool) : M unit := g ← getG; separate_loop all [] (udlist g).

Fixpoint mark_values (l : list TValue) : M unit :=
  match l with
  | [] => mret tt
  | v :: l => markvalue v;; mark_values l
  end.

(** The key of a node as a value *)
Definition key2tval (k : TKey) : TValue := match k with LiveKey v | DeadKey v => v end.

(** The keys and values of the nodes that are in use *)
Fixpoint mark_nodes (weakkey weakvalue : bool) (l : list Node) : M unit :=
  match l with
  | [] => mret tt
  | n :: l =>
      (if ttisnil (gval n) then mret tt
       else
         (if negb weakkey then markvalue (key2tval (gkey n)) else mret tt);;
         (if negb weakvalue then markvalue (gval n) else mret tt));;
      mark_nodes weakkey weakvalue l
  end.

(** [strchr(svalue(mode), c) != NULL] *)
Definition mode_has (c : Z) (mode : option TValue) : bool :=
  match mode with Some (VString s) => existsb (Z.eqb c) (cstr s) | _ => false end.

(** The entries, and the keys of the empty nodes *)
Definition traverse_entries (r : Z) (h : Table) (weakkey weakvalue : bool) : M unit :=
  (if negb weakvalue then mark_values (rev (array h)) else mret tt);;
  mark_nodes weakkey weakvalue (rev (node h));;
  h ← gco2h r;
  set_body r (OTable (clear_dead h)).

(** The bits that tell what is weak in a table *)
Definition weak_bits (weakkey weakvalue : bool) (o : GCObject) : GCObject :=
  set_marked (Z.lor (resetbits (marked o) (Z.lor KEYWEAK VALUEWEAK))
    (Z.lor (if weakkey then KEYWEAK else 0) (if weakvalue then VALUEWEAK else 0))) o.

Definition traversetable (r : Z) : M bool :=
  h ← gco2h r;
  (match metatable h with Some mt => markobject mt | None => mret tt end);;
  mode ← fasttm (metatable h) TM_MODE;
  let weakkey := mode_has 107 mode in
  let weakvalue := mode_has 118 mode in
  (if weakkey || weakvalue then
     upd_object r (weak_bits weakkey weakvalue);;
     modG (fun g => set_weak (r :: weak g) g)
   else mret tt);;
  if weakkey && weakvalue then mret true
  else traverse_entries r h weakkey weakvalue;; mret (weakkey || weakvalue).

Fixpoint mark_upvals (l : list (option Z)) : M unit :=
  match l with
  | [] => mret tt
  | uv :: l => r ← valid uv; markobject r;; mark_upvals l
  end.

Definition traverseclosure (cl : Closure) : M unit :=
  match cl with
  | CClosure e _ upvalue => markobject e;; mark_values upvalue
  | LClosure e _ upvals => markobject e;; mark_upvals upvals
  end.

Definition checkstacksizes (L : Z) (max : StkId) : M unit :=
  t ← thread L;
  let ci_used := ci t in
  let s_used := max in
  if LUAI_MAXCALLS <? size_ci t then mret tt
  else
    (if (4 * ci_used <? size_ci t) && (2 * BASIC_CI_SIZE <? size_ci t)
     then luaD_reallocCI L (Z.quot (size_ci t) 2) else mret tt);;
    if (4 * s_used <? stacksize t) && (2 * (BASIC_STACK_SIZE + EXTRA_STACK) <? stacksize t)
    then luaD_reallocstack L (Z.quot (stacksize t) 2) else mret tt.

(** The end of the part of the stack that calls may use *)
Definition stack_limit (t : lua_State) : StkId :=
  fold_left (fun lim c => if lim <? ci_top c then ci_top c else lim) (take (Z.to_nat (ci t + 1)) (base_ci t)) (top t).

Definition traversestack (l : Z) : M unit :=
  t ← thread l;
  markvalue (l_gt t);;
  let lim := stack_limit t in
  mark_values (take (Z.to_nat (top t)) (stack t));;
  nil_slots (Z.to_nat (lim + 1 - top t)) l (top t);;
  checkstacksizes l lim.

(** Result: the cost of the step *)
Definition propagatemark : M Z :=
  g ← getG;
  match gray g with
  | [] => wrong
  | r :: rest =>
      upd_object r gray2black;;
      modG (set_gray rest);;
      o ← object r;
      match obj o with
      | OTable h =>
          w ← traversetable r;
          (if (w : bool) then upd_object r black2gray else mret tt);;
          mret (sizeof_Table + sizeof_TValue * sizearray h + sizeof_Node * sizenode h)
      | OClosure cl =>
          traverseclosure cl;;
          mret (match cl with CClosure _ _ u => sizeCclosure (lenZ u) | LClosure _ _ u => sizeLclosure (lenZ u) end)
      | OThread _ =>
          modG (fun g => set_grayagain (r :: grayagain g) g);;
          upd_object r black2gray;;
          traversestack r;;
          t ← thread r;
          mret (sizeof_lua_State + sizeof_TValue * stacksize t + sizeof_CallInfo * size_ci t)
      | _ => wrong
      end
  end.

Fixpoint propagate_loop (n : nat) : M unit :=
  g ← getG;
  match gray g with
  | [] => mret tt
  | _ :: _ => match n with O => late | S n => propagatemark;; propagate_loop n end
  end.

(** Every object is marked once at most. *)
Definition propagateall : M unit := fun s => propagate_loop (length (gray (G s)) + size (heap s)) s.

(** ** Weak tables *)

Definition iscleared (v : TValue) (iskey : bool) : M bool :=
  match gcvalue v with
  | None => mret false
  | Some r =>
      o ← object r;
      mret (iswhite o || (match v with VUserdata _ => negb iskey && isfinalized o | _ => false end))
  end.

Fixpoint clear_values (l : list TValue) : M (list TValue) :=
  match l with
  | [] => mret []
  | v :: l => c ← iscleared v false; l ← clear_values l; mret ((if c : bool then VNil else v) :: l)
  end.

Fixpoint clear_nodes (l : list Node) : M (list Node) :=
  match l with
  | [] => mret []
  | n :: l =>
      c ← (if ttisnil (gval n) then mret false
           else
             k ← iscleared (key2tval (gkey n)) true;
             if (k : bool) then mret true else iscleared (gval n) false);
      l ← clear_nodes l;
      mret ((if c : bool then removeentry (set_gval VNil n) else n) :: l)
  end.

Fixpoint cleartable (l : list Z) : M unit :=
  match l with
  | [] => mret tt
  | r :: l =>
      o ← object r;
      h ← gco2h r;
      a ← (if testbit (marked o) VALUEWEAKBIT then clear_values (array h) else mret (array h));
      n ← clear_nodes (node h);
      set_body r (OTable (with_node n (with_array a h)));;
      cleartable l
  end.

(** ** Sweeping *)

Definition freeobj (r : Z) : M unit :=
  o ← object r;
  match obj o with
  | OClosure _ => luaF_freeclosure r
  | OUpVal _ => luaF_freeupval r
  | OTable _ => free r
  | OThread _ => luaE_freethread r
  | OUdata _ => free r
  end.

(** [(curr->gch.marked ^ WHITEBITS) & deadmask] *)
Definition not_dead (deadmask : Z) (o : GCObject) : bool :=
  negb (Z.land (Z.lxor (marked o) WHITEBITS) deadmask =? 0).

(** [sweepwholelist] on the open upvalues of a thread; those in [keep] have
    been passed. *)
Fixpoint sweep_upvals (L : Z) (keep rest : list Z) : M unit :=
  match rest with
  | [] => mret tt
  | curr :: rest =>
      g ← getG;
      o ← object curr;
      if not_dead (otherwhite g) o then upd_object curr (makewhite g);; sweep_upvals L (keep ++ [curr]) rest
      else upd L (set_openupval (keep ++ rest));; freeobj curr;; sweep_upvals L keep rest
  end.

(** The elements after [r] *)
Fixpoint list_after (r : Z) (l : list Z) : list Z :=
  match l with
  | [] => []
  | x :: l => if x =? r then l else list_after r l
  end.

(** The list at [*p] *)
Definition rest_at (p : option Z) (g : global_State) : list Z :=
  let l := rootgc g ++ udlist g in
  match p with None => l | Some r => list_after r l end.

(** [*p = curr->gch.next] *)
Definition unlink (curr : Z) : M unit :=
  modG (fun g => set_rootgc (list_remove_first curr (rootgc g)) (set_udlist (list_remove_first curr (udlist g)) g)).

(** [sweeplist(L, p, count)] on the list of all objects *)
Fixpoint sweeplist (count : nat) (p : option Z) : M (option Z) :=
  g ← getG;
  match rest_at p g, count with
  | curr :: _, S count =>
      o ← object curr;
      (match obj o with OThread t => sweep_upvals curr [] (openupval t) | _ => mret tt end);;
      if not_dead (otherwhite g) o then upd_object curr (makewhite g);; sweeplist count (Some curr)
      else unlink curr;; freeobj curr;; sweeplist count p
  | _, _ => mret p
  end.

(** ** Finalizers *)

Definition GCTM (L : Z) : M unit :=
  g ← getG;
  match tmudata g with
  | [] => wrong
  | o :: rest =>
      modG (fun g => set_tmudata rest (set_udlist (o :: udlist g) g));;
      upd_object o (makewhite g);;
      u ← gco2u o;
      tm ← fasttm (uv_metatable u) TM_GC;
      match tm with
      | Some tm =>
          oldah ← field L allowhook;
          upd L (set_allowhook false);;
          top ← field L top;
          setstk L top tm;;
          setstk L (top + 1) (VUserdata o);;
          set_topM L (top + 2);;
          luaD_call L top 0;;
          upd L (set_allowhook oldah)
      | None => mret tt
      end
  end.

Fixpoint luaC_callGCTM (fuel : nat) (L : Z) : M unit :=
  g ← getG;
  match tmudata g with
  | [] => mret tt
  | _ :: _ => match fuel with O => late | S fuel => GCTM L;; luaC_callGCTM fuel L end
  end.

Definition luaC_freeall : M unit :=
  modG (set_currentwhite (Z.lor WHITEBITS (bitmask SFIXEDBIT)));;
  n ← (fun s => Ok (size (heap s)) s) : M nat;
  sweeplist n None;;
  mret tt.

(** ** The phases *)

Fixpoint markmt_loop (l : list (option Z)) : M unit :=
  match l with
  | [] => mret tt
  | m :: l => (match m with Some r => markobject r | None => mret tt end);; markmt_loop l
  end.

Definition markmt : M unit := g ← getG; markmt_loop (mt g).

Definition markroot : M unit :=
  modG (fun g => set_gray [] (set_grayagain [] (set_weak [] g)));;
  g ← getG;
  markobject (mainthread g);;
  gt ← field (mainthread g) l_gt;
  markvalue gt;;
  markvalue (l_registry g);;
  markmt;;
  modG (set_gcstate GCSpropagate).

Fixpoint remark_loop (l : list Z) : M unit :=
  match l with
  | [] => mret tt
  | uv :: l =>
      o ← object uv;
      (if isgray o then v ← uv_value uv; markvalue v else mret tt);;
      remark_loop l
  end.

Definition remarkupvals : M unit := g ← getG; remark_loop (uvhead g).

Definition atomic (L : Z) : M unit :=
  remarkupvals;;
  propagateall;;
  modG (fun g => set_gray (weak g) (set_weak [] g));;
  markobject L;;
  markmt;;
  propagateall;;
  modG (fun g => set_gray (grayagain g) (set_grayagain [] g));;
  propagateall;;
  luaC_separateudata false;;
  marktmu;;
  propagateall;;
  g ← getG;
  cleartable (weak g);;
  modG (fun g => set_gcstate GCSsweepstring (set_sweepgc None (set_currentwhite (u8 (otherwhite g)) g))).

Definition singlestep (L : Z) : M Z :=
  g ← getG;
  if gcstate g =? GCSpause then markroot;; mret 0
  else if gcstate g =? GCSpropagate then
    match gray g with
    | _ :: _ => propagatemark
    | [] => atomic L;; mret 0
    end
  else if gcstate g =? GCSsweepstring then modG (set_gcstate GCSsweep);; mret GCSWEEPCOST
  else if gcstate g =? GCSsweep then
    p ← sweeplist (Z.to_nat GCSWEEPMAX) (sweepgc g);
    modG (set_sweepgc p);;
    g ← getG;
    (match rest_at p g with [] => modG (set_gcstate GCSfinalize) | _ :: _ => mret tt end);;
    mret (GCSWEEPMAX * GCSWEEPCOST)
  else if gcstate g =? GCSfinalize then
    match tmudata g with
    | _ :: _ => GCTM L;; mret GCFINALIZECOST
    | [] => modG (set_gcstate GCSpause);; mret 0
    end
  else wrong.

(** [do ... while (lim > 0)] *)
Fixpoint step_loop (fuel : nat) (L : Z) (lim : Z) : M unit :=
  match fuel with
  | O => late
  | S fuel =>
      c ← singlestep L;
      let lim := lim - c in
      g ← getG;
      if gcstate g =? GCSpause then mret tt
      else if 0 <? lim then step_loop fuel L lim
      else mret tt
  end.

Definition luaC_step (fuel : nat) (L : Z) : M unit :=
  g ← getG;
  let lim := Z.quot GCSTEPSIZE 100 * gcstepmul g in
  step_loop fuel L (if lim =? 0 then Z.quot (MAX_LUMEM - 1) 2 else lim).

(** Steps until the collector is in the state [st] *)
Fixpoint steps_until (fuel : nat) (L : Z) (st : Z) : M unit :=
  g ← getG;
  if gcstate g =? st then mret tt
  else match fuel with O => late | S fuel => singlestep L;; steps_until fuel L st end.

Definition luaC_fullgc (fuel : nat) (L : Z) : M unit :=
  g ← getG;
  (if gcstate g <=? GCSpropagate then
     modG (fun g => set_gcstate GCSsweepstring (set_gray [] (set_grayagain [] (set_weak [] (set_sweepgc None g)))))
   else mret tt);;
  steps_until fuel L GCSfinalize;;
  markroot;;
  steps_until fuel L GCSpause.

(** ** Closing a state (lstate.c) *)

Definition close_state (L : Z) : M unit := luaF_close L 0;; luaC_freeall;; free L.

Definition callallgcTM (fuel : nat) (L : Z) : M unit := luaC_callGCTM fuel L.

(** [do ... while]: an error in a finalizer ends one round. *)
Fixpoint finalize_loop (fuel : nat) (L : Z) : M unit :=
  match fuel with
  | O => late
  | S fuel =>
      upd L (set_ci 0);;
      c ← get_ci L 0;
      upd L (fun t => set_base (ci_base c) (set_top (ci_base c) t));;
      upd L (fun t => set_nCcalls 0 (set_baseCcalls 0 t));;
      status ← luaD_rawrunprotected L (callallgcTM fuel L);
      if negb (status =? 0) then finalize_loop fuel L else mret tt
  end.

Definition lua_close (fuel : nat) : M unit :=
  g ← getG;
  let L := mainthread g in
  luaF_close L 0;;
  luaC_separateudata true;;
  upd L (set_errfunc 0);;
  finalize_loop fuel L;;
  close_state L.
End gc.
