(* ===== verification/Api.v ===== *)
(** * The host interface (lapi.c)

    An index of the API names a place: a slot of the stack of the thread, the
    registry, the environment or the globals, an upvalue of the running C
    function, or nothing ([luaO_nilobject]).  The checks of [api_check] are
    not compiled in.  The allocator and the collector's parameters
    ([lua_getallocf], [lua_setallocf], most of [lua_gc]) have no counterpart
    in the state. *)

From S2P Require Import Prelude Clib Opcodes Object Debug Table Auxlib State Barrier Func Tm Do Vm Run Lstate.

Definition LUA_REGISTRYINDEX : Z := -10000.
Definition LUA_ENVIRONINDEX : Z := -10001.
Definition LUA_GLOBALSINDEX : Z := -10002.

Inductive place :=
| PStack (i : StkId)
| PRegistry
| PEnv
| PGlobals
| PUpvalue (cl : Z) (n : Z)
| PNone.

Section api.
Context `{Machine} `{Host} `{Cenv} `{LibM} `{Locale} `{Calling}.
Implicit Types (L idx n : Z).

(** ** Indices *)

(** [curr_func(L)]: the address of the closure that runs *)
Definition curr_func L : M Z :=
  t ← thread L;
  c ← get_ci L (ci t);
  f ← stk L (ci_func c);
  match f with VFunction r => mret r | _ => wrong end.

Definition closure_env (cl : Closure) : Z := match cl with CClosure e _ _ | LClosure e _ _ => e end.

Definition set_closure_env (e : Z) (cl : Closure) : Closure :=
  match cl with CClosure _ f u => CClosure e f u | LClosure _ p u => LClosure e p u end.

Definition index2adr L idx : M place :=
  t ← thread L;
  if 0 <? idx then
    let o := base t + (idx - 1) in
    mret (if top t <=? o then PNone else PStack o)
  else if LUA_REGISTRYINDEX <? idx then mret (PStack (top t + idx))
  else if idx =? LUA_REGISTRYINDEX then mret PRegistry
  else if idx =? LUA_ENVIRONINDEX then
    r ← curr_func L;
    cl ← gco2cl r;
    upd L (set_env (VTable (closure_env cl)));;
    mret PEnv
  else if idx =? LUA_GLOBALSINDEX then mret PGlobals
  else
    r ← curr_func L;
    cl ← gco2cl r;
    let idx := LUA_GLOBALSINDEX - idx in
    match cl with
    | CClosure _ _ ups => mret (if idx <=? lenZ ups then PUpvalue r (idx - 1) else PNone)
    | LClosure _ _ _ => wrong
    end.

(** The value of a place *)
Definition read_place L (o : place) : M TValue :=
  match o with
  | PStack i => stk L i
  | PRegistry => g ← getG; mret (l_registry g)
  | PEnv => field L State.env
  | PGlobals => field L l_gt
  | PUpvalue r n =>
      cl ← gco2cl r;
      match cl with CClosure _ _ ups => valid (getZ ups n) | LClosure _ _ _ => wrong end
  | PNone => mret VNil
  end.

(** Only [luaO_nilobject], a constant, cannot be assigned. *)
Definition write_place L (o : place) (v : TValue) : M unit :=
  match o with
  | PStack i => setstk L i v
  | PRegistry => modG (set_l_registry v)
  | PEnv => upd L (set_env v)
  | PGlobals => upd L (set_l_gt v)
  | PUpvalue r n =>
      cl ← gco2cl r;
      match cl with
      | CClosure e f ups => valid (getZ ups n);; set_body r (OClosure (CClosure e f (setZ ups n v)))
      | LClosure _ _ _ => wrong
      end
  | PNone => wrong
  end.

(** The pointer as an operand of the virtual machine *)
Definition ptr_of L (o : place) : M ptr :=
  match o with PStack i => mret (PStk i) | _ => v ← read_place L o; mret (PVal v) end.

Definition getcurrenv L : M Z :=
  t ← thread L;
  if ci t =? 0 then match l_gt t with VTable r => mret r | _ => wrong end
  else r ← curr_func L; cl ← gco2cl r; mret (closure_env cl).

Definition value_at L idx : M TValue := o ← index2adr L idx; read_place L o.

Definition api_incr_top L : M unit := upd L (fun t => set_top (top t + 1) t).

Definition luaA_pushobject L (v : TValue) : M unit := top ← field L top; setstk L top v;; api_incr_top L.

(** ** Stack manipulation *)

Definition lua_checkstack L (size : Z) : M bool :=
  t ← thread L;
  if (LUAI_MAXCSTACK <? size) || (LUAI_MAXCSTACK <? top t - base t + size) then mret false
  else
    (if 0 <? size then
       luaD_checkstack L size;;
       c ← get_ci L (ci t);
       if ci_top c <? top t + size then upd_ci L (ci t) (set_ci_top (top t + size)) else mret tt
     else mret tt);;
    mret true.

Fixpoint xmove_loop (m : nat) (from to : Z) (i : StkId) : M unit :=
  match m with
  | O => mret tt
  | S m => v ← stk from i; luaA_pushobject to v;; xmove_loop m from to (i + 1)
  end.

Definition lua_xmove (from to n : Z) : M unit :=
  if from =? to then mret tt
  else
    t ← field from top;
    set_topM from (t - n);;
    xmove_loop (Z.to_nat n) from to (t - n).

Definition lua_setlevel (from to : Z) : M unit := n ← field from nCcalls; upd to (set_nCcalls n).

Definition lua_atpanic (panicf : option Z) : M (option Z) := g ← getG; modG (set_panic panicf);; mret (panic g).

Definition lua_newthread L : M Z :=
  collect luaD_call L;;
  L1 ← luaE_newthread L;
  luaA_pushobject L (VThread L1);;
  mret L1.

Definition lua_gettop L : M Z := t ← thread L; mret (top t - base t).

Definition lua_settop L idx : M unit :=
  t ← thread L;
  if 0 <=? idx then
    nil_slots (Z.to_nat (base t + idx - top t)) L (top t);;
    set_topM L (base t + idx)
  else set_topM L (top t + idx + 1).

(** [while (++p < L->top) setobjs2s(L, p-1, p)]: [m] slots are left. *)
Fixpoint shift_down (m : nat) L (p : StkId) : M unit :=
  match m with
  | O => mret tt
  | S m => copy L p (p + 1);; shift_down m L (p + 1)
  end.

(** An index of a slot of the stack, as [lua_remove] and [lua_insert] need *)
Definition slot_at L idx : M StkId := o ← index2adr L idx; match o with PStack i => mret i | _ => wrong end.

Definition lua_remove L idx : M unit :=
  p ← slot_at L idx;
  t ← field L top;
  shift_down (Z.to_nat (t - 1 - p)) L p;;
  set_topM L (t - 1).

Definition lua_insert L idx : M unit :=
  p ← slot_at L idx;
  t ← field L top;
  open_hole (Z.to_nat (t - p)) L t;;
  copy L p t.

Definition lua_replace L idx : M unit :=
  t ← thread L;
  (if (idx =? LUA_ENVIRONINDEX) && (ci t =? 0) then luaG_runerror L (str "no calling environment") [] else mret tt);;
  o ← index2adr L idx;
  v ← stk L (top t - 1);
  (if idx =? LUA_ENVIRONINDEX then
     r ← curr_func L;
     cl ← gco2cl r;
     match v with
     | VTable e => set_body r (OClosure (set_closure_env e cl));; luaC_barrier r v
     | _ => wrong
     end
   else
     write_place L o v;;
     if idx <? LUA_GLOBALSINDEX then r ← curr_func L; luaC_barrier r v else mret tt);;
  set_topM L (top t - 1).

Definition lua_pushvalue L idx : M unit := v ← value_at L idx; luaA_pushobject L v.

(** ** Access functions *)

Definition lua_type L idx : M Z :=
  o ← index2adr L idx;
  match o with PNone => mret LUA_TNONE | _ => v ← read_place L o; mret (ttype v) end.

Definition c_function (v : TValue) : M (option Z) :=
  match v with
  | VFunction r => cl ← gco2cl r; mret (match cl with CClosure _ f _ => Some f | LClosure _ _ _ => None end)
  | _ => mret None
  end.

Definition lua_iscfunction L idx : M bool := v ← value_at L idx; f ← c_function v; mret (bool_decide (is_Some f)).
Definition lua_isnumber L idx : M bool := v ← value_at L idx; mret (bool_decide (is_Some (luaV_tonumber v))).
Definition lua_isstring L idx : M bool := t ← lua_type L idx; mret ((t =? LUA_TSTRING) || (t =? LUA_TNUMBER)).
Definition lua_isuserdata L idx : M bool :=
  v ← value_at L idx; mret (match v with VUserdata _ | VLightUserdata _ => true | _ => false end).

(** Both places when both are there *)
Definition both L index1 index2 : M (option (place * place)) :=
  o1 ← index2adr L index1;
  o2 ← index2adr L index2;
  mret (match o1, o2 with PNone, _ | _, PNone => None | _, _ => Some (o1, o2) end).

Definition lua_rawequal L (index1 index2 : Z) : M bool :=
  o ← both L index1 index2;
  match o with
  | None => mret false
  | Some (o1, o2) => v1 ← read_place L o1; v2 ← read_place L o2; mret (luaO_rawequalObj v1 v2)
  end.

Definition lua_equal L (index1 index2 : Z) : M bool :=
  o ← both L index1 index2;
  match o with
  | None => mret false
  | Some (o1, o2) => p1 ← ptr_of L o1; p2 ← ptr_of L o2; equalobj L p1 p2
  end.

Definition lua_lessthan L (index1 index2 : Z) : M bool :=
  o ← both L index1 index2;
  match o with
  | None => mret false
  | Some (o1, o2) => p1 ← ptr_of L o1; p2 ← ptr_of L o2; luaV_lessthan L p1 p2
  end.

Definition lua_tonumber L idx : M lua_Number := v ← value_at L idx; mret (Auxlib.lua_tonumber v).
Definition lua_tointeger L idx : M Z := v ← value_at L idx; mret (Auxlib.lua_tointeger v).
Definition lua_toboolean L idx : M bool := v ← value_at L idx; mret (negb (l_isfalse v)).

(** A number is converted in its place. *)
Definition lua_tolstring L idx : M (option bytes) :=
  o ← index2adr L idx;
  v ← read_place L o;
  match v with
  | VString s => mret (Some s)
  | VNullString => wrong
  | VNumber n =>
      write_place L o (VString (cstr (lua_number2str n)));;
      collect luaD_call L;;
      v ← value_at L idx;
      s ← pure (svalue v);
      mret (Some s)
  | _ => mret None
  end.

Definition lua_objlen L idx : M Z :=
  o ← index2adr L idx;
  v ← read_place L o;
  match v with
  | VString s => mret (lenZ s)
  | VNullString => wrong
  | VUserdata r => u ← gco2u r; mret (lenZ (uv_mem u))
  | VTable r => h ← gco2h r; pure (luaH_getn h)
  | VNumber n =>
      let s := cstr (lua_number2str n) in
      write_place L o (VString s);; mret (lenZ s)
  | _ => mret 0
  end.

Definition lua_tocfunction L idx : M (option Z) := v ← value_at L idx; c_function v.

(** The address of the block of a userdata is the one of the object. *)
Definition lua_touserdata L idx : M (option Z) :=
  v ← value_at L idx; mret (match v with VUserdata r | VLightUserdata r => Some r | _ => None end).

Definition lua_tothread L idx : M (option Z) := v ← value_at L idx; mret (match v with VThread r => Some r | _ => None end).

Definition lua_topointer L idx : M (option Z) :=
  v ← value_at L idx;
  mret (match v with
        | VTable r | VFunction r | VThread r | VUserdata r | VLightUserdata r => Some r
        | _ => None
        end).

(** ** Push functions *)

Definition lua_pushnil L : M unit := luaA_pushobject L VNil.
Definition lua_pushnumber L (x : lua_Number) : M unit := luaA_pushobject L (VNumber x).
Definition lua_pushinteger L n : M unit := luaA_pushobject L (pushinteger n).
Definition lua_pushlstring L (s : bytes) : M unit := collect luaD_call L;; luaA_pushobject L (VString s).
Definition lua_pushstring L (s : option bytes) : M unit :=
  match s with None => lua_pushnil L | Some s => lua_pushlstring L (cstr s) end.
Definition lua_pushfstring L (fmt : bytes) (args : list va_arg) : M bytes :=
  collect luaD_call L;; luaO_pushvfstring L fmt args.

(** The [m] values from [i] on *)
Fixpoint values (m : nat) L (i : StkId) : M (list TValue) :=
  match m with
  | O => mret []
  | S m => v ← stk L i; rest ← values m L (i + 1); mret (v :: rest)
  end.

Definition lua_pushcclosure L (fn n : Z) : M unit :=
  collect luaD_call L;;
  e ← getcurrenv L;
  cl ← luaF_newCclosure n e fn;
  t ← field L top;
  set_topM L (t - n);;
  ups ← values (Z.to_nat n) L (t - n);
  set_body cl (OClosure (CClosure e fn ups));;
  luaA_pushobject L (VFunction cl).

Definition lua_pushboolean L (b : Z) : M unit := luaA_pushobject L (VBoolean (if b =? 0 then 0 else 1)).
Definition lua_pushlightuserdata L (p : Z) : M unit := luaA_pushobject L (VLightUserdata p).
Definition lua_pushthread L : M bool := luaA_pushobject L (VThread L);; g ← getG; mret (mainthread g =? L).

(** ** Get functions *)

Definition lua_gettable L idx : M unit :=
  o ← index2adr L idx;
  t ← ptr_of L o;
  top ← field L top;
  luaV_gettable L t (PStk (top - 1)) (top - 1).

Definition lua_getfield L idx (k : bytes) : M unit :=
  o ← index2adr L idx;
  t ← ptr_of L o;
  top ← field L top;
  luaV_gettable L t (PVal (VString (cstr k))) top;;
  api_incr_top L.

(** The table at an index *)
Definition table_at L idx : M Z := v ← value_at L idx; match v with VTable r => mret r | _ => wrong end.

Definition lua_rawget L idx : M unit :=
  r ← table_at L idx;
  h ← gco2h r;
  t ← field L top;
  k ← stk L (t - 1);
  v ← pure (x ← luaH_get h k; load h x);
  setstk L (t - 1) v.

Definition lua_rawgeti L idx n : M unit :=
  r ← table_at L idx;
  h ← gco2h r;
  v ← pure (x ← luaH_getnum h n; load h x);
  luaA_pushobject L v.

Definition lua_createtable L (narray nrec : Z) : M unit :=
  collect luaD_call L;;
  h ← raise L (luaH_new narray nrec);
  r ← new_object (OTable h);
  luaA_pushobject L (VTable r).

Definition lua_getmetatable L objindex : M bool :=
  obj ← value_at L objindex;
  mt ← metatable_of obj;
  match mt with
  | None => mret false
  | Some mt => luaA_pushobject L (VTable mt);; mret true
  end.

Definition lua_getfenv L idx : M unit :=
  o ← value_at L idx;
  v ← (match o with
    | VFunction r => cl ← gco2cl r; mret (VTable (closure_env cl))
    | VUserdata r => u ← gco2u r; mret (VTable (uv_env u))
    | VThread r => field r l_gt
    | _ => mret VNil
    end);
  luaA_pushobject L v.

(** ** Set functions *)

Definition lua_settable L idx : M unit :=
  o ← index2adr L idx;
  t ← ptr_of L o;
  top ← field L top;
  luaV_settable L t (PStk (top - 2)) (PStk (top - 1));;
  upd L (fun t => set_top (State.top t - 2) t).

Definition lua_setfield L idx (k : bytes) : M unit :=
  o ← index2adr L idx;
  t ← ptr_of L o;
  top ← field L top;
  luaV_settable L t (PVal (VString (cstr k))) (PStk (top - 1));;
  upd L (fun t => set_top (State.top t - 1) t).

(** Store in the field that [f] finds or makes, and pop [m] values. *)
Definition raw_store L idx (m : Z) (f : Z -> M slot) : M unit :=
  r ← table_at L idx;
  t ← field L top;
  v ← stk L (t - 1);
  x ← f r;
  heap_store r x v;;
  luaC_barriert r v;;
  set_topM L (t - m).

Definition lua_rawset L idx : M unit :=
  t ← field L top;
  k ← stk L (t - 2);
  raw_store L idx 2 (fun r => heap_set L r k).

Definition lua_rawseti L idx n : M unit := raw_store L idx 1 (fun r => heap_setnum L r n).

Definition with_metatable (mt : option Z) (h : Table) : Table :=
  mkTable (flags h) mt (array h) (lsizenode h) (node h) (dummy h) (lastfree h).

(** A table or nil on the top of the stack *)
Definition table_or_nil (v : TValue) : M (option Z) :=
  match v with VNil => mret None | VTable r => mret (Some r) | _ => wrong end.

Definition lua_setmetatable L objindex : M Z :=
  obj ← value_at L objindex;
  t ← field L top;
  v ← stk L (t - 1);
  mt ← table_or_nil v;
  (match obj with
   | VTable r =>
       h ← gco2h r;
       set_body r (OTable (with_metatable mt h));;
       match mt with Some mt => luaC_objbarriert r mt | None => mret tt end
   | VUserdata r =>
       u ← gco2u r;
       set_body r (OUdata (mkUdata mt (uv_env u) (uv_mem u)));;
       match mt with Some mt => luaC_objbarrier r mt | None => mret tt end
   | _ => modG (fun g => set_mt (setZ (State.mt g) (ttype obj) mt) g)
   end);;
  set_topM L (t - 1);;
  mret 1.

Definition lua_setfenv L idx : M bool :=
  o ← value_at L idx;
  t ← field L top;
  v ← stk L (t - 1);
  e ← (match v with VTable e => mret e | _ => wrong end);
  res ← (match o with
    | VFunction r => cl ← gco2cl r; set_body r (OClosure (set_closure_env e cl));; mret (Some r)
    | VUserdata r => u ← gco2u r; set_body r (OUdata (mkUdata (uv_metatable u) e (uv_mem u)));; mret (Some r)
    | VThread r => upd r (set_l_gt v);; mret (Some r)
    | _ => mret None
    end);
  (match res with Some r => luaC_objbarrier r e | None => mret tt end);;
  set_topM L (t - 1);;
  mret (bool_decide (is_Some res)).

(** ** Calls *)

Definition adjustresults L (nres : Z) : M unit :=
  if nres =? LUA_MULTRET then
    t ← thread L;
    c ← get_ci L (ci t);
    if ci_top c <=? top t then upd_ci L (ci t) (set_ci_top (top t)) else mret tt
  else mret tt.

Definition lua_call L (nargs nresults : Z) : M unit :=
  t ← field L top;
  luaD_call L (t - (nargs + 1)) nresults;;
  adjustresults L nresults.

Definition lua_pcall L (nargs nresults errfunc : Z) : M Z :=
  ef ← (if errfunc =? 0 then mret 0 else slot_at L errfunc);
  t ← field L top;
  let func := t - (nargs + 1) in
  status ← luaD_pcall L (luaD_call L func nresults) func ef;
  adjustresults L nresults;;
  mret status.

Definition f_Ccall L (func ud : Z) : M unit :=
  e ← getcurrenv L;
  cl ← luaF_newCclosure 0 e func;
  luaA_pushobject L (VFunction cl);;
  luaA_pushobject L (VLightUserdata ud);;
  t ← field L top;
  luaD_call L (t - 2) 0.

Definition lua_cpcall L (func ud : Z) : M Z :=
  t ← field L top;
  luaD_pcall L (f_Ccall L func ud) t 0.

Definition lua_status L : M Z := field L status.

(** ** Miscellaneous *)

Definition lua_error {A} L : M A := luaG_errormsg L.

Definition lua_next L idx : M bool :=
  r ← table_at L idx;
  h ← gco2h r;
  t ← field L top;
  k ← stk L (t - 1);
  e ← raise L (luaH_next h k);
  match e with
  | Some (k, v) => setstk L (t - 1) k;; setstk L t v;; api_incr_top L;; mret true
  | None => set_topM L (t - 1);; mret false
  end.

Definition lua_concat L n : M unit :=
  if 2 <=? n then
    collect luaD_call L;;
    t ← thread L;
    luaV_concat L n (top t - base t - 1);;
    upd L (fun t => set_top (top t - (n - 1)) t)
  else if n =? 0 then luaA_pushobject L (VString [])
  else mret tt.

(** [luaS_newudata]: userdata are linked after the main thread. *)
Definition luaS_newudata (size : Z) (e : Z) : M Z :=
  g ← getG;
  u ← luaM_new (luaC_white g) (OUdata (mkUdata None e (replicate (Z.to_nat size) 0)));
  modG (fun g => set_udlist (u :: udlist g) g);;
  mret u.

Definition lua_newuserdata L (size : Z) : M Z :=
  collect luaD_call L;;
  e ← getcurrenv L;
  u ← luaS_newudata size e;
  luaA_pushobject L (VUserdata u);;
  mret u.

(** The name and the place of an upvalue: of a C function, or the address of
    the upvalue of a Lua function *)
Definition aux_upvalue (fi : TValue) n : M (option (bytes * (place + Z))) :=
  match fi with
  | VFunction r =>
      cl ← gco2cl r;
      match cl with
      | CClosure _ _ ups => mret (if (1 <=? n) && (n <=? lenZ ups) then Some ([], inl (PUpvalue r (n - 1))) else None)
      | LClosure _ p ups =>
          if (1 <=? n) && (n <=? sizeupvalues p) then
            u ← valid (getZ ups (n - 1));
            u ← valid u;
            name ← valid (getZ (upvalues p) (n - 1));
            name ← valid name;
            mret (Some (name, inr u))
          else mret None
      end
  | _ => mret None
  end.

Definition lua_getupvalue L funcindex n : M (option bytes) :=
  fi ← value_at L funcindex;
  u ← aux_upvalue fi n;
  match u with
  | None => mret None
  | Some (name, val) =>
      v ← (match val with inl o => read_place L o | inr u => uv_value u end);
      luaA_pushobject L v;;
      mret (Some name)
  end.

Definition lua_setupvalue L funcindex n : M (option bytes) :=
  fi ← value_at L funcindex;
  u ← aux_upvalue fi n;
  match u, fi with
  | Some (name, val), VFunction r =>
      t ← field L top;
      set_topM L (t - 1);;
      v ← stk L (t - 1);
      (match val with inl o => write_place L o v | inr u => set_uv_value u v end);;
      luaC_barrier r v;;
      mret (Some name)
  | _, _ => mret None
  end.
End api.
