(* ===== verification/Debugapi.v ===== *)
(** * The debug interface (ldebug.c)

    Hooks, the calls that are active, their functions, lines, names and local
    variables. *)

From S2P Require Import Prelude Clib Opcodes Object Debug Table Auxlib State Barrier Func Tm Do Vm Run Lstate Api.

(** [lua_Debug]; the size of the array [short_src] is kept by [luaO_chunkid]. *)
Record lua_Debug := mkDebug {
  event : Z;
  ar_name : option bytes;
  ar_namewhat : bytes;
  what : bytes;
  ar_source : bytes;
  ar_currentline : Z;
  nups : Z;
  linedefined : Z;
  lastlinedefined : Z;
  short_src : bytes;
  i_ci : Z
}.

(** What a variable of this type holds before it is assigned *)
Class Locals := { junk_debug : lua_Debug }.

Section setters.
Implicit Types ar : lua_Debug.

Definition set_i_ci x ar := mkDebug (event ar) (ar_name ar) (ar_namewhat ar) (what ar) (ar_source ar)
  (ar_currentline ar) (nups ar) (linedefined ar) (lastlinedefined ar) (short_src ar) x.
Definition set_currentline x ar := mkDebug (event ar) (ar_name ar) (ar_namewhat ar) (what ar) (ar_source ar)
  x (nups ar) (linedefined ar) (lastlinedefined ar) (short_src ar) (i_ci ar).
Definition set_nups x ar := mkDebug (event ar) (ar_name ar) (ar_namewhat ar) (what ar) (ar_source ar)
  (ar_currentline ar) x (linedefined ar) (lastlinedefined ar) (short_src ar) (i_ci ar).
Definition set_names (name : option bytes) (namewhat : bytes) ar := mkDebug (event ar) name namewhat (what ar)
  (ar_source ar) (ar_currentline ar) (nups ar) (linedefined ar) (lastlinedefined ar) (short_src ar) (i_ci ar).
Definition set_func (w source : bytes) (first last : Z) ar := mkDebug (event ar) (ar_name ar) (ar_namewhat ar) w
  source (ar_currentline ar) (nups ar) first last (luaO_chunkid source LUA_IDSIZE) (i_ci ar).
End setters.

Section debug.
Context `{Machine} `{Host} `{Cenv} `{LibM} `{Locale} `{Calling}.
Implicit Types (L level n : Z) (ar : lua_Debug).

(** ** Hooks *)

Definition lua_sethook L (func : option Z) (mask count : Z) : M bool :=
  let off := bool_decide (func = None) || (mask =? 0) in
  let mask := if off then 0 else mask in
  let func := if off then None else func in
  upd L (fun t => set_basehookcount count (set_hook func t));;
  resethookcount L;;
  upd L (set_hookmask (u8 mask));;
  mret true.

Definition lua_gethook L : M (option Z) := field L hook.
Definition lua_gethookmask L : M Z := field L hookmask.
Definition lua_gethookcount L : M Z := field L basehookcount.

(** ** Active calls *)

(** The level that is left and the call reached, from the call [i] on *)
Fixpoint getstack_loop (m : nat) L level (i : Z) : M (Z * Z) :=
  if (0 <? level) && (0 <? i) then
    match m with
    | O => late
    | S m =>
        b ← f_isLua L i;
        lost ← (if (b : bool) then c ← get_ci L i; mret (tailcalls c) else mret 0);
        getstack_loop m L (level - 1 - lost) (i - 1)
    end
  else mret (level, i).

Definition lua_getstack L level ar : M (bool * lua_Debug) :=
  t ← thread L;
  '(level, i) ← getstack_loop (Z.to_nat (ci t)) L level (ci t);
  mret (if (level =? 0) && (0 <? i) then (true, set_i_ci i ar)
        else if level <? 0 then (true, set_i_ci 0 ar)
        else (false, ar)).

(** ** Local variables *)

Definition findlocal L (i : Z) n : M (option bytes) :=
  fp ← getluaproto L i;
  name ← (match fp with
          | Some p => pc ← currentpc L i; pure (luaF_getlocalname p n pc)
          | None => mret None
          end);
  match name with
  | Some name => mret (Some name)
  | None =>
      t ← thread L;
      c ← get_ci L i;
      limit ← (if i =? ci t then mret (top t) else c ← get_ci L (i + 1); mret (ci_func c));
      mret (if (n <=? limit - ci_base c) && (0 <? n) then Some (str "(*temporary)") else None)
  end.

Definition lua_getlocal L ar n : M (option bytes) :=
  name ← findlocal L (i_ci ar) n;
  c ← get_ci L (i_ci ar);
  (match name with
   | Some _ => v ← stk L (ci_base c + (n - 1)); luaA_pushobject L v
   | None => mret tt
   end);;
  mret name.

Definition lua_setlocal L ar n : M (option bytes) :=
  name ← findlocal L (i_ci ar) n;
  c ← get_ci L (i_ci ar);
  t ← thread L;
  (match name with Some _ => copy L (ci_base c + (n - 1)) (top t - 1) | None => mret tt end);;
  set_topM L (top t - 1);;
  mret name.

(** ** Information about a function *)

Definition funcinfo ar (cl : Closure) : M lua_Debug :=
  match cl with
  | CClosure _ _ _ => mret (set_func (str "C") (str "=[C]") (-1) (-1) ar)
  | LClosure _ p _ =>
      source ← valid (Object.source p);
      let source := cstr source in
      mret (set_func (if Object.linedefined p =? 0 then str "main" else str "Lua") source
        (Object.linedefined p) (Object.lastlinedefined p) ar)
  end.

Definition info_tailcall ar : lua_Debug :=
  set_nups 0 (set_currentline (-1) (set_func (str "tail") (str "=(tail call)") (-1) (-1) (set_names (Some []) [] ar))).

(** [setbvalue(luaH_setnum(L, t, lineinfo[i]), 1)] *)
Fixpoint mark_lines L (t : Z) (lines : list Z) : M unit :=
  match lines with
  | [] => mret tt
  | n :: lines => x ← heap_setnum L t n; heap_store t x (VBoolean 1);; mark_lines L t lines
  end.

Definition collectvalidlines L (f : option Closure) : M unit :=
  top ← field L top;
  (match f with
   | Some (LClosure _ p _) =>
       h ← raise L (luaH_new 0 0);
       t ← new_object (OTable h);
       mark_lines L t (lineinfo p);;
       setstk L top (VTable t)
   | _ => setstk L top VNil
   end);;
  incr_top L.

Definition getfuncname L (i : Z) : M (option (bytes * bytes)) :=
  b ← isLua L i;
  c ← get_ci L i;
  if (b : bool) && (0 <? tailcalls c) then mret None
  else
    b ← isLua L (i - 1);
    if negb b then mret None
    else
      p ← getluaproto L (i - 1);
      p ← valid p;
      pc ← currentpc L (i - 1);
      pure (Debug.getfuncname p pc).

Definition closure_nups (cl : Closure) : Z := match cl with CClosure _ _ u => lenZ u | LClosure _ _ u => lenZ u end.

(** One option of [what] *)
Definition getinfo_option L (c : Z) ar (f : Closure) (i : option Z) : M (bool * lua_Debug) :=
  if c =? 83 then ar ← funcinfo ar f; mret (true, ar)
  else if c =? 108 then
    line ← (match i with Some i => currentline L i | None => mret (-1) end);
    mret (true, set_currentline line ar)
  else if c =? 117 then mret (true, set_nups (closure_nups f) ar)
  else if c =? 110 then
    n ← (match i with Some i => getfuncname L i | None => mret None end);
    mret (true, match n with Some (kind, name) => set_names (Some name) kind ar | None => set_names None [] ar end)
  else mret ((c =? 76) || (c =? 102), ar).

Fixpoint getinfo_loop L (what : bytes) (status : bool) ar (f : Closure) (i : option Z) : M (bool * lua_Debug) :=
  match what with
  | [] => mret (status, ar)
  | c :: what =>
      '(ok, ar) ← getinfo_option L c ar f i;
      getinfo_loop L what (status && ok) ar f i
  end.

Definition auxgetinfo L (what : bytes) ar (f : option Closure) (i : option Z) : M (bool * lua_Debug) :=
  match f with
  | None => mret (true, info_tailcall ar)
  | Some f => getinfo_loop L what true ar f i
  end.

(** [what] is a C string.  The function is a closure [f] at the address [r]. *)
Definition lua_getinfo L (what : bytes) ar : M (bool * lua_Debug) :=
  t ← thread L;
  '(what, r, i) ← (match what with
    | 62 :: what =>
        v ← stk L (top t - 1);
        match v with VFunction r => set_topM L (top t - 1);; mret (what, Some r, None) | _ => wrong end
    | _ =>
        if negb (i_ci ar =? 0) then
          c ← get_ci L (i_ci ar);
          v ← stk L (ci_func c);
          match v with VFunction r => mret (what, Some r, Some (i_ci ar)) | _ => wrong end
        else mret (what, None, None)
    end);
  f ← (match r with Some r => cl ← gco2cl r; mret (Some cl) | None => mret None end);
  '(status, ar) ← auxgetinfo L what ar f i;
  (if existsb (Z.eqb 102) what then
     top ← field L top;
     setstk L top (match r with Some r => VFunction r | None => VNil end);;
     incr_top L
   else mret tt);;
  (if existsb (Z.eqb 76) what then collectvalidlines L f else mret tt);;
  mret (status, ar).
End debug.
