(* ===== verification/Laux.v ===== *)
(** * The auxiliary library on a running state (lauxlib.c)

    Auxlib.v has the errors, arguments and buffers of a C function that is
    given as a function of its arguments; here they are functions of the whole
    state, as the C functions of the basic, debug and mathematical libraries
    use them.  Files are not modelled. *)

From S2P Require Import Prelude Clib Opcodes Object Debug Table Auxlib State Barrier Func Tm Do Vm Run Lstate Api Debugapi.

Definition LUA_ERRFILE : Z := LUA_ERRERR + 1.

(** [luaL_Reg]: the name and the address of a C function *)
Abbreviation luaL_Reg := (bytes * Z)%type.

Section laux.
Context `{Machine} `{Host} `{Cenv} `{LibM} `{Locale} `{Calling} `{Locals}.
Implicit Types (L n narg idx : Z).

(** ** Macros of lua.h *)

Definition lua_pop L n : M unit := lua_settop L (- n - 1).
Definition lua_newtable L : M unit := lua_createtable L 0 0.
Definition lua_isnil L n : M bool := t ← lua_type L n; mret (t =? LUA_TNIL).
Definition lua_istable L n : M bool := t ← lua_type L n; mret (t =? LUA_TTABLE).
Definition lua_isboolean L n : M bool := t ← lua_type L n; mret (t =? LUA_TBOOLEAN).
Definition lua_isfunction L n : M bool := t ← lua_type L n; mret (t =? LUA_TFUNCTION).
Definition lua_isnoneornil L n : M bool := t ← lua_type L n; mret (t <=? 0).
Definition lua_setglobal L (s : bytes) : M unit := lua_setfield L LUA_GLOBALSINDEX s.
Definition lua_getglobal L (s : bytes) : M unit := lua_getfield L LUA_GLOBALSINDEX s.
Definition lua_upvalueindex (i : Z) : Z := LUA_GLOBALSINDEX - i.
Definition lua_tostring L idx : M (option bytes) := s ← lua_tolstring L idx; mret (cstr <$> s).

Definition abs_index L (i : Z) : M Z :=
  if (0 <? i) || (i <=? LUA_REGISTRYINDEX) then mret i else n ← lua_gettop L; mret (n + i + 1).

(** ** Errors *)

Definition luaL_where L (level : Z) : M unit :=
  '(found, ar) ← lua_getstack L level junk_debug;
  ar ← (if (found : bool) then '(_, ar) ← lua_getinfo L (str "Sl") ar; mret ar else mret ar);
  if found && (0 <? ar_currentline ar)
  then lua_pushfstring L (str "%s:%d: ") [AStr (Some (short_src ar)); AInt (ar_currentline ar)];; mret tt
  else lua_pushlstring L [].

Definition luaL_error {A} L (fmt : bytes) (args : list va_arg) : M A :=
  luaL_where L 1;;
  lua_pushfstring L fmt args;;
  lua_concat L 2;;
  lua_error L.

Definition luaL_argerror {A} L narg (extramsg : bytes) : M A :=
  '(found, ar) ← lua_getstack L 0 junk_debug;
  if negb found then luaL_error L (str "bad argument #%d (%s)") [AInt narg; AStr (Some extramsg)]
  else
    '(_, ar) ← lua_getinfo L (str "n") ar;
    let method := bool_decide (ar_namewhat ar = str "method") in
    let narg := if method then narg - 1 else narg in
    if method && (narg =? 0) then
      luaL_error L (str "calling '%s' on bad self (%s)") [AStr (ar_name ar); AStr (Some extramsg)]
    else
      luaL_error L (str "bad argument #%d to '%s' (%s)")
        [AInt narg; AStr (Some (default (str "?") (ar_name ar))); AStr (Some extramsg)].

Definition luaL_argcheck L (cond : bool) narg (extramsg : bytes) : M unit :=
  if cond then mret tt else luaL_argerror L narg extramsg.

Definition luaL_typename L narg : M bytes := t ← lua_type L narg; mret (lua_typename t).

Definition luaL_typerror {A} L narg (tname : bytes) : M A :=
  got ← luaL_typename L narg;
  msg ← lua_pushfstring L (str "%s expected, got %s") [AStr (Some tname); AStr (Some got)];
  luaL_argerror L narg msg.

Definition tag_error {A} L narg (tag : Z) : M A := luaL_typerror L narg (lua_typename tag).

(** ** Arguments *)

Definition luaL_checkstack L (space : Z) (mes : bytes) : M unit :=
  b ← lua_checkstack L space;
  if (b : bool) then mret tt else luaL_error L (str "stack overflow (%s)") [AStr (Some mes)].

Definition luaL_checktype L narg (t : Z) : M unit :=
  t' ← lua_type L narg; if negb (t' =? t) then tag_error L narg t else mret tt.

Definition luaL_checkany L narg : M unit :=
  t ← lua_type L narg; if t =? LUA_TNONE then luaL_argerror L narg (str "value expected") else mret tt.

Definition luaL_checklstring L narg : M bytes :=
  s ← lua_tolstring L narg;
  match s with None => tag_error L narg LUA_TSTRING | Some s => mret s end.

Definition luaL_optlstring L narg (def : option bytes) : M (option bytes) :=
  b ← lua_isnoneornil L narg;
  if (b : bool) then mret def else s ← luaL_checklstring L narg; mret (Some s).

Definition luaL_checkstring L narg : M bytes := s ← luaL_checklstring L narg; mret (cstr s).
Definition luaL_optstring L narg (def : option bytes) : M (option bytes) :=
  s ← luaL_optlstring L narg def; mret (cstr <$> s).

Definition luaL_checknumber L narg : M lua_Number :=
  d ← lua_tonumber L narg;
  b ← (if luai_numeq d (cast_num 0) then n ← lua_isnumber L narg; mret (negb n) else mret false);
  if (b : bool) then tag_error L narg LUA_TNUMBER else mret d.

Definition luaL_checkinteger L narg : M Z :=
  d ← lua_tointeger L narg;
  b ← (if d =? 0 then n ← lua_isnumber L narg; mret (negb n) else mret false);
  if (b : bool) then tag_error L narg LUA_TNUMBER else mret d.

(** [luaL_opt(L, f, n, d)] *)
Definition luaL_opt {A} L (f : Z -> Z -> M A) n (d : M A) : M A :=
  b ← lua_isnoneornil L n; if (b : bool) then d else f L n.

Definition luaL_optnumber L narg (def : lua_Number) : M lua_Number := luaL_opt L luaL_checknumber narg (mret def).
Definition luaL_optinteger L narg (def : Z) : M Z := luaL_opt L luaL_checkinteger narg (mret def).
Definition luaL_checkint L narg : M Z := d ← luaL_checkinteger L narg; mret (i32 d).
Definition luaL_optint L narg (def : Z) : M Z := d ← luaL_optinteger L narg def; mret (i32 d).

Fixpoint find_option (lst : list bytes) (name : bytes) (i : Z) : option Z :=
  match lst with
  | [] => None
  | o :: lst => if bool_decide (o = name) then Some i else find_option lst name (i + 1)
  end.

Definition luaL_checkoption L narg (def : option bytes) (lst : list bytes) : M Z :=
  name ← (match def with
          | Some _ => s ← luaL_optstring L narg def; valid s
          | None => luaL_checkstring L narg
          end);
  match find_option lst name 0 with
  | Some i => mret i
  | None =>
      msg ← lua_pushfstring L (str "invalid option '%s'") [AStr (Some name)];
      luaL_argerror L narg msg
  end.

(** ** Metatables *)

Definition luaL_newmetatable L (tname : bytes) : M bool :=
  lua_getfield L LUA_REGISTRYINDEX tname;;
  b ← lua_isnil L (-1);
  if negb b then mret false
  else
    lua_pop L 1;;
    lua_newtable L;;
    lua_pushvalue L (-1);;
    lua_setfield L LUA_REGISTRYINDEX tname;;
    mret true.

Definition luaL_checkudata L (ud : Z) (tname : bytes) : M Z :=
  p ← lua_touserdata L ud;
  r ← (match p with
    | Some p =>
        b ← lua_getmetatable L ud;
        if (b : bool) then
          lua_getfield L LUA_REGISTRYINDEX tname;;
          e ← lua_rawequal L (-1) (-2);
          if (e : bool) then lua_pop L 2;; mret (Some p) else mret None
        else mret None
    | None => mret None
    end);
  match r with Some p => mret p | None => luaL_typerror L ud tname end.

Definition luaL_getmetafield L (obj : Z) (event : bytes) : M bool :=
  b ← lua_getmetatable L obj;
  if negb b then mret false
  else
    lua_pushstring L (Some event);;
    lua_rawget L (-2);;
    b ← lua_isnil L (-1);
    if (b : bool) then lua_pop L 2;; mret false
    else lua_remove L (-2);; mret true.

Definition luaL_callmeta L (obj : Z) (event : bytes) : M bool :=
  obj ← abs_index L obj;
  b ← luaL_getmetafield L obj event;
  if negb b then mret false
  else lua_pushvalue L obj;; lua_call L 1 1;; mret true.

(** ** Libraries *)

(** The text up to the first full stop, and the one after it *)
Definition split_dot (fname : bytes) : bytes * option bytes :=
  let e := strcspn fname [46] in
  let n := Z.to_nat e in
  (take n fname, match drop n fname with 46 :: rest => Some rest | _ => None end).

(** Result: the part of the name that is not a table; [m] bounds the parts. *)
Fixpoint findtable_loop (m : nat) L (fname : bytes) (szhint : Z) : M (option bytes) :=
  match m with
  | O => late
  | S m =>
      let '(part, rest) := split_dot fname in
      lua_pushlstring L part;;
      lua_rawget L (-2);;
      nil ← lua_isnil L (-1);
      bad ← (if (nil : bool) then
          lua_pop L 1;;
          lua_createtable L 0 (match rest with Some _ => 1 | None => szhint end);;
          lua_pushlstring L part;;
          lua_pushvalue L (-2);;
          lua_settable L (-4);;
          mret false
        else b ← lua_istable L (-1); if negb b then lua_pop L 2;; mret true else mret false);
      if (bad : bool) then mret (Some fname)
      else
        lua_remove L (-2);;
        match rest with Some fname => findtable_loop m L fname szhint | None => mret None end
  end.

Definition luaL_findtable L idx (fname : bytes) (szhint : Z) : M (option bytes) :=
  lua_pushvalue L idx;;
  findtable_loop (S (length fname)) L fname szhint.

Fixpoint push_upvalues (m : nat) L (nup : Z) : M unit :=
  match m with O => mret tt | S m => lua_pushvalue L (- nup);; push_upvalues m L nup end.

Fixpoint openlib_loop L (l : list luaL_Reg) (nup : Z) : M unit :=
  match l with
  | [] => mret tt
  | (name, func) :: l =>
      push_upvalues (Z.to_nat nup) L nup;;
      lua_pushcclosure L func nup;;
      lua_setfield L (- (nup + 2)) name;;
      openlib_loop L l nup
  end.

Definition libsize (l : list luaL_Reg) : Z := lenZ l.

Definition luaI_openlib L (libname : option bytes) (l : list luaL_Reg) (nup : Z) : M unit :=
  (match libname with
   | Some libname =>
       luaL_findtable L LUA_REGISTRYINDEX (str "_LOADED") 1;;
       lua_getfield L (-1) libname;;
       b ← lua_istable L (-1);
       (if negb b then
          lua_pop L 1;;
          r ← luaL_findtable L LUA_GLOBALSINDEX libname (libsize l);
          (match r with
           | Some _ => luaL_error L (str "name conflict for module '%s'") [AStr (Some libname)]
           | None => mret tt
           end);;
          lua_pushvalue L (-1);;
          lua_setfield L (-3) libname
        else mret tt);;
       lua_remove L (-2);;
       lua_insert L (- (nup + 1))
   | None => mret tt
   end);;
  openlib_loop L l nup;;
  lua_pop L nup.

Definition luaL_register L (libname : option bytes) (l : list luaL_Reg) : M unit := luaI_openlib L libname l 0.

(** ** References *)

Definition luaL_ref L (t : Z) : M Z :=
  t ← abs_index L t;
  nil ← lua_isnil L (-1);
  if (nil : bool) then lua_pop L 1;; mret LUA_REFNIL
  else
    lua_rawgeti L t FREELIST_REF;;
    ref ← lua_tointeger L (-1);
    let ref := i32 ref in
    lua_pop L 1;;
    ref ← (if negb (ref =? 0) then
        lua_rawgeti L t ref;;
        lua_rawseti L t FREELIST_REF;;
        mret ref
      else n ← lua_objlen L t; mret (i32 n + 1));
    lua_rawseti L t ref;;
    mret ref.

Definition luaL_unref L (t ref : Z) : M unit :=
  if 0 <=? ref then
    t ← abs_index L t;
    lua_rawgeti L t FREELIST_REF;;
    lua_rawseti L t ref;;
    lua_pushinteger L ref;;
    lua_rawseti L t FREELIST_REF
  else mret tt.
End laux.
