(* ===== verification/Load.v ===== *)
(** * Loading and saving chunks (the protected parser of ldo.c, lapi.c, lauxlib.c)

    A text goes through the lexical analyser, the parser and the code generator,
    a precompiled chunk through the loader and the verifier; both become a
    closure of the running state.  The reader is one that gives the blocks of a
    list: what a reader that is a Lua function does to the state between two
    blocks is not modelled, nor are the strings and tables that the parser keeps
    on the stack while it runs.  The files are a parameter. *)

From S2P Require Import Prelude Clib Opcodes Object Debug Zio Lex Dump Code Parser.
From S2P Require Import Table Auxlib State Barrier Func Tm Do Vm Run Lstate Api Debugapi Laux.

(** The token of a lexical state before the first one is read *)
Class Scanner := { junk_token : Token }.

(** The file system: the contents of the files that can be opened, in text and
    in binary mode, the standard input ([None] for its name), whether a read
    fails, and the text of [strerror] *)
Class Files := {
  fopen : bytes -> option bytes;
  freopen : bytes -> option bytes;
  stdin : bytes;
  ferror : option bytes -> bool;
  strerror : bytes
}.

Section load.
Context `{Machine} `{Host} `{Cenv} `{LibM} `{Locale} `{Calling} `{Locals} `{Scanner}.
Implicit Types L : Z.

(** The errors of the parser and the loader are thrown with their message on
    the stack; those of the growing vectors are run-time errors. *)
Definition parsed {A} L (m : outcome A) : M A :=
  match m with
  | Ret a => mret a
  | Throw errcode msg =>
      if errcode =? LUA_ERRRUN then luaG_runerror L (str "%s") [AStr (Some msg)]
      else push L (VString msg);; luaD_throw L errcode
  | Undef => wrong
  | Nofuel => late
  end.

Fixpoint new_upvals (n : nat) : M (list (option Z)) :=
  match n with
  | O => mret []
  | S n => uv ← luaF_newupval; rest ← new_upvals n; mret (Some uv :: rest)
  end.

Definition f_parser L (z : ZIO) (name : bytes) : M unit :=
  '(c, z) ← pure (luaZ_lookahead z);
  collect luaD_call L;;
  n ← field L State.nCcalls;
  tf ← parsed L (if c =? 27 then '(p, _) ← luaU_undump n z name; Ret p else luaY_parser n junk_token z name);
  gt ← field L l_gt;
  match gt with
  | VTable e =>
      cl ← luaF_newLclosure (Object.nups tf) e tf;
      ups ← new_upvals (Z.to_nat (Object.nups tf));
      set_body cl (OClosure (LClosure e tf ups));;
      top ← field L top;
      setstk L top (VFunction cl);;
      incr_top L
  | _ => wrong
  end.

Definition luaD_protectedparser L (z : ZIO) (name : bytes) : M Z :=
  t ← thread L;
  luaD_pcall L (f_parser L z name) (top t) (errfunc t).

Definition lua_load L (blocks : list bytes) (chunkname : option bytes) : M Z :=
  luaD_protectedparser L (luaZ_init blocks) (default (str "?") chunkname).

(** [getS]: one block, if it is not empty *)
Definition luaL_loadbuffer L (buff name : bytes) : M Z :=
  lua_load L (if lenZ buff =? 0 then [] else [buff]) (Some name).

Definition luaL_loadstring L (s : bytes) : M Z := luaL_loadbuffer L s s.

(** ** Saving functions: [lua_dump] with the writer of [string.dump], which adds
    to a buffer *)

Definition lua_dump L : M (Z * bytes) :=
  top ← field L top;
  o ← stk L (top - 1);
  match o with
  | VFunction r =>
      cl ← gco2cl r;
      mret (match cl with
            | LClosure _ p _ => let d := luaU_dump p ([] : bytes) false in (Dump.status d, data d)
            | CClosure _ _ _ => (1, [])
            end)
  | _ => mret (1, [])
  end.

Definition str_dump L : M Z :=
  luaL_checktype L 1 LUA_TFUNCTION;;
  lua_settop L 1;;
  '(status, s) ← lua_dump L;
  (if negb (status =? 0) then luaL_error L (str "unable to dump given function") [] else mret tt);;
  lua_pushlstring L s;;
  mret 1.

(** ** Files *)

Context `{Files}.

Definition errfile L (what : bytes) (fnameindex : Z) : M Z :=
  filename ← lua_tostring L fnameindex;
  filename ← valid filename;
  lua_pushfstring L (str "cannot %s %s: %s")
    [AStr (Some what); AStr (Some (drop 1 filename)); AStr (Some strerror)];;
  lua_remove L fnameindex;;
  mret LUA_ERRFILE.

(** What is left of a file from the first [c] on *)
Fixpoint skip_to (c : Z) (l : bytes) : bytes :=
  match l with
  | [] => []
  | x :: rest => if x =? c then l else skip_to c rest
  end.

(** The blocks that [fread] gives; [n] bounds their number. *)
Fixpoint freads (n : nat) (l : bytes) : list bytes :=
  match n, l with
  | S n, _ :: _ => take (Z.to_nat LUAL_BUFFERSIZE) l :: freads n (drop (Z.to_nat LUAL_BUFFERSIZE) l)
  | _, _ => []
  end.

(** The text of a file without its first line if that begins with [#]; the new
    line is read as a block of its own ([extraline]) *)
Definition skip_comment (l : bytes) : bool * bytes :=
  match l with
  | 35 :: rest => (true, drop 1 (skip_to 10 rest))
  | _ => (false, l)
  end.

Definition luaL_loadfile L (filename : option bytes) : M Z :=
  top ← lua_gettop L;
  let fnameindex := top + 1 in
  data ← (match filename with
    | None => lua_pushlstring L (str "=stdin");; mret (Some stdin)
    | Some name => lua_pushfstring L (str "@%s") [AStr (Some name)];; mret (fopen name)
    end);
  match data with
  | None => errfile L (str "open") fnameindex
  | Some data =>
      let '(extraline, data) := skip_comment data in
      let input := match data, filename with
        | 27 :: _, Some name => data ← freopen name; Some (false, skip_to 27 data)
        | _, _ => Some (extraline, data)
        end in
      match input with
      | None => errfile L (str "reopen") fnameindex
      | Some (extraline, data) =>
          name ← lua_tostring L (-1);
          status ← lua_load L ((if extraline : bool then [[10]] else []) ++ freads (length data) data) name;
          if ferror filename then lua_settop L fnameindex;; errfile L (str "read") fnameindex
          else lua_remove L fnameindex;; mret status
      end
  end.
End load.
