(* ===== verification/Baselib.v ===== *)
(** * The basic and the coroutine library (lbaselib.c)

    Each function works on the stack of the thread that calls it, as the C
    function does, and returns the number of its results.  [collectgarbage]
    and [gcinfo], which report amounts of memory, and [load], whose reader is a
    Lua function, are not modelled.  Signed arithmetic that overflows wraps
    around, as [unpack] expects. *)

From S2P Require Import Prelude Clib Opcodes Object Debug Table Auxlib State Barrier Func Tm Do Vm Run Lstate Api.
From S2P Require Import Debugapi Laux Load.

(** The addresses of the C functions, by their names *)
Class Addresses := { address : bytes -> Z }.

(** Writing a string to the standard output *)
Class Stdout := { fputs : bytes -> M unit }.

Definition LUA_VERSION : bytes := str "Lua 5.1".
Definition LUA_COLIBNAME : bytes := str "coroutine".

Section baselib.
Context `{Machine} `{Host} `{Cenv} `{LibM} `{Locale} `{Calling} `{Locals}.
Implicit Types L : Z.

Section print.
Context `{Stdout}.

(** The values from the argument [i] on *)
Fixpoint print_loop (m : nat) L (i : Z) : M unit :=
  match m with
  | O => mret tt
  | S m =>
      lua_pushvalue L (-1);;
      lua_pushvalue L i;;
      lua_call L 1 1;;
      s ← lua_tostring L (-1);
      match s with
      | None => luaL_error L (str "'tostring' must return a string to 'print'") []
      | Some s =>
          (if 1 <? i then fputs [9] else mret tt);;
          fputs s;;
          lua_pop L 1;;
          print_loop m L (i + 1)
      end
  end.

Definition luaB_print L : M Z :=
  n ← lua_gettop L;
  lua_getglobal L (str "tostring");;
  print_loop (Z.to_nat n) L 1;;
  fputs [10];;
  mret 0.
End print.

(** ** Numbers and errors *)

(** The number that a whole string of digits stands for *)
Definition read_base (s1 : bytes) (base : Z) : option Z :=
  let '(n, s2) := strtoul s1 base in
  if lenZ s2 =? lenZ s1 then None
  else match skip_spaces s2 with [] => Some n | _ => None end.

Definition luaB_tonumber L : M Z :=
  base ← luaL_optint L 2 10;
  done ← (if base =? 10 then
      luaL_checkany L 1;;
      b ← lua_isnumber L 1;
      if (b : bool) then d ← lua_tonumber L 1; lua_pushnumber L d;; mret true else mret false
    else
      s1 ← luaL_checkstring L 1;
      luaL_argcheck L ((2 <=? base) && (base <=? 36)) 2 (str "base out of range");;
      match read_base s1 base with
      | Some n => lua_pushnumber L (cast_num n);; mret true
      | None => mret false
      end);
  (if (done : bool) then mret tt else lua_pushnil L);;
  mret 1.

Definition luaB_error L : M Z :=
  level ← luaL_optint L 2 1;
  lua_settop L 1;;
  b ← lua_isstring L 1;
  (if b && (0 <? level) then luaL_where L level;; lua_pushvalue L 1;; lua_concat L 2 else mret tt);;
  lua_error L.

(** ** Metatables and environments *)

Definition luaB_getmetatable L : M Z :=
  luaL_checkany L 1;;
  b ← lua_getmetatable L 1;
  (if negb b then lua_pushnil L else luaL_getmetafield L 1 (str "__metatable");; mret tt);;
  mret 1.

Definition luaB_setmetatable L : M Z :=
  t ← lua_type L 2;
  luaL_checktype L 1 LUA_TTABLE;;
  luaL_argcheck L ((t =? LUA_TNIL) || (t =? LUA_TTABLE)) 2 (str "nil or table expected");;
  b ← luaL_getmetafield L 1 (str "__metatable");
  (if (b : bool) then luaL_error L (str "cannot change a protected metatable") [] else mret tt);;
  lua_settop L 2;;
  lua_setmetatable L 1;;
  mret 1.

Definition getfunc L (opt : bool) : M unit :=
  b ← lua_isfunction L 1;
  if (b : bool) then lua_pushvalue L 1
  else
    level ← (if opt then luaL_optint L 1 1 else luaL_checkint L 1);
    luaL_argcheck L (0 <=? level) 1 (str "level must be non-negative");;
    '(found, ar) ← lua_getstack L level junk_debug;
    (if negb found then luaL_argerror L 1 (str "invalid level") else mret tt);;
    lua_getinfo L (str "f") ar;;
    nil ← lua_isnil L (-1);
    if (nil : bool) then luaL_error L (str "no function environment for tail call at level %d") [AInt level]
    else mret tt.

Definition luaB_getfenv L : M Z :=
  getfunc L true;;
  c ← lua_iscfunction L (-1);
  (if (c : bool) then lua_pushvalue L LUA_GLOBALSINDEX else lua_getfenv L (-1));;
  mret 1.

Definition luaB_setfenv L : M Z :=
  luaL_checktype L 2 LUA_TTABLE;;
  getfunc L false;;
  lua_pushvalue L 2;;
  b ← lua_isnumber L 1;
  zero ← (if (b : bool) then d ← lua_tonumber L 1; mret (luai_numeq d (cast_num 0)) else mret false);
  if (zero : bool) then
    lua_pushthread L;;
    lua_insert L (-2);;
    lua_setfenv L (-2);;
    mret 0
  else
    c ← lua_iscfunction L (-2);
    fails ← (if (c : bool) then mret true else ok ← lua_setfenv L (-2); mret (negb ok));
    if (fails : bool) then luaL_error L (str "'setfenv' cannot change environment of given object") []
    else mret 1.

(** ** Tables *)

Definition luaB_rawequal L : M Z :=
  luaL_checkany L 1;;
  luaL_checkany L 2;;
  b ← lua_rawequal L 1 2;
  lua_pushboolean L (Z.b2z b);;
  mret 1.

Definition luaB_rawget L : M Z :=
  luaL_checktype L 1 LUA_TTABLE;;
  luaL_checkany L 2;;
  lua_settop L 2;;
  lua_rawget L 1;;
  mret 1.

Definition luaB_rawset L : M Z :=
  luaL_checktype L 1 LUA_TTABLE;;
  luaL_checkany L 2;;
  luaL_checkany L 3;;
  lua_settop L 3;;
  lua_rawset L 1;;
  mret 1.

Definition luaB_type L : M Z :=
  luaL_checkany L 1;;
  s ← luaL_typename L 1;
  lua_pushstring L (Some s);;
  mret 1.

Definition luaB_next L : M Z :=
  luaL_checktype L 1 LUA_TTABLE;;
  lua_settop L 2;;
  b ← lua_next L 1;
  if (b : bool) then mret 2 else lua_pushnil L;; mret 1.

Definition luaB_pairs L : M Z :=
  luaL_checktype L 1 LUA_TTABLE;;
  lua_pushvalue L (lua_upvalueindex 1);;
  lua_pushvalue L 1;;
  lua_pushnil L;;
  mret 3.

Definition ipairsaux L : M Z :=
  i ← luaL_checkint L 2;
  luaL_checktype L 1 LUA_TTABLE;;
  let i := i32 (i + 1) in
  lua_pushinteger L i;;
  lua_rawgeti L 1 i;;
  nil ← lua_isnil L (-1);
  mret (if (nil : bool) then 0 else 2).

Definition luaB_ipairs L : M Z :=
  luaL_checktype L 1 LUA_TTABLE;;
  lua_pushvalue L (lua_upvalueindex 1);;
  lua_pushvalue L 1;;
  lua_pushinteger L 0;;
  mret 3.

(** ** Loading *)

Section loading.
Context `{Scanner}.

Definition load_aux L (status : Z) : M Z :=
  if status =? 0 then mret 1
  else lua_pushnil L;; lua_insert L (-2);; mret 2.

Definition luaB_loadstring L : M Z :=
  s ← luaL_checklstring L 1;
  chunkname ← luaL_optstring L 2 (Some (cstr s));
  chunkname ← valid chunkname;
  status ← luaL_loadbuffer L s chunkname;
  load_aux L status.

Context `{Files}.

Definition luaB_loadfile L : M Z :=
  fname ← luaL_optstring L 1 None;
  status ← luaL_loadfile L fname;
  load_aux L status.

Definition luaB_dofile L : M Z :=
  fname ← luaL_optstring L 1 None;
  n ← lua_gettop L;
  status ← luaL_loadfile L fname;
  (if negb (status =? 0) then lua_error L else mret tt);;
  lua_call L 0 LUA_MULTRET;;
  top ← lua_gettop L;
  mret (top - n).
End loading.

(** ** Arguments and results *)

Definition luaB_assert L : M Z :=
  luaL_checkany L 1;;
  b ← lua_toboolean L 1;
  if negb b then
    msg ← luaL_optstring L 2 (Some (str "assertion failed!"));
    luaL_error L (str "%s") [AStr msg]
  else lua_gettop L.

(** [while (i++ < e) lua_rawgeti(L, 1, i)] *)
Fixpoint unpack_loop (m : nat) L (i : Z) : M unit :=
  match m with
  | O => mret tt
  | S m => lua_rawgeti L 1 (i + 1);; unpack_loop m L (i + 1)
  end.

Definition luaB_unpack L : M Z :=
  luaL_checktype L 1 LUA_TTABLE;;
  i ← luaL_optint L 2 1;
  e ← luaL_opt L luaL_checkint 3 (n ← lua_objlen L 1; mret (i32 n));
  if e <? i then mret 0
  else
    let n := i32 (e - i + 1) in
    room ← (if n <=? 0 then mret false else lua_checkstack L n);
    if negb room then luaL_error L (str "too many results to unpack") []
    else
      lua_rawgeti L 1 i;;
      unpack_loop (Z.to_nat (e - i)) L i;;
      mret n.

Definition luaB_select L : M Z :=
  n ← lua_gettop L;
  t ← lua_type L 1;
  sharp ← (if t =? LUA_TSTRING then s ← lua_tostring L 1; mret (bool_decide (head (default [] s) = Some 35))
           else mret false);
  if (sharp : bool) then lua_pushinteger L (n - 1);; mret 1
  else
    i ← luaL_checkint L 1;
    let i := if i <? 0 then n + i else if n <? i then n else i in
    luaL_argcheck L (1 <=? i) 1 (str "index out of range");;
    mret (n - i).

Definition luaB_pcall L : M Z :=
  luaL_checkany L 1;;
  n ← lua_gettop L;
  status ← lua_pcall L (n - 1) LUA_MULTRET 0;
  lua_pushboolean L (Z.b2z (status =? 0));;
  lua_insert L 1;;
  lua_gettop L.

Definition luaB_xpcall L : M Z :=
  luaL_checkany L 2;;
  lua_settop L 2;;
  lua_insert L 1;;
  status ← lua_pcall L 0 LUA_MULTRET 1;
  lua_pushboolean L (Z.b2z (status =? 0));;
  lua_replace L 1;;
  lua_gettop L.

Definition luaB_tostring L : M Z :=
  luaL_checkany L 1;;
  b ← luaL_callmeta L 1 (str "__tostring");
  if (b : bool) then mret 1
  else
    t ← lua_type L 1;
    (if t =? LUA_TNUMBER then s ← lua_tostring L 1; lua_pushstring L s
     else if t =? LUA_TSTRING then lua_pushvalue L 1
     else if t =? LUA_TBOOLEAN then
       b ← lua_toboolean L 1; lua_pushstring L (Some (if (b : bool) then str "true" else str "false"))
     else if t =? LUA_TNIL then lua_pushlstring L (str "nil")
     else
       s ← luaL_typename L 1;
       p ← lua_topointer L 1;
       lua_pushfstring L (str "%s: %p") [AStr (Some s); APtr (default 0 p)];;
       mret tt);;
    mret 1.

Definition luaB_newproxy L : M Z :=
  lua_settop L 1;;
  lua_newuserdata L 0;;
  b ← lua_toboolean L 1;
  if negb b then mret 1
  else
    bool ← lua_isboolean L 1;
    (if (bool : Datatypes.bool) then
       lua_newtable L;;
       lua_pushvalue L (-1);;
       lua_pushboolean L 1;;
       lua_rawset L (lua_upvalueindex 1)
     else
       m ← lua_getmetatable L 1;
       validproxy ← (if (m : Datatypes.bool) then
           lua_rawget L (lua_upvalueindex 1);;
           b ← lua_toboolean L (-1);
           lua_pop L 1;;
           mret b
         else mret false);
       luaL_argcheck L validproxy 1 (str "boolean or proxy expected");;
       lua_getmetatable L 1;;
       mret tt);;
    lua_setmetatable L 2;;
    mret 1.

(** ** Coroutines *)

Definition CO_RUN : Z := 0.
Definition CO_SUS : Z := 1.
Definition CO_NOR : Z := 2.
Definition CO_DEAD : Z := 3.

Definition statnames : list bytes := [str "running"; str "suspended"; str "normal"; str "dead"].

Definition costatus L (co : Z) : M Z :=
  if L =? co then mret CO_RUN
  else
    s ← lua_status co;
    if s =? LUA_YIELD then mret CO_SUS
    else if s =? 0 then
      '(found, _) ← lua_getstack co 0 junk_debug;
      if (found : bool) then mret CO_NOR
      else n ← lua_gettop co; mret (if n =? 0 then CO_DEAD else CO_SUS)
    else mret CO_DEAD.

(** The coroutine that is an argument *)
Definition coroutine_arg L : M Z :=
  co ← lua_tothread L 1;
  match co with Some co => mret co | None => luaL_argerror L 1 (str "coroutine expected") end.

Definition luaB_costatus L : M Z :=
  co ← coroutine_arg L;
  s ← costatus L co;
  name ← valid (getZ statnames s);
  lua_pushstring L (Some name);;
  mret 1.

Section resume.
Variable fuel : nat.

Definition auxresume L (co narg : Z) : M Z :=
  status ← costatus L co;
  b ← lua_checkstack co narg;
  (if negb b then luaL_error L (str "too many arguments to resume") [] else mret tt);;
  if negb (status =? CO_SUS) then
    name ← valid (getZ statnames status);
    lua_pushfstring L (str "cannot resume %s coroutine") [AStr (Some name)];;
    mret (-1)
  else
    lua_xmove L co narg;;
    lua_setlevel L co;;
    status ← lua_resume fuel co narg;
    if (status =? 0) || (status =? LUA_YIELD) then
      nres ← lua_gettop co;
      b ← lua_checkstack L (nres + 1);
      (if negb b then luaL_error L (str "too many results to resume") [] else mret tt);;
      lua_xmove co L nres;;
      mret nres
    else lua_xmove co L 1;; mret (-1).

Definition luaB_coresume L : M Z :=
  co ← coroutine_arg L;
  n ← lua_gettop L;
  r ← auxresume L co (n - 1);
  if r <? 0 then lua_pushboolean L 0;; lua_insert L (-2);; mret 2
  else lua_pushboolean L 1;; lua_insert L (- (r + 1));; mret (r + 1).

Definition luaB_auxwrap L : M Z :=
  co ← lua_tothread L (lua_upvalueindex 1);
  co ← valid co;
  n ← lua_gettop L;
  r ← auxresume L co n;
  if r <? 0 then
    b ← lua_isstring L (-1);
    (if (b : bool) then luaL_where L 1;; lua_insert L (-2);; lua_concat L 2 else mret tt);;
    lua_error L
  else mret r.
End resume.

Definition luaB_cocreate L : M Z :=
  NL ← lua_newthread L;
  f ← lua_isfunction L 1;
  c ← (if (f : bool) then lua_iscfunction L 1 else mret false);
  luaL_argcheck L (f && negb c) 1 (str "Lua function expected");;
  lua_pushvalue L 1;;
  lua_xmove L NL 1;;
  mret 1.

Definition luaB_yield L : M Z := n ← lua_gettop L; lua_yield L n.

Definition luaB_corunning L : M Z :=
  b ← lua_pushthread L;
  (if (b : bool) then lua_pushnil L else mret tt);;
  mret 1.

(** ** Opening the libraries *)

Section open.
Context `{Addresses}.

Definition luaB_cowrap L : M Z :=
  luaB_cocreate L;;
  lua_pushcclosure L (address (str "luaB_auxwrap")) 1;;
  mret 1.

(** [{"name", prefix_name}] *)
Definition reg (prefix : bytes) (name : bytes) : luaL_Reg := (name, address (prefix ++ name)).

Definition base_funcs : list luaL_Reg :=
  map (reg (str "luaB_"))
    [str "assert"; str "collectgarbage"; str "dofile"; str "error"; str "gcinfo"; str "getfenv"; str "getmetatable";
     str "loadfile"; str "load"; str "loadstring"; str "next"; str "pcall"; str "print"; str "rawequal"; str "rawget";
     str "rawset"; str "select"; str "setfenv"; str "setmetatable"; str "tonumber"; str "tostring"; str "type";
     str "unpack"; str "xpcall"].

Definition co_funcs : list luaL_Reg :=
  map (reg (str "luaB_co")) [str "create"; str "resume"; str "running"; str "status"; str "wrap"]
  ++ [reg (str "luaB_") (str "yield")].

Definition auxopen L (name : bytes) (f u : Z) : M unit :=
  lua_pushcclosure L u 0;;
  lua_pushcclosure L f 1;;
  lua_setfield L (-2) name.

Definition base_open L : M unit :=
  lua_pushvalue L LUA_GLOBALSINDEX;;
  lua_setglobal L (str "_G");;
  luaL_register L (Some (str "_G")) base_funcs;;
  lua_pushlstring L LUA_VERSION;;
  lua_setglobal L (str "_VERSION");;
  auxopen L (str "ipairs") (address (str "luaB_ipairs")) (address (str "ipairsaux"));;
  auxopen L (str "pairs") (address (str "luaB_pairs")) (address (str "luaB_next"));;
  lua_createtable L 0 1;;
  lua_pushvalue L (-1);;
  lua_setmetatable L (-2);;
  lua_pushlstring L (str "kv");;
  lua_setfield L (-2) (str "__mode");;
  lua_pushcclosure L (address (str "luaB_newproxy")) 1;;
  lua_setglobal L (str "newproxy").

Definition luaopen_base L : M Z :=
  base_open L;;
  luaL_register L (Some LUA_COLIBNAME) co_funcs;;
  mret 2.
End open.
End baselib.
