(* ===== verification/Mathlib.v ===== *)
(** * The mathematical library (lmathlib.c)

    The functions of math.h that are exact in IEEE arithmetic are defined here;
    the others and [rand] are parameters.  The operands of a C function are
    evaluated from left to right. *)

From S2P Require Import Prelude Clib Opcodes Object Debug Table Auxlib State Barrier Func Tm Do Vm Run Lstate Api.
From S2P Require Import Debugapi Laux Load Baselib.

(** ** math.h *)

Definition fabs (x : lua_Number) : lua_Number := SFabs x.
Definition ceil (x : lua_Number) : lua_Number := SFopp (floor (SFopp x)).
Definition sqrt (x : lua_Number) : lua_Number := SFsqrt prec emax x.
Definition HUGE_VAL : lua_Number := S754_infinity false.

Definition sign_of (x : lua_Number) : bool :=
  match x with S754_zero s | S754_infinity s | S754_finite s _ _ => s | S754_nan => false end.

(** The integral part, and the fraction with the sign of the argument *)
Definition modf (x : lua_Number) : lua_Number * lua_Number :=
  match x with
  | S754_finite s _ _ =>
      let ip := if s then ceil x else floor x in
      (ip, match SFsub prec emax x ip with S754_zero _ => S754_zero s | fp => fp end)
  | S754_infinity s => (x, S754_zero s)
  | _ => (x, x)
  end.

(** Exact, with the sign of the dividend *)
Definition fmod (x y : lua_Number) : lua_Number :=
  match x, y with
  | S754_nan, _ | _, S754_nan | S754_infinity _, _ | _, S754_zero _ => S754_nan
  | S754_zero _, _ | _, S754_infinity _ => x
  | S754_finite s m e, S754_finite _ m' e' =>
      let d := Z.min e e' in
      let r := (Zpos m * 2 ^ (e - d)) mod (Zpos m' * 2 ^ (e' - d)) in
      binary_normalize prec emax (cond_Zopp s r) d s
  end.

Definition frexp (x : lua_Number) : lua_Number * Z :=
  match x with S754_finite _ _ _ => SFfrexp prec emax x | _ => (x, 0) end.

Definition ldexp (x : lua_Number) (e : Z) : lua_Number := SFldexp prec emax x e.

Class MathH := {
  sin : lua_Number -> lua_Number;
  sinh : lua_Number -> lua_Number;
  cos : lua_Number -> lua_Number;
  cosh : lua_Number -> lua_Number;
  tan : lua_Number -> lua_Number;
  tanh : lua_Number -> lua_Number;
  asin : lua_Number -> lua_Number;
  acos : lua_Number -> lua_Number;
  atan : lua_Number -> lua_Number;
  log : lua_Number -> lua_Number;
  log10 : lua_Number -> lua_Number;
  exp : lua_Number -> lua_Number;
  atan2 : lua_Number -> lua_Number -> lua_Number
}.

(** The generator of stdlib.h *)
Class Random := {
  rand : M Z;
  srand : Z -> M unit;
  RAND_MAX : Z
}.

Definition PI : lua_Number := decimal false 314159265358979323846 (-20).
Definition RADIANS_PER_DEGREE : lua_Number := luai_numdiv PI (cast_num 180).
Definition LUA_MATHLIBNAME : bytes := str "math".

Section mathlib.
Context `{Machine} `{Host} `{Cenv} `{LibM} `{Locale} `{Calling} `{Locals} `{MathH} `{Random} `{Addresses}.
Implicit Types L : Z.

Definition math_abs L : M Z := x ← luaL_checknumber L 1; lua_pushnumber L (fabs x);; mret 1.
Definition math_sin L : M Z := x ← luaL_checknumber L 1; lua_pushnumber L (sin x);; mret 1.
Definition math_sinh L : M Z := x ← luaL_checknumber L 1; lua_pushnumber L (sinh x);; mret 1.
Definition math_cos L : M Z := x ← luaL_checknumber L 1; lua_pushnumber L (cos x);; mret 1.
Definition math_cosh L : M Z := x ← luaL_checknumber L 1; lua_pushnumber L (cosh x);; mret 1.
Definition math_tan L : M Z := x ← luaL_checknumber L 1; lua_pushnumber L (tan x);; mret 1.
Definition math_tanh L : M Z := x ← luaL_checknumber L 1; lua_pushnumber L (tanh x);; mret 1.
Definition math_asin L : M Z := x ← luaL_checknumber L 1; lua_pushnumber L (asin x);; mret 1.
Definition math_acos L : M Z := x ← luaL_checknumber L 1; lua_pushnumber L (acos x);; mret 1.
Definition math_atan L : M Z := x ← luaL_checknumber L 1; lua_pushnumber L (atan x);; mret 1.
Definition math_atan2 L : M Z :=
  x ← luaL_checknumber L 1; y ← luaL_checknumber L 2; lua_pushnumber L (atan2 x y);; mret 1.
Definition math_ceil L : M Z := x ← luaL_checknumber L 1; lua_pushnumber L (ceil x);; mret 1.
Definition math_floor L : M Z := x ← luaL_checknumber L 1; lua_pushnumber L (floor x);; mret 1.
Definition math_fmod L : M Z :=
  x ← luaL_checknumber L 1; y ← luaL_checknumber L 2; lua_pushnumber L (fmod x y);; mret 1.

Definition math_modf L : M Z :=
  x ← luaL_checknumber L 1;
  let '(ip, fp) := modf x in
  lua_pushnumber L ip;; lua_pushnumber L fp;; mret 2.

Definition math_sqrt L : M Z := x ← luaL_checknumber L 1; lua_pushnumber L (sqrt x);; mret 1.
Definition math_pow L : M Z :=
  x ← luaL_checknumber L 1; y ← luaL_checknumber L 2; lua_pushnumber L (pow x y);; mret 1.
Definition math_log L : M Z := x ← luaL_checknumber L 1; lua_pushnumber L (log x);; mret 1.
Definition math_log10 L : M Z := x ← luaL_checknumber L 1; lua_pushnumber L (log10 x);; mret 1.
Definition math_exp L : M Z := x ← luaL_checknumber L 1; lua_pushnumber L (exp x);; mret 1.
Definition math_deg L : M Z := x ← luaL_checknumber L 1; lua_pushnumber L (luai_numdiv x RADIANS_PER_DEGREE);; mret 1.
Definition math_rad L : M Z := x ← luaL_checknumber L 1; lua_pushnumber L (luai_nummul x RADIANS_PER_DEGREE);; mret 1.

Definition math_frexp L : M Z :=
  x ← luaL_checknumber L 1;
  let '(m, e) := frexp x in
  lua_pushnumber L m;; lua_pushinteger L e;; mret 2.

Definition math_ldexp L : M Z :=
  x ← luaL_checknumber L 1; e ← luaL_checkint L 2; lua_pushnumber L (ldexp x e);; mret 1.

(** The arguments from [i] on, compared with the best so far *)
Fixpoint best_loop (better : lua_Number -> lua_Number -> bool) (m : nat) L (i : Z) (best : lua_Number) : M lua_Number :=
  match m with
  | O => mret best
  | S m =>
      d ← luaL_checknumber L i;
      best_loop better m L (i + 1) (if better d best then d else best)
  end.

Definition math_min L : M Z :=
  n ← lua_gettop L;
  dmin ← luaL_checknumber L 1;
  dmin ← best_loop luai_numlt (Z.to_nat (n - 1)) L 2 dmin;
  lua_pushnumber L dmin;;
  mret 1.

Definition math_max L : M Z :=
  n ← lua_gettop L;
  dmax ← luaL_checknumber L 1;
  dmax ← best_loop (fun d dmax => luai_numlt dmax d) (Z.to_nat (n - 1)) L 2 dmax;
  lua_pushnumber L dmax;;
  mret 1.

(** An integer from [l] to [u], from the random number [r]: the length of the
    interval is computed in [int]. *)
Definition random_in (r : lua_Number) (l u : Z) : lua_Number :=
  luai_numadd (floor (luai_nummul r (cast_num (i32 (i32 (u - l) + 1))))) (cast_num l).

Definition math_random L : M Z :=
  k ← rand;
  let r := luai_numdiv (cast_num (Z.rem k RAND_MAX)) (cast_num RAND_MAX) in
  n ← lua_gettop L;
  if n =? 0 then lua_pushnumber L r;; mret 1
  else if n =? 1 then
    u ← luaL_checkint L 1;
    luaL_argcheck L (1 <=? u) 1 (str "interval is empty");;
    lua_pushnumber L (luai_numadd (floor (luai_nummul r (cast_num u))) (cast_num 1));;
    mret 1
  else if n =? 2 then
    l ← luaL_checkint L 1;
    u ← luaL_checkint L 2;
    luaL_argcheck L (l <=? u) 2 (str "interval is empty");;
    lua_pushnumber L (random_in r l u);;
    mret 1
  else luaL_error L (str "wrong number of arguments") [].

Definition math_randomseed L : M Z := seed ← luaL_checkint L 1; srand seed;; mret 0.

(** ** Opening the library *)

Definition mathlib : list luaL_Reg :=
  map (reg (str "math_"))
    [str "abs"; str "acos"; str "asin"; str "atan2"; str "atan"; str "ceil"; str "cosh"; str "cos"; str "deg"; str "exp";
     str "floor"; str "fmod"; str "frexp"; str "ldexp"; str "log10"; str "log"; str "max"; str "min"; str "modf";
     str "pow"; str "rad"; str "random"; str "randomseed"; str "sinh"; str "sin"; str "sqrt"; str "tanh"; str "tan"].

Definition luaopen_math L : M Z :=
  luaL_register L (Some LUA_MATHLIBNAME) mathlib;;
  lua_pushnumber L PI;;
  lua_setfield L (-2) (str "pi");;
  lua_pushnumber L HUGE_VAL;;
  lua_setfield L (-2) (str "huge");;
  lua_getfield L (-1) (str "fmod");;
  lua_setfield L (-2) (str "mod");;
  mret 1.
End mathlib.
