(* ===== verification/Dblib.v ===== *)
(** * The debug library (ldblib.c)

    [hookf] is the hook that [debug.sethook] installs; the console of
    [debug.debug] is a parameter.  [fuel] bounds the levels of a traceback and
    the commands of the console. *)

From S2P Require Import Prelude Clib Opcodes Object Debug Table Auxlib State Barrier Func Tm Do Vm Run Lstate Api.
From S2P Require Import Debugapi Laux Load Baselib.

Definition LUA_DBLIBNAME : bytes := str "debug".
Definition LEVELS1 : Z := 12.
Definition LEVELS2 : Z := 10.

(** A line of at most 249 characters of the standard input, and the error output *)
Class Console := {
  fgets : M (option bytes);
  fputs_err : bytes -> M unit
}.

Section dblib.
Context `{Machine} `{Host} `{Cenv} `{LibM} `{Locale} `{Calling} `{Locals} `{Addresses}.
Implicit Types (L : Z) (ar : lua_Debug).

Definition strchr (s : bytes) (c : Z) : bool := existsb (Z.eqb c) s.

(** ** Metatables and environments *)

Definition db_getregistry L : M Z := lua_pushvalue L LUA_REGISTRYINDEX;; mret 1.

Definition db_getmetatable L : M Z :=
  luaL_checkany L 1;;
  b ← lua_getmetatable L 1;
  (if negb b then lua_pushnil L else mret tt);;
  mret 1.

Definition db_setmetatable L : M Z :=
  t ← lua_type L 2;
  luaL_argcheck L ((t =? LUA_TNIL) || (t =? LUA_TTABLE)) 2 (str "nil or table expected");;
  lua_settop L 2;;
  b ← lua_setmetatable L 1;
  lua_pushboolean L b;;
  mret 1.

Definition db_getfenv L : M Z := luaL_checkany L 1;; lua_getfenv L 1;; mret 1.

Definition db_setfenv L : M Z :=
  luaL_checktype L 2 LUA_TTABLE;;
  lua_settop L 2;;
  b ← lua_setfenv L 1;
  (if negb b then luaL_error L (str "'setfenv' cannot change environment of given object") [] else mret tt);;
  mret 1.

(** ** Information about functions *)

Definition settabss L (i : bytes) (v : option bytes) : M unit := lua_pushstring L v;; lua_setfield L (-2) i.
Definition settabsi L (i : bytes) (v : Z) : M unit := lua_pushinteger L v;; lua_setfield L (-2) i.

(** The thread and the number of arguments before the others *)
Definition getthread L : M (Z * Z) :=
  t ← lua_type L 1;
  if t =? LUA_TTHREAD then co ← lua_tothread L 1; co ← valid co; mret (co, 1) else mret (L, 0).

Definition treatstackoption L (L1 : Z) (fname : bytes) : M unit :=
  (if L =? L1 then lua_pushvalue L (-2);; lua_remove L (-3) else lua_xmove L1 L 1);;
  lua_setfield L (-2) fname.

Definition when (b : bool) (m : M unit) : M unit := if b then m else mret tt.

(** The table of the fields that the options ask for *)
Definition info_fields L (L1 : Z) (options : bytes) ar : M unit :=
  lua_createtable L 0 2;;
  when (strchr options 83)
    (settabss L (str "source") (Some (ar_source ar));;
     settabss L (str "short_src") (Some (short_src ar));;
     settabsi L (str "linedefined") (linedefined ar);;
     settabsi L (str "lastlinedefined") (lastlinedefined ar);;
     settabss L (str "what") (Some (what ar)));;
  when (strchr options 108) (settabsi L (str "currentline") (ar_currentline ar));;
  when (strchr options 117) (settabsi L (str "nups") (nups ar));;
  when (strchr options 110)
    (settabss L (str "name") (ar_name ar);;
     settabss L (str "namewhat") (Some (ar_namewhat ar)));;
  when (strchr options 76) (treatstackoption L L1 (str "activelines"));;
  when (strchr options 102) (treatstackoption L L1 (str "func")).

Definition db_getinfo L : M Z :=
  '(L1, arg) ← getthread L;
  options ← luaL_optstring L (arg + 2) (Some (str "flnSu"));
  options ← valid options;
  num ← lua_isnumber L (arg + 1);
  fn ← lua_isfunction L (arg + 1);
  found ← (if (num : bool) then
      level ← lua_tointeger L (arg + 1);
      '(found, ar) ← lua_getstack L1 (i32 level) junk_debug;
      mret (if (found : bool) then Some (options, ar) else None)
    else if (fn : bool) then
      lua_pushfstring L (str ">%s") [AStr (Some options)];;
      options ← lua_tostring L (-1);
      options ← valid options;
      lua_pushvalue L (arg + 1);;
      lua_xmove L L1 1;;
      mret (Some (options, junk_debug))
    else luaL_argerror L (arg + 1) (str "function or level expected"));
  match found with
  | None => lua_pushnil L;; mret 1
  | Some (options, ar) =>
      '(ok, ar) ← lua_getinfo L1 options ar;
      if negb ok then luaL_argerror L (arg + 2) (str "invalid option")
      else info_fields L L1 options ar;; mret 1
  end.

(** The call at the level that is an argument *)
Definition stack_level L (L1 arg : Z) : M lua_Debug :=
  level ← luaL_checkint L (arg + 1);
  '(found, ar) ← lua_getstack L1 level junk_debug;
  if (found : bool) then mret ar else luaL_argerror L (arg + 1) (str "level out of range").

Definition db_getlocal L : M Z :=
  '(L1, arg) ← getthread L;
  ar ← stack_level L L1 arg;
  n ← luaL_checkint L (arg + 2);
  name ← lua_getlocal L1 ar n;
  match name with
  | Some _ => lua_xmove L1 L 1;; lua_pushstring L name;; lua_pushvalue L (-2);; mret 2
  | None => lua_pushnil L;; mret 1
  end.

Definition db_setlocal L : M Z :=
  '(L1, arg) ← getthread L;
  ar ← stack_level L L1 arg;
  luaL_checkany L (arg + 3);;
  lua_settop L (arg + 3);;
  lua_xmove L L1 1;;
  n ← luaL_checkint L (arg + 2);
  name ← lua_setlocal L1 ar n;
  lua_pushstring L name;;
  mret 1.

Definition auxupvalue L (get : bool) : M Z :=
  n ← luaL_checkint L 2;
  luaL_checktype L 1 LUA_TFUNCTION;;
  c ← lua_iscfunction L 1;
  if (c : bool) then mret 0
  else
    name ← (if get then lua_getupvalue L 1 n else lua_setupvalue L 1 n);
    match name with
    | None => mret 0
    | Some _ => lua_pushstring L name;; lua_insert L (- (Z.b2z get + 1));; mret (Z.b2z get + 1)
    end.

Definition db_getupvalue L : M Z := auxupvalue L true.
Definition db_setupvalue L : M Z := luaL_checkany L 3;; auxupvalue L false.

(** ** Hooks *)

Definition KEY_HOOK : Z := address (str "KEY_HOOK").
Definition hooknames : list bytes := [str "call"; str "return"; str "line"; str "count"; str "tail return"].

Definition hookf L ar : M unit :=
  lua_pushlightuserdata L KEY_HOOK;;
  lua_rawget L LUA_REGISTRYINDEX;;
  lua_pushlightuserdata L L;;
  lua_rawget L (-2);;
  fn ← lua_isfunction L (-1);
  if (fn : bool) then
    name ← valid (getZ hooknames (event ar));
    lua_pushstring L (Some name);;
    (if 0 <=? ar_currentline ar then lua_pushinteger L (ar_currentline ar) else lua_pushnil L);;
    lua_call L 2 0
  else mret tt.

Definition makemask (smask : bytes) (count : Z) : Z :=
  Z.lor (if strchr smask 99 then LUA_MASKCALL else 0)
    (Z.lor (if strchr smask 114 then LUA_MASKRET else 0)
      (Z.lor (if strchr smask 108 then LUA_MASKLINE else 0) (if 0 <? count then LUA_MASKCOUNT else 0))).

Definition unmakemask (mask : Z) : bytes :=
  (if Z.land mask LUA_MASKCALL =? 0 then [] else [99])
  ++ (if Z.land mask LUA_MASKRET =? 0 then [] else [114])
  ++ (if Z.land mask LUA_MASKLINE =? 0 then [] else [108]).

Definition gethooktable L : M unit :=
  lua_pushlightuserdata L KEY_HOOK;;
  lua_rawget L LUA_REGISTRYINDEX;;
  b ← lua_istable L (-1);
  if negb b then
    lua_pop L 1;;
    lua_createtable L 0 1;;
    lua_pushlightuserdata L KEY_HOOK;;
    lua_pushvalue L (-2);;
    lua_rawset L LUA_REGISTRYINDEX
  else mret tt.

Definition db_sethook L : M Z :=
  '(L1, arg) ← getthread L;
  off ← lua_isnoneornil L (arg + 1);
  '(func, mask, count) ← (if (off : bool) then lua_settop L (arg + 1);; mret (None, 0, 0)
    else
      smask ← luaL_checkstring L (arg + 2);
      luaL_checktype L (arg + 1) LUA_TFUNCTION;;
      count ← luaL_optint L (arg + 3) 0;
      mret (Some (address (str "hookf")), makemask smask count, count));
  gethooktable L;;
  lua_pushlightuserdata L L1;;
  lua_pushvalue L (arg + 1);;
  lua_rawset L (-3);;
  lua_pop L 1;;
  lua_sethook L1 func mask count;;
  mret 0.

Definition db_gethook L : M Z :=
  '(L1, _) ← getthread L;
  mask ← lua_gethookmask L1;
  h ← lua_gethook L1;
  (if match h with Some f => negb (f =? address (str "hookf")) | None => false end
   then lua_pushlstring L (str "external hook")
   else gethooktable L;; lua_pushlightuserdata L L1;; lua_rawget L (-2);; lua_remove L (-2));;
  lua_pushstring L (Some (unmakemask mask));;
  n ← lua_gethookcount L1;
  lua_pushinteger L n;;
  mret 3.

(** ** The console *)

Section console.
Context `{Console} `{Scanner}.

Fixpoint db_debug (fuel : nat) L : M Z :=
  match fuel with
  | O => late
  | S fuel =>
      fputs_err (str "lua_debug> ");;
      line ← fgets;
      match line with
      | None => mret 0
      | Some line =>
          if bool_decide (line = str "cont" ++ [10]) then mret 0
          else
            status ← luaL_loadbuffer L line (str "=(debug command)");
            failed ← (if negb (status =? 0) then mret true
                      else status ← lua_pcall L 0 0 0; mret (negb (status =? 0)));
            (if (failed : bool) then
               msg ← lua_tostring L (-1);
               msg ← valid msg;
               fputs_err msg;;
               fputs_err [10]
             else mret tt);;
            lua_settop L 0;;
            db_debug fuel L
      end
  end.
End console.

(** ** Tracebacks *)

(** The last levels: [while (lua_getstack(L1, level+LEVELS2, &ar)) level++] *)
Fixpoint last_levels (fuel : nat) (L1 level : Z) : M Z :=
  '(more, _) ← lua_getstack L1 (level + LEVELS2) junk_debug;
  if (more : bool) then match fuel with O => late | S fuel => last_levels fuel L1 (level + 1) end
  else mret level.

(** One line, for the call [ar] *)
Definition traceback_line L (L1 arg : Z) ar : M unit :=
  lua_pushlstring L (10 :: [9]);;
  '(_, ar) ← lua_getinfo L1 (str "Snl") ar;
  lua_pushfstring L (str "%s:") [AStr (Some (short_src ar))];;
  (if 0 <? ar_currentline ar then lua_pushfstring L (str "%d:") [AInt (ar_currentline ar)];; mret tt else mret tt);;
  (if negb (lenZ (ar_namewhat ar) =? 0) then
     lua_pushfstring L (str " in function '%s'") [AStr (ar_name ar)];; mret tt
   else if bool_decide (head (what ar) = Some 109) then lua_pushfstring L (str " in main chunk") [];; mret tt
   else if bool_decide (head (what ar) = Some 67) || bool_decide (head (what ar) = Some 116) then
     lua_pushlstring L (str " ?")
   else
     lua_pushfstring L (str " in function <%s:%d>") [AStr (Some (short_src ar)); AInt (linedefined ar)];; mret tt);;
  n ← lua_gettop L;
  lua_concat L (n - arg).

Fixpoint traceback_loop (fuel : nat) L (L1 arg level : Z) (firstpart : bool) : M unit :=
  match fuel with
  | O => late
  | S fuel =>
      '(found, ar) ← lua_getstack L1 level junk_debug;
      let level := level + 1 in
      if negb found then mret tt
      else if (LEVELS1 <? level) && firstpart then
        '(more, _) ← lua_getstack L1 (level + LEVELS2) ar;
        level ← (if negb more then mret (level - 1)
                 else lua_pushlstring L (10 :: 9 :: str "...");; last_levels fuel L1 level);
        traceback_loop fuel L L1 arg level false
      else traceback_line L L1 arg ar;; traceback_loop fuel L L1 arg level firstpart
  end.

Definition db_errorfb (fuel : nat) L : M Z :=
  '(L1, arg) ← getthread L;
  num ← lua_isnumber L (arg + 2);
  level ← (if (num : bool) then n ← lua_tointeger L (arg + 2); lua_pop L 1;; mret (i32 n)
           else mret (if L =? L1 then 1 else 0));
  n ← lua_gettop L;
  s ← lua_isstring L (arg + 1);
  if negb (n =? arg) && negb s then mret 1
  else
    lua_pushlstring L (if n =? arg then [] else [10]);;
    lua_pushlstring L (str "stack traceback:");;
    traceback_loop fuel L L1 arg level true;;
    n ← lua_gettop L;
    lua_concat L (n - arg);;
    mret 1.

(** ** Opening the library *)

Definition dblib : list luaL_Reg :=
  map (reg (str "db_"))
    [str "debug"; str "getfenv"; str "gethook"; str "getinfo"; str "getlocal"; str "getregistry"; str "getmetatable";
     str "getupvalue"; str "setfenv"; str "sethook"; str "setlocal"; str "setmetatable"; str "setupvalue"]
  ++ [(str "traceback", address (str "db_errorfb"))].

Definition luaopen_debug L : M Z := luaL_register L (Some LUA_DBLIBNAME) dblib;; mret 1.
End dblib.
