(* ===== verification/Loadlib.v ===== *)
(** * Packages (loadlib.c) and the standard libraries (linit.c)

    [require], [module], the loaders and the search for files, built for a
    system with [dlopen].  The dynamic linker and [getenv] are parameters.  The
    memory block of a library's userdata holds its handle.  [luaL_gsub] is the
    one of Auxlib.v with its result on the stack; what its buffer keeps on the
    stack meanwhile is not modelled. *)

From S2P Require Import Prelude Clib Opcodes Object Debug Zio Dump.
From S2P Require Import Table Auxlib State Barrier Func Tm Do Vm Run Lstate Api Debugapi Laux Load Baselib.

(** dlfcn.h and [getenv]; a handle is an address, and 0 is [NULL]. *)
Class Dl := {
  dlopen : bytes -> Z;
  dlsym : Z -> bytes -> option Z;
  dlclose : Z -> M unit;
  dlerror : bytes;
  getenv : bytes -> option bytes
}.

Definition LUA_POF : bytes := str "luaopen_".
Definition LUA_OFSEP : bytes := str "_".
Definition LIBPREFIX : bytes := str "LOADLIB: ".
Definition LIB_FAIL : bytes := str "open".
Definition ERRLIB : Z := 1.
Definition ERRFUNC : Z := 2.
Definition AUXMARK : bytes := [1].
Definition LUA_LOADLIBNAME : bytes := str "package".
Definition LUA_DIRSEP : bytes := str "/".
Definition LUA_PATHSEP : bytes := str ";".
Definition LUA_PATH_MARK : bytes := str "?".
Definition LUA_EXECDIR : bytes := str "!".
Definition LUA_IGMARK : bytes := str "-".
Definition LUA_PATH : bytes := str "LUA_PATH".
Definition LUA_CPATH : bytes := str "LUA_CPATH".

Definition LUA_ROOT : bytes := str "/usr/local/".
Definition LUA_LDIR : bytes := LUA_ROOT ++ str "share/lua/5.1/".
Definition LUA_CDIR : bytes := LUA_ROOT ++ str "lib/lua/5.1/".
Definition LUA_PATH_DEFAULT : bytes :=
  str "./?.lua;" ++ LUA_LDIR ++ str "?.lua;" ++ LUA_LDIR ++ str "?/init.lua;"
  ++ LUA_CDIR ++ str "?.lua;" ++ LUA_CDIR ++ str "?/init.lua".
Definition LUA_CPATH_DEFAULT : bytes := str "./?.so;" ++ LUA_CDIR ++ str "?.so;" ++ LUA_CDIR ++ str "loadall.so".

(** The text before the first [c] and from it on; without a [c] the text and
    nothing *)
Definition split_at (c : Z) (s : bytes) : bytes * bytes :=
  let n := Z.to_nat (strcspn s [c]) in (take n s, drop n s).

Fixpoint skip_separators (path : bytes) : bytes :=
  match path with
  | c :: rest => if c =? 59 then skip_separators rest else path
  | [] => []
  end.

(** The next template of a path and what is left *)
Definition next_template (path : bytes) : option (bytes * bytes) :=
  match skip_separators path with [] => None | path => Some (split_at 59 path) end.

(** The position after the last full stop, or the beginning *)
Fixpoint after_last_dot (s : bytes) (i found : Z) : Z :=
  match s with
  | [] => found
  | c :: s => after_last_dot s (i + 1) (if c =? 46 then i + 1 else found)
  end.

Section loadlib.
Context `{Machine} `{Host} `{Cenv} `{LibM} `{Locale} `{Calling} `{Locals} `{Scanner} `{Files} `{Addresses} `{Dl}.
Implicit Types L : Z.

Definition luaL_gsub L (s p r : bytes) : M bytes :=
  t ← pure (Auxlib.luaL_gsub s p r); lua_pushlstring L t;; mret (cstr t).

(** ** Dynamic libraries *)

Definition ll_unloadlib (lib : Z) : M unit := dlclose lib.

Definition ll_load L (path : bytes) : M Z :=
  let lib := dlopen path in
  (if lib =? 0 then lua_pushstring L (Some dlerror) else mret tt);;
  mret lib.

Definition ll_sym L (lib : Z) (sym : bytes) : M (option Z) :=
  let f := dlsym lib sym in
  (match f with None => lua_pushstring L (Some dlerror) | Some _ => mret tt end);;
  mret f.

(** [*plib], [*plib = lib] for the userdata at [plib] *)
Definition get_lib (plib : Z) : M Z := u ← gco2u plib; mret (of_le (uv_mem u)).
Definition set_lib (plib lib : Z) : M unit :=
  u ← gco2u plib; set_body plib (OUdata (mkUdata (uv_metatable u) (uv_env u) (le 8 lib))).

Definition ll_register L (path : bytes) : M Z :=
  lua_pushfstring L (str "%s%s") [AStr (Some LIBPREFIX); AStr (Some path)];;
  lua_gettable L LUA_REGISTRYINDEX;;
  nil ← lua_isnil L (-1);
  if negb nil then p ← lua_touserdata L (-1); valid p
  else
    lua_pop L 1;;
    plib ← lua_newuserdata L 8;
    set_lib plib 0;;
    lua_getfield L LUA_REGISTRYINDEX (str "_LOADLIB");;
    lua_setmetatable L (-2);;
    lua_pushfstring L (str "%s%s") [AStr (Some LIBPREFIX); AStr (Some path)];;
    lua_pushvalue L (-2);;
    lua_settable L LUA_REGISTRYINDEX;;
    mret plib.

Definition gctm L : M Z :=
  plib ← luaL_checkudata L 1 (str "_LOADLIB");
  lib ← get_lib plib;
  (if negb (lib =? 0) then ll_unloadlib lib else mret tt);;
  set_lib plib 0;;
  mret 0.

Definition ll_loadfunc L (path sym : bytes) : M Z :=
  reg ← ll_register L path;
  lib ← get_lib reg;
  (if lib =? 0 then lib ← ll_load L path; set_lib reg lib else mret tt);;
  lib ← get_lib reg;
  if lib =? 0 then mret ERRLIB
  else
    f ← ll_sym L lib sym;
    match f with
    | None => mret ERRFUNC
    | Some f => lua_pushcclosure L f 0;; mret 0
    end.

Definition ll_loadlib L : M Z :=
  path ← luaL_checkstring L 1;
  init ← luaL_checkstring L 2;
  stat ← ll_loadfunc L path init;
  if stat =? 0 then mret 1
  else
    lua_pushnil L;;
    lua_insert L (-2);;
    lua_pushstring L (Some (if stat =? ERRLIB then LIB_FAIL else str "init"));;
    mret 3.

(** ** Searching for files *)

Definition readable (filename : bytes) : bool := bool_decide (is_Some (fopen filename)).

Definition pushnexttemplate L (path : bytes) : M (option bytes) :=
  match next_template path with
  | None => mret None
  | Some (template, rest) => lua_pushlstring L template;; mret (Some rest)
  end.

Fixpoint findfile_loop (m : nat) L (name path : bytes) : M (option bytes) :=
  match m with
  | O => late
  | S m =>
      path ← pushnexttemplate L path;
      match path with
      | None => mret None
      | Some path =>
          template ← lua_tostring L (-1);
          template ← valid template;
          filename ← luaL_gsub L template LUA_PATH_MARK name;
          lua_remove L (-2);;
          if readable filename then mret (Some filename)
          else
            lua_pushfstring L (10 :: 9 :: str "no file '%s'") [AStr (Some filename)];;
            lua_remove L (-2);;
            lua_concat L 2;;
            findfile_loop m L name path
      end
  end.

Definition findfile L (name pname : bytes) : M (option bytes) :=
  name ← luaL_gsub L name (str ".") LUA_DIRSEP;
  lua_getfield L LUA_ENVIRONINDEX pname;;
  path ← lua_tostring L (-1);
  path ← (match path with
    | None => luaL_error L (str "'package.%s' must be a string") [AStr (Some pname)]
    | Some path => mret path
    end);
  lua_pushlstring L [];;
  findfile_loop (S (length path)) L name path.

(** ** Loaders *)

Definition loaderror L (filename : bytes) : M unit :=
  name ← lua_tostring L 1;
  msg ← lua_tostring L (-1);
  luaL_error L (str "error loading module '%s' from file '%s':" ++ (10 :: 9 :: str "%s"))
    [AStr name; AStr (Some filename); AStr msg].

Definition loader_Lua L : M Z :=
  name ← luaL_checkstring L 1;
  filename ← findfile L name (str "path");
  match filename with
  | None => mret 1
  | Some filename =>
      status ← luaL_loadfile L (Some filename);
      (if negb (status =? 0) then loaderror L filename else mret tt);;
      mret 1
  end.

Definition mkfuncname L (modname : bytes) : M bytes :=
  let modname := match snd (split_at 45 modname) with _ :: rest => rest | [] => modname end in
  funcname ← luaL_gsub L modname (str ".") LUA_OFSEP;
  funcname ← lua_pushfstring L (LUA_POF ++ str "%s") [AStr (Some funcname)];
  lua_remove L (-2);;
  mret funcname.

Definition loader_C L : M Z :=
  name ← luaL_checkstring L 1;
  filename ← findfile L name (str "cpath");
  match filename with
  | None => mret 1
  | Some filename =>
      funcname ← mkfuncname L name;
      stat ← ll_loadfunc L filename funcname;
      (if negb (stat =? 0) then loaderror L filename else mret tt);;
      mret 1
  end.

Definition loader_Croot L : M Z :=
  name ← luaL_checkstring L 1;
  let '(root, p) := split_at 46 name in
  match p with
  | [] => mret 0
  | _ :: _ =>
      lua_pushlstring L root;;
      filename ← findfile L root (str "cpath");
      match filename with
      | None => mret 1
      | Some filename =>
          funcname ← mkfuncname L name;
          stat ← ll_loadfunc L filename funcname;
          (if negb (stat =? 0) then
             (if negb (stat =? ERRFUNC) then loaderror L filename else mret tt);;
             lua_pushfstring L (10 :: 9 :: str "no module '%s' in file '%s'") [AStr (Some name); AStr (Some filename)];;
             mret tt
           else mret tt);;
          mret 1
      end
  end.

Definition loader_preload L : M Z :=
  name ← luaL_checkstring L 1;
  lua_getfield L LUA_ENVIRONINDEX (str "preload");;
  b ← lua_istable L (-1);
  (if negb b then luaL_error L (str "'package.preload' must be a table") [] else mret tt);;
  lua_getfield L (-1) name;;
  nil ← lua_isnil L (-1);
  (if (nil : bool) then lua_pushfstring L (10 :: 9 :: str "no field package.preload['%s']") [AStr (Some name)];; mret tt
   else mret tt);;
  mret 1.

(** ** require *)

Definition sentinel : Z := address (str "sentinel_").

(** The loaders from the [i]th on, until one gives a function *)
Fixpoint loaders_loop (m : nat) L (name : bytes) (i : Z) : M unit :=
  match m with
  | O => late
  | S m =>
      lua_rawgeti L (-2) i;;
      nil ← lua_isnil L (-1);
      (if (nil : bool) then
         msg ← lua_tostring L (-2);
         luaL_error L (str "module '%s' not found:%s") [AStr (Some name); AStr msg]
       else mret tt);;
      lua_pushstring L (Some name);;
      lua_call L 1 1;;
      fn ← lua_isfunction L (-1);
      if (fn : bool) then mret tt
      else
        s ← lua_isstring L (-1);
        (if (s : bool) then lua_concat L 2 else lua_pop L 1);;
        loaders_loop m L name (i + 1)
  end.

(** [_LOADED[name]] is the value at the index 2; [fuel] bounds the loaders. *)
Definition ll_require (fuel : nat) L : M Z :=
  name ← luaL_checkstring L 1;
  lua_settop L 1;;
  lua_getfield L LUA_REGISTRYINDEX (str "_LOADED");;
  lua_getfield L 2 name;;
  loaded ← lua_toboolean L (-1);
  if (loaded : bool) then
    p ← lua_touserdata L (-1);
    (if bool_decide (p = Some sentinel)
     then luaL_error L (str "loop or previous error loading module '%s'") [AStr (Some name)]
     else mret tt);;
    mret 1
  else
    lua_getfield L LUA_ENVIRONINDEX (str "loaders");;
    b ← lua_istable L (-1);
    (if negb b then luaL_error L (str "'package.loaders' must be a table") [] else mret tt);;
    lua_pushlstring L [];;
    loaders_loop fuel L name 1;;
    lua_pushlightuserdata L sentinel;;
    lua_setfield L 2 name;;
    lua_pushstring L (Some name);;
    lua_call L 1 1;;
    nil ← lua_isnil L (-1);
    (if negb nil then lua_setfield L 2 name else mret tt);;
    lua_getfield L 2 name;;
    p ← lua_touserdata L (-1);
    (if bool_decide (p = Some sentinel)
     then lua_pushboolean L 1;; lua_pushvalue L (-1);; lua_setfield L 2 name
     else mret tt);;
    mret 1.

(** ** module *)

Definition setfenv L : M unit :=
  '(found, ar) ← lua_getstack L 1 junk_debug;
  bad ← (if negb found then mret true
         else '(ok, _) ← lua_getinfo L (str "f") ar; if negb ok then mret true else lua_iscfunction L (-1));
  (if (bad : bool) then luaL_error L (str "'module' not called from a Lua function") [] else mret tt);;
  lua_pushvalue L (-2);;
  lua_setfenv L (-2);;
  lua_pop L 1.

(** The options from the argument [i] on *)
Fixpoint dooptions (m : nat) L (i : Z) : M unit :=
  match m with
  | O => mret tt
  | S m =>
      lua_pushvalue L i;;
      lua_pushvalue L (-2);;
      lua_call L 1 0;;
      dooptions m L (i + 1)
  end.

Definition modinit L (modname : bytes) : M unit :=
  lua_pushvalue L (-1);;
  lua_setfield L (-2) (str "_M");;
  lua_pushstring L (Some modname);;
  lua_setfield L (-2) (str "_NAME");;
  lua_pushlstring L (take (Z.to_nat (after_last_dot modname 0 0)) modname);;
  lua_setfield L (-2) (str "_PACKAGE").

Definition ll_module L : M Z :=
  modname ← luaL_checkstring L 1;
  top ← lua_gettop L;
  let loaded := top + 1 in
  lua_getfield L LUA_REGISTRYINDEX (str "_LOADED");;
  lua_getfield L loaded modname;;
  b ← lua_istable L (-1);
  (if negb b then
     lua_pop L 1;;
     r ← luaL_findtable L LUA_GLOBALSINDEX modname 1;
     (match r with
      | Some _ => luaL_error L (str "name conflict for module '%s'") [AStr (Some modname)]
      | None => mret tt
      end);;
     lua_pushvalue L (-1);;
     lua_setfield L loaded modname
   else mret tt);;
  lua_getfield L (-1) (str "_NAME");;
  nil ← lua_isnil L (-1);
  lua_pop L 1;;
  (if (nil : bool) then modinit L modname else mret tt);;
  lua_pushvalue L (-1);;
  setfenv L;;
  dooptions (Z.to_nat (loaded - 2)) L 2;;
  mret 0.

Definition ll_seeall L : M Z :=
  luaL_checktype L 1 LUA_TTABLE;;
  b ← lua_getmetatable L 1;
  (if negb b then lua_createtable L 0 1;; lua_pushvalue L (-1);; lua_setmetatable L 1;; mret tt else mret tt);;
  lua_pushvalue L LUA_GLOBALSINDEX;;
  lua_setfield L (-2) (str "__index");;
  mret 0.

(** ** Opening the library *)

Definition setpath L (fieldname envname def : bytes) : M unit :=
  (match getenv envname with
   | None => lua_pushstring L (Some def)
   | Some path =>
       path ← luaL_gsub L path (LUA_PATHSEP ++ LUA_PATHSEP) (LUA_PATHSEP ++ AUXMARK ++ LUA_PATHSEP);
       luaL_gsub L path AUXMARK def;;
       lua_remove L (-2)
   end);;
  lua_setfield L (-2) fieldname.

Definition pk_funcs : list luaL_Reg := map (reg (str "ll_")) [str "loadlib"; str "seeall"].
Definition ll_funcs : list luaL_Reg := map (reg (str "ll_")) [str "module"; str "require"].
Definition loaders : list Z :=
  map (fun n => address (str "loader_" ++ n)) [str "preload"; str "Lua"; str "C"; str "Croot"].

Fixpoint open_loaders L (l : list Z) (i : Z) : M unit :=
  match l with
  | [] => mret tt
  | f :: l => lua_pushcclosure L f 0;; lua_rawseti L (-2) (i + 1);; open_loaders L l (i + 1)
  end.

Definition luaopen_package L : M Z :=
  luaL_newmetatable L (str "_LOADLIB");;
  lua_pushcclosure L (address (str "gctm")) 0;;
  lua_setfield L (-2) (str "__gc");;
  luaL_register L (Some LUA_LOADLIBNAME) pk_funcs;;
  lua_pushvalue L (-1);;
  lua_replace L LUA_ENVIRONINDEX;;
  lua_createtable L (lenZ loaders) 0;;
  open_loaders L loaders 0;;
  lua_setfield L (-2) (str "loaders");;
  setpath L (str "path") LUA_PATH LUA_PATH_DEFAULT;;
  setpath L (str "cpath") LUA_CPATH LUA_CPATH_DEFAULT;;
  lua_pushlstring L (LUA_DIRSEP ++ [10] ++ LUA_PATHSEP ++ [10] ++ LUA_PATH_MARK ++ [10] ++ LUA_EXECDIR ++ [10] ++ LUA_IGMARK);;
  lua_setfield L (-2) (str "config");;
  luaL_findtable L LUA_REGISTRYINDEX (str "_LOADED") 2;;
  lua_setfield L (-2) (str "loaded");;
  lua_newtable L;;
  lua_setfield L (-2) (str "preload");;
  lua_pushvalue L LUA_GLOBALSINDEX;;
  luaL_register L None ll_funcs;;
  lua_pop L 1;;
  mret 1.

(** ** All libraries (linit.c) *)

Definition lualibs : list luaL_Reg :=
  [([], address (str "luaopen_base")); (LUA_LOADLIBNAME, address (str "luaopen_package"));
   (str "table", address (str "luaopen_table")); (str "io", address (str "luaopen_io"));
   (str "os", address (str "luaopen_os")); (str "string", address (str "luaopen_string"));
   (str "math", address (str "luaopen_math")); (str "debug", address (str "luaopen_debug"))].

Fixpoint open_each L (libs : list luaL_Reg) : M unit :=
  match libs with
  | [] => mret tt
  | (name, func) :: libs =>
      lua_pushcclosure L func 0;;
      lua_pushstring L (Some name);;
      lua_call L 1 0;;
      open_each L libs
  end.

Definition luaL_openlibs L : M unit := open_each L lualibs.
End loadlib.
