(* ===== verification/Luac.v ===== *)
(** * The compiler program (luac.c) and its listings (print.c)

    A listing is the text that is printed; the address of a prototype, which is
    printed with [%p], is a parameter.  The files that are read are those of
    Load.v; of a file that is written, the model keeps the name and the bytes.
    [combine] does not push the prototype it makes on the stack, where it is for
    the garbage collector: prototypes are values here. *)

From S2P Require Import Prelude Clib Opcodes Object Debug Zio Dump.
From S2P Require Import Table Auxlib State Barrier Func Tm Do Vm Run Lstate Api Debugapi Laux Load.

(** ** Listings (print.c) *)

Definition luaP_opnames : list bytes :=
  map str ["MOVE"; "LOADK"; "LOADBOOL"; "LOADNIL"; "GETUPVAL"; "GETGLOBAL"; "GETTABLE"; "SETGLOBAL"; "SETUPVAL";
    "SETTABLE"; "NEWTABLE"; "SELF"; "ADD"; "SUB"; "MUL"; "DIV"; "MOD"; "POW"; "UNM"; "NOT"; "LEN"; "CONCAT"; "JMP"; "EQ";
    "LT"; "LE"; "TEST"; "TESTSET"; "CALL"; "TAILCALL"; "RETURN"; "FORLOOP"; "FORPREP"; "TFORLOOP"; "SETLIST"; "CLOSE";
    "CLOSURE"; "VARARG"]%string.

(** The pointer to a prototype, as [printf] writes it *)
Class Pointers := { pointer : Proto -> bytes }.

Section print.
Context `{Cenv} `{Pointers}.

(** The conversions [%03u] of a byte and [%-9s] *)
Definition fmt_03u (c : Z) : bytes := let d := fmt_d c in repeat 48 (3 - length d) ++ d.
Definition fmt_9s (s : bytes) : bytes := s ++ repeat 32 (9 - length s).

Definition print_char (c : Z) : bytes :=
  if c =? 34 then str "\" ++ [34]
  else if c =? 92 then str "\\"
  else if c =? 7 then str "\a"
  else if c =? 8 then str "\b"
  else if c =? 12 then str "\f"
  else if c =? 10 then str "\n"
  else if c =? 13 then str "\r"
  else if c =? 9 then str "\t"
  else if c =? 11 then str "\v"
  else if isprint c then [c]
  else str "\" ++ fmt_03u c.

Definition PrintString (s : bytes) : bytes := [34] ++ concat (map print_char s) ++ [34].

Definition print_value (o : TValue) : outcome bytes :=
  match o with
  | VNil => Ret (str "nil")
  | VBoolean b => Ret (if b =? 0 then str "false" else str "true")
  | VNumber n => Ret (lua_number2str n)
  | VString s => Ret (PrintString s)
  | VNullString => Undef
  | _ => Ret (str "? type=" ++ fmt_d (ttype o))
  end.

Definition PrintConstant (f : Proto) (i : Z) : outcome bytes := o ← deref (getZ (k f) i); print_value o.

Definition rk (x : Z) : bytes := fmt_d (if ISK x then -1 - INDEXK x else x).

(** The operands *)
Definition print_operands (op : OpCode) (i : Z) : bytes :=
  let a := fmt_d (GETARG_A i) in
  match getOpMode op with
  | iABC =>
      a ++ (match getBMode op with OpArgN => [] | _ => [32] ++ rk (GETARG_B i) end)
        ++ (match getCMode op with OpArgN => [] | _ => [32] ++ rk (GETARG_C i) end)
  | iABx =>
      match getBMode op with
      | OpArgK => a ++ [32] ++ fmt_d (-1 - GETARG_Bx i)
      | _ => a ++ [32] ++ fmt_d (GETARG_Bx i)
      end
  | iAsBx => match op with OP_JMP => fmt_d (GETARG_sBx i) | _ => a ++ [32] ++ fmt_d (GETARG_sBx i) end
  end.

Definition print_rk (f : Proto) (x : Z) : outcome bytes := if ISK x then PrintConstant f (INDEXK x) else Ret (str "-").

Definition comment : bytes := 9 :: str "; ".

(** What the instruction at [pc] refers to; [next] is the word after it. *)
Definition print_comment (f : Proto) (op : OpCode) (i pc : Z) (next : option Z) : outcome bytes :=
  let b := GETARG_B i in
  let c := GETARG_C i in
  match op with
  | OP_LOADK => s ← PrintConstant f (GETARG_Bx i); Ret (comment ++ s)
  | OP_GETUPVAL | OP_SETUPVAL =>
      if 0 <? sizeupvalues f then s ← deref (getZ (upvalues f) b); s ← deref s; Ret (comment ++ cstr s)
      else Ret (comment ++ str "-")
  | OP_GETGLOBAL | OP_SETGLOBAL => o ← deref (getZ (k f) (GETARG_Bx i)); s ← svalue o; Ret (comment ++ cstr s)
  | OP_GETTABLE | OP_SELF => if ISK c then s ← PrintConstant f (INDEXK c); Ret (comment ++ s) else Ret []
  | OP_SETTABLE | OP_ADD | OP_SUB | OP_MUL | OP_DIV | OP_POW | OP_EQ | OP_LT | OP_LE =>
      if ISK b || ISK c then s ← print_rk f b; s' ← print_rk f c; Ret (comment ++ s ++ [32] ++ s')
      else Ret []
  | OP_JMP | OP_FORLOOP | OP_FORPREP => Ret (comment ++ str "to " ++ fmt_d (GETARG_sBx i + pc + 2))
  | OP_CLOSURE => g ← deref (getZ (p f) (GETARG_Bx i)); Ret (comment ++ pointer g)
  | OP_SETLIST =>
      if c =? 0 then n ← deref next; Ret (comment ++ fmt_d (i32 n)) else Ret (comment ++ fmt_d c)
  | _ => Ret []
  end.

Definition print_instruction (f : Proto) (i pc : Z) (next : option Z) : outcome bytes :=
  line ← (if sizelineinfo f =? 0 then Ret 0 else deref (getZ (lineinfo f) pc));
  name ← deref (getZ luaP_opnames (GET_OPCODE i));
  op ← deref (op_of (GET_OPCODE i));
  s ← print_comment f op i pc next;
  Ret ([9] ++ fmt_d (pc + 1) ++ [9] ++ (if 0 <? line then str "[" ++ fmt_d line ++ str "]" else str "[-]") ++ [9]
    ++ fmt_9s name ++ [9] ++ print_operands op i ++ s ++ [10]).

(** The instructions from [pc] on; the word after OP_SETLIST with C = 0 is
    skipped. *)
Fixpoint print_code (f : Proto) (code : list Z) (pc : Z) : outcome bytes :=
  match code with
  | [] => Ret []
  | i :: rest =>
      s ← print_instruction f i pc (head rest);
      match rest with
      | _ :: rest' =>
          if is_op i OP_SETLIST && (GETARG_C i =? 0) then t ← print_code f rest' (pc + 2); Ret (s ++ t)
          else t ← print_code f rest (pc + 1); Ret (s ++ t)
      | [] => Ret s
      end
  end.

Definition PrintCode (f : Proto) : outcome bytes := print_code f (code f) 0.

(** [SS(x)], and a number with its noun *)
Definition SS (x : Z) : bytes := if x =? 1 then [] else str "s".
Definition count (x : Z) (noun : string) : bytes := fmt_d x ++ str " " ++ str noun ++ SS x.

Definition PrintHeader (f : Proto) : outcome bytes :=
  s ← deref (Object.source f);
  let s := cstr s in
  let s := match s with
    | c :: rest => if (c =? 64) || (c =? 61) then rest else if c =? 27 then str "(bstring)" else str "(string)"
    | [] => str "(string)"
    end in
  Ret ([10] ++ (if Object.linedefined f =? 0 then str "main" else str "function") ++ str " <" ++ s ++ str ":"
    ++ fmt_d (Object.linedefined f) ++ str "," ++ fmt_d (Object.lastlinedefined f) ++ str "> (" ++ count (sizecode f) "instruction"
    ++ str ", " ++ fmt_d (sizecode f * sizeof_Instruction) ++ str " bytes at " ++ pointer f ++ str ")" ++ [10]
    ++ fmt_d (numparams f) ++ (if is_vararg f =? 0 then [] else str "+") ++ str " param" ++ SS (numparams f) ++ str ", "
    ++ count (maxstacksize f) "slot" ++ str ", " ++ count (Object.nups f) "upvalue" ++ str ", "
    ++ count (sizelocvars f) "local" ++ str ", " ++ count (sizek f) "constant" ++ str ", "
    ++ count (sizep f) "function" ++ [10]).

(** A list with the number of each element *)
Fixpoint print_each {A} (line : Z -> A -> outcome bytes) (l : list A) (i : Z) : outcome bytes :=
  match l with
  | [] => Ret []
  | x :: l => s ← line i x; t ← print_each line l (i + 1); Ret (s ++ t)
  end.

Definition title (name : string) (n : Z) (f : Proto) : bytes :=
  str name ++ str " (" ++ fmt_d n ++ str ") for " ++ pointer f ++ str ":" ++ [10].

Definition PrintConstants (f : Proto) : outcome bytes :=
  s ← print_each (fun i o => s ← print_value o; Ret ([9] ++ fmt_d (i + 1) ++ [9] ++ s ++ [10])) (k f) 0;
  Ret (title "constants" (sizek f) f ++ s).

Definition PrintLocals (f : Proto) : outcome bytes :=
  s ← print_each (fun i v => n ← deref (varname v);
    Ret ([9] ++ fmt_d i ++ [9] ++ cstr n ++ [9] ++ fmt_d (startpc v + 1) ++ [9] ++ fmt_d (endpc v + 1) ++ [10])) (locvars f) 0;
  Ret (title "locals" (sizelocvars f) f ++ s).

Definition PrintUpvalues (f : Proto) : outcome bytes :=
  s ← print_each (fun i u => n ← deref u; Ret ([9] ++ fmt_d i ++ [9] ++ cstr n ++ [10])) (upvalues f) 0;
  Ret (title "upvalues" (sizeupvalues f) f ++ s).

Fixpoint PrintFunction (full : bool) (f : Proto) : outcome bytes :=
  h ← PrintHeader f;
  c ← PrintCode f;
  d ← (if full then
         ks ← PrintConstants f; ls ← PrintLocals f; us ← PrintUpvalues f; Ret (ks ++ ls ++ us)
       else Ret []);
  ps ← (fix each (l : list Proto) : outcome bytes :=
          match l with
          | [] => Ret []
          | g :: l => s ← PrintFunction full g; t ← each l; Ret (s ++ t)
          end) (p f);
  Ret (h ++ c ++ d ++ ps).
End print.

(** ** The options of luac *)

Definition PROGNAME : bytes := str "luac".
Definition OUTPUT : bytes := PROGNAME ++ str ".out".

(** The static variables; [output] is [None] for the standard output. *)
Record Options := mkOptions {
  listing : Z; dumping : bool; stripping : bool; output : option bytes; progname : bytes
}.

Definition default_options : Options := mkOptions 0 true false (Some OUTPUT) PROGNAME.

(** The process goes on, or exits with a status after it wrote to the standard
    output or to [stderr] *)
Inductive ending (A : Type) :=
| Goes (a : A) (out : bytes)
| Exits (success : bool) (text : bytes).
Arguments Goes {A}.
Arguments Exits {A}.

Definition fatal {A} (o : Options) (message : bytes) : ending A :=
  Exits false (progname o ++ str ": " ++ message ++ [10]).

Definition LUA_QL (x : bytes) : bytes := str "'" ++ x ++ str "'".

Definition usage {A} (o : Options) (message : bytes) : ending A :=
  let line (s : string) := str s ++ [10] in
  Exits false
    ((match message with
      | 45 :: _ => progname o ++ str ": unrecognized option " ++ LUA_QL message ++ [10]
      | _ => progname o ++ str ": " ++ message ++ [10]
      end)
     ++ str "usage: " ++ progname o ++ str " [options] [filenames]." ++ [10]
     ++ line "Available options are:"%string ++ line "  -        process stdin"%string ++ line "  -l       list"%string
     ++ str "  -o name  output to file " ++ LUA_QL (str "name") ++ str " (default is " ++ [34] ++ OUTPUT ++ [34] ++ str ")" ++ [10]
     ++ line "  -p       parse only"%string ++ line "  -s       strip debug information"%string
     ++ line "  -v       show version information"%string ++ line "  --       stop handling options"%string).

Definition IS (arg : bytes) (s : string) : bool := bool_decide (arg = str s).

(** The loop of [doargs]: the options, [version], and the arguments from
    [argv[i]] on *)
Fixpoint read_options (o : Options) (version : Z) (args : list bytes) : ending (Options * Z * list bytes) :=
  match args with
  | [] => Goes (o, version, []) []
  | arg :: rest =>
      if negb (bool_decide (head arg = Some 45)) then Goes (o, version, args) []
      else if IS arg "--" then Goes (o, if version =? 0 then version else version + 1, rest) []
      else if IS arg "-" then Goes (o, version, args) []
      else if IS arg "-l" then
        read_options (mkOptions (listing o + 1) (dumping o) (stripping o) (output o) (progname o)) version rest
      else if IS arg "-o" then
        match rest with
        | [] | [] :: _ => usage o (LUA_QL (str "-o") ++ str " needs argument")
        | name :: rest =>
            let file := if IS name "-" then None else Some name in
            read_options (mkOptions (listing o) (dumping o) (stripping o) file (progname o)) version rest
        end
      else if IS arg "-p" then
        read_options (mkOptions (listing o) false (stripping o) (output o) (progname o)) version rest
      else if IS arg "-s" then
        read_options (mkOptions (listing o) (dumping o) true (output o) (progname o)) version rest
      else if IS arg "-v" then read_options o (version + 1) rest
      else usage o arg
  end.

Definition set_progname (argv0 : option bytes) (o : Options) : Options :=
  match argv0 with
  | Some (c :: name) => mkOptions (listing o) (dumping o) (stripping o) (output o) (c :: name)
  | _ => o
  end.

Definition LUA_RELEASE : bytes := str "Lua 5.1.5".
Definition LUA_COPYRIGHT : bytes := str "Copyright (C) 1994-2012 Lua.org, PUC-Rio".

(** [args] are the arguments after the name of the program. *)
Definition doargs (argv0 : option bytes) (args : list bytes) : ending (Options * list bytes) :=
  match read_options (set_progname argv0 default_options) 0 args with
  | Goes (o, version, files) _ =>
      let none := match args, files with _ :: _, [] => (0 <? listing o) || negb (dumping o) | _, _ => false end in
      let o := if none then mkOptions (listing o) false (stripping o) (output o) (progname o) else o in
      let files := if none then [OUTPUT] else files in
      let text := if version =? 0 then [] else LUA_RELEASE ++ str "  " ++ LUA_COPYRIGHT ++ [10] in
      if negb (version =? 0) && (version =? lenZ args) then Exits true text else Goes (o, files) text
  | Exits ok text => Exits ok text
  end.

(** ** Combining functions *)

(** The instructions that call the first functions *)
Fixpoint combine_code (n : nat) : list Z :=
  match n with
  | O => []
  | S i => combine_code i ++ [CREATE_ABx OP_CLOSURE 0 (Z.of_nat i); CREATE_ABC OP_CALL 0 1 1]
  end.

Definition combine_protos (fs : list Proto) : Proto :=
  mkProto [] (combine_code (length fs) ++ [CREATE_ABC OP_RETURN 0 1 0]) fs [] [] []
    (Some (str "=(" ++ PROGNAME ++ str ")")) 0 0 0 0 0 1.

(** ** Running *)

(** What the process writes: the listing, and a file with its contents *)
Definition written : Type := bytes * option (option bytes * bytes).

(** The files that are written: whether one can be opened, and whether writing or
    closing it fails *)
Class Outputs := { can_open : bytes -> bool; write_fails : option bytes -> bool; close_fails : option bytes -> bool }.

Section program.
Context `{Machine} `{Host} `{Cenv} `{LibM} `{Locale} `{Calling} `{Locals} `{Scanner} `{Files} `{Outputs} `{Pointers}.
Implicit Types L : Z.

Definition toproto L (i : Z) : M Proto :=
  top ← field L top;
  o ← stk L (top + i);
  match o with
  | VFunction r => cl ← gco2cl r; match cl with LClosure _ p _ => mret p | CClosure _ _ _ => wrong end
  | _ => wrong
  end.

(** The prototypes of the [n] functions on the top *)
Fixpoint toprotos L (n : nat) : M (list Proto) :=
  match n with
  | O => mret []
  | S m => f ← toproto L (- Z.of_nat n); fs ← toprotos L m; mret (f :: fs)
  end.

Definition combine L (n : Z) : M Proto :=
  if n =? 1 then toproto L (-1) else fs ← toprotos L (Z.to_nat n); mret (combine_protos fs).

(** [printf] cannot write the name of the standard output, which is null. *)
Definition cannot {A} (o : Options) (what : bytes) : outcome (ending A) :=
  name ← deref (output o);
  Ret (fatal o (str "cannot " ++ what ++ str " " ++ name ++ str ": " ++ strerror)).

Fixpoint load_files (o : Options) L (files : list bytes) : M (ending unit) :=
  match files with
  | [] => mret (Goes tt [])
  | name :: files =>
      status ← luaL_loadfile L (if IS name "-" then None else Some name);
      if negb (status =? 0) then msg ← lua_tostring L (-1); msg ← valid msg; mret (fatal o msg)
      else load_files o L files
  end.

Definition dump_file (o : Options) (f : Proto) (text : bytes) : outcome (ending written) :=
  if match output o with None => true | Some name => can_open name end then
    let d := luaU_dump f ([] : bytes) (stripping o) in
    if write_fails (output o) then cannot o (str "write")
    else if close_fails (output o) then cannot o (str "close")
    else Ret (Goes (text, Some (output o, data d)) [])
  else cannot o (str "open").

Definition pmain (o : Options) L (files : list bytes) : M (ending written) :=
  room ← lua_checkstack L (lenZ files);
  if negb room then mret (fatal o (str "too many input files"))
  else
    loaded ← load_files o L files;
    match loaded with
    | Exits ok text => mret (Exits ok text)
    | Goes _ _ =>
        f ← combine L (lenZ files);
        text ← pure (if negb (listing o =? 0) then PrintFunction (1 <? listing o) f else Ret []);
        if dumping o then pure (dump_file o f text) else mret (Goes (text, None) [])
    end.
End program.
