(* ===== verification/Sample.v ===== *)
(** * A sample machine

    Concrete functions for what the machine and the C library decide, for the
    instances of the theorems, and the state of a new program. *)

From S2P Require Import Prelude Clib Opcodes Object Debug Table Auxlib State Barrier Func Tm Do Vm Run Lstate.

(** 1 MB between objects *)
#[export] Instance sample_host : Host := {|
  IntPoint v := match v with
    | VLightUserdata p | VTable p | VFunction p | VUserdata p | VThread p => 2 ^ 20 * p | _ => 0 end;
  Table.int_overflow _ := 0
|}.

(** Integral numbers are printed as integers, the others as a question mark. *)
#[export] Instance sample_env : Cenv := {|
  sprintf _ a := match a with FDouble n => match trunc n with Some z => fmt_d z | None => str "?" end | _ => [] end;
  BUFSIZ := 512;
  Auxlib.int_overflow _ := 0; long_overflow _ := 0; ulong_overflow _ := 0
|}.

(** No C functions, hooks or collections *)
#[export] Instance sample_machine : Machine := {|
  junk := VNil;
  junk_ci := mkCallInfo 0 0 0 0 0 0;
  cfunction _ _ _ := wrong;
  hook_function _ _ _ _ _ _ := wrong;
  panic_function _ _ := mret tt;
  collect _ _ := mret tt
|}.

(** The order of bytes, as in the C locale *)
Fixpoint strcmp (a b : bytes) : Z :=
  match a, b with
  | [], [] => 0
  | [], _ :: _ => -1
  | _ :: _, [] => 1
  | x :: a, y :: b => if x =? y then strcmp a b else x - y
  end.

#[export] Instance c_locale : Locale := {| strcoll := strcmp |}.

#[export] Instance sample_libm : LibM := {| pow a _ := a |}.

(** A new state with the function [p] on the stack, ready to be called *)
Definition loaded `{Calling} (p : Proto) : result Z :=
  match lua_newstate with
  | Ok L s =>
      (g ← field L l_gt;
       match g with
       | VTable e => f ← luaF_newLclosure 0 e p; push L (VFunction f);; mret L
       | _ => wrong
       end) s
  | r => r
  end.

(** The values a program returns, with at most [fuel] nested calls and
    instructions in each *)
Definition run_program (fuel : nat) (p : Proto) : result (list TValue) :=
  let c : Calling := call fuel in
  match loaded p with
  | Ok L s =>
      (luaD_call L 1 LUA_MULTRET;; t ← thread L; mret (drop 1 (take (Z.to_nat (top t)) (stack t)))) s
  | Jump L e s => Jump L e s
  | Exit s => Exit s
  | Wrong => Wrong
  | Late => Late
  end.
