(* ===== verification/Programs.v ===== *)
(** * Running programs with the libraries

    A machine whose C functions are those of the basic, the mathematical, the
    debug and the package library, and programs that are compiled from their texts
    and run on it. *)

From S2P Require Import Prelude Clib Opcodes Object Debug Zio Lex Code Parser.
From S2P Require Import Table Auxlib State Barrier Func Tm Do Vm Run Lstate Api Debugapi Laux Load Baselib Mathlib Dblib Loadlib Luac Sample.

#[export] Instance sample_locals : Locals := {| junk_debug := mkDebug 0 None [] [] [] 0 0 0 0 [] 0 |}.
#[export] Instance sample_scanner : Scanner := {| junk_token := mkToken TK_EOS SNone |}.

(** A function's address is the number its name stands for. *)
#[export] Instance sample_addresses : Addresses := {| address s := fold_left (fun a c => 256 * a + c) s 0 |}.

(** Always the same random number, and no transcendental functions *)
#[export] Instance sample_random : Random := {| rand := mret (2 ^ 30); srand _ := mret tt; RAND_MAX := 2 ^ 31 - 1 |}.
#[export] Instance sample_math : MathH := {|
  sin x := x; sinh x := x; cos x := x; cosh x := x; tan x := x; tanh x := x; asin x := x; acos x := x; atan x := x;
  log x := x; log10 x := x; exp x := x; atan2 x _ := x
|}.

(** One file, ./unit.lua, and no dynamic libraries *)
#[export] Instance sample_files : Files := {|
  fopen name := if bool_decide (name = str "./unit.lua") then Some (str "module('unit') x = 41") else None;
  freopen _ := None; stdin := []; ferror _ := false; strerror := str "No such file or directory"
|}.
#[export] Instance sample_dl : Dl := {|
  dlopen _ := 0; dlsym _ _ := None; dlclose _ := mret tt; dlerror := str "no dynamic libraries"; getenv _ := None
|}.

(** The C functions of a machine, by their names; [n] bounds the instructions of
    a coroutine. *)
Definition libraries `{Machine} `{Calling} (n : nat) : list (bytes * (Z -> M Z)) :=
  [(str "luaB_assert", luaB_assert); (str "luaB_error", luaB_error); (str "luaB_getfenv", luaB_getfenv);
   (str "luaB_getmetatable", luaB_getmetatable); (str "luaB_loadstring", luaB_loadstring); (str "luaB_next", luaB_next);
   (str "luaB_pcall", luaB_pcall); (str "luaB_rawequal", luaB_rawequal); (str "luaB_rawget", luaB_rawget);
   (str "luaB_rawset", luaB_rawset); (str "luaB_select", luaB_select); (str "luaB_setfenv", luaB_setfenv);
   (str "luaB_setmetatable", luaB_setmetatable); (str "luaB_tonumber", luaB_tonumber); (str "luaB_tostring", luaB_tostring);
   (str "luaB_type", luaB_type); (str "luaB_unpack", luaB_unpack); (str "luaB_xpcall", luaB_xpcall);
   (str "luaB_pairs", luaB_pairs); (str "luaB_ipairs", luaB_ipairs); (str "ipairsaux", ipairsaux);
   (str "luaB_newproxy", luaB_newproxy); (str "luaB_cocreate", luaB_cocreate); (str "luaB_coresume", luaB_coresume n);
   (str "luaB_costatus", luaB_costatus); (str "luaB_cowrap", luaB_cowrap); (str "luaB_auxwrap", luaB_auxwrap n);
   (str "luaB_corunning", luaB_corunning); (str "luaB_yield", luaB_yield);
   (str "math_abs", math_abs); (str "math_ceil", math_ceil); (str "math_floor", math_floor); (str "math_fmod", math_fmod);
   (str "math_max", math_max); (str "math_min", math_min); (str "math_modf", math_modf); (str "math_random", math_random);
   (str "math_sqrt", math_sqrt);
   (str "luaopen_base", luaopen_base); (str "luaopen_math", luaopen_math); (str "luaopen_debug", luaopen_debug);
   (str "luaopen_package", luaopen_package); (str "ll_require", ll_require n); (str "ll_module", ll_module);
   (str "ll_seeall", ll_seeall); (str "ll_loadlib", ll_loadlib); (str "loader_preload", loader_preload);
   (str "loader_Lua", loader_Lua); (str "loader_C", loader_C); (str "loader_Croot", loader_Croot);
   (str "db_getinfo", db_getinfo); (str "db_getlocal", db_getlocal); (str "db_setlocal", db_setlocal);
   (str "db_getupvalue", db_getupvalue); (str "db_setupvalue", db_setupvalue); (str "db_sethook", db_sethook);
   (str "db_gethook", db_gethook); (str "db_errorfb", db_errorfb n); (str "db_getregistry", db_getregistry);
   (str "db_getmetatable", db_getmetatable); (str "db_setmetatable", db_setmetatable)].

Definition c_library `{Machine} `{Calling} (n : nat) (f L : Z) : M Z :=
  match list_find (fun x => address (fst x) = f) (libraries n) with
  | Some (_, (_, fn)) => fn L
  | None => wrong
  end.

(** At most [n] C functions call each other. *)
Fixpoint lua_machine (n : nat) : Machine := {|
  junk := VNil;
  junk_ci := mkCallInfo 0 0 0 0 0 0;
  cfunction d f L := match n with
    | O => late
    | S n => let m := lua_machine n in let c : Calling := d in c_library 100 f L
    end;
  hook_function d h L event line i_ci := match n with
    | O => late
    | S n =>
        let m := lua_machine n in
        let c : Calling := d in
        if h =? address (str "hookf") then hookf L (mkDebug event None [] [] [] line 0 0 0 [] i_ci) else wrong
    end;
  panic_function _ _ := mret tt;
  collect _ _ := mret tt
|}.

(** Load and call chunks, one after the other. *)
Fixpoint run_each `{Machine} `{Calling} (L : Z) (chunks : list bytes) : M unit :=
  match chunks with
  | [] => mret tt
  | chunk :: chunks =>
      lua_settop L 0;; luaL_loadbuffer L chunk (str "=text");; lua_call L 0 LUA_MULTRET;; run_each L chunks
  end.

(** The results of the last of the chunks, which are run with the basic, the
    package, the mathematical and the debug library *)
Definition run_chunks (fuel depth : nat) (chunks : list bytes) : result (list TValue) :=
  let m := lua_machine depth in
  let c : Calling := call fuel in
  match lua_newstate with
  | Ok L s =>
      (open_each L (map (fun n => (str n, address (str ("luaopen_" ++ n)))) ["base"; "package"; "math"; "debug"]%string);;
       run_each L chunks;;
       t ← thread L;
       mret (drop 1 (take (Z.to_nat (top t)) (stack t)))) s
  | Jump L e s => Jump L e s
  | Exit s => Exit s
  | Wrong => Wrong
  | Late => Late
  end.
Definition run_text (fuel depth : nat) (text : bytes) : result (list TValue) := run_chunks fuel depth [text].
Definition values_of (r : result (list TValue)) : option (list TValue) := match r with Ok l _ => Some l | _ => None end.

(** ** Examples *)

Definition num (z : Z) : TValue := VNumber (cast_num z).
Definition text (s : string) : TValue := VString (str s).
Definition yes : TValue := VBoolean 1.
Definition no : TValue := VBoolean 0.

(** Programs with the values they return *)
Definition programs : list (string * list TValue) := [
  ("local function fact(n) if n == 0 then return 1 end return n * fact(n-1) end return fact(10)", [num 3628800]);
  ("local a = {} for i = 10, 1, -3 do a[#a+1] = i end return unpack(a)", [num 10; num 7; num 4; num 1]);
  ("local function f(...) local a, b = ... return select('#', ...), a, b end return f(1, nil, 3)", [num 3; num 1; VNil]);
  ("local s = '' for w = 1, 3 do s = s .. w .. ',' end return s, #s", [text "1,2,3,"; num 6]);
  ("local fs = {} for i = 1, 2 do fs[i] = function() i = i + 10 return i end end return fs[1](), fs[1](), fs[2]()",
   [num 11; num 21; num 12]);
  ("local t = setmetatable({}, {__index = function(t, k) return k * 2 end, __call = function(t, x) return x .. '!' end})
    return t[21], t('a')", [num 42; text "a!"]);
  ("local mt = {__add = function(a, b) return a.v + b.v end, __lt = function(a, b) return a.v < b.v end}
    local function o(v) return setmetatable({v = v}, mt) end return o(1) + o(2), o(1) < o(2), o(2) <= o(1)",
   [num 3; yes; no]);
  ("local t = {1, 2, 3, n = 4} local s = 0 for k, v in pairs(t) do s = s + v end return s, #t", [num 10; num 3]);
  ("local co = coroutine.wrap(function(a) local b = coroutine.yield(a + 1) return b * 2 end) return co(1), co(10)",
   [num 2; num 20]);
  ("local co = coroutine.create(function() error('oops') end) return coroutine.resume(co)", [no; text "text:1: oops"]);
  ("return coroutine.wrap(function() return pcall(coroutine.yield, 1) end)()",
   [no; text "attempt to yield across metamethod/C-call boundary"]);
  ("local ok, e = pcall(function() local t = {} t.x.y = 1 end) return e",
   [text "text:1: attempt to index field 'x' (a nil value)"]);
  ("local ok, e = pcall(function() return 'a' < 1 end) return e", [text "text:1: attempt to compare string with number"]);
  ("return xpcall(function() local a; a() end, function(m) return m .. '!' end)",
   [no; text "text:1: attempt to call local 'a' (a nil value)!"]);
  ("return pcall(setmetatable, 1, 2)", [no; text "bad argument #1 to '?' (table expected, got number)"]);
  ("return loadstring('return x x')", [VNil; text "[string 'return x x']:1: '<eof>' expected near 'x'"]);
  ("return loadstring('return ...', 'chunk')(5, 6)", [num 5; num 6]);
  ("return tonumber('ff', 16), tonumber(' 12 '), tonumber('8', 8), tostring(nil)", [num 255; num 12; VNil; text "nil"]);
  ("local function f(x) local y = x * 2 return debug.getlocal(1, 2) end local n, v = f(4) return n, v", [text "y"; num 8]);
  ("local n = 0 debug.sethook(function(e, l) n = n + 1 end, 'l')
    local x = 1
    x = 2
    debug.sethook() return n", [num 3]);
  ("return require('unit').x + 1, package.loaded.unit == unit", [num 42; yes]);
  ("return math.max(1, 5, 3), math.fmod(-7, 3), math.floor(-0.5)", [num 5; num (-1); num (-1)])]%string.

(** Double quotes of the expected messages are written as single ones. *)
Definition plain_quotes (v : TValue) : TValue :=
  match v with VString s => VString (map (fun c => if c =? 34 then 39 else c) s) | _ => v end.

Example programs_run :
  map (fun p => map plain_quotes <$> values_of (run_text 600 40 (str (fst p)))) programs = map (fun p => Some (snd p)) programs.
Proof. vm_compute. reflexivity. Qed.

(** ** What the compiler and the libraries do wrong *)

(** Compiling a chunk held in memory *)
Definition compile `{LibM} (src : bytes) : outcome Proto :=
  luaY_parser 0 (mkToken TK_EOS SNone) (Some src) (str "=t").

(** The constants 0 and -0 of a function share one entry, as the table
    that finds constants again compares keys with the equality of numbers:
    "return -0, 0" returns -0 twice. *)
Theorem negative_zero_shared `{LibM} :
  (g ← compile (str "return -0, 0"); Ret (Object.k g, Object.code g)) =
  Ret ([VNumber (luai_numunm (cast_num 0))],
       [CREATE_ABx OP_LOADK 0 0; CREATE_ABx OP_LOADK 1 0; CREATE_ABC OP_RETURN 0 3 0;
        CREATE_ABC OP_RETURN 0 1 0]).
Proof. vm_compute. reflexivity. Qed.

(** [debug.getinfo] passes options that begin with [>] on to [lua_getinfo], which
    then takes whatever is on the top of the stack for a function. *)
Example getinfo_takes_any_value : run_text 300 20 (str "return debug.getinfo(1, '>f')") = Wrong.
Proof. vm_compute. reflexivity. Qed.

Example getinfo_gives_table : values_of (run_text 300 20 (str "return type(debug.getinfo(1, 'f'))")) = Some [text "table"].
Proof. vm_compute. reflexivity. Qed.

(** The length of the interval of [math.random] is computed in [int]: with the
    bounds 0 and [INT_MAX] it is negative, and so are the numbers. *)
Theorem random_leaves_interval :
  exists x, values_of (run_text 300 20 (str "return math.random(0, 2147483647)")) = Some [VNumber x] /\ luai_numlt x (cast_num 0) = true.
Proof. eexists. split; [vm_compute; reflexivity|reflexivity]. Qed.

(** ** The compiler program *)

(** Two files, written in the order they are loaded in *)
#[local] Instance luac_files : Files := {|
  fopen name :=
    if bool_decide (name = str "a") then Some (str "#!/bin/lua" ++ [10] ++ str "r = 'a' .. (r or '')")
    else if bool_decide (name = str "b") then Some (str "local function f(x) return x end r = 'b' .. f(r)")
    else None;
  freopen _ := None; stdin := str "r = '-' .. r"; ferror _ := false; strerror := str "No such file or directory"
|}.
#[local] Instance luac_outputs : Outputs := {| can_open _ := true; write_fails _ := false; close_fails _ := false |}.
#[local] Instance no_pointers : Pointers := {| pointer f := str "0x0" |}.

Definition luac (args : list string) : result (ending written) :=
  let m := lua_machine 20 in
  let c : Calling := call 300 in
  match doargs (Some (str "luac")) (map str args), lua_newstate with
  | Goes (o, files) _, Ok L s => pmain o L files s
  | Exits ok t, Ok _ s => Ok (Exits ok t) s
  | _, _ => Wrong
  end.

Definition luac_chunk (r : result (ending written)) : option bytes :=
  match r with Ok (Goes (_, Some (_, d)) _) _ => Some d | _ => None end.

(** The chunk that is made of several files runs them one after the other. *)
Example luac_combines :
  (d ← luac_chunk (luac ["-s"; "a"; "-"; "b"]%string); values_of (run_chunks 300 20 [d; str "return r"])) = Some [text "b-a"].
Proof. vm_compute. reflexivity. Qed.

(** Listings, with double quotes written as single ones *)
Definition lines (l : list string) : bytes := concat (map (fun s => str s ++ [10]) l).
Definition output_of (r : result (ending written)) : option bytes :=
  match r with
  | Ok (Goes (t, _) _) _ | Ok (Exits _ t) _ => Some (map (fun c => if c =? 34 then 39 else if c =? 9 then 32 else c) t)
  | _ => None
  end.

Example luac_lists :
  output_of (luac ["-l"; "-p"; "b"]%string) = Some (lines [
    ""; "main <b:0,0> (8 instructions, 32 bytes at 0x0)";
    "0+ params, 4 slots, 0 upvalues, 1 local, 2 constants, 1 function";
    " 1 [1] CLOSURE   0 0 ; 0x0"; " 2 [1] LOADK     1 -2 ; 'b'"; " 3 [1] MOVE      2 0"; " 4 [1] GETGLOBAL 3 -1 ; r";
    " 5 [1] CALL      2 2 2"; " 6 [1] CONCAT    1 1 2"; " 7 [1] SETGLOBAL 1 -1 ; r"; " 8 [1] RETURN    0 1";
    ""; "function <b:1,1> (2 instructions, 8 bytes at 0x0)";
    "1 param, 2 slots, 0 upvalues, 1 local, 0 constants, 0 functions";
    " 1 [1] RETURN    0 2"; " 2 [1] RETURN    0 1"]%string).
Proof. vm_compute. reflexivity. Qed.

Example luac_cannot_open :
  output_of (luac ["-"; "c"]%string) = Some (lines ["luac: cannot open c: No such file or directory"]%string).
Proof. vm_compute. reflexivity. Qed.

(** [PrintCode] tests that there are names of upvalues, and not that there is one
    for the upvalue of the instruction: a stripped chunk has none, but the
    verifier also accepts a chunk that has names for some of its upvalues only. *)
Definition one_name_of_two : Proto :=
  mkProto [] [CREATE_ABC OP_GETUPVAL 0 1 0; CREATE_ABC OP_RETURN 0 1 0] [] [] [] [Some (str "x")] (Some (str "=?")) 1 1 2 0 0 2.

Theorem listing_reads_past_upvalues :
  luaG_checkcode one_name_of_two = Ret true /\ PrintCode one_name_of_two = Undef.
Proof. split; vm_compute; reflexivity. Qed.
