(* ===== verification/VmFlow.v ===== *)
(** * Control flow of the virtual machine

    Where an instruction continues, compared with the reading of the
    instruction set in Debug.v that the bytecode verifier is proved against; and
    the comparison of strings, over the order of a locale. *)

From S2P Require Import Prelude Clib Opcodes Object Debug Table Auxlib State Barrier Func Tm Do Vm Run Lstate Sample.

(** ** What a computation can return *)

(** Every value [m] returns satisfies [Q]. *)
Definition returns {A} (m : M A) (Q : A -> Prop) : Prop := forall s a s', m s = Ok a s' -> Q a.

Section returns.
Context {A B : Type}.
Implicit Types (m : M A) (Q : A -> Prop) (R : B -> Prop).

Lemma returns_ret a Q : Q a -> returns (mret a) Q.
Proof. intros HQ s b s' [= <- _]. done. Qed.

Lemma returns_bind m (k : A -> M B) Q R : returns m Q -> (forall a, Q a -> returns (k a) R) -> returns (m ≫= k) R.
Proof.
  intros Hm Hk s b s' E. unfold mbind, M_bind in E. destruct (m s) as [a s1| | | |] eqn:Em; try discriminate E.
  eapply Hk; [by eapply Hm|exact E].
Qed.

(** The value of the first part does not matter. *)
Lemma returns_any m (k : A -> M B) R : (forall a, returns (k a) R) -> returns (m ≫= k) R.
Proof. intros Hk. by apply (returns_bind m k (fun _ => True)). Qed.

Lemma returns_wrong Q : returns wrong Q.
Proof. by intros s a s'. Qed.

Lemma returns_valid (o : option A) Q : (forall a, o = Some a -> Q a) -> returns (valid o) Q.
Proof. destruct o as [a|]; [|intros; apply returns_wrong]. intros HQ. by apply returns_ret, HQ. Qed.

Lemma returns_mono m Q Q' : returns m Q -> (forall a, Q a -> Q' a) -> returns m Q'.
Proof. intros Hm HQ s a s' E. eapply HQ, Hm, E. Qed.
End returns.

Create HintDb flow.
#[export] Hint Resolve returns_wrong : flow.

Section flow.
Context `{Machine} `{Host} `{Cenv} `{LibM} `{Locale} `{Calling}.
Variables (L i : Z) (fr0 : frame).

(** [fr'] is the same activation as [fr], at [pc]. *)
Definition at_pc (pc : Z) (fr fr' : frame) : Prop :=
  fr_pc fr' = pc /\ fr_p fr' = fr_p fr /\ fr_cl fr' = fr_cl fr /\ fr_upvals fr' = fr_upvals fr /\
  nexeccalls fr' = nexeccalls fr.

(** [x] continues in the same activation, at a place [P] allows. *)
Definition goes (P : Z -> Prop) (x : next) : Prop :=
  match x with Continue fr' => exists pc, P pc /\ at_pc pc fr0 fr' | _ => True end.

Lemma goes_pc (P : Z -> Prop) pc : P pc -> goes P (Continue (with_pc pc fr0)).
Proof. intros HP. by exists pc. Qed.

Lemma goes_pc_base (P : Z -> Prop) pc b : P pc -> goes P (Continue (with_base b (with_pc pc fr0))).
Proof. intros HP. by exists pc. Qed.

Lemma goes_base (P : Z -> Prop) b : P (fr_pc fr0) -> goes P (Continue (with_base b fr0)).
Proof. intros HP. by exists (fr_pc fr0). Qed.

Lemma goes_same (P : Z -> Prop) : P (fr_pc fr0) -> goes P (Continue fr0).
Proof. intros HP. by exists (fr_pc fr0). Qed.

Lemma Protect_flow (P : Z -> Prop) x : P (fr_pc fr0) -> returns (Protect L fr0 x) (goes P).
Proof. intros HP. unfold Protect. do 3 (apply returns_any; intros ?). apply returns_ret. by apply goes_base. Qed.

(** Where a test or a loop instruction goes *)
Definition branches (pc : Z) : Prop :=
  pc = fr_pc fr0 + 1 \/ exists j, getZ (code (fr_p fr0)) (fr_pc fr0) = Some j /\ pc = fr_pc fr0 + GETARG_sBx j + 1.

Lemma branch_flow b x : goes (eq (fr_pc fr0)) x -> returns (branch fr0 b x) (goes branches).
Proof.
  intros Hx. destruct x as [fr'| |]; try (apply returns_ret; done).
  destruct Hx as (pc & <- & Hpc & Hp & He & Hu & Hn). cbn [branch]. destruct b.
  - eapply (returns_bind _ _ (fun j => getZ (code (fr_p fr0)) (fr_pc fr0) = Some j)).
    + unfold instruction. rewrite Hpc. by apply returns_valid.
    + intros j Hj. apply returns_ret. exists (fr_pc fr' + GETARG_sBx j + 1). rewrite Hpc. split; [right; eauto|done].
  - apply returns_ret. exists (fr_pc fr' + 1). rewrite Hpc. split; [by left|done].
Qed.

Lemma compare_flow test : returns (compare L i fr0 test) (goes branches).
Proof. unfold compare. do 3 (apply returns_any; intros ?). apply branch_flow. by apply goes_base. Qed.

Ltac flow_step :=
  match goal with
  | |- returns (mret _) _ => apply returns_ret
  | |- returns wrong _ => apply returns_wrong
  | |- returns (Protect _ _ _) _ => apply Protect_flow
  | |- returns (branch _ _ _) _ => apply branch_flow
  | |- returns (compare _ _ _ _) _ => apply compare_flow
  | |- returns (_ ≫= _) _ => apply returns_any; intros ?
  | |- returns (if ?b then _ else _) _ => destruct b
  | |- returns (match ?x with _ => _ end) _ => destruct x
  | |- goes _ (Continue (with_pc _ _)) => apply goes_pc
  | |- goes _ (Continue (with_base _ (with_pc _ _))) => apply goes_pc_base
  | |- goes _ (Continue (with_base _ _)) => apply goes_base
  | |- goes _ (Continue _) => apply goes_same
  | |- goes _ (Reentry _) => exact I
  | |- goes _ Return => exact I
  | |- _ => progress (unfold continue, continue_at)
  end.

Ltac flow := repeat flow_step.

(** ** The groups of instructions *)

Section groups.
Variable P : Z -> Prop.

Lemma op_load_flow op :
  (op = OP_LOADBOOL -> P (if negb (GETARG_C i =? 0) then fr_pc fr0 + 1 else fr_pc fr0)) ->
  (op <> OP_LOADBOOL -> P (fr_pc fr0)) -> returns (op_load L i fr0 op) (goes P).
Proof. intros Hb Hn. unfold op_load. destruct op; flow; auto. Qed.

Hypothesis Hnext : P (fr_pc fr0).

Lemma op_variable_flow op : returns (op_variable L i fr0 op) (goes P).
Proof. unfold op_variable. destruct op; flow; done. Qed.

Lemma op_table_flow op : returns (op_table L i fr0 op) (goes P).
Proof. unfold op_table. destruct op; flow; done. Qed.

Lemma op_arith_flow op : returns (op_arith L i fr0 op) (goes P).
Proof. unfold op_arith. flow; done. Qed.

Lemma op_unary_flow op : returns (op_unary L i fr0 op) (goes P).
Proof. unfold op_unary. flow; done. Qed.

Lemma op_concat_flow : returns (op_concat L i fr0) (goes P).
Proof.
  unfold op_concat. eapply returns_bind; [by apply (Protect_flow P)|]. intros [fr| |] Hx; flow; done.
Qed.

Lemma op_call_flow : returns (op_call L i fr0) (goes P).
Proof. unfold op_call. flow; done. Qed.

Lemma op_tailcall_flow : returns (op_tailcall L i fr0) (goes P).
Proof. unfold op_tailcall. flow; done. Qed.

Lemma op_vararg_flow : returns (op_vararg L i fr0) (goes P).
Proof. unfold op_vararg. flow; done. Qed.
End groups.

Lemma op_return_flow : returns (op_return L i fr0) (goes (fun _ => False)).
Proof. unfold op_return. flow; done. Qed.

Lemma op_test_flow op : returns (op_test L i fr0 op) (goes branches).
Proof. unfold op_test. flow; done. Qed.

Lemma op_tforloop_flow : returns (op_tforloop L i fr0) (goes branches).
Proof.
  unfold op_tforloop. do 7 (apply returns_any; intros ?). flow; done.
Qed.

Lemma op_forloop_flow : returns (op_forloop L i fr0) (goes (fun pc => pc = fr_pc fr0 \/ pc = fr_pc fr0 + GETARG_sBx i)).
Proof. unfold op_forloop. flow; auto. Qed.

Lemma op_forprep_flow : returns (op_forprep L i fr0) (goes (eq (fr_pc fr0 + GETARG_sBx i))).
Proof. unfold op_forprep. flow; done. Qed.

Lemma op_setlist_flow :
  returns (op_setlist L i fr0) (goes (fun pc => pc = if GETARG_C i =? 0 then fr_pc fr0 + 1 else fr_pc fr0)).
Proof.
  unfold op_setlist. apply returns_any. intros n.
  eapply (returns_bind _ _ (fun x => x.2 = if GETARG_C i =? 0 then fr_pc fr0 + 1 else fr_pc fr0)).
  - destruct (GETARG_C i =? 0); flow; done.
  - intros [c pc] Hpc. cbn in Hpc. flow; done.
Qed.

Lemma op_closure_flow :
  returns (op_closure L i fr0) (goes (fun pc => exists f, getZ (p (fr_p fr0)) (GETARG_Bx i) = Some f /\ pc = fr_pc fr0 + nups f)).
Proof.
  unfold op_closure. eapply (returns_bind _ _ (fun f => getZ (p (fr_p fr0)) (GETARG_Bx i) = Some f)).
  - by apply returns_valid.
  - intros f Hf. flow. by exists f.
Qed.
End flow.

(** ** Instructions *)

(** Membership of a closed list *)
Ltac mem := apply (bool_decide_eq_true_1 _); reflexivity.


Section step.
Context `{Machine} `{Host} `{Cenv} `{LibM} `{Locale} `{Calling}.
Variables (L : Z) (fr : frame).

Lemma goes_mono fr0 (P Q : Z -> Prop) x : goes fr0 P x -> (forall pc, P pc -> Q pc) -> goes fr0 Q x.
Proof. destruct x; cbn; try done. intros (pc & HP & Ha) HPQ. eauto. Qed.

Lemma execute_op_flow i op fr1 :
  getZ (code (fr_p fr)) (fr_pc fr) = Some i -> op_of (GET_OPCODE i) = Some op -> at_pc (fr_pc fr + 1) fr fr1 ->
  returns (execute_op L i fr1 op) (goes fr1 (successor (fr_p fr) (fr_pc fr))).
Proof.
  intros Hi Hop (Hpc & Hp & _).
  assert (Hnext : forall R : Prop, (op ∉ [OP_JMP; OP_FORPREP; OP_RETURN; OP_EQ; OP_LT; OP_LE; OP_TEST; OP_TESTSET; OP_TFORLOOP; OP_CLOSURE]) ->
    (op = OP_LOADBOOL -> GETARG_C i = 0) -> is_setlist0 i = false -> successor (fr_p fr) (fr_pc fr) (fr_pc fr1))
    by (intros _ H1' H2' H3'; rewrite Hpc; by apply (succ_next _ _ i op)).
  assert (Hset : op <> OP_SETLIST -> is_setlist0 i = false).
  { intros Hne. unfold is_setlist0, is_op. apply andb_false_iff. left. apply Z.eqb_neq. intros E. apply Hne.
    rewrite E in Hop. vm_compute in Hop. by injection Hop. }
  assert (Hbr : op ∈ [OP_EQ; OP_LT; OP_LE; OP_TEST; OP_TESTSET; OP_TFORLOOP] ->
    forall pc, branches fr1 pc -> successor (fr_p fr) (fr_pc fr) pc).
  { intros Hin pc [-> | (j & Hj & ->)]; rewrite ?Hp, Hpc in *.
    - replace (fr_pc fr + 1 + 1) with (fr_pc fr + 2) by lia. apply (succ_skip _ _ i op); auto.
    - replace (fr_pc fr + 1 + GETARG_sBx j + 1) with (fr_pc fr + 2 + GETARG_sBx j) by lia. by apply (succ_test _ _ i op j). }
  destruct op; cbn [execute_op];
    lazymatch goal with
    | |- returns (op_load _ _ _ _) _ => apply op_load_flow
    | |- returns (op_variable _ _ _ _) _ => apply op_variable_flow
    | |- returns (op_table _ _ _ _) _ => apply op_table_flow
    | |- returns (op_arith _ _ _ _) _ => apply op_arith_flow
    | |- returns (op_unary _ _ _ _) _ => apply op_unary_flow
    | |- returns (op_concat _ _ _) _ => apply op_concat_flow
    | |- returns (op_call _ _ _) _ => apply op_call_flow
    | |- returns (op_tailcall _ _ _) _ => apply op_tailcall_flow
    | |- returns (op_vararg _ _ _) _ => apply op_vararg_flow
    | |- returns (op_test _ _ _ _) _ => eapply returns_mono; [apply op_test_flow|]; intros x Hx; eapply goes_mono; [exact Hx|]
    | |- returns (op_tforloop _ _ _) _ => eapply returns_mono; [apply op_tforloop_flow|]; intros x Hx; eapply goes_mono; [exact Hx|]
    | |- _ => idtac
    end;
    lazymatch goal with
    | |- successor _ _ (fr_pc fr1) => apply (Hnext True); [mem|done|by apply Hset]
    | |- forall pc, branches _ pc -> _ => apply Hbr; mem
    | |- OP_LOADBOOL = OP_LOADBOOL -> _ => idtac
    | |- _ = OP_LOADBOOL -> _ => discriminate
    | |- _ => idtac
    end.
  all: try (intros _; apply (Hnext True); [mem|done|by apply Hset]).
  - intros _. destruct (Z.eqb_spec (GETARG_C i) 0) as [E|E]; cbn [negb].
    + apply (Hnext True); [mem|done|by apply Hset].
    + rewrite Hpc. replace (fr_pc fr + 1 + 1) with (fr_pc fr + 2) by lia. apply (succ_skip _ _ i OP_LOADBOOL); auto.
  - done.
  - apply returns_ret, goes_pc. rewrite Hpc. apply (succ_jump _ _ i OP_JMP); [done|done|mem].
  - eapply returns_mono; [apply op_return_flow|]. intros x Hx. by eapply goes_mono.
  - eapply returns_mono; [apply op_forloop_flow|]. intros x Hx. eapply goes_mono; [exact Hx|]. intros pc [-> | ->].
    + apply (Hnext True); [mem|done|by apply Hset].
    + rewrite Hpc. apply (succ_jump _ _ i OP_FORLOOP); [done|done|mem].
  - eapply returns_mono; [apply op_forprep_flow|]. intros x Hx. eapply goes_mono; [exact Hx|]. intros pc <-.
    rewrite Hpc. apply (succ_jump _ _ i OP_FORPREP); [done|done|mem].
  - eapply returns_mono; [apply op_setlist_flow|]. intros x Hx. eapply goes_mono; [exact Hx|]. intros pc ->.
    assert (Hs0 : is_setlist0 i = (GETARG_C i =? 0)).
    { unfold is_setlist0. rewrite (is_op_op_of _ _ OP_SETLIST Hop). reflexivity. }
    destruct (GETARG_C i =? 0).
    + rewrite Hpc. replace (fr_pc fr + 1 + 1) with (fr_pc fr + 2) by lia. apply (succ_skip _ _ i OP_SETLIST); auto.
    + apply (Hnext True); [mem|done|done].
  - apply returns_any. intros _. apply returns_ret, goes_same. apply (Hnext True); [mem|done|by apply Hset].
  - eapply returns_mono; [apply op_closure_flow|]. intros x Hx. eapply goes_mono; [exact Hx|]. intros pc (f & Hf & ->).
    rewrite Hpc. rewrite Hp in Hf. by apply (succ_closure _ _ i f).
Qed.

(** What [execute_step] continues with, whatever the state and the hooks do *)
Lemma execute_step_goes i op :
  getZ (code (fr_p fr)) (fr_pc fr) = Some i -> op_of (GET_OPCODE i) = Some op ->
  returns (execute_step L fr) (goes fr (successor (fr_p fr) (fr_pc fr))).
Proof.
  intros Hi Hop. unfold execute_step.
  apply (returns_bind _ _ (eq i)); [unfold instruction; apply returns_valid; congruence|]. intros ? <-.
  apply returns_any. intros t.
  apply (returns_bind _ _ (fun o => match o with Some fr1 => at_pc (fr_pc fr + 1) fr fr1 | None => True end)).
  - destruct (_ || _); [|by apply returns_ret]. apply returns_any. intros _.
    destruct (_ || _); [|by apply returns_ret]. do 2 (apply returns_any; intros ?).
    destruct (_ =? _); [apply returns_any; intros ?|]; by apply returns_ret.
  - intros [fr1|] Hfr; [|by apply returns_ret]. rewrite Hop.
    eapply returns_mono; [by eapply (execute_op_flow i op fr1)|]. intros [fr2| |] Hx; try done.
    destruct Hx as (pc & Hs & E1 & E2 & E3 & E4 & E5). destruct Hfr as (F1 & F2 & F3 & F4 & F5).
    exists pc. split; [done|]. split_and!; congruence.
Qed.
End step.

(** ** Verified functions *)

Section verified.
Context `{Machine} `{Host} `{Cenv} `{LibM} `{Locale} `{Calling}.

(** [follows pt fr]: the virtual machine can be at [fr] in an activation of
    [pt], in whatever states the rest of the program makes; [fl_resume] is the
    end of a call that the function made. *)
Inductive follows (pt : Proto) : frame -> Prop :=
| fl_entry fr : fr_p fr = pt -> fr_pc fr = 0 -> follows pt fr
| fl_step L fr fr' s s' : follows pt fr -> execute_step L fr s = Ok (Continue fr') s' -> follows pt fr'
| fl_resume fr i b n : follows pt fr -> getZ (code pt) (fr_pc fr) = Some i -> op_of (GET_OPCODE i) = Some OP_CALL ->
    follows pt (mkframe (fr_cl fr) pt (fr_upvals fr) b (fr_pc fr + 1) n).

(** C35: The virtual machine keeps to what the bytecode verifier checked: in
    a function that [luaG_checkcode] accepts (and whose OP_LOADBOOL words that
    can be reached have C at most 1, as the compiler makes them), every round
    of the main loop, whatever calls, tag methods and hooks do in between,
    fetches an instruction that the verifier counts as reachable ([reachable]:
    so no pseudo-instruction of OP_CLOSURE), that lies in the code, has a
    valid opcode and names only registers, constants, upvalues and nested
    functions that exist; and when it goes on in the same activation, then
    at a place that the meaning of this instruction allows ([successor]: a
    jump at its target, a closure after its pseudo-instructions). *)
Theorem verified_code_followed pt fr :
  typed pt -> luaG_checkcode pt = Ret true ->
  (forall pc i, reachable pt pc -> getZ (code pt) pc = Some i -> is_op i OP_LOADBOOL = true -> GETARG_C i <= 1) ->
  follows pt fr ->
  fr_p fr = pt /\ reachable pt (fr_pc fr) /\ 0 <= fr_pc fr < sizecode pt /\ instr_ok pt (fr_pc fr) /\
  forall L s fr' s', execute_step L fr s = Ok (Continue fr') s' ->
    fr_p fr' = pt /\ successor pt (fr_pc fr) (fr_pc fr').
Proof.
  intros Ht Ha Hbool Hf.
  assert (Hok : forall pc, reachable pt pc -> exists i op, passed pt pc i op /\ 0 <= pc < sizecode pt).
  { intros pc Hr. pose proof (reachable_boundary pt Ht Ha _ Hbool Hr) as Hb.
    destruct (boundary_passed pt Ha _ Hb) as (i & op & Hp). exists i, op. split; [done|].
    destruct Hb. split; [by eapply boundary_nonneg|done]. }
  assert (Hstep : forall fr L s fr' s', fr_p fr = pt -> reachable pt (fr_pc fr) ->
    execute_step L fr s = Ok (Continue fr') s' -> fr_p fr' = pt /\ successor pt (fr_pc fr) (fr_pc fr')).
  { clear fr Hf. intros fr L s fr' s' Hp Hr E. destruct (Hok _ Hr) as (i & op & Hpass & _).
    destruct (passed_instr_ok _ _ _ _ Hpass) as (i' & op' & Hi & Hop & _). rewrite <- Hp in Hi.
    pose proof (execute_step_goes L fr i' op' Hi Hop s (Continue fr') s' E) as (pc & Hs & Hpc & Hp' & _).
    split; [by rewrite Hp', Hp|]. rewrite Hpc. by rewrite Hp in Hs. }
  assert (Hr : fr_p fr = pt /\ reachable pt (fr_pc fr)).
  { induction Hf as [fr Hp Hpc|L fr fr' s s' Hf [Hp Hr] E|fr i b n Hf [Hp Hr] Hi Hop].
    - split; [done|]. rewrite Hpc. constructor.
    - destruct (Hstep _ _ _ _ _ Hp Hr E) as [Hp' Hs]. split; [done|]. by eapply rtc_r.
    - split; [done|]. cbn. eapply rtc_r; [exact Hr|]. apply (succ_next _ _ i OP_CALL); [done|done|mem|done|].
      unfold is_setlist0. by rewrite (is_op_op_of _ _ OP_SETLIST Hop). }
  destruct Hr as [Hp Hr]. destruct (Hok _ Hr) as (i & op & Hpass & Hb).
  split; [done|]. split; [done|]. split; [done|]. split; [by eapply passed_instr_ok|].
  intros L s fr' s' E. by eapply Hstep.
Qed.
End verified.

(** ** Instance *)

#[local] Instance no_calls : Calling := fun _ _ _ => wrong.

(** The second instruction of [loop_proto], after a test that fails, and the
    next one *)
Definition loop_state : State := match lua_newstate with Ok _ s => s | _ => new_state end.

Lemma verified_code_followed_witness :
  let fr := mkframe 0 loop_proto [] 1 2 1 in
  (fr_p fr = loop_proto /\ reachable loop_proto 2 /\ 0 <= fr_pc fr < sizecode loop_proto /\ instr_ok loop_proto 2) /\
  forall L s fr' s', execute_step L fr s = Ok (Continue fr') s' -> successor loop_proto 2 (fr_pc fr').
Proof.
  cbv zeta.
  destruct (verified_code_followed loop_proto (mkframe 0 loop_proto [] 1 2 1)) as (H1 & H2 & H3 & H4 & H5).
  - apply loop_proto_typed.
  - vm_compute. reflexivity.
  - apply no_loadbool_le1. repeat constructor.
  - apply (fl_step _ 1 (mkframe 0 loop_proto [] 1 0 1) _ loop_state loop_state).
    + by apply fl_entry.
    + vm_compute. reflexivity.
  - split; [by split_and!|]. intros L s fr' s' E. by apply (H5 L s fr' s').
Defined.

(** * The order of strings (l_strcmp of lvm.c) *)


(** ** Lexicographic order *)

Fixpoint lexcmp (a b : bytes) : comparison :=
  match a, b with
  | [], [] => Eq
  | [], _ :: _ => Lt
  | _ :: _, [] => Gt
  | x :: a, y :: b => match x ?= y with Eq => lexcmp a b | c => c end
  end.

Definition nonneg (s : bytes) : Prop := Forall (fun c => 0 <= c) s.

Lemma lexcmp_Eq a b : lexcmp a b = Eq -> a = b.
Proof.
  revert b. induction a as [|x a IH]; intros [|y b]; cbn; try done. destruct (Z.compare_spec x y) as [->| |]; try done.
  intros E. by rewrite (IH b E).
Qed.

Lemma lexcmp_refl a : lexcmp a a = Eq.
Proof. induction a as [|x a IH]; cbn; [done|]. by rewrite Z.compare_refl. Qed.

Lemma lexcmp_app u a b : lexcmp (u ++ a) (u ++ b) = lexcmp a b.
Proof. induction u as [|x u IH]; cbn; [done|]. by rewrite Z.compare_refl. Qed.

(** The parts before the first NUL decide unless they are equal. *)
Lemma lexcmp_cstr a b : nonneg a -> nonneg b -> lexcmp (cstr a) (cstr b) <> Eq -> lexcmp a b = lexcmp (cstr a) (cstr b).
Proof.
  intros Ha. revert b. induction Ha as [|x a Hx Ha IH]; intros b Hb Hne.
  - destruct b as [|y b]; [done|]. cbn in *. by destruct (y =? 0).
  - destruct Hb as [|y b Hy Hb]; cbn in *.
    + by destruct (x =? 0).
    + destruct (Z.eqb_spec x 0) as [->|Hx0], (Z.eqb_spec y 0) as [->|Hy0]; cbn in *; try done.
      * by destruct y; try lia.
      * by destruct x; try lia.
      * destruct (x ?= y); [by apply IH|done|done].
Qed.

(** A string is its first part, or goes on after a NUL. *)
Lemma cstr_split s : s = cstr s \/ exists s', s = cstr s ++ 0 :: s' /\ drop (Z.to_nat (strlen s + 1)) s = s'.
Proof.
  induction s as [|c s IH]; [by left|]. unfold strlen in *. cbn [cstr].
  destruct (Z.eqb_spec c 0) as [->|Hc]; [right; by exists s|].
  destruct IH as [IH|(s' & IH & Hd)]; [left; by f_equal|right]. exists s'. split; [cbn [app]; by f_equal|].
  unfold lenZ in *. cbn [length].
  by replace (Z.to_nat (Z.of_nat (S (length (cstr s))) + 1)) with (S (Z.to_nat (Z.of_nat (length (cstr s)) + 1))) by lia.
Qed.

(** ** The parts between NUL bytes *)

Fixpoint parts (s : bytes) : list bytes :=
  match s with
  | [] => [[]]
  | c :: s =>
      if c =? 0 then [] :: parts s
      else match parts s with p :: ps => (c :: p) :: ps | [] => [[c]] end
  end.

(** The first part is what the C functions see of the string. *)
Lemma parts_cons s : exists ps, parts s = cstr s :: ps.
Proof.
  induction s as [|c s [ps IH]]; [by exists []|]. cbn. destruct (c =? 0); [by eexists|]. rewrite IH. by eexists.
Qed.

Lemma parts_split s :
  (s = cstr s /\ parts s = [cstr s]) \/
  exists s', s = cstr s ++ 0 :: s' /\ drop (Z.to_nat (strlen s + 1)) s = s' /\ parts s = cstr s :: parts s'.
Proof.
  induction s as [|c s IH]; [by left|]. unfold strlen in *. cbn [cstr parts].
  destruct (Z.eqb_spec c 0) as [->|Hc]; [right; by exists s|].
  destruct IH as [[IH Hp]|(s' & IH & Hd & Hp)]; [left; rewrite Hp; split; [by f_equal|done]|right].
  exists s'. rewrite Hp. split; [cbn [app]; by f_equal|]. split; [|done].
  unfold lenZ in *. cbn [length].
  by replace (Z.to_nat (Z.of_nat (S (length (cstr s))) + 1)) with (S (Z.to_nat (Z.of_nat (length (cstr s)) + 1))) by lia.
Qed.

Section order.
Context `{Locale}.

(** The order of lists of parts: that of the first parts that differ in the
    order of the locale, or else of the lists' lengths *)
Fixpoint partscmp (a b : list bytes) : comparison :=
  match a, b with
  | [], [] => Eq
  | [], _ :: _ => Lt
  | _ :: _, [] => Gt
  | x :: a, y :: b => match strcoll x y ?= 0 with Eq => partscmp a b | c => c end
  end.

(** Parts that are equal in the order of the locale have the same length:
    l_strcmp takes the first NUL of one string for the first NUL of both. *)
Definition same_length_ties (a b : list bytes) : Prop :=
  forall x y, x ∈ a -> y ∈ b -> strcoll x y = 0 -> length x = length y.

Lemma ties_tail x y a b : same_length_ties (x :: a) (y :: b) -> same_length_ties a b.
Proof. intros Ht u v Hu Hv. apply Ht; apply elem_of_cons; by right. Qed.

Lemma strcmp_loop_spec fuel l r :
  same_length_ties (parts l) (parts r) -> (length l < fuel)%nat ->
  exists c, strcmp_loop fuel l (lenZ l) r (lenZ r) = Ret c /\ (c ?= 0) = partscmp (parts l) (parts r).
Proof.
  revert l r. induction fuel as [|fuel IH]; intros l r Ht Hf; [lia|]. cbn [strcmp_loop].
  destruct (parts_cons l) as [pl Epl], (parts_cons r) as [pr Epr].
  set (temp := strcoll (cstr l) (cstr r)).
  destruct (Z.eqb_spec temp 0) as [E0|E0]; cbn [negb].
  2:{ exists temp. split; [done|]. rewrite Epl, Epr. cbn [partscmp]. fold temp.
      destruct (Z.compare_spec temp 0); [done|done|done]. }
  assert (Hlen : length (cstr l) = length (cstr r)).
  { apply Ht; [rewrite Epl|rewrite Epr|exact E0]; apply elem_of_cons; by left. }
  assert (Hc : forall pl pr, partscmp (cstr l :: pl) (cstr r :: pr) = partscmp pl pr) by (intros; cbn [partscmp]; fold temp; by rewrite E0).
  clear Epl Epr pl pr. unfold strlen.
  destruct (parts_split l) as [[El Pl]|(l' & El & Dl & Pl)], (parts_split r) as [[Er Pr]|(r' & Er & Dr & Pr)];
    apply (f_equal length) in El, Er; rewrite Pl, Pr, Hc in *; rewrite ?length_app in El; rewrite ?length_app in Er; cbn [length] in El, Er;
    unfold strlen, lenZ in *; rewrite Hlen in *.
  - rewrite El, Er, Z.eqb_refl. by exists 0.
  - rewrite (proj2 (Z.eqb_neq _ (Z.of_nat (length r)))), (proj2 (Z.eqb_eq _ (Z.of_nat (length l)))) by lia.
    exists (-1). split; [done|]. by destruct (parts_cons r') as [ps ->].
  - rewrite (proj2 (Z.eqb_eq _ (Z.of_nat (length r)))), (proj2 (Z.eqb_neq _ (Z.of_nat (length l)))) by lia.
    exists 1. split; [done|]. by destruct (parts_cons l') as [ps ->].
  - rewrite (proj2 (Z.eqb_neq _ (Z.of_nat (length r)))), (proj2 (Z.eqb_neq _ (Z.of_nat (length l)))), (proj2 (Z.ltb_ge _ _)) by lia.
    rewrite Dl, Dr.
    replace (Z.of_nat (length l) - (Z.of_nat (length (cstr r)) + 1)) with (lenZ l') by (unfold lenZ; lia).
    replace (Z.of_nat (length r) - (Z.of_nat (length (cstr r)) + 1)) with (lenZ r') by (unfold lenZ; lia).
    apply IH; [by eapply ties_tail|]. lia.
Qed.

(** C38: The comparison of strings handles the parts between NUL bytes one by
    one: in any locale whose ties are between strings of the same length, it
    ends, stays inside both strings, and its sign is that of the
    lexicographic order of the lists of parts, the parts compared by
    [strcoll], where a proper prefix comes first. *)
Theorem l_strcmp_lexicographic a b :
  same_length_ties (parts a) (parts b) ->
  exists c, l_strcmp a b = Ret c /\ (c ?= 0) = partscmp (parts a) (parts b).
Proof. intros Ht. unfold l_strcmp. apply strcmp_loop_spec; [done|lia]. Qed.

(** [strcoll] in the C locale: the order of the bytes, on strings without NUL *)
Definition c_order : Prop :=
  forall a b, Forall (fun c => c <> 0) a -> Forall (fun c => c <> 0) b -> (strcoll a b ?= 0) = lexcmp a b.

Lemma parts_no_nul s x : x ∈ parts s -> Forall (fun c => c <> 0) x.
Proof.
  revert x. induction s as [|c s IH]; intros x; cbn [parts].
  - intros ->%list_elem_of_singleton. constructor.
  - destruct (parts_cons s) as [ps Eps]. rewrite Eps in *. destruct (Z.eqb_spec c 0) as [->|Hc].
    + intros [->|Hx]%elem_of_cons; [constructor|by apply IH].
    + intros [->|Hx]%elem_of_cons.
      * constructor; [done|]. apply IH, elem_of_cons. by left.
      * apply IH, elem_of_cons. by right.
Qed.

(** In the C locale the parts of both strings can be compared at once. *)
Lemma partscmp_lexcmp a b : c_order -> nonneg a -> nonneg b -> partscmp (parts a) (parts b) = lexcmp a b.
Proof.
  intros Hcoll. revert b. induction a as [a IH] using (well_founded_induction (Wf_nat.well_founded_ltof _ length)).
  intros b Ha Hb. assert (Hp : forall s, Forall (fun c => c <> 0) (cstr s)).
  { intros s. destruct (parts_cons s) as [ps E]. apply (parts_no_nul s). rewrite E. apply elem_of_cons. by left. }
  pose proof (Hcoll _ _ (Hp a) (Hp b)) as Hc. destruct (decide (lexcmp (cstr a) (cstr b) = Eq)) as [E|E].
  2:{ rewrite (lexcmp_cstr a b Ha Hb E). destruct (parts_cons a) as [pa ->], (parts_cons b) as [pb ->].
      cbn [partscmp]. rewrite Hc. by destruct (lexcmp (cstr a) (cstr b)). }
  assert (Hc' : forall pa pb, partscmp (cstr a :: pa) (cstr b :: pb) = partscmp pa pb) by (intros; cbn [partscmp]; by rewrite Hc, E).
  apply lexcmp_Eq in E.
  destruct (parts_split a) as [[Ea Pa]|(a' & Ea & _ & Pa)], (parts_split b) as [[Eb Pb]|(b' & Eb & _ & Pb)];
    rewrite Pa, Pb, Hc'; clear Pa Pb Hc' Hc; rewrite E in Ea; remember (cstr b) as u eqn:Hu; clear Hu E; subst a b.
  - by rewrite lexcmp_refl.
  - destruct (parts_cons b') as [ps ->]. rewrite <- (app_nil_r u) at 1. by rewrite lexcmp_app.
  - destruct (parts_cons a') as [ps ->]. rewrite <- (app_nil_r u) at 2. by rewrite lexcmp_app.
  - rewrite lexcmp_app. cbn [lexcmp]. rewrite Z.compare_refl.
    apply Forall_app in Ha as [_ Ha%Forall_inv_tail], Hb as [_ Hb%Forall_inv_tail].
    apply IH; [|done|done]. unfold ltof. rewrite length_app. cbn. lia.
Qed.

(** In the C locale the parts can be compared at once. *)
Lemma l_strcmp_bytes a b :
  c_order -> nonneg a -> nonneg b -> exists c, l_strcmp a b = Ret c /\ (c ?= 0) = lexcmp a b.
Proof.
  intros Hcoll Ha Hb. rewrite <- (partscmp_lexcmp a b Hcoll Ha Hb). unfold l_strcmp. apply strcmp_loop_spec; [|lia].
  intros x y Hx Hy E. apply parts_no_nul in Hx, Hy. specialize (Hcoll x y Hx Hy). rewrite E in Hcoll.
  symmetry in Hcoll. by apply lexcmp_Eq in Hcoll as ->.
Qed.
End order.

Lemma strcmp_order a b : (strcmp a b ?= 0) = lexcmp a b.
Proof.
  revert b. induction a as [|x a IH]; intros [|y b]; cbn; try done. destruct (Z.eqb_spec x y) as [->|Hne].
  - rewrite Z.compare_refl. apply IH.
  - destruct (Z.compare_spec x y); [done|apply Z.compare_lt_iff; lia|apply Z.compare_gt_iff; lia].
Qed.

Lemma c_locale_order : c_order (H := c_locale).
Proof. intros a b _ _. apply strcmp_order. Qed.

(** A locale that does not tell upper from lower case *)
Definition nocase_locale : Locale := {| strcoll a b := strcmp (tolower <$> a) (tolower <$> b) |}.

Lemma nocase_ties a b : same_length_ties (H := nocase_locale) a b.
Proof.
  intros x y _ _ E. cbn in E. pose proof (strcmp_order (tolower <$> x) (tolower <$> y)) as Hl. rewrite E in Hl.
  symmetry in Hl. apply lexcmp_Eq, (f_equal length) in Hl. by rewrite !length_fmap in Hl.
Qed.

Lemma l_strcmp_lexicographic_witness : exists c,
  @l_strcmp nocase_locale [97; 0; 98] [65; 0; 66; 0] = Ret c /\ (c ?= 0) = Lt.
Proof. apply (l_strcmp_lexicographic (H := nocase_locale) [97; 0; 98] [65; 0; 66; 0]). apply nocase_ties. Defined.

(** In a locale that ignores some characters (here the hyphen) a tie can be
    between strings of different lengths, and the comparison of strings with
    NUL bytes leaves the shorter one. *)
Definition ignoring_locale : Locale :=
  {| strcoll a b := let sig := List.filter (fun c => negb (c =? 45)) in strcmp (sig a) (sig b) |}.

Theorem l_strcmp_leaves_string : @l_strcmp ignoring_locale (str "--" ++ [0; 97]) [0] = Undef.
Proof. reflexivity. Qed.
