(* ===== verification/StateFacts.v ===== *)
(** * Reasoning about the run-time state

    Equations that run the operations of the monad [M] on a state where the
    thread [L] is known, and what an update of a thread leaves alone. *)

From S2P Require Import Prelude Clib Opcodes Object Debug Table Auxlib State Barrier Func Tm Do.

(** ** The monad *)

Section monad.
Context {A B C : Type}.
Implicit Types (m : M A) (s : State).

Lemma m_bind_eq m (f : A -> M B) s a s1 : m s = Ok a s1 -> (m ≫= f) s = f a s1.
Proof. unfold mbind, M_bind. by intros ->. Qed.

Lemma m_bind_Ok m (f : A -> M B) s b s' :
  (m ≫= f) s = Ok b s' -> exists a s1, m s = Ok a s1 /\ f a s1 = Ok b s'.
Proof. unfold mbind, M_bind. destruct (m s) as [a s1| | | |]; try done. eauto. Qed.

Lemma m_bind_jump m (f : A -> M B) s L e s1 : m s = Jump L e s1 -> (m ≫= f) s = Jump L e s1.
Proof. unfold mbind, M_bind. by intros ->. Qed.

Lemma m_ret_bind (a : A) (f : A -> M B) s : (mret a ≫= f) s = f a s.
Proof. done. Qed.

Lemma m_bind_bind m (f : A -> M B) (k : B -> M C) s : ((m ≫= f) ≫= k) s = (m ≫= fun a => f a ≫= k) s.
Proof. unfold mbind, M_bind. by destruct (m s). Qed.

Lemma m_bind_ret_r m s : (m ≫= mret) s = m s.
Proof. unfold mbind, M_bind. by destruct (m s). Qed.
End monad.

(** ** Objects *)

Definition body_at (s : State) (r : Z) : option body := obj <$> heap s !! r.

(** Replace the body of the object [r]. *)
Definition put_body (r : Z) (b : body) (s : State) : State := set_heap (alter (set_obj b) r (heap s)) s.

(** Change the global state. *)
Definition set_globals (f : global_State -> global_State) (s : State) : State := set_G (f (G s)) s.

Lemma body_at_globals f s r : body_at (set_globals f s) r = body_at s r.
Proof. done. Qed.

(** The thread of address [L] *)
Definition th (s : State) (L : Z) : option lua_State :=
  match body_at s L with Some (OThread t) => Some t | _ => None end.

Abbreviation put L t := (put_body L (OThread t)).

Section objects.
Implicit Types (s : State) (r L : Z) (t : lua_State) (b : body).

Lemma body_at_put r r' b s : body_at (put_body r b s) r' = if decide (r = r') then (fun _ => b) <$> body_at s r' else body_at s r'.
Proof.
  unfold body_at, put_body. cbn. rewrite lookup_alter. repeat case_decide; subst; try done.
  by destruct (heap s !! r').
Qed.

Lemma put_put r b b' s : put_body r b (put_body r b' s) = put_body r b s.
Proof. unfold put_body, set_heap. cbn. by rewrite alter_alter_eq. Qed.

Lemma put_same r b s : body_at s r = Some b -> put_body r b s = s.
Proof.
  unfold body_at, put_body, set_heap. intros E. destruct s as [h g k]. cbn in *. f_equal. apply map_eq. intros i.
  rewrite lookup_alter. case_decide; [subst|done]. destruct (h !! i) as [[m b']|]; [|done]. cbn in *. by injection E as ->.
Qed.

Lemma set_body_eq r b s : is_Some (body_at s r) -> set_body r b s = Ok tt (put_body r b s).
Proof.
  unfold body_at, set_body, upd_object, object, put_body, mbind, M_bind. intros [b0 Hb].
  destruct (heap s !! r) as [o|] eqn:E; [|done]. cbn. unfold set_object. do 2 f_equal. apply map_eq. intros i.
  rewrite lookup_insert, lookup_alter. repeat case_decide; subst; try done. by rewrite E.
Qed.

Lemma th_body s L t : th s L = Some t -> body_at s L = Some (OThread t).
Proof. unfold th. destruct (body_at s L) as [[]|]; try done. by intros [= ->]. Qed.

Lemma th_put_eq L t s : is_Some (th s L) -> th (put L t s) L = Some t.
Proof. intros [t0 Ht]. unfold th. by rewrite body_at_put, decide_True, (th_body _ _ _ Ht). Qed.

Lemma th_put_ne L L' b s : L <> L' -> th (put_body L b s) L' = th s L'.
Proof. intros Hne. unfold th. by rewrite body_at_put, decide_False. Qed.

Lemma put_th s L t : th s L = Some t -> put L t s = s.
Proof. intros Ht. by apply put_same, th_body. Qed.

Lemma thread_th s L t : th s L = Some t -> thread L s = Ok t s.
Proof.
  unfold th, body_at, thread, gco2th, object, mbind, M_bind. destruct (heap s !! L) as [[m b]|]; [|done]. cbn.
  destruct b; try done. by intros [= ->].
Qed.

Lemma gco2uv_at s r uv : body_at s r = Some (OUpVal uv) -> gco2uv r s = Ok uv s.
Proof.
  unfold body_at, gco2uv, object, mbind, M_bind. destruct (heap s !! r) as [[m b]|]; [|done]. cbn. by intros [= ->].
Qed.

Lemma gco2h_at s r h : body_at s r = Some (OTable h) -> gco2h r s = Ok h s.
Proof.
  unfold body_at, gco2h, object, mbind, M_bind. destruct (heap s !! r) as [[m b]|]; [|done]. cbn. by intros [= ->].
Qed.

Lemma gco2cl_at s r c : body_at s r = Some (OClosure c) -> gco2cl r s = Ok c s.
Proof.
  unfold body_at, gco2cl, object, mbind, M_bind. destruct (heap s !! r) as [[m b]|]; [|done]. cbn. by intros [= ->].
Qed.
End objects.

(** ** Running on a known thread

    The state is [put L t s]: the thread [L] of [s] is now [t]. *)

Definition live (s : State) (L : Z) : Prop := is_Some (th s L).

Section run.
Variables (L : Z) (s : State).
Hypothesis Hl : live s L.
Context {A : Type}.
Implicit Types (t : lua_State).

Lemma p_thread t (k : lua_State -> M A) : (thread L ≫= k) (put L t s) = k t (put L t s).
Proof using Hl. apply m_bind_eq, thread_th. by apply th_put_eq. Qed.

Lemma p_field {B} t (f : lua_State -> B) (k : B -> M A) : (field L f ≫= k) (put L t s) = k (f t) (put L t s).
Proof using Hl. unfold field. rewrite m_bind_bind, p_thread. done. Qed.

Lemma p_upd_last t f : upd L f (put L t s) = Ok tt (put L (f t) s).
Proof using Hl.
  unfold upd. rewrite (m_bind_eq _ _ _ _ _ (thread_th _ _ _ (th_put_eq L t s Hl))).
  rewrite set_body_eq, put_put; [done|]. rewrite body_at_put, decide_True by done.
  destruct Hl as [t0 H0]. rewrite (th_body _ _ _ H0). cbn. eauto.
Qed.

Lemma p_upd t f (k : unit -> M A) : (upd L f ≫= k) (put L t s) = k tt (put L (f t) s).
Proof using Hl. apply m_bind_eq, p_upd_last. Qed.

Lemma p_stk t i v (k : TValue -> M A) : getZ (stack t) i = Some v -> (stk L i ≫= k) (put L t s) = k v (put L t s).
Proof using Hl. intros Hv. unfold stk. rewrite m_bind_bind, p_thread. by rewrite Hv. Qed.

Lemma p_setstk_last t i v :
  0 <= i < stacksize t -> setstk L i v (put L t s) = Ok tt (put L (set_stack (setZ (stack t) i v) t) s).
Proof using Hl.
  intros Hi. unfold setstk. destruct (getZ_is_Some (stack t) i Hi) as [x Hx].
  rewrite (m_bind_eq _ _ _ _ _ (thread_th _ _ _ (th_put_eq L t s Hl))), Hx. cbn [valid].
  rewrite m_ret_bind. apply p_upd_last.
Qed.

Lemma p_setstk t i v (k : unit -> M A) :
  0 <= i < stacksize t -> (setstk L i v ≫= k) (put L t s) = k tt (put L (set_stack (setZ (stack t) i v) t) s).
Proof using Hl. intros Hi. by apply m_bind_eq, p_setstk_last. Qed.

Lemma p_get_ci t i c (k : CallInfo -> M A) : getZ (base_ci t) i = Some c -> (get_ci L i ≫= k) (put L t s) = k c (put L t s).
Proof using Hl. intros Hv. unfold get_ci. rewrite m_bind_bind, p_thread. by rewrite Hv. Qed.
End run.

Section run2.
Variables (L : Z) (s : State).
Hypothesis Hl : live s L.
Context {A : Type}.
Implicit Types (t : lua_State).

Lemma p_upd_ci_last t i c f :
  getZ (base_ci t) i = Some c ->
  upd_ci L i f (put L t s) = Ok tt (put L (set_base_ci (setZ (base_ci t) i (f c)) t) s).
Proof using Hl. intros Hc. unfold upd_ci. rewrite (p_get_ci _ _ Hl t i c) by done. by rewrite (p_upd_last _ _ Hl). Qed.

Lemma p_upd_ci t i c f (k : unit -> M A) :
  getZ (base_ci t) i = Some c ->
  (upd_ci L i f ≫= k) (put L t s) = k tt (put L (set_base_ci (setZ (base_ci t) i (f c)) t) s).
Proof using Hl. intros Hc. by apply m_bind_eq, p_upd_ci_last. Qed.
End run2.

(** The same on a state that is given with the value of its thread *)
Section run3.
Variables (L : Z) (s : State) (t : lua_State).
Hypothesis Ht : th s L = Some t.
Context {A : Type}.

Lemma th_live : live s L.
Proof using Ht. by exists t. Qed.

Lemma s_thread (k : lua_State -> M A) : (thread L ≫= k) s = k t s.
Proof using Ht. by apply m_bind_eq, thread_th. Qed.

Lemma s_field {B} (f : lua_State -> B) (k : B -> M A) : (field L f ≫= k) s = k (f t) s.
Proof using Ht. unfold field. rewrite m_bind_bind, s_thread. done. Qed.

Lemma s_upd f (k : unit -> M A) : (upd L f ≫= k) s = k tt (put L (f t) s).
Proof using Ht. rewrite <- (put_th _ _ _ Ht) at 1. apply p_upd, th_live. Qed.

Lemma s_stk i v (k : TValue -> M A) : getZ (stack t) i = Some v -> (stk L i ≫= k) s = k v s.
Proof using Ht. intros Hv. unfold stk. rewrite m_bind_bind, s_thread. by rewrite Hv. Qed.
End run3.

(** An update of an object that keeps its body *)
Lemma upd_object_bodies r f s :
  (forall o, obj (f o) = obj o) -> is_Some (body_at s r) ->
  exists s', upd_object r f s = Ok tt s' /\ (forall r', body_at s' r' = body_at s r') /\ G s' = G s /\ brk s' = brk s.
Proof.
  intros Hf [b Hb]. unfold upd_object, object, set_object, mbind, M_bind, body_at in *.
  destruct (heap s !! r) as [o|] eqn:E; [|done]. cbn. eexists. split; [reflexivity|]. split; [|done].
  intros r'. unfold body_at. cbn. rewrite lookup_insert. case_decide; [subst|done]. rewrite E. cbn. by rewrite Hf.
Qed.

(** Run the operations on the thread whose state is known, [Hl] being its
    liveness. *)
Ltac mrun Hl :=
  repeat (rewrite ?m_bind_bind, ?m_ret_bind, ?(p_thread _ _ Hl), ?(p_field _ _ Hl), ?(p_upd _ _ Hl), ?(p_upd_last _ _ Hl); cbv beta).

(** * Objects of the heap: kinds and marks

    Marking changes colours and the lists of the collector, but no object;
    it succeeds on a heap whose references have the kind of what they refer
    to. *)


(** ** Bits *)

Lemma white_bit n : Z.testbit WHITEBITS n = (n =? 0) || (n =? 1).
Proof.
  change WHITEBITS with 3. destruct (Z.eqb_spec n 0) as [->|]; [done|]. destruct (Z.eqb_spec n 1) as [->|]; [done|].
  destruct (Z.ltb_spec n 0); [by rewrite Z.testbit_neg_r|]. apply Z.bits_above_log2; [lia|]. cbn. lia.
Qed.

Lemma isdead_spec g o :
  isdead g o = false <-> (forall n, n = 0 \/ n = 1 -> Z.testbit (marked o) n = true -> Z.testbit (currentwhite g) n = true).
Proof.
  unfold isdead, otherwhite. rewrite negb_false_iff, Z.eqb_eq. split.
  - intros E n Hn Hm. assert (Hb : Z.testbit (Z.land (Z.land (marked o) (Z.lxor (currentwhite g) WHITEBITS)) WHITEBITS) n = false)
      by (rewrite E; apply Z.bits_0).
    rewrite !Z.land_spec, Z.lxor_spec, Hm, white_bit in Hb. by destruct Hn as [-> | ->], (Z.testbit (currentwhite g) _).
  - intros Hn. apply Z.bits_inj_0. intros m. rewrite !Z.land_spec, Z.lxor_spec, white_bit.
    destruct (Z.eqb_spec m 0) as [->|]; [|destruct (Z.eqb_spec m 1) as [->|]; [|apply andb_false_r]]; cbn [orb];
      rewrite andb_true_r; (destruct (Z.testbit (marked o) _) eqn:E; [|done]); (rewrite (Hn _ ltac:(by left) E) || rewrite (Hn _ ltac:(by right) E)); done.
Qed.

(** The object of address [r] is not one that the last cycle found dead. *)
Definition alive (s : State) (r : Z) : Prop := forall o, heap s !! r = Some o -> isdead (G s) o = false.

(** The objects of [s'] are those of [s], up to their marks, and no object
    has died. *)
Record same_objs (s s' : State) : Prop := {
so_body : forall r, body_at s' r = body_at s r;
so_white : currentwhite (G s') = currentwhite (G s);
so_alive : forall r, alive s r -> alive s' r
}.

(** [m] ends, and changes no object. *)
Definition marks (m : M unit) (s : State) : Prop := exists s', m s = Ok tt s' /\ same_objs s s'.

Lemma same_objs_refl s : same_objs s s.
Proof. done. Qed.

Lemma same_objs_trans s1 s2 s3 : same_objs s1 s2 -> same_objs s2 s3 -> same_objs s1 s3.
Proof.
  intros [B1 W1 A1] [B2 W2 A2]. split; [|congruence|auto]. intros r. by rewrite B2.
Qed.

Lemma same_objs_th s s' L : same_objs s s' -> th s' L = th s L.
Proof. intros Hs. unfold th. by rewrite (so_body _ _ Hs). Qed.

(** ** Kinds *)

(** A reference leads to an object of its kind. *)
Definition val_ok (s : State) (v : TValue) : Prop :=
  match v with
  | VTable r => exists h, body_at s r = Some (OTable h)
  | VFunction r => exists c, body_at s r = Some (OClosure c)
  | VUserdata r => exists u, body_at s r = Some (OUdata u)
  | VThread r => exists t, body_at s r = Some (OThread t)
  | _ => True
  end.

(** The environment and the metatable of a userdata are tables. *)
Definition udata_ok (s : State) : Prop := forall r u, body_at s r = Some (OUdata u) ->
  val_ok s (VTable (uv_env u)) /\ forall mt, uv_metatable u = Some mt -> val_ok s (VTable mt).

Lemma val_ok_same s s' v : same_objs s s' -> val_ok s v -> val_ok s' v.
Proof. intros Hs. destruct v; cbn; try done; by rewrite (so_body _ _ Hs). Qed.

Lemma udata_ok_same s s' : same_objs s s' -> udata_ok s -> udata_ok s'.
Proof.
  intros Hs Hu r u E. rewrite (so_body _ _ Hs) in E. destruct (Hu r u E) as [He Hm]. split; [by eapply val_ok_same|].
  intros mt Hmt. eapply val_ok_same; [exact Hs|]. by apply Hm.
Qed.

(** ** Operations on marks and lists *)

Lemma marks_bind (m : M unit) (k : unit -> M unit) s :
  marks m s -> (forall s1, same_objs s s1 -> marks (k tt) s1) -> marks (m ≫= k) s.
Proof.
  intros (s1 & E & H1) Hk. destruct (Hk s1 H1) as (s2 & E2 & H2). exists s2.
  rewrite (m_bind_eq _ _ _ _ _ E). split; [done|]. by eapply same_objs_trans.
Qed.

Lemma marks_ret s : marks (mret tt) s.
Proof. by exists s. Qed.

Lemma marks_ret_bind {A} (a : A) (k : A -> M unit) s : marks (k a) s -> marks (mret a ≫= k) s.
Proof. done. Qed.

Lemma marks_assoc {A B} (m : M A) (f : A -> M B) (k : B -> M unit) s :
  marks (m ≫= fun a => f a ≫= k) s -> marks ((m ≫= f) ≫= k) s.
Proof. unfold marks. by rewrite m_bind_bind. Qed.

Lemma marks_object r s (k : GCObject -> M unit) :
  is_Some (body_at s r) -> (forall o, Some (obj o) = body_at s r -> marks (k o) s) -> marks (object r ≫= k) s.
Proof.
  unfold body_at, object, mbind, M_bind, marks. intros [b Hb] Hk. destruct (heap s !! r) as [o|] eqn:E; [|done].
  cbn. by apply (Hk o).
Qed.

Lemma marks_modG f s : (forall g, currentwhite (f g) = currentwhite g) -> marks (modG f) s.
Proof.
  intros Hf. eexists. split; [reflexivity|]. split; [done|apply Hf|]. intros r Ha o Ho. cbn in *.
  specialize (Ha o Ho). unfold isdead, otherwhite in *. by rewrite Hf.
Qed.

Lemma marks_getG s (k : global_State -> M unit) : marks (k (G s)) s -> marks (getG ≫= k) s.
Proof. done. Qed.

(** An update that keeps the body, and lets no object die *)
Definition recolours (g : global_State) (f : GCObject -> GCObject) : Prop :=
  forall o, obj (f o) = obj o /\ (isdead g o = false -> isdead g (f o) = false).

Lemma marks_upd r f s : recolours (G s) f -> is_Some (body_at s r) -> marks (upd_object r f) s.
Proof.
  intros Hf [b Hb]. unfold marks, upd_object, object, set_object, mbind, M_bind, body_at in *.
  destruct (heap s !! r) as [o|] eqn:E; [|done]. cbn. eexists. split; [reflexivity|]. split; [|done|].
  - intros r'. unfold body_at. cbn. rewrite lookup_insert. case_decide; [subst|done]. rewrite E. cbn. by rewrite (proj1 (Hf o)).
  - intros r' Ha o' Ho'. cbn in *. rewrite lookup_insert in Ho'. case_decide; [subst|by apply Ha].
    injection Ho' as <-. by apply Hf, Ha.
Qed.

Lemma white2gray_recolours g : recolours g white2gray.
Proof.
  intros o. split; [done|]. intros _. apply isdead_spec. intros n Hn. cbn. unfold resetbits.
  rewrite Z.land_spec. by destruct Hn as [-> | ->]; rewrite andb_false_r.
Qed.

Lemma gray2black_recolours g : recolours g gray2black.
Proof.
  intros o. split; [done|]. rewrite !isdead_spec. intros Hd n Hn Hb. cbn in Hb. unfold l_setbit, setbits in Hb.
  rewrite Z.lor_spec in Hb. apply Hd; [done|]. apply orb_true_iff in Hb as [Hb|Hb]; [done|].
  by destruct Hn as [-> | ->].
Qed.

Lemma makewhite_recolours g : recolours g (makewhite g).
Proof.
  intros o. split; [done|]. intros _. apply isdead_spec. intros n Hn Hb. unfold makewhite, luaC_white, u8 in Hb. cbn in Hb.
  rewrite Z.mod_pow2_bits_low in Hb by (destruct Hn; lia). rewrite Z.lor_spec, Z.land_spec in Hb.
  rewrite Z.mod_pow2_bits_low in Hb by (destruct Hn; lia). rewrite Z.land_spec in Hb.
  apply orb_true_iff in Hb as [Hb|Hb]; apply andb_true_iff in Hb as [Hb Hw]; [|done].
  by destruct Hn as [-> | ->].
Qed.

#[local] Hint Resolve white2gray_recolours gray2black_recolours makewhite_recolours : core.

(** ** Marking an object *)

Lemma marks_push_gray r s : marks (push_gray r) s.
Proof. by apply marks_modG. Qed.

Lemma reallymark_plain depth r b s :
  body_at s r = Some b -> (match b with OClosure _ | OTable _ | OThread _ => True | _ => False end) ->
  marks (reallymark (S depth) r) s.
Proof.
  intros Hb Hk. cbn [reallymark]. apply marks_bind; [apply marks_upd; [done|by rewrite Hb]|].
  intros s1 H1. apply marks_object; [by rewrite (so_body _ _ H1), Hb|]. intros o Ho. rewrite (so_body _ _ H1), Hb in Ho. injection Ho as ->.
  destruct b; try done; apply marks_push_gray.
Qed.

(** Mark the object [r] when it is white. *)
Lemma marks_if_white m r s : is_Some (body_at s r) -> marks m s -> marks (o ← object r; if iswhite o then m else mret tt) s.
Proof. intros Hb Hm. apply marks_object; [done|]. intros o _. destruct (iswhite o); [done|apply marks_ret]. Qed.

Lemma reallymark_udata depth r u s :
  body_at s r = Some (OUdata u) -> udata_ok s -> marks (reallymark (S (S depth)) r) s.
Proof.
  intros Hb Hok. destruct (Hok r u Hb) as [[he He] Hm]. cbn [reallymark].
  apply marks_bind; [apply marks_upd; [done|by rewrite Hb]|]. intros s1 H1.
  apply marks_object; [by rewrite (so_body _ _ H1), Hb|]. intros o Ho. rewrite (so_body _ _ H1), Hb in Ho. injection Ho as ->.
  apply marks_bind; [apply marks_upd; [done|by rewrite (so_body _ _ H1), Hb]|]. intros s2 H2.
  assert (H02 : same_objs s s2) by (by eapply same_objs_trans).
  apply marks_bind.
  - destruct (uv_metatable u) as [mt|] eqn:Emt; [|apply marks_ret]. destruct (Hm mt eq_refl) as [hm Hmt].
    apply marks_if_white; [by rewrite (so_body _ _ H02), Hmt|]. eapply reallymark_plain; [by rewrite (so_body _ _ H02)|done].
  - intros s3 H3. assert (H03 : same_objs s s3) by (by eapply same_objs_trans).
    apply marks_if_white; [by rewrite (so_body _ _ H03), He|]. eapply reallymark_plain; [by rewrite (so_body _ _ H03)|done].
Qed.

(** Marking what a value refers to *)
Lemma reallymark_value depth v r s :
  gcvalue v = Some r -> val_ok s v -> udata_ok s -> marks (reallymark (S (S depth)) r) s.
Proof.
  intros Hv Hok Hu. destruct v; try discriminate Hv; injection Hv as ->; destruct Hok as [x Hx].
  - by eapply reallymark_plain.
  - by eapply reallymark_plain.
  - by eapply reallymark_udata.
  - by eapply reallymark_plain.
Qed.

Lemma val_ok_body s v r : gcvalue v = Some r -> val_ok s v -> is_Some (body_at s r).
Proof. intros Hv Hok. destruct v; try discriminate Hv; injection Hv as ->; destruct Hok as [x ->]; done. Qed.

Lemma luaC_barrier_marks p v s :
  is_Some (body_at s p) -> val_ok s v -> udata_ok s -> marks (luaC_barrier p v) s.
Proof.
  intros Hp Hv Hu. unfold luaC_barrier, valiswhite. destruct (gcvalue v) as [r|] eqn:Er.
  - apply marks_assoc, marks_object; [by eapply val_ok_body|]. intros o _. apply marks_ret_bind.
    apply marks_object; [done|]. intros op _. destruct (_ && _); [|apply marks_ret].
    unfold luaC_barrierf. apply marks_getG. destruct (_ =? _).
    + by eapply (reallymark_value 1).
    + by apply marks_upd.
  - apply marks_ret_bind, marks_object; [done|]. intros op _. apply marks_ret.
Qed.
