(* ===== verification/GcTable.v ===== *)
(** * Tables under the collector

    The collector turns the keys of empty nodes into dead keys and removes
    entries of weak tables; a table stays well formed, and keeps the tag
    methods that are looked up in it. *)

From S2P Require Import Prelude Clib Opcodes Object Debug Table TableNum TableSet TableOps Auxlib.
From S2P Require Import State Barrier Func Tm Do StateFacts.

#[local] Opaque mpos arrayindex.

Section tables.
Context `{Host}.

Definition table_wf (h : Table) : Prop := exists cs, tinv h cs.

(** [n'] is [n], or [n] without its value, or with a dead key as well. *)
Record cleared (n n' : Node) : Prop := {
cd_val : gval n' = gval n \/ gval n' = VNil;
cd_next : gnext n' = gnext n;
cd_key : gkey n' = gkey n \/ gval n' = VNil /\ exists k, gkey n = LiveKey k /\ gkey n' = DeadKey k /\ k <> VNil
}.

Lemma cleared_orig n n' : cleared n n' -> orig (gkey n') = orig (gkey n).
Proof. intros [_ _ [->|(_ & k & -> & -> & _)]]; done. Qed.

Lemma cleared_unused n n' : cleared n n' -> unused n' <-> unused n.
Proof.
  intros [_ _ [E|(_ & k & E1 & E2 & Hk)]]; unfold unused; [by rewrite E|]. rewrite E1, E2.
  split; [done|]. intros [=]. done.
Qed.

Lemma cleared_refl n : cleared n n.
Proof. split; auto. Qed.

Lemma bury_cleared n : cleared n (bury n).
Proof. destruct (bury_buried n) as [Hv Hn Hk]. split; [by left|done|]. by rewrite Hv. Qed.

Lemma removeentry_cleared n : cleared n (removeentry (set_gval VNil n)).
Proof.
  pose proof (bury_buried (set_gval VNil n)) as [Hv Hn Hk].
  change (bury (set_gval VNil n)) with (removeentry (set_gval VNil n)) in *. cbn [gval gnext gkey set_gval] in *.
  split; [by right; rewrite Hv|by rewrite Hn|]. destruct Hk as [Hk|(_ & k & H1 & H2 & H3)]; [by left|].
  right. split; [by rewrite Hv|]. by exists k.
Qed.

(** ** A table with entries removed is well formed. *)

Record table_cleared (t t' : Table) : Prop := {
tc_array : Forall2 (fun v v' => v' = v \/ v' = VNil) (array t) (array t');
tc_nodes : Forall2 cleared (node t) (node t');
tc_rest : metatable t' = metatable t /\ lsizenode t' = lsizenode t /\ dummy t' = dummy t /\ lastfree t' = lastfree t
}.

Section cleared_table.
Variables (t t' : Table) (cs : list (list Z)).
Hypothesis Hc : table_cleared t t'.
Hypothesis Hi : tinv t cs.

Lemma tc_back i n' : getZ (node t') i = Some n' -> exists n, getZ (node t) i = Some n /\ cleared n n'.
Proof using Hc.
  unfold getZ. destruct (0 <=? i); [|done]. intros E.
  destruct (Forall2_lookup_r _ _ _ _ _ (tc_nodes _ _ Hc) E) as (n & Hn & Hcl). eauto.
Qed.

Lemma tc_forth i n : getZ (node t) i = Some n -> exists n', getZ (node t') i = Some n' /\ cleared n n'.
Proof using Hc.
  unfold getZ. destruct (0 <=? i); [|done]. intros E.
  destruct (Forall2_lookup_l _ _ _ _ _ (tc_nodes _ _ Hc) E) as (n' & Hn & Hcl). eauto.
Qed.

Lemma tc_node_length : lenZ (node t') = lenZ (node t).
Proof using Hc. unfold lenZ. by rewrite (list.Forall2_length _ _ _ (tc_nodes _ _ Hc)). Qed.

Lemma tc_sizearray : sizearray t' = sizearray t.
Proof using Hc. unfold sizearray, lenZ. by rewrite (list.Forall2_length _ _ _ (tc_array _ _ Hc)). Qed.

Lemma tc_mpos k : mpos t' k = mpos t k.
Proof using Hc. apply mpos_lsizenode, (tc_rest _ _ Hc). Qed.

Lemma tc_in_array k : in_array t' k <-> in_array t k.
Proof using Hc. unfold in_array. by rewrite tc_sizearray. Qed.

Lemma tc_entry i k n' : entry t' cs i k n' -> exists n, entry t cs i k n.
Proof using Hc.
  intros (H1 & H2 & H3 & H4). destruct (tc_back _ _ H1) as (n & Hn & [_ _ [E|(_ & k' & _ & E & _)]]).
  - exists n. rewrite tc_mpos in H4. rewrite E in H2. by apply entry_key.
  - congruence.
Qed.

Lemma tc_sized : sized t'.
Proof using Hc Hi.
  destruct (ti_size _ _ Hi) as [H1 H2]. destruct (tc_rest _ _ Hc) as (_ & El & _). split.
  - by rewrite El.
  - by rewrite tc_node_length, El.
Qed.

Lemma tc_keys i n' : getZ (node t') i = Some n' -> ~ unused n' ->
  good_key (orig (gkey n')) /\ ~ in_array t' (orig (gkey n')) /\
  exists m, getZ (node t') (mpos t' (orig (gkey n'))) = Some m /\ ~ unused m.
Proof using Hc Hi.
  intros Hn' Hu. destruct (tc_back _ _ Hn') as (n & Hn & Hb).
  rewrite (cleared_unused _ _ Hb) in Hu. rewrite (cleared_orig _ _ Hb), tc_mpos, tc_in_array.
  destruct (ti_keys _ _ Hi i n Hn Hu) as (H1 & H2 & m & Hm & Hmu). split; [done|]. split; [done|].
  destruct (tc_forth _ _ Hm) as (m' & Hm' & Hb'). exists m'. by rewrite (cleared_unused _ _ Hb').
Qed.

Lemma tc_brent i n' : getZ (node t') i = Some n' -> ~ unused n' -> reach cs (mpos t' (orig (gkey n'))) i ->
  exists m, getZ (node t') (mpos t' (orig (gkey n'))) = Some m /\ mpos t' (orig (gkey m)) = mpos t' (orig (gkey n')).
Proof using Hc Hi.
  intros Hn' Hu. destruct (tc_back _ _ Hn') as (n & Hn & Hb).
  rewrite (cleared_unused _ _ Hb) in Hu. rewrite (cleared_orig _ _ Hb), tc_mpos. intros Hr.
  destruct (ti_brent _ _ Hi i n Hn Hu Hr) as (m & Hm & E).
  destruct (tc_forth _ _ Hm) as (m' & Hm' & Hb'). exists m'. split; [done|].
  by rewrite (cleared_orig _ _ Hb'), !tc_mpos.
Qed.

Lemma tc_ghost i j k n' m' : entry t' cs i k n' -> getZ (node t') j = Some m' -> gkey m' = DeadKey k ->
  reach cs (mpos t' k) j -> ~ reach cs j i.
Proof using Hc Hi.
  intros H1 Hm' Hk. destruct (tc_entry _ _ _ H1) as (n & H1').
  destruct (tc_back _ _ Hm') as (m & Hm & [_ _ [E|(_ & k2 & E1 & E2 & Hk2)]]); rewrite tc_mpos.
  - apply (ti_ghost _ _ Hi i j k n m); [done|done|congruence].
  - assert (k2 = k) as -> by congruence. intros Hr _.
    assert (i = j) as -> by (eapply (ti_unique _ _ Hi i j k k n m); [done|by apply entry_key|done]).
    destruct H1 as (H3 & H4 & _). congruence.
Qed.

Lemma cleared_tinv : tinv t' cs.
Proof using Hc Hi.
  split.
  - apply tc_sized.
  - destruct (ti_chains _ _ Hi) as [H1 H2]. split.
    + eapply list.Forall_impl; [exact H1|]. intros c. apply linked_frame. intros x n _ Hn.
      destruct (tc_forth _ _ Hn) as (n' & Hn' & []). eauto.
    + by rewrite (idx_length _ (node t) tc_node_length).
  - intros i n' Hn' Hu. destruct (tc_back _ _ Hn') as (n & Hn & Hb).
    apply (cleared_unused _ _ Hb) in Hu. destruct (ti_unused _ _ Hi _ _ Hn Hu) as [Hin Hv].
    split; [done|]. destruct (cd_val _ _ Hb) as [->|]; done.
  - apply tc_keys.
  - intros i n' v Hn' Hk. destruct (tc_back _ _ Hn') as (n & Hn & [Hv _ [E|(E & _)]]); [|done].
    rewrite E in Hk. destruct Hv as [->|]; [|done]. by eapply ti_dead.
  - apply tc_brent.
  - intros i n' Hn' Hv. destruct (tc_back _ _ Hn') as (n & Hn & Hb).
    rewrite (cleared_orig _ _ Hb), tc_mpos. apply (ti_visible _ _ Hi); [done|].
    destruct (cd_val _ _ Hb) as [<-|]; done.
  - intros i j k k' n n' H1 H2. destruct (tc_entry _ _ _ H1) as (m & H1').
    destruct (tc_entry _ _ _ H2) as (m' & H2'). by apply (ti_unique _ _ Hi i j k k' m m').
  - apply tc_ghost.
  - destruct (tc_rest _ _ Hc) as (_ & _ & Ed & Ef). rewrite Ed, Ef, tc_node_length.
    intros Hd. destruct (ti_free _ _ Hi Hd) as [H1 H2]. split; [done|].
    intros i n' Hl Hn'. destruct (tc_back _ _ Hn') as (n & Hn & Hb).
    rewrite (cleared_unused _ _ Hb). by eapply H2.
  - destruct (tc_rest _ _ Hc) as (_ & _ & Ed & Ef). rewrite Ed, Ef. intros Hd.
    destruct (ti_dummy _ _ Hi Hd) as [H1 H2]. split; [|done].
    pose proof (tc_nodes _ _ Hc) as Hns. rewrite H1 in Hns. apply list.Forall2_cons_inv_l in Hns as (n' & l' & Hd1 & Hl & ->).
    apply Forall2_nil_inv_l in Hl as ->. f_equal. destruct Hd1 as [Hv Hn [Hk|(_ & k & [= <-] & _ & Hk)]]; [|done].
    destruct n' as [v' k' x']. cbn in *. subst. by destruct Hv as [-> | ->].
  - rewrite tc_sizearray. apply (ti_array _ _ Hi).
Qed.
End cleared_table.

Lemma table_cleared_wf t t' : table_cleared t t' -> table_wf t -> table_wf t'.
Proof. intros Hc [cs Hi]. exists cs. by apply (cleared_tinv t). Qed.

(** ** Tag methods *)

(** What [fasttm] finds *)
Definition tm_lookup (h : Table) (e : TMS) : option TValue :=
  if testbits (flags h) (Z.shiftl 1 (tms_num e)) then None
  else match (r ← luaH_getstr h (tmname e); load h r) with
       | Ret v => if ttisnil v then None else Some v
       | _ => None
       end.

Lemma getstr_assoc h s : table_wf h -> (r ← luaH_getstr h s; load h r) = Ret (assoc (elems h) (VString s)).
Proof.
  intros [cs Hi]. destruct (luaH_getstr_found _ _ s Hi) as (r & E & Hf). rewrite E. cbn [mbind outcome_bind].
  by apply (found_assoc _ cs).
Qed.

Lemma tm_lookup_assoc h e : table_wf h ->
  tm_lookup h e = if testbits (flags h) (Z.shiftl 1 (tms_num e)) then None
    else let v := assoc (elems h) (VString (tmname e)) in if ttisnil v then None else Some v.
Proof. intros Hw. unfold tm_lookup. by rewrite getstr_assoc. Qed.

Lemma tm_lookup_flags h h' e :
  table_wf h -> table_wf h' -> elems h' = elems h ->
  testbits (flags h') (Z.shiftl 1 (tms_num e)) = testbits (flags h) (Z.shiftl 1 (tms_num e)) \/ tm_lookup h e = None /\
    testbits (flags h') (Z.shiftl 1 (tms_num e)) = true ->
  tm_lookup h' e = tm_lookup h e.
Proof.
  intros Hw Hw' E [Hf|[Hn Hf]]; rewrite (tm_lookup_assoc _ _ Hw'); rewrite Hf; [|done].
  by rewrite (tm_lookup_assoc _ _ Hw), E.
Qed.

(** ** Marking a table

    The table [h'] is [h] after steps of the mark phase: keys of empty nodes
    may be dead, and absent tag methods may be in the cache. *)
Record table_le (h h' : Table) : Prop := {
tl_nodes : Forall2 (fun n n' => n' = n \/ n' = bury n) (node h) (node h');
tl_array : array h' = array h;
tl_rest : metatable h' = metatable h /\ lsizenode h' = lsizenode h /\ dummy h' = dummy h /\ lastfree h' = lastfree h;
tl_tm : table_wf h -> forall e, e = TM_GC \/ e = TM_MODE -> tm_lookup h' e = tm_lookup h e
}.

Lemma bury_bury n : bury (bury n) = bury n.
Proof.
  unfold bury at 2. destruct (ttisnil (gval n)) eqn:E; [|unfold bury; by rewrite E]. unfold bury at 1.
  destruct (bury_buried n) as [Hv _ _]. unfold bury in Hv. rewrite E in Hv. rewrite Hv, E.
  unfold bury. rewrite E. unfold removeentry at 2 3. destruct (gkey n) as [k|k] eqn:Ek; [|unfold removeentry; by rewrite Ek].
  destruct (iscollectable k) eqn:Ec; [done|]. unfold removeentry. by rewrite Ek, Ec.
Qed.

Lemma table_le_cleared h h' : table_le h h' -> table_cleared h h'.
Proof.
  intros [Hn Ha Hr _]. split; [| |done].
  - rewrite Ha. apply Forall2_same_length_lookup_2; [done|]. intros i v v' Hv Hv'. left. congruence.
  - eapply list.Forall2_impl; [exact Hn|]. intros n n' [-> | ->]; [apply cleared_refl|apply bury_cleared].
Qed.

Lemma table_le_wf h h' : table_le h h' -> table_wf h -> table_wf h'.
Proof. intros Hl. by apply table_cleared_wf, table_le_cleared. Qed.

Lemma table_le_refl h : table_le h h.
Proof.
  split; [|done|done|done]. apply Forall2_same_length_lookup_2; [done|]. intros i v v' Hv Hv'. left. congruence.
Qed.

Lemma table_le_trans h1 h2 h3 : table_le h1 h2 -> table_le h2 h3 -> table_le h1 h3.
Proof.
  intros H12 H23. destruct (tl_rest _ _ H12) as (? & ? & ? & ?), (tl_rest _ _ H23) as (? & ? & ? & ?). split.
  - eapply list.Forall2_trans; [|apply (tl_nodes _ _ H12)|apply (tl_nodes _ _ H23)].
    intros n n' n'' [-> | ->] [-> | ->]; auto. right. apply bury_bury.
  - by rewrite (tl_array _ _ H23), (tl_array _ _ H12).
  - split_and!; congruence.
  - intros Hw e He. rewrite (tl_tm _ _ H23 (table_le_wf _ _ H12 Hw) e He). by apply (tl_tm _ _ H12).
Qed.

Lemma elems_node_bury l l' : Forall2 (fun n n' => n' = n \/ n' = bury n) l l' -> elems_node l' = elems_node l.
Proof.
  intros Hf. unfold elems_node. induction Hf as [|n n' l l' Hn Hf IH]; [done|]. cbn.
  assert (E : node_entry n' = node_entry n).
  { destruct Hn as [-> | ->]; [done|]. unfold bury. destruct (ttisnil (gval n)) eqn:En; [|done].
    pose proof (bu_val _ _ (bury_buried n)) as Hv. unfold bury in Hv. rewrite En in Hv.
    unfold node_entry. by rewrite Hv, En. }
  rewrite E. destruct (node_entry n); by rewrite IH.
Qed.

Lemma clear_dead_le h : table_le h (clear_dead h).
Proof.
  assert (Hn : Forall2 (fun n n' => n' = n \/ n' = bury n) (node h) (node (clear_dead h))).
  { cbn. apply list.Forall2_fmap_r. apply Forall2_same_length_lookup_2; [done|]. intros i v v' Hv Hv'. right. assert (v' = v) as -> by congruence. done. }
  split; [done|done|done|]. intros Hw e _.
  assert (Hw' : table_wf (clear_dead h)) by (destruct Hw as [cs Hi]; exists cs; by apply clear_dead_tinv).
  apply tm_lookup_flags; [done|done| |by left]. unfold elems. f_equal. by apply elems_node_bury.
Qed.

(** The cache of absent tag methods *)

Lemma testbits_shiftl x n : 0 <= n -> testbits x (Z.shiftl 1 n) = Z.testbit x n.
Proof.
  intros Hn. unfold testbits. rewrite Z.shiftl_1_l. destruct (Z.testbit x n) eqn:E.
  - apply negb_true_iff, Z.eqb_neq. intros E0. assert (Z.testbit (Z.land x (2 ^ n)) n = true) by (rewrite Z.land_spec, E, Z.pow2_bits_true by done; done).
    rewrite E0, Z.bits_0 in *. done.
  - apply negb_false_iff, Z.eqb_eq, Z.bits_inj_0. intros m. rewrite Z.land_spec, Z.pow2_bits_eqb by done.
    destruct (Z.eqb_spec n m) as [<-|]; [by rewrite E|apply andb_false_r].
Qed.

Lemma cache_bit x n m : 0 <= n < 8 -> 0 <= m -> testbits (Z.lor x (u8 (Z.shiftl 1 n))) (Z.shiftl 1 m) = (n =? m) || testbits x (Z.shiftl 1 m).
Proof.
  intros Hn Hm. rewrite !testbits_shiftl by done. rewrite Z.lor_spec, Z.shiftl_1_l, orb_comm. f_equal.
  unfold u8. rewrite Z.mod_small; [apply Z.pow2_bits_eqb; lia|]. split; [lia|]. apply (Z.pow_lt_mono_r 2 n 8); lia.
Qed.

Lemma tms_num_inj e e' : tms_num e = tms_num e' -> e = e'.
Proof. by destruct e, e'. Qed.

Lemma cache_le h e : tms_num e < 8 -> table_wf h -> tm_lookup h e = None ->
  table_le h (with_flags (Z.lor (flags h) (u8 (Z.shiftl 1 (tms_num e)))) h).
Proof.
  intros He [cs Hi] Hn. pose proof (table_le_refl h) as [R1 R2 R3 _]. split; [done|done|done|].
  intros Hw e' _. apply tm_lookup_flags; [done| |done|].
  - apply (table_cleared_wf h); [|done]. split; [|apply (table_le_cleared _ _ (table_le_refl h))|done].
    apply (table_le_cleared _ _ (table_le_refl h)).
  - cbn [flags with_flags]. assert (0 <= tms_num e) by (by destruct e). assert (0 <= tms_num e') by (by destruct e').
    rewrite cache_bit by lia. destruct (Z.eqb_spec (tms_num e) (tms_num e')) as [E|]; [|by left].
    right. apply tms_num_inj in E as <-. done.
Qed.

Lemma fasttm_spec s mt h e :
  body_at s mt = Some (OTable h) -> table_wf h -> tms_num e < 8 ->
  exists s', fasttm (Some mt) e s = Ok (tm_lookup h e) s' /\
    (s' = s \/ exists h', table_le h h' /\ s' = put_body mt (OTable h') s).
Proof.
  intros Hb Hw He. unfold fasttm. rewrite (m_bind_eq _ _ _ _ _ (gco2h_at _ _ _ Hb)).
  destruct (testbits (flags h) _) eqn:Ef.
  { exists s. split; [|by left]. unfold tm_lookup. by rewrite Ef. }
  unfold luaT_gettm. rewrite (m_bind_eq _ _ _ _ _ (gco2h_at _ _ _ Hb)).
  assert (Eg : getstr_value h (tmname e) s = Ok (assoc (elems h) (VString (tmname e))) s)
    by (unfold getstr_value, pure; by rewrite getstr_assoc).
  rewrite (m_bind_eq _ _ _ _ _ Eg). pose proof (tm_lookup_assoc h e Hw) as El. rewrite Ef in El. cbn zeta in El.
  destruct (ttisnil _).
  - eexists. split.
    + rewrite (m_bind_eq _ _ _ _ _ (set_body_eq _ _ _ ltac:(by rewrite Hb))). by rewrite El.
    + right. eexists. split; [|reflexivity]. by apply cache_le.
  - exists s. split; [by rewrite El|by left].
Qed.
End tables.
