(* ===== verification/GcMark.v ===== *)
(** * The mark phase: references, colours and steps

    What an object refers to, when a heap is closed under references, and the
    relation between the states before and after a part of the mark phase: no
    reference is added, marked objects stay marked, and an object that is newly
    marked waits in the gray list or refers to marked objects only. *)

From S2P Require Import Prelude Clib Opcodes Object Debug Table TableOps Auxlib State Barrier Func Tm Do Vm Run Lstate Gc StateFacts GcTable.

Section mark.
Context {HM : Machine} {HH : Host} {HC : Cenv} {HK : Calling} {HS : Sizes}.
Implicit Types (s : State) (r k : Z) (b : body) (v : TValue).

(** ** References *)

(** The objects a list of values refers to *)
Definition vals (l : list TValue) : list Z := omap gcvalue l.

(** What a node refers to, without weak keys and values; the key of an empty
    node can come back into use without a barrier. *)
Definition node_refs (wk wv : bool) (n : Node) : list Z :=
  if ttisnil (gval n) then if wk || wv then [] else match gkey n with LiveKey k => vals [k] | DeadKey _ => [] end
  else (if wk then [] else vals [key2tval (gkey n)]) ++ (if wv then [] else vals [gval n]).

Definition table_refs (wk wv : bool) (h : Table) : list Z :=
  option_list (metatable h) ++
  if wk && wv then [] else (if wv then [] else vals (array h)) ++ mjoin (node_refs wk wv <$> node h).

(** The value of an upvalue *)
Definition uv_val s (uv : UpVal) : option TValue :=
  match uv with UClosed v => Some v | UOpen L lv => match th s L with Some t => getZ (stack t) lv | None => None end end.

(** What a body refers to; a table with weak bits is not a reason to refer to
    less here. *)
Definition body_refs s b : list Z :=
  match b with
  | OTable h => table_refs false false h
  | OUdata u => option_list (uv_metatable u) ++ [uv_env u]
  | OClosure (CClosure e _ l) => e :: vals l
  | OClosure (LClosure e _ l) => e :: omap id l
  | OUpVal uv => vals (option_list (uv_val s uv))
  | OThread t => vals (l_gt t :: take (Z.to_nat (top t)) (stack t))
  end.

Definition refs s r : list Z := match body_at s r with Some b => body_refs s b | None => [] end.

(** ** Well-formed heaps *)

Record thread_wf (t : lua_State) : Prop := {
tw_top : 0 <= top t;
tw_ci : 0 <= ci t < size_ci t;
tw_limit : stack_limit t < stacksize t
}.

(** Every reference of [b] leads to an object of its kind. *)
Definition body_ok s b : Prop :=
  match b with
  | OTable h =>
      table_wf h /\ (forall mt, metatable h = Some mt -> val_ok s (VTable mt)) /\ Forall (val_ok s) (array h) /\
      Forall (fun n => gval n <> VNil -> val_ok s (key2tval (gkey n)) /\ val_ok s (gval n)) (node h)
  | OUdata u => val_ok s (VTable (uv_env u)) /\ forall mt, uv_metatable u = Some mt -> val_ok s (VTable mt)
  | OClosure (CClosure e _ l) => val_ok s (VTable e) /\ Forall (val_ok s) l
  | OClosure (LClosure e _ l) =>
      val_ok s (VTable e) /\ Forall (fun u => exists r uv, u = Some r /\ body_at s r = Some (OUpVal uv)) l
  | OUpVal (UClosed v) => val_ok s v
  | OUpVal (UOpen L lv) =>
      exists t v, th s L = Some t /\ getZ (stack t) lv = Some v /\ lv <= stack_limit t /\ val_ok s v
  | OThread t => thread_wf t /\ val_ok s (l_gt t) /\ Forall (val_ok s) (take (Z.to_nat (top t)) (stack t))
  end.

Definition heap_closed s : Prop := forall r b, body_at s r = Some b -> body_ok s b.

(** ** Colours *)

Definition white s r : Prop := exists o, heap s !! r = Some o /\ iswhite o = true.
Definition nonwhite s r : Prop := exists o, heap s !! r = Some o /\ iswhite o = false.
Definition black s r : Prop := exists o, heap s !! r = Some o /\ iswhite o = false /\ isblack o = true.

Definition whites s : nat := size (filter (fun p : Z * GCObject => iswhite p.2 = true) (heap s)).

Lemma nonwhite_body s r : nonwhite s r -> is_Some (body_at s r).
Proof. intros (o & Ho & _). unfold body_at. by rewrite Ho. Qed.

Lemma body_colour s r b : body_at s r = Some b -> white s r \/ nonwhite s r.
Proof.
  unfold body_at, white, nonwhite. destruct (heap s !! r) as [o|]; [|done]. intros _. destruct (iswhite o) eqn:E; eauto.
Qed.

Lemma white_nonwhite s r : white s r -> nonwhite s r -> False.
Proof. intros (o & Ho & E) (o' & Ho' & E'). congruence. Qed.

(** Objects that wait in a list when they are gray *)
Definition traversable s r : Prop :=
  match body_at s r with Some (OTable _) | Some (OClosure _) | Some (OThread _) => True | _ => False end.

Definition open_upval s r : Prop := exists L lv, body_at s r = Some (OUpVal (UOpen L lv)).

(** All references of [r] are marked. *)
Definition marked_refs s r : Prop := forall k, k ∈ refs s r -> nonwhite s k.

(** [r] has been scanned, and a new reference in it meets a barrier. *)
Definition scanned s r : Prop := marked_refs s r /\ (black s r \/ open_upval s r).

(** ** Steps of the mark phase *)

(** [t'] is [t] with a smaller stack, or a part of it cleared. *)
Record thread_le (t t' : lua_State) : Prop := {
hl_rest : exists sl bc st, t' = set_stack_last sl (set_base_ci bc (set_stack st t));
hl_ci : take (Z.to_nat (ci t + 1)) (base_ci t') = take (Z.to_nat (ci t + 1)) (base_ci t);
hl_size : thread_wf t -> ci t < size_ci t' /\ stack_limit t < stacksize t';
hl_stack : forall i v, getZ (stack t') i = Some v -> getZ (stack t) i = Some v \/ top t <= i /\ v = VNil
}.

Definition body_le b b' : Prop :=
  match b with
  | OTable h => exists h', b' = OTable h' /\ table_le h h'
  | OThread t => exists t', b' = OThread t' /\ thread_le t t'
  | _ => b' = b
  end.

Definition is_open (o : GCObject) : Prop := exists L lv, obj o = OUpVal (UOpen L lv).
Definition is_table (o : GCObject) : Prop := exists h, obj o = OTable h.

(** [o'] is [o], perhaps marked; [B] are the objects that are being scanned. *)
Record mark_le (B : list Z) r (o o' : GCObject) : Prop := {
ml_body : body_le (obj o) (obj o');
ml_dim : forall n, 0 <= n < 2 -> Z.testbit (marked o') n = true -> Z.testbit (marked o) n = true;
ml_fixed : forall n, 5 <= n < 8 -> Z.testbit (marked o') n = Z.testbit (marked o) n;
ml_black : r ∉ B -> iswhite o = false -> isblack o = true -> isblack o' = true;
ml_upval : is_open o -> isblack o' = isblack o;
ml_both : isblack o' = true -> iswhite o' = true -> isblack o = true /\ iswhite o = true;
ml_weak : r ∉ B -> is_table o -> forall n, 3 <= n < 8 -> Z.testbit (marked o') n = Z.testbit (marked o) n
}.

Lemma testbits_white o : iswhite o = Z.testbit (marked o) 0 || Z.testbit (marked o) 1.
Proof.
  unfold iswhite, testbits. destruct (Z.testbit (marked o) 0 || Z.testbit (marked o) 1) eqn:E.
  - apply negb_true_iff, Z.eqb_neq. intros E0. apply orb_true_iff in E as [E|E].
    + assert (Hb : Z.testbit (Z.land (marked o) WHITEBITS) 0 = true) by (by rewrite Z.land_spec, E).
      by rewrite E0 in Hb.
    + assert (Hb : Z.testbit (Z.land (marked o) WHITEBITS) 1 = true) by (by rewrite Z.land_spec, E).
      by rewrite E0 in Hb.
  - apply orb_false_iff in E as [E0 E1]. apply negb_false_iff, Z.eqb_eq, Z.bits_inj_0. intros n.
    rewrite Z.land_spec, white_bit. destruct (Z.eqb_spec n 0) as [->|]; [by rewrite E0|].
    destruct (Z.eqb_spec n 1) as [->|]; [by rewrite E1|]. apply andb_false_r.
Qed.

Lemma ml_white B r o o' : mark_le B r o o' -> iswhite o = false -> iswhite o' = false.
Proof.
  intros Hm. rewrite !testbits_white, !orb_false_iff. intros [H0 H1].
  split; apply not_true_is_false; intros E; apply (ml_dim _ _ _ _ Hm) in E; [congruence|lia|congruence|lia].
Qed.

(** What the metatable of [r] says: that its keys ('k') or values ('v') are weak *)
Definition has_mode (mode : option TValue) : bool := mode_has 107 mode || mode_has 118 mode.

Definition moded s r (mode : option TValue) : Prop := exists h mt hm, body_at s r = Some (OTable h) /\ metatable h = Some mt /\
  body_at s mt = Some (OTable hm) /\ table_wf hm /\ tm_lookup hm TM_MODE = mode.

Definition weak_table s r : Prop := exists mode, moded s r mode /\ has_mode mode = true.

(** A weak table whose bits are those of its mode *)
Definition weak_moded s r : Prop := exists o mode, heap s !! r = Some o /\ moded s r mode /\ has_mode mode = true /\
  testbit (marked o) KEYWEAKBIT = mode_has 107 mode /\ testbit (marked o) VALUEWEAKBIT = mode_has 118 mode.

Lemma moded_weak s r : weak_moded s r -> weak_table s r.
Proof. intros (o & mode & _ & Hm & Hmode & _). by exists mode. Qed.

Lemma moded_table s r mode : moded s r mode -> exists h, body_at s r = Some (OTable h).
Proof. intros (h & _ & _ & Hb & _). eauto. Qed.

Lemma moded_unique s r m1 m2 : moded s r m1 -> moded s r m2 -> m1 = m2.
Proof. intros (h & mt & hm & H1 & H2 & H3 & _ & H4) (h' & mt' & hm' & H1' & H2' & H3' & _ & H4'). congruence. Qed.

(** The lists of the collector that objects wait in *)
Definition pending (g : global_State) : list Z := gray g ++ grayagain g ++ weak g.

(** [X] are the objects that are marked before their references. *)
Record mstep (X B : list Z) s s' : Prop := {
ms_none : forall r, body_at s r = None -> body_at s' r = None;
ms_mark : forall r o, heap s !! r = Some o -> exists o', heap s' !! r = Some o' /\ mark_le B r o o';
ms_new : forall r, nonwhite s' r -> nonwhite s r \/ r ∈ X \/ r ∈ gray (G s') \/ scanned s' r;
ms_gray : forall r, r ∈ gray (G s) -> r ∈ gray (G s');
ms_in : forall r, r ∈ pending (G s') -> r ∈ pending (G s) \/ nonwhite s' r /\ traversable s' r;
ms_weak_in : forall r, r ∈ weak (G s') -> r ∈ weak (G s) \/ r ∈ B /\ weak_table s' r;
ms_weakl : forall r, r ∈ weak (G s) -> r ∈ weak (G s');
ms_again : forall r, r ∈ grayagain (G s) -> r ∈ grayagain (G s');
ms_G : G s' = set_gray (gray (G s')) (set_grayagain (grayagain (G s')) (set_weak (weak (G s')) (G s)));
ms_count : (length (gray (G s')) + whites s' <= length (gray (G s)) + whites s)%nat;
ms_brk : brk s' = brk s
}.

Lemma thread_le_refl t : thread_le t t.
Proof.
  split; [|done| |by auto].
  - exists (stack_last t), (base_ci t), (stack t). by destruct t.
  - intros [_ Hc Hl]. split; [lia|done].
Qed.

Lemma thread_le_limit t t' : thread_le t t' -> stack_limit t' = stack_limit t /\ ci t' = ci t /\ top t' = top t /\ l_gt t' = l_gt t.
Proof.
  intros [(sl & bc & st & ->) Hc _ _]. split_and!; try done. unfold stack_limit. cbn [ci top set_stack_last set_base_ci set_stack base_ci] in *.
  by rewrite Hc.
Qed.

Lemma thread_le_wf t t' : thread_le t t' -> thread_wf t -> thread_wf t'.
Proof.
  intros Hl Hw. destruct (thread_le_limit _ _ Hl) as (E1 & E2 & E3 & _). destruct (hl_size _ _ Hl Hw), Hw as [H1 H2 H3].
  split; rewrite ?E1, ?E2, ?E3; lia.
Qed.

Lemma thread_le_trans t1 t2 t3 : thread_le t1 t2 -> thread_le t2 t3 -> thread_le t1 t3.
Proof.
  intros H12 H23. destruct (thread_le_limit _ _ H12) as (E1 & E2 & E3 & _). split.
  - destruct (hl_rest _ _ H12) as (? & ? & ? & ->), (hl_rest _ _ H23) as (? & ? & ? & ->). by do 3 eexists.
  - rewrite <- (hl_ci _ _ H12), <- E2. apply (hl_ci _ _ H23).
  - intros Hw. rewrite <- E1, <- E2. by apply (hl_size _ _ H23), (thread_le_wf t1).
  - intros i v Hv. destruct (hl_stack _ _ H23 _ _ Hv) as [Hv'|[Hi ->]]; [by apply (hl_stack _ _ H12)|right; by rewrite <- E3].
Qed.

Lemma body_le_refl b : body_le b b.
Proof. destruct b; cbn; eauto using table_le_refl, thread_le_refl. Qed.

Lemma body_le_trans b1 b2 b3 : body_le b1 b2 -> body_le b2 b3 -> body_le b1 b3.
Proof.
  destruct b1; cbn.
  1, 5: intros (x & -> & H1) (y & -> & H2); eauto using table_le_trans, thread_le_trans.
  all: intros -> E; exact E.
Qed.

Lemma body_le_table b h' : body_le b (OTable h') -> exists h, b = OTable h /\ table_le h h'.
Proof. destruct b; cbn; try done; [intros (h2 & [= ->] & Hl); eauto|by intros (? & ? & _)]. Qed.

Lemma mark_le_refl B r o : mark_le B r o o.
Proof. split; try done. apply body_le_refl. Qed.

Lemma is_open_le o o' : body_le (obj o) (obj o') -> is_open o -> is_open o'.
Proof. intros Hl (L & lv & E). rewrite E in Hl. by exists L, lv. Qed.

Lemma is_table_le o o' : body_le (obj o) (obj o') -> is_table o -> is_table o'.
Proof. intros Hl (h & E). rewrite E in Hl. destruct Hl as (h' & E' & _). by exists h'. Qed.

Lemma mark_le_trans B r o1 o2 o3 : mark_le B r o1 o2 -> mark_le B r o2 o3 -> mark_le B r o1 o3.
Proof.
  intros [L W F K U T D] [L' W' F' K' U' T' D']. split.
  - by eapply body_le_trans.
  - intros n Hn E. by apply W, W'.
  - intros n Hn. by rewrite F', F.
  - intros Hb Hw Hk. apply K'; [done| |by apply K]. by apply (ml_white B r o1 o2).
  - intros Ho. rewrite <- (U Ho). apply U'. by eapply is_open_le.
  - intros Hk Hw. destruct (T' Hk Hw). auto.
  - intros Hb Ht n Hn. rewrite <- (D Hb Ht n Hn). apply D'; [done| |done]. by eapply is_table_le.
Qed.

Lemma mark_le_mono (B B' : list Z) r o o' : (r ∈ B -> r ∈ B') -> mark_le B r o o' -> mark_le B' r o o'.
Proof. intros Hb [L W F K U T D]. split; auto. Qed.

(** ** References do not grow. *)

Lemma elem_vals l r : r ∈ vals l <-> exists v, v ∈ l /\ gcvalue v = Some r.
Proof. unfold vals. by rewrite list_elem_of_omap. Qed.

Lemma vals_mono l l' : (forall v, v ∈ l' -> v ∈ l \/ v = VNil) -> forall r, r ∈ vals l' -> r ∈ vals l.
Proof.
  intros Hl r. rewrite !elem_vals. intros (v & Hv & E). destruct (Hl _ Hv) as [Hin | ->]; [by exists v|done].
Qed.

Lemma node_refs_bury wk wv n r : r ∈ node_refs wk wv (bury n) -> r ∈ node_refs wk wv n.
Proof.
  unfold bury. destruct (ttisnil (gval n)) eqn:E; [|done]. unfold removeentry.
  destruct (gkey n) as [k|k] eqn:Ek; [|done]. destruct (iscollectable k); [|done].
  unfold node_refs. cbn [gval gkey]. rewrite E. destruct (wk || wv); [done|]. intros Hr. by apply elem_of_nil in Hr.
Qed.

Lemma table_refs_le wk wv h h' r : table_le h h' -> r ∈ table_refs wk wv h' -> r ∈ table_refs wk wv h.
Proof.
  intros Hl. unfold table_refs. destruct (tl_rest _ _ Hl) as (-> & _). rewrite (tl_array _ _ Hl).
  rewrite !elem_of_app. intros [Hr|Hr]; [by left|right]. destruct (wk && wv); [done|].
  revert Hr. rewrite !elem_of_app. intros [Hr|Hr]; [by left|right].
  apply list_elem_of_join in Hr as (l & Hr & Hin). apply list_elem_of_fmap in Hin as (n' & -> & Hn').
  apply list_elem_of_lookup in Hn' as [i Hi]. destruct (Forall2_lookup_r _ _ _ _ _ (tl_nodes _ _ Hl) Hi) as (n & Hn & Hnn).
  apply list_elem_of_join. exists (node_refs wk wv n). split.
  - destruct Hnn as [-> | ->]; [done|by apply node_refs_bury].
  - apply list_elem_of_fmap. exists n. split; [done|]. by eapply list_elem_of_lookup_2.
Qed.

Lemma take_getZ (l : list TValue) n v : v ∈ take (Z.to_nat n) l <-> exists i, i < n /\ getZ l i = Some v.
Proof.
  rewrite list_elem_of_lookup. split.
  - intros [i Hi]. apply lookup_take_Some in Hi as [Hi Hlt]. exists (Z.of_nat i). split; [lia|].
    unfold getZ. rewrite (proj2 (Z.leb_le _ _)), Nat2Z.id by lia. done.
  - intros (i & Hlt & Hi). pose proof (getZ_Some _ _ _ Hi). exists (Z.to_nat i). apply lookup_take_Some.
    unfold getZ in Hi. rewrite (proj2 (Z.leb_le _ _)) in Hi by lia. split; [done|lia].
Qed.

Lemma thread_refs_le t t' r :
  thread_le t t' -> r ∈ vals (l_gt t' :: take (Z.to_nat (top t')) (stack t')) -> r ∈ vals (l_gt t :: take (Z.to_nat (top t)) (stack t)).
Proof.
  intros Hl. destruct (thread_le_limit _ _ Hl) as (_ & _ & -> & ->). apply vals_mono. intros v.
  rewrite !elem_of_cons, !take_getZ. intros [->|(i & Hi & Hv)]; [auto|].
  destruct (hl_stack _ _ Hl _ _ Hv) as [Hv'|[_ ->]]; eauto.
Qed.

Section step.
Variables (X B : list Z) (s s' : State).
Hypothesis Hs : mstep X B s s'.

Lemma ms_body r b : body_at s r = Some b -> exists b', body_at s' r = Some b' /\ body_le b b'.
Proof using Hs.
  unfold body_at. destruct (heap s !! r) as [o|] eqn:Ho; [|done]. intros [= <-].
  destruct (ms_mark _ _ _ _ Hs _ _ Ho) as (o' & -> & Hm). exists (obj o'). split; [done|apply (ml_body _ _ _ _ Hm)].
Qed.

Lemma ms_back r b' : body_at s' r = Some b' -> exists b, body_at s r = Some b /\ body_le b b'.
Proof using Hs.
  intros Hb. destruct (body_at s r) as [b|] eqn:E.
  - destruct (ms_body _ _ E) as (b2 & E2 & Hl). exists b. split; [done|]. by replace b' with b2 by congruence.
  - rewrite (ms_none _ _ _ _ Hs _ E) in Hb. done.
Qed.

Lemma ms_thread L t : th s L = Some t -> exists t', th s' L = Some t' /\ thread_le t t'.
Proof using Hs.
  intros Ht. destruct (ms_body _ _ (th_body _ _ _ Ht)) as (b' & Hb & t' & -> & Hl).
  exists t'. split; [|done]. unfold th. by rewrite Hb.
Qed.

Lemma ms_uv_val uv v : uv_val s' uv = Some v -> uv_val s uv = Some v \/ v = VNil.
Proof using Hs.
  destruct uv as [L lv|w]; cbn; [|by left]. destruct (th s' L) as [t'|] eqn:E; [|done]. intros Hv.
  destruct (ms_back _ _ (th_body _ _ _ E)) as (b & Hb & Hl). destruct b; try discriminate Hl; [by destruct Hl as (? & ? & _)|].
  destruct Hl as (t2 & [= <-] & Hl). unfold StateFacts.th. rewrite Hb. destruct (hl_stack _ _ Hl _ _ Hv) as [|[_ ->]]; auto.
Qed.

Lemma refs_le r k : k ∈ refs s' r -> k ∈ refs s r.
Proof using Hs.
  unfold refs. destruct (body_at s' r) as [b'|] eqn:Hb'; [|intros Hk; by apply elem_of_nil in Hk].
  destruct (ms_back _ _ Hb') as (b & -> & Hl). destruct b; cbn in Hl.
  - destruct Hl as (h' & -> & Hl). by apply table_refs_le.
  - subst. done.
  - subst. done.
  - subst. cbn. apply vals_mono. intros v Hv. destruct (uv_val s' uv) as [w|] eqn:E; [|by apply elem_of_nil in Hv].
    apply list_elem_of_singleton in Hv as ->. destruct (ms_uv_val _ _ E) as [-> | ->]; [left; by apply list_elem_of_singleton|by right].
  - destruct Hl as (t' & -> & Hl). by apply thread_refs_le.
Qed.

Lemma ms_nonwhite r : nonwhite s r -> nonwhite s' r.
Proof using Hs.
  intros (o & Ho & Hw). destruct (ms_mark _ _ _ _ Hs _ _ Ho) as (o' & Ho' & Hm). exists o'. split; [done|]. by apply (ml_white _ _ _ _ Hm).
Qed.

Lemma ms_black r : r ∉ B -> black s r -> black s' r.
Proof using Hs.
  intros Hb (o & Ho & Hw & Hk). destruct (ms_mark _ _ _ _ Hs _ _ Ho) as (o' & Ho' & Hm). exists o'. split; [done|].
  split; [by apply (ml_white _ _ _ _ Hm)|by apply (ml_black _ _ _ _ Hm)].
Qed.

Lemma ms_marked_refs r : marked_refs s r -> marked_refs s' r.
Proof using Hs. intros Hm k Hk. by apply ms_nonwhite, Hm, refs_le. Qed.

Lemma ms_open_upval r : open_upval s r -> open_upval s' r.
Proof using Hs. intros (L & lv & Hb). destruct (ms_body _ _ Hb) as (b' & Hb' & ->). by exists L, lv. Qed.

Lemma ms_scanned r : r ∉ B -> scanned s r -> scanned s' r.
Proof using Hs.
  intros Hb [Hm Hk]. split; [by apply ms_marked_refs|]. destruct Hk; [left; by apply ms_black|right; by apply ms_open_upval].
Qed.

Lemma ms_traversable r : traversable s r -> traversable s' r.
Proof using Hs.
  unfold traversable. destruct (body_at s r) as [b|] eqn:Hb; [|done]. destruct (ms_body _ _ Hb) as (b' & -> & Hl).
  destruct b; cbn in Hl; try done; [by destruct Hl as (? & -> & _)|by subst|by destruct Hl as (? & -> & _)].
Qed.

Lemma ms_moded r mode : moded s r mode -> moded s' r mode.
Proof using Hs.
  intros (h & mt & hm & Hb & Em & Hbm & Hw & Hmode). destruct (ms_body _ _ Hb) as (b & Hb' & h' & -> & Hl).
  destruct (ms_body _ _ Hbm) as (b & Hbm' & hm' & -> & Hlm). exists h', mt, hm'. destruct (tl_rest _ _ Hl) as (-> & _).
  split_and!; [done|done|done|by eapply table_le_wf|]. by rewrite (tl_tm _ _ Hlm Hw) by auto.
Qed.

Lemma ms_weak_table r : weak_table s r -> weak_table s' r.
Proof using Hs. intros (mode & Hm & Hw). exists mode. split; [by apply ms_moded|done]. Qed.

Lemma ms_weak_back r : heap_closed s -> weak_table s' r -> weak_table s r.
Proof using Hs.
  intros Hc (mode & (h' & mt & hm' & Hb' & Em & Hbm' & _ & Hmode) & Hw). destruct (ms_back _ _ Hb') as (b & Hb & Hl).
  destruct (ms_back _ _ Hbm') as (bm & Hbm & Hlm). destruct (body_le_table _ _ Hl) as (h & -> & Hl'). destruct (body_le_table _ _ Hlm) as (hm & -> & Hlm').
  destruct (Hc _ _ Hbm) as (Hwm & _). destruct (tl_rest _ _ Hl') as (Em' & _). exists mode. split; [|done]. exists h, mt, hm.
  split_and!; [done|congruence|done|done|]. rewrite <- Hmode. symmetry. apply (tl_tm _ _ Hlm' Hwm). auto.
Qed.

Lemma ms_weak_moded r : r ∉ B -> weak_moded s r -> weak_moded s' r.
Proof using Hs.
  intros Hr (o & mode & Ho & Hmd & Hw & Hk & Hv). destruct (ms_mark _ _ _ _ Hs _ _ Ho) as (o' & Ho' & Hm).
  assert (Ht : is_table o) by (destruct (moded_table _ _ _ Hmd) as [h Hh]; exists h; unfold body_at in Hh; rewrite Ho in Hh; by injection Hh).
  exists o', mode. split_and!; [done|by apply ms_moded|done|rewrite <- Hk|rewrite <- Hv]; unfold testbit, bitmask; rewrite !testbits_shiftl by done;
    by apply (ml_weak _ _ _ _ Hm).
Qed.

Lemma ms_val_ok v : val_ok s v -> val_ok s' v.
Proof using Hs.
  destruct v; cbn; try done; intros [x Hx]; destruct (ms_body _ _ Hx) as (b' & Hb' & Hl); rewrite Hb'.
  - destruct Hl as (h' & -> & _). eauto.
  - rewrite Hl. eauto.
  - rewrite Hl. eauto.
  - destruct Hl as (t' & -> & _). eauto.
Qed.
End step.

Lemma mstep_refl X B s : mstep X B s s.
Proof.
  split; eauto using body_le_refl, mark_le_refl. by destruct (G s).
Qed.

Lemma mstep_trans X B s1 s2 s3 :
  (forall r, r ∈ B -> nonwhite s1 r) -> mstep X B s1 s2 -> mstep X B s2 s3 -> mstep X B s1 s3.
Proof.
  intros HB H12 H23. split.
  - intros r Hr. by apply (ms_none _ _ _ _ H23), (ms_none _ _ _ _ H12).
  - intros r o Ho. destruct (ms_mark _ _ _ _ H12 _ _ Ho) as (o2 & Ho2 & L2). destruct (ms_mark _ _ _ _ H23 _ _ Ho2) as (o3 & Ho3 & L3).
    exists o3. split; [done|]. by eapply mark_le_trans.
  - intros r Hr. destruct (ms_new _ _ _ _ H23 _ Hr) as [Hr2|[|[|]]]; [|auto..].
    destruct (ms_new _ _ _ _ H12 _ Hr2) as [|[|[Hg|Hsc]]]; [by left|auto|right; right; left; by apply (ms_gray _ _ _ _ H23)|].
    destruct (decide (r ∈ B)) as [Hb|Hb]; [left; by apply HB|]. do 3 right. by eapply ms_scanned.
  - intros r Hr. by apply (ms_gray _ _ _ _ H23), (ms_gray _ _ _ _ H12).
  - intros r Hr. destruct (ms_in _ _ _ _ H23 _ Hr) as [Hr2|]; [|by right].
    destruct (ms_in _ _ _ _ H12 _ Hr2) as [|[Hn Ht]]; [by left|right]. split; [by eapply ms_nonwhite|by eapply ms_traversable].
  - intros r Hr. destruct (ms_weak_in _ _ _ _ H23 _ Hr) as [Hr2|]; [|by right].
    destruct (ms_weak_in _ _ _ _ H12 _ Hr2) as [|[Hin Hh]]; [by left|right]. split; [done|by eapply ms_weak_table].
  - intros r Hr. by apply (ms_weakl _ _ _ _ H23), (ms_weakl _ _ _ _ H12).
  - intros r Hr. by apply (ms_again _ _ _ _ H23), (ms_again _ _ _ _ H12).
  - rewrite (ms_G _ _ _ _ H23) at 1. by rewrite (ms_G _ _ _ _ H12) at 1.
  - etransitivity; [apply (ms_count _ _ _ _ H23)|apply (ms_count _ _ _ _ H12)].
  - by rewrite (ms_brk _ _ _ _ H23), (ms_brk _ _ _ _ H12).
Qed.
End mark.

(** * The mark phase: marking objects

    [markobject] and what is built from it end on a closed heap, and are steps
    of the mark phase after which their objects are marked. *)


Section marking.
Context {HM : Machine} {HH : Host} {HC : Cenv} {HK : Calling} {HS : Sizes}.
Implicit Types (s : State) (r k : Z) (b : body) (v : TValue) (o : GCObject).

(** ** Colours of one object *)

Lemma isblack_bit o : isblack o = Z.testbit (marked o) 2.
Proof. unfold isblack, testbit, bitmask, BLACKBIT. by apply testbits_shiftl. Qed.

Lemma white2gray_bit o n : 0 <= n < 8 -> Z.testbit (marked (white2gray o)) n = Z.testbit (marked o) n && (2 <=? n).
Proof.
  intros Hn. cbn. unfold resetbits. rewrite Z.land_spec. f_equal.
  assert (Hc : n = 0 \/ n = 1 \/ n = 2 \/ n = 3 \/ n = 4 \/ n = 5 \/ n = 6 \/ n = 7) by lia.
  by repeat (destruct Hc as [->|Hc]; [reflexivity|]); subst.
Qed.

Lemma gray2black_bit o n : 0 <= n -> Z.testbit (marked (gray2black o)) n = Z.testbit (marked o) n || (n =? 2).
Proof.
  intros Hn. cbn. unfold l_setbit, setbits, bitmask, BLACKBIT. rewrite Z.lor_spec, Z.shiftl_1_l, Z.pow2_bits_eqb by done.
  by rewrite (Z.eqb_sym n).
Qed.

Lemma white2gray_white o : iswhite (white2gray o) = false.
Proof. by rewrite testbits_white, !white2gray_bit, !andb_false_r by done. Qed.

Lemma gray2black_white o : iswhite (gray2black o) = iswhite o.
Proof. by rewrite !testbits_white, !gray2black_bit, !orb_false_r by done. Qed.

Lemma gray2black_black o : isblack (gray2black o) = true.
Proof. by rewrite isblack_bit, gray2black_bit, orb_true_r by done. Qed.

Lemma white2gray_le B r o : mark_le B r o (white2gray o).
Proof.
  split.
  - apply body_le_refl.
  - intros n Hn. rewrite white2gray_bit by lia. by intros [? _]%andb_true_iff.
  - intros n Hn. rewrite white2gray_bit, (proj2 (Z.leb_le 2 n)) by lia. apply andb_true_r.
  - intros _ _. rewrite !isblack_bit, white2gray_bit, andb_true_r by lia. done.
  - intros _. by rewrite !isblack_bit, white2gray_bit, andb_true_r by lia.
  - intros _ Hw. by rewrite white2gray_white in Hw.
  - intros _ _ n Hn. rewrite white2gray_bit, (proj2 (Z.leb_le 2 n)) by lia. apply andb_true_r.
Qed.

Lemma gray2black_le B r o : iswhite o = false -> ~ is_open o -> mark_le B r o (gray2black o).
Proof.
  intros Hwhite Hopen. split.
  - apply body_le_refl.
  - intros n Hn. rewrite gray2black_bit, (proj2 (Z.eqb_neq n 2)), orb_false_r by lia. done.
  - intros n Hn. rewrite gray2black_bit, (proj2 (Z.eqb_neq n 2)) by lia. apply orb_false_r.
  - intros _ _ _. apply gray2black_black.
  - done.
  - intros _ Hw. rewrite gray2black_white in Hw. congruence.
  - intros _ _ n Hn. rewrite gray2black_bit, (proj2 (Z.eqb_neq n 2)) by lia. apply orb_false_r.
Qed.

(** ** Painting an object *)

Definition paint r o s : State := set_heap (<[r := o]> (heap s)) s.

Lemma upd_object_paint r o f s : heap s !! r = Some o -> upd_object r f s = Ok tt (paint r (f o) s).
Proof. intros Ho. unfold upd_object, object, set_object, mbind, M_bind. by rewrite Ho. Qed.

Lemma heap_paint r o s r' : heap (paint r o s) !! r' = if decide (r = r') then Some o else heap s !! r'.
Proof. cbn. by rewrite lookup_insert. Qed.

Lemma body_paint r o o' s r' : heap s !! r = Some o -> obj o' = obj o -> body_at (paint r o' s) r' = body_at s r'.
Proof. intros Ho Hb. unfold body_at. rewrite heap_paint. case_decide; [subst|done]. rewrite Ho. cbn. by rewrite Hb. Qed.

Lemma whites_paint r o o' s :
  heap s !! r = Some o -> (iswhite o = false -> iswhite o' = false) ->
  (whites (paint r o' s) + (if iswhite o && negb (iswhite o') then 1 else 0) = whites s)%nat.
Proof.
  intros Ho Hw. unfold whites, paint. cbn [heap set_heap]. destruct (iswhite o') eqn:E'.
  - assert (E : iswhite o = true) by (destruct (iswhite o); [done|by specialize (Hw eq_refl)]).
    rewrite E, map_filter_insert_True by done. cbn. rewrite map_size_insert, map_lookup_filter, Ho. cbn.
    rewrite option_guard_True by done. cbn. lia.
  - rewrite map_filter_insert_False, map_filter_delete by (cbn; congruence). destruct (iswhite o) eqn:E; cbn.
    + rewrite map_size_delete, map_lookup_filter, Ho. cbn. rewrite option_guard_True by done. cbn.
      assert (Hn : size (filter (fun p : Z * GCObject => iswhite p.2 = true) (heap s)) <> 0%nat); [|lia].
      intros Hz. apply map_size_empty_inv in Hz. assert (Hc : filter (fun p : Z * GCObject => iswhite p.2 = true) (heap s) !! r = Some o)
        by (rewrite map_lookup_filter, Ho; cbn; by rewrite option_guard_True).
      by rewrite Hz in Hc.
    + rewrite map_size_delete, map_lookup_filter, Ho. cbn. rewrite option_guard_False by (cbn; congruence). cbn. lia.
Qed.

Lemma paint_step X B r o o' s :
  heap s !! r = Some o -> obj o' = obj o -> mark_le B r o o' -> (iswhite o' = false -> iswhite o = false \/ r ∈ X) ->
  mstep X B s (paint r o' s).
Proof.
  intros Ho Hb Hm Hx. split; try done.
  - intros r' Hr'. by rewrite (body_paint _ o).
  - intros r' o2 Ho2. rewrite heap_paint. case_decide; [subst|eauto using mark_le_refl].
    exists o'. split; [done|]. by replace o2 with o by congruence.
  - intros r' (o2 & Ho2 & Hw). rewrite heap_paint in Ho2. case_decide; [subst|left; by exists o2].
    injection Ho2 as <-. destruct (Hx Hw); [left; by exists o|by right; left].
  - by left.
  - by left.
  - by destruct s as [h []].
  - pose proof (whites_paint r o o' s Ho (ml_white _ _ _ _ Hm)). cbn [G paint set_heap]. lia.
Qed.

(** An object that is entered in the gray list *)
Lemma gray_step r o s :
  heap s !! r = Some o -> iswhite o = true -> traversable s r ->
  mstep [] [] s (set_globals (fun g => set_gray (r :: gray g) g) (paint r (white2gray o) s)).
Proof.
  intros Ho Hw Ht. pose proof (white2gray_white o) as Hw'.
  assert (Hb : forall r', body_at (set_globals (fun g => set_gray (r :: gray g) g) (paint r (white2gray o) s)) r' = body_at s r')
    by (intros r'; by apply (body_paint _ o)).
  split; try done.
  - intros r' Hr'. by rewrite Hb.
  - intros r' o2 Ho2. cbn [heap set_globals set_G]. rewrite heap_paint. case_decide; [subst|eauto using mark_le_refl].
    eexists. split; [done|]. replace o2 with o by congruence. apply white2gray_le.
  - intros r' (o2 & Ho2 & Hw2). cbn [heap set_globals set_G] in Ho2. rewrite heap_paint in Ho2.
    case_decide; [subst|left; by exists o2]. right; right; left. cbn. apply elem_of_cons. by left.
  - intros r' Hr'. cbn. apply elem_of_cons. by right.
  - intros r' Hr'. unfold pending in *. cbn in Hr'. apply elem_of_cons in Hr' as [->|]; [right|by left]. split.
    + exists (white2gray o). split; [|done]. cbn [heap set_globals set_G]. rewrite heap_paint. by rewrite decide_True.
    + unfold traversable. by rewrite Hb.
  - by left.
  - pose proof (whites_paint r o (white2gray o) s Ho (fun _ => Hw')) as Hc. rewrite Hw, Hw' in Hc. cbn in *. unfold whites in *. cbn in *. lia.
Qed.

(** ** Steps that end *)

Definition steps (X B : list Z) (m : M unit) s (Q : State -> Prop) : Prop :=
  exists s', m s = Ok tt s' /\ mstep X B s s' /\ Q s'.

Lemma steps_ret X B s (Q : State -> Prop) : Q s -> steps X B (mret tt) s Q.
Proof. intros HQ. exists s. split; [done|]. split; [apply mstep_refl|done]. Qed.

Lemma steps_bind X B m (k : unit -> M unit) s (Q R : State -> Prop) :
  (forall r, r ∈ B -> nonwhite s r) -> steps X B m s Q ->
  (forall s1, mstep X B s s1 -> Q s1 -> steps X B (k tt) s1 R) -> steps X B (m ≫= k) s R.
Proof.
  intros HB (s1 & E & Hm & HQ) Hk. destruct (Hk s1 Hm HQ) as (s2 & E2 & Hm2 & HR). exists s2.
  rewrite (m_bind_eq _ _ _ _ _ E). split; [done|]. split; [by eapply mstep_trans|done].
Qed.

Lemma steps_mono X B m s (Q R : State -> Prop) : steps X B m s Q -> (forall s', mstep X B s s' -> Q s' -> R s') -> steps X B m s R.
Proof. intros (s' & E & Hm & HQ) HR. exists s'. split_and!; auto. Qed.

Lemma mstep_weaken X X' B B' s s' : X ⊆ X' -> B ⊆ B' -> mstep X B s s' -> mstep X' B' s s'.
Proof.
  intros HX HB Hs. split; try apply Hs.
  - intros r o Ho. destruct (ms_mark _ _ _ _ Hs _ _ Ho) as (o' & Ho' & Hm). exists o'. split; [done|].
    eapply mark_le_mono; [|exact Hm]. apply HB.
  - intros r Hr. destruct (ms_new _ _ _ _ Hs _ Hr) as [|[|]]; auto.
  - intros r Hr. destruct (ms_weak_in _ _ _ _ Hs _ Hr) as [|[Hin Hw]]; [by left|right]. split; [by apply HB|done].
Qed.

Lemma steps_weaken X X' B B' m s Q : X ⊆ X' -> B ⊆ B' -> steps X B m s Q -> steps X' B' m s Q.
Proof. intros HX HB (s' & E & Hm & HQ). exists s'. split_and!; eauto using mstep_weaken. Qed.

Lemma steps_object X B r o (k : GCObject -> M unit) s Q :
  heap s !! r = Some o -> steps X B (k o) s Q -> steps X B (object r ≫= k) s Q.
Proof. intros Ho Hk. unfold steps in *. unfold object, mbind, M_bind. rewrite Ho. exact Hk. Qed.

Lemma steps_upd X B r o f s (Q : State -> Prop) :
  heap s !! r = Some o -> obj (f o) = obj o -> mark_le B r o (f o) -> (iswhite (f o) = false -> iswhite o = false \/ r ∈ X) ->
  Q (paint r (f o) s) -> steps X B (upd_object r f) s Q.
Proof.
  intros Ho Hb Hm Hx HQ. exists (paint r (f o) s). split; [by apply upd_object_paint|]. split; [by eapply paint_step|done].
Qed.

(** The references of the scanned object are marked in the end. *)
Lemma mstep_scanned r s s' : mstep [r] [] s s' -> scanned s' r -> mstep [] [] s s'.
Proof.
  intros Hs Hr. split; try apply Hs. intros k Hk. destruct (ms_new _ _ _ _ Hs _ Hk) as [|[Hx|]]; [by left| |auto].
  apply list_elem_of_singleton in Hx as ->. auto.
Qed.

(** ** A closed heap stays closed. *)

Lemma body_ok_step X B s s' b b' :
  mstep X B s s' -> heap_closed s -> body_le b b' -> body_ok s b -> body_ok s' b'.
Proof.
  intros Hs Hc Hl Hb. assert (Hv : forall v, val_ok s v -> val_ok s' v) by (intros v; by eapply ms_val_ok).
  assert (Hn : val_ok s' VNil) by done.
  destruct b as [h|u|[e f l|e p l]|[L lv|v]|t]; cbn in Hl; [destruct Hl as (h' & -> & Hl)|subst..|destruct Hl as (t' & -> & Hl)].
  - destruct Hb as (Hw & Hmt & Ha & Hns). destruct (tl_rest _ _ Hl) as (Em & _). cbn [body_ok]. rewrite Em, (tl_array _ _ Hl). split_and!.
    + by eapply table_le_wf.
    + intros mt E. by apply (Hv (VTable mt)), Hmt.
    + eapply list.Forall_impl; [exact Ha|done].
    + apply list.Forall_forall. intros n' Hn'. apply list_elem_of_lookup in Hn' as [i Hi].
      destruct (Forall2_lookup_r _ _ _ _ _ (tl_nodes _ _ Hl) Hi) as (n & Hi' & Hnn). rewrite list.Forall_forall in Hns.
      pose proof (Hns n (list_elem_of_lookup_2 _ _ _ Hi')) as Hok. assert (E : gval n' = gval n /\ (gval n <> VNil -> n' = n)).
      { destruct Hnn as [-> | ->]; [done|]. split; [apply (bu_val _ _ (bury_buried n))|]. intros E. unfold bury. by destruct (gval n). }
      destruct E as [Ev En]. rewrite Ev. intros Hnil. rewrite (En Hnil). destruct (Hok Hnil). auto.
  - destruct Hb as [He Hm]. split; [by apply (Hv (VTable _))|]. intros mt E. by apply (Hv (VTable mt)), Hm.
  - destruct Hb as [He Hl]. split; [by apply (Hv (VTable _))|]. eapply list.Forall_impl; [exact Hl|done].
  - destruct Hb as [He Hl]. split; [by apply (Hv (VTable _))|]. eapply list.Forall_impl; [exact Hl|]. intros u (r & uv & -> & Hr).
    destruct (ms_body _ _ _ _ Hs _ _ Hr) as (b' & Hb' & ->). eauto.
  - destruct Hb as (t & v & Ht & Hg & Hlim & Hok). destruct (ms_thread _ _ _ _ Hs _ _ Ht) as (t' & Ht' & Hl).
    destruct (Hc _ _ (th_body _ _ _ Ht)) as (Hw & _). destruct (hl_size _ _ Hl Hw) as [_ Hsz].
    assert (Hr : 0 <= lv < stacksize t') by (apply getZ_Some in Hg; lia).
    destruct (getZ_is_Some (stack t') lv Hr) as [v' Hv']. exists t', v'. destruct (thread_le_limit _ _ Hl) as (-> & _).
    split_and!; try done. destruct (hl_stack _ _ Hl _ _ Hv') as [Hv2|[_ ->]]; [|done]. apply Hv. by replace v' with v by congruence.
  - by apply Hv.
  - destruct Hb as (Hw & Hg & Hf). destruct (thread_le_limit _ _ Hl) as (_ & _ & Et & Eg). split; [by eapply thread_le_wf|].
    rewrite Et, Eg. split; [by apply Hv|]. apply list.Forall_forall. intros v Hin. apply take_getZ in Hin as (i & Hi & Hg').
    destruct (hl_stack _ _ Hl _ _ Hg') as [Hv2|[_ ->]]; [|done]. apply Hv. rewrite list.Forall_forall in Hf. apply Hf, take_getZ. eauto.
Qed.

Lemma closed_step X B s s' : mstep X B s s' -> heap_closed s -> heap_closed s'.
Proof.
  intros Hs Hc r b' Hb'. destruct (ms_back _ _ _ _ Hs _ _ Hb') as (b & Hb & Hl).
  eapply body_ok_step; [exact Hs|exact Hc|exact Hl|by apply (Hc r)].
Qed.

(** ** Marking an object *)

Lemma nil_nonwhite s r : r ∈ [] -> nonwhite s r.
Proof. intros Hr. by apply elem_of_nil in Hr. Qed.

Lemma mstep_trans0 X s1 s2 s3 : mstep X [] s1 s2 -> mstep X [] s2 s3 -> mstep X [] s1 s3.
Proof. apply mstep_trans. intros r. apply nil_nonwhite. Qed.

Lemma steps_bind0 X m (k : unit -> M unit) s (Q R : State -> Prop) :
  steps X [] m s Q -> (forall s1, mstep X [] s s1 -> Q s1 -> steps X [] (k tt) s1 R) -> steps X [] (m ≫= k) s R.
Proof. apply steps_bind. intros r. apply nil_nonwhite. Qed.

Lemma singleton_nonwhite s r r' : nonwhite s r -> r' ∈ [r] -> nonwhite s r'.
Proof. intros Hn Hr. by apply list_elem_of_singleton in Hr as ->. Qed.

Lemma body_object s r b : body_at s r = Some b -> exists o, heap s !! r = Some o /\ obj o = b.
Proof. unfold body_at. destruct (heap s !! r) as [o|]; [|done]. intros [= <-]. eauto. Qed.

Lemma white_object s r b : body_at s r = Some b -> white s r -> exists o, heap s !! r = Some o /\ obj o = b /\ iswhite o = true.
Proof. intros Hb (o & Ho & Hw). exists o. unfold body_at in Hb. rewrite Ho in Hb. injection Hb as <-. done. Qed.

(** What is marked when it is white *)
Lemma mark_white_steps m r s :
  is_Some (body_at s r) -> (white s r -> steps [] [] m s (fun s' => nonwhite s' r)) ->
  steps [] [] (o ← object r; if iswhite o then m else mret tt) s (fun s' => nonwhite s' r).
Proof.
  intros [b Hb] Hm. destruct (body_object _ _ _ Hb) as (o & Ho & _). eapply steps_object; [exact Ho|].
  destruct (iswhite o) eqn:Hw; [apply Hm; by exists o|]. apply steps_ret. by exists o.
Qed.

Lemma reallymark_gray d r s :
  white s r -> traversable s r -> steps [] [] (reallymark (S d) r) s (fun s' => nonwhite s' r).
Proof.
  intros (o & Ho & Hw) Ht. eexists. split; [|split; [by apply (gray_step r o)|]].
  - cbn [reallymark]. rewrite (m_bind_eq _ _ _ _ _ (upd_object_paint _ _ _ _ Ho)).
    assert (E : object r (paint r (white2gray o) s) = Ok (white2gray o) (paint r (white2gray o) s)).
    { unfold object. rewrite heap_paint, decide_True by done. done. }
    rewrite (m_bind_eq _ _ _ _ _ E). unfold traversable, body_at in Ht. rewrite Ho in Ht. cbn in Ht.
    destruct o as [m b]. cbn [obj white2gray set_marked] in *. by destruct b.
  - exists (white2gray o). split; [|apply white2gray_white]. cbn [heap set_globals set_G]. by rewrite heap_paint, decide_True.
Qed.

(** The first step for an object that goes through no list *)
Lemma white2gray_steps r s o :
  heap s !! r = Some o -> steps [r] [] (upd_object r white2gray) s (fun s' => s' = paint r (white2gray o) s).
Proof.
  intros Ho. eapply steps_upd; [done|done|apply white2gray_le|right; by apply list_elem_of_singleton|done].
Qed.

Lemma gray2black_steps r s o :
  heap s !! r = Some o -> iswhite o = false -> ~ is_open o -> steps [r] [] (upd_object r gray2black) s (fun s' => black s' r).
Proof.
  intros Ho Hw Hopen. eapply steps_upd; [done|done|by apply gray2black_le|by left|].
  exists (gray2black o). rewrite heap_paint, decide_True, gray2black_white by done.
  split_and!; [done|done|apply gray2black_black].
Qed.

Lemma black_nonwhite s r : black s r -> nonwhite s r.
Proof. intros (o & Ho & Hw & _). by exists o. Qed.

Lemma val_ok_table s r : val_ok s (VTable r) -> traversable s r /\ is_Some (body_at s r).
Proof. intros [h Hh]. unfold traversable. rewrite Hh. done. Qed.

(** A table that something refers to *)
Lemma mark_table_steps d r s :
  val_ok s (VTable r) -> steps [] [] (o ← object r; if iswhite o then reallymark (S d) r else mret tt) s (fun s' => nonwhite s' r).
Proof.
  intros Hv. apply val_ok_table in Hv as [Ht Hb]. apply mark_white_steps; [done|]. intros Hw. by apply reallymark_gray.
Qed.

Lemma reallymark_udata_steps d r u s :
  white s r -> body_at s r = Some (OUdata u) -> heap_closed s ->
  steps [] [] (reallymark (S (S d)) r) s (fun s' => nonwhite s' r).
Proof.
  intros Hw Hb Hc. destruct (white_object _ _ _ Hb Hw) as (o & Ho & Hu & Hwo).
  assert (Hst : steps [r] [] (reallymark (S (S d)) r) s (fun s' => scanned s' r)).
  { remember (S d) as d' eqn:Ed. cbn [reallymark]. eapply steps_bind0; [by apply white2gray_steps|]. intros s1 H1 ->.
    assert (Ho1 : heap (paint r (white2gray o) s) !! r = Some (white2gray o)) by (by rewrite heap_paint, decide_True).
    eapply steps_object; [exact Ho1|]. cbn [obj white2gray set_marked]. rewrite Hu.
    eapply steps_bind0; [apply (gray2black_steps r _ _ Ho1); [apply white2gray_white|intros (L & lv & E); cbn in E; congruence]|]. intros s2 H2 Hk.
    pose proof (mstep_trans0 _ _ _ _ H1 H2) as H02. pose proof (closed_step _ _ _ _ H02 Hc) as Hc2.
    destruct (ms_body _ _ _ _ H02 _ _ Hb) as (b2 & Hb2 & ->). destruct (Hc2 _ _ Hb2) as [He Hm].
    eapply (steps_bind0 _ _ _ _ (fun s3 => forall mt, uv_metatable u = Some mt -> nonwhite s3 mt)); [|].
    - destruct (uv_metatable u) as [mt|]; [|by apply steps_ret]. subst d'. apply (steps_weaken [] _ []); [apply list_subseteq_nil|done|].
      eapply steps_mono; [by apply mark_table_steps, Hm|]. by intros s3 _ Hn mt' [= <-].
    - intros s3 H3 Hn. subst d'. apply (steps_weaken [] _ []); [apply list_subseteq_nil|done|].
      eapply steps_mono; [apply mark_table_steps; by eapply (ms_val_ok _ _ _ _ H3 (VTable _))|]. intros s4 H4 Hen.
      split; [|left; eapply ms_black; [exact H4|apply not_elem_of_nil|]; eapply ms_black; [exact H3|apply not_elem_of_nil|done]].
      intros k Hk'. unfold refs in Hk'. destruct (ms_body _ _ _ _ H3 _ _ Hb2) as (b3 & Hb3 & ->).
      destruct (ms_body _ _ _ _ H4 _ _ Hb3) as (b4 & Hb4 & ->). rewrite Hb4 in Hk'. cbn in Hk'. apply elem_of_app in Hk' as [Hk'|Hk'].
      + destruct (uv_metatable u) as [mt|] eqn:Emt; [|by apply elem_of_nil in Hk']. apply list_elem_of_singleton in Hk' as ->.
        eapply ms_nonwhite; [exact H4|]. by apply Hn.
      + by apply list_elem_of_singleton in Hk' as ->. }
  destruct Hst as (s' & E & Hs & Hsc). exists s'. split; [done|]. split; [by eapply mstep_scanned|].
  destruct Hsc as [_ [Hk|(L & lv & Hb')]]; [by apply black_nonwhite|].
  destruct (ms_back _ _ _ _ Hs _ _ Hb') as (b & Hb0 & Hl). rewrite Hb in Hb0. injection Hb0 as <-. discriminate Hl.
Qed.

(** What a value refers to *)
Definition val_marked s v : Prop := forall r, gcvalue v = Some r -> nonwhite s r.

Lemma val_marked_step X B s s' v : mstep X B s s' -> val_marked s v -> val_marked s' v.
Proof. intros Hs Hv r Hr. eapply ms_nonwhite; [exact Hs|by apply Hv]. Qed.

(** Marking the object of a value *)
Lemma mark_referent_steps d v r s :
  gcvalue v = Some r -> val_ok s v -> heap_closed s ->
  steps [] [] (o ← object r; if iswhite o then reallymark (S (S d)) r else mret tt) s (fun s' => nonwhite s' r).
Proof.
  intros Hr Hv Hc. pose proof (val_ok_body _ _ _ Hr Hv) as Hb. apply mark_white_steps; [done|]. intros Hw.
  destruct v; try discriminate Hr; injection Hr as ->; destruct Hv as [x Hx];
    [apply reallymark_gray| apply reallymark_gray|by eapply reallymark_udata_steps|apply reallymark_gray];
    try done; unfold traversable; by rewrite Hx.
Qed.

(** Reading the value of an upvalue *)
Lemma uv_read s uv v {A} (k : TValue -> M A) :
  uv_val s uv = Some v -> ((match uv with UOpen L level => stk L level | UClosed v => mret v end) ≫= k) s = k v s.
Proof.
  destruct uv as [L lv|w]; cbn; [|by intros [= ->]]. destruct (th s L) as [t|] eqn:Ht; [|done]. intros Hv. by apply (s_stk L s t Ht).
Qed.

Lemma upval_ok s uv : body_ok s (OUpVal uv) -> exists v, uv_val s uv = Some v /\ val_ok s v.
Proof. destruct uv as [L lv|v]; cbn; [|by exists v]. intros (t & v & -> & Hv & _ & Hok). by exists v. Qed.

Lemma reallymark_upval_steps d r uv s :
  white s r -> body_at s r = Some (OUpVal uv) -> heap_closed s ->
  steps [] [] (reallymark (S (S (S d))) r) s (fun s' => nonwhite s' r).
Proof.
  intros Hw Hb Hc. destruct (white_object _ _ _ Hb Hw) as (o & Ho & Hu & Hwo).
  destruct (upval_ok _ _ (Hc _ _ Hb)) as (v & Hv & Hok).
  assert (Hst : steps [r] [] (reallymark (S (S (S d))) r) s (fun s' => scanned s' r /\ nonwhite s' r)).
  { remember (S (S d)) as d' eqn:Ed. cbn [reallymark]. eapply steps_bind0; [by apply white2gray_steps|]. intros s1 H1 ->.
    assert (Ho1 : heap (paint r (white2gray o) s) !! r = Some (white2gray o)) by (by rewrite heap_paint, decide_True).
    set (s1 := paint r (white2gray o) s) in *.
    eapply steps_object; [exact Ho1|]. cbn [obj white2gray set_marked]. rewrite Hu.
    assert (Hv1 : uv_val s1 uv = Some v).
    { rewrite <- Hv. destruct uv as [L lv|w]; [|done]. cbn. unfold StateFacts.th. unfold s1. by rewrite (body_paint _ o). }
    unfold steps. setoid_rewrite (uv_read s1 uv v _ Hv1).
    pose proof (closed_step _ _ _ _ H1 Hc) as Hc1. assert (Hok1 : val_ok s1 v) by (by eapply ms_val_ok).
    assert (Hb1 : body_at s1 r = Some (OUpVal uv)) by (unfold s1; by rewrite (body_paint _ o)).
    assert (Hn1 : nonwhite s1 r) by (exists (white2gray o); split; [done|apply white2gray_white]).
    eapply (steps_bind0 _ _ _ _ (fun s2 => val_marked s2 v)); [|].
    - destruct (gcvalue v) as [r'|] eqn:Er; [|apply steps_ret; by intros k Hk; rewrite Er in Hk].
      apply (steps_weaken [] _ []); [apply list_subseteq_nil|done|]. subst d'.
      eapply steps_mono; [by eapply mark_referent_steps|]. intros s2 _ Hn k Hk. rewrite Er in Hk. by injection Hk as <-.
    - intros s2 H2 Hm. assert (Hn2 : nonwhite s2 r) by (by eapply ms_nonwhite).
      destruct (ms_body _ _ _ _ H2 _ _ Hb1) as (b2 & Hb2 & ->).
      assert (Hend : forall s3, mstep [r] [] s2 s3 -> marked_refs s3 r).
      { intros s3 H3 k Hk. pose proof (mstep_trans0 _ _ _ _ H2 H3) as H13.
        pose proof (refs_le _ _ _ _ H13 _ _ Hk) as Hk1. unfold refs in Hk1. rewrite Hb1 in Hk1. cbn in Hk1. rewrite Hv1 in Hk1.
        apply elem_vals in Hk1 as (w & Hw' & Hg). apply list_elem_of_singleton in Hw' as ->.
        eapply ms_nonwhite; [exact H3|]. by apply Hm. }
      destruct uv as [L lv|w].
      + apply steps_ret. split; [|done]. split; [apply Hend, mstep_refl|]. right. by exists L, lv.
      + destruct Hn2 as (o2 & Ho2 & Hw2). eapply steps_mono; [eapply gray2black_steps; [done|done|]|].
        { intros (L & lv & E). unfold body_at in Hb2. rewrite Ho2 in Hb2. cbn in Hb2. congruence. } intros s3 H3 Hk.
        split; [|by apply black_nonwhite]. split; [by apply Hend|by left]. }
  destruct Hst as (s' & E & Hs & Hsc & Hn). exists s'. split; [done|]. split; [by eapply mstep_scanned|done].
Qed.

Lemma markobject_steps r s :
  is_Some (body_at s r) -> heap_closed s -> steps [] [] (markobject r) s (fun s' => nonwhite s' r).
Proof.
  intros [b Hb] Hc. apply mark_white_steps; [by rewrite Hb|]. intros Hw. unfold reallymarkobject.
  destruct b; [| | |by eapply reallymark_upval_steps|]; [|by eapply reallymark_udata_steps| |];
    (apply reallymark_gray; [done|]; unfold traversable; by rewrite Hb).
Qed.

Lemma markvalue_steps v s : val_ok s v -> heap_closed s -> steps [] [] (markvalue v) s (fun s' => val_marked s' v).
Proof.
  intros Hv Hc. unfold markvalue, val_marked. destruct (gcvalue v) as [r|] eqn:Er; [|by apply steps_ret].
  eapply steps_mono; [apply markobject_steps; [by eapply val_ok_body|done]|]. by intros s' _ Hn r' [= <-].
Qed.

(** ** Marking lists *)

Lemma mark_values_steps l s :
  Forall (val_ok s) l -> heap_closed s -> steps [] [] (mark_values l) s (fun s' => Forall (val_marked s') l).
Proof.
  revert s. induction l as [|v l IH]; intros s Hl Hc; [apply steps_ret; constructor|]. apply list.Forall_cons in Hl as [Hv Hl].
  cbn [mark_values]. eapply steps_bind0; [by apply markvalue_steps|]. intros s1 H1 Hm.
  eapply steps_mono; [apply IH|].
  - eapply list.Forall_impl; [exact Hl|]. intros w. by eapply ms_val_ok.
  - by eapply closed_step.
  - intros s2 H2 Hf. constructor; [by eapply val_marked_step|done].
Qed.

Definition node_marked s wk wv (n : Node) : Prop :=
  gval n <> VNil -> (wk = false -> val_marked s (key2tval (gkey n))) /\ (wv = false -> val_marked s (gval n)).

Lemma node_marked_step X B s s' wk wv n : mstep X B s s' -> node_marked s wk wv n -> node_marked s' wk wv n.
Proof. intros Hs Hn Hv. destruct (Hn Hv) as [Hk Hg]. split; intros E; eapply val_marked_step; [exact Hs|auto|exact Hs|auto]. Qed.

Lemma mark_nodes_steps wk wv l s :
  Forall (fun n => gval n <> VNil -> val_ok s (key2tval (gkey n)) /\ val_ok s (gval n)) l -> heap_closed s ->
  steps [] [] (mark_nodes wk wv l) s (fun s' => Forall (node_marked s' wk wv) l).
Proof.
  revert s. induction l as [|n l IH]; intros s Hl Hc; [apply steps_ret; constructor|]. apply list.Forall_cons in Hl as [Hv Hl].
  cbn [mark_nodes]. eapply (steps_bind0 _ _ _ _ (fun s1 => node_marked s1 wk wv n)); [|].
  - destruct (ttisnil (gval n)) eqn:En; [apply steps_ret; intros Hg; by destruct (gval n)|].
    assert (Hnil : gval n <> VNil) by (by destruct (gval n)). destruct (Hv Hnil) as [Hk Hg].
    eapply (steps_bind0 _ _ _ _ (fun s1 => wk = false -> val_marked s1 (key2tval (gkey n)))); [|].
    + destruct wk; [by apply steps_ret|]. eapply steps_mono; [by apply markvalue_steps|]. done.
    + intros s1 H1 Hm. destruct wv; [apply steps_ret; split; [done|done]|].
      eapply steps_mono; [apply markvalue_steps; [by eapply ms_val_ok|by eapply closed_step]|]. intros s2 H2 Hg2 _.
      split; [|done]. intros E. eapply val_marked_step; [exact H2|by apply Hm].
  - intros s1 H1 Hm. eapply steps_mono; [apply IH|].
    + eapply list.Forall_impl; [exact Hl|]. intros n' Hn' Hg. destruct (Hn' Hg). split; by eapply ms_val_ok.
    + by eapply closed_step.
    + intros s2 H2 Hf. constructor; [by eapply node_marked_step|done].
Qed.

Lemma mark_upvals_steps l s :
  Forall (fun u => exists r uv, u = Some r /\ body_at s r = Some (OUpVal uv)) l -> heap_closed s ->
  steps [] [] (mark_upvals l) s (fun s' => forall r, Some r ∈ l -> nonwhite s' r).
Proof.
  revert s. induction l as [|u l IH]; intros s Hl Hc; [apply steps_ret; intros r Hr; by apply elem_of_nil in Hr|].
  apply list.Forall_cons in Hl as [(r & uv & -> & Hr) Hl]. cbn [mark_upvals valid]. unfold steps. setoid_rewrite m_ret_bind.
  eapply steps_bind0; [apply markobject_steps; [by rewrite Hr|done]|]. intros s1 H1 Hm.
  eapply steps_mono; [apply IH|].
  - eapply list.Forall_impl; [exact Hl|]. intros u (r' & uv' & -> & Hr'). destruct (ms_body _ _ _ _ H1 _ _ Hr') as (b & Hb & ->). eauto.
  - by eapply closed_step.
  - intros s2 H2 Hf r' Hr'. apply elem_of_cons in Hr' as [[= ->]|Hin]; [by eapply ms_nonwhite|by apply Hf].
Qed.
End marking.
