(* ===== verification/GcPropagate.v ===== *)
(** * The mark phase: traversing an object

    [propagatemark] takes the first gray object and marks what it refers to. *)

From S2P Require Import Prelude Clib Opcodes Object Debug Table TableOps Auxlib State Barrier Func Tm Do Vm Run Lstate Gc.
From S2P Require Import StateFacts GcTable GcMark.

Section propagate.
Context {HM : Machine} {HH : Host} {HC : Cenv} {HK : Calling} {HS : Sizes}.
Implicit Types (s : State) (r k : Z) (b : body) (v : TValue) (o : GCObject).

(** ** Changes of bodies and of the global state *)

Lemma put_body_paint s r o b : heap s !! r = Some o -> put_body r b s = paint r (set_obj b o) s.
Proof.
  intros Ho. unfold put_body, paint. f_equal. apply map_eq. intros i. rewrite lookup_alter, lookup_insert.
  case_decide; [subst|done]. by rewrite Ho.
Qed.

Lemma set_obj_le B r b o : body_le (obj o) b -> mark_le B r o (set_obj b o).
Proof. by split. Qed.

Lemma put_body_step X B s r b b' : body_at s r = Some b -> body_le b b' -> mstep X B s (put_body r b' s).
Proof.
  intros Hb Hl. destruct (body_object _ _ _ Hb) as (o & Ho & Hob). rewrite (put_body_paint _ _ o) by done. split; try done.
  - intros r' Hr'. unfold body_at in *. rewrite heap_paint. case_decide; [subst; by rewrite Ho in Hr'|done].
  - intros r' o2 Ho2. rewrite heap_paint. case_decide; [subst|eauto using mark_le_refl].
    eexists. split; [done|]. replace o2 with o by congruence. by apply set_obj_le.
  - intros r' (o2 & Ho2 & Hw). rewrite heap_paint in Ho2. case_decide; [subst|left; by exists o2].
    injection Ho2 as <-. left. by exists o.
  - by left.
  - by left.
  - by destruct s as [h []].
  - pose proof (whites_paint r o (set_obj b' o) s Ho (fun E => E)) as Hw. cbn [G paint set_heap]. lia.
Qed.

(** Objects that enter a list of the collector *)
Lemma set_globals_step X B f s :
  (forall g, f g = set_grayagain (grayagain (f g)) (set_weak (weak (f g)) g)) -> (forall r, r ∈ weak (G s) -> r ∈ weak (f (G s))) ->
  (forall r, r ∈ grayagain (G s) -> r ∈ grayagain (f (G s))) ->
  (forall r, r ∈ grayagain (f (G s)) -> r ∈ grayagain (G s) \/ nonwhite s r /\ traversable s r) ->
  (forall r, r ∈ weak (f (G s)) -> r ∈ weak (G s) \/ r ∈ B /\ nonwhite s r /\ weak_table s r) -> mstep X B s (set_globals f s).
Proof.
  intros Hf Hw Ha Hia Hiw. assert (E : gray (f (G s)) = gray (G s)) by (by rewrite Hf).
  split; try done; cbn [G set_globals set_G].
  - intros r o Ho. exists o. split; [done|apply mark_le_refl].
  - intros r Hr. by left.
  - intros r. by rewrite E.
  - intros r. unfold pending. rewrite E, !elem_of_app. intros [|[Hr|Hr]]; [auto| |].
    + destruct (Hia _ Hr); auto.
    + destruct (Hiw _ Hr) as [|(_ & Hn & mode & Hm & _)]; [auto|]. destruct (moded_table _ _ _ Hm) as [h Hh]. right. split; [done|]. unfold traversable. by rewrite body_at_globals, Hh.
  - intros r Hr. destruct (Hiw _ Hr) as [|(Hin & _ & Hh)]; auto.
  - rewrite E. rewrite Hf at 1. by destruct (G s).
  - rewrite E. done.
Qed.

(** ** Tables *)

Lemma fasttm_step s et e :
  heap_closed s -> (forall mt, et = Some mt -> val_ok s (VTable mt)) -> tms_num e < 8 ->
  exists tm s', fasttm et e s = Ok tm s' /\ mstep [] [] s s' /\ G s' = G s /\
    (et = None -> tm = None) /\ forall mt, et = Some mt -> exists hm, body_at s mt = Some (OTable hm) /\ table_wf hm /\ tm_lookup hm e = tm.
Proof.
  intros Hc Hm He. destruct et as [mt|]; [|exists None, s; split_and!; [done|apply mstep_refl|done|done|done]].
  destruct (Hm mt eq_refl) as [hm Hb]. destruct (Hc _ _ Hb) as (Hw & _).
  destruct (fasttm_spec s mt hm e Hb Hw He) as (s' & E & Hs'). exists (tm_lookup hm e), s'. split; [done|].
  assert (Hv : (Some mt = None -> tm_lookup hm e = None) /\ forall mt', Some mt = Some mt' ->
    exists hm', body_at s mt' = Some (OTable hm') /\ table_wf hm' /\ tm_lookup hm' e = tm_lookup hm e)
    by (split; [done|]; intros mt' [= <-]; by exists hm).
  destruct Hs' as [->|(h' & Hl & ->)]; [split; [apply mstep_refl|done]|]. split; [|done].
  apply (put_body_step _ _ _ _ (OTable hm)); [done|]. by exists h'.
Qed.

(** ** Weak bits *)

Lemma weak_bits_bit wk wv o n : 0 <= n < 8 ->
  Z.testbit (marked (weak_bits wk wv o)) n = if n =? 3 then wk else if n =? 4 then wv else Z.testbit (marked o) n.
Proof.
  intros Hn. cbn. unfold resetbits. rewrite Z.lor_spec, Z.land_spec.
  assert (Hc : n = 0 \/ n = 1 \/ n = 2 \/ n = 3 \/ n = 4 \/ n = 5 \/ n = 6 \/ n = 7) by lia.
  repeat (destruct Hc as [->|Hc]; [destruct wk, wv, (Z.testbit (marked o) _); reflexivity|]).
  subst. destruct wk, wv, (Z.testbit (marked o) _); reflexivity.
Qed.

Lemma weak_bits_le r wk wv o : mark_le [r] r o (weak_bits wk wv o).
Proof.
  split.
  - apply body_le_refl.
  - intros n Hn. rewrite weak_bits_bit, (proj2 (Z.eqb_neq n 3)), (proj2 (Z.eqb_neq n 4)) by lia. done.
  - intros n Hn. rewrite weak_bits_bit, (proj2 (Z.eqb_neq n 3)), (proj2 (Z.eqb_neq n 4)) by lia. done.
  - intros []. by apply list_elem_of_singleton.
  - intros _. by rewrite !isblack_bit, weak_bits_bit.
  - by rewrite !isblack_bit, !testbits_white, !weak_bits_bit.
  - intros []. by apply list_elem_of_singleton.
Qed.

(** [r] is a weak table whose strong references are marked. *)
Definition weak_scanned s r : Prop := r ∈ weak (G s) /\ exists o h, heap s !! r = Some o /\ obj o = OTable h /\
  forall k, k ∈ table_refs (testbit (marked o) KEYWEAKBIT) (testbit (marked o) VALUEWEAKBIT) h -> nonwhite s k.

Lemma elem_table_refs wk wv h k :
  k ∈ table_refs wk wv h <-> metatable h = Some k \/ wk && wv = false /\
    (wv = false /\ k ∈ vals (array h) \/ exists n, n ∈ node h /\ k ∈ node_refs wk wv n).
Proof.
  unfold table_refs. rewrite elem_of_app.
  assert (E : k ∈ option_list (metatable h) <-> metatable h = Some k).
  { destruct (metatable h) as [mt|]; [cbn; rewrite list_elem_of_singleton; split; congruence|split; [intros Hk; by apply elem_of_nil in Hk|done]]. }
  rewrite E. destruct (wk && wv); [split; [intros [|Hk]; [by left|by apply elem_of_nil in Hk]|intros [|[Hk _]]; [by left|done]]|].
  rewrite elem_of_app, list_elem_of_join. destruct wv.
  - split.
    + intros [|[Hk|(l & Hk & Hl)]]; [by left|by apply elem_of_nil in Hk|right]. apply list_elem_of_fmap in Hl as (n & -> & Hn). eauto 6.
    + intros [|(_ & [[Hf _]|(n & Hn & Hk)])]; [by left|done|]. right; right. exists (node_refs wk true n). split; [done|].
      apply list_elem_of_fmap. eauto.
  - split.
    + intros [|[Hk|(l & Hk & Hl)]]; [by left|by right; split; [|left]|right]. apply list_elem_of_fmap in Hl as (n & -> & Hn). eauto 6.
    + intros [|(_ & [[_ Hk]|(n & Hn & Hk)])]; [by left|by right; left|]. right; right. exists (node_refs wk false n). split; [done|].
      apply list_elem_of_fmap. eauto.
Qed.

Lemma vals_marked s l k : Forall (val_marked s) l -> k ∈ vals l -> nonwhite s k.
Proof. intros Hl Hk. apply elem_vals in Hk as (v & Hv & Hg). rewrite list.Forall_forall in Hl. by apply (Hl v Hv). Qed.

Lemma gcvalue_collectable v : gcvalue v <> None -> iscollectable v = true.
Proof. by destruct v. Qed.

(** Once its entries are marked and its empty nodes have dead keys, the
    references of a table are marked. *)
Lemma table_refs_marked s wk wv h :
  (forall mt, metatable h = Some mt -> nonwhite s mt) -> (wv = false -> Forall (val_marked s) (array h)) ->
  Forall (node_marked s wk wv) (node h) ->
  forall k, k ∈ table_refs wk wv (clear_dead h) -> nonwhite s k.
Proof.
  intros Hm Ha Hn k Hk. apply elem_table_refs in Hk as [Hk|(_ & [[Hwv Hk]|(n & Hin & Hk)])]; [by apply Hm|by eapply vals_marked; [apply Ha|]|].
  cbn in Hin. apply list_elem_of_fmap in Hin as (n0 & -> & Hn0). rewrite list.Forall_forall in Hn. specialize (Hn n0 Hn0).
  destruct (ttisnil (gval n0)) eqn:En.
  - exfalso. unfold node_refs in Hk. assert (Ev : ttisnil (gval (removeentry n0)) = true).
    { unfold removeentry. destruct (gkey n0) as [v|v]; [|done]. by destruct (iscollectable v). }
    rewrite Ev in Hk. destruct (wk || wv); [by apply elem_of_nil in Hk|]. unfold removeentry in Hk.
    destruct (gkey n0) as [v|v] eqn:Eg; [|by rewrite Eg in Hk; apply elem_of_nil in Hk].
    destruct (iscollectable v) eqn:Ec; [by apply elem_of_nil in Hk|]. rewrite Eg in Hk.
    apply elem_vals in Hk as (v' & Hv' & Hg). apply list_elem_of_singleton in Hv' as ->.
    by rewrite gcvalue_collectable in Ec by congruence.
  - unfold node_refs in Hk. rewrite En in Hk. assert (Hnil : gval n0 <> VNil) by (by destruct (gval n0)).
    destruct (Hn Hnil) as [Hkey Hval]. apply elem_of_app in Hk as [Hk|Hk].
    + destruct wk; [by apply elem_of_nil in Hk|]. apply elem_vals in Hk as (v' & Hv' & Hg). apply list_elem_of_singleton in Hv' as ->.
      by apply Hkey.
    + destruct wv; [by apply elem_of_nil in Hk|]. apply elem_vals in Hk as (v' & Hv' & Hg). apply list_elem_of_singleton in Hv' as ->.
      by apply Hval.
Qed.

Lemma testbit_spec x n : 0 <= n -> testbit x n = Z.testbit x n.
Proof. intros Hn. unfold testbit, bitmask. by apply testbits_shiftl. Qed.

Lemma node_marked_le s wk wv l l' :
  Forall2 (fun n n' => n' = n \/ n' = bury n) l l' -> Forall (node_marked s wk wv) l -> Forall (node_marked s wk wv) l'.
Proof.
  intros Hf Hm. apply list.Forall_forall. intros n' Hn'. apply list_elem_of_lookup in Hn' as [i Hi].
  destruct (Forall2_lookup_r _ _ _ _ _ Hf Hi) as (n & Hi' & Hnn). rewrite list.Forall_forall in Hm.
  pose proof (Hm n (list_elem_of_lookup_2 _ _ _ Hi')) as Hok. destruct Hnn as [-> | ->]; [done|].
  intros Hv. rewrite (bu_val _ _ (bury_buried n)) in Hv. unfold bury in *.
  destruct (ttisnil (gval n)) eqn:En; [by destruct (gval n)|by apply Hok].
Qed.

Lemma ms_table X B s s' r h : mstep X B s s' -> body_at s r = Some (OTable h) -> exists h', body_at s' r = Some (OTable h') /\ table_le h h'.
Proof. intros Hs Hb. destruct (ms_body _ _ _ _ Hs _ _ Hb) as (b & Hb' & h' & -> & Hl). eauto. Qed.

(** The metatable and the mode, and the weak list *)
Lemma traverse_mode s r h :
  body_at s r = Some (OTable h) -> nonwhite s r -> heap_closed s ->
  exists mode s', (match metatable h with Some mt => markobject mt | None => mret tt end;; fasttm (metatable h) TM_MODE) s = Ok mode s' /\
    mstep [] [] s s' /\ (forall mt, metatable h = Some mt -> nonwhite s' mt) /\
    (has_mode mode = true -> moded s' r mode) /\ (has_mode mode = false -> ~ weak_table s' r).
Proof.
  intros Hb Hn Hc. destruct (Hc _ _ Hb) as (_ & Hm & _).
  assert (H1 : steps [] [] (match metatable h with Some mt => markobject mt | None => mret tt end) s
    (fun s1 => forall mt, metatable h = Some mt -> nonwhite s1 mt)).
  { destruct (metatable h) as [mt|]; [|by apply steps_ret]. destruct (Hm mt eq_refl) as [hm Hbm].
    eapply steps_mono; [apply markobject_steps; [by rewrite Hbm|done]|]. by intros s1 _ Hn1 mt' [= <-]. }
  destruct H1 as (s1 & E1 & H1 & Hmt). destruct (fasttm_step s1 (metatable h) TM_MODE) as (mode & s2 & E2 & H2 & _ & Hmode).
  - by eapply closed_step.
  - intros mt Emt. eapply (ms_val_ok _ _ _ _ H1 (VTable mt)). by apply Hm.
  - done.
  - destruct Hmode as [Hnone Hmode]. exists mode, s2. rewrite (m_bind_eq _ _ _ _ _ E1). split; [done|].
    destruct (ms_table _ _ _ _ _ _ H1 Hb) as (h1 & Hb1 & Hl1). destruct (tl_rest _ _ Hl1) as (Em1 & _).
    assert (Hmd : forall mt, metatable h = Some mt -> moded s2 r mode).
    { intros mt Emt. destruct (Hmode mt Emt) as (hm & Hbm & Hw & Ev). apply (ms_moded _ _ _ _ H2). exists h1, mt, hm. split_and!; congruence || done. }
    split_and!; [by eapply mstep_trans0|intros mt Emt; eapply ms_nonwhite; [exact H2|by apply Hmt]| |].
    + intros Hk. destruct (metatable h) as [mt|]; [by apply (Hmd mt)|]. by rewrite Hnone in Hk.
    + intros Hk (mode' & Hmd' & Hw'). destruct (metatable h) as [mt|].
      * rewrite (moded_unique _ _ _ _ Hmd' (Hmd mt eq_refl)) in Hw'. congruence.
      * destruct Hmd' as (h2 & mt & _ & Hb2 & Em2 & _). destruct (ms_table _ _ _ _ _ _ H2 Hb1) as (h2' & Hb2' & Hl2).
        destruct (tl_rest _ _ Hl2) as (Em2' & _). congruence.
Qed.

Lemma traverse_weak wk wv s r h :
  body_at s r = Some (OTable h) -> nonwhite s r -> weak_table s r ->
  steps [] [r] (upd_object r (weak_bits wk wv);; modG (fun g => set_weak (r :: weak g) g)) s
    (fun s' => r ∈ weak (G s') /\ exists o, heap s' !! r = Some o /\ obj o = OTable h /\
      testbit (marked o) KEYWEAKBIT = wk /\ testbit (marked o) VALUEWEAKBIT = wv).
Proof.
  intros Hb Hn Hw. destruct (body_object _ _ _ Hb) as (o & Ho & Hob). eapply steps_bind.
  - intros r' Hr'. by eapply singleton_nonwhite.
  - eapply (steps_upd _ _ _ _ _ _ (fun s' => s' = paint r (weak_bits wk wv o) s)); [done|done|apply weak_bits_le| |done].
    left. destruct Hn as (o2 & Ho2 & Hw2). by replace o with o2 by congruence.
  - intros s1 H1 ->. eexists. split; [reflexivity|]. split.
    + apply (set_globals_step _ _ (fun g => set_weak (r :: weak g) g)); [by intros []| |done|by left|].
      * intros r' Hr'. cbn. apply elem_of_cons. by right.
      * intros r' Hr'. cbn in Hr'. apply elem_of_cons in Hr' as [->|]; [right|by left].
        split_and!; [by apply list_elem_of_singleton|by eapply ms_nonwhite|by eapply ms_weak_table].
    + split; [cbn; apply elem_of_cons; by left|]. exists (weak_bits wk wv o). cbn [heap set_G set_globals]. rewrite heap_paint, decide_True by done.
      rewrite !testbit_spec by done. split_and!; [done|done|by rewrite weak_bits_bit|by rewrite weak_bits_bit].
Qed.

Lemma traverse_entries_steps s r h h0 wk wv :
  body_at s r = Some (OTable h) -> table_le h0 h -> nonwhite s r -> heap_closed s -> body_ok s (OTable h0) ->
  (forall mt, metatable h0 = Some mt -> nonwhite s mt) ->
  steps [] [] (traverse_entries r h0 wk wv) s (fun s' => exists h', body_at s' r = Some (OTable h') /\
    forall k, k ∈ table_refs wk wv h' -> nonwhite s' k).
Proof.
  intros Hb Hl Hn Hc (_ & _ & Ha & Hns) Hm. unfold traverse_entries.
  eapply (steps_bind0 _ _ _ _ (fun s1 => wv = false -> Forall (val_marked s1) (array h0))); [|].
  { destruct wv; cbn [negb]; [by apply steps_ret|]. eapply steps_mono; [apply mark_values_steps; [by apply Forall_rev|done]|].
    intros s1 _ Hf _. apply Forall_rev in Hf. by rewrite rev_involutive in Hf. }
  intros s1 H1 Hav. eapply steps_bind0; [apply mark_nodes_steps|].
  { apply Forall_rev. eapply list.Forall_impl; [exact Hns|]. intros n Hok Hg. destruct (Hok Hg). split; by eapply ms_val_ok. }
  { by eapply closed_step. }
  intros s2 H2 Hf. apply Forall_rev in Hf. rewrite rev_involutive in Hf.
  pose proof (mstep_trans0 _ _ _ _ H1 H2) as H02. destruct (ms_table _ _ _ _ _ _ H02 Hb) as (h2 & Hb2 & Hl2).
  pose proof (table_le_trans _ _ _ Hl Hl2) as Hl02. unfold steps. setoid_rewrite (m_bind_eq _ _ _ _ _ (gco2h_at _ _ _ Hb2)).
  rewrite set_body_eq by (by rewrite Hb2). eexists. split; [reflexivity|]. split.
  - eapply put_body_step; [exact Hb2|]. eexists. split; [done|]. apply clear_dead_le.
  - exists (clear_dead h2). rewrite body_at_put, decide_True, Hb2 by done. split; [done|].
    assert (H3 : mstep [] [] s2 (put_body r (OTable (clear_dead h2)) s2)).
    { eapply put_body_step; [exact Hb2|]. eexists. split; [done|]. apply clear_dead_le. }
    intros k Hk. eapply ms_nonwhite; [exact H3|]. revert k Hk. apply table_refs_marked.
    + destruct (tl_rest _ _ Hl02) as (-> & _). intros mt Emt. eapply ms_nonwhite; [exact H02|by apply Hm].
    + rewrite (tl_array _ _ Hl02). intros E. eapply list.Forall_impl; [exact (Hav E)|]. intros v. by eapply val_marked_step.
    + eapply node_marked_le; [apply (tl_nodes _ _ Hl02)|done].
Qed.

Lemma refs_table s r h : body_at s r = Some (OTable h) -> refs s r = table_refs false false h.
Proof. unfold refs. by intros ->. Qed.

(** The bits of a table that is not being scanned *)
Lemma ms_weak_bits X s s' r o n : mstep X [] s s' -> heap s !! r = Some o -> is_table o -> 3 <= n < 8 ->
  exists o', heap s' !! r = Some o' /\ testbit (marked o') n = testbit (marked o) n.
Proof.
  intros Hs Ho Ht Hn. destruct (ms_mark _ _ _ _ Hs _ _ Ho) as (o' & Ho' & Hm). exists o'. split; [done|].
  rewrite !testbit_spec by lia. apply (ml_weak _ _ _ _ Hm); [apply not_elem_of_nil|done|done].
Qed.

Lemma traversetable_spec s r h :
  body_at s r = Some (OTable h) -> nonwhite s r -> heap_closed s ->
  exists w s', traversetable r s = Ok w s' /\ mstep [] [r] s s' /\
    (if w : bool then weak_scanned s' r /\ weak_moded s' r else mstep [] [] s s' /\ marked_refs s' r /\ ~ weak_table s' r).
Proof.
  intros Hb Hn Hc. unfold traversetable. rewrite (m_bind_eq _ _ _ _ _ (gco2h_at _ _ _ Hb)).
  destruct (traverse_mode s r h Hb Hn Hc) as (mode & s1 & E1 & H1 & Hmt & Hmode & Hnot). rewrite <- m_bind_bind. rewrite (m_bind_eq _ _ _ _ _ E1).
  cbv zeta. set (wk := mode_has 107 mode). set (wv := mode_has 118 mode).
  destruct (ms_table _ _ _ _ _ _ H1 Hb) as (h1 & Hb1 & Hl1). pose proof (ms_nonwhite _ _ _ _ H1 _ Hn) as Hn1.
  pose proof (closed_step _ _ _ _ H1 Hc) as Hc1.
  assert (Hok : body_ok s1 (OTable h)).
  { apply (body_ok_step _ _ _ _ (OTable h) (OTable h) H1 Hc); [apply body_le_refl|by apply (Hc r)]. }
  assert (H1r : mstep [] [r] s s1) by (eapply mstep_weaken; [done|apply list_subseteq_nil|exact H1]).
  assert (Htr : forall s', mstep [] [r] s1 s' -> mstep [] [r] s s').
  { intros s' Hs'. eapply mstep_trans; [|exact H1r|exact Hs']. intros r' Hr'. by eapply singleton_nonwhite. }
  destruct (wk || wv) eqn:Ew.
  - specialize (Hmode Ew). destruct (traverse_weak wk wv s1 r h1 Hb1 Hn1) as (s2 & E2 & H2 & Hin & o2 & Ho2 & Hob2 & Hk2 & Hv2); [by exists mode|].
    assert (Hmd2 : weak_moded s2 r) by (exists o2, mode; split_and!; [done|by apply (ms_moded _ _ _ _ H2)|done|done|done]).
    rewrite (m_bind_eq _ _ _ _ _ E2). assert (Hb2 : body_at s2 r = Some (OTable h1)) by (unfold body_at; rewrite Ho2; cbn; by rewrite Hob2).
    pose proof (closed_step _ _ _ _ H2 Hc1) as Hc2. pose proof (ms_nonwhite _ _ _ _ H2 _ Hn1) as Hn2.
    assert (Hmt2 : forall mt, metatable h = Some mt -> nonwhite s2 mt) by (intros mt Emt; eapply ms_nonwhite; [exact H2|by apply Hmt]).
    destruct (wk && wv) eqn:Ekv.
    + exists true, s2. split; [done|]. split; [by apply Htr|]. split; [split; [done|]|done]. exists o2, h1. split_and!; [done|done|].
      intros k Hk. rewrite Hk2, Hv2 in Hk. apply elem_table_refs in Hk as [Hk|[Hk _]]; [|congruence].
      apply Hmt2. destruct (tl_rest _ _ Hl1) as (<- & _). done.
    + destruct (traverse_entries_steps s2 r h1 h wk wv Hb2 Hl1 Hn2 Hc2) as (s3 & E3 & H3 & h3 & Hb3 & Hr3); [|done|].
      { apply (body_ok_step _ _ _ _ (OTable h) (OTable h) H2 Hc1); [apply body_le_refl|done]. }
      rewrite (m_bind_eq _ _ _ _ _ E3). exists true, s3. split; [done|].
      assert (H23 : mstep [] [r] s2 s3) by (eapply mstep_weaken; [done|apply list_subseteq_nil|exact H3]).
      split. { apply Htr. eapply mstep_trans; [|exact H2|exact H23]. intros r' Hr'. by eapply singleton_nonwhite. }
      destruct (ms_weak_bits _ _ _ _ _ KEYWEAKBIT H3 Ho2) as (o3 & Ho3 & Ek); [by exists h1|done|].
      destruct (ms_weak_bits _ _ _ _ _ VALUEWEAKBIT H3 Ho2) as (o3' & Ho3' & Ev); [by exists h1|done|].
      assert (o3' = o3) as -> by congruence. split; [split; [by apply (ms_weakl _ _ _ _ H3)|]|by eapply ms_weak_moded; [exact H3|apply not_elem_of_nil|]]. exists o3, h3. split_and!; [done| |].
      * unfold body_at in Hb3. rewrite Ho3 in Hb3. by injection Hb3 as ->.
      * intros k Hk. rewrite Ek, Ev, Hk2, Hv2 in Hk. by apply Hr3.
  - apply orb_false_iff in Ew as [Ewk Ewv]. rewrite m_ret_bind, Ewk, Ewv. cbn [andb orb].
    destruct (traverse_entries_steps s1 r h1 h false false Hb1 Hl1 Hn1 Hc1 Hok Hmt) as (s3 & E3 & H3 & h3 & Hb3 & Hr3).
    rewrite (m_bind_eq _ _ _ _ _ E3). exists false, s3. split; [done|].
    assert (H03 : mstep [] [] s s3) by (by eapply mstep_trans0). split; [eapply mstep_weaken; [done|apply list_subseteq_nil|exact H03]|].
    split; [done|]. split; [intros k Hk; rewrite (refs_table _ _ _ Hb3) in Hk; by apply Hr3|].
    intros Hw. apply (Hnot (proj2 (orb_false_iff _ _) (conj Ewk Ewv))). by eapply ms_weak_back.
Qed.

(** ** Closures *)

Lemma traverseclosure_steps s cl :
  body_ok s (OClosure cl) -> heap_closed s ->
  steps [] [] (traverseclosure cl) s (fun s' => forall k, k ∈ body_refs s (OClosure cl) -> nonwhite s' k).
Proof.
  intros Hok Hc. destruct cl as [e f l|e p l]; destruct Hok as [[he He] Hl]; cbn [traverseclosure].
  - eapply steps_bind0; [apply markobject_steps; [by rewrite He|done]|]. intros s1 H1 Hn.
    eapply steps_mono; [apply mark_values_steps; [|by eapply closed_step]|].
    { eapply list.Forall_impl; [exact Hl|]. intros v. by eapply ms_val_ok. }
    intros s2 H2 Hf k Hk. cbn [body_refs] in Hk. apply elem_of_cons in Hk as [->|Hk]; [by eapply ms_nonwhite|exact (vals_marked _ _ _ Hf Hk)].
  - eapply steps_bind0; [apply markobject_steps; [by rewrite He|done]|]. intros s1 H1 Hn.
    eapply steps_mono; [apply mark_upvals_steps; [|by eapply closed_step]|].
    { eapply list.Forall_impl; [exact Hl|]. intros u (r & uv & -> & Hr). destruct (ms_body _ _ _ _ H1 _ _ Hr) as (b & Hb & ->). eauto. }
    intros s2 H2 Hf k Hk. cbn [body_refs] in Hk. apply elem_of_cons in Hk as [->|Hk]; [by eapply ms_nonwhite|]. apply Hf.
    apply list_elem_of_omap in Hk as (u & Hu & Eu). cbn in Eu. by subst.
Qed.

(** ** Threads *)

Lemma thread_le_step X B s L t t' : th s L = Some t -> thread_le t t' -> mstep X B s (put L t' s).
Proof. intros Ht Hl. apply (put_body_step _ _ _ _ (OThread t)); [by apply th_body|]. by exists t'. Qed.

Lemma upd_thread s L t f : th s L = Some t -> upd L f s = Ok tt (put L (f t) s).
Proof. intros Ht. rewrite <- (put_th _ _ _ Ht) at 1. apply p_upd_last. by exists t. Qed.

Lemma th_put s L t t' : th s L = Some t -> th (put L t' s) L = Some t'.
Proof. intros Ht. apply th_put_eq. by rewrite Ht. Qed.

Lemma clear_slot_le t i : top t <= i -> thread_le t (set_stack (setZ (stack t) i VNil) t).
Proof.
  intros Hi. split; [|done| |].
  - exists (stack_last t), (base_ci t), (setZ (stack t) i VNil). by destruct t.
  - intros [_ Hc Hl]. unfold stacksize in *. cbn [stack set_stack]. rewrite lenZ_setZ. split; [apply Hc|done].
  - intros j v Hv. cbn in Hv. destruct (decide (i = j)) as [<-|Hne].
    + destruct (decide (0 <= i < lenZ (stack t))) as [Hr|Hr]; [|exfalso; pose proof (getZ_Some _ _ _ Hv) as Hx; rewrite lenZ_setZ in Hx; lia].
      rewrite getZ_setZ_eq in Hv by done. injection Hv as <-. by right.
    + rewrite getZ_setZ_ne in Hv by done. by left.
Qed.

Lemma nil_slots_steps n L i s t :
  th s L = Some t -> top t <= i -> 0 <= i -> i + Z.of_nat n <= stacksize t ->
  steps [] [] (nil_slots n L i) s (fun s' => exists t', th s' L = Some t' /\ thread_le t t' /\ stacksize t' = stacksize t /\ size_ci t' = size_ci t).
Proof.
  revert i s t. induction n as [|n IH]; intros i s t Ht Hi H0 Hn; cbn [nil_slots].
  - apply steps_ret. exists t. split_and!; [done|apply thread_le_refl|done|done].
  - set (t1 := set_stack (setZ (stack t) i VNil) t).
    assert (E : setstk L i VNil s = Ok tt (put L t1 s)).
    { rewrite <- (put_th _ _ _ Ht) at 1. apply p_setstk_last; [by exists t|lia]. }
    assert (Hl1 : thread_le t t1) by (by apply clear_slot_le).
    assert (Hsz : stacksize t1 = stacksize t) by (unfold stacksize; cbn; apply lenZ_setZ).
    destruct (IH (i + 1) (put L t1 s) t1) as (s' & E' & Hs' & t' & Ht' & Hl' & Hsz' & Hci').
    { by apply (th_put _ _ t). } { cbn. lia. } { lia. } { rewrite Hsz. lia. }
    exists s'. rewrite (m_bind_eq _ _ _ _ _ E). split; [done|]. split; [eapply mstep_trans0; [by eapply thread_le_step|done]|].
    exists t'. split_and!; [done|by eapply thread_le_trans|congruence|done].
Qed.

Lemma getZ_take {A} (l : list A) n i (x : A) : getZ (take n l) i = Some x -> getZ l i = Some x.
Proof. unfold getZ. destruct (0 <=? i); [|done]. intros E. by apply lookup_take_Some in E as [E _]. Qed.

Lemma lenZ_takeZ {A} (l : list A) n : 0 <= n <= lenZ l -> lenZ (take (Z.to_nat n) l) = n.
Proof. unfold lenZ. rewrite length_take. lia. Qed.

Lemma realloc_shrink {A} (x : A) n l : n <= lenZ l -> realloc x n l = take (Z.to_nat n) l.
Proof. intros Hn. unfold realloc, lenZ in *. replace (Z.to_nat n - length l)%nat with 0%nat by lia. apply app_nil_r. Qed.

Lemma shrink_ci_le t n : ci t + 1 <= n <= size_ci t -> thread_le t (set_base_ci (realloc junk_ci n (base_ci t)) t).
Proof.
  intros Hn. rewrite realloc_shrink by (unfold size_ci in *; lia). split.
  - exists (stack_last t), (take (Z.to_nat n) (base_ci t)), (stack t). by destruct t.
  - cbn. rewrite take_take. f_equal. lia.
  - intros [_ Hc Hl]. split; [|done]. unfold size_ci in *. cbn [base_ci set_base_ci]. rewrite lenZ_takeZ by lia. lia.
  - by left.
Qed.

Lemma shrink_stack_le t n : stack_limit t < n <= stacksize t -> 0 <= n ->
  thread_le t (set_stack_last (n - 1 - EXTRA_STACK) (set_stack (realloc junk n (stack t)) t)).
Proof.
  intros Hn H0. rewrite realloc_shrink by (unfold stacksize in *; lia). split.
  - by exists (n - 1 - EXTRA_STACK), (base_ci t), (take (Z.to_nat n) (stack t)).
  - done.
  - intros [_ Hc Hl]. split; [apply Hc|]. unfold stacksize in *. cbn [stack set_stack set_stack_last]. rewrite lenZ_takeZ by lia. lia.
  - intros i v Hv. left. cbn in Hv. by apply getZ_take in Hv.
Qed.

Lemma checkstacksizes_steps L s t :
  th s L = Some t -> thread_wf t ->
  steps [] [] (checkstacksizes L (stack_limit t)) s (fun s' => exists t', th s' L = Some t' /\ thread_le t t').
Proof.
  intros Ht Hw. pose proof (tw_ci _ Hw) as Hci. pose proof (tw_limit _ Hw) as Hlim.
  unfold checkstacksizes. unfold steps. setoid_rewrite (s_thread _ _ _ Ht). cbv zeta.
  destruct (LUAI_MAXCALLS <? size_ci t); [apply steps_ret; exists t; split; [done|apply thread_le_refl]|].
  eapply (steps_bind0 _ _ _ _ (fun s1 => exists t1, th s1 L = Some t1 /\ thread_le t t1 /\ stacksize t1 = stacksize t)).
  - destruct (_ && _) eqn:Ec; [|apply steps_ret; exists t; split_and!; [done|apply thread_le_refl|done]].
    apply andb_true_iff in Ec as [E1 E2]. apply Z.ltb_lt in E1, E2. unfold BASIC_CI_SIZE in E2.
    assert (Hl : thread_le t (set_base_ci (realloc junk_ci (Z.quot (size_ci t) 2) (base_ci t)) t)).
    { apply shrink_ci_le. rewrite Z.quot_div_nonneg by lia. pose proof (Z.div_mod (size_ci t) 2). pose proof (Z.mod_pos_bound (size_ci t) 2). lia. }
    eexists. split; [by apply upd_thread|]. split; [by eapply thread_le_step|].
    eexists. split; [by apply (th_put _ _ t)|]. done.
  - intros s1 H1 (t1 & Ht1 & Hl1 & Hsz1). destruct (thread_le_limit _ _ Hl1) as (El & _).
    destruct (_ && _) eqn:Ec; [|apply steps_ret; by exists t1].
    apply andb_true_iff in Ec as [E1 E2]. apply Z.ltb_lt in E1, E2. unfold BASIC_STACK_SIZE, LUA_MINSTACK, EXTRA_STACK in E2.
    set (m := Z.quot (stacksize t) 2). assert (Hm : 2 * m <= stacksize t < 2 * m + 2).
    { unfold m. rewrite Z.quot_div_nonneg by lia. pose proof (Z.div_mod (stacksize t) 2). pose proof (Z.mod_pos_bound (stacksize t) 2). lia. }
    assert (Hl : thread_le t1 (set_stack_last m (set_stack (realloc junk (m + 1 + EXTRA_STACK) (stack t1)) t1))).
    { replace m with (m + 1 + EXTRA_STACK - 1 - EXTRA_STACK) at 1 by lia. apply shrink_stack_le; unfold EXTRA_STACK; lia. }
    eexists. split; [unfold luaD_reallocstack; by apply upd_thread|]. split; [by eapply thread_le_step|].
    eexists. split; [by apply (th_put _ _ t1)|]. by eapply thread_le_trans.
Qed.

Lemma limit_top t : top t <= stack_limit t.
Proof.
  unfold stack_limit. generalize (take (Z.to_nat (ci t + 1)) (base_ci t)). intros l. generalize (top t). induction l as [|c l IH]; intros n; [done|].
  cbn [fold_left]. etransitivity; [|apply IH]. destruct (Z.ltb_spec n (ci_top c)); lia.
Qed.

Lemma traversestack_steps L s t :
  th s L = Some t -> heap_closed s -> steps [] [] (traversestack L) s (fun s' => marked_refs s' L).
Proof.
  intros Ht Hc. destruct (Hc _ _ (th_body _ _ _ Ht)) as (Hw & Hg & Hf). pose proof (tw_top _ Hw) as Htop. pose proof (tw_limit _ Hw) as Hlim.
  pose proof (limit_top t) as Hlt. unfold traversestack, steps. setoid_rewrite (s_thread _ _ _ Ht).
  eapply steps_bind0; [by apply markvalue_steps|]. intros s1 H1 Hmg. cbv zeta.
  eapply steps_bind0; [apply mark_values_steps; [|by eapply closed_step]|].
  { eapply list.Forall_impl; [exact Hf|]. intros v. by eapply ms_val_ok. }
  intros s2 H2 Hmv. pose proof (mstep_trans0 _ _ _ _ H1 H2) as H02. destruct (ms_thread _ _ _ _ H02 _ _ Ht) as (t2 & Ht2 & Hl2).
  destruct (thread_le_limit _ _ Hl2) as (El & _ & Et & Eg). pose proof (thread_le_wf _ _ Hl2 Hw) as Hw2.
  eapply steps_bind0; [apply (nil_slots_steps _ _ _ _ t2 Ht2); [lia|lia|pose proof (tw_limit _ Hw2); lia]|].
  intros s3 H3 (t3 & Ht3 & Hl3 & _). destruct (thread_le_limit _ _ Hl3) as (El3 & _ & Et3 & Eg3).
  rewrite <- El, <- El3. eapply steps_mono; [apply (checkstacksizes_steps _ _ t3 Ht3); by eapply thread_le_wf|].
  intros s4 H4 _ k Hk. pose proof (mstep_trans0 _ _ _ _ H3 H4) as H24. eapply ms_nonwhite; [exact H24|].
  pose proof (refs_le _ _ _ _ (mstep_trans0 _ _ _ _ H02 H24) _ _ Hk) as Hk0. unfold refs in Hk0. rewrite (th_body _ _ _ Ht) in Hk0.
  cbn [body_refs] in Hk0. apply elem_vals in Hk0 as (v & Hv & Hgk). apply elem_of_cons in Hv as [->|Hv].
  - eapply ms_nonwhite; [exact H2|]. by apply Hmg.
  - rewrite list.Forall_forall in Hmv. by apply (Hmv v Hv).
Qed.

(** ** One gray object *)

Lemma black2gray_bit o n : 0 <= n < 8 -> Z.testbit (marked (black2gray o)) n = Z.testbit (marked o) n && negb (n =? 2).
Proof.
  intros Hn. cbn. unfold resetbit, resetbits. rewrite Z.land_spec. f_equal.
  assert (Hc : n = 0 \/ n = 1 \/ n = 2 \/ n = 3 \/ n = 4 \/ n = 5 \/ n = 6 \/ n = 7) by lia.
  by repeat (destruct Hc as [->|Hc]; [reflexivity|]); subst.
Qed.

Lemma black2gray_le r o : ~ is_open o -> mark_le [r] r o (black2gray o).
Proof.
  intros Hopen.
  assert (Hr : r ∈ [r]) by (by apply list_elem_of_singleton). split; [apply body_le_refl| | |by intros []|by intros Ho; destruct Hopen| |by intros []].
  - intros n Hn. rewrite black2gray_bit by lia. by intros [? _]%andb_true_iff.
  - intros n Hn. rewrite black2gray_bit, (proj2 (Z.eqb_neq n 2)) by lia. apply andb_true_r.
  - by rewrite isblack_bit, black2gray_bit, andb_false_r.
Qed.

Lemma traversable_open s r o : heap s !! r = Some o -> traversable s r -> ~ is_open o.
Proof. intros Ho Ht (L & lv & E). unfold traversable, body_at in Ht. rewrite Ho in Ht. cbn in Ht. by rewrite E in Ht. Qed.

Lemma black2gray_steps r s :
  nonwhite s r -> traversable s r -> steps [] [r] (upd_object r black2gray) s (fun s' => exists o, heap s !! r = Some o /\ s' = paint r (black2gray o) s).
Proof.
  intros (o & Ho & Hw) Ht. eapply steps_upd; [done|done|apply black2gray_le; by eapply traversable_open|by left|by exists o].
Qed.

(** A weak table becomes gray again. *)
Lemma black2gray_weak r s :
  nonwhite s r -> weak_scanned s r -> weak_moded s r ->
  exists s', upd_object r black2gray s = Ok tt s' /\ mstep [] [r] s s' /\ weak_scanned s' r /\ weak_moded s' r.
Proof.
  intros Hn (Hin & o & h & Ho & Eo & Hrefs) (o1 & mode & Ho1 & Hmd & Hw & Hk & Hv). assert (o1 = o) as -> by congruence.
  assert (Hb : body_at s r = Some (OTable h)) by (unfold body_at; by rewrite Ho, <- Eo).
  destruct (black2gray_steps r s Hn) as (s' & E & H' & o2 & Ho2 & Es'); [unfold traversable; by rewrite Hb|]. assert (o2 = o) as -> by congruence.
  assert (Hbit : forall n, 3 <= n < 8 -> testbit (marked (black2gray o)) n = testbit (marked o) n).
  { intros n Hn'. rewrite !testbit_spec, black2gray_bit, (proj2 (Z.eqb_neq n 2)) by lia. apply andb_true_r. }
  assert (Ho' : heap s' !! r = Some (black2gray o)) by (subst s'; by rewrite heap_paint, decide_True).
  exists s'. split_and!; [done|done|split; [by apply (ms_weakl _ _ _ _ H')|]|].
  - exists (black2gray o), h. split_and!; [done|done|]. rewrite !Hbit by done. intros k Hk'. eapply ms_nonwhite; [exact H'|by apply Hrefs].
  - exists (black2gray o), mode. rewrite !Hbit by done. split_and!; [done|by apply (ms_moded _ _ _ _ H')|done..].
Qed.

Lemma not_weak_step X B s s' r b : mstep X B s s' -> body_at s r = Some b -> (forall h, b <> OTable h) -> ~ weak_table s' r.
Proof.
  intros Hs Hb Hne (mode & Hm & _). destruct (moded_table _ _ _ Hm) as [h' Hh]. destruct (ms_back _ _ _ _ Hs _ _ Hh) as (b0 & Hb0 & Hl).
  destruct (body_le_table _ _ Hl) as (h & -> & _). apply (Hne h). congruence.
Qed.

(** Objects of the gray list are marked, and have a list field. *)
Definition gray_ok s : Prop := forall r, r ∈ gray (G s) -> nonwhite s r /\ traversable s r.

(** The traversal of [r] is complete: it is black, or in one of the lists of
    objects that the last part of the mark phase traverses again. *)
Definition traversed s r : Prop :=
  marked_refs s r /\ (black s r \/ r ∈ grayagain (G s)) /\ ~ weak_table s r \/ weak_scanned s r /\ weak_moded s r.

Definition popped (rest : list Z) s : State := set_globals (set_gray rest) s.

Lemma popped_heap rest s : heap (popped rest s) = heap s.
Proof. done. Qed.

Lemma propagatemark_spec s r rest :
  gray (G s) = r :: rest -> heap_closed s -> gray_ok s ->
  exists c s', propagatemark s = Ok c s' /\ mstep [] [r] (popped rest s) s' /\ traversed s' r.
Proof.
  intros Hg Hc Hgo. destruct (Hgo r) as [(o & Ho & Hw) Ht]; [rewrite Hg; apply elem_of_cons; by left|].
  set (s1 := paint r (gray2black o) (popped rest s)).
  assert (Ho1 : heap s1 !! r = Some (gray2black o)) by (unfold s1; by rewrite heap_paint, decide_True).
  assert (H1 : mstep [] [] (popped rest s) s1) by (apply (paint_step _ _ r o); [done|done|apply gray2black_le; [done|by eapply traversable_open]|by left]).
  assert (H1r : mstep [] [r] (popped rest s) s1) by (eapply mstep_weaken; [done|apply list_subseteq_nil|exact H1]).
  assert (Hk1 : black s1 r) by (exists (gray2black o); rewrite gray2black_white, gray2black_black; done).
  assert (Hc1 : heap_closed s1) by (by eapply closed_step).
  assert (Hb1 : body_at s1 r = Some (obj o)) by (unfold body_at; by rewrite Ho1).
  assert (Htr : forall s', mstep [] [r] s1 s' -> mstep [] [r] (popped rest s) s').
  { intros s' Hs'. eapply mstep_trans; [|exact H1r|exact Hs']. intros r' Hr'. apply list_elem_of_singleton in Hr' as ->. by exists o. }
  unfold propagatemark. change ((getG ≫= ?k) s) with (k (G s) s). cbv beta. rewrite Hg.
  rewrite (m_bind_eq _ _ _ _ _ (upd_object_paint _ _ _ _ Ho)).
  change ((modG ?f ≫= ?k) (paint r (gray2black o) s)) with (k tt s1). cbv beta.
  assert (Eo : object r s1 = Ok (gray2black o) s1) by (unfold object; by rewrite Ho1).
  rewrite (m_bind_eq _ _ _ _ _ Eo). change (obj (gray2black o)) with (obj o).
  assert (Hts : traversable s1 r) by (unfold traversable, body_at in *; rewrite Ho in Ht; by rewrite Ho1).
  unfold traversable, body_at in Ht. rewrite Ho in Ht. cbn in Ht. destruct (obj o) as [h|u|cl|uv|t] eqn:Eob; try done.
  - destruct (traversetable_spec s1 r h Hb1 (black_nonwhite _ _ Hk1) Hc1) as (w & s2 & E2 & H2 & Hend).
    rewrite (m_bind_eq _ _ _ _ _ E2). destruct w.
    + assert (Hn2 : nonwhite s2 r) by (eapply ms_nonwhite; [exact H2|by apply black_nonwhite]).
      destruct Hend as [Hsc Hmd]. destruct (black2gray_weak r s2 Hn2 Hsc Hmd) as (s3 & E3 & H3 & Hsc3 & Hmd3).
      rewrite (m_bind_eq _ _ _ _ _ E3). do 2 eexists. split; [reflexivity|]. split; [|by right].
      apply Htr. eapply mstep_trans; [|exact H2|exact H3]. intros r' Hr'. eapply singleton_nonwhite; [by apply black_nonwhite|done].
    + destruct Hend as (H2' & Hm & Hnw). do 2 eexists. split; [reflexivity|]. split; [by apply Htr|]. left. split_and!; [done|left|done].
      eapply ms_black; [exact H2'|apply not_elem_of_nil|done].
  - destruct (traverseclosure_steps s1 cl) as (s2 & E2 & H2 & Hm); [by apply (Hc1 r)|done|]. rewrite (m_bind_eq _ _ _ _ _ E2).
    do 2 eexists. split; [reflexivity|]. split; [apply Htr; eapply mstep_weaken; [done|apply list_subseteq_nil|exact H2]|].
    left. split_and!; [|left; eapply ms_black; [exact H2|apply not_elem_of_nil|done]|eapply not_weak_step; [exact H2|exact Hb1|by intros []]].
    intros k Hk. apply Hm. pose proof (refs_le _ _ _ _ H2 _ _ Hk) as Hk1'. unfold refs in Hk1'. by rewrite Hb1 in Hk1'.
  - set (s2 := set_globals (fun g => set_grayagain (r :: grayagain g) g) s1).
    assert (H2 : mstep [] [r] s1 s2) by (apply set_globals_step; [by intros []|done|intros r' Hr'; cbn; apply elem_of_cons; by right| |by left];
      intros r' Hr'; cbn in Hr'; apply elem_of_cons in Hr' as [->|]; [right; split; [by apply black_nonwhite|done]|by left]).
    change ((modG ?f ≫= ?k) s1) with (k tt s2). cbv beta.
    assert (Hn2 : nonwhite s2 r) by (by apply black_nonwhite). destruct (black2gray_steps r s2 Hn2 Hts) as (s3 & E3 & H3 & _).
    rewrite (m_bind_eq _ _ _ _ _ E3).
    assert (H13 : mstep [] [r] s1 s3) by (eapply mstep_trans; [|exact H2|exact H3]; intros r' Hr'; by eapply singleton_nonwhite).
    assert (Ht1 : th s1 r = Some t) by (unfold th; by rewrite Hb1). destruct (ms_thread _ _ _ _ H13 _ _ Ht1) as (t3 & Ht3 & _).
    destruct (traversestack_steps r s3 t3 Ht3) as (s4 & E4 & H4 & Hm); [by eapply closed_step|]. rewrite (m_bind_eq _ _ _ _ _ E4).
    destruct (ms_thread _ _ _ _ H4 _ _ Ht3) as (t4 & Ht4 & _). rewrite (s_thread _ _ _ Ht4). do 2 eexists. split; [reflexivity|]. split.
    { apply Htr. eapply mstep_trans; [|exact H13|eapply mstep_weaken; [done|apply list_subseteq_nil|exact H4]].
      intros r' Hr'. eapply singleton_nonwhite; [by apply black_nonwhite|done]. }
    left. split_and!; [done|right|eapply not_weak_step; [exact H4|by apply th_body|by intros []]]. apply (ms_again _ _ _ _ H4), (ms_again _ _ _ _ H3). cbn. apply elem_of_cons. by left.
Qed.
End propagate.
