(* ===== verification/GcAtomic.v ===== *)
(** * The mark phase: its invariants and its end

    During the mark phase a marked object waits in a list, or is black and
    refers to marked objects only, or is an open upvalue. The last part of the
    phase, [atomic], traverses all that waits, after which marked objects refer
    to marked objects only, apart from the entries of weak tables, which it
    clears. *)

From S2P Require Import Prelude Clib Opcodes Object Debug Table TableOps Auxlib State Barrier Func Tm Do Vm Run Lstate Gc.
From S2P Require Import StateFacts GcTable GcMark GcPropagate.

Section atomic.
Context {HM : Machine} {HH : Host} {HC : Cenv} {HK : Calling} {HS : Sizes}.
Implicit Types (s : State) (r k : Z) (b : body) (v : TValue) (o : GCObject).

(** ** Invariants *)

(** Nothing is left to do for [r]. *)
Definition settled s r : Prop := marked_refs s r \/ weak_scanned s r.

(** A marked object is in the gray list, in [X], or settled. *)
Definition tri (X : list Z) s : Prop := forall r, nonwhite s r -> r ∈ gray (G s) \/ r ∈ X \/ settled s r.

(** The invariant that the program keeps with its barriers: no black object
    refers to a white one. *)
Definition tricolour s : Prop := forall r, nonwhite s r ->
  r ∈ pending (G s) \/ black s r /\ marked_refs s r \/ open_upval s r /\ ~ black s r.

Record mark_ok s : Prop := {
mo_closed : heap_closed s;
mo_pending : forall r, r ∈ pending (G s) -> nonwhite s r /\ traversable s r;
mo_weak : forall r, r ∈ weak (G s) -> exists h, body_at s r = Some (OTable h);
mo_upvals : forall r o, heap s !! r = Some o -> is_open o -> isblack o = false /\ r ∈ uvhead (G s);
mo_uvhead : forall r, r ∈ uvhead (G s) -> open_upval s r
}.

(** The bits of fixed objects stay, and no white appears. *)
Record marked_le (o o' : GCObject) : Prop := {
md_fixed : forall n, 5 <= n < 8 -> Z.testbit (marked o') n = Z.testbit (marked o) n;
md_dim : forall n, 0 <= n < 2 -> Z.testbit (marked o') n = true -> Z.testbit (marked o) n = true;
md_both : isblack o' = true -> iswhite o' = true -> isblack o = true /\ iswhite o = true
}.

Lemma marked_le_refl o : marked_le o o.
Proof. done. Qed.

(** The tables of the weak list are weak, with the bits of their modes. *)
Definition weak_ok s : Prop := forall r, r ∈ weak (G s) -> weak_moded s r.

Lemma weak_ok_step X s s' : mstep X [] s s' -> weak_ok s -> weak_ok s'.
Proof.
  intros Hs Hw r Hr. destruct (ms_weak_in _ _ _ _ Hs _ Hr) as [Hr'|[Hin _]]; [|by apply elem_of_nil in Hin].
  eapply ms_weak_moded; [exact Hs|apply not_elem_of_nil|by apply Hw].
Qed.

Lemma moded_same s s' r mode : (forall r, body_at s' r = body_at s r) -> moded s r mode -> moded s' r mode.
Proof. intros Hb (h & mt & hm & H1 & H2 & H3 & H4). exists h, mt, hm. by rewrite !Hb. Qed.

Lemma weak_ok_globals f s : weak (f (G s)) = weak (G s) -> weak_ok s -> weak_ok (set_globals f s).
Proof.
  intros E Hw r Hr. cbn in Hr. rewrite E in Hr. destruct (Hw r Hr) as (o & mode & Ho & Hm & Hrest). exists o, mode.
  split_and!; [done|by apply (moded_same s)|apply Hrest..].
Qed.

(** Painting an object that is not a table *)
Lemma weak_ok_paint s r o o' : heap s !! r = Some o -> obj o' = obj o -> ~ is_table o -> weak_ok s -> weak_ok (paint r o' s).
Proof.
  intros Ho Eo Ht Hw x Hx. destruct (Hw x Hx) as (ox & mode & Hox & Hm & Hrest). exists ox, mode.
  split_and!; [|apply (moded_same s); [intros y; by apply (body_paint _ o)|done]|apply Hrest..]. rewrite heap_paint, decide_False; [done|]. intros <-.
  apply Ht. destruct (moded_table _ _ _ Hm) as [h Hh]. exists h. unfold body_at in Hh. rewrite Ho in Hh. by injection Hh.
Qed.

(** What the mark phase keeps *)
Record pstep s s' : Prop := {
ps_body : forall r b, body_at s r = Some b -> exists b', body_at s' r = Some b' /\ body_le b b';
ps_none : forall r, body_at s r = None -> body_at s' r = None;
ps_nonwhite : forall r, nonwhite s r -> nonwhite s' r;
ps_marked : forall r o, heap s !! r = Some o -> exists o', heap s' !! r = Some o' /\ marked_le o o';
ps_G : exists g1 g2 g3 g4 g5, G s' = set_gray g1 (set_grayagain g2 (set_weak g3 (set_udlist g4 (set_tmudata g5 (G s)))));
ps_udata : udlist (G s') ++ tmudata (G s') ≡ₚ udlist (G s) ++ tmudata (G s);
ps_brk : brk s' = brk s
}.

Lemma pstep_refl s : pstep s s.
Proof.
  split; eauto using body_le_refl, marked_le_refl. exists (gray (G s)), (grayagain (G s)), (weak (G s)), (udlist (G s)), (tmudata (G s)).
  by destruct (G s).
Qed.

Lemma pstep_trans s1 s2 s3 : pstep s1 s2 -> pstep s2 s3 -> pstep s1 s3.
Proof.
  intros H12 H23. split.
  - intros r b Hb. destruct (ps_body _ _ H12 _ _ Hb) as (b2 & Hb2 & L2). destruct (ps_body _ _ H23 _ _ Hb2) as (b3 & Hb3 & L3).
    exists b3. split; [done|]. by eapply body_le_trans.
  - intros r Hr. by apply (ps_none _ _ H23), (ps_none _ _ H12).
  - intros r Hr. by apply (ps_nonwhite _ _ H23), (ps_nonwhite _ _ H12).
  - intros r o Ho. destruct (ps_marked _ _ H12 _ _ Ho) as (o2 & Ho2 & [F2 D2 T2]). destruct (ps_marked _ _ H23 _ _ Ho2) as (o3 & Ho3 & [F3 D3 T3]).
    exists o3. split; [done|]. split; [intros n Hn; by rewrite F3, F2|auto|]. intros Hk Hw. destruct (T3 Hk Hw). auto.
  - destruct (ps_G _ _ H12) as (a1 & a2 & a3 & a4 & a5 & E). destruct (ps_G _ _ H23) as (b1 & b2 & b3 & b4 & b5 & ->).
    exists b1, b2, b3, b4, b5. by rewrite E.
  - by rewrite (ps_udata _ _ H23), (ps_udata _ _ H12).
  - by rewrite (ps_brk _ _ H23), (ps_brk _ _ H12).
Qed.

Lemma pstep_G s s' : pstep s s' ->
  currentwhite (G s') = currentwhite (G s) /\ gcstate (G s') = gcstate (G s) /\ rootgc (G s') = rootgc (G s) /\
  l_registry (G s') = l_registry (G s) /\ mainthread (G s') = mainthread (G s) /\ uvhead (G s') = uvhead (G s) /\ mt (G s') = mt (G s).
Proof. intros Hs. destruct (ps_G _ _ Hs) as (? & ? & ? & ? & ? & ->). done. Qed.

Lemma mstep_pstep X B s s' : mstep X B s s' -> pstep s s'.
Proof.
  intros Hs. split.
  - intros r b. by eapply ms_body.
  - apply (ms_none _ _ _ _ Hs).
  - intros r. by eapply ms_nonwhite.
  - intros r o Ho. destruct (ms_mark _ _ _ _ Hs _ _ Ho) as (o' & Ho' & Hm). exists o'. split; [done|split; apply Hm].
  - rewrite (ms_G _ _ _ _ Hs). exists (gray (G s')), (grayagain (G s')), (weak (G s')), (udlist (G s)), (tmudata (G s)). by destruct (G s).
  - by rewrite (ms_G _ _ _ _ Hs).
  - apply (ms_brk _ _ _ _ Hs).
Qed.

(** ** Steps keep the invariants. *)

Lemma ms_weak_scanned X B s s' r : mstep X B s s' -> r ∉ B -> weak_scanned s r -> weak_scanned s' r.
Proof.
  intros Hs Hr (Hin & o & h & Ho & Hob & Hrefs). split; [by apply (ms_weakl _ _ _ _ Hs)|].
  destruct (ms_mark _ _ _ _ Hs _ _ Ho) as (o' & Ho' & Hm). pose proof (ml_body _ _ _ _ Hm) as Hl. rewrite Hob in Hl.
  destruct Hl as (h' & Hob' & Hl). exists o', h'. split_and!; [done|done|]. intros k Hk. eapply ms_nonwhite; [exact Hs|].
  apply Hrefs. eapply table_refs_le; [exact Hl|]. rewrite !testbit_spec in Hk |- * by done.
  by rewrite !(ml_weak _ _ _ _ Hm Hr ltac:(by exists h)) in Hk by done.
Qed.

Lemma ms_settled X B s s' r : mstep X B s s' -> r ∉ B -> settled s r -> settled s' r.
Proof. intros Hs Hr [Hm|Hm]; [left; by eapply ms_marked_refs|right; by eapply ms_weak_scanned]. Qed.

Lemma ms_uvhead X B s s' : mstep X B s s' -> uvhead (G s') = uvhead (G s).
Proof. intros Hs. by rewrite (ms_G _ _ _ _ Hs). Qed.

Lemma mark_ok_step X B s s' : mstep X B s s' -> mark_ok s -> mark_ok s'.
Proof.
  intros Hs [Hc Hp Hw Hu Hh]. split.
  - by eapply closed_step.
  - intros r Hr. destruct (ms_in _ _ _ _ Hs _ Hr) as [Hr'|]; [|done]. destruct (Hp _ Hr'). split; [by eapply ms_nonwhite|by eapply ms_traversable].
  - intros r Hr. destruct (ms_weak_in _ _ _ _ Hs _ Hr) as [Hr'|(_ & mode & Hm & _)]; [|by eapply moded_table].
    destruct (Hw _ Hr') as [h Hb]. destruct (ms_table _ _ _ _ _ _ Hs Hb) as (h' & Hb' & _). eauto.
  - intros r o' Ho' Hop. destruct (heap s !! r) as [o|] eqn:Ho.
    + destruct (ms_mark _ _ _ _ Hs _ _ Ho) as (o2 & Ho2 & Hm). assert (o2 = o') as -> by congruence.
      assert (Hop' : is_open o).
      { destruct Hop as (L & lv & E). pose proof (ml_body _ _ _ _ Hm) as Hl. rewrite E in Hl.
        destruct (obj o) eqn:Eo; cbn in Hl; try discriminate Hl; [by destruct Hl as (? & ? & _)| |by destruct Hl as (? & ? & _)].
        exists L, lv. congruence. }
      rewrite (ml_upval _ _ _ _ Hm Hop'), (ms_uvhead _ _ _ _ Hs). by apply (Hu r o).
    + assert (Hn : body_at s' r = None) by (apply (ms_none _ _ _ _ Hs); unfold body_at; by rewrite Ho).
      unfold body_at in Hn. by rewrite Ho' in Hn.
  - rewrite (ms_uvhead _ _ _ _ Hs). intros r Hr. eapply ms_open_upval; [exact Hs|by apply Hh].
Qed.

Lemma tri_step X s s' : mstep [] [] s s' -> tri X s -> tri X s'.
Proof.
  intros Hs Ht r Hr. destruct (ms_new _ _ _ _ Hs _ Hr) as [Hr'|[Hx|[Hg|[Hm _]]]].
  - destruct (Ht r Hr') as [Hg|[|Hst]]; [left; by apply (ms_gray _ _ _ _ Hs)|auto|].
    right; right. eapply ms_settled; [exact Hs|apply not_elem_of_nil|done].
  - by apply elem_of_nil in Hx.
  - by left.
  - by right; right; left.
Qed.

Lemma pending_mono X B s s' r : mstep X B s s' -> r ∈ pending (G s) -> r ∈ pending (G s').
Proof.
  intros Hs. unfold pending. rewrite !elem_of_app. intros [Hr|[Hr|Hr]].
  - left. by apply (ms_gray _ _ _ _ Hs).
  - right; left. by apply (ms_again _ _ _ _ Hs).
  - right; right. by apply (ms_weakl _ _ _ _ Hs).
Qed.

Lemma black_dec s r : black s r \/ ~ black s r.
Proof.
  unfold black. destruct (heap s !! r) as [o|]; [|right; by intros (o & ? & _)].
  destruct (iswhite o) eqn:Ew, (isblack o) eqn:Eb; try (left; exists o; done); right; intros (o' & [= <-] & ? & ?); congruence.
Qed.

(** A step, from a state whose marked objects satisfy [tricolour] but for [B] *)
Lemma tricolour_from B s s' :
  mstep [] B s s' -> (forall r, nonwhite s r -> r ∉ B -> r ∈ pending (G s) \/ black s r /\ marked_refs s r \/ open_upval s r /\ ~ black s r) ->
  (forall r, r ∈ B -> nonwhite s r /\ (r ∈ pending (G s') \/ black s' r /\ marked_refs s' r)) -> tricolour s'.
Proof.
  intros Hs Ht HB r Hr. destruct (decide (r ∈ B)) as [Hb|Hb]; [destruct (HB r Hb) as (_ & [|]); auto|].
  destruct (ms_new _ _ _ _ Hs _ Hr) as [Hr'|[Hx|[Hg|[Hm Hk]]]].
  - destruct (Ht r Hr' Hb) as [Hg|[[Hk Hm]|[Ho Hk]]].
    + left. by eapply pending_mono.
    + right; left. split; [by eapply ms_black|by eapply ms_marked_refs].
    + right; right. split; [by eapply ms_open_upval|]. intros (o' & Ho' & Hw' & Hk').
      destruct Hr' as (o & Ho2 & Hw). destruct (ms_mark _ _ _ _ Hs _ _ Ho2) as (o2 & Ho3 & Hml). assert (o2 = o') as -> by congruence.
      apply Hk. exists o. split; [done|]. split; [done|]. rewrite <- (ml_upval _ _ _ _ Hml); [done|].
      destruct Ho as (L & lv & Eb). exists L, lv. unfold body_at in Eb. rewrite Ho2 in Eb. by injection Eb.
  - by apply elem_of_nil in Hx.
  - left. apply elem_of_app. by left.
  - destruct Hk as [Hk|Ho]; [by right; left|]. destruct (black_dec s' r); [by right; left|by right; right].
Qed.

Lemma tricolour_step s s' : mstep [] [] s s' -> tricolour s -> tricolour s'.
Proof.
  intros Hs Ht. apply (tricolour_from [] s s' Hs); [intros r Hr _; by apply Ht|]. intros r Hr. by apply elem_of_nil in Hr.
Qed.

(** ** One gray object, and all of them *)

(** Objects that wait stay in their lists. *)
Definition lists_grow s s' : Prop :=
  (forall r, r ∈ weak (G s) -> r ∈ weak (G s')) /\ (forall r, r ∈ grayagain (G s) -> r ∈ grayagain (G s')).

Lemma lists_grow_step X B s s' : mstep X B s s' -> lists_grow s s'.
Proof. intros Hs. split; [apply (ms_weakl _ _ _ _ Hs)|apply (ms_again _ _ _ _ Hs)]. Qed.

Definition measure s : nat := (length (gray (G s)) + whites s)%nat.

Lemma set_lists_pstep f s :
  (forall g, f g = set_gray (gray (f g)) (set_grayagain (grayagain (f g)) (set_weak (weak (f g)) g))) -> pstep s (set_globals f s).
Proof.
  intros Hf. split; eauto using body_le_refl, marked_le_refl; cbn [G set_globals set_G].
  - rewrite Hf. exists (gray (f (G s))), (grayagain (f (G s))), (weak (f (G s))), (udlist (G s)), (tmudata (G s)). by destruct (G s).
  - by rewrite Hf.
Qed.

Lemma set_lists_ok f s :
  (forall g, f g = set_gray (gray (f g)) (set_grayagain (grayagain (f g)) (set_weak (weak (f g)) g))) ->
  (forall r, r ∈ pending (f (G s)) -> r ∈ pending (G s)) -> (forall r, r ∈ weak (f (G s)) -> r ∈ weak (G s)) ->
  mark_ok s -> mark_ok (set_globals f s).
Proof.
  intros Hf Hp Hw [Ic Ip Iw Iu Ih]. split; try done.
  - intros r Hr. by apply Ip, Hp.
  - intros r Hr. by apply Iw, Hw.
  - cbn [G set_globals set_G]. by rewrite Hf.
  - cbn [G set_globals set_G]. by rewrite Hf.
Qed.

(** The userdata that wait for their finalizers are the same. *)
Definition same_udata s s' : Prop := tmudata (G s') = tmudata (G s).

Lemma same_udata_step X B s s' : mstep X B s s' -> same_udata s s'.
Proof. intros Hs. unfold same_udata. by rewrite (ms_G _ _ _ _ Hs). Qed.

Record propagated s s' : Prop := {
pr_ok : mark_ok s';
pr_step : pstep s s';
pr_lists : lists_grow s s';
pr_tri : forall X, tri X s -> tri X s';
pr_weak : weak_ok s -> weak_ok s'
}.

Lemma propagatemark_ok s r rest :
  gray (G s) = r :: rest -> mark_ok s -> exists c s', propagatemark s = Ok c s' /\ propagated s s' /\ (measure s' < measure s)%nat /\
    (tricolour s -> tricolour s') /\ same_udata s s'.
Proof.
  intros Hg Ho. destruct (propagatemark_spec s r rest Hg (mo_closed _ Ho)) as (c & s' & E & Hs & Ht).
  { intros r' Hr'. apply (mo_pending _ Ho). apply elem_of_app. by left. }
  exists c, s'. split; [done|]. assert (Hr0 : nonwhite s r) by (apply (mo_pending _ Ho); unfold pending; rewrite Hg; apply elem_of_cons; by left).
  assert (Hp : mark_ok (popped rest s)).
  { apply set_lists_ok; [by intros []| |done|done]. intros r'. unfold pending. rewrite Hg. cbn [gray grayagain weak set_gray].
    rewrite !elem_of_app, elem_of_cons. tauto. }
  assert (Hnw : forall r', nonwhite (popped rest s) r' <-> nonwhite s r') by done.
  split; [split|].
  - by eapply mark_ok_step.
  - eapply pstep_trans; [|by eapply mstep_pstep]. apply (set_lists_pstep (set_gray rest)). by intros [].
  - apply (lists_grow_step _ _ _ _ Hs).
  - intros X Hx r' Hr'. destruct (decide (r' = r)) as [->|Hne].
    { right; right. destruct Ht as [[Hm _]|[Hw _]]; [by left|by right]. }
    destruct (ms_new _ _ _ _ Hs _ Hr') as [Hn|[Hf|[Hgr|[Hm _]]]]; [|by apply elem_of_nil in Hf|by left|by right; right; left].
    apply Hnw in Hn. destruct (Hx r' Hn) as [Hin|[|Hst]]; [|auto|].
    + left. apply (ms_gray _ _ _ _ Hs). cbn. rewrite Hg in Hin. by apply elem_of_cons in Hin as [|].
    + right; right. eapply ms_settled; [exact Hs|by rewrite list_elem_of_singleton|done].
  - intros Hw r' Hr'. assert (Hold : forall x, x <> r -> x ∈ weak (G s) -> weak_moded s' x).
    { intros x Hx Hin. eapply ms_weak_moded; [exact Hs|by rewrite list_elem_of_singleton|]. by apply (weak_ok_globals (set_gray rest) s). }
    destruct (decide (r' = r)) as [->|Hne].
    + destruct Ht as [(_ & _ & Hnot)|[_ Hmd]]; [|done]. destruct Hnot. destruct (ms_weak_in _ _ _ _ Hs _ Hr') as [Hin|[_ Hwt]]; [|done].
      eapply ms_weak_table; [exact Hs|]. apply moded_weak. by apply (weak_ok_globals (set_gray rest) s).
    + destruct (ms_weak_in _ _ _ _ Hs _ Hr') as [Hin|[Hin _]]; [by apply Hold|]. by apply list_elem_of_singleton in Hin.
  - split.
    { pose proof (ms_count _ _ _ _ Hs) as Hc. unfold measure. rewrite Hg. cbn in *. unfold whites in *. cbn in *. lia. }
    split; [|by apply (same_udata_step _ _ _ _ Hs)]. intros Htc. apply (tricolour_from [r] _ _ Hs).
    + intros r' Hn Hne. rewrite list_elem_of_singleton in Hne. destruct (Htc r' Hn) as [Hin|]; [left|by right].
      unfold pending in *. rewrite Hg in Hin. cbn [gray popped set_globals set_G G set_gray grayagain weak]. cbn in Hin.
      by apply elem_of_cons in Hin as [|].
    + intros r' ->%list_elem_of_singleton. split; [done|]. destruct Ht as [(Hm & [Hk|Ha] & _)|[[Hw _] _]]; [by right| |]; left; unfold pending; rewrite !elem_of_app; auto.
Qed.

Lemma propagated_refl s : mark_ok s -> propagated s s.
Proof. intros Ho. split; [done|apply pstep_refl|done|done|done]. Qed.

Lemma propagated_trans s1 s2 s3 : propagated s1 s2 -> propagated s2 s3 -> propagated s1 s3.
Proof.
  intros [O P L T W] [O' P' L' T' W']. split; [done|by eapply pstep_trans| |auto|auto].
  destruct L, L'. split; auto.
Qed.

Lemma propagated_step s s' : mstep [] [] s s' -> mark_ok s -> propagated s s'.
Proof.
  intros Hs Ho. split.
  - by eapply mark_ok_step.
  - by eapply mstep_pstep.
  - by eapply lists_grow_step.
  - intros X. by apply tri_step.
  - by eapply weak_ok_step.
Qed.

Lemma propagate_loop_ok n s :
  (measure s <= n)%nat -> mark_ok s -> exists s', propagate_loop n s = Ok tt s' /\ propagated s s' /\ gray (G s') = [] /\ same_udata s s'.
Proof.
  revert s. induction n as [|n IH]; intros s Hn Ho; cbn [propagate_loop]; change ((getG ≫= ?k) s) with (k (G s) s); cbv beta;
    (destruct (gray (G s)) as [|r rest] eqn:Hg; [exists s; split_and!; [done|by apply propagated_refl|done|done]|]).
  - unfold measure in Hn. rewrite Hg in Hn. cbn in Hn. lia.
  - destruct (propagatemark_ok s r rest Hg Ho) as (c & s1 & E & Hp & Hm & _ & Hu). rewrite (m_bind_eq _ _ _ _ _ E).
    destruct (IH s1) as (s' & E' & Hp' & Hg' & Hu'); [lia|by apply pr_ok in Hp|]. exists s'. split; [done|].
    split_and!; [by eapply propagated_trans|done|by etransitivity].
Qed.

Lemma propagateall_ok s : mark_ok s -> exists s', propagateall s = Ok tt s' /\ propagated s s' /\ gray (G s') = [] /\ same_udata s s'.
Proof.
  intros Ho. unfold propagateall. apply propagate_loop_ok; [|done]. unfold measure, whites.
  pose proof (map_size_filter (fun p : Z * GCObject => iswhite p.2 = true) (heap s)). lia.
Qed.

(** ** Roots *)

Record roots_ok s (L : Z) : Prop := {
ro_thread : is_Some (th s L);
ro_main : is_Some (th s (mainthread (G s)));
ro_registry : val_ok s (l_registry (G s));
ro_mt : forall r, Some r ∈ mt (G s) -> val_ok s (VTable r);
ro_udata : forall r, r ∈ udlist (G s) ++ tmudata (G s) -> exists u, body_at s r = Some (OUdata u)
}.

Lemma ps_val_ok s s' v : pstep s s' -> val_ok s v -> val_ok s' v.
Proof.
  intros Hs. destruct v; cbn; try done; intros [x Hx]; destruct (ps_body _ _ Hs _ _ Hx) as (b' & Hb' & Hl); rewrite Hb'.
  - destruct Hl as (h' & -> & _). eauto.
  - rewrite Hl. eauto.
  - rewrite Hl. eauto.
  - destruct Hl as (t' & -> & _). eauto.
Qed.

Lemma ps_th s s' L : pstep s s' -> is_Some (th s L) -> is_Some (th s' L).
Proof.
  intros Hs [t Ht]. destruct (ps_body _ _ Hs _ _ (th_body _ _ _ Ht)) as (b' & Hb & t' & -> & _). unfold th. by rewrite Hb.
Qed.

Lemma roots_step s s' L : pstep s s' -> roots_ok s L -> roots_ok s' L.
Proof.
  intros Hs [Rt Rm Rr Ra Ru]. destruct (pstep_G _ _ Hs) as (_ & _ & _ & El & Em & _ & Emt). split; rewrite ?El, ?Em, ?Emt.
  - by eapply ps_th.
  - by eapply ps_th.
  - by eapply ps_val_ok.
  - intros r Hr. eapply (ps_val_ok s); [done|by apply Ra].
  - intros r Hr. rewrite (ps_udata _ _ Hs) in Hr. destruct (Ru r Hr) as [u Hu].
    destruct (ps_body _ _ Hs _ _ Hu) as (b' & Hb & ->). eauto.
Qed.

Lemma markmt_loop_steps l s :
  heap_closed s -> (forall r, Some r ∈ l -> val_ok s (VTable r)) ->
  steps [] [] (markmt_loop l) s (fun s' => forall r, Some r ∈ l -> nonwhite s' r).
Proof.
  revert s. induction l as [|m l IH]; intros s Hc Hl; [apply steps_ret; intros r Hr; by apply elem_of_nil in Hr|]. cbn [markmt_loop].
  eapply (steps_bind0 _ _ _ _ (fun s1 => forall r, m = Some r -> nonwhite s1 r)).
  - destruct m as [r|]; [|by apply steps_ret]. destruct (Hl r) as [h Hh]; [apply elem_of_cons; by left|].
    eapply steps_mono; [apply markobject_steps; [by rewrite Hh|done]|]. by intros s1 _ Hn r' [= <-].
  - intros s1 H1 Hm. eapply steps_mono; [apply IH|].
    + by eapply closed_step.
    + intros r Hr. eapply (ms_val_ok _ _ _ _ H1 (VTable r)). apply Hl. apply elem_of_cons. by right.
    + intros s2 H2 Hf r Hr. apply elem_of_cons in Hr as [<-|Hr]; [eapply ms_nonwhite; [exact H2|by apply Hm]|by apply Hf].
Qed.

Lemma markmt_steps s :
  heap_closed s -> (forall r, Some r ∈ mt (G s) -> val_ok s (VTable r)) ->
  steps [] [] markmt s (fun s' => forall r, Some r ∈ mt (G s') -> nonwhite s' r).
Proof.
  intros Hc Hm. destruct (markmt_loop_steps (mt (G s)) s Hc Hm) as (s' & E & Hs & Hn). exists s'. split; [exact E|]. split; [done|].
  by rewrite (proj2 (proj2 (proj2 (proj2 (proj2 (proj2 (pstep_G _ _ (mstep_pstep _ _ _ _ Hs)))))))).
Qed.

(** ** Open upvalues *)

Lemma remark_loop_steps l s :
  mark_ok s -> (forall r, r ∈ l -> open_upval s r) ->
  steps [] [] (remark_loop l) s (fun s' => forall r, r ∈ l -> nonwhite s r -> marked_refs s' r).
Proof.
  revert s. induction l as [|r l IH]; intros s Ho Hl; [apply steps_ret; intros r Hr; by apply elem_of_nil in Hr|]. cbn [remark_loop].
  destruct (Hl r) as (L & lv & Hb); [apply elem_of_cons; by left|]. destruct (body_object _ _ _ Hb) as (o & Hobj & Eob).
  eapply steps_object; [exact Hobj|].
  destruct (upval_ok _ _ (mo_closed _ Ho _ _ Hb)) as (v & Hv & Hok).
  eapply (steps_bind0 _ _ _ _ (fun s1 => nonwhite s r -> marked_refs s1 r)).
  - destruct (isgray o) eqn:Eg.
    + assert (Er : (uv_value r ≫= markvalue) s = markvalue v s).
      { unfold uv_value. rewrite m_bind_bind, (m_bind_eq _ _ _ _ _ (gco2uv_at _ _ _ Hb)). by apply (uv_read s (UOpen L lv)). }
      unfold steps. setoid_rewrite Er. destruct (markvalue_steps v s Hok (mo_closed _ Ho)) as (s1 & E1 & H1 & Hm).
      exists s1. split_and!; [done|done|]. intros _ k Hk. pose proof (refs_le _ _ _ _ H1 _ _ Hk) as Hk1. unfold refs in Hk1.
      rewrite Hb in Hk1. cbn [body_refs] in Hk1. rewrite Hv in Hk1. apply elem_vals in Hk1 as (w & Hw & Hg).
      apply list_elem_of_singleton in Hw as ->. by apply Hm.
    + apply steps_ret. intros (o' & Ho' & Hw). assert (o' = o) as -> by congruence. unfold isgray in Eg.
      destruct (mo_upvals _ Ho r o Hobj) as [Hk _]; [by exists L, lv|]. by rewrite Hk, Hw in Eg.
  - intros s1 H1 Hm. eapply steps_mono; [apply IH; [by eapply mark_ok_step|]|].
    + intros r' Hr'. eapply ms_open_upval; [exact H1|]. apply Hl. apply elem_of_cons. by right.
    + intros s2 H2 Hf r' Hr' Hn. apply elem_of_cons in Hr' as [->|Hr'].
      * eapply ms_marked_refs; [exact H2|by apply Hm].
      * apply Hf; [done|by eapply ms_nonwhite].
Qed.

Lemma remarkupvals_ok s :
  mark_ok s -> tricolour s ->
  exists s', remarkupvals s = Ok tt s' /\ mstep [] [] s s' /\ tri (grayagain (G s) ++ weak (G s)) s'.
Proof.
  intros Ho Ht. destruct (remark_loop_steps (uvhead (G s)) s Ho (mo_uvhead _ Ho)) as (s' & E & Hs & Hm). exists s'. split_and!; [exact E|done|].
  intros r Hr. destruct (ms_new _ _ _ _ Hs _ Hr) as [Hn|[Hf|[Hg|[Hmr _]]]]; [|by apply elem_of_nil in Hf|by left|by right; right; left].
  destruct (Ht r Hn) as [Hp|[[_ Hmr]|[Hop Hk]]].
  - unfold pending in Hp. rewrite !elem_of_app in *. destruct Hp as [Hg|Hp]; [left; by apply (ms_gray _ _ _ _ Hs)|by right; left].
  - right; right; left. by eapply ms_marked_refs.
  - right; right; left. apply Hm; [|done]. destruct Hop as (L & lv & Hb). destruct (body_object _ _ _ Hb) as (o & Hobj & Eob).
    by apply (mo_upvals _ Ho r o Hobj); exists L, lv.
Qed.

(** Bodies that stay *)
Lemma body_refs_same s s' b : (forall L, th s' L = th s L) -> body_refs s' b = body_refs s b.
Proof. intros Ht. destruct b as [| |[]|[]|]; try done. cbn. by rewrite Ht. Qed.

Lemma body_ok_same s s' b : (forall r, body_at s' r = body_at s r) -> (forall v, val_ok s v -> val_ok s' v) -> body_ok s b -> body_ok s' b.
Proof.
  intros Hb Hv. assert (Ht : forall L, th s' L = th s L) by (intros L; unfold th; by rewrite Hb). destruct b as [h|u|[e f l|e p l]|[L lv|v]|t]; cbn [body_ok].
  - intros (Hw & Hm & Ha & Hn). split_and!; [done|intros mt E; by apply (Hv (VTable mt)), Hm|by eapply list.Forall_impl|].
    eapply list.Forall_impl; [exact Hn|]. intros n Hok Hg. destruct (Hok Hg). auto.
  - intros [He Hm]. split; [by apply (Hv (VTable _))|]. intros mt E. by apply (Hv (VTable mt)), Hm.
  - intros [He Hl]. split; [by apply (Hv (VTable _))|by eapply list.Forall_impl].
  - intros [He Hl]. split; [by apply (Hv (VTable _))|]. eapply list.Forall_impl; [exact Hl|]. intros x (r & uv & -> & Hr). exists r, uv. by rewrite Hb.
  - intros (t & v & Hl & Hg & Hlim & Hok). exists t, v. rewrite Ht. auto.
  - auto.
  - intros (Hw & Hg & Hl). split_and!; [done|auto|by eapply list.Forall_impl].
Qed.

(** ** Userdata to be finalized *)

(** Lists that the mark phase does not read *)
Lemma set_udata_propagated f s :
  (forall g, f g = set_udlist (udlist (f g)) (set_tmudata (tmudata (f g)) g)) ->
  udlist (f (G s)) ++ tmudata (f (G s)) ≡ₚ udlist (G s) ++ tmudata (G s) -> mark_ok s -> propagated s (set_globals f s).
Proof.
  intros Hf Hp Ho. assert (E : pending (f (G s)) = pending (G s) /\ weak (f (G s)) = weak (G s) /\ grayagain (f (G s)) = grayagain (G s) /\
    gray (f (G s)) = gray (G s) /\ uvhead (f (G s)) = uvhead (G s)) by (by rewrite Hf). destruct E as (E1 & E2 & E3 & E4 & E5).
  split.
  - destruct Ho as [Ic Ip Iw Iu Ih]. split; cbn [G set_globals set_G]; rewrite ?E1, ?E2, ?E5; done.
  - split; eauto using body_le_refl, marked_le_refl; cbn [G set_globals set_G]. rewrite Hf.
    exists (gray (G s)), (grayagain (G s)), (weak (G s)), (udlist (f (G s))), (tmudata (f (G s))). by destruct (G s).
  - split; cbn [G set_globals set_G]; by rewrite ?E2, ?E3.
  - intros X Ht r Hr. cbn [G set_globals set_G]. rewrite E4. destruct (Ht r Hr) as [|[|[Hm|[Hin Hw]]]]; [auto|auto|by right; right; left|].
    right; right; right. split; [cbn [G set_globals set_G]; by rewrite E2|done].
  - by apply weak_ok_globals.
Qed.

Lemma markfinalized_bit o n : 0 <= n < 8 -> Z.testbit (marked (markfinalized o)) n = Z.testbit (marked o) n || (n =? 3).
Proof.
  intros Hn. cbn. unfold l_setbit, setbits, bitmask, FINALIZEDBIT. rewrite Z.lor_spec, Z.shiftl_1_l, Z.pow2_bits_eqb by done.
  by rewrite (Z.eqb_sym n).
Qed.

Lemma markfinalized_le B r o : ~ is_table o -> mark_le B r o (markfinalized o).
Proof.
  intros Ht. split.
  - apply body_le_refl.
  - intros n Hn. rewrite markfinalized_bit, (proj2 (Z.eqb_neq n 3)), orb_false_r by lia. done.
  - intros n Hn. rewrite markfinalized_bit, (proj2 (Z.eqb_neq n 3)) by lia. apply orb_false_r.
  - intros _ _. by rewrite !isblack_bit, markfinalized_bit, orb_false_r by done.
  - intros _. by rewrite !isblack_bit, markfinalized_bit, orb_false_r by done.
  - by rewrite !isblack_bit, !testbits_white, !markfinalized_bit, !orb_false_r by done.
  - done.
Qed.

Lemma separate_loop_ok all keep rest s :
  mark_ok s -> udlist (G s) = keep ++ rest -> (forall r, r ∈ rest -> exists u, body_at s r = Some (OUdata u)) ->
  exists s', separate_loop all keep rest s = Ok tt s' /\ propagated s s' /\ gray (G s') = gray (G s).
Proof.
  revert keep s. induction rest as [|r rest IH]; intros keep s Ho Hl Hu; cbn [separate_loop]; [exists s; split_and!; [done|by apply propagated_refl|done]|].
  destruct (Hu r) as [u Hb]; [apply elem_of_cons; by left|]. destruct (body_object _ _ _ Hb) as (o & Hobj & Eob).
  assert (Eo : object r s = Ok o s) by (unfold object; by rewrite Hobj). rewrite (m_bind_eq _ _ _ _ _ Eo).
  assert (Eu : gco2u r s = Ok u s) by (unfold gco2u; rewrite (m_bind_eq _ _ _ _ _ Eo); by rewrite Eob). rewrite (m_bind_eq _ _ _ _ _ Eu).
  assert (Hrest : forall s1, pstep s s1 -> forall r', r' ∈ rest -> exists u', body_at s1 r' = Some (OUdata u')).
  { intros s1 H1 r' Hr'. destruct (Hu r') as [u' Hb']; [apply elem_of_cons; by right|].
    destruct (ps_body _ _ H1 _ _ Hb') as (b & Hb1 & ->). eauto. }
  destruct (_ || _).
  { destruct (IH (keep ++ [r]) s Ho) as (s' & E' & Hp' & Hg'); [by rewrite <- app_assoc|by apply Hrest, pstep_refl|]. by exists s'. }
  destruct (mo_closed _ Ho _ _ Hb) as [_ Hmt].
  destruct (fasttm_step s (uv_metatable u) TM_GC (mo_closed _ Ho) Hmt) as (tm & s1 & E1 & H1 & HG1 & _); [done|]. rewrite (m_bind_eq _ _ _ _ _ E1).
  destruct (ms_mark _ _ _ _ H1 _ _ Hobj) as (o1 & Ho1 & Hm1). pose proof (ml_body _ _ _ _ Hm1) as Hl1. rewrite Eob in Hl1.
  rewrite (m_bind_eq _ _ _ _ _ (upd_object_paint _ _ _ _ Ho1)). set (s2 := paint r (markfinalized o1) s1).
  assert (H2 : mstep [] [] s1 s2).
  { apply (paint_step _ _ _ o1); [done|done|apply markfinalized_le; intros (h & Eh); cbn in Hl1; congruence|].
    left. by rewrite !testbits_white, !markfinalized_bit, !orb_false_r in *. }
  pose proof (mstep_trans0 _ _ _ _ H1 H2) as H02. pose proof (propagated_step _ _ H02 Ho) as Hp2.
  assert (HG2 : G s2 = G s) by exact HG1. destruct tm as [tm|].
  - set (f := fun g => set_tmudata (tmudata g ++ [r]) (set_udlist (keep ++ rest) g)). change ((modG ?f ≫= ?k) s2) with (k tt (set_globals f s2)). cbv beta.
    assert (Hp3 : propagated s2 (set_globals f s2)).
    { apply set_udata_propagated; [by intros []| |by apply pr_ok in Hp2]. rewrite HG2. cbn. rewrite Hl, <- !app_assoc. apply Permutation_app_head.
      cbn. rewrite app_assoc. rewrite (Permutation_app_comm _ [r]). cbn. by rewrite Permutation_middle. }
    pose proof (propagated_trans _ _ _ Hp2 Hp3) as Hp03.
    destruct (IH keep (set_globals f s2)) as (s' & E' & Hp' & Hg'); [by apply pr_ok in Hp03|done|by apply Hrest, pr_step|].
    exists s'. split; [done|]. split; [by eapply propagated_trans|]. rewrite Hg'. change (gray (G (set_globals f s2))) with (gray (G s2)). by rewrite HG2.
  - destruct (IH (keep ++ [r]) s2) as (s' & E' & Hp' & Hg'); [by apply pr_ok in Hp2|by rewrite HG2, <- app_assoc|by apply Hrest, pr_step|].
    exists s'. split; [done|]. split; [by eapply propagated_trans|]. by rewrite Hg', HG2.
Qed.

Lemma separateudata_ok s L :
  mark_ok s -> roots_ok s L -> exists s', luaC_separateudata false s = Ok tt s' /\ propagated s s' /\ gray (G s') = gray (G s).
Proof.
  intros Ho Hr. apply (separate_loop_ok false [] (udlist (G s))); [done|done|]. intros r Hr'. apply (ro_udata _ _ Hr).
  apply elem_of_app. by left.
Qed.

(** ** Marking the userdata that are kept for their finalizers *)

(** One of the two whites, and the bit of fixed objects *)
Definition white_ok (g : global_State) : Prop := currentwhite g = 33 \/ currentwhite g = 34.

Lemma makewhite_bit g o n : white_ok g -> 0 <= n < 8 ->
  Z.testbit (marked (makewhite g o)) n = if n <? 2 then Z.testbit (currentwhite g) n else Z.testbit (marked o) n && negb (n =? 2).
Proof.
  intros Hg Hn. cbn [marked makewhite set_marked]. unfold u8. rewrite Z.mod_pow2_bits_low, Z.lor_spec, Z.land_spec by lia.
  assert (Hc : n = 0 \/ n = 1 \/ n = 2 \/ n = 3 \/ n = 4 \/ n = 5 \/ n = 6 \/ n = 7) by lia.
  unfold luaC_white, maskmarks. destruct Hg as [-> | ->];
    repeat (destruct Hc as [->|Hc]; [destruct (Z.testbit (marked o) _); reflexivity|]); subst; destruct (Z.testbit (marked o) _); reflexivity.
Qed.

Lemma makewhite_white g o : white_ok g -> iswhite (makewhite g o) = true.
Proof. intros Hg. rewrite testbits_white, !makewhite_bit by done. by destruct Hg as [-> | ->]. Qed.

Lemma remark_udata s r u :
  mark_ok s -> white_ok (G s) -> body_at s r = Some (OUdata u) ->
  exists s', (g ← getG; upd_object r (makewhite g);; reallymarkobject r) s = Ok tt s' /\ propagated s s' /\ nonwhite s' r /\ same_udata s s'.
Proof.
  intros Ho Hg Hb. destruct (body_object _ _ _ Hb) as (o & Hobj & Eob). change ((getG ≫= ?k) s) with (k (G s) s). cbv beta.
  rewrite (m_bind_eq _ _ _ _ _ (upd_object_paint _ _ _ _ Hobj)). set (s1 := paint r (makewhite (G s) o) s).
  assert (Hbody : forall r', body_at s1 r' = body_at s r') by (intros r'; by apply (body_paint _ o)).
  assert (Hval : forall v, val_ok s v -> val_ok s1 v) by (intros v; destruct v; cbn; by rewrite ?Hbody).
  assert (Hth : forall L, th s1 L = th s L) by (intros L; unfold th; by rewrite Hbody).
  assert (Hc1 : heap_closed s1).
  { intros r' b Hb'. rewrite Hbody in Hb'. pose proof (mo_closed _ Ho _ _ Hb') as Hok.
    apply (body_ok_same s); [done|done|done]. }
  assert (Hw1 : white s1 r) by (exists (makewhite (G s) o); split; [unfold s1; by rewrite heap_paint, decide_True|by apply makewhite_white]).
  destruct (reallymark_udata_steps 1 r u s1 Hw1 ltac:(by rewrite Hbody) Hc1) as (s' & E & Hs & Hn). exists s'. split; [exact E|]. split; [|split; [done|by apply (same_udata_step _ _ _ _ Hs)]].
  assert (Hother : forall r', r' <> r -> heap s1 !! r' = heap s !! r') by (intros r' Hne; unfold s1; by rewrite heap_paint, decide_False).
  assert (Hmono : forall r', nonwhite s r' -> nonwhite s' r').
  { intros r' Hr'. destruct (decide (r' = r)) as [->|Hne]; [done|]. eapply ms_nonwhite; [exact Hs|]. unfold nonwhite. by rewrite Hother. }
  assert (Ho1 : mark_ok s1).
  { destruct Ho as [Ic Ip Iw Iu Ih]. split; [done| | | |].
    - intros r' Hr'. destruct (Ip r' Hr') as [Hn' Ht']. assert (Hne : r' <> r) by (intros ->; unfold traversable in Ht'; by rewrite Hb in Ht').
      split; [unfold nonwhite; by rewrite Hother|unfold traversable; by rewrite Hbody].
    - intros r' Hr'. rewrite Hbody. by apply Iw.
    - intros r' o' Ho' (L & lv & Eo). destruct (decide (r' = r)) as [->|Hne].
      + exfalso. assert (Hb' : body_at s1 r = Some (OUpVal (UOpen L lv))) by (unfold body_at; rewrite Ho'; cbn; by rewrite Eo).
        rewrite Hbody in Hb'. congruence.
      + rewrite Hother in Ho' by done. apply (Iu r' o'); [done|by exists L, lv].
    - intros r' Hr'. destruct (Ih r' Hr') as (L & lv & Hu). exists L, lv. by rewrite Hbody. }
  split; [by eapply mark_ok_step| |by apply (lists_grow_step _ _ _ _ Hs)| |].
  - pose proof (mstep_pstep _ _ _ _ Hs) as Hps. split; [| |done| |apply (ps_G _ _ Hps)|apply (ps_udata _ _ Hps)|apply (ps_brk _ _ Hps)].
    + intros r' b Hb'. rewrite <- Hbody in Hb'. by apply (ps_body _ _ Hps).
    + intros r' Hr'. rewrite <- Hbody in Hr'. by apply (ps_none _ _ Hps).
    + intros r' o' Ho'. destruct (decide (r' = r)) as [->|Hne]; [|rewrite <- Hother in Ho' by done; by apply (ps_marked _ _ Hps)].
      assert (o' = o) as -> by congruence. destruct (ps_marked _ _ Hps r (makewhite (G s) o)) as (o2 & Ho2 & [Hf _ _]); [unfold s1; by rewrite heap_paint, decide_True|].
      exists o2. split; [done|]. split.
      * intros n Hn'. rewrite Hf, makewhite_bit, (proj2 (Z.ltb_ge n 2)), (proj2 (Z.eqb_neq n 2)) by (done || lia). apply andb_true_r.
      * intros n Hn' E'. destruct Hn as (o3 & Ho3 & Hw3). assert (o3 = o2) as -> by congruence. rewrite testbits_white in Hw3.
        apply orb_false_iff in Hw3 as [? ?]. assert (n = 0 \/ n = 1) as [-> | ->] by lia; congruence.
      * intros _ Hw'. destruct Hn as (o3 & Ho3 & Hw3). congruence.
  - intros X Ht r' Hr'. destruct (ms_new _ _ _ _ Hs _ Hr') as [Hn1|[Hf|[Hgr|[Hm _]]]]; [|by apply elem_of_nil in Hf|by left|by right; right; left].
    assert (Hne : r' <> r) by (intros ->; by eapply white_nonwhite).
    assert (Hn0 : nonwhite s r') by (unfold nonwhite in *; by rewrite Hother in Hn1).
    destruct (Ht r' Hn0) as [Hgr|[|[Hm|[Hin (o2 & h & Ho2 & Eo2 & Hrefs)]]]]; [left; by apply (ms_gray _ _ _ _ Hs)|auto| |].
    + right; right; left. intros k Hk. apply Hmono, Hm. pose proof (refs_le _ _ _ _ Hs _ _ Hk) as Hk1. unfold refs in *. rewrite Hbody in Hk1.
      destruct (body_at s r'); [by rewrite (body_refs_same s s1) in Hk1|done].
    + right; right; right. split; [by apply (ms_weakl _ _ _ _ Hs)|]. rewrite <- (Hother r') in Ho2 by done.
      destruct (ms_mark _ _ _ _ Hs _ _ Ho2) as (o3 & Ho3 & Hml). pose proof (ml_body _ _ _ _ Hml) as Hl. rewrite Eo2 in Hl.
      destruct Hl as (h' & Eo3 & Hl). exists o3, h'. split_and!; [done|done|]. intros k Hk. apply Hmono, Hrefs.
      eapply table_refs_le; [exact Hl|]. rewrite !testbit_spec in Hk |- * by done.
      by rewrite !(ml_weak _ _ _ _ Hml (not_elem_of_nil _) ltac:(by exists h)) in Hk by done.
  - intros Hwk. apply (weak_ok_step _ _ _ Hs). eapply weak_ok_paint; [exact Hobj|done|intros (h & E'); congruence|done].
Qed.

Lemma marktmu_ok s L :
  mark_ok s -> white_ok (G s) -> roots_ok s L -> exists s', marktmu s = Ok tt s' /\ propagated s s' /\ (forall r, r ∈ tmudata (G s) -> nonwhite s' r) /\ same_udata s s'.
Proof.
  intros Ho Hg Hr. unfold marktmu. change ((getG ≫= ?k) s) with (k (G s) s). cbv beta.
  assert (Hl : forall r, r ∈ tmudata (G s) -> exists u, body_at s r = Some (OUdata u)) by (intros r Hin; apply (ro_udata _ _ Hr), elem_of_app; by right).
  generalize (tmudata (G s)), Hl. clear Hr Hl. intros l. revert s Ho Hg. induction l as [|r l IH]; intros s Ho Hg Hl; cbn [marktmu_loop].
  - exists s. split; [done|]. split; [by apply propagated_refl|]. split; [|done]. intros r Hr. by apply elem_of_nil in Hr.
  - destruct (Hl r) as [u Hu]; [apply elem_of_cons; by left|]. destruct (remark_udata s r u Ho Hg Hu) as (s1 & E1 & H1 & Hn & Hud1).
    destruct (IH s1) as (s2 & E2 & H2 & Hn2 & Hud2).
    + by apply pr_ok in H1.
    + unfold white_ok. by rewrite (proj1 (pstep_G _ _ (pr_step _ _ H1))).
    + intros r' Hr'. destruct (Hl r') as [u' Hu']; [apply elem_of_cons; by right|]. destruct (ps_body _ _ (pr_step _ _ H1) _ _ Hu') as (b & Hb & ->). eauto.
    + exists s2. split.
      * change ((getG ≫= ?k) s) with (k (G s) s) in *. cbv beta in *. rewrite <- E2.
        etransitivity; [symmetry; apply (m_bind_bind (upd_object r (makewhite (G s))) (fun _ => reallymarkobject r) (fun _ => marktmu_loop l))|].
        exact (m_bind_eq _ (fun _ => marktmu_loop l) _ _ _ E1).
      * split; [by eapply propagated_trans|]. split; [|by etransitivity]. intros r' Hr'. apply elem_of_cons in Hr' as [->|Hr']; [by apply (ps_nonwhite _ _ (pr_step _ _ H2))|by apply Hn2].
Qed.
End atomic.
