(* ===== verification/GcAlive.v ===== *)
(** * The end of the mark phase: weak tables and the new white

    [cleartable] removes the entries of weak tables whose keys or values are
    not marked, or whose values are finalized userdata, and no others
    ([weeded]); what is left of a marked object refers to marked objects. *)

From S2P Require Import Prelude Clib Opcodes Object Debug Table TableOps Auxlib State Barrier Func Tm Do Vm Run Lstate Gc StateFacts GcTable GcMark GcPropagate GcAtomic.

Section clear.
Context {HM : Machine} {HH : Host} {HC : Cenv} {HK : Calling} {HS : Sizes}.
Implicit Types (s : State) (r k : Z) (b : body) (v : TValue) (o : GCObject).

(** ** What an object refers to, apart from the keys of empty nodes *)

Definition node_live (n : Node) : list Z := if ttisnil (gval n) then [] else vals [key2tval (gkey n); gval n].

Definition live_refs s b : list Z :=
  match b with
  | OTable h => option_list (metatable h) ++ vals (array h) ++ mjoin (node_live <$> node h)
  | _ => body_refs s b
  end.

Lemma elem_live_table s h k : k ∈ live_refs s (OTable h) <->
  metatable h = Some k \/ k ∈ vals (array h) \/ exists n, n ∈ node h /\ gval n <> VNil /\ k ∈ vals [key2tval (gkey n); gval n].
Proof.
  cbn [live_refs]. rewrite !elem_of_app, list_elem_of_join.
  assert (E : k ∈ option_list (metatable h) <-> metatable h = Some k).
  { destruct (metatable h) as [mt|]; [cbn; rewrite list_elem_of_singleton; split; congruence|split; [intros Hk; by apply elem_of_nil in Hk|done]]. }
  rewrite E. split.
  - intros [|[|(l & Hk & Hl)]]; [by left|by right; left|]. apply list_elem_of_fmap in Hl as (n & -> & Hn). right; right. exists n.
    unfold node_live in Hk. destruct (ttisnil (gval n)) eqn:En; [by apply elem_of_nil in Hk|]. split_and!; [done|by destruct (gval n)|done].
  - intros [|[|(n & Hn & Hv & Hk)]]; [by left|by right; left|]. right; right. exists (node_live n). split; [|apply list_elem_of_fmap; eauto].
    unfold node_live. destruct (ttisnil (gval n)) eqn:En; [by destruct (gval n)|done].
Qed.

Lemma vals_two v w k : k ∈ vals [v; w] <-> gcvalue v = Some k \/ gcvalue w = Some k.
Proof.
  rewrite elem_vals. split.
  - intros (x & Hx & Hg). apply elem_of_cons in Hx as [->|Hx]; [by left|]. apply list_elem_of_singleton in Hx as ->. by right.
  - intros [E|E]; [exists v|exists w]; (split; [|done]); apply elem_of_cons; [by left|right]. by apply list_elem_of_singleton.
Qed.

Lemma live_refs_sub s b k : k ∈ live_refs s b -> k ∈ body_refs s b.
Proof.
  destruct b as [h| | | |]; try done. intros Hk. apply elem_live_table in Hk. cbn [body_refs]. apply elem_table_refs.
  destruct Hk as [|[|(n & Hn & Hv & Hk)]]; [by left|right; split; [done|by left]|]. right; split; [done|right]. exists n. split; [done|].
  unfold node_refs. destruct (ttisnil (gval n)) eqn:En; [by destruct (gval n)|]. apply vals_two in Hk. rewrite elem_of_app, !elem_vals.
  destruct Hk; [left; exists (key2tval (gkey n))|right; exists (gval n)]; (split; [by apply list_elem_of_singleton|done]).
Qed.

Lemma live_refs_cleared s h h' k : table_cleared h h' -> k ∈ live_refs s (OTable h') -> k ∈ live_refs s (OTable h).
Proof.
  intros Hc. rewrite !elem_live_table. destruct (tc_rest _ _ Hc) as (-> & _). intros [|[Hk|(n' & Hn' & Hv & Hk)]]; [by left| |].
  - right; left. revert Hk. apply vals_mono. intros v' Hv'. apply list_elem_of_lookup in Hv' as [i Hi].
    destruct (Forall2_lookup_r _ _ _ _ _ (tc_array _ _ Hc) Hi) as (v & Hv & [-> | ->]); [left; by eapply list_elem_of_lookup_2|by right].
  - right; right. apply list_elem_of_lookup in Hn' as [i Hi]. destruct (Forall2_lookup_r _ _ _ _ _ (tc_nodes _ _ Hc) Hi) as (n & Hn & Hcl).
    exists n. split; [by eapply list_elem_of_lookup_2|]. destruct Hcl as [[Ev|Ev] _ [Ek|(Ev' & _)]]; try done; rewrite Ev, ?Ek in *; done.
Qed.

(** ** Clearing *)

(** The entries of [h] that are not in [h']: values of the array, if those are
    weak, and nodes, of which the key or the value goes, as [R] tells *)
Record weeded (R : bool -> TValue -> Prop) (wv : bool) (h h' : Table) : Prop := {
wd_array : Forall2 (fun v v' => v' = v \/ wv = true /\ v' = VNil /\ R false v) (array h) (array h');
wd_nodes : Forall2 (fun n n' => n' = n \/ gval n <> VNil /\ n' = removeentry (set_gval VNil n) /\
  (R true (key2tval (gkey n)) \/ R false (gval n))) (node h) (node h');
wd_rest : h' = with_node (node h') (with_array (array h') h)
}.

Lemma weeded_cleared R wv h h' : weeded R wv h h' -> table_cleared h h'.
Proof.
  intros [Ha Hn Hr]. split; [| |by rewrite Hr].
  - eapply list.Forall2_impl; [exact Ha|]. intros v v' [->|(_ & -> & _)]; auto.
  - eapply list.Forall2_impl; [exact Hn|]. intros n n' [->|(_ & -> & _)]; [apply cleared_refl|apply removeentry_cleared].
Qed.

Lemma weeded_mono (R R' : bool -> TValue -> Prop) wv h h' : (forall c v, R c v -> R' c v) -> weeded R wv h h' -> weeded R' wv h h'.
Proof.
  intros HR [Ha Hn Hr]. split; [| |done].
  - eapply list.Forall2_impl; [exact Ha|]. intros v v' [->|(? & ? & ?)]; auto.
  - eapply list.Forall2_impl; [exact Hn|]. intros n n' [->|(? & ? & [|])]; auto 6.
Qed.

Lemma removeentry_nil n : gval (removeentry (set_gval VNil n)) = VNil.
Proof. unfold removeentry. destruct (gkey (set_gval VNil n)) as [x|x]; [destruct (iscollectable x)|]; done. Qed.

Lemma weeded_trans R wv h1 h2 h3 : weeded R wv h1 h2 -> weeded R wv h2 h3 -> weeded R wv h1 h3.
Proof.
  intros [A N E] [A' N' E']. split.
  - eapply list.Forall2_trans; [|exact A|exact A']. intros v1 v2 v3 [->|(? & -> & ?)] [->|(? & -> & ?)]; auto.
  - eapply list.Forall2_trans; [|exact N|exact N']. intros n1 n2 n3 [->|(Hv & -> & HR)] [->|(Hv' & -> & HR')]; auto.
    by rewrite removeentry_nil in Hv'.
  - rewrite E', E. done.
Qed.

(** A value that is not marked, or is a userdata that has been finalized and is
    not a key *)
Definition removable s (iskey : bool) v : Prop := exists k o, gcvalue v = Some k /\ heap s !! k = Some o /\
  (iswhite o = true \/ iskey = false /\ v = VUserdata k /\ isfinalized o = true).

Lemma iscleared_spec s v iskey : val_ok s v ->
  exists c, iscleared v iskey s = Ok c s /\ if c : bool then removable s iskey v else val_marked s v.
Proof.
  intros Hv. unfold iscleared, val_marked. destruct (gcvalue v) as [r|] eqn:Er; [|by exists false].
  destruct (val_ok_body _ _ _ Er Hv) as [b Hb]. destruct (body_object _ _ _ Hb) as (o & Ho & _).
  assert (Eo : object r s = Ok o s) by (unfold object; by rewrite Ho). rewrite (m_bind_eq _ _ _ _ _ Eo). eexists. split; [reflexivity|].
  destruct (iswhite o) eqn:Ew; [exists r, o; by split_and!; [..|left]|]. cbn [orb].
  destruct v; try (intros k [= <-]; by exists o). injection Er as ->. destruct iskey; [intros k [= <-]; by exists o|]. cbn [negb andb].
  destruct (isfinalized o) eqn:Ef; [exists r, o; by split_and!; [..|right]|intros k [= <-]; by exists o].
Qed.

Lemma clear_values_spec s l : Forall (val_ok s) l ->
  exists l', clear_values l s = Ok l' s /\ Forall2 (fun v v' => v' = v \/ true = true /\ v' = VNil /\ removable s false v) l l' /\ Forall (val_marked s) l'.
Proof.
  induction l as [|v l IH]; intros Hl; [by exists []|]. apply list.Forall_cons in Hl as [Hv Hl]. cbn [clear_values].
  destruct (iscleared_spec s v false Hv) as (c & Ec & Hc). rewrite (m_bind_eq _ _ _ _ _ Ec).
  destruct (IH Hl) as (l' & El & Hf & Hm). rewrite (m_bind_eq _ _ _ _ _ El). eexists. split; [reflexivity|]. split.
  - constructor; [by destruct c; auto|done].
  - constructor; [|done]. by destruct c.
Qed.

Definition entry_marked s (n : Node) : Prop := gval n <> VNil -> val_marked s (key2tval (gkey n)) /\ val_marked s (gval n).

Lemma clear_nodes_spec s l : Forall (fun n => gval n <> VNil -> val_ok s (key2tval (gkey n)) /\ val_ok s (gval n)) l ->
  exists l', clear_nodes l s = Ok l' s /\
    Forall2 (fun n n' => n' = n \/ gval n <> VNil /\ n' = removeentry (set_gval VNil n) /\
      (removable s true (key2tval (gkey n)) \/ removable s false (gval n))) l l' /\ Forall (entry_marked s) l'.
Proof.
  induction l as [|n l IH]; intros Hl; [by exists []|]. apply list.Forall_cons in Hl as [Hn Hl]. cbn [clear_nodes].
  assert (Hc : exists c, (if ttisnil (gval n) then mret false
           else k ← iscleared (key2tval (gkey n)) true; if (k : bool) then mret true else iscleared (gval n) false) s = Ok c s /\
    if c : bool then gval n <> VNil /\ (removable s true (key2tval (gkey n)) \/ removable s false (gval n)) else entry_marked s n).
  { destruct (ttisnil (gval n)) eqn:En; [exists false; split; [done|]; intros Hv; by destruct (gval n)|].
    assert (Hnil : gval n <> VNil) by (by destruct (gval n)). destruct (Hn Hnil) as [Hk Hv].
    destruct (iscleared_spec s _ true Hk) as (c1 & E1 & H1). rewrite (m_bind_eq _ _ _ _ _ E1). destruct c1; [exists true; auto|].
    destruct (iscleared_spec s _ false Hv) as (c2 & E2 & H2). exists c2. split; [done|]. destruct c2; [auto|by intros _]. }
  destruct Hc as (c & Ec & Hc). rewrite (m_bind_eq _ _ _ _ _ Ec). destruct (IH Hl) as (l' & El & Hf & Hm).
  rewrite (m_bind_eq _ _ _ _ _ El). eexists. split; [reflexivity|]. destruct c; (split; [constructor; [|done]|constructor; [|done]]).
  - right. by destruct Hc.
  - intros Hv. by rewrite removeentry_nil in Hv.
  - by left.
  - done.
Qed.

(** What clearing does to the heap *)
Record cstep s s' : Prop := {
cs_obj : forall r o, heap s !! r = Some o -> exists o', heap s' !! r = Some o' /\ marked o' = marked o /\
  (obj o' = obj o \/ exists h h', obj o = OTable h /\ obj o' = OTable h' /\ table_cleared h h');
cs_none : forall r, heap s !! r = None -> heap s' !! r = None;
cs_G : G s' = G s;
cs_brk : brk s' = brk s
}.

Lemma table_cleared_refl h : table_cleared h h.
Proof. apply table_le_cleared, table_le_refl. Qed.

Lemma cleared_trans n1 n2 n3 : cleared n1 n2 -> cleared n2 n3 -> cleared n1 n3.
Proof.
  intros [V N K] [V' N' K']. split.
  - destruct V' as [->|]; auto.
  - congruence.
  - destruct K' as [->|(Hv & k & E1 & E2 & Hk)].
    + destruct K as [|(Hv & k & E1 & E2 & Hk)]; [by left|right]. split; [destruct V' as [->|]; done|eauto].
    + right. split; [done|]. destruct K as [E|(_ & k' & E3 & E4 & _)]; [exists k; by rewrite <- E|congruence].
Qed.

Lemma table_cleared_trans h1 h2 h3 : table_cleared h1 h2 -> table_cleared h2 h3 -> table_cleared h1 h3.
Proof.
  intros [A N (R1 & R2 & R3 & R4)] [A' N' (R1' & R2' & R3' & R4')]. split.
  - eapply list.Forall2_trans; [|exact A|exact A']. intros v1 v2 v3 [-> | ->] [-> | ->]; auto.
  - eapply list.Forall2_trans; [|exact N|exact N']. apply cleared_trans.
  - split_and!; congruence.
Qed.

Lemma cstep_refl s : cstep s s.
Proof. split; eauto 6. Qed.

Lemma cstep_trans s1 s2 s3 : cstep s1 s2 -> cstep s2 s3 -> cstep s1 s3.
Proof.
  intros H12 H23. split; [| |by rewrite (cs_G _ _ H23), (cs_G _ _ H12)|by rewrite (cs_brk _ _ H23), (cs_brk _ _ H12)].
  - intros r o1 Ho1. destruct (cs_obj _ _ H12 _ _ Ho1) as (o2 & Ho2 & M2 & B2). destruct (cs_obj _ _ H23 _ _ Ho2) as (o3 & Ho3 & M3 & B3).
    exists o3. split; [done|]. split; [congruence|]. destruct B2 as [E2|(h & h' & E1 & E2 & Hc)].
    + destruct B3 as [E3|(h & h' & E2' & E3 & Hc)]; [left; congruence|right]. exists h, h'. split_and!; [congruence|done|done].
    + right. destruct B3 as [E3|(h2 & h3 & E2' & E3 & Hc3)]; [exists h, h'; split_and!; [done|congruence|done]|].
      exists h, h3. split_and!; [done|done|]. eapply table_cleared_trans; [done|]. by replace h' with h2 by congruence.
  - intros r Hr. by apply (cs_none _ _ H23), (cs_none _ _ H12).
Qed.

Section cstep.
Variables (s s' : State).
Hypothesis Hs : cstep s s'.

Lemma cs_body r b : body_at s r = Some b -> exists b', body_at s' r = Some b' /\
  (b' = b \/ exists h h', b = OTable h /\ b' = OTable h' /\ table_cleared h h').
Proof using Hs.
  unfold body_at. destruct (heap s !! r) as [o|] eqn:Ho; [|done]. intros [= <-].
  destruct (cs_obj _ _ Hs _ _ Ho) as (o' & -> & _ & Hb). cbn. exists (obj o'). split; [done|]. exact Hb.
Qed.

Lemma cs_back r b' : body_at s' r = Some b' -> exists b, body_at s r = Some b /\
  (b' = b \/ exists h h', b = OTable h /\ b' = OTable h' /\ table_cleared h h').
Proof using Hs.
  intros Hb'. destruct (heap s !! r) as [o|] eqn:Ho.
  - assert (Hb : body_at s r = Some (obj o)) by (unfold body_at; by rewrite Ho).
    destruct (cs_body _ _ Hb) as (b2 & Hb2 & Hrel). exists (obj o). split; [done|]. by replace b' with b2 by congruence.
  - unfold body_at in Hb'. by rewrite (cs_none _ _ Hs _ Ho) in Hb'.
Qed.

Lemma cs_th L : th s' L = th s L.
Proof using Hs.
  unfold th. destruct (body_at s L) as [b|] eqn:Hb.
  - destruct (cs_body _ _ Hb) as (b' & -> & [->|(h & h' & -> & -> & _)]); done.
  - destruct (body_at s' L) as [b'|] eqn:Hb'; [|done]. destruct (cs_back _ _ Hb') as (b & Hb2 & _). congruence.
Qed.

Lemma cs_nonwhite r : nonwhite s' r <-> nonwhite s r.
Proof using Hs.
  split.
  - intros (o' & Ho' & Hw). destruct (heap s !! r) as [o|] eqn:Ho; [|by rewrite (cs_none _ _ Hs _ Ho) in Ho'].
    destruct (cs_obj _ _ Hs _ _ Ho) as (o2 & Ho2 & M & _). exists o. split; [done|]. unfold iswhite in *. congruence.
  - intros (o & Ho & Hw). destruct (cs_obj _ _ Hs _ _ Ho) as (o' & Ho' & M & _). exists o'. split; [done|]. unfold iswhite in *. by rewrite M.
Qed.

Lemma cs_val_ok v : val_ok s v -> val_ok s' v.
Proof using Hs.
  destruct v; cbn; try done; intros [x Hx]; destruct (cs_body _ _ Hx) as (b' & Hb' & [->|(h & h' & E & -> & _)]); rewrite Hb'; eauto; congruence.
Qed.

Lemma cs_body_ok b : body_ok s b -> body_ok s' b.
Proof using Hs.
  assert (Hv : forall v, val_ok s v -> val_ok s' v) by apply cs_val_ok. destruct b as [h|u|[e f l|e p l]|[L lv|v]|t]; cbn [body_ok].
  - intros (Hw & Hm & Ha & Hn). split_and!; [done|intros mt E; by apply (Hv (VTable mt)), Hm|by eapply list.Forall_impl|].
    eapply list.Forall_impl; [exact Hn|]. intros n Hok Hg. destruct (Hok Hg). auto.
  - intros [He Hm]. split; [by apply (Hv (VTable _))|]. intros mt E. by apply (Hv (VTable mt)), Hm.
  - intros [He Hl]. split; [by apply (Hv (VTable _))|by eapply list.Forall_impl].
  - intros [He Hl]. split; [by apply (Hv (VTable _))|]. eapply list.Forall_impl; [exact Hl|]. intros x (r & uv & -> & Hr). exists r, uv.
    split; [done|]. destruct (cs_body _ _ Hr) as (b' & -> & [->|(h & h' & E & _)]); [done|congruence].
  - intros (t & v & Hl & Hg & Hlim & Hok). exists t, v. rewrite cs_th. auto.
  - auto.
  - intros (Hw & Hg & Hl). split_and!; [done|auto|by eapply list.Forall_impl].
Qed.

Lemma cs_closed : heap_closed s -> heap_closed s'.
Proof using Hs.
  intros Hc r b' Hb'. destruct (cs_back _ _ Hb') as (b & Hb & [->|(h & h' & -> & -> & Hcl)]); [by apply cs_body_ok, (Hc r)|].
  destruct (cs_body_ok _ (Hc _ _ Hb)) as (Hw & Hm & Ha & Hn). destruct (tc_rest _ _ Hcl) as (Em & _). cbn [body_ok]. rewrite Em. split_and!.
  - by eapply table_cleared_wf.
  - done.
  - apply list.Forall_forall. intros v' Hv'. apply list_elem_of_lookup in Hv' as [i Hi].
    destruct (Forall2_lookup_r _ _ _ _ _ (tc_array _ _ Hcl) Hi) as (v & Hv & [-> | ->]); [|done].
    rewrite list.Forall_forall in Ha. apply Ha. by eapply list_elem_of_lookup_2.
  - apply list.Forall_forall. intros n' Hn'. apply list_elem_of_lookup in Hn' as [i Hi].
    destruct (Forall2_lookup_r _ _ _ _ _ (tc_nodes _ _ Hcl) Hi) as (n & Hi' & [[Ev|Ev] _ [Ek|(Ev' & _)]]); try done.
    rewrite Ev, Ek. rewrite list.Forall_forall in Hn. apply Hn. by eapply list_elem_of_lookup_2.
Qed.
End cstep.
End clear.

(** * What the mark phase leaves alive

    [atomic] ends; at the end of the mark phase the roots are marked, and what
    marked objects refer to by references that are not weak; after weak tables
    have been cleared, objects that are alive refer to objects that are alive. *)


Section alive.
Context {HM : Machine} {HH : Host} {HC : Cenv} {HK : Calling} {HS : Sizes}.
Implicit Types (s : State) (r k : Z) (b : body) (v : TValue) (o : GCObject).

(** ** Weak tables *)

(** What [cleartable] does not look at is marked. *)
Definition strong_marked s r : Prop := exists o h, heap s !! r = Some o /\ obj o = OTable h /\
  (forall k, metatable h = Some k -> nonwhite s k) /\
  (testbit (marked o) VALUEWEAKBIT = false -> forall k, k ∈ vals (array h) -> nonwhite s k).

(** All that [r] refers to, apart from the keys of empty nodes, is marked. *)
Definition live_marked s r : Prop := forall b k, body_at s r = Some b -> k ∈ live_refs s b -> nonwhite s k.

Lemma settled_strong s r h : settled s r -> body_at s r = Some (OTable h) -> strong_marked s r.
Proof.
  intros Hst Hb. destruct (body_object _ _ _ Hb) as (o & Ho & Eo). exists o, h. split_and!; [done|done|..].
  - intros k Hk. destruct Hst as [Hm|(_ & o2 & h2 & Ho2 & Eo2 & Hm)].
    + apply Hm. rewrite (refs_table _ _ _ Hb). apply elem_table_refs. by left.
    + apply Hm. apply elem_table_refs. left. congruence.
  - intros Hv k Hk. destruct Hst as [Hm|(_ & o2 & h2 & Ho2 & Eo2 & Hm)].
    + apply Hm. rewrite (refs_table _ _ _ Hb). apply elem_table_refs. right. split; [done|by left].
    + assert (o2 = o) as -> by congruence. assert (h2 = h) as -> by congruence. apply Hm. apply elem_table_refs. right.
      rewrite Hv, andb_false_r. split; [done|by left].
Qed.

Lemma cs_strong s s' r : cstep s s' -> strong_marked s r -> strong_marked s' r.
Proof.
  intros Hs (o & h & Ho & Eo & Hm & Hv). destruct (cs_obj _ _ Hs _ _ Ho) as (o' & Ho' & Em & Hb).
  assert (Hc : exists h', obj o' = OTable h' /\ table_cleared h h').
  { destruct Hb as [E|(h1 & h2 & E1 & E2 & Hc)]; [exists h; rewrite E; split; [done|apply table_cleared_refl]|exists h2; split; [done|congruence]]. }
  destruct Hc as (h' & Eo' & Hc). exists o', h'. rewrite Em. split_and!; [done|done|..].
  - intros k Hk. apply (cs_nonwhite _ _ Hs), Hm. destruct (tc_rest _ _ Hc) as (E & _). congruence.
  - intros Hw k Hk. apply (cs_nonwhite _ _ Hs), (Hv Hw). revert Hk. apply vals_mono. intros v' Hv'.
    apply list_elem_of_lookup in Hv' as [i Hi]. destruct (Forall2_lookup_r _ _ _ _ _ (tc_array _ _ Hc) Hi) as (v & Hi' & [-> | ->]); [left|by right].
    by eapply list_elem_of_lookup_2.
Qed.

Lemma cs_live s s' r : cstep s s' -> live_marked s r -> live_marked s' r.
Proof.
  intros Hs Hl b' k Hb' Hk. apply (cs_nonwhite _ _ Hs). destruct (cs_back _ _ Hs _ _ Hb') as (b & Hb & [->|(h & h' & -> & -> & Hc)]).
  - apply (Hl b k Hb). destruct b; try done; cbn [live_refs] in *; by rewrite (body_refs_same s s') in Hk by apply (cs_th _ _ Hs).
  - apply (Hl _ k Hb). by eapply live_refs_cleared.
Qed.

Lemma clear_step s r o h a n :
  heap s !! r = Some o -> obj o = OTable h -> table_cleared h (with_node n (with_array a h)) ->
  cstep s (put_body r (OTable (with_node n (with_array a h))) s).
Proof.
  intros Ho Eo Hc. rewrite (put_body_paint _ _ _ _ Ho). split; [|..|done|done].
  - intros r' o' Ho'. rewrite heap_paint. case_decide as Hr; [|eauto 6]. subst r'. assert (o' = o) as -> by congruence.
    eexists. split; [reflexivity|]. split; [done|]. right. eauto.
  - intros r' Hr. rewrite heap_paint. case_decide; [congruence|done].
Qed.

(** What [cleartable] leaves of [r] *)
Definition weeded_at s s' r : Prop := body_at s' r = body_at s r \/
  exists o h h', heap s !! r = Some o /\ obj o = OTable h /\ body_at s' r = Some (OTable h') /\
    weeded (removable s) (testbit (marked o) VALUEWEAKBIT) h h'.

Lemma cs_removable s s' c v : cstep s s' -> removable s' c v -> removable s c v.
Proof.
  intros Hs (k & o' & Hg & Ho' & Hr). destruct (heap s !! k) as [o|] eqn:Ho; [|by rewrite (cs_none _ _ Hs _ Ho) in Ho'].
  destruct (cs_obj _ _ Hs _ _ Ho) as (o2 & Ho2 & Em & _). assert (o2 = o') as -> by congruence. exists k, o.
  unfold iswhite, isfinalized in *. by rewrite <- Em.
Qed.

Lemma weeded_at_trans s1 s2 s3 r : cstep s1 s2 -> weeded_at s1 s2 r -> weeded_at s2 s3 r -> weeded_at s1 s3 r.
Proof.
  intros Hs H12 [E23|(o2 & h2 & h3 & Ho2 & Eo2 & Hb3 & Hw3)].
  - destruct H12 as [E12|(o & h & h' & Ho & Eo & Hb & Hw)]; [left; congruence|right]. exists o, h, h'. split_and!; [done|done|congruence|done].
  - right. assert (Hb2 : body_at s2 r = Some (OTable h2)) by (unfold body_at; by rewrite Ho2, <- Eo2).
    assert (Ho : exists o, heap s1 !! r = Some o /\ marked o2 = marked o).
    { destruct (heap s1 !! r) as [o|] eqn:Ho; [|by rewrite (cs_none _ _ Hs _ Ho) in Ho2]. destruct (cs_obj _ _ Hs _ _ Ho) as (o' & Ho' & Em & _).
      exists o. split; [done|congruence]. }
    destruct Ho as (o & Ho & Em). rewrite Em in Hw3. apply (weeded_mono _ (removable s1)) in Hw3; [|intros c v; by apply cs_removable].
    destruct H12 as [E12|(o1 & h & h' & Ho1 & Eo1 & Hb & Hw)].
    + exists o, h2, h3. split_and!; [done| |done|done]. rewrite E12 in Hb2. unfold body_at in Hb2. rewrite Ho in Hb2. by injection Hb2.
    + assert (o1 = o) as -> by congruence. assert (h' = h2) as -> by congruence. exists o, h, h3. split_and!; [done|done|done|by eapply weeded_trans].
Qed.

Lemma clear_one s r : heap_closed s -> strong_marked s r ->
  exists s', (forall l, cleartable (r :: l) s = cleartable l s') /\ cstep s s' /\ live_marked s' r /\ weeded_at s s' r /\
    forall x, x <> r -> body_at s' x = body_at s x.
Proof.
  intros Hc (o & h & Ho & Eo & Hm & Hv). assert (Hb : body_at s r = Some (OTable h)) by (unfold body_at; by rewrite Ho, <- Eo).
  destruct (Hc _ _ Hb) as (_ & _ & Ha & Hn).
  assert (E : object r s = Ok o s) by (unfold object; by rewrite Ho).
  assert (Hav : exists a, (if testbit (marked o) VALUEWEAKBIT then clear_values (array h) else mret (array h)) s = Ok a s /\
    Forall2 (fun v v' => v' = v \/ testbit (marked o) VALUEWEAKBIT = true /\ v' = VNil /\ removable s false v) (array h) a /\
    forall k, k ∈ vals a -> nonwhite s k).
  { destruct (testbit _ _); [|exists (array h); split_and!; [done|apply list.Forall_Forall2_diag, list.Forall_forall; auto|by apply Hv]].
    destruct (clear_values_spec s _ Ha) as (a & Ea & Hf & Hmk). exists a. split_and!; [done|done|]. intros k. by apply vals_marked. }
  destruct Hav as (a & Ea & Hfa & Hma).
  destruct (clear_nodes_spec s _ Hn) as (n & En & Hfn & Hmn).
  assert (Hwd : weeded (removable s) (testbit (marked o) VALUEWEAKBIT) h (with_node n (with_array a h))) by (by split).
  assert (Hst : cstep s (put_body r (OTable (with_node n (with_array a h))) s)) by (eapply clear_step; [done|done|by eapply weeded_cleared]).
  eexists. split.
  { intros l. cbn [cleartable]. rewrite (m_bind_eq _ _ _ _ _ E), (m_bind_eq _ _ _ _ _ (gco2h_at _ _ _ Hb)), (m_bind_eq _ _ _ _ _ Ea), (m_bind_eq _ _ _ _ _ En).
    rewrite (m_bind_eq _ _ _ _ _ (set_body_eq r _ s ltac:(by rewrite Hb))). done. }
  split; [exact Hst|]. split; [|split; [|intros x Hx; by rewrite body_at_put, decide_False]].
  - intros b k Hb' Hk. apply (cs_nonwhite _ _ Hst). rewrite body_at_put, decide_True, Hb in Hb' by done. injection Hb' as <-.
    apply elem_live_table in Hk as [Hk|[Hk|(x & Hx & Hg & Hk)]]; [by apply Hm|by apply Hma|].
    rewrite list.Forall_forall in Hmn. destruct (Hmn x Hx Hg) as [H1 H2]. apply vals_two in Hk as [Hk|Hk]; [by apply H1|by apply H2].
  - right. eexists o, h, _. split_and!; [done|done|by rewrite body_at_put, decide_True, Hb|done].
Qed.

Lemma cleartable_ok l s :
  heap_closed s -> (forall r, r ∈ l -> strong_marked s r) ->
  exists s', cleartable l s = Ok tt s' /\ cstep s s' /\ (forall r, r ∈ l -> live_marked s' r) /\
    forall x, body_at s' x = body_at s x \/ x ∈ l /\ weeded_at s s' x.
Proof.
  revert s. induction l as [|r l IH]; intros s Hc Hl.
  { exists s. split_and!; [done|apply cstep_refl| |by left]. intros r Hr. by apply elem_of_nil in Hr. }
  destruct (clear_one s r Hc) as (s1 & E1 & H1 & Hr & Hw1 & Hx1); [apply Hl, elem_of_cons; by left|].
  destruct (IH s1) as (s2 & E2 & H2 & Hl2 & Hx2); [by eapply cs_closed|intros r' Hr'; eapply cs_strong; [done|apply Hl, elem_of_cons; by right]|].
  exists s2. split_and!; [|by eapply cstep_trans| |].
  - by rewrite E1.
  - intros r' [->|Hr']%elem_of_cons; [by eapply cs_live|by apply Hl2].
  - intros x. assert (Hw2 : weeded_at s1 s2 x) by (destruct (Hx2 x) as [E|[_ Hw]]; [by left|done]).
    destruct (decide (x = r)) as [->|Hne]; [right; split; [apply elem_of_cons; by left|by eapply weeded_at_trans]|].
    destruct (Hx2 x) as [E|[Hin _]]; [left; by rewrite E, Hx1|right]. split; [apply elem_of_cons; by right|].
    eapply weeded_at_trans; [exact H1|left; by apply Hx1|done].
Qed.

(** ** The invariant of the mark phase *)

Record marking s (L : Z) : Prop := {
mk_ok : mark_ok s;
mk_tri : tricolour s;
mk_white : white_ok (G s);
mk_alive : forall r, alive s r;
mk_roots : roots_ok s L;
mk_both : forall r o, heap s !! r = Some o -> isblack o = true -> iswhite o = false;
mk_fixed : forall r o, heap s !! r = Some o -> Z.testbit (marked o) 5 = true -> r = mainthread (G s);
mk_main : nonwhite s (mainthread (G s));
mk_registry : val_marked s (l_registry (G s))
}.

Lemma ps_alive s s' : pstep s s' -> (forall r, alive s r) -> forall r, alive s' r.
Proof.
  intros Hs Ha r o' Ho'. destruct (heap s !! r) as [o|] eqn:Ho.
  - destruct (ps_marked _ _ Hs _ _ Ho) as (o2 & Ho2 & [_ Hd _]). assert (o2 = o') as -> by congruence.
    destruct (pstep_G _ _ Hs) as (E & _). apply isdead_spec. rewrite E. intros n Hn Hm.
    pose proof (proj1 (isdead_spec _ _) (Ha r o Ho) n Hn). apply H, Hd; [lia|done].
  - assert (Hn : body_at s r = None) by (unfold body_at; by rewrite Ho). apply (ps_none _ _ Hs) in Hn. unfold body_at in Hn. by rewrite Ho' in Hn.
Qed.

(** A mark of the gray and weak lists *)
Lemma propagated_lists f s :
  (forall g, f g = set_gray (gray (f g)) (set_grayagain (grayagain (f g)) (set_weak (weak (f g)) g))) ->
  (forall r, r ∈ pending (f (G s)) -> r ∈ pending (G s)) -> (forall r, r ∈ weak (f (G s)) -> r ∈ weak (G s)) ->
  mark_ok s -> mark_ok (set_globals f s) /\ pstep s (set_globals f s).
Proof. intros Hf Hp Hw Ho. split; [by apply set_lists_ok|by apply set_lists_pstep]. Qed.

(** The weak tables become gray. *)
Lemma weak_to_gray X s :
  gray (G s) = [] -> mark_ok s -> tri (X ++ weak (G s)) s ->
  let s' := set_globals (fun g => set_gray (weak g) (set_weak [] g)) s in mark_ok s' /\ pstep s s' /\ tri X s'.
Proof.
  intros Hg Ho Ht s'. destruct (propagated_lists (fun g => set_gray (weak g) (set_weak [] g)) s) as [Ho' Hp]; [by intros []| | |done|].
  { unfold pending. cbn. intros r. rewrite Hg, !elem_of_app. intros [|[|Hr]]; [by right; right|by right; left|]. by destruct (proj1 (elem_of_nil r) Hr). }
  { intros r Hr. by apply elem_of_nil in Hr. }
  split_and!; [done|done|]. intros r Hr. destruct (Ht r Hr) as [Hin|[Hin|[Hm|[Hin _]]]].
  - rewrite Hg in Hin. by apply elem_of_nil in Hin.
  - apply elem_of_app in Hin as [|]; [by right; left|by left].
  - by right; right; left.
  - by left.
Qed.

(** The objects of [grayagain] become gray. *)
Lemma again_to_gray s :
  gray (G s) = [] -> mark_ok s -> tri (grayagain (G s)) s ->
  let s' := set_globals (fun g => set_gray (grayagain g) (set_grayagain [] g)) s in mark_ok s' /\ pstep s s' /\ tri [] s'.
Proof.
  intros Hg Ho Ht s'. destruct (propagated_lists (fun g => set_gray (grayagain g) (set_grayagain [] g)) s) as [Ho' Hp]; [by intros []| |done|done|].
  { unfold pending. cbn. intros r. rewrite Hg, !elem_of_app. intros [|]; [by right; left|by right; right]. }
  split_and!; [done|done|]. intros r Hr. destruct (Ht r Hr) as [Hin|[Hin|[Hm|Hw]]].
  - rewrite Hg in Hin. by apply elem_of_nil in Hin.
  - by left.
  - by right; right; left.
  - by right; right; right.
Qed.

Lemma tri_mono X Y s : (forall r, r ∈ X -> r ∈ Y) -> tri X s -> tri Y s.
Proof. intros Hs Ht r Hr. destruct (Ht r Hr) as [|[|]]; auto. Qed.

(** The first half: the open upvalues, the weak tables, the running thread *)
Lemma atomic_first s L : mark_ok s -> tricolour s -> roots_ok s L ->
  exists s', (forall m : M unit, (remarkupvals;; propagateall;; modG (fun g => set_gray (weak g) (set_weak [] g));; markobject L;; markmt;; propagateall;; m) s = m s') /\
    mark_ok s' /\ pstep s s' /\ gray (G s') = [] /\ tri (grayagain (G s')) s' /\ weak_ok s' /\ nonwhite s' L /\ forall r, Some r ∈ mt (G s') -> nonwhite s' r.
Proof.
  intros Ho Ht Hr. destruct (remarkupvals_ok s Ho Ht) as (s1 & E1 & H1 & Ht1).
  pose proof (propagated_step _ _ H1 Ho) as P1. destruct (propagateall_ok s1 (pr_ok _ _ P1)) as (s2 & E2 & P2 & Hg2 & _).
  pose proof (propagated_trans _ _ _ P1 P2) as P02. destruct (pr_lists _ _ P02) as [Hw02 Ha02].
  destruct (weak_to_gray (grayagain (G s)) s2 Hg2 (pr_ok _ _ P2)) as (Ho3 & Hp3 & Ht3).
  { eapply tri_mono; [|by apply (pr_tri _ _ P2)]. intros r. rewrite !elem_of_app. intros [|]; auto. }
  set (s3 := set_globals _ s2) in *. 
  pose proof (pstep_trans _ _ _ (pr_step _ _ P02) Hp3) as P03. pose proof (roots_step _ _ _ P03 Hr) as Hr3.
  destruct (ro_thread _ _ Hr3) as [t Hth].
  destruct (markobject_steps L s3) as (s4 & E4 & H4 & Hn4); [by rewrite (th_body _ _ _ Hth)|apply (mo_closed _ Ho3)|].
  pose proof (propagated_step _ _ H4 Ho3) as P4.
  destruct (markmt_steps s4) as (s5 & E5 & H5 & Hn5); [apply (mo_closed _ (pr_ok _ _ P4))|apply (ro_mt _ _ (roots_step _ _ _ (pr_step _ _ P4) Hr3))|].
  pose proof (propagated_trans _ _ _ P4 (propagated_step _ _ H5 (pr_ok _ _ P4))) as P35.
  destruct (propagateall_ok s5 (pr_ok _ _ P35)) as (s6 & E6 & P6 & Hg6 & _). pose proof (propagated_trans _ _ _ P35 P6) as P36.
  assert (Hwk3 : weak_ok s3) by (intros r Hin; by apply elem_of_nil in Hin).
  exists s6. split_and!; [intros m; rewrite (m_bind_eq _ _ _ _ _ E1), (m_bind_eq _ _ _ _ _ E2);
    change ((modG ?f ≫= ?k) s2) with (k tt s3); cbv beta; by rewrite (m_bind_eq _ _ _ _ _ E4), (m_bind_eq _ _ _ _ _ E5), (m_bind_eq _ _ _ _ _ E6)|by apply P36|by eapply pstep_trans; [|by apply pr_step]|done| |by apply (pr_weak _ _ P36)| |].
  - eapply tri_mono; [|by apply (pr_tri _ _ P36)]. intros r Hin. by apply (pr_lists _ _ P36), (Ha02 r).
  - by apply (ps_nonwhite _ _ (pr_step _ _ P6)), (ms_nonwhite _ _ _ _ H5).
  - destruct (pstep_G _ _ (pr_step _ _ P6)) as (_ & _ & _ & _ & _ & _ & ->). intros r Hin. by apply (ps_nonwhite _ _ (pr_step _ _ P6)), Hn5.
Qed.

(** The second half: the objects that a barrier made gray again, and the
    userdata that wait for their finalizers *)
Lemma atomic_second s L : mark_ok s -> gray (G s) = [] -> tri (grayagain (G s)) s -> weak_ok s -> white_ok (G s) -> roots_ok s L ->
  exists s', (forall m : M unit, (modG (fun g => set_gray (grayagain g) (set_grayagain [] g));; propagateall;; luaC_separateudata false;; marktmu;; propagateall;; m) s = m s') /\
    mark_ok s' /\ pstep s s' /\ weak_ok s' /\ (forall r, nonwhite s' r -> settled s' r) /\ forall r, r ∈ tmudata (G s') -> nonwhite s' r.
Proof.
  intros Ho Hg Ht Hwk Hw Hr. destruct (again_to_gray s Hg Ho Ht) as (Ho1 & H1 & Ht1). set (s1 := set_globals _ s) in *.
  pose proof (roots_step _ _ _ H1 Hr) as Hr1.
  destruct (propagateall_ok s1 Ho1) as (s2 & E2 & P2 & Hg2 & _).
  destruct (separateudata_ok s2 L (pr_ok _ _ P2) (roots_step _ _ _ (pr_step _ _ P2) Hr1)) as (s3 & E3 & P3 & Hg3).
  pose proof (propagated_trans _ _ _ P2 P3) as P13.
  destruct (marktmu_ok s3 L (pr_ok _ _ P3)) as (s4 & E4 & P4 & Hn4 & Hu4); [|by apply (roots_step s1); [apply pr_step|]|].
  { unfold white_ok. by rewrite (proj1 (pstep_G _ _ (pr_step _ _ P13))). }
  pose proof (propagated_trans _ _ _ P13 P4) as P14.
  destruct (propagateall_ok s4 (pr_ok _ _ P4)) as (s5 & E5 & P5 & Hg5 & Hu5). pose proof (propagated_trans _ _ _ P14 P5) as P15.
  exists s5. split_and!; [intros m; change ((modG ?f ≫= ?k) s) with (k tt s1); cbv beta;
    by rewrite (m_bind_eq _ _ _ _ _ E2), (m_bind_eq _ _ _ _ _ E3), (m_bind_eq _ _ _ _ _ E4), (m_bind_eq _ _ _ _ _ E5)|by apply P15|by eapply pstep_trans; [|by apply pr_step]|by apply (pr_weak _ _ P15), weak_ok_globals| |].
  - intros r Hr5. destruct (pr_tri _ _ P15 _ Ht1 r Hr5) as [Hin|[Hin|]]; [|by apply elem_of_nil in Hin|done].
    rewrite Hg5 in Hin. by apply elem_of_nil in Hin.
  - rewrite Hu5, Hu4. intros r Hr3. by apply (ps_nonwhite _ _ (pr_step _ _ P5)), Hn4.
Qed.

(** ** The other white *)

Definition flip_white (g : global_State) : global_State :=
  set_gcstate GCSsweepstring (set_sweepgc None (set_currentwhite (u8 (otherwhite g)) g)).

Lemma flip_alive s r : white_ok (G s) -> (forall r, alive s r) -> is_Some (body_at s r) -> alive (set_globals flip_white s) r <-> nonwhite s r.
Proof.
  intros Hw Ha [b Hb]. destruct (body_object _ _ _ Hb) as (o & Ho & _). pose proof (proj1 (isdead_spec _ _) (Ha r o Ho)) as Hd.
  assert (Hf : isdead (flip_white (G s)) o = iswhite o).
  { destruct (iswhite o) eqn:E; [apply not_false_is_true; intros Hf|apply isdead_spec];
      rewrite testbits_white in E.
    - unfold isdead in Hf. apply orb_true_iff in E as [E|E].
      + pose proof (Hd 0 ltac:(by left) E). pose proof (proj1 (isdead_spec _ _) Hf 0 ltac:(by left) E) as Hn.
        destruct Hw as [Hw|Hw]; cbn in Hn; unfold otherwhite in Hn; rewrite Hw in *; done.
      + pose proof (Hd 1 ltac:(by right) E). pose proof (proj1 (isdead_spec _ _) Hf 1 ltac:(by right) E) as Hn.
        destruct Hw as [Hw|Hw]; cbn in Hn; unfold otherwhite in Hn; rewrite Hw in *; done.
    - apply orb_false_iff in E as [E0 E1]. intros n [-> | ->]; congruence. }
  split.
  - intros Hal. exists o. split; [done|]. rewrite <- Hf. by apply Hal.
  - intros (o' & Ho' & Hn) o2 Ho2. cbn in Ho2. assert (o' = o) as -> by congruence. assert (o2 = o) as -> by congruence. cbn [G set_globals set_G]. by rewrite Hf.
Qed.

(** ** Objects that are alive *)

(** What is alive refers to what is alive. *)
Definition alive_closed s : Prop := forall r b, body_at s r = Some b -> alive s r ->
  body_ok s b /\ forall k, k ∈ live_refs s b -> alive s k.

(** The roots: the running thread, the main thread, the registry, the
    metatables of the types, and the userdata to be finalized *)
Inductive root s (L : Z) : Z -> Prop :=
| root_thread : root s L L
| root_main : root s L (mainthread (G s))
| root_registry r : gcvalue (l_registry (G s)) = Some r -> root s L r
| root_mt r : Some r ∈ mt (G s) -> root s L r
| root_tmu r : r ∈ tmudata (G s) -> root s L r.

(** ** The end of the mark phase *)

(** The end of the mark phase, before weak tables are cleared: the roots and
    all that marked objects refer to strongly are marked. *)
Record marked_all s L : Prop := {
ma_roots : forall r, root s L r -> nonwhite s r;
ma_settled : forall r, nonwhite s r -> settled s r;
ma_weak : weak_ok s
}.

Lemma atomic_spec s L : marking s L ->
  exists s1 s2, atomic L s = Ok tt (set_globals flip_white s2) /\ pstep s s1 /\ heap_closed s1 /\ cstep s1 s2 /\ heap_closed s2 /\ roots_ok s1 L /\
    (forall r, nonwhite s2 r -> live_marked s2 r) /\ (forall r, root s2 L r -> nonwhite s2 r) /\
    marked_all s1 L /\ (forall r, body_at s2 r = body_at s1 r \/ weak_moded s1 r /\ weeded_at s1 s2 r).
Proof.
  intros [Ho Ht Hw Hal Hr _ _ Hm Hreg]. destruct (atomic_first s L Ho Ht Hr) as (s1 & E1 & Ho1 & P1 & Hg1 & Ht1 & Hwk1 & HnL & Hmt).
  pose proof (roots_step _ _ _ P1 Hr) as Hr1. destruct (pstep_G _ _ P1) as (Ew1 & _).
  destruct (atomic_second s1 L Ho1 Hg1 Ht1 Hwk1) as (s2 & E2 & Ho2 & P2 & Hwk2 & Hst & Htmu); [unfold white_ok; by rewrite Ew1|done|].
  destruct (cleartable_ok (weak (G s2)) s2 (mo_closed _ Ho2)) as (s3 & E3 & H3 & Hl3 & Hx3).
  { intros r Hin. destruct (mo_weak _ Ho2 _ Hin) as [h Hb]. eapply settled_strong; [|exact Hb]. apply Hst, (mo_pending _ Ho2).
    unfold pending. rewrite !elem_of_app. by right; right. }
  pose proof (pstep_trans _ _ _ P1 P2) as P02. destruct (pstep_G _ _ P02) as (_ & _ & _ & Er & Em & _ & Emt).
  assert (Hma : marked_all s2 L).
  { split; [|done..]. intros r [| |r' Eq|r' Eq|r' Eq].
    - by apply (ps_nonwhite _ _ P2).
    - rewrite Em. by apply (ps_nonwhite _ _ P02).
    - apply (ps_nonwhite _ _ P02), Hreg. congruence.
    - apply (ps_nonwhite _ _ P2), Hmt. destruct (pstep_G _ _ P2) as (_ & _ & _ & _ & _ & _ & E). congruence.
    - by apply Htmu. }
  exists s2, s3. split_and!.
  - unfold atomic. rewrite E1, E2. change ((getG ≫= ?k) s2) with (k (G s2) s2). cbv beta. by rewrite (m_bind_eq _ _ _ _ _ E3).
  - done.
  - apply (mo_closed _ Ho2).
  - done.
  - by apply (cs_closed s2 s3), mo_closed.
  - by eapply roots_step.
  - intros r Hn. apply (cs_nonwhite _ _ H3), Hst in Hn as [Hmk|[Hin _]]; [|by apply Hl3]. apply (cs_live _ _ _ H3).
    intros b k Hb Hk. apply Hmk. unfold refs. rewrite Hb. by apply live_refs_sub.
  - intros r Hroot. apply (cs_nonwhite _ _ H3), (ma_roots _ _ Hma). pose proof (cs_G _ _ H3) as EG.
    destruct Hroot as [| |r Eq|r Eq|r Eq]; rewrite ?EG in *; by constructor.
  - done.
  - intros r. destruct (Hx3 r) as [E|[Hin Hwd]]; [by left|right]. split; [by apply Hwk2|done].
Qed.

Lemma body_ok_refs s b k : body_ok s b -> k ∈ live_refs s b -> is_Some (body_at s k).
Proof.
  assert (Hl : forall l, Forall (val_ok s) l -> k ∈ vals l -> is_Some (body_at s k)).
  { intros l Hf Hk. apply elem_vals in Hk as (v & Hv & E). rewrite list.Forall_forall in Hf. eapply val_ok_body; [exact E|by apply Hf]. }
  assert (Ht : forall r, val_ok s (VTable r) -> is_Some (body_at s r)) by (intros r [h ->]; eauto).
  destruct b as [h|u|[e f l|e p l]|uv|t]; cbn [body_ok].
  - intros (_ & Hm & Ha & Hn) Hk. apply elem_live_table in Hk as [Hk|[Hk|(n & Hin & Hg & Hk)]]; [by apply Ht, Hm|by apply (Hl (array h))|].
    rewrite list.Forall_forall in Hn. destruct (Hn n Hin Hg). by apply (Hl [key2tval (gkey n); gval n]); [repeat constructor|].
  - intros [He Hm] Hk. cbn [live_refs body_refs] in Hk. apply elem_of_app in Hk as [Hk|Hk%list_elem_of_singleton]; [|subst; by apply Ht].
    destruct (uv_metatable u) as [mt|]; [|by apply elem_of_nil in Hk]. apply list_elem_of_singleton in Hk as ->. by apply Ht, Hm.
  - intros [He Hf] Hk. cbn [live_refs body_refs] in Hk. apply elem_of_cons in Hk as [->|Hk]; [by apply Ht|by apply (Hl l)].
  - intros [He Hf] Hk. cbn [live_refs body_refs] in Hk. apply elem_of_cons in Hk as [->|Hk]; [by apply Ht|].
    apply list_elem_of_omap in Hk as (x & Hx & Ex). rewrite list.Forall_forall in Hf. destruct (Hf x Hx) as (r & uv & -> & Hb). cbn in Ex.
    injection Ex as ->. rewrite Hb. eauto.
  - intros Hok Hk. destruct (upval_ok s uv Hok) as (v & E & Hv). cbn [live_refs body_refs] in Hk. rewrite E in Hk. apply (Hl [v]); [by constructor|done].
  - intros (_ & Hg & Hf) Hk. apply (Hl (l_gt t :: take (Z.to_nat (top t)) (stack t))); [by constructor|done].
Qed.

Lemma globals_ok f s b : body_ok s b -> body_ok (set_globals f s) b.
Proof. by apply body_ok_same. Qed.

Lemma live_refs_globals f s b : live_refs (set_globals f s) b = live_refs s b.
Proof. destruct b; try done; cbn [live_refs]; by apply body_refs_same. Qed.

Lemma cs_roots s s' L : cstep s s' -> roots_ok s L -> roots_ok s' L.
Proof.
  intros Hs [Rt Rm Rr Ra Ru]. split; rewrite ?(cs_G _ _ Hs), ?(cs_th _ _ Hs); [done|done|by eapply cs_val_ok| |].
  - intros r Hr. by apply (cs_val_ok _ _ Hs (VTable r)), Ra.
  - intros r Hr. destruct (Ru r Hr) as [u Hu]. destruct (cs_body _ _ Hs _ _ Hu) as (b' & Hb' & [->|(h & h' & E & _)]); [eauto|congruence].
Qed.

Lemma roots_body s L r : roots_ok s L -> root s L r -> is_Some (body_at s r).
Proof.
  intros [Rt Rm Rr Ra Ru] [| |r' Hr|r' Hr|r' Hr].
  - destruct Rt as [t Ht]. rewrite (th_body _ _ _ Ht). eauto.
  - destruct Rm as [t Ht]. rewrite (th_body _ _ _ Ht). eauto.
  - by eapply val_ok_body.
  - destruct (Ra _ Hr) as [h ->]. eauto.
  - destruct (Ru r') as [u ->]; [apply elem_of_app; by right|eauto].
Qed.

(** The state in which the sweep begins *)
Lemma atomic_alive s L :
  marking s L ->
  exists s1 s2, let s3 := set_globals flip_white s2 in atomic L s = Ok tt s3 /\ pstep s s1 /\ heap_closed s1 /\ cstep s1 s2 /\ heap_closed s2 /\ white_ok (G s2) /\
    alive_closed s3 /\ roots_ok s3 L /\ (forall r, root s3 L r -> alive s3 r) /\ (forall r, alive s2 r) /\
    marked_all s1 L /\ (forall r, body_at s2 r = body_at s1 r \/ weak_moded s1 r /\ weeded_at s1 s2 r).
Proof.
  intros Hm. destruct (atomic_spec s L Hm) as (s1 & s2 & E & H1 & Hc1 & H2 & Hc & Hr & Hl & Hroot & Hma & Hwk). exists s1, s2. cbv zeta.
  pose proof (ps_alive _ _ H1 (mk_alive _ _ Hm)) as Ha1.
  assert (Ha2 : forall r, alive s2 r).
  { intros r o2 Ho2. destruct (heap s1 !! r) as [o1|] eqn:Ho1; [|by rewrite (cs_none _ _ H2 _ Ho1) in Ho2].
    destruct (cs_obj _ _ H2 _ _ Ho1) as (o2' & Ho2' & Em & _). assert (o2' = o2) as -> by congruence. rewrite (cs_G _ _ H2).
    pose proof (Ha1 r o1 Ho1) as Hd. unfold isdead in *. by rewrite Em. }
  assert (Hw2 : white_ok (G s2)).
  { rewrite (cs_G _ _ H2). unfold white_ok. destruct (pstep_G _ _ H1) as (-> & _). apply (mk_white _ _ Hm). }
  assert (Hr2 : roots_ok (set_globals flip_white s2) L) by (destruct (cs_roots _ _ _ H2 Hr); by split).
  split_and!; try done.
  - intros r b Hb Hal. rewrite body_at_globals in Hb. split; [by apply globals_ok, (Hc r)|]. intros k. rewrite live_refs_globals. intros Hk.
    apply flip_alive; [done|done|by eapply body_ok_refs, Hk; apply (Hc r)|]. eapply (Hl r); [|done|done].
    apply (flip_alive s2 r); eauto.
  - intros r Hrt. pose proof (roots_body _ _ _ Hr2 Hrt) as Hbr. apply flip_alive; [done|done|done|]. apply Hroot.
    destruct Hrt as [| |r Hx|r Hx|r Hx]; [exact (root_thread s2 L)|exact (root_main s2 L)|exact (root_registry s2 L r Hx)|exact (root_mt s2 L r Hx)|exact (root_tmu s2 L r Hx)].
Qed.

End alive.
