(* ===== verification/GcSweep.v ===== *)
(** * The sweep phase: what it keeps

    The lists that own the objects, the relation between the heap before and
    after a part of the sweep, and why objects that are alive still refer to
    objects that are alive. *)

From S2P Require Import Prelude Clib Opcodes Object Debug Table TableOps Auxlib State Barrier Func Tm Do Vm Run Lstate Gc StateFacts GcTable GcMark GcPropagate GcAtomic GcAlive.

Section sweep.
Context {HM : Machine} {HH : Host} {HC : Cenv} {HK : Calling} {HS : Sizes}.
Implicit Types (s : State) (r k L : Z) (b : body) (v : TValue) (o : GCObject).

(** ** Lists *)

Definition objects (g : global_State) : list Z := rootgc g ++ udlist g.

(** Every object is in the list of all objects, waits for its finalizer, or is
    an open upvalue, in the list of its thread and in the list of all of them;
    [X] are objects that have been taken out of their list. *)
Record lists_ok (X : list Z) s : Prop := {
lo_nodup : NoDup (objects (G s) ++ tmudata (G s));
lo_listed : forall r, r ∈ objects (G s) ++ tmudata (G s) -> is_Some (body_at s r) /\ ~ open_upval s r;
lo_cover : forall r, is_Some (body_at s r) -> r ∈ objects (G s) ++ tmudata (G s) \/ open_upval s r \/ r ∈ X;
lo_out : forall r, r ∈ X -> ~ (r ∈ objects (G s) ++ tmudata (G s)) /\ ~ open_upval s r;
lo_uvhead : NoDup (uvhead (G s));
lo_open : forall r, r ∈ uvhead (G s) <-> open_upval s r;
lo_thread : forall L t, th s L = Some t -> NoDup (openupval t) /\
  forall r, r ∈ openupval t <-> exists lv, body_at s r = Some (OUpVal (UOpen L lv));
lo_slot : forall r L lv, body_at s r = Some (OUpVal (UOpen L lv)) -> exists t v, th s L = Some t /\ getZ (stack t) lv = Some v
}.

(** ** What a part of the sweep keeps *)

Definition kept s b b' : Prop :=
  b' = b \/ (exists t us, b = OThread t /\ b' = OThread (set_openupval us t) /\ us ⊆ openupval t) \/
  (exists uv v, b = OUpVal uv /\ uv_val s uv = Some v /\ b' = OUpVal (UClosed v)).

Record same_life s o o' : Prop := {
sl_fixed : Z.testbit (marked o') 5 = Z.testbit (marked o) 5;
sl_dead : isdead (G s) o' = isdead (G s) o;
sl_white : iswhite o = true -> iswhite o' = true;
sl_final : isfinalized o' = isfinalized o
}.

Record swept s s' : Prop := {
sp_G : exists l1 l2 l3 c p, G s' = set_gcstate c (set_sweepgc p (set_rootgc l1 (set_udlist l2 (set_uvhead l3 (G s)))));
sp_obj : forall r o', heap s' !! r = Some o' -> exists o, heap s !! r = Some o /\ kept s (obj o) (obj o') /\ same_life s o o';
sp_alive : forall r o, heap s !! r = Some o -> isdead (G s) o = false -> is_Some (heap s' !! r);
sp_brk : brk s' = brk s
}.

Lemma sp_globals s s' : swept s s' -> currentwhite (G s') = currentwhite (G s) /\
  tmudata (G s') = tmudata (G s) /\ mainthread (G s') = mainthread (G s) /\ l_registry (G s') = l_registry (G s) /\ mt (G s') = mt (G s).
Proof. intros Hs. destruct (sp_G _ _ Hs) as (? & ? & ? & ? & ? & ->). done. Qed.

Lemma isdead_white g g' o : currentwhite g' = currentwhite g -> isdead g' o = isdead g o.
Proof. intros E. unfold isdead, otherwhite. by rewrite E. Qed.

Lemma life_kept_refl s b : kept s b b.
Proof. by left. Qed.

Lemma swept_refl s : swept s s.
Proof.
  split; eauto.
  - exists (rootgc (G s)), (udlist (G s)), (uvhead (G s)), (gcstate (G s)), (sweepgc (G s)). by destruct (G s).
  - intros r o Ho. exists o. by split_and!; [|apply life_kept_refl|split].
Qed.

Lemma sp_back s s' r b' : swept s s' -> body_at s' r = Some b' -> exists b, body_at s r = Some b /\ kept s b b'.
Proof.
  intros Hs Hb. destruct (body_object _ _ _ Hb) as (o' & Ho' & <-). destruct (sp_obj _ _ Hs _ _ Ho') as (o & Ho & Hk & _).
  exists (obj o). split; [|done]. unfold body_at. by rewrite Ho.
Qed.

Lemma sp_thread_back s s' L t' : swept s s' -> th s' L = Some t' -> exists t us, th s L = Some t /\ t' = set_openupval us t /\ us ⊆ openupval t.
Proof.
  intros Hs Ht. destruct (sp_back _ _ _ _ Hs (th_body _ _ _ Ht)) as (b & Hb & [<-|[(t & us & -> & [= ->] & Hus)|(uv & v & _ & _ & E)]]); [| |done].
  - exists t', (openupval t'). unfold th. rewrite Hb. by destruct t'.
  - exists t, us. unfold th. by rewrite Hb.
Qed.

Lemma sp_uv_val s s' uv v : swept s s' -> uv_val s' uv = Some v -> uv_val s uv = Some v.
Proof.
  intros Hs. destruct uv as [L lv|w]; [|done]. cbn. destruct (th s' L) as [t'|] eqn:E; [|done].
  destruct (sp_thread_back _ _ _ _ Hs E) as (t & us & -> & -> & _). done.
Qed.

Lemma life_kept_trans s s' b b2 b3 : swept s s' -> kept s b b2 -> kept s' b2 b3 -> kept s b b3.
Proof.
  intros Hs H1 [->|[(t & us & -> & -> & Hus)|(uv & v & -> & Ev & ->)]]; [done| |].
  - destruct H1 as [<-|[(t0 & us0 & -> & [= ->] & Hus0)|(uv & v & _ & _ & E)]]; [by right; left; exists t, us|right; left; exists t0, us|done].
    split_and!; [done|done|]. by etransitivity.
  - apply (sp_uv_val _ _ _ _ Hs) in Ev. destruct H1 as [<-|[(t0 & us0 & _ & E & _)|(uv0 & v0 & -> & E0 & [= ->])]]; [by right; right; exists uv, v|done|].
    right; right. exists uv0, v0. cbn in Ev. split_and!; [done|done|congruence].
Qed.

Lemma swept_trans s1 s2 s3 : swept s1 s2 -> swept s2 s3 -> swept s1 s3.
Proof.
  intros H12 H23. destruct (sp_globals _ _ H12) as (Ew & _). split.
  - destruct (sp_G _ _ H12) as (a1 & a2 & a3 & a4 & a5 & E). destruct (sp_G _ _ H23) as (c1 & c2 & c3 & c4 & c5 & ->). exists c1, c2, c3, c4, c5. by rewrite E.
  - intros r o3 Ho3. destruct (sp_obj _ _ H23 _ _ Ho3) as (o2 & Ho2 & K2 & [F2 D2 W2 N2]). destruct (sp_obj _ _ H12 _ _ Ho2) as (o1 & Ho1 & K1 & [F1 D1 W1 N1]).
    exists o1. split_and!; [done|by eapply life_kept_trans|]. rewrite !(isdead_white (G s1) (G s2)) in D2 by done. split; [congruence|congruence|auto|congruence].
  - intros r o1 Ho1 Hd. destruct (sp_alive _ _ H12 _ _ Ho1 Hd) as [o2 Ho2]. destruct (sp_obj _ _ H12 _ _ Ho2) as (o1' & Ho1' & _ & [_ D1 _ _]).
    apply (sp_alive _ _ H23 _ o2 Ho2). rewrite (isdead_white (G s1) (G s2)) by done. congruence.
  - by rewrite (sp_brk _ _ H23), (sp_brk _ _ H12).
Qed.

Section keep.
Variables (s s' : State).
Hypothesis Hs : swept s s'.

Lemma sp_alive_iff r : is_Some (heap s' !! r) -> alive s' r <-> alive s r.
Proof using Hs.
  intros [o' Ho']. destruct (sp_obj _ _ Hs _ _ Ho') as (o & Ho & _ & [_ Hd _ _]). destruct (sp_globals _ _ Hs) as (Ew & _).
  unfold alive. rewrite Ho, Ho'. split; intros Ha x [= <-]; specialize (Ha _ eq_refl).
  - rewrite <- Hd. by rewrite <- (isdead_white (G s) (G s')).
  - rewrite (isdead_white (G s) (G s')) by done. by rewrite Hd.
Qed.

Lemma sp_body r b : body_at s r = Some b -> alive s r -> alive s' r /\ exists b', body_at s' r = Some b' /\ kept s b b'.
Proof using Hs.
  intros Hb Ha. destruct (body_object _ _ _ Hb) as (o & Ho & <-). destruct (sp_alive _ _ Hs _ _ Ho (Ha _ Ho)) as [o' Ho'].
  split; [apply sp_alive_iff; by rewrite ?Ho'|]. destruct (sp_obj _ _ Hs _ _ Ho') as (o2 & Ho2 & Hk & _). exists (obj o').
  split; [unfold body_at; by rewrite Ho'|]. by replace o with o2 by congruence.
Qed.

(** Values that refer to what is alive *)
Definition val_alive s v : Prop := forall k, gcvalue v = Some k -> alive s k.

Lemma sp_val_ok v : val_ok s v -> val_alive s v -> val_ok s' v.
Proof using Hs.
  intros Hv Ha. destruct v; try done; cbn in *; destruct Hv as [x Hx]; destruct (sp_body _ _ Hx (Ha _ eq_refl)) as (_ & b' & Hb & [->|[(? & ? & E & -> & _)|(? & ? & E & _)]]);
    try discriminate; rewrite Hb; eauto.
Qed.

Lemma sp_vals_ok l : Forall (val_ok s) l -> (forall k, k ∈ vals l -> alive s k) -> Forall (val_ok s') l.
Proof using Hs.
  intros Hf Ha. rewrite list.Forall_forall in *. intros v Hv. apply sp_val_ok; [by apply Hf|]. intros k Hk. apply Ha, elem_vals. eauto.
Qed.

Lemma sp_live_refs b b' k : kept s b b' -> k ∈ live_refs s' b' -> k ∈ live_refs s b.
Proof using Hs.
  intros [->|[(t & us & -> & -> & Hus)|(uv & v & -> & Ev & ->)]]; [|done|cbn; by rewrite Ev].
  destruct b as [| |[]|uv|]; try done. cbn. destruct (uv_val s' uv) as [v|] eqn:E; [|intros Hk; by apply elem_of_nil in Hk].
  by rewrite (sp_uv_val _ _ _ _ Hs E).
Qed.

Lemma thread_wf_open us t : thread_wf t -> thread_wf (set_openupval us t).
Proof. intros [H1 H2 H3]. by split. Qed.

Lemma sp_body_ok X r b b' : lists_ok X s' -> body_at s' r = Some b' -> kept s b b' ->
  body_ok s b -> (forall k, k ∈ live_refs s b -> alive s k) -> body_ok s' b'.
Proof using Hs.
  intros Hlo Hb' Hk Hok Ha.
  assert (Hv : forall v, val_ok s v -> (forall k, gcvalue v = Some k -> k ∈ live_refs s b) -> val_ok s' v).
  { intros v Hv Hin. apply sp_val_ok; [done..|]. intros k E. by apply Ha, Hin. }
  assert (Hvs : forall l, Forall (val_ok s) l -> (forall k, k ∈ vals l -> k ∈ live_refs s b) -> Forall (val_ok s') l).
  { intros l Hf Hin. apply sp_vals_ok; [done..|]. intros k E. by apply Ha, Hin. }
  destruct Hk as [->|[(t & us & -> & -> & Hus)|(uv & v & -> & Ev & ->)]].
  - destruct b as [h|u|[e f l|e p l]|[L lv|v]|t]; cbn [body_ok] in *.
    + destruct Hok as (Hw & Hm & Har & Hn). split_and!; [done|..].
      * intros mt E. apply (Hv (VTable mt)); [by apply Hm|]. intros k [= <-]. apply elem_live_table. by left.
      * apply Hvs; [done|]. intros k Hk. apply elem_live_table. by right; left.
      * rewrite list.Forall_forall in *. intros n Hin Hg. destruct (Hn n Hin Hg). split; (apply Hv; [done|]; intros k E; apply elem_live_table; right; right; exists n;
          split_and!; [done|done|apply vals_two; auto]).
    + destruct Hok as [He Hm]. split; [apply (Hv (VTable _)); [done|]; intros k [= <-]; apply elem_of_app; right; by apply list_elem_of_singleton|].
      intros mt E. apply (Hv (VTable mt)); [by apply Hm|]. intros k [= <-]. apply elem_of_app. left. rewrite E. by apply list_elem_of_singleton.
    + destruct Hok as [He Hl]. split; [apply (Hv (VTable _)); [done|]; intros k [= <-]; apply elem_of_cons; by left|].
      apply Hvs; [done|]. intros k Hk. apply elem_of_cons. by right.
    + destruct Hok as [He Hl]. split; [apply (Hv (VTable _)); [done|]; intros k [= <-]; apply elem_of_cons; by left|].
      rewrite list.Forall_forall in *. intros x Hx. destruct (Hl x Hx) as (q & uv & -> & Hq). exists q.
      assert (Haq : alive s q) by (apply Ha; apply elem_of_cons; right; apply list_elem_of_omap; by exists (Some q)).
      destruct (sp_body _ _ Hq Haq) as (_ & b' & Hb2 & [->|[(? & ? & E & _)|(? & ? & _ & _ & ->)]]); [eauto|done|eauto].
    + destruct Hok as (t & v & Ht & Hg & Hlim & Hok). destruct (lo_slot _ _ Hlo _ _ _ Hb') as (t' & v' & Ht' & Hg').
      destruct (sp_thread_back _ _ _ _ Hs Ht') as (t0 & us & Ht0 & -> & _). assert (t0 = t) as -> by congruence.
      exists (set_openupval us t), v. split_and!; [done|done|done|]. apply Hv; [done|]. intros k E. cbn. rewrite Ht. cbn. rewrite Hg. apply elem_vals. exists v.
      split; [by apply list_elem_of_singleton|done].
    + apply Hv; [done|]. intros k E. apply elem_vals. exists v. split; [by apply list_elem_of_singleton|done].
    + destruct Hok as (Hw & Hg & Hl). split_and!; [done|..].
      * apply Hv; [done|]. intros k E. apply elem_vals. exists (l_gt t). split; [apply elem_of_cons; by left|done].
      * apply Hvs; [done|]. intros k Hk. apply elem_vals in Hk as (v & Hv' & E). apply elem_vals. exists v. split; [apply elem_of_cons; by right|done].
  - destruct Hok as (Hw & Hg & Hl). split_and!; [by apply thread_wf_open|..].
    + apply Hv; [done|]. intros k E. apply elem_vals. exists (l_gt t). split; [apply elem_of_cons; by left|done].
    + apply Hvs; [done|]. intros k Hk. apply elem_vals in Hk as (v & Hv' & E). apply elem_vals. exists v. split; [apply elem_of_cons; by right|done].
  - destruct (upval_ok _ _ Hok) as (v' & Ev' & Hok'). assert (v' = v) as -> by congruence. apply Hv; [done|].
    intros k E. cbn. rewrite Ev. apply elem_vals. exists v. split; [by apply list_elem_of_singleton|done].
Qed.

Lemma sp_closed X : lists_ok X s' -> alive_closed s -> alive_closed s'.
Proof using Hs.
  intros Hlo Hc r b' Hb' Ha. destruct (sp_back _ _ _ _ Hs Hb') as (b & Hb & Hk).
  assert (Hr : is_Some (heap s' !! r)) by (destruct (body_object _ _ _ Hb') as (o & -> & _); eauto).
  destruct (Hc r b Hb) as [Hok Hal]; [by apply sp_alive_iff|]. split; [by eapply sp_body_ok|].
  intros k Hin. apply (sp_live_refs _ _ _ Hk) in Hin. specialize (Hal k Hin). destruct (body_ok_refs s b k Hok Hin) as [bk Hbk].
  by destruct (sp_body _ _ Hbk Hal).
Qed.
End keep.

(** ** The invariant of the sweep *)

Record sweep_ok (X : list Z) s L : Prop := {
sk_white : white_ok (G s);
sk_lists : lists_ok X s;
sk_closed : alive_closed s;
sk_fixed : forall r o, heap s !! r = Some o -> Z.testbit (marked o) 5 = true -> isdead (G s) o = false;
sk_kinds : roots_ok s L;
sk_roots : forall r, root s L r -> alive s r
}.

Lemma swept_ok X Y s s' L : swept s s' -> lists_ok Y s' -> (forall r, r ∈ udlist (G s') -> r ∈ udlist (G s)) -> sweep_ok X s L -> sweep_ok Y s' L.
Proof.
  intros Hs Hlo Hud [Hw Hl Hc Hf Hk Hr]. destruct (sp_globals _ _ Hs) as (Ew & Etm & Em & Er & Emt).
  assert (Hroot : forall r, root s' L r -> root s L r).
  { intros r [| |r' Hr'|r' Hr'|r' Hr']; rewrite ?Em, ?Er, ?Emt, ?Etm in *; [apply root_thread|apply root_main|by apply root_registry|by apply root_mt|by apply root_tmu]. }
  assert (Hth : forall k, root s L k -> is_Some (th s k) -> is_Some (th s' k)).
  { intros k Hkr [t Ht]. destruct (sp_body _ _ Hs _ _ (th_body _ _ _ Ht) (Hr k Hkr)) as (_ & b' & Hb & [->|[(? & ? & [= <-] & -> & _)|(? & ? & E & _)]]); [..|done];
      unfold th; rewrite Hb; eauto. }
  split; [unfold white_ok; by rewrite Ew|done|by eapply sp_closed| |..].
  - intros r o' Ho' Hb. destruct (sp_obj _ _ Hs _ _ Ho') as (o & Ho & _ & [Eb Ed _ _]). rewrite (isdead_white (G s) (G s')) by done.
    rewrite Ed. apply (Hf r); [done|by rewrite <- Eb].
  - destruct Hk as [Rt Rm Rr Ra Ru]. split; rewrite ?Em, ?Er, ?Emt, ?Etm.
    + apply Hth; [apply root_thread|done].
    + apply Hth; [apply root_main|done].
    + apply (sp_val_ok s s'); [done|done|]. intros k E. by apply Hr, root_registry.
    + intros r Hin. apply (sp_val_ok s s'); [done|by apply Ra|]. intros k [= <-]. by apply Hr, root_mt.
    + intros r Hin. destruct (lo_listed _ _ Hlo r) as [[b' Hb'] _].
      { rewrite elem_of_app. unfold objects. rewrite elem_of_app, Etm. apply elem_of_app in Hin as [|]; auto. }
      destruct (Ru r) as [u Hu]; [apply elem_of_app in Hin as [Hin|]; apply elem_of_app; [left; by apply Hud|by right]|].
      destruct (sp_back _ _ _ _ Hs Hb') as (b & Hb & [->|[(? & ? & E & _)|(? & ? & E & _)]]); [|congruence|congruence]. exists u. congruence.
  - intros r Hrr. apply Hroot in Hrr as Hrs. destruct (roots_body _ _ _ Hk Hrs) as [b Hb].
    by destruct (sp_body _ _ Hs _ _ Hb (Hr r Hrs)).
Qed.
End sweep.

(** * The sweep phase: its single steps

    An object that is alive is painted white; one that is dead is unlinked and
    freed, and a thread that is freed closes the upvalues that are alive. *)


(** ** Lists *)

Lemma remove_first_notin x l : x ∉ l -> list_remove_first x l = l.
Proof.
  induction l as [|y l IH]; [done|]. intros [Hne Hin]%not_elem_of_cons. cbn. rewrite (proj2 (Z.eqb_neq y x)) by congruence.
  by rewrite IH.
Qed.

Lemma remove_first_split x d q : NoDup (d ++ x :: q) -> list_remove_first x (d ++ x :: q) = d ++ q.
Proof.
  induction d as [|y d IH]; cbn; [by rewrite Z.eqb_refl|]. intros [Hy Hd]%list.NoDup_cons.
  rewrite (proj2 (Z.eqb_neq y x)); [by rewrite IH|]. intros ->. apply Hy, elem_of_app. right. apply elem_of_cons. by left.
Qed.

Lemma elem_remove_first x y l : NoDup l -> y ∈ list_remove_first x l <-> y ∈ l /\ y <> x.
Proof.
  induction l as [|z l IH]; [intros _; cbn; rewrite elem_of_nil; tauto|]. intros [Hz Hl]%list.NoDup_cons. cbn.
  destruct (Z.eqb_spec z x) as [->|Hne]; rewrite !elem_of_cons; [|rewrite IH by done; split; [intros [->|[? ?]]; auto|intros [[->|] ?]; auto]].
  split; [intros Hy; split; [by right|]; by intros ->|]. intros [[->|] Hy]; [done|done].
Qed.

Lemma NoDup_remove_first x l : NoDup l -> NoDup (list_remove_first x l).
Proof.
  induction l as [|z l IH]; [done|]. intros [Hz Hl]%list.NoDup_cons. cbn. destruct (z =? x); [done|]. rewrite list.NoDup_cons.
  split; [|auto]. rewrite elem_remove_first by done. tauto.
Qed.

Lemma list_after_split x d q : NoDup (d ++ x :: q) -> list_after x (d ++ x :: q) = q.
Proof.
  induction d as [|y d IH]; cbn; [by rewrite Z.eqb_refl|]. intros [Hy Hd]%list.NoDup_cons.
  rewrite (proj2 (Z.eqb_neq y x)); [by apply IH|]. intros ->. apply Hy, elem_of_app. right. apply elem_of_cons. by left.
Qed.

Lemma remove_first_app x l1 l2 : NoDup (l1 ++ l2) -> list_remove_first x l1 ++ list_remove_first x l2 = list_remove_first x (l1 ++ l2).
Proof.
  induction l1 as [|y l1 IH]; [done|]. cbn. intros [Hy Hl]%list.NoDup_cons. destruct (Z.eqb_spec y x) as [->|].
  - rewrite remove_first_notin; [done|]. intros Hx. apply Hy, elem_of_app. by right.
  - cbn. by rewrite IH.
Qed.

Section free.
Context {HM : Machine} {HH : Host} {HC : Cenv} {HK : Calling} {HS : Sizes}.
Implicit Types (s : State) (r k L : Z) (b : body) (v : TValue) (o : GCObject) (X : list Z).

(** ** Painting *)

Lemma lists_ok_same X s s' :
  (forall r, body_at s' r = body_at s r) -> objects (G s') = objects (G s) -> tmudata (G s') = tmudata (G s) -> uvhead (G s') = uvhead (G s) ->
  lists_ok X s -> lists_ok X s'.
Proof.
  intros Hb E1 E2 E3 [A1 A2 A3 A4 A5 A6 A7 A8].
  assert (Ht : forall L, th s' L = th s L) by (intros L; unfold th; by rewrite Hb).
  assert (Ho : forall r, open_upval s' r <-> open_upval s r) by (intros r; unfold open_upval; by setoid_rewrite Hb).
  split; rewrite ?E1, ?E2, ?E3; try done.
  - intros r Hr. rewrite Hb, Ho. by apply A2.
  - intros r. rewrite Hb, Ho. apply A3.
  - intros r. rewrite Ho. apply A4.
  - intros r. rewrite Ho. apply A6.
  - intros L t. rewrite Ht. setoid_rewrite Hb. apply A7.
  - intros r L lv. rewrite Hb. setoid_rewrite Ht. apply A8.
Qed.

(** Objects that the sweep has passed *)
Definition clean s r : Prop := exists o, heap s !! r = Some o /\ isdead (G s) o = false /\ iswhite o = true.

Lemma makewhite_life s o : white_ok (G s) -> isdead (G s) o = false -> same_life s o (makewhite (G s) o).
Proof.
  intros Hw Hd. split.
  - rewrite makewhite_bit by done. cbn. by rewrite andb_true_r.
  - rewrite Hd. apply isdead_spec. intros n Hn. rewrite makewhite_bit by (done || lia). by destruct Hn as [-> | ->].
  - intros _. by apply makewhite_white.
  - unfold isfinalized. rewrite !testbit_spec, makewhite_bit by done. cbn. apply andb_true_r.
Qed.

Lemma whiten_step X s r o :
  heap s !! r = Some o -> isdead (G s) o = false -> white_ok (G s) -> lists_ok X s ->
  let s' := paint r (makewhite (G s) o) s in
  upd_object r (makewhite (G s)) s = Ok tt s' /\ swept s s' /\ lists_ok X s' /\ clean s' r.
Proof.
  intros Ho Hd Hw Hl s'. split_and!.
  - by apply upd_object_paint.
  - split; [exists (rootgc (G s)), (udlist (G s)), (uvhead (G s)), (gcstate (G s)), (sweepgc (G s)); change (G s') with (G s); by destruct (G s)| | |done].
    + intros r' o'. unfold s'. rewrite heap_paint. case_decide as E; [subst r'; intros [= <-]|intros Ho'; exists o'; split_and!; [done|apply life_kept_refl|by split]].
      exists o. split_and!; [done|by left|by apply makewhite_life].
    + intros r' o' Ho' _. unfold s'. rewrite heap_paint. case_decide; eauto.
  - apply (lists_ok_same _ s); [|done..]. intros r'. by apply (body_paint _ o).
  - exists (makewhite (G s) o). unfold s'. rewrite heap_paint, decide_True by done. destruct (makewhite_life s o Hw Hd) as [_ E _ _].
    split_and!; [done|by etransitivity|by apply makewhite_white].
Qed.

Lemma clean_swept s s' r : swept s s' -> clean s r -> clean s' r.
Proof.
  intros Hs (o & Ho & Hd & Hw). destruct (sp_alive _ _ Hs _ _ Ho Hd) as [o' Ho']. destruct (sp_obj _ _ Hs _ _ Ho') as (o2 & Ho2 & _ & [_ Ed Ew]).
  assert (o2 = o) as -> by congruence. exists o'. split_and!; [done| |by apply Ew]. destruct (sp_globals _ _ Hs) as (E & _).
  rewrite (isdead_white (G s) (G s')) by done. congruence.
Qed.

(** ** Freeing *)

Definition removed r s : State := set_heap (delete r (heap s)) s.

Lemma body_removed r s r' : body_at (removed r s) r' = if decide (r = r') then None else body_at s r'.
Proof. unfold body_at, removed. cbn. rewrite lookup_delete. by case_decide. Qed.

Lemma swept_removed r f s :
  (forall g, exists l1 l2 l3 c p, f g = set_gcstate c (set_sweepgc p (set_rootgc l1 (set_udlist l2 (set_uvhead l3 g))))) ->
  (forall o, heap s !! r = Some o -> isdead (G s) o = true) -> swept s (removed r (set_globals f s)).
Proof.
  intros Hf Hd. split; [apply Hf| | |done].
  - intros r' o'. cbn. rewrite lookup_delete. case_decide; [done|]. intros Ho. exists o'. split_and!; [done|apply life_kept_refl|by split].
  - intros r' o' Ho Hal. cbn. rewrite lookup_delete. case_decide as E; [subst|by eauto]. specialize (Hd _ Ho). congruence.
Qed.

Lemma swept_put_open s L t us : th s L = Some t -> us ⊆ openupval t -> swept s (put L (set_openupval us t) s).
Proof.
  intros Ht Hus. destruct (body_object _ _ _ (th_body _ _ _ Ht)) as (o & Ho & Eo). rewrite (put_body_paint _ _ o) by done. split; [|..|done].
  - exists (rootgc (G s)), (udlist (G s)), (uvhead (G s)), (gcstate (G s)), (sweepgc (G s)). change (G (paint _ _ _)) with (G s). by destruct (G s).
  - intros r o'. rewrite heap_paint. case_decide as E; [subst r; intros [= <-]|intros Ho'; exists o'; split_and!; [done|apply life_kept_refl|by split]].
    exists o. split_and!; [done|right; left; by exists t, us|by split].
  - intros r o' Ho' _. rewrite heap_paint. case_decide; eauto.
Qed.

(** A dead upvalue of the thread [L] is freed. *)
Definition dropped r L t s : State :=
  removed r (set_globals (fun g => set_uvhead (list_remove_first r (uvhead g)) g) (put L t s)).

Lemma drop_ok X s L t keep rest r :
  th s L = Some t -> openupval t = keep ++ r :: rest -> lists_ok X s -> lists_ok X (dropped r L (set_openupval (keep ++ rest) t) s).
Proof.
  intros Ht Hus Hl. pose proof Hl as [A1 A2 A3 A4 A5 A6 A7 A8]. destruct (A7 _ _ Ht) as [Hnd Hin].
  assert (Hr : exists lv, body_at s r = Some (OUpVal (UOpen L lv))) by (apply Hin; rewrite Hus; apply elem_of_app; right; apply elem_of_cons; by left).
  destruct Hr as [lv Hr]. set (s' := dropped _ _ _ _). set (t' := set_openupval (keep ++ rest) t) in *.
  assert (HLr : L <> r) by (intros ->; by rewrite (th_body _ _ _ Ht) in Hr).
  assert (Hb : forall r', body_at s' r' = if decide (r = r') then None else if decide (L = r') then Some (OThread t') else body_at s r').
  { intros r'. unfold s', dropped. rewrite body_removed. case_decide; [done|]. rewrite body_at_globals, body_at_put. case_decide; [subst|done].
    by rewrite (th_body _ _ _ Ht). }
  assert (Ho : forall r', open_upval s' r' <-> open_upval s r' /\ r' <> r).
  { intros r'. unfold open_upval. setoid_rewrite Hb. split.
    - intros (L' & lv' & E). case_decide; [done|]. case_decide; [done|]. eauto.
    - intros [(L' & lv' & E) Hne]. exists L', lv'. rewrite decide_False, decide_False; [done| |congruence]. intros ->. by rewrite (th_body _ _ _ Ht) in E. }
  assert (Hor : open_upval s r) by (by exists L, lv). split; try done.
  - intros r' Hr'. destruct (A2 r' Hr') as [[b Hbr] Hno]. rewrite Hb, Ho. split; [|tauto]. rewrite decide_False by (intros ->; done).
    case_decide; eauto.
  - intros r'. rewrite Hb, Ho. case_decide; [by intros []|]. intros Hs. destruct (A3 r') as [|[|]]; [|by left|auto|by right; right].
    case_decide; [subst; rewrite (th_body _ _ _ Ht); eauto|done].
  - intros r' Hr'. rewrite Ho. destruct (A4 r' Hr'). tauto.
  - by apply NoDup_remove_first.
  - intros r'. rewrite Ho, <- A6. cbn. by apply elem_remove_first.
  - intros L2 t2 Ht2. unfold th in Ht2. rewrite Hb in Ht2. case_decide; [done|]. case_decide as EL; [subst L2; injection Ht2 as <-|].
    + rewrite Hus in Hnd. apply list.NoDup_app in Hnd as (N1 & N2 & N3). apply list.NoDup_cons in N3 as [N3 N4]. split.
      { apply list.NoDup_app. split_and!; [done| |done]. intros x Hx Hx'. apply (N2 x Hx), elem_of_cons. by right. }
      intros r'. cbn. setoid_rewrite Hb. case_decide as E; [subst r'|].
      { split; [|by intros [? ?]]. rewrite elem_of_app. intros [Hx|Hx]; [|done]. exfalso. apply (N2 r Hx), elem_of_cons. by left. }
      assert (E' : r' ∈ keep ++ rest <-> r' ∈ openupval t) by (rewrite Hus, !elem_of_app, elem_of_cons; split; [intros [|]; auto|intros [|[->|]]; auto; done]).
      rewrite E', Hin. split; intros [lv' E2]; exists lv'; [rewrite decide_False; [done|]; intros ->; by rewrite (th_body _ _ _ Ht) in E2|].
      by case_decide.
    + destruct (A7 L2 t2) as [B1 B2]; [done|]. split; [done|]. intros r'. rewrite B2. setoid_rewrite Hb. split; intros [lv' E2]; exists lv'.
      * rewrite decide_False, decide_False; [done| |congruence]. intros ->. by rewrite (th_body _ _ _ Ht) in E2.
      * case_decide; [done|]. by case_decide.
  - intros r' L2 lv2 E. rewrite Hb in E. case_decide; [done|]. case_decide; [done|]. destruct (A8 _ _ _ E) as (t2 & v & Ht2 & Hv).
    unfold th. rewrite Hb. case_decide as Er; [subst L2; unfold th in Ht2; by rewrite Hr in Ht2|]. case_decide as EL; [subst L2|by exists t2, v].
    exists t', v. split; [done|]. by replace t2 with t in Hv by congruence.
Qed.

(** An object is taken out of its list. *)
Definition unlinked r s : State :=
  set_globals (fun g => set_rootgc (list_remove_first r (rootgc g)) (set_udlist (list_remove_first r (udlist g)) g)) s.

Lemma objects_unlinked r s : NoDup (objects (G s)) -> objects (G (unlinked r s)) = list_remove_first r (objects (G s)).
Proof. intros Hn. by apply remove_first_app. Qed.

Lemma unlink_ok s r : r ∈ objects (G s) -> lists_ok [] s -> lists_ok [r] (unlinked r s).
Proof.
  intros Hr [A1 A2 A3 A4 A5 A6 A7 A8]. pose proof A1 as (N1 & N2 & N3)%list.NoDup_app.
  assert (Hin : forall x, x ∈ objects (G (unlinked r s)) <-> x ∈ objects (G s) /\ x <> r).
  { intros x. rewrite objects_unlinked by done. by apply elem_remove_first. }
  change (tmudata (G (unlinked r s))) with (tmudata (G s)).
  assert (E : forall x, x ∈ objects (G (unlinked r s)) ++ tmudata (G s) <-> x ∈ objects (G s) ++ tmudata (G s) /\ x <> r).
  { intros x. rewrite !elem_of_app, Hin. split; [intros [[? ?]|Hx]; [auto|split; [by right|]; intros ->; by apply (N2 r)]|tauto]. }
  split; change (tmudata (G (unlinked r s))) with (tmudata (G s)); try done.
  - rewrite objects_unlinked by done. apply list.NoDup_app. split_and!; [by apply NoDup_remove_first| |done].
    intros x Hx. apply N2. by apply elem_remove_first in Hx as [? _].
  - intros x Hx. apply E in Hx as [Hx _]. by apply A2.
  - intros x Hx. rewrite E, list_elem_of_singleton. destruct (decide (x = r)) as [->|Hne]; [by right; right|].
    destruct (A3 x Hx) as [|[|Hf]]; [by left|by right; left|by apply elem_of_nil in Hf].
  - intros x ->%list_elem_of_singleton. rewrite E. split; [tauto|]. apply (A2 r), elem_of_app. by left.
Qed.

(** An object that is in no list is freed. *)
Lemma removed_ok s r : (forall t, th s r = Some t -> openupval t = []) -> lists_ok [r] s -> lists_ok [] (removed r s).
Proof.
  intros Hth [A1 A2 A3 A4 A5 A6 A7 A8]. destruct (A4 r) as [Hr1 Hr2]; [by apply list_elem_of_singleton|].
  assert (Ho : forall x, open_upval (removed r s) x <-> open_upval s x).
  { intros x. unfold open_upval. setoid_rewrite body_removed. split; [intros (L & lv & E); case_decide; [done|eauto]|].
    intros (L & lv & E). rewrite decide_False; [eauto|]. intros ->. apply Hr2. by exists L, lv. }
  split; change (G (removed r s)) with (G s); try done.
  - intros x Hx. rewrite Ho, body_removed, decide_False by (intros ->; done). by apply A2.
  - intros x. rewrite Ho, body_removed. case_decide as E; [by intros []|]. intros Hx. destruct (A3 x Hx) as [|[|Hf%list_elem_of_singleton]]; auto.
    congruence.
  - intros x Hx. by apply elem_of_nil in Hx.
  - intros x. rewrite Ho. apply A6.
  - intros L t Ht. unfold th in Ht. rewrite body_removed in Ht. case_decide; [done|]. destruct (A7 L t) as [B1 B2]; [done|]. split; [done|].
    intros x. rewrite B2. setoid_rewrite body_removed. split; intros [lv E]; exists lv; [rewrite decide_False; [done|]|by case_decide].
    intros ->. apply Hr2. by exists L, lv.
  - intros x L lv E. rewrite body_removed in E. case_decide; [done|]. destruct (A8 _ _ _ E) as (t & v & Ht & Hv). exists t, v. split; [|done].
    unfold th. rewrite body_removed, decide_False; [done|]. intros <-. destruct (A7 r t Ht) as [_ B2]. rewrite (Hth t Ht) in B2.
    apply (not_elem_of_nil x), B2. eauto.
Qed.

(** An upvalue that is alive is closed, because its thread is freed. *)
Definition closed_upval r v L t s : State :=
  set_globals (fun g => set_rootgc (r :: rootgc g) g)
    (put_body r (OUpVal (UClosed v)) (set_globals (fun g => set_uvhead (list_remove_first r (uvhead g)) g) (put L t s))).

Lemma swept_globals f s : (forall g, exists l1 l2 l3 c p, f g = set_gcstate c (set_sweepgc p (set_rootgc l1 (set_udlist l2 (set_uvhead l3 g))))) -> swept s (set_globals f s).
Proof.
  intros Hf. split; [apply Hf| | |done]; [|by eauto]. intros r o Ho. exists o. by split_and!; [|apply life_kept_refl|split].
Qed.

Lemma swept_close s r uv v : body_at s r = Some (OUpVal uv) -> uv_val s uv = Some v -> swept s (put_body r (OUpVal (UClosed v)) s).
Proof.
  intros Hb Hv. destruct (body_object _ _ _ Hb) as (o & Ho & Eo). rewrite (put_body_paint _ _ o) by done. split; [|..|done].
  - exists (rootgc (G s)), (udlist (G s)), (uvhead (G s)), (gcstate (G s)), (sweepgc (G s)). change (G (paint _ _ _)) with (G s). by destruct (G s).
  - intros x o'. rewrite heap_paint. case_decide as E; [subst x; intros [= <-]|intros Ho'; exists o'; split_and!; [done|apply life_kept_refl|by split]].
    exists o. split_and!; [done|right; right; by exists uv, v|by split].
  - intros x o' Ho' _. rewrite heap_paint. case_decide; eauto.
Qed.

Lemma closed_upval_swept s r v L lv t rest :
  th s L = Some t -> openupval t = r :: rest -> body_at s r = Some (OUpVal (UOpen L lv)) -> getZ (stack t) lv = Some v ->
  swept s (closed_upval r v L (set_openupval rest t) s).
Proof.
  intros Ht Hus Hr Hv. assert (HLr : L <> r) by (intros ->; by rewrite (th_body _ _ _ Ht) in Hr).
  eapply swept_trans; [apply (swept_put_open _ L t rest); [done|rewrite Hus; by apply list_subseteq_cons]|]. set (s1 := put _ _ s).
  eapply swept_trans; [apply (swept_globals (fun g => set_uvhead (list_remove_first r (uvhead g)) g))|].
  { intros g. exists (rootgc g), (udlist g), (list_remove_first r (uvhead g)), (gcstate g), (sweepgc g). by destruct g. }
  set (s2 := set_globals _ s1). eapply swept_trans; [apply (swept_close s2 r (UOpen L lv) v)|].
  - unfold s2, s1. by rewrite body_at_globals, body_at_put, decide_False.
  - assert (E : th s2 L = Some (set_openupval rest t)) by (apply th_put_eq; by rewrite Ht). cbn. by rewrite E.
  - apply (swept_globals (fun g => set_rootgc (r :: rootgc g) g)). intros g. exists (r :: rootgc g), (udlist g), (uvhead g), (gcstate g), (sweepgc g). by destruct g.
Qed.

Lemma closed_upval_ok X s r v L lv t rest :
  th s L = Some t -> openupval t = r :: rest -> body_at s r = Some (OUpVal (UOpen L lv)) -> lists_ok X s ->
  lists_ok X (closed_upval r v L (set_openupval rest t) s).
Proof.
  intros Ht Hus Hr [A1 A2 A3 A4 A5 A6 A7 A8]. set (t' := set_openupval rest t). set (s' := closed_upval _ _ _ _ _).
  assert (HLr : L <> r) by (intros ->; by rewrite (th_body _ _ _ Ht) in Hr). assert (Hor : open_upval s r) by (by exists L, lv).
  assert (Hb : forall x, body_at s' x = if decide (r = x) then Some (OUpVal (UClosed v)) else if decide (L = x) then Some (OThread t') else body_at s x).
  { intros x. unfold s', closed_upval. rewrite body_at_globals, body_at_put. case_decide as E; [subst x|]; rewrite body_at_globals, body_at_put.
    - rewrite decide_False by done. by rewrite Hr.
    - case_decide; [subst|done]. by rewrite (th_body _ _ _ Ht). }
  assert (Ho : forall x, open_upval s' x <-> open_upval s x /\ x <> r).
  { intros x. unfold open_upval. setoid_rewrite Hb. split.
    - intros (L' & lv' & E). case_decide; [done|]. case_decide; [done|]. eauto.
    - intros [(L' & lv' & E) Hne]. exists L', lv'. rewrite decide_False, decide_False; [done| |congruence]. intros ->. by rewrite (th_body _ _ _ Ht) in E. }
  assert (Hex : forall x, is_Some (body_at s' x) <-> is_Some (body_at s x)).
  { intros x. rewrite Hb. case_decide; [subst; rewrite Hr; split; eauto|]. case_decide; [subst; rewrite (th_body _ _ _ Ht); split; eauto|done]. }
  assert (Hobj : objects (G s') = r :: objects (G s)) by done. assert (Hnr : r ∉ objects (G s) ++ tmudata (G s)) by (intros Hx; by destruct (A2 r Hx)).
  split; rewrite ?Hobj; change (tmudata (G s')) with (tmudata (G s)); cbn [app].
  - by apply list.NoDup_cons.
  - intros x Hx. rewrite Hex, Ho. apply elem_of_cons in Hx as [->|Hx]; [split; [rewrite Hr; eauto|tauto]|]. destruct (A2 x Hx). tauto.
  - intros x. rewrite Hex, Ho, elem_of_cons. intros Hx. destruct (decide (x = r)); [by left; left|]. destruct (A3 x Hx) as [|[|]]; auto.
  - intros x Hx. rewrite Ho, elem_of_cons. destruct (A4 x Hx) as [H1 H2]. split; [|tauto]. intros [->|]; [done|done].
  - by apply NoDup_remove_first.
  - intros x. rewrite Ho, <- A6. by apply elem_remove_first.
  - intros L2 t2 Ht2. unfold th in Ht2. rewrite Hb in Ht2. case_decide; [done|]. case_decide as EL; [subst L2; injection Ht2 as <-|].
    + destruct (A7 _ _ Ht) as [B1 B2]. rewrite Hus in B1, B2. apply list.NoDup_cons in B1 as [B0 B1]. split; [done|].
      intros x. change (openupval t') with rest. setoid_rewrite Hb. case_decide as E; [subst x; split; [done|by intros [? ?]]|].
      assert (E' : x ∈ rest <-> x ∈ r :: rest) by (rewrite elem_of_cons; split; [auto|intros [->|]; [done|done]]).
      rewrite E', B2. split; intros [lv' E2]; exists lv'; [rewrite decide_False; [done|]; intros ->; by rewrite (th_body _ _ _ Ht) in E2|by case_decide].
    + destruct (A7 L2 t2) as [B1 B2]; [done|]. split; [done|]. intros x. rewrite B2. setoid_rewrite Hb. split; intros [lv' E2]; exists lv'.
      * rewrite decide_False, decide_False; [done| |congruence]. intros ->. by rewrite (th_body _ _ _ Ht) in E2.
      * case_decide; [done|]. by case_decide.
  - intros x L2 lv2 E. rewrite Hb in E. case_decide; [done|]. case_decide; [done|]. destruct (A8 _ _ _ E) as (t2 & w & Ht2 & Hw).
    unfold th. rewrite Hb. case_decide as Er; [subst L2; unfold th in Ht2; by rewrite Hr in Ht2|]. case_decide as EL; [subst L2|by exists t2, w].
    exists t', w. split; [done|]. by replace t2 with t in Hw by congruence.
Qed.
End free.

(** * The sweep phase ends, and frees exactly the dead objects *)


Section collect.
Context {HM : Machine} {HH : Host} {HC : Cenv} {HK : Calling} {HS : Sizes}.
Implicit Types (s : State) (r k L : Z) (b : body) (v : TValue) (o : GCObject) (X : list Z).

(** ** The test of the sweep *)

Lemma land_bits2 x n m : 0 <= n -> 0 <= m ->
  (Z.land x (Z.lor (Z.shiftl 1 n) (Z.shiftl 1 m)) =? 0) = negb (Z.testbit x n || Z.testbit x m).
Proof.
  intros Hn Hm. pose proof (testbits_shiftl x n Hn) as En. pose proof (testbits_shiftl x m Hm) as Em. unfold testbits in *.
  rewrite Z.land_lor_distr_r. rewrite <- En, <- Em, negb_orb, !negb_involutive.
  apply eq_true_iff_eq. by rewrite andb_true_iff, !Z.eqb_eq, Z.lor_eq_0_iff.
Qed.

Lemma not_dead_spec X s L r o : sweep_ok X s L -> heap s !! r = Some o -> not_dead (otherwhite (G s)) o = negb (isdead (G s) o).
Proof.
  intros Hs Ho. pose proof (sk_fixed _ _ _ Hs r o Ho) as Hf. unfold not_dead, isdead, otherwhite in *. rewrite <- Z.land_assoc in *.
  destruct (sk_white _ _ _ Hs) as [E|E]; rewrite E in *.
  - change (Z.lxor 33 WHITEBITS) with (Z.lor (Z.shiftl 1 1) (Z.shiftl 1 5)). rewrite land_bits2, !Z.lxor_spec by done.
    change (Z.land (Z.lxor 33 WHITEBITS) WHITEBITS) with (Z.shiftl 1 1) in *. pose proof (testbits_shiftl (marked o) 1 ltac:(done)) as Ed.
    change (Z.land (Z.lor (Z.shiftl 1 1) (Z.shiftl 1 5)) WHITEBITS) with (Z.shiftl 1 1). unfold testbits in *. rewrite Ed in *.
    change (Z.testbit WHITEBITS 1) with true. change (Z.testbit WHITEBITS 5) with false.
    destruct (Z.testbit (marked o) 1), (Z.testbit (marked o) 5); try done. by specialize (Hf eq_refl).
  - change (Z.lxor 34 WHITEBITS) with (Z.lor (Z.shiftl 1 0) (Z.shiftl 1 5)). rewrite land_bits2, !Z.lxor_spec by done.
    change (Z.land (Z.lxor 34 WHITEBITS) WHITEBITS) with (Z.shiftl 1 0) in *. pose proof (testbits_shiftl (marked o) 0 ltac:(done)) as Ed.
    change (Z.land (Z.lor (Z.shiftl 1 0) (Z.shiftl 1 5)) WHITEBITS) with (Z.shiftl 1 0). unfold testbits in *. rewrite Ed in *.
    change (Z.testbit WHITEBITS 0) with true. change (Z.testbit WHITEBITS 5) with false.
    destruct (Z.testbit (marked o) 0), (Z.testbit (marked o) 5); try done. by specialize (Hf eq_refl).
Qed.

(** ** Open upvalues of a thread *)

(** A part of the sweep, from a state of the invariant to another *)
Record swept_to (X Y : list Z) s s' : Prop := {
st_swept : swept s s';
st_lists : lists_ok Y s';
st_udlist : forall r, r ∈ udlist (G s') -> r ∈ udlist (G s);
st_gcstate : gcstate (G s') = gcstate (G s)
}.

Lemma swept_to_ok X Y s s' L : swept_to X Y s s' -> sweep_ok X s L -> sweep_ok Y s' L.
Proof. intros [H1 H2 H3 _]. by apply swept_ok. Qed.

Lemma swept_to_trans X Y Z0 s1 s2 s3 : swept_to X Y s1 s2 -> swept_to Y Z0 s2 s3 -> swept_to X Z0 s1 s3.
Proof. intros [H1 H2 H3 E1] [H4 H5 H6 E2]. split; [by eapply swept_trans|done|auto|congruence]. Qed.

Lemma swept_to_refl X s : lists_ok X s -> swept_to X X s s.
Proof. intros Hl. split; [apply swept_refl|done|done|done]. Qed.

Lemma upval_object X s L u t : lists_ok X s -> th s L = Some t -> u ∈ openupval t ->
  exists o lv v, heap s !! u = Some o /\ obj o = OUpVal (UOpen L lv) /\ getZ (stack t) lv = Some v.
Proof.
  intros Hlo Ht Hu. destruct (lo_thread _ _ Hlo _ _ Ht) as [_ Hin]. destruct (proj1 (Hin u) Hu) as [lv Hb].
  destruct (body_object _ _ _ Hb) as (o & Ho & Eo). destruct (lo_slot _ _ Hlo _ _ _ Hb) as (t' & v & Ht' & Hv). exists o, lv, v.
  split_and!; [done|done|]. congruence.
Qed.

(** The open upvalues of [L] have been swept: those that are left are clean. *)
Record upvals_swept (X : list Z) L s s' : Prop := {
us_to : swept_to X X s s';
us_clean : forall t, th s' L = Some t -> forall u, u ∈ openupval t -> clean s' u;
us_objects : objects (G s') = objects (G s);
us_count : (length (uvhead (G s')) <= length (uvhead (G s)))%nat
}.

Lemma free_upval_run s r uv : body_at s r = Some (OUpVal uv) ->
  freeobj r s = Ok tt (removed r (match uv with UOpen _ _ => set_globals (fun g => set_uvhead (list_remove_first r (uvhead g)) g) s | UClosed _ => s end)).
Proof.
  intros Hb. destruct (body_object _ _ _ Hb) as (o & Ho & Eo).
  assert (E : object r s = Ok o s) by (unfold object; by rewrite Ho). unfold freeobj. rewrite (m_bind_eq _ _ _ _ _ E), Eo. unfold luaF_freeupval.
  rewrite (m_bind_eq _ _ _ _ _ (gco2uv_at _ _ _ Hb)). by destruct uv.
Qed.

Lemma length_remove_first x l : (length (list_remove_first x l) <= length l)%nat.
Proof. induction l as [|y l IH]; [done|]. cbn. destruct (y =? x); cbn; lia. Qed.

Lemma sweep_upvals_ok X L0 L keep rest s t :
  sweep_ok X s L0 -> th s L = Some t -> openupval t = keep ++ rest -> (forall u, u ∈ keep -> clean s u) ->
  exists s', sweep_upvals L keep rest s = Ok tt s' /\ upvals_swept X L s s'.
Proof.
  revert keep s t. induction rest as [|u rest IH]; intros keep s t Hs Ht Hus Hk; cbn [sweep_upvals].
  - exists s. split; [done|]. split; [eapply swept_to_refl, sk_lists, Hs| |done|done].
    intros t' Ht'. assert (t' = t) as -> by congruence. rewrite Hus, app_nil_r. done.
  - pose proof (sk_lists _ _ _ Hs) as Hlo. destruct (upval_object X s L u t Hlo Ht) as (o & lv & v & Ho & Eo & Hv).
    { rewrite Hus. apply elem_of_app. right. apply elem_of_cons. by left. }
    assert (Hb : body_at s u = Some (OUpVal (UOpen L lv))) by (unfold body_at; by rewrite Ho, <- Eo).
    assert (E : object u s = Ok o s) by (unfold object; by rewrite Ho).
    change ((getG ≫= ?k) s) with (k (G s) s). cbv beta. rewrite (m_bind_eq _ _ _ _ _ E), (not_dead_spec _ _ _ _ _ Hs Ho).
    destruct (isdead (G s) o) eqn:Ed; cbn [negb].
    + rewrite (s_upd _ _ _ Ht). set (t' := set_openupval (keep ++ rest) t). set (s1 := put L t' s).
      assert (HLu : L <> u) by (intros ->; by rewrite (th_body _ _ _ Ht) in Hb).
      assert (Hb1 : body_at s1 u = Some (OUpVal (UOpen L lv))) by (unfold s1; by rewrite body_at_put, decide_False).
      rewrite (m_bind_eq _ _ _ _ _ (free_upval_run _ _ _ Hb1)). cbn iota. set (s2 := removed _ _). change s2 with (dropped u L t' s).
      assert (H2 : swept_to X X s (dropped u L t' s)).
      { split; [|by eapply drop_ok|done|done]. eapply swept_trans; [apply (swept_put_open s L t (keep ++ rest)); [done|]|].
        - rewrite Hus. intros x. rewrite !elem_of_app, elem_of_cons. tauto.
        - apply swept_removed; [intros g; exists (rootgc g), (udlist g), (list_remove_first u (uvhead g)), (gcstate g), (sweepgc g); by destruct g|].
          intros o' Ho'. change (heap (put L (set_openupval (keep ++ rest) t) s)) with (heap s1) in Ho'. unfold s1, put_body in Ho'. cbn in Ho'.
          rewrite lookup_alter_ne in Ho' by done. assert (o' = o) as -> by congruence. done. }
      destruct (IH keep (dropped u L t' s) t') as (s' & E' & [T' C' O' N']); [by eapply swept_to_ok| |done| |].
      * unfold th, dropped. rewrite body_removed, decide_False by done. rewrite body_at_globals.
        change (th s1 L = Some t'). apply th_put_eq. by rewrite Ht.
      * intros x Hx. eapply clean_swept; [apply H2|by apply Hk].
      * exists s'. split; [done|]. split; [by eapply swept_to_trans|done|done|]. etransitivity; [exact N'|]. apply length_remove_first.
    + destruct (whiten_step X s u o Ho Ed (sk_white _ _ _ Hs) Hlo) as (E1 & H1 & L1 & C1). set (s1 := paint _ _ s) in *.
      rewrite (m_bind_eq _ _ _ _ _ E1). assert (H01 : swept_to X X s s1) by done.
      destruct (IH (keep ++ [u]) s1 t) as (s' & E' & [T' C' O' N']); [by eapply swept_to_ok| |by rewrite <- app_assoc| |].
      * unfold th, s1. by rewrite (body_paint _ o).
      * intros x [Hx | ->%list_elem_of_singleton]%elem_of_app; [eapply clean_swept; [exact H1|by apply Hk]|done].
      * exists s'. split; [done|]. split; [by eapply swept_to_trans|done|done|done].
Qed.

(** ** Threads that are freed *)

Lemma clean_white s r o : clean s r -> heap s !! r = Some o -> isdead (G s) o = false /\ isgray o = false.
Proof. intros (o' & Ho' & Hd & Hw) Ho. assert (o' = o) as -> by congruence. split; [done|]. unfold isgray. by rewrite Hw, andb_false_r. Qed.

Lemma close_upval_run s L t t' u rest lv v m :
  th s L = Some t -> t' = set_openupval rest t -> body_at s u = Some (OUpVal (UOpen L lv)) -> getZ (stack t) lv = Some v -> clean s u ->
  (upd L (set_openupval rest);; close_upval u;; m) s = (m : M unit) (closed_upval u v L t' s).
Proof.
  intros Ht -> Hb Hv Hc. rewrite (s_upd _ _ _ Ht). set (t' := set_openupval rest t). set (s1 := put L t' s).
  assert (HLu : L <> u) by (intros ->; by rewrite (th_body _ _ _ Ht) in Hb).
  destruct (body_object _ _ _ Hb) as (o & Ho & Eo). destruct (clean_white _ _ _ Hc Ho) as [Hd Hg].
  assert (Ho1 : heap s1 !! u = Some o) by (unfold s1, put_body; cbn; by rewrite lookup_alter_ne).
  assert (E1 : object u s1 = Ok o s1) by (unfold object; by rewrite Ho1).
  set (s2 := set_globals (fun g => set_uvhead (list_remove_first u (uvhead g)) g) s1).
  assert (Hb2 : body_at s2 u = Some (OUpVal (UOpen L lv))) by (unfold s2, s1; by rewrite body_at_globals, body_at_put, decide_False).
  assert (Ht2 : th s2 L = Some t') by (apply (th_put_eq L t' s); by rewrite Ht).
  set (s3 := put_body u (OUpVal (UClosed v)) s2). set (s4 := set_globals (fun g => set_rootgc (u :: rootgc g) g) s3).
  assert (E4 : object u s4 = Ok (set_obj (OUpVal (UClosed v)) o) s4).
  { unfold object. change (heap s4) with (alter (set_obj (OUpVal (UClosed v))) u (heap s1)). by rewrite lookup_alter, decide_True, Ho1. }
  rewrite (m_bind_eq _ (fun _ => m) s1 tt s4); [done|]. unfold close_upval. change ((getG ≫= ?k) s1) with (k (G s1) s1). cbv beta. rewrite (m_bind_eq _ _ _ _ _ E1).
  change (G s1) with (G s). rewrite Hd. unfold unlinkupval. change ((modG ?f ≫= ?k) s1) with (k tt s2). cbv beta.
  rewrite (m_bind_eq _ _ _ _ _ (gco2uv_at _ _ _ Hb2)). cbn iota. rewrite m_bind_bind, (s_stk L s2 t' Ht2 lv v) by done.
  rewrite (m_bind_eq _ _ s2 tt s3) by (apply set_body_eq; by rewrite Hb2). unfold luaC_linkupval.
  change ((modG ?f ≫= ?k) s3) with (k tt s4). cbv beta. change ((getG ≫= ?k) s4) with (k (G s4) s4). cbv beta. rewrite (m_bind_eq _ _ _ _ _ E4).
  change (isgray (set_obj (OUpVal (UClosed v)) o)) with (isgray o). by rewrite Hg.
Qed.

(** Closed upvalues come first in the list of all objects. *)
Record upvals_closed (X : list Z) L s s' : Prop := {
uc_to : swept_to X X s s';
uc_thread : exists t, th s' L = Some t /\ openupval t = [];
uc_objects : exists us, objects (G s') = us ++ objects (G s) /\ (forall u, u ∈ us -> clean s' u /\ exists v, body_at s' u = Some (OUpVal (UClosed v))) /\
  (length us + length (uvhead (G s')) <= length (uvhead (G s)))%nat
}.

Lemma length_remove_first_in x l : x ∈ l -> length l = S (length (list_remove_first x l)).
Proof.
  induction l as [|y l IH]; [by intros ?%elem_of_nil|]. cbn. destruct (Z.eqb_spec y x) as [->|Hne]; [done|].
  intros [->|Hx]%elem_of_cons; [done|]. cbn. by rewrite <- IH.
Qed.

Lemma close_all_ok X L0 n L s t :
  sweep_ok X s L0 -> th s L = Some t -> (length (openupval t) <= n)%nat -> (forall u, u ∈ openupval t -> clean s u) ->
  exists s', close_loop n L 0 s = Ok tt s' /\ upvals_closed X L s s'.
Proof.
  revert s t. induction n as [|n IH]; intros s t Hs Ht Hn Hk; pose proof (sk_lists _ _ _ Hs) as Hlo; cbn [close_loop]; rewrite (s_field _ _ _ Ht);
    (destruct (openupval t) as [|u rest] eqn:Hus; [exists s; split; [done|]; split; [by apply swept_to_refl|by exists t|]; exists []; split_and!; [done|by intros u ?%elem_of_nil|done]|]).
  { cbn in Hn. lia. }
  destruct (upval_object X s L u t Hlo Ht) as (o & lv & v & Ho & Eo & Hv); [rewrite Hus; apply elem_of_cons; by left|].
  assert (Hb : body_at s u = Some (OUpVal (UOpen L lv))) by (unfold body_at; by rewrite Ho, <- Eo).
  rewrite (m_bind_eq _ _ _ _ _ (gco2uv_at _ _ _ Hb)). change ((uv_level (UOpen L lv) ≫= ?k) s) with (k lv s). cbv beta.
  rewrite (proj2 (Z.leb_le 0 lv)) by (apply getZ_Some in Hv; lia). set (t' := set_openupval rest t).
  assert (Hcu : clean s u) by (apply Hk, elem_of_cons; by left).
  erewrite (close_upval_run s L t t' u rest lv v) by done. set (s1 := closed_upval u v L t' s).
  assert (H1 : swept_to X X s s1) by (split; [by eapply closed_upval_swept|by eapply closed_upval_ok|done|done]).
  assert (HLu : L <> u) by (intros ->; by rewrite (th_body _ _ _ Ht) in Hb).
  assert (Hb1 : body_at s1 u = Some (OUpVal (UClosed v))).
  { unfold s1, closed_upval. rewrite body_at_globals, body_at_put, decide_True by done. rewrite body_at_globals, body_at_put, decide_False by done. by rewrite Hb. }
  assert (Ht1 : th s1 L = Some t').
  { unfold s1, closed_upval, th. rewrite body_at_globals, body_at_put, decide_False by done. rewrite body_at_globals.
    change (th (put L t' s) L = Some t'). apply th_put_eq. by rewrite Ht. }
  destruct (IH s1 t') as (s' & E' & [T' (t2 & Ht2 & He2) (us & O' & Hc & N')]); [by eapply swept_to_ok|done|cbn in *; lia| |].
  { intros x Hx. eapply clean_swept; [apply H1|]. apply Hk, elem_of_cons. by right. }
  exists s'. split; [done|]. split; [by eapply swept_to_trans|by exists t2|]. exists (us ++ [u]). split_and!.
  - rewrite O', <- app_assoc. done.
  - intros x [Hx | ->%list_elem_of_singleton]%elem_of_app; [by apply Hc|].
    assert (Hcu' : clean s' u) by (eapply clean_swept; [apply T'|]; eapply clean_swept; [apply H1|done]). split; [done|].
    destruct Hcu' as (o' & Ho' & _). assert (Hb' : body_at s' u = Some (obj o')) by (unfold body_at; by rewrite Ho').
    destruct (sp_back _ _ _ _ (st_swept _ _ _ _ T') Hb') as (b & Eb & Hkp). rewrite Hb1 in Eb. injection Eb as <-.
    exists v. rewrite Hb'. destruct Hkp as [->|[(? & ? & E & _)|(uv & w & [= <-] & E & ->)]]; [done|done|]. cbn in E. congruence.
  - rewrite length_app. cbn. assert (Hul : length (uvhead (G s)) = S (length (uvhead (G s1)))); [|lia].
    apply length_remove_first_in, (lo_open _ _ Hlo). by exists L, lv.
Qed.

(** ** One object *)

(** The object and, if it is a thread, its open upvalues are clean. *)
Definition passed s r : Prop := clean s r /\ forall t, th s r = Some t -> forall u, u ∈ openupval t -> clean s u.

Lemma passed_swept s s' r : swept s s' -> passed s r -> passed s' r.
Proof.
  intros Hs [Hc Ht]. split; [by eapply clean_swept|]. intros t' Ht' u Hu. destruct (sp_thread_back _ _ _ _ Hs Ht') as (t & us & Ht0 & -> & Hsub).
  eapply clean_swept; [exact Hs|]. by apply (Ht t Ht0), Hsub.
Qed.

(** What [freeobj] does with an object that has been unlinked *)
Record freed r s s' : Prop := {
fr_to : swept_to [r] [] s s';
fr_objects : exists us, objects (G s') = us ++ objects (G s) /\ (forall u, u ∈ us -> passed s' u) /\
  (length us + length (uvhead (G s')) <= length (uvhead (G s)))%nat
}.

Lemma removed_freed r s o : heap s !! r = Some o -> isdead (G s) o = true -> (forall t, th s r = Some t -> openupval t = []) -> lists_ok [r] s ->
  freed r s (removed r s).
Proof.
  intros Ho Hd Ht Hlo. assert (E : removed r s = removed r (set_globals (fun g => g) s)) by (by destruct s). split.
  - split; [|by apply removed_ok|done|done]. rewrite E. apply swept_removed.
    + intros g. exists (rootgc g), (udlist g), (uvhead g), (gcstate g), (sweepgc g). by destruct g.
    + intros o' Ho'. by replace o' with o by congruence.
  - exists []. split_and!; [done|by intros u ?%elem_of_nil|done].
Qed.

Lemma freeobj_ok L0 r s o :
  sweep_ok [r] s L0 -> heap s !! r = Some o -> isdead (G s) o = true ->
  (forall t, th s r = Some t -> forall u, u ∈ openupval t -> clean s u) ->
  exists s', freeobj r s = Ok tt s' /\ freed r s s'.
Proof.
  intros Hs Ho Hd Hcl. pose proof (sk_lists _ _ _ Hs) as Hlo.
  assert (E : object r s = Ok o s) by (unfold object; by rewrite Ho).
  assert (Hb : body_at s r = Some (obj o)) by (unfold body_at; by rewrite Ho).
  assert (Hno : ~ open_upval s r) by (apply (lo_out _ _ Hlo); by apply list_elem_of_singleton).
  assert (Hfree : (forall t, obj o <> OThread t) -> freed r s (removed r s)).
  { intros Hnt. apply (removed_freed r s o); [done|done| |done]. intros t Ht. destruct (Hnt t). pose proof (th_body _ _ _ Ht). congruence. }
  destruct (obj o) as [h|u|cl|uv|t] eqn:Eo.
  - exists (removed r s). split; [|by apply Hfree]. unfold freeobj. by rewrite (m_bind_eq _ _ _ _ _ E), Eo.
  - exists (removed r s). split; [|by apply Hfree]. unfold freeobj. by rewrite (m_bind_eq _ _ _ _ _ E), Eo.
  - exists (removed r s). split; [|by apply Hfree]. unfold freeobj. rewrite (m_bind_eq _ _ _ _ _ E), Eo. unfold luaF_freeclosure.
    by rewrite (m_bind_eq _ _ _ _ _ (gco2cl_at _ _ _ Hb)).
  - exists (removed r s). split; [|by apply Hfree]. rewrite (free_upval_run _ _ _ Hb). destruct uv as [L lv|v]; [|done]. destruct Hno. by exists L, lv.
  - assert (Ht : th s r = Some t) by (unfold th; by rewrite Hb).
    destruct (close_all_ok [r] L0 (length (openupval t)) r s t Hs Ht) as (s1 & E1 & [T1 (t1 & Ht1 & He1) (us & O1 & Hus & N1)]); [done|by apply Hcl|].
    destruct (body_object _ _ _ (th_body _ _ _ Ht1)) as (o1 & Ho1 & Eo1).
    assert (Hd1 : isdead (G s1) o1 = true).
    { destruct (sp_obj _ _ (st_swept _ _ _ _ T1) _ _ Ho1) as (o' & Ho' & _ & [_ Hd' _]). assert (o' = o) as -> by congruence.
      destruct (sp_globals _ _ (st_swept _ _ _ _ T1)) as (Ew & _). rewrite (isdead_white (G s) (G s1)) by done. congruence. }
    destruct (removed_freed r s1 o1 Ho1 Hd1) as [F1 _]; [intros t' Ht'; congruence|apply T1|].
    exists (removed r s1). split.
    + unfold freeobj. rewrite (m_bind_eq _ _ _ _ _ E), Eo. unfold luaE_freethread, luaF_close. rewrite m_bind_bind, (s_field _ _ _ Ht).
      by rewrite (m_bind_eq _ _ _ _ _ E1).
    + split; [by eapply swept_to_trans|]. exists us. split_and!; [done| |done]. intros u Hu. destruct (Hus u Hu) as [Hc [v Hv]].
      split; [by eapply clean_swept; [apply F1|]|]. intros t' Ht'. exfalso.
      destruct (sp_back _ _ _ _ (st_swept _ _ _ _ F1) (th_body _ _ _ Ht')) as (b & Eb & [<-|[(? & ? & E2 & _)|(? & ? & E2 & _ & E3)]]); congruence.
Qed.

(** ** The list of all objects *)

(** The part [d] of the list has been swept, the part [q] comes next. *)
Record at_cursor s (p : option Z) (d q : list Z) : Prop := {
ac_objects : objects (G s) = d ++ q;
ac_cursor : match p with None => d = [] | Some r => exists d', d = d' ++ [r] end;
ac_passed : forall r, r ∈ d -> passed s r
}.

Lemma rest_at_cursor X s p d q : lists_ok X s -> at_cursor s p d q -> rest_at p (G s) = q.
Proof.
  intros Hlo [Ho Hp _]. pose proof (lo_nodup _ _ Hlo) as (Hn & _)%list.NoDup_app. unfold rest_at. fold (objects (G s)). rewrite Ho in *.
  destruct p as [r|]; [destruct Hp as [d' ->]|by rewrite Hp]. rewrite <- app_assoc in *. cbn in *. by apply list_after_split.
Qed.

Lemma makewhite_ext g g' : currentwhite g' = currentwhite g -> makewhite g' = makewhite g.
Proof. intros E. unfold makewhite, luaC_white. by rewrite E. Qed.

Definition sweep_left s (q : list Z) : nat := (length q + length (uvhead (G s)))%nat.

(** The open upvalues of a thread, before the thread *)
Lemma sweep_inner L0 s r o :
  sweep_ok [] s L0 -> heap s !! r = Some o -> r ∈ objects (G s) ->
  exists s1 o1, (match obj o with OThread t => sweep_upvals r [] (openupval t) | _ => mret tt end) s = Ok tt s1 /\ upvals_swept [] r s s1 /\
    heap s1 !! r = Some o1 /\ isdead (G s1) o1 = isdead (G s) o.
Proof.
  intros Hs Ho Hin. assert (Hb : body_at s r = Some (obj o)) by (unfold body_at; by rewrite Ho).
  destruct (obj o) as [h|u|cl|uv|t] eqn:Eo.
  1-4: exists s, o; split_and!; [done| |done|done]; split; [eapply swept_to_refl, sk_lists, Hs| |done|done]; intros t Ht; pose proof (th_body _ _ _ Ht); congruence.
  assert (Ht : th s r = Some t) by (unfold th; by rewrite Hb).
  destruct (sweep_upvals_ok [] L0 r [] (openupval t) s t Hs Ht) as (s1 & E1 & H1); [done|by intros u ?%elem_of_nil|].
  pose proof (st_lists _ _ _ _ (us_to _ _ _ _ H1)) as Hlo1. destruct (lo_listed _ _ Hlo1 r) as [[b1 Hb1] _].
  { apply elem_of_app. left. by rewrite (us_objects _ _ _ _ H1). }
  destruct (body_object _ _ _ Hb1) as (o1 & Ho1 & _). exists s1, o1. split_and!; [done|done|done|].
  pose proof (st_swept _ _ _ _ (us_to _ _ _ _ H1)) as Hsw. destruct (sp_globals _ _ Hsw) as (Ew & _).
  destruct (sp_obj _ _ Hsw _ _ Ho1) as (o' & Ho' & _ & [_ Hd _ _]). assert (o' = o) as -> by congruence.
  by rewrite (isdead_white (G s) (G s1)).
Qed.

Lemma sweep_one L0 s p d r q :
  sweep_ok [] s L0 -> at_cursor s p d (r :: q) ->
  exists p1 d1 q1 s1, (forall n, sweeplist (S n) p s = sweeplist n p1 s1) /\ swept_to [] [] s s1 /\ at_cursor s1 p1 d1 q1 /\
    (sweep_left s1 q1 < sweep_left s (r :: q))%nat.
Proof.
  intros Hs Hac. pose proof Hac as [Hobj Hp Hd]. pose proof (sk_lists _ _ _ Hs) as Hlo. pose proof (rest_at_cursor _ _ _ _ _ Hlo Hac) as Hrest.
  assert (Hin : r ∈ objects (G s)) by (rewrite Hobj; apply elem_of_app; right; apply elem_of_cons; by left).
  destruct (lo_listed _ _ Hlo r) as [[b Hb] _]; [apply elem_of_app; by left|]. destruct (body_object _ _ _ Hb) as (o & Ho & _).
  assert (E : object r s = Ok o s) by (unfold object; by rewrite Ho).
  destruct (sweep_inner L0 s r o Hs Ho Hin) as (s1 & o1 & E1 & [T1 C1 O1 N1] & Ho1 & Hd1). pose proof (swept_to_ok _ _ _ _ _ T1 Hs) as Hs1.
  destruct (sp_globals _ _ (st_swept _ _ _ _ T1)) as (Ew & _).
  assert (Hrun : forall n, sweeplist (S n) p s =
    (if negb (isdead (G s1) o1) then upd_object r (makewhite (G s1));; sweeplist n (Some r) else unlink r;; freeobj r;; sweeplist n p) s1).
  { intros n. cbn [sweeplist]. change ((getG ≫= ?k) s) with (k (G s) s). cbv beta. rewrite Hrest, (m_bind_eq _ _ _ _ _ E), (m_bind_eq _ _ _ _ _ E1).
    by rewrite (not_dead_spec _ _ _ _ _ Hs Ho), Hd1, (makewhite_ext (G s) (G s1)). }
  pose proof (lo_nodup _ _ Hlo) as (Hnd & _)%list.NoDup_app. rewrite Hobj in Hnd.
  assert (Hd1' : forall x, x ∈ d -> passed s1 x) by (intros x Hx; eapply passed_swept; [apply T1|by apply Hd]).
  destruct (isdead (G s1) o1) eqn:Ed; cbn [negb] in Hrun.
  - set (s2 := unlinked r s1). assert (Hin1 : r ∈ objects (G s1)) by (by rewrite O1).
    assert (Hno1 : NoDup (objects (G s1))) by (by rewrite O1, Hobj).
    assert (T2 : swept_to [] [r] s1 s2).
    { split; [|apply unlink_ok; [done|apply T1]| |done].
      - apply swept_globals. intros g. exists (list_remove_first r (rootgc g)), (list_remove_first r (udlist g)), (uvhead g), (gcstate g), (sweepgc g). by destruct g.
      - intros x Hx. apply list.NoDup_app in Hno1 as (_ & _ & Hu). by apply (elem_remove_first r x _ Hu) in Hx as [? _]. }
    destruct (freeobj_ok L0 r s2 o1) as (s3 & E3 & [T3 (us & O3 & Hus & N3)]); [by eapply swept_to_ok|done|done|by apply C1|].
    assert (Hobj2 : objects (G s2) = d ++ q) by (unfold s2; rewrite objects_unlinked, O1, Hobj by done; by apply remove_first_split).
    pose proof (swept_to_trans _ _ _ _ _ _ T1 (swept_to_trans _ _ _ _ _ _ T2 T3)) as T13.
    assert (Hd3 : forall x, x ∈ d -> passed s3 x).
    { intros x Hx. eapply passed_swept; [apply T3|]. eapply passed_swept; [apply T2|by apply Hd1']. }
    change (length (uvhead (G s2))) with (length (uvhead (G s1))) in N3.
    assert (Hrun3 : forall n, sweeplist (S n) p s = sweeplist n p s3).
    { intros n. rewrite Hrun. unfold unlink. change ((modG ?f ≫= ?k) s1) with (k tt s2). cbv beta. by rewrite (m_bind_eq _ _ _ _ _ E3). }
    destruct p as [x|].
    + exists (Some x), (us ++ d), q, s3. split_and!; [done|done| |].
      * destruct Hp as [d' Hd']. split; [by rewrite O3, Hobj2, <- app_assoc|exists (us ++ d'); by rewrite Hd', <- app_assoc|].
        intros y [Hy|Hy]%elem_of_app; [by apply Hus|by apply Hd3].
      * unfold sweep_left. cbn. lia.
    + exists None, [], (us ++ q), s3. subst d. cbn [app] in *. split_and!; [done|done| |].
      * split; [by rewrite O3, Hobj2|done|by intros y ?%elem_of_nil].
      * unfold sweep_left. rewrite length_app. cbn. lia.
  - destruct (whiten_step [] s1 r o1 Ho1 Ed (sk_white _ _ _ Hs1)) as (E2 & H2 & L2 & C2); [apply T1|]. set (s2 := paint _ _ s1) in *.
    assert (T2 : swept_to [] [] s1 s2) by done. exists (Some r), (d ++ [r]), q, s2. split_and!.
    + intros n. by rewrite Hrun, (m_bind_eq _ _ _ _ _ E2).
    + by eapply swept_to_trans.
    + split; [|by exists d|].
      * change (objects (G s2)) with (objects (G s1)). by rewrite O1, Hobj, <- app_assoc.
      * intros x [Hx | ->%list_elem_of_singleton]%elem_of_app; [eapply passed_swept; [exact H2|by apply Hd1']|]. split; [done|].
        intros t Ht u Hu. eapply clean_swept; [exact H2|]. apply (C1 t); [|done]. unfold th, s2 in Ht. by rewrite (body_paint _ o1) in Ht.
    + unfold sweep_left. change (uvhead (G s2)) with (uvhead (G s1)). cbn. lia.
Qed.

Lemma sweeplist_ok L0 n s p d q :
  sweep_ok [] s L0 -> at_cursor s p d q ->
  exists p1 d1 q1 s1, sweeplist n p s = Ok p1 s1 /\ swept_to [] [] s s1 /\ at_cursor s1 p1 d1 q1 /\
    (n = O \/ q = [] /\ q1 = [] \/ (sweep_left s1 q1 < sweep_left s q)%nat) /\ (sweep_left s1 q1 <= sweep_left s q)%nat.
Proof.
  revert s p d q. induction n as [|n IH]; intros s p d q Hs Hac; pose proof (sk_lists _ _ _ Hs) as Hlo; pose proof (rest_at_cursor _ _ _ _ _ Hlo Hac) as Hrest.
  - exists p, d, q, s. split_and!; [|by apply swept_to_refl|done|by left|done]. cbn [sweeplist]. change ((getG ≫= ?k) s) with (k (G s) s). cbv beta.
    rewrite Hrest. by destruct q.
  - destruct q as [|r q].
    + exists p, d, [], s. split_and!; [|by apply swept_to_refl|done|by right; left|done]. cbn [sweeplist]. change ((getG ≫= ?k) s) with (k (G s) s). cbv beta.
      by rewrite Hrest.
    + destruct (sweep_one L0 s p d r q Hs Hac) as (p1 & d1 & q1 & s1 & E1 & T1 & A1 & N1).
      destruct (IH s1 p1 d1 q1) as (p2 & d2 & q2 & s2 & E2 & T2 & A2 & _ & N2); [by eapply swept_to_ok|done|].
      exists p2, d2, q2, s2. rewrite E1. split_and!; [done|by eapply swept_to_trans|done|right; right; lia|lia].
Qed.
End collect.
