(* ===== verification/GcCycle.v ===== *)
(** * A cycle of the collector

    From a state in which the collector is idle to the one in which only the
    finalizers are left to call: the cycle ends, and what the program can reach
    by references that are not weak is there, with its contents. *)

From S2P Require Import Prelude Clib Opcodes Object Debug Table TableOps Auxlib State Barrier Func Tm Do Vm Run Lstate Gc.
From S2P Require Import StateFacts GcTable GcMark GcPropagate GcAtomic GcAlive GcSweep.

Section cycle.
Context {HM : Machine} {HH : Host} {HC : Cenv} {HK : Calling} {HS : Sizes}.
Implicit Types (s : State) (r k L : Z) (b : body) (v : TValue) (o : GCObject) (X : list Z).

(** ** Steps until a state of the collector *)

Lemma until_here n L st s : gcstate (G s) = st -> steps_until n L st s = Ok tt s.
Proof.
  intros E. destruct n; cbn [steps_until]; change ((getG ≫= ?k) s) with (k (G s) s); cbv beta; by rewrite E, Z.eqb_refl.
Qed.

Lemma until_step n L st s c s1 : gcstate (G s) <> st -> singlestep L s = Ok c s1 -> steps_until (S n) L st s = steps_until n L st s1.
Proof.
  intros E E1. cbn [steps_until]. change ((getG ≫= ?k) s) with (k (G s) s). cbv beta.
  by rewrite (proj2 (Z.eqb_neq _ _) E), (m_bind_eq _ _ _ _ _ E1).
Qed.

(** ** The sweep *)

(** The changes of the state of the collector and of its place in the list *)
Definition only_state (f : global_State -> global_State) : Prop :=
  forall g, f g = set_gcstate (gcstate (f g)) (set_sweepgc (sweepgc (f g)) g).

(** [swept_to], but for the state of the collector *)
Record sweeps s s' : Prop := {
ss_swept : swept s s';
ss_lists : lists_ok [] s';
ss_udlist : forall r, r ∈ udlist (G s') -> r ∈ udlist (G s)
}.

Lemma swept_to_sweeps s s' : swept_to [] [] s s' -> sweeps s s'.
Proof. by intros []. Qed.

Lemma sweeps_trans s1 s2 s3 : sweeps s1 s2 -> sweeps s2 s3 -> sweeps s1 s3.
Proof. intros [H1 H2 H3] [H4 H5 H6]. split; [by eapply swept_trans|done|auto]. Qed.

Lemma sweeps_ok s s' L : sweeps s s' -> sweep_ok [] s L -> sweep_ok [] s' L.
Proof. intros [H1 H2 H3]. by apply swept_ok. Qed.

Lemma sweeps_globals f s : only_state f -> lists_ok [] s -> sweeps s (set_globals f s).
Proof.
  intros Hf Hl. assert (E : forall g, rootgc (f g) = rootgc g /\ udlist (f g) = udlist g /\ uvhead (f g) = uvhead g /\ tmudata (f g) = tmudata g).
  { intros g. by rewrite Hf. } destruct (E (G s)) as (E1 & E2 & E3 & E4). split.
  - apply swept_globals. intros g. exists (rootgc g), (udlist g), (uvhead g), (gcstate (f g)), (sweepgc (f g)). rewrite Hf. by destruct g.
  - apply (lists_ok_same _ s); [done| |done|done|done]. unfold objects. cbn. by rewrite E1, E2.
  - cbn. by rewrite E2.
Qed.

Lemma at_cursor_globals f s p d q : only_state f -> lists_ok [] s -> at_cursor s p d q -> at_cursor (set_globals f s) p d q.
Proof.
  intros Hf Hl [A1 A2 A3]. split; [|done|].
  - unfold objects in *. cbn. by rewrite Hf.
  - intros r Hr. eapply passed_swept; [apply (sweeps_globals f s Hf Hl)|by apply A3].
Qed.

Lemma sweep_step L s d q :
  gcstate (G s) = GCSsweep -> sweep_ok [] s L -> at_cursor s (sweepgc (G s)) d q ->
  exists c s1 d1 q1, singlestep L s = Ok c s1 /\ sweeps s s1 /\ at_cursor s1 (sweepgc (G s1)) d1 q1 /\
    (gcstate (G s1) = GCSfinalize /\ q1 = [] \/ gcstate (G s1) = GCSsweep /\ (sweep_left s1 q1 < sweep_left s q)%nat).
Proof.
  intros Hst Hs Hac. destruct (sweeplist_ok L (Z.to_nat GCSWEEPMAX) s (sweepgc (G s)) d q Hs Hac) as (p1 & d1 & q1 & s1 & E1 & T1 & A1 & Hm & _).
  set (s2 := set_globals (set_sweepgc p1) s1). pose proof (st_lists _ _ _ _ T1) as Hl1. pose proof (st_gcstate _ _ _ _ T1) as Hg1.
  assert (T2 : sweeps s1 s2) by (apply sweeps_globals; [by intros []|done]).
  assert (A2 : at_cursor s2 p1 d1 q1) by (apply at_cursor_globals; [by intros []|done|done]).
  pose proof (sweeps_trans _ _ _ (swept_to_sweeps _ _ T1) T2) as T02. pose proof (ss_lists _ _ T02) as Hl2.
  assert (Hrest : rest_at p1 (G s2) = q1) by (by eapply rest_at_cursor).
  assert (Hrun : singlestep L s = ((match q1 with [] => modG (set_gcstate GCSfinalize) | _ :: _ => mret tt end);; mret (GCSWEEPMAX * GCSWEEPCOST)) s2).
  { unfold singlestep. change ((getG ≫= ?k) s) with (k (G s) s). cbv beta. rewrite Hst. cbn [Z.eqb GCSpause GCSpropagate GCSsweepstring GCSsweep Pos.eqb].
    rewrite (m_bind_eq _ _ _ _ _ E1). change ((modG ?f ≫= ?k) s1) with (k tt s2). cbv beta.
    change ((getG ≫= ?k) s2) with (k (G s2) s2). cbv beta. by rewrite Hrest. }
  destruct q1 as [|r q1].
  - exists (GCSWEEPMAX * GCSWEEPCOST), (set_globals (set_gcstate GCSfinalize) s2), d1, []. rewrite Hrun. split_and!; [done| | |by left].
    + eapply sweeps_trans; [exact T02|]. apply sweeps_globals; [by intros []|done].
    + apply at_cursor_globals; [by intros []|done|done].
  - exists (GCSWEEPMAX * GCSWEEPCOST), s2, d1, (r :: q1). rewrite Hrun. split_and!; [done|done|done|right]. split; [by rewrite <- Hst, <- Hg1|].
    destruct Hm as [|[[_ ?]|Hm]]; [done|done|exact Hm].
Qed.

Lemma sweep_phase n L s d q :
  gcstate (G s) = GCSsweep -> sweep_ok [] s L -> at_cursor s (sweepgc (G s)) d q -> (sweep_left s q < n)%nat ->
  exists s', steps_until n L GCSfinalize s = Ok tt s' /\ sweeps s s' /\ gcstate (G s') = GCSfinalize /\ forall r, r ∈ objects (G s') -> passed s' r.
Proof.
  revert s d q. induction n as [|n IH]; intros s d q Hst Hs Hac Hn; [lia|].
  destruct (sweep_step L s d q Hst Hs Hac) as (c & s1 & d1 & q1 & E1 & T1 & A1 & [[Hst1 ->]|[Hst1 Hm]]).
  all: rewrite (until_step n L GCSfinalize s c s1) by (done || by rewrite Hst).
  - exists s1. split_and!; [by apply until_here|done|done|]. intros r. rewrite (ac_objects _ _ _ _ A1), app_nil_r. apply (ac_passed _ _ _ _ A1).
  - destruct (IH s1 d1 q1) as (s' & E' & T' & Hst' & Hp'); [done|by eapply sweeps_ok|done|lia|].
    exists s'. split_and!; [done|by eapply sweeps_trans|done|done].
Qed.

(** After the sweep everything is alive. *)
Lemma swept_alive s L : sweep_ok [] s L -> (forall r, r ∈ objects (G s) -> passed s r) -> forall r, is_Some (body_at s r) -> alive s r.
Proof.
  intros Hs Hp. pose proof (sk_lists _ _ _ Hs) as Hlo.
  assert (Hc : forall r, clean s r -> alive s r) by (intros r (o & Ho & Hd & _) o' Ho'; congruence).
  assert (Hobj : forall r, r ∈ objects (G s) ++ tmudata (G s) -> alive s r).
  { intros r [Hr|Hr]%elem_of_app; [by apply Hc, Hp|by apply (sk_roots _ _ _ Hs), root_tmu]. }
  intros r Hb. destruct (lo_cover _ _ Hlo r Hb) as [Hr|[(L' & lv & Hr)|Hf]]; [by apply Hobj| |by apply elem_of_nil in Hf].
  destruct (lo_slot _ _ Hlo _ _ _ Hr) as (t & v & Ht & _). destruct (lo_thread _ _ Hlo _ _ Ht) as [_ Hin].
  apply Hc. assert (HL : passed s L'); [|apply (proj2 HL t Ht), Hin; eauto].
  destruct (lo_cover _ _ Hlo L') as [HL|[(? & ? & HL)|Hf]]; [by rewrite (th_body _ _ _ Ht)| | |by apply elem_of_nil in Hf].
  - apply elem_of_app in HL as [HL|HL]; [by apply Hp|]. destruct (ro_udata _ _ (sk_kinds _ _ _ Hs) L') as [u Hu]; [apply elem_of_app; by right|].
    rewrite (th_body _ _ _ Ht) in Hu. done.
  - by rewrite (th_body _ _ _ Ht) in HL.
Qed.

(** ** The lists through the mark phase *)

Lemma thread_le_open t t' : thread_le t t' -> openupval t' = openupval t.
Proof. intros Hl. by destruct (hl_rest _ _ Hl) as (? & ? & ? & ->). Qed.

(** Changes of objects that keep their kinds, upvalues and lists of upvalues *)
Definition same_upvals s s' : Prop :=
  (forall r b, body_at s r = Some b -> exists b', body_at s' r = Some b' /\
    match b with OUpVal _ => b' = b | OThread t => exists t', b' = OThread t' /\ openupval t' = openupval t | _ => forall L lv, b' <> OUpVal (UOpen L lv) /\ forall t, b' <> OThread t end) /\
  (forall r, body_at s r = None -> body_at s' r = None).

Lemma lists_ok_upvals X s s' :
  same_upvals s s' -> objects (G s') ++ tmudata (G s') ≡ₚ objects (G s) ++ tmudata (G s) -> uvhead (G s') = uvhead (G s) ->
  (forall r L lv, body_at s' r = Some (OUpVal (UOpen L lv)) -> exists t v, th s' L = Some t /\ getZ (stack t) lv = Some v) ->
  lists_ok X s -> lists_ok X s'.
Proof.
  intros [Hb Hnone] Hp Eu Hslot [A1 A2 A3 A4 A5 A6 A7 A8].
  assert (Hup : forall r L lv, body_at s' r = Some (OUpVal (UOpen L lv)) <-> body_at s r = Some (OUpVal (UOpen L lv))).
  { intros r L lv. split; intros E.
    - destruct (body_at s r) as [b|] eqn:Eb; [|by rewrite (Hnone r Eb) in E]. destruct (Hb r b Eb) as (b' & Eb' & Hm). rewrite E in Eb'. injection Eb' as <-.
      destruct b; try (destruct (Hm L lv) as [Hm1 _]; by destruct Hm1); [by f_equal|]. by destruct Hm as (? & ? & _).
    - by destruct (Hb r _ E) as (b' & Eb' & ->). }
  assert (Ho : forall r, open_upval s' r <-> open_upval s r) by (intros r; unfold open_upval; by setoid_rewrite Hup).
  assert (Hex : forall r, is_Some (body_at s' r) <-> is_Some (body_at s r)).
  { intros r. destruct (body_at s r) as [b|] eqn:Eb; [destruct (Hb r b Eb) as (b' & -> & _); split; eauto|]. rewrite (Hnone r Eb). done. }
  split; [by rewrite Hp|..|done].
  - intros r Hr. rewrite Hp in Hr. rewrite Hex, Ho. by apply A2.
  - intros r. rewrite Hex, Ho, Hp. apply A3.
  - intros r Hr. rewrite Hp, Ho. by apply A4.
  - by rewrite Eu.
  - intros r. rewrite Eu, Ho. apply A6.
  - intros L t' Ht'. destruct (body_at s L) as [b|] eqn:Eb; [|apply Hnone in Eb; by rewrite (th_body _ _ _ Ht') in Eb].
    destruct (Hb L b Eb) as (b' & Eb' & Hm). rewrite (th_body _ _ _ Ht') in Eb'. injection Eb' as <-.
    destruct b as [| | | |t]; try (destruct (Hm 0 0) as [_ Hm2]; by destruct (Hm2 t')); [done|]. destruct Hm as (t2 & [= <-] & ->).
    setoid_rewrite Hup. apply A7. unfold th. by rewrite Eb.
Qed.

Lemma pstep_upvals s s' : pstep s s' -> same_upvals s s'.
Proof.
  intros Hs. split; [|apply (ps_none _ _ Hs)]. intros r b Hb. destruct (ps_body _ _ Hs _ _ Hb) as (b' & Hb' & Hl). exists b'. split; [done|].
  destruct b as [h|u|cl|uv|t]; cbn in Hl.
  - by destruct Hl as (h' & -> & _).
  - by subst b'.
  - by subst b'.
  - done.
  - destruct Hl as (t' & -> & Hl). exists t'. split; [done|by apply thread_le_open].
Qed.

Lemma cstep_upvals s s' : cstep s s' -> same_upvals s s'.
Proof.
  intros Hs. split.
  - intros r b Hb. destruct (cs_body _ _ Hs _ _ Hb) as (b' & Hb' & [->|(h & h' & -> & -> & _)]).
    + exists b. split; [done|]. destruct b; eauto; done.
    + exists (OTable h'). done.
  - intros r Hr. unfold body_at in *. destruct (heap s !! r) eqn:E; [done|]. by rewrite (cs_none _ _ Hs _ E).
Qed.

Lemma closed_slots s : heap_closed s -> forall r L lv, body_at s r = Some (OUpVal (UOpen L lv)) -> exists t v, th s L = Some t /\ getZ (stack t) lv = Some v.
Proof. intros Hc r L lv Hb. destruct (Hc _ _ Hb) as (t & v & Ht & Hv & _). eauto. Qed.

Lemma pstep_lists s s' : pstep s s' -> heap_closed s' -> lists_ok [] s -> lists_ok [] s'.
Proof.
  intros Hs Hc. destruct (pstep_G _ _ Hs) as (_ & _ & Er & _ & _ & Eu & _). apply lists_ok_upvals; [by apply pstep_upvals| |done|by apply closed_slots].
  unfold objects. rewrite Er, <- !app_assoc. by rewrite (ps_udata _ _ Hs).
Qed.

Lemma cstep_lists s s' : cstep s s' -> heap_closed s' -> lists_ok [] s -> lists_ok [] s'.
Proof.
  intros Hs Hc. apply lists_ok_upvals; [by apply cstep_upvals|by rewrite (cs_G _ _ Hs)|by rewrite (cs_G _ _ Hs)|by apply closed_slots].
Qed.

(** ** From the mark phase to the sweep *)

(** [s1] is the state at the end of the mark phase, and [s2] the one after weak
    tables have been cleared. *)
Record clears L s1 s2 : Prop := {
cl_step : cstep s1 s2;
cl_closed : heap_closed s1;
cl_marked : marked_all s1 L;
cl_white : white_ok (G s2);
cl_alive : forall r, alive s2 r;
cl_weed : forall r, body_at s2 r = body_at s1 r \/ weak_moded s1 r /\ weeded_at s1 s2 r
}.

Lemma atomic_sweep s L :
  marking s L -> lists_ok [] s ->
  exists s1 s2, let s3 := set_globals flip_white s2 in atomic L s = Ok tt s3 /\ pstep s s1 /\ clears L s1 s2 /\ sweep_ok [] s3 L /\
    at_cursor s3 None [] (objects (G s3)).
Proof.
  intros Hm Hl. destruct (atomic_alive s L Hm) as (s1 & s2 & E & H1 & Hc1 & H2 & Hc2 & Hw2 & Hcl & Hr & Ha & Hal & Hma & Hwk). exists s1, s2. cbv zeta.
  split_and!; [done|done|done| |].
  - split; [| |done| |done|done].
    + unfold white_ok. cbn. unfold otherwhite. destruct Hw2 as [-> | ->]; [by right|by left].
    + apply (lists_ok_same _ s2); [done..|]. apply (cstep_lists s1); [done|done|]. by apply (pstep_lists s).
    + intros r o2 Ho2 Hf. apply (Ha r); [|exact Ho2]. assert (Em : r = mainthread (G s2)); [|rewrite Em; exact (root_main (set_globals flip_white s2) L)].
      rewrite (cs_G _ _ H2). destruct (pstep_G _ _ H1) as (_ & _ & _ & _ & -> & _).
      destruct (heap s1 !! r) as [o1|] eqn:Ho1; [|change (heap s2 !! r = Some o2) in Ho2; by rewrite (cs_none _ _ H2 _ Ho1) in Ho2].
      destruct (cs_obj _ _ H2 _ _ Ho1) as (o2' & Ho2' & Emk & _). change (heap s2 !! r = Some o2) in Ho2. assert (o2' = o2) as -> by congruence.
      destruct (heap s !! r) as [o|] eqn:Ho.
      * destruct (ps_marked _ _ H1 _ _ Ho) as (o1' & Ho1' & [Hfx _ _]). assert (o1' = o1) as -> by congruence.
        apply (mk_fixed _ _ Hm r o); [done|]. rewrite <- Hfx by lia. by rewrite <- Emk.
      * assert (Hn : body_at s r = None) by (unfold body_at; by rewrite Ho). apply (ps_none _ _ H1) in Hn. unfold body_at in Hn. by rewrite Ho1 in Hn.
  - split; [done|done|by intros r ?%elem_of_nil].
Qed.

Lemma ps_old s s' r o' : pstep s s' -> heap s' !! r = Some o' -> exists o, heap s !! r = Some o /\ marked_le o o'.
Proof.
  intros Hs Ho'. destruct (heap s !! r) as [o|] eqn:E.
  - destruct (ps_marked _ _ Hs r o E) as (o2 & Ho2 & Hml). exists o. split; [done|]. by replace o' with o2 by congruence.
  - assert (Hn : body_at s r = None) by (unfold body_at; by rewrite E). apply (ps_none _ _ Hs) in Hn. unfold body_at in Hn. by rewrite Ho' in Hn.
Qed.

Lemma marking_step s s' L : pstep s s' -> mark_ok s' -> tricolour s' -> marking s L -> marking s' L.
Proof.
  intros Hs Ho Ht [_ _ Hw Ha Hr Hk Hf Hm Hreg]. destruct (pstep_G _ _ Hs) as (Ew & _ & _ & Er & Em & _).
  assert (Hold : forall r o', heap s' !! r = Some o' -> exists o, heap s !! r = Some o /\ marked_le o o') by (intros r o'; by apply ps_old).
  split; [done|done| | | | | | |].
  - unfold white_ok. by rewrite Ew.
  - by eapply ps_alive.
  - by eapply roots_step.
  - intros r o' Ho' Hk'. destruct (Hold r o' Ho') as (o & Ho0 & [_ _ Hb]). apply not_true_is_false. intros Hw'. destruct (Hb Hk' Hw') as [Hk0 Hw0].
    by rewrite (Hk r o Ho0 Hk0) in Hw0.
  - intros r o' Ho' Hb. rewrite Em. destruct (Hold r o' Ho') as (o & Ho0 & [Hfx _ _]). apply (Hf r o); [done|]. by rewrite <- Hfx by lia.
  - rewrite Em. by apply (ps_nonwhite _ _ Hs).
  - rewrite Er. intros k Hk2. by apply (ps_nonwhite _ _ Hs), Hreg.
Qed.

(** One step of the mark phase *)
Lemma propagate_step s L r rest :
  gcstate (G s) = GCSpropagate -> gray (G s) = r :: rest -> marking s L ->
  exists c s1, singlestep L s = Ok c s1 /\ gcstate (G s1) = GCSpropagate /\ marking s1 L /\ pstep s s1 /\ (measure s1 < measure s)%nat.
Proof.
  intros Hst Hg Hm. destruct (propagatemark_ok s r rest Hg (mk_ok _ _ Hm)) as (c & s1 & E & [Ho Hp _ _] & Hlt & Ht & _).
  exists c, s1. split_and!; [| |by apply (marking_step s); [..|done]; [| |apply Ht, Hm]|done|done].
  - unfold singlestep. change ((getG ≫= ?k) s) with (k (G s) s). cbv beta. rewrite Hst. cbn [Z.eqb GCSpause GCSpropagate Pos.eqb]. by rewrite Hg.
  - by destruct (pstep_G _ _ Hp) as (_ & -> & _).
Qed.

(** What a cycle gives, from a state of the mark phase *)
Record collected_to L s s' : Prop := {
ct_states : exists s1 s2, pstep s s1 /\ clears L s1 s2 /\ sweeps (set_globals flip_white s2) s';
ct_ok : sweep_ok [] s' L;
ct_state : gcstate (G s') = GCSfinalize;
ct_passed : forall r, r ∈ objects (G s') -> passed s' r
}.

Lemma collect_atomic s L :
  gcstate (G s) = GCSpropagate -> gray (G s) = [] -> marking s L -> lists_ok [] s ->
  exists n s', steps_until n L GCSfinalize s = Ok tt s' /\ collected_to L s s'.
Proof.
  intros Hst Hg Hm Hl. destruct (atomic_sweep s L Hm Hl) as (s1 & s2 & E & H1 & H2 & Hs3 & A3). set (s3 := set_globals flip_white s2) in *.
  set (s4 := set_globals (set_gcstate GCSsweep) s3).
  assert (T4 : sweeps s3 s4) by (apply sweeps_globals; [by intros []|apply Hs3]).
  assert (A4 : at_cursor s4 None [] (objects (G s4))) by (apply (at_cursor_globals (set_gcstate GCSsweep) s3); [by intros []|apply Hs3|done]).
  destruct (sweep_phase (S (sweep_left s4 (objects (G s4)))) L s4 [] (objects (G s4))) as (s' & E' & T' & Hst' & Hp'); [done|by eapply sweeps_ok|done|lia|].
  exists (S (S (S (sweep_left s4 (objects (G s4)))))), s'. split.
  - rewrite (until_step _ L GCSfinalize s 0 s3); [|by rewrite Hst|].
    + rewrite (until_step _ L GCSfinalize s3 GCSWEEPCOST s4); [exact E'|done|done].
    + unfold singlestep. change ((getG ≫= ?k) s) with (k (G s) s). cbv beta. rewrite Hst. cbn [Z.eqb GCSpause GCSpropagate Pos.eqb]. rewrite Hg.
      by rewrite (m_bind_eq _ _ _ _ _ E).
  - pose proof (sweeps_trans _ _ _ T4 T') as T3. split; [by exists s1, s2|by eapply sweeps_ok|done|done].
Qed.

Lemma collect_marking n s L :
  (measure s <= n)%nat -> gcstate (G s) = GCSpropagate -> marking s L -> lists_ok [] s ->
  exists m s', steps_until m L GCSfinalize s = Ok tt s' /\ collected_to L s s'.
Proof.
  revert s. induction n as [|n IH]; intros s Hn Hst Hm Hl; (destruct (gray (G s)) as [|r rest] eqn:Hg; [by apply collect_atomic|]).
  { unfold measure in Hn. rewrite Hg in Hn. cbn in Hn. lia. }
  destruct (propagate_step s L r rest Hst Hg Hm) as (c & s1 & E1 & Hst1 & Hm1 & H1 & Hlt).
  destruct (IH s1) as (m & s' & E' & [(s2 & s3 & H2 & H3 & H4) Hok Hst' Hp']); [lia|done|done|eapply pstep_lists; [done|apply (mo_closed _ (mk_ok _ _ Hm1))|done]|].
  exists (S m), s'. split; [by rewrite (until_step m L GCSfinalize s c s1) by (done || by rewrite Hst)|].
  split; [|done|done|done]. exists s2, s3. split_and!; [by eapply pstep_trans|done|done].
Qed.

(** ** The beginning of a cycle *)

(** The collector is idle: every object has the current white. *)
Record paused s L : Prop := {
pa_closed : heap_closed s;
pa_white : white_ok (G s);
pa_objects : forall r o, heap s !! r = Some o -> isdead (G s) o = false /\ iswhite o = true;
pa_black : forall r o, heap s !! r = Some o -> isblack o = false;
pa_fixed : forall r o, heap s !! r = Some o -> Z.testbit (marked o) 5 = true -> r = mainthread (G s);
pa_roots : roots_ok s L;
pa_lists : lists_ok [] s;
pa_below : forall r L lv t, body_at s r = Some (OUpVal (UOpen L lv)) -> th s L = Some t -> lv < top t;
pa_tmudata : tmudata (G s) = [];
pa_state : gcstate (G s) = GCSpause
}.

Lemma paused_mark_ok s L f : paused s L -> pending (f (G s)) = [] -> uvhead (f (G s)) = uvhead (G s) -> mark_ok (set_globals f s) /\ tricolour (set_globals f s).
Proof.
  intros [Hc Hw Ho Hu Hf Hr Hl _ _ Hst] Hp Eu. split.
  - split; [done|..].
    + intros r Hr'. cbn in Hr'. rewrite Hp in Hr'. by apply elem_of_nil in Hr'.
    + intros r Hr'. assert (Hin : r ∈ pending (f (G s))) by (unfold pending; rewrite !elem_of_app; by right; right). rewrite Hp in Hin. by apply elem_of_nil in Hin.
    + intros r o Ho' Hop. split; [by apply (Hu r)|]. cbn. rewrite Eu. apply (lo_open _ _ Hl). destruct Hop as (L' & lv & E). exists L', lv.
      unfold body_at. change (heap s !! r = Some o) in Ho'. by rewrite Ho', <- E.
    + intros r Hr'. cbn in Hr'. rewrite Eu in Hr'. by apply (lo_open _ _ Hl).
  - intros r (o & Ho' & Hw'). destruct (Ho r o Ho'). congruence.
Qed.

Definition no_lists (g : global_State) : global_State := set_gray [] (set_grayagain [] (set_weak [] g)).

Lemma marking_state s L c : marking s L -> marking (set_globals (set_gcstate c) s) L.
Proof.
  intros [[Ic Ip Iw Iu Ih] Ht Hw Ha [Rt Rm Rr Ra Ru] Hk Hf Hm Hreg]. by split.
Qed.

Lemma paused_thread s L t : paused s L -> th s (mainthread (G s)) = Some t -> val_ok s (l_gt t).
Proof. intros Hp Ht. by destruct (pa_closed _ _ Hp _ _ (th_body _ _ _ Ht)) as (_ & Hg & _). Qed.

Lemma markroot_ok s L : paused s L ->
  exists s', markroot s = Ok tt (set_globals (set_gcstate GCSpropagate) s') /\ marking s' L /\ pstep (set_globals no_lists s) s' /\ lists_ok [] s'.
Proof.
  intros Hp. set (s0 := set_globals no_lists s). destruct (paused_mark_ok s L no_lists Hp) as [Ho0 Ht0]; [done|done|]. fold s0 in Ho0, Ht0.
  assert (Hr0 : roots_ok s0 L) by (destruct (pa_roots _ _ Hp); by split). pose proof (mo_closed _ Ho0) as Hc0.
  destruct (ro_main _ _ Hr0) as [t Ht].
  destruct (markobject_steps (mainthread (G s0)) s0) as (s1 & E1 & H1 & Hn1); [by rewrite (th_body _ _ _ Ht)|done|].
  destruct (ms_thread _ _ _ _ H1 _ _ Ht) as (t1 & Ht1 & Hl1). pose proof (closed_step _ _ _ _ H1 Hc0) as Hc1.
  destruct (Hc1 _ _ (th_body _ _ _ Ht1)) as (_ & Hgt & _).
  destruct (markvalue_steps (l_gt t1) s1 Hgt Hc1) as (s2 & E2 & H2 & _). pose proof (mstep_trans0 _ _ _ _ H1 H2) as H02.
  destruct (markvalue_steps (l_registry (G s0)) s2) as (s3 & E3 & H3 & Hv3); [eapply ms_val_ok; [exact H02|by apply (ro_registry _ _ Hr0)]|by eapply closed_step|].
  pose proof (mstep_trans0 _ _ _ _ H02 H3) as H03. pose proof (roots_step _ _ _ (mstep_pstep _ _ _ _ H03) Hr0) as Hr3.
  destruct (markmt_steps s3) as (s4 & E4 & H4 & _); [by eapply closed_step|apply (ro_mt _ _ Hr3)|]. pose proof (mstep_trans0 _ _ _ _ H03 H4) as H04.
  pose proof (mstep_pstep _ _ _ _ H04) as P04. destruct (pstep_G _ _ P04) as (Ew & _ & _ & Er & Em & _).
  exists s4. split_and!; [| |done|].
  - unfold markroot. change ((modG ?f ≫= ?k) s) with (k tt s0). cbv beta. change ((getG ≫= ?k) s0) with (k (G s0) s0). cbv beta.
    rewrite (m_bind_eq _ _ _ _ _ E1). rewrite (s_field _ _ _ Ht1), (m_bind_eq _ _ _ _ _ E2), (m_bind_eq _ _ _ _ _ E3), (m_bind_eq _ _ _ _ _ E4). done.
  - assert (Hold : forall r o4, heap s4 !! r = Some o4 -> exists o, heap s !! r = Some o /\ marked_le o o4) by (intros r o4 Ho4; by apply (ps_old s0 s4)).
    split; [by eapply mark_ok_step|by eapply tricolour_step| | |by eapply roots_step| | | |].
    + unfold white_ok. rewrite Ew. apply (pa_white _ _ Hp).
    + apply (ps_alive s0); [done|]. intros r o Ho. by apply (pa_objects _ _ Hp r o).
    + intros r o4 Ho4 Hk4. destruct (Hold r o4 Ho4) as (o & Ho & [_ _ Hb]). apply not_true_is_false. intros Hw4. destruct (Hb Hk4 Hw4) as [Hk0 _].
      by rewrite (pa_black _ _ Hp r o Ho) in Hk0.
    + intros r o4 Ho4 Hb. destruct (Hold r o4 Ho4) as (o & Ho & [Hfx _ _]). rewrite Em. apply (pa_fixed _ _ Hp r o Ho). by rewrite <- Hfx by lia.
    + rewrite Em. eapply ms_nonwhite; [exact H4|]. eapply ms_nonwhite; [exact H3|]. eapply ms_nonwhite; [exact H2|done].
    + rewrite Er. intros k Hk. eapply ms_nonwhite; [exact H4|by apply Hv3].
  - apply (pstep_lists s0); [done|by eapply closed_step|]. apply (lists_ok_same _ s); [done..|apply (pa_lists _ _ Hp)].
Qed.

(** A cycle from the idle collector *)
Lemma collect_paused s L : paused s L ->
  exists n s1 s', steps_until n L GCSfinalize s = Ok tt s' /\ pstep (set_globals no_lists s) s1 /\
    collected_to L (set_globals (set_gcstate GCSpropagate) s1) s'.
Proof.
  intros Hp. destruct (markroot_ok s L Hp) as (s1 & E1 & Hm1 & H1 & Hl1). set (s2 := set_globals (set_gcstate GCSpropagate) s1) in *.
  destruct (collect_marking (measure s2) s2 L) as (n & s' & E & Hc); [done|done|by apply marking_state|by apply (lists_ok_same _ s1)|].
  exists (S n), s1, s'. split_and!; [|done|done]. rewrite (until_step n L GCSfinalize s 0 s2); [done|by rewrite (pa_state _ _ Hp)|].
  unfold singlestep. change ((getG ≫= ?k) s) with (k (G s) s). cbv beta. rewrite (pa_state _ _ Hp). cbn [Z.eqb GCSpause]. by rewrite (m_bind_eq _ _ _ _ _ E1).
Qed.

(** ** What the cycle keeps *)

(** The mode of a table: which of its references are weak *)
Definition table_mode s (h : Table) : option TValue :=
  match metatable h with
  | Some mt => match body_at s mt with Some (OTable hm) => tm_lookup hm TM_MODE | _ => None end
  | None => None
  end.

Definition weak_keys s h : bool := mode_has 107 (table_mode s h).
Definition weak_values s h : bool := mode_has 118 (table_mode s h).

(** Why an entry of a weak table goes: its key or its value has been freed, or
    its value is a userdata of which the finalizer has been called or is to be
    called. *)
Definition gone s' (iskey : bool) v : Prop := exists k, gcvalue v = Some k /\
  (body_at s' k = None \/ iskey = false /\ v = VUserdata k /\ exists o, heap s' !! k = Some o /\ isfinalized o = true).

(** The contents of an object before and after a cycle: a table that is not
    weak has its entries, an upvalue its value, and a thread its stack up to the
    top; the table [h1] is [h] but for keys of empty nodes and cached absences,
    and a weak table has lost the entries that are [gone], those of its array
    only if its values are weak. *)
Inductive same_contents s s' r : body -> body -> Prop :=
| same_table h h' : table_le h h' -> same_contents s s' r (OTable h) (OTable h')
| same_weak h h1 h' : weak_keys s h || weak_values s h = true -> table_le h h1 -> weeded (gone s') (weak_values s h) h1 h' ->
    same_contents s s' r (OTable h) (OTable h')
| same_udata u : same_contents s s' r (OUdata u) (OUdata u)
| same_closure cl : same_contents s s' r (OClosure cl) (OClosure cl)
| same_upval uv uv' v : uv_val s uv = Some v -> uv_val s' uv' = Some v -> same_contents s s' r (OUpVal uv) (OUpVal uv')
| same_thread t t1 us : thread_le t t1 -> us ⊆ openupval t -> same_contents s s' r (OThread t) (OThread (set_openupval us t1)).

Definition bodies_le s s' : Prop := forall r b', body_at s' r = Some b' -> exists b, body_at s r = Some b /\ body_le b b'.

Lemma ps_bodies s s' : pstep s s' -> bodies_le s s'.
Proof.
  intros Hs r b' Hb'. destruct (body_at s r) as [b|] eqn:E; [|by rewrite (ps_none _ _ Hs _ E) in Hb'].
  destruct (ps_body _ _ Hs _ _ E) as (b2 & Hb2 & Hl). exists b. split; [done|]. by replace b' with b2 by congruence.
Qed.

Lemma bodies_le_trans s1 s2 s3 : bodies_le s1 s2 -> bodies_le s2 s3 -> bodies_le s1 s3.
Proof.
  intros H12 H23 r b3 Hb3. destruct (H23 _ _ Hb3) as (b2 & Hb2 & L2). destruct (H12 _ _ Hb2) as (b1 & Hb1 & L1).
  exists b1. split; [done|by eapply body_le_trans].
Qed.

Lemma bodies_le_table s s' r h' : bodies_le s s' -> body_at s' r = Some (OTable h') -> exists h, body_at s r = Some (OTable h) /\ table_le h h'.
Proof.
  intros Hs Hb'. destruct (Hs _ _ Hb') as (b & Hb & Hl). destruct b; cbn in Hl; try discriminate Hl; [|by destruct Hl as (? & ? & _)].
  destruct Hl as (h2 & [= ->] & Hl). eauto.
Qed.

Lemma bodies_le_thread s s' L t' : bodies_le s s' -> th s' L = Some t' -> exists t, th s L = Some t /\ thread_le t t'.
Proof.
  intros Hs Ht'. destruct (Hs _ _ (th_body _ _ _ Ht')) as (b & Hb & Hl). destruct b; cbn in Hl; try discriminate Hl; [by destruct Hl as (? & ? & _)|].
  destruct Hl as (t2 & [= ->] & Hl). exists th. split; [|done]. unfold StateFacts.th. by rewrite Hb.
Qed.

Lemma moded_mode s s' r h mode : heap_closed s -> bodies_le s s' -> moded s' r mode -> body_at s r = Some (OTable h) -> table_mode s h = mode.
Proof.
  intros Hc Hs (h' & mt & hm' & Hb' & Em & Hbm' & _ & Hmode) Hb. destruct (bodies_le_table _ _ _ _ Hs Hb') as (h0 & Hb0 & Hl).
  assert (h0 = h) as -> by congruence. destruct (tl_rest _ _ Hl) as (Em' & _). unfold table_mode. rewrite <- Em', Em.
  destruct (bodies_le_table _ _ _ _ Hs Hbm') as (hm & Hbm & Hlm). rewrite Hbm. destruct (Hc _ _ Hbm) as (Hw & _).
  rewrite <- Hmode. symmetry. apply (tl_tm _ _ Hlm Hw). auto.
Qed.

(** A state of the cycle, and the states between: at the end of the mark phase,
    when weak tables have been cleared, and after the sweep *)
Record cycle s L s2 s3 s' : Prop := {
cy_paused : paused s L;
cy_le : bodies_le s s2;
cy_roots : forall r, root s L r -> root s2 L r;
cy_clears : clears L s2 s3;
cy_sweep : sweeps (set_globals flip_white s3) s';
cy_alive : forall r, is_Some (body_at s' r) -> alive s' r;
cy_closed : heap_closed s'
}.

Section cycle_states.
Variables (s : State) (L : Z) (s2 s3 s' : State).
Hypothesis Hc : cycle s L s2 s3 s'.

Lemma marked_uv_val r uv v v' : body_at s r = Some (OUpVal uv) -> uv_val s uv = Some v -> uv_val s2 uv = Some v' -> v' = v.
Proof using Hc.
  intros Hb Hv Hv'. destruct uv as [L' lv|w]; [|cbn in *; congruence]. cbn in Hv, Hv'.
  destruct (th s2 L') as [t2|] eqn:E2; [|done]. destruct (bodies_le_thread _ _ _ _ (cy_le _ _ _ _ _ Hc) E2) as (t & Ht & Hl). rewrite Ht in Hv.
  destruct (hl_stack _ _ Hl _ _ Hv') as [Hv2|[Hlv _]]; [congruence|]. pose proof (pa_below _ _ (cy_paused _ _ _ _ _ Hc) _ _ _ _ Hb Ht). lia.
Qed.

Lemma cycle_uv_val r uv v v' : body_at s r = Some (OUpVal uv) -> uv_val s uv = Some v ->
  uv_val (set_globals flip_white s3) uv = Some v' -> v' = v.
Proof using Hc.
  intros Hb Hv Hv'. eapply marked_uv_val; [done|done|]. destruct uv as [L' lv|w]; [|done]. cbn in *.
  change (StateFacts.th (set_globals flip_white s3) L') with (th s3 L') in Hv'. by rewrite (cs_th _ _ (cl_step _ _ _ (cy_clears _ _ _ _ _ Hc))) in Hv'.
Qed.

(** What is marked stays, and what is not goes. *)
Lemma marked_stays r : nonwhite s2 r -> is_Some (body_at s' r).
Proof using Hc.
  pose proof (cy_clears _ _ _ _ _ Hc) as Hcl. intros Hn. apply (cs_nonwhite _ _ (cl_step _ _ _ Hcl)) in Hn. destruct (nonwhite_body _ _ Hn) as [b Hb].
  assert (Ha : alive (set_globals flip_white s3) r) by (apply flip_alive; [apply Hcl|apply Hcl|by exists b|done]).
  destruct (sp_body _ _ (ss_swept _ _ (cy_sweep _ _ _ _ _ Hc)) r b Hb Ha) as (_ & b' & Hb' & _). by exists b'.
Qed.

Lemma removable_gone iskey v : removable s2 iskey v -> gone s' iskey v.
Proof using Hc.
  pose proof (cy_clears _ _ _ _ _ Hc) as Hcl. intros (k & o & Hg & Ho & Hr). exists k. split; [done|].
  destruct (body_at s' k) as [b'|] eqn:Hb'; [right|by left]. destruct (body_object _ _ _ Hb') as (o' & Ho' & _).
  pose proof (ss_swept _ _ (cy_sweep _ _ _ _ _ Hc)) as Hsw. destruct (sp_obj _ _ Hsw _ _ Ho') as (o3 & Ho3 & _ & Hlife).
  destruct (cs_obj _ _ (cl_step _ _ _ Hcl) _ _ Ho) as (o3' & Ho3' & Em & _). change (heap s3 !! k = Some o3) in Ho3. assert (o3' = o3) as -> by congruence.
  destruct Hr as [Hw|(-> & -> & Hf)].
  - exfalso. assert (Ha : alive (set_globals flip_white s3) k) by (apply (sp_alive_iff _ _ Hsw); [by exists o'|apply (cy_alive _ _ _ _ _ Hc); by exists b']).
    apply flip_alive in Ha as (o4 & Ho4 & Hw4); [|apply Hcl|apply Hcl|unfold body_at; rewrite Ho3; by eexists].
    assert (o4 = o3) as -> by congruence. unfold iswhite in *. congruence.
  - split_and!; [done|done|]. exists o'. split; [done|]. rewrite (sl_final _ _ _ Hlife). unfold isfinalized in *. congruence.
Qed.

Lemma cycle_table r h b3 : body_at s r = Some (OTable h) -> body_at s3 r = Some b3 -> exists h3, b3 = OTable h3 /\ same_contents s s' r (OTable h) (OTable h3).
Proof using Hc.
  pose proof (cy_clears _ _ _ _ _ Hc) as Hcl. intros Hb Hb3. destruct (cs_back _ _ (cl_step _ _ _ Hcl) _ _ Hb3) as (b2 & Hb2 & _).
  destruct (cy_le _ _ _ _ _ Hc _ _ Hb2) as (b & Hb' & Hl). assert (b = OTable h) as -> by congruence. destruct Hl as (h2 & -> & Hl).
  destruct (cl_weed _ _ _ Hcl r) as [E|[(o & mode & Ho & Hmd & Hw & _ & Ev) [E|(o2 & h2' & h3 & Ho2 & Eo2 & Hb3' & Hwd)]]].
  1, 2: exists h2; split; [congruence|by apply same_table].
  exists h3. split; [congruence|]. assert (o2 = o) as -> by congruence.
  assert (h2' = h2) as -> by (unfold body_at in Hb2; rewrite Ho in Hb2; injection Hb2; congruence).
  rewrite Ev in Hwd. rewrite <- (moded_mode _ _ _ _ _ (pa_closed _ _ (cy_paused _ _ _ _ _ Hc)) (cy_le _ _ _ _ _ Hc) Hmd Hb) in Hw, Hwd.
  eapply same_weak; [exact Hw|exact Hl|]. eapply weeded_mono; [|exact Hwd]. apply removable_gone.
Qed.

Lemma cycle_contents r b' : body_at s' r = Some b' -> exists b, body_at s r = Some b /\ same_contents s s' r b b'.
Proof using Hc.
  pose proof (cl_step _ _ _ (cy_clears _ _ _ _ _ Hc)) as Hst.
  intros Hb'. destruct (sp_back _ _ _ _ (ss_swept _ _ (cy_sweep _ _ _ _ _ Hc)) Hb') as (b3 & Hb3 & Hk). rewrite body_at_globals in Hb3.
  destruct (cs_back _ _ Hst _ _ Hb3) as (b2 & Hb2 & Hcl). destruct (cy_le _ _ _ _ _ Hc _ _ Hb2) as (b & Hb & Hl).
  exists b. split; [done|]. pose proof (pa_closed _ _ (cy_paused _ _ _ _ _ Hc)) as Hcs. destruct b as [h|u|cl|uv|t]; cbn in Hl.
  - destruct (cycle_table r h b3 Hb Hb3) as (h3 & -> & Hsame). by destruct Hk as [->|[(? & ? & E2 & _)|(? & ? & E2 & _)]].
  - subst b2. destruct Hcl as [->|(x & y & E & _)]; [|done]. destruct Hk as [->|[(? & ? & E2 & _)|(? & ? & E2 & _)]]; [constructor|done|done].
  - subst b2. destruct Hcl as [->|(x & y & E & _)]; [|done]. destruct Hk as [->|[(? & ? & E2 & _)|(? & ? & E2 & _)]]; [constructor|done|done].
  - subst b2. destruct Hcl as [->|(x & y & E & _)]; [|done]. destruct (upval_ok _ _ (Hcs _ _ Hb)) as (v & Hv & _).
    assert (Huv : exists uv', b' = OUpVal uv' /\ forall v', uv_val s' uv' = Some v' -> v' = v).
    { destruct Hk as [->|[(? & ? & E2 & _)|(uv0 & w & [= <-] & Ew & ->)]]; [|done|].
      - exists uv. split; [done|]. intros v' Hv'. eapply cycle_uv_val; [done|done|]. eapply sp_uv_val, Hv'. apply (cy_sweep _ _ _ _ _ Hc).
      - exists (UClosed w). split; [done|]. intros v' [= <-]. by eapply cycle_uv_val. }
    destruct Huv as (uv' & -> & Huv). destruct (upval_ok _ _ (cy_closed _ _ _ _ _ Hc _ _ Hb')) as (v' & Hv' & _).
    eapply same_upval; [done|]. by rewrite <- (Huv v' Hv').
  - destruct Hl as (t2 & -> & Hl). destruct Hcl as [->|(x & y & E & _)]; [|done].
    destruct Hk as [->|[(t0 & us & [= <-] & -> & Hus)|(? & ? & E2 & _)]]; [|by apply same_thread; [|rewrite <- (thread_le_open _ _ Hl)]|done].
    replace (OThread t2) with (OThread (set_openupval (openupval t2) t2)) by (by destruct t2). apply same_thread; [done|]. by rewrite (thread_le_open _ _ Hl).
Qed.
End cycle_states.

(** ** What the program can reach *)

(** The references of a node that are not weak *)
Definition node_strong (wk wv : bool) (n : Node) : list Z :=
  if ttisnil (gval n) then [] else (if wk then [] else vals [key2tval (gkey n)]) ++ (if wv then [] else vals [gval n]).

(** The references that are not weak: of a table with weak keys, its metatable
    and its values; of one with weak values, its metatable and its keys; of one
    in which both are weak, its metatable *)
Definition strong_refs s b : list Z :=
  match b with
  | OTable h => option_list (metatable h) ++
      (if weak_values s h then [] else vals (array h)) ++ mjoin (node_strong (weak_keys s h) (weak_values s h) <$> node h)
  | _ => body_refs s b
  end.

(** What the roots lead to by such references *)
Inductive strongly_reaches s L : Z -> Prop :=
| strong_root r : root s L r -> strongly_reaches s L r
| strong_ref r b k : strongly_reaches s L r -> body_at s r = Some b -> k ∈ strong_refs s b -> strongly_reaches s L k.

Lemma strong_table s h k : k ∈ strong_refs s (OTable h) ->
  metatable h = Some k \/ weak_values s h = false /\ k ∈ vals (array h) \/
  exists n, n ∈ node h /\ gval n <> VNil /\
    (weak_keys s h = false /\ k ∈ vals [key2tval (gkey n)] \/ weak_values s h = false /\ k ∈ vals [gval n]).
Proof.
  cbn [strong_refs]. rewrite !elem_of_app, list_elem_of_join. intros [Hk|[Hk|(l & Hk & Hl)]].
  - left. destruct (metatable h) as [mt|]; [by apply list_elem_of_singleton in Hk as ->|by apply elem_of_nil in Hk].
  - right; left. by destruct (weak_values s h); [apply elem_of_nil in Hk|].
  - right; right. apply list_elem_of_fmap in Hl as (n & -> & Hn). exists n. unfold node_strong in Hk.
    destruct (ttisnil (gval n)) eqn:En; [by apply elem_of_nil in Hk|]. split_and!; [done|by destruct (gval n)|].
    apply elem_of_app in Hk as [Hk|Hk]; [left; by destruct (weak_keys s h); [apply elem_of_nil in Hk|]|right; by destruct (weak_values s h); [apply elem_of_nil in Hk|]].
Qed.

(** Strong references are references, whatever of its weakness is known. *)
Lemma strong_table_refs s h h' wk wv k : table_le h h' -> (wk = true -> weak_keys s h = true) -> (wv = true -> weak_values s h = true) ->
  k ∈ strong_refs s (OTable h) -> k ∈ table_refs wk wv h'.
Proof.
  intros Hl Hwk Hwv Hk. apply elem_table_refs. destruct (tl_rest _ _ Hl) as (-> & _). rewrite (tl_array _ _ Hl).
  apply strong_table in Hk as [Hk|[[Ev Hk]|(n & Hn & Hv & Hk)]]; [by left| |].
  - assert (wv = false) as -> by (destruct wv; [by rewrite Hwv in Ev|done]). right. rewrite andb_false_r. split; [done|by left].
  - right. assert (Hn' : n ∈ node h').
    { apply list_elem_of_lookup in Hn as [i Hi]. destruct (Forall2_lookup_l _ _ _ _ _ (tl_nodes _ _ Hl) Hi) as (n' & Hi' & Hn').
      apply list_elem_of_lookup. exists i. destruct Hn' as [->| ->]; [done|]. rewrite Hi'. f_equal. unfold bury. by destruct (gval n). }
    assert (Hx : wk && wv = false /\ k ∈ node_refs wk wv n); [|split; [apply Hx|right; exists n; by split; [|apply Hx]]].
    unfold node_refs. assert (ttisnil (gval n) = false) as -> by (by destruct (gval n)). rewrite elem_of_app. destruct Hk as [[Ek Hk]|[Ev Hk]].
    + assert (wk = false) as -> by (destruct wk; [by rewrite Hwk in Ek|done]). split; [done|by left].
    + assert (wv = false) as -> by (destruct wv; [by rewrite Hwv in Ev|done]). rewrite andb_false_r. split; [done|by right].
Qed.

Lemma thread_le_stack t t' : thread_wf t -> thread_le t t' -> take (Z.to_nat (top t')) (stack t') = take (Z.to_nat (top t)) (stack t).
Proof.
  intros Hw Hl. destruct (thread_le_limit _ _ Hl) as (_ & _ & Et & _). rewrite Et. destruct (hl_size _ _ Hl Hw) as [_ Hlim].
  pose proof (limit_top t) as Htop. pose proof (tw_limit _ Hw) as Hlim0. unfold stacksize in *. apply list_eq. intros i.
  destruct (decide (i < Z.to_nat (top t))%nat) as [Hi|Hi]; [|rewrite !lookup_take_ge by lia; done]. rewrite !lookup_take_lt by done.
  destruct (getZ_is_Some (stack t') (Z.of_nat i)) as [v Hv]; [lia|]. destruct (hl_stack _ _ Hl _ _ Hv) as [Hv'|[? _]]; [|lia].
  unfold getZ in Hv, Hv'. rewrite (proj2 (Z.leb_le _ _)), Nat2Z.id in Hv, Hv' by lia. congruence.
Qed.

Section reach.
Variables (s : State) (L : Z) (s2 s3 s' : State).
Hypothesis Hc : cycle s L s2 s3 s'.

Lemma strong_refs_marked r b k : nonwhite s2 r -> body_at s r = Some b -> k ∈ strong_refs s b -> nonwhite s2 k.
Proof using Hc.
  intros Hn Hb Hk. pose proof (pa_closed _ _ (cy_paused _ _ _ _ _ Hc)) as Hcs. pose proof (cy_clears _ _ _ _ _ Hc) as Hcl.
  destruct (nonwhite_body _ _ Hn) as [b2 Hb2]. destruct (cy_le _ _ _ _ _ Hc _ _ Hb2) as (b0 & Hb0 & Hl). assert (b0 = b) as -> by congruence.
  destruct (ma_settled _ _ (cl_marked _ _ _ Hcl) r Hn) as [Hm|(Hin & o & h2 & Ho & Eo & Hm)].
  - apply Hm. unfold refs. rewrite Hb2. destruct b as [h|u|cl|uv|t]; cbn [body_le] in Hl; [|by subst b2|by subst b2| |].
    + destruct Hl as (h2 & -> & Hl). by apply (strong_table_refs s h).
    + subst b2. destruct (upval_ok _ _ (Hcs _ _ Hb)) as (v & Hv & _). destruct (upval_ok _ _ (cl_closed _ _ _ Hcl _ _ Hb2)) as (v' & Hv' & _).
      rewrite (marked_uv_val _ _ _ _ _ Hc r uv v v' Hb Hv Hv') in Hv'. cbn in *. by rewrite Hv', Hv in *.
    + destruct Hl as (t2 & -> & Hl). destruct (Hcs _ _ Hb) as (Hw & _). destruct (thread_le_limit _ _ Hl) as (_ & _ & _ & Eg).
      cbn in *. by rewrite Eg, (thread_le_stack t t2).
  - assert (b2 = OTable h2) as -> by (unfold body_at in Hb2; rewrite Ho in Hb2; injection Hb2; congruence).
    destruct (body_le_table _ _ Hl) as (h & -> & Hl'). destruct (ma_weak _ _ (cl_marked _ _ _ Hcl) r Hin) as (o2 & mode & Ho2 & Hmd & _ & Ek & Ev).
    assert (o2 = o) as -> by congruence. pose proof (moded_mode _ _ _ _ _ Hcs (cy_le _ _ _ _ _ Hc) Hmd Hb) as Emode.
    apply Hm. rewrite Ek, Ev, <- Emode. by apply (strong_table_refs s h).
Qed.

Lemma strongly_reached_marked r : strongly_reaches s L r -> nonwhite s2 r.
Proof using Hc.
  induction 1 as [r Hr|r b k _ IH Hb Hk]; [|by eapply strong_refs_marked].
  apply (ma_roots _ _ (cl_marked _ _ _ (cy_clears _ _ _ _ _ Hc))). by apply (cy_roots _ _ _ _ _ Hc).
Qed.
End reach.

(** C3: A cycle of the collector that begins in the idle state gets, in single
    steps, to the call of the finalizers; then nothing in the heap refers to an
    object that has been freed, and every object that the roots reach by
    references that are not weak is there, with its contents. From a weak
    table only entries have gone of which the key or the value has been freed,
    or the value is a finalized userdata. *)
Theorem collection_keeps_reachable s L :
  paused s L ->
  exists n s', steps_until n L GCSfinalize s = Ok tt s' /\ heap_closed s' /\
    forall r, strongly_reaches s L r ->
      exists b b', body_at s r = Some b /\ body_at s' r = Some b' /\ same_contents s s' r b b'.
Proof.
  intros Hp. destruct (collect_paused s L Hp) as (n & s1 & s' & E & H1 & [(s2 & s3 & H2 & H3 & H4) Hok Hst Hps]).
  assert (Hal : forall r, is_Some (body_at s' r) -> alive s' r) by (by eapply swept_alive).
  assert (Hcl : heap_closed s') by (intros r b Hb; apply (sk_closed _ _ _ Hok r b Hb), Hal; by rewrite Hb).
  assert (Hcy : cycle s L s2 s3 s').
  { split; try done; [apply (bodies_le_trans _ s1); [by apply (ps_bodies (set_globals no_lists s))|by apply (ps_bodies (set_globals (set_gcstate GCSpropagate) s1))]|].
    destruct (pstep_G _ _ H2) as (_ & _ & _ & Er2 & Em2 & _ & Et2). destruct (pstep_G _ _ H1) as (_ & _ & _ & Er1 & Em1 & _ & Et1). cbn in *.
    intros r [| |r' Hr|r' Hr|r' Hr]; [apply root_thread|rewrite <- Em1, <- Em2; apply root_main|apply root_registry; congruence|apply root_mt; congruence|].
    rewrite (pa_tmudata _ _ Hp) in Hr. by apply elem_of_nil in Hr. }
  exists n, s'. split_and!; [done|done|]. intros r Hr. apply (strongly_reached_marked _ _ _ _ _ Hcy) in Hr.
  destruct (marked_stays _ _ _ _ _ Hcy r Hr) as [b' Hb']. destruct (cycle_contents _ _ _ _ _ Hcy r b' Hb') as (b & Hb & Hsame). eauto.
Qed.
End cycle.
