(* ===== verification/GcBarrier.v ===== *)
(** * Write barriers

    When the program stores a reference in an object while the collector is
    marking, the barrier restores the invariant that no black object refers to
    a white one; in the other phases it makes the owner white again. *)

From S2P Require Import Prelude Clib Opcodes Object Debug Table TableOps Auxlib State Barrier Func Tm Do Vm Run Lstate Gc.
From S2P Require Import StateFacts GcTable GcMark GcPropagate GcAtomic GcAlive.

Section barrier.
Context {HM : Machine} {HH : Host} {HC : Cenv} {HK : Calling} {HS : Sizes}.
Implicit Types (s : State) (r k L : Z) (b : body) (v : TValue) (o : GCObject).

(** ** Writing to an object *)

(** The objects whose writes have a barrier *)
Inductive written : body -> body -> Prop :=
| written_table h h' : written (OTable h) (OTable h')
| written_udata u u' : written (OUdata u) (OUdata u')
| written_closure c c' : written (OClosure c) (OClosure c')
| written_upval v v' : written (OUpVal (UClosed v)) (OUpVal (UClosed v')).

(** ... of which tables have the back barrier *)
Definition is_table_body b : Prop := match b with OTable _ => True | _ => False end.

Section write.
Variables (s : State) (L r : Z) (b b' : body).
Hypotheses (Hm : marking s L) (Hb : body_at s r = Some b) (Hw : written b b') (Hok : body_ok s b').
Let s1 := put_body r b' s.

Lemma write_body x : body_at s1 x = if decide (r = x) then Some b' else body_at s x.
Proof using All. unfold s1. rewrite body_at_put. case_decide; [subst; by rewrite Hb|done]. Qed.

Lemma write_object x o1 : heap s1 !! x = Some o1 -> exists o, heap s !! x = Some o /\ marked o1 = marked o.
Proof using All.
  unfold s1, put_body. cbn. rewrite lookup_alter. destruct (decide (r = x)) as [<-|]; [|eauto]. destruct (heap s !! r) as [o|]; [|done].
  intros [= <-]. by exists o.
Qed.

Lemma write_object_fw x o : heap s !! x = Some o -> exists o1, heap s1 !! x = Some o1 /\ marked o1 = marked o.
Proof using All.
  intros Ho. unfold s1, put_body. cbn. rewrite lookup_alter. destruct (decide (r = x)) as [<-|]; rewrite Ho; [by exists (set_obj b' o)|by exists o].
Qed.

Lemma write_nonwhite x : nonwhite s1 x <-> nonwhite s x.
Proof using All.
  unfold nonwhite, iswhite. split; intros (o & Ho & E).
  - destruct (write_object _ _ Ho) as (o' & Ho' & Em). exists o'. by rewrite <- Em.
  - destruct (write_object_fw _ _ Ho) as (o' & Ho' & Em). exists o'. by rewrite Em.
Qed.

Lemma write_black x : black s1 x <-> black s x.
Proof using All.
  unfold black, iswhite, isblack. split; intros (o & Ho & E).
  - destruct (write_object _ _ Ho) as (o' & Ho' & Em). exists o'. by rewrite <- Em.
  - destruct (write_object_fw _ _ Ho) as (o' & Ho' & Em). exists o'. by rewrite Em.
Qed.

Lemma write_thread M : StateFacts.th s1 M = StateFacts.th s M.
Proof using All. unfold StateFacts.th. rewrite write_body. case_decide; [subst; rewrite Hb; by destruct Hw|done]. Qed.

Lemma write_val_ok v : val_ok s v -> val_ok s1 v.
Proof using All.
  destruct v; cbn; try done; intros [y Hy]; rewrite write_body; (case_decide; [subst; rewrite Hb in Hy; injection Hy as ->; inversion Hw; subst; eauto|eauto]).
Qed.

Lemma write_body_ok x : body_ok s x -> body_ok s1 x.
Proof using All.
  pose proof write_val_ok as Hv. destruct x as [h|u|[e f l|e p l]|[M lv|v]|t]; cbn [body_ok].
  - intros (Hwf & Hmt & Ha & Hn). split_and!; [done|intros mt E; by apply (Hv (VTable mt)), Hmt|by eapply list.Forall_impl|].
    eapply list.Forall_impl; [exact Hn|]. intros n Hokn Hg. destruct (Hokn Hg). auto.
  - intros [He Hmt]. split; [by apply (Hv (VTable _))|]. intros mt E. by apply (Hv (VTable mt)), Hmt.
  - intros [He Hl]. split; [by apply (Hv (VTable _))|by eapply list.Forall_impl].
  - intros [He Hl]. split; [by apply (Hv (VTable _))|]. eapply list.Forall_impl; [exact Hl|]. intros y (q & uv & -> & Hq). exists q.
    rewrite write_body. case_decide; [subst; rewrite Hb in Hq; injection Hq as ->; inversion Hw; subst; eauto|eauto].
  - intros (t & v & Ht & Hg & Hlim & Hokv). exists t, v. rewrite write_thread. auto.
  - auto.
  - intros (Hwf & Hg & Hl). split_and!; [done|auto|by eapply list.Forall_impl].
Qed.

Lemma write_refs x : x <> r -> refs s1 x = refs s x.
Proof using All.
  intros Hx. unfold refs. rewrite write_body, decide_False by done. destruct (body_at s x); [|done]. by apply body_refs_same, write_thread.
Qed.

Lemma write_open x : open_upval s1 x <-> open_upval s x.
Proof using All.
  unfold open_upval. setoid_rewrite write_body. split; intros (M & lv & E); exists M, lv.
  - case_decide; [subst; injection E as ->; by inversion Hw|done].
  - case_decide; [subst; rewrite Hb in E; injection E as ->; by inversion Hw|done].
Qed.

Lemma write_mark_ok : mark_ok s1.
Proof using All.
  destruct (mk_ok _ _ Hm) as [Ic Ip Iw Iu Ih]. split.
  - intros x bx Hx. rewrite write_body in Hx. case_decide; [injection Hx as <-; by apply write_body_ok|]. by apply write_body_ok, (Ic x).
  - intros x Hx. destruct (Ip x Hx) as [Hn Ht]. split; [by apply write_nonwhite|]. unfold traversable in *. rewrite write_body.
    case_decide; [subst; rewrite Hb in Ht; by inversion Hw; subst|done].
  - intros x Hx. destruct (Iw x Hx) as [h Hh]. rewrite write_body. case_decide; [|eauto]. subst. rewrite Hb in Hh. injection Hh as ->. inversion Hw. eauto.
  - intros x o1 Ho1 Hop. destruct (write_object _ _ Ho1) as (o & Ho & Em).
    assert (Hopen : open_upval s x). { apply write_open. destruct Hop as (M & lv & E). exists M, lv. unfold body_at. by rewrite Ho1, <- E. }
    unfold isblack. rewrite Em. apply (Iu x o Ho). destruct Hopen as (M & lv & E). exists M, lv. unfold body_at in E. rewrite Ho in E. by injection E.
  - intros x Hx. by apply write_open, Ih.
Qed.

(** The invariant, but for the object that was written to *)
Lemma write_tricolour x : nonwhite s1 x -> x <> r ->
  x ∈ pending (G s1) \/ black s1 x /\ marked_refs s1 x \/ open_upval s1 x /\ ~ black s1 x.
Proof using All.
  intros Hn Hx. apply write_nonwhite, (mk_tri _ _ Hm) in Hn as [Hp|[[Hk Hmr]|[Ho Hk]]]; [by left|right; left|right; right].
  - split; [by apply write_black|]. intros k. rewrite write_refs by done. intros Hin. by apply write_nonwhite, Hmr.
  - split; [by apply write_open|by rewrite write_black].
Qed.

Lemma write_marking B s' : mstep [] B s1 s' -> tricolour s' -> marking s' L.
Proof using All.
  intros Hs Ht. pose proof (mstep_pstep _ _ _ _ Hs) as Hps. destruct (pstep_G _ _ Hps) as (Ew & _ & _ & Er & Em & _).
  assert (Hr1 : roots_ok s1 L).
  { destruct (mk_roots _ _ Hm) as [Rt Rm Rr Ra Ru]. split; rewrite ?write_thread; [done|done|by apply write_val_ok| |].
    - intros x Hx. by apply (write_val_ok (VTable x)), Ra.
    - intros x Hx. destruct (Ru x Hx) as [u Hu]. rewrite write_body. case_decide; [|by eexists]. subst. rewrite Hb in Hu. injection Hu as ->. inversion Hw. by eexists. }
  assert (Hback : forall x o', heap s' !! x = Some o' -> exists o, heap s !! x = Some o /\ marked_le o o').
  { intros x o' Ho'. destruct (heap s1 !! x) as [o1|] eqn:Ho1.
    - destruct (ps_marked _ _ Hps _ _ Ho1) as (o2 & Ho2 & [Hf Hd Hk]). assert (o2 = o') as -> by congruence.
      destruct (write_object _ _ Ho1) as (o & Ho & E). exists o. split; [done|]. unfold isblack, iswhite in *. rewrite E in *. by split.
    - assert (Hn : body_at s1 x = None) by (unfold body_at; by rewrite Ho1). apply (ps_none _ _ Hps) in Hn. unfold body_at in Hn. by rewrite Ho' in Hn. }
  split; [by eapply mark_ok_step, write_mark_ok|done| | |by eapply roots_step| | | |].
  - unfold white_ok. rewrite Ew. apply (mk_white _ _ Hm).
  - apply (ps_alive s1); [done|]. intros x o1 Ho1. destruct (write_object _ _ Ho1) as (o & Ho & E). unfold isdead. rewrite E. by apply (mk_alive _ _ Hm x).
  - intros x o' Ho' Hk'. destruct (Hback _ _ Ho') as (o & Ho & [_ _ Hk]). apply not_true_is_false. intros Hw'. destruct (Hk Hk' Hw') as [Hk0 Hw0].
    by rewrite (mk_both _ _ Hm x o Ho Hk0) in Hw0.
  - intros x o' Ho' Hbit. destruct (Hback _ _ Ho') as (o & Ho & [Hf _ _]). rewrite Em. apply (mk_fixed _ _ Hm x o Ho). by rewrite <- Hf by lia.
  - rewrite Em. apply (ps_nonwhite _ _ Hps), write_nonwhite, (mk_main _ _ Hm).
  - rewrite Er. intros k Hk. by apply (ps_nonwhite _ _ Hps), write_nonwhite, (mk_registry _ _ Hm).
Qed.
End write.

(** ** The barriers *)

Lemma valiswhite_spec s v : val_ok s v ->
  exists w, valiswhite v s = Ok w s /\ if w : bool then exists k, gcvalue v = Some k /\ white s k else val_marked s v.
Proof.
  intros Hv. unfold valiswhite, val_marked. destruct (gcvalue v) as [k|] eqn:Ek; [|by exists false].
  destruct (val_ok_body _ _ _ Ek Hv) as [x Hx]. destruct (body_object _ _ _ Hx) as (o & Ho & _).
  assert (E : object k s = Ok o s) by (unfold object; by rewrite Ho). rewrite (m_bind_eq _ _ _ _ _ E). exists (iswhite o). split; [done|].
  destruct (iswhite o) eqn:Ew; [exists k; split; [done|by exists o]|]. intros k' [= <-]. by exists o.
Qed.

(** A black object that has become gray again waits in [grayagain]. *)
Definition back s r o : State := set_globals (fun g => set_grayagain (r :: grayagain g) g) (paint r (black2gray o) s).

Lemma back_step s r o : heap s !! r = Some o -> nonwhite s r -> traversable s r -> mstep [] [r] s (back s r o).
Proof.
  intros Ho Hn Ht. destruct (black2gray_steps r s Hn Ht) as (s1 & E1 & H1 & o' & Ho' & ->). assert (o' = o) as -> by congruence.
  assert (Hn1 : nonwhite (paint r (black2gray o) s) r) by (by eapply ms_nonwhite). eapply mstep_trans; [|exact H1|].
  - intros x ->%list_elem_of_singleton. done.
  - apply set_globals_step; [by intros []|done|intros x Hx; cbn; apply elem_of_cons; by right| |by left].
    intros x Hx. cbn in Hx. apply elem_of_cons in Hx as [->|]; [right|by left]. split; [done|by eapply ms_traversable].
Qed.

(** C4: Storing a reference in a table while the collector marks: [luaC_barriert]
    keeps the invariant of the mark phase. The new contents of the table refer
    to nothing but what the old ones did and the value that is stored. *)
Theorem barriert_keeps_marking s L r h h' v :
  marking s L -> body_at s r = Some (OTable h) -> body_ok s (OTable h') -> val_ok s v ->
  (forall k, k ∈ table_refs false false h' -> k ∈ table_refs false false h \/ gcvalue v = Some k) ->
  exists s', (set_body r (OTable h');; luaC_barriert r v) s = Ok tt s' /\ marking s' L /\ body_at s' r = Some (OTable h').
Proof.
  intros Hm Hb Hok Hv Hrefs. pose proof (written_table h h') as Hw. set (s1 := put_body r (OTable h') s).
  assert (Hb1 : body_at s1 r = Some (OTable h')) by (unfold s1; by rewrite body_at_put, decide_True, Hb).
  rewrite (m_bind_eq _ _ s tt s1) by (apply set_body_eq; by rewrite Hb). destruct (body_object _ _ _ Hb1) as (o & Ho & Eo).
  destruct (valiswhite_spec s1 v) as (w & Ew & Hwv); [by eapply write_val_ok|].
  unfold luaC_barriert. rewrite (m_bind_eq _ _ _ _ _ Ew). assert (E : object r s1 = Ok o s1) by (unfold object; by rewrite Ho).
  rewrite (m_bind_eq _ _ _ _ _ E). pose proof (write_tricolour s L r _ _ Hm Hb Hw Hok) as Ht. fold s1 in Ht.
  destruct (w && isblack o) eqn:Ec.
  - apply andb_true_iff in Ec as [-> Ek]. unfold luaC_barrierback. rewrite (m_bind_eq _ _ _ _ _ (upd_object_paint _ _ _ _ Ho)).
    change (modG ?f (paint r (black2gray o) s1)) with (Ok tt (back s1 r o)). exists (back s1 r o). split; [done|].
    split; [|unfold back; rewrite body_at_globals; unfold body_at; by rewrite heap_paint, decide_True, <- Eo].
    destruct (write_object s L r _ _ Hm Hb Hw Hok r o Ho) as (o0 & Ho0 & Em).
    assert (Hn : nonwhite s1 r). { exists o. split; [done|]. unfold iswhite, isblack in *. rewrite Em in *. by apply (mk_both _ _ Hm r o0). }
    assert (Hst : mstep [] [r] s1 (back s1 r o)) by (apply back_step; [done|done|unfold traversable; by rewrite Hb1]).
    apply (write_marking s L r _ _ Hm Hb Hw Hok [r] _ Hst). apply (tricolour_from [r] s1 _ Hst).
    + intros x Hx Hne. rewrite list_elem_of_singleton in Hne. by apply Ht.
    + intros x ->%list_elem_of_singleton. split; [done|left]. unfold pending. rewrite !elem_of_app. right; left. cbn. apply elem_of_cons. by left.
  - exists s1. split; [done|]. split; [|done]. apply (write_marking s L r _ _ Hm Hb Hw Hok [] s1 (mstep_refl _ _ _)).
    intros x Hx. destruct (decide (x = r)) as [->|Hne]; [|by apply Ht]. assert (Hn : nonwhite s r) by (by eapply write_nonwhite).
    destruct (mk_tri _ _ Hm r Hn) as [Hp|[[Hk Hmr]|[(M & lv & Ho') _]]]; [by left| |by rewrite Hb in Ho'].
    right; left. assert (Hk1 : black s1 r) by (by eapply write_black). split; [done|]. destruct Hk1 as (o' & Ho' & _ & Hk1).
    assert (o' = o) as -> by congruence. rewrite Hk1, andb_true_r in Ec. subst w. intros k Hin. unfold refs in Hin. rewrite Hb1 in Hin.
    destruct (Hrefs k Hin) as [Hold|Hnew]; [|by apply Hwv]. eapply write_nonwhite; try done. apply Hmr. by rewrite (refs_table _ _ _ Hb).
Qed.

(** The forward barrier, for a value and for an object *)
Definition forward_barrier r v (m : M unit) : Prop :=
  m = luaC_barrier r v \/ exists k, gcvalue v = Some k /\ m = luaC_objbarrier r k.

Lemma forward_barrier_eq r v m s : forward_barrier r v m -> m s = luaC_barrier r v s.
Proof.
  intros [-> |(k & Hk & ->)]; [done|]. unfold luaC_barrier, valiswhite. rewrite Hk, m_bind_bind. unfold luaC_objbarrier.
  unfold mbind, M_bind. by destruct (object k s).
Qed.

Lemma written_val_ok s r b b' v : body_at s r = Some b -> written b b' -> val_ok s v -> val_ok (put_body r b' s) v.
Proof.
  intros Hb Hw. destruct v; cbn; try done; intros [y Hy]; rewrite body_at_put; (case_decide; [subst; rewrite Hb in *; injection Hy as ->; inversion Hw; subst; eauto|eauto]).
Qed.

Lemma written_same b b' b2 : written b b' -> ~ is_table_body b -> body_le b' b2 -> b2 = b'.
Proof. intros []; cbn; [by intros []|done|done|done]. Qed.

Lemma written_open b b' M lv : written b b' -> b <> OUpVal (UOpen M lv).
Proof. by intros []. Qed.

Section forward.
Variables (s : State) (r : Z) (b b' : body) (v : TValue).
Hypotheses (Hb : body_at s r = Some b) (Hw : written b b') (Hnt : ~ is_table_body b) (Hok : body_ok s b') (Hv : val_ok s v).
Let s1 := put_body r b' s.

(** The barrier after the write: what it does is decided by the colours. *)
Lemma forward_cases m : forward_barrier r v m ->
  exists o, heap s1 !! r = Some o /\ obj o = b' /\
    ((set_body r b';; m) s = Ok tt s1 /\ (isblack o = true -> val_marked s1 v) \/
     isblack o = true /\ exists k, gcvalue v = Some k /\ white s1 k /\ (set_body r b';; m) s = luaC_barrierf r k s1).
Proof using All.
  intros Hm. assert (Hb1 : body_at s1 r = Some b') by (unfold s1; by rewrite body_at_put, decide_True, Hb).
  rewrite (m_bind_eq _ _ s tt s1) by (apply set_body_eq; by rewrite Hb). destruct (body_object _ _ _ Hb1) as (o & Ho & Eo).
  exists o. split; [done|]. split; [done|]. rewrite (forward_barrier_eq _ _ _ s1 Hm).
  destruct (valiswhite_spec s1 v) as (wh & Ew & Hwv).
  { by eapply written_val_ok. }
  unfold luaC_barrier. rewrite (m_bind_eq _ _ _ _ _ Ew).
  assert (E : object r s1 = Ok o s1) by (unfold object; by rewrite Ho). rewrite (m_bind_eq _ _ _ _ _ E).
  destruct (wh && isblack o) eqn:Ec.
  - right. apply andb_true_iff in Ec as [-> Ek]. destruct Hwv as (k & Hk & Hwk). rewrite Hk. split; [done|]. by exists k.
  - left. split; [done|]. intros Ek. rewrite Ek, andb_true_r in Ec. by subst wh.
Qed.

Hypothesis Hrefs : forall k, k ∈ body_refs s b' -> k ∈ body_refs s b \/ gcvalue v = Some k.

(** The mark phase *)
Lemma forward_marking m L : forward_barrier r v m -> marking s L -> gcstate (G s) = GCSpropagate ->
  exists s', (set_body r b';; m) s = Ok tt s' /\ marking s' L /\ body_at s' r = Some b' /\ (black s' r -> val_marked s' v).
Proof using All.
  intros Hbar Hm Hst. destruct (forward_cases m Hbar) as (o & Ho & Eo & Hcase).
  assert (Hb1 : body_at s1 r = Some b') by (unfold s1; by rewrite body_at_put, decide_True, Hb).
  pose proof (write_tricolour s L r _ _ Hm Hb Hw Hok) as Ht. fold s1 in Ht.
  pose proof (write_mark_ok s L r _ _ Hm Hb Hw Hok) as Hok1. fold s1 in Hok1.
  assert (Hsame : forall s', mstep [] [] s1 s' -> body_at s' r = Some b').
  { intros s' Hs. destruct (ms_body _ _ _ _ Hs _ _ Hb1) as (b2 & Hb2 & Hl). by rewrite Hb2, (written_same b b' b2). }
  assert (Hend : forall s', mstep [] [] s1 s' -> (isblack o = true -> val_marked s' v) -> marking s' L).
  { intros s' Hs Hvm. apply (write_marking s L r _ _ Hm Hb Hw Hok [] _ Hs).
    destruct (body_colour _ _ _ Hb1) as [Hwr|Hn].
    { apply (tricolour_from [] s1 s' Hs); [|by intros x ?%elem_of_nil]. intros x Hx _. apply Ht; [done|]. intros ->. by eapply white_nonwhite. }
    assert (Hn0 : nonwhite s r) by (by eapply write_nonwhite).
    destruct (mk_tri _ _ Hm r Hn0) as [Hp|[[Hk Hmr]|[(M & lv & E2) _]]]; [| |rewrite Hb in E2; injection E2 as E2; by destruct (written_open _ _ M lv Hw)].
    { apply (tricolour_from [] s1 s' Hs); [|by intros x ?%elem_of_nil]. intros x Hx _. destruct (decide (x = r)) as [->|Hne]; [by left|by apply Ht]. }
    assert (Hk1 : black s1 r) by (by eapply write_black).
    assert (Hs' : mstep [] [r] s1 s') by (eapply mstep_weaken; [done|apply list_subseteq_nil|done]).
    apply (tricolour_from [r] s1 s' Hs').
    - intros x Hx Hne. rewrite list_elem_of_singleton in Hne. by apply Ht.
    - intros x ->%list_elem_of_singleton. split; [done|right]. split; [eapply ms_black; [exact Hs|apply not_elem_of_nil|done]|].
      intros k Hin. apply (refs_le _ _ _ _ Hs) in Hin. unfold refs in Hin. rewrite Hb1 in Hin.
      rewrite (body_refs_same s s1) in Hin by (intros M; by eapply write_thread).
      destruct (Hrefs k Hin) as [Hold|Hnew].
      + eapply ms_nonwhite; [exact Hs|]. eapply write_nonwhite; try done. apply Hmr. unfold refs. by rewrite Hb.
      + apply Hvm; [|done]. destruct Hk1 as (o' & Ho' & _ & Hk1). congruence. }
  destruct Hcase as [[E Hvm]|(Ek & k & Hk & (ok & Hok' & Hwk) & E)].
  - exists s1. split; [done|]. split; [apply Hend; [apply mstep_refl|done]|]. split; [done|].
    intros (o' & Ho' & _ & Hko'). apply Hvm. congruence.
  - destruct (markvalue_steps v s1) as (s' & E' & Hs & Hvm); [by eapply written_val_ok|apply Hok1|]. exists s'.
    split; [|split; [by apply Hend|split; [by apply Hsame|done]]].
    rewrite E. unfold luaC_barrierf. change ((getG ≫= ?k) s1) with (k (G s) s1). cbv beta. rewrite Hst, Z.eqb_refl.
    unfold markvalue, markobject in E'. rewrite Hk in E'. assert (E2 : object k s1 = Ok ok s1) by (unfold object; by rewrite Hok').
    by rewrite (m_bind_eq _ _ _ _ _ E2), Hwk in E'.
Qed.

(** The other phases *)
Lemma forward_sweep m : forward_barrier r v m -> white_ok (G s) -> gcstate (G s) <> GCSpropagate ->
  exists s' o o', (set_body r b';; m) s = Ok tt s' /\ heap s !! r = Some o /\ heap s' !! r = Some o' /\ obj o' = b' /\
    (isdead (G s) o = false -> isdead (G s) o' = false) /\ (black s' r -> val_marked s' v) /\
    (forall x, x <> r -> heap s' !! x = heap s !! x) /\ G s' = G s.
Proof using All.
  intros Hbar Hwh Hst. destruct (forward_cases m Hbar) as (o1 & Ho1 & Eo & Hcase).
  assert (Hheap : forall x, heap s1 !! x = if decide (r = x) then set_obj b' <$> heap s !! x else heap s !! x).
  { intros x. unfold s1, put_body. cbn. rewrite lookup_alter. case_decide; [by subst|done]. }
  destruct (body_object _ _ _ Hb) as (o & Ho & Eb). rewrite Hheap, decide_True, Ho in Ho1 by done. injection Ho1 as <-.
  assert (Hrest : forall x, x <> r -> heap s1 !! x = heap s !! x) by (intros x Hx; by rewrite Hheap, decide_False by congruence).
  assert (Hr1 : heap s1 !! r = Some (set_obj b' o)) by (by rewrite Hheap, decide_True, Ho).
  destruct Hcase as [[E Hvm]|(Ek & k & Hk & Hwk & E)].
  - exists s1, o, (set_obj b' o). split_and!; try done. intros (o' & Ho' & _ & Hko'). apply Hvm. congruence.
  - exists (paint r (makewhite (G s) (set_obj b' o)) s1), o, (makewhite (G s) (set_obj b' o)).
    assert (Hp : heap (paint r (makewhite (G s) (set_obj b' o)) s1) !! r = Some (makewhite (G s) (set_obj b' o))) by (by rewrite heap_paint, decide_True).
    split_and!; try done.
    + rewrite E. unfold luaC_barrierf. change ((getG ≫= ?k) s1) with (k (G s) s1). cbv beta.
      rewrite (proj2 (Z.eqb_neq _ _) Hst). by apply upd_object_paint.
    + intros _. apply isdead_spec. intros n Hn. rewrite makewhite_bit by (done || lia). by destruct Hn as [-> | ->].
    + intros (o' & Ho' & Hwo' & _). rewrite Hp in Ho'. injection Ho' as <-. by rewrite makewhite_white in Hwo'.
    + intros x Hx. rewrite heap_paint, decide_False by done. by apply Hrest.
Qed.
End forward.
End barrier.
