(* ===== verification/GcProps.v ===== *)
(** * Instances for the collector

    A small idle state: a thread whose stack holds a function and a table, the
    registry, a captured variable, a table with weak keys, and garbage. *)

From S2P Require Import Prelude Clib Opcodes Object Debug Table TableOps TableNum TableSet TableResize Auxlib State Barrier Func Tm Do Vm Run Lstate Gc Sample.
From S2P Require Import StateFacts GcTable GcMark GcPropagate GcAtomic GcAlive GcSweep GcCycle GcBarrier.

#[local] Instance sample_sizes : Sizes := {|
  sizeof_Table := 64; sizeof_TValue := 16; sizeof_Node := 40; sizeof_lua_State := 184; sizeof_CallInfo := 40;
  sizeCclosure n := 40 + 16 * n; sizeLclosure n := 40 + 8 * n
|}.

#[local] Instance no_calls : Calling := fun _ _ _ => wrong.

Definition plain_table : Table := mkTable 255 None [] 0 [dummynode] true 0.
Definition pair_table : Table := mkTable 255 None [VTable 4; VTable 10] 0 [dummynode] true 0.

(** A metatable that makes keys weak, and a table with it *)
Definition mode_table : Table := mkTable 0 None [] 0 [mkNode (VString (str "k")) (LiveKey (VString (str "__mode"))) None] false 0.
Definition ephemeral : Table := mkTable 255 (Some 9) [] 0 [mkNode (VTable 11) (LiveKey (VTable 6)) None] false 0.

Definition idle_thread : lua_State :=
  mkthread 0 2 1 0 0 4 [VFunction 3; VTable 5; VNil; VNil; VNil; VNil; VNil] [mkCallInfo 1 0 4 0 0 0]
    0 0 0 true 0 0 None (VTable 2) VNil [7] 1 0.

(** The main thread, the registry, a function that refers to the table 4, a
    table that refers to it and to a table with weak keys, garbage, the upvalue of
    a slot and a closed one; the table with weak keys has one entry, of which the
    key is garbage and the value a table that nothing else refers to. *)
Definition idle_objects : list (Z * GCObject) :=
  [(1, mkobject 97 (OThread idle_thread)); (2, mkobject 1 (OTable plain_table)); (3, mkobject 1 (OClosure (CClosure 2 0 [VTable 4])));
   (4, mkobject 1 (OTable plain_table)); (5, mkobject 1 (OTable pair_table)); (6, mkobject 1 (OTable pair_table));
   (7, mkobject 1 (OUpVal (UOpen 1 1))); (8, mkobject 1 (OUpVal (UClosed VNil)));
   (9, mkobject 1 (OTable mode_table)); (10, mkobject 1 (OTable ephemeral)); (11, mkobject 1 (OTable plain_table))].

Definition idle : State :=
  mkState (list_to_map idle_objects) (mkglobal 33 GCSpause [11; 10; 9; 8; 6; 5; 4; 3; 2; 1] [] None [] [] [] [] None (VTable 2) 1 [7] [None] 200 200) 12.

Lemma nodeless_wf t : node t = [dummynode] -> dummy t = true -> lsizenode t = 0 -> lastfree t <= 0 -> sizearray t <= MAXASIZE -> table_wf t.
Proof.
  intros Hn Hd Hl Hf Ha. exists [[0]]. pose proof (fresh_tinv t) as Hi. rewrite Hn in Hi. apply Hi; clear Hi.
  - split; rewrite ?Hl, ?Hn; done.
  - by intros n ->%list_elem_of_singleton.
  - congruence.
  - done.
  - done.
Qed.

Lemma one_node_wf t v k : node t = [mkNode v (LiveKey k) None] -> dummy t = false -> lsizenode t = 0 -> lastfree t <= 1 -> array t = [] ->
  good_key k -> table_wf t.
Proof.
  intros Hn Hd Hl Hf Ha Hk. assert (Hs : sized t) by (split; rewrite ?Hl, ?Hn; done).
  assert (Hg : forall i n, getZ (node t) i = Some n -> i = 0 /\ n = mkNode v (LiveKey k) None).
  { intros i n Hi. pose proof (getZ_Some _ _ _ Hi) as Hr. rewrite Hn in Hi, Hr. unfold lenZ in Hr. cbn in Hr. assert (i = 0) as -> by lia. by injection Hi as <-. }
  assert (H0 : getZ (node t) 0 = Some (mkNode v (LiveKey k) None)) by (by rewrite Hn).
  assert (Hm : mpos t k = 0) by (destruct (mainposition_mpos t k Hs (proj1 (proj2 Hk))) as [_ Hm]; rewrite Hn in Hm; unfold lenZ in Hm; cbn [length] in Hm; lia).
  assert (Hu : ~ unused (mkNode v (LiveKey k) None)) by (intros [= ->]; by destruct Hk).
  assert (Hr : reach [[0]] 0 0) by (exists [], []; split; by apply list_elem_of_singleton).
  exists [[0]]. split; try done.
  - split; [|by rewrite Hn]. repeat constructor. exists (mkNode v (LiveKey k) None). by rewrite Hn.
  - intros i n Hi Hun. by destruct (Hg _ _ Hi) as [-> ->].
  - intros i n Hi _. destruct (Hg _ _ Hi) as [-> ->]. cbn [gkey orig]. rewrite Hm. split_and!; [done| |eauto].
    unfold in_array, sizearray. rewrite Ha. unfold lenZ. cbn. lia.
  - intros i n w Hi E. by destruct (Hg _ _ Hi) as [-> ->].
  - intros i n Hi _ _. destruct (Hg _ _ Hi) as [-> ->]. cbn [gkey orig]. rewrite Hm. eauto.
  - intros i n Hi _. destruct (Hg _ _ Hi) as [-> ->]. cbn [gkey orig]. by rewrite Hm.
  - intros i j k1 k2 n1 n2 (H1 & _) (H2 & _) _. destruct (Hg _ _ H1), (Hg _ _ H2). congruence.
  - intros i j k1 n m _ Hm' E. by destruct (Hg _ _ Hm') as [-> ->].
  - intros _. rewrite Hn. split; [done|]. intros i n _ Hi. rewrite <- Hn in Hi. by destruct (Hg _ _ Hi) as [-> ->].
  - congruence.
  - unfold sizearray. by rewrite Ha.
Qed.

Lemma idle_lookup r o : heap idle !! r = Some o -> (r, o) ∈ idle_objects.
Proof. apply elem_of_list_to_map_2. Qed.

Lemma idle_body r b : body_at idle r = Some b -> exists o, (r, o) ∈ idle_objects /\ obj o = b.
Proof. intros Hb. destruct (body_object _ _ _ Hb) as (o & Ho & E). exists o. split; [by apply idle_lookup|done]. Qed.

(** One goal for each object *)
Ltac each_object H :=
  unfold idle_objects in H;
  repeat (apply elem_of_cons in H as [[= -> ->]|H]; [|]); [..|by apply elem_of_nil in H].

Lemma idle_closed : heap_closed idle.
Proof.
  intros r b Hb. apply idle_body in Hb as (o & Ho & <-). each_object Ho; cbn [obj body_ok].
  - split_and!; [split; vm_compute; (done || split; done || (split; discriminate))|by eexists|repeat constructor; by eexists].
  - split_and!; [by apply nodeless_wf|done|constructor|repeat constructor; done].
  - split; [by eexists|repeat constructor; by eexists].
  - split_and!; [by apply nodeless_wf|done|constructor|repeat constructor; done].
  - split_and!; [by apply nodeless_wf|done|repeat constructor; by eexists|repeat constructor; done].
  - split_and!; [by apply nodeless_wf|done|repeat constructor; by eexists|repeat constructor; done].
  - exists idle_thread, (VTable 5). split_and!; [done|done|vm_compute; discriminate|by eexists].
  - done.
  - split_and!; [by eapply one_node_wf|done|constructor|repeat constructor; done].
  - split_and!; [by eapply one_node_wf|intros mt [= <-]; by eexists|constructor|repeat constructor; by eexists].
  - split_and!; [by apply nodeless_wf|done|constructor|repeat constructor; done].
Qed.

Lemma idle_thread_at L t : th idle L = Some t -> L = 1 /\ t = idle_thread.
Proof.
  intros Ht. pose proof (th_body _ _ _ Ht) as Hb. apply idle_body in Hb as (o & Ho & E).
  each_object Ho; try discriminate E. injection E as <-. done.
Qed.

Lemma idle_upval r L lv : body_at idle r = Some (OUpVal (UOpen L lv)) -> r = 7 /\ L = 1 /\ lv = 1.
Proof. intros Hb. apply idle_body in Hb as (o & Ho & E). each_object Ho; try discriminate E. by injection E as <- <-. Qed.

Lemma idle_lists : lists_ok [] idle.
Proof.
  assert (Hopen : forall r, open_upval idle r <-> r = 7).
  { intros r. split; [intros (L & lv & E); by apply idle_upval in E as [-> _]|intros ->; by exists 1, 1]. }
  assert (Hin : forall r, r ∈ objects (G idle) ++ tmudata (G idle) <-> r = 11 \/ r = 10 \/ r = 9 \/ r = 8 \/ r = 6 \/ r = 5 \/ r = 4 \/ r = 3 \/ r = 2 \/ r = 1).
  { intros r. cbn. rewrite !elem_of_cons, elem_of_nil. tauto. }
  split.
  - by apply (bool_decide_unpack _).
  - intros r Hr. rewrite Hopen. apply Hin in Hr. split; [|lia]. by destruct Hr as [-> |[-> |[-> |[-> |[-> |[-> |[-> |[-> |[-> | ->]]]]]]]]]; eexists.
  - intros r [b Hb]. rewrite Hin, Hopen. apply idle_body in Hb as (o & Ho & _). each_object Ho; lia.
  - intros r Hr. by apply elem_of_nil in Hr.
  - by apply (bool_decide_unpack _).
  - intros r. rewrite Hopen. cbn. by rewrite list_elem_of_singleton.
  - intros L t Ht. apply idle_thread_at in Ht as [-> ->]. split; [by apply (bool_decide_unpack _)|]. intros r. cbn.
    rewrite list_elem_of_singleton. split; [intros ->; by exists 1|intros [lv E]; by apply idle_upval in E as [-> _]].
  - intros r L lv Hb. apply idle_upval in Hb as (-> & -> & ->). by exists idle_thread, (VTable 5).
Qed.

Lemma idle_paused : paused idle 1.
Proof.
  split; [apply idle_closed|by left|..|apply idle_lists| |done|done].
  - intros r o Ho. apply idle_lookup in Ho. each_object Ho; done.
  - intros r o Ho. apply idle_lookup in Ho. each_object Ho; done.
  - intros r o Ho. apply idle_lookup in Ho. each_object Ho; done.
  - split; [by eexists|by eexists|by eexists| |].
    + intros r Hr. cbn in Hr. by apply list_elem_of_singleton in Hr.
    + intros r Hr. by apply elem_of_nil in Hr.
  - intros r L lv t Hb Ht. apply idle_upval in Hb as (-> & -> & ->). by apply idle_thread_at in Ht as [_ ->].
Qed.

(** The program reaches the table 4 through its function, and the table 11
    through the table with weak keys; the garbage and the upvalue go, and with
    the garbage the entry of which it is the key. *)
Lemma collection_keeps_reachable_witness :
  (strongly_reaches idle 1 4 /\ strongly_reaches idle 1 11 /\
   match steps_until 20 1 GCSfinalize idle with
   | Ok _ s => bool_decide (map_to_list (marked <$> heap s) ≡ₚ [(1, 98); (2, 2); (3, 2); (4, 2); (5, 2); (9, 2); (10, 10); (11, 2)]) = true /\
       body_at s 10 = Some (OTable (with_node [mkNode VNil (DeadKey (VTable 6)) None] ephemeral))
   | _ => False end) /\
  exists n s', steps_until n 1 GCSfinalize idle = Ok tt s' /\ heap_closed s' /\
    forall r, strongly_reaches idle 1 r ->
      exists b b', body_at idle r = Some b /\ body_at s' r = Some b' /\ same_contents idle s' r b b'.
Proof.
  assert (Hth : strongly_reaches idle 1 1) by (apply strong_root, root_thread).
  split; [split_and!|].
  - apply (strong_ref idle 1 3 (OClosure (CClosure 2 0 [VTable 4]))); [|done|vm_compute; repeat constructor].
    apply (strong_ref idle 1 1 (OThread idle_thread)); [done|done|vm_compute; repeat constructor].
  - apply (strong_ref idle 1 10 (OTable ephemeral)); [|done|vm_compute; repeat constructor].
    apply (strong_ref idle 1 5 (OTable pair_table)); [|done|vm_compute; repeat constructor].
    apply (strong_ref idle 1 1 (OThread idle_thread)); [done|done|vm_compute; repeat constructor].
  - by vm_compute.
  - apply (collection_keeps_reachable idle 1 idle_paused).
Defined.

(** A state of the mark phase *)
Lemma idle_marking : exists s, marking s 1 /\ gcstate (G s) = GCSpropagate /\
  body_at s 2 = Some (OTable plain_table) /\ body_at s 6 = Some (OTable pair_table) /\ body_at s 8 = Some (OUpVal (UClosed VNil)).
Proof.
  destruct (markroot_ok idle 1 idle_paused) as (s & E & Hm & _ & _). exists (set_globals (set_gcstate GCSpropagate) s).
  split; [by apply marking_state|]. split; [done|].
  assert (Hb : match markroot idle with
    | Ok _ s0 => body_at s0 2 = Some (OTable plain_table) /\ body_at s0 6 = Some (OTable pair_table) /\ body_at s0 8 = Some (OUpVal (UClosed VNil))
    | _ => False end) by (vm_compute; done). by rewrite E in Hb.
Qed.

Definition stored_table : Table := mkTable 255 None [VTable 6] 0 [dummynode] true 0.

Lemma barriert_keeps_marking_witness :
  exists s, marking s 1 /\ exists s', (set_body 2 (OTable stored_table);; luaC_barriert 2 (VTable 6)) s = Ok tt s' /\ marking s' 1 /\
    body_at s' 2 = Some (OTable stored_table).
Proof.
  destruct idle_marking as (s & Hm & _ & H2 & H6 & _). exists s. split; [exact Hm|].
  apply (barriert_keeps_marking s 1 2 plain_table stored_table (VTable 6) Hm H2).
  - cbn. split_and!; [by apply nodeless_wf|done|repeat constructor; cbn; rewrite H6; by eexists|repeat constructor; done].
  - cbn. rewrite H6. by eexists.
  - intros k Hk. right. vm_compute in Hk. by apply list_elem_of_singleton in Hk as ->.
Defined.

(** Some steps of the mark phase *)
Fixpoint mark_steps (n : nat) (L : Z) : M unit :=
  match n with
  | O => mret tt
  | S n => g ← getG; match gray g with [] => mret tt | _ => singlestep L;; mark_steps n L end
  end.

Lemma mark_steps_ok n s L : marking s L -> gcstate (G s) = GCSpropagate ->
  exists s', mark_steps n L s = Ok tt s' /\ marking s' L /\ gcstate (G s') = GCSpropagate.
Proof.
  revert s. induction n as [|n IH]; intros s Hm Hst; [by exists s|]. cbn [mark_steps].
  change ((getG ≫= ?k) s) with (k (G s) s). cbv beta. destruct (gray (G s)) as [|r rest] eqn:Hg; [by exists s|].
  destruct (propagate_step s L r rest Hst Hg Hm) as (c & s1 & E & Hst1 & Hm1 & _). rewrite (m_bind_eq _ _ _ _ _ E). by apply IH.
Qed.

(** All that can be reached is marked. *)
Lemma idle_marked : exists s, marking s 1 /\ gcstate (G s) = GCSpropagate /\
  heap s !! 3 = Some (mkobject 4 (OClosure (CClosure 2 0 [VTable 4]))) /\ heap s !! 6 = Some (mkobject 1 (OTable pair_table)) /\
  is_Some (body_at s 2) /\
  match luaC_barrier 3 (VTable 6) (put_body 3 (OClosure (CClosure 2 0 [VTable 6])) s) with Ok _ s' => bool_decide (iswhite <$> heap s' !! 6 = Some false) = true | _ => False end.
Proof.
  destruct (markroot_ok idle 1 idle_paused) as (s & E & Hm & _ & _).
  destruct (mark_steps_ok 20 (set_globals (set_gcstate GCSpropagate) s) 1) as (s' & E' & Hm' & Hst'); [by apply marking_state|done|].
  exists s'. split; [done|]. split; [done|].
  assert (Hb : match (markroot;; mark_steps 20 1) idle with
    | Ok _ s0 => heap s0 !! 3 = Some (mkobject 4 (OClosure (CClosure 2 0 [VTable 4]))) /\ heap s0 !! 6 = Some (mkobject 1 (OTable pair_table)) /\
        is_Some (body_at s0 2) /\
        match luaC_barrier 3 (VTable 6) (put_body 3 (OClosure (CClosure 2 0 [VTable 6])) s0) with Ok _ s' => bool_decide (iswhite <$> heap s' !! 6 = Some false) = true | _ => False end
    | _ => False end) by (vm_compute; split_and!; done || by eexists).
  rewrite (m_bind_eq _ _ _ _ _ E) in Hb. by rewrite E' in Hb.
Qed.

