(* ===== verification/FuncFacts.v ===== *)
(** * Upvalues (lfunc.c): sharing and closing *)

From Stdlib Require Import Sorted.
From S2P Require Import Prelude Clib Opcodes Object Debug Table Auxlib State Barrier Func Tm Do StateFacts.

(** ** The list of open upvalues *)

(** The upvalue [r] points to slot [lv] of the stack of [L]. *)
Definition open_at (s : State) (L r : Z) (lv : StkId) : Prop := body_at s r = Some (OUpVal (UOpen L lv)).

(** The list [rs] is sorted: highest level first, and no level twice. *)
Record open_list (s : State) (L : Z) (size : Z) (rs : list Z) (lvs : list StkId) : Prop := {
ol_open : Forall2 (open_at s L) rs lvs;
ol_sorted : StronglySorted Z.gt lvs;
ol_range : Forall (fun lv => 0 <= lv < size) lvs
}.

Lemma open_at_inj s L r lv lv' : open_at s L r lv -> open_at s L r lv' -> lv = lv'.
Proof. unfold open_at. congruence. Qed.

Lemma open_list_nil s L size : open_list s L size [] [].
Proof. split; constructor. Qed.

Section func.
Implicit Types (s : State) (L r : Z) (level lv : StkId) (rs : list Z).

Lemma uv_level_open s L lv : uv_level (UOpen L lv) s = Ok lv s.
Proof. done. Qed.

(** Where the search of [luaF_findupval] ends *)
Lemma find_open_spec s L level before rs lvs :
  Forall2 (open_at s L) rs lvs -> StronglySorted Z.gt lvs ->
  (exists p, find_loop level before rs s = Ok (inl p) s /\ p ∈ rs /\ open_at s L p level) \/
  (exists pre post pl ql, rs = pre ++ post /\ lvs = pl ++ ql /\ length pre = length pl /\
     Forall (fun l => level < l) pl /\ Forall (fun l => l < level) ql /\
     find_loop level before rs s = Ok (inr (before ++ pre, post)) s).
Proof.
  intros Ho. revert before. induction Ho as [|r lv rs lvs Hr Ho IH]; intros before Hs; cbn [find_loop].
  - right. exists [], [], [], []. rewrite !app_nil_r. split_and!; done || constructor.
  - rewrite (m_bind_eq _ _ _ _ _ (gco2uv_at _ _ _ Hr)), (m_bind_eq _ _ _ _ _ (uv_level_open s L lv)).
    apply StronglySorted_inv in Hs as [Hs Hlt]. destruct (Z.leb_spec level lv) as [Hle|Hgt].
    + destruct (Z.eqb_spec lv level) as [Heq|Hne].
      * left. exists r. split_and!; [done|apply elem_of_cons; by left|by rewrite <- Heq].
      * destruct (IH (before ++ [r]) Hs) as [(p & E & Hin & Hp)|(pre & post & pl & ql & -> & -> & Hlen & Hpl & Hql & E)].
        -- left. exists p. split_and!; [done|apply elem_of_cons; by right|done].
        -- right. exists (r :: pre), post, (lv :: pl), ql. rewrite E, <- app_assoc. split_and!; try done.
           ++ cbn. congruence.
           ++ constructor; [lia|done].
    + right. exists [], (r :: rs), [], (lv :: lvs). rewrite !app_nil_r. split_and!; try done.
      constructor; [lia|]. eapply list.Forall_impl; [exact Hlt|]. cbn. lia.
Qed.

(** ** New objects *)

(** Addresses from [brk] on are free. *)
Definition fresh s : Prop := forall r, brk s <= r -> body_at s r = None.

Definition alloc (m : Z) (b : body) (s : State) : State := mkState (<[brk s := mkobject m b]> (heap s)) (G s) (brk s + 1).

Lemma body_at_alloc m b s r : body_at (alloc m b s) r = if decide (r = brk s) then Some b else body_at s r.
Proof. unfold body_at, alloc. cbn. rewrite lookup_insert. repeat case_decide; by subst. Qed.



Lemma sorted_insert pl ql level :
  StronglySorted Z.gt (pl ++ ql) -> Forall (fun l => level < l) pl -> Forall (fun l => l < level) ql ->
  StronglySorted Z.gt (pl ++ level :: ql).
Proof.
  intros Hs Hpl Hql. induction Hpl as [|lv pl Hlv Hpl IH]; cbn in *.
  - constructor; [done|]. eapply list.Forall_impl; [exact Hql|]. cbn. lia.
  - apply StronglySorted_inv in Hs as [Hs Hf]. constructor; [by apply IH|].
    apply Forall_app in Hf as [Hf1 Hf2]. apply Forall_app. split; [done|]. constructor; [lia|done].
Qed.

Lemma sorted_lookup_lt lvs i j a b : StronglySorted Z.gt lvs -> (i < j)%nat -> lvs !! i = Some a -> lvs !! j = Some b -> b < a.
Proof.
  intros Hs. revert i j. induction Hs as [|lv lvs Hs IH Hf]; intros i j Hij Hi Hj; [done|].
  destruct j as [|j]; [lia|]. destruct i as [|i]; cbn in *.
  - injection Hi as ->. rewrite list.Forall_forall in Hf. apply list_elem_of_lookup_2, Hf in Hj. lia.
  - eapply (IH i j); [lia|done|done].
Qed.

Lemma sorted_lookup_inj lvs i j a : StronglySorted Z.gt lvs -> lvs !! i = Some a -> lvs !! j = Some a -> i = j.
Proof.
  intros Hs Hi Hj. destruct (lt_eq_lt_dec i j) as [[Hlt|]|Hlt]; [|done|].
  - pose proof (sorted_lookup_lt _ _ _ _ _ Hs Hlt Hi Hj). lia.
  - pose proof (sorted_lookup_lt _ _ _ _ _ Hs Hlt Hj Hi). lia.
Qed.

Lemma sorted_app_r (pl ql : list StkId) : StronglySorted Z.gt (pl ++ ql) -> StronglySorted Z.gt ql.
Proof. induction pl as [|lv pl IH]; [done|]. intros Hs. by apply StronglySorted_inv in Hs as [Hs _]; apply IH. Qed.

(** Open upvalues are not the thread, and not the next object. *)
Lemma open_list_frame s s' L size rs lvs :
  (forall r u, body_at s r = Some (OUpVal u) -> body_at s' r = Some (OUpVal u)) ->
  open_list s L size rs lvs -> open_list s' L size rs lvs.
Proof.
  intros Hf [Ho Hs Hr]. split; [|done|done]. eapply list.Forall2_impl; [exact Ho|]. intros r lv Hr'. by apply Hf.
Qed.

(** ** [luaF_findupval] *)

(** What [luaF_findupval] leaves: one more upvalue in the list, or none *)
Record found_upval s L t level r s' t' lvs' : Prop := {
fu_thread : th s' L = Some t';
fu_rest : exists rs, t' = set_openupval rs t;
fu_list : open_list s' L (stacksize t) (openupval t') lvs';
fu_at : r ∈ openupval t' /\ open_at s' L r level;
fu_kept : forall r', r' ∈ openupval t -> r' ∈ openupval t';
fu_objects : forall r' b, r' <> L -> body_at s r' = Some b -> body_at s' r' = Some b;
fu_fresh : fresh s';
fu_new : forall r' b, r' <> L -> body_at s' r' = Some b -> body_at s r' = Some b \/ r' = r
}.

Lemma findupval_spec s L t level lvs :
  th s L = Some t -> open_list s L (stacksize t) (openupval t) lvs -> fresh s ->
  0 <= level < stacksize t ->
  exists r s' t' lvs', luaF_findupval L level s = Ok r s' /\ found_upval s L t level r s' t' lvs'.
Proof.
  intros Ht [Ho Hs Hr] Hb Hl. pose proof (th_body _ _ _ Ht) as HbL.
  unfold luaF_findupval. change ((getG ≫= ?k) s) with (k (G s) s). cbv beta. rewrite (s_field _ _ _ Ht).
  destruct (find_open_spec s L level [] _ _ Ho Hs) as [(p & E & Hin & Hp)|(pre & post & pl & ql & Hrs & -> & Hlen & Hpl & Hql & E)].
  - rewrite (m_bind_eq _ _ _ _ _ E).
    assert (Hs' : exists s', (o ← object p; (if isdead (G s) o then upd_object p changewhite else mret tt);; mret p) s = Ok p s' /\
      (forall r, body_at s' r = body_at s r) /\ brk s' = brk s).
    { unfold open_at in Hp. unfold object, mbind at 1, M_bind at 1. unfold body_at in Hp.
      destruct (heap s !! p) as [o|] eqn:Eo; [|done]. cbn [valid mret M_ret]. destruct (isdead (G s) o).
      - destruct (upd_object_bodies p changewhite s) as (s' & E' & Hs' & _ & Hbrk); [done|unfold body_at; by rewrite Eo|].
        exists s'. by rewrite (m_bind_eq _ _ _ _ _ E').
      - by exists s. }
    destruct Hs' as (s' & E' & Hsame & Hbrk). exists p, s', t, lvs. split; [exact E'|]. split.
    + unfold th. by rewrite Hsame, HbL.
    + exists (openupval t). by destruct t.
    + eapply open_list_frame; [|by split]. intros r u. by rewrite Hsame.
    + split; [done|]. unfold open_at. by rewrite Hsame.
    + done.
    + intros r b _. by rewrite Hsame.
    + intros r. rewrite Hsame, Hbrk. apply Hb.
    + intros r b _. rewrite Hsame. by left.
  - rewrite (m_bind_eq _ _ _ _ _ E). cbn [app]. set (m := luaC_white (G s)). set (uv := brk s).
    change ((luaM_new m (OUpVal (UOpen L level)) ≫= ?k) s) with (k uv (alloc m (OUpVal (UOpen L level)) s)). cbv beta.
    set (s1 := alloc m (OUpVal (UOpen L level)) s).
    assert (Hbuv : body_at s uv = None) by (apply Hb; subst uv; lia).
    assert (HLuv : L <> uv) by (intros E'; rewrite E' in HbL; congruence).
    assert (Ht1 : th s1 L = Some t) by (unfold th, s1; by rewrite body_at_alloc, decide_False, HbL).
    rewrite (s_upd _ _ _ Ht1). set (t' := set_openupval (pre ++ uv :: post) t).
    set (s2 := put L t' s1). change ((modG ?f ≫= ?k) s2) with (k tt (set_globals f s2)). cbv beta.
    set (s3 := set_globals _ s2).
    assert (Hbody : forall r, body_at s3 r = if decide (L = r) then Some (OThread t') else if decide (r = uv) then Some (OUpVal (UOpen L level)) else body_at s r).
    { intros r. unfold s3, s2. rewrite body_at_globals, body_at_put. case_decide as HL.
      - subst r. pose proof (th_body _ _ _ Ht1) as ->. done.
      - unfold s1. by rewrite body_at_alloc. }
    assert (Hframe : forall r u, body_at s r = Some (OUpVal u) -> body_at s3 r = Some (OUpVal u)).
    { intros r u Hu. rewrite Hbody, !decide_False; [done|intros E'; rewrite E' in Hu; congruence|intros E'; subst r; congruence]. }
    exists uv, s3, t', (pl ++ level :: ql). split; [done|]. rewrite Hrs in Ho. apply Forall2_app_inv in Ho as [Ho1 Ho2]; [|done].
    assert (Huv : open_at s3 L uv level) by (unfold open_at; rewrite Hbody, decide_False, decide_True; done).
    split.
    + unfold th. by rewrite Hbody, decide_True.
    + by eexists.
    + change (openupval t') with (pre ++ uv :: post). split.
      * apply Forall2_app; [|constructor; [done|]]; (eapply list.Forall2_impl; [eassumption|]); intros r lv; by apply Hframe.
      * by apply sorted_insert.
      * apply Forall_app in Hr as [Hr1 Hr2]. apply Forall_app. split; [done|]. by constructor.
    + split; [|done]. change (openupval t') with (pre ++ uv :: post). apply elem_of_app. right. apply elem_of_cons. by left.
    + change (openupval t') with (pre ++ uv :: post). rewrite Hrs. intros r. rewrite !elem_of_app, elem_of_cons. tauto.
    + intros r b HrL Hrb. rewrite Hbody, !decide_False; [done|intros E'; rewrite E' in Hrb; congruence|done].
    + intros r Hr'. change (brk s3) with (uv + 1) in Hr'. rewrite Hbody, !decide_False; [apply Hb; lia|lia|].
      intros <-. rewrite (Hb L) in HbL; [done|lia].
    + intros r b HrL. rewrite Hbody, decide_False by done. case_decide; [by right|by left].
Qed.

Lemma open_list_unique s L size rs lvs r r' lv :
  open_list s L size rs lvs -> r ∈ rs -> r' ∈ rs -> open_at s L r lv -> open_at s L r' lv -> r = r'.
Proof.
  intros [Ho Hs _] Hr Hr' Hl Hl'. apply list_elem_of_lookup in Hr as [i Hi]. apply list_elem_of_lookup in Hr' as [j Hj].
  destruct (Forall2_lookup_l _ _ _ _ _ Ho Hi) as (l1 & Hi1 & Ho1). destruct (Forall2_lookup_l _ _ _ _ _ Ho Hj) as (l2 & Hj1 & Ho2).
  pose proof (open_at_inj _ _ _ _ _ Hl Ho1) as <-. pose proof (open_at_inj _ _ _ _ _ Hl' Ho2) as <-.
  assert (i = j) as -> by (by eapply sorted_lookup_inj). congruence.
Qed.

(** ** [luaF_close] *)

Definition is_upval (b : body) : Prop := match b with OUpVal _ => True | _ => False end.

(** Tables, closures, userdata and threads stay. *)
Definition keeps_values s s' : Prop := forall r b, body_at s r = Some b -> ~ is_upval b -> exists b', body_at s' r = Some b' /\
  match b, b' with OThread _, OThread _ => True | _, _ => b' = b end.

Lemma val_ok_keeps s s' v : keeps_values s s' -> val_ok s v -> val_ok s' v.
Proof.
  intros Hk. destruct v; cbn; try done; intros [x Hx]; destruct (Hk _ _ Hx) as (b' & Hb & Hm); try (by intros []);
    destruct b'; try discriminate Hm; rewrite Hb; eauto.
Qed.

Lemma put_upval_keeps s r uv uv' : body_at s r = Some (OUpVal uv) -> keeps_values s (put_body r (OUpVal uv') s).
Proof.
  intros Hr r' b Hb Hn. rewrite body_at_put. case_decide as E; [subst; rewrite Hb in Hr; injection Hr as ->; by destruct Hn|].
  exists b. split; [done|]. by destruct b.
Qed.

Lemma udata_ok_put_upval s r uv uv' :
  body_at s r = Some (OUpVal uv) -> udata_ok s -> udata_ok (put_body r (OUpVal uv') s).
Proof.
  intros Hr Hu r' u Hb. rewrite body_at_put in Hb. case_decide as E; [subst; by rewrite Hr in Hb|].
  destruct (Hu r' u Hb) as [He Hm]. pose proof (put_upval_keeps s r uv uv' Hr) as Hk.
  split; [by eapply val_ok_keeps|]. intros mt Hmt. eapply val_ok_keeps; [exact Hk|]. by apply Hm.
Qed.

Lemma alive_put s r b r' : alive s r' -> alive (put_body r b s) r'.
Proof.
  unfold alive, put_body. cbn. intros Ha o. rewrite lookup_alter. case_decide; [subst|by apply Ha].
  destruct (heap s !! r') as [o0|]; [|done]. cbn. intros [= <-]. by apply (Ha o0).
Qed.

(** One upvalue is closed. *)
Lemma close_upval_spec s L t r lv v :
  open_at s L r lv -> th s L = Some t -> getZ (stack t) lv = Some v -> alive s r -> val_ok s v -> udata_ok s ->
  exists s', close_upval r s = Ok tt s' /\
    (forall r', body_at s' r' = if decide (r = r') then Some (OUpVal (UClosed v)) else body_at s r') /\
    (forall r', alive s r' -> alive s' r').
Proof.
  intros Hr Ht Hv Ha Hok Hu. unfold open_at in Hr. set (s1 := set_globals (fun g => set_uvhead (list_remove_first r (uvhead g)) g) s).
  set (s2 := put_body r (OUpVal (UClosed v)) s1).
  assert (H2 : forall r', body_at s2 r' = if decide (r = r') then Some (OUpVal (UClosed v)) else body_at s r').
  { intros r'. unfold s2. rewrite body_at_put. case_decide; [subst|done]. change (body_at s1 r') with (body_at s r'). by rewrite Hr. }
  assert (Hu2 : udata_ok s2) by exact (udata_ok_put_upval s1 r (UOpen L lv) (UClosed v) Hr Hu).
  assert (Hv2 : val_ok s2 v) by exact (val_ok_keeps s1 s2 v (put_upval_keeps s1 r (UOpen L lv) (UClosed v) Hr) Hok).
  assert (Hlink : marks (luaC_linkupval r) s2).
  { unfold luaC_linkupval. apply marks_bind; [by apply marks_modG|]. intros s3 H3. apply marks_getG.
    assert (H3r : body_at s3 r = Some (OUpVal (UClosed v))) by (rewrite (so_body _ _ H3), H2, decide_True; done).
    apply marks_object; [by rewrite H3r|]. intros o _. destruct (isgray o); [|apply marks_ret]. destruct (_ =? _).
    - apply marks_bind; [apply marks_upd; [apply gray2black_recolours|by rewrite H3r]|]. intros s4 H4.
      assert (H4r : body_at s4 r = Some (OUpVal (UClosed v))) by (rewrite (so_body _ _ H4); done).
      assert (H24 : same_objs s2 s4) by (by eapply same_objs_trans).
      unfold marks. rewrite (m_bind_eq _ _ _ _ _ (gco2uv_at _ _ _ H4r)), m_ret_bind.
      apply luaC_barrier_marks; [by rewrite H4r|by eapply val_ok_same|by eapply udata_ok_same].
    - apply marks_upd; [apply makewhite_recolours|by rewrite H3r]. }
  destruct Hlink as (s' & Elink & Hs'). exists s'. split; [|split].
  - unfold close_upval. change ((getG ≫= ?k) s) with (k (G s) s). cbv beta. unfold object, body_at in *.
    unfold mbind at 1, M_bind at 1. destruct (heap s !! r) as [o|] eqn:Eo; [|done]. cbn [valid mret M_ret].
    rewrite (Ha o Eo). unfold unlinkupval. change ((modG ?f ≫= ?k) s) with (k tt (set_globals f s)). cbv beta. fold s1.
    assert (Hr1 : body_at s1 r = Some (OUpVal (UOpen L lv))) by (unfold body_at; cbn; by rewrite Eo).
    rewrite (m_bind_eq _ _ _ _ _ (gco2uv_at s1 r _ Hr1)). cbn iota. rewrite m_bind_bind, (s_stk L s1 t Ht lv v) by done.
    rewrite (m_bind_eq _ _ s1 tt s2); [exact Elink|]. apply set_body_eq. by rewrite Hr1.
  - intros r'. by rewrite (so_body _ _ Hs').
  - intros r' Hr'. apply (so_alive _ _ Hs'). by apply (alive_put s1).
Qed.

(** Those at [level] or above come first. *)
Lemma sorted_split lvs level :
  StronglySorted Z.gt lvs -> exists pl ql, lvs = pl ++ ql /\ Forall (fun lv => level <= lv) pl /\ Forall (fun lv => lv < level) ql.
Proof.
  intros Hs. induction Hs as [|lv lvs Hs (pl & ql & -> & Hp & Hq) Hf]; [by exists [], []|].
  destruct (Z.le_gt_cases level lv) as [Hle|Hgt].
  - exists (lv :: pl), ql. split_and!; [done|by constructor|done].
  - exists [], (lv :: pl ++ ql). split_and!; [done|done|]. constructor; [done|].
    eapply list.Forall_impl; [exact Hf|]. cbn. lia.
Qed.

(** What closing from [level] leaves: [post] is the rest of the list. *)
Record closed s L t level pre pl post s' : Prop := {
cl_thread : th s' L = Some (set_openupval post t);
cl_closed : Forall2 (fun r lv => exists v, getZ (stack t) lv = Some v /\ body_at s' r = Some (OUpVal (UClosed v))) pre pl;
cl_rest : forall r, r ∉ pre -> r <> L -> body_at s' r = body_at s r
}.

Lemma close_open_spec n s L t level rs lvs post ql :
  th s L = Some t -> openupval t = rs ++ post ->
  open_list s L (stacksize t) (rs ++ post) (lvs ++ ql) -> length rs = length lvs ->
  Forall (fun lv => level <= lv) lvs -> Forall (fun lv => lv < level) ql -> (length rs <= n)%nat ->
  Forall (alive s) rs -> udata_ok s -> Forall (fun lv => forall v, getZ (stack t) lv = Some v -> val_ok s v) lvs ->
  exists s', close_loop n L level s = Ok tt s' /\ closed s L t level rs lvs post s'.
Proof.
  revert n s t lvs. induction rs as [|r rs IH]; intros n s t lvs Ht Hrs Hol Hlen Hge Hlt Hn Hal Hu Hv.
  - destruct lvs as [|]; [|done]. cbn [app] in *. exists s. split.
    + assert (Hgoal : (l ← field L openupval;
        match l with
        | [] => mret tt
        | r :: rest => uv ← gco2uv r; lv ← uv_level uv; if level <=? lv then match n with O => late | S n => upd L (set_openupval rest);; close_upval r;; close_loop n L level end else mret tt
        end) s = Ok tt s).
      { rewrite (s_field _ _ _ Ht), Hrs. destruct post as [|r post]; [done|]. destruct Hol as [Ho _ _].
        destruct ql as [|lv ql]; [by inversion Ho|]. apply list.Forall2_cons in Ho as [Hr _].
        rewrite (m_bind_eq _ _ _ _ _ (gco2uv_at _ _ _ Hr)), (m_bind_eq _ _ _ _ _ (uv_level_open s L lv)).
        apply list.Forall_cons in Hlt as [Hlt _]. by rewrite (proj2 (Z.leb_gt _ _)). }
      destruct n; exact Hgoal.
    + split; [rewrite Ht; f_equal; destruct t; cbn in *; by rewrite Hrs|constructor|done].
  - destruct lvs as [|lv lvs]; [done|]. destruct n as [|n]; [cbn in Hn; lia|].
    destruct Hol as [Ho Hs Hr]. cbn [app] in *. apply list.Forall2_cons in Ho as [Hor Ho]. apply StronglySorted_inv in Hs as [Hs Hf].
    apply list.Forall_cons in Hr as [Hlv Hr]. apply list.Forall_cons in Hge as [Hlvl Hge]. apply list.Forall_cons in Hal as [Hal1 Hal].
    apply list.Forall_cons in Hv as [Hv1 Hv]. destruct (getZ_is_Some (stack t) lv Hlv) as [v Hgv].
    cbn [close_loop]. rewrite (s_field _ _ _ Ht), Hrs.
    rewrite (m_bind_eq _ _ _ _ _ (gco2uv_at _ _ _ Hor)), (m_bind_eq _ _ _ _ _ (uv_level_open s L lv)).
    rewrite (proj2 (Z.leb_le _ _)) by lia. rewrite (s_upd _ _ _ Ht).
    set (t1 := set_openupval (rs ++ post) t). set (s1 := put L t1 s).
    assert (HLr : L <> r) by (intros ->; unfold open_at in Hor; by rewrite (th_body _ _ _ Ht) in Hor).
    assert (Ht1 : th s1 L = Some t1) by (apply th_put_eq; by rewrite Ht).
    assert (Hk1 : keeps_values s s1).
    { intros r' b Hb Hnu. unfold s1. rewrite body_at_put. case_decide as E; [subst r'|exists b; split; [done|by destruct b]].
      rewrite Hb. exists (OThread t1). split; [done|]. rewrite (th_body _ _ _ Ht) in Hb. by injection Hb as <-. }
    assert (Hframe : forall r' u, body_at s r' = Some (OUpVal u) -> body_at s1 r' = Some (OUpVal u)).
    { intros r' u Hb. unfold s1. rewrite body_at_put, decide_False; [done|]. intros <-. by rewrite (th_body _ _ _ Ht) in Hb. }
    assert (Hu1 : udata_ok s1).
    { intros r' u Hb. unfold s1 in Hb. rewrite body_at_put in Hb. case_decide as E; [subst r'; by rewrite (th_body _ _ _ Ht) in Hb|].
      destruct (Hu r' u Hb) as [He Hm]. split; [by eapply val_ok_keeps|]. intros mt Hmt. eapply val_ok_keeps; [exact Hk1|]. by apply Hm. }
    destruct (close_upval_spec s1 L t1 r lv v) as (s2 & E2 & Hb2 & Ha2); [by apply Hframe|done|done|by apply alive_put| |done|].
    { eapply val_ok_keeps; [exact Hk1|]. by apply Hv1. }
    rewrite (m_bind_eq _ _ _ _ _ E2).
    assert (Hk2 : keeps_values s1 s2).
    { intros r' b Hb Hnu. rewrite Hb2. case_decide as E; [|exists b; split; [done|by destruct b]].
      subst. rewrite (Hframe _ _ Hor) in Hb. injection Hb as <-. by destruct Hnu. }
    destruct (IH n s2 t1 lvs) as (s3 & E3 & [T3 C3 R3]); try done.
    + unfold th. rewrite Hb2, decide_False by done. by rewrite (th_body _ _ _ Ht1).
    + split; [|done|done].
      assert (Hne : Forall (fun r' => r' <> r) (rs ++ post)).
      { apply list.Forall_forall. intros r' Hin ->. apply list_elem_of_lookup in Hin as [i Hi].
        destruct (Forall2_lookup_l _ _ _ _ _ Ho Hi) as (l' & Hl' & Hol'). pose proof (open_at_inj _ _ _ _ _ Hor Hol') as <-.
        rewrite list.Forall_forall in Hf. apply list_elem_of_lookup_2, Hf in Hl'. lia. }
      assert (Ho' : Forall2 (fun r' l => open_at s L r' l /\ r' <> r) (rs ++ post) (lvs ++ ql)).
      { apply Forall2_same_length_lookup_2; [by eapply Forall2_length|]. intros i r' l' Hi Hi'. split; [by eapply Forall2_lookup_lr|].
        rewrite list.Forall_forall in Hne. apply Hne. by eapply list_elem_of_lookup_2. }
      eapply list.Forall2_impl; [exact Ho'|]. intros r' l' [Hol' Hne']. unfold open_at in *.
      rewrite Hb2, decide_False by congruence. by apply Hframe.
    + cbn in Hlen. congruence.
    + cbn in Hn. lia.
    + eapply list.Forall_impl; [exact Hal|]. intros r' Har. by apply Ha2, alive_put.
    + intros r' u Hb. rewrite Hb2 in Hb. case_decide; [done|]. destruct (Hu1 r' u Hb) as [He Hm].
      split; [by eapply val_ok_keeps|]. intros mt Hmt. eapply val_ok_keeps; [exact Hk2|]. by apply Hm.
    + eapply list.Forall_impl; [exact Hv|]. intros l Hl v' Hv'. eapply val_ok_keeps; [exact Hk2|].
      eapply val_ok_keeps; [exact Hk1|]. by apply Hl.
    + exists s3. split; [exact E3|]. split.
      * rewrite T3. done.
      * constructor; [|done]. exists v. split; [done|].
        destruct (decide (r ∈ rs)) as [Hin|Hnin].
        -- exfalso. apply list_elem_of_lookup in Hin as [i Hi].
           destruct (Forall2_lookup_l _ _ _ i r Ho) as (l' & Hl' & Hol'); [by rewrite lookup_app_l; [|eapply lookup_lt_Some]|].
           pose proof (open_at_inj _ _ _ _ _ Hor Hol') as <-. rewrite list.Forall_forall in Hf. apply list_elem_of_lookup_2, Hf in Hl'. lia.
        -- rewrite R3 by congruence. by rewrite Hb2, decide_True.
      * intros r' Hnin HrL. apply not_elem_of_cons in Hnin as [Hne Hnin]. rewrite R3 by done.
        rewrite Hb2, decide_False by done. unfold s1. by rewrite body_at_put, decide_False.
Qed.

(** An upvalue that is closed keeps its value; one that stays reads a slot that
    has not changed. *)
Lemma close_value s s' L t pre pl post r v :
  th s L = Some t -> th s' L = Some (set_openupval post t) -> Forall2 (open_at s L) pre pl ->
  Forall2 (fun r lv => exists v, getZ (stack t) lv = Some v /\ body_at s' r = Some (OUpVal (UClosed v))) pre pl ->
  (forall r, r ∉ pre -> r <> L -> body_at s' r = body_at s r) ->
  uv_value r s = Ok v s -> uv_value r s' = Ok v s'.
Proof.
  intros Ht T' Ho C' R' Hv. destruct (body_at s r) as [[| | |uv|]|] eqn:Hb;
    try (exfalso; unfold uv_value, gco2uv, object, mbind, M_bind, body_at in *; destruct (heap s !! r) as [[m b]|]; cbn in *; congruence || (injection Hb as ->; discriminate)).
  unfold uv_value in Hv. rewrite (m_bind_eq _ _ _ _ _ (gco2uv_at _ _ _ Hb)) in Hv. destruct (decide (r ∈ pre)) as [Hin|Hnin].
  - apply list_elem_of_lookup in Hin as [i Hi]. destruct (Forall2_lookup_l _ _ _ _ _ Ho Hi) as (lv & Hlv & Hat).
    destruct (Forall2_lookup_lr _ _ _ _ _ _ C' Hi Hlv) as (w & Hw & Hc). unfold open_at in Hat. rewrite Hat in Hb. injection Hb as <-.
    rewrite <- (m_bind_ret_r (stk L lv)), (s_stk _ _ _ Ht _ w _ Hw) in Hv. injection Hv as ->.
    unfold uv_value. by rewrite (m_bind_eq _ _ _ _ _ (gco2uv_at _ _ _ Hc)).
  - assert (HrL : r <> L) by (intros ->; by rewrite (th_body _ _ _ Ht) in Hb).
    unfold uv_value. rewrite (m_bind_eq _ _ _ _ _ (gco2uv_at s' r uv ltac:(by rewrite R'))). destruct uv as [L2 lv|w].
    + unfold stk in *. destruct (decide (L2 = L)) as [->|Hne].
      * rewrite (s_thread _ _ _ Ht) in Hv. rewrite (s_thread _ _ _ T'). cbn [stack set_openupval]. destruct (getZ (stack t) lv); unfold valid, mret, M_ret, wrong in *; congruence.
      * destruct (th s L2) as [t2|] eqn:E2.
        -- rewrite (s_thread _ _ _ E2) in Hv. assert (E2' : th s' L2 = Some t2).
           { unfold th in *. rewrite R'; [done| |done]. intros Hin. apply list_elem_of_lookup in Hin as [i Hi].
             destruct (Forall2_lookup_l _ _ _ _ _ Ho Hi) as (l & _ & Hat). unfold open_at in Hat. by rewrite Hat in E2. }
           rewrite (s_thread _ _ _ E2'). destruct (getZ (stack t2) lv); unfold valid, mret, M_ret, wrong in *; congruence.
        -- exfalso. unfold th, body_at, thread, gco2th, object, mbind, M_bind in *. destruct (heap s !! L2) as [[m [| | | |]]|]; cbn in *; discriminate.
    + unfold mret, M_ret in *; congruence.
Qed.

(** What [luaF_close] does *)
Lemma luaF_close_spec s L t level lvs :
  th s L = Some t -> open_list s L (stacksize t) (openupval t) lvs -> Forall (alive s) (openupval t) -> udata_ok s ->
  Forall (fun lv => forall v, getZ (stack t) lv = Some v -> val_ok s v) lvs ->
  exists s' pre pl post ql, luaF_close L level s = Ok tt s' /\ openupval t = pre ++ post /\ lvs = pl ++ ql /\
    Forall (fun lv => level <= lv) pl /\ Forall (fun lv => lv < level) ql /\
    th s' L = Some (set_openupval post t) /\ open_list s' L (stacksize t) post ql /\
    Forall2 (fun r lv => exists v, getZ (stack t) lv = Some v /\ body_at s' r = Some (OUpVal (UClosed v))) pre pl /\
    (forall r, r ∉ pre -> r <> L -> body_at s' r = body_at s r) /\
    (forall r v, uv_value r s = Ok v s -> uv_value r s' = Ok v s').
Proof.
  intros Ht Hol Ha Hu Hv. pose proof Hol as [Ho Hs Hr]. destruct (sorted_split lvs level Hs) as (pl & ql & -> & Hpl & Hql).
  apply Forall2_app_inv_r in Ho as (pre & post & Ho1 & Ho2 & Hrs). rewrite Hrs in Ha, Hol.
  apply Forall_app in Ha as [Ha _]. apply Forall_app in Hv as [Hv _].
  destruct (close_open_spec (length (openupval t)) s L t level pre pl post ql) as (s' & E & [T' C' R']); try done.
  { by eapply Forall2_length. } { rewrite Hrs, length_app. lia. }
  assert (Hnp : forall r, r ∈ post -> r ∉ pre).
  { intros r Hpost Hpre. apply list_elem_of_lookup in Hpre as [i Hi]. apply list_elem_of_lookup in Hpost as [j Hj].
    destruct (Forall2_lookup_l _ _ _ _ _ Ho1 Hi) as (l1 & H1 & A1). destruct (Forall2_lookup_l _ _ _ _ _ Ho2 Hj) as (l2 & H2 & A2).
    rewrite list.Forall_forall in Hpl, Hql. apply list_elem_of_lookup_2, Hpl in H1. apply list_elem_of_lookup_2, Hql in H2.
    pose proof (open_at_inj _ _ _ _ _ A1 A2). lia. }
  assert (Hnl : forall r lv, open_at s L r lv -> r <> L) by (intros r lv Hr' ->; unfold open_at in Hr'; by rewrite (th_body _ _ _ Ht) in Hr').
  exists s', pre, pl, post, ql. split_and!; try done.
  - unfold luaF_close. by rewrite (s_field _ _ _ Ht).
  - destruct Hol as [_ Hs' _]. apply Forall_app in Hr as [_ Hr2]. split; [|by apply sorted_app_r in Hs'|done].
    apply Forall2_same_length_lookup_2; [by eapply Forall2_length|]. intros i r lv Hi Hi'.
    pose proof (Forall2_lookup_lr _ _ _ _ _ _ Ho2 Hi Hi') as Hat. unfold open_at. rewrite R'; [done| |by eapply Hnl].
    apply Hnp. by eapply list_elem_of_lookup_2.
  - intros r v Hval. by eapply (close_value s s' L t pre pl post).
Qed.

(** ** Properties *)

(** C36: Closures that capture one local variable share it: [luaF_findupval]
    gives an open upvalue whose value is the one of the slot, keeps the list of
    open upvalues sorted by level with no level twice, keeps the stack and every
    object, and gives the same upvalue when it is asked again for that level. *)
Theorem findupval_shares s L t level lvs :
  th s L = Some t -> open_list s L (stacksize t) (openupval t) lvs -> fresh s -> 0 <= level < stacksize t ->
  exists r s' t' lvs' v, luaF_findupval L level s = Ok r s' /\ th s' L = Some t' /\ stack t' = stack t /\
    open_list s' L (stacksize t') (openupval t') lvs' /\ getZ (stack t) level = Some v /\ uv_value r s' = Ok v s' /\
    (forall r' b, r' <> L -> body_at s r' = Some b -> body_at s' r' = Some b) /\
    exists s'', luaF_findupval L level s' = Ok r s''.
Proof.
  intros Ht Ho Hf Hl. destruct (findupval_spec s L t level lvs Ht Ho Hf Hl) as (r & s' & t' & lvs' & E & [T' [rs R] O' [Hin Hat] _ Hk F' _]).
  destruct (getZ_is_Some (stack t) level Hl) as [v Hv]. assert (Hstk : stack t' = stack t) by (by rewrite R).
  exists r, s', t', lvs', v. assert (O2 : open_list s' L (stacksize t') (openupval t') lvs') by (unfold stacksize; by rewrite Hstk).
  split_and!; try done.
  - unfold uv_value. rewrite (m_bind_eq _ _ _ _ _ (gco2uv_at _ _ _ Hat)). cbn iota.
    rewrite <- (m_bind_ret_r (stk L level)), (s_stk _ _ _ T' _ v) by (by rewrite Hstk). done.
  - destruct (findupval_spec s' L t' level lvs' T' O2 F') as (r2 & s2 & t2 & lvs2 & E2 & H2); [unfold stacksize; by rewrite Hstk|].
    exists s2. rewrite E2. f_equal. symmetry. pose proof (fu_list _ _ _ _ _ _ _ _ H2) as O3. destruct (fu_at _ _ _ _ _ _ _ _ H2) as [Hin2 Hat2].
    eapply (open_list_unique _ _ _ _ _ r r2 level O3); [by apply (fu_kept _ _ _ _ _ _ _ _ H2)|done| |done].
    apply (fu_objects _ _ _ _ _ _ _ _ H2); [|done]. intros ->. unfold open_at in Hat. by rewrite (th_body _ _ _ T') in Hat.
Qed.

(** C37: When a block or a function ends its captured variables live on:
    [luaF_close] ends, closes exactly the open upvalues of the thread at [level]
    or above, each with the value its slot had, keeps the others open and the
    stack as it is, and no upvalue of the program changes its value.  The open upvalues are
    alive; dead ones, which the code frees, are met only during a sweep. *)
Theorem close_keeps_values s L t level lvs :
  th s L = Some t -> open_list s L (stacksize t) (openupval t) lvs -> Forall (alive s) (openupval t) -> udata_ok s ->
  Forall (fun lv => forall v, getZ (stack t) lv = Some v -> val_ok s v) lvs ->
  exists s' pre pl post ql, luaF_close L level s = Ok tt s' /\ openupval t = pre ++ post /\ lvs = pl ++ ql /\
    Forall (fun lv => level <= lv) pl /\ Forall (fun lv => lv < level) ql /\
    th s' L = Some (set_openupval post t) /\ open_list s' L (stacksize t) post ql /\
    Forall2 (fun r lv => exists v, getZ (stack t) lv = Some v /\ body_at s' r = Some (OUpVal (UClosed v))) pre pl /\
    (forall r v, uv_value r s = Ok v s -> uv_value r s' = Ok v s').
Proof.
  intros Ht Hol Ha Hu Hv. destruct (luaF_close_spec s L t level lvs Ht Hol Ha Hu Hv)
    as (s' & pre & pl & post & ql & E & Eo & El & Hpl & Hql & T' & O' & C' & _ & K').
  exists s', pre, pl, post, ql. by split_and!.
Qed.
End func.

(** ** Instances: a thread with two captured variables *)

Definition two_open_thread : lua_State :=
  mkthread 0 5 1 0 0 4 [VNil; VString (str "x"); VBoolean 1; VThread 1; VNil] [mkCallInfo 1 0 4 0 0 0]
    0 0 0 true 0 0 None VNil VNil [2; 3] 1 0.

Definition two_open : State :=
  mkState (<[1 := mkobject 1 (OThread two_open_thread)]> (<[2 := mkobject 1 (OUpVal (UOpen 1 3))]> {[3 := mkobject 1 (OUpVal (UOpen 1 1))]}))
    (mkglobal 1 0 [1] [] None [] [] [] [] None VNil 1 [2; 3] [] 200 200) 4.

Lemma two_open_list : open_list two_open 1 (stacksize two_open_thread) (openupval two_open_thread) [3; 1].
Proof.
  split; [repeat constructor| |repeat constructor; vm_compute; done].
  repeat constructor.
Qed.

Lemma two_open_fresh : fresh two_open.
Proof. intros r Hr. unfold body_at, two_open in *. cbn [heap brk] in *. by rewrite !lookup_insert_ne, lookup_singleton_ne by lia. Qed.

Lemma findupval_shares_witness :
  exists s1, luaF_findupval 1 3 two_open = Ok 2 s1 /\
  exists s2, luaF_findupval 1 2 two_open = Ok 4 s2 /\
  exists r s' t' lvs' v, luaF_findupval 1 2 two_open = Ok r s' /\ th s' 1 = Some t' /\ stack t' = stack two_open_thread /\
    open_list s' 1 (stacksize t') (openupval t') lvs' /\ getZ (stack two_open_thread) 2 = Some v /\ uv_value r s' = Ok v s' /\
    (forall r' b, r' <> 1 -> body_at two_open r' = Some b -> body_at s' r' = Some b) /\
    exists s'', luaF_findupval 1 2 s' = Ok r s''.
Proof.
  eexists. split; [vm_compute; reflexivity|]. eexists. split; [vm_compute; reflexivity|].
  apply (findupval_shares two_open 1 two_open_thread 2 [3; 1]);
    [reflexivity|apply two_open_list|apply two_open_fresh|vm_compute; split; [discriminate|reflexivity]].
Defined.

Lemma close_keeps_values_witness :
  exists s' pre pl post ql, luaF_close 1 2 two_open = Ok tt s' /\ openupval two_open_thread = pre ++ post /\ [3; 1] = pl ++ ql /\
    Forall (fun lv => 2 <= lv) pl /\ Forall (fun lv => lv < 2) ql /\
    th s' 1 = Some (set_openupval post two_open_thread) /\ open_list s' 1 (stacksize two_open_thread) post ql /\
    Forall2 (fun r lv => exists v, getZ (stack two_open_thread) lv = Some v /\ body_at s' r = Some (OUpVal (UClosed v))) pre pl /\
    (forall r v, uv_value r two_open = Ok v two_open -> uv_value r s' = Ok v s').
Proof.
  apply (close_keeps_values two_open 1 two_open_thread 2 [3; 1]); [reflexivity|apply two_open_list| | |].
  - repeat constructor; intros o Ho; vm_compute in Ho; injection Ho as <-; reflexivity.
  - intros r u Hb. exfalso. unfold body_at, two_open in Hb. cbn [heap] in Hb. rewrite !lookup_insert, lookup_singleton in Hb.
    repeat case_decide; discriminate.
  - repeat constructor; vm_compute; intros v [= <-]; [eexists; reflexivity|done].
Defined.
