(* ===== verification/PcallFacts.v ===== *)
(** * Protected calls (ldo.c): the state after an error *)

From S2P Require Import Prelude Clib Opcodes Object Debug Table Auxlib State Barrier Func Tm Do Vm Run Lstate Sample StateFacts FuncFacts.

(** What [luaF_close] relies on *)
Record closable s L t lvs : Prop := {
cz_list : open_list s L (stacksize t) (openupval t) lvs;
cz_alive : Forall (alive s) (openupval t);
cz_udata : udata_ok s;
cz_values : Forall (fun lv => forall v, getZ (stack t) lv = Some v -> val_ok s v) lvs
}.

(** The message that a handler finds *)
Definition error_value (errcode : Z) (msg : TValue) : TValue :=
  if errcode =? LUA_ERRMEM then VString (str "not enough memory")
  else if errcode =? LUA_ERRERR then VString (str "error in error handling")
  else msg.

Definition is_error (errcode : Z) : Prop := errcode ∈ [LUA_ERRRUN; LUA_ERRSYNTAX; LUA_ERRMEM; LUA_ERRERR].

Lemma is_error_nz e : is_error e -> (e =? 0) = false.
Proof. unfold is_error. intros He. set_unfold in He. by destruct He as [->|[->|[->|[->|[]]]]]. Qed.

Section pcall.
Context `{Machine} `{Host} `{Cenv} `{Calling}.

(** ** Changes of a thread *)

Lemma put_thread_keeps s L t t' : th s L = Some t -> keeps_values s (put L t' s).
Proof.
  intros Ht r b Hb Hn. rewrite body_at_put. case_decide as E.
  - subst. rewrite (th_body _ _ _ Ht) in Hb |- *. injection Hb as <-. by exists (OThread t').
  - exists b. split; [done|]. by destruct b.
Qed.

Lemma udata_ok_put_thread s L t t' : th s L = Some t -> udata_ok s -> udata_ok (put L t' s).
Proof.
  intros Ht Hu r u Hb. rewrite body_at_put in Hb. case_decide as E; [subst; by rewrite (th_body _ _ _ Ht) in Hb|].
  destruct (Hu r u Hb) as [He Hm]. pose proof (put_thread_keeps s L t t' Ht) as Hk.
  split; [by eapply val_ok_keeps|]. intros mt Hmt. eapply val_ok_keeps; [exact Hk|]. by apply Hm.
Qed.

Lemma closable_put s L t t' lvs :
  th s L = Some t -> stack t' = stack t -> openupval t' = openupval t -> closable s L t lvs -> closable (put L t' s) L t' lvs.
Proof.
  intros Ht Es Eo [Hl Ha Hu Hv]. pose proof (put_thread_keeps s L t t' Ht) as Hk. split.
  - unfold stacksize. rewrite Es, Eo. eapply open_list_frame; [|exact Hl]. intros r u Hb. rewrite body_at_put.
    case_decide as E; [subst; by rewrite (th_body _ _ _ Ht) in Hb|done].
  - rewrite Eo. eapply list.Forall_impl; [exact Ha|]. intros r. apply alive_put.
  - by eapply udata_ok_put_thread.
  - eapply list.Forall_impl; [exact Hv|]. intros lv Hlv v. rewrite Es. intros E. eapply val_ok_keeps; [exact Hk|]. by apply Hlv.
Qed.

(** The value of an upvalue after an update of the thread: it is open in
    a slot that has not changed. *)
Lemma uv_value_put s L t t' r v :
  th s L = Some t -> (forall lv, open_at s L r lv -> getZ (stack t') lv = getZ (stack t) lv) ->
  uv_value r s = Ok v s -> uv_value r (put L t' s) = Ok v (put L t' s).
Proof.
  intros Ht Hslot Hv. destruct (body_at s r) as [[| | |uv|]|] eqn:Hb;
    try (exfalso; unfold uv_value, gco2uv, object, mbind, M_bind, body_at in *; destruct (heap s !! r) as [[m b]|]; cbn in *; congruence || (injection Hb as ->; discriminate)).
  assert (HrL : r <> L) by (intros ->; by rewrite (th_body _ _ _ Ht) in Hb).
  assert (Hb' : body_at (put L t' s) r = Some (OUpVal uv)) by (rewrite body_at_put, decide_False; done).
  unfold uv_value in *. rewrite (m_bind_eq _ _ _ _ _ (gco2uv_at _ _ _ Hb)) in Hv.
  rewrite (m_bind_eq _ _ _ _ _ (gco2uv_at _ _ _ Hb')). destruct uv as [L2 lv|w]; [|unfold mret, M_ret in *; congruence].
  unfold stk in *. destruct (decide (L2 = L)) as [->|Hne].
  - rewrite (s_thread _ _ _ Ht) in Hv. rewrite (s_thread _ _ t') by (apply th_put_eq; eauto). rewrite (Hslot lv Hb).
    destruct (getZ (stack t) lv); unfold valid, mret, M_ret, wrong in *; congruence.
  - destruct (th s L2) as [t2|] eqn:E2.
    + rewrite (s_thread _ _ _ E2) in Hv. rewrite (s_thread _ _ t2) by (by rewrite th_put_ne).
      destruct (getZ (stack t2) lv); unfold valid, mret, M_ret, wrong in *; congruence.
    + exfalso. unfold th, body_at, thread, gco2th, object, mbind, M_bind in *. destruct (heap s !! L2) as [[m [| | | |]]|]; cbn in *; discriminate.
Qed.

(** ** The steps of the recovery *)

Lemma getZ_realloc {A} (x : A) n l i : 0 <= i < n -> i < lenZ l -> getZ (realloc x n l) i = getZ l i.
Proof.
  intros Hi Hl. unfold realloc. destruct (getZ_is_Some l i ltac:(lia)) as [y Hy].
  rewrite getZ_app_l by (unfold lenZ in *; rewrite length_take; lia). rewrite <- (take_drop (Z.to_nat n) l) at 2.
  symmetry. apply getZ_app_l. unfold lenZ in *. rewrite length_take. lia.
Qed.

(** Only the array of calls may change, above the running call. *)
Lemma restore_limit_spec s L t : live s L ->
  exists b, restore_stack_limit L (put L t s) = Ok tt (put L (set_base_ci b t) s) /\
    forall i, 0 <= i <= ci t -> i < size_ci t -> getZ b i = getZ (base_ci t) i.
Proof.
  intros Hl. unfold restore_stack_limit. rewrite (p_thread _ _ Hl).
  assert (Hid : set_base_ci (base_ci t) t = t) by (by destruct t).
  destruct (LUAI_MAXCALLS <? size_ci t); [|exists (base_ci t); by rewrite Hid].
  destruct (ci t + 1 <? LUAI_MAXCALLS) eqn:Hc; [|exists (base_ci t); by rewrite Hid].
  exists (realloc junk_ci LUAI_MAXCALLS (base_ci t)). split; [unfold luaD_reallocCI; by rewrite (p_upd_last _ _ Hl)|]. intros i Hi Hs. apply getZ_realloc; [lia|exact Hs].
Qed.

Lemma seterrorobj_spec s L t e oldtop msg :
  live s L -> is_error e -> 0 <= oldtop < stacksize t ->
  (e = LUA_ERRRUN \/ e = LUA_ERRSYNTAX -> getZ (stack t) (top t - 1) = Some msg) ->
  luaD_seterrorobj L e oldtop (put L t s) =
  Ok tt (put L (set_top (oldtop + 1) (set_stack (setZ (stack t) oldtop (error_value e msg)) t)) s).
Proof.
  intros Hl He Ho Hm. unfold luaD_seterrorobj, set_topM, error_value.
  apply elem_of_cons in He as [->|He]; [|apply elem_of_cons in He as [->|He]; [|apply elem_of_cons in He as [->|He];
    [|apply list_elem_of_singleton in He as ->]]]; cbn -[setZ].
  1,2: rewrite !m_bind_bind, (p_field _ _ Hl), m_bind_bind, (p_stk _ _ Hl t _ msg) by auto.
  all: rewrite (p_setstk _ _ Hl) by done; by rewrite (p_upd_last _ _ Hl).
Qed.

(** The handler of [L] gets the errors that are thrown to it. *)
Lemma rawrun_jump s L t f e s1 t1 :
  th s L = Some t -> f (put L (set_errorJmp (S (errorJmp t)) t) s) = Jump L e s1 -> th s1 L = Some t1 ->
  luaD_rawrunprotected L f s = Ok e (put L (set_errorJmp (errorJmp t) t1) s1).
Proof.
  intros Ht Hf Hthr. unfold luaD_rawrunprotected. rewrite (s_field _ _ _ Ht), (s_upd _ _ _ Ht).
  rewrite (m_bind_eq _ _ _ e s1) by (unfold caught; by rewrite Hf, Z.eqb_refl). by rewrite (s_upd _ _ _ Hthr).
Qed.

(** ** The recovery *)

(** The thread [t'] after the error [e], which was thrown when the thread was [t1],
    for a protected call that began when it was [t]; [c] is the call it was in. *)
Record restored (t t1 : lua_State) (c : CallInfo) (old_top : StkId) (e : Z) (msg : TValue) (t' : lua_State) : Prop := {
rs_ci : ci t' = ci t;
rs_base : base t' = ci_base c;
rs_savedpc : savedpc t' = ci_savedpc c;
rs_nCcalls : nCcalls t' = nCcalls t;
rs_allowhook : allowhook t' = allowhook t;
rs_errorJmp : errorJmp t' = errorJmp t;
rs_errfunc : errfunc t' = errfunc t;
rs_top : top t' = old_top + 1;
rs_message : getZ (stack t') old_top = Some (error_value e msg);
rs_size : stacksize t' = stacksize t1;
rs_stack : forall i, i <> old_top -> getZ (stack t') i = getZ (stack t1) i;
rs_calls : forall i, 0 <= i <= ci t -> i < size_ci t1 -> getZ (base_ci t') i = getZ (base_ci t1) i
}.

(** From the closed upvalues on *)
Lemma recover_spec s L told t e oldtop msg c :
  live s L -> is_error e -> 0 <= oldtop < stacksize t ->
  (e = LUA_ERRRUN \/ e = LUA_ERRSYNTAX -> getZ (stack t) (top t - 1) = Some msg) ->
  getZ (base_ci t) (ci told) = Some c -> errorJmp t = errorJmp told ->
  exists t', restored told t c oldtop e msg (set_errfunc (errfunc told) t') /\ openupval t' = openupval t /\
    (luaD_seterrorobj L e oldtop;;
     upd L (fun t => set_ci (ci told) (set_nCcalls (nCcalls told) t));;
     c ← get_ci L (ci told);
     upd L (fun t => set_allowhook (allowhook told) (set_savedpc (ci_savedpc c) (set_base (ci_base c) t)));;
     restore_stack_limit L) (put L t s) = Ok tt (put L t' s).
Proof.
  intros Hl He Ho Hm Hc Hj.
  rewrite (m_bind_eq _ _ _ _ _ (seterrorobj_spec s L t e oldtop msg Hl He Ho Hm)), (p_upd _ _ Hl), (p_get_ci _ _ Hl _ _ c) by done.
  rewrite (p_upd _ _ Hl).
  match goal with |- context [put L ?x s] => remember x as T eqn:HT end.
  assert (HF : openupval T = openupval t /\ base_ci T = base_ci t /\ stack T = setZ (stack t) oldtop (error_value e msg) /\
    top T = oldtop + 1 /\ errorJmp T = errorJmp t) by (by subst T).
  assert (HN : ci T = ci told /\ base T = ci_base c /\ savedpc T = ci_savedpc c /\ nCcalls T = nCcalls told /\
    allowhook T = allowhook told) by (by subst T).
  clear HT. destruct HF as (Eo & Eb & Es & Et & Ej), HN as (Ec & EB & Ep & En & Ea).
  destruct (restore_limit_spec s L T Hl) as (b & E6 & Hcalls). rewrite E6.
  exists (set_base_ci b T). split; [|by split]. unfold size_ci in Hcalls. rewrite Eb, Ec in Hcalls.
  split; cbn; rewrite ?Es; try congruence; [by apply getZ_setZ_eq|unfold stacksize; cbn; by rewrite Es, lenZ_setZ|intros i Hi; apply getZ_setZ_ne; congruence|exact Hcalls].
Qed.

(** C6: A protected call that catches an error gives its code and puts the thread
    back: the call, the base and the program counter of the caller, the number
    of nested C calls, the hook flag, the handlers of errors and jumps are those
    from before; the stack ends at the old top with the message, its other slots
    are those the error left; the variables captured above the old top are closed,
    and no upvalue changes its value. *)
Theorem pcall_restores s L t func old_top ef e s1 t1 lvs msg c :
  th s L = Some t ->
  func (put L (set_errorJmp (S (errorJmp t)) (set_errfunc ef t)) s) = Jump L e s1 ->
  is_error e -> th s1 L = Some t1 -> closable s1 L t1 lvs -> 0 <= old_top < stacksize t1 ->
  (e = LUA_ERRRUN \/ e = LUA_ERRSYNTAX -> getZ (stack t1) (top t1 - 1) = Some msg) ->
  getZ (base_ci t1) (ci t) = Some c ->
  exists s' t', luaD_pcall L func old_top ef s = Ok e s' /\ th s' L = Some t' /\ restored t t1 c old_top e msg t' /\
    (exists levels, open_list s' L (stacksize t') (openupval t') levels /\ Forall (fun lv => lv < old_top) levels) /\
    (forall r v, (forall lv, open_at s1 L r lv -> r ∈ openupval t1) -> uv_value r s1 = Ok v s1 -> uv_value r s' = Ok v s').
Proof.
  intros Ht Hf He Ht1 Hcz Ho Hm Hc. set (t1' := set_errorJmp (errorJmp t) t1). set (s2 := put L t1' s1).
  assert (Ht2 : th s2 L = Some t1') by (apply th_put_eq; eauto).
  pose proof (closable_put s1 L t1 t1' lvs Ht1 eq_refl eq_refl Hcz) as [Hol Hal Hud Hvs]. fold s2 in Hol, Hal, Hud, Hvs.
  destruct (luaF_close_spec s2 L t1' old_top lvs Ht2 Hol Hal Hud Hvs) as (s3 & pre & pl & post & ql & E3 & Eo & Elv & Hpl & Hql & Ht3 & Hol3 & Hcl & Hrest & Hkeep).
  destruct (recover_spec s3 L t (set_openupval post t1') e old_top msg c (th_live _ _ _ Ht3) He Ho Hm Hc eq_refl) as (t2 & Hrs & Eopen & E4).
  rewrite (put_th _ _ _ Ht3) in E4. set (t' := set_errfunc (errfunc t) t2) in *. assert (Ht' : th (put L t' s3) L = Some t') by (apply th_put_eq; eauto).
  exists (put L t' s3), t'. split_and!; [|exact Ht'|by destruct Hrs; split| |].
  - unfold luaD_pcall. rewrite (s_thread _ _ _ Ht), (s_upd _ _ _ Ht).
    rewrite (m_bind_eq _ _ _ e s2); [|apply (rawrun_jump _ L (set_errfunc ef t) func e s1 t1); [apply th_put_eq; eauto|by rewrite put_put|done]].
    rewrite (is_error_nz e He). cbn [negb]. rewrite m_bind_bind, (m_bind_eq _ _ _ _ _ E3), (m_bind_eq _ _ _ _ _ E4).
    by rewrite (p_upd _ _ (th_live _ _ _ Ht3)).
  - exists ql. rewrite (rs_size _ _ _ _ _ _ _ Hrs). change (openupval t') with (openupval t2). rewrite Eopen. split; [|exact Hql]. eapply open_list_frame; [|exact Hol3].
    intros r u Hb. rewrite body_at_put. case_decide as E; [subst; by rewrite (th_body _ _ _ Ht3) in Hb|done].
  - intros r v Hr Hv. eapply uv_value_put; [exact Ht3| |].
    + intros lv Hlv. eapply (rs_stack _ _ _ _ _ _ _ Hrs). intros ->. destruct (decide (r ∈ pre)) as [Hin|Hnin].
      * apply list_elem_of_lookup in Hin as [i Hi]. destruct (Forall2_lookup_l _ _ _ _ _ Hcl Hi) as (l & _ & w & _ & Hw).
        unfold open_at in Hlv. by rewrite Hw in Hlv.
      * assert (HrL : r <> L) by (intros ->; unfold open_at in Hlv; by rewrite (th_body _ _ _ Ht3) in Hlv).
        assert (Hr1 : open_at s1 L r old_top) by (unfold open_at in *; rewrite Hrest in Hlv by done; unfold s2 in Hlv; by rewrite body_at_put, decide_False in Hlv).
        assert (Hpost : r ∈ post) by (specialize (Hr _ Hr1); change (openupval t1) with (openupval t1') in Hr;
          rewrite Eo in Hr; apply elem_of_app in Hr as [Hr|Hr]; [by destruct Hnin|done]).
        apply list_elem_of_lookup in Hpost as [i Hi]. destruct (Forall2_lookup_l _ _ _ _ _ (ol_open _ _ _ _ _ Hol3) Hi) as (l & Hl & Hat).
        rewrite (open_at_inj _ _ _ _ _ Hlv Hat) in Hql. rewrite list.Forall_forall in Hql. apply list_elem_of_lookup_2, Hql in Hl. lia.
    + apply Hkeep. eapply uv_value_put; [exact Ht1|done|exact Hv].
Qed.
End pcall.

(** ** Instance: an error in a function that has captured two variables *)

(** [error("boom")], with the message in the last slot *)
Definition boom : M unit := setstk 1 4 (VString (str "boom"));; luaD_throw 1 LUA_ERRRUN.

Definition boom_thread : lua_State :=
  set_errorJmp 2 (set_stack [VNil; VString (str "x"); VBoolean 1; VThread 1; VString (str "boom")] two_open_thread).

Definition boom_state : State := put 1 boom_thread two_open.

Lemma boom_closable : closable boom_state 1 boom_thread [3; 1].
Proof.
  split.
  - split; [repeat constructor|repeat constructor|repeat constructor; vm_compute; done].
  - repeat constructor; intros o Ho; vm_compute in Ho; injection Ho as <-; reflexivity.
  - apply (udata_ok_put_thread two_open 1 two_open_thread); [reflexivity|]. intros r u Hb. exfalso.
    unfold body_at, two_open in Hb. cbn [heap] in Hb. rewrite !lookup_insert, lookup_singleton in Hb. repeat case_decide; discriminate.
  - repeat constructor; vm_compute; intros v [= <-]; [eexists; reflexivity|done].
Qed.

Lemma pcall_restores_witness :
  exists s' t', luaD_pcall 1 boom 2 0 two_open = Ok LUA_ERRRUN s' /\ th s' 1 = Some t' /\
    restored two_open_thread boom_thread (mkCallInfo 1 0 4 0 0 0) 2 LUA_ERRRUN (VString (str "boom")) t' /\
    (exists levels, open_list s' 1 (stacksize t') (openupval t') levels /\ Forall (fun lv => lv < 2) levels) /\
    (forall r v, (forall lv, open_at boom_state 1 r lv -> r ∈ openupval boom_thread) -> uv_value r boom_state = Ok v boom_state ->
      uv_value r s' = Ok v s').
Proof.
  apply (pcall_restores two_open 1 two_open_thread boom 2 0 LUA_ERRRUN boom_state boom_thread [3; 1] (VString (str "boom")));
    [reflexivity|vm_compute; reflexivity| |reflexivity|apply boom_closable|vm_compute; split; [discriminate|reflexivity]|reflexivity|reflexivity].
  unfold is_error. set_solver.
Defined.
