(* ===== verification/LoadFacts.v ===== *)
(** * Loading what was saved (ldump.c, lundump.c, ldo.c, lapi.c)

    A function that is dumped and loaded again is a new closure of the same
    prototype, whatever the collector does in between. *)

From S2P Require Import Prelude Clib Opcodes Object Debug Zio Lex LexFacts LexWords Dump DumpFacts Code Parser.
From S2P Require Import Table Auxlib State Barrier Func Tm Do Vm Run Lstate Gc Api Debugapi Laux Load Sample StateFacts FuncFacts.

(** ** New objects *)

Section objects.
Implicit Types (s : State) (r : Z).

(** [s'] is [s] with new objects at the addresses [rs]. *)
Record extended s s' (rs : list (Z * body)) : Prop := {
ex_old : forall r b, body_at s r = Some b -> body_at s' r = Some b;
ex_new : Forall (fun x => body_at s (fst x) = None /\ body_at s' (fst x) = Some (snd x)) rs;
ex_fresh : fresh s'
}.

Lemma new_object_spec b s : fresh s -> exists r s', new_object b s = Ok r s' /\ extended s s' [(r, b)].
Proof.
  intros Hf. exists (brk s). set (s1 := alloc 0 b s).
  assert (H1 : forall r, body_at s1 r = if decide (r = brk s) then Some b else body_at s r) by (intros r; apply body_at_alloc).
  set (s2 := set_globals (fun g => set_rootgc (brk s :: rootgc g) g) s1).
  destruct (upd_object_bodies (brk s) (set_marked (luaC_white (G s))) s2) as (s3 & E3 & H3 & _ & Hbrk);
    [done|exists b; unfold s2; by rewrite body_at_globals, H1, decide_True|].
  assert (Hb : forall r, body_at s3 r = if decide (r = brk s) then Some b else body_at s r).
  { intros r. rewrite H3. unfold s2. by rewrite body_at_globals. }
  exists s3. split; [|split].
  - unfold new_object. change ((luaM_new 0 b ≫= ?k) s) with (k (brk s) s1). cbv beta.
    rewrite (m_bind_eq _ _ s1 tt s3); [done|]. unfold luaC_link. change ((getG ≫= ?k) s1) with (k (G s) s1). cbv beta.
    change ((modG ?f ≫= ?k) s1) with (k tt s2). exact E3.
  - intros r b' Hr. rewrite Hb. case_decide; [subst|done]. rewrite Hf in Hr by lia. done.
  - repeat constructor; cbn; [apply Hf; lia|by rewrite Hb, decide_True].
  - intros r Hr. rewrite Hbrk in Hr. cbn in Hr. rewrite Hb, decide_False by lia. apply Hf. lia.
Qed.

Lemma extended_trans s1 s2 s3 l1 l2 : extended s1 s2 l1 -> extended s2 s3 l2 -> extended s1 s3 (l1 ++ l2).
Proof.
  intros [O1 N1 F1] [O2 N2 F2]. split; [auto| |done]. apply Forall_app. split; eapply list.Forall_impl; try done; cbn; intros x [Ha Hb].
  - split; [done|]. by apply O2.
  - split; [|done]. destruct (body_at s1 (fst x)) as [b|] eqn:E; [|done]. by rewrite (O1 _ _ E) in Ha.
Qed.

(** The upvalues of a loaded function are closed and nil. *)
Lemma new_upvals_spec n s : fresh s ->
  exists rs s', new_upvals n s = Ok (map Some rs) s' /\ length rs = n /\
    extended s s' (map (fun r => (r, OUpVal (UClosed VNil))) rs).
Proof.
  revert s. induction n as [|n IH]; intros s Hf.
  - exists [], s. split; [done|]. split; [done|]. by split.
  - destruct (new_object_spec (OUpVal (UClosed VNil)) s Hf) as (r & s1 & E1 & X1).
    destruct (IH s1 (ex_fresh _ _ _ X1)) as (rs & s2 & E2 & Hn & X2).
    exists (r :: rs), s2. cbn [new_upvals]. unfold luaF_newupval. rewrite (m_bind_eq _ _ _ _ _ E1), (m_bind_eq _ _ _ _ _ E2).
    split; [done|]. split; [cbn; lia|]. exact (extended_trans _ _ _ _ _ X1 X2).
Qed.
End objects.

Section load.
Context `{HM : Machine} `{HH : Host} `{HC : Cenv} `{HLM : LibM} `{HL : Locale} `{HK : Calling} `{HLoc : Locals} `{HS : Scanner}.

(** The bytes of a saved function *)
Definition saved (f : Proto) : bytes := data (luaU_dump f ([] : bytes) false).

Lemma lookahead_block c b : block_ok (c :: b) ->
  exists z, luaZ_lookahead (luaZ_init [c :: b]) = Ret (c, z) /\ contents z = c :: b /\ zio_ok z.
Proof.
  intros (_ & Hb & Hlen). pose proof (proj1 (list.Forall_cons_1 _ _ _ Hb)) as Hc. pose proof (proj2 (list.Forall_cons_1 _ _ _ Hb)) as Hb'.
  exists (mkZIO (lenZ b + 1) (c :: b) []). rewrite lenZ_cons in Hlen. split_and!.
  - unfold luaZ_lookahead, luaZ_init, luaZ_fill. cbn [zn zp reader Z.eqb]. rewrite (char2int_byte c Hc).
    destruct (c =? EOZ) eqn:E; [|done]. unfold is_byte, EOZ in *. lia.
  - unfold contents. cbn. by rewrite app_nil_r.
  - unfold zio_ok. cbn [zn zp reader]. rewrite lenZ_cons. split_and!; [lia|lia|done|constructor].
Qed.

(** What [f_parser] leaves: a closure of [f] on the stack *)
Record loaded s L t (e : Z) f s' t' : Prop := {
ld_thread : th s' L = Some t';
ld_closure : exists r ups, t' = set_top (top t + 1) (set_stack (setZ (stack t) (top t) (VFunction r)) t) /\
  body_at s' r = Some (OClosure (LClosure e f (map Some ups))) /\ length ups = Z.to_nat (Object.nups f) /\
  Forall (fun u => body_at s u = None /\ body_at s' u = Some (OUpVal (UClosed VNil))) ups /\ body_at s r = None;
ld_objects : forall r b, r <> L -> body_at s r = Some b -> body_at s' r = Some b
}.

(** The text is read after the collector had its chance, in the state [s]. *)
Lemma f_parser_loads s0 s L t e f levels name :
  collect luaD_call L s0 = Ok tt s -> th s L = Some t -> fresh s -> l_gt t = VTable e -> 0 <= top t < stacksize t -> 1 < stack_last t - top t ->
  loadable levels f -> 0 <= State.nCcalls t -> State.nCcalls t + Z.of_nat levels <= LUAI_MAXCCALLS -> block_ok (saved f) ->
  exists s' t', f_parser L (luaZ_init [saved f]) name s0 = Ok tt s' /\ loaded s L t e f s' t'.
Proof.
  intros Hcol Ht Hf Hgt Htop Hroom Hl Hn Hmax Hok.
  assert (Hsaved : exists b, saved f = 27 :: b) by (eexists; unfold saved; rewrite luaU_dump_bytes; reflexivity).
  destruct Hsaved as [b Hb]. rewrite Hb in Hok |- *. destruct (lookahead_block 27 b Hok) as (z & Ez & Hc & Hz).
  rewrite <- Hb in Hc. rewrite <- (app_nil_r (saved f)) in Hc.
  destruct (dump_undump_aux f false levels (State.nCcalls t) z name [] Hl Hn Hmax Hz Hc) as (z' & Eu & _).
  destruct (new_object_spec (OClosure (LClosure e f (replicate (Z.to_nat (Object.nups f)) None))) s Hf) as (r & s1 & E1 & X1).
  destruct (new_upvals_spec (Z.to_nat (Object.nups f)) s1 (ex_fresh _ _ _ X1)) as (ups & s2 & E2 & Hups & X2).
  unfold f_parser. rewrite Ez. cbn [pure]. change ((pure (Ret (27, z)) ≫= ?k) s0) with (k (27, z) s0). cbv beta iota.
  rewrite (m_bind_eq _ _ _ _ _ Hcol), (s_field _ _ _ Ht). cbn [Z.eqb Pos.eqb]. rewrite Eu.
  change ((parsed L _ ≫= ?k) s) with (k f s). cbv beta. rewrite (s_field _ _ _ Ht), Hgt.
  unfold luaF_newLclosure. rewrite (m_bind_eq _ _ _ _ _ E1), (m_bind_eq _ _ _ _ _ E2).
  pose proof (ex_new _ _ _ X1) as [[Hr0 Hr1] _]%list.Forall_cons. cbn [fst snd] in Hr0, Hr1.
  pose proof (ex_old _ _ _ X2 _ _ Hr1) as Hr2. set (s3 := put_body r (OClosure (LClosure e f (map Some ups))) s2).
  assert (E3 : set_body r (OClosure (LClosure e f (map Some ups))) s2 = Ok tt s3) by (apply set_body_eq; by rewrite Hr2).
  rewrite (m_bind_eq _ _ _ _ _ E3). pose proof (th_body _ _ _ Ht) as HbL.
  assert (HrL : r <> L) by (intros ->; by rewrite HbL in Hr0).
  assert (Hold : forall r' b', body_at s r' = Some b' -> body_at s3 r' = Some b').
  { intros r' b' Hb'. unfold s3. rewrite body_at_put, decide_False by (intros ->; by rewrite Hr0 in Hb').
    by apply (ex_old _ _ _ X2), (ex_old _ _ _ X1). }
  assert (Ht3 : th s3 L = Some t) by (unfold th; by rewrite (Hold L _ HbL)). pose proof (th_live _ _ _ Ht3) as Hl3.
  rewrite (s_field _ _ _ Ht3). set (t' := set_stack (setZ (stack t) (top t) (VFunction r)) t).
  assert (Estk : (setstk L (top t) (VFunction r);; incr_top L) s3 = Ok tt (put L (set_top (top t + 1) t') s3)).
  { rewrite <- (put_th _ _ _ Ht3) at 1. rewrite (p_setstk _ _ Hl3) by done. unfold incr_top, luaD_checkstack.
    rewrite m_bind_bind, (p_thread _ _ Hl3). change (stack_last (set_stack ?x t)) with (stack_last t). change (top (set_stack ?x t)) with (top t).
    rewrite (proj2 (Z.leb_gt _ _)) by lia. rewrite m_ret_bind. exact (p_upd_last L s3 Hl3 t' (fun t => set_top (top t + 1) t)). }
  rewrite Estk. eexists _, _. split; [reflexivity|]. split.
  - apply th_put_eq. by exists t.
  - exists r, ups. split_and!; [done| |done| |done].
    + rewrite body_at_put, decide_False by done. unfold s3. rewrite body_at_put, decide_True by done. by rewrite Hr2.
    + pose proof (ex_new _ _ _ X2) as Hnew. rewrite List.Forall_map in Hnew. eapply list.Forall_impl; [exact Hnew|].
      cbn. intros u [Hu1 Hu2]. destruct (body_at s u) as [bu|] eqn:Eu'; [by rewrite (ex_old _ _ _ X1 _ _ Eu') in Hu1|].
      split; [done|]. assert (u <> L) by (intros ->; by rewrite HbL in Eu'). assert (u <> r) by (intros ->; by rewrite Hr1 in Hu1).
      rewrite body_at_put, decide_False by done. unfold s3. by rewrite body_at_put, decide_False.
  - intros r' b' Hne Hb'. rewrite body_at_put, decide_False by done. by apply Hold.
Qed.

(** A protected call of a computation that succeeds *)
Lemma pcall_ok s L t func old_top ef s1 t1 :
  th s L = Some t -> func (put L (set_errorJmp (S (errorJmp t)) (set_errfunc ef t)) s) = Ok tt s1 -> th s1 L = Some t1 ->
  luaD_pcall L func old_top ef s = Ok 0 (put L (set_errfunc (errfunc t) (set_errorJmp (errorJmp t) t1)) s1).
Proof.
  intros Ht Hf Ht1. unfold luaD_pcall. rewrite (s_thread _ _ _ Ht), (s_upd _ _ _ Ht).
  assert (Ht2 : th (put L (set_errfunc ef t) s) L = Some (set_errfunc ef t)) by (apply th_put_eq; by exists t).
  rewrite (m_bind_eq _ _ _ 0 (put L (set_errorJmp (errorJmp t) t1) s1)).
  - cbn [negb Z.eqb]. rewrite m_ret_bind, (p_upd _ _ (th_live _ _ _ Ht1)). done.
  - unfold luaD_rawrunprotected. rewrite (s_field _ _ _ Ht2), (s_upd _ _ _ Ht2), put_put.
    rewrite (m_bind_eq _ _ _ 0 s1) by (unfold caught; change (errorJmp (set_errfunc ef t)) with (errorJmp t); by rewrite Hf).
    by rewrite (s_upd _ _ _ Ht1).
Qed.

Lemma fresh_put s L t t' : th s L = Some t -> fresh s -> fresh (put L t' s).
Proof.
  intros Ht Hf r Hr. rewrite body_at_put. case_decide as E; [subst|by apply Hf].
  pose proof (Hf r Hr) as Hn. by rewrite (th_body _ _ _ Ht) in Hn.
Qed.

(** The thread in the protected call, and when it is back from it *)
Definition entered (t : lua_State) : lua_State := set_errorJmp (S (errorJmp t)) (set_errfunc (errfunc t) t).
Definition left_from (t t0 : lua_State) : lua_State := set_errfunc (errfunc t) (set_errorJmp (errorJmp t) t0).

(** C7: A function that is saved with [lua_dump] and loaded with [luaL_loadbuffer]
    is a closure of the same prototype.  The loader lets the collector run
    once ([luaC_checkGC] in f_parser); whatever state [s0] that leaves, with
    or without a collection, the load succeeds, pushes the new closure, with
    the environment of the thread and new upvalues that are nil, and changes
    nothing else in the thread [t0] or in any other object of [s0]. *)
Theorem dump_load s s0 L t t0 r e0 ups0 e f levels name :
  th s L = Some t -> getZ (stack t) (top t - 1) = Some (VFunction r) -> body_at s r = Some (OClosure (LClosure e0 f ups0)) ->
  collect luaD_call L (put L (entered t) s) = Ok tt s0 -> th s0 L = Some t0 -> fresh s0 ->
  l_gt t0 = VTable e -> 0 <= top t0 < stacksize t0 -> 1 < stack_last t0 - top t0 ->
  loadable levels f -> 0 <= State.nCcalls t0 -> State.nCcalls t0 + Z.of_nat levels <= LUAI_MAXCCALLS -> block_ok (saved f) ->
  exists s' t', (x ← lua_dump L; luaL_loadbuffer L (snd x) name) s = Ok 0 s' /\ loaded s0 L (left_from t t0) e f s' t'.
Proof.
  intros Ht Htr Hr Hcol Ht0 Hf Hgt Htop Hroom Hl Hn Hmax Hok.
  destruct (f_parser_loads (put L (entered t) s) s0 L t0 e f levels name Hcol Ht0 Hf Hgt Htop Hroom Hl Hn Hmax Hok)
    as (s1 & t1 & E1 & [Ht1 (r' & ups & Et1 & Hr' & Hlen & Hups & Hr0) Hobj]).
  eexists _, _. split.
  - unfold lua_dump. rewrite m_bind_bind, (s_field _ _ _ Ht), m_bind_bind, (s_stk _ _ _ Ht _ _ _ Htr), m_bind_bind.
    rewrite (m_bind_eq _ _ _ _ _ (gco2cl_at _ _ _ Hr)), m_ret_bind. cbn [snd]. fold (saved f).
    unfold luaL_loadbuffer, lua_load, luaD_protectedparser.
    assert (Hne : (lenZ (saved f) =? 0) = false) by (destruct Hok as [Hne _]; destruct (saved f) as [|c d]; [done|rewrite lenZ_cons; pose proof (lenZ_nonneg d); lia]).
    rewrite Hne, (s_thread _ _ _ Ht). cbn [default]. by apply (pcall_ok s L t _ _ _ s1 t1).
  - rewrite Et1. pose proof (th_live _ _ _ Ht1) as Hl1.
    assert (HnL : forall x, body_at s0 x = None -> x <> L) by (intros x Hx ->; by rewrite (th_body _ _ _ Ht0) in Hx).
    split.
    + by apply th_put_eq.
    + exists r', ups. split_and!; [by destruct t0| |done| |done].
      * rewrite body_at_put, decide_False; [done|]. by apply not_eq_sym, HnL.
      * eapply list.Forall_impl; [exact Hups|]. cbn. intros u [Hu Hu']. split; [done|].
        rewrite body_at_put, decide_False; [done|]. by apply not_eq_sym, HnL.
    + intros x b Hx Hb. rewrite body_at_put, decide_False by done. by apply Hobj.
Qed.
End load.

(** ** Instance: a function with a nested one, and a collection *)

Definition saving_thread : lua_State :=
  mkthread 0 2 1 0 0 30 (VNil :: VFunction 2 :: replicate 34 VNil) [mkCallInfo 1 0 20 0 0 0]
    0 0 0 true 0 0 None (VTable 3) VNil [] 1 0.

Definition empty_table : Table := mkTable 255 None [] 0 [dummynode] true 0.

(** The function, the table of globals, and a table that nothing refers to *)
Definition saving : State :=
  mkState (list_to_map [(1, mkobject 97 (OThread saving_thread)); (2, mkobject 1 (OClosure (LClosure 3 outer_proto [])));
      (3, mkobject 1 (OTable empty_table)); (4, mkobject 1 (OTable empty_table))])
    (mkglobal 33 GCSpause [4; 3; 2; 1] [] None [] [] [] [] None (VTable 3) 1 [] [None] 200 200) 5.

#[local] Instance nothing_called : Calling := fun _ _ _ => mret tt.
#[local] Instance no_token : Scanner := {| junk_token := mkToken TK_EOS SNone |}.
#[local] Instance no_sizes : Sizes := {|
  sizeof_Table := 0; sizeof_TValue := 0; sizeof_Node := 0; sizeof_lua_State := 0; sizeof_CallInfo := 0;
  sizeCclosure _ := 0; sizeLclosure _ := 0
|}.

(** Every check for a collection makes a full one. *)
#[local] Instance collecting : Machine := {|
  junk := VNil;
  junk_ci := mkCallInfo 0 0 0 0 0 0;
  cfunction _ _ _ := wrong;
  hook_function _ _ _ _ _ _ := wrong;
  panic_function _ _ := mret tt;
  collect _ L := luaC_fullgc (H := sample_machine) 40 L
|}.

(** The state when the text of the function is read *)
Definition saving_collected : State :=
  match collect (Machine := collecting) luaD_call 1 (put 1 (entered saving_thread) saving) with
  | Ok _ s => s | _ => saving
  end.

Definition saving_thread' : lua_State := default saving_thread (th saving_collected 1).

Lemma saving_fresh : fresh saving_collected.
Proof.
  intros r Hr. unfold body_at. destruct (heap saving_collected !! r) as [o|] eqn:E; [|done].
  assert (Hb : Forall (fun x => x.1 < brk saving_collected) (map_to_list (heap saving_collected))) by (apply (bool_decide_unpack _); by vm_compute).
  apply elem_of_map_to_list in E. rewrite List.Forall_forall in Hb.
  apply list_elem_of_In in E. specialize (Hb _ E). cbn in Hb. lia.
Qed.

(** The collection takes the table away, and the function is loaded. *)
Lemma dump_load_witness :
  (body_at saving 4 = Some (OTable empty_table) /\ body_at saving_collected 4 = None) /\
  exists s' t', (x ← lua_dump 1; luaL_loadbuffer 1 (snd x) (str "=x")) saving = Ok 0 s' /\
    loaded saving_collected 1 (left_from saving_thread saving_thread') 3 outer_proto s' t'.
Proof.
  split; [by vm_compute|].
  apply (dump_load (HM := collecting) saving saving_collected 1 saving_thread saving_thread' 2 3 [] 3 outer_proto 2 (str "=x")).
  1-5: vm_compute; reflexivity.
  - apply saving_fresh.
  - vm_compute; reflexivity.
  - by vm_compute.
  - vm_compute; reflexivity.
  - apply outer_loadable.
  - vm_compute. discriminate.
  - vm_compute. discriminate.
  - split; [vm_compute; discriminate|]. split; [apply outer_bytes_ok|vm_compute; reflexivity].
Defined.
